(* ===== verification/_CoqProject ===== *)
-Q . S2P
Prelude.v
Point.v
Vote.v
Slice.v
Ballot.v
Voteproof.v
LastPoint.v
Voterecords.v
Ballotbox.v
FixedTree.v
Bytes.v
LockedMap.v
SuffrageVoting.v
SuffrageState.v
Batch.v
Block.v
State.v
SuffrageProof.v
Handover.v
States.v
Broadcast.v
Processors.v
Handlers.v
Node.v
NodeLaws.v
NodeSafety.v
Leveldb.v
Frame.v
Tempdb.v
Center.v
Stored.v
CenterLaws.v
CenterHistory.v
Effects.v
LocalFS.v
Writer.v
WriterLaws.v
WriterValid.v
Importer.v
ImporterLaws.v
Syncer.v
SyncerLaws.v
Proposals.v
Pool.v
PoolLaws.v
CleanLaws.v
Maker.v
MakerLaws.v
Ps.v
Hint.v
