(* ===== verification/Prelude.v ===== *)
(** * A verification development for the mitum2 consensus node

    mitum2 is the node of a permissioned blockchain in Go.  A suffrage of nodes
    agrees on blocks height by height, and in rounds within a height: every
    node votes twice, an INIT ballot for the previous block and the proposal, an
    ACCEPT ballot for the processed block.  Ballots are counted into
    voteproofs, which move every node on to the next point.  Nodes that do not
    answer can be expelled from the voting by signed expel operations.  A node is
    in one state at a time - booting, joining, consensus, syncing, handover, ... -
    and its place in the consensus can be handed over to another node with the
    same key.  Blocks are kept in temporary databases, which are merged into a
    permanent one.  A node that is behind brings the blocks it misses from others.

    ** How the development follows the program

    The data that nodes exchange:
    - [Prelude]: the results of Go functions ([res]: a value, an error or a
      panic), machine integers, list lemmas, tactics.
    - [Point] ([base/point.go], [base/stage.go]): heights, rounds, points, stage
      points, with [int64] and [uint64] arithmetic that wraps.
    - [Vote] ([base/threshold.go], [base/vote.go]): thresholds in IEEE binary64
      and the count of votes.
    - [Slice] ([util/slice.go]): the helpers the validators are written with.
    - [Ballot] ([base/ballot.go], [base/ballot_isvalid.go],
      [base/base_operation.go], [base/fact.go], [isaac/ballot_fact.go],
      [isaac/ballot_sign.go], [isaac/suffrage.go],
      [isaac/suffrage_operation.go]): the facts nodes vote for, their signatures,
      expel operations, suffrages and the suffrage left by expels.
    - [Voteproof] ([isaac/voteproof.go], [isaac/voteproof_isvalid.go],
      [base/voteproof_isvalid.go], [isaac/ballot.go]): the six types of
      voteproof, ballots, and every check another node makes on them.
    - [FixedTree] ([util/fixedtree]): the hash trees of a block and the proofs of
      their keys.
    - [Bytes] ([util/bytes.go], [util/int.go]), [Frame]
      ([isaac/database/frame.go]): lengthed bytes and frames over readers and
      writers, and the values stored in them.
    - [Block] ([isaac/block.go], [isaac/block/map.go],
      [isaac/block/validator.go], [base/block.go]): manifests, block maps and
      their chain.  [State] ([base/base_state.go], [base/state.go],
      [isaac/block/states_merger.go]): states and the merging of what the
      operations of a block write.  [SuffrageProof] ([isaac/block/suffrage.go],
      [isaac/suffrage_builder.go], [isaac/last_consensus_nodes_watcher.go]): the
      proofs of suffrages, their history and the watcher of the last one.

    Voting:
    - [LastPoint] ([isaac/lastpoint.go], [isaac/last_voteproofs.go]): which ballots
      and voteproofs are news, and the memory of the last voteproofs.
    - [Voterecords] and [Ballotbox] ([isaac/states/ballotbox.go]): the votes of
      one stage point until they make a voteproof; the box of all of them, over
      a heap of records that are recycled through a pool.
    - [SuffrageVoting] ([isaac/suffrage_voting.go], the expels of
      [isaac/database/pool.go]): how expels are collected from the nodes and which
      of them a node puts into its ballot.
    - [SuffrageState] ([isaac/suffrage_state.go], the suffrage operations of
      [isaac/operation], the loop over operations of
      [isaac/proposal_processor.go]): how the operations of a block change the
      suffrage and its candidates.

    A node:
    - [States] ([isaac/states/states.go], [states_handover.go], [handler.go]): the
      current state, its switches and everything that asks for one, over an
      interface of handlers ([Class] with its laws).
    - [Handlers] ([isaac/states/consensus.go], [joining.go], [syncing.go],
      [handover.go], [booting.go], [broken.go] and what they share): the handlers
      of all states; their goroutines are jobs.  [Processors]
      ([isaac/proposal_processors.go], [proposal_processor.go]): the processing
      of a proposal, to the saved block.  [Broadcast] ([isaac/states/ballot.go],
      [broadcast.go]): the ballots a node keeps and sends.  [Handover]
      ([isaac/states/handover_x.go], [handover_y.go], [handover_message.go]): the
      two ends of a handover.
    - [Node]: all of these together, as the steps of one node; [NodeLaws]: its
      handlers have the laws that [States] asks of handlers; [NodeSafety]: what
      holds in every run of it.

    What a node stores:
    - [Leveldb] ([storage/leveldb]): the storage and the parts of it under a
      prefix, over an interface of LevelDB.
    - [Tempdb] ([isaac/database/leveldb.go], [block_write.go],
      [temp_leveldb.go]), [Center] ([perm_base.go], [perm_leveldb.go],
      [center.go]): the databases of blocks.
    - [Stored]: the keys, and that a block write leaves what it was given;
      [CenterLaws], [CenterHistory]: the databases answer like a chain of blocks.
    - [Pool] ([isaac/database/pool.go]): proposals, operations, expels, ballots and
      empty heights that wait for the next blocks; [PoolLaws]: its operations;
      [CleanLaws]: what its cleaning removes.

    How a block comes about, and how it gets to other nodes:
    - [Proposals] ([isaac/proposal.go], [isaac/proposer_selector.go]): proposals and
      whose turn it is.  [Maker] ([isaac/proposal_maker.go],
      [isaac/proposal_selector.go], [launch/p_proposal_maker.go]): how a proposal is
      made from the pool and got from its proposer; [MakerLaws].
    - [LocalFS] ([isaac/block/localfs_writer.go], [localfs_importer.go],
      [reader.go]): the files of a block and their readers.  [Writer]
      ([isaac/block/writer.go], [isaac/proposal_processor.go]): the operations of a
      proposal in workers, the trees, states, files and the database;
      [WriterLaws], [WriterValid]: what is written is valid.
    - [Importer] ([isaac/block/importer.go], [import_block.go]): one block from
      elsewhere, and a range of them.  [Syncer] ([isaac/states/syncer.go]): from the
      last block of the node to a height it is told of; [ImporterLaws],
      [SyncerLaws].  The importers of a range are an interface
      ([Importer.BlockImporters]), as is the database a writer writes to
      ([Writer.BlockWriteDatabase]), which [Tempdb] implements.

    Tools: [LockedMap] ([util/lock.go]): locked values and sharded maps.  [Batch]
    ([util/worker.go]): work in batches, whose jobs end in any order.  [Effects]
    ([util/worker.go], [util/retry.go]): computations over a world, which keeps what
    was done before a failure, their triples and workers.  [Ps] ([util/ps/ps.go]):
    the processes a node is started with.  [Hint] ([util/version.go], [util/hint]):
    versions, hints and the set of what is compatible with a hint.

    A struct is a record, an interface with known implementations an inductive
    type, a method a function of its receiver that returns the new receiver when
    it changes it.  Definitions keep the Go names; where two types share a
    method name it carries the type ([Point_Compare]) or a letter for it
    ([t_State], [p_State], [c_State]).  Loops are structural, or take fuel; the
    theorems say which fuel is enough.  Goroutines are separate steps where they
    share state with others, and jobs in any order where they do not.

    ** What is a parameter

    Hashing, signatures, base58 and the syntax of addresses are the classes
    [Ballot.Crypto] and [Block.BlockCrypto]; SHA-256 in trees is
    [FixedTree.TreeHash]; LevelDB is [Leveldb.LevelDB], caches of another package
    [Tempdb.GCache], encoders [Frame.Encoders] and [Frame.Codec]; the LRU cache,
    the suffrage lookup, the clock and the iteration order of Go maps are
    arguments.  What is assumed of them is a class of laws or stated where it is
    used: that [sha256] gives 32 bytes, that a reader keeps the contract of
    [io.Reader], that a visiting order is a permutation of the entries, that
    [sort.Slice] permutes, that an encoder reads what it wrote.  The constraints an
    application puts on suffrage operations are arguments of the processors.  The
    answers of other nodes, the turns of tickers, the order in which a worker runs its
    jobs, and the parser of semantic versions ([Hint.Semver]) are arguments too.

    ** What the theorems show

    - Safety of a node: whatever it is asked and however its timers, goroutines
      and switches interleave, it signs one ballot for a stage point and kind, as
      long as no mimic ballot races with a timer or another one
      ([node_single_ballot]); it writes blocks in order and only those that were
      agreed on ([saves_agreed]), changes its state only as permitted
      ([switch_permitted], [ensureSwitchState_ends]), gives one proposal for a point
      and a previous block until the cleaning of the pool finds it old
      ([one_proposal]), is never in two handovers ([handovers_exclusive]); a handover
      ends with a voteproof only after enough answers, and does end with an honest
      partner ([finish_after_answers], [handover_completes]).
    - Agreement: two majorities, and two valid voteproofs without expels, of a
      suffrage agree unless more nodes than it tolerates voted twice
      ([majority_agreement], [voteproof_agreement]); [FindVoteResult] is exactly
      majority, no longer reachable, or still open.
    - The box: votes are final ([votes_are_final]), heights never go back
      ([ballotbox_never_goes_back]), the plain voteproofs it makes of valid votes of
      members pass the validation of the others ([produced_voteproof_valid]), nothing
      panics on valid input ([last_voteproofs_never_panic]).
    - Expels and the suffrage: the suffrage left by expels, the expels found for
      a ballot among those that the traversal of the pool reaches, and how a block changes suffrage and candidates, whatever order
      the workers finish in ([NewSuffrageWithExpels_correct], [Find_correct],
      [suffrage_update], [candidates_update]).
    - Blocks and proofs: batches of block maps and of suffrage proofs succeed
      exactly for a chain, when the others answer what they are asked
      ([BatchIsValidMaps_chain], [buildBatch_chain]); states do not depend on the order
      of operations that agree on what they write ([states_order_independent]);
      trees, their proofs, bytes and frames round trip ([Writer_Tree_valid],
      [extracted_proof_proves], [frame_roundtrip], [frame_value_roundtrip]).
    - The databases: after a history of saving, merging (also in part), cleaning and
      removing, in which each block write has its own prefix and cache and the oldest
      temporary database is not removed, reads through all caches answer like the
      chain of blocks ([center_answers], [center_saves], [center_suffrage_proofs]);
      merging all ends with the newest block left ([MergeAllPermanent_ends]).
    - The pool and proposals: the entries of an operation agree, and the operations of
      a proposal come in their order and as the filter asks ([entries_agree],
      [OperationHashes_selects]); what is given is not given again ([given_once]); the
      cleaning removes old heights only ([cleanByHeight_removes]); nodes agree on the proposer, and every node has its turn ([proposer_agreed],
      [proposers_in_turn]).
    - Blocks from proposal to disk: a block without receipts and reasons that was saved
      is read back and passes the validation of blocks, whatever order the workers ran
      in ([saved_block_valid]);
      one that is imported has what its block map says ([imported_block_checked]).
    - Syncing: a range of blocks reaches the database in order and without a gap, and
      how much of it ([ImportBlocks_merges]); when the others answer the heights they
      are asked for, the blocks of a sync are a chain from the last block of the node
      ([doSync_chain]), and no height that was added is forgotten
      ([syncer_not_forgets]).
    - Starting a node: processes run once, after what they require ([PS_Run_in_order]).
      The set of hints finds the newest version ([Find_newest]).
    - Where the code does not do what it means to, a theorem states what it does;
      those are named in the findings, such as [forged_key_proved],
      [mimic_race_timer], [cleaned_another], [proof_before_temps].

    ** Bounds

    Theorems about rounding and agreement are for suffrages up to 1000 nodes
    ([Vote.max_quorum]), where the float arithmetic is checked exhaustively;
    trees are below [FixedTree.max_size] nodes, where the code's logarithms are
    exact; byte slices are below [2^63 - 9] bytes; heights in the databases are
    below [2^63 - 1].  The masks of the combinations of expels are an [int], which
    overflows from 64 expels on ([no_masks]).

    ** What is not modelled, and what comes next

    Fuel is an argument or a length.  It is enough in batches when it is the number of
    heights ([batches_cover]), in [PS_Run] and [Verbose] when it is above the number of
    requirements in a row ([PS_Run_in_order]; processes that require each other in a
    circle have no end in the code either), in [Version_Compare] with the characters
    of the prerelease ([prerelease_ends]).  For the retries of the syncer it is how
    often a call is tried before its context is done; the theorems hold for any.  For
    the cleaning of the pool ([clean_removed]) no bound is proved.

    ** Not modelled

    JSON, the network ([isaac/network], [network]), Redis, flags, the parameters and the
    wiring of a node ([launch]) are I/O, third-party calls or plain fields; keys and
    addresses are behind [Ballot.Crypto].  The files of a block are lists of lines: their
    text, their compression, the finding of remote files and the search for the
    highest block on the disk are left out.  Timers are steps without durations;
    deadlines and logging are left out.  In the databases a read is one step: a read
    that runs while a merge writes is not covered.  [CenterHistory] begins on an empty
    disk; loading a center that was there before is defined ([NewCenter]), its theorem
    is open.  Of the pool, the theorems are about its operations; those about
    proposals are in [MakerLaws], those about expels in [SuffrageVoting].
    [Ps] has processes as values, so what two lists of processes share through pointers
    is not in it.  The stuck resolver, the network policy operation, access control and
    rate limits are not modelled yet; nothing in them stands in the way. *)
From stdpp Require Export base list strings gmap sorting.
From Stdlib Require Export ZArith Lia.

Declare Scope mitum_scope.
Delimit Scope mitum_scope with mitum.

(** ** Results of Go functions

    A Go function returning [(T, error)] either returns a value, or an error;
    a nil dereference, a failed type assertion or an index out of range is a
    run-time panic.  Errors are identified by a short text: [errors.Is] on a
    sentinel is equality of that text. *)
Inductive res (A : Type) : Type :=
  | Ok (a : A)
  | Err (e : string)
  | Panic.
Arguments Ok {A} _.
Arguments Err {A} _.
Arguments Panic {A}.

#[global] Instance res_ret : MRet res := fun A a => Ok a.
#[global] Instance res_bind : MBind res := fun A B f m =>
  match m with
  | Ok a => f a
  | Err e => Err e
  | Panic => Panic
  end.
#[global] Instance res_fmap : FMap res := fun A B f m =>
  match m with
  | Ok a => Ok (f a)
  | Err e => Err e
  | Panic => Panic
  end.
#[global] Instance res_eq_dec {A} `{EqDecision A} : EqDecision (res A).
Proof. solve_decision. Defined.

(** A Go [error] alone: [Ok tt] is the nil error. *)
Abbreviation err := (res unit).

Definition is_ok {A} (r : res A) : bool :=
  match r with Ok _ => true | _ => false end.

(** [if cond { return err }]. *)
Definition guard_err (c : bool) (e : string) : err :=
  if c then Err e else Ok tt.

(** [util.CheckIsValiders]: the first error of a list of checks. *)
Fixpoint check_all (cs : list err) : err :=
  match cs with
  | [] => Ok tt
  | c :: cs => match c with Ok _ => check_all cs | e => e end
  end.

Lemma check_all_ok (cs : list err) :
  check_all cs = Ok tt <-> Forall (fun c => c = Ok tt) cs.
Proof.
  induction cs as [|c cs IHcs]; simpl; [by rewrite Forall_nil|].
  rewrite Forall_cons. destruct c as [[]|e|]; [|naive_solver..].
  rewrite IHcs. naive_solver.
Qed.

Lemma guard_err_ok c e : guard_err c e = Ok tt <-> c = false.
Proof. destruct c; simpl; naive_solver. Qed.

Lemma bind_ok {A B} (m : res A) (f : A -> res B) b :
  m ≫= f = Ok b <-> exists a, m = Ok a /\ f a = Ok b.
Proof.
  destruct m as [a|e|]; simpl; split; intros Hm; try done; eauto.
  - destruct Hm as (? & [= ->] & ?). done.
  - by destruct Hm as (? & ? & ?).
  - by destruct Hm as (? & ? & ?).
Qed.

Lemma bind_err_ok {A} (m : err) (k : unit -> res A) a :
  m ≫= k = Ok a <-> m = Ok tt /\ k tt = Ok a.
Proof.
  rewrite bind_ok. split; [by intros ([] & ? & ?)|]. intros []. by exists tt.
Qed.

Lemma is_ok_true {A} (r : res A) : is_ok r = true <-> exists a, r = Ok a.
Proof. destruct r as [a|e|]; simpl; split; try done; eauto; by intros []. Qed.

(** ** Machine integers: two's complement wrap-around at 64 and 32 bits *)
Definition wrap_u (w x : Z) : Z := x `mod` 2 ^ w.
Definition wrap_s (w x : Z) : Z := (x + 2 ^ (w - 1)) `mod` 2 ^ w - 2 ^ (w - 1).

Definition u64 (x : Z) : Prop := (0 <= x < 2 ^ 64)%Z.
Definition i64 (x : Z) : Prop := (- 2 ^ 63 <= x < 2 ^ 63)%Z.

Lemma wrap_u_small w x : (0 <= x < 2 ^ w)%Z -> wrap_u w x = x.
Proof. apply Z.mod_small. Qed.

Lemma wrap_s_small w x :
  (0 < w)%Z -> (- 2 ^ (w - 1) <= x < 2 ^ (w - 1))%Z -> wrap_s w x = x.
Proof.
  intros Hw Hx. unfold wrap_s.
  assert (2 ^ w = 2 * 2 ^ (w - 1))%Z as Hp.
  { rewrite <- Z.pow_succ_r by lia. f_equal; lia. }
  rewrite Z.mod_small; lia.
Qed.

Lemma wrap_u_u64 x : u64 (wrap_u 64 x).
Proof. apply Z.mod_pos_bound. lia. Qed.

Lemma wrap_s_i64 x : i64 (wrap_s 64 x).
Proof.
  unfold wrap_s, i64. change (64 - 1)%Z with 63%Z.
  pose proof (Z.mod_pos_bound (x + 2 ^ 63) (2 ^ 64)). lia.
Qed.

(** ** Go string order: bytewise lexicographic *)
Definition str_ltb (a b : string) : bool := bool_decide (String.le a b /\ a <> b).

Lemma str_ltb_lt a b : str_ltb a b = true <-> (String.le a b /\ a <> b).
Proof. unfold str_ltb. by rewrite bool_decide_eq_true. Qed.

Lemma str_ltb_ge a b : str_ltb a b = false <-> String.le b a.
Proof.
  unfold str_ltb. rewrite bool_decide_eq_false. split.
  - intros H. destruct (total String.le a b) as [Hle|]; [|done].
    destruct (decide (a = b)) as [->|]; [done|]. tauto.
  - intros H [H1 H2]. apply H2. by apply (anti_symm String.le).
Qed.

(** ** Lists without duplicates *)
Lemma subset_length {A} `{EqDecision A} (l1 l2 : list A) :
  NoDup l1 -> l1 ⊆ l2 -> (length l1 <= length l2)%nat.
Proof. intros H1 H2. by apply submseteq_length, NoDup_submseteq. Qed.

Lemma filter_split_length {A} (P : A -> Prop) `{!forall x, Decision (P x)} (l : list A) :
  (length (filter P l) + length (filter (fun x => ~ P x) l) = length l)%nat.
Proof.
  induction l as [|x l IH]; [done|]. rewrite !filter_cons.
  destruct (decide (P x)); [rewrite decide_False by tauto|rewrite decide_True by done];
    simpl; lia.
Qed.

(** Removing a duplicate free sublist. *)
Lemma filter_not_in_length {A} `{EqDecision A} (e l : list A) :
  NoDup e -> NoDup l -> e ⊆ l ->
  (length (filter (fun x => x ∉ e) l) + length e = length l)%nat.
Proof.
  intros He Hl Hsub. rewrite <- length_app. apply Permutation_length.
  apply NoDup_Permutation.
  - apply NoDup_app. split_and!; [by apply NoDup_filter| |done].
    intros x Hx. by apply list_elem_of_filter in Hx as [? _].
  - done.
  - intros x. rewrite elem_of_app, list_elem_of_filter.
    destruct (decide (x ∈ e)) as [Hx|Hx]; [|naive_solver].
    split; [intros _; by apply Hsub|auto].
Qed.

(** Inclusion-exclusion on duplicate free sublists of a list. *)
Lemma overlap_length {A} `{EqDecision A} (a b l : list A) :
  NoDup a -> NoDup b -> a ⊆ l -> b ⊆ l ->
  (length a + length b <= length l + length (filter (fun x => x ∈ b) a))%nat.
Proof.
  intros Ha Hb Hal Hbl.
  assert (length (filter (fun x => x ∉ b) a ++ b) <= length l)%nat as Hlen.
  { apply subset_length.
    - apply NoDup_app. split_and!; [by apply NoDup_filter| |done].
      intros x Hx. by apply list_elem_of_filter in Hx as [? _].
    - intros x [Hx|Hx]%elem_of_app; [|by apply Hbl].
      apply list_elem_of_filter in Hx as [_ Hx]. by apply Hal. }
  rewrite length_app in Hlen. pose proof (filter_split_length (fun x => x ∈ b) a). lia.
Qed.

Lemma NoDup_fmap_filter {A B} (f : A -> B) (P : A -> Prop) `{!forall x, Decision (P x)} l :
  NoDup (f <$> l) -> NoDup (f <$> filter P l).
Proof. intros Hnd. eapply sublist_NoDup; [exact Hnd|]. apply fmap_sublist, sublist_filter. Qed.

(** ** Automation *)

(** Case analysis on every [match]/[if] of the goal and hypotheses. *)
Ltac case_all :=
  repeat (case_match; simplify_eq/=; try done).

(** Turns every successful [res] hypothesis into its pieces. *)
Ltac res_inv :=
  repeat match goal with
  | H : mbind _ _ = Ok _ |- _ =>
      apply bind_ok in H; destruct H as (? & ? & ?)
  | H : guard_err _ _ = Ok _ |- _ => apply guard_err_ok in H
  | H : check_all _ = Ok _ |- _ => apply check_all_ok in H
  | H : Forall _ (_ :: _) |- _ => apply Forall_cons in H; destruct H
  | H : Forall _ [] |- _ => clear H
  | x : unit |- _ => destruct x
  end.

(** [lia] with division and remainder by constants. *)
Ltac div_lia := Z.to_euclidean_division_equations; lia.

(** Runs the [res] monad one step, leaving arithmetic alone. *)
Ltac run := cbn [mbind res_bind negb].

Create HintDb mitum.
Create Rewrite HintDb mitum.
#[export] Hint Resolve wrap_u_u64 wrap_s_i64 : mitum.
#[export] Hint Rewrite @check_all_ok guard_err_ok : mitum.
