(* ===== verification/Point.v ===== *)
(** * Heights, rounds, stages and points ([base/point.go], [base/stage.go])

    [Height] is an [int64], [Round] a [uint64]; arithmetic wraps at 64 bits as
    in Go.  A [Stage] is a string, ordered through the table [statesmap].
    The lemmas show that [Compare] is a total order on points and on stage
    points of known stages, how the navigation functions move in that order,
    and that [String] is injective, which is what makes it usable as a map
    key. *)
From S2P Require Import Prelude.
From stdpp Require Import pretty.
From Stdlib Require Import Ascii.

Open Scope Z_scope.

(** ** Height and Round *)
Definition NilHeight : Z := -1.
Definition GenesisHeight : Z := 0.

Definition Height_IsValid (h : Z) : err := guard_err (h <? GenesisHeight) "height".
Definition Height_IsZero (h : Z) : bool := h <=? NilHeight.
Definition Height_Prev (h : Z) : Z := wrap_s 64 (h - 1).
Definition Height_SafePrev (h : Z) : Z :=
  if h <=? GenesisHeight then GenesisHeight else wrap_s 64 (h - 1).
Definition Round_Prev (r : Z) : Z := if r <=? 0 then 0 else wrap_u 64 (r - 1).

(** ** Point *)
Record Point := RawPoint { p_h : Z; p_r : Z }.
#[global] Instance Point_eq_dec : EqDecision Point.
Proof. solve_decision. Defined.

Definition GenesisPoint : Point := RawPoint GenesisHeight 0.
Definition ZeroPoint : Point := RawPoint NilHeight 0.

Definition Point_Equal (p b : Point) : bool := (p_h p =? p_h b) && (p_r p =? p_r b).

Definition Point_IsValid (p : Point) : err :=
  Height_IsValid (p_h p) ≫= fun _ =>
  guard_err ((p_h p =? GenesisHeight) && negb (p_r p =? 0)) "invalid genesis point".

Definition Point_Compare (p b : Point) : Z :=
  if p_h b <? p_h p then 1
  else if p_h p <? p_h b then -1
  else if p_r b <? p_r p then 1
  else if p_r p <? p_r b then -1
  else 0.

Definition Point_IsZero (p : Point) : bool := Height_IsZero (p_h p).

Definition Point_PrevRound (p : Point) : Point :=
  if Point_Equal p GenesisPoint then GenesisPoint
  else if p_r p =? 0 then RawPoint (Height_SafePrev (p_h p)) 0
  else RawPoint (p_h p) (Round_Prev (p_r p)).

Definition Point_NextRound (p : Point) : Point :=
  RawPoint (p_h p) (wrap_u 64 (p_r p + 1)).
Definition Point_NextHeight (p : Point) : Point :=
  RawPoint (wrap_s 64 (p_h p + 1)) 0.
Definition Point_PrevHeight (p : Point) : Point :=
  if p_h p <=? GenesisHeight then p else RawPoint (wrap_s 64 (p_h p - 1)) 0.

(** ** Stage *)
Abbreviation Stage := string.
Definition StageUnknown : Stage := "UNKNOWN".
Definition StageINIT : Stage := "INIT".
Definition StageACCEPT : Stage := "ACCEPT".

Definition statesmap : gmap string Z :=
  list_to_map [(StageUnknown, 0); (StageINIT, 1); (StageACCEPT, 3)].

Definition Stage_CanVote (st : Stage) : bool :=
  bool_decide (st = StageINIT) || bool_decide (st = StageACCEPT).
Definition Stage_IsValid (st : Stage) : err :=
  guard_err (negb (Stage_CanVote st)) "unknown stage".

Definition Stage_Compare (st b : Stage) : Z :=
  match statesmap !! st with
  | None => 1
  | Some x =>
      match statesmap !! b with
      | None => 1
      | Some y => let c := x - y in if 0 <? c then 1 else if c <? 0 then -1 else 0
      end
  end.

(** ** StagePoint *)
Record StagePoint := NewStagePoint { sp_point : Point; sp_stage : Stage }.
#[global] Instance StagePoint_eq_dec : EqDecision StagePoint.
Proof. solve_decision. Defined.

Definition ZeroStagePoint : StagePoint := NewStagePoint ZeroPoint StageUnknown.
Definition sp_h (p : StagePoint) : Z := p_h (sp_point p).

Definition SetStage (p : StagePoint) (s : Stage) : StagePoint :=
  NewStagePoint (sp_point p) s.

Definition StagePoint_IsZero (p : StagePoint) : bool :=
  if Point_IsZero (sp_point p) then true else negb (is_ok (Stage_IsValid (sp_stage p))).

Definition StagePoint_IsValid (p : StagePoint) : err :=
  Point_IsValid (sp_point p) ≫= fun _ => Stage_IsValid (sp_stage p).

Definition StagePoint_Equal (p b : StagePoint) : bool :=
  bool_decide (sp_stage p = sp_stage b) && Point_Equal (sp_point p) (sp_point b).

Definition StagePoint_Compare (p b : StagePoint) : Z :=
  let c := Point_Compare (sp_point p) (sp_point b) in
  if c =? 0 then Stage_Compare (sp_stage p) (sp_stage b) else c.

Definition StagePoint_Decrease (p : StagePoint) : StagePoint :=
  NewStagePoint (Point_PrevRound (sp_point p)) (sp_stage p).

(** [fmt.Sprintf("{StagePoint height=%d round=%d stage=%s}", ...)]. *)
Definition StagePoint_String (p : StagePoint) : string :=
  "{StagePoint height=" +:+ pretty (p_h (sp_point p)) +:+ " round=" +:+
  pretty (p_r (sp_point p)) +:+ " stage=" +:+ sp_stage p +:+ "}".

(** ** The order on points *)
Definition point_lt (p b : Point) : Prop :=
  p_h p < p_h b \/ (p_h p = p_h b /\ p_r p < p_r b).

Definition stage_known (s : Stage) : Prop := is_Some (statesmap !! s).
Definition stage_rank (s : Stage) : Z := default 0 (statesmap !! s).

Definition sp_lt (p b : StagePoint) : Prop :=
  point_lt (sp_point p) (sp_point b) \/
  (sp_point p = sp_point b /\ stage_rank (sp_stage p) < stage_rank (sp_stage b)).

Definition point_ok (p : Point) : Prop := i64 (p_h p) /\ u64 (p_r p).

(** The number of [PrevRound] steps down to genesis. *)
Definition point_steps (p : Point) : nat := Z.to_nat (p_h p) + Z.to_nat (p_r p).

#[global] Instance point_lt_dec p b : Decision (point_lt p b).
Proof. unfold point_lt. apply _. Defined.

Lemma Point_eq p b : p_h p = p_h b -> p_r p = p_r b -> p = b.
Proof. destruct p, b; simpl; congruence. Qed.

Lemma Point_Equal_spec p b : Point_Equal p b = true <-> p = b.
Proof.
  unfold Point_Equal. rewrite andb_true_iff, !Z.eqb_eq. split; [|by intros ->].
  intros []; by apply Point_eq.
Qed.

Lemma Point_Equal_refl p : Point_Equal p p = true.
Proof. by apply Point_Equal_spec. Qed.

Lemma Point_Compare_cases p b :
  (Point_Compare p b = 1 /\ point_lt b p) \/
  (Point_Compare p b = -1 /\ point_lt p b) \/
  (Point_Compare p b = 0 /\ p = b).
Proof.
  unfold Point_Compare, point_lt.
  destruct (Z.ltb_spec (p_h b) (p_h p)); [lia|].
  destruct (Z.ltb_spec (p_h p) (p_h b)); [lia|].
  destruct (Z.ltb_spec (p_r b) (p_r p)); [lia|].
  destruct (Z.ltb_spec (p_r p) (p_r b)); [lia|].
  right; right. split; [done|]. apply Point_eq; lia.
Qed.

Lemma point_lt_irrefl p : ~ point_lt p p.
Proof. unfold point_lt. lia. Qed.

Lemma point_lt_trans p q s : point_lt p q -> point_lt q s -> point_lt p s.
Proof. unfold point_lt. lia. Qed.

Lemma Point_Compare_refl p : Point_Compare p p = 0.
Proof.
  destruct (Point_Compare_cases p p) as [[_ H]|[[_ H]|[H _]]]; [..|done];
    by apply point_lt_irrefl in H.
Qed.

(** Resolves a comparison of points by the three cases. *)
Ltac point_cmp p b :=
  let E := fresh "E" in
  destruct (Point_Compare_cases p b) as [[-> E]|[[-> E]|[-> E]]].

Lemma Point_Compare_lt p b : Point_Compare p b < 0 <-> point_lt p b.
Proof.
  point_cmp p b; split; intros H; try done; try lia.
  - by destruct (point_lt_irrefl p (point_lt_trans _ _ _ H E)).
  - subst. by apply point_lt_irrefl in H.
Qed.

Lemma Point_Compare_gt p b : 0 < Point_Compare p b <-> point_lt b p.
Proof.
  point_cmp p b; split; intros H; try done; try lia.
  - by destruct (point_lt_irrefl p (point_lt_trans _ _ _ E H)).
  - subst. by apply point_lt_irrefl in H.
Qed.

Lemma Point_Compare_eq p b : Point_Compare p b = 0 <-> p = b.
Proof.
  split; [|intros ->; apply Point_Compare_refl].
  point_cmp p b; intros; done || lia.
Qed.

(** ** The order on stages *)
Lemma Stage_Compare_known s b :
  stage_known s -> stage_known b ->
  Stage_Compare s b = Z.sgn (stage_rank s - stage_rank b).
Proof.
  unfold stage_known, stage_rank, Stage_Compare. intros [x ->] [y ->]. simpl.
  destruct (Z.ltb_spec 0 (x - y)) as [H|H]; [by rewrite Z.sgn_pos by lia|].
  destruct (Z.ltb_spec (x - y) 0) as [H1|H1]; [by rewrite Z.sgn_neg by lia|].
  by replace (x - y) with 0 by lia.
Qed.

Lemma statesmap_inv s x :
  statesmap !! s = Some x ->
  (s = StageUnknown /\ x = 0) \/ (s = StageINIT /\ x = 1) \/ (s = StageACCEPT /\ x = 3).
Proof.
  intros H%elem_of_list_to_map_2. rewrite !list_elem_of_In in H. simpl in H.
  naive_solver.
Qed.

Lemma stage_rank_inj s b :
  stage_known s -> stage_known b -> stage_rank s = stage_rank b -> s = b.
Proof.
  unfold stage_known, stage_rank. intros [x Hx] [y Hy]. rewrite Hx, Hy. simpl.
  apply statesmap_inv in Hx, Hy. naive_solver.
Qed.

Lemma Stage_CanVote_known s : Stage_CanVote s = true -> stage_known s.
Proof.
  unfold Stage_CanVote. rewrite orb_true_iff, !bool_decide_eq_true.
  intros [-> | ->]; by eexists.
Qed.

Lemma Stage_IsValid_ok s : Stage_IsValid s = Ok tt <-> Stage_CanVote s = true.
Proof. unfold Stage_IsValid. rewrite guard_err_ok, negb_false_iff. done. Qed.

(** ** The order on stage points *)
Lemma sp_eq p b : sp_point p = sp_point b -> sp_stage p = sp_stage b -> p = b.
Proof. destruct p, b; simpl; congruence. Qed.

Lemma StagePoint_Compare_cases p b :
  stage_known (sp_stage p) -> stage_known (sp_stage b) ->
  (StagePoint_Compare p b = 1 /\ sp_lt b p) \/
  (StagePoint_Compare p b = -1 /\ sp_lt p b) \/
  (StagePoint_Compare p b = 0 /\ p = b).
Proof.
  intros Hp Hb. unfold StagePoint_Compare, sp_lt.
  point_cmp (sp_point p) (sp_point b); simpl; [by eauto| by eauto |].
  rewrite Stage_Compare_known by done.
  destruct (Z.lt_trichotomy (stage_rank (sp_stage p)) (stage_rank (sp_stage b)))
    as [H|[H|H]].
  - right; left. rewrite Z.sgn_neg by lia. auto.
  - right; right. rewrite H, Z.sub_diag. split; [done|].
    apply sp_eq; [done|]. by apply stage_rank_inj.
  - left. rewrite Z.sgn_pos by lia. auto.
Qed.

Lemma sp_lt_trans p q s : sp_lt p q -> sp_lt q s -> sp_lt p s.
Proof.
  unfold sp_lt, point_lt. intros [H1|[E1 H1]] [H2|[E2 H2]];
    rewrite ?E1, <- ?E2; try (left; rewrite <- ?E2, ?E1 in *; lia).
  right. split; [congruence|lia].
Qed.

Lemma sp_lt_irrefl p : ~ sp_lt p p.
Proof. intros [H|[_ H]]; [by apply point_lt_irrefl in H | lia]. Qed.

Ltac sp_cmp p b Hp Hb :=
  let E := fresh "E" in
  destruct (StagePoint_Compare_cases p b Hp Hb) as [[-> E]|[[-> E]|[-> E]]].

Lemma StagePoint_Compare_lt p b :
  stage_known (sp_stage p) -> stage_known (sp_stage b) ->
  StagePoint_Compare p b < 0 <-> sp_lt p b.
Proof.
  intros Hp Hb. sp_cmp p b Hp Hb; split; intros H; try done; try lia.
  - by destruct (sp_lt_irrefl p (sp_lt_trans _ _ _ H E)).
  - subst. by apply sp_lt_irrefl in H.
Qed.

Lemma StagePoint_Compare_gt p b :
  stage_known (sp_stage p) -> stage_known (sp_stage b) ->
  0 < StagePoint_Compare p b <-> sp_lt b p.
Proof.
  intros Hp Hb. sp_cmp p b Hp Hb; split; intros H; try done; try lia.
  - by destruct (sp_lt_irrefl p (sp_lt_trans _ _ _ E H)).
  - subst. by apply sp_lt_irrefl in H.
Qed.

Lemma StagePoint_Compare_refl p : stage_known (sp_stage p) -> StagePoint_Compare p p = 0.
Proof. intros Hp. sp_cmp p p Hp Hp; [by apply sp_lt_irrefl in E..|done]. Qed.

(** ** Navigation *)
Lemma point_valid_inv p :
  Point_IsValid p = Ok tt <-> 0 <= p_h p /\ (p_h p = 0 -> p_r p = 0).
Proof.
  unfold Point_IsValid, Height_IsValid, GenesisHeight.
  destruct (Z.ltb_spec (p_h p) 0); simpl; [naive_solver lia|].
  rewrite guard_err_ok, andb_false_iff, negb_false_iff, Z.eqb_eq, Z.eqb_neq.
  lia.
Qed.

(** A known, votable stage point that is not zero has a height of at least 0. *)
Lemma StagePoint_nonzero p :
  StagePoint_IsZero p = false <->
  0 <= sp_h p /\ Stage_CanVote (sp_stage p) = true.
Proof.
  unfold StagePoint_IsZero, Point_IsZero, Height_IsZero, sp_h, NilHeight.
  destruct (Z.leb_spec (p_h (sp_point p)) (-1)); [naive_solver lia|].
  rewrite negb_false_iff. unfold Stage_IsValid.
  destruct (Stage_CanVote (sp_stage p)); simpl; naive_solver lia.
Qed.

Lemma PrevRound_valid p :
  point_ok p -> Point_IsValid p = Ok tt ->
  p <> GenesisPoint ->
  Point_IsValid (Point_PrevRound p) = Ok tt /\
  point_ok (Point_PrevRound p) /\ point_lt (Point_PrevRound p) p.
Proof.
  intros [Hh Hr] Hv Hg. rewrite point_valid_inv in Hv. unfold i64, u64 in *.
  unfold Point_PrevRound.
  destruct (Point_Equal p GenesisPoint) eqn:E; [by apply Point_Equal_spec in E|].
  destruct (Z.eqb_spec (p_r p) 0) as [Er|Er].
  - assert (p_h p <> 0). { intros Eh. apply Hg. by apply Point_eq. }
    unfold Height_SafePrev, GenesisHeight, point_ok, point_lt, i64, u64.
    destruct (Z.leb_spec (p_h p) 0); [lia|].
    rewrite wrap_s_small by lia. rewrite point_valid_inv; simpl; lia.
  - unfold Round_Prev, point_ok, point_lt, i64, u64.
    destruct (Z.leb_spec (p_r p) 0); [lia|].
    rewrite wrap_u_small by lia. rewrite point_valid_inv; simpl; lia.
Qed.

Lemma PrevRound_steps p :
  point_ok p -> Point_IsValid p = Ok tt ->
  p <> GenesisPoint -> S (point_steps (Point_PrevRound p)) = point_steps p.
Proof.
  intros [Hh Hr] Hv Hg. rewrite point_valid_inv in Hv. unfold i64, u64 in *.
  unfold point_steps, Point_PrevRound.
  destruct (Point_Equal p GenesisPoint) eqn:E; [by apply Point_Equal_spec in E|].
  destruct (Z.eqb_spec (p_r p) 0) as [Er|Er].
  - assert (p_h p <> 0). { intros Eh. apply Hg. by apply Point_eq. }
    unfold Height_SafePrev, GenesisHeight.
    destruct (Z.leb_spec (p_h p) 0); [lia|].
    rewrite wrap_s_small by lia. simpl. lia.
  - unfold Round_Prev. destruct (Z.leb_spec (p_r p) 0); [lia|].
    rewrite wrap_u_small by lia. simpl. lia.
Qed.

Lemma PrevRound_NextRound p :
  point_ok p -> Point_IsValid p = Ok tt -> p_r p < 2 ^ 64 - 1 -> 
  Point_PrevRound (Point_NextRound p) = p.
Proof.
  intros [Hh Hr] Hv Hm. rewrite point_valid_inv in Hv. unfold i64, u64 in *.
  unfold Point_NextRound. rewrite wrap_u_small by lia.
  unfold Point_PrevRound, Point_Equal, Round_Prev. simpl.
  destruct (Z.eqb_spec (p_r p + 1) 0); [lia|]. rewrite andb_false_r.
  destruct (Z.leb_spec (p_r p + 1) 0); [lia|].
  rewrite wrap_u_small by lia. apply Point_eq; simpl; lia.
Qed.

(** ** [String] is injective *)

(** Decimal numerals hold no space. *)
Fixpoint no_space (s : string) : Prop :=
  match s with
  | EmptyString => True
  | String c s => c <> " "%char /\ no_space s
  end.

Lemma pretty_N_char_no_space n : pretty_N_char n <> " "%char.
Proof. unfold pretty_N_char. by repeat case_match. Qed.

Lemma pretty_N_go_no_space (n : N) s : no_space s -> no_space (pretty_N_go n s).
Proof.
  revert s. induction (N.lt_wf_0 n) as [n _ IH]. intros s Hs.
  destruct (decide (n = 0)%N) as [->|Hn]; [by rewrite pretty_N_go_0|].
  rewrite pretty_N_go_step by lia. apply IH; [apply N.div_lt; lia|].
  split; [apply pretty_N_char_no_space|done].
Qed.

Lemma pretty_N_no_space (n : N) : no_space (pretty n).
Proof.
  unfold pretty, pretty_N. case_decide; [by split|]. by apply pretty_N_go_no_space.
Qed.

Lemma pretty_Z_no_space (z : Z) : no_space (pretty z).
Proof.
  destruct z as [|z|z]; [by split|apply pretty_N_no_space|].
  split; [done|apply pretty_N_no_space].
Qed.

Lemma app_space_inj s1 s2 t1 t2 :
  no_space s1 -> no_space s2 ->
  s1 +:+ String " " t1 = s2 +:+ String " " t2 -> s1 = s2 /\ t1 = t2.
Proof.
  revert s2. induction s1 as [|c s1 IH]; intros [|d s2]; simpl.
  - naive_solver.
  - intros _ [Hd _] [= H _]. by destruct Hd.
  - intros [Hd _] _ [= H _]. by destruct Hd.
  - intros [_ H1] [_ H2] [= -> H]. destruct (IH s2 H1 H2 H) as [-> ->]. done.
Qed.

Lemma string_app_inv_r (s t u : string) : s +:+ u = t +:+ u -> s = t.
Proof.
  intros H. apply (f_equal String.list_ascii_of_string) in H.
  assert (forall a b, String.list_ascii_of_string (a +:+ b) =
    (String.list_ascii_of_string a ++ String.list_ascii_of_string b)%list) as Happ.
  { induction a as [|c a IH]; intros b; [done|]. simpl. by rewrite IH. }
  rewrite !Happ in H. apply (inj (fun l => (l ++ _)%list)) in H.
  rewrite <- (String.string_of_list_ascii_of_string s), H.
  apply String.string_of_list_ascii_of_string.
Qed.

#[global] Instance StagePoint_String_inj : Inj (=) (=) StagePoint_String.
Proof.
  intros [[h r] s] [[h' r'] s']. unfold StagePoint_String. simpl. intros H.
  repeat injection H as H.
  apply app_space_inj in H as [Hh H]; [|apply pretty_Z_no_space..].
  repeat injection H as H.
  apply app_space_inj in H as [Hr H]; [|apply pretty_Z_no_space..].
  repeat injection H as H. apply string_app_inv_r in H.
  apply (inj pretty) in Hh, Hr. by subst.
Qed.

(** ** Properties *)

(** [StagePoint.Compare] is a strict total order on stage points whose
    stages are known to the stage table: it is antisymmetric, transitive, and
    is zero exactly on equal points.  The ballot box, the last point and the
    pruning of vote records all sort by it. *)
Theorem StagePoint_Compare_total_order (p q s : StagePoint)
    (Hp : stage_known (sp_stage p)) (Hq : stage_known (sp_stage q))
    (Hs : stage_known (sp_stage s)) :
  StagePoint_Compare q p = - StagePoint_Compare p q /\
  (StagePoint_Compare p q = 0 <-> p = q) /\
  (StagePoint_Compare p q < 0 -> StagePoint_Compare q s < 0 ->
   StagePoint_Compare p s < 0).
Proof.
  split_and!.
  - destruct (StagePoint_Compare_cases p q Hp Hq) as [[-> E]|[[-> E]|[-> E]]].
    + apply (StagePoint_Compare_lt q p Hq Hp) in E as E'.
      destruct (StagePoint_Compare_cases q p Hq Hp) as [[? ?]|[[? ?]|[? ?]]]; lia.
    + apply (StagePoint_Compare_gt q p Hq Hp) in E as E'.
      destruct (StagePoint_Compare_cases q p Hq Hp) as [[? ?]|[[? ?]|[? ?]]]; lia.
    + rewrite <- E. by rewrite StagePoint_Compare_refl.
  - split; [|intros ->; by apply StagePoint_Compare_refl].
    sp_cmp p q Hp Hq; done || lia.
  - rewrite !StagePoint_Compare_lt by done. apply sp_lt_trans.
Qed.

(** Walking back with [PrevRound] from any valid 64-bit point reaches the
    genesis point in exactly [height + round] steps, every step before it
    moving strictly down in the order and staying valid: the walks the ballot
    box does with [Decrease] terminate and never underflow. *)
Theorem PrevRound_reaches_genesis (p : Point)
    (Hp : point_ok p) (Hv : Point_IsValid p = Ok tt) :
  Nat.iter (point_steps p) Point_PrevRound p = GenesisPoint /\
  forall k, (k < point_steps p)%nat ->
    let q := Nat.iter k Point_PrevRound p in
    Point_IsValid q = Ok tt /\ point_lt (Point_PrevRound q) q.
Proof.
  remember (point_steps p) as n eqn:En. revert p Hp Hv En.
  induction n as [|n IH]; intros p Hp Hv En.
  - split; [|lia]. simpl. unfold point_steps in En. destruct Hp as [? ?].
    rewrite point_valid_inv in Hv. unfold i64, u64 in *. apply Point_eq; unfold GenesisPoint, GenesisHeight; simpl; lia.
  - assert (p <> GenesisPoint) as Hg. { intros ->. done. }
    destruct (PrevRound_valid p Hp Hv Hg) as (Hv' & Hp' & Hlt).
    pose proof (PrevRound_steps p Hp Hv Hg) as Hst.
    destruct (IH (Point_PrevRound p)) as [IH1 IH2]; [done..|lia|].
    split; [by rewrite Nat.iter_succ_r|].
    intros [|k] Hk; [done|]. cbn zeta. rewrite Nat.iter_succ_r. apply IH2. lia.
Qed.

Lemma StagePoint_Compare_total_order_witness :
  let init := NewStagePoint (RawPoint 3 0) StageINIT in
  let accept := NewStagePoint (RawPoint 3 0) StageACCEPT in
  StagePoint_Compare init accept = -1 /\
  StagePoint_Compare accept init = - StagePoint_Compare init accept.
Proof.
  intros init accept. split; [reflexivity|].
  refine (proj1 (StagePoint_Compare_total_order init accept accept _ _ _)); by eexists.
Defined.

Lemma PrevRound_reaches_genesis_witness :
  Nat.iter (point_steps (RawPoint 3 2)) Point_PrevRound (RawPoint 3 2) = GenesisPoint.
Proof.
  apply (PrevRound_reaches_genesis (RawPoint 3 2)); [|reflexivity].
  unfold point_ok, i64, u64; simpl; lia.
Defined.
