(* ===== verification/Vote.v ===== *)
(** * Vote counting ([base/threshold.go], [base/vote.go])

    [Threshold] is a [float64]: it is modelled with the standard library's
    executable IEEE 754 floats ([SpecFloat], binary64: precision 53, emax 1024),
    so rounding, NaN and the comparisons are those of the program.
    [FindVoteResult] counts votes in a Go map, whose iteration order is random;
    the loop over the map is a function of the visiting order. *)
From S2P Require Import Prelude.
From Stdlib Require Import SpecFloat.

Open Scope Z_scope.

(** ** binary64 *)
Definition f64_of_Z (n : Z) : spec_float := binary_normalize 53 1024 n 0 false.
Definition f64_mul : spec_float -> spec_float -> spec_float := SFmul 53 1024.
Definition f64_div : spec_float -> spec_float -> spec_float := SFdiv 53 1024.
Definition f64_sub : spec_float -> spec_float -> spec_float := SFsub 53 1024.

(** [math.Ceil] and truncation, as integers; none for NaN and infinities. *)
Definition f64_ceil (f : spec_float) : option Z :=
  match f with
  | S754_zero _ => Some 0
  | S754_finite s m e =>
      let v := if s then Z.neg m else Z.pos m in
      if 0 <=? e then Some (v * 2 ^ e) else Some (- ((- v) / 2 ^ (- e)))
  | _ => None
  end.
Definition f64_trunc (f : spec_float) : option Z :=
  match f with
  | S754_zero _ => Some 0
  | S754_finite s m e =>
      let v := if 0 <=? e then Z.pos m * 2 ^ e else Z.pos m / 2 ^ (- e) in
      Some (if s then - v else v)
  | _ => None
  end.

(** ** Threshold *)
Abbreviation Threshold := spec_float.

Definition DefaultThreshold : Threshold := f64_of_Z 67.
Definition MinThreshold : Threshold := f64_of_Z 51.
Definition MaxThreshold : Threshold := f64_of_Z 100.

Definition Threshold_IsValid (t : Threshold) : err :=
  if SFleb t (f64_of_Z 0) then Err "under zero threshold"
  else if SFltb MaxThreshold t then Err "over 100 threshold"
  else if SFltb t MinThreshold then Err "under min threshold"
  else Ok tt.

Section Conversion.
(** Go leaves the conversion of a float that does not fit the integer type to
    the platform; [undef] is what the platform yields. *)
Variable undef : Z.

Definition uint_of_f64 (f : option Z) : Z :=
  match f with
  | Some n => if (0 <=? n) && (n <? 2 ^ 64) then n else undef
  | None => undef
  end.
Definition int_of_f64 (f : option Z) : Z :=
  match f with
  | Some n => if (- 2 ^ 63 <=? n) && (n <? 2 ^ 63) then n else undef
  | None => undef
  end.

Definition Threshold_Threshold (t : Threshold) (quorum : Z) : Z :=
  uint_of_f64 (f64_ceil (f64_mul (f64_of_Z quorum) (f64_div t MaxThreshold))).

Definition NumberOfFaultyNodes (n : Z) (threshold : Threshold) : Z :=
  if n <? 1 then 0
  else if SFleb MaxThreshold threshold then 0
  else int_of_f64 (f64_trunc
         (f64_sub (f64_of_Z n) (f64_mul (f64_of_Z n) (f64_div threshold MaxThreshold)))).
End Conversion.

(** ** FindVoteResult *)
Inductive VoteResult := VoteResultNotYet | VoteResultDraw | VoteResultMajority.
#[global] Instance VoteResult_eq_dec : EqDecision VoteResult.
Proof. solve_decision. Defined.

(** [count[v]++] over the votes. *)
Definition count_add (m : gmap string Z) (v : string) : gmap string Z :=
  <[v := default 0 (m !! v) + 1]> m.
Definition count_votes (s : list string) : gmap string Z := foldl count_add ∅ s.

(** The body of [for hs, cn := range count]: [maxCount], [topTies], [mhs]. *)
Definition top_step (st : Z * Z * string) (e : string * Z) : Z * Z * string :=
  let '(maxCount, topTies, mhs) := st in
  let '(hs, cn) := e in
  if maxCount <? cn then (cn, 1, hs)
  else if cn =? maxCount then
    (maxCount, topTies + 1, if str_ltb hs mhs then hs else mhs)
  else (maxCount, topTies, mhs).

(** [FindVoteResult] when the map of counts is visited in the order [entries]. *)
Definition FindVoteResult_order (quorum threshold : Z) (s : list string)
    (entries : list (string * Z)) : VoteResult * string :=
  let th := if quorum <? threshold then quorum else threshold in
  let total := Z.of_nat (length s) in
  if total =? 0 then (VoteResultNotYet, ""%string)
  else
    let remain := if total <? quorum then quorum - total else 0 in
    let '(maxCount, _, mhs) := foldl top_step (0, 0, ""%string) entries in
    if th <=? maxCount then (VoteResultMajority, mhs)
    else if remain =? 0 then (VoteResultDraw, ""%string)
    else if wrap_u 64 (maxCount + remain) <? th then (VoteResultDraw, ""%string)
    else (VoteResultNotYet, ""%string).

Definition FindVoteResult (quorum threshold : Z) (s : list string) : VoteResult * string :=
  FindVoteResult_order quorum threshold s (map_to_list (count_votes s)).

Definition Threshold_VoteResult (undef : Z) (t : Threshold) (quorum : Z) (s : list string) :
    VoteResult * string :=
  FindVoteResult quorum (Threshold_Threshold undef t quorum) s.

(** ** Specification vocabulary *)

(** Number of votes for [k]. *)
Definition occ (k : string) (s : list string) : Z :=
  Z.of_nat (length (filter (fun v => v = k) s)).

(** What a majority needs: the threshold, capped by the quorum. *)
Definition needed (quorum threshold : Z) : Z := Z.min threshold quorum.

(** Ceiling of [p]% of [n] over the integers. *)
Definition ceil_percent (p n : Z) : Z := - ((- (p * n)) / 100).

(** A vote of a node: its address and the key it votes for. *)
Definition voters (vs : list (string * string)) : list string := vs.*1.
Definition keys (vs : list (string * string)) : list string := vs.*2.

(** The nodes of [v] that vote for [k]. *)
Definition voted_for (k : string) (v : list (string * string)) : list string :=
  (filter (fun e => e.2 = k) v).*1.

(** Votes of [v1] contradicted by the same node in [v2]. *)
Definition equivocators (v1 v2 : list (string * string)) : list (string * string) :=
  filter (fun e => Exists (fun e' => e'.1 = e.1 /\ e'.2 <> e.2) v2) v1.

(** Votes of distinct nodes of a suffrage. *)
Definition votes_of (suf : list string) (v : list (string * string)) : Prop :=
  NoDup (voters v) /\ voters v ⊆ suf.

(** Sizes of suffrage for which the float arithmetic is checked exhaustively. *)
Definition max_quorum : nat := 1000.

(** ** Counting *)
Lemma occ_nil k : occ k [] = 0.
Proof. done. Qed.

Lemma occ_cons k v s : occ k (v :: s) = occ k s + (if decide (v = k) then 1 else 0).
Proof. unfold occ. rewrite filter_cons. case_decide; simpl; lia. Qed.

Lemma occ_app k s1 s2 : occ k (s1 ++ s2) = occ k s1 + occ k s2.
Proof. unfold occ. rewrite filter_app, length_app. lia. Qed.

Lemma occ_nonneg k s : 0 <= occ k s.
Proof. unfold occ. lia. Qed.

Lemma occ_le_length k s : occ k s <= Z.of_nat (length s).
Proof. unfold occ. pose proof (length_filter (fun v => v = k) s). lia. Qed.

Lemma occ_replicate k n : occ k (replicate n k) = Z.of_nat n.
Proof.
  induction n as [|n IH]; [done|]. simpl. rewrite occ_cons, IH.
  rewrite decide_True by done. lia.
Qed.

#[global] Instance occ_perm k : Proper ((≡ₚ) ==> (=)) (occ k).
Proof. intros s1 s2 H. unfold occ. by rewrite H. Qed.

Lemma count_foldl s m k :
  (forall v c, m !! v = Some c -> 1 <= c) ->
  foldl count_add m s !! k =
    let c := default 0 (m !! k) + occ k s in if decide (c = 0) then None else Some c.
Proof.
  revert m. induction s as [|v s IH]; intros m Hm; cbn zeta.
  - simpl. rewrite occ_nil, Z.add_0_r.
    destruct (m !! k) as [c|] eqn:E; [|done]. simpl.
    apply Hm in E. rewrite decide_False; [done|lia].
  - simpl. rewrite IH; cbn zeta.
    + rewrite occ_cons. unfold count_add. rewrite lookup_insert.
      destruct (decide (v = k)) as [->|]; simpl; repeat case_decide; f_equal; lia.
    + intros u c. unfold count_add. rewrite lookup_insert. case_decide; [|apply Hm].
      intros [= <-]. destruct (m !! v) as [d|] eqn:E; simpl; [apply Hm in E|]; lia.
Qed.

Lemma count_votes_lookup s k :
  count_votes s !! k = if decide (occ k s = 0) then None else Some (occ k s).
Proof.
  unfold count_votes. rewrite count_foldl; [|intros ? ?; by rewrite lookup_empty].
  cbn zeta. by rewrite lookup_empty.
Qed.

Lemma count_votes_elem s k c :
  (k, c) ∈ map_to_list (count_votes s) <-> c = occ k s /\ 1 <= c.
Proof.
  rewrite elem_of_map_to_list, count_votes_lookup. pose proof (occ_nonneg k s).
  case_decide; split; intros; naive_solver lia.
Qed.

(** ** The loop over the counts finds the least key of the greatest count,
    whatever the order *)
Definition is_top (es : list (string * Z)) (M : Z) (h : string) : Prop :=
  (h, M) ∈ es /\ forall k c, (k, c) ∈ es -> c <= M /\ (c = M -> String.le h k).

Lemma is_top_unique es M1 h1 M2 h2 :
  is_top es M1 h1 -> is_top es M2 h2 -> M1 = M2 /\ h1 = h2.
Proof.
  intros [H1 H1'] [H2 H2'].
  destruct (H1' _ _ H2) as [Hle1 Hk1], (H2' _ _ H1) as [Hle2 Hk2].
  assert (M1 = M2) as -> by lia. split; [done|].
  by apply (anti_symm String.le); auto.
Qed.

Lemma str_min_le h k : String.le (if str_ltb h k then h else k) h /\
  String.le (if str_ltb h k then h else k) k.
Proof.
  destruct (str_ltb h k) eqn:E.
  - apply str_ltb_lt in E as [? _]. done.
  - apply str_ltb_ge in E. done.
Qed.

Lemma top_fold_inv es : forall m t h, exists M T H,
  foldl top_step (m, t, h) es = (M, T, H) /\
  ((M = m /\ H = h) \/ (H, M) ∈ es) /\ m <= M /\ (m = M -> String.le H h) /\
  (forall k c, (k, c) ∈ es -> c <= M /\ (c = M -> String.le H k)).
Proof.
  induction es as [|[hs cn] es IH]; intros m t h; simpl.
  - exists m, t, h. split_and!; auto; [lia|]. intros ? ? []%not_elem_of_nil.
  - destruct (Z.ltb_spec m cn) as [Hlt|Hge];
      [|destruct (Z.eqb_spec cn m) as [->|Hne]].
    + destruct (IH cn 1 hs) as (M & T & H & -> & Hin & Hm & Hh & Hall).
      exists M, T, H. split_and!; [done| |lia|lia|].
      * right. set_solver.
      * intros k c [[= -> ->]|Hk]%elem_of_cons; auto.
    + destruct (str_min_le hs h) as [Hl1 Hl2].
      destruct (IH m (t + 1) (if str_ltb hs h then hs else h))
        as (M & T & H & -> & Hin & Hm & Hh & Hall).
      exists M, T, H. split_and!; [done| |done| |].
      * destruct Hin as [[-> ->]|]; [destruct (str_ltb hs h)|]; set_solver.
      * intros E. etrans; [by apply Hh|done].
      * intros k c [[= -> ->]|Hk]%elem_of_cons; [|by auto].
        split; [done|]. intros E. etrans; [by apply Hh|done].
    + destruct (IH m t h) as (M & T & H & -> & Hin & Hm & Hh & Hall).
      exists M, T, H. split_and!; [done|set_solver|done|done|].
      intros k c [[= -> ->]|Hk]%elem_of_cons; [lia|by auto].
Qed.

Lemma top_fold es :
  es <> [] -> (forall k c, (k, c) ∈ es -> 1 <= c) ->
  exists M T h, foldl top_step (0, 0, ""%string) es = (M, T, h) /\ is_top es M h.
Proof.
  intros Hne Hpos. destruct (top_fold_inv es 0 0 "") as (M & T & h & E & Hin & _ & _ & Hall).
  exists M, T, h. split; [done|]. split; [|done].
  destruct Hin as [[-> ->]|]; [|done].
  destruct es as [|[k c] es]; [done|].
  assert ((k, c) ∈ (k, c) :: es) as Hk by set_solver.
  destruct (Hall k c Hk). specialize (Hpos k c Hk). lia.
Qed.

(** The most voted key: the least among those with the most votes. *)
Definition top_key (s : list string) (k : string) : Prop :=
  forall k', occ k' s <= occ k s /\ (occ k' s = occ k s -> String.le k k').

Lemma is_top_top_key s es M h :
  es ≡ₚ map_to_list (count_votes s) -> is_top es M h -> M = occ h s /\ 1 <= M /\ top_key s h.
Proof.
  intros Hp [Hin Hall]. rewrite Hp in Hin.
  apply count_votes_elem in Hin as [-> Hpos]. split_and!; [done|done|].
  intros k'. destruct (decide (occ k' s = 0)) as [E|E].
  - rewrite E. split; lia.
  - apply Hall. rewrite Hp. apply count_votes_elem. pose proof (occ_nonneg k' s). lia.
Qed.

Lemma count_votes_nonempty s : s <> [] -> map_to_list (count_votes s) <> [].
Proof.
  destruct s as [|v s]; [done|]. intros _ H.
  assert ((v, occ v (v :: s)) ∈ map_to_list (count_votes (v :: s))) as Hin.
  { apply count_votes_elem. rewrite occ_cons, decide_True by done.
    pose proof (occ_nonneg v s). lia. }
  rewrite H in Hin. by apply not_elem_of_nil in Hin.
Qed.

(** The decision once the most voted key [h] is known. *)
Definition decide_votes (quorum threshold : Z) (s : list string) (h : string) :
    VoteResult * string :=
  let remain := Z.max 0 (quorum - Z.of_nat (length s)) in
  if needed quorum threshold <=? occ h s then (VoteResultMajority, h)
  else if (remain =? 0) || (occ h s + remain <? needed quorum threshold)
  then (VoteResultDraw, ""%string)
  else (VoteResultNotYet, ""%string).

Lemma FindVoteResult_order_top quorum threshold s es :
  u64 quorum -> s <> [] -> es ≡ₚ map_to_list (count_votes s) ->
  exists h, top_key s h /\ 1 <= occ h s /\
    FindVoteResult_order quorum threshold s es = decide_votes quorum threshold s h.
Proof.
  intros Hq Hne Hp. unfold u64 in Hq.
  destruct (top_fold es) as (M & T & h & E & Htop).
  { intros ->. apply Permutation_nil in Hp. by apply (count_votes_nonempty s). }
  { intros k c. rewrite Hp, count_votes_elem. tauto. }
  destruct (is_top_top_key s es M h Hp Htop) as (-> & Hpos & Hkey).
  exists h. split_and!; [done|done|].
  unfold FindVoteResult_order, decide_votes, needed.
  destruct (Z.eqb_spec (Z.of_nat (length s)) 0); [destruct s; simpl in *; done || lia|].
  rewrite E. pose proof (occ_le_length h s).
  replace (if quorum <? threshold then quorum else threshold)
    with (Z.min threshold quorum) by (destruct (Z.ltb_spec quorum threshold); lia).
  replace (if Z.of_nat (length s) <? quorum then quorum - Z.of_nat (length s) else 0)
    with (Z.max 0 (quorum - Z.of_nat (length s)))
    by (destruct (Z.ltb_spec (Z.of_nat (length s)) quorum); lia).
  destruct (Z.leb_spec (Z.min threshold quorum) (occ h s)); [done|].
  destruct (Z.eqb_spec (Z.max 0 (quorum - Z.of_nat (length s))) 0); [done|].
  simpl. rewrite wrap_u_small by lia. done.
Qed.

(** ** Thresholds over the sizes a suffrage can have

    The float computation agrees with exact integer percentages for every
    quorum up to 1000 (the default limit on the suffrage size is 33). *)
Definition opt_is (o : option Z) (z : Z) : bool :=
  match o with Some x => x =? z | None => false end.

Lemma opt_is_true o z : opt_is o z = true -> o = Some z.
Proof. destruct o; simpl; [|done]. by intros ->%Z.eqb_eq. Qed.

(** Checks an equation on quorums up to [max_quorum] by evaluating it. *)
Lemma in_range_seq (f : Z -> option Z) (g : Z -> Z) q :
  forallb (fun n => opt_is (f (Z.of_nat n)) (g (Z.of_nat n))) (seq 1 max_quorum) = true ->
  1 <= q <= Z.of_nat max_quorum -> f q = Some (g q).
Proof.
  intros H Hq. rewrite forallb_forall in H.
  specialize (H (Z.to_nat q)). rewrite Z2Nat.id in H by lia.
  apply opt_is_true, H. apply in_seq. lia.
Qed.

Lemma uint_of_f64_small undef n : 0 <= n < 2 ^ 64 -> uint_of_f64 undef (Some n) = n.
Proof.
  intros Hn. simpl. destruct (Z.leb_spec 0 n), (Z.ltb_spec n (2 ^ 64)); done || lia.
Qed.

Lemma int_of_f64_small undef n : - 2 ^ 63 <= n < 2 ^ 63 -> int_of_f64 undef (Some n) = n.
Proof.
  intros Hn. unfold int_of_f64.
  destruct (Z.leb_spec (- 2 ^ 63) n), (Z.ltb_spec n (2 ^ 63)); done || lia.
Qed.

Lemma default_threshold_exact undef q :
  1 <= q <= Z.of_nat max_quorum ->
  Threshold_Threshold undef DefaultThreshold q = ceil_percent 67 q.
Proof.
  intros Hq. unfold Threshold_Threshold.
  rewrite (in_range_seq (fun q => f64_ceil (f64_mul (f64_of_Z q)
    (f64_div DefaultThreshold MaxThreshold))) (ceil_percent 67) q); [|vm_compute; reflexivity|done].
  apply uint_of_f64_small. unfold ceil_percent, max_quorum in *. div_lia.
Qed.

Lemma default_faulty_exact undef q :
  1 <= q <= Z.of_nat max_quorum ->
  NumberOfFaultyNodes undef q DefaultThreshold = 33 * q / 100.
Proof.
  intros Hq. unfold NumberOfFaultyNodes.
  destruct (Z.ltb_spec q 1); [lia|].
  replace (SFleb MaxThreshold DefaultThreshold) with false by reflexivity.
  rewrite (in_range_seq (fun q => f64_trunc (f64_sub (f64_of_Z q) (f64_mul (f64_of_Z q)
    (f64_div DefaultThreshold MaxThreshold)))) (fun q => 33 * q / 100) q);
    [|vm_compute; reflexivity|done].
  apply int_of_f64_small. unfold max_quorum in *. div_lia.
Qed.

Lemma max_threshold_exact undef q :
  1 <= q <= Z.of_nat max_quorum -> Threshold_Threshold undef MaxThreshold q = q.
Proof.
  intros Hq. unfold Threshold_Threshold.
  rewrite (in_range_seq (fun q => f64_ceil (f64_mul (f64_of_Z q)
    (f64_div MaxThreshold MaxThreshold))) (fun q => q) q); [|vm_compute; reflexivity|done].
  apply uint_of_f64_small. unfold max_quorum in *. lia.
Qed.

(** Two sets of 67% of a suffrage share more nodes than may be faulty. *)
Lemma ceil_percent_intersect q :
  1 <= q -> 33 * q / 100 < 2 * ceil_percent 67 q - q /\ ceil_percent 67 q <= q.
Proof.
  unfold ceil_percent. intros Hq. split; div_lia.
Qed.

(** ** Voters of a key *)
Lemma voted_for_occ k v : Z.of_nat (length (voted_for k v)) = occ k (keys v).
Proof.
  unfold voted_for, occ, keys. rewrite length_fmap. f_equal.
  induction v as [|[n k'] v IH]; [done|]. rewrite fmap_cons, !filter_cons. simpl.
  case_decide; simpl; congruence.
Qed.

Lemma voted_for_elem n k v : n ∈ voted_for k v <-> (n, k) ∈ v.
Proof.
  unfold voted_for. rewrite list_elem_of_fmap. split.
  - intros ([n' k'] & -> & [Hk Hin]%list_elem_of_filter). simpl in *. by subst.
  - intros Hin. exists (n, k). split; [done|]. by apply list_elem_of_filter.
Qed.

Lemma voted_for_NoDup k v : NoDup (voters v) -> NoDup (voted_for k v).
Proof.
  unfold voters, voted_for. apply NoDup_fmap_filter.
Qed.

Lemma voted_for_suf k v suf : votes_of suf v -> voted_for k v ⊆ suf.
Proof.
  intros [_ H] n Hn%voted_for_elem. apply H.
  apply list_elem_of_fmap. by exists (n, k).
Qed.

Lemma common_voters_equivocate k1 k2 v1 v2 :
  k1 <> k2 -> NoDup (voters v1) ->
  (length (filter (fun n => n ∈ voted_for k2 v2) (voted_for k1 v1))
   <= length (equivocators v1 v2))%nat.
Proof.
  intros Hne Hnd.
  rewrite <- (length_fmap fst (equivocators v1 v2)). apply subset_length.
  - by apply NoDup_filter, voted_for_NoDup.
  - intros n [H2%voted_for_elem H1%voted_for_elem]%list_elem_of_filter.
    apply list_elem_of_fmap. exists (n, k1). split; [done|].
    apply list_elem_of_filter. split; [|done].
    apply Exists_exists. exists (n, k2). simpl. auto.
Qed.

Lemma majority_occ quorum threshold s k :
  u64 quorum -> FindVoteResult quorum threshold s = (VoteResultMajority, k) ->
  needed quorum threshold <= occ k s.
Proof.
  intros Hq H. destruct (decide (s = [])) as [->|Hne]; [done|].
  destruct (FindVoteResult_order_top quorum threshold s _ Hq Hne (reflexivity _))
    as (h & _ & _ & E). unfold FindVoteResult in H. rewrite E in H.
  unfold decide_votes in H.
  destruct (Z.leb_spec (needed quorum threshold) (occ h s)); [by simplify_eq|].
  by destruct (_ || _).
Qed.

(** A majority key was voted for. *)
Lemma majority_elem quorum threshold s k :
  u64 quorum -> FindVoteResult quorum threshold s = (VoteResultMajority, k) -> k ∈ s.
Proof.
  intros Hq H. destruct (decide (s = [])) as [->|Hne]; [done|].
  destruct (FindVoteResult_order_top quorum threshold s _ Hq Hne (reflexivity _))
    as (h & _ & Hpos & E). unfold FindVoteResult in H. rewrite E in H.
  unfold decide_votes in H.
  destruct (Z.leb_spec (needed quorum threshold) (occ h s)); [|by destruct (_ || _)].
  simplify_eq. destruct (decide (k ∈ s)) as [|Hn]; [done|exfalso].
  clear -Hpos Hn. induction s as [|v s IH]; [done|].
  apply not_elem_of_cons in Hn as [Hv Hs]. rewrite occ_cons, decide_False in Hpos by congruence.
  apply IH; [lia|done].
Qed.

(** Two conflicting majorities of 67% show more equivocating nodes than may be
    faulty. *)
Lemma conflicting_majorities undef suf v1 v2 k1 k2 :
  let q := Z.of_nat (length suf) in
  1 <= q <= Z.of_nat max_quorum -> votes_of suf v1 -> votes_of suf v2 ->
  Threshold_VoteResult undef DefaultThreshold q (keys v1) = (VoteResultMajority, k1) ->
  Threshold_VoteResult undef DefaultThreshold q (keys v2) = (VoteResultMajority, k2) ->
  k1 <> k2 ->
  NumberOfFaultyNodes undef q DefaultThreshold < Z.of_nat (length (equivocators v1 v2)).
Proof.
  intros q Hq H1 H2 M1 M2 Hne.
  destruct (ceil_percent_intersect q) as [Hint Hle]; [lia|].
  rewrite default_faulty_exact by done.
  unfold Threshold_VoteResult in M1, M2.
  rewrite default_threshold_exact in M1, M2 by done.
  apply majority_occ in M1; [|unfold u64, max_quorum in *; lia].
  apply majority_occ in M2; [|unfold u64, max_quorum in *; lia].
  unfold needed in M1, M2. rewrite Z.min_l in M1, M2 by lia.
  rewrite <- voted_for_occ in M1, M2.
  pose proof (overlap_length _ _ suf (voted_for_NoDup k1 v1 (proj1 H1))
    (voted_for_NoDup k2 v2 (proj1 H2)) (voted_for_suf k1 v1 suf H1)
    (voted_for_suf k2 v2 suf H2)) as Hov.
  pose proof (common_voters_equivocate k1 k2 v1 v2 Hne (proj1 H1)).
  subst q. lia.
Qed.

(** ** Properties *)

(** C16: the meaning of a vote result.  A majority names the key with the most
    votes (the least one in string order on a tie) and that key reaches the
    threshold; a draw is declared only when no way of casting the votes still
    missing lets any key reach it; "not yet" is returned only when no key
    reaches it but the missing votes still could make one do so. *)
Theorem FindVoteResult_correct (quorum threshold : Z) (s : list string)
    (Hq : u64 quorum) (Hs : s <> []) :
  match FindVoteResult quorum threshold s with
  | (VoteResultMajority, k) =>
      needed quorum threshold <= occ k s /\ top_key s k
  | (VoteResultDraw, k) =>
      k = ""%string /\
      forall more k', Z.of_nat (length (s ++ more)) <= Z.max quorum (Z.of_nat (length s)) ->
        occ k' (s ++ more) < needed quorum threshold
  | (VoteResultNotYet, k) =>
      k = ""%string /\ (forall k', occ k' s < needed quorum threshold) /\
      exists more k', Z.of_nat (length (s ++ more)) = quorum /\
        needed quorum threshold <= occ k' (s ++ more)
  end.
Proof.
  destruct (FindVoteResult_order_top quorum threshold s _ Hq Hs (reflexivity _))
    as (h & Htop & Hpos & E).
  unfold FindVoteResult. rewrite E. unfold decide_votes.
  destruct (Z.leb_spec (needed quorum threshold) (occ h s)) as [Hn|Hn]; [done|].
  assert (forall k', occ k' s < needed quorum threshold) as Hall.
  { intros k'. destruct (Htop k'). lia. }
  destruct (_ || _) eqn:Eb.
  - split; [done|]. intros more k' Hlen.
    rewrite length_app in Hlen. rewrite occ_app.
    pose proof (occ_le_length k' more). destruct (Htop k').
    specialize (Hall k').
    apply orb_true_iff in Eb as [Eb%Z.eqb_eq|Eb%Z.ltb_lt]; lia.
  - apply orb_false_iff in Eb as [Er%Z.eqb_neq El%Z.ltb_ge].
    split_and!; [done|done|].
    exists (replicate (Z.to_nat (quorum - Z.of_nat (length s))) h), h.
    rewrite length_app, length_replicate, occ_app, occ_replicate. lia.
Qed.

(** The result does not depend on the order in which the votes arrived nor
    on the order in which Go happens to visit the map of counts. *)
Theorem FindVoteResult_order_independent (quorum threshold : Z) (s s' : list string)
    (es es' : list (string * Z)) (Hq : u64 quorum) (Hs : s ≡ₚ s')
    (He : es ≡ₚ map_to_list (count_votes s)) (He' : es' ≡ₚ map_to_list (count_votes s')) :
  FindVoteResult_order quorum threshold s es = FindVoteResult_order quorum threshold s' es'.
Proof.
  destruct (decide (s = [])) as [->|Hne].
  { apply Permutation_nil in Hs as ->. done. }
  assert (s' <> []) as Hne'. { intros ->. symmetry in Hs. by apply Permutation_nil in Hs. }
  destruct (FindVoteResult_order_top quorum threshold s es Hq Hne He) as (h & Ht & _ & ->).
  destruct (FindVoteResult_order_top quorum threshold s' es' Hq Hne' He') as (h' & Ht' & _ & ->).
  assert (h = h') as ->.
  { destruct (Ht h') as [H1 H2], (Ht' h) as [H1' H2']. rewrite <- !Hs in H1', H2'.
    apply (anti_symm String.le); [apply H2|apply H2']; lia. }
  unfold decide_votes. by rewrite (occ_perm h' _ _ Hs), (Permutation_length Hs).
Qed.

(** C15: agreement.  For a suffrage of 1 to 1000 nodes under the default
    threshold of 67%, two sets of votes that both reach a majority name the same
    key unless the nodes that voted differently in the two sets are more than
    [NumberOfFaultyNodes] of that suffrage. *)
Theorem majority_agreement (undef : Z) (suf : list string)
    (v1 v2 : list (string * string)) (k1 k2 : string)
    (Hsize : (1 <= length suf <= max_quorum)%nat)
    (H1 : votes_of suf v1) (H2 : votes_of suf v2)
    (M1 : Threshold_VoteResult undef DefaultThreshold (Z.of_nat (length suf)) (keys v1)
          = (VoteResultMajority, k1))
    (M2 : Threshold_VoteResult undef DefaultThreshold (Z.of_nat (length suf)) (keys v2)
          = (VoteResultMajority, k2))
    (Hfaulty : Z.of_nat (length (equivocators v1 v2))
               <= NumberOfFaultyNodes undef (Z.of_nat (length suf)) DefaultThreshold) :
  k1 = k2.
Proof.
  destruct (decide (k1 = k2)) as [|Hne]; [done|exfalso].
  pose proof (conflicting_majorities undef suf v1 v2 k1 k2 ltac:(lia) H1 H2 M1 M2 Hne).
  lia.
Qed.

(** A threshold read from the text "NaN" is accepted by
    [Threshold.IsValid], and where the platform converts NaN to 0 a single vote
    is a majority of any suffrage. *)
Theorem nan_threshold_accepted (quorum : Z) (k : string) (Hq : u64 quorum) :
  Threshold_IsValid S754_nan = Ok tt /\
  Threshold_Threshold 0 S754_nan quorum = 0 /\
  Threshold_VoteResult 0 S754_nan quorum [k] = (VoteResultMajority, k).
Proof.
  assert (Threshold_Threshold 0 S754_nan quorum = 0) as E.
  { unfold Threshold_Threshold. replace (f64_mul _ _) with S754_nan; [done|].
    change (f64_div S754_nan MaxThreshold) with S754_nan.
    unfold f64_mul, SFmul. by destruct (f64_of_Z quorum). }
  split_and!; [reflexivity|exact E|].
  unfold Threshold_VoteResult. rewrite E. unfold u64 in Hq.
  destruct (FindVoteResult quorum 0 [k]) as [r h] eqn:F.
  destruct (FindVoteResult_order_top quorum 0 [k] _ Hq ltac:(done) (reflexivity _))
    as (h' & Htop & Hpos & F').
  unfold FindVoteResult in F. rewrite F' in F.
  rewrite occ_cons, occ_nil in Hpos. case_decide; [subst h'|lia].
  unfold decide_votes, needed in F. rewrite occ_cons, occ_nil, decide_True in F by done.
  rewrite Z.min_l in F by lia. simpl in F. by simplify_eq.
Qed.

(** Float rounding in [Threshold.Threshold].  The default threshold is the
    exact ceiling of 67% of the quorum for all quorums up to 1000, and so are
    the faulty nodes; a threshold of 55 asks 56 votes of 100 nodes, one more
    than 55%. *)
Theorem threshold_rounding (undef : Z) :
  (forall q, 1 <= q <= Z.of_nat max_quorum ->
     Threshold_Threshold undef DefaultThreshold q = ceil_percent 67 q /\
     NumberOfFaultyNodes undef q DefaultThreshold = 33 * q / 100) /\
  Threshold_Threshold undef (f64_of_Z 55) 100 = 56 /\ ceil_percent 55 100 = 55.
Proof.
  split_and!; [|vm_compute; reflexivity..].
  intros q Hq. split; [by apply default_threshold_exact|by apply default_faulty_exact].
Qed.

(** ** Witnesses *)
Lemma FindVoteResult_correct_witness :
  FindVoteResult 4 3 ["b"; "a"; "b"; "b"]%string = (VoteResultMajority, "b"%string) /\
  needed 4 3 <= occ "b" ["b"; "a"; "b"; "b"]%string.
Proof.
  split; [vm_compute; reflexivity|].
  refine (proj1 (FindVoteResult_correct 4 3 ["b"; "a"; "b"; "b"]%string _ _)); [|done].
  unfold u64; lia.
Defined.

Lemma FindVoteResult_order_independent_witness :
  FindVoteResult_order 4 2 ["b"; "a"; "b"; "a"]%string [("b", 2); ("a", 2)]%string =
  FindVoteResult_order 4 2 ["a"; "a"; "b"; "b"]%string [("a", 2); ("b", 2)]%string.
Proof.
  apply FindVoteResult_order_independent.
  - unfold u64; lia.
  - apply (bool_decide_unpack _); vm_compute; done.
  - apply (bool_decide_unpack _); vm_compute; done.
  - apply (bool_decide_unpack _); vm_compute; done.
Defined.

Lemma majority_agreement_witness :
  let suf := ["n0"; "n1"; "n2"; "n3"]%string in
  let v1 := [("n0", "a"); ("n1", "a"); ("n2", "a"); ("n3", "b")]%string in
  let v2 := [("n0", "a"); ("n1", "a"); ("n3", "a")]%string in
  equivocators v1 v2 = [("n3", "b")]%string /\ "a"%string = "a"%string.
Proof.
  intros suf v1 v2. split; [vm_compute; reflexivity|].
  apply (majority_agreement 0 suf v1 v2).
  - simpl. unfold max_quorum. lia.
  - split; [apply (bool_decide_unpack _); vm_compute; done|].
    unfold voters, v1, suf. simpl. set_solver.
  - split; [apply (bool_decide_unpack _); vm_compute; done|].
    unfold voters, v2, suf. simpl. set_solver.
  - vm_compute; reflexivity.
  - vm_compute; reflexivity.
  - vm_compute; discriminate.
Defined.

Lemma nan_threshold_accepted_witness :
  Threshold_VoteResult 0 S754_nan 4 ["forged"]%string
    = (VoteResultMajority, "forged"%string).
Proof.
  refine (proj2 (proj2 (nan_threshold_accepted 4 "forged" _))). unfold u64; lia.
Defined.
