(* ===== verification/Slice.v ===== *)
(** * Slice helpers ([util/slice.go])

    The generic helpers the validators and the ballot box are written with.
    Go's map used as a set of seen keys is a [gset]; callbacks are functions.
    [CompactAppendSlice] and its [done] are list append in call order. *)
From S2P Require Import Prelude.

(** ** Operations *)
Section Slice.
Context {T : Type}.

(** [IsDuplicatedSlice]: [keyf] returns (keep, key); a false [keep] stops. *)
Fixpoint dup_loop (keyf : T -> bool * string) (m : gset string) (s : list T) : bool :=
  match s with
  | [] => false
  | x :: s =>
      let '(keep, k) := keyf x in
      if decide (k ∈ m) then true
      else if keep then dup_loop keyf ({[k]} ∪ m) s else false
  end.
Definition IsDuplicatedSlice (s : list T) (keyf : T -> bool * string) : bool :=
  dup_loop keyf ∅ s.

Fixpoint FilterSlice (s : list T) (f : T -> bool) : list T :=
  match s with
  | [] => []
  | x :: s => if f x then x :: FilterSlice s f else FilterSlice s f
  end.

Fixpoint CountFilteredSlice (s : list T) (f : T -> bool) : nat :=
  match s with
  | [] => 0
  | x :: s => if f x then S (CountFilteredSlice s f) else CountFilteredSlice s f
  end.

(** [Filter2Slices]: drops the elements of [a] matched by some element of [b]. *)
Definition Filter2Slices {Y : Type} (a : list T) (b : list Y) (f : T -> Y -> bool) : list T :=
  match b with
  | [] => a
  | _ => FilterSlice a (fun x => negb (existsb (f x) b))
  end.

(** [RemoveDuplicatedSlice]: keeps the first of each key, drops empty keys. *)
Fixpoint rmdup_loop (f : T -> res string) (m : gset string) (s : list T) : res (list T) :=
  match s with
  | [] => Ok []
  | x :: s =>
      f x ≫= fun k =>
      if (String.length k <? 1)%nat then rmdup_loop f m s
      else if decide (k ∈ m) then rmdup_loop f m s
      else rmdup_loop f ({[k]} ∪ m) s ≫= fun r => Ok (x :: r)
  end.
Definition RemoveDuplicatedSlice (s : list T) (f : T -> res string) : res (list T) :=
  rmdup_loop f ∅ s.

(** [TraverseSlice]: stops at the first error. *)
Fixpoint traverse_loop (i : nat) (s : list T) (f : nat -> T -> err) : err :=
  match s with
  | [] => Ok tt
  | x :: s => f i x ≫= fun _ => traverse_loop (S i) s f
  end.
Definition TraverseSlice (s : list T) (f : nat -> T -> err) : err := traverse_loop 0 s f.

End Slice.

(** [FilterMap] visits the map in the order [es] of its entries. *)
Definition FilterMap {T} (es : list (string * T)) (f : string -> T -> bool) : list T :=
  (FilterSlice es (fun e => f e.1 e.2)).*2.

(** ** Lemmas *)
Section Facts.
Context {T : Type}.

Lemma dup_loop_spec (key : T -> string) m s :
  dup_loop (fun x => (true, key x)) m s = false <->
  NoDup (key <$> s) /\ forall x, x ∈ s -> key x ∉ m.
Proof.
  revert m. induction s as [|x s IH]; intros m; simpl.
  - split; [|done]. intros _. split; [constructor|set_solver].
  - destruct (decide (key x ∈ m)) as [Hm|Hm].
    + split; [done|]. intros [_ H]. exfalso. eapply H; [|done]. set_solver.
    + rewrite IH, NoDup_cons, list_elem_of_fmap. split.
      * intros [Hnd Hall]. split_and!; [|done|].
        -- intros (y & Hy & Hin). apply (Hall y Hin). set_solver.
        -- intros y [->|Hin]%elem_of_cons; [done|]. specialize (Hall y Hin). set_solver.
      * intros [[Hx Hnd] Hall]. split; [done|]. intros y Hin.
        rewrite elem_of_union, elem_of_singleton. intros [E|E].
        -- apply Hx. eauto.
        -- eapply (Hall y); [|done]. set_solver.
Qed.

Lemma IsDuplicatedSlice_false (key : T -> string) s :
  IsDuplicatedSlice s (fun x => (true, key x)) = false <-> NoDup (key <$> s).
Proof.
  unfold IsDuplicatedSlice. rewrite dup_loop_spec. split; [by intros []|].
  intros H. split; [done|]. set_solver.
Qed.

Lemma dup_loop_ext (f g : T -> bool * string) m s :
  (forall x, x ∈ s -> f x = g x) -> dup_loop f m s = dup_loop g m s.
Proof.
  revert m. induction s as [|x s IH]; intros m H; simpl; [done|].
  rewrite (H x) by set_solver. destruct (g x) as [keep k].
  case_decide; [done|]. destruct keep; [|done]. apply IH. set_solver.
Qed.

Lemma FilterSlice_filter (s : list T) (f : T -> bool) : FilterSlice s f = filter (fun x => f x = true) s.
Proof.
  induction s as [|x s IH]; [done|]. simpl. rewrite filter_cons, IH.
  destruct (f x); [by rewrite decide_True|by rewrite decide_False].
Qed.

Lemma FilterSlice_elem (s : list T) f x : x ∈ FilterSlice s f <-> x ∈ s /\ f x = true.
Proof. rewrite FilterSlice_filter, list_elem_of_filter. tauto. Qed.

Lemma CountFilteredSlice_length (s : list T) f : CountFilteredSlice s f = length (FilterSlice s f).
Proof. induction s as [|x s IH]; [done|]. simpl. destruct (f x); simpl; congruence. Qed.

Lemma Filter2Slices_FilterSlice {Y} (a : list T) (b : list Y) f :
  Filter2Slices a b f = FilterSlice a (fun x => negb (existsb (f x) b)).
Proof.
  destruct b; [|done]. simpl. induction a as [|x a IH]; [done|]. simpl. by rewrite <- IH.
Qed.

Lemma Filter2Slices_elem {Y} (a : list T) (b : list Y) f x :
  x ∈ Filter2Slices a b f <-> x ∈ a /\ forall y, y ∈ b -> f x y = false.
Proof.
  rewrite Filter2Slices_FilterSlice, FilterSlice_elem, negb_true_iff. 
  rewrite <- not_true_iff_false, existsb_exists.
  split; intros [Hx H]; split; try done.
  - intros y Hy. apply not_true_is_false. intros E. apply H. exists y.
    split; [by apply list_elem_of_In|done].
  - intros (y & Hy%list_elem_of_In & E). rewrite (H y Hy) in E. done.
Qed.

Lemma Filter2Slices_sublist {Y} (a : list T) (b : list Y) f : sublist (Filter2Slices a b f) a.
Proof. rewrite Filter2Slices_FilterSlice, FilterSlice_filter. apply sublist_filter. Qed.

End Facts.

#[export] Hint Rewrite @FilterSlice_elem @Filter2Slices_elem : mitum.
