(* ===== verification/Ballot.v ===== *)
(** * Ballots, facts, expels and suffrages

    [base/ballot.go], [base/ballot_isvalid.go], [isaac/ballot.go],
    [isaac/ballot_fact.go], [isaac/ballot_sign.go], [isaac/suffrage.go],
    [isaac/suffrage_operation.go].

    Addresses and public keys are their strings, and a hash is the text of its
    [String] method (base58 of its bytes, so that equal texts are equal
    hashes); a nil hash is the empty text, which the validity checks refuse the
    same way.  What the code reaches through Go interfaces whose implementation
    is chosen elsewhere (signature verification, hashing, base58, the address
    syntax) is the class [Crypto]. *)
From S2P Require Import Prelude Point Vote Slice.
From Stdlib Require Import Ascii.

Open Scope Z_scope.

Abbreviation Address := string.
Abbreviation Publickey := string.
Abbreviation Hash := string.

(** ** Data *)

(** [baseBallotFact] with the hash and token of [base.BaseFact]. *)
Record baseBallotFact := {
  bf_hash : Hash;
  bf_token : string;
  bf_point : StagePoint;
  bf_expelfacts : list Hash
}.

Inductive BallotFact :=
  | INITBallotFact (b : baseBallotFact) (previousBlock proposal : Hash)
  | SuffrageConfirmBallotFact (b : baseBallotFact) (previousBlock proposal : Hash)
  | EmptyProposalINITBallotFact (b : baseBallotFact) (previousBlock proposal : Hash) (r : string)
  | ACCEPTBallotFact (b : baseBallotFact) (proposal newBlock : Hash)
  | EmptyOperationsACCEPTBallotFact (b : baseBallotFact) (proposal newBlock : Hash)
  | NotProcessedACCEPTBallotFact (b : baseBallotFact) (proposal newBlock : Hash).

#[global] Instance baseBallotFact_eq_dec : EqDecision baseBallotFact.
Proof. solve_decision. Defined.
#[global] Instance BallotFact_eq_dec : EqDecision BallotFact.
Proof. solve_decision. Defined.

Definition bf_base (f : BallotFact) : baseBallotFact :=
  match f with
  | INITBallotFact b _ _ | SuffrageConfirmBallotFact b _ _
  | EmptyProposalINITBallotFact b _ _ _ | ACCEPTBallotFact b _ _
  | EmptyOperationsACCEPTBallotFact b _ _ | NotProcessedACCEPTBallotFact b _ _ => b
  end.

Definition Fact_Hash (f : BallotFact) : Hash := bf_hash (bf_base f).
Definition Fact_Point (f : BallotFact) : StagePoint := bf_point (bf_base f).
Definition ExpelFacts (f : BallotFact) : list Hash := bf_expelfacts (bf_base f).

(** The type assertions to [base.INITBallotFact] and [base.ACCEPTBallotFact]:
    previous block and proposal, proposal and new block. *)
Definition as_INITBallotFact (f : BallotFact) : option (Hash * Hash) :=
  match f with
  | INITBallotFact _ p q | SuffrageConfirmBallotFact _ p q
  | EmptyProposalINITBallotFact _ p q _ => Some (p, q)
  | _ => None
  end.
Definition as_ACCEPTBallotFact (f : BallotFact) : option (Hash * Hash) :=
  match f with
  | ACCEPTBallotFact _ p n | EmptyOperationsACCEPTBallotFact _ p n
  | NotProcessedACCEPTBallotFact _ p n => Some (p, n)
  | _ => None
  end.

Definition IsSuffrageConfirmBallotFact (f : option BallotFact) : bool :=
  match f with Some (SuffrageConfirmBallotFact _ _ _) => true | _ => false end.

(** The facts [SetMajority] refuses to take as a majority. *)
Definition is_empty_fact (f : BallotFact) : bool :=
  match f with
  | EmptyProposalINITBallotFact _ _ _ _ | EmptyOperationsACCEPTBallotFact _ _ _ => true
  | _ => false
  end.

(** A signature with the node that made it. *)
Record NodeSign := { ns_node : Address; ns_signer : Publickey; ns_signature : string }.
#[global] Instance NodeSign_eq_dec : EqDecision NodeSign.
Proof. solve_decision. Defined.

(** [INITBallotSignFact] and [ACCEPTBallotSignFact]. *)
Inductive sf_kind := INITBallotSignFact | ACCEPTBallotSignFact.
Record BallotSignFact := { sf_type : sf_kind; sf_fact : BallotFact; sf_sign : NodeSign }.
#[global] Instance BallotSignFact_eq_dec : EqDecision BallotSignFact.
Proof. unfold EqDecision. intros. unfold Decision. repeat decide equality. Defined.

Definition sf_node (sf : BallotSignFact) : Address := ns_node (sf_sign sf).
Definition sf_signer (sf : BallotSignFact) : Publickey := ns_signer (sf_sign sf).

Record SuffrageExpelFact := {
  xf_hash : Hash;
  xf_token : string;
  xf_node : Address;
  xf_start : Z;
  xf_end : Z;
  xf_reason : string
}.
Record SuffrageExpelOperation := {
  xo_hash : Hash;
  xo_fact : SuffrageExpelFact;
  xo_signs : list NodeSign
}.
#[global] Instance SuffrageExpelOperation_eq_dec : EqDecision SuffrageExpelOperation.
Proof. unfold EqDecision. intros. unfold Decision. repeat decide equality. Defined.

(** What is reached through interfaces: hashing, signature checks, addresses. *)
Class Crypto := {
  hash_bytes : Hash -> string;               (* base58 decoding *)
  fact_hash : BallotFact -> Hash;            (* generateHash *)
  expel_token : Address -> Z -> Z -> string; (* ConcatByters(node, start, end) *)
  expel_hash : SuffrageExpelFact -> Hash;
  operation_hash : SuffrageExpelOperation -> Hash;
  sign_IsValid : NodeSign -> err;            (* BaseNodeSign.IsValid *)
  sign_Verify : NodeSign -> Hash -> err;     (* BaseNodeSign.Verify *)
  address_IsValid : Address -> err
}.

(** ** Counting the votes of sign facts ([CountBallotSignFacts]) *)
Definition add_fact (m : gmap string BallotFact) (sf : BallotSignFact) : gmap string BallotFact :=
  <[Fact_Hash (sf_fact sf) := sf_fact sf]> m.
Definition CountBallotSignFacts (sfs : list BallotSignFact) : list string * gmap string BallotFact :=
  foldl (fun '(set, m) sf => (set ++ [Fact_Hash (sf_fact sf)], add_fact m sf)) ([], ∅) sfs.

(** ** Validity of facts *)
Definition Hash_IsValid `{Crypto} (h : Hash) : err :=
  if (String.length (hash_bytes h) <? 1)%nat then Err "empty hash"
  else guard_err (100 <? String.length (hash_bytes h))%nat "over max".
Definition Token_IsValid (t : string) : err :=
  if (String.length t <? 1)%nat then Err "empty"
  else guard_err (65535 <? Z.of_nat (String.length t)) "too long".

Definition BaseFact_IsValid `{Crypto} (h : Hash) (t : string) : err :=
  check_all [Hash_IsValid h; Token_IsValid t].

Definition baseBallotFact_IsValid `{Crypto} (b : baseBallotFact) : err :=
  BaseFact_IsValid (bf_hash b) (bf_token b) ≫= fun _ =>
  StagePoint_IsValid (bf_point b) ≫= fun _ =>
  if (0 <? length (bf_expelfacts b))%nat then
    check_all (Hash_IsValid <$> bf_expelfacts b) ≫= fun _ =>
    guard_err (IsDuplicatedSlice (bf_expelfacts b) (fun h => (true, h)))
      "duplicated expel fact found"
  else Ok tt.

Definition IsValidINITBallotFact `{Crypto} (p : StagePoint) (previousBlock proposal : Hash) : err :=
  guard_err (negb (bool_decide (sp_stage p = StageINIT))) "invalid stage" ≫= fun _ =>
  check_all [ (if Point_Equal (sp_point p) GenesisPoint then Ok tt else Hash_IsValid previousBlock);
              Hash_IsValid proposal ].

Definition IsValidACCEPTBallotFact `{Crypto} (p : StagePoint) (proposal newBlock : Hash) : err :=
  guard_err (negb (bool_decide (sp_stage p = StageACCEPT))) "invalid stage" ≫= fun _ =>
  check_all [Hash_IsValid proposal; Hash_IsValid newBlock].

Definition INITBallotFact_IsValid `{Crypto} (f : BallotFact) (p q : Hash) : err :=
  baseBallotFact_IsValid (bf_base f) ≫= fun _ =>
  IsValidINITBallotFact (Fact_Point f) p q ≫= fun _ =>
  guard_err (negb (bool_decide (Fact_Hash f = fact_hash f))) "wrong hash".

Definition SuffrageConfirmBallotFact_IsValid `{Crypto} (f : BallotFact) (p q : Hash) : err :=
  guard_err (length (ExpelFacts f) <? 1)%nat "empty expel facts" ≫= fun _ =>
  baseBallotFact_IsValid (bf_base f) ≫= fun _ =>
  IsValidINITBallotFact (Fact_Point f) p q ≫= fun _ =>
  guard_err (negb (bool_decide (Fact_Hash f = fact_hash f))) "wrong hash".

(** The hash of an empty proposal fact is not compared with its contents. *)
Definition EmptyProposalINITBallotFact_IsValid `{Crypto} (f : BallotFact) (p q : Hash)
    (r : string) : err :=
  baseBallotFact_IsValid (bf_base f) ≫= fun _ =>
  IsValidINITBallotFact (Fact_Point f) p q ≫= fun _ =>
  guard_err (String.length r <? 1)%nat "empty r".

Definition ACCEPTBallotFact_IsValid `{Crypto} (f : BallotFact) (q n : Hash) : err :=
  baseBallotFact_IsValid (bf_base f) ≫= fun _ =>
  IsValidACCEPTBallotFact (Fact_Point f) q n ≫= fun _ =>
  guard_err (negb (bool_decide (Fact_Hash f = fact_hash f))) "wrong hash".

(** The [IsValid] method of each fact type; the empty-operations and
    not-processed facts inherit that of the embedded [ACCEPTBallotFact]. *)
Definition BallotFact_IsValid `{Crypto} (f : BallotFact) : err :=
  match f with
  | INITBallotFact _ p q => INITBallotFact_IsValid f p q
  | SuffrageConfirmBallotFact _ p q => SuffrageConfirmBallotFact_IsValid f p q
  | EmptyProposalINITBallotFact _ p q r => EmptyProposalINITBallotFact_IsValid f p q r
  | ACCEPTBallotFact _ q n | EmptyOperationsACCEPTBallotFact _ q n
  | NotProcessedACCEPTBallotFact _ q n => ACCEPTBallotFact_IsValid f q n
  end.

(** ** Validity of sign facts *)
Definition IsValidSignFact `{Crypto} (fact_IsValid : err) (h : Hash) (signs : list NodeSign) : err :=
  guard_err (length signs <? 1)%nat "empty signs" ≫= fun _ =>
  check_all (fact_IsValid :: (sign_IsValid <$> signs)) ≫= fun _ =>
  check_all ((fun s => sign_Verify s h) <$> signs).

Definition IsValidBallotSignFact `{Crypto} (sf : BallotSignFact) : err :=
  IsValidSignFact (BallotFact_IsValid (sf_fact sf)) (Fact_Hash (sf_fact sf)) [sf_sign sf] ≫= fun _ =>
  address_IsValid (sf_node sf).

(** [INITBallotSignFact.IsValid] and [ACCEPTBallotSignFact.IsValid]. *)
Definition BallotSignFact_IsValid `{Crypto} (sf : BallotSignFact) : err :=
  IsValidBallotSignFact sf ≫= fun _ =>
  match sf_type sf with
  | INITBallotSignFact =>
      guard_err (bool_decide (as_INITBallotFact (sf_fact sf) = None)) "not INITBallotFact"
  | ACCEPTBallotSignFact =>
      guard_err (bool_decide (as_ACCEPTBallotFact (sf_fact sf) = None)) "not ACCEPTBallotFact"
  end.

(** ** Suffrages ([isaac/suffrage.go]) *)
Record Node := { node_address : Address; node_publickey : Publickey }.
#[global] Instance Node_eq_dec : EqDecision Node.
Proof. solve_decision. Defined.

Record Suffrage := { suf_m : gmap string Node; suf_ns : list Node }.

Definition NewSuffrage (nodes : list Node) : res Suffrage :=
  if (length nodes <? 1)%nat then Err "empty suffrage nodes"
  else if IsDuplicatedSlice nodes (fun n => (true, node_address n))
  then Err "duplicated node address found"
  else Ok {| suf_m := foldl (fun m n => <[node_address n := n]> m) ∅ nodes; suf_ns := nodes |}.

Definition Suffrage_Exists (suf : Suffrage) (node : Address) : bool :=
  match suf_m suf !! node with Some _ => true | None => false end.
Definition Suffrage_ExistsPublickey (suf : Suffrage) (node : Address) (pub : Publickey) : bool :=
  match suf_m suf !! node with
  | Some n => bool_decide (node_publickey n = pub)
  | None => false
  end.
Definition Suffrage_Len (suf : Suffrage) : Z := Z.of_nat (length (suf_ns suf)).

(** ** Expels ([isaac/suffrage_operation.go]) *)

(** [SuffrageExpelOperation.NodeSigns]: the signs of the expelled node itself
    are left out. *)
Definition NodeSigns (op : SuffrageExpelOperation) : list NodeSign :=
  FilterSlice (xo_signs op) (fun s => negb (bool_decide (xf_node (xo_fact op) = ns_node s))).

(** [strings.TrimSpace] of the reason is empty (ASCII white space). *)
Definition is_space (c : ascii) : bool :=
  let n := N_of_ascii c in ((9 <=? n) && (n <=? 13) || (n =? 32))%N.
Fixpoint blank (s : string) : bool :=
  match s with EmptyString => true | String c s => is_space c && blank s end.

Definition SuffrageExpelFact_IsValid `{Crypto} (f : SuffrageExpelFact) : err :=
  if xf_start f <=? GenesisHeight then Err "invalid start height"
  else if xf_end f <? xf_start f then Err "invalid start and end height"
  else if negb (bool_decide (xf_token f = expel_token (xf_node f) (xf_start f) (xf_end f)))
  then Err "invalid token"
  else if blank (xf_reason f) then Err "empty reason"
  else
    check_all [BaseFact_IsValid (xf_hash f) (xf_token f); address_IsValid (xf_node f)] ≫= fun _ =>
    guard_err (negb (bool_decide (xf_hash f = expel_hash f))) "hash does not match".

Definition BaseOperation_IsValid `{Crypto} (op : SuffrageExpelOperation) : err :=
  guard_err (length (xo_signs op) <? 1)%nat "empty signs" ≫= fun _ =>
  Hash_IsValid (xo_hash op) ≫= fun _ =>
  IsValidSignFact (SuffrageExpelFact_IsValid (xo_fact op)) (xf_hash (xo_fact op)) (xo_signs op) ≫= fun _ =>
  guard_err (negb (bool_decide (xo_hash op = operation_hash op))) "hash does not match".

Definition BaseNodeOperation_IsValid `{Crypto} (op : SuffrageExpelOperation) : err :=
  BaseOperation_IsValid op ≫= fun _ =>
  guard_err (IsDuplicatedSlice (xo_signs op) (fun s => (true, ns_node s)))
    "duplicated signs found".

Definition SuffrageExpelOperation_IsValid `{Crypto} (op : SuffrageExpelOperation) : err :=
  BaseNodeOperation_IsValid op ≫= fun _ =>
  guard_err (length (NodeSigns op) <? 1)%nat "empty signs; valid node signs not found".

Definition IsValidExpelWithSuffrage (height : Z) (expel : SuffrageExpelOperation)
    (suf : Suffrage) : err :=
  if xf_end (xo_fact expel) <? height then Err "expel expired"
  else if negb (Suffrage_Exists suf (xf_node (xo_fact expel))) then Err "unknown expel node found"
  else guard_err
    (negb (forallb (fun s => Suffrage_ExistsPublickey suf (ns_node s) (ns_signer s)) (NodeSigns expel)))
    "unknown node signed".

Definition IsValidExpelWithSuffrageLifespan (height : Z) (expel : SuffrageExpelOperation)
    (suf : Suffrage) (lifespan : Z) : err :=
  if wrap_s 64 (xf_start (xo_fact expel) + lifespan) <? xf_end (xo_fact expel)
  then Err "invalid expel; wrong expel end"
  else IsValidExpelWithSuffrage height expel suf.

(** The number of signs an expel needs: the threshold of the suffrage, or all
    the nodes that stay when the expels are more than the threshold leaves. *)
Definition expel_sign_threshold (undef : Z) (suf : Suffrage) (threshold : Threshold) (n : Z) : Z :=
  let th := Threshold_Threshold undef threshold (Suffrage_Len suf) in
  if wrap_u 64 (Suffrage_Len suf - th) <? n then wrap_u 64 (Suffrage_Len suf - n) else th.

Definition NewSuffrageWithExpels (undef : Z) (suf : Suffrage) (threshold : Threshold)
    (expels : list SuffrageExpelOperation) : res Suffrage :=
  if (length expels <? 1)%nat then Ok suf
  else
    let th := expel_sign_threshold undef suf threshold (Z.of_nat (length expels)) in
    if existsb (fun x => Z.of_nat (length (NodeSigns x)) <? th) expels
    then Err "insufficient expel node signs"
    else NewSuffrage (Filter2Slices (suf_ns suf) expels
           (fun x y => bool_decide (node_address x = xf_node (xo_fact y)))).

(** ** Counting facts *)
Lemma CountBallotSignFacts_app s m sfs :
  foldl (fun '(set, m) sf => (set ++ [Fact_Hash (sf_fact sf)], add_fact m sf)) (s, m) sfs =
  (s ++ ((fun sf => Fact_Hash (sf_fact sf)) <$> sfs), foldl add_fact m sfs).
Proof.
  revert s m. induction sfs as [|sf sfs IH]; intros s m; simpl; [by rewrite app_nil_r|].
  by rewrite IH, <- app_assoc.
Qed.

Lemma CountBallotSignFacts_set sfs :
  (CountBallotSignFacts sfs).1 = (fun sf => Fact_Hash (sf_fact sf)) <$> sfs.
Proof. unfold CountBallotSignFacts. by rewrite CountBallotSignFacts_app. Qed.

Lemma count_facts_foldl sfs (m : gmap string BallotFact) k f :
  foldl add_fact m sfs !! k = Some f ->
  m !! k = Some f \/ exists sf, sf ∈ sfs /\ sf_fact sf = f /\ Fact_Hash f = k.
Proof.
  revert m. induction sfs as [|sf sfs IH]; intros m; simpl; [by left|].
  intros [H|(sf' & Hin & H)]%IH; [|right; exists sf'; set_solver].
  unfold add_fact in H. rewrite lookup_insert in H. case_decide as E; [|by left].
  right. exists sf. simplify_eq. set_solver.
Qed.

Lemma count_facts_found sfs (m : gmap string BallotFact) k :
  k ∈ ((fun sf => Fact_Hash (sf_fact sf)) <$> sfs) \/ is_Some (m !! k) ->
  is_Some (foldl add_fact m sfs !! k).
Proof.
  revert m. induction sfs as [|sf sfs IH]; intros m; simpl.
  - intros [[]%not_elem_of_nil|?]; done.
  - intros H. apply IH. unfold add_fact. rewrite lookup_insert.
    case_decide; [right; by eexists|].
    destruct H as [[->|H]%elem_of_cons|H]; [done|by left|by right].
Qed.

(** Every counted key has a fact of the sign facts with that hash. *)
Lemma CountBallotSignFacts_lookup sfs k :
  k ∈ (CountBallotSignFacts sfs).1 ->
  exists f sf, (CountBallotSignFacts sfs).2 !! k = Some f /\ Fact_Hash f = k /\
    sf ∈ sfs /\ sf_fact sf = f.
Proof.
  rewrite CountBallotSignFacts_set. intros Hk.
  unfold CountBallotSignFacts. rewrite CountBallotSignFacts_app. simpl.
  destruct (count_facts_found sfs ∅ k (or_introl Hk)) as [f Hf]. rewrite Hf.
  apply count_facts_foldl in Hf as [Hf|(sf & ? & ? & ?)].
  - by rewrite lookup_empty in Hf.
  - eauto 7.
Qed.

(** ** Suffrages *)

(** A suffrage as [NewSuffrage] makes it. *)
Definition suf_ok (suf : Suffrage) : Prop := NewSuffrage (suf_ns suf) = Ok suf.

Lemma NewSuffrage_ok nodes suf :
  NewSuffrage nodes = Ok suf <->
  nodes <> [] /\ NoDup (node_address <$> nodes) /\
  suf = {| suf_m := foldl (fun m n => <[node_address n := n]> m) ∅ nodes; suf_ns := nodes |}.
Proof.
  unfold NewSuffrage. destruct (Nat.ltb_spec (length nodes) 1) as [Hl|Hl].
  { split; [done|]. intros (Hne & _). destruct nodes; simpl in *; [done|lia]. }
  assert (nodes <> []) by (intros ->; simpl in *; lia).
  destruct (IsDuplicatedSlice nodes _) eqn:E.
  - split; [done|]. intros (_ & Hnd & _). apply IsDuplicatedSlice_false in Hnd. congruence.
  - apply IsDuplicatedSlice_false in E. split; [intros [= <-]; done|].
    by intros (_ & _ & ->).
Qed.

Lemma NewSuffrage_suf_ok nodes suf : NewSuffrage nodes = Ok suf -> suf_ok suf /\ suf_ns suf = nodes.
Proof. intros H. unfold suf_ok. apply NewSuffrage_ok in H as H'. naive_solver. Qed.

Lemma suffrage_map_foldl nodes (m : gmap string Node) a n :
  NoDup (node_address <$> nodes) ->
  foldl (fun m n => <[node_address n := n]> m) m nodes !! a = Some n <->
  (n ∈ nodes /\ node_address n = a) \/
  (m !! a = Some n /\ a ∉ node_address <$> nodes).
Proof.
  revert m. induction nodes as [|x nodes IH]; intros m; simpl.
  - intros _. split; [intros; right; split; [done|apply not_elem_of_nil]|].
    intros [[[]%not_elem_of_nil _]|[? _]]; done.
  - rewrite NoDup_cons. intros [Hx Hnd]. rewrite (IH _ Hnd), lookup_insert.
    rewrite not_elem_of_cons, elem_of_cons. split.
    + intros [[Hn <-]|[Hl Ha]]; [by left; auto|].
      case_decide as E; [left; naive_solver|right]. split_and!; [done|congruence|done].
    + intros [[[->|Hn] <-]|(Hl & Hne & Ha)].
      * right. split; [by rewrite decide_True|done].
      * by left.
      * right. split; [by rewrite decide_False|done].
Qed.

Lemma suf_lookup suf a n :
  suf_ok suf -> suf_m suf !! a = Some n <-> n ∈ suf_ns suf /\ node_address n = a.
Proof.
  intros (_ & Hnd & E)%NewSuffrage_ok. rewrite E. simpl.
  rewrite suffrage_map_foldl by done. rewrite lookup_empty. naive_solver.
Qed.

Lemma Suffrage_Exists_spec suf a :
  suf_ok suf -> Suffrage_Exists suf a = true <-> a ∈ node_address <$> suf_ns suf.
Proof.
  intros Hs. unfold Suffrage_Exists. rewrite list_elem_of_fmap.
  destruct (suf_m suf !! a) as [n|] eqn:E.
  - split; [|done]. intros _. apply suf_lookup in E as [? ?]; [|done]. eauto.
  - split; [done|]. intros (n & -> & Hn).
    assert (suf_m suf !! node_address n = Some n) by (by apply suf_lookup). congruence.
Qed.

Lemma Suffrage_ExistsPublickey_spec suf a pub :
  suf_ok suf ->
  Suffrage_ExistsPublickey suf a pub = true <->
  {| node_address := a; node_publickey := pub |} ∈ suf_ns suf.
Proof.
  intros Hs. unfold Suffrage_ExistsPublickey. destruct (suf_m suf !! a) as [[a' p]|] eqn:E.
  - apply suf_lookup in E as [Hin Ha]; [|done]. simpl in *. subst a'.
    rewrite bool_decide_eq_true. split; [by intros <-|]. intros Hin'.
    assert (suf_m suf !! a = Some {| node_address := a; node_publickey := p |})
      by (by apply suf_lookup).
    assert (suf_m suf !! a = Some {| node_address := a; node_publickey := pub |})
      by (by apply suf_lookup).
    congruence.
  - split; [done|]. intros Hin.
    assert (suf_m suf !! a = Some {| node_address := a; node_publickey := pub |})
      by (by apply suf_lookup). congruence.
Qed.

Lemma ExistsPublickey_Exists suf a pub :
  Suffrage_ExistsPublickey suf a pub = true -> Suffrage_Exists suf a = true.
Proof. unfold Suffrage_ExistsPublickey, Suffrage_Exists. by destruct (suf_m suf !! a). Qed.

Lemma suf_ok_NoDup suf : suf_ok suf -> NoDup (node_address <$> suf_ns suf).
Proof. by intros (_ & ? & _)%NewSuffrage_ok. Qed.

Lemma suf_ok_nonempty suf : suf_ok suf -> 1 <= Suffrage_Len suf.
Proof.
  intros (H & _)%NewSuffrage_ok. unfold Suffrage_Len.
  destruct (suf_ns suf); simpl; [done|lia].
Qed.

#[export] Hint Resolve suf_ok_NoDup suf_ok_nonempty : mitum.

(** ** Expels *)
Definition expel_nodes (expels : list SuffrageExpelOperation) : list Address :=
  (fun x => xf_node (xo_fact x)) <$> expels.

(** The distinct nodes of [suf] that signed [x], the expelled node apart. *)
Definition expel_signers (x : SuffrageExpelOperation) : list Address := ns_node <$> NodeSigns x.

(** Expels of distinct nodes of a suffrage, each valid with respect to it. *)
Definition expels_ok (height : Z) (suf : Suffrage) (expels : list SuffrageExpelOperation) : Prop :=
  NoDup (expel_nodes expels) /\
  Forall (fun x => IsValidExpelWithSuffrage height x suf = Ok tt /\ NoDup (ns_node <$> xo_signs x))
    expels.

Lemma IsValidExpelWithSuffrage_ok height x suf :
  IsValidExpelWithSuffrage height x suf = Ok tt <->
  height <= xf_end (xo_fact x) /\ Suffrage_Exists suf (xf_node (xo_fact x)) = true /\
  forall s, s ∈ NodeSigns x -> Suffrage_ExistsPublickey suf (ns_node s) (ns_signer s) = true.
Proof.
  unfold IsValidExpelWithSuffrage.
  destruct (Z.ltb_spec (xf_end (xo_fact x)) height); [naive_solver lia|].
  destruct (Suffrage_Exists suf _) eqn:E; simpl; [|naive_solver].
  rewrite guard_err_ok, negb_false_iff, forallb_forall.
  setoid_rewrite list_elem_of_In. naive_solver.
Qed.

Lemma expel_signers_spec x suf height :
  suf_ok suf -> IsValidExpelWithSuffrage height x suf = Ok tt -> NoDup (ns_node <$> xo_signs x) ->
  NoDup (expel_signers x) /\ xf_node (xo_fact x) ∉ expel_signers x /\
  forall a, a ∈ expel_signers x -> a ∈ node_address <$> suf_ns suf.
Proof.
  intros Hs (_ & _ & Hsig)%IsValidExpelWithSuffrage_ok Hnd. unfold expel_signers, NodeSigns.
  split_and!.
  - rewrite FilterSlice_filter. by apply NoDup_fmap_filter.
  - intros (s & E & [_ Hf]%FilterSlice_elem)%list_elem_of_fmap.
    apply negb_true_iff, bool_decide_eq_false in Hf. congruence.
  - intros a (s & -> & Hin)%list_elem_of_fmap.
    apply Suffrage_Exists_spec; [done|]. eapply ExistsPublickey_Exists. by apply Hsig.
Qed.

Lemma expel_sign_threshold_min undef suf n :
  suf_ok suf -> Suffrage_Len suf <= Z.of_nat max_quorum -> 0 <= n <= Suffrage_Len suf ->
  expel_sign_threshold undef suf DefaultThreshold n
    = Z.min (ceil_percent 67 (Suffrage_Len suf)) (Suffrage_Len suf - n).
Proof.
  intros Hs Hlen Hn. pose proof (suf_ok_nonempty suf Hs).
  unfold expel_sign_threshold. rewrite default_threshold_exact by lia.
  destruct (ceil_percent_intersect (Suffrage_Len suf)) as [Hlo Hhi]; [lia|].
  assert (0 <= ceil_percent 67 (Suffrage_Len suf)) by (unfold ceil_percent; div_lia).
  unfold max_quorum in *. rewrite !wrap_u_small by lia.
  destruct (Z.ltb_spec (Suffrage_Len suf - ceil_percent 67 (Suffrage_Len suf)) n); lia.
Qed.

Lemma expels_subset height suf expels :
  suf_ok suf -> expels_ok height suf expels ->
  expel_nodes expels ⊆ node_address <$> suf_ns suf.
Proof.
  intros Hs [_ Hall] a (x & -> & Hx)%list_elem_of_fmap.
  rewrite Forall_forall in Hall. destruct (Hall x Hx) as [Hv _].
  apply IsValidExpelWithSuffrage_ok in Hv as (_ & He & _).
  by apply Suffrage_Exists_spec.
Qed.

Lemma expels_length height suf expels :
  suf_ok suf -> expels_ok height suf expels -> Z.of_nat (length expels) <= Suffrage_Len suf.
Proof.
  intros Hs He. pose proof (expels_subset _ _ _ Hs He) as Hsub.
  apply subset_length in Hsub; [|by destruct He].
  unfold expel_nodes, Suffrage_Len in *. rewrite !length_fmap in Hsub. lia.
Qed.

Lemma remaining_nodes_eq suf expels :
  node_address <$> Filter2Slices (suf_ns suf) expels
      (fun x y => bool_decide (node_address x = xf_node (xo_fact y)))
  = filter (fun a => a ∉ expel_nodes expels) (node_address <$> suf_ns suf).
Proof.
  rewrite Filter2Slices_FilterSlice.
  induction (suf_ns suf) as [|x l IH]; [done|].
  rewrite fmap_cons, filter_cons. cbn [FilterSlice].
  destruct (existsb _ expels) eqn:E; cbn [negb].
  - rewrite decide_False; [exact IH|]. intros H. apply H.
    apply existsb_exists in E as (y & Hy & Hd%bool_decide_eq_true).
    apply list_elem_of_fmap. exists y. split; [done|by apply list_elem_of_In].
  - rewrite decide_True; [by rewrite fmap_cons, IH|]. intros (y & Ey & Hy)%list_elem_of_fmap.
    rewrite <- not_true_iff_false, existsb_exists in E. apply E. exists y.
    split; [by apply list_elem_of_In|by apply bool_decide_eq_true].
Qed.

Lemma remaining_length height suf expels :
  suf_ok suf -> expels_ok height suf expels ->
  Z.of_nat (length (Filter2Slices (suf_ns suf) expels
      (fun x y => bool_decide (node_address x = xf_node (xo_fact y)))))
  = Suffrage_Len suf - Z.of_nat (length expels).
Proof.
  intros Hs He. rewrite <- (length_fmap node_address), remaining_nodes_eq.
  pose proof (filter_not_in_length (expel_nodes expels) (node_address <$> suf_ns suf)
    (proj1 He) (suf_ok_NoDup suf Hs) (expels_subset _ _ _ Hs He)) as H.
  unfold expel_nodes, Suffrage_Len in *. rewrite !length_fmap in H.
  unfold expel_nodes. lia.
Qed.

(** ** Properties *)

(** C25: expelling nodes from a suffrage.  When [NewSuffrageWithExpels] accepts
    distinct, valid expels under the default threshold (suffrages up to 1000
    nodes), the result is a well formed suffrage of exactly the nodes not
    expelled, and every expel was signed by at least
    [min (67%, remaining nodes)] distinct members other than the expelled one;
    it refuses only when some expel has fewer signs or no node would remain. *)
Theorem NewSuffrageWithExpels_correct (undef height : Z) (suf : Suffrage)
    (expels : list SuffrageExpelOperation)
    (Hsuf : suf_ok suf) (Hlen : Suffrage_Len suf <= Z.of_nat max_quorum)
    (Hne : expels <> []) (Hex : expels_ok height suf expels) :
  let need := Z.min (ceil_percent 67 (Suffrage_Len suf))
                    (Suffrage_Len suf - Z.of_nat (length expels)) in
  match NewSuffrageWithExpels undef suf DefaultThreshold expels with
  | Ok rsuf =>
      suf_ok rsuf /\
      Suffrage_Len rsuf = Suffrage_Len suf - Z.of_nat (length expels) /\
      (forall n, n ∈ suf_ns rsuf <-> n ∈ suf_ns suf /\ node_address n ∉ expel_nodes expels) /\
      (forall x, x ∈ expels ->
         need <= Z.of_nat (length (expel_signers x)) /\ NoDup (expel_signers x) /\
         xf_node (xo_fact x) ∉ expel_signers x /\
         expel_signers x ⊆ node_address <$> suf_ns suf)
  | Err _ =>
      (exists x, x ∈ expels /\ Z.of_nat (length (expel_signers x)) < need) \/
      Suffrage_Len suf = Z.of_nat (length expels)
  | Panic => False
  end.
Proof.
  intros need. pose proof (expels_length _ _ _ Hsuf Hex) as Hk.
  pose proof (remaining_length _ _ _ Hsuf Hex) as Hrem.
  unfold NewSuffrageWithExpels.
  destruct (Nat.ltb_spec (length expels) 1); [destruct expels; simpl in *; done || lia|].
  rewrite expel_sign_threshold_min by (done || lia). fold need.
  destruct (existsb _ expels) eqn:E.
  - left. apply existsb_exists in E as (x & Hx & Hl%Z.ltb_lt). exists x.
    unfold expel_signers. rewrite length_fmap. split; [by apply list_elem_of_In|done].
  - destruct (NewSuffrage _) as [rsuf|e|] eqn:En; cbv beta iota.
    + apply NewSuffrage_suf_ok in En as [Hr Hns]. split_and!; [done| | |].
      * unfold Suffrage_Len at 1. rewrite Hns. exact Hrem.
      * intros n. rewrite Hns, Filter2Slices_elem. split; intros [Hn Ha]; split; try done.
        -- intros (x & Ex & Hx)%list_elem_of_fmap. specialize (Ha x Hx).
           by apply bool_decide_eq_false in Ha.
        -- intros x Hx. apply bool_decide_eq_false. intros Ex. apply Ha.
           apply list_elem_of_fmap. eauto.
      * intros x Hx. rewrite <- not_true_iff_false, existsb_exists in E.
        destruct Hex as [_ Hall]. rewrite Forall_forall in Hall.
        destruct (Hall x Hx) as [Hv Hnd].
        destruct (expel_signers_spec x suf height Hsuf Hv Hnd) as (? & ? & ?).
        split_and!; [|done..].
        unfold expel_signers at 1. rewrite length_fmap. apply Z.nlt_ge. intros Hlt.
        apply E. exists x. split; [by apply list_elem_of_In|by apply Z.ltb_lt].
    + right. unfold NewSuffrage in En.
      destruct (Nat.ltb_spec (length (Filter2Slices (suf_ns suf) expels
        (fun x y => bool_decide (node_address x = xf_node (xo_fact y))))) 1); [lia|].
      destruct (IsDuplicatedSlice _ _) eqn:Ed; [|done].
      exfalso. rewrite <- not_false_iff_true in Ed. apply Ed, IsDuplicatedSlice_false.
      rewrite remaining_nodes_eq. apply NoDup_filter. by apply suf_ok_NoDup.
    + unfold NewSuffrage in En. by repeat case_match.
Qed.

(** ** Concrete data for the witnesses *)
Definition demo_node (a : string) : Node := {| node_address := a; node_publickey := "pk-" +:+ a |}.
Definition demo_sign (a : string) : NodeSign :=
  {| ns_node := a; ns_signer := "pk-" +:+ a; ns_signature := "sig" |}.
Definition demo_suffrage : Suffrage :=
  {| suf_m := foldl (fun m n => <[node_address n := n]> m) ∅ (demo_node <$> ["n0"; "n1"; "n2"; "n3"]);
     suf_ns := demo_node <$> ["n0"; "n1"; "n2"; "n3"] |}.
Definition demo_expel (a : string) (signers : list string) : SuffrageExpelOperation :=
  {| xo_hash := "op-" +:+ a;
     xo_fact := {| xf_hash := "fact-" +:+ a; xf_token := "t"; xf_node := a; xf_start := 32;
                   xf_end := 40; xf_reason := "down" |};
     xo_signs := demo_sign <$> signers |}.

Lemma demo_suffrage_ok : suf_ok demo_suffrage.
Proof. reflexivity. Qed.

Lemma NewSuffrageWithExpels_correct_witness :
  let x := demo_expel "n3" ["n0"; "n1"; "n2"] in
  exists rsuf, NewSuffrageWithExpels 0 demo_suffrage DefaultThreshold [x] = Ok rsuf /\
    Suffrage_Len rsuf = 3.
Proof.
  intros x. eexists. split; [vm_compute; reflexivity|].
  assert (NoDup ["n3"]) as Hnd by (apply (bool_decide_unpack _); vm_compute; done).
  pose proof (NewSuffrageWithExpels_correct 0 33 demo_suffrage [x] demo_suffrage_ok) as H.
  vm_compute (NewSuffrageWithExpels _ _ _ _) in H.
  apply H; [vm_compute; discriminate|done|].
  split; [exact Hnd|].
  constructor; [|constructor].
  split; [vm_compute; reflexivity|apply (bool_decide_unpack _); vm_compute; done].
Defined.
