(* ===== verification/Voteproof.v ===== *)
(** * Voteproofs and ballots

    [isaac/voteproof.go], [isaac/voteproof_isvalid.go],
    [base/voteproof_isvalid.go], [base/ballot_isvalid.go], [isaac/ballot.go].

    A voteproof is the base part with its Go type and expels.  The local id and
    the finishing time are kept as far as the code looks at them: whether the id
    is empty and whether the voteproof is finished. *)
From S2P Require Import Prelude Point Vote Slice Ballot.
From Stdlib Require Import SpecFloat.

Open Scope Z_scope.

(** ** Data *)
Inductive vp_kind :=
  | KINIT | KINITExpel | KINITStuck | KACCEPT | KACCEPTExpel | KACCEPTStuck.
#[global] Instance vp_kind_eq_dec : EqDecision vp_kind.
Proof. solve_decision. Defined.

Record Voteproof := {
  vp_type : vp_kind;
  vp_id : string;
  vp_finished : bool;                 (* finishedAt is not zero *)
  vp_majority : option BallotFact;
  vp_sfs : list BallotSignFact;
  vp_point : StagePoint;
  vp_threshold : Threshold;
  vp_expels : list SuffrageExpelOperation
}.

(** The type assertions [base.HasExpels], [base.ExpelVoteproof],
    [base.StuckVoteproof], and to [INITVoteproof]. *)
Definition HasExpels (vp : Voteproof) : bool :=
  match vp_type vp with KINIT | KACCEPT => false | _ => true end.
Definition IsExpelVoteproof (vp : Voteproof) : bool :=
  match vp_type vp with KINITExpel | KACCEPTExpel => true | _ => false end.
Definition IsStuckVoteproof (vp : Voteproof) : bool :=
  match vp_type vp with KINITStuck | KACCEPTStuck => true | _ => false end.
Definition is_init_type (vp : Voteproof) : bool :=
  match vp_type vp with KINIT | KINITExpel | KINITStuck => true | _ => false end.

(** ** Building voteproofs *)
Definition newVoteproof (k : vp_kind) (id : string) (point : Point) (stage : Stage) : Voteproof :=
  {| vp_type := k; vp_id := id; vp_finished := false; vp_majority := None; vp_sfs := [];
     vp_point := NewStagePoint point stage; vp_threshold := S754_zero false; vp_expels := [] |}.
Definition NewINITVoteproof (id : string) (p : Point) := newVoteproof KINIT id p StageINIT.
Definition NewACCEPTVoteproof (id : string) (p : Point) := newVoteproof KACCEPT id p StageACCEPT.
Definition NewINITExpelVoteproof (id : string) (p : Point) := newVoteproof KINITExpel id p StageINIT.
Definition NewACCEPTExpelVoteproof (id : string) (p : Point) := newVoteproof KACCEPTExpel id p StageACCEPT.
Definition NewINITStuckVoteproof (id : string) (p : Point) := newVoteproof KINITStuck id p StageINIT.
Definition NewACCEPTStuckVoteproof (id : string) (p : Point) := newVoteproof KACCEPTStuck id p StageACCEPT.

Definition SetSignFacts (sfs : list BallotSignFact) (vp : Voteproof) : Voteproof :=
  {| vp_type := vp_type vp; vp_id := vp_id vp; vp_finished := vp_finished vp;
     vp_majority := vp_majority vp; vp_sfs := sfs; vp_point := vp_point vp;
     vp_threshold := vp_threshold vp; vp_expels := vp_expels vp |}.

(** [SetMajority] leaves the majority alone for the empty facts. *)
Definition SetMajority (f : option BallotFact) (vp : Voteproof) : Voteproof :=
  let skip := match f with Some f => is_empty_fact f | None => false end in
  {| vp_type := vp_type vp; vp_id := vp_id vp; vp_finished := vp_finished vp;
     vp_majority := if skip then vp_majority vp else f; vp_sfs := vp_sfs vp;
     vp_point := vp_point vp; vp_threshold := vp_threshold vp; vp_expels := vp_expels vp |}.

Definition SetThreshold (t : Threshold) (vp : Voteproof) : Voteproof :=
  {| vp_type := vp_type vp; vp_id := vp_id vp; vp_finished := vp_finished vp;
     vp_majority := vp_majority vp; vp_sfs := vp_sfs vp; vp_point := vp_point vp;
     vp_threshold := t; vp_expels := vp_expels vp |}.

(** [sort.Slice] by the string of the fact hash (an insertion sort: the order of
    equal hashes is not specified by Go). *)
Fixpoint insert_expel (x : SuffrageExpelOperation) (l : list SuffrageExpelOperation) :=
  match l with
  | [] => [x]
  | y :: l' => if str_ltb (xf_hash (xo_fact y)) (xf_hash (xo_fact x))
               then y :: insert_expel x l' else x :: l
  end.
Definition sortExpels (l : list SuffrageExpelOperation) : list SuffrageExpelOperation :=
  foldr insert_expel [] l.

Definition SetExpels (expels : list SuffrageExpelOperation) (vp : Voteproof) : Voteproof :=
  {| vp_type := vp_type vp; vp_id := vp_id vp; vp_finished := vp_finished vp;
     vp_majority := vp_majority vp; vp_sfs := vp_sfs vp; vp_point := vp_point vp;
     vp_threshold := vp_threshold vp; vp_expels := sortExpels expels |}.

Definition baseFinish (vp : Voteproof) : Voteproof :=
  {| vp_type := vp_type vp; vp_id := vp_id vp; vp_finished := true;
     vp_majority := vp_majority vp; vp_sfs := vp_sfs vp; vp_point := vp_point vp;
     vp_threshold := vp_threshold vp; vp_expels := vp_expels vp |}.

(** [Finish] of the stuck voteproofs first drops the majority and takes the
    maximum threshold. *)
Definition stuckFinish (vp : Voteproof) : Voteproof :=
  baseFinish (SetThreshold MaxThreshold (SetMajority None vp)).

Definition Result (vp : Voteproof) : VoteResult :=
  if negb (vp_finished vp) then VoteResultNotYet
  else match vp_majority vp with Some _ => VoteResultMajority | None => VoteResultDraw end.

(** [BallotMajority]: the INIT side asserts the interface, the ACCEPT side the
    concrete type [ACCEPTBallotFact]; a failed assertion panics. *)
Definition INIT_BallotMajority (vp : Voteproof) : res (option (Hash * Hash)) :=
  match vp_majority vp with
  | None => Ok None
  | Some f => match as_INITBallotFact f with Some x => Ok (Some x) | None => Panic end
  end.
Definition ACCEPT_BallotMajority (vp : Voteproof) : res (option (Hash * Hash)) :=
  match vp_majority vp with
  | None => Ok None
  | Some (ACCEPTBallotFact _ p n) => Ok (Some (p, n))
  | Some _ => Panic
  end.

(** ** Validity of a voteproof ([base/voteproof_isvalid.go]) *)
Section Validity.
Context `{Crypto}.

Definition isValidFactInVoteproof (vp : Voteproof) (f : BallotFact) : err :=
  guard_err (negb (StagePoint_Equal (vp_point vp) (Fact_Point f))) "point does not match".

Definition isValidVoteproofDuplicatedSignNode (vp : Voteproof) : err :=
  guard_err (IsDuplicatedSlice (vp_sfs vp) (fun sf => (true, sf_node sf)))
    "duplicated node found in SignFacts of voteproof".

Definition isValidVoteproofVoteResult (vp : Voteproof) : err :=
  match Result vp, vp_majority vp with
  | VoteResultDraw, m => guard_err (negb (bool_decide (m = None))) "not empty majority for draw"
  | _, None => Err "empty majority for majority"
  | _, Some f => BallotFact_IsValid f ≫= fun _ => isValidFactInVoteproof vp f
  end.

Definition isValidVoteproofSignFacts (vp : Voteproof) : err :=
  check_all ((fun sf => BallotSignFact_IsValid sf ≫= fun _ =>
                        isValidFactInVoteproof vp (sf_fact sf)) <$> vp_sfs vp) ≫= fun _ =>
  match vp_majority vp with
  | None => Ok tt
  | Some f =>
      guard_err (negb (existsb (fun sf => bool_decide (Fact_Hash (sf_fact sf) = Fact_Hash f))
                   (vp_sfs vp)))
        "majoirty not found in sign facts"
  end.

Definition IsValidVoteproof (vp : Voteproof) : err :=
  if (String.length (vp_id vp) <? 1)%nat then Err "empty id"
  else if negb (Stage_CanVote (sp_stage (vp_point vp))) then Err "wrong stage"
  else if bool_decide (Result vp = VoteResultNotYet) then Err "not yet finished"
  else if (length (vp_sfs vp) <? 1)%nat then Err "empty sign facts"
  else
    isValidVoteproofDuplicatedSignNode vp ≫= fun _ =>
    check_all [StagePoint_IsValid (vp_point vp); Threshold_IsValid (vp_threshold vp)] ≫= fun _ =>
    isValidVoteproofVoteResult vp ≫= fun _ =>
    isValidVoteproofSignFacts vp.

Definition isValidithdrawVoteproof (expels : list SuffrageExpelOperation) (vp : Voteproof) : err :=
  guard_err (length expels <? 1)%nat "empty expels" ≫= fun _ =>
  check_all (SuffrageExpelOperation_IsValid <$> expels) ≫= fun _ =>
  guard_err (IsDuplicatedSlice expels (fun x => (true, xf_node (xo_fact x))))
    "duplicated expel node found" ≫= fun _ =>
  guard_err (existsb (fun sf => bool_decide (sf_node sf ∈ expel_nodes expels)) (vp_sfs vp))
    "expel node voted".

Definition baseExpelVoteproof_isValid (vp : Voteproof) : err :=
  isValidithdrawVoteproof (vp_expels vp) vp ≫= fun _ =>
  match vp_majority vp with
  | None => Ok tt
  | Some f =>
      if (0 <? length (ExpelFacts f))%nat then
        if negb (length (ExpelFacts f) =? length (vp_expels vp))%nat then Err "expels not matched"
        else guard_err (negb (bool_decide
               (ExpelFacts f = (fun x => xf_hash (xo_fact x)) <$> vp_expels vp)))
             "unknown expels found"
      else Ok tt
  end.

Definition baseStuckVoteproof_isValid (vp : Voteproof) : err :=
  guard_err (length (vp_expels vp) <? 1)%nat "empty expels" ≫= fun _ =>
  isValidithdrawVoteproof (vp_expels vp) vp.

Definition INITVoteproof_isValid (vp : Voteproof) : err :=
  IsValidVoteproof vp ≫= fun _ =>
  guard_err (negb (bool_decide (sp_stage (vp_point vp) = StageINIT))) "wrong stage in INITVoteproof".
Definition ACCEPTVoteproof_isValid (vp : Voteproof) : err :=
  IsValidVoteproof vp ≫= fun _ =>
  guard_err (negb (bool_decide (sp_stage (vp_point vp) = StageACCEPT))) "wrong stage for ACCEPTVoteproof".

Definition INITExpelVoteproof_IsValid (vp : Voteproof) : err :=
  INITVoteproof_isValid vp ≫= fun _ => baseExpelVoteproof_isValid vp.
Definition ACCEPTExpelVoteproof_IsValid (vp : Voteproof) : err :=
  ACCEPTVoteproof_isValid vp ≫= fun _ => baseExpelVoteproof_isValid vp.
Definition INITStuckVoteproof_IsValid (vp : Voteproof) : err :=
  guard_err (negb (SFeqb (vp_threshold vp) MaxThreshold)) "wrong threshold for stuck voteproof" ≫= fun _ =>
  INITVoteproof_isValid vp ≫= fun _ => baseStuckVoteproof_isValid vp.
Definition ACCEPTStuckVoteproof_IsValid (vp : Voteproof) : err :=
  guard_err (negb (SFeqb (vp_threshold vp) MaxThreshold)) "wrong threshold for stuck voteproof" ≫= fun _ =>
  ACCEPTVoteproof_isValid vp ≫= fun _ => baseStuckVoteproof_isValid vp.

(** The [IsValid] method of each voteproof type. *)
Definition Voteproof_IsValid (vp : Voteproof) : err :=
  match vp_type vp with
  | KINIT => INITVoteproof_isValid vp
  | KACCEPT => ACCEPTVoteproof_isValid vp
  | KINITExpel => INITExpelVoteproof_IsValid vp
  | KACCEPTExpel => ACCEPTExpelVoteproof_IsValid vp
  | KINITStuck => INITStuckVoteproof_IsValid vp
  | KACCEPTStuck => ACCEPTStuckVoteproof_IsValid vp
  end.

End Validity.

(** ** Validity with respect to a suffrage *)

(** [base.IsValidVoteproofWithSuffrage]; reading a missing key of the map of
    counted facts would be a nil dereference. *)
Definition base_IsValidVoteproofWithSuffrage (undef : Z) (vp : Voteproof) (suf : Suffrage)
    (th : Threshold) : err :=
  guard_err (negb (forallb (fun sf => Suffrage_Exists suf (sf_node sf) &&
               Suffrage_ExistsPublickey suf (sf_node sf) (sf_signer sf)) (vp_sfs vp)))
    "unknown node found or wrong publickey" ≫= fun _ =>
  if IsStuckVoteproof vp then Ok tt
  else
    let '(set, m) := CountBallotSignFacts (vp_sfs vp) in
    let '(result, majoritykey) := Threshold_VoteResult undef th (Suffrage_Len suf) set in
    if negb (bool_decide (result = Result vp)) then Err "wrong result"
    else match result with
    | VoteResultDraw =>
        guard_err (negb (bool_decide (vp_majority vp = None))) "not empty majority for draw"
    | VoteResultMajority =>
        match vp_majority vp with
        | None => Err "empty majority for majority"
        | Some f =>
            match m !! majoritykey with
            | None => Panic
            | Some g => guard_err (negb (bool_decide (Fact_Hash f = Fact_Hash g)))
                          "wrong majority for majority"
            end
        end
    | VoteResultNotYet => Ok tt
    end.

(** [isaac.IsValidVoteproofWithSuffrage]. *)
Definition IsValidVoteproofWithSuffrage (undef : Z) (vp : Voteproof) (suf : Suffrage) : err :=
  let expels := if HasExpels vp then vp_expels vp else [] in
  (if (0 <? length expels)%nat then
     check_all ((fun x => IsValidExpelWithSuffrage (sp_h (vp_point vp)) x suf) <$> expels) ≫= fun _ =>
     NewSuffrageWithExpels undef suf (vp_threshold vp) expels ≫= fun rsuf =>
     Ok (rsuf, MaxThreshold)
   else Ok (suf, vp_threshold vp)) ≫= fun '(rsuf, th) =>
  guard_err (IsStuckVoteproof vp &&
             negb (Suffrage_Len suf =? Z.of_nat (length (vp_sfs vp)) + Z.of_nat (length expels)))
    "not enough sign facts with expels" ≫= fun _ =>
  base_IsValidVoteproofWithSuffrage undef vp rsuf th.

(** ** Ballots ([isaac/ballot.go], [base/ballot_isvalid.go]) *)
Record Ballot := {
  bl_type : sf_kind;                  (* INITBallot or ACCEPTBallot *)
  bl_vp : Voteproof;
  bl_signFact : BallotSignFact;
  bl_expels : list SuffrageExpelOperation
}.

Definition bl_point (bl : Ballot) : StagePoint := Fact_Point (sf_fact (bl_signFact bl)).

(** [INITBallot.Expels]: a suffrage confirm ballot takes those of its voteproof. *)
Definition Ballot_Expels (bl : Ballot) : list SuffrageExpelOperation :=
  match bl_type bl, sf_fact (bl_signFact bl) with
  | INITBallotSignFact, SuffrageConfirmBallotFact _ _ _ =>
      if IsExpelVoteproof (bl_vp bl) then vp_expels (bl_vp bl) else []
  | _, _ => bl_expels bl
  end.

Section BallotValidity.
Context `{Crypto}.

(** The callback given to [IsDuplicatedSlice] remembers the first wrong start
    height in [werr] and stops there. *)
Definition wrong_start (bl : Ballot) (x : SuffrageExpelOperation) : bool :=
  sp_h (bl_point bl) <? xf_start (xo_fact x).

Fixpoint dup_expels_loop (bl : Ballot) (m : gset string) (l : list SuffrageExpelOperation) : err :=
  match l with
  | [] => Ok tt
  | x :: l =>
      let k := xf_node (xo_fact x) in
      if wrong_start bl x then Err "wrong start height in expel"
      else if decide (k ∈ m) then Err "duplicated expel node found"
      else dup_expels_loop bl ({[k]} ∪ m) l
  end.

(** [isValidExpels].  [expelnodes] is made with the length of [expels] and never
    filled: it holds nil addresses, which equal no address. *)
Definition isValidExpels (bl : Ballot) (expels : list SuffrageExpelOperation) : err :=
  let expelfacts := ExpelFacts (sf_fact (bl_signFact bl)) in
  let expelnodes : list (option Address) := replicate (length expels) None in
  (if negb (length expelfacts =? length expels)%nat then Err "number of expels not matched"
   else if (length expels <? 1)%nat then Ok tt
   else
     check_all (SuffrageExpelOperation_IsValid <$> expels) ≫= fun _ =>
     dup_expels_loop bl ∅ expels ≫= fun _ =>
     guard_err (negb (bool_decide (expelfacts = (fun x => xf_hash (xo_fact x)) <$> expels)))
       "expel fact hash not matched") ≫= fun _ =>
  check_all ((fun x =>
    guard_err (length (FilterSlice (NodeSigns x) (fun s =>
        negb (bool_decide (Some (ns_node s) ∈ expelnodes)))) <? 1)%nat
      "valid node signs not found") <$> expels).

Definition isvalidSuffrageConfirmBallotFact (bl : Ballot) : err :=
  let vp := bl_vp bl in
  if negb (bool_decide (sp_stage (vp_point vp) = StageINIT)) then Err "wrong voteproof; stage"
  else if negb (bool_decide (Result vp = VoteResultMajority)) then Err "wrong voteproof; vote result"
  else
    match vp_majority vp ≫= fun f => as_INITBallotFact f ≫= fun pq => Some (f, pq) with
    | None => Err "not INITBallotFact"
    | Some (mf, (mprev, mprop)) =>
        if negb (IsExpelVoteproof vp) then Err "not ExpelVoteproof"
        else if (length (vp_expels vp) <? 1)%nat then Err "wrong voteproof; empty expels"
        else if (0 <? length (bl_expels bl))%nat then Err "not empty expels"
        else
          isValidExpels bl (vp_expels vp) ≫= fun _ =>
          match sf_fact (bl_signFact bl) with
          | SuffrageConfirmBallotFact b prev prop =>
              if negb (bool_decide (bf_expelfacts b = ExpelFacts mf))
              then Err "wrong voteproof; not matched with suffrage confirm ballot fact"
              else if negb (bool_decide (mprev = prev)) then Err "wrong previous block"
              else guard_err (negb (bool_decide (mprop = prop))) "wrong proposal"
          | _ => Panic
          end
    end.

Definition isValidINITVoteproofInINITBallot (bl : Ballot) (vp : Voteproof) : err :=
  if p_r (sp_point (bl_point bl)) =? 0
  then Err "init voteproof should not be in 0 round init ballot"
  else guard_err (negb (Point_Equal (Point_NextRound (sp_point (vp_point vp))) (sp_point (bl_point bl))))
    "next round not match".

Definition isValidACCEPTVoteproofInINITBallot (bl : Ballot) (vp : Voteproof) : err :=
  if bool_decide (Result vp = VoteResultMajority) then
    match as_INITBallotFact (sf_fact (bl_signFact bl)) with
    | None => Panic
    | Some (prev, _) =>
        ACCEPT_BallotMajority vp ≫= fun m =>
        match m with
        | None => Panic
        | Some (_, newblock) => guard_err (negb (bool_decide (prev = newblock))) "block does not match"
        end
    end
  else guard_err (negb (Point_Equal (Point_NextRound (sp_point (vp_point vp))) (sp_point (bl_point bl))))
    "not majority, but next round not match".

Definition IsValidINITBallot (bl : Ballot) : err :=
  guard_err (match sf_type (bl_signFact bl) with INITBallotSignFact => false | _ => true end)
    "not INITBallotSignFact" ≫= fun _ =>
  let vp := bl_vp bl in
  if bool_decide (sp_stage (vp_point vp) = StageINIT) then
    guard_err (negb (is_init_type vp)) "not INITVoteproof" ≫= fun _ =>
    isValidINITVoteproofInINITBallot bl vp
  else if bool_decide (sp_stage (vp_point vp) = StageACCEPT) then
    guard_err (is_init_type vp) "not ACCEPTVoteproof" ≫= fun _ =>
    isValidACCEPTVoteproofInINITBallot bl vp
  else Ok tt.

Definition IsValidACCEPTBallot (bl : Ballot) : err :=
  guard_err (match sf_type (bl_signFact bl) with ACCEPTBallotSignFact => false | _ => true end)
    "not ACCEPTBallotSignFact" ≫= fun _ =>
  guard_err (negb (is_init_type (bl_vp bl))) "not init voteproof in accept ballot" ≫= fun _ =>
  if negb (Point_Equal (sp_point (bl_point bl)) (sp_point (vp_point (bl_vp bl))))
  then Err "not same point"
  else guard_err (negb (bool_decide (Result (bl_vp bl) = VoteResultMajority)))
    "init voteproof not majority result".

Definition isValidACCEPTExpels (bl : Ballot) : err :=
  if (length (bl_expels bl) <? 1)%nat then Ok tt
  else if negb (HasExpels (bl_vp bl)) then Err "not HasExpels"
  else guard_err (negb (bool_decide
         (((fun x => xf_hash (xo_fact x)) <$> bl_expels bl)
          = ((fun x => xf_hash (xo_fact x)) <$> vp_expels (bl_vp bl)))))
       "invalid init voteproof; expel not match".

Definition baseBallot_IsValid (bl : Ballot) : err :=
  check_all [Voteproof_IsValid (bl_vp bl); BallotSignFact_IsValid (bl_signFact bl)].

Definition INITBallot_IsValid (bl : Ballot) : err :=
  baseBallot_IsValid bl ≫= fun _ =>
  match sf_fact (bl_signFact bl) with
  | SuffrageConfirmBallotFact _ _ _ => isvalidSuffrageConfirmBallotFact bl
  | _ => isValidExpels bl (bl_expels bl) ≫= fun _ => IsValidINITBallot bl
  end.
Definition ACCEPTBallot_IsValid (bl : Ballot) : err :=
  baseBallot_IsValid bl ≫= fun _ =>
  isValidExpels bl (bl_expels bl) ≫= fun _ =>
  IsValidACCEPTBallot bl ≫= fun _ => isValidACCEPTExpels bl.
Definition Ballot_IsValid (bl : Ballot) : err :=
  match bl_type bl with
  | INITBallotSignFact => INITBallot_IsValid bl
  | ACCEPTBallotSignFact => ACCEPTBallot_IsValid bl
  end.

End BallotValidity.

(** ** What validity gives *)
Definition sign_nodes (vp : Voteproof) : list Address := sf_node <$> vp_sfs vp.

(** The votes of a voteproof: who signed which fact hash. *)
Definition votes_in (vp : Voteproof) : list (string * string) :=
  (fun sf => (sf_node sf, Fact_Hash (sf_fact sf))) <$> vp_sfs vp.

Lemma voters_votes_in vp : voters (votes_in vp) = sign_nodes vp.
Proof. unfold voters, votes_in, sign_nodes. by rewrite <- list_fmap_compose. Qed.

Lemma keys_votes_in vp : keys (votes_in vp) = (CountBallotSignFacts (vp_sfs vp)).1.
Proof. rewrite CountBallotSignFacts_set. unfold keys, votes_in. by rewrite <- list_fmap_compose. Qed.

Lemma StagePoint_Equal_spec p q : StagePoint_Equal p q = true <-> p = q.
Proof.
  unfold StagePoint_Equal. rewrite andb_true_iff, bool_decide_eq_true, Point_Equal_spec.
  split; [|by intros ->]. intros []. by apply sp_eq.
Qed.

Lemma isValidFactInVoteproof_ok vp f :
  isValidFactInVoteproof vp f = Ok tt <-> vp_point vp = Fact_Point f.
Proof.
  unfold isValidFactInVoteproof. rewrite guard_err_ok, negb_false_iff.
  apply StagePoint_Equal_spec.
Qed.

(** Unfolds the [IsValid] methods down to the base checks. *)
Ltac unfold_methods h :=
  unfold Voteproof_IsValid, INITExpelVoteproof_IsValid, ACCEPTExpelVoteproof_IsValid,
    INITStuckVoteproof_IsValid, ACCEPTStuckVoteproof_IsValid,
    INITVoteproof_isValid, ACCEPTVoteproof_isValid in h.
Tactic Notation "unfold_IsValid" "in" hyp(h) := unfold_methods h.

Section Valid.
Context `{Crypto}.

Lemma IsValidVoteproof_inv vp :
  IsValidVoteproof vp = Ok tt ->
  vp_sfs vp <> [] /\ NoDup (sign_nodes vp) /\ Result vp <> VoteResultNotYet /\
  Stage_CanVote (sp_stage (vp_point vp)) = true /\
  Threshold_IsValid (vp_threshold vp) = Ok tt /\
  Forall (fun sf => BallotSignFact_IsValid sf = Ok tt /\ Fact_Point (sf_fact sf) = vp_point vp)
    (vp_sfs vp).
Proof.
  unfold IsValidVoteproof. intros Hv.
  destruct (_ <? 1)%nat; [done|].
  destruct (Stage_CanVote _) eqn:Es; [|done]. cbn [negb] in Hv.
  destruct (bool_decide _) eqn:Er; [done|]. apply bool_decide_eq_false in Er.
  destruct (Nat.ltb_spec (length (vp_sfs vp)) 1) as [|Hl]; [done|].
  rewrite !bind_err_ok in Hv. destruct Hv as (Hd & Hc & _ & Hs).
  unfold isValidVoteproofDuplicatedSignNode in Hd.
  rewrite guard_err_ok, IsDuplicatedSlice_false in Hd.
  rewrite check_all_ok, !Forall_cons in Hc. destruct Hc as (_ & Ht & _).
  unfold isValidVoteproofSignFacts in Hs. rewrite bind_err_ok, check_all_ok in Hs.
  destruct Hs as [Hs _]. rewrite Forall_fmap in Hs.
  split_and!; try done.
  - intros E. rewrite E in Hl. simpl in Hl. lia.
  - eapply Forall_impl; [exact Hs|]. intros sf. simpl. rewrite bind_err_ok.
    by intros [? ->%isValidFactInVoteproof_ok].
Qed.

(** Every kind of voteproof passes the base check. *)
Lemma Voteproof_IsValid_base vp : Voteproof_IsValid vp = Ok tt -> IsValidVoteproof vp = Ok tt.
Proof.
  intros Hv. unfold_IsValid in Hv. revert Hv.
  destruct (vp_type vp); rewrite ?bind_err_ok; naive_solver.
Qed.

Lemma isValidithdrawVoteproof_ok expels vp :
  isValidithdrawVoteproof expels vp = Ok tt ->
  expels <> [] /\ Forall (fun x => SuffrageExpelOperation_IsValid x = Ok tt) expels /\
  NoDup (expel_nodes expels) /\ forall a, a ∈ sign_nodes vp -> a ∉ expel_nodes expels.
Proof.
  unfold isValidithdrawVoteproof. rewrite !bind_err_ok, !guard_err_ok, check_all_ok, Forall_fmap.
  rewrite IsDuplicatedSlice_false. intros (Hl & Hall & Hnd & He).
  split_and!; [|done|done|].
  - intros ->. done.
  - intros a (sf & -> & Hsf)%list_elem_of_fmap Hin.
    rewrite <- not_true_iff_false, existsb_exists in He. apply He. exists sf.
    split; [by apply list_elem_of_In|by apply bool_decide_eq_true].
Qed.

Lemma expel_operation_signs x : SuffrageExpelOperation_IsValid x = Ok tt -> NoDup (ns_node <$> xo_signs x).
Proof.
  unfold SuffrageExpelOperation_IsValid, BaseNodeOperation_IsValid.
  rewrite !bind_err_ok, !guard_err_ok, IsDuplicatedSlice_false. naive_solver.
Qed.

End Valid.

(** Every sign fact comes from a member, with the member's key. *)
Definition signed_by_members (vp : Voteproof) (suf : Suffrage) : Prop :=
  forall sf, sf ∈ vp_sfs vp ->
    {| node_address := sf_node sf; node_publickey := sf_signer sf |} ∈ suf_ns suf.

Lemma signed_by_members_nodes vp suf :
  signed_by_members vp suf -> sign_nodes vp ⊆ node_address <$> suf_ns suf.
Proof.
  intros Hm a (sf & -> & Hsf)%list_elem_of_fmap. apply list_elem_of_fmap.
  eexists. split; [|by apply Hm]. done.
Qed.

Lemma base_withSuffrage_members undef vp suf th :
  suf_ok suf -> base_IsValidVoteproofWithSuffrage undef vp suf th = Ok tt ->
  signed_by_members vp suf.
Proof.
  intros Hs. unfold base_IsValidVoteproofWithSuffrage. rewrite bind_err_ok, guard_err_ok.
  rewrite negb_false_iff, forallb_forall. intros [Hall _] sf Hsf%list_elem_of_In.
  apply Suffrage_ExistsPublickey_spec; [done|].
  specialize (Hall sf Hsf). by apply andb_true_iff in Hall as [_ ?].
Qed.

Lemma base_withSuffrage_result undef vp suf th :
  IsStuckVoteproof vp = false -> base_IsValidVoteproofWithSuffrage undef vp suf th = Ok tt ->
  exists key, Threshold_VoteResult undef th (Suffrage_Len suf) (keys (votes_in vp))
                = (Result vp, key) /\
    (Result vp = VoteResultMajority ->
     exists f, vp_majority vp = Some f /\ Fact_Hash f = key).
Proof.
  intros Hst. unfold base_IsValidVoteproofWithSuffrage. rewrite bind_err_ok, Hst, keys_votes_in.
  intros [_ Hv]. pose proof (CountBallotSignFacts_lookup (vp_sfs vp)) as Hlk.
  destruct (CountBallotSignFacts (vp_sfs vp)) as [set m] eqn:Ec. simpl in *.
  destruct (Threshold_VoteResult undef th (Suffrage_Len suf) set) as [r key] eqn:Er.
  destruct (bool_decide (r = Result vp)) eqn:Eb; [|done].
  apply bool_decide_eq_true in Eb. subst r. exists key. split; [done|].
  intros Em. rewrite Em in Hv. simpl in Hv.
  destruct (vp_majority vp) as [f|]; [|done].
  exists f. split; [done|].
  destruct (m !! key) as [g|] eqn:Eg; [|done].
  rewrite guard_err_ok, negb_false_iff, bool_decide_eq_true in Hv. rewrite Hv.
  assert (m = (CountBallotSignFacts (vp_sfs vp)).2) as -> by (by rewrite Ec).
  unfold CountBallotSignFacts in Eg. rewrite CountBallotSignFacts_app in Eg.
  apply count_facts_foldl in Eg as [Eg|(? & _ & _ & ?)]; [by rewrite lookup_empty in Eg|done].
Qed.

(** Sign facts of distinct members vote as distinct members. *)
Lemma votes_in_votes_of vp suf :
  NoDup (sign_nodes vp) -> signed_by_members vp suf ->
  votes_of (node_address <$> suf_ns suf) (votes_in vp).
Proof.
  intros Hnd Hm. split; rewrite voters_votes_in; [done|].
  by apply signed_by_members_nodes.
Qed.

(** Without expels the suffrage and the threshold are taken as they are. *)
Lemma withSuffrage_no_expels undef vp suf :
  HasExpels vp = false ->
  IsValidVoteproofWithSuffrage undef vp suf = Ok tt ->
  base_IsValidVoteproofWithSuffrage undef vp suf (vp_threshold vp) = Ok tt.
Proof.
  intros He. unfold IsValidVoteproofWithSuffrage. rewrite He. simpl.
  rewrite bind_err_ok. by intros [_ ?].
Qed.

Lemma no_expels_not_stuck vp : HasExpels vp = false -> IsStuckVoteproof vp = false.
Proof. unfold HasExpels, IsStuckVoteproof. by destruct (vp_type vp). Qed.

Lemma suf_len_addresses suf :
  Z.of_nat (length (node_address <$> suf_ns suf)) = Suffrage_Len suf.
Proof. unfold Suffrage_Len. by rewrite length_fmap. Qed.

(** With expels, the expels are valid and the sign facts are members of the
    suffrage that remains. *)
Lemma withSuffrage_expels undef vp suf :
  suf_ok suf -> HasExpels vp = true -> vp_expels vp <> [] ->
  IsValidVoteproofWithSuffrage undef vp suf = Ok tt ->
  Forall (fun x => IsValidExpelWithSuffrage (sp_h (vp_point vp)) x suf = Ok tt) (vp_expels vp) /\
  (exists rsuf, NewSuffrageWithExpels undef suf (vp_threshold vp) (vp_expels vp) = Ok rsuf /\
     base_IsValidVoteproofWithSuffrage undef vp rsuf MaxThreshold = Ok tt) /\
  (IsStuckVoteproof vp = true ->
   Suffrage_Len suf = Z.of_nat (length (vp_sfs vp)) + Z.of_nat (length (vp_expels vp))).
Proof.
  intros Hs He Hne. unfold IsValidVoteproofWithSuffrage. rewrite He.
  destruct (Nat.ltb_spec 0 (length (vp_expels vp))) as [_|Hl];
    [|destruct (vp_expels vp); simpl in *; done || lia].
  rewrite bind_ok. intros ([rsuf th] & Hr & Hv).
  rewrite bind_err_ok, check_all_ok, Forall_fmap in Hr. destruct Hr as [Hall Hr].
  apply bind_ok in Hr as (rsuf' & Hr & [= -> ->]).
  rewrite bind_err_ok, guard_err_ok in Hv. destruct Hv as [Hst Hv].
  split_and!; [done|eauto|]. intros E. rewrite E in Hst. simpl in Hst.
  apply negb_false_iff, Z.eqb_eq in Hst. done.
Qed.

Lemma NewSuffrageWithExpels_nodes undef suf th expels rsuf :
  expels <> [] -> NewSuffrageWithExpels undef suf th expels = Ok rsuf ->
  suf_ok rsuf /\ node_address <$> suf_ns rsuf
    = filter (fun a => a ∉ expel_nodes expels) (node_address <$> suf_ns suf).
Proof.
  intros Hne. unfold NewSuffrageWithExpels.
  destruct (Nat.ltb_spec (length expels) 1); [destruct expels; simpl in *; done || lia|].
  destruct (existsb _ _); [done|]. intros Hn%NewSuffrage_suf_ok.
  destruct Hn as [Hok Hns]. split; [done|]. by rewrite Hns, remaining_nodes_eq.
Qed.

(** ** Properties *)

(** C2: agreement of voteproofs without expels. Two voteproofs without expels that are
    well formed and valid for the same suffrage of at most 1000 nodes under the default
    threshold, both with a majority, have the same majority fact, unless the nodes whose
    votes differ between the two are more than the faulty nodes tolerated. With expels
    the suffrages of the two may differ, and this does not hold. *)
Theorem voteproof_agreement `{Crypto} (undef : Z) (suf : Suffrage) (vp1 vp2 : Voteproof)
    (f1 f2 : BallotFact)
    (Hsuf : suf_ok suf) (Hlen : Suffrage_Len suf <= Z.of_nat max_quorum)
    (V1 : Voteproof_IsValid vp1 = Ok tt) (V2 : Voteproof_IsValid vp2 = Ok tt)
    (S1 : IsValidVoteproofWithSuffrage undef vp1 suf = Ok tt)
    (S2 : IsValidVoteproofWithSuffrage undef vp2 suf = Ok tt)
    (E1 : HasExpels vp1 = false) (E2 : HasExpels vp2 = false)
    (T1 : vp_threshold vp1 = DefaultThreshold) (T2 : vp_threshold vp2 = DefaultThreshold)
    (M1 : vp_majority vp1 = Some f1) (M2 : vp_majority vp2 = Some f2)
    (Hfaulty : Z.of_nat (length (equivocators (votes_in vp1) (votes_in vp2)))
               <= NumberOfFaultyNodes undef (Suffrage_Len suf) DefaultThreshold) :
  Fact_Hash f1 = Fact_Hash f2.
Proof.
  assert (forall vp f, Voteproof_IsValid vp = Ok tt ->
    IsValidVoteproofWithSuffrage undef vp suf = Ok tt -> HasExpels vp = false ->
    vp_threshold vp = DefaultThreshold -> vp_majority vp = Some f ->
    votes_of (node_address <$> suf_ns suf) (votes_in vp) /\
    Threshold_VoteResult undef DefaultThreshold (Suffrage_Len suf) (keys (votes_in vp))
      = (VoteResultMajority, Fact_Hash f)) as Hone.
  { intros vp f V S E T M. apply Voteproof_IsValid_base, IsValidVoteproof_inv in V.
    destruct V as (_ & Hnd & Hr & _).
    apply withSuffrage_no_expels in S; [|done]. rewrite T in S.
    apply base_withSuffrage_members in S as Hm; [|done].
    apply base_withSuffrage_result in S as (key & Hvr & Hmaj); [|by apply no_expels_not_stuck].
    assert (Result vp = VoteResultMajority) as ER.
    { unfold Result in *. rewrite M in *. by destruct (vp_finished vp). }
    rewrite ER in Hvr. destruct (Hmaj ER) as (f' & Ef & <-). rewrite M in Ef.
    injection Ef as <-. split; [by apply votes_in_votes_of|done]. }
  destruct (Hone vp1 f1 V1 S1 E1 T1 M1) as [O1 R1].
  destruct (Hone vp2 f2 V2 S2 E2 T2 M2) as [O2 R2].
  destruct (decide (Fact_Hash f1 = Fact_Hash f2)) as [|Hne]; [done|exfalso].
  pose proof (suf_ok_nonempty suf Hsuf).
  pose proof (conflicting_majorities undef (node_address <$> suf_ns suf)
    (votes_in vp1) (votes_in vp2) (Fact_Hash f1) (Fact_Hash f2)) as Hc.
  cbv zeta in Hc. rewrite suf_len_addresses in Hc.
  specialize (Hc ltac:(lia) O1 O2 R1 R2 Hne). lia.
Qed.

(** C26: a stuck voteproof accounts for the whole suffrage.  When a stuck
    voteproof is well formed and valid for a suffrage, its signers and its
    expelled nodes together are exactly the members, each once: nobody outside
    the suffrage signed, nobody is both signer and expelled, nobody is left
    out; and it never claims a majority once finished. *)
Theorem stuck_voteproof_partition `{Crypto} (undef : Z) (suf : Suffrage) (vp : Voteproof)
    (Hsuf : suf_ok suf) (V : Voteproof_IsValid vp = Ok tt) (Hst : IsStuckVoteproof vp = true)
    (S : IsValidVoteproofWithSuffrage undef vp suf = Ok tt) :
  sign_nodes vp ++ expel_nodes (vp_expels vp) ≡ₚ node_address <$> suf_ns suf /\
  Result (stuckFinish vp) = VoteResultDraw.
Proof.
  split; [|done].
  assert (HasExpels vp = true) as He by (unfold HasExpels, IsStuckVoteproof in *; by destruct (vp_type vp)).
  apply Voteproof_IsValid_base in V as Hb. apply IsValidVoteproof_inv in Hb as (_ & Hnd & _).
  assert (isValidithdrawVoteproof (vp_expels vp) vp = Ok tt) as Hw.
  { unfold_IsValid in V.
    unfold baseStuckVoteproof_isValid in V. unfold IsStuckVoteproof in Hst.
    destruct (vp_type vp); try done; rewrite !bind_err_ok in V; naive_solver. }
  apply isValidithdrawVoteproof_ok in Hw as (Hne & _ & Hndx & Hdis).
  destruct (withSuffrage_expels undef vp suf Hsuf He Hne S) as (Hx & (rsuf & Hr & Hb) & Hl).
  apply NewSuffrageWithExpels_nodes in Hr as [Hrok Hrn]; [|done].
  apply base_withSuffrage_members, signed_by_members_nodes in Hb; [|done].
  assert (NoDup (sign_nodes vp ++ expel_nodes (vp_expels vp))) as Hnd2.
  { apply NoDup_app. split_and!; [done| |done]. exact Hdis. }
  apply submseteq_length_Permutation.
  - apply NoDup_submseteq; [done|]. intros a [Ha|Ha]%elem_of_app.
    + apply Hb in Ha. rewrite Hrn in Ha. by apply list_elem_of_filter in Ha as [_ ?].
    + apply list_elem_of_fmap in Ha as (x & -> & Hxin).
      rewrite Forall_forall in Hx. apply Suffrage_Exists_spec; [done|].
      specialize (Hx x Hxin). by apply IsValidExpelWithSuffrage_ok in Hx as (_ & ? & _).
  - specialize (Hl Hst). unfold Suffrage_Len, sign_nodes, expel_nodes in *.
    rewrite length_app, !length_fmap. lia.
Qed.

(** A crash by a crafted ballot.  [ACCEPTVoteproof.BallotMajority] asserts
    the concrete type [ACCEPTBallotFact], while a decoded majority may be any
    ACCEPT fact: validating an INIT ballot whose ACCEPT voteproof has a
    not-processed fact as its majority panics instead of returning an error,
    before any suffrage is consulted. *)
Theorem not_processed_majority_panics `{Crypto} (bl : Ballot) (b : baseBallotFact) (p n : Hash)
    (Hty : bl_type bl = INITBallotSignFact)
    (Hsf : sf_type (bl_signFact bl) = INITBallotSignFact)
    (Hfact : IsSuffrageConfirmBallotFact (Some (sf_fact (bl_signFact bl))) = false)
    (Hvp : is_init_type (bl_vp bl) = false)
    (Hmaj : vp_majority (bl_vp bl) = Some (NotProcessedACCEPTBallotFact b p n))
    (Hbase : baseBallot_IsValid bl = Ok tt)
    (Hexpels : isValidExpels bl (bl_expels bl) = Ok tt) :
  Ballot_IsValid bl = Panic.
Proof.
  unfold Ballot_IsValid, INITBallot_IsValid. rewrite Hty, Hbase. cbn [mbind res_bind].
  unfold baseBallot_IsValid in Hbase. rewrite check_all_ok, !Forall_cons in Hbase.
  destruct Hbase as (Hv & Hs & _).
  assert (sp_stage (vp_point (bl_vp bl)) = StageACCEPT) as Hstage.
  { unfold_IsValid in Hv. unfold is_init_type in Hvp.
    destruct (vp_type (bl_vp bl)); try done;
      rewrite !bind_err_ok, !guard_err_ok, ?negb_false_iff, ?bool_decide_eq_true in Hv; naive_solver. }
  assert (Result (bl_vp bl) = VoteResultMajority) as Hres.
  { apply Voteproof_IsValid_base, IsValidVoteproof_inv in Hv as (_ & _ & Hr & _).
    unfold Result in *. rewrite Hmaj in *. by destruct (vp_finished (bl_vp bl)). }
  unfold BallotSignFact_IsValid in Hs. rewrite bind_err_ok, Hsf, guard_err_ok in Hs.
  destruct Hs as [_ Hs%bool_decide_eq_false].
  replace (match sf_fact (bl_signFact bl) with
    | SuffrageConfirmBallotFact _ _ _ => isvalidSuffrageConfirmBallotFact bl
    | _ => isValidExpels bl (bl_expels bl) ≫= fun _ => IsValidINITBallot bl
    end) with (isValidExpels bl (bl_expels bl) ≫= fun _ => IsValidINITBallot bl)
    by (by destruct (sf_fact (bl_signFact bl))).
  rewrite Hexpels. cbn [mbind res_bind]. unfold IsValidINITBallot. rewrite Hsf, Hstage, Hvp.
  cbn. unfold isValidACCEPTVoteproofInINITBallot, ACCEPT_BallotMajority.
  rewrite Hres, Hmaj. simpl. by destruct (as_INITBallotFact _) as [[]|].
Qed.

(** Signatures by expelled nodes count.  [isValidExpels] means to leave
    out the signatures of the nodes being expelled, but the list it filters
    with is never filled: two expels, each signed only by the other's target,
    pass. *)
Theorem mutual_expels_accepted `{Crypto} (bl : Ballot) (x y : SuffrageExpelOperation)
    (sx sy : NodeSign)
    (Hx : SuffrageExpelOperation_IsValid x = Ok tt)
    (Hy : SuffrageExpelOperation_IsValid y = Ok tt)
    (Hne : xf_node (xo_fact x) <> xf_node (xo_fact y))
    (Hfacts : ExpelFacts (sf_fact (bl_signFact bl)) = [xf_hash (xo_fact x); xf_hash (xo_fact y)])
    (Hstart : wrong_start bl x = false /\ wrong_start bl y = false)
    (Hsx : xo_signs x = [sx] /\ ns_node sx = xf_node (xo_fact y))
    (Hsy : xo_signs y = [sy] /\ ns_node sy = xf_node (xo_fact x)) :
  isValidExpels bl [x; y] = Ok tt /\
  expel_signers x ⊆ expel_nodes [x; y] /\ expel_signers y ⊆ expel_nodes [x; y].
Proof.
  destruct Hstart as [Wx Wy], Hsx as [Sx Nx], Hsy as [Sy Ny].
  assert (NodeSigns x = [sx]) as Fx.
  { unfold NodeSigns. rewrite Sx. simpl. rewrite Nx.
    rewrite bool_decide_eq_false_2 by done. done. }
  assert (NodeSigns y = [sy]) as Fy.
  { unfold NodeSigns. rewrite Sy. simpl. rewrite Ny.
    rewrite bool_decide_eq_false_2 by done. done. }
  split_and!.
  - unfold isValidExpels. rewrite Hfacts. cbn [length Nat.eqb negb Nat.ltb Nat.leb].
    rewrite bind_err_ok. split.
    + rewrite !bind_err_ok, check_all_ok, guard_err_ok. cbn [fmap list_fmap].
      split_and!; [by repeat constructor| |].
      * cbn [dup_expels_loop]. rewrite Wx, Wy. rewrite decide_False by set_solver.
        by rewrite decide_False by set_solver.
      * rewrite bool_decide_eq_true_2 by done. done.
    + rewrite check_all_ok. cbn [fmap list_fmap]. rewrite Fx, Fy. cbn [FilterSlice replicate].
      rewrite !bool_decide_eq_false_2 by set_solver. by repeat constructor.
  - unfold expel_signers, expel_nodes. rewrite Fx. simpl. set_solver.
  - unfold expel_signers, expel_nodes. rewrite Fy. simpl. set_solver.
Qed.

(** The same ballot at another round. *)
Definition fact_at_round (r : Z) (f : BallotFact) : BallotFact :=
  let at_round b := {| bf_hash := bf_hash b; bf_token := bf_token b;
    bf_point := NewStagePoint (RawPoint (sp_h (bf_point b)) r) (sp_stage (bf_point b));
    bf_expelfacts := bf_expelfacts b |} in
  match f with
  | INITBallotFact b p q => INITBallotFact (at_round b) p q
  | SuffrageConfirmBallotFact b p q => SuffrageConfirmBallotFact (at_round b) p q
  | EmptyProposalINITBallotFact b p q s => EmptyProposalINITBallotFact (at_round b) p q s
  | ACCEPTBallotFact b q n => ACCEPTBallotFact (at_round b) q n
  | EmptyOperationsACCEPTBallotFact b q n => EmptyOperationsACCEPTBallotFact (at_round b) q n
  | NotProcessedACCEPTBallotFact b q n => NotProcessedACCEPTBallotFact (at_round b) q n
  end.
Definition ballot_at_round (r : Z) (bl : Ballot) : Ballot :=
  {| bl_type := bl_type bl; bl_vp := bl_vp bl;
     bl_signFact := {| sf_type := sf_type (bl_signFact bl);
                       sf_fact := fact_at_round r (sf_fact (bl_signFact bl));
                       sf_sign := sf_sign (bl_signFact bl) |};
     bl_expels := bl_expels bl |}.

Lemma dup_expels_loop_round bl r m l :
  dup_expels_loop (ballot_at_round r bl) m l = dup_expels_loop bl m l.
Proof.
  revert m. induction l as [|x l IH]; intros m; [done|]. simpl.
  replace (wrong_start (ballot_at_round r bl) x) with (wrong_start bl x).
  { destruct (wrong_start bl x); [done|]. case_decide; [done|]. apply IH. }
  unfold wrong_start, bl_point, ballot_at_round, Fact_Point, sp_h. simpl.
  by destruct (sf_fact (bl_signFact bl)).
Qed.

Lemma ExpelFacts_round r f : ExpelFacts (fact_at_round r f) = ExpelFacts f.
Proof. by destruct f. Qed.

(** The round of a suffrage confirm ballot is not checked.  The checks an
    INIT ballot with a suffrage confirm fact goes through give the same answer
    at every round, whatever the point of the voteproof it carries, where an
    ordinary INIT ballot must be exactly one round after its INIT voteproof. *)
Theorem suffrage_confirm_round_unchecked `{Crypto} (bl : Ballot) (r : Z) :
  isvalidSuffrageConfirmBallotFact (ballot_at_round r bl) = isvalidSuffrageConfirmBallotFact bl /\
  (isValidINITVoteproofInINITBallot bl (bl_vp bl) = Ok tt ->
   sp_point (bl_point bl) = Point_NextRound (sp_point (vp_point (bl_vp bl)))).
Proof.
  split.
  - unfold isvalidSuffrageConfirmBallotFact. cbn [bl_vp ballot_at_round bl_expels].
    repeat case_match; try done; simplify_eq/=;
      unfold isValidExpels in *; cbn [bl_signFact ballot_at_round sf_fact] in *;
      rewrite ?ExpelFacts_round, ?dup_expels_loop_round in *; try congruence.
    all: match goal with
      | H1 : fact_at_round _ ?f = _, H2 : ?f = _ |- _ => rewrite H2 in H1; simpl in H1; simplify_eq
      | H1 : fact_at_round _ ?f = _ |- _ => destruct f; simpl in H1; simplify_eq
      end; simpl in *; congruence.
  - unfold isValidINITVoteproofInINITBallot.
    destruct (_ =? 0); [done|]. rewrite guard_err_ok, negb_false_iff, Point_Equal_spec.
    by intros <-.
Qed.

(** ** Concrete data for the witnesses *)

(** Hashes, tokens and signatures that always match. *)
Definition demo_crypto : Crypto := {|
  hash_bytes := fun h => h;
  fact_hash := Fact_Hash;
  expel_token := fun _ _ _ => "t";
  expel_hash := xf_hash;
  operation_hash := xo_hash;
  sign_IsValid := fun _ => Ok tt;
  sign_Verify := fun _ _ => Ok tt;
  address_IsValid := fun _ => Ok tt
|}.

Definition demo_base (h : string) (p : StagePoint) (expels : list Hash) : baseBallotFact :=
  {| bf_hash := h; bf_token := "token"; bf_point := p; bf_expelfacts := expels |}.
Definition demo_init_fact (r : Z) (h : string) : BallotFact :=
  INITBallotFact (demo_base h (NewStagePoint (RawPoint 33 r) StageINIT) []) "prev" "pr".
Definition demo_sf (k : sf_kind) (f : BallotFact) (a : string) : BallotSignFact :=
  {| sf_type := k; sf_fact := f; sf_sign := demo_sign a |}.
Definition demo_vp (k : vp_kind) (sk : sf_kind) (f : BallotFact) (m : option BallotFact)
    (th : Threshold) (nodes : list string) (expels : list SuffrageExpelOperation) : Voteproof :=
  {| vp_type := k; vp_id := "id"; vp_finished := true; vp_majority := m;
     vp_sfs := demo_sf sk f <$> nodes; vp_point := Fact_Point f; vp_threshold := th;
     vp_expels := expels |}.

Lemma voteproof_agreement_witness :
  let f := demo_init_fact 0 "f" in
  let vp nodes := demo_vp KINIT INITBallotSignFact f (Some f) DefaultThreshold nodes [] in
  Fact_Hash f = Fact_Hash f /\
  IsValidVoteproofWithSuffrage 0 (vp ["n0"; "n1"; "n2"]) demo_suffrage = Ok tt.
Proof.
  intros f vp. split; [|vm_compute; reflexivity].
  apply (@voteproof_agreement demo_crypto 0 demo_suffrage (vp ["n0"; "n1"; "n2"])
    (vp ["n3"; "n1"; "n2"]) f f demo_suffrage_ok); vm_compute; congruence.
Defined.

Lemma stuck_voteproof_partition_witness :
  let vp := demo_vp KINITStuck INITBallotSignFact (demo_init_fact 0 "f") None MaxThreshold
              ["n0"; "n1"; "n2"] [demo_expel "n3" ["n0"; "n1"; "n2"]] in
  sign_nodes vp ++ expel_nodes (vp_expels vp) ≡ₚ node_address <$> suf_ns demo_suffrage.
Proof.
  intros vp.
  apply (@stuck_voteproof_partition demo_crypto 0 demo_suffrage vp demo_suffrage_ok);
    vm_compute; reflexivity.
Defined.

Lemma not_processed_majority_panics_witness :
  let np := NotProcessedACCEPTBallotFact
              (demo_base "f" (NewStagePoint (RawPoint 32 0) StageACCEPT) []) "pr" "nb" in
  @Ballot_IsValid demo_crypto
    {| bl_type := INITBallotSignFact;
       bl_vp := demo_vp KACCEPT ACCEPTBallotSignFact np (Some np) DefaultThreshold ["n0"] [];
       bl_signFact := demo_sf INITBallotSignFact (demo_init_fact 0 "g") "n0"; bl_expels := [] |}
  = Panic.
Proof.
  intros np.
  apply (@not_processed_majority_panics demo_crypto _
    (demo_base "f" (NewStagePoint (RawPoint 32 0) StageACCEPT) []) "pr" "nb");
    vm_compute; reflexivity.
Defined.

Lemma mutual_expels_accepted_witness :
  let x := demo_expel "n2" ["n3"] in
  let y := demo_expel "n3" ["n2"] in
  let f := INITBallotFact (demo_base "f" (NewStagePoint (RawPoint 33 0) StageINIT)
             ["fact-n2"; "fact-n3"]) "prev" "pr" in
  let bl := {| bl_type := INITBallotSignFact;
       bl_vp := demo_vp KINIT INITBallotSignFact f None DefaultThreshold [] [];
       bl_signFact := demo_sf INITBallotSignFact f "n0"; bl_expels := [x; y] |} in
  @isValidExpels demo_crypto bl [x; y] = Ok tt.
Proof.
  intros x y f bl.
  apply (@mutual_expels_accepted demo_crypto bl x y (demo_sign "n3") (demo_sign "n2"));
    try split; vm_compute; congruence.
Defined.

Lemma suffrage_confirm_round_unchecked_witness :
  let f := demo_init_fact 1 "f" in
  let bl := {| bl_type := INITBallotSignFact;
       bl_vp := demo_vp KINIT INITBallotSignFact (demo_init_fact 0 "g") None DefaultThreshold [] [];
       bl_signFact := demo_sf INITBallotSignFact f "n0"; bl_expels := [] |} in
  sp_point (bl_point bl) = Point_NextRound (sp_point (vp_point (bl_vp bl))).
Proof.
  intros f bl. apply (proj2 (@suffrage_confirm_round_unchecked demo_crypto bl 7)).
  vm_compute. reflexivity.
Defined.
