(* ===== verification/LastPoint.v ===== *)
(** * Last points and last voteproofs

    [isaac/lastpoint.go] and [isaac/last_voteproofs.go].

    A [LastPoint] is where the node stands: the stage point of the last
    voteproof, whether it was a majority and whether it was a suffrage confirm.
    [Before] decides which ballots and voteproofs are still news.  The handler
    of the last voteproofs keeps an LRU cache of previous states; the cache is
    third-party code, so its [Get] and [Set] are parameters. *)
From S2P Require Import Prelude Point Vote Slice Ballot Voteproof.

Open Scope Z_scope.

(** ** LastPoint *)
Record LastPoint := { lp_sp : StagePoint; lp_isMajority : bool; lp_isSuffrageConfirm : bool }.
#[global] Instance LastPoint_eq_dec : EqDecision LastPoint.
Proof. solve_decision. Defined.

(** The Go zero value. *)
Definition ZeroLastPoint : LastPoint :=
  {| lp_sp := NewStagePoint (RawPoint 0 0) ""; lp_isMajority := false;
     lp_isSuffrageConfirm := false |}.

Definition NewLastPoint (point : StagePoint) (isMajority isSuffrageConfirm : bool) : res LastPoint :=
  if isSuffrageConfirm && negb (bool_decide (sp_stage point = StageINIT))
  then Err "isSuffrageConfirm should be from INIT stage"
  else Ok {| lp_sp := point; lp_isMajority := isMajority;
             lp_isSuffrageConfirm := isSuffrageConfirm |}.

Definition NewLastPointFromVoteproof (vp : Voteproof) : res LastPoint :=
  let isSuffrageConfirm :=
    match vp_majority vp with
    | Some f => IsSuffrageConfirmBallotFact (Some f)
    | None => false
    end in
  NewLastPoint (vp_point vp) (bool_decide (Result vp = VoteResultMajority)) isSuffrageConfirm.

Definition beforeSamePoint (l : LastPoint) (point : StagePoint) (isSuffrageConfirm : bool) : bool :=
  if isSuffrageConfirm then negb (lp_isSuffrageConfirm l)
  else if negb (lp_isMajority l) then false
  else if bool_decide (sp_stage point = sp_stage (lp_sp l)) then false
  else true.

Definition beforeNotSamePoint (l : LastPoint) (point : StagePoint) (isSuffrageConfirm : bool) : bool :=
  if lp_isMajority l && (Stage_Compare (sp_stage point) (sp_stage (lp_sp l)) <? 0) then false
  else if 0 <? StagePoint_Compare point (lp_sp l) then true
  else if isSuffrageConfirm && negb (lp_isMajority l) then true
  else false.

Definition Before (l : LastPoint) (point : StagePoint) (isSuffrageConfirm : bool) : bool :=
  if StagePoint_IsZero (lp_sp l) then true
  else if negb (sp_h point =? sp_h (lp_sp l)) then sp_h (lp_sp l) <? sp_h point
  else if Point_Equal (sp_point point) (sp_point (lp_sp l)) &&
          (0 <=? Stage_Compare (sp_stage point) (sp_stage (lp_sp l)))
  then beforeSamePoint l point isSuffrageConfirm
  else beforeNotSamePoint l point isSuffrageConfirm.

Definition IsNewVoteproofbyPoint (last : LastPoint) (point : StagePoint)
    (isMajority isSuffrageConfirm : bool) : bool :=
  if Before last point isSuffrageConfirm then true
  else negb (lp_isMajority last) && isMajority &&
       Point_Equal (sp_point point) (sp_point (lp_sp last)) &&
       (0 <=? Stage_Compare (sp_stage point) (sp_stage (lp_sp last))).

Definition IsNewVoteproof (last : LastPoint) (vp : Voteproof) : bool :=
  IsNewVoteproofbyPoint last (vp_point vp) (bool_decide (Result vp = VoteResultMajority))
    (IsSuffrageConfirmBallotFact (vp_majority vp)).

Definition IsNewBallot (last : LastPoint) (point : StagePoint) (isSuffrageConfirm : bool) : bool :=
  Before last point isSuffrageConfirm.

(** ** LastVoteproofs *)
Record LastVoteproofs := {
  l_ivp : option Voteproof;
  l_avp : option Voteproof;
  l_mvp : option Voteproof
}.
Definition emptyLastVoteproofs : LastVoteproofs := {| l_ivp := None; l_avp := None; l_mvp := None |}.

Definition findLastVoteproofs (ivp avp : option Voteproof) : option Voteproof :=
  match ivp, avp with
  | None, _ => avp
  | _, None => ivp
  | Some i, Some a =>
      if Point_Compare (sp_point (vp_point a)) (sp_point (vp_point i)) <? 0 then ivp else avp
  end.

Definition Cap (l : LastVoteproofs) : option Voteproof := findLastVoteproofs (l_ivp l) (l_avp l).

(** [PreviousBlockForNextRound]; a nil hash is [None]. *)
Definition PreviousBlockForNextRound (l : LastVoteproofs) (vp : Voteproof) : res (option Hash) :=
  match l_mvp l with
  | None => Ok None
  | Some m =>
      if bool_decide (sp_stage (vp_point m) = StageINIT) then
        if negb (sp_h (vp_point m) =? sp_h (vp_point vp)) then Ok None
        else match vp_majority m ≫= as_INITBallotFact with
             | Some (prev, _) => Ok (Some prev)
             | None => Panic
             end
      else if bool_decide (sp_stage (vp_point m) = StageACCEPT) then
        if negb (sp_h (vp_point m) =? wrap_s 64 (sp_h (vp_point vp) - 1)) then Ok None
        else match vp_majority m ≫= as_ACCEPTBallotFact with
             | Some (_, newblock) => Ok (Some newblock)
             | None => Panic
             end
      else Ok None
  end.

Definition LastVoteproofs_IsNew (l : LastVoteproofs) (vp : Voteproof) : bool :=
  match Cap l with
  | None => true
  | Some lvp =>
      match NewLastPointFromVoteproof lvp with
      | Ok last => IsNewVoteproof last vp
      | _ => false
      end
  end.

(** The type assertions to [base.INITVoteproof] and [base.ACCEPTVoteproof]. *)
Definition as_INITVoteproof (vp : Voteproof) : res Voteproof :=
  if is_init_type vp then Ok vp else Panic.
Definition as_ACCEPTVoteproof (vp : Voteproof) : res Voteproof :=
  if is_init_type vp then Panic else Ok vp.

(** ** LastVoteproofsHandler *)

(** The cache of the handler ([util.GCache]); [Get] makes the key recent. *)
Class LRUCache (C : Type) := {
  cache_get : C -> string -> option LastVoteproofs * C;
  cache_set : C -> string -> LastVoteproofs -> C
}.

Section Handler.
Context `{LRUCache C}.

Record LastVoteproofsHandler := { h_cache : C; h_last : LastVoteproofs }.

Definition set_ivp (vp : option Voteproof) (l : LastVoteproofs) : LastVoteproofs :=
  {| l_ivp := vp; l_avp := l_avp l; l_mvp := l_mvp l |}.
Definition set_avp (vp : option Voteproof) (l : LastVoteproofs) : LastVoteproofs :=
  {| l_ivp := l_ivp l; l_avp := vp; l_mvp := l_mvp l |}.
Definition set_mvp (vp : option Voteproof) (l : LastVoteproofs) : LastVoteproofs :=
  {| l_ivp := l_ivp l; l_avp := l_avp l; l_mvp := vp |}.

Definition Voteproofs (h : LastVoteproofsHandler) (point : StagePoint)
    : option LastVoteproofs * LastVoteproofsHandler :=
  let '(found, c) := cache_get (h_cache h) (StagePoint_String point) in
  (found, {| h_cache := c; h_last := h_last h |}).

(** [if vp.Result() == Majority { l.last.mvp = vp }]. *)
Definition update_mvp (vp : Voteproof) (l : LastVoteproofs) : LastVoteproofs :=
  if bool_decide (Result vp = VoteResultMajority) then set_mvp (Some vp) l else l.

(** [if lvps.Cap() != nil { l.cache.Set(vp.Point().String(), lvps, 0) }]. *)
Definition remember (vp : Voteproof) (lvps : LastVoteproofs) (c : C) : C :=
  match Cap lvps with
  | Some _ => cache_set c (StagePoint_String (vp_point vp)) lvps
  | None => c
  end.

Definition fillMissing (h : LastVoteproofsHandler) (lvp vp : Voteproof)
    : res (bool * LastVoteproofsHandler) :=
  let lp := vp_point lvp in
  let '(found, h) := Voteproofs h lp in
  let cached0 := default emptyLastVoteproofs found in
  (* the INIT voteproof missing below an ACCEPT one *)
  (if match l_ivp cached0 with Some _ => true | None => false end
      || negb (bool_decide (sp_stage lp = StageACCEPT))
      || negb (bool_decide (sp_stage (vp_point vp) = StageINIT))
      || negb (Point_Equal (sp_point lp) (sp_point (vp_point vp)))
   then Ok (false, cached0, h_last h)
   else as_INITVoteproof vp ≫= fun i =>
        Ok (true, set_ivp (Some i) cached0,
            match l_ivp (h_last h) with None => set_ivp (Some i) (h_last h) | _ => h_last h end))
  ≫= fun '(filled1, cached1, last1) =>
  (* the ACCEPT voteproof missing below an INIT one *)
  (if match l_avp cached1 with Some _ => true | None => false end
      || negb (bool_decide (sp_stage lp = StageINIT))
      || negb (bool_decide (sp_stage (vp_point vp) = StageACCEPT))
      || negb (sp_h lp =? wrap_s 64 (sp_h (vp_point vp) + 1))
   then Ok (filled1, cached1, last1)
   else as_ACCEPTVoteproof vp ≫= fun a =>
        Ok (true, set_avp (Some a) cached1,
            match l_avp last1 with None => set_avp (Some a) last1 | _ => last1 end))
  ≫= fun '(filled2, cached2, last2) =>
  if negb filled2 then Ok (false, {| h_cache := h_cache h; h_last := last2 |})
  else
    let cached3 :=
      match l_mvp cached2 with
      | None => update_mvp vp cached2
      | Some _ => cached2
      end in
    Ok (true, {| h_cache := cache_set (h_cache h) (StagePoint_String lp) cached3;
                 h_last := last2 |}).

(** The first voteproof must be an INIT majority, the second of its point. *)
Definition Set_refused (lvps : LastVoteproofs) (vp : Voteproof) : bool :=
  match l_ivp lvps, l_avp lvps with
  | None, None =>
      negb (bool_decide (sp_stage (vp_point vp) = StageINIT)) || bool_decide (vp_majority vp = None)
  | Some _, None =>
      match Cap lvps with
      | Some lvp => negb (Point_Equal (sp_point (vp_point lvp)) (sp_point (vp_point vp)))
      | None => false
      end
  | _, _ => false
  end.

(** The end of [Set]: the voteproof is new. *)
Definition Set_new (h : LastVoteproofsHandler) (vp : Voteproof)
    : res (bool * LastVoteproofsHandler) :=
  let lvps := h_last h in
  let done last := Ok (true, {| h_cache := remember vp lvps (h_cache h);
                                h_last := update_mvp vp last |}) in
  if bool_decide (sp_stage (vp_point vp) = StageINIT) then
    as_INITVoteproof vp ≫= fun i => done (set_ivp (Some i) lvps)
  else if bool_decide (sp_stage (vp_point vp) = StageACCEPT) then
    as_ACCEPTVoteproof vp ≫= fun a => done (set_avp (Some a) lvps)
  else Ok (false, h).

Definition Handler_Set (h : LastVoteproofsHandler) (vp : Voteproof)
    : res (bool * LastVoteproofsHandler) :=
  if Set_refused (h_last h) vp then Ok (false, h)
  else match Cap (h_last h) with
  | None => Set_new h vp
  | Some lvp =>
      match NewLastPointFromVoteproof lvp with
      | Ok lp => if IsNewVoteproof lp vp then Set_new h vp else fillMissing h lvp vp
      | Err _ => Ok (false, h)
      | Panic => Panic
      end
  end.

Definition ForceSetLast (h : LastVoteproofsHandler) (vp : Voteproof)
    : res (bool * LastVoteproofsHandler) :=
  let lvps := h_last h in
  let pt := sp_point (vp_point vp) in
  (if bool_decide (sp_stage (vp_point vp) = StageINIT) then
     as_INITVoteproof vp ≫= fun i =>
     let last := set_ivp (Some i) lvps in
     Ok (match l_avp last with
         | Some a => if 0 <=? Point_Compare (sp_point (vp_point a)) pt
                     then set_mvp None (set_avp None last) else last
         | None => last
         end)
   else if bool_decide (sp_stage (vp_point vp) = StageACCEPT) then
     as_ACCEPTVoteproof vp ≫= fun a =>
     let last := set_avp (Some a) lvps in
     Ok (match l_ivp last with
         | Some i => if 0 <? Point_Compare (sp_point (vp_point i)) pt
                     then set_mvp None (set_ivp None last) else last
         | None => last
         end)
   else Ok lvps) ≫= fun last =>
  Ok (true, {| h_cache := remember vp lvps (h_cache h); h_last := update_mvp vp last |}).

End Handler.
Arguments LastVoteproofsHandler _ : clear implicits.

(** ** Progress of last points *)

(** A last point made from a valid voteproof. *)
Definition last_ok (l : LastPoint) : Prop :=
  0 <= sp_h (lp_sp l) /\ Stage_CanVote (sp_stage (lp_sp l)) = true.

(** Each point is news after the one before it. *)
Fixpoint accepts (l : LastPoint) (ps : list LastPoint) : bool :=
  match ps with
  | [] => true
  | p :: ps => Before l (lp_sp p) (lp_isSuffrageConfirm p) && accepts p ps
  end.

Lemma Before_progress l p isc :
  last_ok l -> Stage_CanVote (sp_stage p) = true -> Before l p isc = true ->
  sp_lt (lp_sp l) p \/
  (isc = true /\ sp_h p = sp_h (lp_sp l) /\
   (lp_isSuffrageConfirm l = false \/ lp_isMajority l = false)).
Proof.
  intros [Hh Hs] Hp. unfold Before.
  rewrite (proj2 (StagePoint_nonzero (lp_sp l))) by done.
  apply Stage_CanVote_known in Hs, Hp.
  destruct (Z.eqb_spec (sp_h p) (sp_h (lp_sp l))) as [Eh|Eh]; cbn [negb].
  2:{ intros Hlt%Z.ltb_lt. left. left. left. done. }
  destruct (Point_Equal _ _) eqn:Ep; cbn [andb].
  - apply Point_Equal_spec in Ep. rewrite Stage_Compare_known by done.
    destruct (Z.leb_spec 0 (Z.sgn (stage_rank (sp_stage p) - stage_rank (sp_stage (lp_sp l)))))
      as [Hc|Hc].
    + unfold beforeSamePoint. destruct isc.
      { intros E%negb_true_iff. right. auto. }
      destruct (lp_isMajority l); [|done]. cbn [negb].
      case_bool_decide as Es; [done|]. intros _. left. right. split; [done|].
      assert (stage_rank (sp_stage p) <> stage_rank (sp_stage (lp_sp l))) as Hne
        by (intros E; apply Es; by apply stage_rank_inj).
      apply Z.sgn_nonneg in Hc. lia.
    + unfold beforeNotSamePoint. destruct (_ && _) eqn:E1; [done|].
      destruct (Z.ltb_spec 0 (StagePoint_Compare p (lp_sp l))) as [Hl|_].
      { intros _. left. by apply StagePoint_Compare_gt. }
      destruct isc, (lp_isMajority l); simpl; try done. right. auto.
  - unfold beforeNotSamePoint. destruct (_ && _) eqn:E1; [done|].
    destruct (Z.ltb_spec 0 (StagePoint_Compare p (lp_sp l))) as [Hl|_].
    { intros _. left. by apply StagePoint_Compare_gt. }
    destruct isc, (lp_isMajority l); simpl; try done. right. auto.
Qed.

Lemma sp_lt_height p q : sp_lt p q -> sp_h p <= sp_h q.
Proof. unfold sp_lt, point_lt, sp_h. intros [|[-> _]]; lia. Qed.

Lemma accepts_sorted l ps :
  last_ok l -> Forall last_ok ps -> accepts l ps = true ->
  Forall (fun p => lp_isSuffrageConfirm p = false) ps ->
  Forall (fun p => sp_lt (lp_sp l) (lp_sp p)) ps /\
  StronglySorted sp_lt (lp_sp <$> (l :: ps)).
Proof.
  revert l. induction ps as [|p ps IH]; intros l Hl Hps Ha Hn; [by repeat constructor|].
  apply Forall_cons in Hps as [Hp Hps], Hn as [Hn Hns].
  cbn [accepts] in Ha. apply andb_true_iff in Ha as [Hb Ha]. rewrite Hn in Hb.
  destruct (Before_progress l (lp_sp p) false) as [Hlt|(? & _)]; [done|apply Hp|done| |done].
  destruct (IH p) as [Hall Hsort]; [done..|].
  assert (Forall (fun q => sp_lt (lp_sp l) (lp_sp q)) (p :: ps)) as Hl'.
  { constructor; [done|]. eapply Forall_impl; [exact Hall|]. intros q. by apply sp_lt_trans. }
  split; [done|]. rewrite fmap_cons. constructor; [exact Hsort|].
  by rewrite Forall_fmap.
Qed.

Lemma accepts_heights l ps :
  last_ok l -> Forall last_ok ps -> accepts l ps = true ->
  Sorted Z.le ((fun q => sp_h (lp_sp q)) <$> (l :: ps)).
Proof.
  revert l. induction ps as [|p ps IH]; intros l Hl Hps Ha; [by repeat constructor|].
  apply Forall_cons in Hps as [Hp Hps]. cbn [accepts] in Ha. apply andb_true_iff in Ha as [Hb Ha].
  rewrite fmap_cons. constructor; [by apply IH|]. constructor.
  apply Before_progress in Hb as [Hlt|(_ & -> & _)]; [by apply sp_lt_height|lia|done|apply Hp].
Qed.

(** C27: progress of the last point.  Along any sequence of accepted last
    points the heights never decrease; without suffrage confirms the stage
    points strictly increase, so none is ever accepted twice.  Suffrage
    confirms break the order: after a draw in the ACCEPT stage the suffrage
    confirm of the same round is news again, and so is the draw after it. *)
Theorem last_point_progress (l : LastPoint) (ps : list LastPoint)
    (Hl : last_ok l) (Hps : Forall last_ok ps) (Hacc : accepts l ps = true) :
  Sorted Z.le ((fun q => sp_h (lp_sp q)) <$> (l :: ps)) /\
  (Forall (fun p => lp_isSuffrageConfirm p = false) ps ->
     StronglySorted sp_lt (lp_sp <$> (l :: ps)) /\ NoDup (lp_sp <$> (l :: ps))) /\
  (forall pt, 0 <= p_h pt ->
     let confirm := {| lp_sp := NewStagePoint pt StageINIT; lp_isMajority := true;
                       lp_isSuffrageConfirm := true |} in
     let draw := {| lp_sp := NewStagePoint pt StageACCEPT; lp_isMajority := false;
                    lp_isSuffrageConfirm := false |} in
     accepts confirm [draw; confirm; draw] = true).
Proof.
  split_and!.
  - by apply accepts_heights.
  - intros Hn. destruct (accepts_sorted l ps) as [_ Hs]; [done..|]. split; [done|].
    induction Hs as [|q qs Hs IH Hall]; constructor; [|done].
    intros Hin. rewrite Forall_forall in Hall. by apply (sp_lt_irrefl q), Hall.
  - intros pt Hpt confirm draw. unfold confirm, draw. cbn [accepts].
    unfold Before. cbn [lp_sp lp_isSuffrageConfirm lp_isMajority sp_point sp_stage].
    rewrite !(proj2 (StagePoint_nonzero _)) by done. unfold sp_h. cbn [sp_point].
    rewrite Z.eqb_refl, Point_Equal_refl. cbn [negb andb].
    unfold beforeSamePoint, beforeNotSamePoint. cbn.
    unfold StagePoint_Compare. cbn. rewrite Point_Compare_refl. cbn. reflexivity.
Qed.

(** ** Voteproofs the handler is given *)
Definition vp_wf (vp : Voteproof) : Prop :=
  exists C : Crypto, @Voteproof_IsValid C vp = Ok tt.

Lemma is_init_type_stage vp :
  vp_wf vp -> if is_init_type vp then sp_stage (vp_point vp) = StageINIT
              else sp_stage (vp_point vp) = StageACCEPT.
Proof.
  intros [C Hv]. unfold_IsValid in Hv. unfold is_init_type.
  destruct (vp_type vp); rewrite !bind_err_ok, !guard_err_ok, ?negb_false_iff, ?bool_decide_eq_true in Hv;
    naive_solver.
Qed.

Lemma as_INITVoteproof_ok vp :
  vp_wf vp -> sp_stage (vp_point vp) = StageINIT -> as_INITVoteproof vp = Ok vp.
Proof.
  intros Hw E. apply is_init_type_stage in Hw. unfold as_INITVoteproof.
  destruct (is_init_type vp); [done|]. by rewrite E in Hw.
Qed.

Lemma as_ACCEPTVoteproof_ok vp :
  vp_wf vp -> sp_stage (vp_point vp) = StageACCEPT -> as_ACCEPTVoteproof vp = Ok vp.
Proof.
  intros Hw E. apply is_init_type_stage in Hw. unfold as_ACCEPTVoteproof.
  destruct (is_init_type vp); [|done]. by rewrite E in Hw.
Qed.

Lemma BallotFact_IsValid_stage `{Crypto} f :
  BallotFact_IsValid f = Ok tt ->
  (is_Some (as_INITBallotFact f) /\ sp_stage (Fact_Point f) = StageINIT) \/
  (is_Some (as_ACCEPTBallotFact f) /\ sp_stage (Fact_Point f) = StageACCEPT).
Proof.
  unfold BallotFact_IsValid, INITBallotFact_IsValid, SuffrageConfirmBallotFact_IsValid,
    EmptyProposalINITBallotFact_IsValid, ACCEPTBallotFact_IsValid,
    IsValidINITBallotFact, IsValidACCEPTBallotFact.
  destruct f; rewrite !bind_err_ok, !guard_err_ok, ?negb_false_iff, ?bool_decide_eq_true;
    intros Hf; [left|left|left|right|right|right]; (split; [by eexists|]); naive_solver.
Qed.

(** The majority of a valid voteproof is a fact of its stage. *)
Lemma vp_wf_majority vp f :
  vp_wf vp -> vp_majority vp = Some f ->
  (sp_stage (vp_point vp) = StageINIT -> is_Some (as_INITBallotFact f)) /\
  (sp_stage (vp_point vp) = StageACCEPT -> is_Some (as_ACCEPTBallotFact f)).
Proof.
  intros [C Hv] Hf. apply Voteproof_IsValid_base in Hv as Hb.
  assert (Result vp = VoteResultMajority) as Hr.
  { apply IsValidVoteproof_inv in Hb as (_ & _ & Hr & _). unfold Result in *.
    rewrite Hf in *. by destruct (vp_finished vp). }
  unfold IsValidVoteproof in Hb. repeat case_match; try done.
  rewrite !bind_err_ok in Hb. destruct Hb as (_ & _ & Hm & _).
  unfold isValidVoteproofVoteResult in Hm. rewrite Hr, Hf, bind_err_ok in Hm.
  destruct Hm as [Hfv Hp%isValidFactInVoteproof_ok].
  apply BallotFact_IsValid_stage in Hfv. rewrite Hp. unfold StageINIT, StageACCEPT in *.
  split; intros E; rewrite E in Hfv; naive_solver.
Qed.

Lemma vp_wf_stage vp :
  vp_wf vp -> sp_stage (vp_point vp) = StageINIT \/ sp_stage (vp_point vp) = StageACCEPT.
Proof. intros Hw%is_init_type_stage. destruct (is_init_type vp); auto. Qed.

Lemma vp_wf_last_ok vp :
  vp_wf vp -> 0 <= sp_h (vp_point vp) /\ Stage_CanVote (sp_stage (vp_point vp)) = true.
Proof.
  intros [C Hv%Voteproof_IsValid_base]. unfold IsValidVoteproof in Hv. repeat case_match; try done.
  rewrite !bind_err_ok, check_all_ok, !Forall_cons in Hv. destruct Hv as (_ & (Hp & _) & _).
  unfold StagePoint_IsValid in Hp. rewrite bind_err_ok, Stage_IsValid_ok in Hp.
  destruct Hp as [[Hh _]%point_valid_inv ?]. done.
Qed.

Lemma NewLastPointFromVoteproof_ok vp :
  vp_wf vp ->
  NewLastPointFromVoteproof vp =
    Ok {| lp_sp := vp_point vp; lp_isMajority := bool_decide (Result vp = VoteResultMajority);
          lp_isSuffrageConfirm := IsSuffrageConfirmBallotFact (vp_majority vp) |}.
Proof.
  intros Hw. unfold NewLastPointFromVoteproof, NewLastPoint.
  destruct (vp_majority vp) as [f|] eqn:Ef; [|done].
  destruct (IsSuffrageConfirmBallotFact (Some f)) eqn:Ei; [|done].
  destruct (vp_wf_majority vp f Hw Ef) as [_ Ha].
  destruct (vp_wf_stage vp Hw) as [->|Es]; [done|].
  specialize (Ha Es). unfold IsSuffrageConfirmBallotFact in Ei.
  destruct f; try done. by destruct Ha.
Qed.

(** ** The invariant of the handler *)
Definition lvps_ok (l : LastVoteproofs) : Prop :=
  (forall i, l_ivp l = Some i -> vp_wf i /\ sp_stage (vp_point i) = StageINIT) /\
  (forall a, l_avp l = Some a -> vp_wf a /\ sp_stage (vp_point a) = StageACCEPT) /\
  (forall m, l_mvp l = Some m -> vp_wf m /\ Result m = VoteResultMajority).

Lemma lvps_ok_empty : lvps_ok emptyLastVoteproofs.
Proof. by split_and!. Qed.

Lemma lvps_ok_set_ivp l i :
  lvps_ok l -> vp_wf i -> sp_stage (vp_point i) = StageINIT -> lvps_ok (set_ivp (Some i) l).
Proof. intros (?&?&?) ??. split_and!; try done. by intros ? [= <-]. Qed.
Lemma lvps_ok_set_avp l a :
  lvps_ok l -> vp_wf a -> sp_stage (vp_point a) = StageACCEPT -> lvps_ok (set_avp (Some a) l).
Proof. intros (?&?&?) ??. split_and!; try done. by intros ? [= <-]. Qed.
Lemma lvps_ok_set_mvp l m :
  lvps_ok l -> vp_wf m -> Result m = VoteResultMajority -> lvps_ok (set_mvp (Some m) l).
Proof. intros (?&?&?) ??. split_and!; try done. by intros ? [= <-]. Qed.
Lemma lvps_ok_drop l :
  lvps_ok l -> lvps_ok (set_mvp None (set_ivp None l)) /\ lvps_ok (set_mvp None (set_avp None l)).
Proof. intros (?&?&?). by split_and!. Qed.
Lemma lvps_ok_update_mvp l vp : lvps_ok l -> vp_wf vp -> lvps_ok (update_mvp vp l).
Proof.
  intros Hl Hw. unfold update_mvp. case_bool_decide; [|done]. by apply lvps_ok_set_mvp.
Qed.

Create HintDb lastvp.
#[export] Hint Resolve lvps_ok_empty lvps_ok_set_ivp lvps_ok_set_avp lvps_ok_set_mvp
  lvps_ok_update_mvp : lastvp.

Lemma Cap_ok l vp : lvps_ok l -> Cap l = Some vp -> vp_wf vp.
Proof.
  intros (Hi & Ha & _). unfold Cap, findLastVoteproofs.
  destruct (l_ivp l) as [i|], (l_avp l) as [a|]; try case_match; intros [= <-]; naive_solver.
Qed.

Lemma PreviousBlock_total l vp : lvps_ok l -> exists o, PreviousBlockForNextRound l vp = Ok o.
Proof.
  intros (_ & _ & Hm). unfold PreviousBlockForNextRound.
  destruct (l_mvp l) as [m|]; [|by eexists]. destruct (Hm m eq_refl) as [Hw Hr].
  unfold Result in Hr. destruct (vp_finished m), (vp_majority m) as [f|] eqn:Ef; try done.
  destruct (vp_wf_majority m f Hw Ef) as [Hi Ha].
  case_bool_decide as Ei; [|case_bool_decide as Ea; [|by eexists]].
  - destruct (sp_h (vp_point m) =? _); cbn [negb mbind option_bind]; [|by eexists]. destruct (Hi Ei) as [[x y] Hx]. rewrite Hx. by exists (Some x).
  - destruct (sp_h (vp_point m) =? _); cbn [negb mbind option_bind]; [|by eexists]. destruct (Ha Ea) as [[x y] Hx]. rewrite Hx. by exists (Some y).
Qed.

(** What the handler relies on in the cache: keys may disappear, values only
    come from [Set]. *)
Class LRUCacheLaws (C : Type) `{!LRUCache C} := {
  cache_get_set : forall c k v k' v',
    (cache_get (cache_set c k v) k').1 = Some v' ->
    (k' = k /\ v' = v) \/ (cache_get c k').1 = Some v';
  cache_get_get : forall c k k' v',
    (cache_get (cache_get c k).2 k').1 = Some v' -> (cache_get c k').1 = Some v'
}.

Section HandlerProofs.
Context `{LRUCacheLaws C}.
Implicit Types h : LastVoteproofsHandler C.

Definition cache_ok (c : C) : Prop := forall k v, (cache_get c k).1 = Some v -> lvps_ok v.
Definition handler_ok h : Prop := lvps_ok (h_last h) /\ cache_ok (h_cache h).

Lemma cache_ok_set c k v : cache_ok c -> lvps_ok v -> cache_ok (cache_set c k v).
Proof. intros Hc Hv k' v' [[-> ->]|]%cache_get_set; [done|by eapply Hc]. Qed.

Lemma cache_ok_get c k : cache_ok c -> cache_ok (cache_get c k).2.
Proof. intros Hc k' v' ?%cache_get_get. by eapply Hc. Qed.

Lemma cache_ok_remember vp lvps c : cache_ok c -> lvps_ok lvps -> cache_ok (remember vp lvps c).
Proof. intros. unfold remember. destruct (Cap lvps); [by apply cache_ok_set|done]. Qed.

Lemma Voteproofs_ok h pt :
  handler_ok h -> handler_ok (Voteproofs h pt).2 /\
  (forall lv, (Voteproofs h pt).1 = Some lv -> lvps_ok lv) /\ h_last (Voteproofs h pt).2 = h_last h.
Proof.
  intros [Hl Hc]. unfold Voteproofs.
  pose proof (cache_ok_get (h_cache h) (StagePoint_String pt) Hc) as Hg.
  pose proof (Hc (StagePoint_String pt)) as Hv.
  destruct (cache_get _ _) as [found c]. simpl in *. by split_and!.
Qed.

Lemma fillMissing_ok h lvp vp :
  handler_ok h -> vp_wf vp ->
  exists b h', fillMissing h lvp vp = Ok (b, h') /\ handler_ok h'.
Proof.
  intros Hh Hw. unfold fillMissing.
  destruct (Voteproofs_ok h (vp_point lvp) Hh) as (Hh' & Hv & _).
  destruct (Voteproofs h (vp_point lvp)) as [found h1]. simpl in *. destruct Hh' as [Hl Hc].
  assert (lvps_ok (default emptyLastVoteproofs found)) as H0
    by (destruct found; [by apply Hv|apply lvps_ok_empty]).
  set (c0 := default emptyLastVoteproofs found) in *. clearbody c0.
  match goal with |- exists b h', (?m ≫= _) = _ /\ _ => assert (exists f1 c1 l1,
    m = Ok (f1, c1, l1) /\ lvps_ok c1 /\ lvps_ok l1) as (f1 & c1 & l1 & -> & Hc1 & Hl1) end.
  { destruct (_ || _) eqn:E; [by eauto 7|].
    rewrite !orb_false_iff, !negb_false_iff, !bool_decide_eq_true in E.
    destruct E as (((_ & _) & Es) & _). rewrite as_INITVoteproof_ok by done. simpl.
    do 3 eexists. split; [done|]. destruct (l_ivp (h_last h1)); eauto with lastvp. }
  simpl.
  match goal with |- exists b h', (?m ≫= _) = _ /\ _ => assert (exists f2 c2 l2,
    m = Ok (f2, c2, l2) /\ lvps_ok c2 /\ lvps_ok l2) as (f2 & c2 & l2 & -> & Hc2 & Hl2) end.
  { destruct (_ || _) eqn:E; [by eauto 7|].
    rewrite !orb_false_iff, !negb_false_iff, !bool_decide_eq_true in E.
    destruct E as (((_ & _) & Es) & _). rewrite as_ACCEPTVoteproof_ok by done. simpl.
    do 3 eexists. split; [done|]. destruct (l_avp l1); eauto with lastvp. }
  simpl. destruct f2; simpl; do 2 eexists; (split; [reflexivity|]); split; try done.
  apply cache_ok_set; [done|]. destruct (l_mvp c2); eauto with lastvp.
Qed.

Lemma Set_new_ok h vp :
  handler_ok h -> vp_wf vp ->
  exists last, Set_new h vp = Ok (true, {| h_cache := remember vp (h_last h) (h_cache h);
                                           h_last := update_mvp vp last |}) /\
    lvps_ok last /\
    last = (if bool_decide (sp_stage (vp_point vp) = StageINIT)
            then set_ivp (Some vp) (h_last h) else set_avp (Some vp) (h_last h)).
Proof.
  intros [Hl _] Hw. unfold Set_new.
  destruct (vp_wf_stage vp Hw) as [E|E]; rewrite E; cbn.
  - rewrite as_INITVoteproof_ok by done. eexists. split_and!; eauto with lastvp.
  - rewrite as_ACCEPTVoteproof_ok by done. eexists. split_and!; eauto with lastvp.
Qed.

(** [Set] either refuses, takes a new voteproof, or fills a hole. *)
Lemma Handler_Set_cases h vp :
  handler_ok h -> vp_wf vp ->
  (Set_refused (h_last h) vp = true /\ Handler_Set h vp = Ok (false, h)) \/
  (LastVoteproofs_IsNew (h_last h) vp = true /\ Handler_Set h vp = Set_new h vp) \/
  (exists lvp, Cap (h_last h) = Some lvp /\ LastVoteproofs_IsNew (h_last h) vp = false /\
     Handler_Set h vp = fillMissing h lvp vp).
Proof.
  intros [Hl _] Hw. unfold Handler_Set, LastVoteproofs_IsNew.
  destruct (Set_refused (h_last h) vp); [by left|right].
  destruct (Cap (h_last h)) as [lvp|] eqn:Ec; [|by left].
  rewrite NewLastPointFromVoteproof_ok by (by eapply Cap_ok).
  destruct (IsNewVoteproof _ vp) eqn:En; [by left|right]. by exists lvp.
Qed.

Lemma Handler_Set_ok h vp :
  handler_ok h -> vp_wf vp -> exists b h', Handler_Set h vp = Ok (b, h') /\ handler_ok h'.
Proof.
  intros Hh Hw. destruct (Handler_Set_cases h vp Hh Hw) as [[_ ->]|[[_ ->]|(lvp & _ & _ & ->)]].
  - eauto.
  - destruct (Set_new_ok h vp Hh Hw) as (last & -> & Hl & _). do 2 eexists. split; [done|].
    destruct Hh. split; [eauto with lastvp|by apply cache_ok_remember].
  - by apply fillMissing_ok.
Qed.

Lemma ForceSetLast_ok h vp :
  handler_ok h -> vp_wf vp -> exists h', ForceSetLast h vp = Ok (true, h') /\ handler_ok h'.
Proof.
  intros [Hl Hc] Hw. unfold ForceSetLast.
  match goal with |- exists h', (?m ≫= _) = _ /\ _ => assert (exists last,
    m = Ok last /\ lvps_ok last) as (last & -> & Hlast) end.
  { destruct (vp_wf_stage vp Hw) as [E|E]; rewrite E; cbn.
    - rewrite as_INITVoteproof_ok by done. eexists. split; [done|].
      assert (lvps_ok (set_ivp (Some vp) (h_last h))) by eauto with lastvp.
      repeat case_match; try done. by apply lvps_ok_drop.
    - rewrite as_ACCEPTVoteproof_ok by done. eexists. split; [done|].
      assert (lvps_ok (set_avp (Some vp) (h_last h))) by eauto with lastvp.
      repeat case_match; try done. by apply lvps_ok_drop. }
  cbn. eexists. split; [done|]. split; [eauto with lastvp|by apply cache_ok_remember].
Qed.

(** The handler as a transition system. *)
Inductive handler_step : LastVoteproofsHandler C -> LastVoteproofsHandler C -> Prop :=
  | step_Set h vp b h' : vp_wf vp -> Handler_Set h vp = Ok (b, h') -> handler_step h h'
  | step_Force h vp b h' : vp_wf vp -> ForceSetLast h vp = Ok (b, h') -> handler_step h h'
  | step_Voteproofs h pt : handler_step h (Voteproofs h pt).2.

Inductive handler_reachable : LastVoteproofsHandler C -> Prop :=
  | reach_new c : (forall k, (cache_get c k).1 = None) ->
      handler_reachable {| h_cache := c; h_last := emptyLastVoteproofs |}
  | reach_step h h' : handler_reachable h -> handler_step h h' -> handler_reachable h'.

Lemma handler_reachable_ok h : handler_reachable h -> handler_ok h.
Proof.
  induction 1 as [c Hc|h h' _ IH Hs].
  - split; [apply lvps_ok_empty|]. intros k v Hv. by rewrite Hc in Hv.
  - destruct Hs as [h vp b h' Hw Hs|h vp b h' Hw Hs|h pt].
    + destruct (Handler_Set_ok h vp IH Hw) as (? & ? & E & ?). rewrite E in Hs. naive_solver.
    + destruct (ForceSetLast_ok h vp IH Hw) as (? & E & ?). rewrite E in Hs. naive_solver.
    + by apply Voteproofs_ok.
Qed.

(** ** How the cap moves *)
Lemma Set_new_cap h vp :
  handler_ok h -> vp_wf vp -> LastVoteproofs_IsNew (h_last h) vp = true ->
  IsSuffrageConfirmBallotFact (vp_majority vp) = false ->
  (forall lvp, Cap (h_last h) = Some lvp ->
     sp_lt (vp_point lvp) (vp_point vp) \/
     (sp_point (vp_point lvp) = sp_point (vp_point vp) /\
      stage_rank (sp_stage (vp_point lvp)) <= stage_rank (sp_stage (vp_point vp)) /\
      Result lvp <> VoteResultMajority /\ Result vp = VoteResultMajority)).
Proof.
  intros [Hl _] Hw Hn Hsc lvp Ec. unfold LastVoteproofs_IsNew in Hn. rewrite Ec in Hn.
  assert (vp_wf lvp) as Hwl by (by eapply Cap_ok).
  rewrite NewLastPointFromVoteproof_ok in Hn by done.
  unfold IsNewVoteproof, IsNewVoteproofbyPoint in Hn. rewrite Hsc in Hn.
  apply vp_wf_last_ok in Hw as [_ Hst]. apply vp_wf_last_ok in Hwl.
  match type of Hn with (if ?b then _ else _) = _ => destruct b eqn:Eb end.
  - apply Before_progress in Eb as [Hlt|(? & _)]; [by left|done|done|done].
  - right. cbn [lp_sp lp_isMajority] in Hn.
    rewrite !andb_true_iff, negb_true_iff, bool_decide_eq_false, bool_decide_eq_true,
      Point_Equal_spec in Hn. destruct Hn as (((? & ?) & ->) & Hr%Z.leb_le).
    rewrite Stage_Compare_known in Hr by (apply Stage_CanVote_known; tauto).
    apply Z.sgn_nonneg in Hr. split_and!; [done|lia|done|done].
Qed.

(** The cap is the highest of the two, the ACCEPT one when they meet. *)
Lemma Cap_max l c :
  Cap l = Some c ->
  (forall i, l_ivp l = Some i -> ~ point_lt (sp_point (vp_point c)) (sp_point (vp_point i))) /\
  (forall a, l_avp l = Some a -> c = a \/
     (l_ivp l = Some c /\ point_lt (sp_point (vp_point a)) (sp_point (vp_point c)))).
Proof.
  unfold Cap, findLastVoteproofs. destruct (l_ivp l) as [i|], (l_avp l) as [a|]; try done.
  - destruct (Z.ltb_spec (Point_Compare (sp_point (vp_point a)) (sp_point (vp_point i))) 0)
      as [Hc|Hc]; intros [= <-]; (split; [intros ? [= <-]|intros ? [= <-]]).
    + apply point_lt_irrefl.
    + right. split; [done|by apply Point_Compare_lt].
    + intros Hlt%Point_Compare_lt. lia.
    + by left.
  - intros [= <-]. split; [|done]. intros ? [= <-]. apply point_lt_irrefl.
  - intros [= <-]. split; [done|]. intros ? [= <-]. by left.
Qed.

Lemma Cap_set_ivp l vp :
  (forall a, l_avp l = Some a -> point_lt (sp_point (vp_point a)) (sp_point (vp_point vp))) ->
  Cap (set_ivp (Some vp) l) = Some vp.
Proof.
  intros Ha. unfold Cap, findLastVoteproofs. simpl. destruct (l_avp l) as [a|]; [|done].
  specialize (Ha a eq_refl). apply Point_Compare_lt in Ha.
  by rewrite (proj2 (Z.ltb_lt _ _)) by done.
Qed.

Lemma Cap_set_avp l vp :
  (forall i, l_ivp l = Some i -> ~ point_lt (sp_point (vp_point vp)) (sp_point (vp_point i))) ->
  Cap (set_avp (Some vp) l) = Some vp.
Proof.
  intros Hi. unfold Cap, findLastVoteproofs. simpl. destruct (l_ivp l) as [i|]; [|done].
  specialize (Hi i eq_refl). rewrite <- Point_Compare_lt in Hi.
  by rewrite (proj2 (Z.ltb_ge _ _)) by lia.
Qed.

Lemma Cap_none l : Cap l = None -> l_ivp l = None /\ l_avp l = None.
Proof. unfold Cap, findLastVoteproofs. repeat case_match; naive_solver. Qed.

Lemma Cap_update_mvp vp l : Cap (update_mvp vp l) = Cap l.
Proof. unfold update_mvp. by case_match. Qed.

Lemma stage_rank_values :
  stage_rank StageINIT = 1 /\ stage_rank StageACCEPT = 3.
Proof. done. Qed.

Lemma Set_new_is_cap h vp last :
  handler_ok h -> vp_wf vp -> LastVoteproofs_IsNew (h_last h) vp = true ->
  IsSuffrageConfirmBallotFact (vp_majority vp) = false ->
  last = (if bool_decide (sp_stage (vp_point vp) = StageINIT)
          then set_ivp (Some vp) (h_last h) else set_avp (Some vp) (h_last h)) ->
  Cap last = Some vp.
Proof.
  intros Hh Hw Hn Hsc ->. pose proof (Set_new_cap h vp Hh Hw Hn Hsc) as Hp.
  destruct stage_rank_values as [R1 R3].
  destruct (Cap (h_last h)) as [c|] eqn:Ec.
  2:{ apply Cap_none in Ec as [Ei Ea]. case_bool_decide;
        [apply Cap_set_ivp|apply Cap_set_avp]; congruence. }
  specialize (Hp c eq_refl). destruct (Cap_max _ _ Ec) as [Hmi Hma].
  assert (vp_wf c) as Hwc by (destruct Hh; by eapply Cap_ok).
  destruct Hh as [(_ & Hav & _) _]. unfold sp_lt in Hp.
  case_bool_decide as Es.
  - apply Cap_set_ivp. intros a Ea. destruct (Hav a Ea) as [_ Hsa].
    rewrite Es, R1 in Hp.
    destruct (Hma a Ea) as [->|[_ Hlt]].
    + rewrite Hsa, R3 in Hp. destruct Hp as [[|[]]|]; [done|lia..].
    + destruct Hp as [[|[<- _]]|[<- _]]; [by eapply point_lt_trans|done|done].
  - apply Cap_set_avp. intros i Ei Hlt. specialize (Hmi i Ei).
    destruct Hp as [[Hp|[Hp _]]|[Hp _]]; [|by rewrite Hp in Hmi..].
    apply Hmi. by eapply point_lt_trans.
Qed.

(** Filling a hole below the cap leaves the cap and the majority alone. *)
Lemma fillMissing_cap h lvp vp b h' :
  handler_ok h -> vp_wf vp -> i64 (sp_h (vp_point vp)) -> Cap (h_last h) = Some lvp ->
  fillMissing h lvp vp = Ok (b, h') ->
  Cap (h_last h') = Some lvp /\ l_mvp (h_last h') = l_mvp (h_last h).
Proof.
  intros Hh Hw Hi Ec. unfold fillMissing.
  destruct (Voteproofs_ok h (vp_point lvp) Hh) as (_ & _ & El).
  destruct (Voteproofs h (vp_point lvp)) as [found h1]. simpl in El. rewrite El.
  assert (vp_wf lvp) as Hwl by (destruct Hh; by eapply Cap_ok).
  apply vp_wf_last_ok in Hwl as [Hh0 _].
  assert (forall f1 c1 l1 b h', (if negb f1 then Ok (false, {| h_cache := h_cache h1; h_last := l1 |})
    else Ok (true, {| h_cache := cache_set (h_cache h1) (StagePoint_String (vp_point lvp))
      (match l_mvp c1 with None => update_mvp vp c1 | Some _ => c1 end); h_last := l1 |})) = Ok (b, h') ->
    h_last h' = l1) as Hfin by (intros []; simpl; naive_solver).
  rewrite !bind_ok. intros ([[f1 c1] l1] & E1 & Hr). rewrite bind_ok in Hr.
  destruct Hr as ([[f2 c2] l2] & E2 & Hr). apply Hfin in Hr. rewrite Hr. clear Hr Hfin.
  assert (Cap l1 = Some lvp /\ l_mvp l1 = l_mvp (h_last h)) as [Ec1 Em1].
  { destruct (_ || _) eqn:E in E1; [by simplify_eq|].
    rewrite !orb_false_iff, !negb_false_iff, !bool_decide_eq_true, Point_Equal_spec in E.
    destruct E as (((_ & _) & Es) & Ep). rewrite as_INITVoteproof_ok in E1 by done. simplify_eq/=.
    destruct (l_ivp (h_last h)) as [i|] eqn:Ei; [done|]. split; [|done].
    unfold Cap in *. simpl. rewrite Ei in Ec. simpl in Ec. rewrite Ec. unfold findLastVoteproofs.
    rewrite Ep, Point_Compare_refl. done. }
  destruct (_ || _) eqn:E in E2; [by simplify_eq|].
  rewrite !orb_false_iff, !negb_false_iff, !bool_decide_eq_true, Z.eqb_eq in E.
  destruct E as (((_ & _) & Es) & Eh). rewrite as_ACCEPTVoteproof_ok in E2 by done. simplify_eq/=.
  destruct (l_avp l1) as [a|] eqn:Ea; [done|]. split; [|done].
  unfold Cap in *. simpl. rewrite Ea in Ec1. destruct (l_ivp l1) as [i|]; [|done].
  simpl in Ec1. injection Ec1 as ->. unfold findLastVoteproofs.
  rewrite (proj2 (Z.ltb_lt _ _)); [done|]. apply Point_Compare_lt. left.
  apply vp_wf_last_ok in Hw as [Hv0 _]. unfold sp_h, i64 in *.
  destruct (decide (p_h (sp_point (vp_point vp)) + 1 < 2 ^ 63)) as [|Hge].
  - rewrite wrap_s_small in Eh by lia. lia.
  - assert (p_h (sp_point (vp_point vp)) = 2 ^ 63 - 1) as Em by lia. rewrite Em in Eh.
    vm_compute (wrap_s 64 _) in Eh. lia.
Qed.

End HandlerProofs.

(** ** Properties of the handler *)

(** The handler of the last voteproofs never panics.  From an empty
    handler, after any calls with valid voteproofs, [Set] and [ForceSetLast]
    return, and [PreviousBlockForNextRound] returns for the last state and for
    every cached one, although they all rest on unchecked type assertions. *)
Theorem last_voteproofs_never_panic `{LRUCacheLaws C} (h : LastVoteproofsHandler C)
    (vp : Voteproof) (Hreach : handler_reachable h) (Hvp : vp_wf vp) :
  (exists b h', Handler_Set h vp = Ok (b, h')) /\
  (exists h', ForceSetLast h vp = Ok (true, h')) /\
  (exists o, PreviousBlockForNextRound (h_last h) vp = Ok o) /\
  (forall pt lv, (Voteproofs h pt).1 = Some lv ->
     exists o, PreviousBlockForNextRound lv vp = Ok o).
Proof.
  apply handler_reachable_ok in Hreach. split_and!.
  - destruct (Handler_Set_ok h vp Hreach Hvp) as (b & h' & E & _). eauto.
  - destruct (ForceSetLast_ok h vp Hreach Hvp) as (h' & E & _). eauto.
  - apply PreviousBlock_total, Hreach.
  - intros pt lv Hlv. apply PreviousBlock_total.
    destruct (Voteproofs_ok h pt Hreach) as (_ & Hok & _). by apply Hok.
Qed.

(** The cap only moves forward.  When [Set] takes an ordinary voteproof as
    new, the voteproof becomes the cap, strictly after the previous cap or its
    majority replacing a draw of the same round; otherwise the cap and the last
    majority stay. *)
Theorem Set_advances_cap `{LRUCacheLaws C} (h h' : LastVoteproofsHandler C) (vp : Voteproof)
    (b : bool) (Hreach : handler_reachable h) (Hvp : vp_wf vp)
    (Hheight : i64 (sp_h (vp_point vp)))
    (Hsc : IsSuffrageConfirmBallotFact (vp_majority vp) = false)
    (Hset : Handler_Set h vp = Ok (b, h')) :
  (b = true /\ Cap (h_last h') = Some vp /\
   (Result vp = VoteResultMajority -> l_mvp (h_last h') = Some vp) /\
   forall lvp, Cap (h_last h) = Some lvp ->
     sp_lt (vp_point lvp) (vp_point vp) \/
     (sp_point (vp_point lvp) = sp_point (vp_point vp) /\
      stage_rank (sp_stage (vp_point lvp)) <= stage_rank (sp_stage (vp_point vp)) /\
      Result lvp <> VoteResultMajority /\ Result vp = VoteResultMajority)) \/
  (Cap (h_last h') = Cap (h_last h) /\ l_mvp (h_last h') = l_mvp (h_last h)).
Proof.
  apply handler_reachable_ok in Hreach as Hh.
  destruct (Handler_Set_cases h vp Hh Hvp) as [[_ E]|[[Hn E]|(lvp & Ec & _ & E)]];
    rewrite E in Hset.
  - right. by simplify_eq.
  - left. destruct (Set_new_ok h vp Hh Hvp) as (last & En & _ & El). rewrite En in Hset.
    simplify_eq/=. rewrite Cap_update_mvp. split_and!; [done| | |].
    + by apply (Set_new_is_cap h vp).
    + intros Er. unfold update_mvp. by rewrite bool_decide_eq_true_2.
    + by apply Set_new_cap.
  - right. rewrite Ec. by eapply fillMissing_cap.
Qed.

(** ** Witnesses *)

(** A cache of the eight last used keys over a map of all values. *)
#[local] Instance demo_cache : LRUCache (list string * gmap string LastVoteproofs) := {
  cache_get := fun c k =>
    if decide (k ∈ c.1) then (c.2 !! k, (k :: filter (fun x => x <> k) c.1, c.2)) else (None, c);
  cache_set := fun c k v => (take 8 (k :: filter (fun x => x <> k) c.1), <[k := v]> c.2)
}.

#[local] Instance demo_cache_laws : LRUCacheLaws (list string * gmap string LastVoteproofs).
Proof.
  split.
  - intros [ks m] k v k' v'. cbn -[take]. rewrite lookup_insert.
    destruct (decide (k' ∈ take 8 _)) as [Hin|]; [|done]. cbn -[take].
    case_decide; [naive_solver|]. intros Hm. right.
    apply subseteq_take in Hin.
    apply elem_of_cons in Hin as [->|[_ Hin]%list_elem_of_filter]; [done|].
    by rewrite decide_True.
  - intros [ks m] k k' v'. cbn. destruct (decide (k ∈ ks)) as [Hk|]; [|done]. cbn.
    destruct (decide (k' ∈ k :: _)) as [Hin|]; [|done]. cbn. intros Hm.
    apply elem_of_cons in Hin as [->|[_ Hin]%list_elem_of_filter]; by rewrite decide_True.
Qed.

Definition demo_majority : Voteproof :=
  let f := demo_init_fact 0 "f" in
  demo_vp KINIT INITBallotSignFact f (Some f) DefaultThreshold ["n0"; "n1"; "n2"] [].
Definition demo_handler : LastVoteproofsHandler (list string * gmap string LastVoteproofs) :=
  {| h_cache := ([], ∅); h_last := emptyLastVoteproofs |}.

Lemma demo_majority_wf : vp_wf demo_majority.
Proof. exists demo_crypto. vm_compute. reflexivity. Qed.

Lemma demo_handler_reachable : handler_reachable demo_handler.
Proof. by apply reach_new. Qed.

Lemma last_point_progress_witness :
  let at_stage r s m := {| lp_sp := NewStagePoint (RawPoint 33 r) s; lp_isMajority := m;
                           lp_isSuffrageConfirm := false |} in
  Sorted Z.le ((fun q => sp_h (lp_sp q)) <$>
    [at_stage 0 StageINIT true; at_stage 0 StageACCEPT false; at_stage 1 StageINIT true]).
Proof.
  intros at_stage. apply (last_point_progress (at_stage 0 StageINIT true)).
  - split; vm_compute; [discriminate|reflexivity].
  - repeat constructor; vm_compute; discriminate || reflexivity.
  - vm_compute. reflexivity.
Defined.

Lemma last_voteproofs_never_panic_witness :
  exists b h', Handler_Set demo_handler demo_majority = Ok (b, h').
Proof.
  apply (last_voteproofs_never_panic demo_handler demo_majority
    demo_handler_reachable demo_majority_wf).
Defined.

Lemma Set_advances_cap_witness :
  exists h', Handler_Set demo_handler demo_majority = Ok (true, h') /\
    (Cap (h_last h') = Some demo_majority \/ Cap (h_last h') = Cap (h_last demo_handler)).
Proof.
  eexists. split; [vm_compute; reflexivity|].
  destruct (Set_advances_cap demo_handler _ demo_majority true demo_handler_reachable
    demo_majority_wf ltac:(vm_compute; split; congruence) eq_refl
    ltac:(vm_compute; reflexivity)) as [(_ & E & _)|[E _]]; [by left|by right].
Defined.
