(* ===== verification/Voterecords.v ===== *)
(** * The vote records of one stage point ([isaac/states/ballotbox.go])

    [voterecords] collects the sign facts of one stage point until they make a
    voteproof.  The functions it reaches through closures, the clock and the
    iteration order of Go maps are the environment [Env] of a call.  Each
    operation here runs under the lock of the record. *)
From S2P Require Import Prelude Point Vote Slice Ballot Voteproof LastPoint.
From Stdlib Require Import SpecFloat.

Open Scope Z_scope.

(** ** Environment *)
Record Env := {
  e_local : Address;
  e_getSuffrage : Z -> res (option (option Suffrage));
    (* [GetSuffrageByBlockHeight]: not found, or found, which may be nil *)
  e_isValidVoteprooff : Voteproof -> Suffrage -> err;
  e_suffrageVotef : SuffrageExpelOperation -> err;
  e_threshold : Threshold;                        (* [getThreshold()] *)
  e_now : Z;                                      (* [time.Now()], in nanoseconds *)
  e_countAfter : Z;
  e_uuid : string;                                (* the id of a new voteproof *)
  e_undef : Z;                                    (* see [Vote.v] *)
  e_range : forall A, nat -> gmap string A -> list (string * A)
    (* the order in which the loop of the given number visits a map *)
}.

(** Go visits every entry of a map exactly once, in any order. *)
Definition env_ok (env : Env) : Prop :=
  forall A site (m : gmap string A), e_range env A site m ≡ₚ map_to_list m.

(** ** State *)
Record voterecords := {
  vr_ballots : gmap string BallotSignFact;
  vr_voted : gmap string BallotSignFact;
  vr_expels : gmap string (list SuffrageExpelOperation);
  vr_vps : gmap string Voteproof;
  vr_vp : option Voteproof;
  vr_countAfter : option Z;                       (* [None] is the zero time *)
  vr_sp : StagePoint;
  vr_lastthreshold : Threshold;
  vr_isc : bool;
  vr_closures : bool;                             (* the function fields are set *)
  vr_canlearn : bool                              (* and [learnExpels], which stays set *)
}.

(** [new(voterecords)]. *)
Definition zero_voterecords : voterecords :=
  {| vr_ballots := ∅; vr_voted := ∅; vr_expels := ∅; vr_vps := ∅; vr_vp := None;
     vr_countAfter := None; vr_sp := NewStagePoint (RawPoint 0 0) "";
     vr_lastthreshold := S754_zero false; vr_isc := false; vr_closures := false; vr_canlearn := false |}.

(** [newVoterecords] on the record taken from the pool: [countAfter] and
    [lastthreshold] keep the values of its previous use. *)
Definition init_voterecords (stagepoint : StagePoint) (isSuffrageConfirm : bool)
    (vr : voterecords) : voterecords :=
  {| vr_ballots := ∅; vr_voted := ∅; vr_expels := ∅; vr_vps := ∅; vr_vp := None;
     vr_countAfter := vr_countAfter vr; vr_sp := stagepoint;
     vr_lastthreshold := vr_lastthreshold vr; vr_isc := isSuffrageConfirm;
     vr_closures := true; vr_canlearn := true |}.

(** The reset of [voterecordsPoolPut]. *)
Definition reset_voterecords (vr : voterecords) : voterecords :=
  {| vr_ballots := ∅; vr_voted := ∅; vr_expels := ∅; vr_vps := ∅; vr_vp := vr_vp vr;
     vr_countAfter := vr_countAfter vr; vr_sp := ZeroStagePoint;
     vr_lastthreshold := vr_lastthreshold vr; vr_isc := vr_isc vr; vr_closures := false;
     vr_canlearn := vr_canlearn vr |}.

Definition set_ballots m vr := {| vr_ballots := m; vr_voted := vr_voted vr; vr_expels := vr_expels vr;
  vr_vps := vr_vps vr; vr_vp := vr_vp vr; vr_countAfter := vr_countAfter vr; vr_sp := vr_sp vr;
  vr_lastthreshold := vr_lastthreshold vr; vr_isc := vr_isc vr; vr_closures := vr_closures vr; vr_canlearn := vr_canlearn vr |}.
Definition set_voted m vr := {| vr_ballots := vr_ballots vr; vr_voted := m; vr_expels := vr_expels vr;
  vr_vps := vr_vps vr; vr_vp := vr_vp vr; vr_countAfter := vr_countAfter vr; vr_sp := vr_sp vr;
  vr_lastthreshold := vr_lastthreshold vr; vr_isc := vr_isc vr; vr_closures := vr_closures vr; vr_canlearn := vr_canlearn vr |}.
Definition set_expels m vr := {| vr_ballots := vr_ballots vr; vr_voted := vr_voted vr; vr_expels := m;
  vr_vps := vr_vps vr; vr_vp := vr_vp vr; vr_countAfter := vr_countAfter vr; vr_sp := vr_sp vr;
  vr_lastthreshold := vr_lastthreshold vr; vr_isc := vr_isc vr; vr_closures := vr_closures vr; vr_canlearn := vr_canlearn vr |}.
Definition set_vps m vr := {| vr_ballots := vr_ballots vr; vr_voted := vr_voted vr;
  vr_expels := vr_expels vr; vr_vps := m; vr_vp := vr_vp vr; vr_countAfter := vr_countAfter vr;
  vr_sp := vr_sp vr; vr_lastthreshold := vr_lastthreshold vr; vr_isc := vr_isc vr;
  vr_closures := vr_closures vr; vr_canlearn := vr_canlearn vr |}.
Definition set_vp v vr := {| vr_ballots := vr_ballots vr; vr_voted := vr_voted vr;
  vr_expels := vr_expels vr; vr_vps := vr_vps vr; vr_vp := v; vr_countAfter := vr_countAfter vr;
  vr_sp := vr_sp vr; vr_lastthreshold := vr_lastthreshold vr; vr_isc := vr_isc vr;
  vr_closures := vr_closures vr; vr_canlearn := vr_canlearn vr |}.
Definition set_hold t th vr := {| vr_ballots := vr_ballots vr; vr_voted := vr_voted vr;
  vr_expels := vr_expels vr; vr_vps := vr_vps vr; vr_vp := vr_vp vr; vr_countAfter := t;
  vr_sp := vr_sp vr; vr_lastthreshold := th; vr_isc := vr_isc vr; vr_closures := vr_closures vr; vr_canlearn := vr_canlearn vr |}.

(** ** Operations *)
Section Operations.
Variable env : Env.

(** Calling a nil function field panics. *)
Definition getSuffrageFunc (vr : voterecords) (height : Z) : res (option (option Suffrage)) :=
  if vr_closures vr then e_getSuffrage env height else Panic.
Definition getSuffrage (vr : voterecords) : res (option (option Suffrage)) :=
  getSuffrageFunc vr (Height_SafePrev (sp_h (vr_sp vr))).

(** [learnExpels] calls [suffrageVotef] up to the first error; the model keeps
    the calls made, and the error is ignored by the callers. *)
Fixpoint learnExpels (expels : list SuffrageExpelOperation) : list SuffrageExpelOperation :=
  match expels with
  | [] => []
  | x :: l => x :: (if is_ok (e_suffrageVotef env x) then learnExpels l else [])
  end.
Definition vr_learnExpels (vr : voterecords) (expels : list SuffrageExpelOperation)
    : res (list SuffrageExpelOperation) :=
  if vr_canlearn vr then Ok (learnExpels expels) else Panic.

Definition isValidVoteproof (vp : Voteproof) (suf : Suffrage) : err :=
  IsValidVoteproofWithSuffrage (e_undef env) vp suf ≫= fun _ => e_isValidVoteprooff env vp suf.

Definition isVoted (vr : voterecords) (node : Address) : bool :=
  bool_decide (is_Some (vr_vps vr !! node)) || bool_decide (is_Some (vr_ballots vr !! node)) ||
  bool_decide (is_Some (vr_voted vr !! node)).

Definition isFinished (vr : voterecords) : bool :=
  match vr_vp vr with Some _ => true | None => false end.

(** [voterecords.vote]: the new record, the expels learned, and
    [(voted, validated)] or the error; the record keeps what was written before
    the error. *)
Definition vr_vote (vr : voterecords) (signfact : BallotSignFact) (vp : option Voteproof)
    (expels : list SuffrageExpelOperation) (last : LastPoint)
    : res (voterecords * list SuffrageExpelOperation * res (bool * bool)) :=
  if StagePoint_IsZero (vr_sp vr) then Ok (vr, [], Ok (false, false))
  else
    let node := sf_node signfact in
    if negb (Before last (vr_sp vr) (vr_isc vr)) then Ok (vr, [], Ok (false, false))
    else if isFinished vr then Ok (vr, [], Ok (false, false))
    else if isVoted vr node then Ok (vr, [], Ok (false, false))
    else
      let vr1 := match vp with Some v => set_vps (<[node := v]> (vr_vps vr)) vr | None => vr end in
      (if (0 <? length expels)%nat then
         vr_learnExpels vr1 expels ≫= fun l =>
         Ok (set_expels (<[node := expels]> (vr_expels vr1)) vr1, l)
       else Ok (vr1, [])) ≫= fun '(vr2, learned) =>
      match getSuffrage vr2 with
      | Panic => Panic
      | Err e => Ok (vr2, learned, Err e)
      | Ok None => Ok (set_ballots (<[node := signfact]> (vr_ballots vr2)) vr2, learned, Ok (true, false))
      | Ok (Some _) => Ok (set_voted (<[node := signfact]> (vr_voted vr2)) vr2, learned, Ok (true, true))
      end.

Definition isValidBallot (vr : voterecords) (signfact : BallotSignFact) (suf : Suffrage) : err :=
  if negb (Suffrage_ExistsPublickey suf (sf_node signfact) (sf_signer signfact))
  then Err "node not in suffrage"
  else
    check_all ((fun x => IsValidExpelWithSuffrage (sp_h (Fact_Point (sf_fact signfact))) x suf)
               <$> default [] (vr_expels vr !! sf_node signfact)).

(** One round of the loop of [countFromBallots]. *)
Definition count_ballot (vr : voterecords) (suf : Suffrage) (voted : gmap string BallotSignFact)
    (e : string * BallotSignFact) : gmap string BallotSignFact :=
  if is_ok (isValidBallot vr e.2 suf) then <[sf_node e.2 := e.2]> voted else voted.
Definition countFromBallots (vr : voterecords) (suf : Suffrage) : voterecords :=
  let voted := foldl (count_ballot vr suf) (vr_voted vr) (e_range env _ 1 (vr_ballots vr)) in
  set_ballots ∅ (set_voted voted vr).

(** [sfs]: the sign facts in the order of the map, with their count. *)
Definition sfs_of (site : nat) (voted : gmap string BallotSignFact)
    : list BallotSignFact * (list string * gmap string BallotFact) :=
  let sfs := (e_range env _ site voted).*2 in
  (sfs, CountBallotSignFacts sfs).

Definition newVoteproof_of (vr : voterecords) (sfs : list BallotSignFact)
    (majority : option BallotFact) (threshold : Threshold)
    (expels : list SuffrageExpelOperation) : res Voteproof :=
  let point := sp_point (vr_sp vr) in
  let fill vp := SetThreshold threshold (SetMajority majority (SetSignFacts sfs vp)) in
  let id := e_uuid env in
  if bool_decide (sp_stage (vr_sp vr) = StageINIT) then
    if (0 <? length expels)%nat
    then Ok (baseFinish (SetExpels expels (fill (NewINITExpelVoteproof id point))))
    else Ok (baseFinish (fill (NewINITVoteproof id point)))
  else if bool_decide (sp_stage (vr_sp vr) = StageACCEPT) then
    if (0 <? length expels)%nat
    then Ok (baseFinish (SetExpels expels (fill (NewACCEPTExpelVoteproof id point))))
    else Ok (baseFinish (fill (NewACCEPTVoteproof id point)))
  else Panic.

(** *** Counting with expels *)

(** The expel facts, the sign facts of the nodes not expelled, and the expels. *)
Definition extracted : Type :=
  list SuffrageExpelFact * list BallotSignFact * list SuffrageExpelOperation.

Definition extractExpelsFromBallot (local : Address) (expels : list SuffrageExpelOperation)
    (sfs : list BallotSignFact) : option extracted :=
  if (length expels <? 1)%nat then None
  else if existsb (fun x => bool_decide (xf_node (xo_fact x) = local)) expels then None
  else
    let wfacts := xo_fact <$> expels in
    Some (wfacts,
          FilterSlice sfs (fun j => negb (existsb (fun f => bool_decide (xf_node f = sf_node j)) wfacts)),
          expels).

(** One round of the second loop of [sortBallotSignFactsByExpels]. *)
Definition add_extracted (local : Address) (sfs : list BallotSignFact)
    (expels : gmap string (list SuffrageExpelOperation)) (mw : gmap string extracted)
    (e : string * BallotSignFact) : gmap string extracted :=
  let w := default [] (expels !! e.1) in
  if (length w <? 1)%nat then mw
  else match mw !! Fact_Hash (sf_fact e.2) with
  | Some _ => mw
  | None =>
      match extractExpelsFromBallot local w sfs with
      | None => mw
      | Some m => <[Fact_Hash (sf_fact e.2) := m]> mw
      end
  end.

(** [sort.Slice] by the number of expels, the most first. *)
Fixpoint insert_extracted (x : extracted) (l : list extracted) : list extracted :=
  match l with
  | [] => [x]
  | y :: l' => if (length x.1.1 <? length y.1.1)%nat then y :: insert_extracted x l' else x :: l
  end.

Definition sortBallotSignFactsByExpels (local : Address) (signfacts : gmap string BallotSignFact)
    (expels : gmap string (list SuffrageExpelOperation)) : list extracted :=
  let sfs := (e_range env _ 2 signfacts).*2 in
  let mw := foldl (add_extracted local sfs expels) ∅ (e_range env _ 3 signfacts) in
  foldr insert_extracted [] (e_range env _ 4 mw).*2.

(** One candidate of [countWithExpels]: [None] goes on to the next one. *)
Definition count_extracted (suf : Suffrage) (threshold : Threshold) (m : extracted)
    : option (list BallotSignFact * option BallotFact * list SuffrageExpelOperation) :=
  let '(wfacts, wsfs, expels) := m in
  let '(set, facts) := CountBallotSignFacts wsfs in
  let n := Z.of_nat (length wfacts) in
  let quorum0 := wrap_u 64 (Suffrage_Len suf) in
  let over := wrap_u 64 (quorum0 - Threshold_Threshold (e_undef env) DefaultThreshold quorum0) <? n in
  let newthreshold := if over then MaxThreshold else threshold in
  let quorum := if over then wrap_u 64 (Suffrage_Len suf - n) else quorum0 in
  if Z.of_nat (length set) <? Threshold_Threshold (e_undef env) newthreshold quorum then None
  else
    let '(result, majoritykey) := Threshold_VoteResult (e_undef env) newthreshold quorum set in
    match result with
    | VoteResultDraw => Some (wsfs, None, expels)
    | VoteResultMajority => Some (wsfs, facts !! majoritykey, expels)
    | VoteResultNotYet => None
    end.

Fixpoint count_loop (suf : Suffrage) (threshold : Threshold) (sorted : list extracted)
    : option (list BallotSignFact * option BallotFact * list SuffrageExpelOperation) :=
  match sorted with
  | [] => None
  | m :: l =>
      match count_extracted suf threshold m with
      | Some r => Some r
      | None => count_loop suf threshold l
      end
  end.

(** [(found, sign facts, majority, expels)]. *)
Definition countWithExpels (vr : voterecords) (local : Address) (suf : Suffrage)
    (threshold : Threshold)
    : bool * list BallotSignFact * option BallotFact * list SuffrageExpelOperation :=
  match sortBallotSignFactsByExpels local (vr_voted vr) (vr_expels vr) with
  | [] => (false, [], None, [])
  | sorted =>
      match count_loop suf threshold sorted with
      | Some (wsfs, majority, expels) => (true, wsfs, majority, expels)
      | None => (true, [], None, [])
      end
  end.

(** *** Counting *)
Definition finish_voteproof (vr : voterecords) (sfs : list BallotSignFact)
    (majority : option BallotFact) (threshold : Threshold)
    (expels : list SuffrageExpelOperation) : res (voterecords * option Voteproof) :=
  newVoteproof_of vr sfs majority threshold expels ≫= fun vp =>
  Ok (set_vp (Some vp) vr, Some vp).

(** A draw of an INIT stage with expels in sight is held for [countAfter]. *)
Definition holds (vr : voterecords) (expelsnotyet : bool) (countAfter : Z) : bool :=
  expelsnotyet && bool_decide (sp_stage (vr_sp vr) = StageINIT) &&
  match vr_countAfter vr with
  | None => true
  | Some t => e_now env <? t + countAfter
  end.

Definition countFromVoted (vr : voterecords) (local : Address) (threshold : Threshold)
    (suf : Suffrage) (countAfter : Z) : res (voterecords * option Voteproof) :=
  if bool_decide (vr_voted vr = ∅) then Ok (vr, None)
  else
    let '(sfs, (set, m)) := sfs_of 0 (vr_voted vr) in
    let '(found, wsfs, wmajority, expels) := countWithExpels vr local suf threshold in
    match wmajority with
    | Some f => finish_voteproof vr wsfs (Some f) threshold expels
    | None =>
        let '(result, majoritykey) :=
          Threshold_VoteResult (e_undef env) threshold (Suffrage_Len suf) set in
        match result with
        | VoteResultDraw =>
            if holds vr found countAfter
            then Ok (set_hold (Some (e_now env)) threshold vr, None)
            else finish_voteproof vr sfs None threshold []
        | VoteResultMajority => finish_voteproof vr sfs (m !! majoritykey) threshold []
        | VoteResultNotYet => Ok (vr, None)
        end
    end.

(** *** Voteproofs that came with ballots *)
Definition voteproofFromBallots (vr : voterecords) (vp : Voteproof) (last : LastPoint)
    (threshold : Threshold) (filter : LastPoint -> Voteproof -> bool)
    : res (list SuffrageExpelOperation * bool) :=
  if isFinished vr then Ok ([], false)
  else if negb (filter last vp) then Ok ([], false)
  else if SFltb (vp_threshold vp) threshold then Ok ([], false)
  else
    (if HasExpels vp then vr_learnExpels vr (vp_expels vp) else Ok []) ≫= fun learned =>
    match getSuffrageFunc vr (Height_SafePrev (sp_h (vp_point vp))) with
    | Panic => Panic
    | Err _ | Ok None | Ok (Some None) => Ok (learned, false)
    | Ok (Some (Some suf)) =>
        match isValidVoteproof vp suf with
        | Panic => Panic
        | r => Ok (learned, is_ok r)
        end
    end.

Fixpoint from_ballot_loop (vr : voterecords) (last : LastPoint) (threshold : Threshold)
    (filter : LastPoint -> Voteproof -> bool) (vps : list (string * Voteproof))
    : res (list SuffrageExpelOperation * option Voteproof) :=
  match vps with
  | [] => Ok ([], None)
  | (_, vp) :: vps =>
      voteproofFromBallots vr vp last threshold filter ≫= fun '(l1, ok) =>
      if ok : bool then Ok (l1, Some vp)
      else from_ballot_loop vr last threshold filter vps ≫= fun '(l2, r) => Ok (l1 ++ l2, r)
  end.

Definition voteproofFromBallot (vr : voterecords) (last : LastPoint) (threshold : Threshold)
    (filter : LastPoint -> Voteproof -> bool)
    : res (list SuffrageExpelOperation * option Voteproof) :=
  if isFinished vr then Ok ([], None)
  else from_ballot_loop vr last threshold filter (e_range env _ 5 (vr_vps vr)).

Definition isNewVoteproofWithSuffrageConfirmFunc (isSuffrageConfirm : bool)
    (last : LastPoint) (vp : Voteproof) : bool :=
  IsNewVoteproof last vp || (isSuffrageConfirm && negb (lp_isMajority last)).

(** [voterecords.count]: the record, the expels learned and the voteproofs. *)
Definition vr_count (vr : voterecords) (local : Address) (last : LastPoint)
    (threshold : Threshold) (countAfter : Z)
    : res (voterecords * list SuffrageExpelOperation * list Voteproof) :=
  if StagePoint_IsZero (vr_sp vr) then Ok (vr, [], [])
  else if negb (Before last (vr_sp vr) (vr_isc vr)) then Ok (vr, [], [])
  else if isFinished vr then Ok (vr, [], [])
  else if bool_decide (vr_voted vr = ∅) && bool_decide (vr_ballots vr = ∅) then Ok (vr, [], [])
  else
    voteproofFromBallot vr last threshold (isNewVoteproofWithSuffrageConfirmFunc (vr_isc vr))
      ≫= fun '(learned, i) =>
    let vps := match i with Some v => [v] | None => [] end in
    match getSuffrage vr with
    | Panic => Panic
    | Err _ | Ok None | Ok (Some None) => Ok (vr, learned, vps)
    | Ok (Some (Some suf)) =>
        let vr1 := if bool_decide (vr_ballots vr = ∅) then vr else countFromBallots vr suf in
        countFromVoted vr1 local threshold suf countAfter ≫= fun '(vr2, j) =>
        match j with
        | None => Ok (vr2, learned, vps)
        | Some vp => Ok (set_hold None (vr_lastthreshold vr2) vr2, learned, vps ++ [vp])
        end
    end.

Definition vr_countHolded (vr : voterecords) (local : Address) (last : LastPoint) (duration : Z)
    : res (voterecords * list SuffrageExpelOperation * list Voteproof) :=
  match vr_countAfter vr with
  | None => Ok (vr, [], [])
  | Some t =>
      if e_now env <? t + duration then Ok (vr, [], [])
      else vr_count vr local last (vr_lastthreshold vr) duration
  end.

(** *** Stuck voteproofs *)

(** One round of the first and of the second loop of [copyVoted]. *)
Definition copy_voted (suf : Suffrage) (voted : gmap string BallotSignFact)
    (e : string * BallotSignFact) : gmap string BallotSignFact :=
  if Suffrage_Exists suf (sf_node e.2) then <[e.1 := e.2]> voted else voted.
Definition copy_ballot (vr : voterecords) (suf : Suffrage) (voted : gmap string BallotSignFact)
    (e : string * BallotSignFact) : gmap string BallotSignFact :=
  if negb (Suffrage_Exists suf (sf_node e.2)) then voted
  else if bool_decide (is_Some (vr_vps vr !! e.1)) && negb (is_ok (isValidBallot vr e.2 suf)) then voted
  else <[sf_node e.2 := e.2]> voted.

(** [copyVoted] returns a copy of the votes and clears the ballots. *)
Definition copyVoted (vr : voterecords) (suf : Suffrage)
    : voterecords * gmap string BallotSignFact :=
  let voted := foldl (copy_voted suf) ∅ (e_range env _ 6 (vr_voted vr)) in
  if bool_decide (vr_ballots vr = ∅) then (vr, voted)
  else (set_ballots ∅ vr,
        foldl (copy_ballot vr suf) voted (e_range env _ 7 (vr_ballots vr))).

Definition newStuckVoteproof (vr : voterecords) (sfs : list BallotSignFact)
    (majority : option BallotFact) (expels : list SuffrageExpelOperation) : res Voteproof :=
  let point := sp_point (vr_sp vr) in
  let fill vp := stuckFinish (SetExpels expels (SetMajority majority (SetSignFacts sfs vp))) in
  if bool_decide (sp_stage (vr_sp vr) = StageINIT) then Ok (fill (NewINITStuckVoteproof (e_uuid env) point))
  else if bool_decide (sp_stage (vr_sp vr) = StageACCEPT)
  then Ok (fill (NewACCEPTStuckVoteproof (e_uuid env) point))
  else Err "unknown voteproof stage".

(** The votes of the nodes that are not expelled. *)
Definition not_expelled (expels : list SuffrageExpelOperation)
    (voted : gmap string BallotSignFact) : gmap string BallotSignFact :=
  filter (fun e => sf_node e.2 ∉ expel_nodes expels) voted.

Definition stuck_from (vr : voterecords) (suf : Suffrage) (threshold : Threshold)
    (expels : list SuffrageExpelOperation) (voted : gmap string BallotSignFact)
    : res (option Voteproof) :=
  if bool_decide (voted = ∅) then Ok None
  else
    check_all ((fun x => IsValidExpelWithSuffrage (sp_h (vr_sp vr)) x suf) <$> expels) ≫= fun _ =>
    let filteredvoted := not_expelled expels voted in
    if bool_decide (filteredvoted = ∅) then Ok None
    else
      NewSuffrageWithExpels (e_undef env) suf threshold expels ≫= fun rsuf =>
      let '(sfs, (set, m)) := sfs_of 8 filteredvoted in
      let '(result, majoritykey) :=
        Threshold_VoteResult (e_undef env) threshold (Suffrage_Len rsuf) set in
      match result with
      | VoteResultDraw => newStuckVoteproof vr sfs None expels ≫= fun vp => Ok (Some vp)
      | VoteResultMajority =>
          newStuckVoteproof vr sfs (m !! majoritykey) expels ≫= fun vp => Ok (Some vp)
      | VoteResultNotYet => Ok None
      end.

(** [stuckVoteproof]: the ballots are cleared also when no voteproof comes out. *)
Definition vr_stuckVoteproof (vr : voterecords) (threshold : Threshold)
    (expels : list SuffrageExpelOperation) : res (voterecords * res (option Voteproof)) :=
  if StagePoint_IsZero (vr_sp vr) then Ok (vr, Ok None)
  else if isFinished vr then Ok (vr, Ok None)
  else if (length expels <? 1)%nat then Ok (vr, Err "empty expels")
  else if bool_decide (vr_voted vr = ∅) && bool_decide (vr_ballots vr = ∅) then Ok (vr, Ok None)
  else match getSuffrage vr with
  | Panic => Panic
  | Err e => Ok (vr, Err e)
  | Ok None | Ok (Some None) => Ok (vr, Ok None)
  | Ok (Some (Some suf)) =>
      let '(vr1, voted) := copyVoted vr suf in
      match stuck_from vr1 suf threshold expels voted with
      | Panic => Panic
      | r => Ok (vr1, r)
      end
  end.

(** [ballotSignFacts]. *)
Definition ballotSignFacts (vr : voterecords) (nodes : list Address) : list BallotSignFact :=
  FilterMap (e_range env _ 9 (vr_voted vr)) (fun node _ => existsb (fun i => bool_decide (node = i)) nodes).

End Operations.

(** ** Steps of a record *)

(** Any operation of a record, under any environment. *)
Inductive vr_step (vr : voterecords) : voterecords -> Prop :=
  | vs_vote env sf vp expels last vr' l r :
      env_ok env -> vr_vote env vr sf vp expels last = Ok (vr', l, r) -> vr_step vr vr'
  | vs_count env last threshold d vr' l vps :
      env_ok env -> vr_count env vr (e_local env) last threshold d = Ok (vr', l, vps) ->
      vr_step vr vr'
  | vs_countHolded env last d vr' l vps :
      env_ok env -> vr_countHolded env vr (e_local env) last d = Ok (vr', l, vps) ->
      vr_step vr vr'
  | vs_copyVoted env suf : env_ok env -> vr_step vr (copyVoted env vr suf).1
  | vs_stuck env threshold expels vr' r :
      env_ok env -> vr_stuckVoteproof env vr threshold expels = Ok (vr', r) -> vr_step vr vr'.

(** Every vote is filed under the node that signed it, and is either pending
    or counted. *)
Record vr_wf (vr : voterecords) : Prop := {
  wf_ballots : forall n sf, vr_ballots vr !! n = Some sf -> sf_node sf = n;
  wf_voted : forall n sf, vr_voted vr !! n = Some sf -> sf_node sf = n;
  wf_disjoint : vr_ballots vr ##ₘ vr_voted vr
}.

(** What no operation undoes. *)
Record vr_le (vr vr' : voterecords) : Prop := {
  le_voted : vr_voted vr ⊆ vr_voted vr';
  le_vps : vr_vps vr ⊆ vr_vps vr';
  le_sp : vr_sp vr' = vr_sp vr;
  le_isc : vr_isc vr' = vr_isc vr;
  le_vp : isFinished vr = true -> vr_vp vr' = vr_vp vr /\ vr_voted vr' = vr_voted vr;
  le_gone : forall n, is_Some (vr_vps vr !! n) -> vr_voted vr !! n = None ->
    vr_ballots vr !! n = None -> vr_voted vr' !! n = None /\ vr_ballots vr' !! n = None
}.

#[global] Instance vr_le_preorder : PreOrder vr_le.
Proof.
  split.
  - intros vr. split; try done; by intros.
  - intros a b c H1 H2. destruct H1 as [V1 P1 S1 I1 F1 G1], H2 as [V2 P2 S2 I2 F2 G2]. split.
    + by etrans.
    + by etrans.
    + congruence.
    + congruence.
    + intros Hf. destruct (F1 Hf) as [E1 E1']. unfold isFinished in *. rewrite E1 in F2.
      destruct (F2 Hf). split; congruence.
    + intros n Hn Hv Hb. destruct (G1 n Hn Hv Hb). apply G2; [|done..].
      destruct Hn as [v Hn]. exists v. by eapply lookup_weaken.
Qed.

Lemma range_elem env {A} site (m : gmap string A) e :
  env_ok env -> e ∈ e_range env A site m <-> m !! e.1 = Some e.2.
Proof. intros He. rewrite (He A site m). destruct e. apply elem_of_map_to_list. Qed.

Lemma range_NoDup env {A} site (m : gmap string A) :
  env_ok env -> NoDup (e_range env A site m).*1.
Proof. intros He. rewrite (He A site m). apply NoDup_fst_map_to_list. Qed.

(** Filing votes one by one into the counted ones. *)
Lemma count_ballots_lookup vr suf es voted n sf :
  (forall e, e ∈ es -> sf_node e.2 = e.1) ->
  foldl (count_ballot vr suf) voted es !! n = Some sf ->
  voted !! n = Some sf \/ (n, sf) ∈ es.
Proof.
  revert voted. induction es as [|[k x] es IH]; intros voted Hk Hl; [by left|].
  destruct (IH _ (fun e He => Hk e (list_elem_of_further _ _ _ He)) Hl) as [H|H]; [|right; by constructor].
  unfold count_ballot in H. simpl in H. destruct (is_ok _); [|by left].
  assert (sf_node x = k) as Ek by (by apply (Hk (k, x)), list_elem_of_here).
  rewrite lookup_insert in H. case_decide as E; [|by left]. right. simplify_eq. left.
Qed.

Lemma count_ballots_keep vr suf es voted n :
  (forall e, e ∈ es -> sf_node e.2 <> n) ->
  foldl (count_ballot vr suf) voted es !! n = voted !! n.
Proof.
  revert voted. induction es as [|[k x] es IH]; intros voted Hk; [done|]. simpl.
  rewrite IH by (intros e He; apply Hk; by constructor).
  unfold count_ballot. simpl. destruct (is_ok _); [|done].
  rewrite lookup_insert_ne; [done|]. apply (Hk (k, x)), list_elem_of_here.
Qed.

Lemma countFromBallots_wf env vr suf :
  env_ok env -> vr_wf vr ->
  vr_wf (countFromBallots env vr suf) /\
  (isFinished vr = false -> vr_le vr (countFromBallots env vr suf)).
Proof.
  intros He [Hb Hv Hd].
  assert (forall e, e ∈ e_range env _ 1 (vr_ballots vr) -> sf_node e.2 = e.1) as Hk.
  { intros e Hin%range_elem; [|done]. by apply Hb. }
  assert (forall n, vr_ballots vr !! n = None ->
    vr_voted (countFromBallots env vr suf) !! n = vr_voted vr !! n) as Hkeep.
  { intros n Hn. simpl. apply count_ballots_keep. intros e Hin E.
    rewrite (Hk e Hin) in E. subst n. apply range_elem in Hin; [|done]. congruence. }
  split.
  - split; simpl.
    + intros n sf Hl. by rewrite lookup_empty in Hl.
    + intros n sf [Hl|Hl]%count_ballots_lookup; [by apply Hv|by apply (Hk (n, sf))|done].
    + apply map_disjoint_empty_l.
  - intros Hf. split; simpl; try done.
    + apply map_subseteq_spec. intros n sf Hl. change (vr_voted (countFromBallots env vr suf) !! n = Some sf).
      rewrite Hkeep; [done|]. by eapply map_disjoint_Some_r.
    + rewrite Hf. done.
    + intros n _ Hvn Hbn. rewrite lookup_empty. split; [|done].
      change (vr_voted (countFromBallots env vr suf) !! n = None). by rewrite Hkeep.
Qed.

Lemma isVoted_false vr n :
  isVoted vr n = false <->
  vr_vps vr !! n = None /\ vr_ballots vr !! n = None /\ vr_voted vr !! n = None.
Proof.
  unfold isVoted. rewrite !orb_false_iff, !bool_decide_eq_false, <- !eq_None_not_Some. tauto.
Qed.

(** A vote leaves the record alone, or files the sign fact of a node that had
    not voted in an unfinished record. *)
Lemma vr_vote_cases env vr sf vp expels last vr' l r :
  vr_vote env vr sf vp expels last = Ok (vr', l, r) ->
  vr' = vr /\ (r = Ok (false, false)) \/
  (isVoted vr (sf_node sf) = false /\ isFinished vr = false /\
   Before last (vr_sp vr) (vr_isc vr) = true /\
   vr_sp vr' = vr_sp vr /\ vr_isc vr' = vr_isc vr /\ vr_vp vr' = vr_vp vr /\
   vr_vps vr' = (match vp with Some v => <[sf_node sf := v]> (vr_vps vr) | None => vr_vps vr end) /\
   (vr_ballots vr', vr_voted vr', r) ∈
     [(vr_ballots vr, <[sf_node sf := sf]> (vr_voted vr), Ok (true, true));
      (<[sf_node sf := sf]> (vr_ballots vr), vr_voted vr, Ok (true, false))]
   \/ isVoted vr (sf_node sf) = false /\ isFinished vr = false /\
      vr_sp vr' = vr_sp vr /\ vr_isc vr' = vr_isc vr /\ vr_vp vr' = vr_vp vr /\
      vr_vps vr' = (match vp with Some v => <[sf_node sf := v]> (vr_vps vr) | None => vr_vps vr end) /\
      vr_ballots vr' = vr_ballots vr /\ vr_voted vr' = vr_voted vr /\ is_ok r = false).
Proof.
  unfold vr_vote. destruct (StagePoint_IsZero _); [left; naive_solver|].
  destruct (Before _ _ _) eqn:Eb; [|left; naive_solver]. cbn [negb].
  destruct (isFinished vr) eqn:Ef; [left; naive_solver|].
  destruct (isVoted vr _) eqn:Ev; [left; naive_solver|]. intros Hr. right.
  apply bind_ok in Hr as ([vr2 l2] & E2 & Hr).
  assert (vr_sp vr2 = vr_sp vr /\ vr_isc vr2 = vr_isc vr /\ vr_vp vr2 = vr_vp vr /\
    vr_vps vr2 = (match vp with Some v => <[sf_node sf := v]> (vr_vps vr) | None => vr_vps vr end) /\
    vr_ballots vr2 = vr_ballots vr /\ vr_voted vr2 = vr_voted vr)
    as (Es & Ei & Evp & Evps & Eba & Evo).
  { destruct (0 <? length expels)%nat.
    - apply bind_ok in E2 as (lx & _ & [= <- _]). by destruct vp.
    - simplify_eq. by destruct vp. }
  destruct (getSuffrage env vr2) as [[[suf|]|]|e|]; [..|done]; simplify_eq/=.
  - left. rewrite Es, Ei, Evp, Evps, Eba, Evo. split_and!; try done. left.
  - left. rewrite Es, Ei, Evp, Evps, Eba, Evo. split_and!; try done. left.
  - left. rewrite Es, Ei, Evp, Evps, Eba, Evo. split_and!; try done. right. left.
  - right. by rewrite Es, Ei, Evp, Evps, Eba, Evo.
Qed.

Lemma vps_insert_subseteq (m : gmap string Voteproof) n vp :
  m !! n = None -> m ⊆ match vp with Some v => <[n := v]> m | None => m end.
Proof. intros Hn. destruct vp; [by apply insert_subseteq|done]. Qed.

Lemma vr_vote_le env vr sf vp expels last vr' l r :
  vr_wf vr -> vr_vote env vr sf vp expels last = Ok (vr', l, r) -> vr_wf vr' /\ vr_le vr vr'.
Proof.
  intros Hwf H. apply vr_vote_cases in H as [[-> _]|H]; [by split|].
  destruct Hwf as [Hb Hv Hd].
  destruct H as [(Hnv & Hf & _ & Es & Ei & Evp & Evps & Hin)|
                 (Hnv & Hf & Es & Ei & Evp & Evps & Eb & Ev & _)];
    apply isVoted_false in Hnv as (N1 & N2 & N3).
  - rewrite !elem_of_cons in Hin. destruct Hin as [Hin|[Hin|[]%not_elem_of_nil]]; injection Hin as Eb Ev _.
    + split; split; rewrite ?Eb, ?Ev; try done.
      * intros n x. rewrite lookup_insert. case_decide; [naive_solver|apply Hv].
      * by apply map_disjoint_insert_r.
      * by apply insert_subseteq.
      * rewrite Evps. by apply vps_insert_subseteq.
      * by rewrite Hf.
      * intros n [v Hn] E1 E2. rewrite lookup_insert_ne by congruence. done.
    + split; split; rewrite ?Eb, ?Ev; try done.
      * intros n x. rewrite lookup_insert. case_decide; [naive_solver|apply Hb].
      * by apply map_disjoint_insert_l.
      * rewrite Evps. by apply vps_insert_subseteq.
      * intros n [v Hn] E1 E2. rewrite lookup_insert_ne by congruence. done.
  - split; split; rewrite ?Eb, ?Ev; try done.
    + rewrite Evps. by apply vps_insert_subseteq.
Qed.

Lemma set_hold_le t th vr : vr_wf vr -> vr_wf (set_hold t th vr) /\ vr_le vr (set_hold t th vr).
Proof. intros [? ? ?]. by split. Qed.

Lemma set_vp_le v vr :
  vr_wf vr -> isFinished vr = false -> vr_wf (set_vp v vr) /\ vr_le vr (set_vp v vr).
Proof. intros [? ? ?] Hf. split; [done|]. split; try done. by rewrite Hf. Qed.

Lemma countFromVoted_cases env vr local threshold suf d vr' j :
  countFromVoted env vr local threshold suf d = Ok (vr', j) ->
  (j = None /\ (vr' = vr \/ exists t th, vr' = set_hold t th vr)) \/
  (exists vp sfs m expels, j = Some vp /\ vr' = set_vp (Some vp) vr /\
     newVoteproof_of env vr sfs m threshold expels = Ok vp).
Proof.
  unfold countFromVoted. case_bool_decide; [left; naive_solver|].
  destruct (sfs_of _ _ _) as [sfs [set m]].
  destruct (countWithExpels _ _ _ _ _) as [[[found wsfs] [f|]] expels].
  { unfold finish_voteproof. rewrite bind_ok. intros (vp & Hvp & [= <- <-]). right. eauto 10. }
  destruct (Threshold_VoteResult _ _ _ _) as [[| |] key].
  1: intros [= <- <-]; left; auto.
  1: destruct (holds _ _ _ _); [intros [= <- <-]; left; eauto|].
  all: unfold finish_voteproof; rewrite bind_ok; intros (vp & Hvp & [= <- <-]); right; eauto 10.
Qed.

Lemma vr_count_le env vr local last threshold d vr' l vps :
  env_ok env -> vr_wf vr -> vr_count env vr local last threshold d = Ok (vr', l, vps) ->
  vr_wf vr' /\ vr_le vr vr'.
Proof.
  intros He Hwf. unfold vr_count.
  destruct (StagePoint_IsZero _); [by intros [= <- _ _]|].
  destruct (negb _); [by intros [= <- _ _]|].
  destruct (isFinished vr) eqn:Ef; [by intros [= <- _ _]|].
  destruct (_ && _); [by intros [= <- _ _]|].
  rewrite bind_ok. intros ([l1 i] & _ & Hr).
  destruct (getSuffrage env vr) as [[[suf|]|]|e|]; [|by simplify_eq..|done].
  set (vr1 := if bool_decide (vr_ballots vr = ∅) then vr else _) in Hr.
  assert (vr_wf vr1 /\ vr_le vr vr1 /\ isFinished vr1 = false) as (Hwf1 & Hle1 & Hf1).
  { unfold vr1. case_bool_decide; [done|].
    destruct (countFromBallots_wf env vr suf He Hwf) as [? Hle]. split_and!; [done|by apply Hle|done]. }
  clearbody vr1. rewrite bind_ok in Hr. destruct Hr as ([vr2 j] & Hc & Hr).
  apply countFromVoted_cases in Hc as [[-> [->|(t & th & ->)]]|(vp & _ & _ & _ & -> & -> & _)];
    simplify_eq.
  - done.
  - destruct (set_hold_le t th vr1 Hwf1). split; [done|by etrans].
  - destruct (set_vp_le (Some vp) vr1 Hwf1 Hf1) as [Hw2 Hl2].
    destruct (set_hold_le None (vr_lastthreshold (set_vp (Some vp) vr1)) _ Hw2) as [Hw3 Hl3].
    split; [done|]. etrans; [exact Hle1|]. by etrans.
Qed.

Lemma copyVoted_le env vr suf :
  vr_wf vr -> vr_wf (copyVoted env vr suf).1 /\ vr_le vr (copyVoted env vr suf).1.
Proof.
  intros [Hb Hv Hd]. unfold copyVoted. case_bool_decide; [by split|].
  split; split; try done; simpl; try apply map_disjoint_empty_l;
    intros n sf Hl; by rewrite lookup_empty in Hl.
Qed.

Lemma vr_stuck_le env vr threshold expels vr' r :
  vr_wf vr -> vr_stuckVoteproof env vr threshold expels = Ok (vr', r) -> vr_wf vr' /\ vr_le vr vr'.
Proof.
  intros Hwf. unfold vr_stuckVoteproof.
  destruct (StagePoint_IsZero _); [by intros [= <- _]|].
  destruct (isFinished vr); [by intros [= <- _]|].
  destruct (_ <? 1)%nat; [by intros [= <- _]|].
  destruct (_ && _); [by intros [= <- _]|].
  destruct (getSuffrage env vr) as [[[suf|]|]|e|]; [|by intros [= <- _]..|done].
  pose proof (copyVoted_le env vr suf Hwf) as Hc.
  destruct (copyVoted env vr suf) as [vr1 voted]. simpl in Hc.
  destruct (stuck_from _ _ _ _ _ _); intros [= <- _] || done; exact Hc.
Qed.

Lemma vr_step_le vr vr' : vr_wf vr -> vr_step vr vr' -> vr_wf vr' /\ vr_le vr vr'.
Proof.
  intros Hwf [env sf vp expels last vr1 l r He H|env last th d vr1 l vps He H
    |env last d vr1 l vps He H|env suf He|env th expels vr1 r He H].
  - by eapply vr_vote_le.
  - by eapply vr_count_le.
  - unfold vr_countHolded in H. destruct (vr_countAfter vr); [|by simplify_eq].
    destruct (_ <? _); [by simplify_eq|]. by eapply vr_count_le.
  - by apply copyVoted_le.
  - by eapply vr_stuck_le.
Qed.

Lemma vr_steps_le vr vr' : vr_wf vr -> rtc vr_step vr vr' -> vr_wf vr' /\ vr_le vr vr'.
Proof.
  intros Hwf Hs. induction Hs as [vr|a b c Hab _ IH]; [done|].
  apply vr_step_le in Hab as [Hb Hle]; [|done]. destruct (IH Hb) as [Hc Hle'].
  split; [done|]. by etrans.
Qed.

Lemma init_voterecords_wf sp isc vr : vr_wf (init_voterecords sp isc vr).
Proof. split; simpl; try (intros ??; by rewrite lookup_empty). apply map_disjoint_empty_l. Qed.

#[export] Hint Resolve init_voterecords_wf : mitum.

(** ** What counting produces *)

(** The kind and the plain fields of a new voteproof. *)
Lemma newVoteproof_of_inv env vr sfs m th expels vp :
  newVoteproof_of env vr sfs m th expels = Ok vp ->
  vp_id vp = e_uuid env /\ vp_finished vp = true /\ vp_sfs vp = sfs /\ vp_threshold vp = th /\
  vp_majority vp = (match m with Some f => if is_empty_fact f then None else Some f | None => None end) /\
  vp_point vp = vr_sp vr /\ vp_expels vp = sortExpels expels /\
  IsStuckVoteproof vp = false /\ HasExpels vp = (0 <? length expels)%nat /\
  (is_init_type vp = bool_decide (sp_stage (vr_sp vr) = StageINIT)) /\
  Stage_CanVote (sp_stage (vr_sp vr)) = true.
Proof.
  unfold newVoteproof_of, Stage_CanVote.
  assert (forall s, sp_stage (vr_sp vr) = s -> vr_sp vr = NewStagePoint (sp_point (vr_sp vr)) s) as Hsp
    by (intros s <-; by destruct (vr_sp vr)).
  assert ((0 <? length expels)%nat = false -> expels = []) as Hnil
    by (intros Hl%Nat.ltb_ge; destruct expels; simpl in *; done || lia).
  destruct (decide (sp_stage (vr_sp vr) = StageINIT)) as [E1|E1];
    [rewrite !bool_decide_eq_true_2 by done|rewrite !(bool_decide_eq_false_2 _ E1)];
    [|case_bool_decide as E2; [|done]];
    destruct (0 <? length expels)%nat; intros [= <-]; simpl; split_and!; try done;
    try (symmetry; by apply Hsp); try (by destruct m as [f|]; [destruct (is_empty_fact f)|]);
    by rewrite Hnil.
Qed.

Lemma extractExpels_inv local w sfs m :
  extractExpelsFromBallot local w sfs = Some m ->
  w <> [] /\ local ∉ expel_nodes w /\ m.1.1 = xo_fact <$> w /\ m.2 = w /\
  m.1.2 = filter (fun j => sf_node j ∉ expel_nodes w) sfs.
Proof.
  unfold extractExpelsFromBallot. destruct (Nat.ltb_spec (length w) 1) as [|Hl]; [done|].
  destruct (existsb _ w) eqn:E; [done|]. intros [= <-]. split_and!; try done.
  - intros ->. simpl in Hl. lia.
  - intros (x & -> & Hx)%list_elem_of_fmap. rewrite <- not_true_iff_false, existsb_exists in E.
    apply E. exists x. split; [by apply list_elem_of_In|by apply bool_decide_eq_true].
  - simpl. rewrite FilterSlice_filter. apply list_filter_iff. intros j.
    rewrite negb_true_iff, <- not_true_iff_false, existsb_exists.
    unfold expel_nodes. split; intros Hn Hin; apply Hn.
    + apply list_elem_of_fmap in Hin as (x & Ex & Hx). exists (xo_fact x).
      split; [|by apply bool_decide_eq_true]. apply list_elem_of_In, list_elem_of_fmap. eauto.
    + destruct Hin as (f & Hf & Hb%bool_decide_eq_true).
      apply list_elem_of_In, list_elem_of_fmap in Hf as (x & -> & Hx).
      apply list_elem_of_fmap. eauto.
Qed.

Lemma insert_extracted_elem x l m : m ∈ insert_extracted x l <-> m = x \/ m ∈ l.
Proof.
  induction l as [|y l IH]; simpl; [rewrite elem_of_cons; done|].
  destruct (_ <? _)%nat; rewrite ?elem_of_cons, ?IH; tauto.
Qed.

Lemma sort_extracted_elem l m : m ∈ foldr insert_extracted [] l <-> m ∈ l.
Proof.
  induction l as [|x l IH]; simpl; [done|]. by rewrite insert_extracted_elem, IH, elem_of_cons.
Qed.

Lemma add_extracted_inv local sfs expels es mw k m :
  foldl (add_extracted local sfs expels) mw es !! k = Some m ->
  mw !! k = Some m \/
  exists e w, e ∈ es /\ expels !! e.1 = Some w /\ extractExpelsFromBallot local w sfs = Some m.
Proof.
  revert mw. induction es as [|e es IH]; intros mw; simpl; [by left|].
  intros [H|(e' & w & Hin & H)]%IH; [|right; exists e', w; by rewrite elem_of_cons; auto].
  unfold add_extracted in H. destruct (expels !! e.1) as [w|] eqn:Ew; simpl in H; [|by left].
  destruct (_ <? 1)%nat; [by left|]. destruct (mw !! _); [by left|].
  destruct (extractExpelsFromBallot local w sfs) as [m'|] eqn:Ex; [|by left].
  rewrite lookup_insert in H. case_decide; [|by left]. simplify_eq.
  right. exists e, w. split_and!; [left|done|done].
Qed.

(** Every candidate comes from the expels of one voter. *)
Lemma sortBallotSignFacts_inv env local signfacts expels m :
  env_ok env -> m ∈ sortBallotSignFactsByExpels env local signfacts expels ->
  exists n sf w, signfacts !! n = Some sf /\ expels !! n = Some w /\
    extractExpelsFromBallot local w (e_range env _ 2 signfacts).*2 = Some m.
Proof.
  intros He. unfold sortBallotSignFactsByExpels. rewrite sort_extracted_elem.
  intros ([k m'] & -> & Hin)%list_elem_of_fmap. apply range_elem in Hin; [|done]. simpl in Hin.
  apply add_extracted_inv in Hin as [Hin|([n sf] & w & Hin & Hw & Hx)]; [by rewrite lookup_empty in Hin|].
  apply range_elem in Hin; [|done]. eauto 10.
Qed.

Lemma count_loop_inv env suf th l r :
  count_loop env suf th l = Some r -> exists m, m ∈ l /\ count_extracted env suf th m = Some r.
Proof.
  induction l as [|m l IH]; [done|]. simpl. destruct (count_extracted env suf th m) eqn:E.
  - intros [= <-]. exists m. split; [left|done].
  - intros (m' & ? & ?)%IH. exists m'. split; [by right|done].
Qed.

(** Counting makes a voteproof with expels from one candidate, or a plain one
    from all the votes. *)
Lemma countFromVoted_inv env vr local th suf d vr' vp :
  env_ok env -> countFromVoted env vr local th suf d = Ok (vr', Some vp) ->
  vr' = set_vp (Some vp) vr /\
  ((exists n sf w m f, vr_voted vr !! n = Some sf /\ vr_expels vr !! n = Some w /\
      extractExpelsFromBallot local w (e_range env _ 2 (vr_voted vr)).*2 = Some m /\
      count_extracted env suf th m = Some (m.1.2, Some f, w) /\
      newVoteproof_of env vr m.1.2 (Some f) th w = Ok vp) \/
   (exists r key, let sfs := (e_range env _ 0 (vr_voted vr)).*2 in
      Threshold_VoteResult (e_undef env) th (Suffrage_Len suf) (CountBallotSignFacts sfs).1 = (r, key) /\
      r <> VoteResultNotYet /\
      newVoteproof_of env vr sfs (if decide (r = VoteResultMajority)
        then (CountBallotSignFacts sfs).2 !! key else None) th [] = Ok vp)).
Proof.
  intros He. unfold countFromVoted. case_bool_decide; [done|].
  unfold sfs_of. set (sfs := (e_range env _ 0 (vr_voted vr)).*2).
  destruct (CountBallotSignFacts sfs) as [set facts] eqn:Ec.
  destruct (countWithExpels _ _ _ _ _) as [[[found wsfs] wm] expels] eqn:Ew.
  assert (forall f, wm = Some f -> exists n sf m, vr_voted vr !! n = Some sf /\
    vr_expels vr !! n = Some expels /\
    extractExpelsFromBallot local expels (e_range env _ 2 (vr_voted vr)).*2 = Some m /\
    wsfs = m.1.2 /\ count_extracted env suf th m = Some (m.1.2, Some f, expels)) as Hw.
  { intros f ->. unfold countWithExpels in Ew.
    destruct (sortBallotSignFactsByExpels _ _ _ _) as [|m0 ms] eqn:Es; [done|].
    destruct (count_loop _ _ _ _) as [[[wsfs' m'] expels']|] eqn:El; [|done]. simplify_eq.
    apply count_loop_inv in El as (m & Hm & Hc). rewrite <- Es in Hm.
    apply sortBallotSignFacts_inv in Hm as (n & sf & w & Hn & Hx & Hex); [|done].
    apply extractExpels_inv in Hex as Hinv. destruct Hinv as (_ & _ & _ & Em & _).
    assert (wsfs = m.1.2 /\ expels = m.2) as [-> ->].
    { destruct m as [[wf ws] ex]. unfold count_extracted in Hc. simpl in *.
      repeat case_match; naive_solver. }
    rewrite Em. exists n, sf, m. rewrite Em in Hc. auto 10. }
  destruct wm as [f|].
  { destruct (Hw f eq_refl) as (n & sf & m & Hn & Hx & Hex & -> & Hc).
    unfold finish_voteproof. rewrite bind_ok. intros (vp' & Hvp & [= <- <-]). split; [done|].
    left. exists n, sf, expels, m, f. done. }
  clear Hw. cbn beta iota.
  destruct (Threshold_VoteResult _ _ _ _) as [r key] eqn:Er. unfold finish_voteproof.
  simpl. destruct r; [done| |].
  - destruct (holds _ _ _ _); [done|]. rewrite bind_ok. intros (vp' & Hvp & [= <- <-]).
    split; [done|]. right. exists VoteResultDraw, key. done.
  - rewrite bind_ok. intros (vp' & Hvp & [= <- <-]).
    split; [done|]. right. exists VoteResultMajority, key. done.
Qed.

(** ** Properties *)

(** C22: votes are final.  Along any run of operations on a record taken into
    use, whatever the suffrages, clocks and map orders: votes are filed under
    their signers, a counted vote is never changed or dropped, a node that has
    voted cannot vote again, and once there is a voteproof neither it nor the
    votes change. *)
Theorem votes_are_final (sp : StagePoint) (isc : bool) (old vr vr' : voterecords)
    (Hrun : rtc vr_step (init_voterecords sp isc old) vr) (Hrun' : rtc vr_step vr vr') :
  vr_sp vr' = sp /\ vr_isc vr' = isc /\
  (forall n sf, vr_voted vr !! n = Some sf ->
     sf_node sf = n /\ vr_voted vr' !! n = Some sf) /\
  (forall env sf vp expels last, isVoted vr (sf_node sf) = true ->
     vr_vote env vr sf vp expels last = Ok (vr, [], Ok (false, false))) /\
  (isFinished vr = true -> vr_vp vr' = vr_vp vr /\ vr_voted vr' = vr_voted vr).
Proof.
  apply vr_steps_le in Hrun as [Hwf Hle]; [|auto with mitum].
  apply vr_steps_le in Hrun' as [_ Hle']; [|done]. split_and!.
  - by rewrite (le_sp _ _ Hle'), (le_sp _ _ Hle).
  - by rewrite (le_isc _ _ Hle'), (le_isc _ _ Hle).
  - intros n sf Hn. split; [by apply (wf_voted _ Hwf)|].
    eapply lookup_weaken; [exact Hn|apply (le_voted _ _ Hle')].
  - intros env sf vp expels last Hv. unfold vr_vote. by rewrite Hv; repeat case_match.
  - apply (le_vp _ _ Hle').
Qed.

(** Asking for the missing nodes loses ballots.  [copyVoted], which
    [MissingNodes] and [StuckVoteproof] call to look at the votes, clears the
    pending ballots without counting them: a pending ballot that came with a
    voteproof is gone for good, since its node counts as having voted. *)
Theorem copyVoted_loses_ballots (sp : StagePoint) (isc : bool) (old vr vr' : voterecords)
    (env : Env) (suf : Suffrage) (n : Address) (sf : BallotSignFact) (vp : Voteproof)
    (Hrun : rtc vr_step (init_voterecords sp isc old) vr)
    (Hpending : vr_ballots vr !! n = Some sf) (Hvp : vr_vps vr !! n = Some vp)
    (Hrun' : rtc vr_step (copyVoted env vr suf).1 vr') :
  vr_ballots vr' !! n = None /\ vr_voted vr' !! n = None.
Proof.
  apply vr_steps_le in Hrun as [Hwf _]; [|auto with mitum].
  destruct (copyVoted_le env vr suf Hwf) as [Hwf1 _].
  apply vr_steps_le in Hrun' as [_ Hle]; [|done].
  assert (vr_voted vr !! n = None) as Hv by (eapply map_disjoint_Some_l; [apply Hwf|done]).
  apply and_comm, (le_gone _ _ Hle); unfold copyVoted;
    rewrite bool_decide_eq_false_2 by (intros E; by rewrite E, lookup_empty in Hpending); simpl.
  - by exists vp.
  - done.
  - apply lookup_empty.
Qed.

Section Produced.
Context `{Crypto}.

(** The votes of members, signed with their keys, valid and of this stage point. *)
Definition votes_ok (vr : voterecords) (suf : Suffrage) : Prop :=
  vr_wf vr /\
  forall n sf, vr_voted vr !! n = Some sf ->
    Suffrage_ExistsPublickey suf n (sf_signer sf) = true /\
    BallotSignFact_IsValid sf = Ok tt /\ Fact_Point (sf_fact sf) = vr_sp vr.

Lemma voted_values env site vr sf :
  env_ok env -> vr_wf vr ->
  sf ∈ (e_range env _ site (vr_voted vr)).*2 <-> vr_voted vr !! sf_node sf = Some sf.
Proof.
  intros He Hwf. rewrite list_elem_of_fmap. split.
  - intros ([n x] & -> & Hin%range_elem); [|done]. simpl in *.
    by rewrite (wf_voted _ Hwf n x Hin).
  - intros Hl. exists (sf_node sf, sf). split; [done|]. by apply range_elem.
Qed.

Lemma voted_values_NoDup env site vr :
  env_ok env -> vr_wf vr -> NoDup (sf_node <$> (e_range env _ site (vr_voted vr)).*2).
Proof.
  intros He Hwf. rewrite <- list_fmap_compose.
  replace ((sf_node ∘ snd) <$> e_range env _ site (vr_voted vr))
    with (e_range env _ site (vr_voted vr)).*1; [by apply range_NoDup|].
  apply list_fmap_ext. intros i [n x] Hin%list_elem_of_lookup_2. apply range_elem in Hin; [|done].
  simpl in *. symmetry. by apply (wf_voted _ Hwf).
Qed.

(** The majority of a count is one of the facts counted. *)
Lemma majority_fact_found undef th q sfs key :
  u64 q -> Threshold_VoteResult undef th q (CountBallotSignFacts sfs).1 = (VoteResultMajority, key) ->
  exists f sf, (CountBallotSignFacts sfs).2 !! key = Some f /\ Fact_Hash f = key /\
    sf ∈ sfs /\ sf_fact sf = f.
Proof. intros Hq Hr. by apply CountBallotSignFacts_lookup, (majority_elem q _ _ _ Hq Hr). Qed.

(** Member checks of [base.IsValidVoteproofWithSuffrage]. *)
Lemma members_forallb suf sfs :
  (forall sf, sf ∈ sfs -> Suffrage_ExistsPublickey suf (sf_node sf) (sf_signer sf) = true) ->
  forallb (fun sf => Suffrage_Exists suf (sf_node sf) &&
    Suffrage_ExistsPublickey suf (sf_node sf) (sf_signer sf)) sfs = true.
Proof.
  intros Hm. apply forallb_forall. intros sf Hsf%list_elem_of_In. specialize (Hm sf Hsf).
  rewrite Hm, andb_true_r. by eapply ExistsPublickey_Exists.
Qed.

(** The plain voteproof of a count passes the checks against the suffrage. *)
Lemma plain_valid_with_suffrage undef vp suf r key :
  u64 (Suffrage_Len suf) -> HasExpels vp = false ->
  (forall sf, sf ∈ vp_sfs vp -> Suffrage_ExistsPublickey suf (sf_node sf) (sf_signer sf) = true) ->
  Threshold_VoteResult undef (vp_threshold vp) (Suffrage_Len suf) (CountBallotSignFacts (vp_sfs vp)).1
    = (r, key) ->
  Result vp = r ->
  vp_majority vp = (if decide (r = VoteResultMajority)
    then (CountBallotSignFacts (vp_sfs vp)).2 !! key else None) ->
  IsValidVoteproofWithSuffrage undef vp suf = Ok tt.
Proof.
  intros Hu He Hm Hr Hres Hmaj. unfold IsValidVoteproofWithSuffrage. rewrite He. cbn.
  rewrite (no_expels_not_stuck vp He). cbn.
  unfold base_IsValidVoteproofWithSuffrage.
  rewrite members_forallb by done. cbn. rewrite (no_expels_not_stuck vp He).
  destruct (CountBallotSignFacts (vp_sfs vp)) as [set m] eqn:Ec. simpl in *.
  rewrite Hr, Hres. rewrite bool_decide_eq_true_2 by done. cbn.
  destruct r; [done| |].
  - rewrite Hmaj. done.
  - pose proof (majority_fact_found undef (vp_threshold vp) (Suffrage_Len suf) (vp_sfs vp) key Hu) as Hf.
    rewrite Ec in Hf. destruct (Hf Hr) as (f & sf & Hl & _). simpl in *. rewrite Hmaj, Hl.
    by rewrite bool_decide_eq_true_2.
Qed.

(** ... and the checks of the voteproof itself. *)
Lemma plain_valid vp r key undef suf :
  u64 (Suffrage_Len suf) -> HasExpels vp = false ->
  vp_id vp <> "" -> vp_finished vp = true -> vp_sfs vp <> [] ->
  StagePoint_IsValid (vp_point vp) = Ok tt -> Threshold_IsValid (vp_threshold vp) = Ok tt ->
  NoDup (sf_node <$> vp_sfs vp) ->
  is_init_type vp = bool_decide (sp_stage (vp_point vp) = StageINIT) ->
  (forall sf, sf ∈ vp_sfs vp ->
     BallotSignFact_IsValid sf = Ok tt /\ Fact_Point (sf_fact sf) = vp_point vp) ->
  Threshold_VoteResult undef (vp_threshold vp) (Suffrage_Len suf) (CountBallotSignFacts (vp_sfs vp)).1
    = (r, key) ->
  vp_majority vp = (if decide (r = VoteResultMajority)
    then (CountBallotSignFacts (vp_sfs vp)).2 !! key else None) ->
  Voteproof_IsValid vp = Ok tt.
Proof.
  intros Hu He Hid Hfin Hne Hp Ht Hnd Hty Hall Hr Hmaj.
  assert (Stage_CanVote (sp_stage (vp_point vp)) = true) as Hcv.
  { unfold StagePoint_IsValid in Hp. rewrite bind_err_ok, Stage_IsValid_ok in Hp. tauto. }
  assert (forall f, vp_majority vp = Some f ->
    exists sf, sf ∈ vp_sfs vp /\ sf_fact sf = f) as Hf.
  { intros f Ef. rewrite Hmaj in Ef. case_decide; [|done]. subst r.
    destruct (majority_fact_found _ _ _ _ _ Hu Hr) as (f' & sf & Hl & _ & ? & ?).
    exists sf. split; [done|]. congruence. }
  assert (IsValidVoteproof vp = Ok tt) as Hbase.
  { unfold IsValidVoteproof.
    destruct (Nat.ltb_spec (String.length (vp_id vp)) 1);
      [by destruct (vp_id vp); [|simpl in *; lia]|].
    rewrite Hcv. cbn [negb]. unfold Result. rewrite Hfin. cbn [negb].
    rewrite bool_decide_eq_false_2 by (by destruct (vp_majority vp)).
    destruct (Nat.ltb_spec (length (vp_sfs vp)) 1); [destruct (vp_sfs vp); simpl in *; done || lia|].
    rewrite !bind_err_ok. split_and!.
    - unfold isValidVoteproofDuplicatedSignNode. by rewrite guard_err_ok, IsDuplicatedSlice_false.
    - by rewrite check_all_ok, !Forall_cons.
    - unfold isValidVoteproofVoteResult, Result. rewrite Hfin. cbn [negb].
      destruct (vp_majority vp) as [f|]; [|done].
      destruct (Hf f eq_refl) as (sf & Hin & <-). destruct (Hall sf Hin) as [Hv Hpt].
      rewrite bind_err_ok, isValidFactInVoteproof_ok. split; [|done].
      unfold BallotSignFact_IsValid, IsValidBallotSignFact, IsValidSignFact in Hv.
      rewrite !bind_err_ok, check_all_ok, Forall_cons in Hv. naive_solver.
    - unfold isValidVoteproofSignFacts. rewrite bind_err_ok, check_all_ok, Forall_fmap. split.
      + apply Forall_forall. intros sf Hin. destruct (Hall sf Hin) as [Hv Hpt]. simpl.
        by rewrite bind_err_ok, isValidFactInVoteproof_ok.
      + destruct (vp_majority vp) as [f|]; [|done].
        destruct (Hf f eq_refl) as (sf & Hin & <-).
        rewrite guard_err_ok, negb_false_iff. apply existsb_exists. exists sf.
        split; [by apply list_elem_of_In|by apply bool_decide_eq_true]. }
  unfold Voteproof_IsValid, INITVoteproof_isValid, ACCEPTVoteproof_isValid.
  unfold HasExpels in He. unfold is_init_type in Hty.
  destruct (vp_type vp); try done; rewrite Hbase; cbn; rewrite guard_err_ok, negb_false_iff.
  - done.
  - symmetry in Hty. apply bool_decide_eq_false in Hty. apply bool_decide_eq_true.
    unfold Stage_CanVote in Hcv. rewrite orb_true_iff, !bool_decide_eq_true in Hcv. tauto.
Qed.

End Produced.

(** C29: what counting produces of sound votes, everybody accepts. When the votes are
    valid, of members of the suffrage with their keys, and none is for an empty fact,
    and they make a voteproof without expels, it passes [IsValid] and
    [IsValidVoteproofWithSuffrage] of every other node with the same suffrage, is of the
    stage point of the record, and carries exactly the votes counted. The box checks
    neither the keys nor the empty facts ([vote_ignores_publickey],
    [forged_empty_fact_spoils_majority]). *)
Theorem produced_voteproof_valid `{Crypto} (env : Env) (vr vr' : voterecords) (local : Address)
    (threshold : Threshold) (suf : Suffrage) (d : Z) (vp : Voteproof)
    (Henv : env_ok env) (Hlen : u64 (Suffrage_Len suf)) (Hvotes : votes_ok vr suf)
    (Hempty : forall n sf, vr_voted vr !! n = Some sf -> is_empty_fact (sf_fact sf) = false)
    (Hpoint : StagePoint_IsValid (vr_sp vr) = Ok tt)
    (Hth : Threshold_IsValid threshold = Ok tt) (Hid : e_uuid env <> "")
    (Hcount : countFromVoted env vr local threshold suf d = Ok (vr', Some vp))
    (Hplain : HasExpels vp = false) :
  Voteproof_IsValid vp = Ok tt /\
  IsValidVoteproofWithSuffrage (e_undef env) vp suf = Ok tt /\
  vr_vp vr' = Some vp /\ vp_point vp = vr_sp vr /\
  (forall sf, sf ∈ vp_sfs vp <-> vr_voted vr !! sf_node sf = Some sf).
Proof.
  destruct Hvotes as [Hwf Hvotes].
  apply countFromVoted_inv in Hcount as [-> [(n & sf & w & m & f & _ & _ & Hx & _ & Hn)|Hc]]; [| |exact Henv].
  { exfalso. apply newVoteproof_of_inv in Hn as (_ & _ & _ & _ & _ & _ & _ & _ & He & _).
    apply extractExpels_inv in Hx as (Hw & _). rewrite He in Hplain.
    apply Nat.ltb_ge in Hplain. destruct w; simpl in *; done || lia. }
  destruct Hc as (r & key & Hr & Hny & Hn). cbv zeta in *.
  set (sfs := (e_range env _ 0 (vr_voted vr)).*2) in *.
  apply newVoteproof_of_inv in Hn as (Ei & Ef & Es & Et & Em & Ep & _ & _ & _ & Ety & _).
  assert (forall sf, sf ∈ sfs <-> vr_voted vr !! sf_node sf = Some sf) as Hsfs
    by (intros sf; by apply voted_values).
  assert (vp_majority vp = (if decide (r = VoteResultMajority)
    then (CountBallotSignFacts sfs).2 !! key else None)) as Hm.
  { rewrite Em. case_decide; [|done]. subst r.
    destruct (majority_fact_found _ _ _ _ _ Hlen Hr) as (f & sf & Hl & _ & Hin & <-).
    rewrite Hl. apply Hsfs in Hin. by rewrite (Hempty _ _ Hin). }
  rewrite <- Es, <- Et in *. split_and!; try done.
  - apply (plain_valid vp r key (e_undef env) suf); rewrite ?Ei, ?Ep; try done.
    + intros E. rewrite E in Hr. injection Hr as <- _. done.
    + rewrite Es. by apply voted_values_NoDup.
    + intros sf Hin%Hsfs. apply Hvotes in Hin. tauto.
  - apply (plain_valid_with_suffrage (e_undef env) vp suf r key); try done.
    + intros sf Hin%Hsfs. by apply Hvotes in Hin as [? _].
    + unfold Result. rewrite Ef, Hm. cbn. case_decide as E; [|by destruct r].
      subst r. by destruct (majority_fact_found _ _ _ _ _ Hlen Hr) as (f & sf & -> & _).
Qed.

(** Against the suffrage left by its expels, a majority must be unanimous. *)
Lemma expel_majority_count undef vp suf f :
  suf_ok suf -> Suffrage_Len suf <= Z.of_nat max_quorum ->
  HasExpels vp = true -> IsStuckVoteproof vp = false -> vp_expels vp <> [] ->
  vp_finished vp = true -> vp_majority vp = Some f ->
  IsValidVoteproofWithSuffrage undef vp suf = Ok tt ->
  exists rsuf, suf_ok rsuf /\ signed_by_members vp rsuf /\
    node_address <$> suf_ns rsuf
      = filter (fun a => a ∉ expel_nodes (vp_expels vp)) (node_address <$> suf_ns suf) /\
    Suffrage_Len rsuf <= occ (Fact_Hash f) (keys (votes_in vp)).
Proof.
  intros Hs Hlen He Hst Hne Hfin Hm Hv.
  destruct (withSuffrage_expels undef vp suf Hs He Hne Hv) as (_ & (rsuf & Hr & Hb) & _).
  apply NewSuffrageWithExpels_nodes in Hr as [Hrok Hrn]; [|done].
  exists rsuf. split_and!; [done|by eapply base_withSuffrage_members|done|].
  apply base_withSuffrage_result in Hb as (key & Hk & Hmaj); [|done].
  assert (Result vp = VoteResultMajority) as Er by (unfold Result; by rewrite Hfin, Hm).
  destruct (Hmaj Er) as (f' & Ef & <-). assert (f' = f) as -> by congruence. rewrite Er in Hk.
  assert (1 <= Suffrage_Len rsuf <= Z.of_nat max_quorum).
  { split; [by apply suf_ok_nonempty|].
    rewrite <- !suf_len_addresses, Hrn in *. pose proof (length_filter
      (fun a => a ∉ expel_nodes (vp_expels vp)) (node_address <$> suf_ns suf)). lia. }
  unfold Threshold_VoteResult in Hk. apply majority_occ in Hk;
    [|unfold u64, max_quorum in *; lia].
  rewrite max_threshold_exact in Hk by done. unfold needed in Hk. lia.
Qed.

(** A majority with expels must be unanimous.  When an expel voteproof
    with a majority is valid for a suffrage (of at most 1000 nodes), every
    member that is not expelled signed the majority fact, whatever the
    threshold of the voteproof. *)
Theorem expel_majority_unanimous `{Crypto} (undef : Z) (suf : Suffrage) (vp : Voteproof)
    (f : BallotFact)
    (Hsuf : suf_ok suf) (Hlen : Suffrage_Len suf <= Z.of_nat max_quorum)
    (Hkind : IsExpelVoteproof vp = true) (V : Voteproof_IsValid vp = Ok tt)
    (Hmaj : vp_majority vp = Some f)
    (S : IsValidVoteproofWithSuffrage undef vp suf = Ok tt) :
  forall n, n ∈ node_address <$> suf_ns suf -> n ∉ expel_nodes (vp_expels vp) ->
    exists sf, sf ∈ vp_sfs vp /\ sf_node sf = n /\ Fact_Hash (sf_fact sf) = Fact_Hash f.
Proof.
  assert (HasExpels vp = true /\ IsStuckVoteproof vp = false) as [He Hst]
    by (unfold HasExpels, IsExpelVoteproof, IsStuckVoteproof in *; by destruct (vp_type vp)).
  assert (vp_expels vp <> []) as Hne.
  { unfold_IsValid in V. unfold IsExpelVoteproof in Hkind.
    destruct (vp_type vp); try done; unfold baseExpelVoteproof_isValid in V;
      rewrite !bind_err_ok in V; destruct V as (_ & V & _);
      by apply isValidithdrawVoteproof_ok in V as (? & _). }
  apply Voteproof_IsValid_base, IsValidVoteproof_inv in V as (_ & Hnd & Hr & _).
  assert (vp_finished vp = true) as Hfin
    by (unfold Result in Hr; by destruct (vp_finished vp)).
  destruct (expel_majority_count undef vp suf f) as (rsuf & Hrok & Hmem & Hns & Hocc); [done..|].
  rewrite <- voted_for_occ in Hocc.
  assert (voted_for (Fact_Hash f) (votes_in vp) ≡ₚ node_address <$> suf_ns rsuf) as Hperm.
  { apply submseteq_length_Permutation.
    - apply NoDup_submseteq; [apply voted_for_NoDup; by rewrite voters_votes_in|].
      apply voted_for_suf. by apply votes_in_votes_of.
    - rewrite <- suf_len_addresses in Hocc. lia. }
  intros n Hn Hx. assert (n ∈ voted_for (Fact_Hash f) (votes_in vp)) as Hin.
  { rewrite Hperm, Hns. by apply list_elem_of_filter. }
  apply voted_for_elem in Hin. unfold votes_in in Hin.
  apply list_elem_of_fmap in Hin as (sf & E & Hsf). exists sf. split; [done|]. naive_solver.
Qed.

(** Counting and validating disagree on expels.  While the expels fit
    under the threshold, counting asks only for the threshold of the whole
    suffrage; a voteproof counted that way without the vote of every remaining
    member is refused by [IsValidVoteproofWithSuffrage], also on the node that
    made it. *)
Theorem counted_expel_voteproof_rejected (env : Env) (vr vr' : voterecords) (local : Address)
    (threshold : Threshold) (suf : Suffrage) (d : Z) (vp : Voteproof)
    (Henv : env_ok env) (Hsuf : suf_ok suf) (Hlen : Suffrage_Len suf <= Z.of_nat max_quorum)
    (Hcount : countFromVoted env vr local threshold suf d = Ok (vr', Some vp))
    (Hexpels : HasExpels vp = true) (Hmaj : vp_majority vp <> None)
    (Hfew : (length (vp_sfs vp) < length (filter (fun a => a ∉ expel_nodes (vp_expels vp))
               (node_address <$> suf_ns suf)))%nat) :
  IsValidVoteproofWithSuffrage (e_undef env) vp suf <> Ok tt.
Proof.
  intros Hv. destruct (vp_majority vp) as [f|] eqn:Ef; [|done].
  apply countFromVoted_inv in Hcount as [_ Hc]; [|done].
  assert (exists sfs m w, newVoteproof_of env vr sfs m threshold w = Ok vp) as (sfs & m & w & Hn)
    by naive_solver.
  apply newVoteproof_of_inv in Hn as (_ & Hfin & _ & _ & _ & _ & Ex & Hst & He & _).
  assert (vp_expels vp <> []) as Hne.
  { rewrite Ex. rewrite Hexpels in He. destruct w as [|x w]; [done|]. simpl.
    destruct (sortExpels w); simpl; [done|]. by case_match. }
  destruct (expel_majority_count (e_undef env) vp suf f) as (rsuf & _ & _ & Hns & Hocc); [done..|].
  rewrite <- Hns in Hfew. pose proof (occ_le_length (Fact_Hash f) (keys (votes_in vp))) as Ho.
  rewrite <- suf_len_addresses in Hocc. unfold keys, votes_in in *. rewrite !length_fmap in *. lia.
Qed.

Lemma countWithExpels_none env vr local suf th :
  env_ok env -> vr_expels vr = ∅ -> countWithExpels env vr local suf th = (false, [], None, []).
Proof.
  intros He E. unfold countWithExpels.
  destruct (sortBallotSignFactsByExpels env local (vr_voted vr) (vr_expels vr)) as [|m ms] eqn:Es;
    [done|exfalso].
  destruct (sortBallotSignFacts_inv env local (vr_voted vr) (vr_expels vr) m) as (n & sf & w & _ & Hw & _);
    [done|rewrite Es; left|]. by rewrite E, lookup_empty in Hw.
Qed.

(** A forged empty fact spoils a majority.  The hash of an empty proposal
    fact is not checked, so out of any valid INIT fact anybody makes a valid
    empty proposal fact with the same hash; when the map of votes is visited
    with it last, a count that reaches the majority gives a draw instead, and a
    voteproof that no node accepts. *)
Theorem forged_empty_fact_spoils_majority `{Crypto} (env : Env) (vr : voterecords)
    (local : Address) (threshold : Threshold) (suf : Suffrage) (d : Z)
    (b : baseBallotFact) (prev prop : Hash) (r : string) (sfs : list BallotSignFact)
    (forged : BallotSignFact)
    (Henv : env_ok env) (Hhonest : BallotFact_IsValid (INITBallotFact b prev prop) = Ok tt)
    (Hr : r <> "") (Hforged : sf_fact forged = EmptyProposalINITBallotFact b prev prop r)
    (Hsp : vr_sp vr = bf_point b) (Hexpels : vr_expels vr = ∅)
    (Horder : (e_range env _ 0 (vr_voted vr)).*2 = sfs ++ [forged])
    (Hmajority : Threshold_VoteResult (e_undef env) threshold (Suffrage_Len suf)
       (CountBallotSignFacts (sfs ++ [forged])).1 = (VoteResultMajority, bf_hash b)) :
  BallotFact_IsValid (sf_fact forged) = Ok tt /\
  exists vp, countFromVoted env vr local threshold suf d = Ok (set_vp (Some vp) vr, Some vp) /\
    Result vp = VoteResultDraw /\
    IsValidVoteproofWithSuffrage (e_undef env) vp suf <> Ok tt.
Proof.
  cbn [BallotFact_IsValid] in Hhonest. unfold INITBallotFact_IsValid in Hhonest.
  rewrite !bind_err_ok in Hhonest. destruct Hhonest as (Hb & Hi & _).
  assert (sp_stage (bf_point b) = StageINIT) as Hst.
  { unfold IsValidINITBallotFact in Hi. rewrite bind_err_ok, guard_err_ok, negb_false_iff,
      bool_decide_eq_true in Hi. tauto. }
  split.
  { rewrite Hforged. cbn [BallotFact_IsValid]. unfold EmptyProposalINITBallotFact_IsValid.
    rewrite !bind_err_ok. split_and!; [done|done|]. by destruct r. }
  assert (vr_voted vr <> ∅) as Hne.
  { intros E. rewrite E in Horder. pose proof (Henv _ 0%nat (∅ : gmap string BallotSignFact)) as Hp.
    rewrite map_to_list_empty in Hp. apply Permutation_nil_r in Hp. rewrite Hp in Horder.
    by destruct sfs. }
  assert (foldl add_fact ∅ (sfs ++ [forged]) !! bf_hash b = Some (sf_fact forged)) as Hl.
  { rewrite foldl_app. simpl. unfold add_fact at 1. unfold Fact_Hash. rewrite Hforged. simpl.
    by rewrite lookup_insert_eq. }
  unfold countFromVoted. rewrite bool_decide_eq_false_2 by done.
  unfold sfs_of. rewrite Horder, (countWithExpels_none env vr local suf threshold Henv Hexpels).
  destruct (CountBallotSignFacts (sfs ++ [forged])) as [set m] eqn:Ec.
  assert (m = foldl add_fact ∅ (sfs ++ [forged])) as ->
    by (unfold CountBallotSignFacts in Ec; rewrite CountBallotSignFacts_app in Ec; by injection Ec).
  cbn [fst] in Hmajority. cbn beta iota. rewrite Hmajority, Hl, Hforged.
  unfold finish_voteproof, newVoteproof_of. rewrite Hsp, Hst. cbn.
  eexists. split; [reflexivity|]. split; [done|]. intros Hv.
  apply withSuffrage_no_expels, base_withSuffrage_result in Hv as (key & Hk & _); [|done..].
  rewrite keys_votes_in in Hk. simpl in Hk. rewrite Ec in Hk. simpl in Hk.
  rewrite Hmajority in Hk. done.
Qed.

(** ** Concrete data for the witnesses *)

(** A calm environment: the suffrage it knows, maps visited in their own order. *)
Definition demo_env (suf : option Suffrage) : Env := {|
  e_local := "n9"; e_getSuffrage := fun _ => Ok (Some <$> suf); e_isValidVoteprooff := fun _ _ => Ok tt;
  e_suffrageVotef := fun _ => Ok tt; e_threshold := DefaultThreshold; e_now := 1000;
  e_countAfter := 5; e_uuid := "id"; e_undef := 0; e_range := fun A _ m => map_to_list m |}.

Lemma demo_env_ok suf : env_ok (demo_env suf).
Proof. intros A site m. reflexivity. Qed.

Definition demo_sp : StagePoint := NewStagePoint (RawPoint 33 0) StageINIT.
Definition demo_record : voterecords := init_voterecords demo_sp false zero_voterecords.
Definition demo_vote (f : BallotFact) (a : string) : BallotSignFact := demo_sf INITBallotSignFact f a.
Definition demo_voted (sfs : list BallotSignFact) (vr : voterecords) : voterecords :=
  set_voted (list_to_map ((fun sf => (sf_node sf, sf)) <$> sfs)) vr.

(** The record after one ballot of [n0]. *)
Definition demo_step (suf : option Suffrage) (vp : option Voteproof) : voterecords :=
  match vr_vote (demo_env suf) demo_record (demo_vote (demo_init_fact 0 "f") "n0") vp [] ZeroLastPoint with
  | Ok (vr, _, _) => vr
  | _ => demo_record
  end.

Lemma demo_step_ok suf vp : rtc vr_step demo_record (demo_step suf vp).
Proof.
  apply rtc_once. unfold demo_step.
  destruct (vr_vote _ _ _ _ _ _) as [[[vr l] r]|e|] eqn:E.
  - eapply vs_vote; [apply (demo_env_ok suf)|exact E].
  - unfold vr_vote in E. by destruct vp, suf.
  - unfold vr_vote in E. by destruct vp, suf.
Qed.

Lemma votes_are_final_witness :
  let vr := demo_step (Some demo_suffrage) None in
  vr_voted (copyVoted (demo_env None) vr demo_suffrage).1 !! "n0"
    = Some (demo_vote (demo_init_fact 0 "f") "n0").
Proof.
  intros vr. eapply (votes_are_final demo_sp false zero_voterecords vr _ (demo_step_ok _ None)).
  - apply rtc_once, vs_copyVoted, demo_env_ok.
  - vm_compute. reflexivity.
Defined.

Lemma copyVoted_loses_ballots_witness :
  let vr := demo_step None (Some demo_majority) in
  let vr' := (copyVoted (demo_env None) vr demo_suffrage).1 in
  vr_ballots vr !! "n0" <> None /\ vr_ballots vr' !! "n0" = None /\ vr_voted vr' !! "n0" = None.
Proof.
  intros vr vr'. split; [vm_compute; discriminate|].
  apply (copyVoted_loses_ballots demo_sp false zero_voterecords vr vr' (demo_env None)
    demo_suffrage "n0" (demo_vote (demo_init_fact 0 "f") "n0") demo_majority
    (demo_step_ok None (Some demo_majority))); [vm_compute; reflexivity..|apply rtc_refl].
Defined.

Definition demo_three : voterecords :=
  demo_voted (demo_vote (demo_init_fact 0 "f") <$> ["n0"; "n1"; "n2"]) demo_record.

(** Checks every entry of a concrete map. *)
Lemma map_check {A} (p : string -> A -> bool) (m : gmap string A) :
  forallb (fun e => p e.1 e.2) (map_to_list m) = true -> forall k x, m !! k = Some x -> p k x = true.
Proof.
  intros Hm k x Hk%elem_of_map_to_list. rewrite forallb_forall in Hm.
  by apply (Hm (k, x)), list_elem_of_In.
Qed.

Lemma demo_voted_wf sfs : vr_wf (demo_voted sfs demo_record).
Proof.
  split; simpl.
  - intros n sf Hl. by rewrite lookup_empty in Hl.
  - intros n sf Hl%elem_of_list_to_map_2. by apply list_elem_of_fmap in Hl as (? & [= -> ->] & _).
  - apply map_disjoint_empty_l.
Qed.

(** The voteproof a count makes. *)
Definition counted (vr : voterecords) (suf : Suffrage) : Voteproof :=
  match countFromVoted (demo_env None) vr "n9" DefaultThreshold suf 5 with
  | Ok (_, Some vp) => vp
  | _ => demo_majority
  end.

Definition demo_vote_ok (n : string) (sf : BallotSignFact) : bool :=
  Suffrage_ExistsPublickey demo_suffrage n (sf_signer sf) &&
  bool_decide (@BallotSignFact_IsValid demo_crypto sf = Ok tt) &&
  bool_decide (Fact_Point (sf_fact sf) = demo_sp) && negb (is_empty_fact (sf_fact sf)).

Lemma demo_three_ok n sf :
  vr_voted demo_three !! n = Some sf ->
  Suffrage_ExistsPublickey demo_suffrage n (sf_signer sf) = true /\
  @BallotSignFact_IsValid demo_crypto sf = Ok tt /\ Fact_Point (sf_fact sf) = demo_sp /\
  is_empty_fact (sf_fact sf) = false.
Proof.
  intros Hl. apply (map_check demo_vote_ok) in Hl; [|vm_compute; reflexivity].
  unfold demo_vote_ok in Hl. rewrite !andb_true_iff, !bool_decide_eq_true, negb_true_iff in Hl. tauto.
Qed.

Lemma produced_voteproof_valid_witness :
  let vp := counted demo_three demo_suffrage in
  Result vp = VoteResultMajority /\
  IsValidVoteproofWithSuffrage (e_undef (demo_env None)) vp demo_suffrage = Ok tt.
Proof.
  intros vp. split; [vm_compute; reflexivity|].
  refine (proj1 (proj2 (@produced_voteproof_valid demo_crypto (demo_env None) demo_three
    (set_vp (Some vp) demo_three) "n9" DefaultThreshold demo_suffrage 5 vp (demo_env_ok None) _ _ _ _ _ _ _ _))).
  - vm_compute. split; congruence.
  - split; [apply demo_voted_wf|]. intros n sf Hl%demo_three_ok. tauto.
  - intros n sf Hl%demo_three_ok. tauto.
  - vm_compute. reflexivity.
  - vm_compute. reflexivity.
  - vm_compute. discriminate.
  - vm_compute. reflexivity.
  - vm_compute. reflexivity.
Defined.

Lemma expel_majority_unanimous_witness :
  let f := demo_init_fact 0 "f" in
  let vp := demo_vp KINITExpel INITBallotSignFact f (Some f) DefaultThreshold
              ["n0"; "n1"; "n2"] [demo_expel "n3" ["n0"; "n1"; "n2"]] in
  exists sf, sf ∈ vp_sfs vp /\ sf_node sf = "n1" /\ Fact_Hash (sf_fact sf) = "f".
Proof.
  intros f vp.
  apply (@expel_majority_unanimous demo_crypto 0 demo_suffrage vp f demo_suffrage_ok);
    try (vm_compute; congruence).
  - apply (bool_decide_unpack _); vm_compute; done.
  - apply (bool_decide_unpack _); vm_compute; done.
Defined.

(** Seven nodes; [n6] is expelled by five of them, and the same five vote. *)
Definition demo_nodes7 : list Node := demo_node <$> ["n0"; "n1"; "n2"; "n3"; "n4"; "n5"; "n6"].
Definition demo_suffrage7 : Suffrage :=
  {| suf_m := foldl (fun m n => <[node_address n := n]> m) ∅ demo_nodes7; suf_ns := demo_nodes7 |}.
Definition demo_five : voterecords :=
  set_expels {["n0" := [demo_expel "n6" ["n0"; "n1"; "n2"; "n3"; "n4"]]]}
    (demo_voted (demo_vote (demo_init_fact 0 "f") <$> ["n0"; "n1"; "n2"; "n3"; "n4"]) demo_record).

Lemma counted_expel_voteproof_rejected_witness :
  let vp := counted demo_five demo_suffrage7 in
  Result vp = VoteResultMajority /\
  IsValidVoteproofWithSuffrage (e_undef (demo_env None)) vp demo_suffrage7 <> Ok tt.
Proof.
  intros vp. split; [vm_compute; reflexivity|].
  apply (counted_expel_voteproof_rejected (demo_env None) demo_five
    (set_vp (Some vp) demo_five) "n9" DefaultThreshold demo_suffrage7 5 vp (demo_env_ok None)).
  - reflexivity.
  - vm_compute. discriminate.
  - vm_compute. reflexivity.
  - vm_compute. reflexivity.
  - vm_compute. discriminate.
  - vm_compute. lia.
Defined.

Lemma forged_empty_fact_spoils_majority_witness :
  let b := demo_base "f" demo_sp [] in
  let forged := demo_vote (EmptyProposalINITBallotFact b "prev" "pr" "r") "n0" in
  let vr := demo_voted (forged :: (demo_vote (INITBallotFact b "prev" "pr") <$> ["n1"; "n2"])) demo_record in
  exists vp, countFromVoted (demo_env None) vr "n9" DefaultThreshold demo_suffrage 5
      = Ok (set_vp (Some vp) vr, Some vp) /\ Result vp = VoteResultDraw /\
    IsValidVoteproofWithSuffrage 0 vp demo_suffrage <> Ok tt.
Proof.
  intros b forged vr.
  apply (@forged_empty_fact_spoils_majority demo_crypto (demo_env None) vr "n9" DefaultThreshold
    demo_suffrage 5 b "prev" "pr" "r"
    (demo_vote (INITBallotFact b "prev" "pr") <$> ["n1"; "n2"]) forged (demo_env_ok None));
    try discriminate; vm_compute; reflexivity.
Defined.
