(* ===== verification/Ballotbox.v ===== *)
(** * The ballot box ([isaac/states/ballotbox.go])

    The box keeps the vote records by stage point, the last point, and the
    voteproofs it sent to its channel.  Records are shared by pointer and
    recycled through a [sync.Pool], so they live in a heap: [bx_vrs],
    [bx_removed] and [bx_pool] hold locations.  An operation here is one call;
    the functions that Go runs in a goroutine of their own ([deferred]) are
    separate steps, so that other calls may come in between. *)
From S2P Require Import Prelude Point Vote Slice Ballot Voteproof LastPoint Voterecords.

Open Scope Z_scope.

Abbreviation loc := nat.

Record Ballotbox := {
  bx_heap : gmap loc voterecords;
  bx_vrs : gmap string loc;
  bx_lsp : option LastPoint;           (* [Locked]: [None] is empty *)
  bx_lvp : option Voteproof;
  bx_removed : option (list loc);
  bx_pool : list loc;                  (* [voterecordsPool] *)
  bx_vpch : list Voteproof;            (* what was sent to the channel, in order *)
  bx_learned : list SuffrageExpelOperation  (* the calls of [suffrageVotef] *)
}.

Definition NewBallotbox (pool : list loc) (heap : gmap loc voterecords) : Ballotbox :=
  {| bx_heap := heap; bx_vrs := ∅; bx_lsp := None; bx_lvp := None; bx_removed := None;
     bx_pool := pool; bx_vpch := []; bx_learned := [] |}.

Definition put_record (l : loc) (vr : voterecords) (b : Ballotbox) : Ballotbox :=
  {| bx_heap := <[l := vr]> (bx_heap b); bx_vrs := bx_vrs b; bx_lsp := bx_lsp b; bx_lvp := bx_lvp b;
     bx_removed := bx_removed b; bx_pool := bx_pool b; bx_vpch := bx_vpch b; bx_learned := bx_learned b |}.
Definition set_vrs m (b : Ballotbox) : Ballotbox :=
  {| bx_heap := bx_heap b; bx_vrs := m; bx_lsp := bx_lsp b; bx_lvp := bx_lvp b;
     bx_removed := bx_removed b; bx_pool := bx_pool b; bx_vpch := bx_vpch b; bx_learned := bx_learned b |}.
Definition set_lsp p (b : Ballotbox) : Ballotbox :=
  {| bx_heap := bx_heap b; bx_vrs := bx_vrs b; bx_lsp := p; bx_lvp := bx_lvp b;
     bx_removed := bx_removed b; bx_pool := bx_pool b; bx_vpch := bx_vpch b; bx_learned := bx_learned b |}.
Definition set_removed r (b : Ballotbox) : Ballotbox :=
  {| bx_heap := bx_heap b; bx_vrs := bx_vrs b; bx_lsp := bx_lsp b; bx_lvp := bx_lvp b;
     bx_removed := r; bx_pool := bx_pool b; bx_vpch := bx_vpch b; bx_learned := bx_learned b |}.
Definition set_pool p (b : Ballotbox) : Ballotbox :=
  {| bx_heap := bx_heap b; bx_vrs := bx_vrs b; bx_lsp := bx_lsp b; bx_lvp := bx_lvp b;
     bx_removed := bx_removed b; bx_pool := p; bx_vpch := bx_vpch b; bx_learned := bx_learned b |}.
Definition learn l (b : Ballotbox) : Ballotbox :=
  {| bx_heap := bx_heap b; bx_vrs := bx_vrs b; bx_lsp := bx_lsp b; bx_lvp := bx_lvp b;
     bx_removed := bx_removed b; bx_pool := bx_pool b; bx_vpch := bx_vpch b;
     bx_learned := bx_learned b ++ l |}.

(** [newVoteproof] sends to the channel under the lock of [lvp]. *)
Definition newVoteproof (vp : Voteproof) (b : Ballotbox) : Ballotbox :=
  {| bx_heap := bx_heap b; bx_vrs := bx_vrs b; bx_lsp := bx_lsp b; bx_lvp := Some vp;
     bx_removed := bx_removed b; bx_pool := bx_pool b; bx_vpch := bx_vpch b ++ [vp];
     bx_learned := bx_learned b |}.

(** A nil pointer dereference panics. *)
Definition record_at (b : Ballotbox) (l : loc) : res voterecords :=
  match bx_heap b !! l with Some vr => Ok vr | None => Panic end.

(** ** The last point *)
Definition box_LastPoint (b : Ballotbox) : LastPoint := default ZeroLastPoint (bx_lsp b).

Definition isNewBallot (b : Ballotbox) (point : StagePoint) (isSuffrageConfirm : bool) : bool :=
  match bx_lsp b with
  | None => true
  | Some last => IsNewBallot last point isSuffrageConfirm
  end.

Definition SetLastPoint (b : Ballotbox) (point : LastPoint) : bool * Ballotbox :=
  if negb (Before (box_LastPoint b) (lp_sp point) (lp_isSuffrageConfirm point)) then (false, b)
  else (true, set_lsp (Some point) b).

Definition SetLastPointFromVoteproof (b : Ballotbox) (vp : Voteproof) : bool * Ballotbox :=
  match NewLastPointFromVoteproof vp with
  | Ok p => SetLastPoint b p
  | _ => (false, b)
  end.

(** ** The records *)
Definition record_key (stagepoint : StagePoint) (isSuffrageConfirm : bool) : string :=
  if isSuffrageConfirm then "sf-" +:+ StagePoint_String stagepoint else StagePoint_String stagepoint.

Definition box_voterecords (b : Ballotbox) (stagepoint : StagePoint) (isSuffrageConfirm : bool)
    : option loc :=
  bx_vrs b !! record_key stagepoint isSuffrageConfirm.

(** [voterecordsPool.Get]: any record of the pool ([pick] chooses the position)
    or a new one. *)
Definition pool_get (pick : option nat) (b : Ballotbox) : loc * Ballotbox :=
  match pick ≫= fun i => bx_pool b !! i ≫= fun l => Some (i, l) with
  | Some (i, l) => (l, set_pool (delete i (bx_pool b)) b)
  | None =>
      let l := fresh (dom (bx_heap b)) in (l, put_record l zero_voterecords b)
  end.

(** [voterecordsPoolPut]. *)
Definition voterecordsPoolPut (l : loc) (b : Ballotbox) : res Ballotbox :=
  record_at b l ≫= fun vr =>
  Ok (set_pool (l :: bx_pool b) (put_record l (reset_voterecords vr) b)).

Definition newVoterecords (pick : option nat) (stagepoint : StagePoint) (isSuffrageConfirm : bool)
    (b : Ballotbox) : res (loc * Ballotbox) :=
  let '(l, b) := pool_get pick b in
  record_at b l ≫= fun vr => Ok (l, put_record l (init_voterecords stagepoint isSuffrageConfirm vr) b).

(** [Ballotbox.newVoterecords]: the record of the stage point, made if missing. *)
Definition box_newVoterecords (pick : option nat) (stagepoint : StagePoint)
    (isSuffrageConfirm : bool) (b : Ballotbox) : res (loc * Ballotbox) :=
  let key := record_key stagepoint isSuffrageConfirm in
  match bx_vrs b !! key with
  | Some l => Ok (l, b)
  | None =>
      newVoterecords pick stagepoint isSuffrageConfirm b ≫= fun '(l, b) =>
      Ok (l, set_vrs (<[key := l]> (bx_vrs b)) b)
  end.

Section Operations.
Variable env : Env.

(** ** Voting *)

(** What [vote] leaves to a goroutine: to look at the voteproof of the ballot,
    or to count. *)
Inductive Deferred := DNone | DVoteproof (l : loc) (vp : Voteproof) | DCount (l : loc).

Definition box_vote (pick : option nat) (signfact : BallotSignFact) (vp : option Voteproof)
    (expels : list SuffrageExpelOperation) (b : Ballotbox)
    : res (res (bool * Deferred) * Ballotbox) :=
  let fact := sf_fact signfact in
  let isc := IsSuffrageConfirmBallotFact (Some fact) in
  if negb (isNewBallot b (Fact_Point fact) isc) then Ok (Ok (false, DNone), b)
  else
    box_newVoterecords pick (Fact_Point fact) isc b ≫= fun '(l, b) =>
    record_at b l ≫= fun vr =>
    vr_vote env vr signfact vp expels (box_LastPoint b) ≫= fun '(vr', learned, r) =>
    let b := learn learned (put_record l vr' b) in
    match r with
    | Panic => Panic
    | Err e => Ok (Err e, b)
    | Ok (inVoteproof, validated) =>
        Ok (Ok (inVoteproof,
                if validated : bool then DCount l
                else match vp with Some v => DVoteproof l v | None => DNone end), b)
    end.

Definition has_expelled (expels : list SuffrageExpelOperation) : bool :=
  existsb (fun x => bool_decide (xf_node (xo_fact x) = e_local env)) expels.

Definition checkBallot (bl : Ballot) : res bool :=
  let ok := negb (HasExpels (bl_vp bl) && has_expelled (vp_expels (bl_vp bl))) &&
            negb (has_expelled (Ballot_Expels bl)) in
  match e_getSuffrage env (Height_SafePrev (sp_h (bl_point bl))) with
  | Panic => Panic
  | Err _ => Ok false
  | Ok None => Ok ok
  | Ok (Some None) => Panic
  | Ok (Some (Some suf)) =>
      if negb (Suffrage_Exists suf (sf_node (bl_signFact bl))) then Ok false else Ok ok
  end.

Definition Vote (pick : option nat) (bl : Ballot) (b : Ballotbox)
    : res (res (bool * Deferred) * Ballotbox) :=
  checkBallot bl ≫= fun ok =>
  if negb ok then Ok (Ok (false, DNone), b)
  else box_vote pick (bl_signFact bl) (Some (bl_vp bl)) (Ballot_Expels bl) b.

Definition VoteSignFact (pick : option nat) (sf : BallotSignFact) (b : Ballotbox)
    : res (res (bool * Deferred) * Ballotbox) :=
  box_vote pick sf None [] b.

(** ** Cleaning *)

(** One step of the loops of [clean]. *)
Definition clean_put (r : res Ballotbox) (l : loc) : res Ballotbox := r ≫= voterecordsPoolPut l.
Definition clean_key (vr : voterecords) : string :=
  let key := StagePoint_String (vr_sp vr) in if vr_isc vr then "sign-" +:+ key else key.
Definition clean_remove (r : res Ballotbox) (l : loc) : res Ballotbox :=
  r ≫= fun b => record_at b l ≫= fun vr => Ok (set_vrs (delete (clean_key vr) (bx_vrs b)) b).

(** The records at or before [stagepoint], in the order of the map. *)
Fixpoint old_records (b : Ballotbox) (stagepoint : StagePoint) (es : list (string * loc))
    : res (list loc) :=
  match es with
  | [] => Ok []
  | (_, l) :: es =>
      record_at b l ≫= fun vr =>
      old_records b stagepoint es ≫= fun ls =>
      Ok (if StagePoint_Compare (vr_sp vr) stagepoint <=? 0 then l :: ls else ls)
  end.

Definition clean (b : Ballotbox) : res Ballotbox :=
  foldl clean_put (Ok b) (default [] (bx_removed b)) ≫= fun b =>
  let last := lp_sp (box_LastPoint b) in
  let stagepoint := StagePoint_Decrease (StagePoint_Decrease (StagePoint_Decrease last)) in
  if StagePoint_IsZero last || StagePoint_IsZero stagepoint then Ok (set_removed (Some []) b)
  else
    old_records b stagepoint (e_range env _ 10 (bx_vrs b)) ≫= fun removed =>
    foldl clean_remove (Ok b) removed ≫= fun b =>
    Ok (set_removed (Some removed) b).

(** ** Counting *)
Definition countVoterecords (l : loc) (b : Ballotbox) : res (list Voteproof * Ballotbox) :=
  record_at b l ≫= fun vr =>
  if negb (isNewBallot b (vr_sp vr) (vr_isc vr)) then Ok ([], b)
  else
    vr_count env vr (e_local env) (box_LastPoint b) (e_threshold env) (e_countAfter env)
      ≫= fun '(vr', learned, vps) =>
    let b := learn learned (put_record l vr' b) in
    match vps with
    | [] => Ok ([], b)
    | _ =>
        let filtered :=
          match bx_lsp b with
          | None => vps
          | Some last =>
              FilterSlice vps (fun vp => isNewVoteproofWithSuffrageConfirmFunc (vr_isc vr') last vp)
          end in
        let b := match list.last filtered with
                 | Some lastvp => (SetLastPointFromVoteproof b lastvp).2
                 | None => b
                 end in
        let b := foldl (fun b vp => newVoteproof vp b) b filtered in
        clean b ≫= fun b => Ok (filtered, b)
    end.

(** The goroutine of a vote. *)
Definition run_deferred (d : Deferred) (b : Ballotbox) : res (list Voteproof * Ballotbox) :=
  match d with
  | DNone => Ok ([], b)
  | DCount l => countVoterecords l b
  | DVoteproof l vp =>
      record_at b l ≫= fun vr =>
      voteproofFromBallots env vr vp (box_LastPoint b) (e_threshold env) IsNewVoteproof
        ≫= fun '(learned, ok) =>
      let b := learn learned b in
      if ok : bool then Ok ([vp], newVoteproof vp b) else Ok ([], b)
  end.

(** [unfinishedVoterecords]: the records neither finished, removed nor old. *)
Fixpoint unfinished_loop (b : Ballotbox) (removedm : list string) (es : list (string * loc))
    : res (list (StagePoint * loc)) :=
  match es with
  | [] => Ok []
  | (_, l) :: es =>
      record_at b l ≫= fun vr =>
      unfinished_loop b removedm es ≫= fun ls =>
      let last := lp_sp (box_LastPoint b) in
      Ok (if bool_decide (StagePoint_String (vr_sp vr) ∈ removedm) then ls
          else if isFinished vr then ls
          else if negb (StagePoint_IsZero last) && (StagePoint_Compare (vr_sp vr) last <? 1) then ls
          else (vr_sp vr, l) :: ls)
  end.

Fixpoint insert_record (x : StagePoint * loc) (ls : list (StagePoint * loc)) :=
  match ls with
  | [] => [x]
  | y :: ls' => if StagePoint_Compare y.1 x.1 <? 0 then y :: insert_record x ls' else x :: ls
  end.

Fixpoint removed_keys (b : Ballotbox) (ls : list loc) : res (list string) :=
  match ls with
  | [] => Ok []
  | l :: ls =>
      record_at b l ≫= fun vr => removed_keys b ls ≫= fun ks => Ok (StagePoint_String (vr_sp vr) :: ks)
  end.

Definition unfinishedVoterecords (b : Ballotbox) : res (list loc) :=
  removed_keys b (default [] (bx_removed b)) ≫= fun removedm =>
  unfinished_loop b removedm (e_range env _ 11 (bx_vrs b)) ≫= fun ls =>
  Ok (foldr insert_record [] ls).*2.

(** [Count]. *)
Fixpoint count_all (ls : list loc) (b : Ballotbox) : res (bool * Ballotbox) :=
  match ls with
  | [] => Ok (false, b)
  | l :: ls =>
      countVoterecords l b ≫= fun '(vps, b) =>
      count_all ls b ≫= fun '(has, b) =>
      Ok (negb (bool_decide (vps = [])) || has, b)
  end.
Definition Count (b : Ballotbox) : res (bool * Ballotbox) :=
  unfinishedVoterecords b ≫= fun ls => count_all ls b.

(** [countHoldeds], the tick of the timer: the last point is not moved. *)
Fixpoint hold_all (last : LastPoint) (ls : list loc) (b : Ballotbox) : res Ballotbox :=
  match ls with
  | [] => Ok b
  | l :: ls =>
      record_at b l ≫= fun vr =>
      vr_countHolded env vr (e_local env) last (e_countAfter env) ≫= fun '(vr', learned, vps) =>
      let b := learn learned (put_record l vr' b) in
      hold_all last ls (foldl (fun b vp => newVoteproof vp b) b vps)
  end.
Definition countHoldeds (b : Ballotbox) : res Ballotbox :=
  unfinishedVoterecords b ≫= fun ls => hold_all (box_LastPoint b) ls b.

(** ** Queries *)
Definition Voted (b : Ballotbox) (point : StagePoint) (nodes : list Address)
    : res (list BallotSignFact) :=
  match box_voterecords b point false with
  | None => Ok []
  | Some l => record_at b l ≫= fun vr => Ok (ballotSignFacts env vr nodes)
  end.

Definition StuckVoteproof (point : StagePoint) (expels : list SuffrageExpelOperation)
    (b : Ballotbox) : res (res (option Voteproof) * Ballotbox) :=
  if (length expels <? 1)%nat then Ok (Err "empty expels", b)
  else match box_voterecords b point false with
  | None => Ok (Ok None, b)
  | Some l =>
      countVoterecords l b ≫= fun '(_, b) =>
      record_at b l ≫= fun vr =>
      vr_stuckVoteproof env vr (e_threshold env) expels ≫= fun '(vr', r) =>
      Ok (r, put_record l vr' b)
  end.

(** [MissingNodes] returns the members, apart from the local node, whose vote
    is not known, and whether that is known. *)
Definition MissingNodes (point : StagePoint) (b : Ballotbox)
    : res (res (list Address * bool) * Ballotbox) :=
  match box_voterecords b point false with
  | None => Ok (Ok ([], false), b)
  | Some l =>
      record_at b l ≫= fun vr =>
      if isFinished vr then Ok (Ok ([], true), b)
      else
        countVoterecords l b ≫= fun '(_, b) =>
        record_at b l ≫= fun vr =>
        if isFinished vr then Ok (Ok ([], true), b)
        else match getSuffrage env vr with
        | Panic => Panic
        | Err e => Ok (Err e, b)
        | Ok None => Ok (Ok ([], false), b)
        | Ok (Some None) => Panic
        | Ok (Some (Some suf)) =>
            let '(vr', voted) := copyVoted env vr suf in
            Ok (Ok (node_address <$> FilterSlice (suf_ns suf) (fun n =>
                      negb (bool_decide (node_address n = e_local env)) &&
                      bool_decide (voted !! node_address n = None)), true),
                put_record l vr' b)
        end
  end.

End Operations.

(** ** Locations *)

(** Every location the box holds is a record. *)
Definition box_ok (b : Ballotbox) : Prop :=
  (forall k l, bx_vrs b !! k = Some l -> is_Some (bx_heap b !! l)) /\
  (forall l, l ∈ default [] (bx_removed b) -> is_Some (bx_heap b !! l)) /\
  (forall l, l ∈ bx_pool b -> is_Some (bx_heap b !! l)).

Lemma record_at_ok b l vr : record_at b l = Ok vr <-> bx_heap b !! l = Some vr.
Proof. unfold record_at. destruct (bx_heap b !! l); naive_solver. Qed.

(** ** What [clean] does *)

(** Putting records into the pool resets them and nothing else. *)
Lemma clean_puts ls b :
  (forall l, l ∈ ls -> is_Some (bx_heap b !! l)) ->
  exists b', foldl clean_put (Ok b) ls = Ok b' /\
    bx_vrs b' = bx_vrs b /\ bx_lsp b' = bx_lsp b /\ bx_removed b' = bx_removed b /\
    bx_vpch b' = bx_vpch b /\
    bx_pool b' = reverse ls ++ bx_pool b /\
    (forall l, l ∉ ls -> bx_heap b' !! l = bx_heap b !! l) /\
    (forall l, l ∈ ls -> exists vr vr', bx_heap b !! l = Some vr /\ bx_heap b' !! l = Some vr' /\
       vr_sp vr' = ZeroStagePoint /\ vr_isc vr' = vr_isc vr /\ vr_countAfter vr' = vr_countAfter vr).
Proof.
  revert b. induction ls as [|l ls IH]; intros b Hin.
  { eexists. split; [done|]. split_and!; try done. intros l []%not_elem_of_nil. }
  destruct (Hin l (list_elem_of_here _ _)) as [vr Hvr].
  cbn [foldl]. assert (clean_put (Ok b) l = Ok (set_pool (l :: bx_pool b)
    (put_record l (reset_voterecords vr) b))) as -> by (cbn; unfold voterecordsPoolPut, record_at; by rewrite Hvr).
  set (b1 := set_pool _ _). destruct (IH b1) as (b' & Hf & E1 & E2 & E3 & E4 & E5 & Hout & Hls).
  { intros l' Hl'. simpl. rewrite lookup_insert. case_decide; [done|]. apply Hin. by right. }
  exists b'. split; [exact Hf|]. split_and!; try done.
  - rewrite E5. simpl. by rewrite reverse_cons, <- app_assoc.
  - intros l' [Hne Hn]%not_elem_of_cons. rewrite Hout by done. simpl. by rewrite lookup_insert_ne.
  - intros l' Hl'. destruct (decide (l' = l)) as [->|Hne].
    + destruct (decide (l ∈ ls)) as [Hl|Hl].
      * destruct (Hls l Hl) as (vr1 & vr' & H1 & H2 & Hs & Hi & Hc). simpl in H1.
        rewrite lookup_insert_eq in H1. injection H1 as <-. exists vr, vr'. done.
      * exists vr, (reset_voterecords vr). split; [done|]. rewrite Hout by done. simpl.
        by rewrite lookup_insert_eq.
    + apply elem_of_cons in Hl' as [|Hl']; [done|].
      destruct (Hls l' Hl') as (vr1 & vr' & H1 & H2 & Hs). simpl in H1.
      rewrite lookup_insert_ne in H1 by done. eauto 10.
Qed.

(** Removing records from the map deletes their keys and nothing else. *)
Lemma clean_removes ls b :
  (forall l, l ∈ ls -> is_Some (bx_heap b !! l)) ->
  exists m, foldl clean_remove (Ok b) ls = Ok (set_vrs m b) /\
    m ⊆ bx_vrs b /\
    forall k, (forall l vr, l ∈ ls -> bx_heap b !! l = Some vr -> clean_key vr <> k) ->
      m !! k = bx_vrs b !! k.
Proof.
  revert b. induction ls as [|l ls IH]; intros b Hin.
  { exists (bx_vrs b). split; [by destruct b|done]. }
  destruct (Hin l (list_elem_of_here _ _)) as [vr Hvr].
  cbn [foldl]. assert (clean_remove (Ok b) l = Ok (set_vrs (delete (clean_key vr) (bx_vrs b)) b)) as ->
    by (cbn; unfold record_at; by rewrite Hvr).
  destruct (IH (set_vrs (delete (clean_key vr) (bx_vrs b)) b)) as (m & Hf & Hsub & Hk).
  { intros l' Hl'. apply Hin. by right. }
  exists m. split; [exact Hf|]. split.
  - etrans; [exact Hsub|]. apply delete_subseteq.
  - intros k Hkk. rewrite Hk.
    + simpl. apply lookup_delete_ne. eapply Hkk; [left|done].
    + intros l' vr' Hl'. apply Hkk. by right.
Qed.

Lemma old_records_ok b sp es :
  (forall e, e ∈ es -> is_Some (bx_heap b !! e.2)) ->
  exists ls, old_records b sp es = Ok ls /\
    forall l, l ∈ ls <-> exists k vr, (k, l) ∈ es /\ bx_heap b !! l = Some vr /\
                           StagePoint_Compare (vr_sp vr) sp <= 0.
Proof.
  induction es as [|[k l] es IH]; intros Hin.
  { exists []. split; [done|]. intros l. split; [by intros []%not_elem_of_nil|].
    by intros (? & ? & []%not_elem_of_nil & _). }
  destruct IH as (ls & Hls & Hiff). { intros e He. apply Hin. by right. }
  destruct (Hin (k, l) (list_elem_of_here _ _)) as [vr Hvr]. simpl in Hvr.
  cbn [old_records]. unfold record_at. rewrite Hvr. cbn. rewrite Hls. cbn.
  eexists. split; [reflexivity|]. intros l'.
  destruct (Z.leb_spec (StagePoint_Compare (vr_sp vr) sp) 0) as [Hle|Hgt].
  - rewrite elem_of_cons, Hiff. split.
    + intros [->|(k' & vr' & Hk & H)]; [exists k, vr|exists k', vr']; (split; [|done]).
      * left.
      * by right.
    + intros (k' & vr' & [[= -> ->]|Hk]%elem_of_cons & H); [by left|right; eauto].
  - rewrite Hiff. split.
    + intros (k' & vr' & Hk & H). exists k', vr'. split; [by right|done].
    + intros (k' & vr' & [[= -> ->]|Hk]%elem_of_cons & Hh & H); [|eauto].
      rewrite Hvr in Hh. injection Hh as <-. lia.
Qed.

(** The limit below which [clean] takes records out. *)
Definition clean_limit (b : Ballotbox) : StagePoint :=
  StagePoint_Decrease (StagePoint_Decrease (StagePoint_Decrease (lp_sp (box_LastPoint b)))).

Lemma clean_spec env b :
  env_ok env -> box_ok b ->
  StagePoint_IsZero (lp_sp (box_LastPoint b)) = false -> StagePoint_IsZero (clean_limit b) = false ->
  exists b' removed, clean env b = Ok b' /\ box_ok b' /\
    bx_lsp b' = bx_lsp b /\ bx_removed b' = Some removed /\
    bx_pool b' = reverse (default [] (bx_removed b)) ++ bx_pool b /\
    bx_vrs b' ⊆ bx_vrs b /\
    (forall l, l ∉ default [] (bx_removed b) -> bx_heap b' !! l = bx_heap b !! l) /\
    (forall l, l ∈ default [] (bx_removed b) -> exists vr vr', bx_heap b !! l = Some vr /\
       bx_heap b' !! l = Some vr' /\ vr_sp vr' = ZeroStagePoint /\ vr_isc vr' = vr_isc vr /\
       vr_countAfter vr' = vr_countAfter vr) /\
    (forall l, l ∈ removed <-> exists k vr, bx_vrs b !! k = Some l /\ bx_heap b' !! l = Some vr /\
       StagePoint_Compare (vr_sp vr) (clean_limit b) <= 0) /\
    (forall k, (forall l vr, l ∈ removed -> bx_heap b' !! l = Some vr -> clean_key vr <> k) ->
       bx_vrs b' !! k = bx_vrs b !! k).
Proof.
  intros He (Hv & Hr & Hp) Hz1 Hz2. unfold clean.
  destruct (clean_puts _ b Hr) as (b1 & -> & E1 & E2 & E3 & E4 & E5 & Hout & Hin).
  cbn. assert (box_LastPoint b1 = box_LastPoint b) as -> by (unfold box_LastPoint; by rewrite E2).
  fold (clean_limit b). rewrite Hz1, Hz2. cbn.
  assert (forall l, is_Some (bx_heap b !! l) -> is_Some (bx_heap b1 !! l)) as Hdom.
  { intros l Hl. destruct (decide (l ∈ default [] (bx_removed b))) as [Hl'|Hl'].
    - destruct (Hin l Hl') as (_ & vr' & _ & -> & _). by eexists.
    - by rewrite Hout. }
  destruct (old_records_ok b1 (clean_limit b) (e_range env _ 10 (bx_vrs b1))) as (removed & -> & Hrem).
  { intros e Hel%range_elem; [|done]. apply Hdom. rewrite E1 in Hel. by eapply Hv. }
  cbn. destruct (clean_removes removed b1) as (m & -> & Hsub & Hk).
  { intros l (k & vr & _ & Hl & _)%Hrem. by eexists. }
  cbn. eexists _, removed. split; [reflexivity|]. simpl. rewrite <- E1.
  split_and!; try done.
  - split_and!.
    + intros k l Hkl. simpl in Hkl. apply Hdom. eapply Hv. rewrite <- E1. by eapply lookup_weaken.
    + intros l (k & vr & _ & Hl & _)%Hrem. by eexists.
    + intros l Hl. simpl in Hl. rewrite E5 in Hl. apply Hdom.
      apply elem_of_app in Hl as [Hl%elem_of_reverse|Hl]; [|by apply Hp].
      rewrite reverse_involutive in Hl. by apply Hr.
  - intros l. rewrite Hrem. setoid_rewrite (range_elem env 10 (bx_vrs b1)); [done|done].
Qed.

(** [clean] never deletes the key of a suffrage confirm record. *)
Lemma clean_key_not_sf vr sp : clean_key vr <> record_key sp true.
Proof. unfold clean_key, record_key, StagePoint_String. by destruct (vr_isc vr). Qed.

Lemma clean_limit_lsp b b' : bx_lsp b' = bx_lsp b -> clean_limit b' = clean_limit b.
Proof. unfold clean_limit, box_LastPoint. by intros ->. Qed.

Lemma zero_below p : StagePoint_IsZero p = false -> StagePoint_Compare ZeroStagePoint p <= 0.
Proof.
  intros [Hh _]%StagePoint_nonzero. unfold StagePoint_Compare, sp_h in *.
  assert (Point_Compare (sp_point ZeroStagePoint) (sp_point p) < 0) as Hlt.
  { apply Point_Compare_lt. left. simpl. unfold NilHeight. lia. }
  destruct (Z.eqb_spec (Point_Compare (sp_point ZeroStagePoint) (sp_point p)) 0); lia.
Qed.

(** A suffrage confirm record old enough to be cleaned. *)
Definition old_sf_record (b : Ballotbox) (sp : StagePoint) (l : loc) : Prop :=
  box_ok b /\ StagePoint_IsZero (lp_sp (box_LastPoint b)) = false /\
  StagePoint_IsZero (clean_limit b) = false /\
  bx_vrs b !! record_key sp true = Some l /\
  exists vr, bx_heap b !! l = Some vr /\ StagePoint_Compare (vr_sp vr) (clean_limit b) <= 0.

(** One [clean]: it stays in the map, is listed as removed again, and goes to
    the pool if it was listed before. *)
Lemma clean_sf env b sp l :
  env_ok env -> old_sf_record b sp l ->
  exists b', clean env b = Ok b' /\ old_sf_record b' sp l /\ bx_vrs b' ⊆ bx_vrs b /\
    l ∈ default [] (bx_removed b') /\
    bx_pool b' = reverse (default [] (bx_removed b)) ++ bx_pool b.
Proof.
  intros He (Hb & Hz1 & Hz2 & Hk & vr & Hl & Hle).
  destruct (clean_spec env b He Hb Hz1 Hz2) as
    (b' & removed & E & Hok & Elsp & Erem & Epool & Hsub & Hout & Hin & Hremoved & Hkeys).
  pose proof (clean_limit_lsp b b' Elsp) as EL.
  assert (exists vr', bx_heap b' !! l = Some vr' /\
    StagePoint_Compare (vr_sp vr') (clean_limit b) <= 0) as (vr' & Hl' & Hle').
  { destruct (decide (l ∈ default [] (bx_removed b))) as [Hr|Hr].
    - destruct (Hin l Hr) as (_ & vr' & _ & Hl' & Hs & _). exists vr'. split; [done|].
      rewrite Hs. by apply zero_below.
    - rewrite Hout by done. eauto. }
  exists b'. rewrite Erem. simpl. split_and!; try done.
  - split_and!; rewrite ?EL; try done; [unfold box_LastPoint in *; by rewrite Elsp| |by exists vr'].
    rewrite Hkeys; [done|]. intros l0 vr0 _ _. apply clean_key_not_sf.
  - apply Hremoved. eauto.
Qed.

Lemma box_newVoterecords_pool b i l vr sp isc :
  bx_vrs b !! record_key sp isc = None -> bx_pool b !! i = Some l -> bx_heap b !! l = Some vr ->
  exists b', box_newVoterecords (Some i) sp isc b = Ok (l, b') /\
    bx_vrs b' = <[record_key sp isc := l]> (bx_vrs b) /\ bx_pool b' = delete i (bx_pool b) /\
    bx_heap b' !! l = Some (init_voterecords sp isc vr).
Proof.
  intros Hk Hi Hl. unfold box_newVoterecords, newVoterecords, pool_get. rewrite Hk. cbn.
  rewrite Hi. cbn. unfold record_at. simpl. rewrite Hl. cbn.
  eexists. split; [reflexivity|]. simpl. by rewrite lookup_insert_eq.
Qed.

Lemma delete_keeps {A} (ls : list A) i j x :
  i <> j -> ls !! i = Some x -> ls !! j = Some x -> exists k, delete i ls !! k = Some x.
Proof.
  intros Hij _ Hj. destruct (decide (j < i)%nat).
  - exists j. by rewrite list_lookup_delete_lt.
  - exists (j - 1)%nat. rewrite list_lookup_delete_ge by lia.
    by replace (S (j - 1)) with j by lia.
Qed.

(** ** Properties *)

(** Suffrage confirm records leak into the pool.  [clean] deletes their
    keys with the prefix "sign-" where they are stored under "sf-": an old
    record stays in the map, is put into the pool by the next [clean], and
    again by the one after.  From then on the pool may hand out that one record
    for two different stage points: the record filed under the first has the
    stage point of the second. *)
Theorem suffrage_confirm_record_leaks (env : Env) (b : Ballotbox) (sp : StagePoint) (l : loc)
    (vr : voterecords)
    (Henv : env_ok env) (Hbox : box_ok b)
    (Hlast : StagePoint_IsZero (lp_sp (box_LastPoint b)) = false)
    (Hlimit : StagePoint_IsZero (clean_limit b) = false)
    (Hkey : bx_vrs b !! record_key sp true = Some l) (Hrecord : bx_heap b !! l = Some vr)
    (Hold : StagePoint_Compare (vr_sp vr) (clean_limit b) <= 0) :
  exists b1 b2 b3, clean env b = Ok b1 /\ clean env b1 = Ok b2 /\ clean env b2 = Ok b3 /\
    bx_vrs b3 !! record_key sp true = Some l /\ l ∈ bx_pool b2 /\
    forall sp1 isc1 sp2 isc2,
      bx_vrs b !! record_key sp1 isc1 = None -> bx_vrs b !! record_key sp2 isc2 = None ->
      record_key sp1 isc1 <> record_key sp2 isc2 ->
      exists i1 i2 b4 b5 vr', box_newVoterecords (Some i1) sp1 isc1 b3 = Ok (l, b4) /\
        box_newVoterecords (Some i2) sp2 isc2 b4 = Ok (l, b5) /\
        bx_vrs b5 !! record_key sp1 isc1 = Some l /\ bx_vrs b5 !! record_key sp2 isc2 = Some l /\
        bx_heap b5 !! l = Some vr' /\ vr_sp vr' = sp2.
Proof.
  assert (old_sf_record b sp l) as O0 by (split_and!; eauto).
  destruct (clean_sf env b sp l Henv O0) as (b1 & E1 & O1 & S1 & R1 & P1).
  destruct (clean_sf env b1 sp l Henv O1) as (b2 & E2 & O2 & S2 & R2 & P2).
  destruct (clean_sf env b2 sp l Henv O2) as (b3 & E3 & O3 & S3 & R3 & P3).
  pose proof O3 as (_ & _ & _ & K3 & vr3 & H3 & _).
  assert (l ∈ bx_pool b2) as Hp2
    by (rewrite P2; apply elem_of_app; left; by apply elem_of_reverse).
  exists b1, b2, b3. split_and!; try done.
  intros sp1 isc1 sp2 isc2 N1 N2 Hne.
  assert (exists i j, i <> j /\ bx_pool b3 !! i = Some l /\ bx_pool b3 !! j = Some l)
    as (i & j & Hij & Hi & Hj).
  { assert (l ∈ reverse (default [] (bx_removed b2))) as (i & Hi)%list_elem_of_lookup
      by (by apply elem_of_reverse).
    apply list_elem_of_lookup in Hp2 as (j & Hj).
    exists i, (length (reverse (default [] (bx_removed b2))) + j)%nat. rewrite P3.
    apply lookup_lt_Some in Hi as Hlt. split_and!; [lia|by apply lookup_app_l_Some|].
    rewrite lookup_app_r by lia. by replace (_ + j - _)%nat with j by lia. }
  assert (forall k, bx_vrs b !! k = None -> bx_vrs b3 !! k = None) as Hnone.
  { intros k Hkn. eapply lookup_weaken_None; [|exact S3]. eapply lookup_weaken_None; [|exact S2].
    by eapply lookup_weaken_None. }
  destruct (box_newVoterecords_pool b3 i l vr3 sp1 isc1) as (b4 & E4 & V4 & Q4 & H4); [by auto..|].
  destruct (delete_keeps (bx_pool b3) i j l Hij Hi Hj) as (i2 & Hi2). rewrite <- Q4 in Hi2.
  destruct (box_newVoterecords_pool b4 i2 l (init_voterecords sp1 isc1 vr3) sp2 isc2)
    as (b5 & E5 & V5 & Q5 & H5); [|done..|].
  { rewrite V4, lookup_insert_ne by done. by apply Hnone. }
  exists i, i2, b4, b5, (init_voterecords sp2 isc2 (init_voterecords sp1 isc1 vr3)).
  split_and!; try done.
  - by rewrite V5, lookup_insert_ne, V4, lookup_insert_eq by done.
  - by rewrite V5, lookup_insert_eq.
Qed.

(** ** Reachable boxes *)

(** A voteproof the box may send: finished, of a votable stage point. *)
Definition sendable (vp : Voteproof) : Prop :=
  Result vp <> VoteResultNotYet /\ StagePoint_IsZero (vp_point vp) = false.

Definition record_ok (vr : voterecords) : Prop := forall n vp, vr_vps vr !! n = Some vp -> sendable vp.

Record box_inv (b : Ballotbox) : Prop := {
  inv_records : forall l vr, bx_heap b !! l = Some vr -> record_ok vr;
  inv_lsp : forall last, bx_lsp b = Some last -> StagePoint_IsZero (lp_sp last) = false;
  inv_vpch : Forall sendable (bx_vpch b)
}.

(** Heights never go back, and the channel only grows. *)
Record box_le (b b' : Ballotbox) : Prop := {
  ble_lsp : forall last, bx_lsp b = Some last ->
    exists last', bx_lsp b' = Some last' /\ sp_h (lp_sp last) <= sp_h (lp_sp last');
  ble_vpch : bx_vpch b `prefix_of` bx_vpch b'
}.

#[global] Instance box_le_preorder : PreOrder box_le.
Proof.
  split.
  - intros b. split; [intros last H; exists last; split; [done|lia]|done].
  - intros a b c [L1 P1] [L2 P2]. split; [|by etrans].
    intros last (last' & Hb & ?)%L1. apply L2 in Hb as (last'' & ? & ?).
    exists last''. split; [done|lia].
Qed.

(** [b'] keeps the invariant and comes after [b]. *)
Definition box_good (b b' : Ballotbox) : Prop := box_inv b -> box_inv b' /\ box_le b b'.

#[global] Instance box_good_preorder : PreOrder box_good.
Proof.
  split; [by intros b Hb|]. intros a b c H1 H2 Ha.
  destruct (H1 Ha) as [Hb ?]. destruct (H2 Hb). split; [done|]. by etrans.
Qed.

Lemma good_same b b' :
  bx_lsp b' = bx_lsp b -> bx_vpch b' = bx_vpch b ->
  (box_inv b -> forall l vr, bx_heap b' !! l = Some vr -> record_ok vr) -> box_good b b'.
Proof.
  intros E1 E2 Hr Hb. split.
  - split; rewrite ?E1, ?E2; [by apply Hr|apply Hb|apply Hb].
  - split; rewrite ?E1, ?E2; [intros last H; exists last; split; [done|lia]|done].
Qed.

Lemma good_put l vr b : (box_inv b -> record_ok vr) -> box_good b (put_record l vr b).
Proof.
  intros Hr. apply good_same; try done. intros Hb l' vr'. simpl. rewrite lookup_insert.
  case_decide; [intros [= <-]; by apply Hr|by apply (inv_records _ Hb)].
Qed.
Lemma good_learn xs b : box_good b (learn xs b).
Proof. apply good_same; try done. by intros []. Qed.
Lemma good_vrs m b : box_good b (set_vrs m b).
Proof. apply good_same; try done. by intros []. Qed.
Lemma good_removed r b : box_good b (set_removed r b).
Proof. apply good_same; try done. by intros []. Qed.
Lemma good_pool p b : box_good b (set_pool p b).
Proof. apply good_same; try done. by intros []. Qed.

Lemma good_newVoteproof vp b : sendable vp -> box_good b (newVoteproof vp b).
Proof.
  intros Hvp [Hr Hl Hc]. split.
  - split; simpl; [done|done|]. apply Forall_app. split; [done|]. by apply Forall_singleton.
  - split; simpl; [intros last H; exists last; split; [done|lia]|]. by apply prefix_app_r.
Qed.

Lemma good_newVoteproofs vps b :
  Forall sendable vps -> box_good b (foldl (fun b vp => newVoteproof vp b) b vps).
Proof.
  revert b. induction vps as [|vp vps IH]; intros b Hall; [reflexivity|].
  apply Forall_cons in Hall as [Hvp Hall]. simpl. etrans; [by apply good_newVoteproof|by apply IH].
Qed.

Lemma Before_height l p isc :
  StagePoint_IsZero (lp_sp l) = false -> Before l p isc = true -> sp_h (lp_sp l) <= sp_h p.
Proof.
  intros Hz. unfold Before. rewrite Hz.
  destruct (Z.eqb_spec (sp_h p) (sp_h (lp_sp l))); cbn [negb]; [lia|]. intros H%Z.ltb_lt. lia.
Qed.

Lemma good_SetLastPoint b p :
  StagePoint_IsZero (lp_sp p) = false -> box_good b (SetLastPoint b p).2.
Proof.
  intros Hp Hb. unfold SetLastPoint. destruct (Before _ _ _) eqn:E; cbn [negb]; [|by split].
  destruct Hb as [Hr Hl Hc]. split.
  - split; simpl; [done| |done]. by intros last [= <-].
  - split; simpl; [|done]. intros last Hlast. exists p. split; [done|].
    unfold box_LastPoint in E. rewrite Hlast in E. simpl in E. eapply Before_height; [|exact E].
    by apply Hl.
Qed.

Lemma good_SetLastPointFromVoteproof b vp :
  sendable vp -> box_good b (SetLastPointFromVoteproof b vp).2.
Proof.
  intros [_ Hz]. unfold SetLastPointFromVoteproof.
  destruct (NewLastPointFromVoteproof vp) as [p|e|] eqn:E; [|reflexivity..].
  apply good_SetLastPoint. unfold NewLastPointFromVoteproof, NewLastPoint in E.
  destruct (_ && _) in E; [done|]. by injection E as <-.
Qed.

#[export] Hint Resolve good_learn good_vrs good_removed good_pool good_newVoteproof
  good_newVoteproofs good_SetLastPointFromVoteproof : mitum.

Lemma vp_wf_sendable vp : vp_wf vp -> sendable vp.
Proof.
  intros Hw. apply vp_wf_last_ok in Hw as Hp. destruct Hw as [C Hv].
  apply Voteproof_IsValid_base, IsValidVoteproof_inv in Hv as (_ & _ & Hr & _).
  split; [done|]. by apply StagePoint_nonzero.
Qed.

Lemma record_ok_empty vr : vr_vps vr = ∅ -> record_ok vr.
Proof. intros E n vp. by rewrite E, lookup_empty. Qed.

Lemma good_newVoterecords pick sp isc b l b' :
  box_newVoterecords pick sp isc b = Ok (l, b') -> box_good b b'.
Proof.
  unfold box_newVoterecords, newVoterecords. destruct (bx_vrs b !! _); [intros [= <- <-]; reflexivity|].
  destruct (pool_get pick b) as [l1 b1] eqn:E. rewrite bind_ok. intros ([l2 b2] & Hb & [= <- <-]).
  rewrite bind_ok in Hb. destruct Hb as (vr & _ & [= <- <-]).
  assert (box_good b b1) as Hg.
  { unfold pool_get in E. destruct (pick ≫= _) as [[i l']|]; injection E as <- <-.
    - apply good_pool.
    - apply good_put. intros _. by apply record_ok_empty. }
  etrans; [exact Hg|]. etrans; [|apply good_vrs]. apply good_put. intros _. by apply record_ok_empty.
Qed.

(** *** The operations of a record keep its voteproofs sendable *)
Lemma vr_vote_record_ok env vr sf vp expels last vr' l r :
  record_ok vr -> (forall v, vp = Some v -> sendable v) ->
  vr_vote env vr sf vp expels last = Ok (vr', l, r) -> record_ok vr'.
Proof.
  intros Hr Hvp H. apply vr_vote_cases in H.
  assert (vr_vps vr' = vr_vps vr \/ exists v, vp = Some v /\ vr_vps vr' = <[sf_node sf := v]> (vr_vps vr))
    as [E|(v & Ev & E)].
  { destruct H as [[-> _]|[(_ & _ & _ & _ & _ & _ & E & _)|(_ & _ & _ & _ & _ & E & _)]]; [by left|..];
      destruct vp; eauto. }
  - intros n v. rewrite E. apply Hr.
  - intros n v'. rewrite E, lookup_insert. case_decide; [intros [= <-]; auto|apply Hr].
Qed.

Lemma from_ballot_loop_in env vr last th f vps l vp :
  from_ballot_loop env vr last th f vps = Ok (l, Some vp) -> exists n, (n, vp) ∈ vps.
Proof.
  revert l. induction vps as [|[n v] vps IH]; intros l; [done|]. cbn [from_ballot_loop].
  rewrite bind_ok. intros ([l1 ok] & _ & Hr). destruct ok.
  - injection Hr as _ <-. exists n. left.
  - apply bind_ok in Hr as ([l2 r] & Hl & [= _ ->]). apply IH in Hl as (n' & Hin).
    exists n'. by right.
Qed.

Lemma counted_sendable env vr sfs m th expels vp :
  StagePoint_IsZero (vr_sp vr) = false ->
  newVoteproof_of env vr sfs m th expels = Ok vp -> sendable vp.
Proof.
  intros Hz Hn. apply newVoteproof_of_inv in Hn as (_ & Hf & _ & _ & _ & Hp & _).
  split; [|by rewrite Hp]. unfold Result. rewrite Hf. by destruct (vp_majority vp).
Qed.

Lemma vr_count_sendable env vr local last th d vr' l vps :
  env_ok env -> record_ok vr -> vr_count env vr local last th d = Ok (vr', l, vps) ->
  record_ok vr' /\ Forall sendable vps.
Proof.
  intros He Hr. unfold vr_count.
  destruct (StagePoint_IsZero (vr_sp vr)) eqn:Ez; [by intros [= <- _ <-]|].
  destruct (negb _); [by intros [= <- _ <-]|].
  destruct (isFinished vr) eqn:Ef; [by intros [= <- _ <-]|].
  destruct (_ && _); [by intros [= <- _ <-]|].
  rewrite bind_ok. intros ([l1 i] & Hi & Hc).
  assert (Forall sendable (match i with Some v => [v] | None => [] end)) as Hvps.
  { destruct i as [v|]; [|done]. apply Forall_singleton. unfold voteproofFromBallot in Hi.
    rewrite Ef in Hi. apply from_ballot_loop_in in Hi as (n & Hin).
    apply range_elem in Hin; [|done]. by eapply Hr. }
  destruct (getSuffrage env vr) as [[[suf|]|]|e|]; [|by simplify_eq..|done].
  set (vr1 := if bool_decide (vr_ballots vr = ∅) then vr else _) in Hc.
  assert (vr_vps vr1 = vr_vps vr /\ vr_sp vr1 = vr_sp vr) as [Ev Es]
    by (unfold vr1; by case_bool_decide).
  clearbody vr1. apply bind_ok in Hc as ([vr2 j] & Hc & Hr2).
  assert (forall v, vr_vps v = vr_vps vr1 -> record_ok v) as Hok
    by (intros v E n x; rewrite E, Ev; apply Hr).
  apply countFromVoted_cases in Hc as [[-> Hvr]|(vp & sfs & m & ex & -> & -> & Hn)]; simplify_eq.
  - split; [|done]. apply Hok. by destruct Hvr as [->|(? & ? & ->)].
  - split; [by apply Hok|]. apply Forall_app. split; [done|]. apply Forall_singleton.
    eapply counted_sendable; [|exact Hn]. by rewrite Es.
Qed.

Lemma vr_countHolded_sendable env vr local last d vr' l vps :
  env_ok env -> record_ok vr -> vr_countHolded env vr local last d = Ok (vr', l, vps) ->
  record_ok vr' /\ Forall sendable vps.
Proof.
  intros He Hr. unfold vr_countHolded. destruct (vr_countAfter vr); [|by intros [= <- _ <-]].
  destruct (_ <? _); [by intros [= <- _ <-]|]. by apply vr_count_sendable.
Qed.

(** *** The operations of the box *)
Lemma box_vote_good env pick sf vp expels b r b' :
  (forall v, vp = Some v -> sendable v) ->
  box_vote env pick sf vp expels b = Ok (r, b') -> box_good b b'.
Proof.
  intros Hvp. unfold box_vote. destruct (negb _); [intros [= _ <-]; reflexivity|].
  rewrite bind_ok. intros ([l b1] & H1 & H). apply bind_ok in H as (vr & Hvr & H).
  apply bind_ok in H as ([[vr' learned] r'] & Hv & H). apply record_at_ok in Hvr.
  apply good_newVoterecords in H1.
  assert (box_good b (learn learned (put_record l vr' b1))) as Hg.
  { etrans; [exact H1|]. etrans; [|apply good_learn]. apply good_put. intros Hb1.
    eapply vr_vote_record_ok; [|exact Hvp|exact Hv]. by apply (inv_records _ Hb1 l). }
  destruct r' as [[inV validated]|e|]; [by injection H as _ <-..|done].
Qed.

Lemma FilterSlice_Forall {A} (P : A -> Prop) s f : Forall P s -> Forall P (FilterSlice s f).
Proof. rewrite !Forall_forall. intros H x [? _]%FilterSlice_elem. auto. Qed.

Lemma clean_put_good b l b' : voterecordsPoolPut l b = Ok b' -> box_good b b'.
Proof.
  unfold voterecordsPoolPut. rewrite bind_ok. intros (vr & _ & [= <-]).
  etrans; [|apply good_pool]. apply good_put. intros _. by apply record_ok_empty.
Qed.

Lemma foldl_panic {B} (f : res Ballotbox -> B -> res Ballotbox) ls m b' :
  (forall m x b, f m x = Ok b -> exists b0, m = Ok b0 /\ box_good b0 b) ->
  foldl f m ls = Ok b' -> exists b, m = Ok b /\ box_good b b'.
Proof.
  intros Hf. revert m. induction ls as [|x ls IH]; intros m; simpl.
  - intros ->. exists b'. split; [done|reflexivity].
  - intros (b1 & Hb1 & Hg)%IH. apply Hf in Hb1 as (b0 & -> & Hg0). exists b0.
    split; [done|]. by etrans.
Qed.

Lemma clean_good env b b' : clean env b = Ok b' -> box_good b b'.
Proof.
  unfold clean. rewrite bind_ok. intros (b1 & H1 & H).
  apply foldl_panic in H1 as (b0 & [= <-] & Hg1).
  2:{ intros m x b2 (b0 & -> & Hp)%bind_ok. exists b0. split; [done|]. by apply clean_put_good in Hp. }
  etrans; [exact Hg1|]. destruct (_ || _); [injection H as <-; apply good_removed|].
  apply bind_ok in H as (removed & _ & H). apply bind_ok in H as (b2 & H2 & [= <-]).
  apply foldl_panic in H2 as (b0 & [= <-] & Hg2); [etrans; [exact Hg2|apply good_removed]|].
  intros m x b3 (b0 & -> & Hp)%bind_ok. exists b0. split; [done|].
  apply bind_ok in Hp as (vr & _ & [= <-]). apply good_vrs.
Qed.

Lemma countVoterecords_good env l b vps b' :
  env_ok env -> countVoterecords env l b = Ok (vps, b') -> box_good b b'.
Proof.
  intros He. unfold countVoterecords. rewrite bind_ok. intros (vr & Hvr & H).
  apply record_at_ok in Hvr. destruct (negb _); [injection H as _ <-; reflexivity|].
  apply bind_ok in H as ([[vr' learned] vps'] & Hc & H). intros Hb.
  destruct (vr_count_sendable _ _ _ _ _ _ _ _ _ He (inv_records _ Hb l vr Hvr) Hc) as [Hr Hs].
  assert (box_good b (learn learned (put_record l vr' b))) as Hg
    by (etrans; [by apply good_put|apply good_learn]).
  revert Hb. change (box_good b b'). etrans; [exact Hg|].
  destruct vps' as [|v vps2] eqn:Ev; [injection H as _ <-; reflexivity|]. rewrite <- Ev in *.
  cbv zeta in H. clear Hg. set (b1 := learn learned _) in *.
  set (filtered := match bx_lsp b1 with None => _ | Some last => _ end) in H.
  assert (Forall sendable filtered) as Hf
    by (unfold filtered; destruct (bx_lsp b1); [by apply FilterSlice_Forall|done]).
  apply bind_ok in H as (b2 & Hcl & [= _ <-]). apply clean_good in Hcl.
  etrans; [|exact Hcl]. etrans; [|by apply good_newVoteproofs].
  destruct (list.last filtered) as [lastvp|] eqn:El; [|reflexivity].
  apply good_SetLastPointFromVoteproof. rewrite Forall_forall in Hf. apply Hf.
  by eapply last_Some_elem_of.
Qed.

Lemma count_all_good env ls b r b' :
  env_ok env -> count_all env ls b = Ok (r, b') -> box_good b b'.
Proof.
  intros He. revert b r. induction ls as [|l ls IH]; intros b r; cbn [count_all].
  { intros [= _ <-]. reflexivity. }
  intros ([vps b1] & H1 & H)%bind_ok. apply bind_ok in H as ([has b2] & H2 & [= _ <-]).
  etrans; [by eapply countVoterecords_good|by eapply IH].
Qed.

Lemma hold_all_good env last ls b b' :
  env_ok env -> hold_all env last ls b = Ok b' -> box_good b b'.
Proof.
  intros He. revert b. induction ls as [|l ls IH]; intros b; cbn [hold_all].
  { intros [= <-]. reflexivity. }
  intros (vr & Hvr%record_at_ok & H)%bind_ok. apply bind_ok in H as ([[vr' learned] vps] & Hh & H).
  apply IH in H. intros Hb.
  destruct (vr_countHolded_sendable _ _ _ _ _ _ _ _ He (inv_records _ Hb l vr Hvr) Hh) as [Hr Hs].
  revert Hb. change (box_good b b'). etrans; [|exact H].
  etrans; [|by apply good_newVoteproofs]. etrans; [by apply good_put|apply good_learn].
Qed.

Lemma countHoldeds_good env b b' : env_ok env -> countHoldeds env b = Ok b' -> box_good b b'.
Proof. intros He (ls & _ & H)%bind_ok. by eapply hold_all_good. Qed.

Lemma vps_of_copyVoted env vr suf : vr_vps (copyVoted env vr suf).1 = vr_vps vr.
Proof. unfold copyVoted. by case_bool_decide. Qed.

Lemma vr_stuck_vps env vr th ex vr' r :
  vr_stuckVoteproof env vr th ex = Ok (vr', r) -> vr_vps vr' = vr_vps vr.
Proof.
  unfold vr_stuckVoteproof.
  destruct (StagePoint_IsZero _); [by intros [= <- _]|].
  destruct (isFinished vr); [by intros [= <- _]|].
  destruct (_ <? 1)%nat; [by intros [= <- _]|].
  destruct (_ && _); [by intros [= <- _]|].
  destruct (getSuffrage env vr) as [[[suf|]|]|e|]; [|by intros [= <- _]..|done].
  pose proof (vps_of_copyVoted env vr suf) as E.
  destruct (copyVoted env vr suf) as [vr1 voted]. simpl in E.
  destruct (stuck_from _ _ _ _ _ _); intros [= <- _] || done; done.
Qed.

(** A change of a record that keeps its voteproofs. *)
Lemma good_put_vps l vr vr' b :
  bx_heap b !! l = Some vr -> vr_vps vr' = vr_vps vr -> box_good b (put_record l vr' b).
Proof.
  intros Hl E. apply good_put. intros Hb n v. rewrite E. by apply (inv_records _ Hb l).
Qed.

Lemma StuckVoteproof_good env point ex b r b' :
  env_ok env -> StuckVoteproof env point ex b = Ok (r, b') -> box_good b b'.
Proof.
  intros He. unfold StuckVoteproof. destruct (_ <? 1)%nat; [intros [= _ <-]; reflexivity|].
  destruct (box_voterecords _ _ _) as [l|]; [|intros [= _ <-]; reflexivity].
  intros ([vps b1] & H1 & H)%bind_ok. apply bind_ok in H as (vr & Hvr%record_at_ok & H).
  apply bind_ok in H as ([vr' r'] & Hs & [= _ <-]).
  etrans; [by eapply countVoterecords_good|]. eapply good_put_vps; [done|]. by eapply vr_stuck_vps.
Qed.

Lemma MissingNodes_good env point b r b' :
  env_ok env -> MissingNodes env point b = Ok (r, b') -> box_good b b'.
Proof.
  intros He. unfold MissingNodes.
  destruct (box_voterecords _ _ _) as [l|]; [|intros [= _ <-]; reflexivity].
  intros (vr & _ & H)%bind_ok. destruct (isFinished vr); [injection H as _ <-; reflexivity|].
  apply bind_ok in H as ([vps b1] & H1 & H). apply bind_ok in H as (vr1 & Hvr%record_at_ok & H).
  apply countVoterecords_good in H1; [|done]. etrans; [exact H1|].
  destruct (isFinished vr1); [injection H as _ <-; reflexivity|].
  destruct (getSuffrage env vr1) as [[[suf|]|]|e|]; [|done|injection H as _ <-; reflexivity..|done].
  pose proof (vps_of_copyVoted env vr1 suf) as E.
  destruct (copyVoted env vr1 suf) as [vr' voted]. injection H as _ <-. by eapply good_put_vps.
Qed.

Lemma run_deferred_good env d b vps b' :
  env_ok env -> (forall l v, d = DVoteproof l v -> sendable v) ->
  run_deferred env d b = Ok (vps, b') -> box_good b b'.
Proof.
  intros He Hd. destruct d as [|l v|l]; cbn [run_deferred].
  - intros [= _ <-]. reflexivity.
  - intros (vr & _ & H)%bind_ok. apply bind_ok in H as ([learned ok] & _ & H).
    destruct ok; injection H as _ <-; [|apply good_learn].
    etrans; [apply good_learn|]. apply good_newVoteproof. by eapply Hd.
  - by apply countVoterecords_good.
Qed.

(** The calls of the box, in any order and under any environment; ballots and
    the voteproofs they leave to goroutines are valid ones. *)
Inductive box_step (b : Ballotbox) : Ballotbox -> Prop :=
  | bs_Vote env pick bl r b' :
      env_ok env -> vp_wf (bl_vp bl) -> Vote env pick bl b = Ok (r, b') -> box_step b b'
  | bs_VoteSignFact env pick sf r b' :
      env_ok env -> VoteSignFact env pick sf b = Ok (r, b') -> box_step b b'
  | bs_deferred env d vps b' :
      env_ok env -> (forall l v, d = DVoteproof l v -> vp_wf v) ->
      run_deferred env d b = Ok (vps, b') -> box_step b b'
  | bs_Count env r b' : env_ok env -> Count env b = Ok (r, b') -> box_step b b'
  | bs_countHoldeds env b' : env_ok env -> countHoldeds env b = Ok b' -> box_step b b'
  | bs_StuckVoteproof env point expels r b' :
      env_ok env -> StuckVoteproof env point expels b = Ok (r, b') -> box_step b b'
  | bs_MissingNodes env point r b' :
      env_ok env -> MissingNodes env point b = Ok (r, b') -> box_step b b'
  | bs_SetLastPoint p : last_ok p -> box_step b (SetLastPoint b p).2.

Lemma box_step_good b b' : box_step b b' -> box_good b b'.
Proof.
  intros [env pick bl r b1 He Hw H|env pick sf r b1 He H|env d vps b1 He Hd H|env r b1 He H
    |env b1 He H|env pt ex r b1 He H|env pt r b1 He H|p Hp].
  - apply bind_ok in H as (ok & _ & H). destruct ok; cbn [negb] in H; [|by simplify_eq].
    eapply box_vote_good; [|exact H]. intros v [= <-]. by apply vp_wf_sendable.
  - by eapply box_vote_good; [|exact H].
  - eapply run_deferred_good; [done| |exact H]. intros l v Ev. by eapply vp_wf_sendable, Hd.
  - apply bind_ok in H as (ls & _ & H). by eapply count_all_good.
  - by eapply countHoldeds_good.
  - by eapply StuckVoteproof_good.
  - by eapply MissingNodes_good.
  - apply good_SetLastPoint. by apply StagePoint_nonzero.
Qed.

Lemma box_steps_good b b' : rtc box_step b b' -> box_good b b'.
Proof. induction 1 as [|b b1 b2 H%box_step_good _ IH]; [reflexivity|by etrans]. Qed.

Lemma NewBallotbox_inv pool heap :
  (forall l vr, heap !! l = Some vr -> vr_vps vr = ∅) -> box_inv (NewBallotbox pool heap).
Proof. intros Hh. split; simpl; try done. intros l vr Hl. by eapply record_ok_empty, Hh. Qed.

(** C31: the box never goes back.  From a new box, along any calls in any order
    and environment: the height of the last point never decreases, nothing sent
    to the channel is lost, and every voteproof in it is finished and of a
    votable stage point. *)
Theorem ballotbox_never_goes_back (pool : list loc) (heap : gmap loc voterecords)
    (b b' : Ballotbox)
    (Hnew : forall l vr, heap !! l = Some vr -> vr_vps vr = ∅)
    (Hrun : rtc box_step (NewBallotbox pool heap) b) (Hrun' : rtc box_step b b') :
  (forall last, bx_lsp b = Some last ->
     exists last', bx_lsp b' = Some last' /\ sp_h (lp_sp last) <= sp_h (lp_sp last')) /\
  bx_vpch b `prefix_of` bx_vpch b' /\
  Forall (fun vp => Result vp <> VoteResultNotYet /\ StagePoint_IsZero (vp_point vp) = false)
    (bx_vpch b').
Proof.
  destruct (box_steps_good _ _ Hrun (NewBallotbox_inv pool heap Hnew)) as [Hb _].
  destruct (box_steps_good _ _ Hrun' Hb) as [Hb' [Hl Hp]]. split_and!; [done|done|].
  apply (inv_vpch _ Hb').
Qed.

Lemma fresh_not_in (b : Ballotbox) : bx_heap b !! fresh (dom (bx_heap b)) = None.
Proof. apply not_elem_of_dom, is_fresh. Qed.

Lemma box_newVoterecords_ok pick sp isc b :
  box_ok b -> bx_vrs b !! record_key sp isc = None ->
  exists l b' old, box_newVoterecords pick sp isc b = Ok (l, b') /\
    bx_vrs b' !! record_key sp isc = Some l /\ bx_lsp b' = bx_lsp b /\
    bx_heap b' !! l = Some (init_voterecords sp isc old).
Proof.
  intros (_ & _ & Hp) Hk. unfold box_newVoterecords, newVoterecords. rewrite Hk.
  destruct (pool_get pick b) as [l1 b1] eqn:E.
  assert (is_Some (bx_heap b1 !! l1) /\ bx_lsp b1 = bx_lsp b) as [[vr Hl] El].
  { unfold pool_get in E. destruct (pick ≫= _) as [[i l']|] eqn:Ei; injection E as <- <-.
    - split; [|done]. apply Hp. apply bind_Some in Ei as (i' & _ & Ei).
      apply bind_Some in Ei as (l2 & Hl2 & [= <- <-]). by eapply list_elem_of_lookup_2.
    - simpl. by rewrite lookup_insert_eq. }
  cbn. unfold record_at. rewrite Hl. cbn. exists l1, (set_vrs (<[record_key sp isc:=l1]>
    (bx_vrs b1)) (put_record l1 (init_voterecords sp isc vr) b1)), vr.
  split; [done|]. simpl. by rewrite !lookup_insert_eq.
Qed.

(** A vote is counted without looking at the public key.  Once the suffrage
    is known, the first sign fact that names a node is counted for it, whoever
    signed it; the later one of the node itself is refused, and a plain
    voteproof that carries the wrong one is refused by every node. *)
Theorem vote_ignores_publickey (env : Env) (pick : option nat) (b : Ballotbox)
    (sf : BallotSignFact) (suf : Suffrage)
    (Hbox : box_ok b)
    (Hpoint : StagePoint_IsZero (Fact_Point (sf_fact sf)) = false)
    (Hnew : isNewBallot b (Fact_Point (sf_fact sf))
              (IsSuffrageConfirmBallotFact (Some (sf_fact sf))) = true)
    (Hnone : bx_vrs b !! record_key (Fact_Point (sf_fact sf))
               (IsSuffrageConfirmBallotFact (Some (sf_fact sf))) = None)
    (Hsuf : e_getSuffrage env (Height_SafePrev (sp_h (Fact_Point (sf_fact sf)))) = Ok (Some (Some suf))) :
  exists l b' vr, VoteSignFact env pick sf b = Ok (Ok (true, DCount l), b') /\
    bx_heap b' !! l = Some vr /\ vr_voted vr = {[sf_node sf := sf]} /\
    (forall env' pick' sf', sf_node sf' = sf_node sf ->
       Fact_Point (sf_fact sf') = Fact_Point (sf_fact sf) ->
       IsSuffrageConfirmBallotFact (Some (sf_fact sf'))
         = IsSuffrageConfirmBallotFact (Some (sf_fact sf)) ->
       exists b'', VoteSignFact env' pick' sf' b' = Ok (Ok (false, DNone), b'')) /\
    (Suffrage_ExistsPublickey suf (sf_node sf) (sf_signer sf) = false ->
     forall undef vp, sf ∈ vp_sfs vp -> HasExpels vp = false ->
       IsValidVoteproofWithSuffrage undef vp suf <> Ok tt).
Proof.
  set (sp := Fact_Point (sf_fact sf)) in *.
  set (isc := IsSuffrageConfirmBallotFact (Some (sf_fact sf))) in *.
  destruct (box_newVoterecords_ok pick sp isc b Hbox Hnone) as (l & b1 & old & En & Hk & El & Hl).
  assert (Before (box_LastPoint b) sp isc = true) as Hbefore.
  { unfold isNewBallot in Hnew. unfold box_LastPoint. by destruct (bx_lsp b). }
  set (vr' := set_voted {[sf_node sf := sf]} (init_voterecords sp isc old)).
  set (b' := learn [] (put_record l vr' b1)).
  exists l, b', vr'. split_and!.
  - unfold VoteSignFact, box_vote. fold sp isc. rewrite Hnew. cbn [negb]. rewrite En.
    cbn [mbind res_bind]. rewrite (proj2 (record_at_ok b1 l _) Hl). cbn [mbind res_bind].
    unfold vr_vote. cbn [vr_sp init_voterecords vr_isc]. rewrite Hpoint.
    replace (box_LastPoint b1) with (box_LastPoint b) by (unfold box_LastPoint; by rewrite El).
    rewrite Hbefore. cbn [negb isFinished vr_vp init_voterecords].
    rewrite (proj2 (isVoted_false _ _)) by (simpl; by rewrite !lookup_empty).
    cbn. unfold getSuffrage, getSuffrageFunc. cbn. by rewrite Hsuf.
  - simpl. by rewrite lookup_insert_eq.
  - done.
  - intros env' pick' sf' En' Ep' Ei'. unfold VoteSignFact, box_vote. rewrite Ep', Ei'. fold sp isc.
    assert (isNewBallot b' sp isc = true) as -> by (unfold isNewBallot in *; simpl; by rewrite El).
    cbn [negb]. unfold box_newVoterecords.
    assert (bx_vrs b' !! record_key sp isc = Some l) as -> by done. cbn [mbind res_bind].
    rewrite (proj2 (record_at_ok b' l vr')) by (simpl; by rewrite lookup_insert_eq).
    cbn [mbind res_bind]. unfold vr_vote. rewrite En'.
    assert (isVoted vr' (sf_node sf) = true) as ->.
    { unfold isVoted. rewrite !orb_true_iff, !bool_decide_eq_true. right. simpl.
      rewrite lookup_singleton_eq. by eexists. }
    destruct (StagePoint_IsZero (vr_sp vr')); [by eexists|].
    destruct (negb (Before _ _ _)); [by eexists|]. simpl. by eexists.
  - intros Hkey undef vp Hin He Hv. apply withSuffrage_no_expels in Hv; [|done].
    unfold base_IsValidVoteproofWithSuffrage in Hv. rewrite bind_err_ok, guard_err_ok in Hv.
    destruct Hv as [Hv _]. rewrite negb_false_iff, forallb_forall in Hv.
    specialize (Hv sf). rewrite Hkey, andb_false_r in Hv.
    discriminate Hv. by apply list_elem_of_In.
Qed.

(** A recycled record does not hold a draw.  A new record holds the first
    draw of an INIT stage with expels in sight; the hold time left in a record
    of the pool is not reset, so once it is past, the record taken from the pool
    declares the draw at once. *)
Theorem recycled_record_skips_hold (env : Env) (b : Ballotbox) (l : loc) (vr : voterecords)
    (sp : StagePoint) (isc : bool) (t d : Z)
    (Hrecord : bx_heap b !! l = Some vr) (Hheld : vr_countAfter vr = Some t)
    (Hpast : t + d <= e_now env) (Hstage : sp_stage sp = StageINIT)
    (Hnone : bx_vrs b !! record_key sp isc = None) :
  exists b1 b2 b3 l' vr2 vr3, voterecordsPoolPut l b = Ok b1 /\
    box_newVoterecords (Some 0%nat) sp isc b1 = Ok (l, b2) /\ bx_heap b2 !! l = Some vr2 /\
    holds env vr2 true d = false /\
    box_newVoterecords None sp isc b1 = Ok (l', b3) /\ bx_heap b3 !! l' = Some vr3 /\
    holds env vr3 true d = true.
Proof.
  set (b1 := set_pool (l :: bx_pool b) (put_record l (reset_voterecords vr) b)).
  destruct (box_newVoterecords_pool b1 0 l (reset_voterecords vr) sp isc) as (b2 & E2 & _ & _ & H2).
  { done. } { done. } { simpl. by rewrite lookup_insert_eq. }
  eexists b1, b2, _, _, _, _. split_and!.
  - unfold voterecordsPoolPut. by rewrite (proj2 (record_at_ok b l vr) Hrecord).
  - exact E2.
  - exact H2.
  - unfold holds. simpl. rewrite Hstage, Hheld, bool_decide_eq_true_2 by done. simpl.
    apply Z.ltb_ge. lia.
  - unfold box_newVoterecords, newVoterecords, pool_get. simpl. rewrite Hnone. cbn.
    unfold record_at. simpl. rewrite lookup_insert_eq. reflexivity.
  - simpl. by rewrite lookup_insert_eq.
  - unfold holds. simpl. by rewrite Hstage, bool_decide_eq_true_2.
Qed.

(** ** Witnesses *)
Definition demo_last (r : Z) : LastPoint :=
  {| lp_sp := NewStagePoint (RawPoint 33 r) StageINIT; lp_isMajority := false;
     lp_isSuffrageConfirm := false |}.

(** A box with one suffrage confirm record at round 0, nine rounds later. *)
Definition demo_box : Ballotbox :=
  {| bx_heap := {[0%nat := init_voterecords demo_sp true zero_voterecords]};
     bx_vrs := {[record_key demo_sp true := 0%nat]}; bx_lsp := Some (demo_last 9); bx_lvp := None;
     bx_removed := None; bx_pool := []; bx_vpch := []; bx_learned := [] |}.

Lemma demo_box_ok : box_ok demo_box.
Proof.
  split_and!; simpl.
  - intros k l Hl. apply lookup_singleton_Some in Hl as [_ <-]. by eexists.
  - intros l []%not_elem_of_nil.
  - intros l []%not_elem_of_nil.
Qed.

Lemma suffrage_confirm_record_leaks_witness :
  exists b1 b2, clean (demo_env None) demo_box = Ok b1 /\ clean (demo_env None) b1 = Ok b2 /\
    0%nat ∈ bx_pool b2.
Proof.
  destruct (suffrage_confirm_record_leaks (demo_env None) demo_box demo_sp 0%nat
    (init_voterecords demo_sp true zero_voterecords) (demo_env_ok None) demo_box_ok)
    as (b1 & b2 & b3 & E1 & E2 & _ & _ & Hp & _).
  - vm_compute. reflexivity.
  - vm_compute. reflexivity.
  - vm_compute. reflexivity.
  - reflexivity.
  - vm_compute. discriminate.
  - eauto.
Defined.

Lemma ballotbox_never_goes_back_witness :
  let b := (SetLastPoint (NewBallotbox [] ∅) (demo_last 3)).2 in
  let b' := (SetLastPoint b (demo_last 5)).2 in
  exists last', bx_lsp b' = Some last' /\ sp_h (lp_sp (demo_last 3)) <= sp_h (lp_sp last').
Proof.
  intros b b'.
  apply (ballotbox_never_goes_back [] ∅ b b').
  - intros l vr Hl. by rewrite lookup_empty in Hl.
  - apply rtc_once. apply bs_SetLastPoint. split; [vm_compute; discriminate|reflexivity].
  - apply rtc_once. apply bs_SetLastPoint. split; [vm_compute; discriminate|reflexivity].
  - vm_compute. reflexivity.
Defined.

(** Somebody else's key under the address of [n0]. *)
Definition demo_impostor : BallotSignFact :=
  {| sf_type := INITBallotSignFact; sf_fact := demo_init_fact 0 "f";
     sf_sign := {| ns_node := "n0"; ns_signer := "pk-evil"; ns_signature := "sig" |} |}.

Lemma vote_ignores_publickey_witness :
  exists l b' vr, VoteSignFact (demo_env (Some demo_suffrage)) None demo_impostor (NewBallotbox [] ∅)
      = Ok (Ok (true, DCount l), b') /\
    bx_heap b' !! l = Some vr /\ vr_voted vr = {["n0" := demo_impostor]}.
Proof.
  destruct (vote_ignores_publickey (demo_env (Some demo_suffrage)) None (NewBallotbox [] ∅)
    demo_impostor demo_suffrage) as (l & b' & vr & E & Hl & Hv & _).
  - split_and!; simpl; [intros k l Hl; by rewrite lookup_empty in Hl|intros l []%not_elem_of_nil..].
  - vm_compute. reflexivity.
  - reflexivity.
  - reflexivity.
  - reflexivity.
  - eauto 10.
Defined.

Lemma recycled_record_skips_hold_witness :
  let held := set_hold (Some 10) DefaultThreshold zero_voterecords in
  let b := put_record 7%nat held (NewBallotbox [] ∅) in
  exists b1 b2 vr2, voterecordsPoolPut 7%nat b = Ok b1 /\
    box_newVoterecords (Some 0%nat) demo_sp false b1 = Ok (7%nat, b2) /\
    bx_heap b2 !! 7%nat = Some vr2 /\ holds (demo_env None) vr2 true 5 = false.
Proof.
  intros held b.
  destruct (recycled_record_skips_hold (demo_env None) b 7%nat held demo_sp false 10 5)
    as (b1 & b2 & b3 & l' & vr2 & vr3 & E1 & E2 & H2 & H3 & _).
  - reflexivity.
  - reflexivity.
  - vm_compute. discriminate.
  - reflexivity.
  - reflexivity.
  - eauto 10.
Defined.
