(* ===== verification/FixedTree.v ===== *)
(** * Hash trees and their proofs ([util/fixedtree])

    [node.go], [tree.go], [writer.go], [proof.go].  A tree is its nodes in level
    order; the hash of a node covers its key and the hashes of its children.

    A node is a [BaseNode]; [None] is a nil node.  A hash is its bytes: the code
    compares hashes by their bytes only.  SHA-256 and the validity of a hash are
    the class [TreeHash].

    The code computes levels with [math.Log] and [math.Pow] on float64.  Powers
    of two are exact there, and the truncated quotient of logarithms is
    [floor (log2 (index + 1))] for every index below [max_size], far over any
    tree that fits in memory; the model uses the integer logarithm and the
    theorems are for trees below that size. *)
From S2P Require Import Prelude Slice.

Open Scope Z_scope.

Definition max_size : Z := 2 ^ 46.

Class TreeHash := {
  sha256 : string -> string;
  hash_IsValid : string -> err
}.

(** ** Nodes *)
Record BaseNode := { n_h : option string; n_key : string; n_isempty : bool }.
#[global] Instance BaseNode_eq_dec : EqDecision BaseNode.
Proof. solve_decision. Defined.

Abbreviation Node := (option BaseNode).

Definition NewBaseNode (key : string) : BaseNode := {| n_h := None; n_key := key; n_isempty := false |}.
Definition EmptyBaseNode : BaseNode := {| n_h := None; n_key := ""; n_isempty := true |}.

(** [Hash]: [None] is the nil hash; that of an empty node has no bytes. *)
Definition Node_Hash (n : BaseNode) : option string := if n_isempty n then Some "" else n_h n.
Definition SetHash (n : BaseNode) (h : option string) : BaseNode :=
  {| n_h := h; n_key := n_key n; n_isempty := n_isempty n |}.

Definition Node_Equal (n : BaseNode) (b : Node) : bool :=
  match b with
  | None => false
  | Some b =>
      if n_isempty n || n_isempty b then n_isempty n && n_isempty b
      else if negb (bool_decide (n_key n = n_key b)) then false
      else match Node_Hash n, Node_Hash b with
      | None, None => true
      | Some x, Some y => bool_decide (x = y)
      | _, _ => false
      end
  end.

(** [n.Hash().Equal(h)] and [n.Hash().Bytes()]: a nil hash panics. *)
Definition Hash_Equal (n : BaseNode) (h : string) : res bool :=
  match Node_Hash n with Some x => Ok (bool_decide (x = h)) | None => Panic end.
Definition Hash_Bytes (n : Node) : res string :=
  match n with
  | None => Ok ""
  | Some n => match Node_Hash n with Some h => Ok h | None => Panic end
  end.

(** ** Indices *)
Definition indexHeight (index : Z) : Z := if index =? 0 then 0 else Z.log2 (index + 1).

Definition children (size index : Z) : res (Z * Z) :=
  let height := indexHeight index in
  let currentFirst := 2 ^ height - 1 in
  let pos := wrap_u 64 (index - currentFirst) in
  let nextFirst := 2 ^ (height + 1) - 1 in
  let i := wrap_u 64 (nextFirst + pos * 2) in
  if size <=? i then Err "no children"
  else Ok (i, wrap_u 64 (nextFirst + pos * 2 + 1)).

Definition parent (index : Z) : res Z :=
  let height := indexHeight index in
  if height =? 0 then Err "no parent"
  else
    let currentFirst := 2 ^ height - 1 in
    let pos0 := wrap_u 64 (index - currentFirst) in
    let pos := if pos0 mod 2 =? 1 then pos0 - 1 else pos0 in
    let upFirst := 2 ^ (height - 1) - 1 in
    Ok (wrap_u 64 (upFirst + pos / 2)).

Definition len (nodes : list Node) : Z := Z.of_nat (length nodes).
(** [nodes[index]]; out of range panics. *)
Definition node_at (nodes : list Node) (index : Z) : res Node :=
  match nodes !! Z.to_nat index with Some n => Ok n | None => Panic end.

Definition childrenNodes (nodes : list Node) (index : Z) : res (Node * Node) :=
  children (len nodes) index ≫= fun '(i0, i1) =>
  (if len nodes <=? i0 then Ok None else node_at nodes i0) ≫= fun c0 =>
  (if len nodes <=? i1 then Ok None else node_at nodes i1) ≫= fun c1 =>
  Ok (c0, c1).

(** [childrenNodes] where having no children is fine. *)
Definition childrenOrNone (nodes : list Node) (index : Z) : res (Node * Node) :=
  match childrenNodes nodes index with
  | Err e => if bool_decide (e = "no children"%string) then Ok (None, None) else Err e
  | r => r
  end.

Section Operations.
Context `{TreeHash}.

Definition nodeHash (self : BaseNode) (lch rch : Node) : res string :=
  if (String.length (n_key self) <? 1)%nat then Err "empty key"
  else
    Hash_Bytes lch ≫= fun lh =>
    Hash_Bytes rch ≫= fun rh =>
    Ok (sha256 (n_key self +:+ lh +:+ rh)).

Definition Node_IsValid (n : BaseNode) : err :=
  if n_isempty n then Ok tt
  else if (String.length (n_key n) <? 1)%nat then Err "empty key"
  else match n_h n with
  | None => Err "empty hash"
  | Some h => hash_IsValid h
  end.

(** ** Tree *)

(** One round of the traversal of [Tree.IsValid]. *)
Definition Tree_check (nodes : list Node) (index : nat) (n : BaseNode) : err :=
  Node_IsValid n ≫= fun _ =>
  childrenOrNone nodes (Z.of_nat index) ≫= fun '(c0, c1) =>
  nodeHash n c0 c1 ≫= fun h =>
  Hash_Equal n h ≫= fun eq =>
  guard_err (negb eq) "hash does not match".

Fixpoint Traverse (index : nat) (nodes : list Node) (f : nat -> BaseNode -> err) : err :=
  match nodes with
  | [] => Ok tt
  | None :: _ => Err "empty node found"
  | Some n :: l => f index n ≫= fun _ => Traverse (S index) l f
  end.

(** [hint_IsValid] is the check of the type hint. *)
Definition Tree_IsValid (hint_IsValid : err) (nodes : list Node) : err :=
  if (length nodes <? 1)%nat then Ok tt
  else hint_IsValid ≫= fun _ => Traverse 0 nodes (Tree_check nodes).

Definition Tree_Node (nodes : list Node) (index : Z) : res Node :=
  if len nodes <=? index then Ok None else node_at nodes index.

Definition Tree_Root (nodes : list Node) : res (option string) :=
  match nodes with
  | Some n :: _ => Ok (Node_Hash n)
  | _ => Panic
  end.

Definition Tree_Set (nodes : list Node) (index : Z) (n : Node) : res (list Node) :=
  if len nodes <=? index then Err "over size" else Ok (<[Z.to_nat index := n]> nodes).

(** ** Writer *)
Definition NewWriter (size : nat) : res (list Node) :=
  if (size <? 1)%nat then Err "zero size" else Ok (replicate size None).

Definition Add (nodes : list Node) (index : Z) (n : BaseNode) : res (list Node) :=
  if len nodes <=? index then Err "out of range"
  else Ok (<[Z.to_nat index := Some (SetHash n None)]> nodes).

(** [shrinkNodes] takes out the nil nodes, one shift at a time. *)
Fixpoint shrinkNodes (nodes : list Node) : list Node :=
  match nodes with
  | [] => []
  | None :: l => shrinkNodes l
  | Some n :: l => Some n :: shrinkNodes l
  end.

Definition generateNodeHash (w : Z -> BaseNode -> err) (index : nat) (nodes : list Node)
    : res (list Node) :=
  match nodes !! index with
  | None => Panic
  | Some None => Err "empty node"
  | Some (Some n) =>
      childrenOrNone nodes (Z.of_nat index) ≫= fun '(c0, c1) =>
      nodeHash n c0 c1 ≫= fun h =>
      let n' := SetHash n (Some h) in
      w (Z.of_nat index) n' ≫= fun _ => Ok (<[index := Some n']> nodes)
  end.

(** [generateNodesHash]: from the last index to the first. *)
Fixpoint generate_loop (w : Z -> BaseNode -> err) (k : nat) (nodes : list Node) : res (list Node) :=
  match k with
  | O => Ok nodes
  | S k => generateNodeHash w k nodes ≫= generate_loop w k
  end.
Definition generateNodesHash (w : Z -> BaseNode -> err) (nodes : list Node) : res (list Node) :=
  generate_loop w (length nodes) nodes.

(** [Writer.Write]: the nodes when it succeeds. *)
Definition Write (w : Z -> BaseNode -> err) (nodes0 : list Node) : res (list Node) :=
  let nodes := shrinkNodes nodes0 in
  match nodes with
  | Some n :: _ =>
      match Node_Hash n with
      | None => generateNodesHash w nodes
      | Some _ => Ok nodes
      end
  | _ => Ok nodes
  end.

Definition Writer_Tree (nodes0 : list Node) : res (list Node) :=
  Write (fun _ _ => Ok tt) nodes0 ≫= fun nodes =>
  if (length nodes <? 1)%nat then Err "empty nodes" else Ok nodes.

(** ** Proofs *)

Fixpoint find_key (i : nat) (nodes : list Node) (key : string) : res (option nat) :=
  match nodes with
  | [] => Ok None
  | None :: _ => Panic
  | Some n :: l => if bool_decide (n_key n = key) then Ok (Some i) else find_key (S i) l key
  end.

(** Writing to [extracted]; out of range panics. *)
Definition arr_set (i : nat) (n : Node) (arr : list Node) : res (list Node) :=
  if (i <? length arr)%nat then Ok (<[i := n]> arr) else Panic.

(** The loop of [ExtractProofMaterial], at the ancestor [l] of [index]. *)
Fixpoint extract_loop (fuel : nat) (nodes : list Node) (index : Z) (i : nat) (l : Z)
    (extracted : list Node) : res (list Node) :=
  match fuel with
  | O => Panic
  | S fuel =>
      match childrenNodes nodes l with
      | Panic => Panic
      | Err e =>
          if bool_decide (e = "no children"%string) then
            if negb (l =? index) then Err e
            else arr_set (i * 2) (Some EmptyBaseNode) extracted
                   ≫= arr_set (i * 2 + 1) (Some EmptyBaseNode)
          else Err e
      | Ok (c0, c1) =>
          if (2 <=? i * 2)%nat && bool_decide (c0 = None) && bool_decide (c1 = None)
          then Err "empty children found"
          else arr_set (i * 2) c0 extracted
                 ≫= arr_set (i * 2 + 1) (match c1 with None => Some EmptyBaseNode | _ => c1 end)
      end ≫= fun extracted =>
      match parent l with
      | Ok j => extract_loop fuel nodes index (S i) j extracted
      | Err e =>
          if bool_decide (e = "no parent"%string) then
            node_at nodes l ≫= fun root => arr_set (length extracted - 1) root extracted
          else Err e
      | Panic => Panic
      end
  end.

Definition ExtractProofMaterial (nodes : list Node) (key : string) : res (list Node) :=
  if (length nodes <? 1)%nat then Err "empty tree"
  else
    find_key 0 nodes key ≫= fun found =>
    match found with
    | None => Err "key not found"
    | Some index =>
        let height := Z.to_nat (indexHeight (Z.of_nat index)) in
        extract_loop (S height) nodes (Z.of_nat index) 0 (Z.of_nat index)
          (replicate ((height + 1) * 2 + 1) None) ≫= fun extracted =>
        match list.last extracted with
        | Some (Some _) => Ok extracted
        | _ => Err "empty root node found"
        end
    end.

(** *** Validity of a proof *)
Fixpoint Proof_check (i : nat) (nodes : list Node) : err :=
  match nodes with
  | [] => Ok tt
  | None :: l => if (2 <? i)%nat then Err "empty node found" else Proof_check (S i) l
  | Some n :: l => Node_IsValid n ≫= fun _ => Proof_check (S i) l
  end.

(** [IsDuplicatedSlice] over the nodes: a nil node panics, an empty one is
    given a random key, which repeats none. *)
Fixpoint dup_nodes (keyf : BaseNode -> res string) (m : gset string) (nodes : list Node) : res bool :=
  match nodes with
  | [] => Ok false
  | None :: _ => Panic
  | Some n :: l =>
      if n_isempty n then dup_nodes keyf m l
      else keyf n ≫= fun k => if decide (k ∈ m) then Ok true else dup_nodes keyf ({[k]} ∪ m) l
  end.

Definition Proof_IsValid (nodes : list Node) : err :=
  if (length nodes <? 1)%nat then Err "empty extracted"
  else if negb (length nodes mod 2 =? 1)%nat then Err "invalid number of extracted"
  else
    Proof_check 0 nodes ≫= fun _ =>
    dup_nodes (fun n => Ok (n_key n)) ∅ nodes ≫= fun dup =>
    guard_err dup "duplicated key found" ≫= fun _ =>
    dup_nodes (fun n => Hash_Bytes (Some n)) ∅ nodes ≫= fun dup =>
    guard_err dup "duplicated hash found".

(** *** Proving a key *)

(** [filterNodes]: the pair before the pair of the key, and all from there. *)
Fixpoint find_proof_key (i : nat) (nodes : list Node) (key : string) : option nat :=
  match nodes with
  | [] => None
  | None :: l => find_proof_key (S i) l key
  | Some n :: l => if bool_decide (n_key n = key) then Some i else find_proof_key (S i) l key
  end.

Definition two_before (nodes : list Node) (i from : nat) : list Node :=
  if (1 <? i)%nat then take 2 (drop from nodes) else [None; None].

Definition filterNodes (nodes : list Node) (key : string) : list Node :=
  match find_proof_key 0 nodes key with
  | None => []
  | Some i =>
      if (i mod 2 =? 0)%nat then two_before nodes i (i - 2) ++ drop i nodes
      else if (i + 1 =? length nodes)%nat then two_before nodes i (i - 2) ++ take 1 (drop i nodes)
      else two_before nodes i (i - 3) ++ drop (i - 1) nodes
  end.

(** Whether one of the parents has the hash of the pair. *)
Fixpoint any_parent (parents : list Node) (lch rch : Node) : res bool :=
  match parents with
  | [] => Ok false
  | None :: _ => Panic
  | Some p :: l =>
      if n_isempty p then any_parent l lch rch
      else
        nodeHash p lch rch ≫= fun h =>
        Hash_Equal p h ≫= fun eq =>
        if eq : bool then Ok true else any_parent l lch rch
  end.

(** The loop of [Prove] over the pairs; the last round has a single parent. *)
Fixpoint prove_loop (fuel : nat) (nodes : list Node) : err :=
  match fuel with
  | O => Ok tt
  | S fuel =>
      match nodes with
      | lch :: rch :: rest =>
          any_parent (take (if (4 <? length nodes)%nat then 2 else 1) rest) lch rch ≫= fun passed =>
          if negb passed then Err "hash does not match" else prove_loop fuel rest
      | _ => Ok tt
      end
  end.

Definition Prove (proof : list Node) (key : string) : err :=
  let nodes := filterNodes proof key in
  if (length nodes <? 1)%nat then Err "key not found"
  else prove_loop ((length nodes - 1) / 2) nodes.

End Operations.

(** ** Indices: children and parent are inverse *)
Lemma indexHeight_log2 i : 0 <= i -> indexHeight i = Z.log2 (i + 1).
Proof. intros Hi. unfold indexHeight. destruct (Z.eqb_spec i 0) as [->|]; done. Qed.

Lemma indexHeight_pow i :
  0 <= i -> 2 ^ indexHeight i <= i + 1 < 2 ^ (indexHeight i + 1) /\ 0 <= indexHeight i.
Proof.
  intros Hi. rewrite indexHeight_log2 by done.
  pose proof (Z.log2_spec (i + 1) ltac:(lia)). pose proof (Z.log2_nonneg (i + 1)).
  rewrite Z.add_1_r at 2. rewrite <- Z.add_1_r in *. split; [|done].
  replace (Z.log2 (i + 1) + 1) with (Z.succ (Z.log2 (i + 1))) by lia. lia.
Qed.

Lemma children_spec size i :
  0 <= i < max_size ->
  children size i = if size <=? 2 * i + 1 then Err "no children" else Ok (2 * i + 1, 2 * i + 2).
Proof.
  intros Hi. unfold max_size in Hi. destruct (indexHeight_pow i) as [Hp Hh]; [lia|].
  unfold children. rewrite !Z.pow_add_r in * by lia. change (2 ^ 1) with 2 in *.
  rewrite !(wrap_u_small 64) by (rewrite ?wrap_u_small by lia; lia).
  replace (2 ^ indexHeight i * 2 - 1 + (i - (2 ^ indexHeight i - 1)) * 2) with (2 * i + 1) by lia.
  replace (2 * i + 1 + 1) with (2 * i + 2) by lia. done.
Qed.

Lemma indexHeight_zero i : 0 <= i -> indexHeight i = 0 <-> i = 0.
Proof.
  intros Hi. split; [|by intros ->]. intros E. destruct (indexHeight_pow i) as [Hp _]; [done|].
  rewrite E in Hp. simpl in Hp. lia.
Qed.

Lemma parent_spec i :
  0 <= i < max_size -> parent i = if i =? 0 then Err "no parent" else Ok ((i - 1) / 2).
Proof.
  intros Hi. unfold max_size in Hi. destruct (indexHeight_pow i) as [Hp Hh]; [lia|].
  unfold parent. destruct (Z.eqb_spec (indexHeight i) 0) as [E|E].
  { apply indexHeight_zero in E as ->; [done|lia]. }
  destruct (Z.eqb_spec i 0) as [->|Hne]; [done|].
  assert (2 ^ indexHeight i = 2 * 2 ^ (indexHeight i - 1)) as Hpow.
  { rewrite <- Z.pow_succ_r by lia. f_equal. lia. }
  rewrite Z.pow_add_r in Hp by lia. change (2 ^ 1) with 2 in Hp.
  assert (0 < 2 ^ (indexHeight i - 1)) by (apply Z.pow_pos_nonneg; lia).
  rewrite (wrap_u_small 64 (i - _)) by lia. f_equal.
  set (q := 2 ^ (indexHeight i - 1)) in *. rewrite Hpow in *. clearbody q.
  destruct (Z.eqb_spec ((i - (2 * q - 1)) mod 2) 1); rewrite wrap_u_small; div_lia.
Qed.

Lemma parent_range i p : 0 <= i < max_size -> parent i = Ok p -> 0 <= p < i.
Proof.
  intros Hi. rewrite parent_spec by done. destruct (Z.eqb_spec i 0); [done|].
  intros [= <-]. div_lia.
Qed.

Lemma indexHeight_parent i p :
  0 <= i < max_size -> parent i = Ok p -> indexHeight i = indexHeight p + 1.
Proof.
  intros Hi Hp. pose proof (parent_range _ _ Hi Hp). rewrite parent_spec in Hp by done.
  destruct (Z.eqb_spec i 0); [done|]. injection Hp as <-. rewrite !indexHeight_log2 by lia.
  assert (i = 2 * ((i - 1) / 2) + 1 \/ i = 2 * ((i - 1) / 2) + 2) as [E|E] by div_lia;
    set (p := (i - 1) / 2) in *; rewrite E.
  - replace (2 * p + 1 + 1) with (2 * (p + 1)) by lia. rewrite Z.log2_double by lia. lia.
  - replace (2 * p + 2 + 1) with (2 * (p + 1) + 1) by lia. rewrite Z.log2_succ_double by lia. lia.
Qed.

(** ** Trees whose hashes match *)

(** The node at an index, nil out of range. *)
Definition kid (nodes : list Node) (i : Z) : Node :=
  match nodes !! Z.to_nat i with Some n => n | None => None end.

Lemma kid_out nodes i : len nodes <= i -> kid nodes i = None.
Proof. intros Hi. unfold kid, len in *. by rewrite lookup_ge_None_2 by lia. Qed.

Lemma node_at_kid nodes i : 0 <= i < len nodes -> node_at nodes i = Ok (kid nodes i).
Proof.
  unfold node_at, kid, len. intros Hi.
  destruct (lookup_lt_is_Some_2 nodes (Z.to_nat i)) as [n ->]; [lia|done].
Qed.

Lemma childrenNodes_spec nodes i :
  0 <= i < max_size ->
  childrenNodes nodes i = if len nodes <=? 2 * i + 1 then Err "no children"
                          else Ok (kid nodes (2 * i + 1), kid nodes (2 * i + 2)).
Proof.
  intros Hi. unfold childrenNodes. rewrite children_spec by done.
  destruct (Z.leb_spec (len nodes) (2 * i + 1)) as [|Hl]; [done|]. run.
  destruct (Z.leb_spec (len nodes) (2 * i + 1)); [lia|].
  rewrite (node_at_kid nodes (2 * i + 1)) by lia. run.
  destruct (Z.leb_spec (len nodes) (2 * i + 2)).
  - run. by rewrite (kid_out nodes (2 * i + 2)).
  - by rewrite node_at_kid by lia.
Qed.

Lemma childrenOrNone_spec nodes i :
  0 <= i < max_size ->
  childrenOrNone nodes i = Ok (kid nodes (2 * i + 1), kid nodes (2 * i + 2)).
Proof.
  intros Hi. unfold childrenOrNone. rewrite childrenNodes_spec by done.
  destruct (Z.leb_spec (len nodes) (2 * i + 1)) as [|Hl]; [|done].
  rewrite bool_decide_eq_true_2 by done. by rewrite !kid_out by lia.
Qed.

(** SHA-256 gives 32 bytes. *)
Class TreeHashLaws `{TreeHash} := {
  sha256_length : forall s, String.length (sha256 s) = 32%nat
}.

Section Hashes.
Context `{TreeHashLaws}.

(** The keys in order. *)
Definition node_keys (nodes : list Node) : list (option string) :=
  (fun n : Node => n_key <$> n) <$> nodes.

(** The node at [i] is a real one whose hash covers its key and its children. *)
Definition hashed (nodes : list Node) (i : nat) : Prop :=
  exists n h, nodes !! i = Some (Some n) /\ n_isempty n = false /\ n_key n <> "" /\
    n_h n = Some h /\
    nodeHash n (kid nodes (2 * Z.of_nat i + 1)) (kid nodes (2 * Z.of_nat i + 2)) = Ok h.

(** A node that may be given a hash. *)
Definition fillable (n : Node) : Prop :=
  exists b, n = Some b /\ n_isempty b = false /\ n_key b <> "".

Lemma nodeHash_ok n c0 c1 :
  n_key n <> "" -> is_ok (Hash_Bytes c0) = true -> is_ok (Hash_Bytes c1) = true ->
  exists lh rh, Hash_Bytes c0 = Ok lh /\ Hash_Bytes c1 = Ok rh /\
    nodeHash n c0 c1 = Ok (sha256 (n_key n +:+ lh +:+ rh)).
Proof.
  intros Hk [lh E0]%is_ok_true [rh E1]%is_ok_true. exists lh, rh. unfold nodeHash.
  destruct (Nat.ltb_spec (String.length (n_key n)) 1).
  { destruct (n_key n); simpl in *; done || lia. }
  by rewrite E0, E1.
Qed.

Lemma hashed_kid nodes k :
  (forall i, k <= Z.of_nat i < len nodes -> hashed nodes i) ->
  forall i, k <= i -> 0 <= i -> is_ok (Hash_Bytes (kid nodes i)) = true.
Proof.
  intros Hh i Hi Hpos. destruct (decide (i < len nodes)) as [Hl|Hl].
  - destruct (Hh (Z.to_nat i)) as (n & h & Hn & He & _ & Eh & _); [lia|].
    unfold kid. rewrite Hn. unfold Hash_Bytes, Node_Hash. by rewrite He, Eh.
  - by rewrite kid_out by lia.
Qed.

Lemma kid_insert_ne nodes i k n :
  0 <= i -> i <> Z.of_nat k -> kid (<[k := n]> nodes) i = kid nodes i.
Proof. intros Hpos Hi. unfold kid. by rewrite list_lookup_insert_ne by lia. Qed.

Lemma generate_step w k nodes :
  (forall i n, w i n = Ok tt) -> (k < length nodes)%nat -> len nodes <= max_size ->
  Forall fillable nodes -> (forall i, (k < i < length nodes)%nat -> hashed nodes i) ->
  exists nodes', generateNodeHash w k nodes = Ok nodes' /\ length nodes' = length nodes /\
    Forall fillable nodes' /\ (forall i, (k <= i < length nodes)%nat -> hashed nodes' i) /\
    node_keys nodes' = node_keys nodes.
Proof.
  intros Hw Hk Hmax Hf Hh. unfold generateNodeHash.
  destruct (lookup_lt_is_Some_2 nodes k Hk) as [x Hx].
  rewrite Forall_lookup in Hf. destruct (Hf k x Hx) as (n & -> & He & Hkey).
  rewrite Hx, childrenOrNone_spec by (unfold len in *; lia). run.
  set (c0 := kid nodes _). set (c1 := kid nodes _).
  assert (forall i, Z.of_nat k < i -> is_ok (Hash_Bytes (kid nodes i)) = true) as Hkid.
  { intros i Hi. apply (hashed_kid nodes (Z.of_nat k + 1)); [|lia..].
    intros j Hj. apply Hh. unfold len in Hj. lia. }
  destruct (nodeHash_ok n c0 c1 Hkey) as (lh & rh & _ & _ & Hn); [apply Hkid; lia..|].
  rewrite Hn. run. rewrite Hw. run. eexists. split; [reflexivity|].
  rewrite length_insert. split_and!; [done| | |].
  - apply Forall_insert; [by rewrite Forall_lookup|]. by eexists.
  - intros i Hi. destruct (decide (i = k)) as [->|Hne].
    + eexists (SetHash n _), _. rewrite list_lookup_insert_eq by done.
      split_and!; [done|done|done|done|]. rewrite !kid_insert_ne by lia. exact Hn.
    + destruct (Hh i) as (n' & h & Hn' & He' & Hk' & Eh & Hnh); [lia|].
      exists n', h. rewrite list_lookup_insert_ne by lia.
      split_and!; try done. by rewrite !kid_insert_ne by lia.
  - apply list_eq. intros j. unfold node_keys. rewrite !list_lookup_fmap.
    destruct (decide (j = k)) as [->|Hne].
    + by rewrite list_lookup_insert_eq, Hx by done.
    + by rewrite list_lookup_insert_ne by done.
Qed.

Lemma generate_loop_ok w k nodes :
  (forall i n, w i n = Ok tt) -> (k <= length nodes)%nat -> len nodes <= max_size ->
  Forall fillable nodes -> (forall i, (k <= i < length nodes)%nat -> hashed nodes i) ->
  exists nodes', generate_loop w k nodes = Ok nodes' /\ length nodes' = length nodes /\
    (forall i, (i < length nodes)%nat -> hashed nodes' i) /\
    node_keys nodes' = node_keys nodes.
Proof.
  intros Hw. revert nodes. induction k as [|k IH]; intros nodes Hk Hmax Hf Hh.
  { exists nodes. split; [done|]. split_and!; [done| |done]. intros i Hi. apply Hh. lia. }
  destruct (generate_step w k nodes) as (nodes1 & E1 & L1 & F1 & H1 & K1); [done|lia|done|done|..].
  { intros i Hi. apply Hh. lia. }
  destruct (IH nodes1) as (nodes2 & E2 & L2 & H2 & K2);
    [lia|unfold len in *; lia|done|intros i Hi; apply H1; lia|].
  exists nodes2. cbn [generate_loop]. rewrite E1. split; [exact E2|].
  split_and!; [congruence| |congruence]. intros i Hi. apply H2. lia.
Qed.

(** A tree all of whose nodes are hashed is what [Tree.IsValid] accepts. *)
Lemma Traverse_ok nodes f k :
  Traverse k nodes f = Ok tt <->
  forall i, (i < length nodes)%nat -> exists n, nodes !! i = Some (Some n) /\ f (k + i)%nat n = Ok tt.
Proof.
  revert k. induction nodes as [|[n|] nodes IH]; intros k; cbn [Traverse].
  - split; [|done]. intros _ i Hi. simpl in Hi. lia.
  - rewrite bind_err_ok, IH. split.
    + intros [Hf Hr] [|i] Hi; [exists n; by rewrite Nat.add_0_r|].
      simpl in *. destruct (Hr i) as (m & Hm & Hfm); [lia|]. exists m.
      by rewrite Nat.add_succ_r.
    + intros Hall. split.
      * destruct (Hall 0%nat) as (m & Hm & Hfm); [simpl; lia|]. simpl in Hm. simplify_eq.
        by rewrite Nat.add_0_r in Hfm.
      * intros i Hi. destruct (Hall (S i)) as (m & Hm & Hfm); [simpl; lia|].
        exists m. by rewrite Nat.add_succ_r in Hfm.
  - split; [done|]. intros Hall. destruct (Hall 0%nat) as (m & Hm & _); [simpl; lia|]. done.
Qed.

Lemma Tree_IsValid_hashed hint nodes :
  (forall s, hash_IsValid (sha256 s) = Ok tt) -> hint = Ok tt -> len nodes <= max_size ->
  (forall i, (i < length nodes)%nat -> hashed nodes i) ->
  Tree_IsValid hint nodes = Ok tt.
Proof.
  intros Hv -> Hmax Hh. unfold Tree_IsValid. destruct (_ <? 1)%nat; [done|]. run.
  apply Traverse_ok. intros i Hi. destruct (Hh i Hi) as (n & h & Hn & He & Hk & Eh & Hnh).
  exists n. split; [done|]. unfold Tree_check. simpl.
  assert (Node_IsValid n = Ok tt) as ->.
  { unfold Node_IsValid. rewrite He, Eh.
    destruct (Nat.ltb_spec (String.length (n_key n)) 1); [destruct (n_key n); simpl in *; done || lia|].
    unfold nodeHash in Hnh. destruct (_ <? 1)%nat; [done|].
    apply bind_ok in Hnh as (lh & _ & Hnh). apply bind_ok in Hnh as (rh & _ & [= <-]). apply Hv. }
  run. rewrite childrenOrNone_spec by (unfold len in *; lia). run. rewrite Hnh. run.
  unfold Hash_Equal, Node_Hash. rewrite He, Eh. run. by rewrite bool_decide_eq_true_2.
Qed.

Lemma Tree_IsValid_inv hint nodes :
  Tree_IsValid hint nodes = Ok tt -> len nodes <= max_size ->
  forall i, (i < length nodes)%nat -> hashed nodes i.
Proof.
  intros Hv Hmax i Hi. unfold Tree_IsValid in Hv.
  destruct (Nat.ltb_spec (length nodes) 1); [lia|]. rewrite bind_err_ok in Hv.
  destruct Hv as [_ Hv]. rewrite Traverse_ok in Hv. destruct (Hv i Hi) as (n & Hn & Hc).
  unfold Tree_check in Hc. rewrite bind_err_ok in Hc. destruct Hc as [_ Hc]. simpl in Hc.
  rewrite childrenOrNone_spec in Hc by (unfold len in *; lia). cbn in Hc.
  apply bind_ok in Hc as (h & Hh & Hc). apply bind_ok in Hc as (eq & He & Hg).
  rewrite guard_err_ok, negb_false_iff in Hg. subst eq.
  assert (n_key n <> "") as Hk.
  { intros E. unfold nodeHash in Hh. by rewrite E in Hh. }
  assert (h <> "") as Hne.
  { unfold nodeHash in Hh. destruct (_ <? 1)%nat; [done|].
    apply bind_ok in Hh as (lh & _ & Hh). apply bind_ok in Hh as (rh & _ & [= <-]).
    intros E. pose proof (sha256_length (n_key n +:+ lh +:+ rh)) as Hlen. by rewrite E in Hlen. }
  unfold Hash_Equal, Node_Hash in He. destruct (n_isempty n) eqn:Ee.
  - injection He as E%bool_decide_eq_true. by destruct Hne.
  - destruct (n_h n) as [x|] eqn:Ex; [|done]. injection He as ->%bool_decide_eq_true.
    exists n, h. done.
Qed.

End Hashes.

(** ** What a proof is made of *)
Section Proofs.
Context `{TreeHashLaws}.
Variable nodes : list Node.

(** The children of [l] as [ExtractProofMaterial] stores them. *)
Definition pair_of (l : Z) : list Node :=
  if len nodes <=? 2 * l + 1 then [Some EmptyBaseNode; Some EmptyBaseNode]
  else [kid nodes (2 * l + 1);
        match kid nodes (2 * l + 2) with None => Some EmptyBaseNode | c => c end].

(** The pairs of [l] and its [h] ancestors, and the root. *)
Fixpoint proof_from (h : nat) (l : Z) : list Node :=
  pair_of l ++ match h with
               | O => [kid nodes l]
               | S h => proof_from h ((l - 1) / 2)
               end.

Lemma pair_of_length l : length (pair_of l) = 2%nat.
Proof. unfold pair_of. by destruct (_ <=? _). Qed.

Lemma proof_from_length h l : length (proof_from h l) = (2 * h + 3)%nat.
Proof.
  revert l. induction h as [|h IH]; intros l; simpl; rewrite length_app, pair_of_length; simpl; [done|].
  rewrite IH. lia.
Qed.

Lemma arr_set_pair (arr : list Node) i a b :
  (i * 2 + 1 < length arr)%nat ->
  (arr_set (i * 2) a arr ≫= arr_set (i * 2 + 1) b)
    = Ok (take (2 * i) arr ++ [a; b] ++ drop (2 * i + 2) arr).
Proof.
  intros Hl. unfold arr_set. destruct (Nat.ltb_spec (i * 2) (length arr)); [|lia]. run.
  rewrite length_insert. destruct (Nat.ltb_spec (i * 2 + 1) (length arr)); [|lia]. f_equal.
  apply list_eq. intros j. replace (i * 2)%nat with (2 * i)%nat by lia.
  destruct (decide (j < 2 * i)%nat).
  - rewrite !list_lookup_insert_ne, lookup_app_l, lookup_take_lt by (rewrite ?length_take; lia). done.
  - rewrite lookup_app_r by (rewrite length_take; lia). rewrite length_take, Nat.min_l by lia.
    destruct (decide (j = 2 * i)%nat) as [->|].
    { rewrite list_lookup_insert_ne, list_lookup_insert_eq by lia. by rewrite Nat.sub_diag. }
    destruct (decide (j = 2 * i + 1)%nat) as [->|].
    { rewrite list_lookup_insert_eq by (rewrite length_insert; lia).
      by replace (2 * i + 1 - 2 * i)%nat with 1%nat by lia. }
    rewrite !list_lookup_insert_ne by lia.
    destruct (j - 2 * i)%nat as [|[|k]] eqn:Ek; [lia..|]. simpl. rewrite lookup_drop. f_equal. lia.
Qed.

Hypothesis Hmax : len nodes <= max_size.
Hypothesis Hhashed : forall i, (i < length nodes)%nat -> hashed nodes i.

Lemma kid_hashed i :
  0 <= i < len nodes -> exists n h, kid nodes i = Some n /\ n_isempty n = false /\ n_key n <> "" /\
    n_h n = Some h /\ nodeHash n (kid nodes (2 * i + 1)) (kid nodes (2 * i + 2)) = Ok h.
Proof.
  intros Hi. destruct (Hhashed (Z.to_nat i)) as (n & h & Hn & ? & ? & ? & Hh); [unfold len in *; lia|].
  exists n, h. rewrite Z2Nat.id in Hh by lia. unfold kid at 1. by rewrite Hn.
Qed.

(** The parent of an index that is not the root. *)
Lemma up h l :
  0 <= l < len nodes -> indexHeight l = Z.of_nat (S h) ->
  parent l = Ok ((l - 1) / 2) /\ 0 <= (l - 1) / 2 < l /\ indexHeight ((l - 1) / 2) = Z.of_nat h /\
  (l = 2 * ((l - 1) / 2) + 1 \/ l = 2 * ((l - 1) / 2) + 2).
Proof.
  intros Hl Hh. assert (l <> 0) by (intros ->; vm_compute in Hh; lia).
  assert (parent l = Ok ((l - 1) / 2)) as Hp
    by (rewrite parent_spec by lia; by destruct (Z.eqb_spec l 0)).
  pose proof (parent_range l _ ltac:(lia) Hp). pose proof (indexHeight_parent l _ ltac:(lia) Hp).
  split_and!; [done|lia..|div_lia].
Qed.

Lemma extract_loop_spec h f l i arr index :
  (h < f)%nat ->
  0 <= l < len nodes -> indexHeight l = Z.of_nat h -> length arr = (2 * i + 2 * h + 3)%nat ->
  (l = index \/ 2 * l + 1 < len nodes) ->
  extract_loop f nodes index i l arr = Ok (take (2 * i) arr ++ proof_from h l).
Proof.
  revert f l i arr. induction h as [|h IH]; intros f l i arr Hf Hl Hh Hlen Hleaf.
  all: destruct f as [|f]; [lia|]; cbn [extract_loop proof_from]; rewrite childrenNodes_spec by lia.
  all: match goal with |- ?m ≫= _ = _ => assert (m = Ok (take (2 * i) arr ++ pair_of l ++ drop (2 * i + 2) arr)) as -> end.
  1,3: unfold pair_of; destruct (Z.leb_spec (len nodes) (2 * l + 1)) as [Hle|Hgt];
    [ rewrite bool_decide_eq_true_2 by done; destruct Hleaf as [->|]; [|lia];
      rewrite Z.eqb_refl; run; by rewrite arr_set_pair by lia
    | destruct (kid_hashed (2 * l + 1)) as (n & hn & Hn & _); [lia|]; rewrite Hn;
      rewrite (bool_decide_eq_false_2 (Some n = None)) by done; rewrite andb_false_r; simpl andb;
      cbv iota; destruct (kid nodes (2 * l + 2)); by rewrite arr_set_pair by lia ].
  all: run; rewrite parent_spec by lia.
  - apply indexHeight_zero in Hh as ->; [|lia]. simpl Z.eqb. cbv iota.
    rewrite bool_decide_eq_true_2 by done. rewrite node_at_kid by lia. run. unfold arr_set.
    rewrite !length_app, length_take, length_drop, pair_of_length, Nat.min_l by lia.
    destruct (Nat.ltb_spec (2 * i + (2 + (length arr - (2 * i + 2))) - 1)
      (2 * i + (2 + (length arr - (2 * i + 2))))); [|lia]. f_equal.
    rewrite insert_app_r_alt by (rewrite length_take; lia).
    rewrite length_take, Nat.min_l by lia. f_equal.
    rewrite insert_app_r_alt by (rewrite pair_of_length; lia).
    rewrite pair_of_length. f_equal.
    destruct (drop (2 * i + 2) arr) as [|x [|y d]] eqn:Ed;
      apply (f_equal length) in Ed; rewrite length_drop in Ed; simpl in Ed; [lia| |lia].
    by replace (2 * i + (2 + (length arr - (2 * i + 2))) - 1 - 2 * i - 2)%nat with 0%nat by lia.
  - destruct (up h l Hl Hh) as (Hp & Hr & Hhp & _).
    destruct (Z.eqb_spec l 0) as [->|Hne]; [lia|].
    rewrite (IH f ((l - 1) / 2) (S i)); [|lia|lia|lia| |right; div_lia].
    + f_equal. rewrite (app_assoc (take _ _)), take_app_length'.
      * by rewrite <- app_assoc.
      * rewrite length_app, length_take, pair_of_length, Nat.min_l by lia. lia.
    + rewrite !length_app, length_take, length_drop, pair_of_length. lia.
Qed.

(** Looking for a key. *)
Lemma nodes_some i : (i < length nodes)%nat -> exists n, nodes !! i = Some (Some n) /\ n_key n <> "".
Proof. intros Hi. destruct (Hhashed i Hi) as (n & ? & ? & _ & ? & _). eauto. Qed.

Lemma find_key_spec l k key i n :
  Forall (fun n : Node => n <> None) l -> NoDup (node_keys l) ->
  l !! i = Some (Some n) -> n_key n = key -> find_key k l key = Ok (Some (k + i)%nat).
Proof.
  revert k i. induction l as [|[m|] l IH]; intros k i Hf Hnd Hi Hk; [done| |by apply Forall_cons in Hf as [? _]].
  apply Forall_cons in Hf as [_ Hf]. unfold node_keys in Hnd. rewrite fmap_cons in Hnd.
  apply NoDup_cons in Hnd as [Hnin Hnd]. cbn [find_key].
  destruct i as [|i]; simpl in Hi.
  - simplify_eq. rewrite bool_decide_eq_true_2 by done. by rewrite Nat.add_0_r.
  - rewrite bool_decide_eq_false_2.
    + rewrite (IH _ i) by done. do 2 f_equal. lia.
    + intros E. destruct Hnin. apply list_elem_of_fmap. exists (Some n). split; [simpl; congruence|].
      by apply list_elem_of_lookup_2 in Hi.
Qed.

Lemma proof_from_last h l :
  0 <= l < len nodes -> indexHeight l = Z.of_nat h -> list.last (proof_from h l) = head nodes.
Proof.
  revert l. induction h as [|h IH]; intros l Hl Hh; cbn [proof_from].
  - apply indexHeight_zero in Hh as ->; [|lia]. rewrite last_snoc.
    unfold kid, len in *. destruct nodes; simpl in *; [lia|done].
  - destruct (up h l Hl Hh) as (_ & Hr & Hhp & _).
    rewrite last_app, IH by lia. unfold len in *. destruct nodes; simpl in *; [lia|done].
Qed.

Lemma ExtractProofMaterial_spec i n :
  NoDup (node_keys nodes) -> nodes !! i = Some (Some n) ->
  ExtractProofMaterial nodes (n_key n)
    = Ok (proof_from (Z.to_nat (indexHeight (Z.of_nat i))) (Z.of_nat i)).
Proof.
  intros Hnd Hi. pose proof (lookup_lt_Some _ _ _ Hi) as Hlt. unfold ExtractProofMaterial.
  destruct (Nat.ltb_spec (length nodes) 1); [lia|].
  rewrite (find_key_spec nodes 0 (n_key n) i n); [|..|done|done]; [|..|done].
  2:{ apply Forall_lookup. intros j m Hj. destruct (nodes_some j) as (b & Hb & _);
        [by eapply lookup_lt_Some|]. congruence. }
  run. simpl Nat.add. set (h := Z.to_nat _).
  destruct (indexHeight_pow (Z.of_nat i)) as [_ Hpos]; [lia|].
  rewrite (extract_loop_spec h);
    [|lia|unfold len; lia|lia|rewrite length_replicate; lia|by left].
  simpl take. run. rewrite app_nil_l.
  rewrite (proof_from_last h _) by (unfold len; lia || lia).
  destruct (nodes_some 0) as (b & Hb & _); [lia|]. destruct nodes; simpl in *; [done|]. by simplify_eq.
Qed.

(** What [proof_from] has after the pair of [l]. *)
Definition tail_of (h : nat) (l : Z) : list Node :=
  match h with
  | O => [kid nodes l]
  | S h => proof_from h ((l - 1) / 2)
  end.

Lemma proof_from_tail h l : proof_from h l = pair_of l ++ tail_of h l.
Proof. by destruct h. Qed.

Lemma tail_of_length h l : length (tail_of h l) = (2 * h + 1)%nat.
Proof. destruct h; simpl; [done|]. rewrite proof_from_length. lia. Qed.

(** The pair of [l] hashes like its children. *)
Lemma pair_of_bytes l :
  0 <= l < len nodes -> exists a b, pair_of l = [a; b] /\
    Hash_Bytes a = Hash_Bytes (kid nodes (2 * l + 1)) /\
    Hash_Bytes b = Hash_Bytes (kid nodes (2 * l + 2)).
Proof.
  intros Hl. unfold pair_of. destruct (Z.leb_spec (len nodes) (2 * l + 1)).
  - do 2 eexists. split; [done|]. by rewrite !kid_out by lia.
  - destruct (kid_hashed (2 * l + 1)) as (n & ? & -> & _); [lia|].
    destruct (kid nodes (2 * l + 2)); eauto.
Qed.

(** The node [l] is the parent of nodes that hash like its children. *)
Lemma parent_of_pair l a b ps :
  0 <= l < len nodes -> Hash_Bytes a = Hash_Bytes (kid nodes (2 * l + 1)) ->
  Hash_Bytes b = Hash_Bytes (kid nodes (2 * l + 2)) ->
  any_parent (kid nodes l :: ps) a b = Ok true.
Proof.
  intros Hl Ha Hb. destruct (kid_hashed l Hl) as (n & h & -> & He & _ & Eh & Hn).
  cbn [any_parent]. rewrite He. unfold nodeHash in *. rewrite Ha, Hb, Hn. run.
  unfold Hash_Equal, Node_Hash. rewrite He, Eh. run. by rewrite bool_decide_eq_true_2.
Qed.

(** A real node before the right parent does no harm. *)
Lemma any_parent_next i a b p ps :
  0 <= i < len nodes -> is_ok (Hash_Bytes a) = true -> is_ok (Hash_Bytes b) = true ->
  any_parent (p :: ps) a b = Ok true -> any_parent (kid nodes i :: p :: ps) a b = Ok true.
Proof.
  intros Hi Ha Hb Hp. destruct (kid_hashed i Hi) as (n & h & -> & He & Hk & Eh & _).
  cbn [any_parent] in *. rewrite He.
  destruct (nodeHash_ok n a b Hk Ha Hb) as (lh & rh & _ & _ & ->). run.
  unfold Hash_Equal, Node_Hash. rewrite He, Eh. run. by case_bool_decide.
Qed.

Lemma kid_bytes i : 0 <= i -> is_ok (Hash_Bytes (kid nodes i)) = true.
Proof.
  intros Hi. apply (hashed_kid nodes 0); [|lia|lia]. intros j Hj. apply Hhashed. unfold len in Hj. lia.
Qed.

(** One of the parents after the pair of [l] is [l]. *)
Lemma tail_has_parent h l a b :
  0 <= l < len nodes -> indexHeight l = Z.of_nat h ->
  Hash_Bytes a = Hash_Bytes (kid nodes (2 * l + 1)) ->
  Hash_Bytes b = Hash_Bytes (kid nodes (2 * l + 2)) ->
  any_parent (take (if (4 <? S (S (2 * h + 1)))%nat then 2 else 1) (tail_of h l)) a b = Ok true.
Proof.
  intros Hl Hh Ha Hb. destruct h as [|h]; [by apply parent_of_pair|].
  destruct (Nat.ltb_spec 4 (S (S (2 * S h + 1)))); [|lia].
  cbn [tail_of]. rewrite proof_from_tail.
  destruct (up h l Hl Hh) as (_ & Hr & _ & Hc). set (p := (l - 1) / 2) in *.
  unfold pair_of. destruct (Z.leb_spec (len nodes) (2 * p + 1)); [lia|].
  simpl take. rewrite take_0. destruct Hc as [Hc|Hc]; rewrite <- Hc.
  - by apply parent_of_pair.
  - apply any_parent_next; [lia|rewrite Ha; apply kid_bytes; lia|rewrite Hb; apply kid_bytes; lia|].
    pose proof (parent_of_pair l a b [] Hl Ha Hb) as Hp.
    destruct (kid_hashed l Hl) as (n & ? & E & _). by rewrite E in *.
Qed.

Lemma prove_loop_step f a b ps :
  any_parent (take (if (4 <? S (S (length ps)))%nat then 2 else 1) ps) a b = Ok true ->
  prove_loop (S f) (a :: b :: ps) = prove_loop f ps.
Proof. intros E. cbn [prove_loop length]. by rewrite E. Qed.

Lemma prove_up h f l a b :
  (h < f)%nat ->
  0 <= l < len nodes -> indexHeight l = Z.of_nat h ->
  Hash_Bytes a = Hash_Bytes (kid nodes (2 * l + 1)) ->
  Hash_Bytes b = Hash_Bytes (kid nodes (2 * l + 2)) ->
  prove_loop f (a :: b :: tail_of h l) = Ok tt.
Proof.
  revert f l a b. induction h as [|h IH]; intros [|f] l a b Hf Hl Hh Ha Hb; [lia| |lia|];
    rewrite prove_loop_step by (rewrite tail_of_length; by apply tail_has_parent); [by destruct f|].
  destruct (up h l Hl Hh) as (_ & Hr & Hhp & _). cbn [tail_of]. rewrite proof_from_tail.
  destruct (pair_of_bytes ((l - 1) / 2)) as (a' & b' & -> & Ha' & Hb'); [lia|].
  by apply IH; [lia|lia|..].
Qed.

(** ** Finding the key in the proof *)
Definition no_key (key : string) : list Node -> Prop := Forall (fun n => (n_key <$> n) <> Some key).

Lemma find_proof_key_app k l1 l2 key :
  no_key key l1 -> find_proof_key k (l1 ++ l2) key = find_proof_key (k + length l1) l2 key.
Proof.
  revert k. induction l1 as [|n l1 IH]; intros k; [intros _; simpl; by rewrite Nat.add_0_r|].
  intros [Hn Hf]%Forall_cons. simpl.
  replace (k + S (length l1))%nat with (S k + length l1)%nat by lia.
  destruct n as [n|]; simpl in Hn; [rewrite bool_decide_eq_false_2 by congruence|]; by apply IH.
Qed.

Lemma filterNodes_whole P key i :
  find_proof_key 0 P key = Some i -> i = 2%nat \/ i = 3%nat /\ (5 <= length P)%nat ->
  filterNodes P key = P.
Proof.
  intros Hi Hc. unfold filterNodes, two_before. rewrite Hi.
  destruct Hc as [->|[-> Hl]]; simpl Nat.modulo; cbv beta iota; [apply take_drop|].
  change (1 =? 0)%nat with false. cbv iota.
  destruct (Nat.eqb_spec (3 + 1) (length P)); [lia|]. apply take_drop.
Qed.

Hypothesis Hnd : NoDup (node_keys nodes).

Lemma kid_lookup i n : kid nodes i = Some n <-> nodes !! Z.to_nat i = Some (Some n).
Proof. unfold kid. destruct (nodes !! Z.to_nat i) as [[m|]|]; naive_solver. Qed.

Lemma kid_key_other i j n :
  0 <= i -> 0 <= j -> i <> j -> kid nodes i = Some n -> (n_key <$> kid nodes j) <> Some (n_key n).
Proof.
  intros Hi Hj Hne Hn E. apply fmap_Some in E as (m & Hm & Hk).
  apply kid_lookup in Hn, Hm. destruct Hne.
  enough (Z.to_nat i = Z.to_nat j) by lia.
  apply (NoDup_lookup (node_keys nodes) _ _ (Some (n_key n)) Hnd);
    unfold node_keys; rewrite list_lookup_fmap.
  - by rewrite Hn.
  - rewrite Hm. simpl. by rewrite Hk.
Qed.

Lemma pair_no_key l key :
  key <> "" -> (n_key <$> kid nodes (2 * l + 1)) <> Some key ->
  (n_key <$> kid nodes (2 * l + 2)) <> Some key -> no_key key (pair_of l).
Proof.
  intros Hk H1 H2. unfold pair_of, no_key. destruct (_ <=? _); [by repeat constructor; simpl; congruence|].
  repeat constructor; [done|]. destruct (kid nodes (2 * l + 2)); [done|simpl; congruence].
Qed.

(** A left child, its level and its parent's. *)
Lemma left_child i l :
  l = 2 * Z.of_nat i + 1 -> l < len nodes ->
  exists g, 0 <= l < len nodes /\ indexHeight l = Z.of_nat (S g) /\
    0 <= Z.of_nat i < len nodes /\ indexHeight (Z.of_nat i) = Z.of_nat g.
Proof.
  intros -> Hl. destruct (indexHeight_pow (2 * Z.of_nat i + 1)) as [_ Hp]; [lia|].
  pose proof (indexHeight_zero (2 * Z.of_nat i + 1) ltac:(lia)) as Hz.
  assert (indexHeight (2 * Z.of_nat i + 1) = Z.of_nat (S (Z.to_nat (indexHeight (2 * Z.of_nat i + 1) - 1))))
    as Hg by lia.
  assert (0 <= 2 * Z.of_nat i + 1 < len nodes) as Hl' by lia.
  destruct (up _ _ Hl' Hg) as (_ & _ & Hgp & _).
  replace ((2 * Z.of_nat i + 1 - 1) / 2) with (Z.of_nat i) in Hgp by div_lia.
  eexists. split; [lia|]. split; [exact Hg|]. split; [lia|exact Hgp].
Qed.

Lemma fresh_kid j key :
  Some key ∉ node_keys nodes -> (n_key <$> kid nodes j) <> Some key.
Proof.
  intros Hf E. apply Hf, list_elem_of_lookup. exists (Z.to_nat j). unfold kid in E.
  unfold node_keys. rewrite list_lookup_fmap. destruct (nodes !! Z.to_nat j); [|done]. simpl. congruence.
Qed.

(** The proof of the node at [l] is used whole. *)
Lemma filterNodes_proof h l n :
  0 <= l < len nodes -> indexHeight l = Z.of_nat h -> kid nodes l = Some n ->
  filterNodes (proof_from h l) (n_key n) = proof_from h l.
Proof.
  intros Hl Hh Hn. destruct (kid_hashed l Hl) as (n' & ? & Hn' & _ & Hk & _). simplify_eq.
  assert (no_key (n_key n) (pair_of l)) as Hpl
    by (apply pair_no_key; [done|eapply kid_key_other; [..|done]; lia..]).
  rewrite proof_from_tail. destruct h as [|h].
  - apply (filterNodes_whole _ _ 2); [|by left]. rewrite find_proof_key_app by done.
    rewrite pair_of_length. cbn [tail_of]. rewrite Hn. simpl. by rewrite bool_decide_eq_true_2.
  - cbn [tail_of]. rewrite proof_from_tail.
    destruct (up h l Hl Hh) as (_ & Hr & _ & Hc). set (p := (l - 1) / 2) in *.
    destruct Hc as [Hc|Hc].
    + apply (filterNodes_whole _ _ 2); [|by left]. rewrite find_proof_key_app by done.
      rewrite pair_of_length. unfold pair_of. destruct (Z.leb_spec (len nodes) (2 * p + 1)); [lia|].
      rewrite <- Hc, Hn. simpl. by rewrite bool_decide_eq_true_2.
    + apply (filterNodes_whole _ _ 3);
        [|right; split; [done|rewrite !length_app, !pair_of_length, tail_of_length; lia]].
      rewrite find_proof_key_app by done. rewrite pair_of_length. unfold pair_of.
      destruct (Z.leb_spec (len nodes) (2 * p + 1)); [lia|].
      pose proof (kid_key_other l (2 * p + 1) n ltac:(lia) ltac:(lia) ltac:(lia) Hn) as Ho.
      rewrite <- Hc, Hn. change ([?x; ?y] ++ ?t) with ([x] ++ ([y] ++ t)).
      rewrite find_proof_key_app by (by constructor). simpl. by rewrite bool_decide_eq_true_2.
Qed.

End Proofs.

(** ** Properties *)

(** [children] and [parent] are inverse on the indices of a tree, whatever
    the floating-point detour: both children of [i] lie after [i], one level
    below, the first one inside the tree, and have [i] as their parent; and
    every node with a parent is one of that parent's children. *)
Theorem children_parent size i :
  0 <= i < size -> size < max_size ->
  (forall a b, children size i = Ok (a, b) ->
     i < a < size /\ b = a + 1 /\ parent a = Ok i /\ parent b = Ok i /\
     indexHeight a = indexHeight i + 1 /\ indexHeight b = indexHeight i + 1) /\
  (forall p, parent i = Ok p ->
     0 <= p < i /\ (children size p = Ok (i, i + 1) \/ children size p = Ok (i - 1, i))).
Proof.
  intros Hi Hs. split.
  - intros a b. rewrite children_spec by lia. destruct (Z.leb_spec size (2 * i + 1)); [done|].
    intros [= <- <-].
    assert (parent (2 * i + 1) = Ok i) as Hp1.
    { rewrite parent_spec by lia. destruct (Z.eqb_spec (2 * i + 1) 0); [lia|]. f_equal. div_lia. }
    assert (parent (2 * i + 2) = Ok i) as Hp2.
    { rewrite parent_spec by lia. destruct (Z.eqb_spec (2 * i + 2) 0); [lia|]. f_equal. div_lia. }
    split_and!; [lia..|done|done|apply indexHeight_parent|apply indexHeight_parent]; done || lia.
  - intros p Hp. pose proof (parent_range i p ltac:(lia) Hp) as Hr. split; [done|].
    rewrite parent_spec in Hp by lia. destruct (Z.eqb_spec i 0); [done|]. injection Hp as Hp.
    rewrite !children_spec by lia. destruct (Z.leb_spec size (2 * p + 1)); [div_lia|].
    assert (i = 2 * p + 1 \/ i = 2 * p + 2) as [->| ->] by div_lia;
      [left|right]; do 2 f_equal; lia.
Qed.

Lemma children_parent_witness :
  0 <= 5 < 12 /\ 12 < max_size /\
  children 12 5 = Ok (11, 12) /\ parent 11 = Ok 5 /\ indexHeight 11 = 3.
Proof.
  assert (0 <= 5 < 12) as H1 by lia. assert (12 < max_size) as H2 by reflexivity.
  destruct (proj1 (children_parent 12 5 H1 H2) 11 12 ltac:(reflexivity)) as (_ & _ & Hp & _).
  split_and!; [lia..|done|reflexivity|exact Hp|reflexivity].
Defined.

Section Properties.
Context `{TreeHashLaws}.

(** Nodes added one after the other to a writer. *)
Fixpoint Adds (nodes : list Node) (l : list (Z * BaseNode)) : res (list Node) :=
  match l with
  | [] => Ok nodes
  | (i, n) :: l => Add nodes i n ≫= fun nodes => Adds nodes l
  end.

Definition addable (p : Z * BaseNode) : Prop := n_isempty p.2 = false /\ n_key p.2 <> "".

Definition pending (n : Node) : Prop :=
  match n with None => True | Some b => n_isempty b = false /\ n_key b <> "" /\ n_h b = None end.

Lemma Adds_pending nodes l nodes' :
  Adds nodes l = Ok nodes' -> Forall addable l -> Forall pending nodes ->
  Forall pending nodes' /\ length nodes' = length nodes.
Proof.
  revert nodes. induction l as [|[i n] l IH]; intros nodes; cbn [Adds].
  { by intros [= <-]. }
  intros (nodes1 & Ha & Hl)%bind_ok [[He Hk] Hf]%Forall_cons Hp. unfold Add in Ha.
  destruct (_ <=? _); [done|]. injection Ha as <-.
  destruct (IH _ Hl Hf) as [? Hlen]; [by apply Forall_insert|].
  by rewrite Hlen, length_insert.
Qed.

Lemma shrinkNodes_fillable nodes :
  Forall pending nodes -> Forall fillable (shrinkNodes nodes) /\
  Forall pending (shrinkNodes nodes) /\ (length (shrinkNodes nodes) <= length nodes)%nat.
Proof.
  induction 1 as [|n nodes Hn _ (IH1 & IH2 & IH3)]; [by split_and!|].
  destruct n as [n|]; simpl; [|split_and!; [done..|lia]].
  split_and!; [|by constructor|lia]. constructor; [|done].
  destruct Hn as (? & ? & _). by exists n.
Qed.

(** What [Tree] makes of nodes that have a key and no hash yet. *)
Lemma Writer_Tree_ok nodes0 :
  (forall s, hash_IsValid (sha256 s) = Ok tt) -> len nodes0 <= max_size -> Forall pending nodes0 -> shrinkNodes nodes0 <> [] ->
  exists tree, Writer_Tree nodes0 = Ok tree /\ Tree_IsValid (Ok tt) tree = Ok tt /\
    (forall i, (i < length tree)%nat -> hashed tree i) /\
    node_keys tree = node_keys (shrinkNodes nodes0).
Proof.
  intros Hv Hs Hp Hne. destruct (shrinkNodes_fillable nodes0 Hp) as (Hf & Hp' & Hle).
  unfold Writer_Tree, Write. set (ns := shrinkNodes nodes0) in *.
  assert (len ns <= max_size) as Hmax by (unfold len in *; lia).
  destruct (generate_loop_ok (fun _ _ => Ok tt) (length ns) ns) as (tree & Hg & Ht & Hh & Hk);
    [done|done|done|done|intros i Hi; lia|].
  exists tree. assert (Tree_IsValid (Ok tt) tree = Ok tt) as Htv.
  { apply Tree_IsValid_hashed; [done|done|unfold len in *; lia|]. rewrite Ht. exact Hh. }
  rewrite Ht. split_and!; [|done|exact Hh|exact Hk].
  destruct ns as [|[n|] ns'] eqn:En; [done| |].
  - apply Forall_cons in Hp' as [(He & _ & Hnil) _]. unfold Node_Hash. rewrite He, Hnil.
    unfold generateNodesHash. rewrite Hg. run. rewrite Ht. done.
  - apply Forall_cons in Hf as [(? & ? & _) _]. done.
Qed.

(** A writer makes valid trees.  From any sequence of additions of nodes
    with keys that leaves at least one node, [Tree] succeeds, the tree passes
    [IsValid], every hash covers the key and the hashes of the children, and
    the keys are the added ones in order, the unset places squeezed out. *)
Theorem Writer_Tree_valid size nodes l nodes0 :
  (forall s, hash_IsValid (sha256 s) = Ok tt) -> Z.of_nat size <= max_size ->
  NewWriter size = Ok nodes -> Adds nodes l = Ok nodes0 -> Forall addable l ->
  shrinkNodes nodes0 <> [] ->
  exists tree, Writer_Tree nodes0 = Ok tree /\ Tree_IsValid (Ok tt) tree = Ok tt /\
    (forall i, (i < length tree)%nat -> hashed tree i) /\
    node_keys tree = node_keys (shrinkNodes nodes0).
Proof.
  intros Hv Hs Hw Ha Hl Hne. unfold NewWriter in Hw. destruct (_ <? 1)%nat; [done|]. injection Hw as <-.
  destruct (Adds_pending _ _ _ Ha Hl) as [Hp Hlen]; [by apply Forall_replicate|].
  rewrite length_replicate in Hlen. apply Writer_Tree_ok; try done. unfold len. lia.
Qed.

(** C32: every node of a valid tree with distinct keys has a proof.
    [ExtractProofMaterial] gives the pairs up to the root, and [Prove] accepts
    the key against it; the last node is the root of the tree. *)
Theorem extracted_proof_proves hint nodes i n :
  Tree_IsValid hint nodes = Ok tt -> len nodes <= max_size -> NoDup (node_keys nodes) ->
  nodes !! i = Some (Some n) ->
  exists P, ExtractProofMaterial nodes (n_key n) = Ok P /\
    Prove P (n_key n) = Ok tt /\ list.last P = head nodes.
Proof.
  intros Hv Hmax Hnd Hi. pose proof (lookup_lt_Some _ _ _ Hi) as Hlt.
  pose proof (Tree_IsValid_inv hint nodes Hv Hmax) as Hh.
  destruct (indexHeight_pow (Z.of_nat i)) as [_ Hpos]; [lia|].
  eexists. split; [by apply ExtractProofMaterial_spec|]. set (h := Z.to_nat _).
  assert (kid nodes (Z.of_nat i) = Some n) as Hk by (apply kid_lookup; by rewrite Nat2Z.id).
  assert (0 <= Z.of_nat i < len nodes) as Hr by (unfold len; lia).
  split.
  - unfold Prove. rewrite (filterNodes_proof nodes Hmax Hh Hnd) by (done || lia).
    rewrite proof_from_length. destruct (Nat.ltb_spec (2 * h + 3) 1); [lia|].
    rewrite proof_from_tail. destruct (pair_of_bytes nodes Hh (Z.of_nat i) Hr) as (a & b & -> & ? & ?).
    apply (prove_up nodes Hmax Hh h); [|lia|lia|done|done].
    enough (((2 * h + 3 - 1) / 2)%nat = S h) by lia.
    replace (2 * h + 3 - 1)%nat with (S h * 2)%nat by lia. by apply Nat.div_mul.
  - apply proof_from_last; done || lia.
Qed.

(** [Prove] accepts keys that are not in the tree.  Take the proof of a
    left child [s] in any valid tree and replace its sibling [t] by a node with
    a foreign key and the hash of [t]: the foreign key is proved, against the
    same root.  [Prove] asks only that one of the pair be the parent of the pair
    below, and [s] is. *)
Theorem forged_key_proved hint nodes i s t h key :
  Tree_IsValid hint nodes = Ok tt -> len nodes <= max_size -> NoDup (node_keys nodes) ->
  nodes !! (2 * i + 1)%nat = Some (Some s) -> nodes !! (2 * i + 2)%nat = Some (Some t) ->
  n_h t = Some h -> key <> "" -> Some key ∉ node_keys nodes ->
  exists P, ExtractProofMaterial nodes (n_key s) = Ok P /\ P !! 3%nat = Some (Some t) /\
    let forged := <[3%nat := Some {| n_h := Some h; n_key := key; n_isempty := false |}]> P in
    Prove forged key = Ok tt /\ list.last forged = head nodes.
Proof.
  intros Hv Hmax Hnd Hs Ht Hth Hkey Hfresh.
  pose proof (lookup_lt_Some _ _ _ Ht) as Hlt. pose proof (Tree_IsValid_inv hint nodes Hv Hmax) as Hh.
  destruct (left_child nodes Hmax i (2 * Z.of_nat i + 1)) as (g & Hl & Hg & Hr & Hgp);
    [done|unfold len; lia|].
  set (l := 2 * Z.of_nat i + 1) in *.
  assert (kid nodes l = Some s) as Ks
    by (apply kid_lookup; by replace (Z.to_nat l) with (2 * i + 1)%nat by (unfold l; lia)).
  assert (kid nodes (2 * Z.of_nat i + 2) = Some t) as Kt
    by (apply kid_lookup; by replace (Z.to_nat _) with (2 * i + 2)%nat by lia).
  pose proof (ExtractProofMaterial_spec nodes Hmax Hh _ _ Hnd Hs) as Hx.
  replace (Z.of_nat (2 * i + 1)) with l in Hx by (unfold l; lia).
  rewrite Hg, Nat2Z.id in Hx. eexists. split; [exact Hx|].
  pose proof (proof_from_last nodes Hmax Hh (S g) l Hl Hg) as Hlast.
  rewrite proof_from_tail in *. cbn [tail_of] in *. rewrite proof_from_tail in *.
  replace ((l - 1) / 2) with (Z.of_nat i) in * by (unfold l; div_lia).
  assert (pair_of nodes (Z.of_nat i) = [Some s; Some t]) as Hpi.
  { unfold pair_of. fold l. destruct (Z.leb_spec (len nodes) l); [lia|]. by rewrite Ks, Kt. }
  rewrite Hpi in *.
  destruct (pair_of_bytes nodes Hh l Hl) as (a & b & Hp & Ha & Hb).
  pose proof (pair_no_key nodes l key Hkey (fresh_kid _ _ _ Hfresh) (fresh_kid _ _ _ Hfresh)) as Hpn.
  rewrite Hp in *. split; [done|].
  pose proof (tail_of_length nodes g (Z.of_nat i)) as HT. set (T := tail_of nodes g (Z.of_nat i)) in *.
  set (x := {| n_h := Some h |}). change (<[3%nat:=_]> _) with (([a; b] ++ [Some s]) ++ [Some x] ++ T).
  split.
  2:{ rewrite <- Hlast, !last_app. assert (is_Some (list.last T)) as [y ->]; [|done].
      apply last_is_Some. intros ->. simpl in HT. lia. }
  unfold Prove. rewrite (filterNodes_whole _ _ 3).
  2:{ rewrite find_proof_key_app; [simpl; by rewrite bool_decide_eq_true_2|].
      apply Forall_app. split; [done|]. constructor; [|done].
      rewrite <- Ks. by apply fresh_kid. }
  2:{ right. split; [done|]. simpl. lia. }
  simpl length. rewrite HT. destruct (Nat.ltb_spec (S (S (S (S (2 * g + 1))))) 1); [lia|].
  replace ((S (S (S (S (2 * g + 1)))) - 1) / 2)%nat with (S (S g)).
  2:{ replace (S (S (S (S (2 * g + 1)))) - 1)%nat with (S (S g) * 2)%nat by lia. by rewrite Nat.div_mul. }
  pose proof (parent_of_pair nodes Hh l a b [Some x] Hl Ha Hb) as Hpar. rewrite Ks in Hpar.
  simpl app. rewrite prove_loop_step.
  2:{ cbn [length]. rewrite HT. destruct (Nat.ltb_spec 4 (S (S (S (S (2 * g + 1)))))); [|lia].
      cbn [take]. rewrite take_0. exact Hpar. }
  apply (prove_up nodes Hmax Hh g); [lia|lia|done|by fold l; rewrite Ks|].
  rewrite Kt. simpl. unfold Node_Hash. destruct (Hh _ Hlt) as (t' & ? & Ht' & He & _).
  simplify_eq. by rewrite He, Hth.
Qed.

End Properties.

(** ** A tree of five nodes *)

(** A hash of 32 characters: the character codes weighted by their place. *)
Definition demo_digit (z : Z) : string := String (Ascii.ascii_of_nat (Z.to_nat (z mod 256))) "".
Fixpoint demo_sum (k : Z) (s : string) : Z :=
  match s with
  | "" => 0
  | String c s => k * (1 + Z.of_nat (Ascii.nat_of_ascii c)) + demo_sum (k + 7) s
  end.
Definition demo_sha (s : string) : string :=
  "000000000000000000000000000000" +:+ demo_digit (demo_sum 1 s / 256) +:+ demo_digit (demo_sum 1 s).

Definition demo_hash : TreeHash :=
  {| sha256 := demo_sha;
     hash_IsValid := fun h => guard_err (String.length h <? 1)%nat "empty hash" |}.

Lemma demo_hash_laws : @TreeHashLaws demo_hash.
Proof. constructor. intros s. reflexivity. Defined.

Definition demo_adds : list (Z * BaseNode) :=
  [(4, NewBaseNode "e"); (0, NewBaseNode "a"); (1, NewBaseNode "b"); (6, NewBaseNode "f");
   (2, NewBaseNode "c"); (3, NewBaseNode "d")].

Definition of_ok (r : res (list Node)) : list Node := match r with Ok l => l | _ => [] end.
Definition demo_added : list Node := of_ok (NewWriter 7 ≫= fun nodes => Adds nodes demo_adds).
Definition demo_tree : list Node := of_ok (@Writer_Tree demo_hash demo_added).

Lemma Writer_Tree_valid_witness :
  exists tree, @Writer_Tree demo_hash demo_added = Ok tree /\
    @Tree_IsValid demo_hash (Ok tt) tree = Ok tt /\
    node_keys tree = Some <$> ["a"; "b"; "c"; "d"; "e"; "f"].
Proof.
  destruct (@Writer_Tree_valid demo_hash 7 (replicate 7 None) demo_adds demo_added)
    as (tree & H1 & H2 & _ & H4).
  - intros s. reflexivity.
  - vm_compute. discriminate.
  - reflexivity.
  - vm_compute. reflexivity.
  - repeat constructor; discriminate.
  - discriminate.
  - exists tree. split; [exact H1|]. split; [exact H2|exact H4].
Defined.

Lemma demo_tree_valid : @Tree_IsValid demo_hash (Ok tt) demo_tree = Ok tt.
Proof. vm_compute. reflexivity. Qed.

Definition demo_node (i : nat) : BaseNode :=
  match demo_tree !! i with Some (Some n) => n | _ => EmptyBaseNode end.

Lemma extracted_proof_proves_witness :
  exists P, @ExtractProofMaterial demo_tree "e" = Ok P /\ @Prove demo_hash P "e" = Ok tt /\
    list.last P = Some (Some (demo_node 0)) /\ @Prove demo_hash P "x" = Err "key not found".
Proof.
  destruct (@extracted_proof_proves demo_hash demo_hash_laws (Ok tt) demo_tree 4 (demo_node 4))
    as (P & H1 & H2 & H3).
  - exact demo_tree_valid.
  - vm_compute. discriminate.
  - apply (bool_decide_unpack _). vm_compute. exact I.
  - vm_compute. reflexivity.
  - exists P. split; [exact H1|]. split; [exact H2|]. split; [exact H3|].
    vm_compute in H1. injection H1 as <-. vm_compute. reflexivity.
Defined.

(** The forged proof also passes [Proof.IsValid]. *)
Lemma forged_key_proved_witness :
  exists P h, @ExtractProofMaterial demo_tree "b" = Ok P /\ n_h (demo_node 2) = Some h /\
    let forged := <[3%nat := Some {| n_h := Some h; n_key := "x"; n_isempty := false |}]> P in
    @Prove demo_hash forged "x" = Ok tt /\ @Proof_IsValid demo_hash forged = Ok tt.
Proof.
  destruct (n_h (demo_node 2)) as [h|] eqn:Eh; [|discriminate Eh].
  destruct (@forged_key_proved demo_hash demo_hash_laws (Ok tt) demo_tree 0 (demo_node 1) (demo_node 2) h "x")
    as (P & H1 & _ & H3 & _).
  - exact demo_tree_valid.
  - vm_compute. discriminate.
  - apply (bool_decide_unpack _). vm_compute. exact I.
  - vm_compute. reflexivity.
  - vm_compute. reflexivity.
  - exact Eh.
  - discriminate.
  - apply (bool_decide_unpack _). vm_compute. exact I.
  - exists P, h. split; [exact H1|]. split; [reflexivity|]. split; [exact H3|].
    vm_compute in H1. injection H1 as <-. vm_compute in Eh. injection Eh as <-.
    vm_compute. reflexivity.
Defined.

(** [IsValid] of a proof lets a nil node pass among the first three, and then
    asks it for its key. *)
Example Proof_IsValid_nil_panics :
  @Proof_IsValid demo_hash [Some EmptyBaseNode; None; Some (demo_node 0)] = Panic.
Proof. vm_compute. reflexivity. Qed.
