(* ===== verification/Bytes.v ===== *)
(** * Lengthed bytes and frames ([util/bytes.go], [util/int.go])

    A byte is a [Z] between 0 and 255; a byte slice is a list of them ([nil] and
    the empty slice are one).  An [io.Reader] is the class [Reader]: one [Read]
    gives at most the asked number of bytes and perhaps an error, [EOF] or
    another.  An [io.Writer] is the class [Writer].  [EnsureRead] is modelled
    without a deadline ([context.Background()]); its loop is on fuel, and more
    fuel than the reads to the end of the stream is always enough for a reader
    that keeps the documented contract ([ensure_loop_spec]). *)
From S2P Require Import Prelude.

Open Scope Z_scope.

Abbreviation bytes := (list Z).
Definition is_bytes (b : bytes) : Prop := Forall (fun x => 0 <= x < 256) b.

(** ** Integers in big-endian order *)
Definition byte_of (i : Z) (shift : Z) : Z := Z.land (Z.shiftr i shift) 255.
Definition Uint64ToBytes (i : Z) : bytes :=
  byte_of i <$> [56; 48; 40; 32; 24; 16; 8; 0].
Definition from_be (b : bytes) : Z := foldl (fun acc x => Z.lor (Z.shiftl acc 8) x) 0 b.

(** [binary.Read] of 8 bytes: what follows them is not looked at. *)
Definition BytesToUint64 (b : bytes) : res Z :=
  if (length b <? 8)%nat then Err "invalid uint64 bytes" else Ok (from_be (take 8 b)).

Definition Int64ToBytes (i : Z) : bytes := Uint64ToBytes (wrap_u 64 i).
Definition BytesToInt64 (b : bytes) : res Z :=
  if (length b <? 8)%nat then Err "invalid int64 bytes" else Ok (wrap_s 64 (from_be (take 8 b))).
Definition UintToBytes (i : Z) : bytes := Uint64ToBytes i.
Definition Uint8ToBytes (i : Z) : bytes := [i].
Definition BoolToBytes (b : bool) : bytes := if b then [1] else [0].

(** [ConcatBytesSlice]: [nil] slices, and a result without bytes, are the empty list. *)
Definition ConcatBytesSlice (sl : list bytes) : bytes := mjoin sl.

Definition maxLengthBytes : Z := 32767.
Definition maxLengthedBytes : Z := 2147483647.
Definition blen (b : bytes) : Z := Z.of_nat (length b).

(** ** Reading from a slice *)
Definition ReadLengthBytes (b : bytes) : res Z :=
  if blen b <? 8 then Err "wrong format; missing length part"
  else match BytesToUint64 (take 8 b) with
  | Ok j => Ok j
  | _ => Err "wrong format; invalid length part"
  end.

Definition ReadLengthedBytes (b : bytes) : res (bytes * bytes) :=
  ReadLengthBytes b ≫= fun i =>
  if wrap_u 64 (blen b - 8) <? i then Err "wrong format; left not enough"
  else Ok (take (Z.to_nat i) (drop 8 b), drop (Z.to_nat (wrap_u 64 (i + 8))) b).

(** The loop of [ReadLengthedBytesSlice] over the [k] slices to come. *)
Fixpoint read_slices (k : nat) (left : bytes) : res (list bytes * bytes) :=
  match k with
  | O => Ok ([], left)
  | S k =>
      ReadLengthedBytes left ≫= fun '(j, left) =>
      read_slices k left ≫= fun '(m, left) => Ok (j :: m, left)
  end.

(** A count over [maxLengthBytes] returns the nil error of the read before it. *)
Definition ReadLengthedBytesSlice (b : bytes) : res (list bytes * bytes) :=
  if blen b <? 8 then Err "empty m length"
  else
    ReadLengthBytes b ≫= fun i =>
    if maxLengthBytes <? i then Ok ([], []) else read_slices (Z.to_nat i) (drop 8 b).

(** ** Writing *)
Class Writer (W : Type) := Write : bytes -> W -> err * W.

(** What [bytes.Buffer] does. *)
#[export] Instance Buffer_Writer : Writer bytes := fun b w => (Ok tt, w ++ b).

Section Writing.
Context `{Writer W}.

(** [if err := m; err != nil { return err }]. *)
Definition andthen (m : err * W) (k : W -> err * W) : err * W :=
  match m with
  | (Ok _, w) => k w
  | (e, w) => (e, w)
  end.

Definition WriteLength (w : W) (i : Z) : err * W := Write (Uint64ToBytes i) w.

Definition WriteLengthed (w : W) (b : bytes) : err * W :=
  andthen (Write (Uint64ToBytes (blen b)) w) (fun w =>
  if blen b <? 1 then (Ok tt, w) else Write b w).

Fixpoint write_all (w : W) (m : list bytes) : err * W :=
  match m with
  | [] => (Ok tt, w)
  | b :: m => andthen (WriteLengthed w b) (fun w => write_all w m)
  end.

Definition WriteLengthedSlice (w : W) (m : list bytes) : err * W :=
  andthen (Write (Uint64ToBytes (Z.of_nat (length m))) w) (fun w => write_all w m).

(** *** Frames *)
Record BytesFrameWriter := { fw_w : W; headerWritten : bool }.

Definition bytesFrameVersion : bytes := [0; 0].

Definition NewBytesFrameWriter (w : W) : err * BytesFrameWriter :=
  let '(e, w) := Write bytesFrameVersion w in (e, {| fw_w := w; headerWritten := false |}).

(** The deferred [headerWritten = true] runs on every path once it is set up. *)
Definition fw_Header (f : BytesFrameWriter) (bs : list bytes) : err * BytesFrameWriter :=
  if headerWritten f then (Err "header already written", f)
  else
    let '(e, w) := andthen (Write (Uint64ToBytes (Z.of_nat (length bs))) (fw_w f))
                     (fun w => write_all w bs) in
    (e, {| fw_w := w; headerWritten := true |}).

Definition fw_Lengthed (f : BytesFrameWriter) (b : bytes) : err * BytesFrameWriter :=
  let '(e, w) := WriteLengthed (fw_w f) b in (e, {| fw_w := w; headerWritten := true |}).

End Writing.
Arguments BytesFrameWriter : clear implicits.

Definition NewLengthedBytesSlice (m : list bytes) : res bytes :=
  match WriteLengthedSlice ([] : bytes) m with
  | (Ok _, w) => Ok w
  | (Err e, _) => Err e
  | (Panic, _) => Panic
  end.

(** ** Reading from a reader *)
Abbreviation EOF := "EOF"%string.

(** One [Read] into [n] bytes: the bytes, the error, and what is left. *)
Class Reader (R : Type) := Read : nat -> R -> bytes * option string * R.

Section Reading.
Context `{Reader R}.

Definition is_eof (e : option string) : bool := bool_decide (e = Some EOF).
Definition fine (e : option string) : bool := bool_decide (e = None) || is_eof e.

(** The loop of [EnsureRead]; [acc] is what was read. [None] is out of fuel. *)
Fixpoint ensure_loop (fuel : nat) (want : nat) (acc : bytes) (r : R)
    : option (bytes * option string * R) :=
  match fuel with
  | O => None
  | S fuel =>
      if (want <=? length acc)%nat then Some (acc, None, r)
      else
        let '(bs, e, r) := Read (want - length acc) r in
        let acc := acc ++ bs in
        if negb (fine e) then Some (acc, e, r)
        else if (length acc =? want)%nat then Some (acc, e, r)
        else if is_eof e then Some (acc, Some "insufficient read"%string, r)
        else ensure_loop fuel want acc r
  end.

(** [EnsureRead] into a fresh buffer of [want] bytes: the count read, the
    buffer, the error. *)
Definition EnsureRead (fuel want : nat) (r : R) : option (Z * bytes * option string * R) :=
  ensure_loop fuel want [] r ≫= fun '(acc, e, r) =>
  Some (blen acc, acc ++ replicate (want - length acc) 0, e, r).

Definition ReadLength (fuel : nat) (r : R) : option (Z * Z * option string * R) :=
  EnsureRead fuel 8 r ≫= fun '(n, p, e, r) =>
  if fine e then
    match ReadLengthBytes p with
    | Ok i => Some (n, i, None, r)
    | Err e => Some (n, 0, Some e, r)
    | Panic => None
    end
  else Some (n, 0, e, r).

Definition ReadLengthed (fuel : nat) (r : R) : option (Z * bytes * option string * R) :=
  ReadLength fuel r ≫= fun '(n, i, e, r) =>
  if negb (bool_decide (e = None)) then Some (n, [], e, r)
  else if i <? 1 then Some (n, [], None, r)
  else if maxLengthedBytes <? i then Some (n, [], Some "huge size"%string, r)
  else
    EnsureRead fuel (Z.to_nat i) r ≫= fun '(m, p, e, r) =>
    Some (wrap_u 64 (n + m), p, e, r).

(** The loop of [ReadLengthedSlice]: [k] slices to come. *)
Fixpoint read_hs (fuel k : nat) (read : Z) (hs : list bytes) (r : R)
    : option (Z * list bytes * option string * R) :=
  match k with
  | O => Some (read, hs, None, r)
  | S k' =>
      ReadLengthed fuel r ≫= fun '(n, b, e, r) =>
      if is_eof e && (0 <? k')%nat then Some (read, [], Some "insufficient read"%string, r)
      else if fine e then read_hs fuel k' (wrap_u 64 (read + n)) (hs ++ [b]) r
      else Some (read, [], Some "read bytes"%string, r)
  end.

Definition ReadLengthedSlice (fuel : nat) (r : R) : option (Z * list bytes * option string * R) :=
  ReadLength fuel r ≫= fun '(n, i, e, r) =>
  if fine e then
    if (0 <? i) && is_eof e then Some (n, [], Some "insufficient read"%string, r)
    else if i <? 1 then Some (n, [], None, r)
    else if maxLengthBytes <? i then Some (n, [], Some "huge size"%string, r)
    else read_hs fuel (Z.to_nat i) n [] r
  else Some (n, [], Some "bytes length"%string, r).

(** *** Frames *)
Record BytesFrameReader := { fr_r : R; version : bytes; headerRead : bool }.

(** One [Read] into the two bytes of the version. *)
Definition NewBytesFrameReader (r : R) : res BytesFrameReader :=
  let '(bs, e, r) := Read 2 r in
  if fine e then
    Ok {| fr_r := r; version := bs ++ replicate (2 - length bs) 0; headerRead := false |}
  else Err "version".

Definition set_reader (f : BytesFrameReader) (r : R) : BytesFrameReader :=
  {| fr_r := r; version := version f; headerRead := true |}.

Definition fr_Header (fuel : nat) (f : BytesFrameReader)
    : option (list bytes * option string * BytesFrameReader) :=
  if headerRead f then Some ([], Some "header already read"%string, f)
  else
    ReadLengthedSlice fuel (fr_r f) ≫= fun '(_, hs, e, r) => Some (hs, e, set_reader f r).

Definition exhaustHeader (fuel : nat) (f : BytesFrameReader)
    : option (option string * BytesFrameReader) :=
  if headerRead f then Some (None, f)
  else ReadLengthedSlice fuel (fr_r f) ≫= fun '(_, _, e, r) => Some (e, set_reader f r).

(** [Lengthed]: [read] is the callback over the variables [S] it captures. *)
Definition fr_Lengthed {S} (fuel : nat) (f : BytesFrameReader) (read : option (S -> bytes -> option string * S)) (s : S)
    : option (option string * S * BytesFrameReader) :=
  exhaustHeader fuel f ≫= fun '(e, f) =>
  if negb (bool_decide (e = None)) then Some (e, s, f)
  else
    ReadLengthed fuel (fr_r f) ≫= fun '(n, i, e, r) =>
    let f := {| fr_r := r; version := version f; headerRead := headerRead f |} in
    if fine e then
      if (n <? 1) && is_eof e then Some (None, s, f)
      else match read with
      | None => Some (None, s, f)
      | Some read => let '(e, s) := read s i in Some (e, s, f)
      end
    else Some (e, s, f).

End Reading.
Arguments BytesFrameReader : clear implicits.

(** ** Integers *)
Lemma byte_of_div i k : 0 <= k -> byte_of i k = (i / 2 ^ k) mod 256.
Proof.
  intros Hk. unfold byte_of. change 255 with (Z.ones 8).
  by rewrite Z.land_ones, Z.shiftr_div_pow2 by lia.
Qed.

Lemma byte_of_range i k : 0 <= k -> 0 <= byte_of i k < 256.
Proof. intros Hk. rewrite byte_of_div by done. apply Z.mod_pos_bound. lia. Qed.

Lemma Uint64ToBytes_length i : length (Uint64ToBytes i) = 8%nat.
Proof. reflexivity. Qed.

Lemma Uint64ToBytes_bytes i : is_bytes (Uint64ToBytes i).
Proof. repeat constructor; apply byte_of_range; lia. Qed.

Lemma shift_byte acc x : 0 <= x < 256 -> Z.lor (Z.shiftl acc 8) x = 256 * acc + x.
Proof.
  intros Hx. assert (Z.land (Z.shiftl acc 8) x = 0) as Hl.
  { apply Z.bits_inj'. intros n Hn. rewrite Z.land_spec, Z.bits_0.
    destruct (decide (n < 8)); [by rewrite Z.shiftl_spec_low|].
    rewrite <- (Z.mod_small x (2 ^ 8)), Z.mod_pow2_bits_high by lia. apply andb_false_r. }
  rewrite <- Z.lxor_lor, <- Z.add_nocarry_lxor, Z.shiftl_mul_pow2 by lia || done. lia.
Qed.

(** The value of a digit. *)
Lemma byte_of_digit v k a b l :
  0 <= k -> v = 2 ^ k * (256 * a + b) + l -> 0 <= l < 2 ^ k -> 0 <= b < 256 -> byte_of v k = b.
Proof.
  intros Hk -> Hl Hb. rewrite byte_of_div by done.
  rewrite <- (Z.div_unique (2 ^ k * (256 * a + b) + l) (2 ^ k) (256 * a + b) l) by lia.
  symmetry. by apply (Z.mod_unique _ _ a); [left|lia].
Qed.

Lemma from_be_8 b0 b1 b2 b3 b4 b5 b6 b7 :
  is_bytes [b0; b1; b2; b3; b4; b5; b6; b7] ->
  from_be [b0; b1; b2; b3; b4; b5; b6; b7] =
    256 * (256 * (256 * (256 * (256 * (256 * (256 * b0 + b1) + b2) + b3) + b4) + b5) + b6) + b7.
Proof.
  unfold is_bytes. rewrite !Forall_cons. intros Hb. unfold from_be. cbn [foldl].
  rewrite !shift_byte by tauto. lia.
Qed.

Lemma from_be_Uint64ToBytes i : u64 i -> from_be (Uint64ToBytes i) = i.
Proof.
  intros [H0 H1]. unfold Uint64ToBytes. cbn [fmap list_fmap]. rewrite from_be_8 by apply Uint64ToBytes_bytes.
  rewrite !byte_of_div by lia.
  assert (forall k, 0 <= k -> i / 2 ^ k = 256 * (i / 2 ^ (k + 8)) + (i / 2 ^ k) mod 256) as Hd.
  { intros k Hk. rewrite Z.pow_add_r, <- Z.div_div by lia. apply Z.div_mod. lia. }
  pose proof (Hd 0) as E0. pose proof (Hd 8) as E1. pose proof (Hd 16) as E2. pose proof (Hd 24) as E3.
  pose proof (Hd 32) as E4. pose proof (Hd 40) as E5. pose proof (Hd 48) as E6. pose proof (Hd 56) as E7.
  rewrite (Z.div_small i (2 ^ (56 + 8))) in E7 by lia. rewrite Z.pow_0_r, Z.div_1_r in *.
  change (0 + 8) with 8 in *. change (8 + 8) with 16 in *. change (16 + 8) with 24 in *.
  change (24 + 8) with 32 in *. change (32 + 8) with 40 in *. change (40 + 8) with 48 in *.
  change (48 + 8) with 56 in *. lia.
Qed.

Lemma from_be_u64 b : is_bytes b -> length b = 8%nat -> u64 (from_be b) /\ Uint64ToBytes (from_be b) = b.
Proof.
  intros Hb Hl. do 8 (destruct b as [|? b]; [done|]). destruct b; [|done].
  rewrite from_be_8 by done. unfold is_bytes in Hb. rewrite !Forall_cons in Hb.
  destruct Hb as (? & ? & ? & ? & ? & ? & ? & ? & _). split; [unfold u64; lia|].
  unfold Uint64ToBytes. cbn [fmap list_fmap].
  set (x1 := 256 * z + z0). set (x2 := 256 * x1 + z1). set (x3 := 256 * x2 + z2).
  set (x4 := 256 * x3 + z3). set (x5 := 256 * x4 + z4). set (x6 := 256 * x5 + z5).
  rewrite (byte_of_digit _ 56 0 z (((((((z0 * 256) + z1) * 256 + z2) * 256 + z3) * 256 + z4) * 256 + z5) * 256 + z6)) by lia.
  rewrite (byte_of_digit _ 48 z z0 (((((z1 * 256 + z2) * 256 + z3) * 256 + z4) * 256 + z5) * 256 + z6)) by lia.
  rewrite (byte_of_digit _ 40 x1 z1 ((((z2 * 256 + z3) * 256 + z4) * 256 + z5) * 256 + z6)) by lia.
  rewrite (byte_of_digit _ 32 x2 z2 (((z3 * 256 + z4) * 256 + z5) * 256 + z6)) by lia.
  rewrite (byte_of_digit _ 24 x3 z3 ((z4 * 256 + z5) * 256 + z6)) by lia.
  rewrite (byte_of_digit _ 16 x4 z4 (z5 * 256 + z6)) by lia.
  rewrite (byte_of_digit _ 8 x5 z5 z6) by lia.
  by rewrite (byte_of_digit _ 0 x6 z6 0) by lia.
Qed.

Lemma BytesToUint64_of i rest : u64 i -> BytesToUint64 (Uint64ToBytes i ++ rest) = Ok i.
Proof.
  intros Hi. unfold BytesToUint64. rewrite length_app, Uint64ToBytes_length.
  destruct (Nat.ltb_spec (8 + length rest) 8); [lia|]. rewrite take_app_length'; [|done].
  by rewrite from_be_Uint64ToBytes.
Qed.

(** ** The layout of what is written *)
Definition lengthed (b : bytes) : bytes := Uint64ToBytes (blen b) ++ b.
Definition body (m : list bytes) : bytes := mjoin (lengthed <$> m).
Definition lengthed_slice (m : list bytes) : bytes := Uint64ToBytes (Z.of_nat (length m)) ++ body m.

Lemma body_cons b m : body (b :: m) = lengthed b ++ body m.
Proof. reflexivity. Qed.

(** A length is far below [2^64]: a slice is at most [2^63 - 9] bytes. *)
Definition small (b : bytes) : Prop := blen b <= 2 ^ 63 - 9.

Lemma small_u64 b : small b -> u64 (blen b).
Proof. unfold small, u64, blen. lia. Qed.

Lemma lengthed_length b : length (lengthed b) = (8 + length b)%nat.
Proof. unfold lengthed. by rewrite length_app, Uint64ToBytes_length. Qed.

Lemma ReadLengthBytes_of i rest : u64 i -> ReadLengthBytes (Uint64ToBytes i ++ rest) = Ok i.
Proof.
  intros Hi. unfold ReadLengthBytes, blen. rewrite length_app, Uint64ToBytes_length.
  destruct (Z.ltb_spec (Z.of_nat (8 + length rest)) 8); [lia|].
  rewrite take_app_length'; [|done]. rewrite <- (app_nil_r (Uint64ToBytes i)).
  by rewrite BytesToUint64_of.
Qed.

Lemma ReadLengthedBytes_of b rest :
  small (b ++ rest) -> ReadLengthedBytes (lengthed b ++ rest) = Ok (b, rest).
Proof.
  intros Hs. assert (u64 (blen b)) as Hb by (unfold small, blen, u64 in *; rewrite length_app in Hs; lia).
  unfold ReadLengthedBytes.
  assert (ReadLengthBytes (lengthed b ++ rest) = Ok (blen b)) as ->
    by (unfold lengthed; rewrite <- app_assoc; by apply ReadLengthBytes_of).
  run.
  unfold small, blen in *. rewrite !length_app, lengthed_length in *.
  rewrite !wrap_u_small by lia. destruct (Z.ltb_spec (Z.of_nat (8 + length b + length rest) - 8) (Z.of_nat (length b))); [lia|].
  f_equal. f_equal.
  - unfold lengthed. rewrite <- app_assoc, drop_app_length' by done. by rewrite take_app_length' by lia.
  - rewrite drop_app_length'; [done|]. rewrite lengthed_length. lia.
Qed.

Lemma read_slices_of m rest :
  small (body m ++ rest) ->
  read_slices (length m) (body m ++ rest) = Ok (m, rest).
Proof.
  induction m as [|b m IH]; intros Hs; [done|].
  cbn [length read_slices]. rewrite body_cons, <- app_assoc in *.
  unfold small, blen in *. rewrite length_app, lengthed_length in Hs.
  rewrite ReadLengthedBytes_of by (unfold small, blen; rewrite length_app; lia). run.
  rewrite IH by lia. done.
Qed.

(** What a successful read says of the bytes. *)
Lemma ReadLengthBytes_inv b i :
  is_bytes b -> ReadLengthBytes b = Ok i ->
  u64 i /\ (8 <= length b)%nat /\ b = Uint64ToBytes i ++ drop 8 b.
Proof.
  intros Hb Hi. unfold ReadLengthBytes, blen in Hi.
  destruct (Z.ltb_spec (Z.of_nat (length b)) 8); [done|].
  unfold BytesToUint64 in Hi. rewrite length_take, Nat.min_l in Hi by lia. simpl in Hi.
  injection Hi as <-. rewrite take_take, Nat.min_l by lia.
  destruct (from_be_u64 (take 8 b)) as [Hu E]; [by apply Forall_take|rewrite length_take; lia|].
  split; [done|]. split; [lia|]. by rewrite E, take_drop.
Qed.

Lemma ReadLengthedBytes_inv b j left :
  is_bytes b -> small b -> ReadLengthedBytes b = Ok (j, left) -> b = lengthed j ++ left.
Proof.
  intros Hb Hs (i & Hi & Hr)%bind_ok. destruct (ReadLengthBytes_inv b i Hb Hi) as (Hu & Hl & E).
  unfold u64, small, blen in *. rewrite (wrap_u_small 64 (_ - 8)) in Hr by lia.
  destruct (Z.ltb_spec (Z.of_nat (length b) - 8) i); [done|]. injection Hr as <- <-.
  rewrite wrap_u_small by lia. unfold lengthed, blen. rewrite length_take, length_drop, Nat.min_l by lia.
  rewrite Z2Nat.id, <- app_assoc by lia. replace (Z.to_nat (i + 8)) with (8 + Z.to_nat i)%nat by lia.
  rewrite <- drop_drop, take_drop. exact E.
Qed.

Lemma read_slices_inv k b m left :
  is_bytes b -> small b -> read_slices k b = Ok (m, left) -> length m = k /\ b = body m ++ left.
Proof.
  revert b m left. induction k as [|k IH]; intros b m left Hb Hs; cbn [read_slices].
  { by intros [= <- <-]. }
  intros ([j b'] & Hj & ([m' l'] & Hm & [= <- <-])%bind_ok)%bind_ok.
  apply ReadLengthedBytes_inv in Hj as ->; [|done..].
  destruct (IH b' m' l') as [Hl ->]; [by apply Forall_app in Hb as []| |done|].
  { unfold small, blen in *. rewrite length_app in Hs. lia. }
  split; [simpl; by rewrite Hl|]. by rewrite body_cons, <- app_assoc.
Qed.

(** ** Readers that keep the contract of [io.Reader] *)

(** [pending]: the bytes still to come; [steps] bounds the reads before the
    end.  An error is [EOF], with nothing left; a read without one is progress. *)
Class ReaderLaws (R : Type) `{Reader R} (pending : R -> bytes) (steps : R -> nat) : Prop := {
  Read_bytes n r bs e r' : (0 < n)%nat -> Read n r = (bs, e, r') ->
    (length bs <= n)%nat /\ pending r = bs ++ pending r';
  Read_error n r bs e r' : (0 < n)%nat -> Read n r = (bs, e, r') ->
    e = None \/ e = Some EOF /\ pending r' = [];
  Read_steps n r bs e r' : (0 < n)%nat -> Read n r = (bs, e, r') ->
    (steps r' <= steps r)%nat /\ (e = None -> (steps r' < steps r)%nat)
}.

(** A writer that reports every short write. *)
Class WriterLaws (W : Type) `{Writer W} (written : W -> bytes) : Prop := {
  Write_ok b w w' : Write b w = (Ok tt, w') -> written w' = written w ++ b
}.

#[export] Instance Buffer_WriterLaws : WriterLaws bytes (fun w => w).
Proof. constructor. intros b w w' Hw. by injection Hw. Qed.

Section WriteLaws.
Context `{WriterLaws W written}.

Lemma andthen_ok m k w :
  @andthen W m k = (Ok tt, w) -> exists w1, m = (Ok tt, w1) /\ k w1 = (Ok tt, w).
Proof. destruct m as [[[]| |] w1]; simpl; [eauto|done..]. Qed.

Lemma WriteLengthed_ok w b w' :
  WriteLengthed w b = (Ok tt, w') -> written w' = written w ++ lengthed b.
Proof.
  intros (w1 & H1%Write_ok & H2)%andthen_ok. unfold lengthed. rewrite app_assoc, <- H1.
  destruct (Z.ltb_spec (blen b) 1) as [Hb|Hb].
  - injection H2 as <-. destruct b; [by rewrite app_nil_r|]. unfold blen in Hb. simpl in Hb. lia.
  - by apply Write_ok in H2.
Qed.

Lemma write_all_ok m w w' :
  write_all w m = (Ok tt, w') -> written w' = written w ++ body m.
Proof.
  revert w. induction m as [|b m IH]; intros w; cbn [write_all].
  { intros [= <-]. by rewrite app_nil_r. }
  intros (w1 & H1%WriteLengthed_ok & H2%IH)%andthen_ok. by rewrite H2, H1, body_cons, app_assoc.
Qed.

Lemma WriteLengthedSlice_ok w m w' :
  WriteLengthedSlice w m = (Ok tt, w') -> written w' = written w ++ lengthed_slice m.
Proof.
  intros (w1 & H1%Write_ok & H2%write_all_ok)%andthen_ok. unfold lengthed_slice.
  by rewrite H2, H1, app_assoc.
Qed.

End WriteLaws.

(** A buffer takes everything. *)
Lemma write_all_buffer (w : bytes) m : fst (write_all w m) = Ok tt.
Proof.
  revert w. induction m as [|b m IH]; intros w; [done|]. cbn [write_all].
  unfold WriteLengthed, andthen, Write, Buffer_Writer. by destruct (_ <? 1).
Qed.

Lemma NewLengthedBytesSlice_ok m : NewLengthedBytesSlice m = Ok (lengthed_slice m).
Proof.
  unfold NewLengthedBytesSlice. destruct (WriteLengthedSlice _ m) as [e w] eqn:Ew.
  assert (e = Ok tt) as ->.
  { change (write_all (Uint64ToBytes (Z.of_nat (length m))) m = (e, w)) in Ew.
    pose proof (write_all_buffer (Uint64ToBytes (Z.of_nat (length m))) m) as Hw. by rewrite Ew in Hw. }
  apply (WriteLengthedSlice_ok (written := fun w => w)) in Ew. by rewrite Ew.
Qed.

(** ** Reading what was written *)
Section ReadLaws.
Context `{ReaderLaws R pending steps}.

Lemma fine_None : fine None = true. Proof. reflexivity. Qed.

(** The loop reads all it wants, or all there is. *)
Lemma ensure_loop_spec fuel want acc r :
  (steps r < fuel)%nat -> (length acc <= want)%nat ->
  if (want <=? length acc + length (pending r))%nat then
    exists e r', ensure_loop fuel want acc r = Some (acc ++ take (want - length acc) (pending r), e, r') /\
      fine e = true /\ (e = Some EOF -> pending r' = []) /\
      pending r' = drop (want - length acc) (pending r) /\ (steps r' <= steps r)%nat
  else exists r', ensure_loop fuel want acc r = Some (acc ++ pending r, Some "insufficient read"%string, r').
Proof.
  revert acc r. induction fuel as [|fuel IH]; intros acc r Hf Ha; [lia|]. cbn [ensure_loop].
  destruct (Nat.leb_spec want (length acc)) as [Hge|Hlt].
  { replace (want - length acc)%nat with 0%nat by lia.
    destruct (Nat.leb_spec want (length acc + length (pending r))); [|lia].
    exists None, r. by rewrite app_nil_r. }
  assert (0 < want - length acc)%nat as Hn by lia.
  destruct (Read (want - length acc) r) as [[bs e] r'] eqn:Er.
  destruct (Read_bytes _ _ _ _ _ Hn Er) as [Hl Hp].
  destruct (Read_steps _ _ _ _ _ Hn Er) as [Hs Hs'].
  assert (negb (fine e) = false) as ->
    by (destruct (Read_error _ _ _ _ _ Hn Er) as [->|[-> _]]; done).
  rewrite Hp, !length_app. destruct (Nat.eqb_spec (length acc + length bs) want) as [Eq|Hne].
  - destruct (Nat.leb_spec want (length acc + (length bs + length (pending r')))); [|lia].
    exists e, r'. rewrite take_app_length', drop_app_length' by lia. split_and!; try done.
    + destruct (Read_error _ _ _ _ _ Hn Er) as [->|[-> _]]; done.
    + intros ->. by destruct (Read_error _ _ _ _ _ Hn Er) as [|[_ ?]].
  - destruct (Read_error _ _ _ _ _ Hn Er) as [->|[-> Hnil]].
    + simpl is_eof. cbv iota. specialize (IH (acc ++ bs) r' ltac:(specialize (Hs' eq_refl); lia)).
      rewrite length_app in IH. specialize (IH ltac:(lia)).
      rewrite !Nat.add_assoc. destruct (Nat.leb_spec want (length acc + length bs + length (pending r'))).
      * destruct IH as (e & r2 & E1 & ? & ? & E2 & ?). exists e, r2.
        rewrite E1, E2, <- app_assoc, take_app_ge, drop_app_ge by lia.
        replace (want - length acc - length bs)%nat with (want - (length acc + length bs))%nat by lia.
        split_and!; [done..|by rewrite <- E2|done|lia].
      * destruct IH as (r2 & ->). exists r2. by rewrite app_assoc.
    + rewrite Hnil. simpl length. destruct (Nat.leb_spec want (length acc + (length bs + 0))); [lia|].
      exists r'. by rewrite app_nil_r.
Qed.

Lemma EnsureRead_ok fuel want r :
  (steps r < fuel)%nat -> (want <= length (pending r))%nat ->
  exists e r', EnsureRead fuel want r = Some (Z.of_nat want, take want (pending r), e, r') /\
    fine e = true /\ (e = Some EOF -> pending r' = []) /\
    pending r' = drop want (pending r) /\ (steps r' <= steps r)%nat.
Proof.
  intros Hf Hw. pose proof (ensure_loop_spec fuel want [] r Hf ltac:(simpl; lia)) as Hl.
  simpl length in Hl. destruct (Nat.leb_spec want (0 + length (pending r))); [|lia].
  rewrite Nat.sub_0_r in Hl. destruct Hl as (e & r' & El & ? & ? & ? & ?). exists e, r'. split; [|done].
  unfold EnsureRead. rewrite El. simpl. unfold blen. rewrite length_take, Nat.min_l by lia.
  rewrite Nat.sub_diag. simpl. by rewrite app_nil_r.
Qed.

Lemma ReadLength_ok fuel r i rest :
  (steps r < fuel)%nat -> u64 i -> pending r = Uint64ToBytes i ++ rest ->
  exists r', ReadLength fuel r = Some (8, i, None, r') /\ pending r' = rest /\ (steps r' <= steps r)%nat.
Proof.
  intros Hf Hi Hp. destruct (EnsureRead_ok fuel 8 r Hf) as (e & r' & He & Hfine & _ & Hp' & Hs).
  { rewrite Hp, length_app, Uint64ToBytes_length. lia. }
  exists r'. unfold ReadLength. rewrite He. cbn [mbind option_bind]. rewrite Hfine, Hp.
  rewrite take_app_length' by done. rewrite <- (app_nil_r (Uint64ToBytes i)), ReadLengthBytes_of by done.
  split; [done|]. split; [|done]. by rewrite Hp', Hp, drop_app_length'.
Qed.

Lemma ReadLengthed_ok fuel r b rest :
  (steps r < fuel)%nat -> blen b <= maxLengthedBytes -> pending r = lengthed b ++ rest ->
  exists e r', ReadLengthed fuel r = Some (8 + blen b, b, e, r') /\ fine e = true /\
    (e = Some EOF -> rest = []) /\ pending r' = rest /\ (steps r' <= steps r)%nat.
Proof.
  unfold maxLengthedBytes, blen. intros Hf Hb Hp. unfold lengthed in Hp. rewrite <- app_assoc in Hp.
  destruct (ReadLength_ok fuel r (blen b) (b ++ rest) Hf) as (r1 & R1 & Hp1 & Hs1);
    [unfold u64, blen; lia|done|].
  unfold ReadLengthed. rewrite R1. cbn [mbind option_bind]. rewrite bool_decide_eq_true_2 by done.
  cbn [negb]. unfold blen, maxLengthedBytes.
  destruct (Z.ltb_spec (Z.of_nat (length b)) 1) as [Hz|Hz].
  - exists None, r1. destruct b; [|simpl in Hz; lia]. done.
  - destruct (Z.ltb_spec 2147483647 (Z.of_nat (length b))); [lia|].
    destruct (EnsureRead_ok fuel (length b) r1) as (e & r2 & R2 & Hfine & He & Hp2 & Hs2);
      [lia|rewrite Hp1, length_app; lia|].
    rewrite Nat2Z.id, R2. cbn [mbind option_bind]. exists e, r2.
    rewrite wrap_u_small, Hp1, take_app_length' by (done || lia).
    rewrite Hp1, drop_app_length' in Hp2 by done.
    split_and!; try done; [intros E; by rewrite <- Hp2, He|lia].
Qed.

Lemma read_hs_ok fuel hs read hs0 r rest :
  (steps r < fuel)%nat -> Forall (fun b => blen b <= maxLengthedBytes) hs ->
  pending r = body hs ++ rest ->
  exists n r', read_hs fuel (length hs) read hs0 r = Some (n, hs0 ++ hs, None, r') /\
    pending r' = rest /\ (steps r' <= steps r)%nat.
Proof.
  revert read hs0 r. induction hs as [|b hs IH]; intros read hs0 r Hf Hb Hp.
  { exists read, r. by rewrite app_nil_r. }
  apply Forall_cons in Hb as [Hb Hbs]. cbn [length read_hs].
  rewrite body_cons, <- app_assoc in Hp.
  destruct (ReadLengthed_ok fuel r b _ Hf Hb Hp) as (e & r1 & R1 & Hfine & He & Hp1 & Hs1).
  rewrite R1. cbn [mbind option_bind].
  assert (is_eof e && (0 <? length hs)%nat = false) as ->.
  { apply andb_false_iff. destruct (Nat.ltb_spec 0 (length hs)) as [Hl|]; [left|by right].
    unfold is_eof. apply bool_decide_eq_false. intros E.
    specialize (He E). apply (f_equal length) in He.
    destruct hs; simpl in Hl; [lia|]. rewrite body_cons in He.
    rewrite !length_app, lengthed_length in He. simpl in He. lia. }
  rewrite Hfine. destruct (IH (wrap_u 64 (read + (8 + blen b))) (hs0 ++ [b]) r1) as (n & r2 & R2 & Hp2 & Hs2);
    [lia|done|done|].
  exists n, r2. rewrite R2, <- app_assoc. split; [done|]. split; [done|lia].
Qed.

Lemma ReadLengthedSlice_ok fuel r hs rest :
  (steps r < fuel)%nat -> Forall (fun b => blen b <= maxLengthedBytes) hs ->
  Z.of_nat (length hs) <= maxLengthBytes -> pending r = lengthed_slice hs ++ rest ->
  exists n r', ReadLengthedSlice fuel r = Some (n, hs, None, r') /\
    pending r' = rest /\ (steps r' <= steps r)%nat.
Proof.
  unfold maxLengthBytes, lengthed_slice. intros Hf Hb Hl Hp. rewrite <- app_assoc in Hp.
  assert (u64 (Z.of_nat (length hs))) as Hu by (unfold u64; lia).
  destruct (ReadLength_ok fuel r _ _ Hf Hu Hp) as (r1 & R1 & Hp1 & Hs1).
  unfold ReadLengthedSlice, maxLengthBytes. rewrite R1. cbn [mbind option_bind].
  rewrite fine_None. simpl is_eof. rewrite andb_false_r.
  destruct (Z.ltb_spec (Z.of_nat (length hs)) 1) as [Hz|Hz].
  - exists 8, r1. destruct hs; [done|simpl in Hz; lia].
  - destruct (Z.ltb_spec 32767 (Z.of_nat (length hs))); [lia|]. rewrite Nat2Z.id.
    destruct (read_hs_ok fuel hs 8 [] r1 rest ltac:(lia) Hb Hp1) as (n & r2 & R2 & ? & ?).
    exists n, r2. split; [done|]. split; [done|lia].
Qed.

End ReadLaws.

(** ** Properties *)

(** What [NewLengthedBytesSlice] writes, [ReadLengthedBytesSlice] reads
    back with whatever follows, for up to [maxLengthBytes] slices; and what it
    reads from any bytes is all that was there: the bytes are the slices laid
    out again and the rest. *)
Theorem lengthed_slice_roundtrip m rest b :
  small (lengthed_slice m ++ rest) -> Z.of_nat (length m) <= maxLengthBytes -> is_bytes b -> small b ->
  (exists w, NewLengthedBytesSlice m = Ok w /\ ReadLengthedBytesSlice (w ++ rest) = Ok (m, rest)) /\
  (forall m' left, ReadLengthedBytesSlice b = Ok (m', left) ->
     (exists i, ReadLengthBytes b = Ok i /\ i <= maxLengthBytes) ->
     b = lengthed_slice m' ++ left).
Proof.
  unfold maxLengthBytes. intros Hs Hm Hb Hsb. split.
  - eexists. split; [apply NewLengthedBytesSlice_ok|]. unfold ReadLengthedBytesSlice, maxLengthBytes.
    unfold lengthed_slice in *. rewrite <- app_assoc in *. rewrite ReadLengthBytes_of by (unfold u64; lia).
    unfold small, blen in *. rewrite length_app, Uint64ToBytes_length in *.
    destruct (Z.ltb_spec (Z.of_nat (8 + length (body m ++ rest))) 8); [lia|]. run.
    destruct (Z.ltb_spec 32767 (Z.of_nat (length m))); [lia|].
    rewrite drop_app_length', Nat2Z.id by done. apply read_slices_of. unfold small, blen. lia.
  - intros m' left Hr (i & Hi & Hmax). unfold ReadLengthedBytesSlice, maxLengthBytes in Hr.
    destruct (ReadLengthBytes_inv b i Hb Hi) as (Hu & Hlen & Eb).
    destruct (blen b <? 8); [done|]. rewrite Hi in Hr. cbn [mbind res_bind] in Hr.
    destruct (Z.ltb_spec 32767 i); [lia|].
    assert (small (drop 8 b)) as Hsd by (unfold small, blen in *; rewrite length_drop; lia).
    destruct (read_slices_inv _ _ _ _ (Forall_drop _ 8 _ Hb) Hsd Hr) as [El Ed].
    unfold lengthed_slice. rewrite El, Z2Nat.id by (unfold u64 in Hu; lia).
    by rewrite <- app_assoc, <- Ed.
Qed.

(** More than [maxLengthBytes] slices are written, and read back as no
    slices, nothing left and no error: the count is checked with the nil error
    of the read before it. *)
Theorem huge_slice_read_as_nothing m rest :
  maxLengthBytes < Z.of_nat (length m) < 2 ^ 64 ->
  exists w, NewLengthedBytesSlice m = Ok w /\ ReadLengthedBytesSlice (w ++ rest) = Ok ([], []).
Proof.
  unfold maxLengthBytes. intros Hm. eexists. split; [apply NewLengthedBytesSlice_ok|].
  unfold ReadLengthedBytesSlice, lengthed_slice, maxLengthBytes. rewrite <- app_assoc.
  rewrite ReadLengthBytes_of by (unfold u64; lia).
  unfold blen. rewrite length_app, Uint64ToBytes_length.
  destruct (Z.ltb_spec (Z.of_nat (8 + length (body m ++ rest))) 8); [lia|]. run.
  by destruct (Z.ltb_spec 32767 (Z.of_nat (length m))); [|lia].
Qed.

(** Several bodies, written and read one after the other. *)
Fixpoint write_bodies {W} `{Writer W} (f : BytesFrameWriter W) (bs : list bytes) : err * BytesFrameWriter W :=
  match bs with
  | [] => (Ok tt, f)
  | b :: bs => match fw_Lengthed f b with
               | (Ok _, f) => write_bodies f bs
               | (e, f) => (e, f)
               end
  end.

Fixpoint read_bodies {R} `{Reader R} (fuel k : nat) (f : BytesFrameReader R) (s : list bytes)
    : option (option string * list bytes * BytesFrameReader R) :=
  match k with
  | O => Some (None, s, f)
  | S k =>
      fr_Lengthed fuel f (Some (fun s b => (None, s ++ [b]))) s ≫= fun '(e, s, f) =>
      if negb (bool_decide (e = None)) then Some (e, s, f) else read_bodies fuel k f s
  end.

Section FrameLemmas.
Context `{WriterLaws W written} `{ReaderLaws R pending steps}.

Lemma write_bodies_ok bs (f f' : BytesFrameWriter W) :
  write_bodies f bs = (Ok tt, f') -> written (fw_w f') = written (fw_w f) ++ body bs.
Proof.
  revert f. induction bs as [|b bs IH]; intros f; cbn [write_bodies].
  { intros [= <-]. by rewrite app_nil_r. }
  unfold fw_Lengthed. destruct (WriteLengthed (fw_w f) b) as [[[]| |] w] eqn:Ew; [|done..].
  intros Hw%IH. rewrite Hw. cbn [fw_w]. apply WriteLengthed_ok in Ew.
  by rewrite Ew, body_cons, app_assoc.
Qed.

Lemma frame_written w0 f0 hs f1 bs (f2 : BytesFrameWriter W) :
  NewBytesFrameWriter w0 = (Ok tt, f0) -> fw_Header f0 hs = (Ok tt, f1) ->
  write_bodies f1 bs = (Ok tt, f2) ->
  written (fw_w f2) = written w0 ++ bytesFrameVersion ++ lengthed_slice hs ++ body bs.
Proof.
  unfold NewBytesFrameWriter, fw_Header. destruct (Write bytesFrameVersion w0) as [e w] eqn:E0.
  intros [= -> <-]. cbn [headerWritten fw_w]. destruct (andthen _ _) as [e' w'] eqn:E1.
  intros [= -> <-] Hb%write_bodies_ok. apply Write_ok in E0.
  apply (WriteLengthedSlice_ok w hs w') in E1. cbn [fw_w] in Hb. by rewrite Hb, E1, E0, <- !app_assoc.
Qed.

Lemma read_bodies_ok fuel bs (f : BytesFrameReader R) s rest :
  headerRead f = true -> (steps (fr_r f) < fuel)%nat ->
  Forall (fun b => blen b <= maxLengthedBytes) bs -> pending (fr_r f) = body bs ++ rest ->
  exists f', read_bodies fuel (length bs) f s = Some (None, s ++ bs, f') /\ pending (fr_r f') = rest.
Proof.
  revert f s. induction bs as [|b bs IH]; intros f s Hh Hf Hb Hp.
  { exists f. by rewrite app_nil_r. }
  apply Forall_cons in Hb as [Hb Hbs]. rewrite body_cons, <- app_assoc in Hp.
  destruct (ReadLengthed_ok fuel (fr_r f) b _ Hf Hb Hp) as (e & r1 & R1 & Hfine & _ & Hp1 & Hs1).
  cbn [length read_bodies]. unfold fr_Lengthed, exhaustHeader. rewrite Hh. cbn [mbind option_bind].
  rewrite bool_decide_eq_true_2 by done. cbn [negb]. rewrite R1. cbn [mbind option_bind]. rewrite Hfine.
  assert ((8 + blen b <? 1) = false) as -> by (apply Z.ltb_ge; unfold blen; lia). cbn [andb].
  cbn [mbind option_bind]. rewrite bool_decide_eq_true_2 by done. cbn [negb].
  destruct (IH {| fr_r := r1; version := version f; headerRead := headerRead f |} (s ++ [b]))
    as (f' & Hf' & Hp'); [done|simpl; lia|done|done|].
  exists f'. by rewrite Hf', <- app_assoc.
Qed.

End FrameLemmas.

(** C33: a frame comes back from any reader whose first read gives the two bytes of the
    version. Whatever the writer, if it reports its failures, and whatever the sizes of
    the reads after that, the reader gets the version, the headers and the bodies that
    were written, and stops at what follows the frame; fuel above the number of reads to
    the end of the stream is enough. When the first read gives one byte the headers are
    lost ([short_version_read_loses_header]). *)
Theorem frame_roundtrip {W} `{WriterLaws W written} {R} `{ReaderLaws R pending steps}
    fuel w0 f0 hs f1 bs (f2 : BytesFrameWriter W) r rest bv ev r1 :
  NewBytesFrameWriter w0 = (Ok tt, f0) -> fw_Header f0 hs = (Ok tt, f1) ->
  write_bodies f1 bs = (Ok tt, f2) ->
  Z.of_nat (length hs) <= maxLengthBytes ->
  Forall (fun b => blen b <= maxLengthedBytes) hs -> Forall (fun b => blen b <= maxLengthedBytes) bs ->
  written w0 ++ pending r = written (fw_w f2) ++ rest ->
  (steps r < fuel)%nat -> Read 2 r = (bv, ev, r1) -> length bv = 2%nat ->
  exists g g1 g2, NewBytesFrameReader r = Ok g /\ version g = bytesFrameVersion /\
    fr_Header fuel g = Some (hs, None, g1) /\
    read_bodies fuel (length bs) g1 [] = Some (None, bs, g2) /\ pending (fr_r g2) = rest.
Proof.
  intros H0' H1' H2' Hl Hhs Hbs Hp Hf Hv Hlen.
  rewrite (frame_written _ _ _ _ _ _ H0' H1' H2'), <- !app_assoc in Hp. apply app_inv_head in Hp.
  assert (0 < 2)%nat as Hn by lia.
  destruct (Read_bytes _ _ _ _ _ Hn Hv) as [_ Hp1]. destruct (Read_steps _ _ _ _ _ Hn Hv) as [Hs1 _].
  rewrite Hp in Hp1. apply app_inj_1 in Hp1 as [<- Hp1]; [|by rewrite Hlen].
  destruct (ReadLengthedSlice_ok fuel r1 hs (body bs ++ rest)) as (n & r2 & R2 & Hp2 & Hs2);
    [lia|done|done|done|].
  set (g := {| fr_r := r1; version := bytesFrameVersion; headerRead := false |}).
  destruct (read_bodies_ok fuel bs (set_reader g r2) [] rest) as (g2 & Hg2 & Hp3); [done|simpl; lia|done|done|].
  exists g, (set_reader g r2), g2. split_and!; try done.
  - unfold NewBytesFrameReader. rewrite Hv.
    assert (fine ev = true) as -> by (destruct (Read_error _ _ _ _ _ Hn Hv) as [->|[-> _]]; done).
    done.
  - unfold fr_Header. simpl headerRead. cbv iota. simpl fr_r. rewrite R2. done.
Qed.

(** The version is taken with a single read.  When that read gives one
    byte - a stream may - the frame of one to 255 headers is read as one
    without headers, and no error is returned: the second byte of the version
    becomes the first of the count. *)
Theorem short_version_read_loses_header {R} `{ReaderLaws R pending steps} fuel hs tail r bv ev r1 :
  (1 <= length hs < 256)%nat -> pending r = bytesFrameVersion ++ lengthed_slice hs ++ tail ->
  (steps r < fuel)%nat -> Read 2 r = (bv, ev, r1) -> length bv = 1%nat ->
  exists g g1, NewBytesFrameReader r = Ok g /\ version g = bytesFrameVersion /\
    fr_Header fuel g = Some ([], None, g1).
Proof.
  intros Hl Hp Hf Hv Hlen. assert (0 < 2)%nat as Hn by lia.
  destruct (Read_bytes _ _ _ _ _ Hn Hv) as [_ Hp1]. destruct (Read_steps _ _ _ _ _ Hn Hv) as [Hs1 _].
  destruct bv as [|x [|]]; [done| |done]. rewrite Hp in Hp1.
  assert (x = 0 /\ pending r1 = 0 :: (Uint64ToBytes (Z.of_nat (length hs)) ++ body hs) ++ tail) as [-> Hp2]
    by (by injection Hp1).
  assert (Uint64ToBytes (Z.of_nat (length hs)) = [0; 0; 0; 0; 0; 0; 0; Z.of_nat (length hs)]) as Hc.
  { unfold Uint64ToBytes. cbn [fmap list_fmap].
    rewrite (byte_of_digit _ 0 0 (Z.of_nat (length hs)) 0) by lia.
    by rewrite !(byte_of_digit (Z.of_nat (length hs)) _ 0 0 (Z.of_nat (length hs))) by lia. }
  rewrite Hc in Hp2.
  destruct (ReadLength_ok fuel r1 0 (Z.of_nat (length hs) :: body hs ++ tail)) as (r2 & R2 & _ & _);
    [lia|done|by rewrite Hp2, <- app_assoc|].
  set (g := {| fr_r := r1; version := bytesFrameVersion; headerRead := false |}).
  exists g, (set_reader g r2). split_and!; [|done|].
  - unfold NewBytesFrameReader. rewrite Hv.
    assert (fine ev = true) as -> by (destruct (Read_error _ _ _ _ _ Hn Hv) as [->|[-> _]]; done).
    done.
  - unfold fr_Header, ReadLengthedSlice. simpl headerRead. cbv iota. simpl fr_r. rewrite R2. done.
Qed.

(** ** A reader in chunks *)
Record Chunked := { c_data : bytes; c_sizes : list nat }.

#[export] Instance Chunked_Reader : Reader Chunked := fun n r =>
  match c_data r with
  | [] => ([], Some EOF, r)
  | d => let k := match c_sizes r with [] => n | s :: _ => Nat.min n s end in
         (take k d, None, {| c_data := drop k d; c_sizes := tail (c_sizes r) |})
  end.

#[export] Instance Chunked_ReaderLaws :
  ReaderLaws Chunked c_data (fun r => (length (c_data r) + length (c_sizes r))%nat).
Proof.
  constructor; intros n [d ss] bs e r' Hn; unfold Read, Chunked_Reader; cbn [c_data c_sizes];
    (destruct d as [|x d]; intros [= <- <- <-]; cbn [c_data c_sizes]).
  - by split; [simpl; lia|].
  - rewrite length_take, take_drop. split; [|done]. destruct ss; lia.
  - by right.
  - by left.
  - by split.
  - rewrite length_drop. destruct ss; simpl; split; intros; lia.
Qed.

Definition demo_slices : list bytes := [[1; 2; 3]; []; [255]].
Definition demo_written : bytes := bytesFrameVersion ++ lengthed_slice demo_slices ++ body [[7; 8]; [9]].
Definition demo_reader : Chunked := {| c_data := demo_written ++ [42]; c_sizes := [2; 1; 0; 5; 3]%nat |}.

Lemma lengthed_slice_roundtrip_witness :
  ReadLengthedBytesSlice (lengthed_slice demo_slices ++ [42]) = Ok (demo_slices, [42]).
Proof.
  destruct (lengthed_slice_roundtrip demo_slices [42] (lengthed_slice demo_slices))
    as [(w & Hw & Hr) _].
  - vm_compute. discriminate.
  - vm_compute. discriminate.
  - apply (bool_decide_unpack _). vm_compute. exact I.
  - vm_compute. discriminate.
  - vm_compute in Hw. injection Hw as <-. exact Hr.
Defined.

Lemma huge_slice_read_as_nothing_witness :
  exists w, NewLengthedBytesSlice (replicate (Z.to_nat 32768) []) = Ok w /\
    ReadLengthedBytesSlice (w ++ []) = Ok ([], []).
Proof.
  apply (huge_slice_read_as_nothing (replicate (Z.to_nat 32768) []) []).
  rewrite length_replicate, Z2Nat.id by lia. split; reflexivity.
Defined.

Lemma frame_roundtrip_witness :
  exists g g1 g2, NewBytesFrameReader demo_reader = Ok g /\
    fr_Header 100 g = Some (demo_slices, None, g1) /\
    read_bodies 100 2 g1 [] = Some (None, [[7; 8]; [9]], g2) /\ c_data (fr_r g2) = [42].
Proof.
  destruct (frame_roundtrip (written := fun w : bytes => w) 100 ([] : bytes)
      {| fw_w := bytesFrameVersion; headerWritten := false |} demo_slices
      {| fw_w := bytesFrameVersion ++ lengthed_slice demo_slices; headerWritten := true |} [[7; 8]; [9]]
      {| fw_w := demo_written; headerWritten := true |} demo_reader [42] [0; 0] None
      {| c_data := drop 2 (demo_written ++ [42]); c_sizes := [1; 0; 5; 3]%nat |})
    as (g & g1 & g2 & H0 & _ & H1 & H2 & H3); try reflexivity.
  - vm_compute. discriminate.
  - apply (bool_decide_unpack _). vm_compute. exact I.
  - apply (bool_decide_unpack _). vm_compute. exact I.
  - apply (bool_decide_unpack _). vm_compute. exact I.
  - exists g, g1, g2. split; [exact H0|]. split; [exact H1|]. split; [exact H2|exact H3].
Defined.

Lemma short_version_read_loses_header_witness :
  let r := {| c_data := demo_written; c_sizes := [1%nat] |} in
  exists g g1, NewBytesFrameReader r = Ok g /\ fr_Header 100 g = Some ([], None, g1).
Proof.
  destruct (short_version_read_loses_header 100 demo_slices (body [[7; 8]; [9]])
      {| c_data := demo_written; c_sizes := [1%nat] |} [0] None
      {| c_data := drop 1 demo_written; c_sizes := [] |}) as (g & g1 & H0 & _ & H1); try reflexivity.
  - split; apply (bool_decide_unpack _); vm_compute; exact I.
  - apply (bool_decide_unpack _). vm_compute. exact I.
  - exists g, g1. split; [exact H0|exact H1].
Defined.
