(* ===== verification/LockedMap.v ===== *)
(** * Locked values and sharded maps ([util/lock.go])

    Every method of these types takes the lock of its receiver for its whole
    body, so a call is one step on the state; the callbacks given to a method run
    inside it.  A callback takes the value - the zero value of the type when
    there is none - and whether it was there; it returns a value or an error, or
    panics, which releases the lock and leaves the state.

    [LockedMapOps] is the interface [LockedMap], [LockedMapLaws] what it
    promises: to behave like the plain map of [SingleLockedMap].  [ShardedMap] is
    over any implementation of the interface that keeps the promise.  The maps of
    a [ShardedMap] are not sharded themselves here ([NewDeepShardedMap]), and the
    iteration order of a Go map is an argument of [Traverse]. *)
From S2P Require Import Prelude.

Open Scope Z_scope.

Abbreviation ErrLockedSetIgnore := "ignore to set locked value"%string.
Abbreviation ErrLockedMapClosed := "locked map closed"%string.

(** The zero value of a type. *)
Class Zero (A : Type) := zero : A.

(** ** A locked value *)
Section LockedValue.
Context {T : Type} `{!Zero T}.

Record Locked := { l_value : T; l_isempty : bool }.

Definition EmptyLocked : Locked := {| l_value := zero; l_isempty := true |}.
Definition NewLocked (v : T) : Locked := {| l_value := v; l_isempty := false |}.
Definition Locked_Value (l : Locked) : T * bool :=
  if l_isempty l then (zero, true) else (l_value l, false).
Definition MustValue (l : Locked) : T := l_value l.
Definition Locked_SetValue (l : Locked) (v : T) : Locked := {| l_value := v; l_isempty := false |}.
Definition EmptyValue (l : Locked) : Locked := {| l_value := zero; l_isempty := true |}.
Definition Locked_Get (l : Locked) (f : T -> bool -> err) : err := f (l_value l) (l_isempty l).

Definition Locked_GetOrCreate (l : Locked) (f : T -> bool -> err) (create : res T) : err * Locked :=
  if negb (l_isempty l) then (f (l_value l) false, l)
  else match create with
  | Err e => (if bool_decide (e = ErrLockedSetIgnore) then Ok tt else Err e, l)
  | Panic => (Panic, l)
  | Ok i => (f i true, NewLocked i)
  end.

Definition Locked_Set (l : Locked) (f : T -> bool -> res T) : res T * Locked :=
  match f (l_value l) (l_isempty l) with
  | Ok i => (Ok i, NewLocked i)
  | Err e => (if bool_decide (e = ErrLockedSetIgnore) then Ok (l_value l) else Err e, l)
  | Panic => (Panic, l)
  end.

Definition Locked_Empty (l : Locked) (f : T -> bool -> err) : err * Locked :=
  match f (l_value l) (l_isempty l) with
  | Ok _ => (Ok tt, EmptyValue l)
  | Err e => (if bool_decide (e = ErrLockedSetIgnore) then Ok tt else Err e, l)
  | Panic => (Panic, l)
  end.

End LockedValue.

(** ** Single maps *)
Section Maps.
Context {K V : Type} `{Countable K} `{!Zero V}.

(** [None] is the closed map, whose [m] is nil. *)
Abbreviation SingleLockedMap := (option (gmap K V)).

Definition NewSingleLockedMap : SingleLockedMap := Some ∅.

(** [v, found := l.m[k]], also of a nil map. *)
Definition at_key (l : SingleLockedMap) (k : K) : V * bool :=
  match l ≫= (.!! k) with Some v => (v, true) | None => (zero, false) end.

Definition s_Exists (k : K) (l : SingleLockedMap) : bool := snd (at_key l k).
Definition s_Value (k : K) (l : SingleLockedMap) : V * bool := at_key l k.

Definition s_SetValue (k : K) (v : V) (l : SingleLockedMap) : bool * SingleLockedMap :=
  match l with
  | None => (false, l)
  | Some m => (negb (snd (at_key l k)), Some (<[k := v]> m))
  end.

Definition s_RemoveValue (k : K) (l : SingleLockedMap) : bool * SingleLockedMap :=
  match l with
  | None => (false, l)
  | Some m => if snd (at_key l k) then (true, Some (delete k m)) else (false, l)
  end.

Definition s_Get (k : K) (f : V -> bool -> err) (l : SingleLockedMap) : err :=
  let '(v, found) := at_key l k in f v found.

Definition s_GetOrCreate (k : K) (f : V -> bool -> err) (create : res V) (l : SingleLockedMap)
    : err * SingleLockedMap :=
  match l with
  | None => (Err ErrLockedMapClosed, l)
  | Some m =>
      let '(i, found) := at_key l k in
      if found : bool then (f i false, l)
      else match create with
      | Ok i => (f i true, Some (<[k := i]> m))
      | Err e => (if bool_decide (e = ErrLockedSetIgnore) then Ok tt else Err e, l)
      | Panic => (Panic, l)
      end
  end.

Definition s_Set (k : K) (f : V -> bool -> res V) (l : SingleLockedMap)
    : res (V * bool) * SingleLockedMap :=
  match l with
  | None => (Err ErrLockedMapClosed, l)
  | Some m =>
      let '(i, found) := at_key l k in
      match f i found with
      | Ok j => (Ok (j, negb found), Some (<[k := j]> m))
      | Err e => (if bool_decide (e = ErrLockedSetIgnore) then Ok (i, false) else Err e, l)
      | Panic => (Panic, l)
      end
  end.

(** [Remove] does not look whether the map is closed. *)
Definition s_Remove (k : K) (f : V -> bool -> err) (l : SingleLockedMap) : res bool * SingleLockedMap :=
  let '(i, found) := at_key l k in
  match f i found with
  | Ok _ => (Ok found, if found then delete k <$> l else l)
  | Err e => (if bool_decide (e = ErrLockedSetIgnore) then Ok false else Err e, l)
  | Panic => (Panic, l)
  end.

(** The value, [created], [removed]. *)
Definition s_SetOrRemove (k : K) (f : V -> bool -> res (V * bool)) (l : SingleLockedMap)
    : res (V * bool * bool) * SingleLockedMap :=
  match l with
  | None => (Err ErrLockedMapClosed, l)
  | Some m =>
      let '(i, found) := at_key l k in
      match f i found with
      | Err e => (if bool_decide (e = ErrLockedSetIgnore) then Ok (i, false, false) else Err e, l)
      | Panic => (Panic, l)
      | Ok (j, remove) =>
          if found && remove then (Ok (zero, false, true), Some (delete k m))
          else if negb remove then (Ok (j, negb found, false), Some (<[k := j]> m))
          else (Ok (zero, false, false), l)
      end
  end.

Definition s_Len (l : SingleLockedMap) : Z :=
  match l with Some m => Z.of_nat (size m) | None => 0 end.
Definition s_Empty (l : SingleLockedMap) : SingleLockedMap := (fun _ => ∅) <$> l.
Definition s_Close (l : SingleLockedMap) : SingleLockedMap := None.
Definition s_Map (l : SingleLockedMap) : gmap K V := default ∅ l.

(** [Traverse] over the entries in some order, the callback over [S]. *)
Fixpoint traverse {S} (f : S -> K -> V -> S * bool) (s : S) (l : list (K * V)) : S * bool :=
  match l with
  | [] => (s, true)
  | (k, v) :: l => let '(s, keep) := f s k v in if keep : bool then traverse f s l else (s, false)
  end.

Definition s_Traverse {S} (order : gmap K V -> list (K * V)) (f : S -> K -> V -> S * bool) (s : S)
    (l : SingleLockedMap) : S * bool :=
  traverse f s (order (s_Map l)).

(** ** The interface *)
Class LockedMapOps (M : Type) := {
  NewMap : M;
  Exists_ : K -> M -> bool;
  Value : K -> M -> V * bool;
  SetValue : K -> V -> M -> bool * M;
  RemoveValue : K -> M -> bool * M;
  Get : K -> (V -> bool -> err) -> M -> err;
  GetOrCreate : K -> (V -> bool -> err) -> res V -> M -> err * M;
  Set_ : K -> (V -> bool -> res V) -> M -> res (V * bool) * M;
  Remove : K -> (V -> bool -> err) -> M -> res bool * M;
  SetOrRemove : K -> (V -> bool -> res (V * bool)) -> M -> res (V * bool * bool) * M;
  Len : M -> Z;
  Empty : M -> M;
  Close : M -> M;
  Map : M -> gmap K V
}.

#[export] Instance Single_Ops : LockedMapOps SingleLockedMap := {|
  NewMap := NewSingleLockedMap; Exists_ := s_Exists; Value := s_Value; SetValue := s_SetValue;
  RemoveValue := s_RemoveValue; Get := s_Get; GetOrCreate := s_GetOrCreate; Set_ := s_Set;
  Remove := s_Remove; SetOrRemove := s_SetOrRemove; Len := s_Len; Empty := s_Empty;
  Close := s_Close; Map := s_Map
|}.

(** Seen as a plain map, [m] answers like one and becomes what it becomes. *)
Definition sim {M A} (view : M -> SingleLockedMap) (x : A * M) (y : A * SingleLockedMap) : Prop :=
  fst x = fst y /\ view (snd x) = snd y.

Class LockedMapLaws (M : Type) `{LockedMapOps M} (view : M -> SingleLockedMap) : Prop := {
  NewMap_law : view NewMap = NewSingleLockedMap;
  Exists_law k m : Exists_ k m = s_Exists k (view m);
  Value_law k m : Value k m = s_Value k (view m);
  SetValue_law k v m : sim view (SetValue k v m) (s_SetValue k v (view m));
  RemoveValue_law k m : sim view (RemoveValue k m) (s_RemoveValue k (view m));
  Get_law k f m : Get k f m = s_Get k f (view m);
  GetOrCreate_law k f c m : sim view (GetOrCreate k f c m) (s_GetOrCreate k f c (view m));
  Set_law k f m : sim view (Set_ k f m) (s_Set k f (view m));
  Remove_law k f m : sim view (Remove k f m) (s_Remove k f (view m));
  SetOrRemove_law k f m : sim view (SetOrRemove k f m) (s_SetOrRemove k f (view m));
  Empty_law m : view (Empty m) = s_Empty (view m);
  Close_law m : view (Close m) = s_Close (view m);
  Map_law m : Map m = s_Map (view m)
}.

#[export] Instance Single_Laws : LockedMapLaws SingleLockedMap id.
Proof. by constructor. Qed.

(** ** Sharded maps *)
Section Sharded.
Context {M : Type} `{LockedMapOps M} (hashf : K -> nat).

(** The maps by index, nil until used; no map at all is the closed state.
    [length_] counts the keys. *)
Record ShardedMap := { sharded : list (option M); length_ : Z }.

Definition NewShardedMap (size : nat) : res ShardedMap :=
  if (size <? 1)%nat then Err "new ShardedMap; empty size"
  else if (size =? 1)%nat then Err "new ShardedMap; 1 size; use LockedMap"
  else Ok {| sharded := replicate size None; length_ := 0 |}.

(** An index out of range panics; [default_index] is never out of range. *)
Inductive item := Closed | Missing | Found (m : M).
Definition loadItem (l : ShardedMap) (k : K) : res item :=
  if (length (sharded l) <? 1)%nat then Ok Closed
  else match sharded l !! hashf k with
  | None => Panic
  | Some None => Ok Missing
  | Some (Some m) => Ok (Found m)
  end.

(** [newItem]: the map of the key, made and stored when there is none. *)
Definition newItem (l : ShardedMap) (k : K) : res (option (ShardedMap * M)) :=
  if (length (sharded l) <? 1)%nat then Ok None
  else match sharded l !! hashf k with
  | None => Panic
  | Some None =>
      let m := NewMap in
      Ok (Some ({| sharded := <[hashf k := Some m]> (sharded l); length_ := length_ l |}, m))
  | Some (Some m) => Ok (Some (l, m))
  end.

(** The item of a key is a pointer: what it became, and what is added to the length. *)
Definition store (l : ShardedMap) (k : K) (m : M) (added : Z) : ShardedMap :=
  {| sharded := <[hashf k := Some m]> (sharded l); length_ := length_ l + added |}.

Definition d_Exists (k : K) (l : ShardedMap) : res bool :=
  loadItem l k ≫= fun i => match i with
  | Found m => Ok (Exists_ k m)
  | _ => Ok false
  end.

Definition d_Value (k : K) (l : ShardedMap) : res (V * bool) :=
  loadItem l k ≫= fun i => match i with
  | Found m => Ok (Value k m)
  | _ => Ok (zero, false)
  end.

Definition d_SetValue (k : K) (v : V) (l : ShardedMap) : res (bool * ShardedMap) :=
  newItem l k ≫= fun i => match i with
  | None => Ok (false, l)
  | Some (l, m) =>
      let '(added, m) := SetValue k v m in
      Ok (added, store l k m (if added : bool then 1 else 0))
  end.

Definition d_RemoveValue (k : K) (l : ShardedMap) : res (bool * ShardedMap) :=
  loadItem l k ≫= fun i => match i with
  | Found m =>
      let '(removed, m) := RemoveValue k m in
      Ok (removed, store l k m (if removed : bool then -1 else 0))
  | _ => Ok (false, l)
  end.

Definition d_Get (k : K) (f : V -> bool -> err) (l : ShardedMap) : err :=
  loadItem l k ≫= fun i => match i with
  | Closed => Err ErrLockedMapClosed
  | Missing => f zero false
  | Found m => Get k f m
  end.

(** The callback is wrapped to see whether it was called with [created]: it was
    when the key was missing and [create] gave a value.  The length grows only
    when the callback did not fail. *)
Definition was_created (k : K) (create : res V) (m : M) : bool :=
  negb (Exists_ k m) && is_ok create.
Definition d_GetOrCreate (k : K) (f : V -> bool -> err) (create : res V) (l : ShardedMap)
    : res (err * ShardedMap) :=
  newItem l k ≫= fun i => match i with
  | None => Ok (Err ErrLockedMapClosed, l)
  | Some (l, m) =>
      let created := was_created k create m in
      let '(e, m) := GetOrCreate k f create m in
      Ok (e, store l k m (if is_ok e && created then 1 else 0))
  end.

Definition d_Set (k : K) (f : V -> bool -> res V) (l : ShardedMap) : res (res (V * bool) * ShardedMap) :=
  newItem l k ≫= fun i => match i with
  | None => Ok (Err ErrLockedMapClosed, l)
  | Some (l, m) =>
      let '(r, m) := Set_ k f m in
      Ok (r, store l k m (match r with Ok (_, true) => 1 | _ => 0 end))
  end.

Definition d_Remove (k : K) (f : V -> bool -> err) (l : ShardedMap) : res (res bool * ShardedMap) :=
  loadItem l k ≫= fun i => match i with
  | Closed => Ok (Err ErrLockedMapClosed, l)
  | Found m =>
      let '(r, m) := Remove k f m in
      Ok (r, store l k m (match r with Ok true => -1 | _ => 0 end))
  | Missing =>
      Ok (match f zero false with
          | Ok _ => Ok false
          | Err e => if bool_decide (e = ErrLockedSetIgnore) then Ok false else Err e
          | Panic => Panic
          end, l)
  end.

Definition d_SetOrRemove (k : K) (f : V -> bool -> res (V * bool)) (l : ShardedMap)
    : res (res (V * bool * bool) * ShardedMap) :=
  newItem l k ≫= fun i => match i with
  | None => Ok (Err ErrLockedMapClosed, l)
  | Some (l, m) =>
      let '(r, m) := SetOrRemove k f m in
      Ok (r, store l k m (match r with
                          | Ok (_, true, _) => 1
                          | Ok (_, false, true) => -1
                          | _ => 0
                          end))
  end.

Definition d_Len (l : ShardedMap) : Z := length_ l.
Definition d_Empty (l : ShardedMap) : ShardedMap :=
  {| sharded := (fmap (M := option) Empty) <$> sharded l; length_ := 0 |}.
Definition d_Close (l : ShardedMap) : ShardedMap := {| sharded := []; length_ := 0 |}.

(** [Map]: the maps poured one after the other. *)
Fixpoint pour (acc : gmap K V) (ms : list (option M)) : gmap K V :=
  match ms with
  | [] => acc
  | None :: ms => pour acc ms
  | Some m :: ms => pour (Map m ∪ acc) ms
  end.
Definition d_Map (l : ShardedMap) : gmap K V := pour ∅ (sharded l).

End Sharded.

End Maps.
Arguments ShardedMap : clear implicits.
Arguments item : clear implicits.

(** ** The index of a string key: [stringdjb2] *)
Definition mix (d c : Z) : Z := Z.lxor (wrap_u 32 (d * 33)) c.
Definition code (k : list Z) (i : nat) : Z := nth i k 0.

(** The unrolled loop, four characters a round while [i < l - 4]. *)
Fixpoint djb2_loop (fuel : nat) (k : list Z) (i : nat) (d : Z) : nat * Z :=
  match fuel with
  | O => (i, d)
  | S fuel =>
      if (i <? length k - 4)%nat then
        djb2_loop fuel k (i + 4)
          (mix (mix (mix (mix d (code k i)) (code k (i + 1))) (code k (i + 2))) (code k (i + 3)))
      else (i, d)
  end.

Definition stringdjb2 (seed : Z) (k : list Z) : Z :=
  let l := length k in
  let d := wrap_u 32 (5381 + seed + Z.of_nat l) in
  let '(i, d) := if (4 <=? l)%nat then djb2_loop l k 0 d else (0%nat, d) in
  let d := match (l - i)%nat with
           | 2%nat => mix d (code k i)
           | 3%nat => mix (mix d (code k i)) (code k (i + 1))
           | 4%nat => mix (mix (mix d (code k i)) (code k (i + 1))) (code k (i + 2))
           | _ => d
           end in
  Z.lxor d (Z.shiftr d 16).

(** [defaultHashFunc] of a string key. *)
Definition codes (k : string) : list Z :=
  (fun c => Z.of_nat (Ascii.nat_of_ascii c)) <$> String.list_ascii_of_string k.
Definition default_index (seed : Z) (size : nat) (k : string) : nat :=
  Z.to_nat (stringdjb2 seed (codes k) mod Z.of_nat size).

(** ** A call at a time *)
Section Calls.
Context {K V : Type} `{Countable K} `{!Zero V}.

Inductive call :=
  | CExists (k : K) | CValue (k : K) | CSetValue (k : K) (v : V) | CRemoveValue (k : K)
  | CGet (k : K) (f : V -> bool -> err)
  | CGetOrCreate (k : K) (f : V -> bool -> err) (create : res V)
  | CSet (k : K) (f : V -> bool -> res V)
  | CRemove (k : K) (f : V -> bool -> err)
  | CSetOrRemove (k : K) (f : V -> bool -> res (V * bool))
  | CEmpty.

Inductive ret :=
  | RBool (b : bool) | RValue (x : V * bool) | RErr (e : err) | RSet (r : res (V * bool))
  | RRemove (r : res bool) | RSetOrRemove (r : res (V * bool * bool)) | RUnit.

Definition on_fst {A B C} (g : A -> B) (x : A * C) : B * C := (g (fst x), snd x).

Definition s_call (c : call) (l : option (gmap K V)) : ret * option (gmap K V) :=
  match c with
  | CExists k => (RBool (s_Exists k l), l)
  | CValue k => (RValue (s_Value k l), l)
  | CSetValue k v => on_fst RBool (s_SetValue k v l)
  | CRemoveValue k => on_fst RBool (s_RemoveValue k l)
  | CGet k f => (RErr (s_Get k f l), l)
  | CGetOrCreate k f create => on_fst RErr (s_GetOrCreate k f create l)
  | CSet k f => on_fst RSet (s_Set k f l)
  | CRemove k f => on_fst RRemove (s_Remove k f l)
  | CSetOrRemove k f => on_fst RSetOrRemove (s_SetOrRemove k f l)
  | CEmpty => (RUnit, s_Empty l)
  end.

Section ShardedCalls.
Context {M : Type} `{LockedMapOps K V M} (hashf : K -> nat).

Definition d_call (c : call) (l : ShardedMap M) : res (ret * ShardedMap M) :=
  match c with
  | CExists k => (fun b => (RBool b, l)) <$> d_Exists hashf k l
  | CValue k => (fun x => (RValue x, l)) <$> d_Value hashf k l
  | CSetValue k v => on_fst RBool <$> d_SetValue hashf k v l
  | CRemoveValue k => on_fst RBool <$> d_RemoveValue hashf k l
  | CGet k f => Ok (RErr (d_Get hashf k f l), l)
  | CGetOrCreate k f create => on_fst RErr <$> d_GetOrCreate hashf k f create l
  | CSet k f => on_fst RSet <$> d_Set hashf k f l
  | CRemove k f => on_fst RRemove <$> d_Remove hashf k f l
  | CSetOrRemove k f => on_fst RSetOrRemove <$> d_SetOrRemove hashf k f l
  | CEmpty => Ok (RUnit, d_Empty l)
  end.

Fixpoint d_run (cs : list call) (l : ShardedMap M) : res (list ret * ShardedMap M) :=
  match cs with
  | [] => Ok ([], l)
  | c :: cs =>
      d_call c l ≫= fun '(r, l) => d_run cs l ≫= fun '(rs, l) => Ok (r :: rs, l)
  end.

End ShardedCalls.

Fixpoint s_run (cs : list call) (l : option (gmap K V)) : list ret * option (gmap K V) :=
  match cs with
  | [] => ([], l)
  | c :: cs => let '(r, l) := s_call c l in let '(rs, l) := s_run cs l in (r :: rs, l)
  end.

(** A value was created, and the callback failed on it. *)
Definition failed_create (c : call) (m : gmap K V) : Z :=
  match c with
  | CGetOrCreate k f (Ok v) => if bool_decide (m !! k = None) && negb (is_ok (f v true)) then 1 else 0
  | _ => 0
  end.

(** How many values a sharded map has beyond its length after the calls. *)
Fixpoint lag (acc : Z) (cs : list call) (m : gmap K V) : Z :=
  match cs with
  | [] => acc
  | c :: cs =>
      let m' := default ∅ (snd (s_call c (Some m))) in
      lag (match c with CEmpty => 0 | _ => acc + failed_create c m end) cs m'
  end.

(** *** What a call does to a map *)
Inductive update := Keep | Put (v : V) | Drop.
Definition apply (u : update) (k : K) (m : gmap K V) : gmap K V :=
  match u with Keep => m | Put v => <[k := v]> m | Drop => delete k m end.
Definition delta (u : update) (o : option V) : Z :=
  match u, o with Put _, None => 1 | Drop, Some _ => -1 | _, _ => 0 end.

Lemma apply_size u k m : Z.of_nat (size (apply u k m)) = Z.of_nat (size m) + delta u (m !! k).
Proof.
  destruct u as [|v|]; simpl; [destruct (m !! k); lia| |].
  - destruct (m !! k) eqn:E; [rewrite map_size_insert_Some by eauto|rewrite map_size_insert_None by done]; lia.
  - destruct (m !! k) eqn:E; [rewrite map_size_delete_Some by eauto|rewrite map_size_delete_None by done; lia].
    assert (size m <> 0%nat) by (intros ->%map_size_empty_inv; done). lia.
Qed.

Lemma apply_lookup u k m m' : m !! k = m' !! k -> apply u k m !! k = apply u k m' !! k.
Proof. destruct u; simpl; [done|by rewrite !lookup_insert_eq|by rewrite !lookup_delete_eq]. Qed.

Lemma apply_lookup_ne u k k' m : k <> k' -> apply u k m !! k' = m !! k'.
Proof. destruct u; simpl; intros; [done|by rewrite lookup_insert_ne|by rewrite lookup_delete_ne]. Qed.

(** An operation on [k]: its result and its update depend on the value of [k]
    alone, and [d] of both is the change of the size. *)
Definition local {A} (k : K) (op : option (gmap K V) -> A * option (gmap K V)) (d : option V -> A -> Z) : Prop :=
  forall o, exists r u, d o r = delta u o /\
    forall m : gmap K V, m !! k = o -> op (Some m) = (r, Some (apply u k m)).

(** One case of a [local] lemma: the update is given. *)
Ltac by_update u :=
  eexists _, u; split;
  [|intros m Hm;
    unfold s_SetValue, s_RemoveValue, s_Exists, s_Value, s_Get, s_GetOrCreate, s_Set, s_Remove,
      s_SetOrRemove, at_key; cbn [mbind option_bind]; rewrite Hm; simpl;
    repeat match goal with E : _ = _ |- _ => rewrite E; clear E; simpl end; reflexivity];
  reflexivity.

Lemma SetValue_local k v : local k (s_SetValue k v) (fun _ b => if b then 1 else 0).
Proof. intros [v0|]; by_update (Put v). Qed.

Lemma RemoveValue_local k : local k (s_RemoveValue k) (fun _ b => if b then -1 else 0).
Proof. intros [v0|]; [by_update Drop|by_update Keep]. Qed.

Lemma Exists_local k : local k (fun l => (s_Exists k l, l)) (fun _ _ => 0).
Proof. intros [v0|]; by_update Keep. Qed.

Lemma Value_local k : local k (fun l => (s_Value k l, l)) (fun _ _ => 0).
Proof. intros [v0|]; by_update Keep. Qed.

Lemma Get_local k f : local k (fun l => (s_Get k f l, l)) (fun _ _ => 0).
Proof. intros [v0|]; by_update Keep. Qed.

Lemma GetOrCreate_local k f create :
  local k (s_GetOrCreate k f create)
    (fun o _ => if bool_decide (o = None) && is_ok create then 1 else 0).
Proof.
  intros [v0|]; [by_update Keep|]. destruct create as [v|e|]; [by_update (Put v)| |by_update Keep].
  by_update Keep.
Qed.

(** The ways a callback ends. *)
Ltac callback f :=
  let E := fresh "E" in let e := fresh "e" in
  destruct f as [?|e|] eqn:E;
  [|destruct (bool_decide (e = ErrLockedSetIgnore)) eqn:?|].

Lemma Set_local k f :
  local k (s_Set k f) (fun _ r => match r with Ok (_, true) => 1 | _ => 0 end).
Proof.
  intros [v0|].
  - callback (f v0 true); [by_update (Put a)|by_update Keep..].
  - callback (f zero false); [by_update (Put a)|by_update Keep..].
Qed.

Lemma Remove_local k f :
  local k (s_Remove k f) (fun _ r => match r with Ok true => -1 | _ => 0 end).
Proof.
  intros [v0|].
  - callback (f v0 true); [by_update Drop|by_update Keep..].
  - callback (f zero false); [by_update Keep..].
Qed.

Lemma SetOrRemove_local k f :
  local k (s_SetOrRemove k f)
    (fun _ r => match r with Ok (_, true, _) => 1 | Ok (_, false, true) => -1 | _ => 0 end).
Proof.
  intros [v0|].
  - callback (f v0 true); [destruct a as [v [|]]; [by_update Drop|by_update (Put v)]|by_update Keep..].
  - callback (f zero false); [destruct a as [v [|]]; [by_update Keep|by_update (Put v)]|by_update Keep..].
Qed.

End Calls.

(** ** A sharded map is the plain map *)
Section Refinement.
Context {K V : Type} `{Countable K} `{!Zero V}.
Context {M : Type} `{Ops : !LockedMapOps (K := K) (V := V) M} {view : M -> option (gmap K V)}.
Context `{Laws : !LockedMapLaws M view}.
Context (hashf : K -> nat) (n : nat).
Hypothesis Hn : (0 < n)%nat.
Hypothesis Hhash : forall k, (hashf k < n)%nat.

Lemma view_new : view NewMap = Some ∅.
Proof. apply NewMap_law. Qed.

(** The part of [m] at an index. *)
Definition shard_of (m : gmap K V) (i : nat) (o : option M) : Prop :=
  match o with
  | None => forall k, hashf k = i -> m !! k = None
  | Some it => exists im, view it = Some im /\
      forall k, (hashf k = i -> im !! k = m !! k) /\ (hashf k <> i -> im !! k = None)
  end.

Definition Repr (s : ShardedMap M) (m : gmap K V) : Prop :=
  length (sharded s) = n /\ forall i o, sharded s !! i = Some o -> shard_of m i o.

Lemma sharded_at s m k :
  Repr s m -> (length (sharded s) <? 1)%nat = false /\
  exists o, sharded s !! hashf k = Some o /\ shard_of m (hashf k) o.
Proof.
  intros [Hl Hs]. rewrite Hl. split; [by apply Nat.ltb_ge|].
  destruct (lookup_lt_is_Some_2 (sharded s) (hashf k)) as [o Ho]; [by rewrite Hl|].
  eauto.
Qed.

Lemma loadItem_repr s m k :
  Repr s m ->
  loadItem hashf s k = Ok Missing /\ m !! k = None \/
  exists it im, loadItem hashf s k = Ok (Found it) /\ sharded s !! hashf k = Some (Some it) /\
    view it = Some im /\ im !! k = m !! k.
Proof.
  intros Hr. destruct (sharded_at s m k Hr) as (Hl & o & Ho & Hs). unfold loadItem. rewrite Hl, Ho.
  destruct o as [it|]; [right|left; by split; [|apply Hs]].
  destruct Hs as (im & Hv & Hk). exists it, im. split_and!; try done. by apply Hk.
Qed.

Lemma newItem_repr s m k :
  Repr s m ->
  exists s1 it im, newItem hashf s k = Ok (Some (s1, it)) /\ Repr s1 m /\ length_ s1 = length_ s /\
    sharded s1 !! hashf k = Some (Some it) /\ view it = Some im /\ im !! k = m !! k.
Proof.
  intros Hr. destruct (sharded_at s m k Hr) as (Hl & o & Ho & Hs). unfold newItem. rewrite Hl, Ho.
  destruct o as [it|].
  - destruct Hs as (im & Hv & Hk). exists s, it, im. split_and!; try done. by apply Hk.
  - eexists _, _, ∅. split; [reflexivity|]. pose proof (lookup_lt_Some _ _ _ Ho) as Hlt.
    assert (sharded s !! hashf k = Some None) by done.
    split_and!; [|done|by apply list_lookup_insert_eq|apply view_new|by rewrite lookup_empty, Hs].
    destruct Hr as [Hlen Hall]. split; [simpl; by rewrite length_insert|]. intros i o.
    simpl. rewrite list_lookup_insert_Some. intros [(<- & <- & _)|[_ Hi]]; [|by apply Hall].
    exists ∅. split; [apply view_new|]. intros k'. rewrite lookup_empty. split; [|done].
    intros E. by rewrite (Hs k').
Qed.

(** What an operation on the item of a key does to the whole. *)
Lemma store_repr s m k it im it' u d :
  Repr s m -> sharded s !! hashf k = Some (Some it) -> view it = Some im -> im !! k = m !! k ->
  view it' = Some (apply u k im) -> Repr (store hashf s k it' d) (apply u k m).
Proof.
  intros [Hl Hall] Hk Hv Hkm Hv'. split; [simpl; by rewrite length_insert|].
  intros i o. simpl. rewrite list_lookup_insert_Some. intros [(<- & <- & _)|[Hne Hi]].
  - eexists. split; [exact Hv'|]. destruct (Hall _ _ Hk) as (im0 & Hv0 & Hall0). simplify_eq.
    intros k'. destruct (decide (k = k')) as [<-|Hkk].
    + split; [intros _; by apply apply_lookup|done].
    + rewrite !apply_lookup_ne by done. apply Hall0.
  - specialize (Hall _ _ Hi). destruct o as [it0|]; simpl in *.
    + destruct Hall as (im0 & Hv0 & Hall0). exists im0. split; [done|]. intros k'.
      split; intros E; [rewrite apply_lookup_ne by (by intros <-)|]; by apply Hall0.
    + intros k' E. rewrite apply_lookup_ne by (by intros <-). by apply Hall.
Qed.

(** An operation of an item that behaves as one on the plain map. *)
Lemma item_step {A} k (iop : M -> A * M) (sop : option (gmap K V) -> A * option (gmap K V)) d :
  (forall it, sim view (iop it) (sop (view it))) -> local k sop d ->
  forall s m it im, Repr s m -> sharded s !! hashf k = Some (Some it) -> view it = Some im ->
    im !! k = m !! k ->
    exists r it' m', iop it = (r, it') /\ sop (Some m) = (r, Some m') /\
      (forall a, Repr (store hashf s k it' a) m') /\
      Z.of_nat (size m') = Z.of_nat (size m) + d (m !! k) r.
Proof.
  intros Hsim Hloc s m it im Hr Hk Hv Hkm. destruct (Hloc (m !! k)) as (r & u & Hd & Hop).
  destruct (Hsim it) as [Hr1 Hv1]. rewrite Hv, (Hop im Hkm) in Hr1, Hv1.
  destruct (iop it) as [r' it']. simpl in *. subst r'.
  exists r, it', (apply u k m). split_and!; [done|by apply Hop| |by rewrite apply_size, Hd].
  intros a. by eapply store_repr.
Qed.

Definition slag (s : ShardedMap M) (m : gmap K V) : Z := Z.of_nat (size m) - length_ s.

(** One call: same result, same map, and the lag of the length. *)
Definition step_ok (c : call) : Prop :=
  forall s m, Repr s m ->
  exists r s' m', d_call hashf c s = Ok (r, s') /\ s_call c (Some m) = (r, Some m') /\
    Repr s' m' /\
    slag s' m' = match c with CEmpty => 0 | _ => slag s m + failed_create c m end.

(** A call through [newItem]. *)
Ltac new_step k law loc def :=
  let s := fresh "s" in let m := fresh "m" in let Hr := fresh "Hr" in
  intros s m Hr;
  destruct (newItem_repr s m k Hr) as (s1 & it & im & Hi & Hr1 & Hl & Hk & Hv & Hkm);
  destruct (item_step k _ _ _ law loc s1 m it im Hr1 Hk Hv Hkm) as (r & it' & m' & Ho & Hs & Hst & Hsz);
  eexists _, _, m'; cbn [d_call s_call]; unfold def; rewrite Hi; run; rewrite Ho, Hs;
  split; [reflexivity|]; split; [reflexivity|]; split; [apply Hst|];
  unfold slag; simpl; rewrite Hsz, Hl.

Lemma step_SetValue k v : step_ok (CSetValue k v).
Proof. new_step k (SetValue_law k v) (SetValue_local k v) @d_SetValue. lia. Qed.

Lemma step_Set k f : step_ok (CSet k f).
Proof. new_step k (Set_law k f) (Set_local k f) @d_Set. destruct r as [[? []]| |]; lia. Qed.

Lemma step_SetOrRemove k f : step_ok (CSetOrRemove k f).
Proof.
  new_step k (SetOrRemove_law k f) (SetOrRemove_local k f) @d_SetOrRemove.
  destruct r as [[[? []] []]| |]; lia.
Qed.

(** The length misses a value whose callback failed. *)
Lemma step_GetOrCreate k f create : step_ok (CGetOrCreate k f create).
Proof.
  new_step k (GetOrCreate_law k f create) (GetOrCreate_local k f create) @d_GetOrCreate.
  unfold was_created. rewrite Exists_law, Hv. unfold s_Exists, at_key. cbn [mbind option_bind].
  rewrite Hkm. unfold s_GetOrCreate, at_key in Hs. cbn [mbind option_bind] in Hs.
  destruct (m !! k) as [v|] eqn:Em; simpl.
  - rewrite andb_false_r. destruct create; simpl; lia.
  - destruct create as [v|e|]; simpl in *; [|rewrite andb_false_r; lia..].
    injection Hs as <- _. destruct (is_ok (f v true)); simpl; lia.
Qed.

(** A call through [loadItem]: the case of no item apart. *)
Ltac load_step k law loc def :=
  let s := fresh "s" in let m := fresh "m" in let Hr := fresh "Hr" in
  intros s m Hr;
  destruct (loadItem_repr s m k Hr) as [[Hi Hm]|(it & im & Hi & Hk & Hv & Hkm)];
  cbn [d_call s_call]; unfold def; rewrite Hi; run;
  [|destruct (item_step k _ _ _ law loc s m it im Hr Hk Hv Hkm) as (r & it' & m' & Ho & Hs & Hst & Hsz)].

Lemma step_RemoveValue k : step_ok (CRemoveValue k).
Proof.
  load_step k (RemoveValue_law k) (RemoveValue_local k) @d_RemoveValue.
  - eexists _, _, m. split; [reflexivity|]. unfold s_RemoveValue, at_key. simpl. rewrite Hm. simpl.
    split; [reflexivity|]. split; [done|]. lia.
  - rewrite Ho, Hs. eexists _, _, m'. split; [reflexivity|]. split; [reflexivity|]. split; [apply Hst|].
    unfold slag. simpl. rewrite Hsz. lia.
Qed.

Lemma step_Remove k f : step_ok (CRemove k f).
Proof.
  load_step k (Remove_law k f) (Remove_local k f) @d_Remove.
  - eexists _, _, m. split; [reflexivity|]. unfold s_Remove, at_key. simpl. rewrite Hm. simpl.
    destruct (f zero false); simpl; (split; [reflexivity|]; split; [done|]; lia).
  - rewrite Ho, Hs. eexists _, _, m'. split; [reflexivity|]. split; [reflexivity|]. split; [apply Hst|].
    unfold slag. simpl. rewrite Hsz. destruct r as [[]| |]; lia.
Qed.

Lemma at_key_repr m k it im :
  view it = Some im -> im !! k = m !! k -> at_key (view it) k = at_key (Some m) k.
Proof. intros Hv Hk. rewrite Hv. unfold at_key. simpl. by rewrite Hk. Qed.

(** A call that only looks. *)
Lemma step_look c s m r :
  Repr s m -> d_call hashf c s = Ok (r, s) -> s_call c (Some m) = (r, Some m) ->
  failed_create c m = 0 -> c <> CEmpty ->
  exists r s' m', d_call hashf c s = Ok (r, s') /\ s_call c (Some m) = (r, Some m') /\
    Repr s' m' /\ slag s' m' = match c with CEmpty => 0 | _ => slag s m + failed_create c m end.
Proof. intros Hr Hd Hs Hf Hc. exists r, s, m. split_and!; [done..|]. destruct c; lia || done. Qed.

Lemma step_reads k f : step_ok (CExists k) /\ step_ok (CValue k) /\ step_ok (CGet k f).
Proof.
  split_and!; intros s m Hr; eapply step_look; try done; cbn [d_call s_call];
    unfold d_Exists, d_Value, d_Get;
    destruct (loadItem_repr s m k Hr) as [[-> Hm]|(it & im & -> & Hk & Hv & Hkm)];
    run; rewrite ?Exists_law, ?Value_law, ?Get_law; unfold s_Exists, s_Value, s_Get;
    try rewrite (at_key_repr m k it im Hv Hkm); try reflexivity;
    unfold at_key; simpl; by rewrite Hm.
Qed.

Lemma step_Empty : step_ok CEmpty.
Proof.
  intros s m [Hl Hall]. eexists _, _, ∅. split; [reflexivity|]. split; [reflexivity|].
  split; [|unfold slag; simpl; by rewrite map_size_empty].
  split; [simpl; by rewrite length_fmap|]. intros i o. simpl. rewrite list_lookup_fmap, fmap_Some.
  intros (o' & Ho & ->). specialize (Hall _ _ Ho). destruct o' as [it|]; simpl.
  - destruct Hall as (im & Hv & _). exists ∅. rewrite Empty_law, Hv. split; [done|].
    intros k. by rewrite !lookup_empty.
  - intros k _. apply lookup_empty.
Qed.

Lemma step_all c : step_ok c.
Proof.
  destruct c; eauto using step_SetValue, step_RemoveValue, step_GetOrCreate, step_Set, step_Remove,
    step_SetOrRemove, step_Empty; by apply (step_reads k (fun _ _ => Ok tt)) || by apply step_reads.
Qed.

Lemma run_all cs s m :
  Repr s m -> exists rs s' m', d_run hashf cs s = Ok (rs, s') /\
    s_run cs (Some m) = (rs, Some m') /\ Repr s' m' /\ slag s' m' = lag (slag s m) cs m.
Proof.
  revert s m. induction cs as [|c cs IH]; intros s m Hr; [by exists [], s, m|].
  destruct (step_all c s m Hr) as (r & s1 & m1 & Hd & Hs & Hr1 & Hlag).
  destruct (IH s1 m1 Hr1) as (rs & s2 & m2 & Hd2 & Hs2 & Hr2 & Hlag2).
  exists (r :: rs), s2, m2. cbn [d_run s_run lag]. rewrite Hd, Hs. run. rewrite Hd2, Hs2. run.
  split_and!; [done..|]. simpl. rewrite Hlag2. by destruct c; rewrite Hlag.
Qed.

(** [Map] pours the shards together. *)
Lemma pour_none acc ms k :
  (forall i it, ms !! i = Some (Some it) -> Map it !! k = None) -> pour acc ms !! k = acc !! k.
Proof.
  revert acc. induction ms as [|[it|] ms IH]; intros acc Hno; [done| |]; simpl.
  - rewrite IH by (intros i; apply (Hno (S i))). by rewrite lookup_union_r by (by apply (Hno 0%nat)).
  - by apply IH; intros i; apply (Hno (S i)).
Qed.

Lemma pour_app acc l1 l2 : pour acc (l1 ++ l2) = pour (pour acc l1) l2.
Proof. revert acc. by induction l1 as [|[it|] l1 IH]; intros acc; simpl. Qed.

Lemma Map_repr s m : Repr s m -> d_Map s = m.
Proof.
  intros [Hl Hall]. apply map_eq. intros k.
  destruct (lookup_lt_is_Some_2 (sharded s) (hashf k)) as [o Ho]; [by rewrite Hl|].
  assert (forall i it, i <> hashf k -> sharded s !! i = Some (Some it) -> Map it !! k = None) as Hne.
  { intros i it Hi Hit. destruct (Hall _ _ Hit) as (im & Hv & Hk). rewrite Map_law, Hv. by apply Hk. }
  unfold d_Map. rewrite <- (take_drop_middle _ _ _ Ho), pour_app.
  pose proof (Hall _ _ Ho) as Hs. pose proof (lookup_lt_Some _ _ _ Ho) as Hlt.
  assert (pour ∅ (take (hashf k) (sharded s)) !! k = None) as Hpre.
  { rewrite pour_none; [by rewrite lookup_empty|]. intros i it Hi.
    apply lookup_take_Some in Hi as [Hi ?]. apply (Hne i); [lia|done]. }
  assert (forall i it, drop (S (hashf k)) (sharded s) !! i = Some (Some it) -> Map it !! k = None) as Hpost.
  { intros i it. rewrite lookup_drop. apply Hne. lia. }
  destruct o as [it|]; simpl; rewrite pour_none by done.
  - destruct Hs as (im & Hv & Hk). rewrite lookup_union, Hpre, Map_law, Hv. simpl.
    destruct (Hk k) as [E _]. rewrite <- E by done. by destruct (im !! k).
  - by rewrite Hpre, Hs.
Qed.

Lemma new_repr : Repr {| sharded := replicate n None; length_ := 0 |} ∅.
Proof.
  split; [apply length_replicate|]. intros i o [-> _]%lookup_replicate k _. apply lookup_empty.
Qed.

End Refinement.

Lemma NewShardedMap_inv {M} n (l : ShardedMap M) :
  NewShardedMap n = Ok l -> (0 < n)%nat /\ l = {| sharded := replicate n None; length_ := 0 |}.
Proof.
  unfold NewShardedMap. destruct (Nat.ltb_spec n 1); [done|]. destruct (n =? 1)%nat; [done|].
  intros [= <-]. split; [lia|done].
Qed.

Lemma fmap_ok {A B} (g : A -> B) (m : res A) b : g <$> m = Ok b -> exists a, m = Ok a /\ g a = b.
Proof. destruct m as [a| |]; simpl; [|done..]. intros [= <-]. by exists a. Qed.

(** ** Properties *)

(** C35: a sharded map that is not closed is the plain map. Over any hash that stays in
    range and any shards that keep the promise of the interface, every sequence of calls
    other than [Close] on a new sharded map gives the results of the plain map,
    callbacks and their errors included, and leaves the same keys and values. Its length
    is the number of keys, less the values whose callback in [GetOrCreate] failed since
    the last [Empty]; without any, it is exact. Closed maps answer differently
    ([closed_maps_differ]). *)
Theorem sharded_is_map {K V} `{Countable K} `{!Zero V} {M}
    `{!LockedMapOps (K := K) (V := V) M} (view : M -> option (gmap K V)) `{!LockedMapLaws M view}
    (hashf : K -> nat) n l cs :
  (forall k, (hashf k < n)%nat) -> NewShardedMap n = Ok l ->
  exists rs l' m, d_run hashf cs l = Ok (rs, l') /\
    s_run cs NewSingleLockedMap = (rs, Some m) /\ d_Map l' = m /\
    d_Len l' = s_Len (Some m) - lag 0 cs ∅ /\ 0 <= lag 0 cs ∅.
Proof.
  intros Hh Hl. destruct (NewShardedMap_inv n l Hl) as [Hn ->].
  destruct (run_all hashf n Hn Hh cs _ ∅ (new_repr hashf n)) as (rs & l' & m & Hd & Hs & Hr & Hlag).
  exists rs, l', m. split_and!; [done|done|by eapply Map_repr| |].
  - assert (slag (M := M) {| sharded := replicate n None; length_ := 0 |} (∅ : gmap K V) = 0) as E
      by (unfold slag; by rewrite map_size_empty).
    rewrite E in Hlag. rewrite <- Hlag. unfold slag, d_Len, s_Len. lia.
  - clear. enough (forall a m, 0 <= a -> 0 <= lag a cs m) as Hp by (by apply Hp).
    induction cs as [|c cs IH]; intros a m Ha; [done|]. cbn [lag]. apply IH.
    destruct c; simpl; try lia. destruct create; simpl; try lia. destruct (_ && _); lia.
Qed.

(** The length can go wrong for good.  When the callback of [GetOrCreate]
    fails on a created value the value stays and is not counted; taking it out
    then counts down, and the empty map has length -1. *)
Theorem failed_create_breaks_length {K V} `{Countable K} `{!Zero V} (hashf : K -> nat) n
    (l : ShardedMap (option (gmap K V))) (k : K) (v : V) (f : V -> bool -> err) e :
  (forall k, (hashf k < n)%nat) -> NewShardedMap n = Ok l -> f v true = Err e ->
  exists l1 l2 : ShardedMap (option (gmap K V)), d_GetOrCreate hashf k f (Ok v) l = Ok (Err e, l1) /\
    d_Map l1 = ({[k := v]} : gmap K V) /\ d_Len l1 = 0 /\
    d_RemoveValue hashf k l1 = Ok (true, l2) /\ d_Map l2 = (∅ : gmap K V) /\ d_Len l2 = -1.
Proof.
  intros Hh Hl Hf. destruct (NewShardedMap_inv n l Hl) as [Hn ->].
  pose proof (new_repr (K := K) (V := V) (M := option (gmap K V)) (view := id) hashf n) as Hr.
  destruct (step_GetOrCreate hashf n Hn Hh k f (Ok v) _ _ Hr) as (r1 & l1 & m1 & Hd1 & Hs1 & Hr1 & Hl1).
  cbn [s_call] in Hs1. unfold s_GetOrCreate, at_key in Hs1. cbn [mbind option_bind] in Hs1.
  rewrite lookup_empty in Hs1. simpl in Hs1. rewrite Hf in Hs1. injection Hs1 as <- <-.
  destruct (step_RemoveValue hashf n Hn Hh k _ _ Hr1) as (r2 & l2 & m2 & Hd2 & Hs2 & Hr2 & Hl2).
  cbn [s_call] in Hs2. unfold s_RemoveValue, at_key in Hs2. cbn [mbind option_bind] in Hs2.
  rewrite lookup_insert_eq in Hs2. simpl in Hs2. injection Hs2 as <- <-.
  exists l1, l2. cbn [d_call] in Hd1, Hd2.
  apply fmap_ok in Hd1 as ([e1 l1'] & -> & [= -> ->]). apply fmap_ok in Hd2 as ([e2 l2'] & -> & [= -> ->]).
  split_and!; try done.
  - by apply (Map_repr hashf n Hn Hh _ _ Hr1).
  - unfold slag in Hl1. simpl in Hl1. rewrite lookup_empty, Hf, map_size_insert_None, !map_size_empty in Hl1 by done.
    simpl in Hl1. unfold d_Len. lia.
  - rewrite (Map_repr hashf n Hn Hh _ _ Hr2). by rewrite delete_insert_id.
  - unfold slag in Hl1, Hl2. simpl in Hl1, Hl2. rewrite lookup_empty, Hf in Hl1.
    rewrite delete_insert_id in Hl2 by done.
    rewrite map_size_insert_None, !map_size_empty in * by done. simpl in *. unfold d_Len. lia.
Qed.

Lemma default_index_range seed size k : (0 < size)%nat -> (default_index seed size k < size)%nat.
Proof.
  intros Hs. unfold default_index.
  pose proof (Z.mod_pos_bound (stringdjb2 seed (codes k)) (Z.of_nat size)). lia.
Qed.

(** ** Four shards of string keys *)
#[local] Instance Z_Zero : Zero Z := 0.
Definition demo_hashf : string -> nat := default_index 77 4.
Definition demo_calls : list (call (K := string) (V := Z)) :=
  [CSetValue "aa" 1; CSetValue "b" 2; CSetValue "hello" 3;
   CGetOrCreate "new" (fun _ _ => Err "no") (Ok 4); CSet "aa" (fun v found => Ok (v + 10));
   CRemoveValue "b"; CRemove "none" (fun _ _ => Err ErrLockedSetIgnore);
   CSetOrRemove "hello" (fun v found => Ok (v, found)); CValue "aa"; CExists "b"].
Definition demo_map : ShardedMap (option (gmap string Z)) :=
  {| sharded := replicate 4 None; length_ := 0 |}.

Lemma sharded_is_map_witness :
  exists rs l' m, d_run demo_hashf demo_calls demo_map = Ok (rs, l') /\
    list.last rs = Some (RBool false) /\ d_Map l' = m /\ m = {["aa" := 11; "new" := 4]} /\ d_Len l' = 1.
Proof.
  destruct (sharded_is_map id demo_hashf 4 demo_map demo_calls) as (rs & l' & m & H1 & H2 & H3 & H4 & _).
  - intros k. apply default_index_range. lia.
  - reflexivity.
  - exists rs, l', m. split; [exact H1|]. vm_compute in H2. injection H2 as <- <-.
    split; [reflexivity|]. split; [exact H3|]. split; [reflexivity|]. rewrite H4. vm_compute. reflexivity.
Defined.

Lemma failed_create_breaks_length_witness :
  exists l1 l2, d_GetOrCreate demo_hashf "k" (fun _ _ => Err "no") (Ok 5) demo_map = Ok (Err "no", l1) /\
    d_RemoveValue demo_hashf "k" l1 = Ok (true, l2) /\ d_Len l2 = -1.
Proof.
  destruct (failed_create_breaks_length demo_hashf 4 demo_map "k" 5 (fun _ _ => Err "no") "no")
    as (l1 & l2 & H1 & _ & _ & H2 & _ & H3).
  - intros k. apply default_index_range. lia.
  - reflexivity.
  - reflexivity.
  - exists l1, l2. split; [exact H1|]. split; [exact H2|exact H3].
Defined.

(** A closed map answers [Get] and [Remove] otherwise as a single map, which
    still calls the callback, than as a sharded one. *)
Lemma closed_maps_differ {K V} `{Countable K} `{!Zero V} (hashf : K -> nat) k f
    (l : ShardedMap (option (gmap K V))) s :
  s_Get k f (s_Close s) = f zero false /\
  d_Get hashf k f (d_Close l) = Err ErrLockedMapClosed.
Proof. by split. Qed.
