(* ===== verification/SuffrageVoting.v ===== *)
(** * Voting for expels ([isaac/suffrage_voting.go])

    Expel operations are gathered in a pool ([isaac/database/pool.go]), their
    signatures merged, and for a height the node looks for a combination of
    expels signed by enough of the members that stay.

    The pool is LevelDB under keys made of the end of the expel and the hash of
    its fact; every traversal here runs from the last key to the first, so the
    pool is the list of its operations in that order.  Reads and writes of the
    database do not fail here.  [sort.Slice] is not stable: the order it leaves
    is the parameter [sort_slice], which permutes its list. *)
From S2P Require Import Prelude Point Vote Slice Ballot Voteproof.

Open Scope Z_scope.

Abbreviation expel := SuffrageExpelOperation.
Abbreviation ex_node := (fun x : SuffrageExpelOperation => xf_node (xo_fact x)).

(** ** Signatures ([base/base_operation.go]) *)
Section Signs.
Context `{Crypto}.

Definition set_signs (op : expel) (signs : list NodeSign) : expel :=
  let op := {| xo_hash := xo_hash op; xo_fact := xo_fact op; xo_signs := signs |} in
  {| xo_hash := operation_hash op; xo_fact := xo_fact op; xo_signs := signs |}.

Definition SetNodeSigns (op : expel) (signs : list NodeSign) : res expel :=
  if IsDuplicatedSlice signs (fun s => (true, ns_node s)) then Err "duplicated signs found"
  else Ok (set_signs op signs).

(** [None]: nothing was added. *)
Definition AddNodeSigns (op : expel) (signs : list NodeSign) : option expel :=
  let updates := FilterSlice signs (fun s =>
    negb (existsb (fun s' => bool_decide (ns_node s = ns_node s')) (xo_signs op))) in
  if (length updates <? 1)%nat then None else Some (set_signs op (xo_signs op ++ updates)).

(** ** The pool *)
Definition same_key (a b : expel) : bool :=
  (xf_end (xo_fact a) =? xf_end (xo_fact b)) &&
  bool_decide (xf_hash (xo_fact a) = xf_hash (xo_fact b)).
(** [a] is visited before [b]. *)
Definition key_before (a b : expel) : bool :=
  (xf_end (xo_fact b) <? xf_end (xo_fact a)) ||
  (xf_end (xo_fact a) =? xf_end (xo_fact b)) &&
    str_ltb (hash_bytes (xf_hash (xo_fact b))) (hash_bytes (xf_hash (xo_fact a))).

Fixpoint SetSuffrageExpelOperation (op : expel) (pool : list expel) : list expel :=
  match pool with
  | [] => [op]
  | x :: pool =>
      if same_key op x then op :: pool
      else if key_before op x then op :: x :: pool
      else x :: SetSuffrageExpelOperation op pool
  end.

(** The expel is out of its heights. *)
Definition inactive (height : Z) (op : expel) : bool :=
  (xf_end (xo_fact op) <? height) || (height <? xf_start (xo_fact op)).

Fixpoint find_expel (height : Z) (node : Address) (pool : list expel) : option expel :=
  match pool with
  | [] => None
  | x :: pool =>
      if negb (bool_decide (node = ex_node x)) then find_expel height node pool
      else if inactive height x then None
      else Some x
  end.

(** [TraverseSuffrageExpelOperations] over the variables [S] of the callback. *)
Fixpoint TraverseSuffrageExpelOperations {S} (height : Z) (callback : S -> expel -> S * bool) (s : S)
    (pool : list expel) : S :=
  match pool with
  | [] => s
  | x :: pool =>
      if inactive height x then s
      else let '(s, keep) := callback s x in
           if keep : bool then TraverseSuffrageExpelOperations height callback s pool else s
  end.

Definition RemoveSuffrageExpelOperationsByFact (facts : list SuffrageExpelFact) (pool : list expel)
    : list expel :=
  FilterSlice pool (fun x => negb (existsb (fun f =>
    (xf_end f =? xf_end (xo_fact x)) && bool_decide (xf_hash f = xf_hash (xo_fact x))) facts)).
Definition RemoveSuffrageExpelOperationsByHeight (height : Z) (pool : list expel) : list expel :=
  FilterSlice pool (fun x => height <? xf_end (xo_fact x)).

(** ** Voting *)

(** [merge]: the operation that was stored, if any. *)
Definition merge (existing : option expel) (newop : expel) (pool : list expel)
    : option expel * list expel :=
  match existing with
  | None => (Some newop, SetSuffrageExpelOperation newop pool)
  | Some x =>
      match AddNodeSigns x (NodeSigns newop) with
      | None => (None, pool)
      | Some updated => (Some updated, SetSuffrageExpelOperation updated pool)
      end
  end.

(** The answer, the operation given to [votedCallback], the pool. *)
Definition SuffrageVoting_Vote (local : Address) (existsInState : Hash -> res bool) (op : expel)
    (pool : list expel) : res bool * option expel * list expel :=
  if bool_decide (ex_node op = local) then (Ok false, None, pool)
  else match existsInState (xf_hash (xo_fact op)) with
  | Panic => (Panic, None, pool)
  | Err e => (Err e, None, pool)
  | Ok true => (Ok false, None, pool)
  | Ok false =>
      match find_expel (xf_start (xo_fact op)) (ex_node op) pool with
      | None => let '(voted, pool) := merge None op pool in (Ok (bool_decide (voted <> None)), voted, pool)
      | Some i =>
          if bool_decide (xo_hash i = xo_hash op) then (Ok false, None, pool)
          else let '(voted, pool) := merge (Some i) op pool in
               (Ok (bool_decide (voted <> None)), voted, pool)
      end
  end.

(** ** Combinations *)
Variable sort_slice : (expel -> expel -> bool) -> list expel -> list expel.

(** The members of a mask, bit [j] for the operation [j]. *)
Fixpoint pick (i : Z) (ops : list expel) : list expel :=
  match ops with
  | [] => []
  | x :: ops => if Z.odd i then x :: pick (Z.div2 i) ops else pick (Z.div2 i) ops
  end.

(** [for i := (1 << length) - 1; i > 0; i--] in an [int]: from 64 operations on the
    shift gives 0, and there is no mask at all. *)
Definition masks (n : nat) : list Z :=
  reverse (seqZ 1 (wrap_s 64 (wrap_s 64 (Z.shiftl 1 (Z.of_nat n)) - 1))).

Fixpoint combinations (filterOperation : nat -> expel -> bool) (callback : list expel -> bool)
    (ms : list Z) (ops : list expel) : option (list expel) :=
  match ms with
  | [] => None
  | i :: ms =>
      let set := pick i ops in
      if negb (forallb (filterOperation (length set)) set) then
        combinations filterOperation callback ms ops
      else
        let set := sort_slice (fun a b => (length (NodeSigns a) <? length (NodeSigns b))%nat) set in
        if callback set then combinations filterOperation callback ms ops else Some set
  end.

(** The callback keeps looking ([true]) while some operation has too few signs
    of nodes that stay. *)
Definition findExpelCombinations (undef : Z) (ops : list expel) (suf : Suffrage)
    : list Address * list expel :=
  let threshold n := expel_sign_threshold undef suf DefaultThreshold (Z.of_nat n) in
  match combinations
    (fun n op =>
       forallb (fun s => Suffrage_Exists suf (ns_node s)) (NodeSigns op) &&
       (threshold n <=? Z.of_nat (length (NodeSigns op))))
    (fun set =>
       existsb (fun op => Z.of_nat (CountFilteredSlice (NodeSigns op) (fun s =>
           negb (bool_decide (ns_node s ∈ expel_nodes set)))) <? threshold (length set)) set)
    (masks (length ops)) ops with
  | Some found => (expel_nodes found, found)
  | None => ([], [])
  end.

Definition filterSigns (op : expel) (expelnodes : list Address) : res expel :=
  let signs := NodeSigns op in
  let filtered := FilterSlice signs (fun s => negb (bool_decide (ns_node s ∈ expelnodes))) in
  if (length signs =? length filtered)%nat then Ok op else SetNodeSigns op filtered.

Fixpoint filter_all (ops : list expel) (expelnodes : list Address) : res (list expel) :=
  match ops with
  | [] => Ok []
  | op :: ops => filterSigns op expelnodes ≫= fun j => filter_all ops expelnodes ≫= fun js => Ok (j :: js)
  end.

(** What [Find] gathers: the operations of members, and the expels of others; the
    first of these stops the traversal. *)
Definition collect (suf : Suffrage) (s : list expel * list SuffrageExpelFact) (op : expel)
    : (list expel * list SuffrageExpelFact) * bool :=
  let '(collected, expires) := s in
  if negb (Suffrage_Exists suf (ex_node op)) then ((collected, expires ++ [xo_fact op]), false)
  else ((collected ++ [op], expires), true).

Definition Find (undef height : Z) (suf : Suffrage) (pool : list expel) : res (list expel) * list expel :=
  let '(collected, expires) :=
    TraverseSuffrageExpelOperations height (collect suf) ([], []) pool in
  let pool := if (0 <? length expires)%nat then RemoveSuffrageExpelOperationsByFact expires pool else pool in
  let h := Height_Prev height in
  let pool := if GenesisHeight <=? h then RemoveSuffrageExpelOperationsByHeight h pool else pool in
  (if (length collected <? 1)%nat then Ok []
   else
     let collected := sort_slice (fun a b => str_ltb (xo_hash a) (xo_hash b)) collected in
     let '(expelnodes, found) := findExpelCombinations undef collected suf in
     if (length found <? 1)%nat then Ok [] else filter_all found expelnodes, pool).

End Signs.

(** ** Masks and combinations *)
Lemma pick_sublist i ops : pick i ops `sublist_of` ops.
Proof.
  revert i. induction ops as [|x ops IH]; intros i; simpl; [done|].
  destruct (Z.odd i); [by apply sublist_skip|by apply sublist_cons].
Qed.

Lemma sublist_pick sub ops :
  sub `sublist_of` ops -> exists i, 0 <= i < 2 ^ Z.of_nat (length ops) /\ pick i ops = sub.
Proof.
  induction 1 as [|x l1 l2 _ (i & Hi & IH)|x l1 l2 _ (i & Hi & IH)].
  - by exists 0.
  - exists (2 * i + 1). cbn [length pick]. rewrite Nat2Z.inj_succ, Z.pow_succ_r by lia. split; [lia|].
    assert (Z.odd (2 * i + 1) = true) as -> by (by rewrite Z.odd_add, Z.odd_mul).
    assert (Z.div2 (2 * i + 1) = i) as -> by (rewrite Z.div2_div; div_lia). by rewrite IH.
  - exists (2 * i). cbn [length pick]. rewrite Nat2Z.inj_succ, Z.pow_succ_r by lia. split; [lia|].
    assert (Z.odd (2 * i) = false) as -> by (by rewrite Z.odd_mul).
    assert (Z.div2 (2 * i) = i) as -> by (rewrite Z.div2_div; div_lia). exact IH.
Qed.

Lemma pick_0 ops : pick 0 ops = [].
Proof. by induction ops as [|x ops IH]. Qed.

(** The first mask has all bits: the wrap of [1 << 63] is undone by that of [- 1]. *)
Lemma first_mask n : (n < 64)%nat -> wrap_s 64 (wrap_s 64 (Z.shiftl 1 (Z.of_nat n)) - 1) = 2 ^ Z.of_nat n - 1.
Proof.
  intros Hn. rewrite Z.shiftl_1_l. assert (n = 63%nat \/ n < 63)%nat as [->|Hlt] by lia; [reflexivity|].
  pose proof (Z.pow_lt_mono_r 2 (Z.of_nat n) 63 ltac:(lia) ltac:(lia) ltac:(lia)). pose proof (Z.pow_pos_nonneg 2 (Z.of_nat n) ltac:(lia) ltac:(lia)).
  rewrite !wrap_s_small by (change (64 - 1) with 63; rewrite ?wrap_s_small by (change (64 - 1) with 63; lia); lia). done.
Qed.
Lemma no_masks n : (64 <= n)%nat -> masks n = [].
Proof.
  intros Hn. unfold masks. rewrite Z.shiftl_1_l. replace (Z.of_nat n) with (Z.of_nat (n - 64) + 64) by lia.
  rewrite Z.pow_add_r by lia. assert (wrap_s 64 (2 ^ Z.of_nat (n - 64) * 2 ^ 64) = 0) as ->; [|done].
  unfold wrap_s. rewrite Z.add_comm, Z.mod_add by lia. done.
Qed.

Lemma masks_all n i : (n < 64)%nat -> 1 <= i < 2 ^ Z.of_nat n -> i ∈ masks n.
Proof. intros Hn Hi. unfold masks. rewrite first_mask by done. apply elem_of_reverse, elem_of_seqZ. lia. Qed.

Section Combinations.
Variable sort_slice : (expel -> expel -> bool) -> list expel -> list expel.
Hypothesis sort_perm : forall less l, sort_slice less l ≡ₚ l.

Lemma combinations_some f cb ms ops found :
  combinations sort_slice f cb ms ops = Some found ->
  exists i, i ∈ ms /\ found ≡ₚ pick i ops /\ forallb (f (length found)) found = true /\ cb found = false.
Proof.
  induction ms as [|i ms IH]; cbn [combinations]; [done|].
  set (set := sort_slice _ (pick i ops)). intros Hc.
  destruct (forallb (f (length (pick i ops))) (pick i ops)) eqn:Ef; cbn [negb] in Hc.
  - destruct (cb set) eqn:Ec.
    + destruct (IH Hc) as (j & ? & ?). exists j. split; [by right|done].
    + injection Hc as <-. exists i. split; [by left|].
      assert (set ≡ₚ pick i ops) as Hp by apply sort_perm. split; [done|]. split; [|done].
      rewrite (Permutation_length Hp). rewrite forallb_forall in *. intros x Hx.
      apply Ef. rewrite <- list_elem_of_In in *. by rewrite <- Hp.
  - destruct (IH Hc) as (j & ? & ?). exists j. split; [by right|done].
Qed.

Lemma combinations_none f cb ms ops :
  combinations sort_slice f cb ms ops = None ->
  forall i, i ∈ ms -> forallb (f (length (pick i ops))) (pick i ops) = true ->
    exists set, set ≡ₚ pick i ops /\ cb set = true.
Proof.
  induction ms as [|j ms IH]; cbn [combinations]; intros Hn i Hi Hf; [by apply not_elem_of_nil in Hi|].
  destruct (forallb (f (length (pick j ops))) (pick j ops)) eqn:Ef; cbn [negb] in Hn.
  - destruct (cb _) eqn:Ec; [|done]. apply elem_of_cons in Hi as [->|Hi]; [|by apply IH].
    eexists. split; [apply sort_perm|exact Ec].
  - apply elem_of_cons in Hi as [->|Hi]; [congruence|by apply IH].
Qed.

End Combinations.

Lemma masks_range n i : i ∈ masks n -> 1 <= i < 2 ^ Z.of_nat n.
Proof.
  destruct (decide (n < 64)%nat); [|by rewrite no_masks, elem_of_nil by lia].
  unfold masks. rewrite first_mask by done. intros Hi%elem_of_reverse%elem_of_seqZ. lia.
Qed.

Lemma pick_nonempty i ops : 1 <= i < 2 ^ Z.of_nat (length ops) -> pick i ops <> [].
Proof.
  revert i. induction ops as [|x ops IH]; intros i; cbn [length pick]; [simpl; lia|].
  rewrite Nat2Z.inj_succ, Z.pow_succ_r by lia. intros Hi. destruct (Z.odd i) eqn:Eo; [done|].
  apply IH. rewrite Z.div2_div. rewrite Zodd_mod in Eo. apply Z.eqb_neq in Eo. div_lia.
Qed.

(** ** Enough signs *)

(** The signs of [x] by nodes that stay when [nodes] are expelled. *)
Definition staying (nodes : list Address) (x : expel) : list NodeSign :=
  FilterSlice (NodeSigns x) (fun s => negb (bool_decide (ns_node s ∈ nodes))).

(** A combination of expels: signed by members only, each by enough that stay. *)
Definition enough (undef : Z) (suf : Suffrage) (set : list expel) : Prop :=
  forall x, x ∈ set ->
    (forall s, s ∈ NodeSigns x -> Suffrage_Exists suf (ns_node s) = true) /\
    expel_sign_threshold undef suf DefaultThreshold (Z.of_nat (length set))
      <= Z.of_nat (length (staying (expel_nodes set) x)).

Lemma staying_perm n1 n2 x : n1 ≡ₚ n2 -> staying n1 x = staying n2 x.
Proof.
  intros Hp. unfold staying. induction (NodeSigns x) as [|s l IH]; [done|]. simpl.
  rewrite (bool_decide_ext (ns_node s ∈ n1) (ns_node s ∈ n2)) by (by rewrite Hp). by rewrite IH.
Qed.

Lemma enough_perm undef suf s1 s2 : s1 ≡ₚ s2 -> enough undef suf s1 -> enough undef suf s2.
Proof.
  intros Hp He x Hx. rewrite <- Hp in Hx. destruct (He x Hx) as [H1 H2]. split; [done|].
  rewrite <- (Permutation_length Hp), (staying_perm _ (expel_nodes s1)); [done|].
  symmetry. unfold expel_nodes. by rewrite Hp.
Qed.

Lemma staying_length nodes x : (length (staying nodes x) <= length (NodeSigns x))%nat.
Proof. unfold staying. rewrite FilterSlice_filter. apply length_filter. Qed.

Section Finding.
Context `{Crypto}.
Variable sort_slice : (expel -> expel -> bool) -> list expel -> list expel.
Hypothesis sort_perm : forall less l, sort_slice less l ≡ₚ l.

(** The two checks on a combination are [enough]. *)
Lemma checks_enough undef suf set :
  let th := expel_sign_threshold undef suf DefaultThreshold (Z.of_nat (length set)) in
  forallb (fun op => forallb (fun s => Suffrage_Exists suf (ns_node s)) (NodeSigns op) &&
                     (th <=? Z.of_nat (length (NodeSigns op)))) set = true ->
  existsb (fun op => Z.of_nat (CountFilteredSlice (NodeSigns op) (fun s =>
             negb (bool_decide (ns_node s ∈ expel_nodes set)))) <? th) set = false ->
  enough undef suf set.
Proof.
  intros th Hf Hc x Hx. rewrite forallb_forall in Hf. apply list_elem_of_In in Hx.
  specialize (Hf x Hx). apply andb_true_iff in Hf as [Hm _]. rewrite forallb_forall in Hm. split.
  - intros s Hs. apply Hm. by apply list_elem_of_In.
  - destruct (Z.le_gt_cases th (Z.of_nat (length (staying (expel_nodes set) x)))) as [|Hlt]; [done|].
    assert (existsb (fun op => Z.of_nat (CountFilteredSlice (NodeSigns op) (fun s =>
             negb (bool_decide (ns_node s ∈ expel_nodes set)))) <? th) set = true); [|congruence].
    apply existsb_exists. exists x. split; [done|]. apply Z.ltb_lt. by rewrite CountFilteredSlice_length.
Qed.

Lemma enough_checks undef suf set :
  let th := expel_sign_threshold undef suf DefaultThreshold (Z.of_nat (length set)) in
  enough undef suf set ->
  forallb (fun op => forallb (fun s => Suffrage_Exists suf (ns_node s)) (NodeSigns op) &&
                     (th <=? Z.of_nat (length (NodeSigns op)))) set = true /\
  existsb (fun op => Z.of_nat (CountFilteredSlice (NodeSigns op) (fun s =>
             negb (bool_decide (ns_node s ∈ expel_nodes set)))) <? th) set = false.
Proof.
  intros th He. split.
  - apply forallb_forall. intros x Hx%list_elem_of_In. destruct (He x Hx) as [Hm Hl]. fold th in Hl.
    apply andb_true_iff. split; [apply forallb_forall; intros s Hs%list_elem_of_In; by apply Hm|].
    apply Z.leb_le. pose proof (staying_length (expel_nodes set) x). lia.
  - destruct (existsb _ set) eqn:E; [|done]. apply existsb_exists in E as (x & Hx%list_elem_of_In & Hl%Z.ltb_lt).
    destruct (He x Hx) as [_ Hl']. rewrite CountFilteredSlice_length in Hl. unfold staying in Hl'. lia.
Qed.

Lemma findExpelCombinations_spec undef ops suf :
  let '(nodes, found) := findExpelCombinations sort_slice undef ops suf in
  nodes = expel_nodes found /\
  (found <> [] -> found ⊆+ ops /\ enough undef suf found) /\
  (found = [] -> (length ops < 64)%nat -> forall sub, sub ⊆+ ops -> sub <> [] -> ~ enough undef suf sub).
Proof.
  unfold findExpelCombinations. destruct (combinations _ _ _ _ _) as [found|] eqn:Ec.
  - apply combinations_some in Ec as (i & Hi%masks_range & Hp & Hf & Hcb); [|done].
    split; [done|]. split.
    + intros _. split; [rewrite Hp; apply sublist_submseteq, pick_sublist|by apply checks_enough].
    + intros ->. apply Permutation_nil_l in Hp. by apply pick_nonempty in Hi.
  - split; [done|]. split; [done|]. intros _ Hlen sub Hsub Hne He.
    apply submseteq_sublist_r in Hsub as (sub' & Hp & Hs').
    destruct (sublist_pick sub' ops Hs') as (i & Hi & Hpick).
    assert (i <> 0) as Hi0.
    { intros ->. rewrite pick_0 in Hpick. subst sub'. apply Permutation_nil_r in Hp. done. }
    apply (enough_perm _ _ _ _ Hp) in He. destruct (enough_checks undef suf sub' He) as [Hf _].
    destruct (combinations_none sort_slice sort_perm _ _ _ _ Ec i) as (set & Hset & Hcb);
      [apply masks_all; [done|lia]|by rewrite Hpick|].
    rewrite Hpick in Hset. apply (enough_perm _ _ sub' set) in He; [|done].
    destruct (enough_checks undef suf set He) as [_ Hno]. cbv beta in Hcb. congruence.
Qed.

(** ** What is collected *)
Fixpoint candidates (height : Z) (suf : Suffrage) (pool : list expel) : list expel :=
  match pool with
  | [] => []
  | x :: pool =>
      if inactive height x || negb (Suffrage_Exists suf (ex_node x)) then []
      else x :: candidates height suf pool
  end.

Lemma collect_candidates height suf pool c e :
  exists e', TraverseSuffrageExpelOperations height (collect suf) (c, e) pool
             = (c ++ candidates height suf pool, e').
Proof.
  revert c. induction pool as [|x pool IH]; intros c; simpl; [exists e; by rewrite app_nil_r|].
  destruct (inactive height x); simpl; [exists e; by rewrite app_nil_r|].
  destruct (Suffrage_Exists suf (xf_node (xo_fact x))); simpl; [|eexists; by rewrite app_nil_r].
  destruct (IH (c ++ [x])) as [e' ->]. exists e'. by rewrite <- app_assoc.
Qed.

Lemma candidates_sublist height suf pool : candidates height suf pool `sublist_of` pool.
Proof.
  induction pool as [|x pool IH]; simpl; [done|].
  destruct (_ || _); [apply sublist_nil_l|by apply sublist_skip].
Qed.

(** What the traversal reaches, and where it stops. *)
Lemma candidates_reached height suf pool : exists rest, pool = candidates height suf pool ++ rest /\
  Forall (fun x => inactive height x = false /\ Suffrage_Exists suf (ex_node x) = true) (candidates height suf pool) /\
  match rest with [] => True | x :: _ => inactive height x = true \/ Suffrage_Exists suf (ex_node x) = false end.
Proof.
  induction pool as [|x pool (rest & Hp & Hf & Hr)]; simpl; [by exists []|].
  destruct (inactive height x) eqn:Ei; simpl; [exists (x :: pool); split_and!; [done..|by left]|].
  destruct (Suffrage_Exists suf (ex_node x)) eqn:Es; simpl; [|exists (x :: pool); split_and!; [done..|by right]].
  exists rest. split; [by rewrite <- Hp|]. split; [by constructor|done].
Qed.

(** ** Dropping the signs of expelled nodes *)
Lemma NodeSigns_set_signs x signs :
  (forall s, s ∈ signs -> ns_node s <> ex_node x) -> NodeSigns (set_signs x signs) = signs.
Proof.
  intros Hs. unfold NodeSigns. simpl. induction signs as [|s signs IH]; [done|]. simpl.
  rewrite bool_decide_eq_false_2 by (intros E; apply (Hs s); [by left|done]). simpl.
  f_equal. apply IH. intros s' Hs'. apply Hs. by right.
Qed.

Lemma FilterSlice_full {T} (l : list T) f :
  length l = length (FilterSlice l f) -> FilterSlice l f = l.
Proof.
  induction l as [|x l IH]; [done|]. simpl. destruct (f x); simpl; [intros [= E]; by rewrite IH|].
  intros E. pose proof (length_filter (fun x => f x = true) l). rewrite FilterSlice_filter in E. lia.
Qed.

Lemma filterSigns_spec x nodes :
  NoDup (ns_node <$> xo_signs x) ->
  exists x', filterSigns x nodes = Ok x' /\ xo_fact x' = xo_fact x /\ NodeSigns x' = staying nodes x.
Proof.
  intros Hnd. unfold filterSigns. fold (staying nodes x).
  destruct (Nat.eqb_spec (length (NodeSigns x)) (length (staying nodes x))) as [E|_].
  - exists x. split; [done|]. split; [done|]. symmetry. by apply FilterSlice_full.
  - unfold SetNodeSigns. assert (NoDup (ns_node <$> staying nodes x)) as Hn.
    { unfold staying, NodeSigns. rewrite !FilterSlice_filter. by do 2 apply NoDup_fmap_filter. }
    apply IsDuplicatedSlice_false in Hn as ->. eexists. split; [done|]. split; [done|].
    apply NodeSigns_set_signs. intros s Hs. unfold staying in Hs.
    apply FilterSlice_elem in Hs as [Hs _]. unfold NodeSigns in Hs.
    apply FilterSlice_elem in Hs as [_ Hs]. rewrite negb_true_iff, bool_decide_eq_false in Hs. congruence.
Qed.

Lemma filter_all_spec ops nodes :
  Forall (fun x => NoDup (ns_node <$> xo_signs x)) ops ->
  exists ops', filter_all ops nodes = Ok ops' /\
    Forall2 (fun x x' => xo_fact x' = xo_fact x /\ NodeSigns x' = staying nodes x) ops ops'.
Proof.
  induction 1 as [|x ops Hx _ (ops' & Hf & H2)]; [by exists []|].
  destruct (filterSigns_spec x nodes Hx) as (x' & Hx' & ?). exists (x' :: ops').
  cbn [filter_all]. rewrite Hx'. run. rewrite Hf. run. split; [done|]. by constructor.
Qed.

End Finding.

(** ** Properties *)
Section Properties.
Context `{Crypto}.
Variable sort_slice : (expel -> expel -> bool) -> list expel -> list expel.

Lemma RemoveByFact_sublist facts pool :
  RemoveSuffrageExpelOperationsByFact facts pool `sublist_of` pool.
Proof. unfold RemoveSuffrageExpelOperationsByFact. rewrite FilterSlice_filter. apply sublist_filter. Qed.

Lemma RemoveByHeight_sublist h pool :
  RemoveSuffrageExpelOperationsByHeight h pool `sublist_of` pool.
Proof. unfold RemoveSuffrageExpelOperationsByHeight. rewrite FilterSlice_filter. apply sublist_filter. Qed.

Lemma elem_of_pool op pool : op ∈ SetSuffrageExpelOperation op pool.
Proof.
  induction pool as [|x pool IH]; cbn [SetSuffrageExpelOperation]; [by left|].
  destruct (same_key op x); [by left|]. destruct (key_before op x); [by left|by right].
Qed.

(** C36: what [Find] returns is what the validators ask for, and it looks at every
    combination of what it reaches.  It goes over the expels of the pool up to the first
    that is not active at the height or whose node is not in the suffrage, where it
    stops; the expels behind that one it does not see.  Of those before it, it returns a
    combination each of whose expels is signed by members only and by enough members
    that stay; the signs of the expelled are dropped, so that the signs pass the check of
    [NewSuffrageWithExpels].  It returns nothing only when no combination of them would
    do, or when they are 64 or more, where the masks overflow.  It never fails.  An
    operation has one sign of a node. *)
Theorem Find_correct undef height suf pool :
  (forall less l, sort_slice less l ≡ₚ l) ->
  Forall (fun x => NoDup (ns_node <$> xo_signs x)) pool ->
  exists ops pool' reached rest, Find sort_slice undef height suf pool = (Ok ops, pool') /\ pool' `sublist_of` pool /\
    pool = reached ++ rest /\
    Forall (fun x => inactive height x = false /\ Suffrage_Exists suf (ex_node x) = true) reached /\
    match rest with [] => True | x :: _ => inactive height x = true \/ Suffrage_Exists suf (ex_node x) = false end /\
    (ops = [] -> (length reached < 64)%nat -> forall sub, sub ⊆+ reached -> sub <> [] -> ~ enough undef suf sub) /\
    (ops <> [] -> exists found, found ⊆+ reached /\ enough undef suf found /\
       Forall2 (fun x x' => xo_fact x' = xo_fact x /\ NodeSigns x' = staying (expel_nodes ops) x) found ops /\
       NewSuffrageWithExpels undef suf DefaultThreshold ops
         = NewSuffrage (Filter2Slices (suf_ns suf) ops
             (fun n x => bool_decide (node_address n = xf_node (xo_fact x))))).
Proof.
  intros Hsort Hnd. unfold Find.
  destruct (collect_candidates height suf pool [] []) as [e' ->]. simpl app.
  destruct (candidates_reached height suf pool) as (rest & Hrest & Hact & Hstop).
  set (cands := candidates height suf pool) in *. set (pool' := if GenesisHeight <=? _ then _ else _).
  assert (pool' `sublist_of` pool) as Hsub.
  { unfold pool'. destruct (_ <=? _); [etrans; [apply RemoveByHeight_sublist|]|];
      (destruct (_ <? _)%nat; [apply RemoveByFact_sublist|done]). }
  destruct (Nat.ltb_spec (length cands) 1) as [Hc|Hc].
  { exists [], pool', cands, rest. split_and!; [done..| |done]. intros _ _ sub Hs Hne.
    apply submseteq_length in Hs. destruct sub; [done|]. simpl in Hs. lia. }
  set (sorted := sort_slice _ cands).
  pose proof (findExpelCombinations_spec sort_slice Hsort undef sorted suf) as Hspec.
  destruct (findExpelCombinations _ _ _ _) as [nodes found]. destruct Hspec as (-> & Hsome & Hnone).
  assert (sorted ≡ₚ cands) as Hperm by apply Hsort.
  destruct (Nat.ltb_spec (length found) 1) as [Hf|Hf].
  { exists [], pool', cands, rest. split_and!; [done..| |done]. intros _ Hlen sub Hs.
    apply Hnone; [by destruct found; simpl in *; [|lia]|by rewrite Hperm|by rewrite Hperm]. }
  assert (found <> []) as Hne by (intros ->; simpl in *; lia). destruct (Hsome Hne) as [Hfs He].
  rewrite Hperm in Hfs.
  destruct (filter_all_spec found (expel_nodes found)) as (ops & Hops & H2).
  { apply Forall_forall. intros x Hx. rewrite Forall_forall in Hnd. apply Hnd.
    eapply sublist_subseteq; [apply candidates_sublist|]. by eapply elem_of_submseteq. }
  assert (expel_nodes ops = expel_nodes found) as En.
  { clear -H2. unfold expel_nodes. induction H2 as [|x x' l l' [Hx _] _ IH]; [done|].
    cbn [fmap list_fmap]. by rewrite Hx, IH. }
  exists ops, pool', cands, rest. rewrite Hops. split_and!; [done..| |].
  { intros ->. by apply Forall2_length in H2; destruct found. }
  intros _. exists found. rewrite En. split_and!; [done|done|done|].
  unfold NewSuffrageWithExpels. rewrite <- (Forall2_length _ _ _ H2).
  destruct (Nat.ltb_spec (length found) 1); [lia|].
  assert (existsb (fun x => Z.of_nat (length (NodeSigns x)) <?
    expel_sign_threshold undef suf DefaultThreshold (Z.of_nat (length found))) ops = false) as ->; [|done].
  destruct (existsb _ ops) eqn:Ex; [|done]. apply existsb_exists in Ex as (x' & Hx'%list_elem_of_In & Hl%Z.ltb_lt).
  apply list_elem_of_lookup in Hx' as [i Hi].
  destruct (Forall2_lookup_r _ _ _ _ _ H2 Hi) as (x & Hx & _ & Hs).
  destruct (He x) as [_ Hth]; [by eapply list_elem_of_lookup_2|]. rewrite Hs in Hl. lia.
Qed.

(** An expel for the future hides the present ones.  A member may sign an
    expel of another that starts later; once it is voted, being the one that
    ends last, it is the first of every traversal, which stops at it: [Find]
    gives nothing until its start, and keeps it. *)
Theorem future_expel_hides_current local existsInState op pool undef height suf :
  ex_node op <> local -> existsInState (xf_hash (xo_fact op)) = Ok false ->
  (forall x, x ∈ pool -> xf_end (xo_fact x) < xf_end (xo_fact op) /\ ex_node x <> ex_node op) ->
  0 <= height < xf_start (xo_fact op) -> xf_start (xo_fact op) <= xf_end (xo_fact op) ->
  exists pool1 pool2, SuffrageVoting_Vote local existsInState op pool = (Ok true, Some op, pool1) /\
    Find sort_slice undef height suf pool1 = (Ok [], pool2) /\ op ∈ pool2.
Proof.
  intros Hl He Hp Hh Hse. exists (op :: pool).
  assert (find_expel (xf_start (xo_fact op)) (ex_node op) pool = None) as Hf.
  { clear -Hp. induction pool as [|x pool IH]; [done|]. cbn [find_expel].
    rewrite bool_decide_eq_false_2 by (intros E; by apply (Hp x); [left|]). cbn [negb].
    apply IH. intros y Hy. apply Hp. by right. }
  assert (SetSuffrageExpelOperation op pool = op :: pool) as Hset.
  { destruct pool as [|x pool]; [done|]. destruct (Hp x) as [Hend _]; [by left|]. cbn [SetSuffrageExpelOperation].
    unfold same_key, key_before. rewrite (proj2 (Z.eqb_neq _ _)) by lia.
    by rewrite (proj2 (Z.ltb_lt _ _)) by lia. }
  eexists. split.
  - unfold SuffrageVoting_Vote. rewrite bool_decide_eq_false_2 by done. rewrite He, Hf.
    cbn [merge]. rewrite Hset. done.
  - unfold Find. cbn [TraverseSuffrageExpelOperations]. unfold inactive at 1.
    rewrite (proj2 (Z.ltb_lt height _)), orb_true_r by lia. simpl length. split; [reflexivity|].
    destruct (GenesisHeight <=? Height_Prev height) eqn:Eg; [|by left].
    unfold RemoveSuffrageExpelOperationsByHeight. apply FilterSlice_elem. split; [by left|].
    apply Z.ltb_lt. unfold Height_Prev. apply Z.leb_le in Eg. unfold GenesisHeight, Height_Prev in Eg.
    destruct (Z.eq_dec height 0) as [->|]; [by vm_compute in Eg|].
    assert (wrap_s 64 (height - 1) <= height - 1); [|lia].
    unfold wrap_s. change (64 - 1) with 63.
    pose proof (Z.mod_le (height - 1 + 2 ^ 63) (2 ^ 64)). lia.
Qed.

(** Signatures for one expel are filed under another.  An expel of a node
    that starts while an older one of the same node is active is merged into
    the older: its signs, made for another fact, are added to those of the
    older fact, the merged operation is stored and handed on, and it is not
    valid. *)
Theorem vote_mixes_facts local existsInState x op s pool :
  ex_node op <> local -> existsInState (xf_hash (xo_fact op)) = Ok false ->
  find_expel (xf_start (xo_fact op)) (ex_node op) pool = Some x -> xo_hash x <> xo_hash op ->
  s ∈ NodeSigns op -> ns_node s ∉ ns_node <$> xo_signs x ->
  sign_Verify s (xf_hash (xo_fact x)) <> Ok tt ->
  exists m pool', SuffrageVoting_Vote local existsInState op pool = (Ok true, Some m, pool') /\
    m ∈ pool' /\ xo_fact m = xo_fact x /\ s ∈ xo_signs m /\ SuffrageExpelOperation_IsValid m <> Ok tt.
Proof.
  intros Hl He Hf Hne Hs Hns Hv. unfold SuffrageVoting_Vote. rewrite bool_decide_eq_false_2 by done.
  rewrite He, Hf, bool_decide_eq_false_2 by done. unfold merge, AddNodeSigns.
  set (updates := FilterSlice _ _). assert (s ∈ updates) as Hu.
  { apply FilterSlice_elem. split; [done|]. apply negb_true_iff.
    destruct (existsb _ _) eqn:E; [|done]. apply existsb_exists in E as (s' & Hs' & Heq%bool_decide_eq_true).
    destruct Hns. rewrite Heq. apply list_elem_of_fmap. exists s'. by apply list_elem_of_In in Hs'. }
  destruct (Nat.ltb_spec (length updates) 1) as [Hlt|_].
  { destruct updates; [by apply not_elem_of_nil in Hu|simpl in Hlt; lia]. }
  eexists _, _. split; [reflexivity|]. split_and!.
  - apply elem_of_pool.
  - done.
  - simpl. apply elem_of_app. by right.
  - unfold SuffrageExpelOperation_IsValid, BaseNodeOperation_IsValid, BaseOperation_IsValid, IsValidSignFact.
    rewrite !bind_err_ok. intros ([(_ & _ & (_ & _ & Hver) & _) _] & _).
    apply check_all_ok in Hver. rewrite Forall_forall in Hver. apply Hv, Hver.
    simpl. apply list_elem_of_fmap. exists s. split; [done|]. apply elem_of_app. by right.
Qed.

End Properties.

(** ** Concrete expels *)

(** What [sort.Slice] does on short slices. *)
Fixpoint ins {T} (less : T -> T -> bool) (x : T) (l : list T) : list T :=
  match l with
  | [] => [x]
  | y :: l => if less y x then y :: ins less x l else x :: y :: l
  end.
Definition ins_sort {T} (less : T -> T -> bool) (l : list T) : list T := foldr (ins less) [] l.

Lemma ins_sort_perm {T} (less : T -> T -> bool) l : ins_sort less l ≡ₚ l.
Proof.
  assert (forall x k, ins less x k ≡ₚ x :: k) as Hi.
  { intros x k. induction k as [|y k IH]; simpl; [done|]. destruct (less y x); [|done].
    rewrite IH. apply Permutation_swap. }
  induction l as [|x l IH]; simpl; [done|]. by rewrite Hi, IH.
Qed.

Definition demo_pool : list expel :=
  [demo_expel "n3" ["n0"; "n1"; "n2"]; demo_expel "n2" ["n0"; "n3"]].

Lemma Find_correct_witness :
  exists ops pool' found, @Find demo_crypto ins_sort 0 33 demo_suffrage demo_pool = (Ok ops, pool') /\
    ops <> [] /\ enough 0 demo_suffrage found /\ (xf_node ∘ xo_fact) <$> ops = ["n3"].
Proof.
  destruct (@Find_correct demo_crypto ins_sort 0 33 demo_suffrage demo_pool)
    as (ops & pool' & reached & rest & Hf & _ & _ & _ & _ & _ & Hsome).
  - intros less l. apply ins_sort_perm.
  - apply (bool_decide_unpack _). vm_compute. exact I.
  - assert ((xf_node ∘ xo_fact) <$> ops = ["n3"]) as E
      by (vm_compute in Hf; injection Hf as <- <-; reflexivity).
    assert (ops <> []) as Hne by (intros ->; discriminate E).
    destruct (Hsome Hne) as (found & _ & He & _).
    exists ops, pool', found. split; [exact Hf|]. split; [exact Hne|]. split; [exact He|exact E].
Defined.

Definition demo_future : expel :=
  {| xo_hash := "op-future";
     xo_fact := {| xf_hash := "fact-future"; xf_token := "t"; xf_node := "n1"; xf_start := 1000;
                   xf_end := 1005; xf_reason := "down" |};
     xo_signs := [demo_sign "n0"] |}.

(** The expel for the future passes the checks made before it is voted. *)
Lemma future_expel_hides_current_witness :
  exists pool1 pool2,
    @SuffrageVoting_Vote demo_crypto "n2" (fun _ => Ok false) demo_future demo_pool = (Ok true, Some demo_future, pool1) /\
    @Find demo_crypto ins_sort 0 33 demo_suffrage pool1 = (Ok [], pool2) /\ demo_future ∈ pool2 /\
    IsValidExpelWithSuffrageLifespan 33 demo_future demo_suffrage 10 = Ok tt.
Proof.
  destruct (@future_expel_hides_current demo_crypto ins_sort "n2" (fun _ => Ok false) demo_future demo_pool 0 33
    demo_suffrage) as (pool1 & pool2 & H1 & H2 & H3).
  - discriminate.
  - reflexivity.
  - intros x Hx. unfold demo_pool in Hx. rewrite !elem_of_cons in Hx.
    destruct Hx as [->|[->|Hx]]; [split; [reflexivity|discriminate]..|by apply not_elem_of_nil in Hx].
  - split; [discriminate|reflexivity].
  - discriminate.
  - exists pool1, pool2. split; [exact H1|]. split; [exact H2|]. split; [exact H3|]. vm_compute. reflexivity.
Defined.

(** Signatures that are good for one fact only. *)
Definition strict_crypto : Crypto := {|
  hash_bytes := fun h => h;
  fact_hash := Fact_Hash;
  expel_token := fun _ _ _ => "t";
  expel_hash := xf_hash;
  operation_hash := xo_hash;
  sign_IsValid := fun _ => Ok tt;
  sign_Verify := fun s h => guard_err (negb (bool_decide (ns_signature s = "sig-" +:+ h))) "wrong signature";
  address_IsValid := fun _ => Ok tt
|}.
Definition strict_expel (hash : string) (start : Z) (signer : string) : expel :=
  {| xo_hash := "op-" +:+ hash;
     xo_fact := {| xf_hash := hash; xf_token := "t"; xf_node := "n3"; xf_start := start;
                   xf_end := 40; xf_reason := "down" |};
     xo_signs := [{| ns_node := signer; ns_signer := "pk-" +:+ signer; ns_signature := "sig-" +:+ hash |}] |}.

Lemma vote_mixes_facts_witness :
  let x := strict_expel "f1" 30 "n0" in
  let op := strict_expel "f2" 33 "n1" in
  exists m pool', @SuffrageVoting_Vote strict_crypto "n2" (fun _ => Ok false) op [x] = (Ok true, Some m, pool') /\
    @SuffrageExpelOperation_IsValid strict_crypto x = Ok tt /\
    @SuffrageExpelOperation_IsValid strict_crypto op = Ok tt /\
    @SuffrageExpelOperation_IsValid strict_crypto m <> Ok tt.
Proof.
  destruct (@vote_mixes_facts strict_crypto "n2" (fun _ => Ok false)
    (strict_expel "f1" 30 "n0") (strict_expel "f2" 33 "n1")
    {| ns_node := "n1"; ns_signer := "pk-n1"; ns_signature := "sig-f2" |} [strict_expel "f1" 30 "n0"])
    as (m & pool' & H1 & _ & _ & _ & H2).
  - discriminate.
  - reflexivity.
  - vm_compute. reflexivity.
  - discriminate.
  - apply (bool_decide_unpack _). vm_compute. exact I.
  - apply (bool_decide_unpack _). vm_compute. exact I.
  - vm_compute. discriminate.
  - exists m, pool'. split; [exact H1|]. split; [vm_compute; reflexivity|].
    split; [vm_compute; reflexivity|exact H2].
Defined.

(** Combinations are tried by mask, not by size: the last expel alone is taken
    before the two others together. *)
Definition demo_ten : Suffrage :=
  let ns := demo_node <$> ["n0"; "n1"; "n2"; "n3"; "n4"; "n5"; "n6"; "n7"; "n8"; "n9"] in
  {| suf_m := foldl (fun m n => <[node_address n := n]> m) ∅ ns; suf_ns := ns |}.
Example big_combination_not_first :
  let others := ["n0"; "n1"; "n2"; "n3"; "n4"; "n5"; "n6"] in
  let a := demo_expel "n9" others in
  let b := demo_expel "n8" others in
  let c := demo_expel "n7" ["n0"; "n1"; "n2"; "n3"; "n4"; "n8"; "n9"] in
  (findExpelCombinations ins_sort 0 [a; b; c] demo_ten).1 = ["n7"] /\
  (findExpelCombinations ins_sort 0 [a; b] demo_ten).1 = ["n9"; "n8"].
Proof. vm_compute. split; reflexivity. Qed.

(** An expel of a node that left the suffrage hides those after it, once. *)
Example stranger_hides_others :
  let pool := [demo_expel "x9" ["n0"; "n1"; "n2"]; demo_expel "n3" ["n0"; "n1"; "n2"]] in
  (@Find demo_crypto ins_sort 0 33 demo_suffrage pool).1 = Ok [] /\
  (@Find demo_crypto ins_sort 0 33 demo_suffrage (tail pool)).1 = Ok [demo_expel "n3" ["n0"; "n1"; "n2"]].
Proof. vm_compute. split; reflexivity. Qed.
