(* ===== verification/SuffrageState.v ===== *)
(** * The suffrage state and the operations that change it

    [isaac/suffrage_state.go], [base/sign.go] and the processors of
    [isaac/operation]: [suffrage_join_processor.go],
    [suffrage_disjoin_processor.go], [suffrage_expel_processor.go],
    [suffrage_candidate_processor.go].

    A processor preprocesses the operations of a block one after the other; an
    operation that passes is processed into merge values, which reach the
    mergers of the two states - the suffrage and its candidates - from concurrent
    workers, in any order.  The constraints given from outside are arguments.
    [sort.Slice] by address sorts entries of distinct addresses, so whatever its
    algorithm the result is that of [merge_sort]. *)
From S2P Require Import Prelude Point Vote Slice Ballot.
From Stdlib Require Import SpecFloat.

Open Scope Z_scope.

(** ** State values *)
Record SuffrageNodeStateValue := { sn_node : Node; sn_start : Z }.
Record SuffrageNodesStateValue := { ss_height : Z; ss_nodes : list SuffrageNodeStateValue }.
Record SuffrageCandidateStateValue := { cn_node : Node; cn_start : Z; cn_deadline : Z }.

Definition sn_address (n : SuffrageNodeStateValue) : Address := node_address (sn_node n).
Definition cn_address (n : SuffrageCandidateStateValue) : Address := node_address (cn_node n).

(** [SuffrageNodesStateValue.Suffrage]. *)
Definition state_Suffrage (v : SuffrageNodesStateValue) : res Suffrage := NewSuffrage (sn_node <$> ss_nodes v).

(** [node_IsValid] is the validity of the node itself. *)
Definition SuffrageNodeStateValue_IsValid (node_IsValid : Node -> err) (n : SuffrageNodeStateValue) : err :=
  check_all [node_IsValid (sn_node n); Height_IsValid (sn_start n)].
Definition SuffrageNodesStateValue_IsValid (node_IsValid : Node -> err) (v : SuffrageNodesStateValue) : err :=
  check_all (Height_IsValid (ss_height v) :: (SuffrageNodeStateValue_IsValid node_IsValid <$> ss_nodes v)).
Definition SuffrageCandidateStateValue_IsValid (node_IsValid : Node -> err) (c : SuffrageCandidateStateValue) : err :=
  guard_err (cn_deadline c <=? cn_start c) "start >= deadline" ≫= fun _ => node_IsValid (cn_node c).

Definition FilterCandidates (height : Z) (candidates : list SuffrageCandidateStateValue)
    : list SuffrageCandidateStateValue :=
  FilterSlice candidates (fun c => height <=? cn_deadline c).
(** [LastCandidatesFromState]: the candidates of the state still in time. *)
Definition LastCandidatesFromState (height : Z) (candidates : option (list SuffrageCandidateStateValue))
    : list SuffrageCandidateStateValue :=
  match candidates with None => [] | Some nodes => FilterCandidates height nodes end.

Definition InCandidates (node : Node) (candidates : list SuffrageCandidateStateValue) : bool :=
  existsb (fun c => bool_decide (node_address node = cn_address c) &&
                    bool_decide (node_publickey node = node_publickey (cn_node c))) candidates.

(** [m[n.Address().String()] = n] over a list. *)
Definition by_address {T} (address : T -> Address) (l : list T) : gmap Address T :=
  foldl (fun m n => <[address n := n]> m) ∅ l.

(** [CheckFactSignsBySuffrage]: the share of the suffrage that signed, in percent. *)
Definition CheckFactSignsBySuffrage (suf : Suffrage) (threshold : Threshold) (signs : list NodeSign) : err :=
  let sign := CountFilteredSlice signs (fun s => Suffrage_ExistsPublickey suf (ns_node s) (ns_signer s)) in
  guard_err (SFltb (f64_mul (f64_div (f64_of_Z (Z.of_nat sign)) (f64_of_Z (Suffrage_Len suf))) (f64_of_Z 100))
                   threshold) "not enough signs".

(** ** Operations *)
Record SuffrageJoin := { jo_candidate : Address; jo_start : Z; jo_signs : list NodeSign }.
Record SuffrageDisjoin := { do_node : Address; do_start : Z; do_signs : list NodeSign }.
Record SuffrageCandidate := { co_address : Address; co_publickey : Publickey }.

(** The result of [PreProcess]: the processor, and the reason it refuses. *)
Abbreviation refusal := (option string).

(** A constraint from outside: refuses, fails, or lets pass. *)
Definition constrained {P} (constraint : res refusal) (p : P) (k : P * refusal) : res (P * refusal) :=
  constraint ≫= fun r => match r with Some e => Ok (p, Some e) | None => Ok k end.

(** *** Join *)
Record SuffrageJoinProcessor := {
  jp_height : Z;
  jp_threshold : Threshold;
  jp_suffrage : Suffrage;
  jp_candidates : gmap Address SuffrageCandidateStateValue;
  jp_preprocessed : gset Address
}.

(** The states are given: [None] when not found. *)
Definition NewSuffrageJoinProcessor (height : Z) (threshold : Threshold)
    (st : option SuffrageNodesStateValue) (candidates : option (list SuffrageCandidateStateValue))
    : res SuffrageJoinProcessor :=
  match st with
  | None => Err "empty state"
  | Some v =>
      match state_Suffrage v with
      | Ok suf => Ok {| jp_height := height; jp_threshold := threshold; jp_suffrage := suf;
          jp_candidates := by_address cn_address (LastCandidatesFromState height candidates);
          jp_preprocessed := ∅ |}
      | _ => Err "get suffrage from state"
      end
  end.

Definition findCandidateFromSigns (op : SuffrageJoin) : option Node :=
  match FilterSlice (jo_signs op) (fun s => bool_decide (ns_node s = jo_candidate op)) with
  | s :: _ => Some {| node_address := ns_node s; node_publickey := ns_signer s |}
  | [] => None
  end.

Definition Join_PreProcess (constraint : SuffrageJoin -> res refusal) (p : SuffrageJoinProcessor)
    (op : SuffrageJoin) : res (SuffrageJoinProcessor * refusal) :=
  let n := jo_candidate op in
  let refuse e := Ok (p, Some e) in
  if bool_decide (jp_candidates p = ∅) then refuse "not candidate"%string
  else if bool_decide (n ∈ jp_preprocessed p) then refuse "already preprocessed"%string
  else if Suffrage_Exists (jp_suffrage p) n then refuse "candidate already in suffrage"%string
  else match jp_candidates p !! n with
  | None => refuse "candidate not in candidates"%string
  | Some i =>
      if negb (jo_start op =? cn_start i) then refuse "start does not match"%string
      else if cn_deadline i <? jp_height p then refuse "candidate expired"%string
      else match findCandidateFromSigns op with
      | None => refuse "not signed by Join"%string
      | Some node =>
          if negb (bool_decide (node_publickey node = node_publickey (cn_node i)))
          then refuse "not signed by candidate key"%string
          else
            constraint op ≫= fun r =>
            match r with
            | Some e => refuse e
            | None =>
                match CheckFactSignsBySuffrage (jp_suffrage p) (jp_threshold p) (jo_signs op) with
                | Ok _ => Ok ({| jp_height := jp_height p; jp_threshold := jp_threshold p;
                    jp_suffrage := jp_suffrage p; jp_candidates := jp_candidates p;
                    jp_preprocessed := {[cn_address i]} ∪ jp_preprocessed p |}, None)
                | _ => refuse "not enough signs"%string
                end
            end
      end
  end.

(** The values for the suffrage state and for the candidates state. *)
Inductive suffrage_value := suffrageJoinNodeStateValue (nodes : list Node) | suffrageDisjoinNodeStateValue (node : Address).
Inductive candidates_value := SuffrageCandidatesStateValue (nodes : list SuffrageCandidateStateValue)
  | suffrageRemoveCandidateStateValue (nodes : list Address).

(** The candidate is in the map, or [PreProcess] would have refused. *)
Definition Join_Process (constraint : SuffrageJoin -> res refusal) (p : SuffrageJoinProcessor) (op : SuffrageJoin)
    : res (option (candidates_value * suffrage_value)) :=
  constraint op ≫= fun r =>
  match r with
  | Some _ => Ok None
  | None =>
      match jp_candidates p !! jo_candidate op with
      | None => Panic
      | Some c => Ok (Some (suffrageRemoveCandidateStateValue [cn_address c], suffrageJoinNodeStateValue [cn_node c]))
      end
  end.

(** *** Disjoin; [expelled] are the nodes whose expel was preprocessed before. *)
Record SuffrageDisjoinProcessor := {
  dp_suffrage : gmap Address SuffrageNodeStateValue;
  dp_preprocessed : gset Address
}.

Definition NewSuffrageDisjoinProcessor (st : option SuffrageNodesStateValue) : res SuffrageDisjoinProcessor :=
  match st with
  | None => Err "empty state"
  | Some v => Ok {| dp_suffrage := by_address sn_address (ss_nodes v); dp_preprocessed := ∅ |}
  end.

Definition Disjoin_PreProcess (constraint : SuffrageDisjoin -> res refusal) (expelled : list Address)
    (p : SuffrageDisjoinProcessor) (op : SuffrageDisjoin) : res (SuffrageDisjoinProcessor * refusal) :=
  let n := do_node op in
  let refuse e := Ok (p, Some e) in
  match do_signs op with
  | [] => Panic
  | signer :: _ =>
      if bool_decide (n ∈ dp_preprocessed p) then refuse "already preprocessed"%string
      else if bool_decide (n ∈ expelled) then refuse "already withdrew"%string
      else match dp_suffrage p !! n with
      | None => refuse "not in suffrage"%string
      | Some stv =>
          if negb (do_start op =? sn_start stv) then refuse "start does not match"%string
          else if negb (bool_decide (ns_signer signer = node_publickey (sn_node stv)))
          then refuse "not signed by node key"%string
          else constrained (constraint op) p
                 ({| dp_suffrage := dp_suffrage p; dp_preprocessed := {[n]} ∪ dp_preprocessed p |}, None)
      end
  end.

Definition Disjoin_Process (constraint : SuffrageDisjoin -> res refusal) (op : SuffrageDisjoin)
    : res (option suffrage_value) :=
  constraint op ≫= fun r =>
  match r with Some _ => Ok None | None => Ok (Some (suffrageDisjoinNodeStateValue (do_node op))) end.

(** *** Expel *)
Record SuffrageExpelProcessor := {
  xp_height : Z;
  xp_suffrage : Suffrage;
  xp_preprocessed : gset Address
}.

Definition NewSuffrageExpelProcessor (height : Z) (st : option SuffrageNodesStateValue) : res SuffrageExpelProcessor :=
  match st with
  | None => Err "empty state"
  | Some v =>
      match state_Suffrage v with
      | Ok suf => Ok {| xp_height := height; xp_suffrage := suf; xp_preprocessed := ∅ |}
      | _ => Err "get suffrage from state"
      end
  end.

(** Also the context: the expelled nodes, for the operations after it. *)
Definition Expel_PreProcess (constraint : SuffrageExpelOperation -> res refusal) (expelled : list Address)
    (p : SuffrageExpelProcessor) (op : SuffrageExpelOperation)
    : res (SuffrageExpelProcessor * list Address * refusal) :=
  let fact := xo_fact op in
  let n := xf_node fact in
  let refuse e := Ok (p, expelled, Some e) in
  if xp_height p <? xf_start fact then refuse "wrong start height"%string
  else if xf_end fact <? xp_height p then refuse "expired"%string
  else if bool_decide (n ∈ xp_preprocessed p) then refuse "already preprocessed"%string
  else if negb (Suffrage_Exists (xp_suffrage p) n) then refuse "not in suffrage"%string
  else constrained (constraint op) (p, expelled)
         ({| xp_height := xp_height p; xp_suffrage := xp_suffrage p;
             xp_preprocessed := {[n]} ∪ xp_preprocessed p |}, expelled ++ [n], None).

Definition Expel_Process (constraint : SuffrageExpelOperation -> res refusal) (op : SuffrageExpelOperation)
    : res (option suffrage_value) :=
  constraint op ≫= fun r =>
  match r with Some _ => Ok None | None => Ok (Some (suffrageDisjoinNodeStateValue (xf_node (xo_fact op)))) end.

(** *** Candidate *)
Record SuffrageCandidateProcessor := {
  cp_height : Z;
  cp_suffrages : gmap Address SuffrageNodeStateValue;
  cp_existings : gmap Address SuffrageCandidateStateValue;
  cp_preprocessed : gset Address;
  cp_startheight : Z;
  cp_deadlineheight : Z
}.

Definition NewSuffrageCandidateProcessor (height lifespan : Z) (st : option SuffrageNodesStateValue)
    (candidates : option (list SuffrageCandidateStateValue)) : SuffrageCandidateProcessor :=
  {| cp_height := height;
     cp_suffrages := match st with None => ∅ | Some v => by_address sn_address (ss_nodes v) end;
     cp_existings := by_address cn_address (LastCandidatesFromState height candidates);
     cp_preprocessed := ∅;
     cp_startheight := wrap_s 64 (height + 1);
     cp_deadlineheight := wrap_s 64 (height + 1 + lifespan) |}.

(** The address is marked before the constraint is asked, and also when refused
    as already candidate; it is not marked when found but out of time. *)
Definition Candidate_PreProcess (constraint : SuffrageCandidate -> res refusal) (p : SuffrageCandidateProcessor)
    (op : SuffrageCandidate) : res (SuffrageCandidateProcessor * refusal) :=
  let a := co_address op in
  let marked := {| cp_height := cp_height p; cp_suffrages := cp_suffrages p; cp_existings := cp_existings p;
    cp_preprocessed := {[a]} ∪ cp_preprocessed p; cp_startheight := cp_startheight p;
    cp_deadlineheight := cp_deadlineheight p |} in
  let ask p := constraint op ≫= fun r => Ok (p, r) in
  if bool_decide (a ∈ cp_preprocessed p) then Ok (p, Some "candidate already preprocessed"%string)
  else match cp_suffrages p !! a with
  | Some _ => Ok (p, Some "candidate already in suffrage"%string)
  | None =>
      match cp_existings p !! a with
      | None => ask marked
      | Some record =>
          if cp_height p <=? cn_deadline record then Ok (marked, Some "already candidate"%string) else ask p
      end
  end.

Definition Candidate_Process (constraint : SuffrageCandidate -> res refusal) (p : SuffrageCandidateProcessor)
    (op : SuffrageCandidate) : res (option candidates_value) :=
  constraint op ≫= fun r =>
  match r with
  | Some _ => Ok None
  | None => Ok (Some (SuffrageCandidatesStateValue
      [{| cn_node := {| node_address := co_address op; node_publickey := co_publickey op |};
          cn_start := cp_startheight p; cn_deadline := cp_deadlineheight p |}]))
  end.

(** ** The mergers *)

(** [sort.Slice] by [strings.Compare] of the addresses. *)
Definition address_le {T} (address : T -> Address) (x y : T) : Prop := String.le (address x) (address y).
#[global] Instance address_le_dec {T} (address : T -> Address) : RelDecision (address_le address).
Proof. intros x y. unfold address_le. apply _. Defined.
Definition sort_by_address {T} (address : T -> Address) (l : list T) : list T := merge_sort (address_le address) l.

Record SuffrageJoinStateValueMerger := { jm_joined : list Node; jm_disjoined : list Address }.

Definition Join_Merge (s : SuffrageJoinStateValueMerger) (v : suffrage_value) : SuffrageJoinStateValueMerger :=
  match v with
  | suffrageJoinNodeStateValue nodes => {| jm_joined := jm_joined s ++ nodes; jm_disjoined := jm_disjoined s |}
  | suffrageDisjoinNodeStateValue n => {| jm_joined := jm_joined s; jm_disjoined := jm_disjoined s ++ [n] |}
  end.

(** [None] is [ErrIgnoreStateValue]: the state does not change. *)
Definition Join_closeValue (height : Z) (existing : SuffrageNodesStateValue) (s : SuffrageJoinStateValueMerger)
    : option SuffrageNodesStateValue :=
  match jm_disjoined s, jm_joined s with
  | [], [] => None
  | _, _ =>
      let existingnodes := Filter2Slices (ss_nodes existing) (jm_disjoined s)
        (fun x y => bool_decide (sn_address x = y)) in
      let joined := sort_by_address node_address (jm_joined s) in
      Some {| ss_height := wrap_s 64 (ss_height existing + 1);
              ss_nodes := existingnodes ++
                ((fun n => {| sn_node := n; sn_start := wrap_s 64 (height + 1) |}) <$> joined) |}
  end.

Record SuffrageCandidatesStateValueMerger := {
  cm_added : list SuffrageCandidateStateValue;
  cm_removes : list Address
}.

Definition Candidates_Merge (s : SuffrageCandidatesStateValueMerger) (v : candidates_value)
    : SuffrageCandidatesStateValueMerger :=
  match v with
  | SuffrageCandidatesStateValue nodes => {| cm_added := cm_added s ++ nodes; cm_removes := cm_removes s |}
  | suffrageRemoveCandidateStateValue nodes => {| cm_added := cm_added s; cm_removes := cm_removes s ++ nodes |}
  end.

Definition Candidates_closeValue (existings : list SuffrageCandidateStateValue)
    (s : SuffrageCandidatesStateValueMerger) : option (list SuffrageCandidateStateValue) :=
  match cm_removes s, cm_added s with
  | [], [] => None
  | _, _ =>
      let existings := Filter2Slices existings (cm_removes s) (fun x y => bool_decide (cn_address x = y)) in
      let existings := Filter2Slices existings (cm_added s)
        (fun x y => bool_decide (cn_address x = cn_address y)) in
      Some (existings ++ sort_by_address cn_address (cm_added s))
  end.

(** ** The operations of a block

    [processOperations] of [isaac/proposal_processor.go], for these operations:
    each is preprocessed in the order of the proposal with the context the ones
    before left; what passes is processed by a worker.  Only [PreProcess] changes a
    processor, and not what [Process] reads, so processing at once gives the same
    values; the workers hand them to the mergers in any order. *)
Inductive operation :=
  | JoinOp (op : SuffrageJoin)
  | DisjoinOp (op : SuffrageDisjoin)
  | ExpelOp (op : SuffrageExpelOperation)
  | CandidateOp (op : SuffrageCandidate).

Record block := {
  b_join : SuffrageJoinProcessor;
  b_disjoin : SuffrageDisjoinProcessor;
  b_expel : SuffrageExpelProcessor;
  b_candidate : SuffrageCandidateProcessor;
  b_expelled : list Address
}.

(** Processors are made at the first operation of their kind, from the states
    before the block, which stay the same: here all at once. *)
Definition new_block (height lifespan : Z) (threshold : Threshold) (v : SuffrageNodesStateValue)
    (candidates : list SuffrageCandidateStateValue) : res block :=
  NewSuffrageJoinProcessor height threshold (Some v) (Some candidates) ≫= fun j =>
  NewSuffrageDisjoinProcessor (Some v) ≫= fun d =>
  NewSuffrageExpelProcessor height (Some v) ≫= fun x =>
  Ok {| b_join := j; b_disjoin := d; b_expel := x;
        b_candidate := NewSuffrageCandidateProcessor height lifespan (Some v) (Some candidates);
        b_expelled := [] |}.

(** The merge values of an operation. *)
Abbreviation merge_values := (list suffrage_value * list candidates_value)%type.

Section block.
(** The constraints, before and while processing. *)
Variable pre proc : operation -> res refusal.

Definition doPreProcessOperation (b : block) (op : operation) : res (block * refusal) :=
  match op with
  | JoinOp o =>
      Join_PreProcess (fun o => pre (JoinOp o)) (b_join b) o ≫= fun '(p, r) =>
      Ok ({| b_join := p; b_disjoin := b_disjoin b; b_expel := b_expel b; b_candidate := b_candidate b;
             b_expelled := b_expelled b |}, r)
  | DisjoinOp o =>
      Disjoin_PreProcess (fun o => pre (DisjoinOp o)) (b_expelled b) (b_disjoin b) o ≫= fun '(p, r) =>
      Ok ({| b_join := b_join b; b_disjoin := p; b_expel := b_expel b; b_candidate := b_candidate b;
             b_expelled := b_expelled b |}, r)
  | ExpelOp o =>
      Expel_PreProcess (fun o => pre (ExpelOp o)) (b_expelled b) (b_expel b) o ≫= fun '(p, l, r) =>
      Ok ({| b_join := b_join b; b_disjoin := b_disjoin b; b_expel := p; b_candidate := b_candidate b;
             b_expelled := l |}, r)
  | CandidateOp o =>
      Candidate_PreProcess (fun o => pre (CandidateOp o)) (b_candidate b) o ≫= fun '(p, r) =>
      Ok ({| b_join := b_join b; b_disjoin := b_disjoin b; b_expel := b_expel b; b_candidate := p;
             b_expelled := b_expelled b |}, r)
  end.

Definition doProcessOperation (b : block) (op : operation) : res merge_values :=
  match op with
  | JoinOp o =>
      Join_Process (fun o => proc (JoinOp o)) (b_join b) o ≫= fun r =>
      Ok match r with Some (c, s) => ([s], [c]) | None => ([], []) end
  | DisjoinOp o =>
      Disjoin_Process (fun o => proc (DisjoinOp o)) o ≫= fun r =>
      Ok match r with Some s => ([s], []) | None => ([], []) end
  | ExpelOp o =>
      Expel_Process (fun o => proc (ExpelOp o)) o ≫= fun r =>
      Ok match r with Some s => ([s], []) | None => ([], []) end
  | CandidateOp o =>
      Candidate_Process (fun o => proc (CandidateOp o)) (b_candidate b) o ≫= fun r =>
      Ok match r with Some c => ([], [c]) | None => ([], []) end
  end.

Fixpoint processOperations (b : block) (ops : list operation) : res merge_values :=
  match ops with
  | [] => Ok ([], [])
  | op :: ops =>
      doPreProcessOperation b op ≫= fun '(b, r) =>
      match r with
      | Some _ => processOperations b ops
      | None =>
          doProcessOperation b op ≫= fun '(s, c) =>
          processOperations b ops ≫= fun '(s', c') => Ok (s ++ s', c ++ c')
      end
  end.

End block.

(** The next suffrage and the next candidates. *)
Definition next_suffrage (height : Z) (v : SuffrageNodesStateValue) (svs : list suffrage_value)
    : option SuffrageNodesStateValue :=
  Join_closeValue height v (foldl Join_Merge {| jm_joined := []; jm_disjoined := [] |} svs).
Definition next_candidates (candidates : list SuffrageCandidateStateValue) (cvs : list candidates_value)
    : option (list SuffrageCandidateStateValue) :=
  Candidates_closeValue candidates (foldl Candidates_Merge {| cm_added := []; cm_removes := [] |} cvs).

(** ** Addresses and sorting *)

(** What the mergers received. *)
Definition joined (svs : list suffrage_value) : list Node :=
  svs ≫= fun v => match v with suffrageJoinNodeStateValue ns => ns | _ => [] end.
Definition left (svs : list suffrage_value) : list Address :=
  svs ≫= fun v => match v with suffrageDisjoinNodeStateValue n => [n] | _ => [] end.
Definition added (cvs : list candidates_value) : list SuffrageCandidateStateValue :=
  cvs ≫= fun v => match v with SuffrageCandidatesStateValue ns => ns | _ => [] end.
Definition removed (cvs : list candidates_value) : list Address :=
  cvs ≫= fun v => match v with suffrageRemoveCandidateStateValue ns => ns | _ => [] end.

Section addresses.
Context {T : Type} (address : T -> Address).

Lemma by_address_None l a : by_address address l !! a = None <-> a ∉ address <$> l.
Proof.
  unfold by_address. assert (forall m : gmap Address T,
    foldl (fun m n => <[address n := n]> m) m l !! a = None <-> m !! a = None /\ a ∉ address <$> l) as H.
  { induction l as [|x l IH]; intros m; simpl; [set_solver|].
    rewrite IH, lookup_insert_None, not_elem_of_cons. naive_solver. }
  rewrite H, lookup_empty. naive_solver.
Qed.

Lemma by_address_Some l a x : by_address address l !! a = Some x -> x ∈ l /\ address x = a.
Proof.
  unfold by_address. assert (forall m : gmap Address T,
    foldl (fun m n => <[address n := n]> m) m l !! a = Some x ->
    (x ∈ l /\ address x = a) \/ m !! a = Some x) as H.
  { induction l as [|y l IH]; intros m; simpl; [auto|].
    intros [[Hx Ha]|Hm]%IH; [left; split; [by right|done]|].
    apply lookup_insert_Some in Hm as [[Ha <-]|[_ Hm]]; [left; split; [by left|done]|by right]. }
  intros [?|Hm]%H; [done|]. by rewrite lookup_empty in Hm.
Qed.

#[global] Instance address_le_total : Total (address_le address).
Proof. intros x y. unfold address_le. apply total, _. Qed.
#[global] Instance address_le_trans : Transitive (address_le address).
Proof. intros x y z. unfold address_le. apply transitivity. Qed.

Lemma sort_by_address_Permutation l : sort_by_address address l ≡ₚ l.
Proof. apply merge_sort_Permutation. Qed.

(** Sorting forgets the order in which distinct entries came. *)
Lemma sort_by_address_unique l1 l2 :
  NoDup (address <$> l1) -> l1 ≡ₚ l2 -> sort_by_address address l1 = sort_by_address address l2.
Proof.
  intros Hnd Hp. unfold sort_by_address.
  apply (StronglySorted_unique_strong (address_le address)).
  - intros x y Hx Hy Hxy Hyx.
    rewrite merge_sort_Permutation in Hx. rewrite merge_sort_Permutation, <- Hp in Hy.
    assert (address x = address y) as E by (by apply (anti_symm String.le)).
    apply list_elem_of_lookup in Hx as [i Hi], Hy as [j Hj].
    assert (i = j) as ->; [|congruence].
    eapply (NoDup_lookup (address <$> l1)); [done|by rewrite list_lookup_fmap, Hi|].
    by rewrite list_lookup_fmap, Hj, E.
  - apply (StronglySorted_merge_sort _).
  - apply (StronglySorted_merge_sort _).
  - by rewrite !merge_sort_Permutation.
Qed.

Lemma NoDup_Filter2Slices {Y} l (ys : list Y) f :
  NoDup (address <$> l) -> NoDup (address <$> Filter2Slices l ys f).
Proof. rewrite Filter2Slices_FilterSlice, FilterSlice_filter. apply NoDup_fmap_filter. Qed.

Lemma Filter2Slices_address {Y} (key : Y -> Address) l ys x :
  x ∈ Filter2Slices l ys (fun x y => bool_decide (address x = key y)) <->
  x ∈ l /\ address x ∉ key <$> ys.
Proof.
  rewrite Filter2Slices_elem, list_elem_of_fmap. split; intros [Hx H]; split; try done.
  - intros (y & E & Hy). specialize (H y Hy). by rewrite bool_decide_eq_false in H.
  - intros y Hy. rewrite bool_decide_eq_false. eauto.
Qed.

Lemma Filter2Slices_Permutation {Y} (l : list T) (ys ys' : list Y) f :
  ys ≡ₚ ys' -> Filter2Slices l ys f = Filter2Slices l ys' f.
Proof.
  intros Hp. rewrite !Filter2Slices_FilterSlice. induction l as [|x l IH]; [done|]. simpl.
  replace (existsb (f x) ys') with (existsb (f x) ys); [by rewrite IH|].
  apply eq_true_iff_eq. rewrite !existsb_exists.
  split; intros (y & Hy%list_elem_of_In & E); exists y; (split; [apply list_elem_of_In|done]).
  - by rewrite <- Hp.
  - by rewrite Hp.
Qed.
End addresses.

(** ** What passes *)

(** What a join, and what the leave of a node, has to show. *)
Definition may_join (threshold : Threshold) (suf : Suffrage) (c : SuffrageCandidateStateValue) (o : SuffrageJoin) : Prop :=
  jo_candidate o = cn_address c /\ jo_start o = cn_start c /\
  (exists n, findCandidateFromSigns o = Some n /\ node_publickey n = node_publickey (cn_node c)) /\
  CheckFactSignsBySuffrage suf threshold (jo_signs o) = Ok tt.
Definition may_leave (height : Z) (nodes : list SuffrageNodeStateValue) (a : Address) (op : operation) : Prop :=
  match op with
  | DisjoinOp o => do_node o = a /\ exists n s, n ∈ nodes /\ sn_address n = a /\ do_start o = sn_start n /\
      head (do_signs o) = Some s /\ ns_signer s = node_publickey (sn_node n)
  | ExpelOp o => xf_node (xo_fact o) = a /\ xf_start (xo_fact o) <= height <= xf_end (xo_fact o)
  | _ => False
  end.

Lemma Join_PreProcess_spec k p o p' r :
  (forall c, jp_candidates p !! jo_candidate o = Some c -> cn_address c = jo_candidate o) ->
  Join_PreProcess k p o = Ok (p', r) ->
  match r with
  | Some _ => p' = p
  | None => exists c, jp_candidates p !! jo_candidate o = Some c /\ jo_candidate o ∉ jp_preprocessed p /\
      Suffrage_Exists (jp_suffrage p) (jo_candidate o) = false /\
      may_join (jp_threshold p) (jp_suffrage p) c o /\
      p' = {| jp_height := jp_height p; jp_threshold := jp_threshold p; jp_suffrage := jp_suffrage p;
              jp_candidates := jp_candidates p; jp_preprocessed := {[cn_address c]} ∪ jp_preprocessed p |}
  end.
Proof.
  intros Hc. unfold Join_PreProcess. destruct (k o) as [[e|]|e|]; run.
  all: repeat (case_match; try done; try by intros [= <-]).
  intros [= <-]. rewrite ?negb_false_iff, ?bool_decide_eq_false, ?bool_decide_eq_true, ?Z.eqb_eq in *.
  eexists. split_and!; [done..| |done]. split_and!; [by rewrite Hc|done|by eauto|].
  by destruct (CheckFactSignsBySuffrage _ _ _) as [[]| |].
Qed.

Lemma Disjoin_PreProcess_spec height k l p o p' r :
  Disjoin_PreProcess k l p o = Ok (p', r) ->
  dp_suffrage p' = dp_suffrage p /\
  (r = None -> exists n, dp_suffrage p !! do_node o = Some n /\
    forall nodes, n ∈ nodes -> sn_address n = do_node o -> may_leave height nodes (do_node o) (DisjoinOp o)).
Proof.
  unfold Disjoin_PreProcess, constrained. destruct (k o) as [[e|]|e|]; run.
  all: repeat (case_match; try done; try by intros [= <- <-]).
  intros [= <- <-]. rewrite ?negb_false_iff, ?bool_decide_eq_true, ?Z.eqb_eq in *.
  split; [done|]. intros _. eexists. split; [done|]. intros nodes Hn Ha. split; [done|].
  eexists _, _. split_and!; try done. by destruct (do_signs o); simplify_eq/=.
Qed.

Lemma Expel_PreProcess_spec nodes k l p o p' l' r :
  Expel_PreProcess k l p o = Ok (p', l', r) ->
  xp_suffrage p' = xp_suffrage p /\ xp_height p' = xp_height p /\
  (r = None -> Suffrage_Exists (xp_suffrage p) (xf_node (xo_fact o)) = true /\
    may_leave (xp_height p) nodes (xf_node (xo_fact o)) (ExpelOp o)).
Proof.
  unfold Expel_PreProcess, constrained. destruct (k o) as [[e|]|e|]; run.
  all: repeat (case_match; try done; try by intros [= <- <- <-]).
  intros [= <- <- <-]. rewrite ?negb_false_iff, ?Z.ltb_ge in *. done.
Qed.

(** A candidate in time is refused, so it is enough that the processor knows only such. *)
Lemma Candidate_PreProcess_spec k p o p' r :
  map_Forall (fun _ c => cp_height p <= cn_deadline c) (cp_existings p) ->
  Candidate_PreProcess k p o = Ok (p', r) ->
  (p' = p \/ p' = {| cp_height := cp_height p; cp_suffrages := cp_suffrages p; cp_existings := cp_existings p;
      cp_preprocessed := {[co_address o]} ∪ cp_preprocessed p; cp_startheight := cp_startheight p;
      cp_deadlineheight := cp_deadlineheight p |}) /\
  (r = None -> co_address o ∉ cp_preprocessed p /\ co_address o ∈ cp_preprocessed p' /\
    cp_suffrages p !! co_address o = None /\ cp_existings p !! co_address o = None).
Proof.
  intros Hin. unfold Candidate_PreProcess.
  case_bool_decide; [intros [= <- <-]; by split; [left|]|].
  destruct (cp_suffrages p !! _) eqn:?; [intros [= <- <-]; by split; [left|]|].
  destruct (cp_existings p !! co_address o) as [c|] eqn:Ec.
  - specialize (Hin _ _ Ec). simpl in Hin. rewrite (proj2 (Z.leb_le _ _) Hin). intros [= <- <-]. split; [by right|done].
  - destruct (k o) as [rr|e|]; run; [|done..]. intros [= <- <-]. split; [by right|].
    intros _. split_and!; [done|simpl; set_solver|done..].
Qed.

(** ** What a block hands to the mergers *)
Section outcome.
Context (height lifespan : Z) (threshold : Threshold).
Context (v : SuffrageNodesStateValue) (candidates : list SuffrageCandidateStateValue) (suf : Suffrage).

Definition members : list Address := sn_address <$> ss_nodes v.
Definition in_time : list SuffrageCandidateStateValue := FilterCandidates height candidates.
Definition new_candidate (o : SuffrageCandidate) : SuffrageCandidateStateValue :=
  {| cn_node := {| node_address := co_address o; node_publickey := co_publickey o |};
     cn_start := wrap_s 64 (height + 1); cn_deadline := wrap_s 64 (height + 1 + lifespan) |}.

(** [J] and [C] are the addresses joined and applied for before. *)
Record outcome (J C : gset Address) (ops : list operation) (m : merge_values) : Prop := {
  oc_joined : forall n, n ∈ joined m.1 ->
    node_address n ∉ members /\ node_address n ∉ J /\
    exists c o, c ∈ in_time /\ cn_node c = n /\ JoinOp o ∈ ops /\ may_join threshold suf c o;
  oc_joined_NoDup : NoDup (node_address <$> joined m.1);
  oc_left : forall a, a ∈ left m.1 ->
    a ∈ members /\ exists op, op ∈ ops /\ may_leave height (ss_nodes v) a op;
  oc_removed : removed m.2 = node_address <$> joined m.1;
  oc_added : forall c, c ∈ added m.2 ->
    cn_address c ∉ members /\ cn_address c ∉ C /\ cn_address c ∉ cn_address <$> in_time /\
    exists o, CandidateOp o ∈ ops /\ c = new_candidate o;
  oc_added_NoDup : NoDup (cn_address <$> added m.2)
}.

Lemma outcome_nil J C ops : outcome J C ops ([], []).
Proof. split; simpl; try done; try set_solver; constructor. Qed.

Lemma outcome_app J C J' C' ops ops' m m' :
  outcome J C ops m -> outcome J' C' ops' m' -> J ⊆ J' -> C ⊆ C' ->
  (forall n, n ∈ joined m.1 -> node_address n ∈ J') ->
  (forall c, c ∈ added m.2 -> cn_address c ∈ C') ->
  outcome J C (ops ++ ops') (m.1 ++ m'.1, m.2 ++ m'.2).
Proof.
  intros [Hj Hjn Hl Hr Ha Han] [Hj' Hjn' Hl' Hr' Ha' Han'] HJ HC HjJ HaC.
  split; simpl; unfold joined, left, removed, added in *; rewrite ?bind_app, ?fmap_app.
  - intros n [Hn|Hn]%elem_of_app; [apply Hj in Hn|apply Hj' in Hn];
      destruct Hn as (? & ? & c & o & ? & ? & ? & ?); (split; [done|]); (split; [set_solver|]); exists c, o; set_solver.
  - apply NoDup_app. split_and!; [done| |done].
    intros a (n & -> & Hn)%list_elem_of_fmap (n' & E & Hn')%list_elem_of_fmap.
    apply Hj' in Hn' as (_ & Hn' & _). apply Hn'. rewrite <- E. by apply HjJ.
  - intros a [Hn|Hn]%elem_of_app; [apply Hl in Hn|apply Hl' in Hn];
      destruct Hn as (? & op & ? & ?); (split; [done|]); exists op; set_solver.
  - by rewrite Hr, Hr'.
  - intros c [Hn|Hn]%elem_of_app; [apply Ha in Hn|apply Ha' in Hn];
      destruct Hn as (? & ? & ? & o & ? & ?); (split; [done|]); (split; [set_solver|]); (split; [done|]);
      exists o; set_solver.
  - apply NoDup_app. split_and!; [done| |done].
    intros a (n & -> & Hn)%list_elem_of_fmap (n' & E & Hn')%list_elem_of_fmap.
    apply Ha' in Hn' as (_ & Hn' & _). apply Hn'. rewrite <- E. by apply HaC.
Qed.

(** What does not change while a block is processed. *)
Record processors_ok (b : block) : Prop := {
  po_suffrage : state_Suffrage v = Ok suf;
  po_join : jp_suffrage (b_join b) = suf /\ jp_threshold (b_join b) = threshold /\
    jp_candidates (b_join b) = by_address cn_address in_time;
  po_disjoin : dp_suffrage (b_disjoin b) = by_address sn_address (ss_nodes v);
  po_expel : xp_suffrage (b_expel b) = suf /\ xp_height (b_expel b) = height;
  po_candidate : cp_height (b_candidate b) = height /\
    cp_suffrages (b_candidate b) = by_address sn_address (ss_nodes v) /\
    cp_existings (b_candidate b) = by_address cn_address in_time /\
    cp_startheight (b_candidate b) = wrap_s 64 (height + 1) /\
    cp_deadlineheight (b_candidate b) = wrap_s 64 (height + 1 + lifespan)
}.

Lemma state_Suffrage_members a :
  state_Suffrage v = Ok suf -> Suffrage_Exists suf a = true <-> a ∈ members.
Proof.
  intros [Hok Hns]%NewSuffrage_suf_ok. rewrite Suffrage_Exists_spec by done.
  by rewrite Hns, <- list_fmap_compose.
Qed.

Lemma in_time_existings : map_Forall (fun _ c => height <= cn_deadline c) (by_address cn_address in_time).
Proof.
  intros a c [Hc _]%by_address_Some. unfold in_time, FilterCandidates in Hc.
  apply FilterSlice_elem in Hc as [_ Hc%Z.leb_le]. done.
Qed.

Notation J b := (jp_preprocessed (b_join b)).
Notation C b := (cp_preprocessed (b_candidate b)).

(** One operation: the values it makes, if it makes any, and the marks it leaves. *)
Definition step_ok (b b' : block) (op : operation) (m : merge_values) : Prop :=
  outcome (J b) (C b) [op] m /\ J b ⊆ J b' /\ C b ⊆ C b' /\
  (forall n, n ∈ joined m.1 -> node_address n ∈ J b') /\ (forall c, c ∈ added m.2 -> cn_address c ∈ C b').

Lemma step_nothing b b' op : J b ⊆ J b' -> C b ⊆ C b' -> step_ok b b' op ([], []).
Proof. intros HJ HC. split; [apply outcome_nil|]. split_and!; try done; simpl; set_solver. Qed.

Lemma leave_step b b' op a :
  J b = J b' -> C b = C b' -> a ∈ members -> may_leave height (ss_nodes v) a op ->
  step_ok b b' op ([suffrageDisjoinNodeStateValue a], []).
Proof.
  intros HJ HC Ha Hl. unfold step_ok. rewrite HJ, HC.
  split; [|split_and!; try done; simpl; set_solver].
  split; simpl; try done; try set_solver; try constructor.
Qed.

Context (pre proc : operation -> res refusal).

Lemma join_step b b' o r :
  processors_ok b -> doPreProcessOperation pre b (JoinOp o) = Ok (b', r) ->
  processors_ok b' /\ (r <> None -> step_ok b b' (JoinOp o) ([], [])) /\
  forall m, r = None -> doProcessOperation proc b' (JoinOp o) = Ok m -> step_ok b b' (JoinOp o) m.
Proof.
  intros [Hs (Hj & Ht & Hc) Hd Hx Hp] ([p r'] & Hpre & [= <- <-])%bind_ok.
  apply Join_PreProcess_spec in Hpre; [|intros c; rewrite Hc; by intros []%by_address_Some].
  destruct r' as [e|].
  { subst p. split; [by split|]. split; [|done]. intros _. by apply step_nothing. }
  destruct Hpre as (c & Hl & Hn & Hex & Hmay & ->). split; [by split|]. split; [done|].
  intros m _ (x & Hpr & [= <-])%bind_ok. apply bind_ok in Hpr as (rr & _ & Hpr). simpl in Hpr.
  rewrite Hl in Hpr. destruct rr; simplify_eq; [by apply step_nothing; simpl; set_solver|].
  rewrite Hc in Hl. apply by_address_Some in Hl as [Hin Ha].
  split; [|split_and!; simpl; set_solver].
  split; [| |set_solver|done|set_solver|constructor].
  - intros n ->%list_elem_of_singleton. change (node_address (cn_node c)) with (cn_address c). rewrite Ha.
    split; [by rewrite <- (state_Suffrage_members _ Hs), <- Hj, Hex|]. split; [done|].
    exists c, o. split_and!; [done|done|by left|]. by rewrite <- Hj, <- Ht.
  - apply NoDup_singleton.
Qed.

Lemma disjoin_step b b' o r :
  processors_ok b -> doPreProcessOperation pre b (DisjoinOp o) = Ok (b', r) ->
  processors_ok b' /\ (r <> None -> step_ok b b' (DisjoinOp o) ([], [])) /\
  forall m, r = None -> doProcessOperation proc b' (DisjoinOp o) = Ok m -> step_ok b b' (DisjoinOp o) m.
Proof.
  intros [Hs Hj Hd Hx Hp] ([p r'] & Hpre & [= <- <-])%bind_ok.
  apply (Disjoin_PreProcess_spec height) in Hpre as [Hd' Hpre].
  split; [by split; simpl; rewrite ?Hd'|]. split; [intros _; by apply step_nothing|].
  intros m -> (x & Hpr & [= <-])%bind_ok. apply bind_ok in Hpr as (rr & _ & Hpr).
  destruct rr; simplify_eq; [by apply step_nothing|].
  destruct (Hpre eq_refl) as (n & Hl & Hmay). rewrite Hd in Hl. apply by_address_Some in Hl as [Hn Ha].
  apply leave_step; [done..| |by apply Hmay]. unfold members. rewrite <- Ha. by apply list_elem_of_fmap_2.
Qed.

Lemma expel_step b b' o r :
  processors_ok b -> doPreProcessOperation pre b (ExpelOp o) = Ok (b', r) ->
  processors_ok b' /\ (r <> None -> step_ok b b' (ExpelOp o) ([], [])) /\
  forall m, r = None -> doProcessOperation proc b' (ExpelOp o) = Ok m -> step_ok b b' (ExpelOp o) m.
Proof.
  intros [Hs Hj Hd [Hx Hh] Hp] ([[p l] r'] & Hpre & [= <- <-])%bind_ok.
  apply (Expel_PreProcess_spec (ss_nodes v)) in Hpre as (Hx' & Hh' & Hpre).
  split; [by split; simpl; rewrite ?Hx', ?Hh'|]. split; [intros _; by apply step_nothing|].
  intros m -> (x & Hpr & [= <-])%bind_ok. apply bind_ok in Hpr as (rr & _ & Hpr).
  destruct rr; simplify_eq; [by apply step_nothing|].
  destruct (Hpre eq_refl) as [Hex Hmay].
  rewrite Hx in Hex. rewrite Hh in Hmay. apply leave_step; [done..| |done].
  by apply (state_Suffrage_members _ Hs).
Qed.

Lemma candidate_step b b' o r :
  processors_ok b -> doPreProcessOperation pre b (CandidateOp o) = Ok (b', r) ->
  processors_ok b' /\ (r <> None -> step_ok b b' (CandidateOp o) ([], [])) /\
  forall m, r = None -> doProcessOperation proc b' (CandidateOp o) = Ok m -> step_ok b b' (CandidateOp o) m.
Proof.
  intros [Hs Hj Hd Hx (Hh & Hsuf & Hex & Hst & Hdl)] ([p r'] & Hpre & [= <- <-])%bind_ok.
  apply Candidate_PreProcess_spec in Hpre as [Hp Hpre];
    [|rewrite Hh, Hex; apply in_time_existings].
  assert (C b ⊆ cp_preprocessed p) as HC by (destruct Hp as [->| ->]; simpl; set_solver).
  split; [by destruct Hp as [->| ->]; split|]. split; [intros _; by apply step_nothing|].
  intros m -> (x & Hpr & [= <-])%bind_ok. apply bind_ok in Hpr as (rr & _ & Hpr).
  destruct rr; simplify_eq; [by apply step_nothing|].
  destruct (Hpre eq_refl) as (Hn & Hin & Hns & Hne). rewrite Hsuf in Hns. rewrite Hex in Hne.
  apply by_address_None in Hns, Hne.
  split; [|split_and!; simpl; set_solver].
  split; [set_solver|constructor|set_solver|done| |apply NoDup_singleton].
  intros c ->%list_elem_of_singleton. split_and!; [done..|]. exists o. split; [by left|].
  unfold new_candidate. by destruct Hp as [->| ->]; simpl; rewrite Hst, Hdl.
Qed.

Lemma processOperations_outcome b ops m :
  processors_ok b -> processOperations pre proc b ops = Ok m -> outcome (J b) (C b) ops m.
Proof.
  revert b m. induction ops as [|op ops IH]; intros b m Hb; simpl; [intros [= <-]; apply outcome_nil|].
  intros ([b' r] & Hpre & Hm)%bind_ok.
  assert (processors_ok b' /\ (r <> None -> step_ok b b' op ([], [])) /\
    forall m, r = None -> doProcessOperation proc b' op = Ok m -> step_ok b b' op m) as (Hb' & Hsome & Hnone).
  { destruct op; by eauto using join_step, disjoin_step, expel_step, candidate_step. }
  destruct r as [e|].
  - destruct (Hsome ltac:(done)) as (Ho & HJ & HC & Hj & Hc).
    pose proof (outcome_app _ _ _ _ _ _ _ _ Ho (IH _ _ Hb' Hm) HJ HC Hj Hc) as Happ.
    by destruct m.
  - apply bind_ok in Hm as ([s c] & Hpr & Hm). apply bind_ok in Hm as ([s' c'] & Hr & [= <-]).
    destruct (Hnone _ eq_refl Hpr) as (Ho & HJ & HC & Hj & Hc).
    exact (outcome_app _ _ _ _ _ _ _ _ Ho (IH _ _ Hb' Hr) HJ HC Hj Hc).
Qed.
End outcome.

Lemma new_block_ok height lifespan threshold v candidates b :
  new_block height lifespan threshold v candidates = Ok b ->
  exists suf, state_Suffrage v = Ok suf /\
    processors_ok height lifespan threshold v candidates suf b /\
    jp_preprocessed (b_join b) = ∅ /\ cp_preprocessed (b_candidate b) = ∅.
Proof.
  unfold new_block, NewSuffrageJoinProcessor, NewSuffrageExpelProcessor.
  destruct (state_Suffrage v) as [suf|e|] eqn:Hs; [|done..]. intros [= <-]. by exists suf.
Qed.

(** ** Closing the mergers *)
Lemma Join_merged s svs :
  foldl Join_Merge s svs =
  {| jm_joined := jm_joined s ++ joined svs; jm_disjoined := jm_disjoined s ++ left svs |}.
Proof.
  unfold joined, left. revert s. induction svs as [|[ns|n] svs IH]; intros s; simpl.
  - rewrite !app_nil_r. by destruct s.
  - rewrite IH. simpl. by rewrite <- app_assoc.
  - rewrite IH. simpl. by rewrite <- app_assoc.
Qed.

Lemma Candidates_merged s cvs :
  foldl Candidates_Merge s cvs =
  {| cm_added := cm_added s ++ added cvs; cm_removes := cm_removes s ++ removed cvs |}.
Proof.
  unfold added, removed. revert s. induction cvs as [|[ns|ns] cvs IH]; intros s; simpl.
  - rewrite !app_nil_r. by destruct s.
  - rewrite IH. simpl. by rewrite <- app_assoc.
  - rewrite IH. simpl. by rewrite <- app_assoc.
Qed.

Definition joining (height : Z) (n : Node) : SuffrageNodeStateValue :=
  {| sn_node := n; sn_start := wrap_s 64 (height + 1) |}.

Lemma next_suffrage_eq height v svs :
  next_suffrage height v svs =
  match left svs, joined svs with
  | [], [] => None
  | _, _ => Some {| ss_height := wrap_s 64 (ss_height v + 1);
      ss_nodes := Filter2Slices (ss_nodes v) (left svs) (fun x y => bool_decide (sn_address x = y)) ++
                  (joining height <$> sort_by_address node_address (joined svs)) |}
  end.
Proof. unfold next_suffrage. by rewrite Join_merged. Qed.

Lemma next_candidates_eq candidates cvs :
  next_candidates candidates cvs =
  match removed cvs, added cvs with
  | [], [] => None
  | _, _ => Some (Filter2Slices
      (Filter2Slices candidates (removed cvs) (fun x y => bool_decide (cn_address x = y)))
      (added cvs) (fun x y => bool_decide (cn_address x = cn_address y)) ++
      sort_by_address cn_address (added cvs))
  end.
Proof. unfold next_candidates. by rewrite Candidates_merged. Qed.

(** The order of the workers is forgotten. *)
Lemma next_suffrage_Permutation height v svs svs' :
  NoDup (node_address <$> joined svs) -> svs ≡ₚ svs' -> next_suffrage height v svs = next_suffrage height v svs'.
Proof.
  intros Hnd Hp. rewrite !next_suffrage_eq.
  assert (joined svs ≡ₚ joined svs') as Hj by (by apply bind_Permutation).
  assert (left svs ≡ₚ left svs') as Hl by (by apply bind_Permutation).
  rewrite (sort_by_address_unique _ _ _ Hnd Hj), (Filter2Slices_Permutation _ _ _ _ Hl).
  destruct (left svs) as [|a l].
  - apply Permutation_nil_l in Hl as <-. destruct (joined svs).
    + by apply Permutation_nil_l in Hj as <-.
    + by destruct (joined svs') as [|n' j']; [apply Permutation_nil_r in Hj|].
  - by destruct (left svs') as [|a' l']; [apply Permutation_nil_r in Hl|].
Qed.

Lemma next_candidates_Permutation candidates cvs cvs' :
  NoDup (cn_address <$> added cvs) -> cvs ≡ₚ cvs' -> next_candidates candidates cvs = next_candidates candidates cvs'.
Proof.
  intros Hnd Hp. rewrite !next_candidates_eq.
  assert (added cvs ≡ₚ added cvs') as Hj by (by apply bind_Permutation).
  assert (removed cvs ≡ₚ removed cvs') as Hl by (by apply bind_Permutation).
  rewrite (sort_by_address_unique _ _ _ Hnd Hj), (Filter2Slices_Permutation _ _ _ _ Hl),
    (Filter2Slices_Permutation _ _ _ _ Hj).
  destruct (removed cvs) as [|a l].
  - apply Permutation_nil_l in Hl as <-. destruct (added cvs).
    + by apply Permutation_nil_l in Hj as <-.
    + by destruct (added cvs') as [|n' j']; [apply Permutation_nil_r in Hj|].
  - by destruct (removed cvs') as [|a' l']; [apply Permutation_nil_r in Hl|].
Qed.

(** ** Theorems *)

Lemma members_next l J height :
  sn_address <$> (l ++ (joining height <$> J)) = (sn_address <$> l) ++ (node_address <$> J).
Proof. rewrite fmap_app. f_equal. by rewrite <- list_fmap_compose. Qed.

Lemma state_Suffrage_iff v : NoDup (members v) -> is_ok (state_Suffrage v) = true <-> ss_nodes v <> [].
Proof.
  intros Hnd. rewrite is_ok_true. unfold state_Suffrage. split.
  - intros (suf & (Hne & _)%NewSuffrage_ok) E. by rewrite E in Hne.
  - intros Hne. eexists. apply NewSuffrage_ok. split_and!; [by destruct (ss_nodes v)| |done].
    unfold members in Hnd. by rewrite <- list_fmap_compose.
Qed.

Definition kept (nodes : list SuffrageNodeStateValue) (leaving : list Address) : list SuffrageNodeStateValue :=
  Filter2Slices nodes leaving (fun x y => bool_decide (sn_address x = y)).

Lemma next_suffrage_cases height v svs :
  (next_suffrage height v svs = None /\ left svs = [] /\ joined svs = []) \/
  next_suffrage height v svs = Some {| ss_height := wrap_s 64 (ss_height v + 1);
    ss_nodes := kept (ss_nodes v) (left svs) ++ (joining height <$> sort_by_address node_address (joined svs)) |}.
Proof.
  rewrite next_suffrage_eq. unfold kept. destruct (left svs), (joined svs); [by left|by right..].
Qed.

Lemma kept_elem nodes leaving n : n ∈ kept nodes leaving <-> n ∈ nodes /\ sn_address n ∉ leaving.
Proof. unfold kept. rewrite (Filter2Slices_address sn_address id). by rewrite list_fmap_id. Qed.

Lemma NoDup_next height nodes leaving joins :
  NoDup (sn_address <$> nodes) -> NoDup (node_address <$> joins) ->
  (forall n, n ∈ joins -> node_address n ∉ sn_address <$> nodes) ->
  NoDup (sn_address <$> (kept nodes leaving ++ (joining height <$> sort_by_address node_address joins))).
Proof.
  intros Hnd Hj Hnew. rewrite members_next, sort_by_address_Permutation. apply NoDup_app. split_and!; [|clear Hj|done].
  - by apply NoDup_Filter2Slices.
  - intros a (n & -> & [Hn _]%kept_elem)%list_elem_of_fmap (j & E & Hj)%list_elem_of_fmap.
    apply (Hnew _ Hj). rewrite <- E. by apply list_elem_of_fmap_2.
Qed.

(** C23: c40. The suffrage after a block. It does not depend on the order in which
    the workers hand their values to the merger. Without a value it does not
    change. Otherwise its height is one more, and its nodes, with distinct
    addresses, are those that did not leave and the nodes that joined, who start
    at the next height. Who joined was a candidate in time, not a member, and
    showed the join, signed with the candidate's key and by enough members; who
    left was a member and showed the leave or was expelled. It is a suffrage only
    if a node is left: nothing keeps all members from leaving in one block. *)
Theorem suffrage_update pre proc height lifespan threshold v candidates b ops svs cvs svs' :
  new_block height lifespan threshold v candidates = Ok b ->
  processOperations pre proc b ops = Ok (svs, cvs) -> svs ≡ₚ svs' ->
  next_suffrage height v svs' = next_suffrage height v svs /\
  (forall n, n ∈ joined svs -> node_address n ∉ members v /\
    exists suf c o, state_Suffrage v = Ok suf /\ c ∈ in_time height candidates /\ cn_node c = n /\
      JoinOp o ∈ ops /\ may_join threshold suf c o) /\
  (forall a, a ∈ left svs -> a ∈ members v /\ exists op, op ∈ ops /\ may_leave height (ss_nodes v) a op) /\
  match next_suffrage height v svs with
  | None => left svs = [] /\ joined svs = []
  | Some v' =>
      ss_height v' = wrap_s 64 (ss_height v + 1) /\ NoDup (members v') /\
      (forall n, n ∈ ss_nodes v' <->
        (n ∈ ss_nodes v /\ sn_address n ∉ left svs) \/ (exists j, j ∈ joined svs /\ n = joining height j)) /\
      (is_ok (state_Suffrage v') = true <-> ss_nodes v' <> [])
  end.
Proof.
  intros Hb Hrun Hp. apply new_block_ok in Hb as (suf & Hs & Hok & _ & _).
  apply (processOperations_outcome _ _ _ _ _ _ _ _ _ _ _ Hok) in Hrun as [Hj Hjn Hl _ _ _]. simpl in *.
  assert (NoDup (members v)) as Hnd.
  { apply NewSuffrage_ok in Hs as (_ & Hnd & _). unfold members. by rewrite <- list_fmap_compose in Hnd. }
  split; [by rewrite (next_suffrage_Permutation _ _ _ _ Hjn Hp)|].
  split; [intros n Hn; apply Hj in Hn as (? & _ & c & o & ?); split; [done|]; exists suf, c, o; naive_solver|].
  split; [done|]. destruct (next_suffrage_cases height v svs) as [(-> & ? & ?)| ->]; [done|].
  pose proof (NoDup_next height _ (left svs) _ Hnd Hjn (fun n Hn => proj1 (Hj n Hn))) as Hnd'.
  split_and!; [done|done| |by apply state_Suffrage_iff].
  intros n. simpl. rewrite elem_of_app, kept_elem, list_elem_of_fmap.
  setoid_rewrite sort_by_address_Permutation. naive_solver.
Qed.

Lemma next_candidates_cases candidates cvs :
  (next_candidates candidates cvs = None /\ removed cvs = [] /\ added cvs = []) \/
  exists l, next_candidates candidates cvs = Some l /\
    l = Filter2Slices (Filter2Slices candidates (removed cvs) (fun x y => bool_decide (cn_address x = y)))
      (added cvs) (fun x y => bool_decide (cn_address x = cn_address y)) ++ sort_by_address cn_address (added cvs).
Proof. rewrite next_candidates_eq. destruct (removed cvs), (added cvs); [by left|by right; eauto..]. Qed.

(** C24: c13. The candidates after a block. They too do not depend on the order of
    the workers. They are those of before whose address neither joined nor
    applied in the block, and those who applied in it, at the heights of the
    block: addresses stay distinct, an address joins and applies never at once,
    and if no candidate was a member before, none is after. *)
Theorem candidates_update pre proc height lifespan threshold v candidates b ops svs cvs cvs' :
  NoDup (cn_address <$> candidates) ->
  (forall c, c ∈ candidates -> cn_address c ∉ members v) ->
  new_block height lifespan threshold v candidates = Ok b ->
  processOperations pre proc b ops = Ok (svs, cvs) -> cvs ≡ₚ cvs' ->
  let next := default candidates (next_candidates candidates cvs) in
  next_candidates candidates cvs' = next_candidates candidates cvs /\
  (forall c, c ∈ added cvs -> exists o, CandidateOp o ∈ ops /\ c = new_candidate height lifespan o /\
    cn_address c ∉ node_address <$> joined svs) /\
  (forall c, c ∈ next <-> (c ∈ candidates /\ cn_address c ∉ node_address <$> joined svs /\
    cn_address c ∉ cn_address <$> added cvs) \/ c ∈ added cvs) /\
  NoDup (cn_address <$> next) /\
  (forall c, c ∈ next -> cn_address c ∉ members (default v (next_suffrage height v svs))).
Proof.
  intros Hnd Hdisj Hb Hrun Hp. apply new_block_ok in Hb as (suf & Hs & Hok & _ & _).
  apply (processOperations_outcome _ _ _ _ _ _ _ _ _ _ _ Hok) in Hrun as [Hj Hjn Hl Hr Ha Han]. simpl in *.
  split; [by rewrite (next_candidates_Permutation _ _ _ Han Hp)|].
  assert (forall c, c ∈ added cvs -> cn_address c ∉ node_address <$> joined svs) as Haj.
  { intros c Hc (n & E & (_ & _ & c' & _ & Hc' & <- & _)%Hj)%list_elem_of_fmap.
    apply Ha in Hc as (_ & _ & Hc & _). apply Hc. rewrite E. by apply (list_elem_of_fmap_2 cn_address). }
  assert (forall c, c ∈ default candidates (next_candidates candidates cvs) <->
    (c ∈ candidates /\ cn_address c ∉ node_address <$> joined svs /\
     cn_address c ∉ cn_address <$> added cvs) \/ c ∈ added cvs) as Hnext.
  { intros c. rewrite <- Hr. destruct (next_candidates_cases candidates cvs) as [(-> & Er & Ead)|(l & -> & ->)]; simpl.
    - rewrite Er, Ead. set_solver.
    - rewrite elem_of_app, sort_by_address_Permutation, (Filter2Slices_address cn_address cn_address),
        (Filter2Slices_address cn_address id), list_fmap_id. naive_solver. }
  split; [intros c Hc; destruct (Ha c Hc) as (_ & _ & _ & o & ? & ?); by eauto|].
  split; [done|]. split.
  - destruct (next_candidates_cases candidates cvs) as [(-> & _)|(l & -> & ->)]; [done|]. simpl.
    rewrite fmap_app, sort_by_address_Permutation. apply NoDup_app. split_and!; [|clear Han|done].
    + by do 2 apply NoDup_Filter2Slices.
    + intros a (c & -> & [_ Hc]%(Filter2Slices_address cn_address cn_address))%list_elem_of_fmap. done.
  - intros c [(Hc & Hcj & _)|Hc]%Hnext Hm.
    all: destruct (next_suffrage_cases height v svs) as [(E & _)|E]; rewrite E in Hm; simpl in Hm.
    all: try (unfold members in Hm; simpl in Hm; rewrite members_next, sort_by_address_Permutation in Hm;
      apply elem_of_app in Hm as [(n & En & [Hn _]%kept_elem)%list_elem_of_fmap|Hm]).
    all: try (by eapply Hdisj); try (by apply Ha in Hc as []); try done.
    + apply (Hdisj _ Hc). rewrite En. by apply list_elem_of_fmap_2.
    + apply Ha in Hc as [Hc _]. apply Hc. rewrite En. by apply list_elem_of_fmap_2.
    + by apply (Haj c).
Qed.

(** ** Witnesses *)
Definition demo_member (a : string) : SuffrageNodeStateValue := {| sn_node := demo_node a; sn_start := 0 |}.
Definition demo_state : SuffrageNodesStateValue :=
  {| ss_height := 4; ss_nodes := demo_member <$> ["n0"; "n1"; "n2"; "n5"] |}.
Definition demo_candidates : list SuffrageCandidateStateValue :=
  [{| cn_node := demo_node "n3"; cn_start := 20; cn_deadline := 50 |};
   {| cn_node := demo_node "n9"; cn_start := 2; cn_deadline := 10 |}].
Definition demo_leave (a : string) : operation :=
  DisjoinOp {| do_node := a; do_start := 0; do_signs := [demo_sign a] |}.
Definition demo_ops : list operation :=
  [JoinOp {| jo_candidate := "n3"; jo_start := 20; jo_signs := demo_sign <$> ["n3"; "n0"; "n1"; "n2"] |};
   demo_leave "n1"; ExpelOp (demo_expel "n2" ["n0"; "n1"; "n5"]); demo_leave "n2";
   CandidateOp {| co_address := "n9"; co_publickey := "pk-n9" |};
   CandidateOp {| co_address := "n9"; co_publickey := "pk-other" |}].
Definition pass : operation -> res refusal := fun _ => Ok None.
Definition demo_block : block :=
  match new_block 33 100 DefaultThreshold demo_state demo_candidates with
  | Ok b => b
  | _ => {| b_join := {| jp_height := 0; jp_threshold := DefaultThreshold; jp_suffrage := demo_suffrage;
              jp_candidates := ∅; jp_preprocessed := ∅ |};
            b_disjoin := {| dp_suffrage := ∅; dp_preprocessed := ∅ |};
            b_expel := {| xp_height := 0; xp_suffrage := demo_suffrage; xp_preprocessed := ∅ |};
            b_candidate := NewSuffrageCandidateProcessor 0 0 None None; b_expelled := [] |}
  end.
Definition demo_values : merge_values :=
  ([suffrageJoinNodeStateValue [demo_node "n3"]; suffrageDisjoinNodeStateValue "n1"; suffrageDisjoinNodeStateValue "n2"],
   [suffrageRemoveCandidateStateValue ["n3"];
    SuffrageCandidatesStateValue [{| cn_node := demo_node "n9"; cn_start := 34; cn_deadline := 134 |}]]).

Lemma demo_new_block : new_block 33 100 DefaultThreshold demo_state demo_candidates = Ok demo_block.
Proof. unfold demo_block. by destruct (is_ok_true (new_block 33 100 DefaultThreshold demo_state demo_candidates)) as [(b & ->) _]. Qed.

Lemma demo_run : processOperations pass pass demo_block demo_ops = Ok demo_values.
Proof. vm_compute. reflexivity. Qed.

Lemma suffrage_update_witness :
  next_suffrage 33 demo_state (reverse demo_values.1) =
  Some {| ss_height := 5; ss_nodes := [demo_member "n0"; demo_member "n5"; joining 33 (demo_node "n3")] |}.
Proof.
  destruct (suffrage_update pass pass 33 100 DefaultThreshold demo_state demo_candidates demo_block demo_ops
    demo_values.1 demo_values.2 (reverse demo_values.1)) as [-> _].
  - exact demo_new_block.
  - exact demo_run.
  - symmetry. apply reverse_Permutation.
  - vm_compute. reflexivity.
Defined.

Lemma candidates_update_witness :
  next_candidates demo_candidates (reverse demo_values.2) =
  Some [{| cn_node := demo_node "n9"; cn_start := 34; cn_deadline := 134 |}].
Proof.
  destruct (candidates_update pass pass 33 100 DefaultThreshold demo_state demo_candidates demo_block demo_ops
    demo_values.1 demo_values.2 (reverse demo_values.2)) as [-> _].
  - apply (bool_decide_unpack _). vm_compute. done.
  - assert (Forall (fun c => cn_address c ∉ members demo_state) demo_candidates) as H
      by (apply (bool_decide_unpack _); vm_compute; done).
    by rewrite Forall_forall in H.
  - exact demo_new_block.
  - exact demo_run.
  - symmetry. apply reverse_Permutation.
  - vm_compute. reflexivity.
Defined.

(** All members leave in one block: the next suffrage is empty, the state value
    is valid, and no block after it can be made. *)
Example everybody_leaves :
  exists v', next_suffrage 33 demo_state (suffrageDisjoinNodeStateValue <$> ["n0"; "n1"; "n2"; "n5"]) = Some v' /\
    processOperations pass pass demo_block (demo_leave <$> ["n0"; "n1"; "n2"; "n5"]) =
      Ok (suffrageDisjoinNodeStateValue <$> ["n0"; "n1"; "n2"; "n5"], []) /\
    ss_nodes v' = [] /\ SuffrageNodesStateValue_IsValid (fun _ => Ok tt) v' = Ok tt /\
    new_block 34 100 DefaultThreshold v' demo_candidates = Err "get suffrage from state".
Proof.
  eexists. split; [vm_compute; reflexivity|]. split_and!; vm_compute; reflexivity.
Qed.
