(* ===== verification/Batch.v ===== *)
(** * Work in batches ([util/worker.go])

    [BatchWork] splits a range of jobs into batches; the jobs of a batch run at
    once in goroutines, the batches one after the other.  What the jobs share is
    under a lock, so a batch is its jobs in some order, which the argument
    [sched] of the definitions picks.  The end of the file is about slots: values
    that arrive in any order and are checked with the neighbours already there,
    as block maps and suffrage proofs are. *)
From S2P Require Import Prelude.

Open Scope Z_scope.

(** ** Running jobs *)
Lemma list_fmap_inj_exists {A} (l : list (option A)) :
  (forall i o, l !! i = Some o -> exists a, o = Some a) -> exists ms, l = Some <$> ms.
Proof.
  induction l as [|o l IH]; intros Hl; [by exists []|].
  destruct (Hl 0%nat o eq_refl) as [a ->]. destruct IH as [ms ->]; [intros i; by apply (Hl (S i))|].
  by exists (a :: ms).
Qed.

Section fold.
Context {A S : Type}.

Fixpoint fold_res (f : A -> S -> res S) (l : list A) (s : S) : res S :=
  match l with
  | [] => Ok s
  | x :: l => f x s ≫= fold_res f l
  end.

Lemma fold_res_app f l1 l2 s : fold_res f (l1 ++ l2) s = fold_res f l1 s ≫= fold_res f l2.
Proof.
  revert s. induction l1 as [|x l1 IH]; intros s; [done|]. simpl.
  destruct (f x s) as [s1|m|]; [apply IH|done..].
Qed.

(** An invariant indexed by the jobs that are done. *)
Lemma fold_res_ind (P : list A -> S -> Prop) f l s s' :
  (forall done x s s1, P done s -> f x s = Ok s1 -> x ∈ l -> P (done ++ [x]) s1) ->
  P [] s -> fold_res f l s = Ok s' -> P l s'.
Proof.
  intros Hstep. assert (forall done rest s, done ++ rest = l -> P done s -> fold_res f rest s = Ok s' -> P l s') as H.
  { intros done rest. revert done. induction rest as [|x rest IH]; intros done s0 Hl HP Hr.
    - rewrite app_nil_r in Hl. simpl in Hr. by simplify_eq.
    - simpl in Hr. apply bind_ok in Hr as (s1 & Hx & Hr).
      eapply (IH (done ++ [x])); [by rewrite <- app_assoc| |exact Hr].
      eapply Hstep; [done|done|]. rewrite <- Hl. set_solver. }
  intros. by eapply (H []).
Qed.
End fold.

(** [runWorker] of the base worker: the jobs in the order they happen to run; an
    error of one is the error of all. *)
Section batch.
Context {S : Type}.
Implicit Types (s : S) (pref : Z -> S -> res S) (f : Z -> Z -> S -> res S).
Variable sched : list Z -> list Z.

Definition RunJobWorker (workersize : Z) (jobs : list Z) (f : Z -> S -> res S) s : res S :=
  if workersize <? 1 then Err "semSize under 1" else fold_res f (sched jobs) s.

(** The batches [i, end) of the loop; fuel [size] is enough. *)
Fixpoint batches (fuel : nat) (i size limit : Z) : list (Z * Z) :=
  match fuel with
  | O => []
  | Datatypes.S fuel =>
      let e := Z.min (i + limit) size in
      (i, e) :: if e =? size then [] else batches fuel (i + limit) size limit
  end.

Definition batch_step (workersize : Z) pref f (b : Z * Z) s : res S :=
  let '(i, e) := b in
  pref (e - 1) s ≫= fun s => RunJobWorker workersize (seqZ i (e - i)) (fun n => f n (e - 1)) s.

(** A limit below 1 is converted to [uint64]: no batch for zero, all of it for a
    negative one, and no worker for either. *)
Definition BatchWork (size limit : Z) pref f s : res S :=
  if size <? 1 then Err "do nothing; wrong size"
  else if size <=? limit then batch_step size pref f (0, size) s
  else if limit <? 1 then
    pref (if limit =? 0 then 2 ^ 64 - 1 else size - 1) s ≫= fun s => RunJobWorker limit [] (fun n => f n 0) s
  else fold_res (batch_step limit pref f) (batches (Z.to_nat size) 0 size limit) s.
End batch.

(** ** The batches cover the jobs *)
Lemma seqZ_split i k n : 0 <= k <= n -> seqZ i n = seqZ i k ++ seqZ (i + k) (n - k).
Proof. intros [H1 H2]. rewrite <- seqZ_app by lia. f_equal. lia. Qed.

Lemma batches_cover fuel i size limit :
  1 <= limit -> 0 <= i < size -> size - i <= Z.of_nat fuel ->
  concat ((fun b => seqZ b.1 (b.2 - b.1)) <$> batches fuel i size limit) = seqZ i (size - i).
Proof.
  revert i. induction fuel as [|fuel IH]; intros i Hl Hi Hf; [lia|]. simpl.
  destruct (Z.eqb_spec (Z.min (i + limit) size) size) as [E|E].
  - simpl. by rewrite app_nil_r, E.
  - rewrite IH by lia. rewrite Z.min_l by lia. replace (i + limit - i) with limit by lia.
    rewrite (seqZ_split i limit (size - i)) by lia. do 2 f_equal. lia.
Qed.

(** Every batch but the last is full. *)
Lemma batches_bounds fuel i size limit b :
  1 <= limit -> 0 <= i < size -> b ∈ batches fuel i size limit ->
  i <= b.1 /\ b.1 < b.2 <= size /\ b.2 - b.1 <= limit /\ (b.2 = size \/ b.2 - b.1 = limit).
Proof.
  revert i. induction fuel as [|fuel IH]; intros i Hl Hi Hb; simpl in Hb; [by apply not_elem_of_nil in Hb|].
  apply elem_of_cons in Hb as [->|Hb]; [simpl; lia|].
  destruct (Z.eqb_spec (Z.min (i + limit) size) size) as [E|E]; [by apply not_elem_of_nil in Hb|].
  apply IH in Hb; lia.
Qed.

(** ** Values that arrive in any order

    [first] is what the value of slot 0 must satisfy, [link] what two neighbours
    must; a value is checked when it is put, with the neighbours that are there. *)
Section slots.
Context {M X : Type} (first : M -> err) (link : M -> M -> err).
Implicit Types (slots : list (option M)) (m : M) (i : nat) (x : X).

Definition check_left slots i m : err :=
  match i with
  | O => first m
  | S j => match slots !! j with Some (Some p) => link p m | _ => Ok tt end
  end.
Definition check_right slots i m : err :=
  match slots !! S i with Some (Some n) => link m n | _ => Ok tt end.
Definition put_slot slots i m : res (list (option M)) :=
  let slots := <[i := Some m]> slots in
  check_left slots i m ≫= fun _ => check_right slots i m ≫= fun _ => Ok slots.

(** What is asked of the values: all neighbours, the first one. *)
Definition linked (ms : list M) : Prop :=
  (forall m, ms !! 0%nat = Some m -> first m = Ok tt) /\
  forall i a b, ms !! i = Some a -> ms !! S i = Some b -> link a b = Ok tt.

(** A job gets the value of its slot, puts it, and hands it on; [upd] is what
    else it changes. *)
Variables (get : nat -> res M) (after : M -> err) (upd : nat -> M -> X -> X).
Definition slot_job i (s : list (option M) * X) : res (list (option M) * X) :=
  get i ≫= fun m => put_slot s.1 i m ≫= fun slots => after m ≫= fun _ => Ok (slots, upd i m s.2).

Definition upd_all (ms : list M) (order : list nat) x : X :=
  foldl (fun x i => match ms !! i with Some m => upd i m x | None => x end) x order.

(** The slots when the jobs [done] are done. *)
Definition view (ms : list M) (done : list nat) : list (option M) :=
  imap (fun i m => if decide (i ∈ done) then Some m else None) ms.

Lemma view_lookup ms done i m :
  ms !! i = Some m -> view ms done !! i = Some (if decide (i ∈ done) then Some m else None).
Proof. intros Hm. unfold view. by rewrite list_lookup_imap, Hm. Qed.

Lemma view_insert ms done i m :
  ms !! i = Some m -> <[i := Some m]> (view ms done) = view ms (done ++ [i]).
Proof.
  intros Hm. apply list_eq. intros j. destruct (decide (j = i)) as [->|Hj].
  - rewrite list_lookup_insert_eq by (unfold view; rewrite length_imap; by eapply lookup_lt_Some).
    rewrite (view_lookup _ _ _ m) by done. rewrite decide_True by set_solver. done.
  - rewrite list_lookup_insert_ne by done. unfold view. rewrite !list_lookup_imap.
    destruct (ms !! j) as [m'|]; [|done]. simpl. f_equal.
    destruct (decide (j ∈ done)), (decide (j ∈ done ++ [i])); try done; set_solver.
Qed.

(** A linked list passes every check. *)
Lemma put_view ms done i m :
  linked ms -> ms !! i = Some m -> put_slot (view ms done) i m = Ok (view ms (done ++ [i])).
Proof.
  intros [Hf Hl] Hm. unfold put_slot. rewrite (view_insert _ _ _ m) by done.
  assert (check_left (view ms (done ++ [i])) i m = Ok tt) as ->.
  { unfold check_left. destruct i as [|i]; [by apply Hf|].
    destruct (ms !! i) as [p|] eqn:Ep.
    - rewrite (view_lookup _ _ _ p) by done. destruct (decide _); [by eapply Hl|done].
    - unfold view. by rewrite list_lookup_imap, Ep. }
  assert (check_right (view ms (done ++ [i])) i m = Ok tt) as ->; [|done].
  unfold check_right. destruct (ms !! S i) as [n|] eqn:En.
  - rewrite (view_lookup _ _ _ n) by done. destruct (decide _); [by eapply Hl|done].
  - unfold view. by rewrite list_lookup_imap, En.
Qed.

Lemma slots_pass ms done rest x :
  linked ms -> (forall i, i ∈ rest -> exists m, ms !! i = Some m /\ get i = Ok m /\ after m = Ok tt) ->
  fold_res slot_job rest (view ms done, x) = Ok (view ms (done ++ rest), upd_all ms rest x).
Proof.
  intros Hl. revert done x. induction rest as [|i rest IH]; intros done x Hg.
  - by rewrite app_nil_r.
  - destruct (Hg i) as (m & Hm & Hget & Ha); [set_solver|].
    assert (slot_job i (view ms done, x) = Ok (view ms (done ++ [i]), upd i m x)) as Hj.
    { unfold slot_job. cbn [fst snd]. rewrite Hget. cbn [mbind res_bind].
      rewrite (put_view ms done i m) by done. cbn [mbind res_bind]. by rewrite Ha. }
    cbn [fold_res]. rewrite Hj. cbn [mbind res_bind]. rewrite IH by (intros; apply Hg; set_solver).
    unfold upd_all. simpl. by rewrite Hm, <- app_assoc.
Qed.

(** What the jobs that succeeded have checked. *)
Definition put_done (n : nat) (done : list nat) (s : list (option M) * X) : Prop :=
  length s.1 = n /\
  (forall i, i ∈ done -> exists m, get i = Ok m /\ after m = Ok tt /\ s.1 !! i = Some (Some m)) /\
  (forall i o, i ∉ done -> s.1 !! i = Some o -> o = None) /\
  (forall m, s.1 !! 0%nat = Some (Some m) -> first m = Ok tt) /\
  forall i a b, s.1 !! i = Some (Some a) -> s.1 !! S i = Some (Some b) -> link a b = Ok tt.

Lemma put_done_step n done i s s1 :
  (i < n)%nat -> put_done n done s -> slot_job i s = Ok s1 -> put_done n (done ++ [i]) s1.
Proof.
  intros Hi (Hlen & Hd & Hn & Hf & Hl). unfold slot_job, put_slot.
  intros (m & Hget & Hj)%bind_ok. apply bind_ok in Hj as (sl & Hp & (Ha & [= <-])%bind_err_ok).
  apply bind_err_ok in Hp as (Hleft & (Hright & [= <-])%bind_err_ok).
  assert (forall j o, <[i := Some m]> s.1 !! j = Some o ->
    (j = i /\ o = Some m) \/ (j <> i /\ s.1 !! j = Some o)) as Hins.
  { intros j o. destruct (decide (j = i)) as [->|Hj].
    - rewrite list_lookup_insert_eq by lia. intros [= <-]. by left.
    - rewrite list_lookup_insert_ne by done. by right. }
  split_and!; simpl.
  - by rewrite length_insert.
  - intros j Hj. destruct (decide (j = i)) as [->|Hji].
    + exists m. by rewrite list_lookup_insert_eq by lia.
    + rewrite list_lookup_insert_ne by done. apply Hd. set_solver.
  - intros j o Hj [[-> _]|[? Ho]]%Hins; [set_solver|]. eapply Hn; [|exact Ho]. set_solver.
  - intros m0 [[<- [= ->]]|[? Hm]]%Hins; [exact Hleft|by apply Hf].
  - intros j a b [[-> [= ->]]|[Hji Ha']]%Hins Hb.
    + unfold check_right in Hright. by rewrite Hb in Hright.
    + apply Hins in Hb as [[<- [= ->]]|[? Hb]]; [|by eapply Hl].
      unfold check_left in Hleft. rewrite list_lookup_insert_ne in Hleft by done. by rewrite Ha' in Hleft.
Qed.

(** Whatever the order of the jobs: they succeed when the values are linked, and
    only then. *)
Theorem slots_any_order order n x r :
  order ≡ₚ seq 0 n ->
  fold_res slot_job order (replicate n None, x) = Ok r <->
  exists ms, length ms = n /\ linked ms /\
    (forall i m, ms !! i = Some m -> get i = Ok m /\ after m = Ok tt) /\
    r = (Some <$> ms, upd_all ms order x).
Proof.
  intros Hperm. assert (forall i, i ∈ order <-> (i < n)%nat) as Hin.
  { intros i. rewrite Hperm, elem_of_seq. lia. }
  assert (forall ms, length ms = n -> view ms [] = replicate n None) as Hnil.
  { intros ms <-. apply list_eq. intros i. unfold view. rewrite list_lookup_imap.
    destruct (ms !! i) as [m|] eqn:Em; simpl.
    - rewrite lookup_replicate_2 by (by eapply lookup_lt_Some). done.
    - symmetry. apply lookup_replicate_None. apply lookup_ge_None in Em. lia. }
  assert (forall ms, length ms = n -> view ms order = Some <$> ms) as Hall.
  { intros ms Hms. apply list_eq. intros i. unfold view. rewrite list_lookup_imap, list_lookup_fmap.
    destruct (ms !! i) as [m|] eqn:Em; [|done]. simpl. rewrite decide_True; [done|].
    apply Hin. rewrite <- Hms. by eapply lookup_lt_Some. }
  assert (forall ms, length ms = n -> linked ms ->
    (forall i m, ms !! i = Some m -> get i = Ok m /\ after m = Ok tt) ->
    fold_res slot_job order (replicate n None, x) = Ok (Some <$> ms, upd_all ms order x)) as Hpass.
  { intros ms Hms Hl Hg. rewrite <- (Hnil ms) by done. rewrite (slots_pass ms [] order x).
    - by rewrite app_nil_l, (Hall ms).
    - done.
    - intros i Hi%Hin. rewrite <- Hms in Hi. apply lookup_lt_is_Some in Hi as [m Hm]. exists m. naive_solver. }
  split.
  - intros Hr. assert (put_done n order r) as (Hlen & Hd & _ & Hf & Hl).
    { eapply (fold_res_ind (put_done n)); [| |exact Hr].
      - intros done i s s1 HP Hj Hi%Hin. by eapply put_done_step.
      - split_and!; simpl; [apply length_replicate|by intros i Hi%not_elem_of_nil| | |].
        + intros i o _ Ho. by apply lookup_replicate in Ho as [-> _].
        + intros m Hm. by apply lookup_replicate in Hm as [? _].
        + intros i a b Ha. by apply lookup_replicate in Ha as [? _]. }
    assert (exists ms, r.1 = Some <$> ms) as [ms Hms].
    { apply (list_fmap_inj_exists r.1). intros i o Ho.
      destruct (Hd i) as (m & _ & _ & Hm); [|naive_solver].
      apply Hin. rewrite <- Hlen. by eapply lookup_lt_Some. }
    assert (forall i m, ms !! i = Some m -> r.1 !! i = Some (Some m)) as Hlook.
    { intros i m Hm. by rewrite Hms, list_lookup_fmap, Hm. }
    assert (length ms = n) as Hlenms by (by rewrite <- Hlen, Hms, length_fmap).
    assert (linked ms) as Hlinked by (split; [intros m Hm; by apply Hf, Hlook|intros i a b Ha Hb; by eapply Hl; apply Hlook]).
    assert (forall i m, ms !! i = Some m -> get i = Ok m /\ after m = Ok tt) as Hget.
    { intros i m Hm. destruct (Hd i) as (m' & ? & ? & Hm'); [|apply Hlook in Hm; naive_solver].
      apply Hin. rewrite <- Hlenms. by eapply lookup_lt_Some. }
    exists ms. split_and!; try done. rewrite (Hpass ms) in Hr by done. by simplify_eq.
  - intros (ms & Hms & Hl & Hg & ->). by apply Hpass.
Qed.
End slots.

(** The length of the batch from [i], as the end of it tells. *)
Lemma batch_mod i e size limit :
  1 <= limit -> 0 <= i < size -> i mod limit = 0 -> e = Z.min (i + limit) size ->
  (e mod limit = 0 /\ e - i = limit) \/ (e mod limit = e - i /\ e mod limit <> 0).
Proof.
  intros Hl Hi Hmod ->. apply Z.mod_divide in Hmod as [q ->]; [|lia].
  destruct (Z.le_gt_cases (q * limit + limit) size) as [Hle|Hgt].
  - left. rewrite Z.min_l by done. split; [|lia].
    replace (q * limit + limit) with ((q + 1) * limit) by lia. apply Z.mod_mul. lia.
  - right. rewrite Z.min_r by lia. assert (size mod limit = size - q * limit) as ->; [|lia].
    symmetry. apply (Z.mod_unique size limit q); lia.
Qed.

(** ** A chain checked in batches

    [prev_of] is what the value after a value is checked against; [first] checks a
    value against what comes before it; [before n i] says that [n] is what the
    value [i] follows.  The jobs of the components come down to those here. *)
Record chain_state (M N : Type) := {
  ch_slots : list (option M);
  ch_lastprev : N;
  ch_newprev : N
}.
Arguments ch_slots {M N} _.
Arguments ch_lastprev {M N} _.
Arguments ch_newprev {M N} _.
Arguments Build_chain_state {M N} _ _ _.

Section chain.
Context {M N : Type} (prev_of : M -> N) (first : N -> M -> err) (get : Z -> res M) (after : M -> err).
Variable before : N -> Z -> Prop.
Variable sched : list Z -> list Z.
Hypothesis sched_perm : forall l, sched l ≡ₚ l.
Implicit Types (s : chain_state M N).

Definition link (p m : M) : err := first (prev_of p) m.
Definition good (previous : N) (i : Z) (ms : list M) : Prop :=
  (forall k m, ms !! k = Some m -> get (i + Z.of_nat k) = Ok m /\ after m = Ok tt) /\
  linked (first previous) link ms.

Variables (size limit : Z).
Variables (pref : Z -> chain_state M N -> res (chain_state M N)).
Variables (job : Z -> Z -> chain_state M N -> res (chain_state M N)).
Hypothesis limit_pos : 1 <= limit.
(** A batch from [i] to [e]. *)
Definition batch_of (i e : Z) : Prop :=
  0 <= i < e /\ e <= size /\ i mod limit = 0 /\ e = Z.min (i + limit) size.
Hypothesis pref_ok : forall i e s, batch_of i e ->
  pref (e - 1) s = Ok (Build_chain_state (replicate (Z.to_nat (e - i)) None) (ch_newprev s) (ch_newprev s)).
Hypothesis job_ok : forall i e n s, batch_of i e -> i <= n < e -> before (ch_lastprev s) i ->
  length (ch_slots s) = Z.to_nat (e - i) ->
  job n (e - 1) s =
    get n ≫= fun m => put_slot (first (ch_lastprev s)) link (ch_slots s) (Z.to_nat (n - i)) m ≫= fun sl =>
    after m ≫= fun _ =>
    Ok (Build_chain_state sl (ch_lastprev s) (if n =? e - 1 then prev_of m else ch_newprev s)).
Hypothesis get_before : forall n m, 0 <= n < size -> get n = Ok m -> before (prev_of m) (n + 1).

Lemma good_app previous i ms m rest :
  good previous i (ms ++ [m] ++ rest) <->
  good previous i (ms ++ [m]) /\ good (prev_of m) (i + Z.of_nat (S (length ms))) rest.
Proof.
  rewrite app_assoc. assert (length (ms ++ [m]) = S (length ms)) as Hlen by (rewrite length_app; simpl; lia).
  assert ((ms ++ [m]) !! length ms = Some m) as Hlast by (by rewrite lookup_app_r, Nat.sub_diag by lia).
  set (l := ms ++ [m]) in *. split.
  - intros (Hg & Hf & Hl). split; [split; [|split]|split; [|split]].
    + intros k x Hk. apply Hg. by apply lookup_app_l_Some.
    + intros x Hx. apply Hf. by apply lookup_app_l_Some.
    + intros j a b Ha Hb. eapply Hl; by apply lookup_app_l_Some.
    + intros k x Hk. specialize (Hg (length l + k)%nat x). rewrite lookup_app_r in Hg by lia.
      replace (length l + k - length l)%nat with k in Hg by lia. rewrite Hlen in Hg.
      replace (i + Z.of_nat (S (length ms)) + Z.of_nat k) with (i + Z.of_nat (S (length ms) + k)) by lia. auto.
    + intros x Hx. apply (Hl (length ms)); [by apply lookup_app_l_Some|].
      rewrite lookup_app_r by lia. rewrite <- Hlen, Nat.sub_diag. done.
    + intros j a b Ha Hb. apply (Hl (length l + j)%nat).
      * rewrite lookup_app_r by lia. by replace (length l + j - length l)%nat with j by lia.
      * rewrite lookup_app_r by lia. by replace (S (length l + j) - length l)%nat with (S j) by lia.
  - intros [(Hg1 & Hf1 & Hl1) (Hg2 & Hf2 & Hl2)]. split; [|split].
    + intros k x [Hk|[Hk Hx]]%lookup_app_Some; [by apply Hg1|]. apply Hg2 in Hx.
      replace (i + Z.of_nat k) with (i + Z.of_nat (S (length ms)) + Z.of_nat (k - length l)) by lia. done.
    + intros x [Hx|[Hk Hx]]%lookup_app_Some; [by apply Hf1|lia].
    + intros j a b [Ha|[Hi Ha]]%lookup_app_Some [Hb|[Hi' Hb]]%lookup_app_Some.
      * by eapply Hl1.
      * assert (j = length ms) as -> by (apply lookup_lt_Some in Ha; lia). rewrite Hlast in Ha. simplify_eq.
        replace (S (length ms) - length l)%nat with 0%nat in Hb by lia. by apply Hf2.
      * apply lookup_lt_Some in Hb. lia.
      * replace (S j - length l)%nat with (S (j - length l)) in Hb by lia. by eapply Hl2.
Qed.

(** The jobs of a batch on its slots and the next previous value. *)
Definition set_last (last k : nat) (m : M) (x : N) : N := if (k =? last)%nat then prev_of m else x.
Definition chain_slot_job (previous : N) (i e : Z) :=
  slot_job (first previous) link (fun k => get (i + Z.of_nat k)) after (set_last (Z.to_nat (e - 1 - i))).
Definition to_state (previous : N) (x : list (option M) * N) : chain_state M N :=
  Build_chain_state x.1 previous x.2.

Lemma jobs_slots i e jobs previous x :
  batch_of i e -> before previous i -> (forall n, n ∈ jobs -> i <= n < e) -> length x.1 = Z.to_nat (e - i) ->
  fold_res (fun n => job n (e - 1)) jobs (to_state previous x) =
  fold_res (chain_slot_job previous i e) ((fun n => Z.to_nat (n - i)) <$> jobs) x ≫= fun x => Ok (to_state previous x).
Proof.
  intros Hb Hp. revert x. induction jobs as [|n jobs IH]; intros x Hj Hlen; [done|].
  assert (job n (e - 1) (to_state previous x) =
    chain_slot_job previous i e (Z.to_nat (n - i)) x ≫= fun x => Ok (to_state previous x)) as Hstep.
  { assert (i <= n < e) as Hn by (apply Hj; set_solver).
    rewrite (job_ok i e) by done. unfold chain_slot_job, slot_job. cbn [ch_lastprev ch_slots ch_newprev to_state].
    replace (i + Z.of_nat (Z.to_nat (n - i))) with n by lia.
    destruct (get n) as [m|m|]; [|done..]. cbn [mbind res_bind].
    destruct (put_slot _ _ _ _ _) as [sl|er|]; [|done..]. cbn [mbind res_bind].
    destruct (after m) as [[]|er|]; [|done..]. cbn [mbind res_bind]. unfold to_state, set_last. cbn [fst snd].
    do 2 f_equal. destruct (Z.eqb_spec n (e - 1)), (Nat.eqb_spec (Z.to_nat (n - i)) (Z.to_nat (e - 1 - i))); done || lia. }
  cbn [fold_res fmap list_fmap]. rewrite Hstep.
  destruct (chain_slot_job previous i e (Z.to_nat (n - i)) x) as [x1|er|] eqn:E1; [|done..]. cbn [mbind res_bind].
  apply IH; [intros; apply Hj; set_solver|]. rewrite <- Hlen. unfold chain_slot_job, slot_job, put_slot in E1.
  apply bind_ok in E1 as (m & _ & E1). apply bind_ok in E1 as (sl & E1 & (_ & [= <-])%bind_err_ok).
  apply bind_err_ok in E1 as (_ & (_ & [= <-])%bind_err_ok). simpl. by rewrite length_insert.
Qed.

Lemma set_last_all last ms order m x :
  ms !! last = Some m -> last ∈ order -> upd_all (set_last last) ms order x = prev_of m.
Proof.
  intros Hj. unfold upd_all. revert x.
  assert (forall order x, x = prev_of m -> foldl (fun x i => match ms !! i with
     | Some a => set_last last i a x | None => x end) x order = prev_of m) as Hkeep.
  { induction order0 as [|i order0 IH]; intros x Hx; [done|]. simpl. apply IH.
    destruct (ms !! i) as [a|] eqn:Ea; [|done]. unfold set_last. destruct (Nat.eqb_spec i last) as [->|]; [congruence|done]. }
  induction order as [|i order IH]; intros x Hin; [by apply not_elem_of_nil in Hin|]. simpl.
  apply elem_of_cons in Hin as [<-|Hin]; [|by apply IH].
  apply Hkeep. rewrite Hj. unfold set_last. by rewrite Nat.eqb_refl.
Qed.

(** One batch: exactly when its values are good after what came before it. *)
Lemma chain_batch workersize i e s s' :
  batch_of i e -> 1 <= workersize -> before (ch_newprev s) i ->
  batch_step sched workersize pref job (i, e) s = Ok s' <->
  exists ms m, length (ms ++ [m]) = Z.to_nat (e - i) /\ good (ch_newprev s) i (ms ++ [m]) /\
    s' = Build_chain_state (Some <$> (ms ++ [m])) (ch_newprev s) (prev_of m).
Proof.
  intros Hb Hw Hp. unfold batch_step, RunJobWorker. rewrite (pref_ok i e) by done. cbn [mbind res_bind].
  rewrite (proj2 (Z.ltb_ge _ _)) by lia. set (jobs := sched (seqZ i (e - i))).
  assert (jobs ≡ₚ seqZ i (e - i)) as Hjobs by apply sched_perm.
  change (Build_chain_state ?sl ?p ?np) with (to_state p (sl, np)).
  rewrite (jobs_slots i e) by (done || (simpl; by rewrite length_replicate) ||
    (intros n Hn; rewrite Hjobs, elem_of_seqZ in Hn; lia)).
  set (order := (fun n => Z.to_nat (n - i)) <$> jobs).
  assert (order ≡ₚ seq 0 (Z.to_nat (e - i))) as Hord.
  { unfold order. rewrite Hjobs. unfold seqZ. rewrite <- list_fmap_compose. apply Permutation_refl'.
    etrans; [|apply list_fmap_id]. apply list_fmap_ext. intros k x _. simpl. lia. }
  assert (forall ms m, length (ms ++ [m]) = Z.to_nat (e - i) ->
    upd_all (set_last (Z.to_nat (e - 1 - i))) (ms ++ [m]) order (ch_newprev s) = prev_of m) as Hlast.
  { intros ms m Hlen. rewrite length_app in Hlen. simpl in Hlen. destruct Hb as [Hb _]. apply set_last_all.
    - rewrite lookup_app_r by lia. by replace (Z.to_nat (e - 1 - i) - length ms)%nat with 0%nat by lia.
    - rewrite Hord, elem_of_seq. lia. }
  split.
  - intros ([sl np] & Hf & [= <-])%bind_ok.
    apply slots_any_order in Hf as (l & Hlen & Hlk & Hg & Hr'); [|done].
    destruct l as [|m ms _] using rev_ind; [destruct Hb as [Hb _]; simpl in Hlen; lia|]. exists ms, m.
    split; [done|]. split; [by split|]. rewrite Hlast in Hr' by done. unfold to_state. by simplify_eq/=.
  - intros (ms & m & Hlen & [Hg Hlk] & ->). apply bind_ok.
    exists (Some <$> (ms ++ [m]), prev_of m). split; [|done].
    apply slots_any_order; [done|]. exists (ms ++ [m]). split_and!; [done..|]. by rewrite Hlast.
Qed.

(** A list of length at least [n >= 1], cut after [n]. *)
Lemma cut_list {A} (l : list A) (n : nat) :
  (1 <= n <= length l)%nat -> exists ms m rest, l = ms ++ [m] ++ rest /\ length (ms ++ [m]) = n.
Proof.
  intros Hn. exists (take (n - 1) l). destruct (drop (n - 1) l) as [|m rest] eqn:Ed.
  { apply (f_equal length) in Ed. rewrite length_drop in Ed. simpl in Ed. lia. }
  exists m, rest. split; [by rewrite <- (take_drop (n - 1) l) at 1; rewrite Ed|].
  rewrite length_app, length_take. simpl. lia.
Qed.

Lemma batch_of_next i :
  0 <= i < size -> i mod limit = 0 -> i + limit < size -> batch_of i (i + limit) /\ (i + limit) mod limit = 0.
Proof.
  intros Hi Hmod Hlt. split; [unfold batch_of; lia|].
  rewrite <- (Z.mul_1_l limit) at 1. rewrite Z.mod_add by lia. done.
Qed.

Lemma before_last s i ms m :
  0 <= i -> i + Z.of_nat (length (ms ++ [m])) <= size -> good (ch_newprev s) i (ms ++ [m]) ->
  before (prev_of m) (i + Z.of_nat (length (ms ++ [m]))).
Proof.
  intros Hi Hlen [Hg _]. rewrite length_app in *. simpl in *.
  destruct (Hg (length ms) m) as [Hm _]; [by rewrite lookup_app_r, Nat.sub_diag by lia|].
  replace (i + Z.of_nat (length ms + 1)) with (i + Z.of_nat (length ms) + 1) by lia. apply get_before; [lia|done].
Qed.

(** What is left in the slots is the last batch. *)
Definition last_batch (i : Z) (s' : chain_state M N) (l : list M) : Prop :=
  exists k m lp, (k < length l)%nat /\ (i + Z.of_nat k) mod limit = 0 /\ Z.of_nat (length l - k) <= limit /\
    last l = Some m /\ s' = Build_chain_state (Some <$> drop k l) lp (prev_of m).

Lemma chain_batches_sound ws fuel i s s' :
  1 <= ws -> 0 <= i < size -> size - i <= Z.of_nat fuel -> i mod limit = 0 -> before (ch_newprev s) i ->
  fold_res (batch_step sched ws pref job) (batches fuel i size limit) s = Ok s' ->
  exists l, length l = Z.to_nat (size - i) /\ good (ch_newprev s) i l /\ last_batch i s' l.
Proof.
  intros Hws. revert i s. induction fuel as [|fuel IH]; intros i s Hi Hf Hmod Hb Hr; [lia|].
  cbn [batches fold_res] in Hr. apply bind_ok in Hr as (s1 & Hr & Hrest).
  apply chain_batch in Hr as (ms & m & Hlen & Hg & ->); [|unfold batch_of; lia|done|done].
  destruct (Z.eqb_spec (Z.min (i + limit) size) size) as [E|E].
  - injection Hrest as <-. exists (ms ++ [m]). split_and!; [by rewrite Hlen, E|done|].
    exists 0%nat, m, (ch_newprev s). rewrite drop_0, last_snoc, Nat.sub_0_r, Hlen, Z.add_0_r.
    split_and!; try done; lia.
  - assert (i + limit < size) as Hlt by lia. rewrite Z.min_l in * by lia. destruct (batch_of_next i Hi Hmod ltac:(lia)) as [_ Hmod'].
    assert (i + Z.of_nat (length (ms ++ [m])) = i + limit) as Hil by lia.
    pose proof (before_last s i ms m ltac:(lia) ltac:(lia) Hg) as Hbm. rewrite Hil in Hbm.
    apply IH in Hrest as (rest & Hlr & Hgr & k & m' & lp & Hk & Hkm & Hkl & Hl & ->); [|lia|lia|done|done].
    cbn [ch_newprev] in Hgr.
    exists (ms ++ [m] ++ rest). split; [rewrite app_assoc, length_app; lia|].
    assert (length (ms ++ [m]) = S (length ms)) as HS by (rewrite length_app; simpl; lia).
    split; [apply good_app; split; [done|]; by replace (i + Z.of_nat (S (length ms))) with (i + limit) by lia|].
    exists (length (ms ++ [m]) + k)%nat, m', lp. rewrite app_assoc, (length_app (ms ++ [m]) rest).
    split_and!; [lia| |lia| |].
    + by replace (i + Z.of_nat (length (ms ++ [m]) + k)) with (i + limit + Z.of_nat k) by lia.
    + rewrite last_app, Hl. done.
    + by rewrite drop_app_add.
Qed.

Lemma chain_batches_complete ws fuel i s l :
  1 <= ws -> 0 <= i < size -> size - i <= Z.of_nat fuel -> i mod limit = 0 -> before (ch_newprev s) i ->
  length l = Z.to_nat (size - i) -> good (ch_newprev s) i l ->
  exists s', fold_res (batch_step sched ws pref job) (batches fuel i size limit) s = Ok s'.
Proof.
  intros Hws. revert i s l. induction fuel as [|fuel IH]; intros i s l Hi Hf Hmod Hb Hlen Hg; [lia|].
  cbn [batches]. set (e := Z.min (i + limit) size).
  destruct (cut_list l (Z.to_nat (e - i))) as (ms & m & rest & -> & Hms); [unfold e; lia|].
  apply good_app in Hg as [Hg Hgr].
  assert (batch_step sched ws pref job (i, e) s =
    Ok (Build_chain_state (Some <$> (ms ++ [m])) (ch_newprev s) (prev_of m))) as Hs.
  { apply chain_batch; [unfold batch_of, e; lia|done|done|]. by exists ms, m. }
  cbn [fold_res]. rewrite Hs. cbn [mbind res_bind].
  destruct (Z.eqb_spec e size) as [E|E]; [by eexists|].
  assert (e = i + limit) as Eil by (unfold e in *; lia).
  destruct (batch_of_next i Hi Hmod ltac:(lia)) as [_ Hmod'].
  assert (length (ms ++ [m]) = S (length ms)) as HS by (rewrite length_app; simpl; lia).
  pose proof (before_last s i ms m ltac:(lia) ltac:(lia) Hg) as Hbm.
  rewrite Hms, Z2Nat.id, Eil in Hbm by lia. replace (i + (i + limit - i)) with (i + limit) in Hbm by lia.
  apply (IH _ _ rest); [lia|lia|done|done| |].
  - rewrite app_assoc, length_app, Hms in Hlen. lia.
  - cbn [ch_newprev]. by replace (i + limit) with (i + Z.of_nat (S (length ms))) by lia.
Qed.

(** All of the work: it succeeds exactly when the values are good after what came
    before, whatever the order of the jobs. *)
Theorem chain_work s :
  1 <= size -> before (ch_newprev s) 0 ->
  (forall s', BatchWork sched size limit pref job s = Ok s' ->
     exists l, length l = Z.to_nat size /\ good (ch_newprev s) 0 l /\ last_batch 0 s' l) /\
  (forall l, length l = Z.to_nat size -> good (ch_newprev s) 0 l ->
     exists s', BatchWork sched size limit pref job s = Ok s').
Proof.
  intros Hsize Hb.
  assert (exists ws fuel, 1 <= ws /\ size <= Z.of_nat fuel /\ BatchWork sched size limit pref job s =
    fold_res (batch_step sched ws pref job) (batches fuel 0 size limit) s) as (ws & fuel & Hws & Hf & ->).
  { unfold BatchWork. rewrite (proj2 (Z.ltb_ge _ _)) by lia. destruct (Z.leb_spec size limit) as [Hle|Hgt].
    - exists size, (Z.to_nat size). split_and!; [lia|lia|].
      destruct (Z.to_nat size) as [|f] eqn:Ef; [lia|]. cbn [batches]. rewrite Z.min_r, Z.eqb_refl by lia.
      cbn [fold_res]. by destruct (batch_step _ _ _ _ _ _).
    - rewrite (proj2 (Z.ltb_ge _ _)) by lia. exists limit, (Z.to_nat size). split_and!; [lia|lia|done]. }
  split.
  - intros s' Hr. apply chain_batches_sound in Hr; [|done|lia|lia|by rewrite Z.mod_0_l by lia|done].
    by rewrite Z.sub_0_r in Hr.
  - intros l Hlen Hg. eapply chain_batches_complete; try done; try lia; by rewrite Z.sub_0_r.
Qed.
End chain.
