(* ===== verification/Block.v ===== *)
(** * Manifests, block maps and their chain

    [isaac/block.go], [isaac/block/map.go], [base/block.go], [base/sign.go], and
    the checks of [isaac/block/validator.go] over what the readers give.

    A manifest sums a block up by hashes, a block map adds the checksums of the
    files of the block and the signature of the node that wrote it.  A node that
    syncs gets block maps from others in batches, in any order ([Batch]), and
    checks that each refers to the one before it.  A nil [util.Hash] is [None];
    times are numbers, the zero time [None]; byte slices are strings. *)
From S2P Require Import Prelude FixedTree Point Vote Slice Ballot Voteproof Batch.
From stdpp Require Import pretty.

Open Scope Z_scope.

(** ** Bytes ([util/bytes.go]) *)
Definition ConcatBytesSlice (sl : list string) : string := foldr String.append "" sl.
Definition ConcatByters (bs : list (option string)) : string := ConcatBytesSlice (default "" <$> bs).

(** Keys, hashing and the bytes of values, which the code reaches through
    interfaces and other packages. *)
Class BlockCrypto := {
  Privatekey : Type;
  priv_Publickey : Privatekey -> Publickey;
  priv_Sign : Privatekey -> string -> res string;
  key_Verify : Publickey -> string -> string -> err;
  key_IsValid : Publickey -> err;
  signature_IsValid : string -> err;
  address_bytes : Address -> string;
  height_bytes : Z -> string;
  time_bytes : option Z -> string;
  new_sha256 : string -> Hash;
  parse_hash : string -> Hash                 (* EncodeHash of DecodeHash *)
}.

(** ** Signatures of nodes ([base/sign.go]) *)
Record BaseNodeSign := {
  bs_node : Address;
  bs_signer : Publickey;
  bs_signature : string;
  bs_signedAt : option Z
}.

Section sign.
Context `{Crypto, BlockCrypto}.

Definition NewBaseSignFromBytes (priv : Privatekey) (networkID b : string) (now : Z)
    : res (Publickey * string * option Z) :=
  priv_Sign priv (ConcatBytesSlice [networkID; b; time_bytes (Some now)]) ≫= fun sig =>
  Ok (priv_Publickey priv, sig, Some now).
Definition BaseSign_IsValid (si : BaseNodeSign) : err :=
  check_all [ key_IsValid (bs_signer si); signature_IsValid (bs_signature si);
              guard_err (bool_decide (bs_signedAt si = None)) "empty signedAt" ].
Definition BaseSign_Verify (networkID b : string) (si : BaseNodeSign) : err :=
  key_Verify (bs_signer si) (ConcatBytesSlice [networkID; b; time_bytes (bs_signedAt si)]) (bs_signature si).

Definition NewBaseNodeSignFromBytes (node : Address) (priv : Privatekey) (networkID b : string) (now : Z)
    : res BaseNodeSign :=
  NewBaseSignFromBytes priv networkID (ConcatByters [Some (address_bytes node); Some b]) now ≫= fun '(pub, sig, at_) =>
  Ok {| bs_node := node; bs_signer := pub; bs_signature := sig; bs_signedAt := at_ |}.
Definition BaseNodeSign_IsValid (si : BaseNodeSign) : err :=
  check_all [address_IsValid (bs_node si)] ≫= fun _ => BaseSign_IsValid si.
Definition BaseNodeSign_Verify (networkID b : string) (si : BaseNodeSign) : err :=
  BaseSign_Verify networkID (ConcatByters [Some (address_bytes (bs_node si)); Some b]) si.
End sign.

(** ** Manifests ([isaac/block.go]) *)
Record Manifest := {
  mf_hash : option Hash;
  mf_height : Z;
  mf_previous : option Hash;
  mf_proposal : option Hash;
  mf_operationsTree : option Hash;
  mf_statesTree : option Hash;
  mf_suffrage : option Hash;
  mf_proposedAt : option Z
}.

(** [Equal] of a hash, which panics on a nil receiver. *)
Definition Hash_eq (a b : option Hash) : res bool :=
  match a with
  | None => Panic
  | Some a => Ok (match b with None => false | Some b => bool_decide (a = b) end)
  end.

(** A hash in [CheckIsValiders]. *)
Definition opt_IsValid `{Crypto} (allowNil : bool) (h : option Hash) : err :=
  match h with
  | None => guard_err (negb allowNil) "nil found"
  | Some h => Hash_IsValid h
  end.

Section manifest.
Context `{Crypto, BlockCrypto}.

Definition Manifest_generateHash (m : Manifest) : Hash :=
  new_sha256 (ConcatByters
    [ Some (height_bytes (mf_height m)); hash_bytes <$> mf_previous m; hash_bytes <$> mf_proposal m;
      hash_bytes <$> mf_operationsTree m; hash_bytes <$> mf_statesTree m; hash_bytes <$> mf_suffrage m;
      Some (time_bytes (mf_proposedAt m)) ]).

Definition NewManifest (height : Z) (previous proposal operationsTree statesTree suffrage : option Hash)
    (proposedAt : option Z) : Manifest :=
  let m h := {| mf_hash := h; mf_height := height; mf_previous := previous; mf_proposal := proposal;
                mf_operationsTree := operationsTree; mf_statesTree := statesTree; mf_suffrage := suffrage;
                mf_proposedAt := proposedAt |} in
  m (Some (Manifest_generateHash (m None))).

(** The hash itself is not looked at. *)
Definition Manifest_IsValid (m : Manifest) : err :=
  check_all [ Height_IsValid (mf_height m); opt_IsValid false (mf_proposal m);
              guard_err (bool_decide (mf_proposedAt m = None)) "empty proposedAt" ] ≫= fun _ =>
  (if mf_height m =? GenesisHeight then Ok tt else check_all [opt_IsValid false (mf_previous m)]) ≫= fun _ =>
  check_all [ opt_IsValid true (mf_operationsTree m); opt_IsValid true (mf_statesTree m);
              opt_IsValid true (mf_suffrage m) ].
End manifest.

(** ** Block maps ([isaac/block/map.go]) *)
Abbreviation BlockItemType := string.
Definition BlockItemMap : BlockItemType := "map".
Definition BlockItemProposal : BlockItemType := "proposal".
Definition BlockItemOperations : BlockItemType := "operations".
Definition BlockItemOperationReceipts : BlockItemType := "operation_receipts".
Definition BlockItemOperationsTree : BlockItemType := "operations_tree".
Definition BlockItemStates : BlockItemType := "states".
Definition BlockItemStatesTree : BlockItemType := "states_tree".
Definition BlockItemVoteproofs : BlockItemType := "voteproofs".
Definition block_item_types : list BlockItemType :=
  [ BlockItemMap; BlockItemProposal; BlockItemOperations; BlockItemOperationReceipts;
    BlockItemOperationsTree; BlockItemStates; BlockItemStatesTree; BlockItemVoteproofs ].
Definition BlockItemType_IsValid (t : BlockItemType) : err :=
  guard_err (negb (bool_decide (t ∈ block_item_types))) "unknown block map item type".

Record BlockMapItem := { bi_t : BlockItemType; bi_checksum : string }.
#[global] Instance BlockMapItem_eq_dec : EqDecision BlockMapItem.
Proof. solve_decision. Defined.
Definition BlockMapItem_IsValid (item : BlockMapItem) : err :=
  BlockItemType_IsValid (bi_t item) ≫= fun _ =>
  guard_err (String.length (bi_checksum item) <? 1)%nat "empty checksum".

Record BlockMap := { bm_manifest : Manifest; bm_items : gmap BlockItemType BlockMapItem; bm_sign : BaseNodeSign }.

Definition bm_height (m : BlockMap) : Z := mf_height (bm_manifest m).
Definition bm_hash (m : BlockMap) : option Hash := mf_hash (bm_manifest m).

(** [Traverse] visits the items in the order of a Go map; here it is that of
    [map_to_list]. *)
Definition BlockMap_Items (m : BlockMap) : list BlockMapItem := (map_to_list (bm_items m)).*2.
Definition SetItem (item : BlockMapItem) (m : BlockMap) : res BlockMap :=
  BlockMapItem_IsValid item ≫= fun _ =>
  Ok {| bm_manifest := bm_manifest m; bm_items := <[bi_t item := item]> (bm_items m); bm_sign := bm_sign m |}.

Definition has_item (m : BlockMap) (t : BlockItemType) : bool := bool_decide (is_Some (bm_items m !! t)).
Definition checkItems (m : BlockMap) : err :=
  guard_err (negb (has_item m BlockItemProposal)) "empty proposal" ≫= fun _ =>
  guard_err (negb (has_item m BlockItemVoteproofs)) "empty voteproofs" ≫= fun _ =>
  guard_err (bool_decide (is_Some (mf_operationsTree (bm_manifest m))) && negb (has_item m BlockItemOperationsTree))
    "empty operations tree" ≫= fun _ =>
  guard_err (bool_decide (is_Some (mf_statesTree (bm_manifest m))) && negb (has_item m BlockItemStatesTree))
    "empty states tree".

Section blockmap.
Context `{Crypto, BlockCrypto}.

(** Only the checksums are signed, sorted. *)
Definition signedBytes (m : BlockMap) : string :=
  ConcatByters [ hash_bytes <$> bm_hash m;
                 Some (ConcatBytesSlice (merge_sort String.le (bi_checksum <$> BlockMap_Items m))) ].
Definition BlockMap_Sign (node : Address) (priv : Privatekey) (networkID : string) (now : Z) (m : BlockMap)
    : res BlockMap :=
  NewBaseNodeSignFromBytes node priv networkID (signedBytes m) now ≫= fun si =>
  Ok {| bm_manifest := bm_manifest m; bm_items := bm_items m; bm_sign := si |}.

Definition BlockMap_IsValid (networkID : string) (m : BlockMap) : err :=
  check_all [Manifest_IsValid (bm_manifest m); BaseNodeSign_IsValid (bm_sign m)] ≫= fun _ =>
  checkItems m ≫= fun _ =>
  check_all (BlockMapItem_IsValid <$> BlockMap_Items m) ≫= fun _ =>
  BaseNodeSign_Verify networkID (signedBytes m) (bm_sign m).
End blockmap.

(** ** Equality of block maps ([base/block.go]) *)
Definition IsEqualManifest (a b : Manifest) : err :=
  guard_err (negb (mf_height a =? mf_height b)) "different manifest height" ≫= fun _ =>
  Hash_eq (mf_hash a) (mf_hash b) ≫= fun eq => guard_err (negb eq) "different manifest hash".
Definition IsEqualBlockMapItem (a b : BlockMapItem) : err :=
  guard_err (negb (bool_decide (bi_t a = bi_t b))) "different block item" ≫= fun _ =>
  guard_err (negb (bool_decide (bi_checksum a = bi_checksum b))) "different block item checksum".
(** Only the items of [a] are looked for. *)
Definition IsEqualBlockMap (a b : BlockMap) : err :=
  IsEqualManifest (bm_manifest a) (bm_manifest b) ≫= fun _ =>
  check_all ((fun ai => match bm_items b !! bi_t ai with
                        | None => Err "block item not found"
                        | Some bi => IsEqualBlockMapItem ai bi
                        end) <$> BlockMap_Items a).

(** ** The chain of block maps ([base/block.go]) *)
Definition IsValidManifests (m : Manifest) (previous : option Hash) : err :=
  Hash_eq (mf_previous m) previous ≫= fun eq => guard_err (negb eq) "previous does not match".

(** The manifests on both sides that are there already. *)
Definition IsValidMaps (m : BlockMap) (maps : list (option BlockMap)) (previous : option BlockMap)
    : res (list (option BlockMap)) :=
  let prev := match previous with Some p => bm_height p | None => NilHeight end in
  let index := wrap_s 64 (bm_height m - prev - 1) in
  if (index <? 0) || (Z.of_nat (length maps) <=? index) then Err "wrong index"
  else
    let i := Z.to_nat index in
    let maps := <[i := Some m]> maps in
    (if (index =? 0) && (bm_height m =? GenesisHeight) then Ok tt
     else if index =? 0 then
       match previous with None => Panic | Some p => IsValidManifests (bm_manifest m) (bm_hash p) end
     else match maps !! (i - 1)%nat with
          | Some (Some p) => IsValidManifests (bm_manifest m) (bm_hash p)
          | _ => Ok tt
          end) ≫= fun _ =>
    match maps !! S i with
    | Some (Some n) => IsValidManifests (bm_manifest n) (bm_hash m)
    | _ => Ok tt
    end ≫= fun _ =>
    Ok maps.

(** What the closures of [BatchIsValidMaps] share. *)
Definition batch_maps := chain_state BlockMap (option BlockMap).

(** The slots of a batch that ends at [last]; dividing by a zero limit panics. *)
Definition new_slots (last batchlimit : Z) : res (list (option BlockMap)) :=
  if batchlimit =? 0 then Panic
  else
    let r := wrap_u 64 (last + 1) `mod` wrap_u 64 batchlimit in
    Ok (replicate (Z.to_nat (if r =? 0 then batchlimit else r)) None).
Definition next_batch (last batchlimit : Z) (s : batch_maps) : res batch_maps :=
  new_slots last batchlimit ≫= fun maps =>
  Ok (Build_chain_state maps (ch_newprev s) (ch_newprev s)).

Section maps.
Variable sched : list Z -> list Z.
Variables (blockMapf : Z -> res BlockMap) (callback : BlockMap -> err).

Definition map_job (prevheight : Z) (i last : Z) (s : batch_maps) : res batch_maps :=
  let height := wrap_s 64 (prevheight + i + 1) in
  let lastheight := wrap_s 64 (prevheight + last + 1) in
  blockMapf height ≫= fun m =>
  IsValidMaps m (ch_slots s) (ch_lastprev s) ≫= fun maps =>
  callback m ≫= fun _ =>
  Ok (Build_chain_state maps (ch_lastprev s) (if bm_height m =? lastheight then Some m else ch_newprev s)).

Definition BatchIsValidMaps (prev : option BlockMap) (to batchlimit : Z) : err :=
  let prevheight := match prev with Some p => bm_height p | None => NilHeight end in
  BatchWork sched (wrap_s 64 (to - prevheight)) batchlimit
    (fun last s => next_batch last batchlimit s) (map_job prevheight)
    (Build_chain_state [] None prev) ≫= fun _ => Ok tt.

(** [IsValidAllBlockMapsFromLocalFS]: the same over the maps read from the files
    ([blockMapf] is the reader with the check of validity), with a check that a
    file holds the height of its name. *)
Definition local_map_job (i last : Z) (s : batch_maps) : res batch_maps :=
  blockMapf i ≫= fun m =>
  guard_err (negb (bm_height m =? i)) "different height blockmaps" ≫= fun _ =>
  IsValidMaps m (ch_slots s) (ch_lastprev s) ≫= fun maps =>
  Ok (Build_chain_state maps (ch_lastprev s) (if bm_height m =? last then Some m else ch_newprev s)).
Definition IsValidAllBlockMapsFromLocalFS (last : Z) : err :=
  BatchWork sched (wrap_s 64 (last + 1)) 333 (fun last s => next_batch last 333 s) local_map_job
    (Build_chain_state [] None None) ≫= fun _ => Ok tt.
End maps.

(** ** The items of a block against its manifest *)
Definition IsValidProposalWithManifest (pr_height : Z) (pr_hash : Hash) (m : Manifest) : err :=
  guard_err (negb (pr_height =? mf_height m)) "height does not match" ≫= fun _ =>
  guard_err (negb (bool_decide (Some pr_hash = mf_proposal m))) "hash does not match".

(** [ParseTreeNodeOperationKey]: a key that ends in a dash is not in the states. *)
Fixpoint cut_dash (s : string) : string * bool :=
  match s with
  | "" => ("", true)
  | "-" => ("", false)
  | String c s => let '(k, b) := cut_dash s in (String c k, b)
  end%string.
Definition ParseTreeNodeOperationKey `{BlockCrypto} (s : string) : Hash * bool :=
  let '(k, instate) := cut_dash s in (parse_hash k, instate).

Definition Root_Equal (nodes : list FixedTree.Node) (h : option Hash) : res bool :=
  Tree_Root nodes ≫= fun r => Hash_eq r h.

(** [ops] are the fact hashes of the operations. *)
Definition IsValidOperationsTreeWithManifest `{BlockCrypto} (tr : list FixedTree.Node) (ops : list Hash)
    (m : Manifest) : err :=
  if negb (length tr =? length ops)%nat then Err "number does not match"
  else if (length ops <? 1)%nat then Ok tt
  else if IsDuplicatedSlice ops (fun h => (true, h)) then Err "duplicated operation found in operations"
  else
    Traverse 0 tr (fun _ n => guard_err (negb (bool_decide ((ParseTreeNodeOperationKey (n_key n)).1 ∈ ops)))
                                "operation in tree not found in operations") ≫= fun _ =>
    Root_Equal tr (mf_operationsTree m) ≫= fun eq => guard_err (negb eq) "hash does not match".

(** [sts] are the hashes and heights of the states. *)
Definition IsValidStatesTreeWithManifest (tr : list FixedTree.Node) (sts : list (Hash * Z)) (m : Manifest) : err :=
  if negb (length tr =? length sts)%nat then Err "number does not match"
  else if (length sts <? 1)%nat then Ok tt
  else if IsDuplicatedSlice sts (fun st => (true, st.1)) then Err "duplicated state found in states"
  else
    Traverse 0 tr (fun _ n =>
      match list_find (fun st => st.1 = n_key n) sts with
      | None => Err "state in tree not found in states"
      | Some (_, st) => guard_err (negb (st.2 =? mf_height m)) "height does not match"
      end) ≫= fun _ =>
    Root_Equal tr (mf_statesTree m) ≫= fun eq => guard_err (negb eq) "hash does not match".

Definition IsValidVoteproofsWithManifest (vps : option Voteproof * option Voteproof) (m : Manifest) : err :=
  match vps with
  | (Some ivp, Some avp) =>
      guard_err (negb (is_init_type ivp)) "expected INITVoteproof" ≫= fun _ =>
      guard_err (is_init_type avp) "expected ACCEPTVoteproof" ≫= fun _ =>
      guard_err (negb (sp_h (vp_point ivp) =? mf_height m) || negb (sp_h (vp_point avp) =? mf_height m))
        "height does not match" ≫= fun _ =>
      guard_err (negb (Point_Equal (sp_point (vp_point ivp)) (sp_point (vp_point avp)))) "point does not match"
  | _ => Err "empty voteproof"
  end.

(** [IsValidGenesisOperation]: a valid operation signed by [signer]. *)
Definition IsValidGenesisOperation (op_IsValid : err) (signers : list Publickey) (signer : Publickey) : err :=
  op_IsValid ≫= fun _ => guard_err (negb (bool_decide (signer ∈ signers))) "block creator not signs".

(** The result of the walk is not returned as it is found: an item without a
    file is an error, and without one the nil error is wrapped to nil. *)
Definition IsValidBlockItemFilesWithBlockMap (bm : option BlockMap) (bfiles : option (gset BlockItemType)) : err :=
  match bm, bfiles with
  | None, _ => Err "empty block map"
  | _, None => Err "empty block item files"
  | Some bm, Some fs =>
      check_all ((fun item => guard_err (negb (bool_decide (bi_t item ∈ fs))) "item not found in block item files")
                   <$> BlockMap_Items bm)
  end.

(** ** A block read from storage ([isaac/block/validator.go]) *)

(** Jobs that share nothing: the first error in the order they run. *)
Definition for_all_jobs {A} (sched : list Z -> list Z) (l : list A) (f : A -> err) : err :=
  BatchWork sched (Z.of_nat (length l)) 333 (fun _ s => Ok s)
    (fun i _ s => match l !! Z.to_nat i with Some x => f x ≫= fun _ => Ok s | None => Panic end) tt.

Record Receipt := { rc_operation : Hash; rc_fact : Hash }.

Section storage.
Context `{Crypto, BlockCrypto, TreeHash}.
Variable sched : list Z -> list Z.

(** Operations are their hash and the hash of their fact. *)
Definition IsValidOperationsOfBlock (opstree : list FixedTree.Node) (ops : list (Hash * Hash)) (m : Manifest)
    (validateOperationf : Hash * Hash -> err) : err :=
  Tree_IsValid (Ok tt) opstree ≫= fun _ =>
  IsValidOperationsTreeWithManifest opstree ops.*2 m ≫= fun _ =>
  if (0 <? length ops)%nat then for_all_jobs sched ops validateOperationf else Ok tt.
Definition IsValidStatesOfBlock (ststree : list FixedTree.Node) (sts : list (Hash * Z)) (m : Manifest)
    (validateStatef : Hash * Z -> err) : err :=
  Tree_IsValid (Ok tt) ststree ≫= fun _ =>
  IsValidStatesTreeWithManifest ststree sts m ≫= fun _ =>
  if (0 <? length sts)%nat then for_all_jobs sched sts validateStatef else Ok tt.
Definition IsValidOperationReceiptsOfBlock (receipts : list Receipt) (ops : list (Hash * Hash)) : err :=
  if negb (length receipts =? length ops)%nat then Err "receipt count does not match operations"
  else if (length receipts <? 1)%nat then Ok tt
  else for_all_jobs sched (zip receipts ops) (fun '(r, op) =>
    check_all [Hash_IsValid (rc_operation r); Hash_IsValid (rc_fact r)] ≫= fun _ =>
    guard_err (negb (bool_decide (rc_operation r = op.1))) "receipt operation hash does not match" ≫= fun _ =>
    guard_err (negb (bool_decide (rc_fact r = op.2))) "receipt fact hash does not match").
Definition isValidVoteproofsFromLocalFS (vps : option Voteproof * option Voteproof) (m : Manifest) : err :=
  let valid o := match o with None => Ok tt | Some vp => Voteproof_IsValid vp end in
  valid vps.1 ≫= fun _ => valid vps.2 ≫= fun _ => IsValidVoteproofsWithManifest vps m.

(** What the readers give for a block: items that the block map does not name are
    not read and stay empty. *)
Record BlockItems := {
  it_proposal : option (Z * Hash);
  it_ops : list (Hash * Hash);
  it_sts : list (Hash * Z);
  it_opstree : list FixedTree.Node;
  it_ststree : list FixedTree.Node;
  it_vps : option Voteproof * option Voteproof;
  it_receipts : option (list Receipt)
}.
Definition IsValidBlockFromLocalFS (networkID : string) (bm : BlockMap) (items : BlockItems)
    (validateBlockMapf : BlockMap -> err) (proposal_IsValid : err)
    (validateOperationf : Hash * Hash -> err) (validateStatef : Hash * Z -> err) : err :=
  BlockMap_IsValid networkID bm ≫= fun _ =>
  validateBlockMapf bm ≫= fun _ =>
  match it_receipts items with
  | Some rs => IsValidOperationReceiptsOfBlock rs (it_ops items)
  | None => Ok tt
  end ≫= fun _ =>
  match it_proposal items with
  | None => Panic
  | Some (h, pr) =>
      proposal_IsValid ≫= fun _ => IsValidProposalWithManifest h pr (bm_manifest bm)
  end ≫= fun _ =>
  IsValidOperationsOfBlock (it_opstree items) (it_ops items) (bm_manifest bm) validateOperationf ≫= fun _ =>
  IsValidStatesOfBlock (it_ststree items) (it_sts items) (bm_manifest bm) validateStatef ≫= fun _ =>
  isValidVoteproofsFromLocalFS (it_vps items) (bm_manifest bm).
End storage.

(** ** Chains *)
Definition follows (m p : BlockMap) : Prop :=
  exists h, mf_previous (bm_manifest m) = Some h /\ bm_hash p = Some h.

Lemma IsValidManifests_ok (m p : BlockMap) :
  IsValidManifests (bm_manifest m) (bm_hash p) = Ok tt <-> follows m p.
Proof.
  unfold IsValidManifests, follows, Hash_eq. destruct (mf_previous _) as [h|]; simpl.
  - rewrite guard_err_ok, negb_false_iff. destruct (bm_hash p) as [h'|]; [|naive_solver].
    rewrite bool_decide_eq_true. naive_solver.
  - naive_solver.
Qed.

Definition link_maps (p m : BlockMap) : err := IsValidManifests (bm_manifest m) (bm_hash p).
Definition first_map (previous : option BlockMap) (m : BlockMap) : err :=
  match previous with None => Ok tt | Some p => link_maps p m end.

(** What comes before the height [h]: a map of the height below, or nothing
    before the genesis block. *)
Definition before (previous : option BlockMap) (h : Z) : Prop :=
  match previous with None => h = 0 | Some p => 0 <= bm_height p /\ h = bm_height p + 1 end.

Lemma IsValidMaps_put previous h i m maps :
  before previous h -> 0 <= h -> h + Z.of_nat i < 2 ^ 63 -> bm_height m = h + Z.of_nat i ->
  (i < length maps)%nat ->
  IsValidMaps m maps previous = put_slot (first_map previous) link_maps maps i m.
Proof.
  intros Hb Hh Hi Hm Hlen. unfold IsValidMaps.
  set (prev := match previous with Some p => bm_height p | None => NilHeight end).
  assert (prev = h - 1) as -> by (unfold prev, NilHeight; destruct previous; simpl in Hb; lia).
  rewrite Hm. replace (h + Z.of_nat i - (h - 1) - 1) with (Z.of_nat i) by lia.
  rewrite wrap_s_small by (change (64 - 1) with 63; lia).
  rewrite (proj2 (Z.ltb_ge _ _)), (proj2 (Z.leb_gt _ _)) by lia. cbn [orb]. rewrite Nat2Z.id.
  unfold put_slot, check_right.
  assert (check_left (first_map previous) link_maps (<[i := Some m]> maps) i m =
    (if (Z.of_nat i =? 0) && (h + Z.of_nat i =? GenesisHeight) then Ok tt
     else if Z.of_nat i =? 0 then
       match previous with None => Panic | Some p => IsValidManifests (bm_manifest m) (bm_hash p) end
     else match <[i := Some m]> maps !! (i - 1)%nat with
          | Some (Some p) => IsValidManifests (bm_manifest m) (bm_hash p)
          | _ => Ok tt
          end)) as ->; [|done].
  destruct i as [|i].
  - simpl. change (Z.of_nat 0) with 0. unfold GenesisHeight, first_map, link_maps.
    destruct previous as [p|]; simpl in Hb.
    + by rewrite (proj2 (Z.eqb_neq _ _)) by lia.
    + by rewrite (proj2 (Z.eqb_eq _ _)) by lia.
  - rewrite (proj2 (Z.eqb_neq _ _)) by lia. cbn [andb]. replace (S i - 1)%nat with i by lia. done.
Qed.

(** ** Batches of block maps *)
Section batches.
Variable sched : list Z -> list Z.
Hypothesis sched_perm : forall l, sched l ≡ₚ l.
Variables (blockMapf : Z -> res BlockMap) (callback : BlockMap -> err).
(** A map comes back for the height that was asked for. *)
Hypothesis blockMapf_height : forall h m, blockMapf h = Ok m -> bm_height m = h.

Lemma next_batch_slots size limit i e s :
  1 <= limit < 2 ^ 63 -> size < 2 ^ 63 -> batch_of size limit i e ->
  next_batch (e - 1) limit s =
  Ok (Build_chain_state (replicate (Z.to_nat (e - i)) None) (ch_newprev s) (ch_newprev s)).
Proof.
  intros Hl Hs (Hi & He & Hmod & Hmin). unfold next_batch, new_slots. rewrite (proj2 (Z.eqb_neq limit 0)) by lia.
  rewrite !wrap_u_small by lia. replace (e - 1 + 1) with e by lia. cbn [mbind res_bind].
  destruct (batch_mod i e size limit) as [[-> ->]|[-> Hne]]; [lia|lia|done|done|done|].
  by rewrite (proj2 (Z.eqb_neq _ _)) by lia.
Qed.

(** A job of the batch from [i] to [e], put into its slot. *)
Lemma map_job_slot prevheight size limit i e n s :
  -1 <= prevheight -> prevheight + size < 2 ^ 63 -> batch_of size limit i e -> i <= n < e ->
  before (ch_lastprev s) (prevheight + 1 + i) -> length (ch_slots s) = Z.to_nat (e - i) ->
  map_job blockMapf callback prevheight n (e - 1) s =
    blockMapf (prevheight + 1 + n) ≫= fun m =>
    put_slot (first_map (ch_lastprev s)) (link Some first_map) (ch_slots s) (Z.to_nat (n - i)) m ≫= fun sl =>
    callback m ≫= fun _ =>
    Ok (Build_chain_state sl (ch_lastprev s) (if n =? e - 1 then Some m else ch_newprev s)).
Proof.
  intros Hp Hsz (Hi & He & _) Hn Hb Hlen. unfold map_job.
  rewrite (wrap_s_small 64 (prevheight + n + 1)) by (change (64 - 1) with 63; lia).
  rewrite (wrap_s_small 64 (prevheight + (e - 1) + 1)) by (change (64 - 1) with 63; lia).
  replace (prevheight + 1 + n) with (prevheight + n + 1) by lia.
  destruct (blockMapf (prevheight + n + 1)) as [m|m|] eqn:Em; [|done..]. apply blockMapf_height in Em.
  cbn [mbind res_bind].
  rewrite (IsValidMaps_put (ch_lastprev s) (prevheight + 1 + i) (Z.to_nat (n - i)) m) by (done || lia).
  change (link Some first_map) with link_maps.
  destruct (put_slot _ _ _ _ _) as [sl|er|]; [|done..]. cbn [mbind res_bind].
  destruct (callback m) as [[]|er|]; [|done..]. cbn [mbind res_bind]. do 2 f_equal.
  destruct (Z.eqb_spec (bm_height m) (prevheight + (e - 1) + 1)), (Z.eqb_spec n (e - 1)); done || lia.
Qed.

(** The maps of a range are accepted exactly when each of them refers to the
    one before, whatever the order the others send them in. *)
Theorem BatchIsValidMaps_chain prev to limit :
  match prev with None => True | Some p => 0 <= bm_height p end ->
  let prevheight := match prev with Some p => bm_height p | None => NilHeight end in
  prevheight < to < 2 ^ 63 - 1 -> 1 <= limit < 2 ^ 63 ->
  BatchIsValidMaps sched blockMapf callback prev to limit = Ok tt <->
  exists ms, length ms = Z.to_nat (to - prevheight) /\
    (forall k m, ms !! k = Some m ->
       blockMapf (prevheight + 1 + Z.of_nat k) = Ok m /\ callback m = Ok tt) /\
    (forall p m, prev = Some p -> ms !! 0%nat = Some m -> follows m p) /\
    (forall k p m, ms !! k = Some p -> ms !! S k = Some m -> follows m p).
Proof.
  intros Hprev prevheight Hto Hlim.
  assert (-1 <= prevheight) as Hp by (unfold prevheight, NilHeight; destruct prev; lia).
  set (size := to - prevheight).
  destruct (chain_work Some first_map (fun n => blockMapf (prevheight + 1 + n)) callback
    (fun p i => before p (prevheight + 1 + i)) sched sched_perm size limit
    (fun last => next_batch last limit) (map_job blockMapf callback prevheight)) with
    (s := (Build_chain_state [] None prev : batch_maps)) as [Hsound Hcompl].
  { lia. }
  { intros i e s Hb. apply (next_batch_slots size); [done|lia|done]. }
  { intros i e n s Hb Hn Hbf Hlen. by apply (map_job_slot _ size limit i); [|lia|..]. }
  { intros n m Hn Hm%blockMapf_height. simpl. lia. }
  { lia. }
  { unfold before, prevheight, NilHeight; destruct prev; simpl; lia. }
  unfold BatchIsValidMaps. fold prevheight. rewrite wrap_s_small by (change (64 - 1) with 63; lia). fold size.
  split.
  - intros (s' & Hr & _)%bind_ok. apply Hsound in Hr as (ms & Hlen & [Hg [Hf Hl]] & _). exists ms.
    split_and!; [done|done| |].
    + intros p m Hpe Hm. apply IsValidManifests_ok. apply Hf in Hm. cbn [ch_newprev] in Hm. by rewrite Hpe in Hm.
    + intros k p m Hk Hm. apply IsValidManifests_ok. by eapply Hl.
  - intros (ms & Hlen & Hg & Hf & Hl). apply bind_ok. destruct (Hcompl ms) as [s' Hs]; [done| |by exists s'].
    split; [done|]. split.
    + intros m Hm. cbn [ch_newprev]. destruct prev as [p|]; [|done]. apply IsValidManifests_ok. by apply Hf.
    + intros k a b Ha Hb'. apply IsValidManifests_ok. by eapply Hl.
Qed.
End batches.

(** ** What is signed *)
Lemma merge_sort_perm (l1 l2 : list string) : l1 ≡ₚ l2 -> merge_sort String.le l1 = merge_sort String.le l2.
Proof.
  intros Hp. apply (StronglySorted_unique String.le).
  - apply StronglySorted_merge_sort; apply _.
  - apply StronglySorted_merge_sort; apply _.
  - by rewrite !merge_sort_Permutation.
Qed.

(** What a key pair promises. *)
Class BlockCryptoLaws `{BlockCrypto} := {
  verify_sign priv b sig : priv_Sign priv b = Ok sig -> key_Verify (priv_Publickey priv) b sig = Ok tt;
  sign_valid priv b sig :
    priv_Sign priv b = Ok sig -> key_IsValid (priv_Publickey priv) = Ok tt /\ signature_IsValid sig = Ok tt
}.

Section signed.
Context `{Crypto, BlockCryptoLaws}.

(** A block map signed by a node is valid for everybody else. *)
Theorem BlockMap_Sign_valid node priv networkID now m m' :
  BlockMap_Sign node priv networkID now m = Ok m' -> address_IsValid node = Ok tt ->
  Manifest_IsValid (bm_manifest m) = Ok tt -> checkItems m = Ok tt ->
  Forall (fun i => BlockMapItem_IsValid i = Ok tt) (BlockMap_Items m) ->
  BlockMap_IsValid networkID m' = Ok tt /\ bm_manifest m' = bm_manifest m /\ bm_items m' = bm_items m.
Proof.
  intros Hs Hn Hm Hc Hi. unfold BlockMap_Sign, NewBaseNodeSignFromBytes, NewBaseSignFromBytes in Hs.
  apply bind_ok in Hs as (si & (p & Hs & Hp)%bind_ok & [= <-]).
  apply bind_ok in Hs as (sig & Hs & [= <-]). simplify_eq.
  destruct (sign_valid _ _ _ Hs) as [Hk Hsig]. apply verify_sign in Hs.
  split; [|done]. unfold BlockMap_IsValid, BaseNodeSign_IsValid, BaseSign_IsValid. cbn [bm_manifest bm_sign bs_node].
  assert (check_all (BlockMapItem_IsValid <$> BlockMap_Items m) = Ok tt) as Hall.
  { apply check_all_ok, Forall_fmap. done. }
  simpl. rewrite Hm, Hn. simpl. rewrite Hk, Hsig. simpl.
  match goal with |- context [checkItems ?x] => change (checkItems x) with (checkItems m) end. rewrite Hc. simpl.
  match goal with |- context [BlockMap_Items ?x] => change (BlockMap_Items x) with (BlockMap_Items m) end.
  rewrite Hall. simpl. exact Hs.
Qed.

(** The types of the items are not signed: checksums moved between the items
    of a block map leave it valid, with the signature it has. *)
Theorem BlockMap_types_unsigned networkID m items :
  BlockMap_IsValid networkID m = Ok tt ->
  let m' := {| bm_manifest := bm_manifest m; bm_items := items; bm_sign := bm_sign m |} in
  (bi_checksum <$> BlockMap_Items m') ≡ₚ (bi_checksum <$> BlockMap_Items m) ->
  checkItems m' = Ok tt -> Forall (fun i => BlockMapItem_IsValid i = Ok tt) (BlockMap_Items m') ->
  BlockMap_IsValid networkID m' = Ok tt.
Proof.
  intros Hv m' Hp Hc Hi. revert Hv. unfold BlockMap_IsValid.
  assert (signedBytes m' = signedBytes m) as ->.
  { unfold signedBytes. by rewrite (merge_sort_perm _ _ Hp). }
  cbn [bm_manifest bm_sign m']. intros [-> [_ [_ Hv]%bind_err_ok]%bind_err_ok]%bind_err_ok.
  cbn [mbind res_bind]. fold m'. rewrite Hc. cbn [mbind res_bind].
  assert (check_all (BlockMapItem_IsValid <$> BlockMap_Items m') = Ok tt) as -> by (by apply check_all_ok, Forall_fmap).
  exact Hv.
Qed.

(** The hash of a manifest is not checked: with any other hash it is valid. *)
Lemma Manifest_hash_unchecked m h :
  Manifest_IsValid {| mf_hash := h; mf_height := mf_height m; mf_previous := mf_previous m;
    mf_proposal := mf_proposal m; mf_operationsTree := mf_operationsTree m; mf_statesTree := mf_statesTree m;
    mf_suffrage := mf_suffrage m; mf_proposedAt := mf_proposedAt m |} = Manifest_IsValid m.
Proof. done. Qed.
End signed.

(** The operations of a block can be left out: an empty tree with no
    operations goes with every manifest, also one that has an operations tree. *)
Lemma stripped_operations `{BlockCrypto, TreeHash} sched m f :
  IsValidOperationsOfBlock sched [] [] m f = Ok tt /\ IsValidStatesOfBlock sched [] [] m (fun _ => Ok tt) = Ok tt.
Proof. done. Qed.

(** ** Trees and operations *)
Lemma Traverse_all nodes f k :
  Traverse k nodes f = Ok tt ->
  Forall (fun n => exists i b, n = Some b /\ f i b = Ok tt) nodes.
Proof.
  revert k. induction nodes as [|[n|] nodes IH]; intros k Ht; [constructor| |done].
  simpl in Ht. apply bind_err_ok in Ht as [Hf Ht]. constructor; [eauto|by eapply IH].
Qed.

Definition tree_operations `{BlockCrypto} (tr : list FixedTree.Node) : list Hash :=
  (fun n => match n with Some b => (ParseTreeNodeOperationKey (n_key b)).1 | None => "" end) <$> tr.

(** A tree accepted with operations has exactly these operations, when it has
    none twice, and the root that the manifest names. *)
Theorem operations_of_tree `{BlockCrypto} tr ops m :
  IsValidOperationsTreeWithManifest tr ops m = Ok tt -> ops <> [] -> NoDup (tree_operations tr) ->
  tree_operations tr ≡ₚ ops /\ exists r, Tree_Root tr = Ok (Some r) /\ mf_operationsTree m = Some r.
Proof.
  intros Hv Hne Hnd. unfold IsValidOperationsTreeWithManifest in Hv.
  destruct (Nat.eqb_spec (length tr) (length ops)) as [Hlen|]; [cbn [negb] in Hv|done].
  destruct (length ops <? 1)%nat eqn:E; [apply Nat.ltb_lt in E; by destruct ops; [|simpl in E; lia]|].
  destruct (IsDuplicatedSlice ops _) eqn:Ed; [done|]. apply bind_err_ok in Hv as [Ht Hv].
  apply dup_loop_spec in Ed as [Hndo _]. rewrite list_fmap_id in Hndo.
  assert (tree_operations tr ⊆ ops) as Hsub.
  { intros h (n & -> & Hn)%list_elem_of_fmap. eapply Forall_forall in Hn; [|by eapply Traverse_all].
    destruct Hn as (i & b & -> & Hb). rewrite guard_err_ok, negb_false_iff, bool_decide_eq_true in Hb. done. }
  split.
  - apply submseteq_length_Permutation; [by apply NoDup_submseteq|]. unfold tree_operations. rewrite length_fmap. lia.
  - unfold Root_Equal in Hv. apply bind_ok in Hv as (eq & (r & Hr & He)%bind_ok & Hg).
    rewrite guard_err_ok, negb_false_iff in Hg. subst eq. destruct r as [r|]; simpl in He; [|done].
    exists r. split; [done|]. destruct (mf_operationsTree m) as [h|]; [|done].
    injection He as He. apply bool_decide_eq_true in He. by subst.
Qed.

(** ** Concrete data *)
Definition demo_block_crypto : BlockCrypto := {|
  Privatekey := string;
  priv_Publickey := fun k => k;
  priv_Sign := fun k b => Ok (k +:+ "/" +:+ b);
  key_Verify := fun k b s => guard_err (negb (bool_decide (s = k +:+ "/" +:+ b))) "wrong signature";
  key_IsValid := fun _ => Ok tt;
  signature_IsValid := fun _ => Ok tt;
  address_bytes := fun a => a;
  height_bytes := fun h => pretty h;
  time_bytes := fun t => match t with Some t => pretty t | None => "" end;
  new_sha256 := fun s => s;
  parse_hash := fun s => s
|}.
#[global] Instance demo_block_crypto_laws : @BlockCryptoLaws demo_block_crypto.
Proof.
  split; [|done]. intros priv b sig. simpl. intros [= <-]. by rewrite bool_decide_true.
Qed.

Definition demo_manifest (h : Z) : Manifest :=
  {| mf_hash := Some ("m" +:+ pretty h); mf_height := h; mf_previous := Some ("m" +:+ pretty (h - 1));
     mf_proposal := Some "pr"; mf_operationsTree := None; mf_statesTree := None; mf_suffrage := None;
     mf_proposedAt := Some 7 |}.
Definition demo_items : gmap BlockItemType BlockMapItem :=
  {[ BlockItemProposal := {| bi_t := BlockItemProposal; bi_checksum := "c0" |};
     BlockItemVoteproofs := {| bi_t := BlockItemVoteproofs; bi_checksum := "c1" |} ]}.
Definition demo_unsigned (h : Z) : BlockMap :=
  {| bm_manifest := demo_manifest h; bm_items := demo_items;
     bm_sign := {| bs_node := ""; bs_signer := ""; bs_signature := ""; bs_signedAt := None |} |}.
Definition demo_map (h : Z) : BlockMap :=
  match @BlockMap_Sign demo_crypto demo_block_crypto "n0" "k0" "net" 9 (demo_unsigned h) with
  | Ok m => m | _ => demo_unsigned h
  end.
Definition demo_fetch (h : Z) : res BlockMap := Ok (demo_map h).

Lemma BatchIsValidMaps_chain_witness :
  BatchIsValidMaps (@rev Z) demo_fetch (fun _ => Ok tt) (Some (demo_map 0)) 5 2 = Ok tt /\
  exists ms, length ms = 5%nat /\ forall k p m, ms !! k = Some p -> ms !! S k = Some m -> follows m p.
Proof.
  pose proof (BatchIsValidMaps_chain (@rev Z) (fun l => symmetry (Permutation_rev l)) demo_fetch (fun _ => Ok tt)
    ltac:(by intros h m [= <-]) (Some (demo_map 0)) 5 2
    ltac:(vm_compute; done) ltac:(vm_compute; done) ltac:(lia)) as H.
  assert (BatchIsValidMaps (@rev Z) demo_fetch (fun _ => Ok tt) (Some (demo_map 0)) 5 2 = Ok tt) as Hb
    by (vm_compute; reflexivity).
  split; [exact Hb|]. apply H in Hb as (ms & Hlen & _ & _ & Hl). by exists ms.
Defined.

(** A remote that answers every height with the same block map: the slots of the
    other heights stay empty, and the range is accepted. *)
Lemma batch_gap :
  BatchIsValidMaps (fun l => l) (fun _ => Ok (demo_map 1)) (fun _ => Ok tt) (Some (demo_map 0)) 5 333 = Ok tt.
Proof. vm_compute. reflexivity. Qed.

#[local] Existing Instance demo_crypto.
#[local] Existing Instance demo_block_crypto.

Lemma BlockMap_Sign_valid_witness :
  BlockMap_Sign "n0" ("k0" : @Privatekey demo_block_crypto) "net" 9 (demo_unsigned 3) = Ok (demo_map 3) /\
  BlockMap_IsValid "net" (demo_map 3) = Ok tt.
Proof.
  assert (BlockMap_Sign "n0" ("k0" : @Privatekey demo_block_crypto) "net" 9 (demo_unsigned 3) = Ok (demo_map 3)) as Hs by (vm_compute; reflexivity).
  assert (Manifest_IsValid (bm_manifest (demo_unsigned 3)) = Ok tt) as Hm by (vm_compute; reflexivity).
  assert (checkItems (demo_unsigned 3) = Ok tt) as Hc by (vm_compute; reflexivity).
  assert (Forall (fun i => BlockMapItem_IsValid i = Ok tt) (BlockMap_Items (demo_unsigned 3))) as Hi
    by (vm_compute; repeat constructor).
  exact (conj Hs (proj1 (BlockMap_Sign_valid _ _ _ _ _ _ Hs eq_refl Hm Hc Hi))).
Defined.

(** The checksums of the proposal and of the voteproofs, swapped. *)
Definition demo_swapped : gmap BlockItemType BlockMapItem :=
  {[ BlockItemProposal := {| bi_t := BlockItemProposal; bi_checksum := "c1" |};
     BlockItemVoteproofs := {| bi_t := BlockItemVoteproofs; bi_checksum := "c0" |} ]}.

Lemma BlockMap_types_unsigned_witness :
  bm_items (demo_map 3) <> demo_swapped /\
  BlockMap_IsValid "net"
    {| bm_manifest := bm_manifest (demo_map 3); bm_items := demo_swapped; bm_sign := bm_sign (demo_map 3) |} = Ok tt.
Proof.
  assert (BlockMap_IsValid "net" (demo_map 3) = Ok tt) as Hv by (vm_compute; reflexivity).
  set (m' := {| bm_manifest := bm_manifest (demo_map 3); bm_items := demo_swapped; bm_sign := bm_sign (demo_map 3) |}).
  assert ((bi_checksum <$> BlockMap_Items m') ≡ₚ (bi_checksum <$> BlockMap_Items (demo_map 3))) as Hp
    by (vm_compute; apply perm_swap).
  assert (checkItems m' = Ok tt) as Hc by (vm_compute; reflexivity).
  assert (Forall (fun i => BlockMapItem_IsValid i = Ok tt) (BlockMap_Items m')) as Hi by (vm_compute; repeat constructor).
  split; [vm_compute; discriminate|]. exact (BlockMap_types_unsigned "net" (demo_map 3) demo_swapped Hv Hp Hc Hi).
Defined.

Definition demo_op_tree : list FixedTree.Node :=
  [ Some {| n_h := Some "root"; n_key := "op1-"; n_isempty := false |};
    Some {| n_h := Some "leaf"; n_key := "op0"; n_isempty := false |} ].
Definition demo_op_manifest : Manifest :=
  {| mf_hash := None; mf_height := 3; mf_previous := None; mf_proposal := None; mf_operationsTree := Some "root";
     mf_statesTree := None; mf_suffrage := None; mf_proposedAt := None |}.

Lemma operations_of_tree_witness : tree_operations demo_op_tree ≡ₚ ["op0"; "op1"].
Proof.
  apply (operations_of_tree demo_op_tree ["op0"; "op1"] demo_op_manifest); [vm_compute; reflexivity|done|].
  vm_compute. repeat constructor; set_solver.
Defined.
