(* ===== verification/State.v ===== *)
(** * States and how the operations of a block merge into them

    [base/state.go], [base/base_state.go], [isaac/block/states_merger.go].

    A state is a value under a key, with the hash of the state it replaces and the
    operations that made it.  While a block is processed every operation hands in
    the values it writes, from workers that run at once; the merger of a key keeps
    the value and the operations until the states are closed.  [V] are the state
    values, reached through [StateValue]. *)
From S2P Require Import Prelude FixedTree Point Vote Slice Ballot Voteproof Batch Block.

Open Scope Z_scope.

Class StateValue (V : Type) := {
  value_HashBytes : V -> string;
  value_IsValid : V -> err
}.

(** ** States ([base/base_state.go]) *)
Record BaseState (V : Type) := {
  s_h : option Hash;
  s_previous : option Hash;
  s_v : option V;
  s_k : string;
  s_ops : list (option Hash);
  s_height : Z
}.
Arguments s_h {V} _.
Arguments s_previous {V} _.
Arguments s_v {V} _.
Arguments s_k {V} _.
Arguments s_ops {V} _.
Arguments s_height {V} _.
Arguments Build_BaseState {V} _ _ _ _ _ _.

Section state.
Context `{Crypto, BlockCrypto} {V : Type} `{StateValue V}.
Implicit Types (s : BaseState V).

(** The height is not hashed. *)
Definition State_generateHash (previous : option Hash) (k : string) (v : option V) (ops : list (option Hash)) : Hash :=
  new_sha256 (ConcatByters
    [ hash_bytes <$> previous; Some k; value_HashBytes <$> v;
      Some (ConcatBytesSlice ((fun o => match o with Some h => hash_bytes h | None => "" end) <$> ops)) ]).

Definition NewBaseState (height : Z) (k : string) (v : option V) (previous : option Hash) (ops : list (option Hash))
    : BaseState V :=
  {| s_h := Some (State_generateHash previous k v ops); s_previous := previous; s_v := v; s_k := k; s_ops := ops;
     s_height := height |}.

Definition BaseState_IsValid s : err :=
  check_all ([ opt_IsValid false (s_h s); Height_IsValid (s_height s);
               guard_err (String.length (s_k s) <? 1)%nat "empty state key";
               match s_v s with None => Err "nil found" | Some v => value_IsValid v end ]
             ++ (opt_IsValid false <$> s_ops s)) ≫= fun _ =>
  match s_previous s with None => Ok tt | Some p => Hash_IsValid p end ≫= fun _ =>
  Hash_eq (s_h s) (Some (State_generateHash (s_previous s) (s_k s) (s_v s) (s_ops s))) ≫= fun eq =>
  guard_err (negb eq) "wrong hash".

Definition IsEqualStateValue (a b : option V) : bool :=
  match a, b with Some a, Some b => bool_decide (value_HashBytes a = value_HashBytes b) | _, _ => false end.
Fixpoint ops_equal (a b : list (option Hash)) : res bool :=
  match a, b with
  | x :: a, y :: b => Hash_eq x y ≫= fun b0 : bool => if b0 then ops_equal a b else Ok false
  | _, _ => Ok true
  end.
Definition IsEqualState (a b : option (BaseState V)) : res bool :=
  match a, b with
  | Some a, Some b =>
      Hash_eq (s_h a) (s_h b) ≫= fun eq =>
      if negb eq then Ok false
      else if negb (bool_decide (s_k a = s_k b)) then Ok false
      else if negb (s_height a =? s_height b) then Ok false
      else if negb (IsEqualStateValue (s_v a) (s_v b)) then Ok false
      else if negb (length (s_ops a) =? length (s_ops b))%nat then Ok false
      else ops_equal (s_ops a) (s_ops b)
  | _, _ => Ok false
  end.
End state.

(** ** The merger of a key *)
Record StateValueMerger (V : Type) := {
  mg_st : option (BaseState V);
  mg_value : option V;
  mg_key : string;
  mg_ops : list Hash;
  mg_height : Z
}.
Arguments mg_st {V} _.
Arguments mg_value {V} _.
Arguments mg_key {V} _.
Arguments mg_ops {V} _.
Arguments mg_height {V} _.
Arguments Build_StateValueMerger {V} _ _ _ _ _.

Section merger.
Context `{Crypto, BlockCrypto} {V : Type} `{StateValue V}.
Implicit Types (s : StateValueMerger V).

(** [NewBaseStateValueMerger]: whatever is left in the pooled merger is reset. *)
Definition NewBaseStateValueMerger (height : Z) (key : string) (st : option (BaseState V)) : StateValueMerger V :=
  {| mg_st := st; mg_value := None; mg_key := match st with Some st => s_k st | None => key end; mg_ops := [];
     mg_height := height |}.
Definition defaultMerger (key : string) (height : Z) (st : option (BaseState V)) : StateValueMerger V :=
  let nst := match st with Some st => st | None => NewBaseState NilHeight key None None [] end in
  NewBaseStateValueMerger height (s_k nst) (Some nst).

Definition addOperation (op : Hash) s : StateValueMerger V :=
  if bool_decide (op ∈ mg_ops s) then s
  else {| mg_st := mg_st s; mg_value := mg_value s; mg_key := mg_key s; mg_ops := mg_ops s ++ [op];
          mg_height := mg_height s |}.
Definition SetValue (v : option V) s : StateValueMerger V :=
  {| mg_st := mg_st s; mg_value := v; mg_key := mg_key s; mg_ops := mg_ops s; mg_height := mg_height s |}.
Definition Merger_Merge (v : option V) (op : Hash) s : StateValueMerger V := addOperation op (SetValue v s).

(** [CloseValue]: no state without a value and an operation; a state that is there
    has a hash. *)
Definition CloseValue s : option (BaseState V) :=
  match mg_value s, mg_ops s with
  | Some v, _ :: _ =>
      Some (NewBaseState (mg_height s) (mg_key s) (Some v) (mg_st s ≫= s_h)
              (Some <$> merge_sort String.le (mg_ops s)))
  | _, _ => None
  end.

(** ** All the states of a block ([isaac/block/states_merger.go]) *)
Record merge_value := { mv_key : string; mv_value : V }.
Record DefaultStatesMerger := { sm_height : Z; sm_stvmmap : gmap string (StateValueMerger V) }.
Variable getStateFunc : string -> res (option (BaseState V)).

(** A value that comes with the default merger; those of the suffrage have their
    own. *)
Definition setState (stvm : merge_value) (operation : Hash) (sm : DefaultStatesMerger) : res DefaultStatesMerger :=
  match sm_stvmmap sm !! mv_key stvm with
  | Some i => Ok i
  | None =>
      getStateFunc (mv_key stvm) ≫= fun st => Ok (defaultMerger (mv_key stvm) (sm_height sm) st)
  end ≫= fun i =>
  Ok {| sm_height := sm_height sm;
        sm_stvmmap := <[mv_key stvm := Merger_Merge (Some (mv_value stvm)) operation i]> (sm_stvmmap sm) |}.
Definition SetStates (stvms : list merge_value) (operation : Hash) (sm : DefaultStatesMerger) : res DefaultStatesMerger :=
  fold_res (fun stvm => setState stvm operation) stvms sm.

Definition sortStateKeys (sm : DefaultStatesMerger) : list string :=
  merge_sort String.le (map_to_list (sm_stvmmap sm)).*1.
(** [CloseStates]: the number of keys, and the new states with their index, as
    [oneState] gets them whatever the order. *)
Definition CloseStates (sm : DefaultStatesMerger) : nat * list (nat * BaseState V) :=
  let keys := sortStateKeys sm in
  (length keys,
   omap (fun '(i, k) => pair i <$> (sm_stvmmap sm !! k ≫= CloseValue)) (imap pair keys)).
End merger.
Arguments merge_value : clear implicits.
Arguments DefaultStatesMerger : clear implicits.

(** ** The order of the operations *)
Section order.
Context `{Crypto, BlockCrypto} {V : Type} `{StateValue V}.
Variable getStateFunc : string -> res (option (BaseState V)).

Definition set_one (c : merge_value V * Hash) : DefaultStatesMerger V -> res (DefaultStatesMerger V) :=
  setState getStateFunc c.1 c.2.
(** The values and the operations handed in for a key. *)
Definition wrote (cs : list (merge_value V * Hash)) (k : string) (v : V) (op : Hash) : Prop :=
  ({| mv_key := k; mv_value := v |}, op) ∈ cs.

(** Two mergers that close to the same state. *)
Definition same_merger (a b : StateValueMerger V) : Prop :=
  mg_st a = mg_st b /\ mg_value a = mg_value b /\ mg_key a = mg_key b /\ mg_ops a ≡ₚ mg_ops b /\
  mg_height a = mg_height b.

Lemma merge_sort_eq (l1 l2 : list Hash) : l1 ≡ₚ l2 -> merge_sort String.le l1 = merge_sort String.le l2.
Proof. apply merge_sort_perm. Qed.

Lemma CloseValue_same a b : same_merger a b -> CloseValue a = CloseValue b.
Proof.
  intros (Hst & Hv & Hk & Ho & Hh). unfold CloseValue. rewrite Hst, Hv, Hk, Hh.
  rewrite (merge_sort_eq _ _ Ho). destruct (mg_value b); [|done].
  destruct (mg_ops a), (mg_ops b); try done; by apply Permutation_length in Ho.
Qed.

(** What the map holds after some calls. *)
Definition holds_calls (height : Z) (cs : list (merge_value V * Hash)) (sm : DefaultStatesMerger V) : Prop :=
  sm_height sm = height /\
  forall k, match sm_stvmmap sm !! k with
  | None => forall v op, ~ wrote cs k v op
  | Some mg =>
      (exists st, getStateFunc k = Ok st /\ let d := defaultMerger k height st in
        mg_st mg = mg_st d /\ mg_key mg = mg_key d /\ mg_height mg = height) /\
      (exists v op, mg_value mg = Some v /\ wrote cs k v op) /\
      NoDup (mg_ops mg) /\ (forall op, op ∈ mg_ops mg <-> exists v, wrote cs k v op)
  end.

Lemma addOperation_ops op (s : StateValueMerger V) :
  NoDup (mg_ops s) -> NoDup (mg_ops (addOperation op s)) /\
  forall o, o ∈ mg_ops (addOperation op s) <-> o = op \/ o ∈ mg_ops s.
Proof.
  intros Hnd. unfold addOperation. case_bool_decide as Hin; [split; [done|]; naive_solver|]. simpl. split.
  - apply NoDup_app. split_and!; [done|set_solver|apply NoDup_singleton].
  - intros o. rewrite elem_of_app, list_elem_of_singleton. naive_solver.
Qed.

Lemma set_one_holds height cs c sm sm' :
  holds_calls height cs sm -> set_one c sm = Ok sm' -> holds_calls height (cs ++ [c]) sm'.
Proof.
  intros [Hh Hm]. destruct c as [[k v] op]. unfold set_one, setState. cbn [fst snd mv_key mv_value].
  intros (mg & Hmg & [= <-])%bind_ok. split; [done|]. cbn [sm_stvmmap]. intros k'.
  assert (forall k' v' op', wrote (cs ++ [({| mv_key := k; mv_value := v |}, op)]) k' v' op' <->
    wrote cs k' v' op' \/ (k' = k /\ v' = v /\ op' = op)) as Hw.
  { intros. unfold wrote. rewrite elem_of_app, list_elem_of_singleton. naive_solver. }
  specialize (Hm k'). destruct (decide (k' = k)) as [->|Hne].
  - rewrite lookup_insert_eq.
    assert ((exists st, getStateFunc k = Ok st /\ let d := defaultMerger k height st in
        mg_st mg = mg_st d /\ mg_key mg = mg_key d /\ mg_height mg = height) /\
      NoDup (mg_ops mg) /\ (forall op, op ∈ mg_ops mg <-> exists v, wrote cs k v op)) as (Hd & Hnd & Ho).
    { destruct (sm_stvmmap sm !! k) as [i|]; [simplify_eq; naive_solver|].
      apply bind_ok in Hmg as (st & Hst & [= <-]). rewrite Hh. split; [by exists st|].
      split; [constructor|]. intros o. simpl. split; [by intros ?%not_elem_of_nil|intros [? ?]; by edestruct Hm]. }
    destruct (addOperation_ops op (SetValue (Some v) mg) Hnd) as [Hnd' Ho'].
    assert (let mg' := Merger_Merge (Some v) op mg in
      mg_st mg' = mg_st mg /\ mg_key mg' = mg_key mg /\ mg_height mg' = mg_height mg /\ mg_value mg' = Some v)
      as (-> & -> & -> & ->).
    { unfold Merger_Merge, addOperation. by destruct (bool_decide _). }
    split_and!; [done|exists v, op; rewrite Hw; naive_solver|done|].
    intros o. unfold Merger_Merge. rewrite Ho'. simpl. rewrite Ho. setoid_rewrite Hw. naive_solver.
  - rewrite lookup_insert_ne by done. destruct (sm_stvmmap sm !! k') as [i|]; [|naive_solver].
    destruct Hm as (? & (v' & op' & ? & ?) & ? & Ho). split_and!; [done|exists v', op'; naive_solver|done|].
    intros o. rewrite Ho. setoid_rewrite Hw. naive_solver.
Qed.

Lemma set_all_succeeds cs sm :
  (forall c, c ∈ cs -> exists st, getStateFunc (mv_key c.1) = Ok st) -> exists sm', fold_res set_one cs sm = Ok sm'.
Proof.
  revert sm. induction cs as [|c cs IH]; intros sm Hg; [by eexists|].
  destruct (Hg c) as [st Hst]; [set_solver|].
  assert (exists sm1, set_one c sm = Ok sm1) as [sm1 Hs1].
  { unfold set_one, setState. destruct (sm_stvmmap sm !! mv_key c.1); [by eexists|].
    rewrite Hst. by eexists. }
  cbn [fold_res]. rewrite Hs1. apply IH. intros; apply Hg; set_solver.
Qed.

Lemma CloseStates_same (a b : DefaultStatesMerger V) :
  (forall k, option_Forall2 same_merger (sm_stvmmap a !! k) (sm_stvmmap b !! k)) -> CloseStates a = CloseStates b.
Proof.
  intros Hab. unfold CloseStates.
  assert (sortStateKeys a = sortStateKeys b) as ->.
  { unfold sortStateKeys. apply merge_sort_perm. apply NoDup_Permutation; [apply NoDup_fst_map_to_list..|].
    intros k. rewrite !list_elem_of_fmap. specialize (Hab k).
    split; intros ([k' mg] & -> & Hin%elem_of_map_to_list); simpl in *; rewrite Hin in Hab; inversion Hab; subst;
      eexists (_, _); (split; [reflexivity|]); by apply elem_of_map_to_list. }
  f_equal. induction (imap pair (sortStateKeys b)) as [|[i k] l IH]; [done|]. cbn [omap list_omap].
  assert (sm_stvmmap a !! k ≫= CloseValue = sm_stvmmap b !! k ≫= CloseValue) as ->; [|by rewrite IH].
  specialize (Hab k). inversion Hab as [x y Hs|]; subst; [|done]. simpl. by apply CloseValue_same.
Qed.

(** C34: when operations that write the same key write the same value, the new states of
    a block do not depend on the order in which the operations hand in their values.
    When they write different values it does ([last_value_wins]). *)
Theorem states_order_independent height cs cs' sm :
  cs ≡ₚ cs' -> (forall k v v' op op', wrote cs k v op -> wrote cs k v' op' -> v = v') ->
  fold_res set_one cs {| sm_height := height; sm_stvmmap := ∅ |} = Ok sm ->
  exists sm', fold_res set_one cs' {| sm_height := height; sm_stvmmap := ∅ |} = Ok sm' /\
    CloseStates sm' = CloseStates sm.
Proof.
  intros Hp Hagree Hr.
  assert (forall l sm, fold_res set_one l {| sm_height := height; sm_stvmmap := ∅ |} = Ok sm ->
    holds_calls height l sm) as Hholds.
  { intros l sm0 Hl. eapply (fold_res_ind (holds_calls height)); [| |exact Hl].
    - intros. by eapply set_one_holds.
    - split; [done|]. intros k. cbn [sm_stvmmap]. rewrite lookup_empty. by intros v op ?%not_elem_of_nil. }
  pose proof (Hholds _ _ Hr) as [_ Hm].
  destruct (set_all_succeeds cs' {| sm_height := height; sm_stvmmap := ∅ |}) as [sm' Hr'].
  { intros [[k v] op] Hc. rewrite <- Hp in Hc. specialize (Hm k). simpl.
    destruct (sm_stvmmap sm !! k); [|by edestruct Hm]. naive_solver. }
  exists sm'. split; [done|]. apply Hholds in Hr' as [_ Hm']. apply CloseStates_same. intros k.
  assert (forall v op, wrote cs k v op <-> wrote cs' k v op) as Hw by (intros; unfold wrote; by rewrite Hp).
  specialize (Hm k). specialize (Hm' k).
  destruct (sm_stvmmap sm !! k) as [a|], (sm_stvmmap sm' !! k) as [b|]; [| | |constructor].
  - destruct Hm as ((st & Hst & Ha) & (va & oa & Hva & Hwa) & Hnda & Hoa).
    destruct Hm' as ((st' & Hst' & Hb) & (vb & ob & Hvb & Hwb) & Hndb & Hob).
    rewrite Hst in Hst'. injection Hst' as <-. cbv zeta in Ha, Hb.
    destruct Ha as (Ha1 & Ha2 & Ha3), Hb as (Hb1 & Hb2 & Hb3).
    constructor. split_and!; [congruence| |congruence| |congruence].
    + rewrite Hva, Hvb. f_equal. apply Hw in Hwb. by eapply Hagree.
    + apply NoDup_Permutation; [done..|]. intros o. rewrite Hoa, Hob. by setoid_rewrite Hw.
  - destruct Hm as (_ & (v & op & _ & Hwa) & _). apply Hw in Hwa. by edestruct Hm'.
  - destruct Hm' as (_ & (v & op & _ & Hwb) & _). apply Hw in Hwb. by edestruct Hm.
Qed.
End order.

(** ** Concrete data *)
#[local] Existing Instance demo_crypto.
#[local] Existing Instance demo_block_crypto.
#[global] Instance demo_value : StateValue string :=
  {| value_HashBytes := fun v => v; value_IsValid := fun _ => Ok tt |}.

Definition demo_get (k : string) : res (option (BaseState string)) :=
  Ok (if bool_decide (k = "a")%string then Some (NewBaseState 6 "a" (Some "v0"%string) None [Some "op0"%string]) else None).
Definition demo_call (k v op : string) : merge_value string * Hash := ({| mv_key := k; mv_value := v |}, op).
Definition demo_calls : list (merge_value string * Hash) :=
  [demo_call "a" "v" "op2"; demo_call "b" "w" "op1"; demo_call "a" "v" "op1"; demo_call "a" "v" "op2"].
Definition demo_close (cs : list (merge_value string * Hash)) : option (nat * list (nat * BaseState string)) :=
  match fold_res (set_one demo_get) cs {| sm_height := 7; sm_stvmmap := ∅ |} with
  | Ok sm => Some (CloseStates sm) | _ => None
  end.

Lemma states_order_independent_witness :
  exists sm', fold_res (set_one demo_get) (rev demo_calls) {| sm_height := 7; sm_stvmmap := ∅ |} = Ok sm' /\
    Some (CloseStates sm') = demo_close demo_calls /\ length (CloseStates sm').2 = 2%nat.
Proof.
  destruct (states_order_independent demo_get 7 demo_calls (rev demo_calls)
    (match fold_res (set_one demo_get) demo_calls {| sm_height := 7; sm_stvmmap := ∅ |} with
     | Ok sm => sm | _ => {| sm_height := 7; sm_stvmmap := ∅ |} end)) as (sm' & Hr & Hc).
  - apply Permutation_rev.
  - intros k v v' op op'. unfold wrote, demo_calls, demo_call. rewrite !list_elem_of_In. simpl.
    intros Hv Hv'. repeat destruct Hv as [Hv|Hv]; repeat destruct Hv' as [Hv'|Hv']; simplify_eq; try done.
  - vm_compute. reflexivity.
  - exists sm'. split; [exact Hr|]. rewrite Hc. split; vm_compute; reflexivity.
Defined.

(** Two operations that write different values to a key: the last one wins, so the
    state depends on which worker came last. *)
Lemma last_value_wins :
  demo_close [demo_call "a" "v1" "op1"; demo_call "a" "v2" "op2"] <>
  demo_close [demo_call "a" "v2" "op2"; demo_call "a" "v1" "op1"].
Proof. vm_compute. discriminate. Qed.

(** The comment of [State] says that the hash covers the height; it does not. *)
Lemma state_hash_ignores_height h h' k v p ops :
  s_h (NewBaseState (V := string) h k v p ops) = s_h (NewBaseState h' k v p ops).
Proof. done. Qed.
