(* ===== verification/SuffrageProof.v ===== *)
(** * Suffrage proofs and the history of suffrages a node rebuilds

    [isaac/block/suffrage.go], [isaac/suffrage_builder.go],
    [isaac/last_consensus_nodes_watcher.go].

    A suffrage proof is a block map, the suffrage state of that block and the part
    of the states tree that leads to it.  A node that is behind asks others for the
    proofs of every suffrage since its own, in batches ([Batch]), and proves each
    against the one before; the watcher keeps the last of them to say who the
    consensus nodes are. *)
From S2P Require Import Prelude FixedTree Point Vote Slice Ballot Voteproof SuffrageState Batch Block State.
From stdpp Require Import pretty.

Open Scope Z_scope.

(** The values of states, as far as the code tells them apart. *)
Inductive state_value :=
  | StSuffrage (v : SuffrageNodesStateValue)
  | StCandidates (nodes : list SuffrageCandidateStateValue)
  | StOther (bytes : string).
Abbreviation St := (BaseState state_value).

(** ** Loading ([base/suffrage.go], [isaac/suffrage_state.go]) *)
Definition LoadSuffrageNodesStateValue (st : option St) : res SuffrageNodesStateValue :=
  match st with
  | None => Err "empty state"
  | Some st => match s_v st with
               | None => Err "empty state"
               | Some (StSuffrage v) => Ok v
               | Some _ => Err "expected SuffrageNodesStateValue"
               end
  end.
(** [i, _ := LoadSuffrageNodesStateValue(st); i.Height()]: nothing loaded is a nil
    interface. *)
Definition loaded_height (st : option St) : res Z :=
  match LoadSuffrageNodesStateValue st with Ok v => Ok (ss_height v) | _ => Panic end.
Definition NewSuffrageFromState (st : option St) : res Suffrage :=
  LoadSuffrageNodesStateValue st ≫= fun v => state_Suffrage v.

(** The value is taken from the state before the state is compared with nil. *)
Definition LoadNodesFromSuffrageCandidatesState (st : option St) : res (list SuffrageCandidateStateValue) :=
  match st with
  | None => Panic
  | Some st => match s_v st with
               | Some (StCandidates nodes) => Ok nodes
               | _ => Err "expected SuffrageCandidatesStateValue"
               end
  end.

(** ** Proofs ([isaac/block/suffrage.go]) *)
Record SuffrageProof := { sp_m : BlockMap; sp_st : St; sp_proof : list FixedTree.Node }.

Definition sp_Suffrage (s : SuffrageProof) : res Suffrage := NewSuffrageFromState (Some (sp_st s)).
Definition SuffrageHeight (s : SuffrageProof) : Z :=
  match LoadSuffrageNodesStateValue (Some (sp_st s)) with Ok v => ss_height v | _ => NilHeight end.

(** What the previous state is to a proof above the genesis block. *)
Definition prove_previous (st : St) (previousState : option St) : err :=
  match previousState with
  | None => Panic
  | Some p =>
      if s_height st <=? s_height p then Err "invalid previous state; higher height"
      else
        Hash_eq (s_previous st) (s_h p) ≫= fun eq =>
        if negb eq then Err "not previous state; hash does not match"
        else
          NewSuffrageFromState (Some p) ≫= fun _ =>
          loaded_height (Some p) ≫= fun previous =>
          loaded_height (Some st) ≫= fun current =>
          guard_err (negb (current =? wrap_s 64 (previous + 1))) "invalid previous state value; not +1"
  end.

Section proof.
Context `{Crypto, BlockCrypto, TreeHash, StateValue state_value}.

Definition SuffrageProof_IsValid (networkID : string) (s : SuffrageProof) : err :=
  check_all [ BlockMap_IsValid networkID (sp_m s); BaseState_IsValid (sp_st s); Proof_IsValid (sp_proof s) ] ≫= fun _ =>
  guard_err (negb (s_height (sp_st s) =? bm_height (sp_m s))) "state height does not match with manifest" ≫= fun _ =>
  sp_Suffrage s ≫= fun _ => Ok tt.

Definition SuffrageProof_Prove (s : SuffrageProof) (previousState : option St) : err :=
  (if bm_height (sp_m s) =? GenesisHeight then
     match previousState with
     | Some _ => Err "previous state should be nil for genesis"
     | None => guard_err (negb (s_height (sp_st s) =? GenesisHeight)) "invalid state height; not genesis height"
     end
   else Ok tt) ≫= fun _ =>
  (if bm_height (sp_m s) =? GenesisHeight then Ok tt else prove_previous (sp_st s) previousState) ≫= fun _ =>
  match s_h (sp_st s) with None => Panic | Some h => Prove (sp_proof s) h end.
End proof.

(** ** Building the history ([isaac/suffrage_builder.go]) *)
Section builder.
Context `{Crypto, BlockCrypto, TreeHash, StateValue state_value}.
Variable sched : list Z -> list Z.

Definition batchlimit : Z := 333.

(** What the closures of [buildBatch] share. *)
Definition build_state := chain_state SuffrageProof (option St).

(** The proof goes into its slot; there is no check that the index is not
    negative. *)
Definition prove (proof : SuffrageProof) (proofs : list (option SuffrageProof)) (previous : option St)
    : res (list (option SuffrageProof)) :=
  match previous with None => Ok NilHeight | Some _ => loaded_height previous end ≫= fun prevheight =>
  let index := wrap_s 64 (SuffrageHeight proof - prevheight - 1) in
  if Z.of_nat (length proofs) <=? index then Err "wrong height"
  else if index <? 0 then Panic
  else
    let i := Z.to_nat index in
    let proofs := <[i := Some proof]> proofs in
    (if index =? 0 then SuffrageProof_Prove proof previous else Ok tt) ≫= fun _ =>
    (if 0 <? index then
       match proofs !! (i - 1)%nat with
       | Some (Some p) => SuffrageProof_Prove proof (Some (sp_st p))
       | _ => Ok tt
       end
     else Ok tt) ≫= fun _ =>
    match proofs !! S i with
    | Some (Some n) => SuffrageProof_Prove n (Some (sp_st proof))
    | _ => Ok tt
    end ≫= fun _ =>
    Ok proofs.

Variable getSuffrageProof : Z -> res (option SuffrageProof).

Definition next_proofs (last : Z) (s : build_state) : res build_state :=
  let r := wrap_u 64 (last + 1) `mod` batchlimit in
  Ok (Build_chain_state (replicate (Z.to_nat (if r =? 0 then batchlimit else r)) None) (ch_newprev s) (ch_newprev s)).

Definition build_job (from : Z) (i last : Z) (s : build_state) : res build_state :=
  let height := wrap_s 64 (i + from) in
  getSuffrageProof height ≫= fun found =>
  match found with
  | None => Err "suffrage proof not found"
  | Some proof =>
      prove proof (ch_slots s) (ch_lastprev s) ≫= fun proofs =>
      Ok (Build_chain_state proofs (ch_lastprev s)
            (if wrap_u 64 (SuffrageHeight proof - from) =? last then Some (sp_st proof) else ch_newprev s))
  end.

(** What is returned are the slots of the last batch. *)
Definition buildBatch (localstate last : option St) (from : Z) : res (list (option SuffrageProof)) :=
  loaded_height last ≫= fun lastheight =>
  BatchWork sched (wrap_s 64 (wrap_s 64 (lastheight - from) + 1)) batchlimit next_proofs (build_job from)
    (Build_chain_state [] None localstate) ≫= fun s => Ok (ch_slots s).

(** [lastSuffrageProof] gives the height and the proof, when there is an updated
    one; [lastSuffrageCandidateState] the state and whether it was found. *)
Variables (lastSuffrageProof : res (Z * option SuffrageProof)) (lastSuffrageCandidateState : res (option St * bool)).

Definition is_new (localstate : option St) (proof : SuffrageProof) : res bool :=
  match localstate with
  | None => Ok true
  | Some l =>
      if s_height l <? s_height (sp_st proof) then Ok true
      else loaded_height (Some l) ≫= fun h => Ok (h <? SuffrageHeight proof)
  end.

Definition Build (networkID : string) (localstate : option St)
    : res (Z * list (option SuffrageProof) * option St) :=
  match localstate with
  | None => Ok GenesisHeight
  | Some _ => loaded_height localstate ≫= fun h => Ok (wrap_s 64 (h + 1))
  end ≫= fun fromheight =>
  lastSuffrageProof ≫= fun '(h, updated) =>
  match updated with
  | None =>
      match localstate with
      | None => Ok []
      | Some _ => NewSuffrageFromState localstate ≫= fun _ => Ok []
      end
  | Some proof =>
      SuffrageProof_IsValid networkID proof ≫= fun _ =>
      is_new localstate proof ≫= fun isnew : bool =>
      if isnew then
        buildBatch localstate (Some (sp_st proof)) fromheight ≫= fun ps => Ok (ps ++ [Some proof])
      else Ok []
  end ≫= fun proofs =>
  lastSuffrageCandidateState ≫= fun '(cst, _) => Ok (h, proofs, cst).
End builder.

(** ** Who the consensus nodes are ([isaac/last_consensus_nodes_watcher.go]) *)
Record LastConsensusNodesWatcher := {
  w_lastheight : Z;
  w_last : list SuffrageProof;
  w_lastcandidates : option St
}.
Definition sp_height (p : SuffrageProof) : Z := bm_height (sp_m p).

(** Proofs of [a] go before [newl3] while the suffrage heights are next to each
    other, up to three. *)
Fixpoint join_last (ra newl3 : list SuffrageProof) : list SuffrageProof :=
  match ra, newl3 with
  | j :: ra, h :: _ =>
      if SuffrageHeight h =? wrap_s 64 (SuffrageHeight j + 1) then
        let k := j :: newl3 in
        if (length k =? 3)%nat then k else join_last ra k
      else newl3
  | _, _ => newl3
  end.
Definition compareProofs (a b : list SuffrageProof) : list SuffrageProof :=
  if (length b <? 1)%nat then []
  else
    let nb := match last a with
              | None => b
              | Some t => FilterSlice b (fun i => sp_height t <? sp_height i)
              end in
    if (length nb <? 1)%nat then []
    else if (3 <=? length nb)%nat then drop (length nb - 3) nb
    else join_last (rev a) nb.
Definition isNewCandiates (a b : option St) : bool :=
  match b, a with
  | None, _ => false
  | Some _, None => true
  | Some b, Some a => s_height a <? s_height b
  end.

Section watcher.
(** The last height, proof and candidates of the node's database; the height comes
    also when there is no proof. *)
Variable getFromLocal : res (Z * option (SuffrageProof * option St)).
Implicit Types (u : LastConsensusNodesWatcher) (proofs : list SuffrageProof) (candidates : option St).

Definition NewLastConsensusNodesWatcher : res LastConsensusNodesWatcher :=
  getFromLocal ≫= fun '(height, found) =>
  Ok (match found with
      | None => {| w_lastheight := NilHeight; w_last := []; w_lastcandidates := None |}
      | Some (proof, st) => {| w_lastheight := height; w_last := [proof]; w_lastcandidates := st |}
      end).

Definition loadLast u : res (Z * list SuffrageProof * option St) :=
  getFromLocal ≫= fun '(localheight, found) =>
  let '(proofs, candidates) :=
    match found with
    | None => (w_last u, w_lastcandidates u)
    | Some (localproof, localcandidates) =>
        (if (0 <? length (compareProofs (w_last u) [localproof]))%nat then [localproof] else w_last u,
         if isNewCandiates (w_lastcandidates u) localcandidates then localcandidates else w_lastcandidates u)
    end in
  Ok (if w_lastheight u <? localheight then localheight else w_lastheight u, proofs, candidates).

(** The new watcher, and whether the height and the nodes are new.  The error of
    the local database is dropped. *)
Definition update (height : Z) proofs candidates u : res (LastConsensusNodesWatcher * bool * bool) :=
  match loadLast u with
  | Panic => Panic
  | Err _ => Ok (u, false, false)
  | Ok (lheight, lproofs, lcandidates) =>
      let newl3 := compareProofs lproofs proofs in
      let newproofs := (0 <? length newl3)%nat in
      let newcandidates := isNewCandiates lcandidates candidates in
      Ok ({| w_lastheight := if lheight <? height then height
                             else if w_lastheight u <? lheight then lheight else w_lastheight u;
             w_last := if newproofs then newl3 else lproofs;
             w_lastcandidates := if newcandidates then candidates else lcandidates |},
          lheight <? height, newproofs || newcandidates)
  end.

Definition Watcher_Last u : res (LastConsensusNodesWatcher * option SuffrageProof * option St) :=
  getFromLocal ≫= fun '(height, found) =>
  match found with
  | None => Ok (u, last (w_last u), w_lastcandidates u)
  | Some (p, c) => update height [p] c u ≫= fun '(u, _, _) => Ok (u, last (w_last u), w_lastcandidates u)
  end.

Definition GetSuffrage (height : Z) u : res (option Suffrage) :=
  let proof :=
    if (w_lastheight u <=? NilHeight) || (w_lastheight u <? height) then None
    else if height =? w_lastheight u then last (w_last u)
    else List.find (fun j => sp_height j <=? height) (rev (w_last u)) in
  match proof with
  | None => Ok None
  | Some p => sp_Suffrage p ≫= fun suf => Ok (Some suf)
  end.

(** A round with the remote; what [whenUpdated] gets is the last proof, the new
    one and the new candidates. *)
Definition Watcher_check (getFromRemote : option St -> res (Z * list SuffrageProof * option St)) u
    : res (LastConsensusNodesWatcher * (option SuffrageProof * option SuffrageProof * option St)) :=
  Watcher_Last u ≫= fun '(u, i, _) =>
  getFromRemote (sp_st <$> i) ≫= fun '(height, proofs, candidates) =>
  update height proofs candidates u ≫= fun '(u, _, nodesUpdated) =>
  if negb nodesUpdated then Ok (u, (i, None, None))
  else match last (w_last u) with
       | None => Panic
       | Some p => Ok (u, (i, Some p, w_lastcandidates u))
       end.
End watcher.

Definition IsNodeInLastConsensusNodes (node : Ballot.Node) (proof : option SuffrageProof) (candidatesst : option St)
    : res (option Suffrage * bool) :=
  match proof with
  | None => Ok (None, false)
  | Some p =>
      sp_Suffrage p ≫= fun suf =>
      if Suffrage_ExistsPublickey suf (node_address node) (node_publickey node) then Ok (Some suf, true)
      else match candidatesst with
           | None => Ok (Some suf, false)
           | Some _ => LoadNodesFromSuffrageCandidatesState candidatesst ≫= fun candidates =>
                       Ok (Some suf, InCandidates node candidates)
           end
  end.
Definition IsNodeAddressInLastConsensusNodes (node : Address) (proof : option SuffrageProof) (candidatesst : option St)
    : res (option Suffrage * bool) :=
  match proof with
  | None => Ok (None, false)
  | Some p =>
      sp_Suffrage p ≫= fun suf =>
      if Suffrage_Exists suf node then Ok (Some suf, true)
      else match candidatesst with
           | None => Ok (Some suf, false)
           | Some _ => LoadNodesFromSuffrageCandidatesState candidatesst ≫= fun candidates =>
                       Ok (Some suf, existsb (fun c => bool_decide (cn_address c = node)) candidates)
           end
  end.
Definition Watcher_Exists (getFromLocal : res (Z * option (SuffrageProof * option St))) (node : Ballot.Node)
    (u : LastConsensusNodesWatcher) : res (LastConsensusNodesWatcher * (option Suffrage * bool)) :=
  Watcher_Last getFromLocal u ≫= fun '(u, proof, st) =>
  IsNodeInLastConsensusNodes node proof st ≫= fun r => Ok (u, r).

(** ** What a proof shows *)
Section proved.
Context `{Crypto, BlockCrypto, TreeHash, StateValue state_value}.
Implicit Types (p q : SuffrageProof) (previous : option St).

(** The state of [p] follows the previous one, and its hash is in the tree of the
    proof. *)
Definition next_state (st prev : St) : Prop :=
  s_height prev < s_height st /\
  (exists h, s_previous st = Some h /\ s_h prev = Some h) /\
  is_ok (NewSuffrageFromState (Some prev)) = true /\
  exists v w, LoadSuffrageNodesStateValue (Some prev) = Ok v /\ LoadSuffrageNodesStateValue (Some st) = Ok w /\
    ss_height w = wrap_s 64 (ss_height v + 1).
Definition proved previous p : Prop :=
  (if bm_height (sp_m p) =? GenesisHeight then previous = None /\ s_height (sp_st p) = GenesisHeight
   else exists prev, previous = Some prev /\ next_state (sp_st p) prev) /\
  exists h, s_h (sp_st p) = Some h /\ Prove (sp_proof p) h = Ok tt.

Lemma loaded_height_ok st h :
  loaded_height st = Ok h <-> exists v, LoadSuffrageNodesStateValue st = Ok v /\ ss_height v = h.
Proof. unfold loaded_height. destruct (LoadSuffrageNodesStateValue st); naive_solver. Qed.

Lemma Hash_eq_ok a b : Hash_eq a b = Ok true <-> exists h, a = Some h /\ b = Some h.
Proof.
  unfold Hash_eq. destruct a as [a|]; [|naive_solver]. destruct b as [b|]; [|naive_solver].
  split; [intros [= Hb%bool_decide_eq_true]|intros (h & [= ->] & [= ->]); by rewrite bool_decide_true]. naive_solver.
Qed.

Lemma prove_previous_ok st previous :
  prove_previous st previous = Ok tt <-> exists prev, previous = Some prev /\ next_state st prev.
Proof.
  destruct previous as [p|]; [|by split; [|intros (? & ? & _)]]. unfold prove_previous.
  destruct (Z.leb_spec (s_height st) (s_height p)) as [Hle|Hlt].
  { split; [done|]. intros (? & [= <-] & Hh & _). lia. }
  split.
  - intros ([] & Heq & Hr)%bind_ok; [|done]. apply Hash_eq_ok in Heq. cbn [negb] in Hr.
    apply bind_ok in Hr as (suf & Hs & (v & Hv & (w & Hw & Hg)%bind_ok)%bind_ok).
    apply loaded_height_ok in Hv as (v0 & ? & <-). apply loaded_height_ok in Hw as (w0 & ? & <-).
    rewrite guard_err_ok, negb_false_iff, Z.eqb_eq in Hg. exists p. split; [done|].
    split_and!; [done|done|by rewrite Hs|by exists v0, w0].
  - intros (? & [= <-] & _ & He & Hs & v & w & Hv & Hw & Hh). apply Hash_eq_ok in He. rewrite He. cbn [mbind res_bind negb].
    destruct (NewSuffrageFromState (Some p)) as [suf| |]; [|done..]. cbn [mbind res_bind].
    assert (loaded_height (Some p) = Ok (ss_height v)) as -> by (apply loaded_height_ok; eauto).
    assert (loaded_height (Some st) = Ok (ss_height w)) as -> by (apply loaded_height_ok; eauto).
    cbn [mbind res_bind]. rewrite guard_err_ok, negb_false_iff. by apply Z.eqb_eq.
Qed.

Lemma SuffrageProof_Prove_ok p previous : SuffrageProof_Prove p previous = Ok tt <-> proved previous p.
Proof.
  unfold SuffrageProof_Prove, proved.
  assert (match s_h (sp_st p) with Some h => Prove (sp_proof p) h | None => Panic end = Ok tt <->
    exists h, s_h (sp_st p) = Some h /\ Prove (sp_proof p) h = Ok tt) as Htree.
  { destruct (s_h (sp_st p)); naive_solver. }
  rewrite <- Htree. rewrite !bind_err_ok. destruct (Z.eqb_spec (bm_height (sp_m p)) GenesisHeight) as [E|E].
  - destruct previous as [q|]; [naive_solver|]. rewrite guard_err_ok, negb_false_iff, Z.eqb_eq. naive_solver.
  - rewrite prove_previous_ok. naive_solver.
Qed.
End proved.

(** ** The history, in batches *)
Section history.
Context `{Crypto, BlockCrypto, TreeHash, StateValue state_value}.
Variable sched : list Z -> list Z.
Hypothesis sched_perm : forall l, sched l ≡ₚ l.
Variable getSuffrageProof : Z -> res (option SuffrageProof).
(** A proof comes back for the suffrage height that was asked for. *)
Hypothesis fetched_height : forall h p, getSuffrageProof h = Ok (Some p) -> SuffrageHeight p = h.

(** The proofs of the suffrage heights from [from] on, each after the one before. *)
Definition suffrage_chain (from : Z) (previous : option St) (l : list SuffrageProof) : Prop :=
  (forall k p, l !! k = Some p -> getSuffrageProof (from + Z.of_nat k) = Ok (Some p)) /\
  (forall p, l !! 0%nat = Some p -> proved previous p) /\
  forall k p q, l !! k = Some p -> l !! S k = Some q -> proved (Some (sp_st p)) q.

Definition fetch (n : Z) : res SuffrageProof :=
  getSuffrageProof n ≫= fun found => match found with None => Err "suffrage proof not found" | Some p => Ok p end.
Definition prove_after (previous : option St) (p : SuffrageProof) : err := SuffrageProof_Prove p previous.
Definition state_of (p : SuffrageProof) : option St := Some (sp_st p).
(** The suffrage height before [h] is that of the previous state. *)
Definition before_height (previous : option St) (h : Z) : Prop :=
  0 <= h /\ match previous with None => h = 0 | Some _ => loaded_height previous = Ok (h - 1) end.

Lemma fetch_ok n p : fetch n = Ok p <-> getSuffrageProof n = Ok (Some p).
Proof. unfold fetch. destruct (getSuffrageProof n) as [[q|]| |]; naive_solver. Qed.

Lemma suffrage_chain_good from previous l :
  suffrage_chain from previous l <->
  good state_of prove_after (fun n => fetch (from + n)) (fun _ => Ok tt) previous 0 l.
Proof.
  unfold suffrage_chain, good, linked, link, prove_after, state_of. setoid_rewrite fetch_ok.
  setoid_rewrite SuffrageProof_Prove_ok. naive_solver.
Qed.

Lemma prove_put previous from i n p proofs :
  before_height previous (from + i) -> 0 <= i -> i <= n -> from + n < 2 ^ 63 -> SuffrageHeight p = from + n ->
  (Z.to_nat (n - i) < length proofs)%nat ->
  prove p proofs previous = put_slot (prove_after previous) (link state_of prove_after) proofs (Z.to_nat (n - i)) p.
Proof.
  intros [Hpos Hb] Hi Hn Hlt Hp Hlen. unfold prove.
  assert (match previous with None => Ok NilHeight | Some _ => loaded_height previous end = Ok (from + i - 1)) as ->.
  { unfold NilHeight. destruct previous; [done|]. f_equal. lia. }
  cbn [mbind res_bind]. rewrite Hp. replace (from + n - (from + i - 1) - 1) with (n - i) by lia.
  rewrite wrap_s_small by (change (64 - 1) with 63; lia).
  rewrite (proj2 (Z.leb_gt _ _)), (proj2 (Z.ltb_ge _ 0)) by lia.
  unfold put_slot, check_left, check_right, link, prove_after, state_of.
  destruct (Z.to_nat (n - i)) as [|j] eqn:Ej.
  - assert (n - i = 0) as -> by lia. simpl. destruct (SuffrageProof_Prove p previous) as [[]| |]; done.
  - rewrite (proj2 (Z.eqb_neq _ 0)), (proj2 (Z.ltb_lt 0 _)) by lia. cbn [mbind res_bind].
    by replace (S j - 1)%nat with j by lia.
Qed.

Lemma build_job_slot from size i e n s :
  0 <= from -> from + size < 2 ^ 63 -> batch_of size batchlimit i e -> i <= n < e ->
  before_height (ch_lastprev s) (from + i) -> length (ch_slots s) = Z.to_nat (e - i) ->
  build_job getSuffrageProof from n (e - 1) s =
    fetch (from + n) ≫= fun p =>
    put_slot (prove_after (ch_lastprev s)) (link state_of prove_after) (ch_slots s) (Z.to_nat (n - i)) p ≫= fun sl =>
    Ok tt ≫= fun _ =>
    Ok (Build_chain_state sl (ch_lastprev s) (if n =? e - 1 then state_of p else ch_newprev s)).
Proof.
  intros Hf Hsz (Hi & He & _) Hn Hb Hlen. unfold build_job, fetch.
  rewrite wrap_s_small by (change (64 - 1) with 63; lia). rewrite (Z.add_comm n from).
  destruct (getSuffrageProof (from + n)) as [[p|]| |] eqn:Ep; [|done..]. apply fetched_height in Ep.
  cbn [mbind res_bind]. rewrite (prove_put (ch_lastprev s) from i n p) by (done || lia).
  destruct (put_slot _ _ _ _ _) as [sl|er|]; [|done..]. cbn [mbind res_bind]. do 2 f_equal.
  rewrite Ep. replace (from + n - from) with n by lia. by rewrite wrap_u_small by lia.
Qed.

Lemma fetched_before from n p :
  0 <= from -> 0 <= n -> getSuffrageProof (from + n) = Ok (Some p) -> before_height (state_of p) (from + (n + 1)).
Proof.
  intros Hf Hn Hp%fetched_height. unfold before_height, state_of, loaded_height, SuffrageHeight in *.
  split; [lia|]. destruct (LoadSuffrageNodesStateValue (Some (sp_st p))) as [v| |]; [|unfold NilHeight in *; lia..].
  f_equal. lia.
Qed.

(** C28: when every proof that is fetched is of the suffrage height that was asked for,
    which the code does not check, the batches succeed exactly when the proofs of all
    the suffrage heights form a chain from the local state, whatever order they arrive
    in; the proofs given back are those of the last batch only. *)
Theorem buildBatch_chain localstate last from lastheight :
  before_height localstate from -> loaded_height last = Ok lastheight -> from <= lastheight < 2 ^ 63 - 1 ->
  (forall slots, buildBatch sched getSuffrageProof localstate last from = Ok slots ->
     exists l k, length l = Z.to_nat (lastheight - from + 1) /\ suffrage_chain from localstate l /\
       slots = Some <$> drop k l /\ Z.of_nat k mod 333 = 0 /\ (k < length l <= k + 333)%nat) /\
  (forall l, length l = Z.to_nat (lastheight - from + 1) -> suffrage_chain from localstate l ->
     exists slots, buildBatch sched getSuffrageProof localstate last from = Ok slots).
Proof.
  intros Hb Hl Hle. set (size := lastheight - from + 1).
  destruct (chain_work state_of prove_after (fun n => fetch (from + n)) (fun _ => Ok tt)
    (fun st i => before_height st (from + i)) sched sched_perm size batchlimit next_proofs
    (build_job getSuffrageProof from)) with (s := (Build_chain_state [] None localstate : build_state)) as [Hsound Hcompl].
  { unfold batchlimit. lia. }
  { intros i e s (Hi & He & Hmod & Hmin). unfold next_proofs. rewrite wrap_u_small by (destruct Hb; lia).
    replace (e - 1 + 1) with e by lia.
    destruct (batch_mod i e size batchlimit) as [[-> ->]|[-> Hne]]; [unfold batchlimit; lia|lia|done|done|done|].
    by rewrite (proj2 (Z.eqb_neq _ _)) by lia. }
  { intros i e n s Hbo Hn Hbf Hlen. destruct Hb. by apply (build_job_slot from size i); [lia|lia|..]. }
  { intros n m Hn Hm%fetch_ok. destruct Hb. apply fetched_before; [lia|lia|done]. }
  { lia. }
  { by rewrite Z.add_0_r. }
  unfold buildBatch. rewrite Hl. cbn [mbind res_bind]. destruct Hb as [Hb0 _].
  rewrite !wrap_s_small by (change (64 - 1) with 63; rewrite ?wrap_s_small by (change (64 - 1) with 63; lia); lia).
  fold size. split.
  - intros slots (s' & Hr & [= <-])%bind_ok.
    apply Hsound in Hr as (l & Hlen & Hg%suffrage_chain_good & k & m & lp & Hk & Hmod & Hkl & _ & ->).
    exists l, k. unfold batchlimit in *. rewrite Z.add_0_l in Hmod. split_and!; try done. lia.
  - intros l Hlen Hg%suffrage_chain_good. destruct (Hcompl l) as [s' Hs]; [done..|].
    exists (ch_slots s'). apply bind_ok. by exists s'.
Qed.
End history.

(** ** The watcher *)
Definition heights (l : list SuffrageProof) : list Z := sp_height <$> l.
Definition watcher_ok (u : LastConsensusNodesWatcher) : Prop :=
  StronglySorted Z.le (heights (w_last u)) /\ Forall (fun h => h <= w_lastheight u) (heights (w_last u)) /\
  (length (w_last u) <= 3)%nat.
(** Proofs as the others should give them: in order, none above the height. *)
Definition proofs_ok (height : Z) (proofs : list SuffrageProof) : Prop :=
  StronglySorted Z.le (heights proofs) /\ Forall (fun h => h <= height) (heights proofs).
(** [t] is not above the last proof. *)
Definition below_last (t : option SuffrageProof) (l : list SuffrageProof) : Prop :=
  match t with None => True | Some t => exists p, last l = Some p /\ sp_height t <= sp_height p end.
Definition candidates_le (a b : option St) : Prop :=
  match a, b with None, _ => True | Some _, None => False | Some a, Some b => s_height a <= s_height b end.

Lemma sorted_filter f l : StronglySorted Z.le (heights l) -> StronglySorted Z.le (heights (FilterSlice l f)).
Proof.
  induction l as [|x l IH]; [done|]. simpl. intros [Hs Hf]%StronglySorted_inv. destruct (f x); [|by apply IH].
  constructor; [by apply IH|]. apply Forall_forall. intros h (y & -> & [Hy _]%FilterSlice_elem)%list_elem_of_fmap.
  eapply Forall_forall in Hf; [exact Hf|]. apply list_elem_of_fmap. eauto.
Qed.

Lemma sorted_drop n l : StronglySorted Z.le (heights l) -> StronglySorted Z.le (heights (drop n l)).
Proof.
  revert l. induction n as [|n IH]; intros [|x l]; [done..|]. simpl. intros [Hs _]%StronglySorted_inv. by apply IH.
Qed.

Lemma join_last_spec ra l :
  (length l < 3)%nat -> exists a2, (exists a1, rev ra = a1 ++ a2) /\ join_last ra l = a2 ++ l /\
    (length (a2 ++ l) <= 3)%nat.
Proof.
  revert l. induction ra as [|j ra IH]; intros l Hl; [exists []; by split_and!; [exists []| |simpl; lia]|].
  cbn [rev join_last]. destruct l as [|h l]; [exists []; split_and!; [exists (rev ra ++ [j]); by rewrite app_nil_r|done|simpl; lia]|].
  destruct (_ =? _); [|exists []; split_and!; [exists (rev ra ++ [j]); by rewrite app_nil_r|done|simpl in *; lia]].
  destruct (Nat.eqb_spec (length (j :: h :: l)) 3) as [E|E].
  - exists [j]. split_and!; [by exists (rev ra)|done|simpl in *; lia].
  - destruct (IH (j :: h :: l)) as (a2 & (a1 & Ha) & Hj & Hlen); [simpl in *; lia|].
    exists (a2 ++ [j]). rewrite Ha, <- !app_assoc. split_and!; [by exists a1|done|done].
Qed.

Lemma compareProofs_spec a b :
  compareProofs a b <> [] ->
  exists nb a1 a2, a = a1 ++ a2 /\ compareProofs a b = a2 ++ nb /\ nb <> [] /\ (length (a2 ++ nb) <= 3)%nat /\
    (exists n, nb = drop n match last a with None => b | Some t => FilterSlice b (fun i => sp_height t <? sp_height i) end).
Proof.
  unfold compareProofs. destruct (length b <? 1)%nat; [done|].
  set (nb := match last a with None => b | Some t => _ end).
  destruct (Nat.ltb_spec (length nb) 1) as [|H1]; [done|]. destruct (Nat.leb_spec 3 (length nb)) as [H3|H3].
  - intros Hne. exists (drop (length nb - 3) nb), a, []. rewrite app_nil_r, length_app, length_drop.
    split_and!; [done|done|done|simpl; lia|eauto].
  - intros _. destruct (join_last_spec (rev a) nb H3) as (a2 & (a1 & Ha) & Hj & Hlen). rewrite rev_involutive in Ha.
    exists nb, a1, a2. split_and!; [done|done|by intros ->; simpl in *; lia|done|by exists 0%nat].
Qed.

Lemma sorted_app (l1 l2 : list Z) :
  StronglySorted Z.le (l1 ++ l2) <->
  StronglySorted Z.le l1 /\ StronglySorted Z.le l2 /\ forall x y, x ∈ l1 -> y ∈ l2 -> x <= y.
Proof.
  induction l1 as [|x l1 IH]; simpl.
  - split; [|naive_solver]. intros Hs. split_and!; [constructor|done|]. by intros ? ? ?%not_elem_of_nil.
  - split.
    + intros [Hs Hf]%StronglySorted_inv. apply Forall_app in Hf as [Hf1 Hf2]. apply IH in Hs as (? & ? & Hle).
      rewrite Forall_forall in Hf2. split_and!; [by constructor|done|].
      intros a b [->|Ha]%elem_of_cons Hb; [by apply Hf2|by apply Hle].
    + intros ([Hs Hf]%StronglySorted_inv & Hs2 & Hle). constructor.
      * apply IH. split_and!; [done|done|]. intros a b Ha. apply Hle. set_solver.
      * apply Forall_app. split; [done|]. apply Forall_forall. intros y Hy. apply Hle; [set_solver|done].
Qed.

Lemma sorted_last l t x :
  StronglySorted Z.le (heights l) -> last l = Some t -> x ∈ l -> sp_height x <= sp_height t.
Proof.
  destruct l as [|y l _] using rev_ind; [done|]. rewrite last_snoc. intros Hs [= ->] Hx.
  unfold heights in Hs. rewrite fmap_app in Hs. apply sorted_app in Hs as (_ & _ & Hle).
  apply elem_of_app in Hx as [Hx|Hx]; [|apply list_elem_of_singleton in Hx; subst; lia].
  apply Hle; [apply list_elem_of_fmap; eauto|set_solver].
Qed.

Lemma compareProofs_ok height a b :
  proofs_ok height a -> proofs_ok height b -> compareProofs a b <> [] ->
  proofs_ok height (compareProofs a b) /\ (length (compareProofs a b) <= 3)%nat /\
  below_last (last a) (compareProofs a b).
Proof.
  intros [Sa Fa] [Sb Fb] Hne. apply compareProofs_spec in Hne as (nb & a1 & a2 & Ea & -> & Hnb & Hlen & n & En).
  rewrite Forall_forall in Fa, Fb.
  assert (StronglySorted Z.le (heights nb) /\ (forall x, x ∈ nb -> x ∈ b /\ forall t, last a = Some t -> sp_height t < sp_height x))
    as [Sn Hn].
  { rewrite En. split.
    - apply sorted_drop. destruct (last a); [by apply sorted_filter|done].
    - intros x Hx.
      assert (x ∈ match last a with None => b | Some t => FilterSlice b (fun i => sp_height t <? sp_height i) end) as Hin.
      { rewrite <- (take_drop n). set_solver. }
      destruct (last a) as [t|]; [|by split]. apply FilterSlice_elem in Hin as [Hin Hlt].
      split; [done|]. intros ? [= <-]. by apply Z.ltb_lt. }
  assert (forall x, x ∈ a2 -> x ∈ a) as Ha2 by (intros x; rewrite Ea; set_solver).
  unfold proofs_ok, heights. rewrite fmap_app. split; [split|split; [done|]].
  + apply sorted_app. split_and!; [|done|].
    * rewrite Ea in Sa. unfold heights in Sa. rewrite fmap_app in Sa. by apply sorted_app in Sa as (_ & Sa & _).
    * intros x y (p & -> & Hp)%list_elem_of_fmap (q & -> & Hq)%list_elem_of_fmap.
        destruct (last a) as [t|] eqn:Et; [|apply last_None in Et; rewrite Et in Ha2; by destruct (not_elem_of_nil p (Ha2 p Hp))].
        pose proof (sorted_last a t p Sa Et (Ha2 p Hp)). destruct (Hn q Hq) as [_ Hlt]. specialize (Hlt t eq_refl). lia.
  + apply Forall_app. split; apply Forall_forall; intros x (p & -> & Hp)%list_elem_of_fmap.
    * apply Fa, list_elem_of_fmap. eauto.
    * apply Fb, list_elem_of_fmap. destruct (Hn p Hp). eauto.
  + unfold below_last. destruct (last a) as [t|] eqn:Et; [|done].
    destruct nb as [|p nb _] using rev_ind; [done|]. exists p. rewrite app_assoc, last_snoc. split; [done|].
    destruct (Hn p) as [_ Hlt]; [set_solver|]. specialize (Hlt t eq_refl). lia.
Qed.

Lemma below_last_trans t p l : below_last t [p] -> below_last (Some p) l -> below_last t l.
Proof. destruct t as [t|]; [|done]. intros (? & [= <-] & ?) (q & ? & ?). exists q. split; [done|lia]. Qed.
Lemma below_last_refl l : below_last (last l) l.
Proof. unfold below_last. destruct (last l) as [p|]; [|done]. exists p. split; [done|lia]. Qed.

Lemma isNewCandiates_le a b :
  isNewCandiates a b = true -> candidates_le a b.
Proof. destruct a, b; simpl; try done. rewrite Z.ltb_lt. lia. Qed.
Lemma candidates_le_refl a : candidates_le a a.
Proof. destruct a; simpl; [lia|done]. Qed.
Lemma candidates_le_trans a b c : candidates_le a b -> candidates_le b c -> candidates_le a c.
Proof. destruct a, b, c; simpl; done || lia. Qed.
Lemma new_candidates_le a b : candidates_le a (if isNewCandiates a b then b else a).
Proof. destruct (isNewCandiates a b) eqn:E; [by apply isNewCandiates_le|apply candidates_le_refl]. Qed.

Lemma proofs_ok_le h h' l : h <= h' -> proofs_ok h l -> proofs_ok h' l.
Proof. intros Hle [Hs Hf]. split; [done|]. eapply Forall_impl; [exact Hf|]. simpl. intros. lia. Qed.

(** The proofs that [update] keeps. *)
Lemma newer_ok height a b :
  proofs_ok height a -> proofs_ok height b -> (length a <= 3)%nat ->
  let l := if (0 <? length (compareProofs a b))%nat then compareProofs a b else a in
  proofs_ok height l /\ (length l <= 3)%nat /\ below_last (last a) l.
Proof.
  intros Ha Hb Hl. simpl. destruct (Nat.ltb_spec 0 (length (compareProofs a b))) as [Hlt|_].
  - apply compareProofs_ok; [done..|]. intros E. rewrite E in Hlt. simpl in Hlt. lia.
  - split; [done|]. split; [done|apply below_last_refl].
Qed.

(** The local database as it should be: a proof is not above its last block. *)
Definition local_ok (getFromLocal : res (Z * option (SuffrageProof * option St))) : Prop :=
  forall h p c, getFromLocal = Ok (h, Some (p, c)) -> sp_height p <= h.

Lemma loadLast_ok getFromLocal u lheight lproofs lcandidates :
  local_ok getFromLocal -> watcher_ok u -> loadLast getFromLocal u = Ok (lheight, lproofs, lcandidates) ->
  w_lastheight u <= lheight /\ proofs_ok lheight lproofs /\ (length lproofs <= 3)%nat /\
  below_last (last (w_last u)) lproofs /\ candidates_le (w_lastcandidates u) lcandidates.
Proof.
  intros Hloc (Hs & Hf & Hl) Hr. apply bind_ok in Hr as ([localheight found] & Hg & Hr).
  set (lh := if w_lastheight u <? localheight then localheight else w_lastheight u) in *.
  assert (w_lastheight u <= lh /\ localheight <= lh) as [Hlh Hlh'] by (unfold lh; destruct (Z.ltb_spec (w_lastheight u) localheight); lia).
  assert (proofs_ok lh (w_last u)) as Hu by (by apply (proofs_ok_le (w_lastheight u))).
  destruct found as [[p c]|]; injection Hr as <- <- <-.
  - assert (proofs_ok lh [p]) as Hp.
    { apply Hloc in Hg. split; simpl; [by constructor; [constructor|]|]. constructor; [lia|constructor]. }
    split; [done|].
    assert (compareProofs (w_last u) [p] <> [] -> below_last (last (w_last u)) [p]) as Hb.
    { intros Hne. apply compareProofs_spec in Hne as (nb & a1 & a2 & _ & _ & Hnb & _ & n & ->).
      destruct (last (w_last u)) as [t|]; [|done]. simpl in *. destruct (Z.ltb_spec (sp_height t) (sp_height p));
        [exists p; split; [done|lia]|by rewrite drop_nil in Hnb]. }
    destruct (Nat.ltb_spec 0 (length (compareProofs (w_last u) [p]))) as [Hlt|_].
    + split; [exact Hp|]. split; [simpl; lia|]. split; [|apply new_candidates_le]. apply Hb.
      intros E. rewrite E in Hlt. simpl in Hlt. lia.
    + split; [exact Hu|]. split; [done|]. split; [apply below_last_refl|apply new_candidates_le].
  - split; [done|]. split; [exact Hu|]. split; [done|]. split; [apply below_last_refl|apply candidates_le_refl].
Qed.

(** What the watcher knows never gets older: an update with proofs in order
    keeps at most three of them, in order and not above the last height, and
    neither the height nor the last proof nor the candidates go back. *)
Theorem watcher_update getFromLocal height proofs candidates u u' b1 b2 :
  local_ok getFromLocal -> watcher_ok u -> proofs_ok height proofs ->
  update getFromLocal height proofs candidates u = Ok (u', b1, b2) ->
  watcher_ok u' /\ w_lastheight u <= w_lastheight u' /\ below_last (last (w_last u)) (w_last u') /\
  candidates_le (w_lastcandidates u) (w_lastcandidates u').
Proof.
  intros Hloc Hu Hp Hr. unfold update in Hr.
  destruct (loadLast getFromLocal u) as [[[lh lp] lc]|m|] eqn:El; [|injection Hr as <- _ _|done].
  2: { split; [exact Hu|]. split; [lia|]. split; [apply below_last_refl|apply candidates_le_refl]. }
  destruct (loadLast_ok _ _ _ _ _ Hloc Hu El) as (Hlh & Hlp & Hl & Hb & Hc). injection Hr as <- _ _.
  set (lh' := if lh <? height then height else if w_lastheight u <? lh then lh else w_lastheight u).
  assert (w_lastheight u <= lh' /\ lh <= lh' /\ height <= lh') as (H1 & H2 & H3).
  { unfold lh'. destruct (Z.ltb_spec lh height), (Z.ltb_spec (w_lastheight u) lh); lia. }
  destruct (newer_ok lh' lp proofs) as ([Hs Hf] & Hlen & Hb'); [by apply (proofs_ok_le lh)|by apply (proofs_ok_le height)|done|].
  unfold watcher_ok. cbn [w_last w_lastheight w_lastcandidates].
  split; [by split_and!|]. split; [done|]. split.
  - destruct (last lp) as [t|] eqn:Et.
    + eapply below_last_trans; [|exact Hb']. unfold below_last in *. destruct (last (w_last u)) as [t'|]; [|done].
      destruct Hb as (q & Hq & Hle). rewrite Et in Hq. injection Hq as ->. by exists q.
    + unfold below_last in *. destruct (last (w_last u)) as [t'|]; [|done]. destruct Hb as (q & Hq & _). congruence.
  - eapply candidates_le_trans; [exact Hc|apply new_candidates_le].
Qed.

(** The suffrage of a height is that of the highest proof at or below it. *)
Theorem GetSuffrage_governs height u suf :
  watcher_ok u -> GetSuffrage height u = Ok (Some suf) ->
  exists p, p ∈ w_last u /\ sp_Suffrage p = Ok suf /\ sp_height p <= height /\
    forall q, q ∈ w_last u -> sp_height q <= height -> sp_height q <= sp_height p.
Proof.
  intros (Hs & Hf & _) Hg. unfold GetSuffrage in Hg.
  assert (exists p, p ∈ w_last u /\ (sp_Suffrage p ≫= fun suf => Ok (Some suf)) = Ok (Some suf) /\ sp_height p <= height /\
    forall q, q ∈ w_last u -> sp_height q <= height -> sp_height q <= sp_height p) as (p & Hin & Hp & Hle).
  2: { apply bind_ok in Hp as (suf' & Hp & [= ->]). by exists p. }
  destruct (Z.leb_spec (w_lastheight u) NilHeight) as [|_]; [done|].
  destruct (Z.ltb_spec (w_lastheight u) height) as [|Hh]; [done|]. cbn [orb] in Hg.
  rewrite Forall_forall in Hf. destruct (Z.eqb_spec height (w_lastheight u)) as [->|Hne].
  - destruct (last (w_last u)) as [p|] eqn:El; [|done]. apply last_Some_elem_of in El as Hin.
    exists p. split_and!; [done|done|by apply Hf, list_elem_of_fmap_2|].
    intros q Hq _. by eapply sorted_last.
  - revert Hg. clear Hne Hh Hf. induction (w_last u) as [|p l IH] using rev_ind; [done|].
    rewrite rev_unit. simpl. unfold heights in Hs. rewrite fmap_app in Hs. apply sorted_app in Hs as (Hs & _ & Hle).
    destruct (Z.leb_spec (sp_height p) height) as [Hp|Hp]; intros Hg.
    + exists p. split_and!; [set_solver|done|done|]. intros q [Hq|Hq]%elem_of_app Hqh.
      * apply Hle; [by apply list_elem_of_fmap_2|set_solver].
      * apply list_elem_of_singleton in Hq as ->. lia.
    + destruct (IH Hs Hg) as (p' & Hin & ? & ? & Hall). exists p'. split_and!; [set_solver|done|done|].
      intros q [Hq|Hq]%elem_of_app Hqh; [by apply Hall|]. apply list_elem_of_singleton in Hq as ->. lia.
Qed.

(** The proof is not compared with the states tree of the manifest: a proof holds
    with any other valid block map of its height. *)
Lemma other_manifest `{Crypto, BlockCrypto, TreeHash, StateValue state_value} networkID p m :
  SuffrageProof_IsValid networkID p = Ok tt -> BlockMap_IsValid networkID m = Ok tt ->
  bm_height m = bm_height (sp_m p) ->
  let p' := {| sp_m := m; sp_st := sp_st p; sp_proof := sp_proof p |} in
  SuffrageProof_IsValid networkID p' = Ok tt /\ forall previous, proved previous p <-> proved previous p'.
Proof.
  intros Hv Hm Hh p'. split; [|by unfold proved; cbn [sp_m sp_st sp_proof p']; rewrite Hh].
  revert Hv. unfold SuffrageProof_IsValid, check_all. cbn [sp_m sp_st sp_proof p' foldr]. rewrite Hh, Hm.
  destruct (BlockMap_IsValid networkID (sp_m p)) as [[]| |]; [|done..]. done.
Qed.

(** ** Concrete data *)
#[local] Existing Instance demo_crypto.
#[local] Existing Instance demo_block_crypto.
#[local] Existing Instance demo_hash.
#[global] Instance demo_state_value : StateValue state_value :=
  {| value_HashBytes := fun v => match v with
                                 | StSuffrage v => pretty (ss_height v)
                                 | StCandidates nodes => pretty (length nodes)
                                 | StOther b => b
                                 end;
     value_IsValid := fun _ => Ok tt |}.

Definition demo_nodes_value (h : Z) : SuffrageNodesStateValue := {| ss_height := h; ss_nodes := ss_nodes demo_state |}.
(** The states of the suffrages at the blocks 0, 1, ... *)
Fixpoint demo_sts (n : nat) : St :=
  let h := Z.of_nat n in
  NewBaseState h "s" (Some (StSuffrage (demo_nodes_value h)))
    match n with O => None | S n => s_h (demo_sts n) end [].
Definition demo_sproof (n : nat) : SuffrageProof :=
  let key := default "" (s_h (demo_sts n)) in
  {| sp_m := demo_map (Z.of_nat n); sp_st := demo_sts n;
     sp_proof := of_ok (ExtractProofMaterial (of_ok (Writer_Tree (of_ok
       (NewWriter 3 ≫= fun nodes => Adds nodes [(0, NewBaseNode "a"); (1, NewBaseNode key); (2, NewBaseNode "b")])))) key) |}.
Definition demo_remote (h : Z) : res (option SuffrageProof) :=
  Ok (if (0 <=? h) && (h <=? 4) then Some (demo_sproof (Z.to_nat h)) else None).

Lemma demo_remote_height h p : demo_remote h = Ok (Some p) -> SuffrageHeight p = h.
Proof.
  unfold demo_remote. destruct (Z.leb_spec 0 h), (Z.leb_spec h 4); simpl; try done. intros [= <-].
  assert (exists n, h = Z.of_nat n) as [n ->] by (exists (Z.to_nat h); lia). rewrite Nat2Z.id. by destruct n.
Qed.

Lemma buildBatch_chain_witness :
  exists l, buildBatch (@rev Z) demo_remote None (Some (demo_sts 3)) 0 = Ok (Some <$> l) /\ length l = 4%nat /\
    suffrage_chain demo_remote 0 None l.
Proof.
  destruct (buildBatch_chain (@rev Z) (fun l => symmetry (Permutation_rev l)) demo_remote demo_remote_height
    None (Some (demo_sts 3)) 0 3 (conj (Z.le_refl 0) eq_refl) ltac:(vm_compute; reflexivity) ltac:(lia)) as [H _].
  destruct (buildBatch (@rev Z) demo_remote None (Some (demo_sts 3)) 0) as [slots| |] eqn:E;
    [|vm_compute in E; discriminate E..].
  destruct (H slots eq_refl) as (l & k & Hl & Hc & -> & Hk & Hlt). rewrite Hl in Hlt.
  assert (k = 0%nat) as ->.
  { assert (k < 4)%nat by (change (Z.to_nat (3 - 0 + 1)) with 4%nat in Hlt; lia).
    destruct k as [|[|[|[|k]]]]; [done|discriminate Hk..|lia]. }
  exists l. split; [done|]. split; [exact Hl|exact Hc].
Defined.

(** A last proof of the height 3 whose tree is that of the height 2: valid, and
    given back unproved after the proved one of the same height. *)
Definition demo_last : SuffrageProof :=
  {| sp_m := demo_map 3; sp_st := demo_sts 3; sp_proof := sp_proof (demo_sproof 2) |}.
Lemma last_unproved :
  Build (fun l => l) demo_remote (Ok (3, Some demo_last)) (Ok (None, false)) "net" None =
    Ok (3, Some <$> ((demo_sproof <$> seq 0 4) ++ [demo_last]), None) /\
  SuffrageProof_Prove demo_last (Some (demo_sts 2)) = Err "key not found".
Proof. split; vm_compute; reflexivity. Qed.

(** A proof below the local suffrage height, from any of the others, is an index
    out of range. *)
Lemma lower_height_panics :
  buildBatch (fun l => l) (fun _ => Ok (Some (demo_sproof 0))) (Some (demo_sts 1)) (Some (demo_sts 3)) 2 = Panic.
Proof. vm_compute. reflexivity. Qed.

(** Candidates without any proof. *)
Lemma check_panics :
  Watcher_check (Ok (0, None)) (fun _ => Ok (7, [], Some (demo_sts 1)))
    {| w_lastheight := NilHeight; w_last := []; w_lastcandidates := None |} = Panic.
Proof. vm_compute. reflexivity. Qed.

Definition demo_watcher : LastConsensusNodesWatcher :=
  {| w_lastheight := 3; w_last := demo_sproof <$> [1; 2; 3]%nat; w_lastcandidates := None |}.
Lemma demo_watcher_ok : watcher_ok demo_watcher.
Proof.
  split; [|split]; [|vm_compute; repeat constructor; discriminate|vm_compute; lia].
  vm_compute. repeat (constructor; try discriminate).
Qed.

Lemma watcher_update_witness :
  exists u, update (Ok (3, Some (demo_sproof 3, None))) 4 [demo_sproof 4] None demo_watcher = Ok (u, true, true) /\
    watcher_ok u /\ 3 <= w_lastheight u.
Proof.
  destruct (update (Ok (3, Some (demo_sproof 3, None))) 4 [demo_sproof 4] None demo_watcher) as [[[u b1] b2]| |] eqn:E;
    [|vm_compute in E; discriminate E..].
  destruct (watcher_update (Ok (3, Some (demo_sproof 3, None))) 4 [demo_sproof 4] None demo_watcher u b1 b2) as (H1 & H2 & _).
  - intros h p c [= <- <- <-]. vm_compute. discriminate.
  - exact demo_watcher_ok.
  - split; vm_compute; repeat constructor; discriminate.
  - exact E.
  - exists u. split; [|split; [exact H1|exact H2]]. vm_compute in E. injection E as _ <- <-. reflexivity.
Defined.

Lemma GetSuffrage_governs_witness :
  exists suf p, GetSuffrage 2 demo_watcher = Ok (Some suf) /\ p ∈ w_last demo_watcher /\ sp_height p <= 2.
Proof.
  destruct (GetSuffrage 2 demo_watcher) as [[suf|]| |] eqn:E; [|vm_compute in E; discriminate E..].
  destruct (GetSuffrage_governs 2 demo_watcher suf demo_watcher_ok E) as (p & Hin & _ & Hle & _).
  exists suf, p. split; [done|]. split; [exact Hin|exact Hle].
Defined.
