(* ===== verification/Handover.v ===== *)
(** * Handover of consensus from one node to another

    [isaac/states/handover_message.go], [handover_x.go], [handover_y.go] and the
    answers of [isaac/states/states_handover.go].

    Two nodes share the key of one member of the suffrage.  X votes; Y wants to
    take over.  Y asks X; X then sends every voteproof to Y, and Y answers each by
    a challenge: the stage point of the voteproof, or the block map of the block
    it made of it.  After enough answers in a row, and when X says it is ready,
    the next INIT voteproof finishes: X sends it to Y as the last message and stops
    to vote, Y starts.

    A broker is a record, an operation a function of it and of what comes from
    outside (the outcomes of sends, the readiness of X).  What a broker does to
    the rest of the node is the list of its effects.  Calls that goroutines make
    are separate operations. *)
From S2P Require Import Prelude FixedTree Point Vote Slice Ballot Voteproof Batch Block.

Open Scope Z_scope.

(** ** Messages ([handover_message.go]) *)
Abbreviation HandoverMessageDataType := string.
Definition DataTypeVoteproof : HandoverMessageDataType := "voteproof".
Definition DataTypeINITVoteproof : HandoverMessageDataType := "init_voteproof".
Definition DataTypeBallot : HandoverMessageDataType := "ballot".
Definition DataTypeProposal : HandoverMessageDataType := "proposal".
Definition DataTypeOperation : HandoverMessageDataType := "operation".
Definition DataTypeSuffrageVoting : HandoverMessageDataType := "suffrage_voting_expel_operation".
Definition data_types : list HandoverMessageDataType :=
  [ DataTypeVoteproof; DataTypeINITVoteproof; DataTypeBallot; DataTypeProposal; DataTypeOperation;
    DataTypeSuffrageVoting ].
Definition HandoverMessageDataType_IsValid (d : HandoverMessageDataType) : err :=
  guard_err (negb (bool_decide (d ∈ data_types))) "unknown handover message data type".

(** Proposals and operations are carried along only. *)
Class HandoverData := {
  ProposalSignFact : Type;
  Operation : Type;
  proposal_IsValid : string -> ProposalSignFact -> err;
  operation_IsValid : string -> Operation -> err
}.

Section messages.
Context `{Crypto, BlockCrypto, HandoverData}.

(** The data of a message, by what it really holds; [DList] is the pair of an INIT
    voteproof and its proposal, which can be nil. *)
Inductive handover_data :=
  | DVoteproof (vp : Voteproof)
  | DList (pr : option ProposalSignFact) (vp : Voteproof)
  | DBallot (bl : Ballot)
  | DProposal (pr : ProposalSignFact)
  | DOperation (op : Operation)
  | DExpel (op : SuffrageExpelOperation)
  | DOther.

Inductive HandoverMessage :=
  | HandoverMessageChallengeResponse (id : string) (point : StagePoint) (ok : bool) (e : option string)
  | HandoverMessageFinish (id : string) (pr : option ProposalSignFact) (vp : option Voteproof)
  | HandoverMessageChallengeStagePoint (id : string) (point : StagePoint)
  | HandoverMessageChallengeBlockMap (id : string) (point : StagePoint) (m : option BlockMap)
  | HandoverMessageData (id : string) (dataType : HandoverMessageDataType) (data : handover_data)
  | HandoverMessageCancel (id : string).

Definition HandoverID (msg : HandoverMessage) : string :=
  match msg with
  | HandoverMessageChallengeResponse id _ _ _ | HandoverMessageFinish id _ _
  | HandoverMessageChallengeStagePoint id _ | HandoverMessageChallengeBlockMap id _ _
  | HandoverMessageData id _ _ | HandoverMessageCancel id => id
  end.

Definition LoadVoteproofData (d : handover_data) : res Voteproof :=
  match d with DVoteproof vp => Ok vp | _ => Err "expected Voteproof" end.
Definition LoadINITVoteproofData (d : handover_data) : res (option ProposalSignFact * Voteproof) :=
  match d with
  | DList pr vp => if is_init_type vp then Ok (pr, vp) else Err "expected INITVoteproof"
  | _ => Err "init voteproof data"
  end.

Definition isValidVoteproof (d : handover_data) : err := LoadVoteproofData d ≫= Voteproof_IsValid.
Definition isValidINITVoteproof (networkID : string) (d : handover_data) : err :=
  LoadINITVoteproofData d ≫= fun '(pr, vp) =>
  match pr with None => Ok tt | Some pr => proposal_IsValid networkID pr end ≫= fun _ =>
  Voteproof_IsValid vp.
Definition isValidBallot (d : handover_data) : err :=
  match d with DBallot bl => Ballot_IsValid bl | _ => Err "expected Ballot" end.
Definition isValidProposal (networkID : string) (d : handover_data) : err :=
  match d with DProposal pr => proposal_IsValid networkID pr | _ => Err "expected ProposalSignFact" end.
Definition isValidOperation (networkID : string) (d : handover_data) : err :=
  match d with DOperation op => operation_IsValid networkID op | _ => Err "expected Operation" end.
Definition isValidSuffrageVoting (d : handover_data) : err :=
  match d with DExpel op => SuffrageExpelOperation_IsValid op | _ => Err "expected SuffrageExpelOperation" end.

Definition isValidData (networkID : string) (dataType : HandoverMessageDataType) (d : handover_data) : err :=
  if bool_decide (dataType = DataTypeVoteproof) then isValidVoteproof d
  else if bool_decide (dataType = DataTypeINITVoteproof) then isValidINITVoteproof networkID d
  else if bool_decide (dataType = DataTypeBallot) then isValidBallot d
  else if bool_decide (dataType = DataTypeProposal) then isValidProposal networkID d
  else if bool_decide (dataType = DataTypeOperation) then isValidOperation networkID d
  else if bool_decide (dataType = DataTypeSuffrageVoting) then isValidSuffrageVoting d
  else Ok tt.

Definition empty_id (id : string) : err := guard_err (String.length id <? 1)%nat "empty id".

Definition ChallengePoint_IsValid (id : string) (point : StagePoint) : err :=
  empty_id id ≫= fun _ => StagePoint_IsValid point.
Definition Finish_IsValid (networkID : string) (id : string) (pr : option ProposalSignFact) (vp : option Voteproof)
    : err :=
  empty_id id ≫= fun _ =>
  match vp with
  | None => Ok tt
  | Some vp => Voteproof_IsValid vp ≫= fun _ =>
               match pr with None => Ok tt | Some pr => proposal_IsValid networkID pr end
  end.
Definition ChallengeBlockMap_IsValid (networkID : string) (id : string) (point : StagePoint) (m : option BlockMap)
    : err :=
  empty_id id ≫= fun _ =>
  match m with
  | None => Err "empty blockmap"
  | Some m =>
      guard_err (StagePoint_IsZero point) "empty point" ≫= fun _ =>
      BlockMap_IsValid networkID m ≫= fun _ =>
      guard_err (negb (bm_height m =? sp_h point)) "height not matched"
  end.
Definition Data_IsValid (networkID : string) (id : string) (dataType : HandoverMessageDataType) (d : handover_data)
    : err :=
  empty_id id ≫= fun _ => HandoverMessageDataType_IsValid dataType ≫= fun _ => isValidData networkID dataType d.
Definition HandoverMessage_IsValid (networkID : string) (msg : HandoverMessage) : err :=
  match msg with
  | HandoverMessageChallengeResponse id point _ _ | HandoverMessageChallengeStagePoint id point =>
      ChallengePoint_IsValid id point
  | HandoverMessageFinish id pr vp => Finish_IsValid networkID id pr vp
  | HandoverMessageChallengeBlockMap id point m => ChallengeBlockMap_IsValid networkID id point m
  | HandoverMessageData id dataType d => Data_IsValid networkID id dataType d
  | HandoverMessageCancel id => empty_id id
  end.
End messages.
#[global] Arguments HandoverMessage _ : clear implicits.

(** ** Sending *)
Inductive handover_error :=
  | ErrHandoverCanceled | ErrHandoverStopped | errHandoverIgnore | errHandoverReset | EOther (s : string).
#[global] Instance handover_error_eq_dec : EqDecision handover_error.
Proof. solve_decision. Defined.

(** What a try to send gives: done (also when the context of the send is
    canceled), an error, or the context of the retries is done. *)
Inductive send_outcome := SendOk | SendError | RetryCanceled.

(** [util.Retry] of [retryHandoverSendMessageFunc], the n-th outcome for the n-th
    try. *)
Fixpoint retryHandoverSendMessageFunc (limit : nat) (outs : nat -> send_outcome) : err :=
  match limit with
  | O => Err "stop retrying; over limit"
  | S limit =>
      match outs 0%nat with
      | SendOk => Ok tt
      | RetryCanceled => Err "context canceled"
      | SendError => retryHandoverSendMessageFunc limit (fun n => outs (S n))
      end
  end.

(** Over the maximum nothing is sent. *)
Definition tries (count max : Z) : bool := negb ((0 <? max) && (max <=? count)).

(** The count of failures in a row, and the error: failures below the maximum are
    endured. *)
Definition endureHandoverSendMessageFunc (count max : Z) (sent : bool) : Z * err :=
  if negb (tries count max) then (count, Err "send handover message; over max")
  else if sent then (0, Ok tt)
  else (wrap_u 64 (count + 1), if count <? max then Ok tt else Err "failed to send").

Definition isStagePointChallenge (vp : Voteproof) : bool :=
  is_init_type vp || negb (bool_decide (Result vp = VoteResultMajority)).

(** ** X ([handover_x.go]) *)
Record HandoverXBrokerArgs := {
  xa_Local : Node;
  xa_NetworkID : string;
  xa_MinChallengeCount : Z;
  xa_ReadyEnd : Z;
  xa_MaxEnsureSendFailure : Z
}.
Definition defaultHandoverXMinChallengeCount : Z := 2.
Definition defaultHandoverXReadyEnd : Z := 3.

(** The last thing Y sent: a stage point or a block map. *)
Inductive last_received := LastStagePoint (p : StagePoint) | LastBlockMap (m : BlockMap).

(** [xb_canceled]: the context of the broker is done. *)
Record HandoverXBroker := {
  xb_id : string;
  xb_canceled : bool;
  xb_isFinished : bool;
  xb_successcount : Z;
  xb_sendFailureCount : Z;
  xb_lastVoteproof : option Voteproof;
  xb_lastReceived : option last_received;
  xb_previousChallengeHandover : StagePoint;
  xb_readyEnd : Z;
  xb_challengecount : Z;
  xb_lastchallengecount : Z
}.
Definition NewHandoverXBroker (id : string) : HandoverXBroker :=
  {| xb_id := id; xb_canceled := false; xb_isFinished := false; xb_successcount := 0; xb_sendFailureCount := 0;
     xb_lastVoteproof := None; xb_lastReceived := None; xb_previousChallengeHandover := ZeroStagePoint;
     xb_readyEnd := 0; xb_challengecount := 0; xb_lastchallengecount := 0 |}.

Section x_setters.
Implicit Types (b : HandoverXBroker).
Definition x_set_canceled b : HandoverXBroker :=
  {| xb_id := xb_id b; xb_canceled := true; xb_isFinished := xb_isFinished b; xb_successcount := xb_successcount b;
     xb_sendFailureCount := xb_sendFailureCount b; xb_lastVoteproof := xb_lastVoteproof b;
     xb_lastReceived := xb_lastReceived b; xb_previousChallengeHandover := xb_previousChallengeHandover b;
     xb_readyEnd := xb_readyEnd b; xb_challengecount := xb_challengecount b;
     xb_lastchallengecount := xb_lastchallengecount b |}.
Definition x_set_finished b : HandoverXBroker :=
  {| xb_id := xb_id b; xb_canceled := xb_canceled b; xb_isFinished := true; xb_successcount := xb_successcount b;
     xb_sendFailureCount := xb_sendFailureCount b; xb_lastVoteproof := xb_lastVoteproof b;
     xb_lastReceived := xb_lastReceived b; xb_previousChallengeHandover := xb_previousChallengeHandover b;
     xb_readyEnd := xb_readyEnd b; xb_challengecount := xb_challengecount b;
     xb_lastchallengecount := xb_lastchallengecount b |}.
Definition x_set_success (n : Z) b : HandoverXBroker :=
  {| xb_id := xb_id b; xb_canceled := xb_canceled b; xb_isFinished := xb_isFinished b; xb_successcount := n;
     xb_sendFailureCount := xb_sendFailureCount b; xb_lastVoteproof := xb_lastVoteproof b;
     xb_lastReceived := xb_lastReceived b; xb_previousChallengeHandover := xb_previousChallengeHandover b;
     xb_readyEnd := xb_readyEnd b; xb_challengecount := xb_challengecount b;
     xb_lastchallengecount := xb_lastchallengecount b |}.
Definition x_set_failures (n : Z) b : HandoverXBroker :=
  {| xb_id := xb_id b; xb_canceled := xb_canceled b; xb_isFinished := xb_isFinished b;
     xb_successcount := xb_successcount b; xb_sendFailureCount := n; xb_lastVoteproof := xb_lastVoteproof b;
     xb_lastReceived := xb_lastReceived b; xb_previousChallengeHandover := xb_previousChallengeHandover b;
     xb_readyEnd := xb_readyEnd b; xb_challengecount := xb_challengecount b;
     xb_lastchallengecount := xb_lastchallengecount b |}.
(** [broker.lastVoteproof = vp; broker.challengecount++]. *)
Definition x_set_sent (vp : Voteproof) b : HandoverXBroker :=
  {| xb_id := xb_id b; xb_canceled := xb_canceled b; xb_isFinished := xb_isFinished b;
     xb_successcount := xb_successcount b; xb_sendFailureCount := xb_sendFailureCount b; xb_lastVoteproof := Some vp;
     xb_lastReceived := xb_lastReceived b; xb_previousChallengeHandover := xb_previousChallengeHandover b;
     xb_readyEnd := xb_readyEnd b; xb_challengecount := wrap_u 64 (xb_challengecount b + 1);
     xb_lastchallengecount := xb_lastchallengecount b |}.
Definition x_set_received (r : last_received) b : HandoverXBroker :=
  {| xb_id := xb_id b; xb_canceled := xb_canceled b; xb_isFinished := xb_isFinished b;
     xb_successcount := xb_successcount b; xb_sendFailureCount := xb_sendFailureCount b;
     xb_lastVoteproof := xb_lastVoteproof b; xb_lastReceived := Some r;
     xb_previousChallengeHandover := xb_previousChallengeHandover b; xb_readyEnd := xb_readyEnd b;
     xb_challengecount := xb_challengecount b; xb_lastchallengecount := xb_lastchallengecount b |}.
Definition x_set_previous (p : StagePoint) b : HandoverXBroker :=
  {| xb_id := xb_id b; xb_canceled := xb_canceled b; xb_isFinished := xb_isFinished b;
     xb_successcount := xb_successcount b; xb_sendFailureCount := xb_sendFailureCount b;
     xb_lastVoteproof := xb_lastVoteproof b; xb_lastReceived := xb_lastReceived b;
     xb_previousChallengeHandover := p; xb_readyEnd := xb_readyEnd b; xb_challengecount := xb_challengecount b;
     xb_lastchallengecount := xb_lastchallengecount b |}.
Definition x_set_readyEnd (n : Z) b : HandoverXBroker :=
  {| xb_id := xb_id b; xb_canceled := xb_canceled b; xb_isFinished := xb_isFinished b;
     xb_successcount := xb_successcount b; xb_sendFailureCount := xb_sendFailureCount b;
     xb_lastVoteproof := xb_lastVoteproof b; xb_lastReceived := xb_lastReceived b;
     xb_previousChallengeHandover := xb_previousChallengeHandover b; xb_readyEnd := n;
     xb_challengecount := xb_challengecount b; xb_lastchallengecount := xb_lastchallengecount b |}.
(** [broker.lastchallengecount = broker.challengecount]. *)
Definition x_set_answered b : HandoverXBroker :=
  {| xb_id := xb_id b; xb_canceled := xb_canceled b; xb_isFinished := xb_isFinished b;
     xb_successcount := xb_successcount b; xb_sendFailureCount := xb_sendFailureCount b;
     xb_lastVoteproof := xb_lastVoteproof b; xb_lastReceived := xb_lastReceived b;
     xb_previousChallengeHandover := xb_previousChallengeHandover b; xb_readyEnd := xb_readyEnd b;
     xb_challengecount := xb_challengecount b; xb_lastchallengecount := xb_challengecount b |}.
End x_setters.

Section x.
Context `{Crypto, BlockCrypto, HandoverData}.
Variable args : HandoverXBrokerArgs.
Implicit Types (b : HandoverXBroker).

(** What X does outside: [XRespond] in a goroutine, [XSend] at once;
    [XWhenCanceled] and [XWhenFinished] are the calls that [patchStates] makes
    act on the states. *)
Inductive xeffect :=
  | XSend (msg : HandoverMessage _)
  | XRespond (msg : HandoverMessage _)
  | XWhenCanceled
  | XWhenFinished (vp : option Voteproof).

Definition x_result (A : Type) : Type := HandoverXBroker * list xeffect * (handover_error + A).

(** [broker.cancel], once. *)
Definition x_cancel b : HandoverXBroker * list xeffect :=
  if xb_canceled b then (b, []) else (x_set_canceled b, [XSend (HandoverMessageCancel (xb_id b)); XWhenCanceled]).
Definition x_cancelByMessage b : HandoverXBroker * list xeffect :=
  if xb_canceled b then (b, []) else (x_set_canceled b, [XWhenCanceled]).
Definition x_stop b : HandoverXBroker := x_set_canceled b.

Definition x_checkIsReady (count : Z) : bool := xa_MinChallengeCount args <=? count.
Definition x_isReady b : Z * bool := (xb_successcount b, x_checkIsReady (xb_successcount b)).

Definition isReadyToFinish (vp : option Voteproof) b : handover_error + bool :=
  if xb_canceled b then inl ErrHandoverCanceled
  else if xb_isFinished b then inl ErrHandoverStopped
  else match vp with
       | None => inr false
       | Some vp =>
           if negb (is_init_type vp) then inr false
           else if xb_readyEnd b <? 1 then inr false
           else let '(count, ok) := x_isReady b in inr (ok && (xb_readyEnd b <=? count))
       end.

(** [finish]: [whenFinished] runs also when the message could not be sent. *)
Definition x_finish (ivp : option Voteproof) (pr : option ProposalSignFact) (outs : nat -> send_outcome) b : x_result unit :=
  if xb_canceled b then (b, [], inl ErrHandoverCanceled)
  else if xb_isFinished b then (b, [], inr tt)
  else
    let effs := [XSend (HandoverMessageFinish (xb_id b) pr ivp); XWhenFinished ivp] in
    match retryHandoverSendMessageFunc 33 outs with
    | Ok _ => (x_set_finished b, effs, inr tt)
    | _ => let '(b, ceffs) := x_cancel b in (b, effs ++ ceffs, inl (EOther "failed to send"))
    end.

(** [endureSendMessage]. *)
Definition x_endure (sent : bool) b : HandoverXBroker * err :=
  let '(n, r) := endureHandoverSendMessageFunc (xb_sendFailureCount b) (xa_MaxEnsureSendFailure args) sent in
  (x_set_failures n b, r).

(** [SendData] and [sendBallot]. *)
Definition x_SendData (dataType : HandoverMessageDataType) (data : handover_data) (sent : bool) b : x_result unit :=
  if xb_canceled b then (b, [], inl ErrHandoverCanceled)
  else if xb_isFinished b then (b, [], inr tt)
  else
    let effs := if tries (xb_sendFailureCount b) (xa_MaxEnsureSendFailure args)
                then [XSend (HandoverMessageData (xb_id b) dataType data)] else [] in
    let '(b, r) := x_endure sent b in
    match r with
    | Ok _ => (b, effs, inr tt)
    | _ => let '(b, ceffs) := x_cancel b in (b, effs ++ ceffs, inl ErrHandoverCanceled)
    end.
Definition x_sendBallot (bl : Ballot) (sent : bool) b : x_result unit := x_SendData DataTypeBallot (DBallot bl) sent b.

Definition sendVoteproofErr (pr : option ProposalSignFact) (vp : Voteproof) (sent : bool) b : x_result unit :=
  let b := x_set_sent vp b in
  if negb (is_init_type vp) || negb (bool_decide (Result vp = VoteResultMajority))
  then x_SendData DataTypeVoteproof (DVoteproof vp) sent b
  else x_SendData DataTypeINITVoteproof (DList pr vp) sent b.

(** [GetProposal] of the hash of the proposal. *)
Variable GetProposal : Hash -> option ProposalSignFact.
Definition vp_proposal (vp : Voteproof) : res (option ProposalSignFact) :=
  if is_init_type vp && bool_decide (Result vp = VoteResultMajority) then
    INIT_BallotMajority vp ≫= fun m => match m with None => Panic | Some m => Ok (GetProposal m.2) end
  else Ok None.

Definition sendVoteproof (vp : Voteproof) (sent : bool) (outs : nat -> send_outcome) b : res (x_result bool) :=
  if xb_canceled b then Ok (b, [], inl ErrHandoverCanceled)
  else if xb_isFinished b then Ok (b, [], inr false)
  else
    vp_proposal vp ≫= fun pr =>
    match (if is_init_type vp then isReadyToFinish (Some vp) b else inr false) with
    | inl er => Ok (b, [], inl er)
    | inr true =>
        let '(b, effs, r) := x_finish (Some vp) pr outs b in
        Ok (b, effs, inr (match r with inl _ => false | inr _ => true end))
    | inr false =>
        let '(b, effs, r) := sendVoteproofErr pr vp sent b in
        match r with
        | inr _ | inl errHandoverIgnore => Ok (b, effs, inr false)
        | inl _ => let '(b, ceffs) := x_cancel b in Ok (b, effs ++ ceffs, inl ErrHandoverCanceled)
        end
    end.

(** *** What Y answers *)
Definition receiveStagePoint (point : StagePoint) b : HandoverXBroker * option handover_error :=
  let old := match xb_lastReceived b with
             | Some (LastStagePoint prev) =>
                 if StagePoint_Compare point prev <? 1 then Some errHandoverIgnore else None
             | _ => None
             end in
  match old with
  | Some er => (b, Some er)
  | None =>
      let b := x_set_received (LastStagePoint point) b in
      (b, match xb_lastVoteproof b with
          | None => Some (EOther "no last init voteproof")
          | Some vp =>
              if negb (isStagePointChallenge vp) then Some errHandoverReset
              else if negb (StagePoint_Equal (vp_point vp) point) then Some errHandoverReset
              else None
          end)
  end.

(** The receiver of [Equal] is the new block of the voteproof. *)
Definition receiveBlockMap (m : BlockMap) b : res (HandoverXBroker * option handover_error) :=
  if negb (bool_decide (bs_node (bm_sign m) = node_address (xa_Local args))) then
    Ok (b, Some (EOther "not signed by local; wrong address"))
  else if negb (bool_decide (bs_signer (bm_sign m) = node_publickey (xa_Local args))) then
    Ok (b, Some (EOther "not signed by local; different key"))
  else
    let old := match xb_lastReceived b with
               | Some (LastBlockMap prev) =>
                   if bm_height m <=? bm_height prev then Some errHandoverIgnore else None
               | _ => None
               end in
    match old with
    | Some er => Ok (b, Some er)
    | None =>
        let b := x_set_received (LastBlockMap m) b in
        match xb_lastVoteproof b with
        | None => Ok (b, Some (EOther "no last accept voteproof"))
        | Some vp =>
            if is_init_type vp || negb (bool_decide (Result vp = VoteResultMajority)) then Ok (b, Some errHandoverReset)
            else
              ACCEPT_BallotMajority vp ≫= fun mj =>
              match mj with
              | None => Panic
              | Some mj => Ok (b, if bool_decide (Some mj.2 = bm_hash m) then None else Some errHandoverReset)
              end
        end
    end.

Definition challengeIsReadyOK (point : StagePoint) b : HandoverXBroker * option handover_error :=
  match xb_lastVoteproof b with
  | None => (b, Some (EOther "no last voteproof"))
  | Some vp =>
      let prev := xb_previousChallengeHandover b in
      if 0 <? StagePoint_Compare point (vp_point vp) then (b, Some errHandoverReset)
      else if negb (StagePoint_IsZero prev) && (StagePoint_Compare point prev <=? 0) then (b, Some errHandoverReset)
      else (x_set_previous point b, None)
  end.

Definition error_text (er : handover_error) : string :=
  match er with
  | ErrHandoverCanceled => "handover canceled" | ErrHandoverStopped => "handover stopped"
  | errHandoverIgnore => "ignore" | errHandoverReset => "wrong" | EOther s => s
  end.

(** [ready] is what [CheckIsReady] answers. *)
Definition challengeIsReady (point : StagePoint) (successcount : Z) (ready : string + bool) b
    : HandoverXBroker * list xeffect * option handover_error :=
  let '(b, er) := challengeIsReadyOK point b in
  let '(isReady, er) :=
    match er with
    | Some _ => (false, er)
    | None =>
        if x_checkIsReady successcount then
          match ready with inl s => (false, Some (EOther s)) | inr r => (r, None) end
        else (false, None)
    end in
  let effs := [XRespond (HandoverMessageChallengeResponse (xb_id b) point isReady (error_text <$> er))] in
  match er with
  | Some _ => (x_set_readyEnd 0 b, effs, er)
  | None =>
      (if negb isReady || (0 <? xb_readyEnd b) then b
       else x_set_readyEnd (wrap_u 64 (successcount + xa_ReadyEnd args)) b, effs, None)
  end.

(** The new count, or an error. *)
Definition receiveChallenge (msg : HandoverMessage _) (ready : string + bool) (successcount : Z) b
    : res (x_result Z) :=
  match msg with
  | HandoverMessageChallengeStagePoint _ point => Ok (point, receiveStagePoint point b)
  | HandoverMessageChallengeBlockMap _ point (Some m) => receiveBlockMap m b ≫= fun r => Ok (point, r)
  | HandoverMessageChallengeBlockMap _ _ None => Panic
  | _ => Ok (ZeroStagePoint, (b, Some errHandoverIgnore))
  end ≫= fun '(point, (b, er)) =>
  match er with
  | Some er => Ok (b, [], inl er)
  | None =>
      let after := if xb_lastchallengecount b =? wrap_u 64 (xb_challengecount b - 1)
                   then wrap_u 64 (successcount + 1) else 1 in
      let b := x_set_answered b in
      let '(b, effs, er) := challengeIsReady point after ready b in
      Ok (b, effs, match er with Some er => inl er | None => inr after end)
  end.

Definition x_receiveInternal (msg : HandoverMessage _) (ready : string + bool) (successcount : Z) b
    : res (x_result Z) :=
  if xb_canceled b then Ok (b, [], inl ErrHandoverCanceled)
  else if negb (bool_decide (xb_id b = HandoverID msg)) then Ok (b, [], inl (EOther "id not matched"))
  else match HandoverMessage_IsValid (xa_NetworkID args) msg with
       | Panic => Panic
       | Err s => Ok (b, [], inl (EOther s))
       | Ok _ =>
           match msg with
           | HandoverMessageCancel _ =>
               let '(b, effs) := x_cancelByMessage b in Ok (b, effs, inl ErrHandoverCanceled)
           | HandoverMessageChallengeStagePoint _ _ | HandoverMessageChallengeBlockMap _ _ _ =>
               receiveChallenge msg ready successcount b
           | _ => Ok (b, [], inl errHandoverIgnore)
           end
       end.

(** [Receive]: a reset starts the count again, an error that is not one of the
    broker cancels. *)
Definition x_Receive (msg : HandoverMessage _) (ready : string + bool) b : res (x_result unit) :=
  if xb_isFinished b then Ok (b, [], inr tt)
  else
    x_receiveInternal msg ready (xb_successcount b) b ≫= fun '(b, effs, r) =>
    match r with
    | inr after => Ok (x_set_success after b, effs, inr tt)
    | inl errHandoverIgnore => Ok (b, effs, inr tt)
    | inl errHandoverReset => Ok (x_set_success 0 (x_set_readyEnd 0 b), effs, inr tt)
    | inl ErrHandoverCanceled => Ok (b, effs, inl ErrHandoverCanceled)
    | inl _ => let '(b, ceffs) := x_cancel b in Ok (b, effs ++ ceffs, inl ErrHandoverCanceled)
    end.

(** The goroutine that sends a response: it cancels when it may not fail any
    more. *)
Definition x_respond (sent : bool) b : HandoverXBroker * list xeffect :=
  let '(b, r) := x_endure sent b in
  match r with Ok _ => (b, []) | _ => x_cancel b end.
End x.

(** ** Y ([handover_y.go]) *)
Record HandoverYBroker := {
  yb_id : option string;
  yb_canceled : bool;
  yb_isReadyToAsk : bool;
  yb_isDataSynced : bool;
  yb_isFinished : bool;
  yb_sendFailureCount : Z;
  yb_maxEnsureAsk : Z
}.
Record HandoverYBrokerArgs := { ya_NetworkID : string; ya_MaxEnsureSendFailure : Z; ya_MaxEnsureAsk : Z }.
Definition NewHandoverYBroker (args : HandoverYBrokerArgs) : HandoverYBroker :=
  {| yb_id := None; yb_canceled := false; yb_isReadyToAsk := false; yb_isDataSynced := false; yb_isFinished := false;
     yb_sendFailureCount := 0; yb_maxEnsureAsk := ya_MaxEnsureAsk args |}.

Section y_setters.
Implicit Types (b : HandoverYBroker).
Definition y_set_id (id : option string) (n : Z) b : HandoverYBroker :=
  {| yb_id := id; yb_canceled := yb_canceled b; yb_isReadyToAsk := yb_isReadyToAsk b;
     yb_isDataSynced := yb_isDataSynced b; yb_isFinished := yb_isFinished b;
     yb_sendFailureCount := yb_sendFailureCount b; yb_maxEnsureAsk := n |}.
Definition y_set_canceled b : HandoverYBroker :=
  {| yb_id := yb_id b; yb_canceled := true; yb_isReadyToAsk := yb_isReadyToAsk b; yb_isDataSynced := yb_isDataSynced b;
     yb_isFinished := yb_isFinished b; yb_sendFailureCount := yb_sendFailureCount b;
     yb_maxEnsureAsk := yb_maxEnsureAsk b |}.
Definition y_set_finished b : HandoverYBroker :=
  {| yb_id := yb_id b; yb_canceled := yb_canceled b; yb_isReadyToAsk := yb_isReadyToAsk b;
     yb_isDataSynced := yb_isDataSynced b; yb_isFinished := true; yb_sendFailureCount := yb_sendFailureCount b;
     yb_maxEnsureAsk := yb_maxEnsureAsk b |}.
Definition y_set_failures (n : Z) b : HandoverYBroker :=
  {| yb_id := yb_id b; yb_canceled := yb_canceled b; yb_isReadyToAsk := yb_isReadyToAsk b;
     yb_isDataSynced := yb_isDataSynced b; yb_isFinished := yb_isFinished b; yb_sendFailureCount := n;
     yb_maxEnsureAsk := yb_maxEnsureAsk b |}.
(** The goroutine of the broker that syncs data: ready to ask, then synced; both
    are lost when the broker is canceled before. *)
Definition y_readyToAsk b : HandoverYBroker :=
  if yb_canceled b then b
  else {| yb_id := yb_id b; yb_canceled := false; yb_isReadyToAsk := true; yb_isDataSynced := yb_isDataSynced b;
          yb_isFinished := yb_isFinished b; yb_sendFailureCount := yb_sendFailureCount b;
          yb_maxEnsureAsk := yb_maxEnsureAsk b |}.
Definition y_dataSynced b : HandoverYBroker :=
  if yb_canceled b then b
  else {| yb_id := yb_id b; yb_canceled := false; yb_isReadyToAsk := yb_isReadyToAsk b; yb_isDataSynced := true;
          yb_isFinished := yb_isFinished b; yb_sendFailureCount := yb_sendFailureCount b;
          yb_maxEnsureAsk := yb_maxEnsureAsk b |}.
End y_setters.

Section y.
Context `{Crypto, BlockCrypto, HandoverData}.
Variable args : HandoverYBrokerArgs.
Implicit Types (b : HandoverYBroker).

Inductive yeffect :=
  | YSend (msg : HandoverMessage _)
  | YNewVoteproof (vp : Voteproof)
  | YWhenFinished (vp : option Voteproof)
  | YWhenCanceled.

Definition y_result (A : Type) : Type := HandoverYBroker * list yeffect * (handover_error + A).

Definition y_ID b : string := default "" (yb_id b).
Definition y_IsAsked b : bool := negb (String.length (y_ID b) <? 1)%nat.

Definition y_cancel b : HandoverYBroker * list yeffect :=
  if yb_canceled b then (b, [])
  else (y_set_canceled b, (if y_IsAsked b then [YSend (HandoverMessageCancel (y_ID b))] else []) ++ [YWhenCanceled]).
Definition y_cancelByMessage b : HandoverYBroker * list yeffect :=
  if yb_canceled b then (b, []) else (y_set_canceled b, [YWhenCanceled]).
Definition y_stop b : HandoverYBroker := y_set_canceled b.

(** [ask]: an empty id is an error. *)
Definition y_ask (answer : res (string * bool)) : res (string * bool) :=
  answer ≫= fun '(id, canMove) =>
  if (String.length id <? 1)%nat then Err "empty handover id" else Ok (id, canMove).

(** [Ask]: whether Y can move to consensus at once, and whether it has asked. *)
Definition y_Ask (answer : res (string * bool)) b : y_result (bool * bool) :=
  if yb_canceled b then (b, [], inl ErrHandoverCanceled)
  else if yb_isFinished b then (b, [], inl ErrHandoverStopped)
  else if negb (yb_isReadyToAsk b) then (b, [], inr (false, false))
  else
    match yb_id b with
    | Some id => (b, [], inr (false, negb (String.length id <? 1)%nat))
    | None =>
        if yb_maxEnsureAsk b <? 1 then
          let '(b, effs) := y_cancel b in (b, effs, inl ErrHandoverCanceled)
        else
          match y_ask answer with
          | Ok (id, canMove) => (y_set_id (Some id) (yb_maxEnsureAsk b) b, [], inr (canMove, true))
          | _ =>
              let b := y_set_id None (yb_maxEnsureAsk b - 1) b in
              if yb_maxEnsureAsk b <? 1 then
                let '(b, effs) := y_cancel b in (b, effs, inl ErrHandoverCanceled)
              else (b, [], inr (false, false))
          end
    end.

(** [sendStagePoint] and [sendBlockMap]: nothing is sent before the data are
    synced. *)
Definition y_send (msg : string -> HandoverMessage _) (sent : bool) b : y_result unit :=
  if yb_canceled b then (b, [], inl ErrHandoverCanceled)
  else if yb_isFinished b then (b, [], inl ErrHandoverStopped)
  else if negb (yb_isDataSynced b) then (b, [], inr tt)
  else if (String.length (y_ID b) <? 1)%nat then (b, [], inl (EOther "not yet asked"))
  else
    let '(n, r) := endureHandoverSendMessageFunc (yb_sendFailureCount b) (ya_MaxEnsureSendFailure args) sent in
    let effs := if tries (yb_sendFailureCount b) (ya_MaxEnsureSendFailure args) then [YSend (msg (y_ID b))] else [] in
    let b := y_set_failures n b in
    match r with
    | Ok _ => (b, effs, inr tt)
    | _ => let '(b, ceffs) := y_cancel b in (b, effs ++ ceffs, inl ErrHandoverCanceled)
    end.
Definition sendStagePoint (point : StagePoint) (sent : bool) b : y_result unit :=
  y_send (fun id => HandoverMessageChallengeStagePoint id point) sent b.
Definition sendBlockMap (point : StagePoint) (m : BlockMap) (sent : bool) b : y_result unit :=
  y_send (fun id => HandoverMessageChallengeBlockMap id point (Some m)) sent b.

(** What the node answers while Y receives: new data, and the end. *)
Record YNode := {
  NewDataFunc : HandoverMessageDataType -> handover_data -> option string;
  WhenFinished : option Voteproof -> option string
}.
Variable node : YNode.

Definition y_newVoteproof (vp : Voteproof) b : list yeffect * option handover_error :=
  ([YNewVoteproof vp], EOther <$> NewDataFunc node DataTypeVoteproof (DVoteproof vp)).

Definition receiveData (dataType : HandoverMessageDataType) (d : handover_data) b
    : list yeffect * option handover_error :=
  if bool_decide (dataType = DataTypeVoteproof) then
    match LoadVoteproofData d with Ok vp => y_newVoteproof vp b | _ => ([], Some errHandoverIgnore) end
  else if bool_decide (dataType = DataTypeINITVoteproof) then
    match LoadINITVoteproofData d with
    | Ok (pr, vp) =>
        let perr := match pr with
                    | None => None
                    | Some pr => NewDataFunc node DataTypeProposal (DProposal pr)
                    end in
        match perr with Some er => ([], Some (EOther er)) | None => y_newVoteproof vp b end
    | _ => ([], Some errHandoverIgnore)
    end
  else ([], EOther <$> NewDataFunc node dataType d).

Definition receiveFinish (pr : option ProposalSignFact) (vp : option Voteproof) b
    : HandoverYBroker * list yeffect * option handover_error :=
  if yb_isFinished b then (b, [], None)
  else
    let perr := match pr with None => None | Some pr => NewDataFunc node DataTypeProposal (DProposal pr) end in
    let werr := WhenFinished node vp in
    (y_set_finished b, [YWhenFinished vp], EOther <$> (match perr with Some er => Some er | None => werr end)).

Definition y_receiveInternal (msg : HandoverMessage _) b
    : res (HandoverYBroker * list yeffect * option handover_error) :=
  if (String.length (y_ID b) <? 1)%nat then Ok (b, [], Some (EOther "not yet asked"))
  else if negb (bool_decide (y_ID b = HandoverID msg)) then Ok (b, [], Some (EOther "id not matched"))
  else match HandoverMessage_IsValid (ya_NetworkID args) msg with
       | Ok _ =>
           Ok match msg with
              | HandoverMessageCancel _ =>
                  let '(b, effs) := y_cancelByMessage b in (b, effs, Some ErrHandoverCanceled)
              | HandoverMessageData _ dataType d => let '(effs, er) := receiveData dataType d b in (b, effs, er)
              | HandoverMessageChallengeResponse _ _ _ e => (b, [], EOther <$> e)
              | HandoverMessageFinish _ pr vp => receiveFinish pr vp b
              | _ => (b, [], Some errHandoverIgnore)
              end
       | Err s => Ok (b, [], Some (EOther s))
       | Panic => Panic
       end.

Definition y_Receive (msg : HandoverMessage _) b : res (y_result unit) :=
  if yb_canceled b then Ok (b, [], inl ErrHandoverCanceled)
  else if yb_isFinished b then Ok (b, [], inl ErrHandoverStopped)
  else
    y_receiveInternal msg b ≫= fun '(b, effs, er) =>
    match er with
    | None | Some errHandoverIgnore => Ok (b, effs, inr tt)
    | Some ErrHandoverCanceled => Ok (b, effs, inl ErrHandoverCanceled)
    | Some _ => let '(b, ceffs) := y_cancel b in Ok (b, effs ++ ceffs, inl ErrHandoverCanceled)
    end.
End y.

(** ** X finishes only after enough answers *)
Section answers.
Context `{Crypto, BlockCrypto, HandoverData}.
Variable args : HandoverXBrokerArgs.
Variable GetProposal : Hash -> option ProposalSignFact.
Implicit Types (b : HandoverXBroker) (tr effs : list xeffect).

(** What an effect tells of the challenge: a voteproof goes out, or an answer of Y
    is accepted. *)
Inductive xkind := KSent | KAccepted (p : StagePoint) | KNeutral.
Definition kind (e : xeffect) : xkind :=
  match e with
  | XSend (HandoverMessageData _ dataType _) =>
      if bool_decide (dataType ∈ [DataTypeVoteproof; DataTypeINITVoteproof]) then KSent else KNeutral
  | XRespond (HandoverMessageChallengeResponse _ p _ None) => KAccepted p
  | _ => KNeutral
  end.

(** The last [n] accepted answers of a trace, the newest effect first: one
    voteproof was sent between two of them, and [k] since the last, which is for
    the point [p]; the points go up. *)
Inductive answers : list xeffect -> nat -> nat -> StagePoint -> Prop :=
  | answers_first e tr p : kind e = KAccepted p -> answers (e :: tr) 1 0 p
  | answers_next e tr n p p' :
      answers tr n 1 p -> kind e = KAccepted p' -> 0 < StagePoint_Compare p' p -> answers (e :: tr) (S n) 0 p'
  | answers_sent e tr n k p : answers tr n k p -> kind e = KSent -> answers (e :: tr) n (S k) p
  | answers_neutral e tr n k p : answers tr n k p -> kind e = KNeutral -> answers (e :: tr) n k p.

(** All that happens to the broker, with the effects so far.  The states finish it
    without a voteproof when they leave consensus ([checkOutOfHandoverX]). *)
Inductive x_run : HandoverXBroker -> list xeffect -> Prop :=
  | run_new id : x_run (NewHandoverXBroker id) []
  | run_voteproof b tr vp sent outs b' effs r :
      x_run b tr -> sendVoteproof args GetProposal vp sent outs b = Ok (b', effs, r) -> x_run b' (rev effs ++ tr)
  | run_data b tr dataType d sent b' effs r :
      x_run b tr -> dataType ∉ [DataTypeVoteproof; DataTypeINITVoteproof] ->
      x_SendData args dataType d sent b = (b', effs, r) -> x_run b' (rev effs ++ tr)
  | run_receive b tr msg ready b' effs r :
      x_run b tr -> x_Receive args msg ready b = Ok (b', effs, r) -> x_run b' (rev effs ++ tr)
  | run_respond b tr sent b' effs : x_run b tr -> x_respond args sent b = (b', effs) -> x_run b' (rev effs ++ tr)
  | run_cancel b tr b' effs : x_run b tr -> x_cancel b = (b', effs) -> x_run b' (rev effs ++ tr)
  | run_stop b tr : x_run b tr -> x_run (x_stop b) tr
  | run_finish b tr outs b' effs r : x_run b tr -> x_finish None None outs b = (b', effs, r) -> x_run b' (rev effs ++ tr).

Lemma answers_all_neutral effs tr n k p :
  Forall (fun e => kind e = KNeutral) effs -> answers tr n k p -> answers (rev effs ++ tr) n k p.
Proof.
  intros Hf Ha. induction effs as [|e effs IH] using rev_ind; [done|].
  apply Forall_app in Hf as [Hf He]. rewrite rev_app_distr. simpl.
  apply answers_neutral; [by apply IH|by apply Forall_inv in He].
Qed.

(** What an accepted answer does, and what the others leave. *)
Definition answered (n after : Z) (point : StagePoint) b b' effs : Prop :=
  after = (if xb_lastchallengecount b =? wrap_u 64 (xb_challengecount b - 1) then wrap_u 64 (n + 1) else 1) /\
  xb_lastchallengecount b' = xb_challengecount b /\ xb_previousChallengeHandover b' = point /\
  (StagePoint_IsZero (xb_previousChallengeHandover b) = false ->
   0 < StagePoint_Compare point (xb_previousChallengeHandover b)) /\
  (xb_readyEnd b' = xb_readyEnd b \/
   (xa_MinChallengeCount args <= after /\ xb_readyEnd b' = wrap_u 64 (after + xa_ReadyEnd args))) /\
  exists e, effs = [e] /\ kind e = KAccepted point.
Definition unanswered (er : handover_error) b b' effs : Prop :=
  er <> ErrHandoverCanceled /\ Forall (fun e => kind e = KNeutral) effs /\
  (er = errHandoverIgnore -> effs = [] /\ xb_lastchallengecount b' = xb_lastchallengecount b /\
     xb_previousChallengeHandover b' = xb_previousChallengeHandover b /\ xb_readyEnd b' = xb_readyEnd b) /\
  (er = errHandoverReset -> xb_lastchallengecount b' ∈ [xb_lastchallengecount b; xb_challengecount b] /\
     xb_previousChallengeHandover b' = xb_previousChallengeHandover b).
(** What an answer never changes. *)
Definition same_counts b b' : Prop :=
  xb_canceled b' = xb_canceled b /\ xb_isFinished b' = xb_isFinished b /\ xb_id b' = xb_id b /\
  xb_successcount b' = xb_successcount b /\ xb_challengecount b' = xb_challengecount b /\
  xb_lastVoteproof b' = xb_lastVoteproof b.

Lemma challengeIsReady_spec point n ready b b' effs er :
  challengeIsReady args point n ready b = (b', effs, er) ->
  same_counts b b' /\ xb_lastchallengecount b' = xb_lastchallengecount b /\
  match er with
  | None => xb_previousChallengeHandover b' = point /\
      (StagePoint_IsZero (xb_previousChallengeHandover b) = false ->
       0 < StagePoint_Compare point (xb_previousChallengeHandover b)) /\
      (xb_readyEnd b' = xb_readyEnd b \/
       (xa_MinChallengeCount args <= n /\ xb_readyEnd b' = wrap_u 64 (n + xa_ReadyEnd args))) /\
      exists e, effs = [e] /\ kind e = KAccepted point
  | Some er => er <> errHandoverIgnore /\ er <> ErrHandoverCanceled /\ Forall (fun e => kind e = KNeutral) effs /\
      (er = errHandoverReset -> xb_previousChallengeHandover b' = xb_previousChallengeHandover b)
  end.
Proof.
  unfold challengeIsReady, challengeIsReadyOK. destruct (xb_lastVoteproof b) as [vp|].
  2: { intros [= <- <- <-]. split; [done|]. split; [done|]. split_and!; [done|done|by repeat constructor|done]. }
  destruct (0 <? StagePoint_Compare point (vp_point vp)).
  { intros [= <- <- <-]. split; [done|]. split; [done|]. split_and!; [done|done|by repeat constructor|done]. }
  destruct (negb (StagePoint_IsZero (xb_previousChallengeHandover b)) && _) eqn:Eprev.
  { intros [= <- <- <-]. split; [done|]. split; [done|]. split_and!; [done|done|by repeat constructor|done]. }
  assert (StagePoint_IsZero (xb_previousChallengeHandover b) = false ->
    0 < StagePoint_Compare point (xb_previousChallengeHandover b)) as Hprev.
  { intros Hz. rewrite Hz in Eprev. cbn [negb andb] in Eprev. by apply Z.leb_gt in Eprev. }
  unfold x_checkIsReady. destruct (Z.leb_spec (xa_MinChallengeCount args) n) as [Hmin|Hmin].
  - destruct ready as [t|r].
    + intros [= <- <- <-]. split; [done|]. split; [done|]. split_and!; [done|done|by repeat constructor|done].
    + intros [= <- <- <-]. destruct (negb r || _); (split; [done|split; [done|]]); (split_and!; [done|done| |by eexists]);
        [by left|by right].
  - intros [= <- <- <-]. cbn [negb orb]. split; [done|]. split; [done|]. split_and!; [done|done|by left|by eexists].
Qed.

(** The check of what Y sent, before it counts. *)
Lemma received_spec (msg : HandoverMessage _) b point b1 er :
  match msg with
  | HandoverMessageChallengeStagePoint _ point => Ok (point, receiveStagePoint point b)
  | HandoverMessageChallengeBlockMap _ point (Some m) => receiveBlockMap args m b ≫= fun r => Ok (point, r)
  | HandoverMessageChallengeBlockMap _ _ None => Panic
  | _ => Ok (ZeroStagePoint, (b, Some errHandoverIgnore))
  end = Ok (point, (b1, er)) ->
  same_counts b b1 /\ xb_lastchallengecount b1 = xb_lastchallengecount b /\
  xb_previousChallengeHandover b1 = xb_previousChallengeHandover b /\ xb_readyEnd b1 = xb_readyEnd b /\
  er <> Some ErrHandoverCanceled /\
  (er = None -> xb_lastVoteproof b <> None /\ exists id,
     msg = HandoverMessageChallengeStagePoint id point \/ exists m, msg = HandoverMessageChallengeBlockMap id point (Some m)).
Proof.
  destruct msg as [| |id q|id q [m|]| |]; try (intros [= <- <- <-]; done).
  - unfold receiveStagePoint. intros [= <- Hr].
    destruct (match xb_lastReceived b with Some (LastStagePoint p) => _ | _ => None end) as [h|] eqn:Eo;
      injection Hr as <- <-.
    { assert (h = errHandoverIgnore) as -> by (repeat case_match; congruence). done. }
    split_and!; try done; cbn [xb_lastVoteproof x_set_received].
    + repeat case_match; done.
    + destruct (xb_lastVoteproof b); [|done]. intros _. split; [done|]. eauto.
  - intros ([b2 er2] & Hr & [= <- <- <-])%bind_ok. unfold receiveBlockMap in Hr.
    destruct (negb (bool_decide (bs_node _ = _))); [by injection Hr as <- <-|].
    destruct (negb (bool_decide (bs_signer _ = _))); [by injection Hr as <- <-|].
    destruct (match xb_lastReceived b with Some (LastBlockMap p) => _ | _ => None end) as [h|] eqn:Eo.
    { injection Hr as <- <-. assert (h = errHandoverIgnore) as -> by (repeat case_match; congruence). done. }
    cbn [xb_lastVoteproof x_set_received] in Hr.
    destruct (xb_lastVoteproof b) as [vp|] eqn:Ev; [|by injection Hr as <- <-].
    destruct (is_init_type vp || _); [injection Hr as <- <-; by repeat split; cbn|].
    apply bind_ok in Hr as ([mj|] & _ & Hr); [|done]. injection Hr as <- <-.
    split_and!; try done; [by case_bool_decide|]. intros _. split; [done|]. eauto.
Qed.

Lemma receiveChallenge_spec msg ready n b b' effs r :
  receiveChallenge args msg ready n b = Ok (b', effs, r) ->
  same_counts b b' /\
  match r with
  | inr after => exists id point, answered n after point b b' effs /\
      (msg = HandoverMessageChallengeStagePoint id point \/ exists m, msg = HandoverMessageChallengeBlockMap id point (Some m))
  | inl er => unanswered er b b' effs
  end.
Proof.
  unfold receiveChallenge. intros ([point [b1 er]] & Hm & Hr)%bind_ok.
  apply received_spec in Hm as (Hsame & Hl & Hp & Hre & Hnc & Hok). destruct er as [er|].
  - injection Hr as <- <- <-. split; [done|]. split; [congruence|]. split; [constructor|]. split; intros _.
    + by rewrite Hl, Hp, Hre.
    + rewrite Hl, Hp. split; [set_solver|done].
  - destruct (Hok eq_refl) as (_ & id & Hmsg). destruct Hsame as (S1 & S2 & S3 & S4 & S5 & S6). rewrite Hl, S5 in Hr.
    set (after := if _ =? _ then _ else 1) in Hr.
    destruct (challengeIsReady args point after ready (x_set_answered b1)) as [[b2 effs2] er2] eqn:Ec.
    injection Hr as <- <- <-. apply challengeIsReady_spec in Ec as (Hs & Hl2 & Hcase).
    unfold same_counts in *. cbn [xb_canceled xb_isFinished xb_id xb_successcount xb_challengecount xb_lastVoteproof
      xb_lastchallengecount xb_previousChallengeHandover xb_readyEnd x_set_answered] in *.
    destruct Hs as (G1 & G2 & G3 & G4 & G5 & G6). split; [by split_and!; etrans|]. destruct er2 as [er2|].
    + destruct Hcase as (Hni & Hnc2 & Hn & Hreset). split; [done|]. split; [done|]. split; [done|]. intros Her.
      rewrite Hl2, (Hreset Her), S5, Hp. split; [set_solver|done].
    + exists id, point. split; [|done]. rewrite Hp, Hre in Hcase. unfold answered. rewrite Hl2, S5. by split.
Qed.

(** A trace so far, while the broker is not canceled. *)
Record x_inv b tr : Prop := {
  inv_success : 0 <= xb_successcount b <= Z.of_nat (length tr);
  inv_challenge : 0 <= xb_lastchallengecount b <= xb_challengecount b;
  inv_sent : xb_challengecount b <= Z.of_nat (length tr);
  inv_ready : xb_readyEnd b = 0 \/ xa_MinChallengeCount args + xa_ReadyEnd args <= xb_readyEnd b;
  inv_answers : xb_successcount b = 0 \/
    (StagePoint_IsZero (xb_previousChallengeHandover b) = false /\
     answers tr (Z.to_nat (xb_successcount b)) (Z.to_nat (xb_challengecount b - xb_lastchallengecount b))
       (xb_previousChallengeHandover b))
}.

Definition same_challenge b b' : Prop :=
  xb_successcount b' = xb_successcount b /\ xb_challengecount b' = xb_challengecount b /\
  xb_lastchallengecount b' = xb_lastchallengecount b /\ xb_readyEnd b' = xb_readyEnd b /\
  xb_previousChallengeHandover b' = xb_previousChallengeHandover b.

(** Effects that say nothing about the challenge, with the counts unchanged. *)
Lemma inv_neutral b b' tr effs :
  x_inv b tr -> same_challenge b b' -> Forall (fun e => kind e = KNeutral) effs -> x_inv b' (rev effs ++ tr).
Proof.
  intros [I1 I2 I3 I4 I5] (Hs & Hc & Hl & Hr & Hp) Hf.
  assert (length tr <= length (rev effs ++ tr))%nat as Hlen by (rewrite length_app; lia).
  constructor; rewrite ?Hs, ?Hc, ?Hl, ?Hr, ?Hp; [lia|lia|lia|done|].
  destruct I5 as [?|[Hz Ha]]; [by left|right]. split; [done|]. by apply answers_all_neutral.
Qed.

Lemma x_cancel_spec b b' effs :
  x_cancel b = (b', effs) ->
  xb_canceled b' = true /\ same_challenge b b' /\ Forall (fun e => kind e = KNeutral) effs.
Proof.
  unfold x_cancel. destruct (xb_canceled b) eqn:E; intros [= <- <-]; (split; [done|split; [done|]]); by repeat constructor.
Qed.

(** The bound of the trace keeps the counters in their width. *)
Hypothesis args_ok : 0 <= xa_MinChallengeCount args < 2 ^ 62 /\ 0 <= xa_ReadyEnd args < 2 ^ 62.

Lemma inv_answered b b' tr n after point effs :
  x_inv b tr -> Z.of_nat (length tr) < 2 ^ 62 -> n = xb_successcount b -> StagePoint_IsZero point = false ->
  same_counts b b' -> answered n after point b b' effs -> x_inv (x_set_success after b') (rev effs ++ tr).
Proof.
  intros [I1 I2 I3 I4 I5] Hlen -> Hz (_ & _ & _ & _ & Hc & _) (Ha & Hl & Hp & Hgt & Hr & e & -> & Hk).
  change (rev [e] ++ tr) with (e :: tr).
  assert (answers (e :: tr) (Z.to_nat after) 0 point /\ 1 <= after <= xb_successcount b + 1) as [Hans Hafter].
  { rewrite Ha. destruct (Z.eqb_spec (xb_lastchallengecount b) (wrap_u 64 (xb_challengecount b - 1))) as [E|E].
    2: { split; [by apply answers_first|lia]. }
    rewrite wrap_u_small by lia. destruct I5 as [I5|[Hz' I5]].
    { rewrite I5. split; [by apply answers_first|lia]. }
    split; [|lia]. rewrite Z2Nat.inj_add, Nat.add_1_r by lia. apply (answers_next e tr _ (xb_previousChallengeHandover b)); [|done|by apply Hgt].
    destruct (Z.eq_dec (xb_challengecount b) 0) as [E0|E0].
    { rewrite E0 in E. change (wrap_u 64 (0 - 1)) with (2 ^ 64 - 1) in E. lia. }
    rewrite wrap_u_small in E by lia. replace (xb_challengecount b - xb_lastchallengecount b) with 1 in I5 by lia. done. }
  constructor; cbn [xb_successcount xb_challengecount xb_lastchallengecount xb_readyEnd xb_previousChallengeHandover x_set_success];
    simpl length; rewrite ?Hc, ?Hl, ?Hp, ?Z.sub_diag; [lia|lia|lia| |right; by split].
  destruct Hr as [->|[Hmin ->]]; [done|]. right. rewrite wrap_u_small by lia. lia.
Qed.

Lemma x_SendData_step dataType d sent b b' effs r :
  x_SendData args dataType d sent b = (b', effs, r) ->
  xb_canceled b' = false -> xb_canceled b = false /\ same_challenge b b' /\
  (Forall (fun e => kind e = KNeutral) effs \/
   effs = [XSend (HandoverMessageData (xb_id b) dataType d)]) /\
  (xb_isFinished b = false -> effs = [XSend (HandoverMessageData (xb_id b) dataType d)]).
Proof.
  unfold x_SendData, x_endure, endureHandoverSendMessageFunc. intros Hs Hc.
  destruct (xb_canceled b) eqn:Eb; [injection Hs as <- <- <-; congruence|].
  destruct (xb_isFinished b) eqn:Ef; [injection Hs as <- <- <-; split_and!; [done|done|by left|done]|].
  destruct (tries _ _); cbn [negb] in Hs.
  - destruct sent.
    + injection Hs as <- <- <-. split_and!; [done|done|by right|done].
    + destruct (_ <? _).
      * injection Hs as <- <- <-. split_and!; [done|done|by right|done].
      * destruct (x_cancel _) as [b2 e2] eqn:E2. injection Hs as <- <- <-. apply x_cancel_spec in E2 as [? _]. congruence.
  - destruct (x_cancel _) as [b2 e2] eqn:E2. injection Hs as <- <- <-. apply x_cancel_spec in E2 as [? _]. congruence.
Qed.

Lemma sendVoteproofErr_step pr vp sent b b' effs r tr :
  x_inv b tr -> Z.of_nat (length tr) < 2 ^ 62 -> xb_canceled b = false -> xb_isFinished b = false ->
  sendVoteproofErr args pr vp sent b = (b', effs, r) -> xb_canceled b' = false -> x_inv b' (rev effs ++ tr).
Proof.
  intros [I1 I2 I3 I4 I5] Hlen Hb Hf Hs Hc. unfold sendVoteproofErr in Hs.
  assert (exists dt d, dt ∈ [DataTypeVoteproof; DataTypeINITVoteproof] /\
    x_SendData args dt d sent (x_set_sent vp b) = (b', effs, r)) as (dt & d & Hdt & Hd).
  { destruct (negb (is_init_type vp) || _); eexists _, _; (split; [|exact Hs]); set_solver. }
  destruct (x_SendData_step _ _ _ _ _ _ _ Hd Hc) as (_ & (E1 & E2 & E3 & E4 & E5) & _ & He).
  rewrite (He Hf). simpl.
  cbn [xb_successcount xb_challengecount xb_lastchallengecount xb_readyEnd xb_previousChallengeHandover x_set_sent] in *.
  rewrite wrap_u_small in E2 by lia.
  constructor; simpl length; rewrite ?E1, ?E2, ?E3, ?E4, ?E5; [lia|lia|lia|done|].
  destruct I5 as [?|[Hz Ha]]; [by left|right]. split; [done|].
  replace (Z.to_nat (xb_challengecount b + 1 - xb_lastchallengecount b))
    with (S (Z.to_nat (xb_challengecount b - xb_lastchallengecount b))) by lia.
  apply answers_sent; [done|]. unfold kind. by rewrite bool_decide_true.
Qed.

(** When [sendVoteproof] finishes. *)
Lemma isReadyToFinish_ok vp b :
  isReadyToFinish args (Some vp) b = inr true ->
  is_init_type vp = true /\ 1 <= xb_readyEnd b <= xb_successcount b /\
  xa_MinChallengeCount args <= xb_successcount b.
Proof.
  unfold isReadyToFinish, x_isReady, x_checkIsReady. destruct (xb_canceled b), (xb_isFinished b); try done.
  destruct (is_init_type vp); [|done]. cbn [negb]. destruct (Z.ltb_spec (xb_readyEnd b) 1); [done|].
  intros [= [?%Z.leb_le ?%Z.leb_le]%andb_true_iff]. lia.
Qed.

Lemma x_finish_step vp pr outs b b' effs r : xb_canceled b = false -> x_finish vp pr outs b = (b', effs, r) -> xb_canceled b' = false ->
  same_challenge b b' /\ Forall (fun e => kind e = KNeutral) effs.
Proof.
  intros Hb Hs Hc. unfold x_finish in Hs. rewrite Hb in Hs. destruct (xb_isFinished b); [injection Hs as <- <- <-; by repeat constructor|].
  destruct (retryHandoverSendMessageFunc _ _);
    [injection Hs as <- <- <-; by repeat constructor|destruct (x_cancel b) as [b1 e1] eqn:E1; injection Hs as <- <- <-; apply x_cancel_spec in E1 as [? _]; congruence..].
Qed.
Lemma sendVoteproof_step vp sent outs b b' effs r tr :
  x_inv b tr -> Z.of_nat (length tr) < 2 ^ 62 -> xb_canceled b = false ->
  sendVoteproof args GetProposal vp sent outs b = Ok (b', effs, r) -> xb_canceled b' = false ->
  x_inv b' (rev effs ++ tr).
Proof.
  intros Hi Hlen Hb Hs Hc. unfold sendVoteproof in Hs. rewrite Hb in Hs.
  destruct (xb_isFinished b) eqn:Ef; [by injection Hs as <- <- <-|].
  apply bind_ok in Hs as (pr & _ & Hs).
  destruct (if is_init_type vp then _ else _) as [er|[]]; [by injection Hs as <- <- <-|..].
  - destruct (x_finish (Some vp) pr outs b) as [[b1 e1] r1] eqn:E1. injection Hs as <- <- <-.
    destruct (x_finish_step _ _ _ _ _ _ _ Hb E1 Hc) as [Hsame Hneu]. by apply (inv_neutral b).
  - destruct (sendVoteproofErr args pr vp sent b) as [[b1 e1] r1] eqn:E1.
    destruct r1 as [er|[]]; [|injection Hs as <- <- <-; by eapply sendVoteproofErr_step].
    assert ((b', effs) = (b1, e1) \/ xb_canceled b' = true) as [[= -> ->]|Hcan].
    { destruct er; try (destruct (x_cancel b1) as [b2 e2] eqn:E2; injection Hs as <- <- <-;
        apply x_cancel_spec in E2 as [? _]; by right). injection Hs as <- <- <-. by left. }
    + by eapply sendVoteproofErr_step.
    + congruence.
Qed.

Lemma x_receiveInternal_spec msg ready n b b1 e1 r1 :
  xb_canceled b = false -> x_receiveInternal args msg ready n b = Ok (b1, e1, r1) ->
  xb_canceled b1 = true /\ r1 = inl ErrHandoverCanceled \/
  same_counts b b1 /\
  match r1 with
  | inr after => exists point, StagePoint_IsZero point = false /\ answered n after point b b1 e1
  | inl er => unanswered er b b1 e1
  end.
Proof.
  intros Hb. unfold x_receiveInternal. rewrite Hb.
  assert (forall er, er <> ErrHandoverCanceled -> er <> errHandoverReset -> unanswered er b b []) as Hself.
  { intros er Hc Hr. split; [done|]. split; [constructor|]. by split. }
  destruct (negb (bool_decide _)); [intros [= <- <- <-]; right; split; [done|by apply Hself]|].
  destruct (HandoverMessage_IsValid _ _) as [[]|m|] eqn:Ev; [|intros [= <- <- <-]; right; split; [done|by apply Hself]|done].
  destruct msg as [| |id p|id p m| |];
    try (intros [= <- <- <-]; right; split; [done|by apply Hself]).
  - intros Hr. apply receiveChallenge_spec in Hr as [Hs Hr]. right. split; [done|]. destruct r1 as [er|after]; [done|].
    destruct Hr as (id' & point & Ha & [[= <- <-]|[m [= _ _]]]). exists p. split; [|done].
    simpl in Ev. apply bind_err_ok in Ev as [_ Ev]. unfold StagePoint_IsValid in Ev.
    apply bind_err_ok in Ev as [Hp Hst]. unfold StagePoint_IsZero. rewrite Hst.
    apply point_valid_inv in Hp. unfold Point_IsZero, Height_IsZero, NilHeight.
    destruct (Z.leb_spec (p_h (sp_point p)) (-1)); [lia|done].
  - intros Hr. apply receiveChallenge_spec in Hr as [Hs Hr]. right. split; [done|]. destruct r1 as [er|after]; [done|].
    destruct Hr as (id' & point & Ha & [[= _ _]|[m' [= <- <- ->]]]). exists p. split; [|done].
    simpl in Ev. apply bind_err_ok in Ev as [_ [Ev _]%bind_err_ok]. apply guard_err_ok in Ev. exact Ev.
  - unfold x_cancelByMessage. rewrite Hb. intros [= <- <- <-]. by left.
Qed.

Lemma x_receive_step msg ready b b' effs r tr :
  x_inv b tr -> Z.of_nat (length tr) < 2 ^ 62 -> xb_canceled b = false ->
  x_Receive args msg ready b = Ok (b', effs, r) -> xb_canceled b' = false -> x_inv b' (rev effs ++ tr).
Proof.
  intros Hi Hlen Hb Hs Hc. unfold x_Receive in Hs.
  destruct (xb_isFinished b); [by injection Hs as <- <- <-|].
  apply bind_ok in Hs as ([[b1 e1] r1] & Hrec & Hs).
  destruct (x_receiveInternal_spec _ _ _ _ _ _ _ Hb Hrec) as [[Hcan ->]|[Hsame Hr]];
    [injection Hs as <- <- <-; congruence|].
  destruct r1 as [er|after].
  2: { injection Hs as <- <- <-. destruct Hr as (point & Hz & Ha). by eapply inv_answered. }
  destruct Hr as (Hnc & Hneu & Hign & Hres). destruct Hsame as (_ & _ & _ & S4 & S5 & _).
  destruct er; try done; try (destruct (x_cancel b1) as [b2 e2] eqn:E2; injection Hs as <- <- <-;
    apply x_cancel_spec in E2 as [? _]; congruence).
  - destruct (Hign eq_refl) as (-> & Hl & Hp & Hre). injection Hs as <- <- <-. apply (inv_neutral b); [done| |done].
    by split_and!.
  - destruct (Hres eq_refl) as [Hl Hp]. injection Hs as <- <- <-. destruct Hi as [I1 I2 I3 I4 I5].
    assert (length tr <= length (rev e1 ++ tr))%nat by (rewrite length_app; lia).
    constructor; cbn [xb_successcount xb_challengecount xb_lastchallengecount xb_readyEnd x_set_success x_set_readyEnd];
      rewrite ?S5; [lia| |lia|by left|by left].
    apply elem_of_cons in Hl as [->|[->|[]%not_elem_of_nil]%elem_of_cons]; lia.
Qed.

Lemma run_inv b tr :
  x_run b tr -> Z.of_nat (length tr) < 2 ^ 62 -> xb_canceled b = false -> x_inv b tr.
Proof.
  induction 1 as [id|b tr vp sent outs b' effs r Hrun IH Hs|b tr dt d sent b' effs r Hrun IH Hdt Hs
    |b tr msg ready b' effs r Hrun IH Hs|b tr sent b' effs Hrun IH Hs|b tr b' effs Hrun IH Hs|b tr Hrun IH|b tr outs b' effs r Hrun IH Hs]; intros Hlen Hc.
  - constructor; simpl; [lia|lia|lia|by left|by left].
  - rewrite length_app in Hlen. destruct (xb_canceled b) eqn:Eb.
    { unfold sendVoteproof in Hs. rewrite Eb in Hs. injection Hs as <- <- <-. congruence. }
    eapply sendVoteproof_step; [apply IH; [lia|done]|lia|done..].
  - rewrite length_app in Hlen. destruct (x_SendData_step _ _ _ _ _ _ _ Hs Hc) as (Hb & Hsame & He & _).
    apply (inv_neutral b); [apply IH; [lia|done]|done|].
    destruct He as [He| ->]; [done|]. constructor; [|constructor]. simpl. by rewrite bool_decide_false.
  - rewrite length_app in Hlen. destruct (xb_canceled b) eqn:Eb.
    { unfold x_Receive, x_receiveInternal in Hs. rewrite Eb in Hs.
      destruct (xb_isFinished b); injection Hs as <- <- <-; congruence. }
    eapply x_receive_step; [apply IH; [lia|done]|lia|done..].
  - rewrite length_app in Hlen. unfold x_respond, x_endure in Hs.
    destruct (endureHandoverSendMessageFunc _ _ _) as [n [[]|m|]] eqn:E; [|apply x_cancel_spec in Hs as [? _]; congruence..].
    injection Hs as <- <-. simpl in Hc. apply (inv_neutral b); [apply IH; [lia|done]|done|constructor].
  - rewrite length_app in Hlen. apply x_cancel_spec in Hs as [? _]. congruence.
  - done.
  - rewrite length_app in Hlen. destruct (xb_canceled b) eqn:Eb.
    { unfold x_finish in Hs. rewrite Eb in Hs. injection Hs as <- <- <-. congruence. }
    destruct (x_finish_step _ _ _ _ _ _ _ Eb Hs Hc) as [Hsame Hneu]. apply (inv_neutral b); [apply IH; [lia|done]|done|done].
Qed.

(** *** Ends of a handover *)
(** Only [finish] ends a handover. *)
Definition no_finish effs : Prop := Forall (fun e => forall v, e <> XWhenFinished v) effs.

Lemma x_cancel_no_finish b b' effs : x_cancel b = (b', effs) -> no_finish effs.
Proof. unfold x_cancel. destruct (xb_canceled b); intros [= _ <-]; by repeat constructor. Qed.
Lemma x_SendData_no_finish dt d sent b b' effs r : x_SendData args dt d sent b = (b', effs, r) -> no_finish effs.
Proof.
  unfold x_SendData, x_endure. destruct (xb_canceled b), (xb_isFinished b); try (intros [= _ <- _]; constructor).
  destruct (endureHandoverSendMessageFunc _ _ _) as [n [[]|m|]];
    [intros [= _ <- _]; destruct (tries _ _); by repeat constructor|..];
    (destruct (x_cancel _) as [b2 e2] eqn:E2; intros [= _ <- _]; apply Forall_app; split;
     [destruct (tries _ _); by repeat constructor|by eapply x_cancel_no_finish]).
Qed.
Lemma receiveChallenge_no_finish msg ready n b b' effs r : receiveChallenge args msg ready n b = Ok (b', effs, r) -> no_finish effs.
Proof.
  unfold receiveChallenge. intros ([point [b1 [er|]]] & _ & Hr)%bind_ok; [by injection Hr as _ <- _; constructor|].
  destruct (challengeIsReady _ _ _ _ _) as [[b2 e2] er2] eqn:E2. injection Hr as _ <- _. unfold challengeIsReady in E2.
  destruct (challengeIsReadyOK _ _) as [b3 er3]. destruct (match er3 with Some _ => _ | None => _ end) as [rd er4].
  destruct er4; injection E2 as _ <- _; by repeat constructor.
Qed.
Lemma x_Receive_no_finish msg ready b b' effs r : x_Receive args msg ready b = Ok (b', effs, r) -> no_finish effs.
Proof.
  unfold x_Receive. destruct (xb_isFinished b); [intros [= _ <- _]; constructor|]. intros ([[b1 e1] r1] & Hr & Hs)%bind_ok.
  assert (no_finish e1) as He.
  { unfold x_receiveInternal in Hr. destruct (xb_canceled b) eqn:Eb; [by injection Hr as _ <- _; constructor|].
    destruct (negb _); [by injection Hr as _ <- _; constructor|]. destruct (HandoverMessage_IsValid _ _); [|by injection Hr as _ <- _; constructor|done].
    destruct msg; try (by injection Hr as _ <- _; constructor); try by eapply receiveChallenge_no_finish.
    unfold x_cancelByMessage in Hr. rewrite Eb in Hr. injection Hr as _ <- _. by repeat constructor. }
  destruct r1 as [[]|]; try (by injection Hs as _ <- _);
    (destruct (x_cancel b1) as [b2 e2] eqn:E2; injection Hs as _ <- _; apply Forall_app; split; [done|by eapply x_cancel_no_finish]).
Qed.
Lemma x_respond_no_finish sent b b' effs : x_respond args sent b = (b', effs) -> no_finish effs.
Proof.
  unfold x_respond. destruct (x_endure _ _ _) as [b1 [[]|m|]]; [intros [= _ <-]; constructor|intros ?; by eapply x_cancel_no_finish..].
Qed.
(** What is done in [finish]: the effects, the newest first. *)
Lemma x_finish_effects vp pr outs b b' effs r : x_finish vp pr outs b = (b', effs, r) ->
  effs = [] \/ exists ceffs, no_finish ceffs /\ xb_canceled b = false /\ xb_isFinished b = false /\
    effs = XSend (HandoverMessageFinish (xb_id b) pr vp) :: XWhenFinished vp :: ceffs.
Proof.
  unfold x_finish. destruct (xb_canceled b) eqn:Eb; [intros [= _ <- _]; by left|]. destruct (xb_isFinished b); [intros [= _ <- _]; by left|].
  destruct (retryHandoverSendMessageFunc _ _); [intros [= _ <- _]; right; exists []; by repeat constructor|..];
    (destruct (x_cancel b) as [b2 e2] eqn:E2; intros [= _ <- _]; right; exists e2; split; [by eapply x_cancel_no_finish|done]).
Qed.

(** Enough answers before each end with a voteproof. *)
Definition enough tr vp : Prop := is_init_type vp = true /\
  exists n k p, answers tr n k p /\ xa_MinChallengeCount args + xa_ReadyEnd args <= Z.of_nat n.
Definition ends_ok tr : Prop := forall tr1 vp tr2, tr = tr1 ++ XWhenFinished (Some vp) :: tr2 -> enough tr2 vp.
Lemma ends_cons e tr : ends_ok tr -> (forall vp, e = XWhenFinished (Some vp) -> enough tr vp) -> ends_ok (e :: tr).
Proof. intros Htr He [|e1 tr1] vp tr2 [= -> ->]; [by apply He|by eapply Htr]. Qed.
Lemma ends_neutral effs tr : no_finish effs -> ends_ok tr -> ends_ok (rev effs ++ tr).
Proof.
  intros Hf Htr. induction effs as [|e effs IH] using rev_ind; [done|]. apply Forall_app in Hf as [Hf He]. rewrite rev_app_distr. simpl.
  apply ends_cons; [by apply IH|]. intros vp ->. by destruct (Forall_inv He (Some vp)).
Qed.
Lemma ends_finish vp pr outs b b' effs r tr : x_finish vp pr outs b = (b', effs, r) -> ends_ok tr ->
  (forall v e, vp = Some v -> xb_canceled b = false -> xb_isFinished b = false -> kind e = KNeutral -> enough (e :: tr) v) -> ends_ok (rev effs ++ tr).
Proof.
  intros Hs Htr He. apply x_finish_effects in Hs as [->|(ceffs & Hc & Eb & Ef & ->)]; [done|]. simpl. rewrite <- !app_assoc. apply ends_neutral; [done|]. simpl.
  apply ends_cons; [by apply ends_cons|]. intros v [= ->]. by apply He.
Qed.
Lemma enough_now b tr vp e : x_run b tr -> Z.of_nat (length tr) < 2 ^ 62 -> xb_canceled b = false ->
  isReadyToFinish args (Some vp) b = inr true -> kind e = KNeutral -> enough (e :: tr) vp.
Proof.
  intros Hrun Hlen Eb Er Hk. apply isReadyToFinish_ok in Er as (Ei & [R1 R2] & R3).
  destruct (run_inv b tr Hrun Hlen Eb) as [I1 _ _ I4 [I5|[_ Ha]]]; [lia|]. split; [done|]. eexists _, _, _. split; [by apply answers_neutral|]. lia.
Qed.
Lemma sendVoteproof_ends vp sent outs b b' effs r tr : x_run b tr -> Z.of_nat (length tr) < 2 ^ 62 -> ends_ok tr ->
  sendVoteproof args GetProposal vp sent outs b = Ok (b', effs, r) -> ends_ok (rev effs ++ tr).
Proof.
  intros Hrun Hlen Htr Hs. unfold sendVoteproof in Hs.
  destruct (xb_canceled b) eqn:Eb; [by injection Hs as <- <- <-|]. destruct (xb_isFinished b) eqn:Ef; [by injection Hs as <- <- <-|].
  apply bind_ok in Hs as (pr & _ & Hs). destruct (if is_init_type vp then _ else _) as [er|[]] eqn:Er; [by injection Hs as <- <- <-|..].
  - destruct (is_init_type vp); [|done]. destruct (x_finish (Some vp) pr outs b) as [[b1 e1] r1] eqn:E1. injection Hs as <- <- <-.
    eapply ends_finish; [exact E1|done|]. intros v e [= <-] _ _ Hk. by eapply enough_now.
  - destruct (sendVoteproofErr args pr vp sent b) as [[b1 e1] r1] eqn:E1.
    assert (no_finish e1) as He1 by (unfold sendVoteproofErr in E1; destruct (negb (is_init_type vp) || _); by eapply x_SendData_no_finish).
    apply ends_neutral; [|done]. destruct r1 as [[]|[]]; try (by injection Hs as _ <- _);
      (destruct (x_cancel b1) as [b2 e2] eqn:E2; injection Hs as _ <- _; apply Forall_app; split; [done|by eapply x_cancel_no_finish]).
Qed.

(** C20: along anything that happens to the broker of X, a handover ends with a
    voteproof only if it is an INIT voteproof, and only after X accepted enough answers
    of Y in a row, each to the next voteproof, for points that go up.  The other end is
    the one of the states, without a voteproof, when they leave consensus
    ([checkOutOfHandoverX]); it needs no answers. *)
Theorem finish_after_answers b tr tr1 vp tr2 : x_run b tr -> Z.of_nat (length tr) < 2 ^ 62 -> tr = tr1 ++ XWhenFinished (Some vp) :: tr2 ->
  is_init_type vp = true /\
  exists n k p, answers tr2 n k p /\ xa_MinChallengeCount args + xa_ReadyEnd args <= Z.of_nat n.
Proof.
  intros Hrun Hlen Htr. enough (ends_ok tr) as He by by eapply He. clear Htr.
  induction Hrun as [id|b tr vp' sent outs b' effs r Hrun IH Hs|b tr dt d sent b' effs r Hrun IH Hdt Hs|b tr msg ready b' effs r Hrun IH Hs
    |b tr sent b' effs Hrun IH Hs|b tr b' effs Hrun IH Hs|b tr Hrun IH|b tr outs b' effs r Hrun IH Hs]; try rewrite length_app in Hlen.
  - by intros [] ? ?.
  - eapply sendVoteproof_ends; [exact Hrun|lia|apply IH; lia|exact Hs].
  - apply ends_neutral; [by eapply x_SendData_no_finish|apply IH; lia].
  - apply ends_neutral; [by eapply x_Receive_no_finish|apply IH; lia].
  - apply ends_neutral; [by eapply x_respond_no_finish|apply IH; lia].
  - apply ends_neutral; [by eapply x_cancel_no_finish|apply IH; lia].
  - by apply IH.
  - eapply ends_finish; [exact Hs|apply IH; lia|done].
Qed.
End answers.

(** ** A handover with an honest Y *)
Section pair.
Context `{Crypto, BlockCrypto, HandoverData}.
Variables (xargs : HandoverXBrokerArgs) (yargs : HandoverYBrokerArgs).
Variable GetProposal : Hash -> option ProposalSignFact.
Variable node : YNode.

(** The messages of one broker reach the other in order; [CheckIsReady] of X says
    yes. *)
Fixpoint to_y (effs : list xeffect) (y : HandoverYBroker) : res (HandoverYBroker * list yeffect) :=
  match effs with
  | [] => Ok (y, [])
  | (XSend msg | XRespond msg) :: effs =>
      y_Receive yargs node msg y ≫= fun '(y, ye, _) => to_y effs y ≫= fun '(y, ye') => Ok (y, ye ++ ye')
  | _ :: effs => to_y effs y
  end.
Fixpoint to_x (effs : list yeffect) (x : HandoverXBroker) : res (HandoverXBroker * list xeffect) :=
  match effs with
  | [] => Ok (x, [])
  | YSend msg :: effs =>
      x_Receive xargs msg (inr true) x ≫= fun '(x, xe, _) => to_x effs x ≫= fun '(x, xe') => Ok (x, xe ++ xe')
  | _ :: effs => to_x effs x
  end.

(** A voteproof of X goes to Y, which answers it like [HandoverHandler]: by its
    point, or by the map of the block it made. *)
Definition round (r : Voteproof * BlockMap) (xy : HandoverXBroker * HandoverYBroker)
    : res (HandoverXBroker * HandoverYBroker) :=
  let '(vp, m) := r in
  let '(x, y) := xy in
  sendVoteproof xargs GetProposal vp true (fun _ => SendOk) x ≫= fun '(x, xe, _) =>
  to_y xe y ≫= fun '(y, _) =>
  let '(y, ye, _) := if isStagePointChallenge vp then sendStagePoint yargs (vp_point vp) true y
                     else sendBlockMap yargs (vp_point vp) m true y in
  to_x ye x ≫= fun '(x, xe) =>
  to_y xe y ≫= fun '(y, _) =>
  Ok ((x_respond xargs true x).1, y).

Record honest_round (r : Voteproof * BlockMap) : Prop := {
  hr_valid : Voteproof_IsValid r.1 = Ok tt;
  hr_point : StagePoint_IsValid (vp_point r.1) = Ok tt;
  hr_proposal : exists pr, vp_proposal GetProposal r.1 = Ok pr /\
    forall p, pr = Some p -> proposal_IsValid (ya_NetworkID yargs) p = Ok tt;
  hr_block : isStagePointChallenge r.1 = false ->
    BlockMap_IsValid (xa_NetworkID xargs) r.2 = Ok tt /\ bm_height r.2 = sp_h (vp_point r.1) /\
    bs_node (bm_sign r.2) = node_address (xa_Local xargs) /\
    bs_signer (bm_sign r.2) = node_publickey (xa_Local xargs) /\
    exists mj, ACCEPT_BallotMajority r.1 = Ok (Some mj) /\ bm_hash r.2 = Some mj.2
}.
(** [r'] comes after [r]: its point is higher, and a block is of a higher height
    than a block before it. *)
Definition round_after (r r' : Voteproof * BlockMap) : Prop :=
  0 < StagePoint_Compare (vp_point r'.1) (vp_point r.1) /\
  (isStagePointChallenge r.1 = false -> isStagePointChallenge r'.1 = false -> bm_height r.2 < bm_height r'.2).

Hypothesis args_ok : 0 <= xa_MinChallengeCount xargs < 2 ^ 62 /\ 0 <= xa_ReadyEnd xargs < 2 ^ 62.
Hypothesis max_ok : 0 <= xa_MaxEnsureSendFailure xargs /\ 0 <= ya_MaxEnsureSendFailure yargs.
Hypothesis node_ok : (forall dt d, NewDataFunc node dt d = None) /\ forall vp, WhenFinished node vp = None.

Definition ready_at : Z := Z.max 1 (xa_MinChallengeCount xargs).
Definition end_at : Z := ready_at + xa_ReadyEnd xargs.

(** The brokers after [k] rounds, the last of them [last]. *)
Definition received_of (r : Voteproof * BlockMap) : last_received :=
  if isStagePointChallenge r.1 then LastStagePoint (vp_point r.1) else LastBlockMap r.2.
Definition x_after (id : string) (k : Z) (last : option (Voteproof * BlockMap)) : HandoverXBroker :=
  {| xb_id := id; xb_canceled := false; xb_isFinished := false; xb_successcount := k; xb_sendFailureCount := 0;
     xb_lastVoteproof := fst <$> last; xb_lastReceived := received_of <$> last;
     xb_previousChallengeHandover := match last with Some r => vp_point r.1 | None => ZeroStagePoint end;
     xb_readyEnd := if ready_at <=? k then end_at else 0; xb_challengecount := k; xb_lastchallengecount := k |}.
Definition y_with (id : string) (n : Z) : HandoverYBroker :=
  {| yb_id := Some id; yb_canceled := false; yb_isReadyToAsk := true; yb_isDataSynced := true; yb_isFinished := false;
     yb_sendFailureCount := 0; yb_maxEnsureAsk := n |}.

Lemma tries_first max : 0 <= max -> tries 0 max = true.
Proof. intros Hm. unfold tries. destruct (Z.ltb_spec 0 max), (Z.leb_spec max 0); simpl; try done; lia. Qed.
Lemma endure_first max : 0 <= max -> endureHandoverSendMessageFunc 0 max true = (0, Ok tt).
Proof. intros Hm. unfold endureHandoverSendMessageFunc. by rewrite tries_first. Qed.

(** Y takes what X sends. *)
Lemma y_takes id n msg :
  empty_id id = Ok tt -> HandoverID msg = id -> HandoverMessage_IsValid (ya_NetworkID yargs) msg = Ok tt ->
  match msg with
  | HandoverMessageData _ dt d => (receiveData node dt d (y_with id n)).2 = None
  | HandoverMessageChallengeResponse _ _ _ e => e = None
  | _ => False
  end ->
  exists ye, y_Receive yargs node msg (y_with id n) = Ok (y_with id n, ye, inr tt).
Proof.
  intros Hid Hm Hv Hcase. unfold y_Receive. cbn [yb_canceled yb_isFinished y_with].
  unfold y_receiveInternal. change (y_ID (y_with id n)) with id.
  unfold empty_id in Hid. apply guard_err_ok in Hid. rewrite Hid, Hm, bool_decide_true, Hv by done. cbn [negb].
  destruct msg as [? ? ? e| | | |? dt d|]; try done.
  - subst e. cbn. eauto.
  - destruct (receiveData node dt d (y_with id n)) as [ye er]. simpl in Hcase. subst er. cbn. eauto.
Qed.

(** What X sends for a voteproof is fine for Y. *)
Lemma x_sends id k last r n :
  empty_id id = Ok tt -> honest_round r -> 0 <= k -> (end_at <= k -> is_init_type r.1 = false) -> k < 2 ^ 62 ->
  exists dt d ye,
    sendVoteproof xargs GetProposal r.1 true (fun _ => SendOk) (x_after id k last) =
      Ok (x_set_sent r.1 (x_after id k last), [XSend (HandoverMessageData id dt d)], inr false) /\
    y_Receive yargs node (HandoverMessageData id dt d) (y_with id n) = Ok (y_with id n, ye, inr tt).
Proof.
  intros Hid Hr Hk0 Hk Hk62. destruct r as [vp m]. cbn [fst] in *. destruct (hr_proposal _ Hr) as (pr & Hpr & Hprv). cbn [fst] in Hpr.
  assert ((if is_init_type vp then isReadyToFinish xargs (Some vp) (x_after id k last) else inr false) = inr false) as Hnf.
  { destruct (is_init_type vp) eqn:Ei; [|done]. unfold isReadyToFinish, x_isReady.
    cbn [xb_canceled xb_isFinished x_after xb_readyEnd xb_successcount]. rewrite Ei. cbn [negb].
    assert (k < end_at) as Hlt by (destruct (Z.lt_ge_cases k end_at) as [|Hge]; [done|by apply Hk in Hge]).
    destruct (ready_at <=? k); [|done]. destruct (Z.ltb_spec end_at 1); [done|].
    rewrite (proj2 (Z.leb_gt end_at k)) by lia. by rewrite andb_false_r. }
  assert (exists dt d, sendVoteproofErr xargs pr vp true (x_after id k last) =
      (x_set_sent vp (x_after id k last), [XSend (HandoverMessageData id dt d)], inr tt) /\
      HandoverMessageDataType_IsValid dt = Ok tt /\ isValidData (ya_NetworkID yargs) dt d = Ok tt /\
      (receiveData node dt d (y_with id n)).2 = None) as (dt & d & Hs & Hdt & Hd & Hrd).
  { unfold sendVoteproofErr, x_SendData, x_endure. cbn [xb_canceled xb_isFinished x_set_sent x_after xb_sendFailureCount].
    destruct max_ok as [Hmx _]. destruct node_ok as [Hnd _]. rewrite tries_first, endure_first by done.
    destruct (negb (is_init_type vp) || _) eqn:Ek.
    - eexists _, _. split; [reflexivity|]. split; [done|]. split; [apply (hr_valid _ Hr)|].
      unfold receiveData, y_newVoteproof. simpl. by rewrite Hnd.
    - apply orb_false_iff in Ek as [Ek _]. apply negb_false_iff in Ek.
      eexists _, _. split; [reflexivity|]. split; [done|]. split.
      + unfold isValidData, isValidINITVoteproof, LoadINITVoteproofData. cbn. rewrite Ek. cbn.
        destruct pr as [p|]; [rewrite (Hprv p eq_refl)|]; cbn; apply (hr_valid _ Hr).
      + unfold receiveData, y_newVoteproof, LoadINITVoteproofData. cbn. rewrite Ek.
        destruct pr; rewrite ?Hnd; simpl; by rewrite ?Hnd. }
  exists dt, d. destruct (y_takes id n (HandoverMessageData id dt d) Hid eq_refl) as [ye Hy]; [|exact Hrd|].
  { simpl. unfold Data_IsValid. rewrite Hid. simpl. rewrite Hdt. exact Hd. }
  exists ye. split; [|exact Hy]. unfold sendVoteproof. cbn [xb_canceled xb_isFinished x_after].
  rewrite Hpr. cbn [mbind res_bind]. rewrite Hnf, Hs. done.
Qed.

Definition challenge_of (id : string) (r : Voteproof * BlockMap) : HandoverMessage _ :=
  if isStagePointChallenge r.1 then HandoverMessageChallengeStagePoint id (vp_point r.1)
  else HandoverMessageChallengeBlockMap id (vp_point r.1) (Some r.2).

Lemma challenge_valid id r :
  empty_id id = Ok tt -> honest_round r -> HandoverMessage_IsValid (xa_NetworkID xargs) (challenge_of id r) = Ok tt.
Proof.
  intros Hid Hr. unfold challenge_of. destruct (isStagePointChallenge r.1) eqn:Ec; simpl;
    unfold ChallengePoint_IsValid, ChallengeBlockMap_IsValid; rewrite Hid; simpl.
  - apply (hr_point _ Hr).
  - destruct (hr_block _ Hr Ec) as (Hv & Hh & _). rewrite Hv, Hh.
    assert (StagePoint_IsZero (vp_point r.1) = false) as ->.
    { pose proof (hr_point _ Hr) as Hp. apply bind_err_ok in Hp as [Hp Hst]. apply point_valid_inv in Hp.
      apply StagePoint_nonzero. unfold sp_h. split; [lia|]. unfold Stage_IsValid in Hst. apply guard_err_ok in Hst.
      by apply negb_false_iff in Hst. }
    simpl. by rewrite Z.eqb_refl.
Qed.

(** The check of an honest answer passes. *)
Lemma received_ok id k last r :
  honest_round r -> (forall r0, last = Some r0 -> round_after r0 r) ->
  match challenge_of id r with
  | HandoverMessageChallengeStagePoint _ point => Ok (point, receiveStagePoint point (x_set_sent r.1 (x_after id k last)))
  | HandoverMessageChallengeBlockMap _ point (Some m) =>
      receiveBlockMap xargs m (x_set_sent r.1 (x_after id k last)) ≫= fun r => Ok (point, r)
  | HandoverMessageChallengeBlockMap _ _ None => Panic
  | _ => Ok (ZeroStagePoint, (x_set_sent r.1 (x_after id k last), Some errHandoverIgnore))
  end = Ok (vp_point r.1, (x_set_received (received_of r) (x_set_sent r.1 (x_after id k last)), None)).
Proof.
  intros Hr Hlast. unfold challenge_of, received_of. destruct (isStagePointChallenge r.1) eqn:Ec.
  - unfold receiveStagePoint. cbn [xb_lastReceived x_set_sent x_after xb_lastVoteproof x_set_received].
    assert (match received_of <$> last with
            | Some (LastStagePoint prev) => if StagePoint_Compare (vp_point r.1) prev <? 1 then Some errHandoverIgnore else None
            | _ => None end = None) as ->.
    { destruct last as [r0|]; [|done]. destruct (Hlast r0 eq_refl) as [Hgt _]. simpl. unfold received_of.
      destruct (isStagePointChallenge r0.1); [|done]. by rewrite (proj2 (Z.ltb_ge _ _)) by lia. }
    rewrite Ec. cbn [negb]. unfold StagePoint_Equal. rewrite bool_decide_true, Point_Equal_refl by done. done.
  - destruct (hr_block _ Hr Ec) as (_ & Hh & Hn & Hsg & mj & Hmj & Hhash). unfold receiveBlockMap.
    rewrite Hn, Hsg, !bool_decide_true by done. cbn [negb xb_lastReceived x_set_sent x_after xb_lastVoteproof x_set_received].
    assert (match received_of <$> last with
            | Some (LastBlockMap prev) => if bm_height r.2 <=? bm_height prev then Some errHandoverIgnore else None
            | _ => None end = None) as ->.
    { destruct last as [r0|]; [|done]. destruct (Hlast r0 eq_refl) as [_ Hgt]. simpl. unfold received_of.
      destruct (isStagePointChallenge r0.1) eqn:E0; [done|]. rewrite (proj2 (Z.leb_gt _ _)); [done|]. by apply Hgt. }
    unfold isStagePointChallenge in Ec. apply orb_false_iff in Ec as [-> ->%negb_false_iff]. cbn [orb negb].
    rewrite Hmj. cbn [mbind res_bind]. by rewrite Hhash, bool_decide_true.
Qed.

(** X accepts it. *)
Lemma honest_known r : honest_round r -> stage_known (sp_stage (vp_point r.1)).
Proof.
  intros Hr. pose proof (hr_point _ Hr) as Hp. apply bind_err_ok in Hp as [_ Hst]. unfold Stage_IsValid in Hst.
  apply guard_err_ok in Hst. apply negb_false_iff in Hst. by apply Stage_CanVote_known.
Qed.

Lemma challenge_ready id k last r :
  honest_round r -> (forall r0, last = Some r0 -> round_after r0 r) -> 0 <= k < 2 ^ 62 ->
  exists ok, challengeIsReady xargs (vp_point r.1) (k + 1) (inr true)
      (x_set_answered (x_set_received (received_of r) (x_set_sent r.1 (x_after id k last)))) =
    (x_set_success k (x_after id (k + 1) (Some r)),
     [XRespond (HandoverMessageChallengeResponse id (vp_point r.1) ok None)], None).
Proof.
  intros Hr Hlast Hk. unfold challengeIsReady, challengeIsReadyOK.
  cbn [xb_lastVoteproof xb_previousChallengeHandover xb_id x_set_answered x_set_received x_set_sent x_after].
  rewrite StagePoint_Compare_refl by by apply honest_known. cbn [Z.ltb Z.compare].
  assert (negb (StagePoint_IsZero match last with Some r0 => vp_point r0.1 | None => ZeroStagePoint end) &&
    (StagePoint_Compare (vp_point r.1) match last with Some r0 => vp_point r0.1 | None => ZeroStagePoint end <=? 0) = false) as ->.
  { destruct last as [r0|]; [|done]. destruct (Hlast r0 eq_refl) as [Hgt _].
    rewrite (proj2 (Z.leb_gt _ 0)) by done. apply andb_false_r. }
  unfold x_checkIsReady. unfold x_after, x_set_success, x_set_answered, x_set_received, x_set_sent, x_set_previous,
    x_set_readyEnd, end_at, ready_at.
  cbn [xb_id xb_canceled xb_isFinished xb_successcount xb_sendFailureCount xb_lastVoteproof xb_lastReceived
    xb_previousChallengeHandover xb_readyEnd xb_challengecount xb_lastchallengecount].
  rewrite (wrap_u_small 64 (k + 1)) by lia. rewrite wrap_u_small by lia.
  destruct (Z.leb_spec (xa_MinChallengeCount xargs) (k + 1)) as [Hm|Hm]; cbn [negb orb];
    destruct (Z.leb_spec (Z.max 1 (xa_MinChallengeCount xargs)) k) as [H1'|H1'];
    destruct (Z.leb_spec (Z.max 1 (xa_MinChallengeCount xargs)) (k + 1)) as [H2'|H2']; try lia.
  - rewrite (proj2 (Z.ltb_lt 0 _)) by lia. by eexists.
  - cbn [Z.ltb Z.compare]. replace (Z.max 1 (xa_MinChallengeCount xargs)) with (k + 1) by lia. by eexists.
  - by eexists.
Qed.

Lemma x_accepts id k last r :
  empty_id id = Ok tt -> honest_round r -> (forall r0, last = Some r0 -> round_after r0 r) -> 0 <= k < 2 ^ 62 ->
  exists ok, x_Receive xargs (challenge_of id r) (inr true) (x_set_sent r.1 (x_after id k last)) =
    Ok (x_after id (k + 1) (Some r),
        [XRespond (HandoverMessageChallengeResponse id (vp_point r.1) ok None)], inr tt).
Proof.
  intros Hid Hr Hlast Hk. destruct (challenge_ready id k last r Hr Hlast Hk) as [ok Hok]. exists ok.
  assert (HandoverID (challenge_of id r) = id) as Hmid by (unfold challenge_of; by destruct (isStagePointChallenge r.1)).
  assert (receiveChallenge xargs (challenge_of id r) (inr true) k (x_set_sent r.1 (x_after id k last)) =
    Ok (x_set_success k (x_after id (k + 1) (Some r)),
        [XRespond (HandoverMessageChallengeResponse id (vp_point r.1) ok None)], inr (k + 1))) as Hrc.
  { unfold receiveChallenge. rewrite received_ok by done. cbn [mbind res_bind].
    cbn [xb_lastchallengecount xb_challengecount x_set_received x_set_sent x_after].
    rewrite (wrap_u_small 64 (k + 1)) by lia. replace (k + 1 - 1) with k by lia. rewrite wrap_u_small, Z.eqb_refl by lia.
    by rewrite Hok. }
  unfold x_Receive, x_receiveInternal. cbn [xb_isFinished xb_canceled xb_id xb_successcount x_set_sent x_after].
  rewrite Hmid, bool_decide_true, challenge_valid by done. cbn [negb mbind res_bind].
  unfold challenge_of in *. unfold x_set_sent, x_after in Hrc |- *. destruct (isStagePointChallenge r.1); rewrite Hrc; done.
Qed.

Lemma y_challenges id n r :
  empty_id id = Ok tt ->
  (if isStagePointChallenge r.1 then sendStagePoint yargs (vp_point r.1) true (y_with id n)
   else sendBlockMap yargs (vp_point r.1) r.2 true (y_with id n)) =
  (y_with id n, [YSend (challenge_of id r)], inr tt).
Proof.
  intros Hid. apply guard_err_ok in Hid. unfold challenge_of, sendStagePoint, sendBlockMap, y_send.
  cbn [yb_canceled yb_isFinished yb_isDataSynced y_with negb yb_sendFailureCount].
  change (y_ID _) with id. rewrite Hid, tries_first, endure_first by apply max_ok.
  by destruct (isStagePointChallenge r.1).
Qed.

Lemma round_ok id k last r n :
  empty_id id = Ok tt -> honest_round r -> (forall r0, last = Some r0 -> round_after r0 r) -> 0 <= k < 2 ^ 62 ->
  (end_at <= k -> is_init_type r.1 = false) ->
  round r (x_after id k last, y_with id n) = Ok (x_after id (k + 1) (Some r), y_with id n).
Proof.
  intros Hid Hr Hlast Hk Hend.
  destruct (x_sends id k last r n Hid Hr ltac:(lia) Hend ltac:(lia)) as (dt & d & ye & Hs & Hy).
  destruct (x_accepts id k last r Hid Hr Hlast Hk) as [ok Hx].
  destruct (y_takes id n (HandoverMessageChallengeResponse id (vp_point r.1) ok None) Hid eq_refl) as [ye' Hy']; [|done|].
  { simpl. unfold ChallengePoint_IsValid. rewrite Hid. apply (hr_point _ Hr). }
  pose proof (y_challenges id n r Hid) as Hc. destruct r as [vp m]. cbn [fst snd] in *. unfold round. rewrite Hs.
  cbn [mbind res_bind to_y]. rewrite Hy. cbn [mbind res_bind to_y]. rewrite Hc. cbn [mbind res_bind to_x].
  rewrite Hx. cbn [mbind res_bind to_x app to_y]. rewrite Hy'. cbn [mbind res_bind].
  unfold x_respond, x_endure. cbn [xb_sendFailureCount x_after]. rewrite endure_first by apply max_ok. done.
Qed.

Fixpoint rounds (l : list (Voteproof * BlockMap)) (xy : HandoverXBroker * HandoverYBroker)
    : res (HandoverXBroker * HandoverYBroker) :=
  match l with
  | [] => Ok xy
  | r :: l => round r xy ≫= rounds l
  end.
Definition in_order (last : option (Voteproof * BlockMap)) (l : list (Voteproof * BlockMap)) : Prop :=
  (forall r0 r, last = Some r0 -> l !! 0%nat = Some r -> round_after r0 r) /\
  forall i r r', l !! i = Some r -> l !! S i = Some r' -> round_after r r'.

Lemma rounds_ok id n l k last0 :
  empty_id id = Ok tt -> Forall honest_round l -> in_order last0 l -> 0 <= k -> k + Z.of_nat (length l) <= 2 ^ 62 ->
  (forall i r, l !! i = Some r -> end_at <= k + Z.of_nat i -> is_init_type r.1 = false) ->
  rounds l (x_after id k last0, y_with id n) =
  Ok (x_after id (k + Z.of_nat (length l)) (match last l with Some r => Some r | None => last0 end), y_with id n).
Proof.
  intros Hid. revert k last0. induction l as [|r l IH]; intros k last0 Hh Ho Hk Hlen Hend.
  - simpl. by rewrite Z.add_0_r.
  - apply Forall_cons in Hh as [Hr Hh]. simpl length in Hlen. destruct Ho as [Ho1 Ho2]. cbn [rounds].
    rewrite round_ok; [|done|done|by intros r0 E; apply (Ho1 r0 r E)|lia|intros He; apply (Hend 0%nat r eq_refl); lia].
    cbn [mbind res_bind]. rewrite IH; [|done| |lia|lia|].
    + simpl length. rewrite last_cons. f_equal. f_equal. replace (k + 1 + Z.of_nat (length l)) with (k + Z.of_nat (S (length l))) by lia.
      by destruct (last l).
    + split; [intros r0 r' [= <-] Hl; by apply (Ho2 0%nat)|intros i; apply (Ho2 (S i))].
    + intros i r' Hi He. apply (Hend (S i) r' Hi). lia.
Qed.

(** C30: with an honest Y a handover comes to its end: after enough voteproofs the
    next INIT voteproof finishes X, and Y gets the same voteproof as the finish. *)
Theorem handover_completes id n l vp :
  empty_id id = Ok tt -> Forall honest_round l -> in_order None l ->
  end_at <= Z.of_nat (length l) <= 2 ^ 61 ->
  (forall i r, l !! i = Some r -> end_at <= Z.of_nat i -> is_init_type r.1 = false) ->
  is_init_type vp = true -> Voteproof_IsValid vp = Ok tt ->
  (exists pr, vp_proposal GetProposal vp = Ok pr /\
     forall p, pr = Some p -> proposal_IsValid (ya_NetworkID yargs) p = Ok tt) ->
  exists x y, rounds l (NewHandoverXBroker id, y_with id n) = Ok (x, y) /\
    exists x' xe pr, sendVoteproof xargs GetProposal vp true (fun _ => SendOk) x = Ok (x', xe, inr true) /\
      xe = [XSend (HandoverMessageFinish id pr (Some vp)); XWhenFinished (Some vp)] /\ xb_isFinished x' = true /\
      exists y', y_Receive yargs node (HandoverMessageFinish id pr (Some vp)) y = Ok (y', [YWhenFinished (Some vp)], inr tt) /\
        yb_isFinished y' = true /\ yb_canceled y' = false.
Proof.
  intros Hid Hh Ho Hlen Hend Hi Hv (pr & Hpr & Hprv).
  assert (NewHandoverXBroker id = x_after id 0 None) as ->.
  { unfold NewHandoverXBroker, x_after. by rewrite (proj2 (Z.leb_gt _ 0)) by (unfold ready_at; lia). }
  eexists _, _. split; [apply rounds_ok; [done|done|done|lia|lia|by intros i r Hl; rewrite Z.add_0_l; apply Hend]|].
  rewrite Z.add_0_l. set (k := Z.of_nat (length l)) in *.
  exists (x_set_finished (x_after id k (match last l with Some r => Some r | None => None end))),
    [XSend (HandoverMessageFinish id pr (Some vp)); XWhenFinished (Some vp)], pr.
  split; [|split; [done|split; [done|]]].
  - unfold sendVoteproof. cbn [xb_canceled xb_isFinished x_after]. rewrite Hi, Hpr. cbn [mbind res_bind].
    unfold isReadyToFinish, x_isReady, x_checkIsReady. cbn [xb_canceled xb_isFinished xb_readyEnd xb_successcount x_after].
    rewrite Hi. cbn [negb]. unfold end_at, ready_at in *. rewrite (proj2 (Z.leb_le _ k)) by lia.
    rewrite (proj2 (Z.ltb_ge _ 1)) by lia. rewrite !(proj2 (Z.leb_le _ k)) by lia. cbn [andb].
    unfold x_finish. cbn [xb_canceled xb_isFinished x_after]. reflexivity.
  - unfold y_Receive, y_receiveInternal. cbn [yb_canceled yb_isFinished y_with]. change (y_ID _) with id.
    apply guard_err_ok in Hid as Hid'. rewrite Hid'. cbn [HandoverID]. rewrite bool_decide_true by done. cbn [negb].
    simpl HandoverMessage_IsValid. unfold Finish_IsValid. rewrite Hid. cbn [mbind res_bind]. rewrite Hv. cbn [mbind res_bind].
    destruct node_ok as [Hnd Hw].
    assert (match pr with Some pr => proposal_IsValid (ya_NetworkID yargs) pr | None => Ok tt end = Ok tt) as ->.
    { destruct pr as [p|]; [by apply Hprv|done]. }
    unfold receiveFinish. cbn [yb_isFinished y_with]. rewrite Hw.
    assert (match pr with Some p => NewDataFunc node DataTypeProposal (DProposal p) | None => None end = None) as ->
      by (by destruct pr). cbn. eauto.
Qed.
End pair.

(** ** Concrete data *)
#[local] Existing Instance demo_crypto.
#[local] Existing Instance demo_block_crypto.
#[global] Instance demo_handover_data : HandoverData :=
  {| ProposalSignFact := string; Operation := string; proposal_IsValid := fun _ _ => Ok tt;
     operation_IsValid := fun _ _ => Ok tt |}.

Definition demo_xargs : HandoverXBrokerArgs :=
  {| xa_Local := {| node_address := "n0"; node_publickey := "k0" |}; xa_NetworkID := "net";
     xa_MinChallengeCount := defaultHandoverXMinChallengeCount; xa_ReadyEnd := defaultHandoverXReadyEnd;
     xa_MaxEnsureSendFailure := 9 |}.
Definition demo_yargs : HandoverYBrokerArgs :=
  {| ya_NetworkID := "net"; ya_MaxEnsureSendFailure := 9; ya_MaxEnsureAsk := 9 |}.
Definition demo_ynode : YNode := {| NewDataFunc := fun _ _ => None; WhenFinished := fun _ => None |}.
Definition demo_proposals (h : Hash) : option (@ProposalSignFact demo_handover_data) := Some h.

Definition demo_init (h : Z) : Voteproof :=
  let f := INITBallotFact (demo_base "f" (NewStagePoint (RawPoint h 0) StageINIT) []) "prev" "pr" in
  demo_vp KINIT INITBallotSignFact f (Some f) DefaultThreshold ["n0"; "n1"; "n2"] [].
Definition demo_accept (h : Z) : Voteproof :=
  let f := ACCEPTBallotFact (demo_base "f" (NewStagePoint (RawPoint h 0) StageACCEPT) []) "pr"
             (default "" (bm_hash (demo_map h))) in
  demo_vp KACCEPT ACCEPTBallotSignFact f (Some f) DefaultThreshold ["n0"; "n1"; "n2"] [].
Definition demo_rounds : list (Voteproof * BlockMap) :=
  (fun h => [(demo_init h, demo_map h); (demo_accept h, demo_map h)]) 33 ++
  (fun h => [(demo_init h, demo_map h); (demo_accept h, demo_map h)]) 34 ++
  (fun h => [(demo_init h, demo_map h); (demo_accept h, demo_map h)]) 35.

Lemma demo_rounds_honest : Forall (honest_round demo_xargs demo_yargs demo_proposals) demo_rounds.
Proof.
  assert (forall r pr, Voteproof_IsValid r.1 = Ok tt -> StagePoint_IsValid (vp_point r.1) = Ok tt ->
    vp_proposal demo_proposals r.1 = Ok pr -> (isStagePointChallenge r.1 = false ->
      BlockMap_IsValid "net" r.2 = Ok tt /\ bm_height r.2 = sp_h (vp_point r.1) /\
      bs_node (bm_sign r.2) = "n0" /\ bs_signer (bm_sign r.2) = "k0" /\
      exists mj, ACCEPT_BallotMajority r.1 = Ok (Some mj) /\ bm_hash r.2 = Some mj.2) ->
    honest_round demo_xargs demo_yargs demo_proposals r) as Hr.
  { intros r pr Hv Hp Hpr Hb. by constructor; [| |exists pr|]. }
  repeat (apply List.Forall_cons; [eapply Hr; [vm_compute; reflexivity..|]; intros Hc; vm_compute in Hc;
    first [discriminate Hc|split_and!; [vm_compute; reflexivity..|]; eexists; split; vm_compute; reflexivity]|]).
  constructor.
Qed.

Lemma demo_rounds_order : in_order None demo_rounds.
Proof.
  split; [done|]. intros i r r' Hi Hi'.
  do 5 (destruct i as [|i]; [injection Hi as <-; injection Hi' as <-; split;
    [vm_compute; reflexivity|intros Hc Hc'; vm_compute in Hc, Hc'; done]|]).
  apply lookup_lt_Some in Hi'. simpl in Hi'. lia.
Qed.

Lemma handover_completes_witness :
  exists x y, rounds demo_xargs demo_yargs demo_proposals demo_ynode demo_rounds (NewHandoverXBroker "id", y_with "id" 9)
      = Ok (x, y) /\
    exists x' xe, sendVoteproof demo_xargs demo_proposals (demo_init 36) true (fun _ => SendOk) x = Ok (x', xe, inr true).
Proof.
  destruct (handover_completes demo_xargs demo_yargs demo_proposals demo_ynode) with
    (id := "id") (n := 9) (l := demo_rounds) (vp := demo_init 36) as (x & y & Hr & x' & xe & pr & Hs & _).
  - split; vm_compute; split; congruence.
  - split; vm_compute; congruence.
  - by split.
  - reflexivity.
  - exact demo_rounds_honest.
  - exact demo_rounds_order.
  - split; vm_compute; congruence.
  - intros i r Hi He. destruct i as [|[|[|[|[|[|i]]]]]]; try (vm_compute in He; exfalso; by apply He).
    injection Hi as <-. reflexivity.
  - reflexivity.
  - vm_compute. reflexivity.
  - eexists. split; [vm_compute; reflexivity|done].
  - exists x, y. split; [exact Hr|]. exists x', xe. exact Hs.
Defined.

(** The brokers while the rounds go on, for the runs of X alone. *)
Fixpoint demo_run (l : list (Voteproof * BlockMap)) (b : HandoverXBroker) (tr : list xeffect)
    : option (HandoverXBroker * list xeffect) :=
  match l with
  | [] => Some (b, tr)
  | r :: l =>
      match sendVoteproof demo_xargs demo_proposals r.1 true (fun _ => SendOk) b with
      | Ok (b1, e1, _) =>
          match x_Receive demo_xargs (challenge_of "id" r) (inr true) b1 with
          | Ok (b2, e2, _) => demo_run l b2 (rev e2 ++ rev e1 ++ tr)
          | _ => None
          end
      | _ => None
      end
  end.
Lemma demo_run_ok l b tr b' tr' :
  x_run demo_xargs demo_proposals b tr -> demo_run l b tr = Some (b', tr') -> x_run demo_xargs demo_proposals b' tr'.
Proof.
  revert b tr. induction l as [|r l IH]; intros b tr Hrun; simpl; [by intros [= <- <-]|].
  destruct (sendVoteproof _ _ _ _ _ _) as [[[b1 e1] r1]| |] eqn:E1; [|done..].
  destruct (x_Receive _ _ _ _) as [[[b2 e2] r2]| |] eqn:E2; [|done..].
  apply IH. eapply run_receive; [|exact E2]. eapply run_voteproof; [exact Hrun|exact E1].
Qed.

Lemma finish_after_answers_witness :
  exists b tr b' effs, demo_run demo_rounds (NewHandoverXBroker "id") [] = Some (b, tr) /\
    sendVoteproof demo_xargs demo_proposals (demo_init 36) true (fun _ => SendOk) b = Ok (b', effs, inr true) /\
    exists e tr2 n k p, rev effs ++ tr = e :: tr2 /\ answers tr2 n k p /\ 5 <= Z.of_nat n.
Proof.
  destruct (demo_run demo_rounds (NewHandoverXBroker "id") []) as [[b tr]|] eqn:E; [|vm_compute in E; discriminate E].
  assert (x_run demo_xargs demo_proposals b tr) as Hrun by (eapply demo_run_ok; [apply run_new|exact E]).
  destruct (sendVoteproof demo_xargs demo_proposals (demo_init 36) true (fun _ => SendOk) b) as [[[b' effs] r]| |] eqn:Es;
    [|vm_compute in E; injection E as <- <-; vm_compute in Es; discriminate Es..].
  pose proof (run_voteproof _ _ _ _ _ _ _ _ _ _ Hrun Es) as Hrun'.
  assert (r = inr true /\ exists e, effs = [e; XWhenFinished (Some (demo_init 36))]) as [-> [e ->]].
  { vm_compute in E. injection E as <- _. vm_compute in Es. injection Es as _ <- <-. split; [reflexivity|]. eexists. vm_compute. reflexivity. }
  exists b, tr, b', [e; XWhenFinished (Some (demo_init 36))]. split; [done|]. split; [exact Es|].
  destruct (finish_after_answers demo_xargs demo_proposals ltac:(split; vm_compute; split; congruence) b'
    (XWhenFinished (Some (demo_init 36)) :: e :: tr) [] (demo_init 36) (e :: tr) Hrun') as (_ & n & k & p & Ha & Hn).
  - vm_compute in E. injection E as _ <-. vm_compute. reflexivity.
  - reflexivity.
  - exists (XWhenFinished (Some (demo_init 36))), (e :: tr), n, k, p. split; [reflexivity|]. split; [exact Ha|exact Hn].
Defined.

(** The end of X runs also when the finish could not be sent: X stops to vote, and
    Y never starts. *)
Lemma finish_not_sent :
  exists b, rounds demo_xargs demo_yargs demo_proposals demo_ynode demo_rounds (NewHandoverXBroker "id", y_with "id" 9)
      = Ok (b, y_with "id" 9) /\
    exists b' e1 e2, sendVoteproof demo_xargs demo_proposals (demo_init 36) true (fun _ => SendError) b =
      Ok (b', [e1; XWhenFinished (Some (demo_init 36)); e2; XWhenCanceled], inr false).
Proof. eexists. split; [vm_compute; reflexivity|]. do 3 eexists. vm_compute. reflexivity. Qed.

(** A reset of X, which X goes on after, ends the handover for Y. *)
Lemma reset_cancels_y :
  exists effs, y_Receive demo_yargs demo_ynode
    (HandoverMessageChallengeResponse "id" (vp_point (demo_init 33)) false (Some (error_text errHandoverReset)))
    (y_with "id" 9) = Ok (y_set_canceled (y_with "id" 9), effs, inl ErrHandoverCanceled).
Proof. eexists. vm_compute. reflexivity. Qed.
