(* ===== verification/States.v ===== *)
(** * The states of a node and how it switches between them

    [isaac/states/handler.go], [isaac/states/states.go], the states side of
    [isaac/states/states_handover.go], and [patchStates] of the two brokers.

    A node is in one state at a time, the state of its current handler.  A
    handler asks for another state by an error that is a switch context, from
    [enter], [exit] or [newVoteproof], or from a goroutine through the channel of
    the loop.  The handlers are an interface, the class [Handlers]; what they
    promise to the loop is the class [HandlersLaws].  Goroutines that have not run
    yet are part of the state: they run later, in any order. *)
From S2P Require Import Prelude Point Vote Slice Ballot Voteproof Batch Block Handover.

Open Scope Z_scope.

(** ** State types, switch contexts and errors *)
Inductive StateType :=
  | StateEmpty | StateStopped | StateBooting | StateJoining | StateConsensus
  | StateSyncing | StateHandover | StateBroken.
#[global] Instance StateType_eq_dec : EqDecision StateType.
Proof. solve_decision. Defined.

(** The errors made by [util.NewIDError] that [errors.Is] looks for. *)
Inductive id_error := ErrIgnoreSwitchingState | errIgnoreNewVoteproof | ErrUnpromising | ErrNotFound
  | ErrProcessorAlreadySaved | ErrNotProposalProcessorProcessed | ErrProposalProcessorEmptyOperations
  | ErrCanceled | errFailedToVoteNotInConsensus | ErrDeadlineExceeded | ErrIgnoreErrorProposalProcessor
  | ErrInvalid | ErrOperationNotFoundInProcessor | ErrOperationAlreadyProcessedInProcessor
  | ErrInvalidOperationInProcessor | storage_ErrNotFound.
#[global] Instance id_error_eq_dec : EqDecision id_error.
Proof. solve_decision. Defined.

(** A Go error: a plain one, one with an identity, a switch context, or one
    wrapping another ([StringError.Wrap], [WithMessage]).  The last context is
    [baseErrorSwitchContext], which unwraps to its error. *)
Inductive goerr :=
  | EPlain (s : string)
  | EId (i : id_error)
  | ECtx (c : switchContext)
  | EWrap (e : goerr)
with switchContext :=
  | bootingSwitchContext (f : StateType)
  | joiningSwitchContext (f : StateType) (vp : option Voteproof)
  | consensusSwitchContext (f : StateType) (vp : Voteproof)
  | SyncingSwitchContext (f : StateType) (height : Z)
  | handoverSwitchContext (f : StateType) (vp : option Voteproof)
  | baseErrorSwitchContext (f n : StateType) (err : option goerr).

Definition from (c : switchContext) : StateType :=
  match c with
  | bootingSwitchContext f | joiningSwitchContext f _ | consensusSwitchContext f _
  | SyncingSwitchContext f _ | handoverSwitchContext f _ | baseErrorSwitchContext f _ _ => f
  end.
Definition next (c : switchContext) : StateType :=
  match c with
  | bootingSwitchContext _ => StateBooting
  | joiningSwitchContext _ _ => StateJoining
  | consensusSwitchContext _ _ => StateConsensus
  | SyncingSwitchContext _ _ => StateSyncing
  | handoverSwitchContext _ _ => StateHandover
  | baseErrorSwitchContext _ n _ => n
  end.

(** [errors.Is(err, target)], through the error of an error context. *)
Fixpoint errors_Is (i : id_error) (e : goerr) : bool :=
  match e with
  | EPlain _ => false
  | EId j => bool_decide (i = j)
  | EWrap e => errors_Is i e
  | ECtx (baseErrorSwitchContext _ _ (Some e)) => errors_Is i e
  | ECtx _ => false
  end.

(** [errors.As(err, &sctx)]: the outermost switch context. *)
Fixpoint errors_As (e : goerr) : option switchContext :=
  match e with
  | ECtx c => Some c
  | EWrap e => errors_As e
  | _ => None
  end.
Definition isSwitchContextError (e : goerr) : bool :=
  match errors_As e with Some _ => true | None => false end.

Definition newBrokenSwitchContext (f : StateType) (e : goerr) := baseErrorSwitchContext f StateBroken (Some e).
Definition newStoppedSwitchContext (f : StateType) (e : option goerr) := baseErrorSwitchContext f StateStopped e.
Definition emptySyncingSwitchContext (f : StateType) := SyncingSwitchContext f GenesisHeight.
Definition newSyncingSwitchContext (f : StateType) (height : Z) := SyncingSwitchContext f height.

Definition syncerHeightWithStagePoint (point : StagePoint) (isMajority : bool) : Z :=
  if bool_decide (sp_stage point = StageINIT) || (bool_decide (sp_stage point = StageACCEPT) && negb isMajority)
  then Height_SafePrev (sp_h point) else sp_h point.

Definition newSyncingSwitchContextWithVoteproof (f : StateType) (vp : option Voteproof) : switchContext :=
  newSyncingSwitchContext f
    match vp with
    | None => GenesisHeight
    | Some vp => syncerHeightWithStagePoint (vp_point vp) (bool_decide (Result vp = VoteResultMajority))
    end.

Definition newHandoverSwitchContextFromOther (c : switchContext) : switchContext :=
  handoverSwitchContext (from c)
    match c with
    | consensusSwitchContext _ vp => Some vp
    | joiningSwitchContext _ vp => vp
    | _ => None
    end.

(** The type assertion to [voteproofSwitchContext], and its voteproof. *)
Definition ctx_voteproof (c : switchContext) : option (option Voteproof) :=
  match c with
  | joiningSwitchContext _ vp | handoverSwitchContext _ vp => Some vp
  | consensusSwitchContext _ vp => Some (Some vp)
  | _ => None
  end.

(** ** The state *)

(** A goroutine that waits.  [J] are closures of the handlers. *)
Inductive goroutine (J : Type) :=
  | GAsk (panics : bool) (c : switchContext)      (* is about to ask for a move *)
  | GSwitch (c : switchContext)                   (* sends on the channel of the loop *)
  | GVoteproof (finished : bool) (vp : Voteproof) (* sends a voteproof of the broker Y *)
  | GClean (stop : option string) (c : option switchContext)
      (* stops a broker X, cleans the brokers, asks for a move *)
  | GHandler (l : list J).
Arguments GAsk {J} _ _.
Arguments GSwitch {J} _.
Arguments GVoteproof {J} _ _.
Arguments GClean {J} _ _.
Arguments GHandler {J} _.

(** [W] is what the handlers keep. *)
Record States (J W : Type) := {
  st_cs : option StateType;
  st_allowedConsensus : bool;
  st_handoverXBroker : option HandoverXBroker;
  st_handoverYBroker : option HandoverYBroker;
  st_go : list (goroutine J);
  st_w : W
}.
Arguments st_cs {J W} _.
Arguments st_allowedConsensus {J W} _.
Arguments st_handoverXBroker {J W} _.
Arguments st_handoverYBroker {J W} _.
Arguments st_go {J W} _.
Arguments st_w {J W} _.
Arguments Build_States {J W} _ _ _ _ _ _.

Section setters.
Context {J W : Type}.
Implicit Types (s : States J W).
Definition NewStates (allowed : bool) (w : W) : States J W := Build_States None allowed None None [] w.
Definition set_cs (c : StateType) s : States J W :=
  Build_States (Some c) (st_allowedConsensus s) (st_handoverXBroker s) (st_handoverYBroker s) (st_go s) (st_w s).
(** [setAllowConsensus], which calls nobody. *)
Definition setAllowConsensus (b : bool) s : States J W :=
  Build_States (st_cs s) b (st_handoverXBroker s) (st_handoverYBroker s) (st_go s) (st_w s).
Definition set_x (x : option HandoverXBroker) s : States J W :=
  Build_States (st_cs s) (st_allowedConsensus s) x (st_handoverYBroker s) (st_go s) (st_w s).
Definition set_y (y : option HandoverYBroker) s : States J W :=
  Build_States (st_cs s) (st_allowedConsensus s) (st_handoverXBroker s) y (st_go s) (st_w s).
Definition set_go (l : list (goroutine J)) s : States J W :=
  Build_States (st_cs s) (st_allowedConsensus s) (st_handoverXBroker s) (st_handoverYBroker s) l (st_w s).
Definition set_w (w : W) s : States J W :=
  Build_States (st_cs s) (st_allowedConsensus s) (st_handoverXBroker s) (st_handoverYBroker s) (st_go s) w.
(** [go func() { ... }()]. *)
Definition go (g : goroutine J) s : States J W := set_go (st_go s ++ [g]) s.

(** [HandoverXBroker] and [HandoverYBroker] of [States]: nil when canceled. *)
Definition get_HandoverXBroker s : option HandoverXBroker :=
  match st_handoverXBroker s with Some b => if xb_canceled b then None else Some b | None => None end.
Definition get_HandoverYBroker s : option HandoverYBroker :=
  match st_handoverYBroker s with Some b => if yb_canceled b then None else Some b | None => None end.
Definition cleanHandovers s : States J W := set_x None (set_y None s).
End setters.

(** ** The brokers act on the states ([patchStates]) *)
Section brokers.
Context `{Crypto, BlockCrypto, HandoverData} {J W : Type}.
Implicit Types (s : States J W).

Definition x_effect (id : string) (eff : xeffect) s : States J W :=
  match eff with
  | XWhenFinished vp =>
      let s := setAllowConsensus false (go (GClean (Some id) None) s) in
      match st_cs s with
      | None => s
      | Some cur => go (GAsk false (newSyncingSwitchContextWithVoteproof cur vp)) s
      end
  | XWhenCanceled => go (GClean None None) s
  | XSend _ | XRespond _ => s
  end.
Definition y_effect (eff : yeffect) s : States J W :=
  match eff with
  | YNewVoteproof vp => go (GVoteproof false vp) s
  | YWhenFinished vp =>
      match st_cs s, vp with
      | None, _ => s
      | Some cur, None => go (GAsk false (newSyncingSwitchContextWithVoteproof cur None)) s
      | Some _, Some vp => go (GVoteproof true vp) s
      end
  | YWhenCanceled => go (GClean None (emptySyncingSwitchContext <$> st_cs s)) s
  | YSend _ => s
  end.

(** A call of a broker that is there. *)
Definition on_x {A} (f : HandoverXBroker -> x_result A) s : States J W * option (handover_error + A) :=
  match st_handoverXBroker s with
  | None => (s, None)
  | Some b =>
      let '(b', effs, r) := f b in
      (foldl (fun s eff => x_effect (xb_id b) eff s) (set_x (Some b') s) effs, Some r)
  end.
Definition on_y {A} (f : HandoverYBroker -> y_result A) s : States J W * option (handover_error + A) :=
  match st_handoverYBroker s with
  | None => (s, None)
  | Some b =>
      let '(b', effs, r) := f b in
      (foldl (fun s eff => y_effect eff s) (set_y (Some b') s) effs, Some r)
  end.
Definition x_canceled b : x_result unit := let '(b, effs) := x_cancel b in (b, effs, inr tt).
Definition y_canceled b : y_result unit := let '(b, effs) := y_cancel b in (b, effs, inr tt).
End brokers.

(** ** What a handler is

    [E] is what comes from outside during one call: the database, the suffrage,
    the syncer, the answers of other nodes.  [enter] and [exit] return an error,
    or what they defer. *)
Class Handlers (E J W : Type) := {
  h_found : StateType -> bool;
  h_new : StateType -> E -> States J W -> States J W * option goerr;
  h_enter : StateType -> StateType -> switchContext -> E -> States J W -> res (States J W * (goerr + list J));
  h_exit : StateType -> switchContext -> E -> States J W -> res (States J W * (goerr + list J));
  h_newVoteproof : StateType -> bool -> Voteproof -> E -> States J W -> res (States J W * option goerr);
  h_isNew : Voteproof -> States J W -> bool;
  h_whenSetAllowConsensus : StateType -> bool -> States J W -> States J W;
  h_run : list J -> E -> States J W -> res (States J W);
  h_send : E -> nat -> send_outcome
}.

Section states.
Context `{Crypto, BlockCrypto, HandoverData} {E J W : Type} `{!Handlers E J W}.
Implicit Types (s : States J W) (c : switchContext) (e : E).

Definition ignore : goerr := EId ErrIgnoreSwitchingState.
Definition to_consensus (n : StateType) : bool :=
  bool_decide (n = StateConsensus) || bool_decide (n = StateJoining).

Definition checkHandoverStateSwitchContext s c (current : StateType) : option goerr :=
  match get_HandoverYBroker s with
  | None => if bool_decide (next c = StateHandover) then Some ignore else None
  | Some b =>
      if negb (y_IsAsked b) then Some ignore
      else if bool_decide (current = StateHandover) then None
      else if to_consensus (next c) then Some (ECtx (newHandoverSwitchContextFromOther c))
      else None
  end.

(** The end of [checkStateSwitchContext]: it returns a context, never nil. *)
Definition checkAllowed s c (current : StateType) : goerr :=
  if st_allowedConsensus s then
    if bool_decide (next c = StateHandover) then ignore else ECtx c
  else if bool_decide (current = StateHandover) then ECtx c
  else if to_consensus (next c) then
    if bool_decide (current = StateSyncing) then ignore
    else match ctx_voteproof c with
         | Some vp => ECtx (newSyncingSwitchContextWithVoteproof current vp)
         | None => ECtx (emptySyncingSwitchContext current)
         end
  else ECtx c.

Definition checkStateSwitchContext s c : option goerr :=
  match st_cs s with
  | None => None
  | Some current =>
      if bool_decide (current = StateStopped) &&
         negb (bool_decide (next c = StateBooting) || bool_decide (next c = StateBroken))
      then Some ignore
      else if negb (h_found (next c)) then Some (EPlain "unknown next state")
      else if bool_decide (next c = current) then Some ignore
      else if negb (bool_decide (from c = current)) then Some ignore
      else if bool_decide (next c = StateBroken) then None
      else match checkHandoverStateSwitchContext s c current with
           | Some err => Some err
           | None => Some (checkAllowed s c current)
           end
  end.

(** What [AskMoveState] and [switchState] make of the answer of the check. *)
Inductive checked := Ignored | Refused (err : goerr) | Go (c : switchContext).
Definition check s c : checked :=
  match checkStateSwitchContext s c with
  | None => Go c
  | Some err =>
      if errors_Is ErrIgnoreSwitchingState err then Ignored
      else match errors_As err with Some c => Go c | None => Refused err end
  end.

(** [AskMoveState]: a goroutine sends the checked context. *)
Definition AskMoveState s c : States J W * option goerr :=
  match check s c with
  | Go c => (go (GSwitch c) s, None)
  | Ignored => (s, None)
  | Refused err => (s, Some err)
  end.

(** [exitAndEnter].  A nil current handler is dereferenced when it enters. *)
Definition enterNext (cdefer : list J) e s c (current : option StateType)
    : res (States J W * (goerr + (list J * list J))) :=
  if negb (h_found (next c)) then Panic
  else
    let '(s, err) := h_new (next c) e s in
    match err, current with
    | Some err, _ => Ok (s, inl (EWrap err))
    | None, None => Panic
    | None, Some current =>
        h_enter (next c) current c e s ≫= fun '(s, r) =>
        match r with
        | inl err =>
            if isSwitchContextError err then Ok (set_cs (next c) s, inl err)
            else Ok (s, inl (EWrap err))
        | inr ndefer => Ok (set_cs (next c) s, inr (cdefer, ndefer))
        end
    end.
Definition exitAndEnter e s c (current : option StateType) : res (States J W * (goerr + (list J * list J))) :=
  match current with
  | None => enterNext [] e s c current
  | Some cur =>
      h_exit cur c e s ≫= fun '(s, r) =>
      match r with
      | inr cdefer => enterNext cdefer e s c current
      | inl err =>
          if bool_decide (next c = StateBroken) then enterNext [] e s c current
          else if errors_Is ErrIgnoreSwitchingState err then Ok (s, inl err)
          else Ok (s, inl (EWrap err))
      end
  end.

(** [switchState], and what it does after the check. *)
Definition doSwitch e s c : res (States J W * option goerr) :=
  exitAndEnter e s c (st_cs s) ≫= fun '(s, r) =>
  match r with
  | inl err =>
      if errors_Is ErrIgnoreSwitchingState err then Ok (s, None)
      else if isSwitchContextError err then Ok (s, Some err)
      else Ok (s, Some (EWrap err))
  | inr (cdefer, ndefer) => Ok (go (GHandler (cdefer ++ ndefer)) s, None)
  end.
Definition switchState e s c : res (States J W * option goerr) :=
  match check s c with
  | Go c => doSwitch e s c
  | Ignored => Ok (s, None)
  | Refused err => Ok (s, Some err)
  end.

(** The finish without a voteproof: the other node has to go to syncing. *)
Definition checkOutOfHandoverX e s c : States J W :=
  match get_HandoverXBroker s with
  | None => s
  | Some b =>
      if xb_isFinished b then s
      else if bool_decide (next c = StateBooting) || to_consensus (next c) then s
      else (on_x (x_finish None None (h_send e)) s).1
  end.

(** [ensureSwitchState] with fuel; [None] is out of fuel. *)
Fixpoint switch_loop (fuel : nat) (n : Z) e s c : option (res (States J W * option goerr)) :=
  match fuel with
  | O => None
  | S fuel =>
      if 3 <? n then switch_loop fuel 0 e s (newBrokenSwitchContext (from c) (ECtx c))
      else match switchState e s c with
      | Panic => Some Panic
      | Err m => Some (Err m)
      | Ok (s, None) =>
          Some (if bool_decide (next c = StateStopped) then Ok (s, Some (EWrap (ECtx c)))
                else Ok (checkOutOfHandoverX e s c, None))
      | Ok (s, Some err) =>
          match errors_As err with
          | Some rc => switch_loop fuel (n + 1) e s rc
          | None =>
              if bool_decide (next c = StateBroken) then Some (Ok (s, Some (EWrap err)))
              else switch_loop fuel 0 e s (newBrokenSwitchContext (from c) err)
          end
      end
  end.
Definition switch_fuel : nat := 12.
Definition ensureSwitchState e s c : res (States J W * option goerr) :=
  match switch_loop switch_fuel 0 e s c with Some r => r | None => Err "out of fuel" end.

(** [newVoteproof]: a plain error of the handler ends the loop. *)
Definition states_newVoteproof e s (finished : bool) (vp : Voteproof) : res (States J W * option goerr) :=
  match st_cs s with
  | None => Ok (s, None)
  | Some current =>
      if negb (h_isNew vp s) then Ok (s, None)
      else h_newVoteproof current finished vp e s ≫= fun '(s, r) =>
      match r with
      | None => Ok (s, None)
      | Some err =>
          if errors_Is errIgnoreNewVoteproof err then Ok (s, None)
          else match errors_As err with
               | None => Ok (s, Some (EWrap err))
               | Some c => ensureSwitchState e s c
               end
      end
  end.

(** [SetAllowConsensus]. *)
Definition SetAllowConsensus s (allow : bool) : States J W :=
  if bool_decide (st_allowedConsensus s = allow) then s
  else
    let s := setAllowConsensus allow s in
    let s := match st_cs s with
             | Some cur => if to_consensus cur then h_whenSetAllowConsensus cur allow s else s
             | None => s
             end in
    let s := match get_HandoverXBroker s with
             | Some _ => if allow then s else cleanHandovers (on_x x_canceled s).1
             | None => s
             end in
    match get_HandoverYBroker s with
    | Some _ => if allow then cleanHandovers (on_y y_canceled s).1 else s
    | None => s
    end.

Definition Hold e s : res (States J W * option goerr) :=
  match st_cs s with
  | None => Ok (s, None)
  | Some cur => switchState e s (newStoppedSwitchContext cur None)
  end.

(** [NewHandoverXBroker] and [NewHandoverYBroker] of [States]; [made] is what the
    configured function gives. *)
Definition st_NewHandoverXBroker (made : res string) s : res (States J W * string) :=
  match st_handoverXBroker s with
  | Some _ => Err "already under handover x"
  | None =>
      if negb (st_allowedConsensus s) then Err "not allowed consensus"
      else match get_HandoverYBroker s with
      | Some _ => Err "under handover y"
      | None => made ≫= fun id => Ok (set_x (Some (NewHandoverXBroker id)) s, id)
      end
  end.
Definition st_NewHandoverYBroker (made : res HandoverYBrokerArgs) s : res (States J W) :=
  match st_handoverYBroker s with
  | Some _ => Err "already under handover y"
  | None =>
      if st_allowedConsensus s then Err "allowed consensus"
      else match get_HandoverXBroker s with
      | Some _ => Err "under handover x"
      | None => made ≫= fun args => Ok (set_y (Some (NewHandoverYBroker args)) s)
      end
  end.

Definition CancelHandoverXBroker s : States J W := set_x None (on_x x_canceled s).1.
Definition CancelHandoverYBroker s : States J W := set_y None (on_y y_canceled s).1.

(** The beginning of [start]: the stopped handler enters, then the booting one. *)
Definition start e s : res (States J W * option goerr) :=
  if negb (h_found StateStopped) then Ok (s, Some (EPlain "find stopped handler"))
  else
    let '(s, oe) := h_new StateStopped e s in
    match oe with
    | Some err => Ok (s, Some (EWrap err))
    | None =>
        h_enter StateStopped StateEmpty (newStoppedSwitchContext StateEmpty None) e s ≫= fun '(s, r) =>
        match r with
        | inl _ => Ok (s, Some (EPlain "enter stopped handler"))
        | inr _ => ensureSwitchState e (set_cs StateStopped s) (bootingSwitchContext StateStopped)
        end
    end.
(** The end of [start]: the current handler exits; an error is logged only. *)
Definition finish_start e s (serr : goerr) : res (States J W) :=
  match st_cs s with
  | None => Ok s
  | Some cur => switchState e s (newStoppedSwitchContext cur (Some serr)) ≫= fun '(s, _) => Ok s
  end.

(** A goroutine that runs.  One that sends on a channel runs when the loop takes
    what it sends; the second part is the error that ends the loop.  A broker X
    that is to be stopped may be another one than that of the states by then. *)
Definition run_go e (g : goroutine J) s : res (States J W * option goerr) :=
  match g with
  | GAsk panics c =>
      let '(s, r) := AskMoveState s c in
      match r with Some _ => if panics then Panic else Ok (s, None) | None => Ok (s, None) end
  | GSwitch c => ensureSwitchState e s c
  | GVoteproof finished vp => states_newVoteproof e s finished vp
  | GClean stop c =>
      let s := match stop, st_handoverXBroker s with
               | Some id, Some b => if bool_decide (xb_id b = id) then set_x (Some (x_stop b)) s else s
               | _, _ => s
               end in
      let s := cleanHandovers s in
      match c with
      | None => Ok (s, None)
      | Some c => let '(s, r) := AskMoveState s c in match r with Some _ => Panic | None => Ok (s, None) end
      end
  | GHandler l => h_run l e s ≫= fun s => Ok (s, None)
  end.

(** What happens next, with what [E] is then. *)
Inductive event :=
  | EvGo (i : nat)
  | EvBallotbox (vp : Voteproof)
  | EvResolver (vp : Voteproof)
  | EvSetAllow (allow : bool)
  | EvHold
  | EvNewX (made : res string)
  | EvNewY (made : res HandoverYBrokerArgs)
  | EvCancelX
  | EvCancelY
  | EvXReceive (msg : HandoverMessage _) (ready : string + bool)
  | EvXRespond (sent : bool)
  | EvXData (dataType : HandoverMessageDataType) (d : handover_data) (sent : bool)
  | EvYReceive (node : YNode) (msg : HandoverMessage _)
  | EvYSynced (asks : bool).

Variables (xargs : HandoverXBrokerArgs) (yargs : HandoverYBrokerArgs).

(** A call of a live broker from outside of the states. *)
Definition x_called {A} (f : HandoverXBroker -> res (x_result A)) s : res (States J W) :=
  match get_HandoverXBroker s with
  | None => Ok s
  | Some b => f b ≫= fun r => Ok (on_x (fun _ => r) s).1
  end.
Definition y_called {A} (f : HandoverYBroker -> res (y_result A)) s : res (States J W) :=
  match get_HandoverYBroker s with
  | None => Ok s
  | Some b => f b ≫= fun r => Ok (on_y (fun _ => r) s).1
  end.

Definition goes_on (r : res (States J W)) : res (States J W * option goerr) := r ≫= fun s => Ok (s, None).
(** An API that fails leaves the states as they are. *)
Definition or_same s (r : res (States J W)) : res (States J W * option goerr) :=
  match r with Ok s => Ok (s, None) | Err _ => Ok (s, None) | Panic => Panic end.

Definition states_step e (ev : event) s : res (States J W * option goerr) :=
  match ev with
  | EvGo i =>
      match st_go s !! i with
      | None => Ok (s, None)
      | Some g => run_go e g (set_go (delete i (st_go s)) s)
      end
  | EvBallotbox vp => if negb (st_allowedConsensus s) then Ok (s, None) else states_newVoteproof e s false vp
  | EvResolver vp => states_newVoteproof e s false vp
  | EvSetAllow allow => Ok (SetAllowConsensus s allow, None)
  | EvHold => Hold e s ≫= fun '(s, _) => Ok (s, None)
  | EvNewX made => or_same s (st_NewHandoverXBroker made s ≫= fun '(s, _) => Ok s)
  | EvNewY made => or_same s (st_NewHandoverYBroker made s)
  | EvCancelX => Ok (CancelHandoverXBroker s, None)
  | EvCancelY => Ok (CancelHandoverYBroker s, None)
  | EvXReceive msg ready => goes_on (x_called (x_Receive xargs msg ready) s)
  | EvXRespond sent =>
      goes_on (x_called (fun b => let '(b, effs) := x_respond xargs sent b in Ok (b, effs, inr tt)) s)
  | EvXData dataType d sent => goes_on (x_called (fun b => Ok (x_SendData xargs dataType d sent b)) s)
  | EvYReceive node msg => goes_on (y_called (y_Receive yargs node msg) s)
  | EvYSynced asks =>
      Ok (match st_handoverYBroker s with
          | None => s
          | Some b => set_y (Some (if asks then y_readyToAsk b else y_dataSynced b)) s
          end, None)
  end.

End states.

(** ** What the handlers promise *)
Section promises.
Context {J W : Type}.
Implicit Types (s : States J W).
Definition x_live s : bool := match get_HandoverXBroker s with Some _ => true | None => false end.
Definition y_live s : bool := match get_HandoverYBroker s with Some _ => true | None => false end.
(** A live broker X that has not finished. *)
Definition x_underway s : bool :=
  match get_HandoverXBroker s with Some b => negb (xb_isFinished b) | None => false end.

(** The handlers end handovers, they do not begin them; they take the consensus
    away only with the end of X. *)
Definition brokers_step s s' : Prop :=
  (x_live s' = true -> x_live s = true) /\ (y_live s' = true -> y_live s = true) /\
  (x_underway s' = true ->
   x_underway s = true /\ (st_allowedConsensus s = true -> st_allowedConsensus s' = true)).

Definition ctx_ok (c : switchContext) : Prop :=
  match c with baseErrorSwitchContext _ _ (Some err) => errors_As err = None | _ => True end.
Definition go_ok (g : goroutine J) : Prop :=
  match g with GAsk _ c | GSwitch c | GClean _ (Some c) => ctx_ok c | _ => True end.

(** A call of a handler does not switch, ends handovers only, and its goroutines
    ask for switches without another switch inside. *)
Definition moved s s' : Prop := brokers_step s s' /\ (Forall go_ok (st_go s) -> Forall go_ok (st_go s')).
Definition keeps s s' : Prop := st_cs s' = st_cs s /\ moved s s'.

Lemma brokers_step_refl s : brokers_step s s.
Proof. repeat split; tauto. Qed.
Lemma brokers_step_trans s1 s2 s3 : brokers_step s1 s2 -> brokers_step s2 s3 -> brokers_step s1 s3.
Proof. unfold brokers_step. intuition. Qed.
Lemma moved_refl s : moved s s.
Proof. split; [apply brokers_step_refl|done]. Qed.
Lemma moved_trans s1 s2 s3 : moved s1 s2 -> moved s2 s3 -> moved s1 s3.
Proof. intros (H2 & H3) (K2 & K3). split; [by eapply brokers_step_trans|tauto]. Qed.
Lemma keeps_refl s : keeps s s.
Proof. split; [done|]. apply moved_refl. Qed.
Lemma moved_go s g : go_ok g -> moved s (go g s).
Proof. intros Hg. split; [repeat split; tauto|]. intros Hs. simpl. apply Forall_app. by repeat constructor. Qed.
Lemma moved_set_cs c s : moved s (set_cs c s).
Proof. split; [repeat split; tauto|done]. Qed.
End promises.

(** Never an error of the model itself; a panic ends everything. *)
Definition returns {A} (r : res A) (P : A -> Prop) : Prop :=
  match r with Ok a => P a | Err _ => False | Panic => True end.
Lemma fine_bind {A B} (m : res A) (f : A -> res B) P Q :
  returns m P -> (forall a, P a -> returns (f a) Q) -> returns (m ≫= f) Q.
Proof. destruct m; simpl; auto. Qed.
Lemma fine_mono {A} (r : res A) (P Q : A -> Prop) : returns r P -> (forall a, P a -> Q a) -> returns r Q.
Proof. destruct r; simpl; auto. Qed.

(** A context returned by [enter] into [t] for [c]: the broken state gives back
    the one it was entered with. *)
Definition comes_from (t : StateType) (c c' : switchContext) : Prop :=
  (t <> StateBroken -> from c' = t /\ ctx_ok c') /\
  (t = StateBroken -> exists g n er, c = baseErrorSwitchContext g n (Some er) /\ errors_As er = Some c').

Class HandlersLaws (E J W : Type) `{!Handlers E J W} := {
  law_new t (e : E) (s : States J W) : (h_new t e s).2 = None /\ keeps s (h_new t e s).1;
  law_exit t c (e : E) (s : States J W) :
    returns (h_exit t c e s) (fun '(s', r) => keeps s s' /\ forall err, r = inl err -> errors_As err = None);
  law_enter t f c (e : E) (s : States J W) :
    returns (h_enter t f c e s) (fun '(s', r) => keeps s s' /\ forall err c', r = inl err -> errors_As err = Some c' ->
      comes_from t c c');
  law_newVoteproof t b vp (e : E) (s : States J W) :
    returns (h_newVoteproof t b vp e s) (fun '(s', r) => keeps s s' /\
      forall err c', r = Some err -> errors_As err = Some c' -> ctx_ok c');
  law_whenSet t b (s : States J W) : keeps s (h_whenSetAllowConsensus t b s);
  law_run l (e : E) (s : States J W) : returns (h_run l e s) (keeps s)
}.

(** ** The loop of switches *)
Section checks.
Context `{Crypto, BlockCrypto, HandoverData} {E J W : Type} `{!Handlers E J W}.
Implicit Types (s : States J W) (c : switchContext) (e : E).



Lemma checkAllowed_cases s c cur :
  checkAllowed s c cur = ignore \/
  (checkAllowed s c cur = ECtx c /\
   (st_allowedConsensus s = true \/ cur = StateHandover \/ to_consensus (next c) = false)) \/
  (exists h, checkAllowed s c cur = ECtx (SyncingSwitchContext cur h) /\ cur <> StateSyncing).
Proof.
  unfold checkAllowed, newSyncingSwitchContextWithVoteproof, newSyncingSwitchContext, emptySyncingSwitchContext.
  destruct (st_allowedConsensus s); [destruct (bool_decide _); naive_solver|].
  destruct (bool_decide (cur = StateHandover)) eqn:E1; [apply bool_decide_eq_true in E1; naive_solver|].
  destruct (to_consensus (next c)); [|naive_solver].
  destruct (bool_decide (cur = StateSyncing)) eqn:E2; [by left|].
  apply bool_decide_eq_false in E2. destruct (ctx_voteproof c); eauto 8.
Qed.

(** The whole check: what a context must be to go on, and what it becomes. *)
Lemma check_Go s c c' cur :
  st_cs s = Some cur -> check s c = Go c' ->
  from c = cur /\ next c <> cur /\ next c' <> cur /\ h_found (next c) = true /\
  (cur = StateStopped -> next c = StateBooting \/ next c = StateBroken) /\
  (to_consensus (next c') = true -> cur <> StateHandover ->
   st_allowedConsensus s = true /\ get_HandoverYBroker s = None) /\
  (next c' = StateHandover -> exists b, get_HandoverYBroker s = Some b /\ y_IsAsked b = true) /\
  (next c = StateBroken -> c' = c) /\
  (c' = c \/ next c' = StateHandover \/ (next c' = StateSyncing /\ next c <> StateBroken)) /\
  (ctx_ok c -> ctx_ok c').
Proof.
  intros Hs. unfold check, checkStateSwitchContext. rewrite Hs.
  destruct (bool_decide (cur = StateStopped) && _) eqn:E1; [done|].
  destruct (h_found (next c)) eqn:E2; cbn [negb]; [|done].
  destruct (bool_decide (next c = cur)) eqn:E3; [done|].
  destruct (bool_decide (from c = cur)) eqn:E4; cbn [negb]; [|done].
  apply bool_decide_eq_false in E3. apply bool_decide_eq_true in E4.
  assert (cur = StateStopped -> next c = StateBooting \/ next c = StateBroken) as Hst.
  { intros ->. apply negb_false_iff, orb_true_iff in E1. by rewrite !bool_decide_eq_true in E1. }
  destruct (bool_decide (next c = StateBroken)) eqn:E5.
  { apply bool_decide_eq_true in E5. intros [= <-]. rewrite E5 in *. naive_solver. }
  apply bool_decide_eq_false in E5. clear E1.
  unfold checkHandoverStateSwitchContext.
  destruct (get_HandoverYBroker s) as [y|] eqn:EY.
  - destruct (y_IsAsked y) eqn:Ea; cbn [negb]; [|done].
    destruct (bool_decide (cur = StateHandover)) eqn:E6.
    + apply bool_decide_eq_true in E6.
      destruct (checkAllowed_cases s c cur) as [->|[[-> _]|(h & -> & Hne)]]; [done|..].
      * destruct (errors_Is _ _); [done|]. intros [= <-]. naive_solver.
      * intros [= <-]. simpl. naive_solver.
    + apply bool_decide_eq_false in E6. destruct (to_consensus (next c)) eqn:E7.
      * intros [= <-]. simpl. naive_solver.
      * destruct (checkAllowed_cases s c cur) as [->|[[-> _]|(h & -> & Hne)]]; [done|..].
        -- destruct (errors_Is _ _); [done|]. intros [= <-]. split_and!; eauto; congruence.
        -- intros [= <-]. simpl. naive_solver.
  - destruct (bool_decide (next c = StateHandover)) eqn:E6; [done|]. apply bool_decide_eq_false in E6.
    destruct (checkAllowed_cases s c cur) as [->|[[-> Hal]|(h & -> & Hne)]]; [done|..].
    + destruct (errors_Is _ _); [done|]. intros [= <-]. split_and!; eauto; intuition congruence.
    + intros [= <-]. simpl. naive_solver.
Qed.
End checks.

Section ensure.
Context `{Crypto, BlockCrypto, HandoverData} {E J W : Type} `{!Handlers E J W, !HandlersLaws E J W}.
Implicit Types (s : States J W) (c : switchContext) (e : E).

Lemma new_ok t e s : h_new t e s = ((h_new t e s).1, None) /\ keeps s (h_new t e s).1.
Proof. destruct (law_new t e s) as [Hn Hk]. destruct (h_new t e s) as [s' oe]. simpl in *. by subst. Qed.

(** What [exitAndEnter] does: the handler stays or is the next one, and a context
    comes back only from the handler entered. *)
Definition switched s c s' (r : goerr + (list J * list J)) : Prop :=
  moved s s' /\ (st_cs s' = st_cs s \/ st_cs s' = Some (next c)) /\
  forall er c', r = inl er -> errors_As er = Some c' -> st_cs s' = Some (next c) /\ comes_from (next c) c c'.

Lemma enterNext_fine l e s c cur :
  returns (enterNext l e s c (Some cur)) (fun '(s', r) => switched s c s' r).
Proof.
  unfold enterNext. destruct (h_found (next c)); [|done]. cbn [negb].
  destruct (new_ok (next c) e s) as [-> [Hc Hm]]. set (s1 := (h_new (next c) e s).1) in *. cbn [fst] in Hc, Hm.
  eapply fine_bind; [apply law_enter|]. intros [s2 [er|nd]] [[Hc2 Hm2] Ha].
  - assert (moved s s2) as Hm02 by (by eapply moved_trans).
    unfold isSwitchContextError. destruct (errors_As er) as [c1|] eqn:Ea; simpl.
    + split; [eapply moved_trans; [exact Hm02|apply moved_set_cs]|]. split; [by right|].
      intros er' c' [= <-] Ha'. split; [done|]. by eapply Ha.
    + split; [done|]. split; [left; by rewrite Hc2, Hc|]. intros er' c' [= <-] Ha'. simpl in Ha'. congruence.
  - simpl. split; [eapply moved_trans; [by eapply moved_trans|apply moved_set_cs]|]. split; [by right|done].
Qed.
Lemma exitAndEnter_fine e s c cur :
  returns (exitAndEnter e s c (Some cur)) (fun '(s', r) => switched s c s' r).
Proof.
  unfold exitAndEnter. eapply fine_bind; [apply law_exit|]. intros [s1 r1] [[Hc Hm] Ha].
  assert (forall l, returns (enterNext l e s1 c (Some cur)) (fun '(s', r) => switched s c s' r)) as Hn.
  { intros l. eapply fine_mono; [apply enterNext_fine|]. intros [s' r] (Hm' & Hc' & Ha').
    split; [by eapply moved_trans|]. split; [destruct Hc' as [->| ->]; auto|done]. }
  destruct r1 as [er|cd]; [|done]. specialize (Ha _ eq_refl).
  destruct (bool_decide _); [done|]. destruct (errors_Is _ _); (split; [done|]; split; [by left|]);
    intros er' c' [= <-] Ha'; simpl in Ha'; congruence.
Qed.
(** With no handler nothing can be switched: its state is asked for. *)
Lemma switchState_nil e s c : st_cs s = None -> switchState e s c = Panic.
Proof.
  intros Hs. unfold switchState, check, checkStateSwitchContext, doSwitch, exitAndEnter, enterNext. rewrite Hs.
  destruct (h_found (next c)); [|done]. cbn [negb]. destruct (new_ok (next c) e s) as [-> _]. done.
Qed.

Lemma switchState_fine e s c cur :
  st_cs s = Some cur ->
  returns (switchState e s c) (fun '(s', r) => moved s s' /\
    (st_cs s' = Some cur \/ exists c1, check s c = Go c1 /\ st_cs s' = Some (next c1)) /\
    forall err c', r = Some err -> errors_As err = Some c' ->
      exists c1, check s c = Go c1 /\ st_cs s' = Some (next c1) /\ comes_from (next c1) c1 c').
Proof.
  intros Hs. unfold switchState. destruct (check s c) as [|er|c1] eqn:Ec.
  - split; [apply moved_refl|]. split; [by left|done].
  - split; [apply moved_refl|]. split; [by left|]. intros err c' [= <-] Ha. unfold check in Ec.
    destruct (checkStateSwitchContext s c); [|done]. destruct (errors_Is _ _); [done|].
    destruct (errors_As _) eqn:?; simplify_eq; congruence.
  - unfold doSwitch. rewrite Hs. eapply fine_bind; [apply exitAndEnter_fine|]. intros [s' r] (Hm & Hc & Ha).
    assert (st_cs s' = Some cur \/ exists c2, Go c1 = Go c2 /\ st_cs s' = Some (next c2)) as Hc'.
    { rewrite Hs in Hc. destruct Hc; eauto. }
    destruct r as [er|[cd nd]].
    + destruct (errors_Is _ _); [split; [done|]; split; done|]. unfold isSwitchContextError.
      destruct (errors_As er) as [c2|] eqn:Ea; (split; [done|]; split; [done|]); intros err c' [= <-] Ha'.
      * exists c1. split; [done|]. by eapply Ha.
      * simpl in Ha'. congruence.
    + split; [eapply moved_trans; [exact Hm|by apply moved_go]|]. by split.
Qed.

(** A context that comes back after a context of no other inside. *)
Lemma switchState_As e s c s' err c' :
  ctx_ok c -> switchState e s c = Ok (s', Some err) -> errors_As err = Some c' ->
  from c' <> StateBroken /\ ctx_ok c'.
Proof.
  intros Hi Hs Ha. destruct (st_cs s) as [cur|] eqn:Ecs; [|by rewrite switchState_nil in Hs].
  pose proof (switchState_fine e s c cur Ecs) as Hf. rewrite Hs in Hf.
  destruct Hf as (_ & _ & Hf). destruct (Hf _ _ eq_refl Ha) as (c1 & Hc & _ & P1 & P2).
  apply (check_Go s c c1 cur) in Hc as (_ & _ & _ & _ & _ & _ & _ & _ & _ & Hok); [|done]. specialize (Hok Hi).
  destruct (decide (next c1 = StateBroken)) as [Hb|Hb].
  - destruct (P2 Hb) as (g & n & er & -> & Her). simpl in Hok. congruence.
  - destruct (P1 Hb) as [-> ?]. done.
Qed.
Lemma switchState_broken e s f er s' err c' :
  switchState e s (newBrokenSwitchContext f er) = Ok (s', Some err) -> errors_As err = Some c' ->
  st_cs s' = Some StateBroken /\ errors_As er = Some c'.
Proof.
  intros Hs Ha. destruct (st_cs s) as [cur|] eqn:Ecs; [|by rewrite switchState_nil in Hs].
  pose proof (switchState_fine e s (newBrokenSwitchContext f er) cur Ecs) as Hf. rewrite Hs in Hf.
  destruct Hf as (_ & _ & Hf). destruct (Hf _ _ eq_refl Ha) as (c1 & Hc & Hcs & _ & P2).
  apply (check_Go s (newBrokenSwitchContext f er) c1 cur) in Hc as (_ & _ & _ & _ & _ & _ & _ & Hbr & _); [|done]. rewrite Hbr in Hcs, P2 by done.
  destruct (P2 eq_refl) as (g & n & e0 & [= _ _ <-] & He). done.
Qed.

(** Entering the broken state ends the loop. *)
Lemma broken_ends fuel n e s f er :
  n <= 3 -> errors_As er = None -> switch_loop (S fuel) n e s (newBrokenSwitchContext f er) <> None.
Proof.
  intros Hn He. simpl. rewrite (proj2 (Z.ltb_ge 3 n)) by lia.
  destruct (switchState _ _ _) as [[s' [err|]]|m|] eqn:Es; [|done..].
  destruct (errors_As err) as [c'|] eqn:Ea; [|done].
  destruct (switchState_broken _ _ _ _ _ _ _ Es Ea) as [_ ?]. congruence.
Qed.

(** From the broken state a context from elsewhere is ignored. *)
Lemma stale_in_broken e s c n fuel :
  st_cs s = Some StateBroken -> from c <> StateBroken -> n <= 3 ->
  switch_loop (S (S fuel)) n e s c <> None.
Proof.
  intros Hs Hf Hn. cbn [switch_loop]. rewrite (proj2 (Z.ltb_ge 3 n)) by lia.
  assert (switchState e s c = Ok (s, None) \/
    (switchState e s c = Ok (s, Some (EPlain "unknown next state")))) as [->| ->].
  { unfold switchState, check, checkStateSwitchContext. rewrite Hs. cbn [bool_decide andb].
    destruct (h_found (next c)); cbn [negb]; [|by right].
    destruct (bool_decide (next c = StateBroken)); [by left|].
    rewrite (bool_decide_false (from c = StateBroken)) by done. by left. }
  - destruct (bool_decide _); [done|]. by destruct (checkOutOfHandoverX _ _ _).
  - cbn [errors_As]. destruct (bool_decide (next c = StateBroken)); [done|]. by apply broken_ends.
Qed.

Lemma broken_with_ctx_ends fuel e s f c :
  from c <> StateBroken ->
  switch_loop (S (S (S fuel))) 0 e s (newBrokenSwitchContext f (ECtx c)) <> None.
Proof.
  intros Hf. remember (S (S fuel)) as fuel' eqn:Efuel. cbn [switch_loop Z.ltb Z.compare].
  destruct (switchState _ _ _) as [[s' [err|]]|m|] eqn:Es; [|done..].
  destruct (errors_As err) as [c'|] eqn:Ea; [|done].
  destruct (switchState_broken _ _ _ _ _ _ _ Es Ea) as [Hs [= <-]].
  subst fuel'. apply stale_in_broken; [done..|lia].
Qed.

(** [k] switches are left before the loop gives up. *)
Lemma loop_ends (k : nat) e s c :
  (k <= 4)%nat -> ctx_ok c -> ((k < 4)%nat -> from c <> StateBroken) ->
  switch_loop (k + 5) (4 - Z.of_nat k) e s c <> None.
Proof.
  revert s c. induction k as [|k IH]; intros s c Hk Hi Hf.
  - change (switch_loop 4 0 e s (newBrokenSwitchContext (from c) (ECtx c)) <> None).
    apply broken_with_ctx_ends, Hf. lia.
  - cbn [switch_loop Nat.add]. rewrite (proj2 (Z.ltb_ge 3 _)) by lia.
    destruct (switchState _ _ _) as [[s' [err|]]|m|] eqn:Es; [|done..].
    destruct (errors_As err) as [c'|] eqn:Ea.
    + destruct (switchState_As _ _ _ _ _ _ Hi Es Ea) as [Hf' Hi'].
      replace (4 - Z.of_nat (S k) + 1) with (4 - Z.of_nat k) by lia. apply IH; [lia|done..].
    + destruct (bool_decide _); [done|]. rewrite Nat.add_comm. by apply broken_ends.
Qed.

Lemma switch_fuel_mono fuel fuel' n e s c r :
  switch_loop fuel n e s c = Some r -> (fuel <= fuel')%nat -> switch_loop fuel' n e s c = Some r.
Proof.
  revert fuel' n s c. induction fuel as [|fuel IH]; intros [|fuel'] n s c; simpl; try done; try lia.
  intros Hr Hle. destruct (3 <? n); [apply IH; [done|lia]|].
  destruct (switchState _ _ _) as [[s' [err|]]|m|]; [|done..].
  destruct (errors_As err); [apply IH; [done|lia]|]. destruct (bool_decide _); [done|apply IH; [done|lia]].
Qed.

Lemma switch_loop_ends e s c : ctx_ok c -> exists r, switch_loop switch_fuel 0 e s c = Some r.
Proof.
  intros Hi. assert (switch_loop 9 0 e s c <> None) as He by (apply (loop_ends 4); [lia|done|lia]).
  destruct (switch_loop 9 0 e s c) as [r|] eqn:Er; [|done]. exists r.
  eapply switch_fuel_mono; [exact Er|]. unfold switch_fuel. lia.
Qed.
End ensure.

(** ** The brokers on the states *)
Section broker_moves.
Context `{Crypto, BlockCrypto, HandoverData} {J W : Type}.
Implicit Types (s : States J W) (b : HandoverXBroker).

(** A call of X keeps the end of X, and takes the consensus away only with it. *)
Definition x_good b b' (effs : list xeffect) : Prop :=
  (xb_canceled b = true -> xb_canceled b' = true) /\ (xb_isFinished b = true -> xb_isFinished b' = true) /\
  (xb_canceled b' = true \/ xb_isFinished b' = true \/ no_finish effs).

Lemma x_good_refl b : x_good b b [].
Proof. split; [done|]. split; [done|]. right. right. constructor. Qed.
Lemma x_cancel_good b b' effs : x_cancel b = (b', effs) -> x_good b b' effs.
Proof. unfold x_cancel. destruct (xb_canceled b) eqn:E; intros [= <- <-]; repeat split; auto. Qed.
(** Whatever comes before a cancel, what is kept is that nothing finished is undone. *)
Lemma x_good_cancel b b1 b2 e1 e2 :
  xb_isFinished b1 = xb_isFinished b -> x_cancel b1 = (b2, e2) -> x_good b b2 (e1 ++ e2).
Proof.
  intros Hf. unfold x_cancel. destruct (xb_canceled b1) eqn:E; intros [= <- <-]; unfold x_good; simpl;
    rewrite ?Hf; auto.
Qed.

Lemma x_finish_good vp pr outs b b' effs r : x_finish vp pr outs b = (b', effs, r) -> x_good b b' effs.
Proof.
  unfold x_finish. destruct (xb_canceled b) eqn:Eb; [intros [= <- <- _]; apply x_good_refl|].
  destruct (xb_isFinished b) eqn:Ef; [intros [= <- <- _]; apply x_good_refl|].
  destruct (retryHandoverSendMessageFunc _ _); [intros [= <- <- _]; unfold x_good; simpl; auto|..];
    (destruct (x_cancel b) as [b1 e1] eqn:E; intros [= <- <- _]; 
     by apply (x_good_cancel b b b1 [XSend (HandoverMessageFinish (xb_id b) pr vp); XWhenFinished vp] e1)).
Qed.

Lemma x_SendData_good args dt d sent b b' effs r : x_SendData args dt d sent b = (b', effs, r) -> x_good b b' effs.
Proof.
  unfold x_SendData, x_endure. destruct (xb_canceled b) eqn:Eb; [intros [= <- <- _]; apply x_good_refl|].
  destruct (xb_isFinished b) eqn:Ef; [intros [= <- <- _]; apply x_good_refl|].
  destruct (endureHandoverSendMessageFunc _ _ _) as [n [[]|m|]].
  - intros [= <- <- _]. unfold x_good. simpl. rewrite Eb, Ef. do 2 (split; [done|]). right. right.
    destruct (tries _ _); by repeat constructor.
  - destruct (x_cancel _) as [b1 e1] eqn:E. intros [= <- <- _]. eapply x_good_cancel; [|exact E]; done.
  - destruct (x_cancel _) as [b1 e1] eqn:E. intros [= <- <- _]. eapply x_good_cancel; [|exact E]; done.
Qed.

Lemma x_respond_good args sent b b' effs : x_respond args sent b = (b', effs) -> x_good b b' effs.
Proof.
  unfold x_respond, x_endure. destruct (endureHandoverSendMessageFunc _ _ _) as [n [[]|m|]].
  - intros [= <- <-]. unfold x_good. simpl. repeat split; auto. right. right. constructor.
  - intros E. by apply (x_good_cancel b (x_set_failures n b) b' [] effs).
  - intros E. by apply (x_good_cancel b (x_set_failures n b) b' [] effs).
Qed.

Lemma x_Receive_good args msg ready b b' effs r : x_Receive args msg ready b = Ok (b', effs, r) -> x_good b b' effs.
Proof.
  unfold x_Receive. destruct (xb_isFinished b) eqn:Ef; [intros [= <- <- _]; apply x_good_refl|].
  intros ([[b1 e1] r1] & Hi & Hr)%bind_ok.
  assert (xb_isFinished b1 = xb_isFinished b /\ (xb_canceled b = true -> xb_canceled b1 = true) /\
    (xb_canceled b1 = true \/ no_finish e1)) as (Hf & Hc & Hn).
  { unfold x_receiveInternal in Hi. destruct (xb_canceled b) eqn:Eb; [injection Hi as <- <- _; auto|].
    destruct (negb _); [injection Hi as <- <- _; rewrite Eb; split; [done|split; [done|right; constructor]]|].
    destruct (HandoverMessage_IsValid _ _); [|injection Hi as <- <- _; rewrite Eb; split; [done|split; [done|right; constructor]]|done].
    destruct msg; try (injection Hi as <- <- _; rewrite Eb; split; [done|split; [done|right; constructor]]).
    - assert (no_finish e1) by by eapply receiveChallenge_no_finish. apply (receiveChallenge_spec args (fun _ => None)) in Hi as ((E1 & E2 & _) & _).
      split; [done|split; [by rewrite E1|by right]].
    - assert (no_finish e1) by by eapply receiveChallenge_no_finish. apply (receiveChallenge_spec args (fun _ => None)) in Hi as ((E1 & E2 & _) & _).
      split; [done|split; [by rewrite E1|by right]].
    - unfold x_cancelByMessage in Hi. rewrite Eb in Hi. injection Hi as <- <- _. simpl. auto. }
  rewrite Ef in Hf. destruct r1 as [[]|after]; try (destruct (x_cancel b1) as [b2 e2] eqn:E2; injection Hr as <- <- _;
    eapply x_good_cancel; [|exact E2]; congruence);
    injection Hr as <- <- _; unfold x_good; simpl; rewrite Ef; intuition congruence.
Qed.

(** What a call does to the states. *)
Lemma go_ok_app s (l : list (goroutine J)) : Forall go_ok l -> Forall go_ok (st_go s) -> Forall go_ok (st_go s ++ l).
Proof. intros Hl Hs. by apply Forall_app. Qed.
Lemma x_effect_moved id eff s :
  st_cs (x_effect id eff s) = st_cs s /\ st_handoverXBroker (x_effect id eff s) = st_handoverXBroker s /\
  st_handoverYBroker (x_effect id eff s) = st_handoverYBroker s /\
  (no_finish [eff] -> st_allowedConsensus (x_effect id eff s) = st_allowedConsensus s) /\
  (Forall go_ok (st_go s) -> Forall go_ok (st_go (x_effect id eff s))).
Proof.
  destruct eff as [m|m| |vp]; simpl; split_and!; try done.
  - apply go_ok_app. by repeat constructor.
  - destruct (st_cs s) eqn:Ec; simpl; by rewrite ?Ec.
  - by destruct (st_cs s).
  - by destruct (st_cs s).
  - intros Hs. apply Forall_cons in Hs as [Hs _]. exfalso. by eapply Hs.
  - intros Hs. destruct (st_cs s); simpl; rewrite <- ?(assoc_L (++)); apply go_ok_app; by repeat constructor.
Qed.
Lemma x_effects_moved id effs s :
  let s' := foldl (fun s eff => x_effect id eff s) s effs in
  st_cs s' = st_cs s /\ st_handoverXBroker s' = st_handoverXBroker s /\ st_handoverYBroker s' = st_handoverYBroker s /\
  (no_finish effs -> st_allowedConsensus s' = st_allowedConsensus s) /\
  (Forall go_ok (st_go s) -> Forall go_ok (st_go s')).
Proof.
  revert s. induction effs as [|eff effs IH]; intros s; [done|]. cbn [foldl].
  destruct (IH (x_effect id eff s)) as (I1 & I2 & I3 & I4 & I5).
  destruct (x_effect_moved id eff s) as (K1 & K2 & K3 & K4 & K5). cbv zeta. rewrite I1, I2, I3, K1, K2, K3.
  split_and!; try done; [|auto]. intros Hn. apply Forall_cons in Hn as [Hn1 Hn].
  rewrite I4, K4; [done|by repeat constructor|done].
Qed.

Lemma on_x_moved {A} (f : HandoverXBroker -> x_result A) s :
  (forall b b' effs r, st_handoverXBroker s = Some b -> f b = (b', effs, r) -> x_good b b' effs) -> keeps s (on_x f s).1.
Proof.
  intros Hf. unfold on_x. destruct (st_handoverXBroker s) as [b|] eqn:Eb; [|apply keeps_refl].
  destruct (f b) as [[b' effs] r] eqn:Er. cbn [fst].
  destruct (Hf _ _ _ _ eq_refl Er) as (G1 & G2 & G3).
  destruct (x_effects_moved (xb_id b) effs (set_x (Some b') s)) as (I1 & I2 & I3 & I4 & I5).
  set (s' := foldl _ _ _) in *. simpl in *. split; [done|]. split; [|done].
  unfold brokers_step, x_live, y_live, x_underway, get_HandoverXBroker, get_HandoverYBroker. rewrite I2, I3, Eb.
  destruct (xb_canceled b) eqn:Ec, (xb_canceled b') eqn:Ec'; simpl; try (by specialize (G1 eq_refl)); split_and!; try done.
  intros Hu. apply negb_true_iff in Hu. destruct (xb_isFinished b) eqn:Ef; [by rewrite G2 in Hu|]. split; [done|].
  rewrite I4; [done|]. destruct G3 as [G3|[G3|G3]]; congruence.
Qed.

(** Y never takes the consensus away or comes back. *)
Definition y_good (b b' : HandoverYBroker) : Prop := yb_canceled b = true -> yb_canceled b' = true.
Lemma y_effect_moved eff s :
  st_cs (y_effect eff s) = st_cs s /\ st_handoverXBroker (y_effect eff s) = st_handoverXBroker s /\
  st_handoverYBroker (y_effect eff s) = st_handoverYBroker s /\
  st_allowedConsensus (y_effect eff s) = st_allowedConsensus s /\
  (Forall go_ok (st_go s) -> Forall go_ok (st_go (y_effect eff s))).
Proof.
  destruct eff as [m|vp|[vp|]|]; simpl; destruct (st_cs s) as [cur|] eqn:Ec; simpl; split_and!; try done;
    intros Hs; apply go_ok_app; by repeat constructor.
Qed.
Lemma y_effects_moved effs s :
  let s' := foldl (fun s eff => y_effect eff s) s effs in
  st_cs s' = st_cs s /\ st_handoverXBroker s' = st_handoverXBroker s /\ st_handoverYBroker s' = st_handoverYBroker s /\
  st_allowedConsensus s' = st_allowedConsensus s /\ (Forall go_ok (st_go s) -> Forall go_ok (st_go s')).
Proof.
  revert s. induction effs as [|eff effs IH]; intros s; [done|]. cbn [foldl].
  destruct (IH (y_effect eff s)) as (I1 & I2 & I3 & I4 & I5).
  destruct (y_effect_moved eff s) as (K1 & K2 & K3 & K4 & K5). cbv zeta. rewrite I1, I2, I3, I4. by split_and!; auto.
Qed.
Lemma on_y_moved {A} (f : HandoverYBroker -> y_result A) s :
  (forall (b b' : HandoverYBroker) effs r, st_handoverYBroker s = Some b -> f b = (b', effs, r) -> y_good b b') -> keeps s (on_y f s).1.
Proof.
  intros Hf. unfold on_y. destruct (st_handoverYBroker s) as [b|] eqn:Eb; [|apply keeps_refl].
  destruct (f b) as [[b' effs] r] eqn:Er. cbn [fst].
  pose proof (Hf _ _ _ _ eq_refl Er) as G1. unfold y_good in G1.
  destruct (y_effects_moved effs (set_y (Some b') s)) as (I1 & I2 & I3 & I4 & I5).
  set (s' := foldl _ _ _) in *. simpl in *. split; [done|]. split; [|done].
  unfold brokers_step, x_live, y_live, x_underway, get_HandoverXBroker, get_HandoverYBroker. rewrite I2, I3, I4, Eb.
  destruct (yb_canceled b) eqn:Ec, (yb_canceled b') eqn:Ec'; simpl; try (by specialize (G1 eq_refl)); split_and!; try done; tauto.
Qed.

Lemma y_cancel_good (b b' : HandoverYBroker) effs : y_cancel b = (b', effs) -> y_good b b'.
Proof. unfold y_cancel, y_good. destruct (yb_canceled b) eqn:E; by intros [= <- _]. Qed.
Lemma y_Receive_good args node msg (b b' : HandoverYBroker) effs r : y_Receive args node msg b = Ok (b', effs, r) -> y_good b b'.
Proof. unfold y_Receive, y_good. intros Hr Hc. rewrite Hc in Hr. by injection Hr as <- _ _. Qed.

Lemma cleanHandovers_moved s : keeps s (cleanHandovers s).
Proof. done. Qed.
End broker_moves.

(** ** What holds of the states *)
Section invariants.
Context `{Crypto, BlockCrypto, HandoverData} {E J W : Type} `{!Handlers E J W, !HandlersLaws E J W}.
Variables (xargs : HandoverXBrokerArgs) (yargs : HandoverYBrokerArgs).
Implicit Types (s : States J W) (c : switchContext) (e : E).

Lemma checkOutOfHandoverX_keeps e s c : keeps s (checkOutOfHandoverX e s c).
Proof.
  unfold checkOutOfHandoverX. destruct (get_HandoverXBroker s) as [b|]; [|apply keeps_refl].
  destruct (xb_isFinished b); [apply keeps_refl|]. destruct (_ || _); [apply keeps_refl|].
  apply on_x_moved. intros b0 b' effs r _ Hf. by eapply x_finish_good.
Qed.

(** How the switches end: the loop of the states goes on, or it is to stop, or not
    even the broken state can be entered. *)
Definition ensured e s (r : States J W * option goerr) : Prop :=
  moved s r.1 /\
  match r.2 with
  | None => True
  | Some err =>
      (exists s1 c1, next c1 = StateStopped /\ switchState e s1 c1 = Ok (r.1, None) /\ err = EWrap (ECtx c1)) \/
      (exists s1 c1 err1, next c1 = StateBroken /\ switchState e s1 c1 = Ok (r.1, Some err1) /\
         errors_As err1 = None /\ err = EWrap err1)
  end.
Lemma switchState_moved e s c : returns (switchState e s c) (fun '(s', _) => moved s s').
Proof.
  destruct (st_cs s) as [cur|] eqn:Ec; [|by rewrite switchState_nil].
  eapply fine_mono; [by apply (switchState_fine e s c cur)|]. by intros [s' r] (Hm & _).
Qed.
Lemma ensured_trans e s s1 r : moved s s1 -> ensured e s1 r -> ensured e s r.
Proof. intros Hm [Hm1 Hr]. split; [by eapply moved_trans|done]. Qed.
Lemma switch_loop_fine fuel n e s c r : switch_loop fuel n e s c = Some r -> returns r (ensured e s).
Proof.
  revert n s c. induction fuel as [|fuel IH]; intros n s c; [done|]. cbn [switch_loop].
  destruct (3 <? n); [apply IH|]. pose proof (switchState_moved e s c) as Hm.
  destruct (switchState e s c) as [[s' [err|]]|m|] eqn:Es; simpl in Hm; [| |done|by intros [= <-]].
  - destruct (errors_As err) as [c'|] eqn:Ea.
    + intros Hr. eapply fine_mono; [by eapply IH|]. intros r'. by apply ensured_trans.
    + destruct (bool_decide (next c = StateBroken)) eqn:Eb.
      * intros [= <-]. split; [done|]. right. apply bool_decide_eq_true in Eb. by exists s, c, err.
      * intros Hr. eapply fine_mono; [by eapply IH|]. intros r'. by apply ensured_trans.
  - destruct (bool_decide (next c = StateStopped)) eqn:Eb; intros [= <-].
    + split; [done|]. left. apply bool_decide_eq_true in Eb. by exists s, c.
    + split; [|done]. eapply moved_trans; [exact Hm|]. apply checkOutOfHandoverX_keeps.
Qed.
Lemma ensureSwitchState_fine e s c : ctx_ok c -> returns (ensureSwitchState e s c) (ensured e s).
Proof.
  intros Hc. unfold ensureSwitchState. destruct (switch_loop_ends e s c Hc) as [r Hr]. rewrite Hr.
  by eapply switch_loop_fine.
Qed.

(** A request to switch comes to an end whatever the handlers answer: the
    states loop goes on, it stops for a stop, or the broken state cannot be entered
    either. *)
Theorem ensureSwitchState_ends e s c :
  ctx_ok c ->
  ensureSwitchState e s c = Panic \/
  exists s' r, ensureSwitchState e s c = Ok (s', r) /\
    match r with
    | None => True
    | Some err =>
        (exists s1 c1, next c1 = StateStopped /\ switchState e s1 c1 = Ok (s', None) /\ err = EWrap (ECtx c1)) \/
        (exists s1 c1 err1, next c1 = StateBroken /\ switchState e s1 c1 = Ok (s', Some err1) /\
           errors_As err1 = None /\ err = EWrap err1)
    end.
Proof.
  intros Hc. pose proof (ensureSwitchState_fine e s c Hc) as Hf.
  destruct (ensureSwitchState e s c) as [[s' r]|m|]; [|done|by left]. right. exists s', r. split; [done|]. apply Hf.
Qed.

(** C17: a node changes its state only from the state that asks, into consensus or
    joining only when it is allowed and under no handover or out of a handover,
    into handover only after it has asked, and out of stopped only to boot or to be
    broken. *)
Theorem switch_permitted e s c s' r cur t :
  st_cs s = Some cur -> switchState e s c = Ok (s', r) -> st_cs s' = Some t -> t <> cur ->
  from c = cur /\
  (to_consensus t = true -> cur <> StateHandover -> st_allowedConsensus s = true /\ get_HandoverYBroker s = None) /\
  (t = StateHandover -> exists b, get_HandoverYBroker s = Some b /\ y_IsAsked b = true) /\
  (cur = StateStopped -> next c = StateBooting \/ next c = StateBroken) /\
  (t = next c \/ t = StateHandover \/ t = StateSyncing).
Proof.
  intros Hs Hsw Ht Hne. pose proof (switchState_fine e s c cur Hs) as Hf. rewrite Hsw in Hf.
  destruct Hf as (_ & [Hc|(c1 & Hc & Ht1)] & _); [congruence|]. rewrite Ht in Ht1. injection Ht1 as ->.
  apply (check_Go s c c1 cur) in Hc as (G1 & _ & _ & _ & G2 & G3 & G4 & _ & G5 & _); [|done].
  split_and!; try done. destruct G5 as [->|[G5|[G5 _]]]; auto.
Qed.

(** *** The brokers *)
Definition brokers_ok s : Prop :=
  x_live s && y_live s = false /\ (x_underway s = true -> st_allowedConsensus s = true) /\ Forall go_ok (st_go s).
Lemma ok_moved s s' : brokers_ok s -> moved s s' -> brokers_ok s'.
Proof.
  intros (O1 & O2 & O3) ((M1 & M2 & M3) & M4). split_and!; [|intros Hu; apply M3 in Hu as [Hu Ha]; auto|auto].
  destruct (x_live s'); [|done]. destruct (y_live s'); [|done]. by rewrite M1, M2 in O1.
Qed.
Lemma ok_keeps s s' : brokers_ok s -> keeps s s' -> brokers_ok s'.
Proof. intros Ho [_ Hm]. by eapply ok_moved. Qed.

Lemma newVoteproof_ok e s finished vp :
  brokers_ok s -> returns (states_newVoteproof e s finished vp) (fun '(s', _) => brokers_ok s').
Proof.
  intros Ho. unfold states_newVoteproof. destruct (st_cs s) as [cur|]; [|done].
  destruct (h_isNew vp s); [|done]. cbn [negb]. eapply fine_bind; [apply law_newVoteproof|].
  intros [s' r] [Hk Hr]. assert (brokers_ok s') as Ho' by (by eapply ok_keeps).
  destruct r as [err|]; [|done]. destruct (errors_Is _ _); [done|]. destruct (errors_As err) as [c|] eqn:Ea; [|done].
  eapply fine_mono; [apply ensureSwitchState_fine; by eapply Hr|]. intros [s2 r2] [Hm _]. by eapply ok_moved.
Qed.

Lemma cleaned_ok s s' :
  brokers_ok s -> moved s s' -> brokers_ok (cleanHandovers s').
Proof. intros Ho Hm. eapply ok_keeps; [by eapply ok_moved|apply cleanHandovers_moved]. Qed.
Lemma x_canceled_moved s : keeps s (on_x x_canceled s).1.
Proof.
  apply on_x_moved. intros b b' effs r _. unfold x_canceled. destruct (x_cancel b) as [b1 e1] eqn:E1.
  intros [= <- <- _]. by apply x_cancel_good.
Qed.
Lemma y_canceled_moved s : keeps s (on_y y_canceled s).1.
Proof.
  apply on_y_moved. intros b b' effs r _. unfold y_canceled. destruct (y_cancel b) as [b1 e1] eqn:E1.
  intros [= <- <- _]. by eapply y_cancel_good.
Qed.
Lemma dead_ok s : get_HandoverXBroker s = None -> Forall go_ok (st_go s) -> brokers_ok s.
Proof. intros Hx Hg. unfold brokers_ok, x_live, x_underway. by rewrite Hx. Qed.
Lemma keeps_go s s' : Forall go_ok (st_go s) -> keeps s s' -> Forall go_ok (st_go s').
Proof. intros Hg (_ & _ & Hk). auto. Qed.

Lemma SetAllowConsensus_ok s allow : brokers_ok s -> brokers_ok (SetAllowConsensus s allow).
Proof.
  intros Ho. unfold SetAllowConsensus. destruct (bool_decide _); [done|].
  set (s1 := setAllowConsensus allow s).
  assert (exists s2, match st_cs s1 with
    | Some cur => if to_consensus cur then h_whenSetAllowConsensus cur allow s1 else s1 | None => s1 end = s2 /\
    keeps s1 s2) as (s2 & -> & Hk).
  { eexists. split; [done|]. destruct (st_cs s1); [destruct (to_consensus _)|]; [apply law_whenSet|apply keeps_refl..]. }
  destruct Ho as (O1 & O2 & O3). assert (Forall go_ok (st_go s2)) as Hg by (apply (keeps_go s1); [exact O3|exact Hk]).
  destruct allow.
  - assert (brokers_ok s2) as Ho2 by (apply (ok_keeps s1); [by split_and!|exact Hk]).
    destruct (get_HandoverXBroker s2), (get_HandoverYBroker s2); try done;
      (eapply cleaned_ok; [exact Ho2|apply y_canceled_moved]).
  - destruct (get_HandoverXBroker s2) as [b|] eqn:Ex.
    + assert (brokers_ok (cleanHandovers (on_x x_canceled s2).1)) as Ho3.
      { apply dead_ok; [done|]. change (Forall go_ok (st_go (on_x x_canceled s2).1)). apply (keeps_go s2); [done|]. apply x_canceled_moved. }
      by destruct (get_HandoverYBroker _).
    + assert (brokers_ok s2) by (by apply dead_ok). by destruct (get_HandoverYBroker s2).
Qed.

Lemma NewX_ok made s s' id : brokers_ok s -> st_NewHandoverXBroker made s = Ok (s', id) -> brokers_ok s'.
Proof.
  intros (O1 & O2 & O3). unfold st_NewHandoverXBroker. destruct (st_handoverXBroker s); [done|].
  destruct (st_allowedConsensus s) eqn:Ea; [|done]. cbn [negb]. destruct (get_HandoverYBroker s) eqn:Ey; [done|].
  intros (id' & _ & [= <- _])%bind_ok. split; [|done]. unfold y_live.
  change (get_HandoverYBroker (set_x _ s)) with (get_HandoverYBroker s). rewrite Ey. apply andb_false_r.
Qed.
Lemma NewY_ok made s s' : brokers_ok s -> st_NewHandoverYBroker made s = Ok s' -> brokers_ok s'.
Proof.
  intros (O1 & O2 & O3). unfold st_NewHandoverYBroker. destruct (st_handoverYBroker s); [done|].
  destruct (st_allowedConsensus s); [done|]. destruct (get_HandoverXBroker s) eqn:Ex; [done|].
  intros (args & _ & [= <-])%bind_ok. by apply dead_ok.
Qed.

Lemma AskMoveState_ok s c : brokers_ok s -> ctx_ok c -> brokers_ok (AskMoveState s c).1.
Proof.
  intros Ho Hc. unfold AskMoveState. destruct (check s c) as [|er|c'] eqn:Ech; [done..|].
  eapply ok_moved; [exact Ho|]. apply moved_go. simpl.
  destruct (st_cs s) as [cur|] eqn:Ecs.
  - destruct (check_Go s c c' cur Ecs Ech) as (_ & _ & _ & _ & _ & _ & _ & _ & _ & Hok). by apply Hok.
  - unfold check, checkStateSwitchContext in Ech. rewrite Ecs in Ech. by injection Ech as <-.
Qed.

Lemma x_called_ok (A : Type) (f : HandoverXBroker -> res (x_result A)) s :
  brokers_ok s -> (forall b b' effs r, f b = Ok (b', effs, r) -> x_good b b' effs) ->
  (forall b m, f b <> Err m) ->
  returns (goes_on (x_called f s)) (fun '(s', _) => brokers_ok s').
Proof.
  intros Ho Hf Hne. unfold goes_on, x_called. destruct (get_HandoverXBroker s) as [b|] eqn:Eb; [|done].
  assert (st_handoverXBroker s = Some b) as Eb'.
  { unfold get_HandoverXBroker in Eb. destruct (st_handoverXBroker s) as [b0|]; [|done]. by destruct (xb_canceled b0); simplify_eq. }
  destruct (f b) as [r|m|] eqn:Er; [|by apply Hne in Er|done]. simpl. eapply ok_keeps; [exact Ho|]. apply on_x_moved.
  intros b0 b' effs r' Hb ->. rewrite Eb' in Hb. injection Hb as <-. by eapply Hf.
Qed.
Lemma y_called_ok (A : Type) (f : HandoverYBroker -> res (y_result A)) s :
  brokers_ok s -> (forall (b b' : HandoverYBroker) effs r, f b = Ok (b', effs, r) -> y_good b b') ->
  (forall b m, f b <> Err m) ->
  returns (goes_on (y_called f s)) (fun '(s', _) => brokers_ok s').
Proof.
  intros Ho Hf Hne. unfold goes_on, y_called. destruct (get_HandoverYBroker s) as [b|] eqn:Eb; [|done].
  assert (st_handoverYBroker s = Some b) as Eb'.
  { unfold get_HandoverYBroker in Eb. destruct (st_handoverYBroker s) as [b0|]; [|done]. by destruct (yb_canceled b0); simplify_eq. }
  destruct (f b) as [r|m|] eqn:Er; [|by apply Hne in Er|done]. simpl. eapply ok_keeps; [exact Ho|]. apply on_y_moved.
  intros b0 b' effs r' Hb ->. rewrite Eb' in Hb. injection Hb as <-. by eapply Hf.
Qed.

Lemma x_Receive_no_err msg ready b m : x_Receive xargs msg ready b <> Err m.
Proof.
  unfold x_Receive. destruct (xb_isFinished b); [done|].
  assert (forall m', x_receiveInternal xargs msg ready (xb_successcount b) b <> Err m') as Hi.
  { intros m'. unfold x_receiveInternal. destruct (xb_canceled b); [done|]. destruct (negb _); [done|].
    destruct (HandoverMessage_IsValid _ _); [|done..].
    assert (forall msg, receiveChallenge xargs msg ready (xb_successcount b) b <> Err m') as Hc.
    { intros msg'. unfold receiveChallenge.
      assert (forall bm m', receiveBlockMap xargs bm b <> Err m') as Hb.
      { intros bm m2. unfold receiveBlockMap. destruct (negb _); [done|]. destruct (negb _); [done|].
        destruct (match xb_lastReceived b with Some (LastBlockMap _) => _ | _ => None end); [done|].
        destruct (xb_lastVoteproof _) as [vp|]; [|done]. destruct (_ || _); [done|].
        destruct (ACCEPT_BallotMajority vp) as [[mj|]|m3|] eqn:Em; [done..| |done].
        unfold ACCEPT_BallotMajority in Em. destruct (vp_majority vp) as [[]|]; done. }
      destruct msg' as [| | |id p [bm|]| |]; cbn [mbind res_bind];
        try (destruct (receiveStagePoint _ _) as [b1 [er|]]); try (specialize (Hb bm); destruct (receiveBlockMap xargs bm b) as [[b1 [er|]]|m2|]);
        cbn [mbind res_bind]; try done; try (by destruct (challengeIsReady _ _ _ _ _) as [[? ?] ?]); by destruct (Hb m2). }
    destruct msg; try done; try apply Hc. by destruct (x_cancelByMessage b). }
  destruct (x_receiveInternal _ _ _ _ _) as [[[b1 e1] [er|n]]|m'|]; [|done|by destruct (Hi m')|done].
  simpl. destruct er; try done; by destruct (x_cancel b1).
Qed.
Lemma y_Receive_no_err node msg (b : HandoverYBroker) m : y_Receive yargs node msg b <> Err m.
Proof.
  unfold y_Receive. destruct (yb_canceled b); [done|]. destruct (yb_isFinished b); [done|].
  assert (forall m', y_receiveInternal yargs node msg b <> Err m') as Hi.
  { intros m'. unfold y_receiveInternal. destruct (String.length _ <? 1)%nat; [done|]. destruct (negb _); [done|].
    by destruct (HandoverMessage_IsValid _ _). }
  destruct (y_receiveInternal _ _ _ _) as [[[b1 effs] er]|m'|]; [|by destruct (Hi m')|done].
  cbn [mbind res_bind]. destruct er as [[]|]; try done; by destruct (y_cancel b1).
Qed.

Lemma run_go_ok e g s : brokers_ok s -> go_ok g -> returns (run_go e g s) (fun '(s', _) => brokers_ok s').
Proof.
  intros Ho Hg. destruct g as [panics c|c|finished vp|stop c|l]; simpl.
  - pose proof (AskMoveState_ok s c Ho Hg) as Ha. destruct (AskMoveState s c) as [s' [err|]]; [by destruct panics|done].
  - eapply fine_mono; [by apply ensureSwitchState_fine|]. intros [s' r] [Hm _]. by eapply ok_moved.
  - by apply newVoteproof_ok.
  - set (s1 := match stop with Some _ => _ | None => _ end). assert (brokers_ok (cleanHandovers s1)) as Hc.
    { apply dead_ok; [done|]. change (Forall go_ok (st_go s1)). unfold s1. destruct Ho as (_ & _ & Ho).
      destruct stop; [|done]. destruct (st_handoverXBroker s); [|done]. by case_bool_decide. }
    destruct c as [c|]; [|done]. pose proof (AskMoveState_ok _ c Hc Hg) as Ha.
    by destruct (AskMoveState _ c) as [s' [err|]].
  - eapply fine_bind; [apply law_run|]. intros s' Hk. by eapply ok_keeps.
Qed.

Lemma states_step_ok e ev s :
  brokers_ok s -> returns (states_step xargs yargs e ev s) (fun '(s', _) => brokers_ok s').
Proof.
  intros Ho. destruct ev as [i|vp|vp|allow| |made|made| | |msg ready|sent|dt d sent|node msg|asks]; simpl.
  - destruct (st_go s !! i) as [g|] eqn:Eg; [|done]. destruct Ho as (O1 & O2 & O3). apply run_go_ok.
    + split; [done|]. split; [done|]. simpl. by apply Forall_delete.
    + by eapply (Forall_lookup_1 _ _ i g).
  - destruct (negb _); [done|]. by apply newVoteproof_ok.
  - by apply newVoteproof_ok.
  - by apply SetAllowConsensus_ok.
  - unfold Hold. destruct (st_cs s) as [cur|]; [|done]. eapply fine_bind; [apply switchState_moved|].
    intros [s' r] Hm. by eapply ok_moved.
  - destruct (st_NewHandoverXBroker made s) as [[s' id]|m|] eqn:Em; [|done..]. by eapply NewX_ok.
  - destruct (st_NewHandoverYBroker made s) as [s'|m|] eqn:Em; [|done..]. by eapply NewY_ok.
  - unfold CancelHandoverXBroker. apply dead_ok; [done|]. destruct Ho as (_ & _ & Ho).
    change (Forall go_ok (st_go (on_x x_canceled s).1)). apply (keeps_go s); [done|apply x_canceled_moved].
  - unfold CancelHandoverYBroker. assert (brokers_ok (on_y y_canceled s).1) as (O1 & O2 & O3)
      by (eapply ok_keeps; [exact Ho|apply y_canceled_moved]).
    split; [apply andb_false_r|done].
  - apply x_called_ok; [done|intros b b' effs r; apply x_Receive_good|intros b m; apply x_Receive_no_err].
  - apply x_called_ok; [done| |intros b m; by destruct (x_respond _ _ _)].
    intros b b' effs r. destruct (x_respond xargs sent b) as [b1 e1] eqn:E1. intros [= <- <- _]. by eapply x_respond_good.
  - apply x_called_ok; [done| |done]. intros b b' effs r [= Hd]. by eapply x_SendData_good.
  - apply y_called_ok; [done|intros b b' effs r; apply y_Receive_good|intros b m; apply y_Receive_no_err].
  - destruct (st_handoverYBroker s) as [b|] eqn:Eb; [|done]. destruct Ho as (O1 & O2 & O3). split; [|done].
    unfold y_live, get_HandoverYBroker in *. rewrite Eb in O1. simpl.
    destruct asks; unfold y_readyToAsk, y_dataSynced; destruct (yb_canceled b) eqn:Ec; simpl; rewrite ?Ec; done.
Qed.

(** What happens to the states of a node, in any order. *)
Inductive st_run : States J W -> Prop :=
  | st_new allowed w : st_run (NewStates allowed w)
  | st_start e s s' r : st_run s -> start e s = Ok (s', r) -> st_run s'
  | st_step e ev s s' r : st_run s -> states_step xargs yargs e ev s = Ok (s', r) -> st_run s'
  | st_end e s s' serr : st_run s -> finish_start e s serr = Ok s' -> st_run s'.

Lemma start_ok e s : brokers_ok s -> returns (start e s) (fun '(s', _) => brokers_ok s').
Proof.
  intros Ho. unfold start. destruct (h_found StateStopped); [|done]. cbn [negb].
  destruct (new_ok StateStopped e s) as [Hn [_ Hm]]. rewrite Hn. simpl in Hm.
  eapply fine_bind; [apply law_enter|]. intros [s1 [er|l]] [[_ Hm1] _].
  - simpl. eapply ok_moved; [|exact Hm1]. by eapply ok_moved.
  - eapply fine_mono; [by apply ensureSwitchState_fine|]. intros [s2 r] [Hm2 _]. eapply ok_moved; [|exact Hm2].
    eapply ok_moved; [|apply moved_set_cs]. eapply ok_moved; [|exact Hm1]. by eapply ok_moved.
Qed.
Lemma run_ok s : st_run s -> brokers_ok s.
Proof.
  induction 1 as [allowed w|e s s' r _ Ho Hs|e ev s s' r _ Ho Hs|e s s' serr _ Ho Hs].
  - by apply dead_ok.
  - pose proof (start_ok e s Ho) as Hf. by rewrite Hs in Hf.
  - pose proof (states_step_ok e ev s Ho) as Hf. by rewrite Hs in Hf.
  - unfold finish_start in Hs. destruct (st_cs s) as [cur|]; [|by injection Hs as <-].
    apply bind_ok in Hs as ([s1 r1] & Hsw & [= <-]). eapply ok_moved; [exact Ho|].
    pose proof (switchState_moved e s (newStoppedSwitchContext cur (Some serr))) as Hf. by rewrite Hsw in Hf.
Qed.

(** C18: a node is never in the handovers of X and of Y at once, and as long as it
    hands over as X it may vote. *)
Theorem handovers_exclusive s :
  st_run s ->
  ~ (is_Some (get_HandoverXBroker s) /\ is_Some (get_HandoverYBroker s)) /\
  forall b, get_HandoverXBroker s = Some b -> xb_isFinished b = false -> st_allowedConsensus s = true.
Proof.
  intros Hr. destruct (run_ok s Hr) as (O1 & O2 & _). unfold x_live, y_live, x_underway in *. split.
  - intros [[x Hx] [y Hy]]. by rewrite Hx, Hy in O1.
  - intros b Hb Hf. rewrite Hb, Hf in O2. auto.
Qed.

(** Whatever happens to the states, the step is defined: no request, voteproof,
    broker call or goroutine keeps the node in a loop. *)
Theorem states_never_stuck s e ev :
  st_run s -> states_step xargs yargs e ev s = Panic \/ exists s' r, states_step xargs yargs e ev s = Ok (s', r) /\ st_run s'.
Proof.
  intros Hr. pose proof (states_step_ok e ev s (run_ok s Hr)) as Hf.
  destruct (states_step xargs yargs e ev s) as [[s' r]|m|] eqn:Es; [|done|by left]. right. exists s', r.
  split; [done|]. by eapply st_step.
Qed.
End invariants.

(** ** Requests of the other node ([states_handover.go])

    What comes from outside is an argument: the answers of the checks, and of the
    calls that are made in order, each with its result. *)
Section requests.
(** The address of a node and what [EqualConnInfo] compares of a connection. *)
Definition EqualConnInfo (a b : option string) : bool :=
  match a, b with Some a, Some b => bool_decide (a = b) | _, _ => false end.

Record handover_request := { hr_local : string; hr_localci : option string; hr_node : string; hr_ci : option string }.
Definition request_check (r : handover_request) : err :=
  guard_err (negb (bool_decide (hr_local r = hr_node r))) "address not matched" ≫= fun _ =>
  guard_err (EqualConnInfo (hr_localci r) (hr_ci r)) "same conn info".
(** A check by [isJoinedMemberlist]. *)
Definition joined_check (joined : res bool) (e : string) : err := joined ≫= fun j => guard_err (negb j) e.
Definition state_check (t : StateType) : err :=
  match t with
  | StateSyncing | StateConsensus | StateJoining | StateBooting => Ok tt
  | StateHandover => Err "x is under handover x"
  | _ => Err "not valid state"
  end.

Inductive start_call := CheckX | AddSyncSource | StartHandoverY.
(** The calls that were made, and the result. *)
Definition NewStartHandoverYFunc (r : handover_request) (isAllowedConsensus isHandoverStarted : bool)
    (answer : start_call -> err) : list start_call * err :=
  match (request_check r ≫= fun _ => guard_err isAllowedConsensus "allowed consensus" ≫= fun _ =>
         guard_err isHandoverStarted "handover already started") with
  | Ok _ =>
      match answer CheckX with
      | Ok _ =>
          match answer AddSyncSource with
          | Ok _ => ([CheckX; AddSyncSource; StartHandoverY], answer StartHandoverY)
          | er => ([CheckX; AddSyncSource], er)
          end
      | er => ([CheckX], er)
      end
  | er => ([], er)
  end.

Definition NewCheckHandoverFunc (r : handover_request) (isAllowedConsensus isHandoverStarted : bool)
    (joined : res bool) (currentState : StateType) : err :=
  request_check r ≫= fun _ => guard_err (negb isAllowedConsensus) "not allowed consensus" ≫= fun _ =>
  guard_err isHandoverStarted "handover already started" ≫= fun _ =>
  joined_check joined "x not joined memberlist" ≫= fun _ => state_check currentState.
Definition NewCheckHandoverXFunc (isAllowedConsensus isHandoverStarted : bool) (joined : res bool)
    (currentState : StateType) : err :=
  guard_err (negb isAllowedConsensus) "not allowed consensus" ≫= fun _ =>
  guard_err isHandoverStarted "handover already started" ≫= fun _ =>
  joined_check joined "not joined memberlist" ≫= fun _ => state_check currentState.

(** The first part: whether [setNotAllowConsensus] is called. *)
Definition NewAskHandoverReceivedFunc (r : handover_request) (isAllowedConsensus isHandoverStarted : bool)
    (joined : res bool) (currentState : StateType) (startHandoverX : res string) : bool * res (string * bool) :=
  match (request_check r ≫= fun _ => guard_err isHandoverStarted "handover already started") with
  | Ok _ =>
      if negb isAllowedConsensus then (false, Ok ("", true))
      else match joined_check joined "y not joined memberlist" with
           | Ok _ =>
               match currentState with
               | StateConsensus | StateJoining | StateBooting =>
                   (false, startHandoverX ≫= fun id => Ok (id, false))
               | _ => (true, Ok ("", true))
               end
           | Err m => (false, Err m)
           | Panic => (false, Panic)
           end
  | Err m => (false, Err m)
  | Panic => (false, Panic)
  end.
Definition NewAskHandoverFunc (joinMemberlist : err) (sendAsk : res (string * bool)) : res (string * bool) :=
  joinMemberlist ≫= fun _ => sendAsk.

(** X answers that Y may move to consensus at once always without an id, which
    [ask] of Y takes for an error: it is never used, although X no longer votes. *)
Lemma move_never_accepted r allowed started joined cur startX join id :
  y_ask (NewAskHandoverFunc join (NewAskHandoverReceivedFunc r allowed started joined cur startX).2) <> Ok (id, true).
Proof.
  unfold NewAskHandoverFunc, NewAskHandoverReceivedFunc, y_ask. destruct join; [|done..]. cbn [mbind res_bind].
  destruct (request_check r ≫= _); [|done..]. destruct allowed; [|done]. cbn [negb].
  destruct (joined_check _ _); [|done..].
  destruct cur; cbn [snd mbind res_bind]; try done;
    (destruct startX as [i|m|]; [|done..]; cbn [mbind res_bind]; by destruct (String.length i <? 1)%nat).
Qed.
End requests.

(** ** Concrete handlers

    What the next state says when it is entered: fine, an error, or a switch to
    syncing. *)
#[local] Existing Instance demo_crypto.
#[local] Existing Instance demo_block_crypto.
Definition demo_outside : Type := StateType -> option (option Z).
Definition demo_answer (t : StateType) (a : option (option Z)) : goerr + list unit :=
  match a with
  | None => inr []
  | Some None => inl (EPlain "failed")
  | Some (Some h) =>
      if bool_decide (t = StateBroken) then inl (EPlain "failed") else inl (EWrap (ECtx (newSyncingSwitchContext t h)))
  end.
#[global] Instance demo_handlers : Handlers demo_outside unit unit :=
  {| h_found := fun _ => true;
     h_new := fun _ _ s => (s, None);
     h_enter := fun t _ _ e s => Ok (s, demo_answer t (e t));
     h_exit := fun _ _ _ s => Ok (s, inr []);
     h_newVoteproof := fun _ _ _ _ s => Ok (s, None);
     h_isNew := fun _ _ => true;
     h_whenSetAllowConsensus := fun t allow s => if allow then s else go (GAsk true (emptySyncingSwitchContext t)) s;
     h_run := fun _ _ s => Ok s;
     h_send := fun _ _ => SendOk |}.
#[global] Instance demo_laws : HandlersLaws demo_outside unit unit.
Proof.
  constructor; simpl.
  - intros t e s. split; [done|apply keeps_refl].
  - intros t c e s. split; [apply keeps_refl|done].
  - intros t f c e s. split; [apply keeps_refl|]. unfold demo_answer. intros err c'.
    destruct (e t) as [[h|]|]; [case_bool_decide| |done]; intros [= <-]; simpl; [done| |done].
    intros [= <-]. split; [done|]. done.
  - intros t b vp e s. split; [apply keeps_refl|done].
  - intros t b s. destruct b; [apply keeps_refl|]. split; [done|]. by apply moved_go.
  - intros l e s. apply keeps_refl.
Qed.

Definition demo_ok : demo_outside := fun _ => None.
Fixpoint demo_events (e : demo_outside) (l : list event) (s : States unit unit) : res (States unit unit) :=
  match l with
  | [] => Ok s
  | ev :: l => states_step demo_xargs demo_yargs e ev s ≫= fun '(s, _) => demo_events e l s
  end.
Definition demo_states (l : list event) : res (States unit unit) :=
  start demo_ok (NewStates true tt) ≫= fun '(s, _) => demo_events demo_ok l s.
Lemma demo_events_run e l s s' :
  st_run demo_xargs demo_yargs s -> demo_events e l s = Ok s' -> st_run demo_xargs demo_yargs s'.
Proof.
  revert s. induction l as [|ev l IH]; intros s Hs; simpl; [by intros [= <-]|].
  intros ([s1 r] & Hst & Hl)%bind_ok. eapply IH; [|exact Hl]. by eapply st_step.
Qed.
Lemma demo_states_run l s : demo_states l = Ok s -> st_run demo_xargs demo_yargs s.
Proof.
  unfold demo_states. intros ([s1 r] & Hst & Hl)%bind_ok. eapply demo_events_run; [|exact Hl].
  eapply st_start; [apply (st_new _ _ true tt)|exact Hst].
Qed.

Definition demo_booted : States unit unit := default (NewStates true tt) (match demo_states [] with Ok s => Some s | _ => None end).
(** Joining answers with a switch to syncing, syncing with an error. *)
Definition demo_failing : demo_outside :=
  fun t => match t with StateJoining => Some (Some 33) | StateSyncing => Some None | _ => None end.

Lemma ensureSwitchState_ends_witness :
  exists s', ensureSwitchState demo_failing demo_booted (joiningSwitchContext StateBooting None) = Ok (s', None) /\
    st_cs s' = Some StateBroken /\
    (ensureSwitchState demo_failing demo_booted (joiningSwitchContext StateBooting None) = Panic \/
     exists s' r, ensureSwitchState demo_failing demo_booted (joiningSwitchContext StateBooting None) = Ok (s', r)).
Proof.
  eexists. split; [vm_compute; reflexivity|]. split; [reflexivity|].
  destruct (ensureSwitchState_ends demo_failing demo_booted (joiningSwitchContext StateBooting None) I)
    as [Hp|(s' & r & Hr & _)]; [by left|right; by exists s', r].
Defined.

Lemma switch_permitted_witness :
  exists s', switchState demo_ok demo_booted (joiningSwitchContext StateBooting None) = Ok (s', None) /\
    st_cs s' = Some StateJoining /\ st_allowedConsensus demo_booted = true.
Proof.
  eexists. split; [vm_compute; reflexivity|]. split; [reflexivity|].
  eapply (switch_permitted demo_ok demo_booted (joiningSwitchContext StateBooting None)) with (t := StateJoining);
    [vm_compute; reflexivity|vm_compute; reflexivity|reflexivity|discriminate|reflexivity|discriminate].
Defined.

(** X under way; Y cannot be begun, and a second X neither. *)
Definition demo_handover : States unit unit :=
  default (NewStates true tt)
    (match demo_states [EvNewX (Ok "a"); EvNewX (Ok "b"); EvNewY (Ok demo_yargs)] with Ok s => Some s | _ => None end).
Lemma handovers_exclusive_witness :
  xb_id <$> get_HandoverXBroker demo_handover = Some "a" /\ get_HandoverYBroker demo_handover = None /\
  st_allowedConsensus demo_handover = true.
Proof.
  split; [vm_compute; reflexivity|].
  destruct (handovers_exclusive demo_xargs demo_yargs demo_handover) as [Hx Ha].
  - apply (demo_states_run [EvNewX (Ok "a"); EvNewX (Ok "b"); EvNewY (Ok demo_yargs)]). vm_compute. reflexivity.
  - split.
    + destruct (get_HandoverYBroker demo_handover) as [y|] eqn:Ey; [|reflexivity]. exfalso. apply Hx.
      split; [vm_compute; eauto|eauto].
    + eapply Ha; [vm_compute; reflexivity|vm_compute; reflexivity].
Defined.

(** A request that is ignored still ends the handover of X: the node goes on in
    booting, and it may no longer vote. *)
Lemma ignored_switch_finishes_x :
  exists s', ensureSwitchState demo_ok demo_handover (emptySyncingSwitchContext StateConsensus) = Ok (s', None) /\
    st_cs s' = st_cs demo_handover /\ st_allowedConsensus s' = false /\
    xb_isFinished <$> get_HandoverXBroker s' = Some true.
Proof. eexists. split; [vm_compute; reflexivity|]. by vm_compute. Qed.

(** The goroutine that cleans up after a canceled X takes the next X away: it is
    neither canceled nor finished, but nobody knows it any more. *)
Lemma clean_drops_next_x :
  exists s s', demo_states [EvNewX (Ok "a"); EvCancelX; EvNewX (Ok "b")] = Ok s /\
    xb_id <$> get_HandoverXBroker s = Some "b" /\
    states_step demo_xargs demo_yargs demo_ok (EvGo 1) s = Ok (s', None) /\ st_handoverXBroker s' = None.
Proof.
  eexists _, _. split; [vm_compute; reflexivity|]. split; [reflexivity|]. split; [vm_compute; reflexivity|reflexivity].
Qed.

(** The stop of [Hold] that the current handler ignores is taken for a stop when it
    comes through the loop. *)
Lemma ignored_stop_ends :
  exists s', ensureSwitchState demo_ok demo_booted (newStoppedSwitchContext StateConsensus None) =
    Ok (s', Some (EWrap (ECtx (newStoppedSwitchContext StateConsensus None)))) /\ st_cs s' = Some StateBooting.
Proof. eexists. split; [vm_compute; reflexivity|reflexivity]. Qed.
