(* ===== verification/Broadcast.v ===== *)
(** * Making, keeping and broadcasting ballots

    The constructors of [isaac/ballot_fact.go] and [isaac/ballot.go], the ballots
    a node keeps in [isaac/database/pool.go], [isaac/states/ballot.go],
    [isaac/states/broadcast.go], and the mimic ballots of
    [isaac/states/states.go].

    A node signs a ballot once and broadcasts it again and again by a timer; it
    looks a ballot up in its pool before it makes one.  While it is syncing it
    signs the fact of a ballot of a sync source, so that the others do not take it
    for dead. *)
From S2P Require Import Prelude Point Vote Slice Ballot Voteproof Handover States.

Open Scope Z_scope.

(** ** Making facts and ballots *)

(** [StagePoint.Bytes], the token of a fact. *)
Class PointBytes := { point_bytes : StagePoint -> string }.
(** The local node, and its signature of a fact hash ([NodeSign]). *)
Class LocalNode := {
  local : Node;
  local_NodeSign : BallotFact -> res NodeSign
}.

(** [generateHash] does not look at the hash. *)
Definition set_base (g : baseBallotFact -> baseBallotFact) (f : BallotFact) : BallotFact :=
  match f with
  | INITBallotFact b p q => INITBallotFact (g b) p q
  | SuffrageConfirmBallotFact b p q => SuffrageConfirmBallotFact (g b) p q
  | EmptyProposalINITBallotFact b p q r => EmptyProposalINITBallotFact (g b) p q r
  | ACCEPTBallotFact b q n => ACCEPTBallotFact (g b) q n
  | EmptyOperationsACCEPTBallotFact b q n => EmptyOperationsACCEPTBallotFact (g b) q n
  | NotProcessedACCEPTBallotFact b q n => NotProcessedACCEPTBallotFact (g b) q n
  end.
Definition Fact_SetHash (h : Hash) : BallotFact -> BallotFact :=
  set_base (fun b => {| bf_hash := h; bf_token := bf_token b; bf_point := bf_point b; bf_expelfacts := bf_expelfacts b |}).
Class FactHashLaws `{Crypto} := { fact_hash_Fact_SetHash h f : fact_hash (Fact_SetHash h f) = fact_hash f }.

(** [sortExpelFacts], by the strings of the hashes. *)
Fixpoint insert_hash (x : Hash) (l : list Hash) : list Hash :=
  match l with
  | [] => [x]
  | y :: l' => if str_ltb y x then y :: insert_hash x l' else x :: l
  end.
Definition sortExpelFacts (l : list Hash) : list Hash := foldr insert_hash [] l.

Section making.
Context `{Crypto, PointBytes, LocalNode}.

Definition newBaseBallotFact (stage : Stage) (point : Point) (expelfacts : list Hash) : baseBallotFact :=
  let sp := NewStagePoint point stage in
  {| bf_hash := ""; bf_token := point_bytes sp; bf_point := sp; bf_expelfacts := sortExpelFacts expelfacts |}.
Definition with_hash (f : BallotFact) : BallotFact := Fact_SetHash (fact_hash f) f.
Definition NewINITBallotFact (point : Point) (previousBlock proposal : Hash) (expelfacts : list Hash) : BallotFact :=
  with_hash (INITBallotFact (newBaseBallotFact StageINIT point expelfacts) previousBlock proposal).
Definition NewSuffrageConfirmBallotFact (point : Point) (previousBlock proposal : Hash) (expelfacts : list Hash)
    : BallotFact :=
  with_hash (SuffrageConfirmBallotFact (newBaseBallotFact StageINIT point expelfacts) previousBlock proposal).
(** [r] is a new UUID, [newBlock] of the facts below a random hash. *)
Definition NewEmptyProposalINITBallotFact (point : Point) (previousBlock proposal : Hash) (r : string) : BallotFact :=
  with_hash (EmptyProposalINITBallotFact (newBaseBallotFact StageINIT point []) previousBlock proposal r).
Definition NewACCEPTBallotFact (point : Point) (proposal newBlock : Hash) (expelfacts : list Hash) : BallotFact :=
  with_hash (ACCEPTBallotFact (newBaseBallotFact StageACCEPT point expelfacts) proposal newBlock).
(** The hash of the two facts below is that of the embedded fact. *)
Definition NewEmptyOperationsACCEPTBallotFact (point : Point) (proposal newBlock : Hash) : BallotFact :=
  let b := newBaseBallotFact StageACCEPT point [] in
  Fact_SetHash (fact_hash (ACCEPTBallotFact b proposal newBlock)) (EmptyOperationsACCEPTBallotFact b proposal newBlock).
Definition NewNotProcessedACCEPTBallotFact (point : Point) (proposal newBlock : Hash) : BallotFact :=
  let b := newBaseBallotFact StageACCEPT point [] in
  Fact_SetHash (fact_hash (ACCEPTBallotFact b proposal newBlock)) (NotProcessedACCEPTBallotFact b proposal newBlock).

(** [NewINITBallotSignFact] or [NewACCEPTBallotSignFact], signed. *)
Definition signed (k : sf_kind) (f : BallotFact) : res BallotSignFact :=
  local_NodeSign f ≫= fun s => Ok {| sf_type := k; sf_fact := f; sf_sign := s |}.
Definition NewINITBallot (vp : Voteproof) (sf : BallotSignFact) (expels : list SuffrageExpelOperation) : Ballot :=
  {| bl_type := INITBallotSignFact; bl_vp := vp; bl_signFact := sf; bl_expels := sortExpels expels |}.
Definition NewACCEPTBallot (vp : Voteproof) (sf : BallotSignFact) (expels : list SuffrageExpelOperation) : Ballot :=
  {| bl_type := ACCEPTBallotSignFact; bl_vp := vp; bl_signFact := sf; bl_expels := sortExpels expels |}.

(** [mimicBallot]: the fact of another node, under the name of the local node.
    [fresh] is the UUID or the random hash of an empty fact. *)
Definition mimicBallot (fresh : string) (fact : BallotFact) (expels : list SuffrageExpelOperation) (vp : Voteproof)
    : res Ballot :=
  match fact with
  | SuffrageConfirmBallotFact _ _ _ =>
      signed INITBallotSignFact fact ≫= fun sf => Ok (NewINITBallot vp sf [])
  | INITBallotFact _ _ _ => signed INITBallotSignFact fact ≫= fun sf => Ok (NewINITBallot vp sf expels)
  | EmptyProposalINITBallotFact b p q _ =>
      signed INITBallotSignFact (NewEmptyProposalINITBallotFact (sp_point (bf_point b)) p q fresh) ≫= fun sf =>
      Ok (NewINITBallot vp sf expels)
  | ACCEPTBallotFact _ _ _ | NotProcessedACCEPTBallotFact _ _ _ =>
      signed ACCEPTBallotSignFact fact ≫= fun sf =>
      if is_init_type vp then Ok (NewACCEPTBallot vp sf expels) else Panic
  | EmptyOperationsACCEPTBallotFact b q _ =>
      signed ACCEPTBallotSignFact (NewEmptyOperationsACCEPTBallotFact (sp_point (bf_point b)) q fresh) ≫= fun sf =>
      if is_init_type vp then Ok (NewACCEPTBallot vp sf expels) else Panic
  end.
End making.

(** ** The pool of ballots of the local node *)

(** The newest first; a ballot is kept under its point and whether it confirms a
    suffrage, and never replaced. *)
Abbreviation pool := (list Ballot).
Definition pool_key (bl : Ballot) : StagePoint * bool :=
  (bl_point bl, IsSuffrageConfirmBallotFact (Some (sf_fact (bl_signFact bl)))).
Definition pool_find (k : StagePoint * bool) (p : pool) : option Ballot :=
  head (filter (fun bl => pool_key bl = k) p).
Definition pool_Ballot (point : Point) (stage : Stage) (isSuffrageConfirm : bool) (p : pool) : res (option Ballot) :=
  let sp := NewStagePoint point stage in
  StagePoint_IsValid sp ≫= fun _ => Ok (pool_find (sp, isSuffrageConfirm) p).

Definition pool_SetBallot (bl : Ballot) (p : pool) : pool * bool :=
  match pool_find (pool_key bl) p with Some _ => (p, false) | None => (bl :: p, true) end.

Section broadcaster.
Context `{LocalNode}.
(** [Broadcast] of [DefaultBallotBroadcaster]: what is kept, and what is sent.  A
    ballot of another node is sent only. *)
Definition bb_set (bl : Ballot) (p : pool) : pool :=
  if bool_decide (sf_node (bl_signFact bl) = node_address local) then (pool_SetBallot bl p).1 else p.
Definition Broadcast (bl : Ballot) (p : pool) : pool * list Ballot := (bb_set bl p, [bl]).
End broadcaster.

(** ** Timers ([broadcast.go]) *)
Inductive timer_kind := timerIDBroadcastINITBallot | timerIDBroadcastSuffrageConfirmBallot | timerIDBroadcastACCEPTBallot.
#[global] Instance timer_kind_eq_dec : EqDecision timer_kind.
Proof. solve_decision. Defined.
Definition TimerID : Type := timer_kind * Point.
(** The timers that are on, each with the ballot its callback broadcasts;
    [points] has the points of these ballots. *)
Definition timers : Type := list (TimerID * Ballot).

Definition timerID (bl : Ballot) : option TimerID :=
  let point := bl_point bl in
  if IsSuffrageConfirmBallotFact (Some (sf_fact (bl_signFact bl)))
  then Some (timerIDBroadcastSuffrageConfirmBallot, sp_point point)
  else if bool_decide (sp_stage point = StageINIT) then Some (timerIDBroadcastINITBallot, sp_point point)
  else if bool_decide (sp_stage point = StageACCEPT) then Some (timerIDBroadcastACCEPTBallot, sp_point point)
  else None.

(** Whether a timer of [p] goes on after one of [point] was added. *)
Definition keep_timer (point p : StagePoint) : bool :=
  let r := p_r (sp_point point) in
  (if r =? 0 then
     if (sp_h point <? sp_h p) || (sp_h p =? sp_h point) then true
     else if sp_h p =? wrap_s 64 (sp_h point - 1) then
       if bool_decide (sp_stage point = StageINIT) && (Stage_Compare (sp_stage p) StageACCEPT <? 0) then false
       else negb (bool_decide (sp_stage point = StageACCEPT))
     else false
   else true) &&
  (if 0 <? r then
     (sp_h point <? sp_h p) || ((sp_h p =? sp_h point) && (r <=? wrap_u 64 (p_r (sp_point p) + 2)))
   else true).
(** The three kinds are all there are; the timers of the list are of one of them. *)
Definition removeTimerIDs (point : StagePoint) (ids : list timer_kind) (t : timers) : timers :=
  filter (fun '((k, _), bl) => keep_timer point (bl_point bl) = true /\ k ∈ ids) t.
Definition all_timers : list timer_kind :=
  [timerIDBroadcastINITBallot; timerIDBroadcastSuffrageConfirmBallot; timerIDBroadcastACCEPTBallot].
(** [addTimer]; [made] is what [timers.New] gives. *)
Definition addTimer (bl : Ballot) (ids : list timer_kind) (made : err) (t : timers) : timers * err :=
  match timerID bl with
  | None => (t, Err "unknown timer id")
  | Some ti =>
      if bool_decide (ti ∈ t.*1) then (t, Err "already added")
      else match made with
           | Ok _ => (removeTimerIDs (bl_point bl) ids ((ti, bl) :: t), Ok tt)
           | er => (t, er)
           end
  end.
(** [INIT], [ACCEPT] and [SuffrageConfirm]. *)
Definition bbt_add (bl : Ballot) (made : err) (t : timers) : timers * err := addTimer bl all_timers made t.
Definition StopTimers (t : timers) : timers := [].

(** The timer just added goes on. *)
Lemma keep_own_timer p : 0 <= p_r (sp_point p) < 2 ^ 64 - 2 -> keep_timer p p = true.
Proof.
  intros Hr. unfold keep_timer. rewrite Z.eqb_refl, orb_true_r. cbn [andb].
  destruct (Z.eqb_spec (p_r (sp_point p)) 0) as [E|E]; [by rewrite E|].
  rewrite (proj2 (Z.ltb_lt 0 _)) by lia. rewrite wrap_u_small by lia. cbn [andb].
  rewrite (proj2 (Z.leb_le _ (p_r (sp_point p) + 2))) by lia. by rewrite orb_true_r.
Qed.

(** ** Mimic ballots ([states.go]) *)
Section mimic.
Context `{Crypto, PointBytes, LocalNode}.

Definition local_in_expels (l : list SuffrageExpelOperation) : bool :=
  existsb (fun x => bool_decide (xf_node (xo_fact x) = node_address local)) l.
Definition filterMimicBallot (bl : Ballot) : bool :=
  local_in_expels (Ballot_Expels bl) || (HasExpels (bl_vp bl) && local_in_expels (vp_expels (bl_vp bl))).

(** What [mimicBallotFunc] does with a ballot after its checks: nothing, send a
    ballot of the pool again, or sign a new one. *)
Inductive mimic_next := MimicReturn | MimicAgain (bl : Ballot) | MimicSign.
(** Whether a node in state [s] looks at the ballot of another node. *)
Definition mimic_filter (s : StateType) (allowed : bool) (insource : Address -> bool) (bl : Ballot) : bool :=
  match s with StateSyncing | StateBroken => true | _ => false end &&
  allowed && negb (bool_decide (sf_node (bl_signFact bl) = node_address local)) &&
  insource (sf_node (bl_signFact bl)) && negb (filterMimicBallot bl).
Definition mimic_check (s : StateType) (allowed : bool) (insource : Address -> bool) (bl : Ballot) (p : pool)
    : mimic_next :=
  if negb (mimic_filter s allowed insource bl) then MimicReturn
  else match pool_Ballot (sp_point (bl_point bl)) (sp_stage (bl_point bl))
               (IsSuffrageConfirmBallotFact (Some (sf_fact (bl_signFact bl)))) p with
       | Ok None => MimicSign
       | Ok (Some newbl) =>
           if bool_decide (sf_node (bl_signFact newbl) = sf_node (bl_signFact bl)) then MimicAgain newbl else MimicReturn
       | _ => MimicReturn
       end.
(** Signing, the vote and the broadcast of the new ballot.  A ballot that cannot
    be signed is logged. *)
Definition mimic_sign (fresh : string) (bl : Ballot) (p : pool) : res (pool * list Ballot) :=
  match mimicBallot fresh (sf_fact (bl_signFact bl)) (Ballot_Expels bl) (bl_vp bl) with
  | Ok newbl => Ok (Broadcast newbl p)
  | Err _ => Ok (p, [])
  | Panic => Panic
  end.
Definition mimicBallotFunc (s : StateType) (allowed : bool) (insource : Address -> bool) (fresh : string)
    (bl : Ballot) (p : pool) : res (pool * list Ballot) :=
  match mimic_check s allowed insource bl p with
  | MimicReturn => Ok (p, [])
  | MimicAgain newbl => Ok (Broadcast newbl p)
  | MimicSign => mimic_sign fresh bl p
  end.
End mimic.

(** ** What is relied on, and the calls of a node one after another *)
(** [NodeSign] of the local key gives a valid signature of the fact by the local
    node, or an error. *)
Class LocalNodeLaws `{Crypto, !LocalNode} := {
  local_NodeSign_ok f :
    match local_NodeSign f with
    | Ok s => ns_node s = node_address local /\ sign_IsValid s = Ok tt /\ sign_Verify s (Fact_Hash f) = Ok tt
    | Err _ => True
    | Panic => False
    end;
  local_address_ok : address_IsValid (node_address local) = Ok tt
}.

Record mimic_call := {
  mc_state : StateType; mc_allowed : bool; mc_insource : Address -> bool; mc_fresh : string; mc_ballot : Ballot }.
Definition mimic_one `{Crypto, PointBytes, LocalNode} (c : mimic_call) (p : pool) : res (pool * list Ballot) :=
  mimicBallotFunc (mc_state c) (mc_allowed c) (mc_insource c) (mc_fresh c) (mc_ballot c) p.
Fixpoint mimic_calls `{Crypto, PointBytes, LocalNode} (cs : list mimic_call) (p : pool) : res (pool * list Ballot) :=
  match cs with
  | [] => Ok (p, [])
  | c :: cs =>
      mimic_one c p ≫= fun '(p, sent) => mimic_calls cs p ≫= fun '(p, sent') => Ok (p, sent ++ sent')
  end.

(** ** Properties *)
Section properties.
Context `{Crypto}.

Lemma BaseFact_token h t : BaseFact_IsValid h t = Ok tt -> Token_IsValid t = Ok tt.
Proof. unfold BaseFact_IsValid. intros ?. by res_inv. Qed.

Lemma BallotFact_IsValid_inv f :
  BallotFact_IsValid f = Ok tt ->
  baseBallotFact_IsValid (bf_base f) = Ok tt /\ StagePoint_IsValid (Fact_Point f) = Ok tt /\
  (is_Some (as_INITBallotFact f) -> sp_stage (Fact_Point f) = StageINIT) /\
  (is_Some (as_ACCEPTBallotFact f) -> sp_stage (Fact_Point f) = StageACCEPT).
Proof.
  intros Hv.
  assert (baseBallotFact_IsValid (bf_base f) = Ok tt) as Hb.
  { destruct f; unfold BallotFact_IsValid, INITBallotFact_IsValid, SuffrageConfirmBallotFact_IsValid,
      EmptyProposalINITBallotFact_IsValid, ACCEPTBallotFact_IsValid in Hv; by res_inv. }
  split; [done|]. split; [unfold baseBallotFact_IsValid in Hb; by res_inv|].
  destruct f; unfold BallotFact_IsValid, INITBallotFact_IsValid, SuffrageConfirmBallotFact_IsValid,
      EmptyProposalINITBallotFact_IsValid, ACCEPTBallotFact_IsValid, IsValidINITBallotFact, IsValidACCEPTBallotFact in Hv;
    split; (intros [? ?]; try done);
    res_inv; match goal with H : negb (bool_decide (sp_stage _ = _)) = false |- _ =>
      by apply negb_false_iff, bool_decide_eq_true in H end.
Qed.

Lemma valid_ballot_kind bl :
  Ballot_IsValid bl = Ok tt ->
  BallotSignFact_IsValid (bl_signFact bl) = Ok tt /\ StagePoint_IsValid (bl_point bl) = Ok tt /\
  sf_type (bl_signFact bl) = bl_type bl /\
  match bl_type bl with
  | INITBallotSignFact =>
      is_Some (as_INITBallotFact (sf_fact (bl_signFact bl))) /\ sp_stage (bl_point bl) = StageINIT
  | ACCEPTBallotSignFact =>
      is_Some (as_ACCEPTBallotFact (sf_fact (bl_signFact bl))) /\ sp_stage (bl_point bl) = StageACCEPT /\
      is_init_type (bl_vp bl) = true
  end.
Proof.
  intros Hv.
  assert (BallotSignFact_IsValid (bl_signFact bl) = Ok tt) as Hs.
  { unfold Ballot_IsValid, INITBallot_IsValid, ACCEPTBallot_IsValid, baseBallot_IsValid in Hv.
    destruct (bl_type bl); by res_inv. }
  split; [done|].
  assert (Hf := Hs). unfold BallotSignFact_IsValid, IsValidBallotSignFact, IsValidSignFact in Hf. res_inv.
  match goal with H : BallotFact_IsValid _ = _ |- _ => apply BallotFact_IsValid_inv in H as (_ & Hp & HI & HA) end.
  split; [done|].
  assert (sf_type (bl_signFact bl) = bl_type bl /\ (bl_type bl = ACCEPTBallotSignFact -> is_init_type (bl_vp bl) = true))
    as [Ht Hi].
  { unfold Ballot_IsValid, INITBallot_IsValid, ACCEPTBallot_IsValid, IsValidINITBallot, IsValidACCEPTBallot in Hv.
    destruct (bl_type bl).
    - split; [|done]. destruct (sf_fact (bl_signFact bl)) eqn:E; res_inv; destruct (sf_type _); done.
    - res_inv. split; [by destruct (sf_type _)|intros _; by apply negb_false_iff]. }
  split; [done|]. rewrite Ht in *. unfold bl_point.
  destruct (bl_type bl), (sf_fact (bl_signFact bl)); try done; split_and?; eauto.
Qed.

Context `{!PointBytes, !LocalNode, !LocalNodeLaws}.

Lemma signed_ok k f :
  match signed k f with
  | Ok sf => sf_fact sf = f /\ sf_type sf = k /\ sf_node sf = node_address local /\
             sign_IsValid (sf_sign sf) = Ok tt /\ sign_Verify (sf_sign sf) (Fact_Hash f) = Ok tt
  | Err _ => True
  | Panic => False
  end.
Proof.
  unfold signed. pose proof (local_NodeSign_ok f) as Hs.
  destruct (local_NodeSign f); run; cbn; tauto.
Qed.

Lemma NewStagePoint_eta p : NewStagePoint (sp_point p) (sp_stage p) = p.
Proof. by destruct p. Qed.

(** A mimic ballot is of the local node and at the key of the ballot it mimics. *)
Lemma mimicBallot_key fresh bl :
  Ballot_IsValid bl = Ok tt ->
  match mimicBallot fresh (sf_fact (bl_signFact bl)) (Ballot_Expels bl) (bl_vp bl) with
  | Ok newbl => pool_key newbl = pool_key bl /\ sf_node (bl_signFact newbl) = node_address local
  | Err _ => True
  | Panic => False
  end.
Proof.
  intros (_ & _ & _ & Hk)%valid_ballot_kind. unfold pool_key, bl_point in *.
  assert (match sf_fact (bl_signFact bl) with
          | EmptyProposalINITBallotFact b _ _ _ => sp_stage (bf_point b) = StageINIT
          | EmptyOperationsACCEPTBallotFact b _ _ => sp_stage (bf_point b) = StageACCEPT
          | _ => True
          end /\
          (is_Some (as_ACCEPTBallotFact (sf_fact (bl_signFact bl))) -> is_init_type (bl_vp bl) = true)) as [Hf Hi].
  { destruct (bl_type bl), (sf_fact (bl_signFact bl)); cbn in *; unfold is_Some in *; naive_solver. }
  clear Hk. destruct (sf_fact (bl_signFact bl)); cbn [mimicBallot];
    match goal with |- context [signed ?k ?f] => pose proof (signed_ok k f) as Hs; destruct (signed k f) as [sf| |] end;
    run; try done; destruct Hs as (Hs & _ & Hn & _); try (rewrite Hi by eauto);
    cbn; rewrite Hs; split; try done; unfold Fact_Point; cbn; by rewrite <- Hf, NewStagePoint_eta.
Qed.

Lemma pool_find_None k p : pool_find k p = None <-> k ∉ pool_key <$> p.
Proof.
  unfold pool_find. rewrite list_elem_of_fmap.
  destruct (filter (fun bl => pool_key bl = k) p) as [|bl l] eqn:E; cbn.
  - split; [|done]. intros _ (bl & -> & Hbl). eapply filter_nil_not_elem_of; [exact E| |exact Hbl]. done.
  - split; [done|]. intros Hk. destruct Hk.
    assert (bl ∈ filter (fun bl => pool_key bl = k) p) as [<- Hbl]%list_elem_of_filter by (rewrite E; left).
    by exists bl.
Qed.

Lemma pool_find_Some k p bl : pool_find k p = Some bl -> bl ∈ p /\ pool_key bl = k.
Proof. intros Hf%head_Some_elem_of%list_elem_of_filter. tauto. Qed.

Definition pool_local (p : pool) : Prop := Forall (fun bl => sf_node (bl_signFact bl) = node_address local) p.

(** One call, with nothing else running: it sends nothing, or signs for a key
    the pool does not have. *)
Lemma mimic_one_spec c p :
  Ballot_IsValid (mc_ballot c) = Ok tt -> pool_local p ->
  mimic_one c p = Ok (p, []) \/
  exists newbl, mimic_one c p = Ok (newbl :: p, [newbl]) /\
    sf_node (bl_signFact newbl) = node_address local /\ pool_key newbl = pool_key (mc_ballot c) /\
    pool_key newbl ∉ pool_key <$> p.
Proof.
  intros Hv Hp. unfold mimic_one, mimicBallotFunc, mimic_check.
  destruct (mimic_filter _ _ _ _) eqn:Hf; [|by left]. cbn [negb]. unfold pool_Ballot.
  rewrite NewStagePoint_eta. fold (pool_key (mc_ballot c)).
  destruct (valid_ballot_kind _ Hv) as (_ & -> & _). run.
  destruct (pool_find _ p) as [old|] eqn:Ef.
  - left. rewrite bool_decide_eq_false_2; [done|]. apply pool_find_Some in Ef as [Ho _].
    unfold pool_local in Hp. rewrite Forall_forall in Hp. rewrite (Hp old Ho). intros E.
    unfold mimic_filter in Hf. rewrite <- E in Hf. rewrite bool_decide_eq_true_2 in Hf by done.
    by rewrite andb_false_r in Hf.
  - unfold mimic_sign. pose proof (mimicBallot_key (mc_fresh c) _ Hv) as Hk.
    destruct (mimicBallot _ _ _ _) as [newbl| |]; [|by left|done]. destruct Hk as [Hk Hn].
    right. exists newbl. unfold Broadcast, bb_set, pool_SetBallot.
    rewrite bool_decide_eq_true_2 by done. rewrite Hk, Ef. cbn.
    split_and!; [done..|]. by apply pool_find_None.
Qed.

(** Mimic ballots do not contradict each other.  However a node
    that is syncing is fed with valid ballots, one call after another, every
    ballot it signs is for a stage point, and a kind of INIT ballot, that its pool
    has no ballot for: it never signs twice for one, and never panics. *)
Theorem mimic_once (cs : list mimic_call) (p : pool)
    (Hv : Forall (fun c => Ballot_IsValid (mc_ballot c) = Ok tt) cs) (Hp : pool_local p)
    (Hd : NoDup (pool_key <$> p)) :
  exists sent, mimic_calls cs p = Ok (reverse sent ++ p, sent) /\
    pool_local sent /\ NoDup (pool_key <$> (reverse sent ++ p)) /\
    forall bl, bl ∈ sent -> exists c, c ∈ cs /\ pool_key bl = pool_key (mc_ballot c).
Proof.
  revert p Hp Hd. induction Hv as [|c cs Hc Hcs IH]; intros p Hp Hd; cbn [mimic_calls].
  { exists []. split_and!; [done|constructor|done|set_solver]. }
  destruct (mimic_one_spec c p Hc Hp) as [->|(newbl & -> & Hn & Hk & Hnew)]; run.
  - destruct (IH p Hp Hd) as (sent & -> & Hl & Hs & Hin). exists sent. split_and!; [done..|].
    intros bl (c' & ? & ?)%Hin. exists c'. split; [by right|done].
  - destruct (IH (newbl :: p)) as (sent & -> & Hl & Hs & Hin).
    { by constructor. }
    { cbn. by constructor. }
    exists (newbl :: sent). run. rewrite reverse_cons, <- app_assoc. split_and!; [done|by constructor|done|].
    intros bl [->|(c' & ? & ?)%Hin]%elem_of_cons; [exists c|exists c']; split; (done || by constructor).
Qed.

Lemma dup_expels_loop_point bl bl' m l : bl_point bl = bl_point bl' -> dup_expels_loop bl m l = dup_expels_loop bl' m l.
Proof.
  intros E. revert m. induction l as [|x l IH]; intros m; [done|]. cbn. unfold wrong_start. rewrite E. by case_all.
Qed.
Lemma isValidExpels_fact bl bl' xs :
  sf_fact (bl_signFact bl) = sf_fact (bl_signFact bl') -> isValidExpels bl xs = isValidExpels bl' xs.
Proof.
  intros E. unfold isValidExpels. rewrite (dup_expels_loop_point bl bl'); [by rewrite E|]. unfold bl_point. by rewrite E.
Qed.

(** The checks of a ballot look at who signed it only to check the signature. *)
Lemma Ballot_IsValid_resigned bl sf :
  sf_fact sf = sf_fact (bl_signFact bl) -> sf_type sf = sf_type (bl_signFact bl) ->
  BallotSignFact_IsValid sf = Ok tt -> Ballot_IsValid bl = Ok tt ->
  Ballot_IsValid {| bl_type := bl_type bl; bl_vp := bl_vp bl; bl_signFact := sf; bl_expels := bl_expels bl |} = Ok tt.
Proof.
  intros Ef Et Hs Hv. set (bl' := Build_Ballot _ _ _ _).
  assert (forall xs, isValidExpels bl xs = isValidExpels bl' xs) as He by (intros; by apply isValidExpels_fact).
  unfold Ballot_IsValid, INITBallot_IsValid, ACCEPTBallot_IsValid, baseBallot_IsValid,
    isvalidSuffrageConfirmBallotFact, IsValidINITBallot, IsValidACCEPTBallot,
    isValidINITVoteproofInINITBallot, isValidACCEPTVoteproofInINITBallot, bl_point in *.
  unfold bl' at 1. cbn [bl_type].
  destruct (bl_type bl); apply bind_ok in Hv as ([] & Hb & Hv);
    rewrite check_all_ok, !Forall_cons in Hb; destruct Hb as (? & ? & _);
    (assert (check_all [Voteproof_IsValid (bl_vp bl'); BallotSignFact_IsValid (bl_signFact bl')] = Ok tt) as ->
      by (by rewrite check_all_ok, !Forall_cons, Forall_nil)); run;
    subst bl'; cbn [bl_type bl_vp bl_signFact bl_expels] in *; rewrite Ef, ?Et, <- ?He; exact Hv.
Qed.

Lemma resigned_valid sf sf' :
  BallotSignFact_IsValid sf = Ok tt -> sf_fact sf' = sf_fact sf -> sf_type sf' = sf_type sf ->
  sf_node sf' = node_address local -> sign_IsValid (sf_sign sf') = Ok tt ->
  sign_Verify (sf_sign sf') (Fact_Hash (sf_fact sf)) = Ok tt -> BallotSignFact_IsValid sf' = Ok tt.
Proof.
  intros Hs Ef Et En Hi Hw. unfold BallotSignFact_IsValid, IsValidBallotSignFact, IsValidSignFact in *.
  rewrite Ef, Et, En, local_address_ok. res_inv.
  match goal with H : BallotFact_IsValid _ = Ok _ |- _ => rewrite H end. cbn [fmap list_fmap check_all].
  rewrite Hi, Hw. by run.
Qed.

(** Mimic ballots are accepted by the others.  The mimic ballot of a
    valid ballot is itself valid, for each of the four kinds of fact that is signed
    as it is; the expels of the ballot have to be in the order [newBaseBallot] puts
    them in, which a ballot made by the code has. *)
Theorem mimic_valid (fresh : string) (bl newbl : Ballot) (Hv : Ballot_IsValid bl = Ok tt)
    (Hne : is_empty_fact (sf_fact (bl_signFact bl)) = false) (Hs : sortExpels (bl_expels bl) = bl_expels bl)
    (Hm : mimicBallot fresh (sf_fact (bl_signFact bl)) (Ballot_Expels bl) (bl_vp bl) = Ok newbl) :
  Ballot_IsValid newbl = Ok tt.
Proof.
  destruct (valid_ballot_kind _ Hv) as (Hsf & _ & Ht & Hk).
  assert (exists sf, signed (bl_type bl) (sf_fact (bl_signFact bl)) = Ok sf /\
    newbl = {| bl_type := bl_type bl; bl_vp := bl_vp bl; bl_signFact := sf; bl_expels := bl_expels bl |})
    as (sf & Hsg & ->).
  { unfold Ballot_Expels in Hm.
    destruct (sf_fact (bl_signFact bl)) as [| | | | |] eqn:Ef; try done; destruct (bl_type bl) eqn:Ety;
      try (destruct Hk as [[? Hk] ?]; discriminate Hk); cbn [mimicBallot] in Hm;
      apply bind_ok in Hm as (sf & Hsg & Hm); exists sf; (split; [exact Hsg|]);
      try (destruct Hk as (_ & _ & Hi); rewrite Hi in Hm); injection Hm as <-;
      unfold NewINITBallot, NewACCEPTBallot; rewrite ?Hs; try done.
    unfold Ballot_IsValid, INITBallot_IsValid, isvalidSuffrageConfirmBallotFact in Hv. rewrite Ety, Ef in Hv.
    apply bind_ok in Hv as (_ & _ & Hv). destruct (bl_expels bl) as [|x xs] eqn:Ex; [done|]. exfalso.
    cbn in Hv. clear -Hv. by case_all. }
  pose proof (signed_ok (bl_type bl) (sf_fact (bl_signFact bl))) as Ho. rewrite Hsg in Ho.
  destruct Ho as (Ef & Et & En & Hi & Hw). rewrite <- Ht in Et.
  apply Ballot_IsValid_resigned; [done..| |done]. by apply (resigned_valid (bl_signFact bl)).
Qed.
End properties.

(** ** Concrete data *)
#[local] Existing Instance demo_crypto.
#[global] Instance demo_point_bytes : PointBytes := {| point_bytes := fun _ => "token" |}.
#[global] Instance demo_local_node : LocalNode := {|
  local := {| node_address := "n0"; node_publickey := "k0" |};
  local_NodeSign := fun _ => Ok (demo_sign "n0")
|}.
#[global] Instance demo_local_node_laws : @LocalNodeLaws demo_crypto demo_local_node.
Proof. by constructor. Qed.

(** INIT ballots of a node for the first round, over an ACCEPT voteproof. *)
Definition demo_ballot (fact a : string) : Ballot :=
  let np := ACCEPTBallotFact (demo_base "f" (NewStagePoint (RawPoint 32 0) StageACCEPT) []) "pr" "prev" in
  {| bl_type := INITBallotSignFact;
     bl_vp := demo_vp KACCEPT ACCEPTBallotSignFact np (Some np) DefaultThreshold ["n1"; "n2"; "n3"] [];
     bl_signFact := demo_sf INITBallotSignFact (demo_init_fact 0 fact) a; bl_expels := [] |}.
Definition demo_call (fact a : string) : mimic_call :=
  {| mc_state := StateSyncing; mc_allowed := true; mc_insource := fun _ => true; mc_fresh := "r";
     mc_ballot := demo_ballot fact a |}.

Lemma mimic_once_witness :
  exists bl, mimic_calls [demo_call "f1" "n1"; demo_call "f2" "n2"] [] = Ok ([bl], [bl]) /\
    sf_node (bl_signFact bl) = "n0" /\ pool_local [bl].
Proof.
  destruct (mimic_once [demo_call "f1" "n1"; demo_call "f2" "n2"] []) as (sent & Hs & Hl & _).
  - repeat (apply List.Forall_cons; [vm_compute; reflexivity|]). constructor.
  - constructor.
  - constructor.
  - assert (mimic_calls [demo_call "f1" "n1"; demo_call "f2" "n2"] []
      = Ok ([demo_ballot "f1" "n0"], [demo_ballot "f1" "n0"])) as E by (vm_compute; reflexivity).
    rewrite E in Hs. injection Hs as _ <-. by exists (demo_ballot "f1" "n0").
Defined.

Lemma mimic_valid_witness :
  Ballot_IsValid (demo_ballot "f1" "n1") = Ok tt /\ Ballot_IsValid (demo_ballot "f1" "n0") = Ok tt.
Proof.
  split; [vm_compute; reflexivity|].
  apply (mimic_valid "r" (demo_ballot "f1" "n1")); vm_compute; reflexivity.
Defined.

(** The calls are goroutines ([ballotbox.go:134]), and the lock of [mimicBallot]
    is taken only to sign.  When two calls look at the pool before either of them
    has signed, both sign: two facts of the local node for one stage point. *)
Lemma mimic_race :
  let c1 := demo_call "f1" "n1" in
  let c2 := demo_call "f2" "n2" in
  mimic_check StateSyncing true (fun _ => true) (mc_ballot c1) [] = MimicSign /\
  mimic_check StateSyncing true (fun _ => true) (mc_ballot c2) [] = MimicSign /\
  mimic_sign "r" (mc_ballot c1) [] = Ok ([demo_ballot "f1" "n0"], [demo_ballot "f1" "n0"]) /\
  mimic_sign "r" (mc_ballot c2) [demo_ballot "f1" "n0"] = Ok ([demo_ballot "f1" "n0"], [demo_ballot "f2" "n0"]).
Proof. split_and!; vm_compute; reflexivity. Qed.

(** [MimicAgain], sending a ballot of the pool again, is not reached: the ballots
    of the pool are of the local node, and the ballot at hand is not. *)
Lemma mimic_never_again `{Crypto, PointBytes, LocalNode} s allowed insource bl p newbl :
  pool_local p -> mimic_check s allowed insource bl p <> MimicAgain newbl.
Proof.
  intros Hp Hc. unfold mimic_check in Hc. destruct (mimic_filter _ _ _ _) eqn:Hf; [|done]. cbn [negb] in Hc.
  destruct (pool_Ballot _ _ _ p) as [[old|]| |] eqn:Ef; try done. case_bool_decide as E; [|done].
  unfold pool_Ballot in Ef. apply bind_ok in Ef as (? & _ & Ef). injection Ef as Ef.
  apply pool_find_Some in Ef as [Ho _]. unfold pool_local in Hp. rewrite Forall_forall in Hp.
  unfold mimic_filter in Hf. rewrite <- E, (Hp old Ho), bool_decide_eq_true_2 in Hf by done.
  by rewrite andb_false_r in Hf.
Qed.
