(* ===== verification/Processors.v ===== *)
(** * The processing of proposals

    [isaac/proposal_processors.go], which has at most one processor at a time and
    remembers the height it saved last, and the processor itself, of
    [isaac/proposal_processor.go]: the operations it collects and when it makes a
    manifest and writes a block.  What an operation does is in [SuffrageState].

    The lock of the processors is kept until a processor has run, so that nothing
    else happens to them in between: a run is one step. *)
From S2P Require Import Prelude Point Vote Slice Ballot Voteproof Batch Block Handover States.

Open Scope Z_scope.

(** ** Errors from outside *)

(** An error of the database, of another node, or of a context: it may have an
    identity, and has no switch context inside. *)
Inductive outside_error := OPlain (s : string) | OId (i : id_error).
Definition to_goerr (e : outside_error) : goerr := match e with OPlain s => EPlain s | OId i => EId i end.
Abbreviation out A := (outside_error + A)%type.

(** An error without a switch context inside, by its identity. *)
Fixpoint outside_of (e : goerr) : outside_error :=
  match e with EPlain s => OPlain s | EId i => OId i | EWrap e => outside_of e | ECtx _ => OPlain "" end.

(** [util.Retry] of a function that is tried again after an error: the n-th
    attempt, [inl] when the context is done. *)
Fixpoint Retry {A} (limit : nat) (attempts : nat -> outside_error + out A) (lerr : option outside_error) : goerr + A :=
  match limit with
  | O => inl (match lerr with Some e => EWrap (to_goerr e) | None => EPlain "stop retrying; over limit" end)
  | S limit =>
      match attempts O with
      | inl e => inl (to_goerr e)
      | inr (inr a) => inr a
      | inr (inl e) => Retry limit (fun n => attempts (S n)) (Some e)
      end
  end.

(** ** Proposals and operations *)
Record Proposal := { pr_hash : Hash; pr_operations : list (Hash * Hash) }.
Class ProposalOperations := {
  Op : Type;
  op_fact : Op -> Hash;
  op_is_expel : Op -> bool;
  op_of_expel : SuffrageExpelOperation -> Op;
  NewReasonProcessedOperation : Hash -> Hash -> Op
}.

(** What one run of a processor meets: the operations that are found, the order in
    which the goroutines that fetch them fail, the block writer. *)
Record process_answers `{ProposalOperations} := {
  pa_GetOperation : Hash -> Hash -> out (option Op);
  pa_order : list goerr -> list goerr;
  pa_EmptyProposalNoBlock : bool;
  pa_NewWriter : out unit;
  pa_processed : list Op -> out nat;              (* the operations with a result *)
  pa_Manifest : option Manifest -> out Manifest
}.

(** ** The processor *)
Record Processor := {
  pp_proposal : Proposal;
  pp_previous : option Manifest;
  pp_ivp : option Voteproof;
  pp_manifest : option Manifest;
  pp_isprocessed : bool;
  pp_issaved : bool;
  pp_canceled : bool
}.
Definition NewProcessor (pr : Proposal) (previous : option Manifest) : Processor :=
  {| pp_proposal := pr; pp_previous := previous; pp_ivp := None; pp_manifest := None;
     pp_isprocessed := false; pp_issaved := false; pp_canceled := false |}.
Definition pp_cancel (p : Processor) : Processor :=
  {| pp_proposal := pp_proposal p; pp_previous := pp_previous p; pp_ivp := pp_ivp p; pp_manifest := pp_manifest p;
     pp_isprocessed := pp_isprocessed p; pp_issaved := pp_issaved p; pp_canceled := true |}.
Definition pp_set_ivp (ivp : Voteproof) (p : Processor) : Processor :=
  {| pp_proposal := pp_proposal p; pp_previous := pp_previous p; pp_ivp := Some ivp; pp_manifest := pp_manifest p;
     pp_isprocessed := pp_isprocessed p; pp_issaved := pp_issaved p; pp_canceled := pp_canceled p |}.
Definition pp_set_manifest (m : Manifest) (p : Processor) : Processor :=
  {| pp_proposal := pp_proposal p; pp_previous := pp_previous p; pp_ivp := pp_ivp p; pp_manifest := Some m;
     pp_isprocessed := true; pp_issaved := pp_issaved p; pp_canceled := pp_canceled p |}.
Definition pp_set_issaved (p : Processor) : Processor :=
  {| pp_proposal := pp_proposal p; pp_previous := pp_previous p; pp_ivp := pp_ivp p; pp_manifest := pp_manifest p;
     pp_isprocessed := pp_isprocessed p; pp_issaved := true; pp_canceled := pp_canceled p |}.

Section processor.
Context `{ProposalOperations}.

Definition getOperation (a : process_answers) (oph fact : Hash) : goerr + option Op :=
  match pa_GetOperation a oph fact with
  | inr None => inr None
  | inr (Some op) =>
      if op_is_expel op then inr None
      else if bool_decide (op_fact op = fact) then inr (Some op)
      else inl (EId ErrNotProposalProcessorProcessed)
  | inl (OId ErrInvalid) | inl (OId ErrOperationNotFoundInProcessor)
  | inl (OId ErrOperationAlreadyProcessedInProcessor) => inr None
  | inl (OId ErrInvalidOperationInProcessor) => inr (Some (NewReasonProcessedOperation oph fact))
  | inl e => inl (to_goerr e)
  end.

Definition errors_of (l : list (goerr + option Op)) : list goerr :=
  omap (fun r => match r with inl e => Some e | inr _ => None end) l.
Definition values_of (l : list (goerr + option Op)) : list (option Op) :=
  omap (fun r => match r with inl _ => None | inr o => Some o end) l.

(** The slots of the proposal, also the empty ones, and the expels of the
    voteproof. *)
Definition collectOperations (a : process_answers) (pr : Proposal) (ivp : Voteproof)
    : goerr + (list (option Op) * list Op) :=
  let reserved := if IsExpelVoteproof ivp then op_of_expel <$> vp_expels ivp else [] in
  let got := (fun '(oph, fact) => getOperation a oph fact) <$> pr_operations pr in
  match pa_order a (errors_of got) with
  | e :: _ => inl (EWrap e)
  | [] => inr (values_of got, reserved)
  end.

(** [processOperations]: the empty slots are skipped. *)
Definition pp_processOperations (a : process_answers) (cops : list (option Op)) (reserved : list Op) : goerr + unit :=
  match pa_processed a (omap id cops ++ reserved) with
  | inl e => inl (EWrap (to_goerr e))
  | inr n => if (n <? 1)%nat && pa_EmptyProposalNoBlock a then inl (EId ErrProposalProcessorEmptyOperations) else inr tt
  end.

Definition process (a : process_answers) (ivp : Voteproof) (p : Processor) : goerr + Manifest :=
  match collectOperations a (pp_proposal p) ivp with
  | inl e => inl (EWrap e)
  | inr (cops, reserved) =>
      let empty := (length cops <? 1)%nat && (length reserved <? 1)%nat in
      if empty && pa_EmptyProposalNoBlock a then inl (EId ErrProposalProcessorEmptyOperations)
      else match pa_NewWriter a with
      | inl e => inl (EWrap (to_goerr e))
      | inr _ =>
          match (if empty then inr tt else pp_processOperations a cops reserved) with
          | inl e => inl (EWrap e)
          | inr _ => match pa_Manifest a (pp_previous p) with inl e => inl (to_goerr e) | inr m => inr m end
          end
      end
  end.

Definition pp_Process (a : process_answers) (ivp : Voteproof) (p : Processor) : Processor * (goerr + Manifest) :=
  if pp_isprocessed p then (p, inl (EPlain "already processed"))
  else if pp_canceled p then (p, inl (EPlain "already canceled"))
  else
    let p := pp_set_ivp ivp p in
    match process a ivp p with
    | inl e => (p, inl (EWrap e))
    | inr m => (pp_set_manifest m p, inr m)
    end.
End processor.

(** [save] and [Save]: [written] is what the block writer answers.  The processor
    is closed also when nothing was written. *)
Definition pp_save (written : out BlockMap) (avp : Voteproof) (p : Processor) : res (goerr + BlockMap) :=
  match pp_manifest p with
  | None => Ok (inl (EId ErrNotProposalProcessorProcessed))
  | Some m =>
      ACCEPT_BallotMajority avp ≫= fun mj =>
      match mj with
      | None => Panic
      | Some (_, newBlock) =>
          Hash_eq (mf_hash m) (Some newBlock) ≫= fun same =>
          Ok (if negb same then inl (EId ErrNotProposalProcessorProcessed)
              else match written with inl e => inl (EWrap (to_goerr e)) | inr bm => inr bm end)
      end
  end.
Definition pp_Save (written : out BlockMap) (avp : Voteproof) (p : Processor)
    : res (Processor * (goerr + BlockMap)) :=
  if pp_issaved p then Ok (p, inl (EId ErrProcessorAlreadySaved))
  else if pp_canceled p then Ok (p, inl (EPlain "already canceled"))
  else pp_save written avp p ≫= fun r => Ok (pp_cancel (pp_set_issaved p), r).

(** ** The processors *)
Record ProposalProcessors := { pps_p : option Processor; pps_previousSaved : Z }.
Definition NewProposalProcessors : ProposalProcessors := {| pps_p := None; pps_previousSaved := NilHeight |}.
Definition pps_set (p : option Processor) (s : ProposalProcessors) : ProposalProcessors :=
  {| pps_p := p; pps_previousSaved := pps_previousSaved s |}.
Definition retrylimit : nat := 15.

(** What [Process] meets: the attempts to get the proposal ([None] is a nil one)
    and to make its processor, and the run. *)
Record pps_answers `{ProposalOperations} := {
  pn_getproposal : nat -> outside_error + out (option Proposal);
  pn_makenew : nat -> outside_error + out unit;
  pn_process : process_answers
}.

Section processors.
Context `{ProposalOperations}.

(** [newProcessor]: a processor of another proposal is canceled, and stays until
    there is a new one.  [inr None]: the proposal is processed already. *)
Definition newProcessor (a : pps_answers) (facthash : Hash) (previous : option Manifest) (s : ProposalProcessors)
    : ProposalProcessors * (goerr + option Processor) :=
  if match pps_p s with Some p => bool_decide (pr_hash (pp_proposal p) = facthash) | None => false end
  then (s, inr None)
  else
    let s := pps_set (pp_cancel <$> pps_p s) s in
    match Retry retrylimit (pn_getproposal a) None with
    | inl _ | inr None => (s, inl (EWrap (EId ErrNotProposalProcessorProcessed)))
    | inr (Some pr) =>
        match Retry retrylimit (pn_makenew a) None with
        | inl e => (s, inl (EWrap e))
        | inr _ => let p := NewProcessor pr previous in (pps_set (Some p) s, inr (Some p))
        end
    end.

(** [runProcessor], and what the function that waits for it makes of the error. *)
Definition runProcessor (a : process_answers) (p : Processor) (ivp : Voteproof)
    : Processor * (goerr + option Manifest) :=
  let '(p, r) := pp_Process a ivp p in
  match r with
  | inr m => (p, inr (Some m))
  | inl e =>
      if errors_Is ErrIgnoreErrorProposalProcessor e then (p, inr None)
      else (pp_cancel p, inl (if errors_Is ErrCanceled e || errors_Is ErrDeadlineExceeded e
                              then EWrap (EId ErrNotProposalProcessorProcessed) else e))
  end.

(** [Process]: what the returned function gives; none for a proposal that is
    processed already. *)
Definition pps_Process (a : pps_answers) (facthash : Hash) (previous : option Manifest) (ivp : Voteproof)
    (s : ProposalProcessors) : ProposalProcessors * (goerr + option (goerr + option Manifest)) :=
  let '(s, r) := newProcessor a facthash previous s in
  match r with
  | inl e => (s, inl (EWrap e))
  | inr None => (s, inr None)
  | inr (Some p) => let '(p, r) := runProcessor (pn_process a) p ivp in (pps_set (Some p) s, inr (Some r))
  end.
End processors.

(** [save]: the height counts as saved before the processor has saved. *)
Definition pps_save (written : out BlockMap) (facthash : Hash) (avp : Voteproof) (s : ProposalProcessors)
    : res (ProposalProcessors * (goerr + BlockMap)) :=
  if sp_h (vp_point avp) <=? pps_previousSaved s then Ok (s, inl (EId ErrProcessorAlreadySaved))
  else match pps_p s with
  | None => Ok (s, inl (EId ErrNotProposalProcessorProcessed))
  | Some p =>
      if negb (bool_decide (pr_hash (pp_proposal p) = facthash))
      then Ok (s, inl (EId ErrNotProposalProcessorProcessed))
      else
        pp_Save written avp p ≫= fun '(p, r) =>
        Ok ({| pps_p := Some p; pps_previousSaved := sp_h (vp_point avp) |},
            match r with
            | inl e => inl (if errors_Is ErrCanceled e then EId ErrNotProposalProcessorProcessed else e)
            | inr bm => inr bm
            end)
  end.

(** [Save] and [Cancel]: the processor is given up whatever the answer. *)
Definition pps_Save (written : out BlockMap) (facthash : Hash) (avp : Voteproof) (s : ProposalProcessors)
    : res (ProposalProcessors * (goerr + BlockMap)) :=
  pps_save written facthash avp s ≫= fun '(s, r) =>
  Ok (pps_set None s, match r with inl e => inl (EWrap e) | inr bm => inr bm end).
Definition pps_Cancel (s : ProposalProcessors) : ProposalProcessors := pps_set None s.

(** ** Runs *)

(** What a run leaves behind, the newest first: the manifests that were made, and
    the ACCEPT voteproofs a block was written for. *)
Inductive pps_trace := TProcessed (proposal : Hash) (m : Manifest) | TSaved (proposal : Hash) (avp : Voteproof).
Definition processed (s : ProposalProcessors) (r : goerr + option (goerr + option Manifest)) : list pps_trace :=
  match pps_p s, r with Some p, inr (Some (inr (Some m))) => [TProcessed (pr_hash (pp_proposal p)) m] | _, _ => [] end.
Definition saved (facthash : Hash) (avp : Voteproof) (r : goerr + BlockMap) : list pps_trace :=
  match r with inl _ => [] | inr _ => [TSaved facthash avp] end.
Definition saved_heights (tr : list pps_trace) : list Z :=
  omap (fun t => match t with TSaved _ avp => Some (sp_h (vp_point avp)) | _ => None end) tr.

Inductive pps_run `{ProposalOperations} : list pps_trace -> ProposalProcessors -> Prop :=
  | pps_new : pps_run [] NewProposalProcessors
  | pps_processing a facthash previous ivp tr s s' r :
      pps_run tr s -> pps_Process a facthash previous ivp s = (s', r) -> pps_run (processed s' r ++ tr) s'
  | pps_saving written facthash avp tr s s' r :
      pps_run tr s -> pps_Save written facthash avp s = Ok (s', r) -> pps_run (saved facthash avp r ++ tr) s'
  | pps_canceling tr s : pps_run tr s -> pps_run tr (pps_Cancel s).

(** What is known of the processor at hand, and of the last height. *)
Definition processor_ok (tr : list pps_trace) (p : Processor) : Prop :=
  forall m, pp_manifest p = Some m -> TProcessed (pr_hash (pp_proposal p)) m ∈ tr.
Definition pps_ok (tr : list pps_trace) (s : ProposalProcessors) : Prop :=
  (forall p, pps_p s = Some p -> processor_ok tr p) /\ Forall (fun h => h <= pps_previousSaved s) (saved_heights tr).

Section properties.
Context `{ProposalOperations}.

Lemma processor_ok_cancel tr p : processor_ok tr p -> processor_ok tr (pp_cancel p).
Proof. done. Qed.
Lemma processor_ok_cons tr t p : processor_ok tr p -> processor_ok (t :: tr) p.
Proof. intros Hp m Hm. right. by apply Hp. Qed.

Lemma newProcessor_ok tr a facthash previous s s' r :
  pps_ok tr s -> newProcessor a facthash previous s = (s', r) ->
  pps_ok tr s' /\ forall p, r = inr (Some p) -> pps_p s' = Some p /\ pp_manifest p = None.
Proof.
  intros [Hp Hh]. unfold newProcessor. destruct (match pps_p s with Some _ => _ | None => _ end); [by intros [= <- <-]|].
  assert (pps_ok tr (pps_set (pp_cancel <$> pps_p s) s)) as Hc.
  { split; [|done]. simpl. intros p. destruct (pps_p s) as [p0|] eqn:E; [|done]. intros [= <-].
    by apply processor_ok_cancel, Hp. }
  destruct (Retry _ (pn_getproposal a) _) as [e|[pr|]]; [by intros [= <- <-]| |by intros [= <- <-]].
  destruct (Retry _ (pn_makenew a) _) as [e|u]; intros [= <- <-]; [done|].
  split; [split; [|done]|]; simpl; intros p [= <-]; done.
Qed.

Lemma pp_Process_ok a ivp p p' r :
  pp_manifest p = None -> pp_Process a ivp p = (p', r) ->
  pr_hash (pp_proposal p') = pr_hash (pp_proposal p) /\
  match r with inr m => pp_manifest p' = Some m | inl _ => pp_manifest p' = None end.
Proof.
  intros Hm. unfold pp_Process. destruct (pp_isprocessed p); [by intros [= <- <-]|].
  destruct (pp_canceled p); [by intros [= <- <-]|]. destruct (process _ _ _); by intros [= <- <-].
Qed.

Lemma pps_Process_ok tr a facthash previous ivp s s' r :
  pps_ok tr s -> pps_Process a facthash previous ivp s = (s', r) -> pps_ok (processed s' r ++ tr) s'.
Proof.
  intros Hs. unfold pps_Process. destruct (newProcessor _ _ _ _) as [s1 r1] eqn:En.
  destruct (newProcessor_ok _ _ _ _ _ _ _ Hs En) as [[Hp Hh] Hnew].
  assert (forall r, match r with inr (Some (inr (Some _))) => False | _ => True end -> processed s1 r = []) as Hnil.
  { intros [|[[|[]]|]]; unfold processed; by destruct (pps_p s1). }
  destruct r1 as [e|[p|]]; [intros [= <- <-]; by rewrite Hnil| |intros [= <- <-]; by rewrite Hnil].
  destruct (Hnew p eq_refl) as [_ Hm]. unfold runProcessor.
  destruct (pp_Process _ _ _) as [p1 r1] eqn:Ep. destruct (pp_Process_ok _ _ _ _ _ Hm Ep) as [Hpr Hr].
  destruct r1 as [e|m]; [destruct (errors_Is ErrIgnoreErrorProposalProcessor e)|]; intros [= <- <-]; simpl.
  - split; [|done]. simpl. intros p2 [= <-] m Hm2. congruence.
  - split; [|done]. simpl. intros p2 [= <-] m Hm2. simpl in Hm2. congruence.
  - split; [|done]. simpl. intros p2 [= <-] m2 Hm2. rewrite Hr in Hm2. injection Hm2 as <-. left.
Qed.

Lemma pp_Save_ok written avp p p' bm :
  pp_Save written avp p = Ok (p', inr bm) ->
  exists m q newBlock, pp_manifest p = Some m /\ ACCEPT_BallotMajority avp = Ok (Some (q, newBlock)) /\
    mf_hash m = Some newBlock /\ written = inr bm.
Proof.
  unfold pp_Save. destruct (pp_issaved p); [done|]. destruct (pp_canceled p); [done|].
  intros (r & Hr & E)%bind_ok. injection E as <- ->. unfold pp_save in Hr.
  destruct (pp_manifest p) as [m|]; [|done]. apply bind_ok in Hr as ([[q nb]|] & Hmj & Hr); [|done].
  exists m, q, nb. apply bind_ok in Hr as (same & He & Hr). destruct same; [|done]. cbn [negb] in Hr.
  destruct written as [e|bm']; [done|]. injection Hr as <-. split_and!; try done.
  unfold Hash_eq in He. destruct (mf_hash m) as [h|]; [|done]. injection He as He.
  by apply bool_decide_eq_true in He as ->.
Qed.

Lemma pps_Save_ok tr written facthash avp s s' r :
  pps_ok tr s -> pps_Save written facthash avp s = Ok (s', r) ->
  pps_ok (saved facthash avp r ++ tr) s' /\
  forall bm, r = inr bm -> pps_previousSaved s < sp_h (vp_point avp) /\
    exists m q newBlock, TProcessed facthash m ∈ tr /\ ACCEPT_BallotMajority avp = Ok (Some (q, newBlock)) /\
      mf_hash m = Some newBlock.
Proof.
  intros [Hp Hh]. unfold pps_Save, pps_save. destruct (Z.leb_spec (sp_h (vp_point avp)) (pps_previousSaved s)) as [Hle|Hlt].
  { run. intros [= <- <-]. by split. }
  destruct (pps_p s) as [p|] eqn:Ep; [|run; intros [= <- <-]; by split].
  destruct (bool_decide _) eqn:Eh; cbn [negb]; [|run; intros [= <- <-]; by split]. apply bool_decide_eq_true in Eh.
  intros ([s1 r1] & Hs & E)%bind_ok. apply bind_ok in Hs as ([p1 r2] & Hsv & Hs). injection Hs as <- <-.
  injection E as <- <-.
  assert (Forall (fun h => h <= sp_h (vp_point avp)) (saved_heights tr)) as Hh'.
  { eapply Forall_impl; [exact Hh|]. simpl. lia. }
  destruct r2 as [e|bm]; [destruct (errors_Is _ e); (split; [split; [done|exact Hh']|done])|].
  apply pp_Save_ok in Hsv as (m & q & nb & Hm & Hmj & Hmh & _). split.
  - split; [done|]. simpl. by constructor.
  - intros bm' _. split; [done|]. exists m, q, nb. split_and!; [|done..]. rewrite <- Eh. by apply (Hp p).
Qed.

(** C3: a node writes a block only for what it and the suffrage agree on.
    Whatever voteproofs and proposals arrive, in whatever order, the heights of
    the blocks written go up strictly; and a block is written only for an ACCEPT
    majority whose new block is the manifest this node itself made, before, of
    the proposal that it saves. *)
Theorem saves_agreed (tr : list pps_trace) (s : ProposalProcessors) (Hr : pps_run tr s) :
  StronglySorted (fun h h' => h' < h) (saved_heights tr) /\
  forall facthash avp later before, tr = later ++ TSaved facthash avp :: before ->
    exists m q newBlock, TProcessed facthash m ∈ before /\ ACCEPT_BallotMajority avp = Ok (Some (q, newBlock)) /\
      mf_hash m = Some newBlock.
Proof.
  revert tr s Hr. assert (forall tr s, pps_run tr s -> pps_ok tr s /\
    StronglySorted (fun h h' => h' < h) (saved_heights tr) /\
    forall facthash avp later before, tr = later ++ TSaved facthash avp :: before ->
      exists m q newBlock, TProcessed facthash m ∈ before /\ ACCEPT_BallotMajority avp = Ok (Some (q, newBlock)) /\
        mf_hash m = Some newBlock) as Hall; [|intros tr s Hr; by apply (Hall tr s)].
  induction 1 as [|a fh prev ivp tr s s' r _ [Hok [Hh Ha]] Hs|w fh avp tr s s' r _ [Hok [Hh Ha]] Hs|tr s _ [Hok [Hh Ha]]].
  - split; [split; [done|constructor]|]. split; [constructor|]. intros fh avp l b E. by destruct l.
  - split; [by eapply pps_Process_ok|]. unfold processed.
    destruct (pps_p s') as [p|]; [|done]. destruct r as [|[[|[m|]]|]]; try done. split; [done|].
    intros fh' avp [|t l] b E; [done|]. injection E as _ E. by eapply Ha.
  - destruct (pps_Save_ok _ _ _ _ _ _ _ Hok Hs) as [Hok' Hnew]. split; [done|].
    destruct r as [e|bm]; [done|]. destruct (Hnew bm eq_refl) as [Hlt Hm]. split.
    + simpl. constructor; [done|]. eapply Forall_impl; [apply Hok|]. simpl. intros h Hle. lia.
    + intros fh' avp' [|t l] b E; [by injection E as <- <- <-|]. injection E as _ E. by eapply Ha.
  - split; [|done]. destruct Hok as [_ Hp]. by split.
Qed.
End properties.

Section races.
Context `{ProposalOperations}.
Lemma newProcessor_new a facthash previous s s' p :
  newProcessor a facthash previous s = (s', inr (Some p)) -> exists pr, p = NewProcessor pr previous.
Proof.
  unfold newProcessor. destruct (match pps_p s with Some _ => _ | None => _ end); [done|].
  destruct (Retry _ (pn_getproposal a) _) as [e|[pr|]]; [done| |done].
  destruct (Retry _ (pn_makenew a) _); [done|]. intros [= _ <-]. by exists pr.
Qed.

(** A processor that failed is given up only when the handler asks for it: an
    ACCEPT voteproof that comes before meets a canceled processor, which is
    neither "not processed" nor "saved", and its height counts as saved. *)
Lemma failed_processor_blocks a facthash previous ivp s s1 s2 e r written avp :
  pps_Process a facthash previous ivp s = (s1, inr (Some (inl e))) ->
  pps_previousSaved s1 < sp_h (vp_point avp) ->
  (forall p, pps_p s1 = Some p -> pr_hash (pp_proposal p) = facthash) ->
  pps_Save written facthash avp s1 = Ok (s2, r) ->
  r = inl (EWrap (EPlain "already canceled")) /\ pps_previousSaved s2 = sp_h (vp_point avp).
Proof.
  unfold pps_Process. destruct (newProcessor _ _ _ _) as [s0 [e0|[p|]]] eqn:En; [done| |done].
  destruct (newProcessor_new _ _ _ _ _ _ En) as [pr ->]. unfold runProcessor, pp_Process. cbn [pp_isprocessed pp_canceled NewProcessor].
  destruct (process _ _ _) as [er|m]; [|done]. destruct (errors_Is ErrIgnoreErrorProposalProcessor _); [done|].
  intros [= <- _] Hlt Hh. unfold pps_Save, pps_save. rewrite (proj2 (Z.leb_gt _ _)) by done.
  cbn [pps_p pps_set]. rewrite bool_decide_eq_true_2 by (by apply Hh). by intros [= <- <-].
Qed.
End races.

(** ** Concrete data *)
#[global] Instance demo_operations : ProposalOperations := {|
  Op := string; op_fact := id; op_is_expel := fun _ => false; op_of_expel := fun x => xf_hash (xo_fact x);
  NewReasonProcessedOperation := fun _ fact => fact
|}.
Definition demo_processing : pps_answers := {|
  pn_getproposal := fun _ => inr (inr (Some {| pr_hash := "pr"; pr_operations := [("o", "of")] |}));
  pn_makenew := fun _ => inr (inr tt);
  pn_process := {|
    pa_GetOperation := fun _ fact => inr (Some fact); pa_order := id; pa_EmptyProposalNoBlock := true;
    pa_NewWriter := inr tt; pa_processed := fun l => inr (length l); pa_Manifest := fun _ => inr (bm_manifest (demo_map 33))
  |}
|}.

Lemma saves_agreed_witness :
  exists avp m, StronglySorted (fun h h' => h' < h) (saved_heights [TSaved "pr" avp; TProcessed "pr" m]) /\
    mf_hash m = bm_hash (demo_map 33).
Proof.
  set (s1 := (pps_Process demo_processing "pr" None (demo_init 33) NewProposalProcessors).1).
  exists (demo_accept 33), (bm_manifest (demo_map 33)). split; [|reflexivity].
  apply (saves_agreed [TSaved "pr" (demo_accept 33); TProcessed "pr" (bm_manifest (demo_map 33))]
    (default s1 (match pps_Save (inr (demo_map 33)) "pr" (demo_accept 33) s1 with Ok (s, _) => Some s | _ => None end))).
  apply (pps_saving (inr (demo_map 33)) "pr" (demo_accept 33) [TProcessed "pr" (bm_manifest (demo_map 33))] s1 _ (inr (demo_map 33)));
    [|vm_compute; reflexivity].
  apply (pps_processing demo_processing "pr" None (demo_init 33) [] NewProposalProcessors s1
    (inr (Some (inr (Some (bm_manifest (demo_map 33))))))); [apply pps_new|vm_compute; reflexivity].
Defined.
