(* ===== verification/Handlers.v ===== *)
(** * The state handlers: making ballots and following voteproofs

    The base of the handlers ([base.go], [base_ballot_handler.go]) and the handler
    of voteproofs that the consensus and the handover state share
    ([voteproof_handler.go]), of [isaac/states].  [Node] has the other handlers,
    and makes all of them an instance of [States.Handlers].

    A handler is a function in the monad [M]: it reads what comes from outside of
    the states ([Outside]), changes the states of the node and what the handlers
    keep ([World]), and gives a value or a Go error; a failed type assertion or a
    nil dereference panics.  A goroutine is a job that runs later. *)
From S2P Require Import Prelude Point Vote Slice Ballot Voteproof LastPoint Block Handover States Broadcast Processors.

Open Scope Z_scope.

(** ** What comes from outside *)

(** The answers of the database, the suffrage, the proposer selection, the other
    nodes, the syncer and the ballot box during one call.  [o_ctx] is the error of
    the context the call waits on, when it is done. *)
Record Outside `{HandoverData, ProposalOperations} := {
  o_ctx : option outside_error;
  o_random : string;
  o_NodeInConsensusNodes : Z -> out (option Suffrage * bool);
  o_LastManifest : out (option Manifest);
  o_GetManifest : Z -> out (option Manifest);
  o_ProposalSelect : Point -> option Hash -> out Proposal;
  o_IsEmptyProposalNoBlock : bool;
  o_IsEmptyProposal : Proposal -> out bool;
  o_SuffrageVotingFind : Z -> option Suffrage -> out (list SuffrageExpelOperation);
  o_Vote : Ballot -> out bool;
  o_newTimer : err;
  o_processing : pps_answers;
  o_written : out BlockMap;
  o_LastVoteproof : option Voteproof;                 (* of the ballot box *)
  o_sent : bool;
  o_sends : nat -> send_outcome;
  o_GetProposal : Hash -> option ProposalSignFact;
  o_Ask : res (string * bool);
  o_NewSyncer : Z -> out bool;                        (* whether there is one *)
  o_IsFinished : Z * bool;
  o_syncerCancel : out unit;
  o_syncerDone : option (option outside_error);       (* [Done], and its [Err] *)
  o_JoinMemberlist : out unit;
  o_LeaveMemberlist : out unit
}.

(** ** What the handlers keep *)

(** What they do to the outside, the newest first. *)
Inductive output :=
  | OVote (bl : Ballot)
  | OSend (bl : Ballot)
  | OResolverNewPoint (p : StagePoint)
  | OResolverCancel (p : StagePoint)
  | ONewBlockSaved (bm : BlockMap)
  | ONewBlockConfirmed (h : Z)
  | OSyncerStart (h : Z)
  | OSyncerAdd (h : Z)
  | OSyncerCancel
  | OReachedTop (h : Z)
  | OSynced (h : Z)
  | OJoinMemberlist
  | OLeaveMemberlist
  | OBallotboxCount.

(** A goroutine of a handler, or what a handler defers.  [t] is the state of the
    handler. *)
Inductive job :=
  | JEnter (n : nat)
  | JNextRound (t : StateType) (vp : Voteproof) (previousBlock : option Hash)
  | JNextBlock (t : StateType) (avp : Voteproof)
  | JVote (canceled_is_fine : bool) (bl : Ballot) (vp : Voteproof)
  | JSuffrageConfirm (t : StateType) (vp : Voteproof)
  | JWrongACCEPT (t : StateType) (ivp : Voteproof)
  | JProcess (t : StateType) (ivp : Voteproof) (r : out (option Manifest))
  | JAfterProcess (t : StateType) (m : Manifest) (avp : Voteproof)
  | JBlockSaved (t : StateType) (bm : BlockMap) (avp : Voteproof)
  | JBlockConfirmed (avp : Voteproof)
  | JSendBallot (bl : Ballot)
  | JSendStagePoint (p : StagePoint)
  | JSendBlockMap (p : StagePoint) (bm : BlockMap)
  | JHandoverExit
  | JJoining (vp : option Voteproof) (m : Manifest)
  | JFirstVoteproof (lvp : Voteproof) (m : Manifest)
  | JSyncing (f : StateType) (h : Z)
  | JStopTimersLater
  | JFinishing
  | JSyncerSaved (top : Z)
  | JStuck (vp : Voteproof)
  | JStuckAgain
  | JBroken.

(** [w_pending]: the handlers that entered under [vplock] and have not handled
    the voteproof they entered with; the newest first. *)
Record World (C : Type) := {
  w_lvps : LastVoteproofsHandler C;
  w_pps : ProposalProcessors;
  w_pool : pool;
  w_timers : timers;
  w_finishedWithVoteproof : bool;
  w_entered : nat;
  w_pending : list (nat * (StateType * Voteproof * LastVoteproofs));
  w_out : list output
}.
Arguments w_lvps {C} _.
Arguments w_pps {C} _.
Arguments w_pool {C} _.
Arguments w_timers {C} _.
Arguments w_finishedWithVoteproof {C} _.
Arguments w_entered {C} _.
Arguments w_pending {C} _.
Arguments w_out {C} _.
Arguments Build_World {C} _ _ _ _ _ _ _ _.

Section world.
Context {C : Type}.
Implicit Types w : World C.
Definition set_lvps (l : LastVoteproofsHandler C) w := Build_World l (w_pps w) (w_pool w) (w_timers w) (w_finishedWithVoteproof w) (w_entered w) (w_pending w) (w_out w).
Definition set_pps p w : World C := Build_World (w_lvps w) p (w_pool w) (w_timers w) (w_finishedWithVoteproof w) (w_entered w) (w_pending w) (w_out w).
Definition set_ballot_pool p w : World C := Build_World (w_lvps w) (w_pps w) p (w_timers w) (w_finishedWithVoteproof w) (w_entered w) (w_pending w) (w_out w).
Definition set_timers t w : World C := Build_World (w_lvps w) (w_pps w) (w_pool w) t (w_finishedWithVoteproof w) (w_entered w) (w_pending w) (w_out w).
Definition set_finished b w : World C := Build_World (w_lvps w) (w_pps w) (w_pool w) (w_timers w) b (w_entered w) (w_pending w) (w_out w).
Definition set_pending n l w : World C := Build_World (w_lvps w) (w_pps w) (w_pool w) (w_timers w) (w_finishedWithVoteproof w) n l (w_out w).
Definition add_out o w : World C := Build_World (w_lvps w) (w_pps w) (w_pool w) (w_timers w) (w_finishedWithVoteproof w) (w_entered w) (w_pending w) (o :: w_out w).
End world.

(** ** The monad *)
Section monad.
Context `{HandoverData, ProposalOperations} {C : Type}.
Abbreviation S := (States job (World C)).

Definition M (A : Type) : Type := Outside -> S -> res (S * (goerr + A)).

#[global] Instance M_ret : MRet M := fun A a _ s => Ok (s, inr a).
#[global] Instance M_bind : MBind M := fun A B f m o s =>
  m o s ≫= fun '(s, r) => match r with inl e => Ok (s, inl e) | inr a => f a o s end.

Definition raise {A} (e : goerr) : M A := fun _ s => Ok (s, inl e).
Definition raise_ctx {A} (c : switchContext) : M A := raise (ECtx c).
(** The error or the value of a call, to be looked at. *)
Definition attempt {A} (m : M A) : M (goerr + A) := fun o s => m o s ≫= fun '(s, r) => Ok (s, inr r).
(** [return e.Wrap(err)]. *)
Definition wrapped {A} (m : M A) : M A :=
  r ← attempt m; match r with inl e => raise (EWrap e) | inr a => mret a end.
Definition lift {A} (r : res A) : M A := fun _ s =>
  match r with Ok a => Ok (s, inr a) | Err m => Ok (s, inl (EPlain m)) | Panic => Panic end.
Definition ask {A} (f : Outside -> A) : M A := fun o s => Ok (s, inr (f o)).
Definition call_out {A} (f : Outside -> out A) : M A := fun o s =>
  Ok (s, match f o with inl e => inl (to_goerr e) | inr a => inr a end).
Definition get {A} (f : S -> A) : M A := fun _ s => Ok (s, inr (f s)).
Definition modify (f : S -> S) : M unit := fun _ s => Ok (f s, inr tt).
Definition get_w {A} (f : World C -> A) : M A := get (fun s => f (st_w s)).
Definition on_w (f : World C -> World C) : M unit := modify (fun s => set_w (f (st_w s)) s).
Definition emit (o : output) : M unit := on_w (add_out o).
(** [go func() { ... }()], and [go st.switchState(sctx)]. *)
Definition spawn (j : job) : M unit := modify (go (GHandler [j])).
Definition go_switchState (c : switchContext) : M unit := modify (go (GAsk true c)).
Definition when (b : bool) (m : M unit) : M unit := if b then m else mret tt.
End monad.

#[global] Instance sf_kind_eq_dec : EqDecision sf_kind.
Proof. solve_decision. Defined.

(** ** The base of the handlers *)
Section base.
Context `{Crypto, PointBytes, LocalNode, BlockCrypto, HandoverData, ProposalOperations} `{!LRUCache C}.
Variables (xargs : HandoverXBrokerArgs) (yargs : HandoverYBrokerArgs).
Abbreviation M := (M (C := C)).

Definition lastVoteproofs : M LastVoteproofs := get_w (fun w => h_last (w_lvps w)).
Definition voteproofs (point : StagePoint) : M (option LastVoteproofs) :=
  h ← get_w w_lvps;
  let '(r, h) := Voteproofs h point in
  _ ← on_w (set_lvps h); mret r.
Definition setLastVoteproof (vp : Voteproof) : M bool :=
  h ← get_w w_lvps;
  '(isnew, h) ← lift (Handler_Set h vp);
  _ ← on_w (set_lvps h); mret isnew.
(** The last voteproofs before [vp], and whether it is new. *)
Definition setNewVoteproof (vp : Voteproof) : M (LastVoteproofs * bool) :=
  lvps ← lastVoteproofs; isnew ← setLastVoteproof vp; mret (lvps, isnew).
Definition allowedConsensus : M bool := get st_allowedConsensus.

(** A call of a broker that is there and not canceled. *)
Definition with_x {A} (f : Outside -> HandoverXBroker -> res (x_result A)) : M (option (handover_error + A)) :=
  fun o s =>
  match get_HandoverXBroker s with
  | None => Ok (s, inr None)
  | Some b => f o b ≫= fun r => let '(s, a) := on_x (fun _ => r) s in Ok (s, inr a)
  end.
Definition with_y {A} (f : Outside -> HandoverYBroker -> y_result A) : M (option (handover_error + A)) :=
  fun o s =>
  match get_HandoverYBroker s with
  | None => Ok (s, inr None)
  | Some b => let '(s, a) := on_y (fun _ => f o b) s in Ok (s, inr a)
  end.

(** ** Timers and the pool *)
Definition startTimer (bl : Ballot) : M unit :=
  made ← ask o_newTimer; t ← get_w w_timers;
  let '(t, r) := bbt_add bl made t in
  _ ← on_w (set_timers t); lift r.
Definition stopTimers : M unit := t ← get_w w_timers; on_w (set_timers (StopTimers t)).
(** [Ballot] of the broadcaster, and the type assertion of what is found. *)
Definition pooledBallot (point : Point) (stage : Stage) (isSuffrageConfirm : bool) (k : sf_kind) : M (option Ballot) :=
  p ← get_w w_pool;
  bl ← lift (pool_Ballot point stage isSuffrageConfirm p);
  match bl with
  | None => mret None
  | Some bl => if bool_decide (bl_type bl = k) then mret (Some bl) else lift Panic
  end.
(** [broadcastBallot], what a timer does with its ballot: to the other node of a
    handover in a goroutine, and to everybody. *)
Definition sendBallotToHandoverY (bl : Ballot) : M unit :=
  _ ← with_x (fun o b => Ok (x_sendBallot xargs bl (o_sent o) b)); mret tt.
Definition broadcastBallot (bl : Ballot) : M unit :=
  _ ← spawn (JSendBallot bl);
  p ← get_w w_pool;
  let '(p, sent) := Broadcast bl p in
  _ ← on_w (set_ballot_pool p);
  on_w (fun w => foldl (fun w bl => add_out (OSend bl) w) w sent).

(** ** Voting *)

(** [vote], with [preventVotingWithEmptySuffrage]. *)
Definition vote (bl : Ballot) : M bool :=
  r ← ask (fun o => o_NodeInConsensusNodes o (Height_SafePrev (sp_h (bl_point bl))));
  _ ← match r with
      | inl (OId storage_ErrNotFound) => mret tt
      | inl e => raise (EWrap (to_goerr e))
      | inr (None, _) => raise (EPlain "empty suffrage")
      | inr (Some suf, found) =>
          if (length (suf_ns suf) <? 1)%nat then raise (EPlain "empty suffrage")
          else if negb found then raise (EWrap (EId errFailedToVoteNotInConsensus))
          else mret tt
      end;
  voted ← call_out (fun o => o_Vote o bl);
  _ ← emit (OVote bl);
  _ ← when voted (emit (OResolverNewPoint (bl_point bl)));
  mret voted.
(** The goroutine of a vote; [vp] is what the ballot was made from. *)
Definition run_vote (canceled_is_fine : bool) (bl : Ballot) (vp : Voteproof) : M unit :=
  r ← attempt (vote bl);
  match r with
  | inr _ => mret tt
  | inl e =>
      if canceled_is_fine && errors_Is ErrCanceled e then mret tt
      else if errors_Is errFailedToVoteNotInConsensus e
      then go_switchState (newSyncingSwitchContextWithVoteproof StateConsensus (Some vp))
      else go_switchState (newBrokenSwitchContext StateConsensus e)
  end.

Definition localIsInConsensusNodes (height : Z) : M Suffrage :=
  r ← ask (fun o => o_NodeInConsensusNodes o height);
  match r with
  | inl (OId storage_ErrNotFound) => raise_ctx (newSyncingSwitchContext StateConsensus height)
  | inl e => raise (to_goerr e)
  | inr (_, false) => raise_ctx (newSyncingSwitchContext StateConsensus height)
  | inr (None, true) => raise (EId ErrNotFound)
  | inr (Some suf, true) => if Suffrage_Len suf <? 1 then raise (EId ErrNotFound) else mret suf
  end.

(** ** INIT ballots *)
Definition findExpels (height : Z) (suf : option Suffrage) : M (list SuffrageExpelOperation * list Hash) :=
  ops ← call_out (fun o => o_SuffrageVotingFind o height suf);
  mret (ops, (fun x => xf_hash (xo_fact x)) <$> ops).

(** A nil hash is the empty string in a fact. *)
Definition or_nil (h : option Hash) : Hash := default "" h.
(** [NewINITBallotFactFunc]: [newEmptyProposalINITBallotFactFunc] first. *)
Definition newINITBallotFactFunc (point : Point) (previousBlock : option Hash) (pr : Proposal) (expelfacts : list Hash)
    : M BallotFact :=
  noblock ← ask o_IsEmptyProposalNoBlock;
  isempty ← (if (0 <? length expelfacts)%nat || negb noblock then mret false
             else call_out (fun o => o_IsEmptyProposal o pr));
  r ← ask o_random;
  mret (if isempty : bool then NewEmptyProposalINITBallotFact point (or_nil previousBlock) (pr_hash pr) r
        else NewINITBallotFact point (or_nil previousBlock) (pr_hash pr) expelfacts).

Definition makeINITBallot (point : Point) (prevBlock : option Hash) (vp : Voteproof) (suf : option Suffrage)
    : M Ballot :=
  found ← wrapped (pooledBallot point StageINIT false INITBallotSignFact);
  match found with
  | Some bl => mret bl
  | None =>
      pr ← wrapped (call_out (fun o => o_ProposalSelect o point prevBlock));
      '(expels, expelfacts) ← findExpels (p_h point) suf;
      fact ← wrapped (newINITBallotFactFunc point prevBlock pr expelfacts);
      sf ← wrapped (lift (signed INITBallotSignFact fact));
      mret (NewINITBallot vp sf expels)
  end.
Definition makeNextRoundBallot (vp : Voteproof) (prevBlock : option Hash) (suf : option Suffrage) : M Ballot :=
  wrapped (makeINITBallot (Point_NextRound (sp_point (vp_point vp))) prevBlock vp suf).
(** The context is looked at while the node waits for the next block. *)
Definition makeNextBlockBallot (avp : Voteproof) (suf : option Suffrage) : M Ballot :=
  done ← ask o_ctx;
  match done with
  | Some e => raise (to_goerr e)
  | None =>
      mj ← lift (ACCEPT_BallotMajority avp);
      match mj with
      | None => lift Panic
      | Some (_, newBlock) =>
          wrapped (makeINITBallot (Point_NextHeight (sp_point (vp_point avp))) (Some newBlock) avp suf)
      end
  end.

(** [prepareINITBallot]; [newballotf] with the goroutine for what goes wrong. *)
Definition prepareINITBallot (newballotf : M Ballot) (vp : Voteproof) : M unit :=
  r ← attempt newballotf;
  match r with
  | inl e => when (negb (errors_Is ErrCanceled e)) (go_switchState (newBrokenSwitchContext StateConsensus e))
  | inr bl => _ ← spawn (JVote true bl vp); startTimer bl
  end.
Definition defaultPrepareNextBlockBallot (avp : Voteproof) (suf : option Suffrage) : M unit :=
  prepareINITBallot (makeNextBlockBallot avp suf) avp.
Definition defaultPrepareNextRoundBallot (vp : Voteproof) (previousBlock : option Hash) (suf : option Suffrage) : M unit :=
  prepareINITBallot (makeNextRoundBallot vp previousBlock suf) vp.

(** ** ACCEPT ballots *)
Definition makeACCEPTBallot (ivp : Voteproof) (newBlock : option Hash) (fact : option BallotFact) : M Ballot :=
  found ← pooledBallot (sp_point (vp_point ivp)) StageACCEPT false ACCEPTBallotSignFact;
  match found with
  | Some bl => mret bl
  | None =>
      '(expels, afact) ←
        match fact with
        | Some f => mret ([], f)
        | None =>
            let expels := if IsExpelVoteproof ivp then vp_expels ivp else [] in
            mj ← lift (INIT_BallotMajority ivp);
            match mj with
            | None => lift Panic
            | Some (_, proposal) =>
                mret (expels, NewACCEPTBallotFact (sp_point (vp_point ivp)) proposal (or_nil newBlock)
                                ((fun x => xf_hash (xo_fact x)) <$> expels))
            end
        end;
      sf ← lift (signed ACCEPTBallotSignFact afact);
      mret (NewACCEPTBallot ivp sf expels)
  end.
Definition defaultPrepareACCEPTBallot (ivp : Voteproof) (newBlock : option Hash) (fact : option BallotFact) : M unit :=
  bl ← wrapped (makeACCEPTBallot ivp newBlock fact);
  _ ← spawn (JVote false bl ivp);
  wrapped (startTimer bl).

(** ** Suffrage confirm ballots *)
Definition makeSuffrageConfirmBallot (t : StateType) (vp : Voteproof) : M Ballot :=
  found ← pooledBallot (sp_point (vp_point vp)) StageINIT true INITBallotSignFact;
  match found with
  | Some bl => mret bl
  | None =>
      match vp_majority vp with
      | Some (INITBallotFact b previousBlock proposal) =>
          r ← attempt (lift (signed INITBallotSignFact
                 (NewSuffrageConfirmBallotFact (sp_point (vp_point vp)) previousBlock proposal (bf_expelfacts b))));
          match r with
          | inl e => _ ← go_switchState (newBrokenSwitchContext t (EWrap e)); raise e
          | inr sf => mret (NewINITBallot vp sf [])
          end
      | _ => lift Panic
      end
  end.
(** What goes wrong is logged. *)
Definition defaultPrepareSuffrageConfirmBallot (t : StateType) (vp : Voteproof) : M unit :=
  if negb (IsExpelVoteproof vp) then mret tt
  else
    r ← attempt (makeSuffrageConfirmBallot t vp);
    match r with
    | inl _ => mret tt
    | inr bl => _ ← spawn (JVote false bl vp); _ ← attempt (startTimer bl); mret tt
    end.

(** ** The next round, the next block *)

(** [nextRound]: after an error that is not a switch it goes on without a
    suffrage.  In the handover state nothing is prepared. *)
Definition suffrageOrSwitch (t : StateType) (height : Z) : M (option (option Suffrage)) :=
  r ← attempt (localIsInConsensusNodes height);
  match r with
  | inr suf => mret (Some (Some suf))
  | inl e =>
      match errors_As e with
      | Some c => _ ← go_switchState c; mret None
      | None => _ ← go_switchState (newBrokenSwitchContext t e); mret (Some None)
      end
  end.
Definition nextRound (t : StateType) (vp : Voteproof) (previousBlock : option Hash) : M unit :=
  r ← suffrageOrSwitch t (Height_SafePrev (sp_h (vp_point vp)));
  match r with
  | None => mret tt
  | Some suf =>
      if bool_decide (t = StateHandover) then mret tt
      else _ ← attempt (defaultPrepareNextRoundBallot vp previousBlock suf); mret tt
  end.
(** The broken switch is from [StateConsensus], and from [StateJoining] when the
    joining handler prepares the next block. *)
Definition nextBlock (t : StateType) (avp : Voteproof) : M unit :=
  r ← suffrageOrSwitch (if bool_decide (t = StateJoining) then StateJoining else StateConsensus) (sp_h (vp_point avp));
  match r with
  | None => mret tt
  | Some suf =>
      if bool_decide (t = StateHandover) then mret tt
      else _ ← attempt (defaultPrepareNextBlockBallot avp suf); mret tt
  end.

(** ** Blocks *)
Definition proposal_of (r : res (option (Hash * Hash))) (f : Hash * Hash -> Hash) : M Hash :=
  mj ← lift r; match mj with None => lift Panic | Some m => mret (f m) end.

Definition saveBlock (t : StateType) (avp : Voteproof) : M bool :=
  facthash ← proposal_of (ACCEPT_BallotMajority avp) fst;
  written ← ask o_written; p ← get_w w_pps;
  '(p, r) ← lift (pps_Save written facthash avp p);
  _ ← on_w (set_pps p);
  match r with
  | inr bm => _ ← spawn (JBlockSaved t bm avp); _ ← spawn (JNextBlock t avp); mret true
  | inl e =>
      if errors_Is ErrProcessorAlreadySaved e then mret false
      else if errors_Is ErrNotProposalProcessorProcessed e
      then raise_ctx (newSyncingSwitchContextWithVoteproof t (Some avp))
      else raise_ctx (newBrokenSwitchContext t e)
  end.
(** [Cancel] of the processors never fails. *)
Definition cancelProcessors : M unit := on_w (fun w => set_pps (pps_Cancel (w_pps w)) w).

Definition whenNewBlockConfirmed (avp : Voteproof) : M unit :=
  when (HasExpels avp) (emit (ONewBlockConfirmed (sp_h (vp_point avp)))).
(** [whenNewBlockSaved] with that of the handover handler. *)
Definition whenNewBlockSaved (t : StateType) (bm : BlockMap) (avp : Voteproof) : M unit :=
  _ ← when (bool_decide (t = StateHandover))
        (y ← get get_HandoverYBroker;
         match y with
         | None => go_switchState (emptySyncingSwitchContext StateHandover)
         | Some _ => spawn (JSendBlockMap (vp_point avp) bm)
         end);
  _ ← when (negb (HasExpels avp)) (emit (ONewBlockConfirmed (sp_h (vp_point avp))));
  emit (ONewBlockSaved bm).

(** ** Processing *)
Definition prepareACCEPTBallot (t : StateType) (ivp : Voteproof) (newBlock : option Hash) (fact : option BallotFact) : M unit :=
  if bool_decide (t = StateHandover) then mret tt else defaultPrepareACCEPTBallot ivp newBlock fact.
Definition wrongACCEPTBallot (t : StateType) (ivp : Voteproof) : M unit :=
  proposal ← proposal_of (INIT_BallotMajority ivp) snd; r ← ask o_random;
  wrapped (prepareACCEPTBallot t ivp None
             (Some (NewNotProcessedACCEPTBallotFact (sp_point (vp_point ivp)) proposal r))).

Definition handleACCEPTVoteproofAfterProcessingProposal (t : StateType) (m : Manifest) (avp : Voteproof) : M bool :=
  if negb (bool_decide (Result avp = VoteResultMajority)) then _ ← cancelProcessors; mret false
  else
    newBlock ← proposal_of (ACCEPT_BallotMajority avp) snd;
    same ← lift (Hash_eq (mf_hash m) (Some newBlock));
    if negb same : bool
    then _ ← cancelProcessors; raise_ctx (newSyncingSwitchContextWithVoteproof t (Some avp))
    else
      r ← attempt (saveBlock t avp);
      match r with
      | inr saved => mret saved
      | inl e => match errors_As e with
                 | Some c => raise_ctx c
                 | None => raise_ctx (newBrokenSwitchContext t (EWrap e))
                 end
      end.

(** The function [processProposalFunc] returns: [r] is what the processor gives. *)
Definition run_process (t : StateType) (ivp : Voteproof) (r : out (option Manifest)) : M unit :=
  done ← ask o_ctx;
  match match done with Some e => inl e | None => r end with
  | inl err =>
      let e := to_goerr err in
      _ ← when (negb (errors_Is ErrCanceled e)) cancelProcessors;
      if errors_Is ErrCanceled e || errors_Is ErrNotProposalProcessorProcessed e then wrapped (wrongACCEPTBallot t ivp)
      else if errors_Is ErrProposalProcessorEmptyOperations e then
        proposal ← proposal_of (INIT_BallotMajority ivp) snd; r ← ask o_random;
        wrapped (prepareACCEPTBallot t ivp None
                   (Some (NewEmptyOperationsACCEPTBallotFact (sp_point (vp_point ivp)) proposal r)))
      else raise (EWrap e)
  | inr None => mret tt
  | inr (Some m) =>
      lvps ← lastVoteproofs;
      _ ← wrapped (prepareACCEPTBallot t ivp (mf_hash m) None);
      match l_avp lvps with
      | Some eavp => when (Point_Equal (sp_point (vp_point eavp)) (sp_point (vp_point ivp))) (spawn (JAfterProcess t m eavp))
      | None => mret tt
      end
  end.
(** A goroutine that asks for the switch its error is, or to the broken state. *)
Definition or_switch (t : StateType) (m : M unit) : M unit :=
  r ← attempt m;
  match r with
  | inr _ => mret tt
  | inl e => go_switchState (match errors_As e with Some c => c | None => newBrokenSwitchContext t e end)
  end.

Definition processProposalInternal (ivp : Voteproof) : M (option (goerr + option Manifest)) :=
  facthash ← proposal_of (INIT_BallotMajority ivp) snd;
  previous ← wrapped (call_out (fun o => o_GetManifest o (wrap_s 64 (sp_h (vp_point ivp) - 1))));
  a ← ask o_processing; p ← get_w w_pps;
  let '(p, r) := pps_Process a facthash previous ivp p in
  _ ← on_w (set_pps p);
  match r with inl e => raise (EWrap e) | inr r => mret r end.
(** [processProposal], and the goroutine of its caller. *)
Definition processProposal (t : StateType) (ivp : Voteproof) : M unit :=
  r ← attempt (processProposalInternal ivp);
  match r with
  | inr None => mret tt
  | inr (Some r) => spawn (JProcess t ivp (match r with inl e => inl (outside_of e) | inr m => inr m end))
  | inl e =>
      if errors_Is ErrCanceled e || errors_Is ErrNotProposalProcessorProcessed e then spawn (JWrongACCEPT t ivp)
      else raise_ctx (newBrokenSwitchContext t (EWrap e))
  end.

(** ** New voteproofs *)

(** The suffrage has to confirm an INIT majority with expels. *)
Definition checkSuffrageVoting (t : StateType) (ivp : Voteproof) : M bool :=
  if negb (IsExpelVoteproof ivp) then mret true
  else match vp_majority ivp with
       | Some (INITBallotFact _ _ _) => _ ← spawn (JSuffrageConfirm t ivp); mret false
       | Some (SuffrageConfirmBallotFact _ _ _) => mret true
       | _ => raise (EPlain "expected SuffrageConfirmBallotFact")
       end.
Definition go_nextRound (t : StateType) (vp : Voteproof) (lvps : LastVoteproofs) : M unit :=
  prev ← lift (PreviousBlockForNextRound lvps vp); spawn (JNextRound t vp prev).
(** The [Cap] of the voteproofs before; a nil one is dereferenced. *)
Definition cap (lvps : LastVoteproofs) : M Voteproof := match Cap lvps with Some c => mret c | None => lift Panic end.
Definition moves_to_syncing {A} (t : StateType) (vp : Voteproof) : M A :=
  raise_ctx (newSyncingSwitchContextWithVoteproof t (Some vp)).

Definition checkStuckVoteproof (t : StateType) (vp : Voteproof) (lvps : LastVoteproofs) : M bool :=
  if negb (IsStuckVoteproof vp) then mret true
  else
    lvp ← cap lvps;
    let h := sp_h (vp_point lvp) in
    let expectedheight := if bool_decide (sp_stage (vp_point lvp) = StageACCEPT) then wrap_s 64 (h + 1) else h in
    if expectedheight <? sp_h (vp_point vp) then moves_to_syncing t vp
    else _ ← go_nextRound t vp lvps; mret false.

(** The end of the two functions for an INIT majority. *)
Definition confirm_and_process (t : StateType) (ivp lavp : Voteproof) : M unit :=
  keep ← checkSuffrageVoting t ivp;
  when keep (_ ← spawn (JBlockConfirmed lavp); processProposal t ivp).

Definition newINITVoteproofWithLastINITVoteproof (t : StateType) (ivp livp : Voteproof) (lvps : LastVoteproofs) : M unit :=
  if sp_h (vp_point livp) <? sp_h (vp_point ivp) then moves_to_syncing t ivp
  else if negb (bool_decide (Result ivp = VoteResultMajority)) then go_nextRound t ivp lvps
  else match l_avp lvps with
  | None => raise_ctx (newBrokenSwitchContext t (EPlain "empty last accept voteproof"))
  | Some lavp =>
      m ← lift (PreviousBlockForNextRound lvps ivp);
      prev ← proposal_of (INIT_BallotMajority ivp) fst;
      match m with
      | None => moves_to_syncing t ivp
      | Some m =>
          if negb (bool_decide (prev = m)) then moves_to_syncing t ivp
          else confirm_and_process t ivp lavp
      end
  end.
Definition newINITVoteproofWithLastACCEPTVoteproof (t : StateType) (ivp lavp : Voteproof) (lvps : LastVoteproofs) : M unit :=
  if wrap_s 64 (sp_h (vp_point lavp) + 1) <? sp_h (vp_point ivp) then moves_to_syncing t ivp
  else if bool_decide (Result ivp = VoteResultDraw) then go_nextRound t ivp lvps
  else
    m ← lift (ACCEPT_BallotMajority lavp);
    prev ← proposal_of (INIT_BallotMajority ivp) fst;
    match m with
    | None => moves_to_syncing t ivp
    | Some (_, newBlock) =>
        if negb (bool_decide (prev = newBlock)) then moves_to_syncing t ivp
        else confirm_and_process t ivp lavp
    end.
Definition newINITVoteproof (t : StateType) (ivp : Voteproof) (lvps : LastVoteproofs) : M unit :=
  c ← cap lvps;
  if bool_decide (sp_stage (vp_point c) = StageINIT)
  then livp ← lift (as_INITVoteproof c); newINITVoteproofWithLastINITVoteproof t ivp livp lvps
  else if bool_decide (sp_stage (vp_point c) = StageACCEPT)
  then lavp ← lift (as_ACCEPTVoteproof c); newINITVoteproofWithLastACCEPTVoteproof t ivp lavp lvps
  else mret tt.

Definition newACCEPTVoteproofWithLastINITVoteproof (t : StateType) (avp livp : Voteproof) (lvps : LastVoteproofs) : M unit :=
  if Point_Equal (sp_point (vp_point avp)) (sp_point (vp_point livp)) then
    saved ← (if bool_decide (Result avp = VoteResultMajority) then saveBlock t avp else mret false);
    if saved : bool then mret tt else go_nextRound t avp lvps
  else if sp_h (vp_point livp) <? sp_h (vp_point avp) then moves_to_syncing t avp
  else if bool_decide (Result avp = VoteResultDraw) then go_nextRound t avp lvps
  else moves_to_syncing t avp.
Definition newACCEPTVoteproofWithLastACCEPTVoteproof (t : StateType) (avp lavp : Voteproof) (lvps : LastVoteproofs) : M unit :=
  if sp_h (vp_point lavp) <? sp_h (vp_point avp) then moves_to_syncing t avp
  else if bool_decide (Result avp = VoteResultDraw) then go_nextRound t avp lvps
  else moves_to_syncing t avp.
Definition newACCEPTVoteproof (t : StateType) (avp : Voteproof) (lvps : LastVoteproofs) : M unit :=
  c ← cap lvps;
  if bool_decide (sp_stage (vp_point c) = StageINIT)
  then livp ← lift (as_INITVoteproof c); newACCEPTVoteproofWithLastINITVoteproof t avp livp lvps
  else if bool_decide (sp_stage (vp_point c) = StageACCEPT)
  then lavp ← lift (as_ACCEPTVoteproof c); newACCEPTVoteproofWithLastACCEPTVoteproof t avp lavp lvps
  else mret tt.

(** ** What the consensus and the handover state do first *)

(** [handoverFinishedVoteporof] embeds an INIT voteproof: it has none of the other
    methods, so expels are out of sight. *)
Definition handoverFinishedVoteporof (vp : Voteproof) : Voteproof :=
  {| vp_type := KINIT; vp_id := vp_id vp; vp_finished := vp_finished vp; vp_majority := vp_majority vp;
     vp_sfs := vp_sfs vp; vp_point := vp_point vp; vp_threshold := vp_threshold vp; vp_expels := [] |}.

Definition newConsensusSwitchContext (f : StateType) (vp : Voteproof) : M switchContext :=
  if bool_decide (sp_stage (vp_point vp) = StageACCEPT) && negb (bool_decide (Result vp = VoteResultDraw))
  then raise (EPlain "invalid voteproof for consensus switch context; vote result is not draw")
  else mret (consensusSwitchContext f vp).

(** Whether the chain the finished voteproof follows_accept is that of the local node. *)
Definition follows_accept (ivp lavp : Voteproof) : M bool :=
  m ← lift (ACCEPT_BallotMajority lavp);
  match m with
  | None => mret false
  | Some (_, newBlock) => prev ← proposal_of (INIT_BallotMajority ivp) fst; mret (bool_decide (prev = newBlock))
  end.
Definition handoverIsReadyConsensusWithVoteproof (ivp : Voteproof) (lvps : LastVoteproofs) : M (option switchContext) :=
  let syncing := newSyncingSwitchContextWithVoteproof StateHandover (Some ivp) in
  match Cap lvps with
  | None => mret None
  | Some c =>
      if is_init_type c then
        if sp_h (vp_point c) <? sp_h (vp_point ivp) then mret (Some syncing)
        else if negb (bool_decide (Result ivp = VoteResultMajority)) then mret None
        else match l_avp lvps with
        | None => mret (Some (newBrokenSwitchContext StateHandover (EPlain "empty last accept voteproof")))
        | Some lavp => ok ← follows_accept ivp lavp; mret (if ok : bool then None else Some syncing)
        end
      else
        if wrap_s 64 (sp_h (vp_point c) + 1) <? sp_h (vp_point ivp) then mret (Some syncing)
        else if bool_decide (Result ivp = VoteResultDraw) then mret None
        else ok ← follows_accept ivp c; mret (if ok : bool then None else Some syncing)
  end.

(** [whenNewVoteproof] of the two handlers. *)
Definition consensus_whenNewVoteproof (vp : Voteproof) : M unit :=
  r ← with_x (fun o b => sendVoteproof xargs (o_GetProposal o) vp (o_sent o) (o_sends o) b);
  match r with
  | Some (inr true) => moves_to_syncing StateConsensus vp
  | _ => mret tt
  end.
Definition handover_whenNewVoteproof (finished : bool) (vp : Voteproof) (lvps : LastVoteproofs) : M unit :=
  already ← get_w w_finishedWithVoteproof;
  if already : bool then raise (EId errIgnoreNewVoteproof)
  else
    y ← get get_HandoverYBroker;
    match y with
    | None => moves_to_syncing StateHandover vp
    | Some _ =>
        if finished then
          _ ← on_w (set_finished true);
          notready ← handoverIsReadyConsensusWithVoteproof vp lvps;
          match notready with
          | Some c => raise_ctx c
          | None => c ← newConsensusSwitchContext StateHandover vp; raise_ctx c
          end
        else when (isStagePointChallenge vp) (spawn (JSendStagePoint (vp_point vp)))
    end.
Definition whenNewVoteproof (t : StateType) (finished : bool) (vp : Voteproof) (lvps : LastVoteproofs) : M unit :=
  if bool_decide (t = StateHandover) then handover_whenNewVoteproof finished vp lvps else consensus_whenNewVoteproof vp.

(** [checkInState] of the two handlers. *)
Definition in_state (t : StateType) (s : States job (World C)) : bool :=
  if bool_decide (t = StateHandover)
  then match get_HandoverYBroker s with None => false | Some _ => negb (st_allowedConsensus s) end
  else st_allowedConsensus s.
Definition checkInState (t : StateType) (vp : option Voteproof) : M (option switchContext) :=
  ok ← get (in_state t); mret (if ok : bool then None else Some (newSyncingSwitchContextWithVoteproof t vp)).
Definition check_in_state (t : StateType) (vp : Voteproof) : M unit :=
  c ← checkInState t (Some vp); match c with Some c => raise_ctx c | None => mret tt end.

(** ** The handler of voteproofs *)
Definition newVoteproofWithLVPS (t : StateType) (finished : bool) (vp : Voteproof) (lvps : LastVoteproofs) : M unit :=
  _ ← emit (OResolverCancel (vp_point vp));
  _ ← wrapped (whenNewVoteproof t finished vp lvps);
  keep ← checkStuckVoteproof t vp lvps;
  if negb keep : bool then mret tt
  else if bool_decide (sp_stage (vp_point vp) = StageINIT)
  then ivp ← lift (as_INITVoteproof vp); newINITVoteproof t ivp lvps
  else if bool_decide (sp_stage (vp_point vp) = StageACCEPT)
  then avp ← lift (as_ACCEPTVoteproof vp); newACCEPTVoteproof t avp lvps
  else raise (EPlain "invalid voteproof received").
Definition vh_handleNewVoteproof (t : StateType) (finished : bool) (vp : Voteproof) : M unit :=
  '(lvps, isnew) ← setNewVoteproof vp;
  when isnew (newVoteproofWithLVPS t finished vp lvps).

(** [enterWithNewVoteproof], which has the lock [vplock]: it runs once. *)
Definition enterWithNewVoteproof (t : StateType) (vp : Voteproof) (lvps : LastVoteproofs) : M unit :=
  r ← attempt (newVoteproofWithLVPS t false vp lvps);
  match r with
  | inl e => or_switch t (raise e)
  | inr _ =>
      lvp ← ask o_LastVoteproof;
      match lvp with
      | None => mret tt
      | Some lvp => or_switch t (vh_handleNewVoteproof t false lvp)
      end
  end.
Definition run_entered (n : nat) : M unit :=
  l ← get_w w_pending;
  match list_find (fun p => p.1 = n) l with
  | None => mret tt
  | Some (i, (_, (t, vp, lvps))) =>
      k ← get_w w_entered;
      _ ← on_w (set_pending k (delete i l));
      enterWithNewVoteproof t vp lvps
  end.
(** Who takes the lock of the handler of [t] waits for its [enterWithNewVoteproof]. *)
Definition vplock (t : StateType) : M unit :=
  l ← get_w w_pending;
  match list_find (fun p => p.2.1.1 = t) l with
  | None => mret tt
  | Some (_, (n, _)) => run_entered n
  end.

Definition vh_newVoteproof (t : StateType) (finished : bool) (vp : Voteproof) : M unit :=
  _ ← vplock t;
  _ ← check_in_state t vp;
  _ ← vh_handleNewVoteproof t finished vp;
  check_in_state t vp.

Definition vh_enter (t : StateType) (c : switchContext) : M (list job) :=
  match ctx_voteproof c with
  | None => raise (EWrap (EPlain "expected voteproofSwitchContext"))
  | Some None => raise (EPlain "invalid switchContext, empty voteproof")
  | Some (Some vp) =>
      r ← ask (fun o => o_NodeInConsensusNodes o (Height_SafePrev (sp_h (vp_point vp))));
      match r with
      | inl (OId storage_ErrNotFound) => moves_to_syncing t vp
      | inl e => raise (EWrap (to_goerr e))
      | inr (None, _) => raise (EPlain "empty suffrage of init voteproof")
      | inr (Some suf, found) =>
          if Suffrage_Len suf <? 1 then raise (EPlain "empty suffrage of init voteproof")
          else if negb found then moves_to_syncing t vp
          else
            r ← voteproofs (vp_point vp);
            match r with
            | None => raise (EPlain "last voteproofs not found")
            | Some lvps =>
                k ← get_w w_entered; l ← get_w w_pending;
                _ ← on_w (set_pending (S k) ((k, (t, vp, lvps)) :: l));
                mret [JEnter k]
            end
      end
  end.
Definition vh_exit : M (list job) :=
  allowed ← allowedConsensus;
  _ ← when (negb allowed) stopTimers;
  _ ← cancelProcessors;
  mret [].
(** [whenSetAllowConsensus]. *)
Definition vh_whenSetAllowConsensus (t : StateType) (s : States job (World C)) : States job (World C) :=
  if in_state t s then s else go (GAsk true (newSyncingSwitchContextWithVoteproof t None)) s.
End base.
