(* ===== verification/Node.v ===== *)
(** * The state handlers of a node

    The joining, syncing, handover, booting, stopped and broken handler of
    [isaac/states], the jobs of all handlers, and the instance of
    [States.Handlers] they make together, with its laws. *)
From S2P Require Import Prelude Point Vote Slice Ballot Voteproof LastPoint Block Handover States Broadcast Processors Handlers.

Open Scope Z_scope.

Section handlers.
Context `{Crypto, PointBytes, LocalNode, BlockCrypto, HandoverData, ProposalOperations} `{!LRUCache C}.
Variables (xargs : HandoverXBrokerArgs) (yargs : HandoverYBrokerArgs) (broken_Exit : bool).
Abbreviation M := (M (C := C)).

(** ** Joining ([joining.go]) *)
Definition leaveMemberlist : M unit := emit OLeaveMemberlist.
Definition lastManifest : M (option Manifest) := call_out o_LastManifest.

Definition checkSuffrage (height : Z) : M Suffrage :=
  r ← ask (fun o => o_NodeInConsensusNodes o height);
  match r with
  | inl (OId storage_ErrNotFound) => raise_ctx (newSyncingSwitchContext StateJoining height)
  | inl e => raise (to_goerr e)
  | inr (_, false) => _ ← leaveMemberlist; raise_ctx (newSyncingSwitchContext StateJoining height)
  | inr (None, true) => raise_ctx (newBrokenSwitchContext StateJoining (EPlain "empty suffrage"))
  | inr (Some suf, true) => mret suf
  end.
(** The local node is the only one of the suffrage. *)
Definition alone (suf : Suffrage) : bool := Suffrage_Exists suf (node_address local) && (Suffrage_Len suf <? 2).

(** The voteproof to join with: that of the context, or the last one when it is
    of a later point. *)
Definition joining_voteproof (vp lvp : option Voteproof) : option Voteproof :=
  match lvp, vp with
  | None, _ => vp
  | Some l, None => Some l
  | Some l, Some v => if 0 <? Point_Compare (sp_point (vp_point l)) (sp_point (vp_point v)) then Some l else Some v
  end.
(** [joinMemberlist] tries until it has joined or the context is done. *)
Definition jh_enter (c : switchContext) : M (list job) :=
  match c with
  | joiningSwitchContext _ vp =>
      lvps ← lastVoteproofs;
      let vp := joining_voteproof vp (Cap lvps) in
      m ← wrapped lastManifest;
      match m with
      | None => raise (EPlain "last manifest not found")
      | Some m =>
          suf ← wrapped (checkSuffrage (mf_height m));
          _ ← when (negb (alone suf)) (emit OJoinMemberlist);
          mret [JJoining vp m]
      end
  | _ => raise (EWrap (EPlain "expected joiningSwitchContext"))
  end.
(** What [enter] defers. *)
Definition jh_entered (vp : option Voteproof) (m : Manifest) : M unit :=
  _ ← stopTimers;
  match vp with None => mret tt | Some lvp => spawn (JFirstVoteproof lvp m) end.

Definition jh_syncing {A} (vp : Voteproof) : M A := moves_to_syncing StateJoining vp.
Definition jh_checkStuckVoteproof (vp : Voteproof) (m : Manifest) : M bool :=
  if negb (IsStuckVoteproof vp) then mret true
  else
    let expected := wrap_s 64 (mf_height m + 1) in
    if sp_h (vp_point vp) =? expected then c ← newConsensusSwitchContext StateJoining vp; raise_ctx c
    else if expected <? sp_h (vp_point vp) then jh_syncing vp
    else mret false.
(** The previous block of a majority that is not an [INITBallotFact] panics. *)
Definition jh_newINITVoteproof (ivp : Voteproof) (m : Manifest) : M unit :=
  prevblock ← match vp_majority ivp with
              | None => mret None
              | Some (INITBallotFact _ prev _) => mret (Some prev)
              | Some _ => lift Panic
              end;
  let expected := wrap_s 64 (mf_height m + 1) in
  if sp_h (vp_point ivp) <? expected then mret tt
  else if expected <? sp_h (vp_point ivp) then jh_syncing ivp
  else if match prevblock with Some prev => negb (bool_decide (mf_hash m = Some prev)) | None => false end
  then jh_syncing ivp
  else c ← newConsensusSwitchContext StateJoining ivp; raise_ctx c.
Definition jh_newACCEPTVoteproof (avp : Voteproof) (m : Manifest) : M unit :=
  let expected := wrap_s 64 (mf_height m + 1) in
  let h := sp_h (vp_point avp) in
  if h <? expected then mret tt
  else if (expected <? h) || ((h =? expected) && bool_decide (Result avp = VoteResultMajority)) then jh_syncing avp
  else c ← newConsensusSwitchContext StateJoining avp; raise_ctx c.
Definition jh_handleNewVoteproof (vp : Voteproof) : M unit :=
  r ← attempt lastManifest;
  match r with
  | inl e => raise_ctx (newBrokenSwitchContext StateJoining (EWrap e))
  | inr None => jh_syncing vp
  | inr (Some m) =>
      keep ← jh_checkStuckVoteproof vp m;
      if negb keep : bool then mret tt
      else if bool_decide (sp_stage (vp_point vp) = StageINIT)
      then ivp ← lift (as_INITVoteproof vp); jh_newINITVoteproof ivp m
      else if bool_decide (sp_stage (vp_point vp) = StageACCEPT)
      then avp ← lift (as_ACCEPTVoteproof vp); jh_newACCEPTVoteproof avp m
      else raise (EPlain "invalid voteproof received")
  end.
(** Whether consensus is allowed is read once. *)
Definition jh_newVoteproof (vp : Voteproof) : M unit :=
  allowed ← allowedConsensus;
  if negb allowed : bool then jh_syncing vp
  else
    '(_, isnew) ← setNewVoteproof vp;
    if negb isnew : bool then mret tt
    else
      _ ← emit (OResolverCancel (vp_point vp));
      r ← attempt (jh_handleNewVoteproof vp);
      match r with
      | inr _ => if negb allowed then jh_syncing vp else mret tt
      | inl e =>
          match errors_As e with
          | None => raise e
          | Some c =>
              _ ← when (bool_decide (next c = StateConsensus))
                    (_ ← checkSuffrage (Height_SafePrev (sp_h (vp_point vp))); mret tt);
              if negb allowed then jh_syncing vp else raise_ctx c
          end
      end.

(** [firstVoteproof], after the wait. *)
Definition jh_firstVoteproof (lvp : Voteproof) (m : Manifest) : M unit :=
  done ← ask o_ctx; lvps ← lastVoteproofs;
  let newer := match Cap lvps with
               | Some n => 0 <? StagePoint_Compare (vp_point n) (vp_point lvp)
               | None => false
               end in
  if match done with Some _ => true | None => false end || newer then mret tt
  else if negb (is_init_type lvp) && bool_decide (Result lvp = VoteResultMajority) &&
          (sp_h (vp_point lvp) =? mf_height m)
  then spawn (JNextBlock StateJoining lvp)
  else
    r ← attempt (jh_handleNewVoteproof lvp);
    match r with
    | inr _ => mret tt
    | inl e => match errors_As e with Some c => go_switchState c | None => mret tt end
    end.

(** ** Syncing ([syncing.go]) *)
Definition sh_isFinished : M (Z * bool) := ask o_IsFinished.
Definition sh_whenNotAllowedConsensus : M unit :=
  y ← get get_HandoverYBroker; match y with Some _ => mret tt | None => leaveMemberlist end.
(** Whether Y has asked already.  The consensus is allowed at once when X lets it. *)
Definition sh_askHandover : M bool :=
  y ← get get_HandoverYBroker;
  match y with
  | None => mret false
  | Some b =>
      if y_IsAsked b then mret true
      else
        r ← with_y (fun o b => y_Ask (o_Ask o) b);
        match r with
        | Some (inl _) => raise (EPlain "ask")
        | Some (inr (true, true)) => _ ← modify (setAllowConsensus true); mret false
        | _ => mret false
        end
  end.
(** [newStuckWait] cancels the wait there is: a canceled one finds its context
    done. *)
Definition sh_newStuckWait (vp : Voteproof) : M unit := spawn (JStuck vp).
Definition sh_stuckAgain : M unit :=
  done ← ask o_ctx;
  match done with
  | Some _ => mret tt
  | None => lvps ← lastVoteproofs; match Cap lvps with Some lvp => sh_newStuckWait lvp | None => mret tt end
  end.
Definition sh_stuck (vp : Voteproof) : M unit :=
  done ← ask o_ctx;
  _ ← match done with
      | Some (OId ErrDeadlineExceeded) =>
          '(top, finished) ← sh_isFinished; allowed ← allowedConsensus;
          when ((finished || (top <=? sp_h (vp_point vp))) && allowed)
            (go_switchState (joiningSwitchContext StateSyncing (Some vp)))
      | _ => mret tt
      end;
  spawn JStuckAgain.

Definition sh_checkAndJoinMemberlist (height : Z) : M bool :=
  r ← ask (fun o => o_NodeInConsensusNodes o height);
  match r with
  | inl (OId storage_ErrNotFound) => mret false
  | inl e => raise (to_goerr e)
  | inr (None, _) => raise_ctx (newBrokenSwitchContext StateSyncing (EPlain "empty suffrage"))
  | inr (Some suf, found) =>
      if negb found then _ ← leaveMemberlist; mret false
      else if alone suf then mret true
      else
        _ ← emit OJoinMemberlist; r ← attempt (call_out o_JoinMemberlist);
        mret (match r with inl _ => false | inr _ => true end)
  end.
(** Whether nothing is stuck. *)
Definition sh_checkFinishedMoveNext (vp : Voteproof) : M bool :=
  '(top, finished) ← sh_isFinished;
  joined ← (if finished : bool then sh_checkAndJoinMemberlist top else mret true);
  if negb joined : bool then mret true
  else
    let stage := sp_stage (vp_point vp) in
    if sp_h (vp_point vp) =? wrap_s 64 (top + 1) then
      if negb finished then mret true
      else if bool_decide (stage = StageINIT) ||
              (bool_decide (stage = StageACCEPT) && bool_decide (Result vp = VoteResultDraw))
      then c ← newConsensusSwitchContext StateSyncing vp; raise_ctx c
      else mret true
    else if finished && bool_decide (stage = StageACCEPT) && (sp_h (vp_point vp) =? top)
    then _ ← sh_newStuckWait vp; mret false
    else mret true.
Definition sh_checkFinished (vp : option Voteproof) : M bool :=
  match vp with
  | None => mret false
  | Some vp =>
      _ ← emit (OSyncerAdd (syncerHeightWithStagePoint (vp_point vp) (bool_decide (Result vp = VoteResultMajority))));
      '(top, finished) ← sh_isFinished;
      _ ← when finished (_ ← emit (OReachedTop top); spawn (JSyncerSaved top));
      allowed ← allowedConsensus;
      move ← (if allowed : bool then mret true
              else
                _ ← sh_whenNotAllowedConsensus;
                r ← attempt sh_askHandover; allowed ← allowedConsensus;
                mret (match r with inl _ => false | inr asked => asked || allowed end));
      if move : bool then sh_checkFinishedMoveNext vp else mret true
  end.
Definition sh_newVoteproof (vp : Voteproof) : M unit :=
  '(_, isnew) ← setNewVoteproof vp;
  when isnew (_ ← wrapped (sh_checkFinished (Some vp)); mret tt).

(** One turn of [finishing]: the context, an end of the syncer, or a top that is
    reached. *)
Definition sh_finishing : M unit :=
  done ← ask o_ctx; ended ← ask o_syncerDone;
  match done, ended with
  | Some _, _ => mret tt
  | None, Some None => spawn JFinishing
  | None, Some (Some e) =>
      _ ← emit OSyncerCancel; go_switchState (newBrokenSwitchContext StateSyncing (to_goerr e))
  | None, None =>
      lvps ← lastVoteproofs;
      r ← attempt (sh_checkFinished (Cap lvps));
      match r with
      | inr _ => spawn JFinishing
      | inl e => or_switch StateSyncing (raise e)
      end
  end.
Definition sh_enter (f : StateType) (c : switchContext) : M (list job) :=
  match c with
  | SyncingSwitchContext _ h =>
      made ← wrapped (call_out (fun o => o_NewSyncer o h));
      if made : bool then mret [JSyncing f h] else raise (EPlain "empty syncer")
  | _ => raise (EWrap (EPlain "expected SyncingSwitchContext"))
  end.
(** What [enter] defers.  Coming from the consensus state the timers are stopped
    later, for the others to get the last INIT ballot. *)
Definition sh_entered (f : StateType) (h : Z) : M unit :=
  allowed ← allowedConsensus;
  _ ← (if bool_decide (f = StateConsensus) then spawn JStopTimersLater else stopTimers);
  _ ← emit (OSyncerStart h);
  _ ← spawn JFinishing;
  lvps ← lastVoteproofs;
  _ ← match Cap lvps with Some lvp => sh_newStuckWait lvp | None => mret tt end;
  when (negb allowed) sh_whenNotAllowedConsensus.
Definition sh_stopTimersLater : M unit :=
  cur ← get st_cs; when (bool_decide (cur = Some StateSyncing)) stopTimers.
Definition sh_exit : M (list job) :=
  '(_, finished) ← sh_isFinished;
  if negb finished : bool then raise (EId ErrIgnoreSwitchingState)
  else
    _ ← emit OSyncerCancel; _ ← wrapped (call_out o_syncerCancel);
    _ ← stopTimers; mret [].

(** ** Handover ([handover.go]) *)

(** When consensus is allowed after all the lock of this handler is kept for
    good; it has no more voteproofs to handle. *)
Definition hh_enter (c : switchContext) : M (list job) :=
  y ← get get_HandoverYBroker;
  let vp := default None (ctx_voteproof c) in
  match y with
  | None => raise_ctx (newSyncingSwitchContextWithVoteproof StateHandover vp)
  | Some _ =>
      deferred ← vh_enter StateHandover c;
      allowed ← allowedConsensus;
      if allowed : bool then raise_ctx (newSyncingSwitchContextWithVoteproof StateHandover vp) else mret deferred
  end.
Definition stop_y (s : States job (World C)) : States job (World C) := set_y (y_stop <$> st_handoverYBroker s) s.
Definition hh_exit : M (list job) :=
  _ ← vh_exit;
  finished ← get_w w_finishedWithVoteproof;
  _ ← when finished (_ ← modify stop_y; modify (setAllowConsensus true));
  mret [JHandoverExit].
Definition hh_exited : M unit := _ ← modify cleanHandovers; emit OBallotboxCount.

(** ** Booting, broken ([booting.go], [broken.go]) *)
Definition compareManifestWithACCEPTVoteproof (m : Manifest) (avp : Voteproof) : M unit :=
  if negb (mf_height m =? sp_h (vp_point avp)) then raise (EPlain "height does not match")
  else
    newBlock ← proposal_of (ACCEPT_BallotMajority avp) snd;
    same ← lift (Hash_eq (mf_hash m) (Some newBlock));
    if same : bool then mret tt else raise (EPlain "hash does not match").
Definition bh_enter : M (list job) :=
  m ← wrapped lastManifest;
  match m with
  | None => raise_ctx (emptySyncingSwitchContext StateBooting)
  | Some m =>
      lvps ← lastVoteproofs;
      match l_avp lvps with
      | None => raise (EPlain "empty last accept voteproof")
      | Some avp =>
          _ ← wrapped (compareManifestWithACCEPTVoteproof m avp);
          r ← ask (fun o => o_NodeInConsensusNodes o (mf_height m));
          match r with
          | inl (OId storage_ErrNotFound) => raise_ctx (newSyncingSwitchContext StateBooting (mf_height m))
          | inl e => raise (EWrap (to_goerr e))
          | inr (None, _) => raise (EPlain "empty suffrage for last manifest")
          | inr (Some suf, found) =>
              if Suffrage_Len suf <? 1 then raise (EPlain "empty suffrage for last manifest")
              else if negb found then raise_ctx (newSyncingSwitchContext StateBooting (mf_height m))
              else raise_ctx (joiningSwitchContext StateBooting (Some avp))
          end
      end
  end.
Definition kh_enter (c : switchContext) : M (list job) :=
  match c with
  | baseErrorSwitchContext _ _ err =>
      match err with
      | Some e => if errors_Is ErrUnpromising e || broken_Exit then raise (EWrap e) else mret [JBroken]
      | None => if broken_Exit then raise (EPlain "exit") else mret [JBroken]
      end
  | _ => raise (EWrap (EPlain "expected baseErrorSwitchContext"))
  end.
Definition kh_entered : M unit := _ ← leaveMemberlist; stopTimers.

(** ** The jobs *)
Definition run_job (j : job) : M unit :=
  match j with
  | JEnter n => run_entered xargs n
  | JNextRound t vp prev => nextRound t vp prev
  | JNextBlock t avp => nextBlock t avp
  | JVote c bl vp => run_vote c bl vp
  | JSuffrageConfirm t vp =>
      if bool_decide (t = StateHandover) then mret tt else defaultPrepareSuffrageConfirmBallot t vp
  | JWrongACCEPT t ivp => or_switch t (wrongACCEPTBallot t ivp)
  | JProcess t ivp r => or_switch t (run_process t ivp r)
  | JAfterProcess t m avp =>
      _ ← vplock xargs t;
      or_switch t (_ ← handleACCEPTVoteproofAfterProcessingProposal t m avp; mret tt)
  | JBlockSaved t bm avp => whenNewBlockSaved t bm avp
  | JBlockConfirmed avp => whenNewBlockConfirmed avp
  | JSendBallot bl => sendBallotToHandoverY xargs bl
  | JSendStagePoint p => _ ← with_y (fun o b => sendStagePoint yargs p (o_sent o) b); mret tt
  | JSendBlockMap p bm => _ ← with_y (fun o b => sendBlockMap yargs p bm (o_sent o) b); mret tt
  | JHandoverExit => hh_exited
  | JJoining vp m => jh_entered vp m
  | JFirstVoteproof lvp m => jh_firstVoteproof lvp m
  | JSyncing f h => sh_entered f h
  | JStopTimersLater => sh_stopTimersLater
  | JFinishing => sh_finishing
  | JSyncerSaved top => emit (OSynced top)
  | JStuck vp => sh_stuck vp
  | JStuckAgain => sh_stuckAgain
  | JBroken => kh_entered
  end.
(** An error is logged at most. *)
Fixpoint run_jobs (l : list job) (o : Outside) (s : States job (World C)) : res (States job (World C)) :=
  match l with
  | [] => Ok s
  | j :: l => run_job j o s ≫= fun '(s, _) => run_jobs l o s
  end.

(** ** The handlers of a node *)
Definition node_enter (t f : StateType) (c : switchContext) : M (list job) :=
  match t with
  | StateBooting => bh_enter
  | StateJoining => jh_enter c
  | StateConsensus => vh_enter StateConsensus c
  | StateSyncing => sh_enter f c
  | StateHandover => hh_enter c
  | StateBroken => kh_enter c
  | StateStopped | StateEmpty => mret []
  end.
Definition node_exit (t : StateType) : M (list job) :=
  match t with
  | StateConsensus => vh_exit
  | StateSyncing => sh_exit
  | StateHandover => hh_exit
  | _ => mret []
  end.
Definition node_newVoteproof (t : StateType) (finished : bool) (vp : Voteproof) : M unit :=
  let vp := if finished then handoverFinishedVoteporof vp else vp in
  match t with
  | StateConsensus | StateHandover => vh_newVoteproof xargs t finished vp
  | StateJoining => jh_newVoteproof vp
  | StateSyncing => sh_newVoteproof vp
  | _ => mret tt
  end.
Definition node_whenSet (t : StateType) (allow : bool) (s : States job (World C)) : States job (World C) :=
  match t with
  | StateConsensus | StateHandover => vh_whenSetAllowConsensus t s
  | StateJoining => if allow then s else go (GAsk true (emptySyncingSwitchContext StateJoining)) s
  | _ => s
  end.
(** [new] of a handover handler has not finished. *)
Definition node_new (t : StateType) (s : States job (World C)) : States job (World C) :=
  if bool_decide (t = StateHandover) then set_w (set_finished false (st_w s)) s else s.

#[global] Instance node_handlers : Handlers Outside job (World C) := {|
  h_found := fun t => negb (bool_decide (t = StateEmpty));
  h_new := fun t _ s => (node_new t s, None);
  h_enter := node_enter;
  h_exit := fun t _ => node_exit t;
  h_newVoteproof := fun t finished vp o s =>
    node_newVoteproof t finished vp o s ≫= fun '(s, r) => Ok (s, match r with inl e => Some e | inr _ => None end);
  h_isNew := fun vp s => LastVoteproofs_IsNew (h_last (w_lvps (st_w s))) vp;
  h_whenSetAllowConsensus := node_whenSet;
  h_run := run_jobs;
  h_send := o_sends
|}.
End handlers.
