(* ===== verification/NodeLaws.v ===== *)
(** * The handlers of a node keep the laws of the states

    What [States] asks of its handlers, [HandlersLaws], for those of [Node]: a
    call of a handler does not switch by itself, ends handovers only, and fails
    with a switch context only where one is looked for. *)
From S2P Require Import Prelude Point Vote Slice Ballot Voteproof LastPoint Block Handover States Broadcast Processors Handlers Node.

Open Scope Z_scope.

(** ** A logic for [M] *)
Section kept.
Context `{HandoverData, ProposalOperations} {C : Type}.
Abbreviation M := (M (C := C)).

(** The switch contexts among the errors satisfy [P]. *)
Definition fails (P : switchContext -> Prop) {A} (r : goerr + A) : Prop :=
  match r with inl e => forall c, errors_As e = Some c -> P c | inr _ => True end.
Definition kept (P : switchContext -> Prop) {A} (m : M A) : Prop :=
  forall o s, returns (m o s) (fun '(s', r) => keeps s s' /\ fails P r).

Implicit Types P Q : switchContext -> Prop.
Lemma kept_mono P Q {A} (m : M A) : (forall c, P c -> Q c) -> kept P m -> kept Q m.
Proof.
  intros HPQ Hm o s. eapply fine_mono; [apply Hm|]. intros [s' r] [Hk Hf]. split; [done|]. destruct r; simpl in *; auto.
Qed.
Lemma kept_ret P {A} (a : A) : kept P (mret a : M A).
Proof. intros o s. split; [apply keeps_refl|done]. Qed.
Lemma keeps_trans {J W} (s1 s2 s3 : States J W) : keeps s1 s2 -> keeps s2 s3 -> keeps s1 s3.
Proof. intros [E1 H1] [E2 H2]. split; [congruence|by eapply moved_trans]. Qed.
Lemma kept_bind P {A B} (m : M A) (f : A -> M B) : kept P m -> (forall a, kept P (f a)) -> kept P (m ≫= f).
Proof.
  intros Hm Hf o s. unfold mbind, M_bind. eapply fine_bind; [apply Hm|]. intros [s1 [e|a]] [Hk Hr]; [by split|].
  eapply fine_mono; [apply Hf|]. intros [s2 r] [Hk' Hr']. split; [by eapply keeps_trans|done].
Qed.
Lemma kept_try P Q {A B} (m : M A) (f : goerr + A -> M B) :
  kept Q m -> (forall r, fails Q r -> kept P (f r)) -> kept P (attempt m ≫= f).
Proof.
  intros Hm Hf o s. unfold mbind, M_bind, attempt. specialize (Hm o s). unfold mbind, res_bind.
  destruct (m o s) as [[s1 r]|e|]; [|done..]. destruct Hm as [Hk Hr].
  eapply fine_mono; [by apply Hf|]. intros [s2 r'] [Hk' Hr']. split; [by eapply keeps_trans|done].
Qed.
Lemma kept_raise P {A} e : (forall c, errors_As e = Some c -> P c) -> kept P (raise e : M A).
Proof. intros He o s. split; [apply keeps_refl|done]. Qed.
Lemma kept_ctx P {A} c : P c -> kept P (raise_ctx c : M A).
Proof. intros Hc. apply kept_raise. by intros c' [= <-]. Qed.
Lemma kept_wrapped P {A} (m : M A) : kept P m -> kept P (wrapped m).
Proof.
  intros Hm. unfold wrapped. eapply kept_try; [exact Hm|]. intros [e|a] He; [|apply kept_ret].
  apply kept_raise. intros c Hc. by apply He.
Qed.
Lemma kept_lift P {A} (r : res A) : kept P (lift r : M A).
Proof. intros o s. destruct r; simpl; [split; [apply keeps_refl|done]..|done]. Qed.
Lemma kept_ask P {A} (f : Outside -> A) : kept P (ask f : M A).
Proof. intros o s. split; [apply keeps_refl|done]. Qed.
Lemma to_goerr_As e : errors_As (to_goerr e) = None.
Proof. by destruct e. Qed.
Lemma kept_call P {A} (f : Outside -> out A) : kept P (call_out f : M A).
Proof. intros o s. split; [apply keeps_refl|]. destruct (f o); [|done]. intros c. by rewrite to_goerr_As. Qed.
Lemma kept_get P {A} (f : States job (World C) -> A) : kept P (get f : M A).
Proof. intros o s. split; [apply keeps_refl|done]. Qed.
Lemma kept_get_w P {A} (f : World C -> A) : kept P (get_w f : M A).
Proof. apply kept_get. Qed.
Lemma kept_modify P (f : States job (World C) -> States job (World C)) : (forall s, keeps s (f s)) -> kept P (modify f).
Proof. intros Hf o s. by split. Qed.
Lemma kept_w P (f : World C -> World C) : kept P (on_w f).
Proof. apply kept_modify. intros s. repeat split; tauto. Qed.
Lemma kept_emit P x : kept P (emit x : M unit).
Proof. apply kept_w. Qed.
Lemma keeps_spawn (s : States job (World C)) g : go_ok g -> keeps s (go g s).
Proof. intros Hg. split; [done|by apply moved_go]. Qed.
Lemma kept_spawn P j : kept P (spawn j : M unit).
Proof. apply kept_modify. intros s. by apply keeps_spawn. Qed.
Lemma kept_go P c : ctx_ok c -> kept P (go_switchState c : M unit).
Proof. intros Hc. apply kept_modify. intros s. by apply keeps_spawn. Qed.
Lemma kept_when P b (m : M unit) : kept P m -> kept P (when b m).
Proof. intros Hm. destruct b; [done|apply kept_ret]. Qed.
(** An error that is no switch may be the reason of one. *)
Lemma broken_ok t e : errors_As e = None -> ctx_ok (newBrokenSwitchContext t e).
Proof. done. Qed.
Lemma syncing_ok t vp : ctx_ok (newSyncingSwitchContextWithVoteproof t vp).
Proof. done. Qed.
End kept.

(** Takes a handler apart; [kept] lemmas of the parts are hints. *)
Create HintDb kept.
#[export] Hint Resolve kept_ret kept_lift kept_ask kept_call kept_get kept_get_w kept_w kept_emit kept_spawn : kept.
#[export] Hint Extern 1 (ctx_ok _) => done : kept.
Ltac kept1 :=
  match goal with
  | |- kept _ (attempt _ ≫= _) => apply (kept_try _ ctx_ok); [|intros ? ?]
  | |- kept _ (mbind _ (newConsensusSwitchContext _ _)) => solve [eauto 2 with kept nocore]
  | |- kept _ (mbind _ _) => apply kept_bind; [|intros ?]
  | |- kept _ (wrapped _) => apply kept_wrapped
  | |- kept _ (when _ _) => apply kept_when
  | |- kept _ (raise_ctx _) => apply kept_ctx; try done
  | |- kept _ (moves_to_syncing _ _) => apply kept_ctx; try done
  | |- kept _ (go_switchState _) => apply kept_go; try done
  | |- kept _ (raise _) => solve [eauto with kept nocore]
  | |- kept _ (raise _) => apply kept_raise; try (by intros ? [=])
  | |- kept _ (match ?x with _ => _ end) => destruct x
  | |- kept _ (let '_ := ?x in _) => destruct x
  | |- kept _ _ => solve [eauto with kept nocore]
  end.
Ltac kept := intros; repeat kept1.

Section laws.
Context `{Crypto, PointBytes, LocalNode, BlockCrypto, HandoverData, ProposalOperations} `{!LRUCache C}.
Variables (xargs : HandoverXBrokerArgs) (yargs : HandoverYBrokerArgs) (broken_Exit : bool).
Abbreviation M := (M (C := C)).
Implicit Types P : switchContext -> Prop.

Lemma kept_lastVoteproofs P : kept P (lastVoteproofs (C := C)).
Proof. unfold lastVoteproofs. kept. Qed.
Lemma kept_voteproofs P pt : kept P (voteproofs (C := C) pt).
Proof. unfold voteproofs. kept. Qed.
Lemma kept_setNewVoteproof P vp : kept P (setNewVoteproof (C := C) vp).
Proof. unfold setNewVoteproof, setLastVoteproof, lastVoteproofs. kept. Qed.
Lemma kept_allowed P : kept P (allowedConsensus (C := C)).
Proof. unfold allowedConsensus. kept. Qed.
Hint Resolve kept_lastVoteproofs kept_voteproofs kept_setNewVoteproof kept_allowed : kept.

(** *** The brokers *)
Lemma x_good_then_cancel b b1 b2 e1 e2 :
  x_good b b1 e1 -> x_cancel b1 = (b2, e2) -> x_good b b2 (e1 ++ e2).
Proof.
  intros (G1 & G2 & G3). unfold x_cancel. destruct (xb_canceled b1) eqn:E; intros [= <- <-]; unfold x_good; simpl.
  - rewrite app_nil_r, E. auto.
  - auto.
Qed.
Lemma x_good_same b b' b1 effs :
  xb_canceled b1 = xb_canceled b -> xb_isFinished b1 = xb_isFinished b -> x_good b1 b' effs -> x_good b b' effs.
Proof. unfold x_good. by intros -> ->. Qed.
Lemma sendVoteproof_good getp vp sent outs b r :
  sendVoteproof xargs getp vp sent outs b = Ok r -> x_good b r.1.1 r.1.2.
Proof.
  unfold sendVoteproof. destruct (xb_canceled b); [intros [= <-]; apply x_good_refl|].
  destruct (xb_isFinished b); [intros [= <-]; apply x_good_refl|]. intros (pr & _ & Hr)%bind_ok.
  destruct (if is_init_type vp then _ else _) as [er|[|]]; [injection Hr as <-; apply x_good_refl| |].
  - destruct (x_finish _ _ _ _) as [[b1 e1] r1] eqn:E. injection Hr as <-. by eapply x_finish_good.
  - destruct (sendVoteproofErr _ _ _ _ _) as [[b1 e1] r1] eqn:E.
    assert (x_good b b1 e1) as Hg.
    { unfold sendVoteproofErr in E. apply (x_good_same _ _ (x_set_sent vp b)); [done..|].
      destruct (_ || _); by eapply x_SendData_good. }
    destruct r1 as [[]|]; try (destruct (x_cancel b1) as [b2 e2] eqn:E2; injection Hr as <-; by eapply x_good_then_cancel);
      by injection Hr as <-.
Qed.
Lemma vp_proposal_no_err getp vp m : vp_proposal getp vp <> Err m.
Proof.
  unfold vp_proposal, INIT_BallotMajority. destruct (_ && _); [|done].
  destruct (vp_majority vp) as [f|]; [|done]. by destruct (as_INITBallotFact f) as [[]|].
Qed.
Lemma sendVoteproof_no_err getp vp sent outs b m : sendVoteproof xargs getp vp sent outs b <> Err m.
Proof.
  unfold sendVoteproof. destruct (xb_canceled b); [done|]. destruct (xb_isFinished b); [done|].
  pose proof (vp_proposal_no_err getp vp m) as Hn. destruct (vp_proposal getp vp) as [pr|m'|]; run; [|congruence|done].
  destruct (if is_init_type vp then _ else _) as [er|[|]]; [done|by destruct (x_finish _ _ _ _) as [[]]|].
  destruct (sendVoteproofErr _ _ _ _ _) as [[b1 e1] [[]|]]; try done; by destruct (x_cancel b1).
Qed.
Lemma y_send_good msg sent b b' effs r : y_send yargs msg sent b = (b', effs, r) -> y_good b b'.
Proof.
  unfold y_send, y_good. destruct (yb_canceled b) eqn:Eb; [by intros [= <- _ _]|done].
Qed.
Lemma y_Ask_good answer b b' effs r : y_Ask answer b = (b', effs, r) -> y_good b b'.
Proof. unfold y_Ask, y_good. destruct (yb_canceled b) eqn:Eb; [by intros [= <- _ _]|done]. Qed.

Lemma kept_with_x P {A} (f : Outside -> HandoverXBroker -> res (x_result A)) :
  (forall o b r, f o b = Ok r -> x_good b r.1.1 r.1.2) -> (forall o b m, f o b <> Err m) -> kept P (with_x (C := C) f).
Proof.
  intros Hg Hn o s. unfold with_x, get_HandoverXBroker. destruct (st_handoverXBroker s) as [b|] eqn:Eb; [|split; [apply keeps_refl|done]].
  destruct (xb_canceled b); [split; [apply keeps_refl|done]|].
  destruct (f o b) as [r|m|] eqn:Ef; [|by apply Hn in Ef|done]. run.
  pose proof (on_x_moved (fun _ => r) s) as Hm. destruct (on_x (fun _ => r) s) as [s' a] eqn:Eo. split; [|done].
  apply Hm. intros b1 b' effs r' Hb1 ->. rewrite Eb in Hb1. injection Hb1 as <-. exact (Hg _ _ _ Ef).
Qed.
Lemma kept_with_y P {A} (f : Outside -> HandoverYBroker -> y_result A) :
  (forall o b b' effs r, f o b = (b', effs, r) -> y_good b b') -> kept P (with_y (C := C) f).
Proof.
  intros Hg o s. unfold with_y, get_HandoverYBroker. destruct (st_handoverYBroker s) as [b|] eqn:Eb; [|split; [apply keeps_refl|done]].
  destruct (yb_canceled b); [split; [apply keeps_refl|done]|].
  pose proof (on_y_moved (fun _ => f o b) s) as Hm. destruct (on_y (fun _ => f o b) s) as [s' a] eqn:Eo. split; [|done].
  apply Hm. intros b1 b' effs r' Hb1 Hr. rewrite Eb in Hb1. injection Hb1 as <-. by eapply Hg.
Qed.

(** *** Ballots *)
Lemma kept_startTimer P bl : kept P (startTimer (C := C) bl).
Proof. unfold startTimer. kept. Qed.
Lemma kept_stopTimers P : kept P (stopTimers (C := C)).
Proof. unfold stopTimers. kept. Qed.
Lemma kept_pooledBallot P pt st isc k : kept P (pooledBallot (C := C) pt st isc k).
Proof. unfold pooledBallot. kept. Qed.
Hint Resolve kept_startTimer kept_stopTimers kept_pooledBallot : kept.
Lemma kept_sendBallot P bl : kept P (sendBallotToHandoverY (C := C) xargs bl).
Proof.
  unfold sendBallotToHandoverY. kept. apply kept_with_x; [|done].
  intros o b r [= <-]. destruct (x_sendBallot _ _ _ _) as [[b' e] r] eqn:E. by eapply x_SendData_good.
Qed.
Lemma to_goerr_raise e c : errors_As (to_goerr e) = Some c -> False.
Proof. by rewrite to_goerr_As. Qed.
Lemma kept_outside P {A} e : kept P (raise (to_goerr e) : M A).
Proof. apply kept_raise. intros c Hc. by apply to_goerr_raise in Hc. Qed.
Lemma kept_outside_wrapped P {A} e : kept P (raise (EWrap (to_goerr e)) : M A).
Proof. apply kept_raise. intros c Hc. by apply (to_goerr_raise e) in Hc. Qed.
Hint Resolve kept_outside kept_outside_wrapped : kept.
(** No context inside: a function used as an argument of the broken state. *)
Abbreviation none := (fun _ : switchContext => False).
Lemma kept_none P {A} (m : M A) : kept none m -> kept P m.
Proof. apply kept_mono. tauto. Qed.

Lemma kept_vote P bl : kept P (vote (C := C) bl).
Proof. unfold vote. kept. Qed.
Hint Resolve kept_vote : kept.
Lemma none_As e : @fails none unit (inl e) -> errors_As e = None.
Proof. simpl. destruct (errors_As e) as [c|]; [|done]. intros Hc. by destruct (Hc c). Qed.
Lemma go_broken_kept P t e : @fails none unit (inl e) -> kept P (go_switchState (newBrokenSwitchContext t e) : M unit).
Proof. intros He. apply kept_go, broken_ok. by apply none_As. Qed.
Lemma kept_run_vote P b bl vp : kept P (run_vote (C := C) b bl vp).
Proof.
  unfold run_vote. eapply kept_try; [apply (kept_vote none)|]. intros [e|v] Hr; [|kept].
  destruct (_ && _); [kept|]. destruct (errors_Is _ _); [kept|]. by apply go_broken_kept.
Qed.
Hint Resolve kept_run_vote kept_sendBallot : kept.
Lemma kept_localIsInConsensusNodes h : kept ctx_ok (localIsInConsensusNodes (C := C) h).
Proof. unfold localIsInConsensusNodes. kept. Qed.
Lemma kept_makeINITBallot P pt prev vp suf : kept P (makeINITBallot (C := C) pt prev vp suf).
Proof. unfold makeINITBallot, findExpels, newINITBallotFactFunc. kept. Qed.
Hint Resolve kept_makeINITBallot : kept.
Lemma kept_prepareINITBallot P f vp : kept none f -> kept P (prepareINITBallot (C := C) f vp).
Proof.
  intros Hf. unfold prepareINITBallot. eapply kept_try; [exact Hf|]. intros [e|bl] Hr; [|kept].
  apply kept_when. by apply go_broken_kept.
Qed.
Lemma kept_nextBlockBallot P avp suf : kept P (defaultPrepareNextBlockBallot (C := C) avp suf).
Proof. apply kept_prepareINITBallot. unfold makeNextBlockBallot. kept. Qed.
Lemma kept_nextRoundBallot P vp prev suf : kept P (defaultPrepareNextRoundBallot (C := C) vp prev suf).
Proof. apply kept_prepareINITBallot. unfold makeNextRoundBallot. kept. Qed.
Lemma kept_makeACCEPTBallot P ivp nb f : kept P (makeACCEPTBallot (C := C) ivp nb f).
Proof. unfold makeACCEPTBallot. kept. Qed.
Hint Resolve kept_nextBlockBallot kept_nextRoundBallot kept_makeACCEPTBallot : kept.
Lemma kept_prepareACCEPT P t ivp nb f : kept P (prepareACCEPTBallot (C := C) t ivp nb f).
Proof. unfold prepareACCEPTBallot, defaultPrepareACCEPTBallot. kept. Qed.
Hint Resolve kept_prepareACCEPT : kept.
Lemma kept_prepareSuffrageConfirm P t vp : kept P (defaultPrepareSuffrageConfirmBallot (C := C) t vp).
Proof.
  unfold defaultPrepareSuffrageConfirmBallot. destruct (negb _); [kept|].
  eapply (kept_try _ none); [|intros [e|bl] Hr; kept].
  unfold makeSuffrageConfirmBallot. apply kept_bind; [kept|]. intros [bl|]; [kept|].
  destruct (vp_majority vp) as [[]|]; try by kept.
  eapply (kept_try _ none); [kept|]. intros [e|sf] Hr; [|kept]. apply kept_bind.
  - apply kept_go. simpl. simpl in Hr. destruct (errors_As e) as [c|]; [|done]. by destruct (Hr c).
  - intros _. apply kept_raise. exact Hr.
Qed.

(** *** Goroutines that switch *)
Lemma go_error P t e : @fails ctx_ok unit (inl e) ->
  kept P (go_switchState (match errors_As e with Some c => c | None => newBrokenSwitchContext t e end) : M unit).
Proof. intros He. apply kept_go. simpl in He. destruct (errors_As e) as [c|] eqn:Ea; [by apply He|exact Ea]. Qed.
Lemma kept_or_switch P t (m : M unit) : kept ctx_ok m -> kept P (or_switch t m).
Proof. intros Hm. unfold or_switch. eapply kept_try; [exact Hm|]. intros [e|u] Hr; [|kept]. by apply go_error. Qed.
Lemma kept_suffrageOrSwitch P t h : kept P (suffrageOrSwitch (C := C) t h).
Proof.
  unfold suffrageOrSwitch. eapply kept_try; [apply kept_localIsInConsensusNodes|]. intros [e|suf] Hr; [|kept].
  simpl in Hr. destruct (errors_As e) as [c|] eqn:Ea; (apply kept_bind; [apply kept_go; simpl; auto|kept]).
Qed.
Hint Resolve kept_suffrageOrSwitch : kept.
Lemma kept_nextRound P t vp prev : kept P (nextRound (C := C) t vp prev).
Proof. unfold nextRound. kept. Qed.
Lemma kept_nextBlock P t avp : kept P (nextBlock (C := C) t avp).
Proof. unfold nextBlock. kept. Qed.
Hint Resolve kept_nextRound kept_nextBlock kept_prepareSuffrageConfirm : kept.

(** *** Blocks and proposals *)
Lemma kept_proposal_of P r f : kept P (proposal_of (C := C) r f).
Proof. unfold proposal_of. kept. Qed.
Lemma kept_cancelProcessors P : kept P (cancelProcessors (C := C)).
Proof. unfold cancelProcessors. kept. Qed.
Hint Resolve kept_proposal_of kept_cancelProcessors : kept.
Lemma pp_Save_As written avp p p' e : pp_Save written avp p = Ok (p', inl e) -> errors_As e = None.
Proof.
  unfold pp_Save. destruct (pp_issaved p); [by intros [= _ <-]|]. destruct (pp_canceled p); [by intros [= _ <-]|].
  intros (r & Hr & E)%bind_ok. injection E as _ ->. unfold pp_save in Hr.
  destruct (pp_manifest p) as [m|]; [|by injection Hr as <-].
  apply bind_ok in Hr as ([[q nb]|] & _ & Hr); [|done]. apply bind_ok in Hr as (same & _ & Hr).
  destruct same; simpl in Hr; [|by injection Hr as <-]. destruct written; [|done]. injection Hr as <-. apply to_goerr_As.
Qed.
Lemma pps_Save_As written fh avp s s' e : pps_Save written fh avp s = Ok (s', inl e) -> errors_As e = None.
Proof.
  unfold pps_Save. intros ([s1 r] & Hs & E)%bind_ok. destruct r as [e1|bm]; [|done]. injection E as _ <-. simpl.
  unfold pps_save in Hs. destruct (_ <=? _); [by injection Hs as _ <-|].
  destruct (pps_p s) as [p|]; [|by injection Hs as _ <-]. destruct (negb _); [by injection Hs as _ <-|].
  apply bind_ok in Hs as ([p1 r1] & Hp & Hs). destruct r1 as [e2|bm]; [|done]. injection Hs as _ <-.
  destruct (errors_Is _ e2); [done|]. by eapply pp_Save_As.
Qed.
Lemma Retry_As {A} n (f : nat -> outside_error + out A) lerr e : Retry n f lerr = inl e -> errors_As e = None.
Proof.
  revert f lerr. induction n as [|n IH]; intros f lerr; simpl.
  - destruct lerr as [er|]; intros [= <-]; [apply to_goerr_As|done].
  - destruct (f O) as [er|[er|a]]; [intros [= <-]; apply to_goerr_As|apply IH|done].
Qed.
Lemma pps_Process_As a fh prev ivp s s' e : pps_Process a fh prev ivp s = (s', inl e) -> errors_As e = None.
Proof.
  unfold pps_Process. destruct (newProcessor _ _ _ _) as [s1 r] eqn:En. destruct r as [e1|[p|]]; [|by destruct (runProcessor _ _ _)|done].
  intros [= _ <-]. simpl. unfold newProcessor in En. destruct (match pps_p s with Some _ => _ | None => _ end); [done|].
  destruct (Retry _ (pn_getproposal a) _) as [e2|[pr|]]; [by injection En as _ <-| |by injection En as _ <-].
  destruct (Retry _ (pn_makenew a) _) as [e2|u] eqn:Er; [|done]. injection En as _ <-. simpl. by eapply Retry_As.
Qed.

(** An action that may fail, after a pure step that says how. *)
Lemma kept_lift_bind P {A B} (r : res A) (f : A -> M B) :
  (forall a, r = Ok a -> kept P (f a)) -> kept P (lift r ≫= f).
Proof.
  intros Hf o s. unfold mbind, M_bind, lift. destruct r as [a|m|]; simpl; [by apply Hf|by split; [apply keeps_refl|]|done].
Qed.
Lemma kept_saveBlock t avp : kept ctx_ok (saveBlock (C := C) t avp).
Proof.
  unfold saveBlock. do 3 (apply kept_bind; [kept|intros ?]). apply kept_lift_bind. intros [p r] Hr.
  apply kept_bind; [kept|]. intros _. destruct r as [e|bm]; [|kept].
  destruct (errors_Is _ e); [kept|]. destruct (errors_Is _ e); [kept|]. apply kept_ctx, broken_ok. by eapply pps_Save_As.
Qed.
Hint Resolve kept_saveBlock : kept.
Lemma kept_whenNewBlockSaved P t bm avp : kept P (whenNewBlockSaved (C := C) t bm avp).
Proof. unfold whenNewBlockSaved. kept. Qed.
Lemma kept_whenNewBlockConfirmed P avp : kept P (whenNewBlockConfirmed (C := C) avp).
Proof. unfold whenNewBlockConfirmed. kept. Qed.
Lemma kept_wrongACCEPT P t ivp : kept P (wrongACCEPTBallot (C := C) t ivp).
Proof. unfold wrongACCEPTBallot. kept. Qed.
Hint Resolve kept_wrongACCEPT : kept.
Lemma kept_handleACCEPT t m avp : kept ctx_ok (handleACCEPTVoteproofAfterProcessingProposal (C := C) t m avp).
Proof.
  unfold handleACCEPTVoteproofAfterProcessingProposal. destruct (negb _); [kept|]. do 2 (apply kept_bind; [kept|intros ?]).
  destruct (negb _); [kept|]. eapply kept_try; [apply kept_saveBlock|]. intros [e|saved] Hr; [|kept].
  simpl in Hr. destruct (errors_As e) as [c|] eqn:Ea; apply kept_ctx; simpl; auto.
Qed.
Lemma kept_run_process t ivp r : kept ctx_ok (run_process (C := C) t ivp r).
Proof.
  unfold run_process. apply kept_bind; [kept|]. intros d.
  destruct (match d with Some _ => _ | None => _ end) as [e|[m|]]; [|kept|kept]. kept.
Qed.
Lemma kept_processProposal t ivp : kept ctx_ok (processProposal (C := C) t ivp).
Proof.
  unfold processProposal. eapply (kept_try _ none).
  - unfold processProposalInternal. do 4 (apply kept_bind; [kept|intros ?]).
    destruct (pps_Process _ _ _ _ _) as [p r] eqn:Ep. apply kept_bind; [kept|]. intros _. destruct r as [e|r]; [|kept].
    apply kept_raise. intros c. simpl. by rewrite (pps_Process_As _ _ _ _ _ _ _ Ep).
  - intros [e|[r|]] Hr; [|kept|kept]. destruct (_ || _); [kept|]. apply kept_ctx, broken_ok. simpl. by apply none_As.
Qed.
Hint Resolve kept_processProposal : kept.

(** *** Voteproofs *)

(** What the value of a call is like. *)
Definition gives {A} (V : A -> Prop) (m : M A) : Prop := forall o s s' a, m o s = Ok (s', inr a) -> V a.
Lemma gives_ret {A} (V : A -> Prop) a : V a -> gives V (mret a).
Proof. by intros HV o s s' a' [= _ <-]. Qed.
Lemma gives_bind {A B} (V : B -> Prop) (m : M A) f : (forall a, gives V (f a)) -> gives V (m ≫= f).
Proof.
  intros Hf o s s' b. unfold mbind, M_bind. intros ([s1 [e|a]] & _ & Hb)%bind_ok; [done|]. by eapply Hf.
Qed.
Lemma gives_raise {A} (V : A -> Prop) e : gives V (raise e).
Proof. done. Qed.
Lemma kept_bind_gives P {A B} (V : A -> Prop) (m : M A) (f : A -> M B) :
  kept P m -> gives V m -> (forall a, V a -> kept P (f a)) -> kept P (m ≫= f).
Proof.
  intros Hm HV Hf o s. unfold mbind, M_bind. specialize (Hm o s). specialize (HV o s). unfold mbind, res_bind.
  destruct (m o s) as [[s1 [e|a]]|er|]; [exact Hm| |done..]. destruct Hm as [Hk _].
  eapply fine_mono; [by apply Hf, (HV s1)|]. intros [s2 r] [Hk' Hr']. split; [by eapply keeps_trans|done].
Qed.

Lemma newConsensus_gives f vp : gives ctx_ok (newConsensusSwitchContext (C := C) f vp).
Proof. unfold newConsensusSwitchContext. destruct (_ && _); [apply gives_raise|by apply gives_ret]. Qed.
Lemma kept_consensusCtx (P : switchContext -> Prop) {A} f vp :
  (forall c, ctx_ok c -> next c = StateConsensus -> from c = f -> P c) ->
  kept P (c ← newConsensusSwitchContext (C := C) f vp; raise_ctx c : M A).
Proof.
  intros HP. eapply (kept_bind_gives _ (fun c => c = consensusSwitchContext f vp)).
  - unfold newConsensusSwitchContext. kept.
  - unfold newConsensusSwitchContext. destruct (_ && _); [apply gives_raise|by apply gives_ret].
  - intros c ->. apply kept_ctx. by apply HP.
Qed.
Lemma kept_joining_consensus {A} f vp : kept ctx_ok (c ← newConsensusSwitchContext (C := C) f vp; raise_ctx c : M A).
Proof. by apply kept_consensusCtx. Qed.
Hint Resolve kept_joining_consensus : kept.
Lemma kept_check_in_state t vp : kept ctx_ok (check_in_state (C := C) t vp).
Proof.
  unfold check_in_state. eapply (kept_bind_gives _ (fun c => forall x, c = Some x -> ctx_ok x)).
  - unfold checkInState. kept.
  - unfold checkInState. apply gives_bind. intros [|]; apply gives_ret; [done|by intros x [= <-]].
  - intros [c|] Hc; [apply kept_ctx; by apply Hc|kept].
Qed.
Lemma kept_handoverIsReady P ivp lvps : kept P (handoverIsReadyConsensusWithVoteproof (C := C) ivp lvps).
Proof. unfold handoverIsReadyConsensusWithVoteproof, follows_accept. kept. Qed.
Lemma handoverIsReady_gives ivp lvps :
  gives (fun c => forall x, c = Some x -> ctx_ok x) (handoverIsReadyConsensusWithVoteproof (C := C) ivp lvps).
Proof.
  unfold handoverIsReadyConsensusWithVoteproof.
  repeat (match goal with |- gives _ (match ?x with _ => _ end) => destruct x
          | |- gives _ (_ ≫= _) => apply gives_bind; intros [|] end);
    by apply gives_ret; intros x [= <-].
Qed.
Lemma kept_whenNewVoteproof t finished vp lvps : kept ctx_ok (whenNewVoteproof (C := C) xargs t finished vp lvps).
Proof.
  unfold whenNewVoteproof. destruct (bool_decide _).
  - unfold handover_whenNewVoteproof. apply kept_bind; [kept|]. intros [|]; [kept|].
    apply kept_bind; [kept|]. intros [y|]; [|kept]. destruct finished; [|kept].
    apply kept_bind; [kept|]. intros _. eapply kept_bind_gives; [apply kept_handoverIsReady|apply handoverIsReady_gives|].
    intros [c|] Hc; [apply kept_ctx; by apply Hc|kept].
  - unfold consensus_whenNewVoteproof. apply kept_bind; [|kept].
    apply kept_with_x; [intros o b r Hr; by eapply sendVoteproof_good|intros o b m; apply sendVoteproof_no_err].
Qed.
Hint Resolve kept_check_in_state kept_whenNewVoteproof : kept.

Lemma kept_checkSuffrageVoting P t ivp : kept P (checkSuffrageVoting (C := C) t ivp).
Proof. unfold checkSuffrageVoting. kept. Qed.
Lemma kept_go_nextRound P t vp lvps : kept P (go_nextRound (C := C) t vp lvps).
Proof. unfold go_nextRound. kept. Qed.
Lemma kept_cap P lvps : kept P (cap (C := C) lvps).
Proof. unfold cap. kept. Qed.
Hint Resolve kept_checkSuffrageVoting kept_go_nextRound kept_cap : kept.
Lemma kept_checkStuck t vp lvps : kept ctx_ok (checkStuckVoteproof (C := C) t vp lvps).
Proof. unfold checkStuckVoteproof. kept. Qed.
Lemma kept_newINIT t ivp lvps : kept ctx_ok (newINITVoteproof (C := C) t ivp lvps).
Proof.
  unfold newINITVoteproof, newINITVoteproofWithLastINITVoteproof, newINITVoteproofWithLastACCEPTVoteproof, confirm_and_process. kept.
Qed.
Lemma kept_newACCEPT t avp lvps : kept ctx_ok (newACCEPTVoteproof (C := C) t avp lvps).
Proof.
  unfold newACCEPTVoteproof, newACCEPTVoteproofWithLastINITVoteproof, newACCEPTVoteproofWithLastACCEPTVoteproof. kept.
Qed.
Hint Resolve kept_checkStuck kept_newINIT kept_newACCEPT : kept.
Lemma kept_newVoteproofWithLVPS t finished vp lvps : kept ctx_ok (newVoteproofWithLVPS (C := C) xargs t finished vp lvps).
Proof. unfold newVoteproofWithLVPS. kept. Qed.
Hint Resolve kept_newVoteproofWithLVPS : kept.
Lemma kept_handleNewVoteproof t finished vp : kept ctx_ok (vh_handleNewVoteproof (C := C) xargs t finished vp).
Proof. unfold vh_handleNewVoteproof. kept. Qed.
Hint Resolve kept_handleNewVoteproof kept_or_switch : kept.
Lemma kept_run_entered P n : kept P (run_entered (C := C) xargs n).
Proof.
  unfold run_entered. apply kept_bind; [kept|]. intros l. destruct (list_find _ _) as [[i [k [[t vp] lvps]]]|]; [|kept].
  do 2 (apply kept_bind; [kept|intros ?]). unfold enterWithNewVoteproof.
  eapply kept_try; [apply kept_newVoteproofWithLVPS|]. intros [e|u] Hr; [|kept].
  apply kept_or_switch, kept_raise. exact Hr.
Qed.
Hint Resolve kept_run_entered : kept.
Lemma kept_vplock P t : kept P (vplock (C := C) xargs t).
Proof. unfold vplock. kept. Qed.
Hint Resolve kept_vplock : kept.
Lemma kept_vh_newVoteproof t finished vp : kept ctx_ok (vh_newVoteproof (C := C) xargs t finished vp).
Proof. unfold vh_newVoteproof. kept. Qed.
(** A context returned by [enter] is from the state that is entered. *)
Definition entered (t : StateType) (c : switchContext) : Prop := from c = t /\ ctx_ok c.
Lemma kept_vh_enter t c : kept (entered t) (vh_enter (C := C) t c).
Proof. unfold vh_enter. kept. Qed.
Lemma kept_vh_exit P : kept P (vh_exit (C := C)).
Proof. unfold vh_exit. kept. Qed.
Hint Resolve kept_vh_enter kept_vh_exit : kept.

(** *** Joining *)
Lemma kept_lastManifest P : kept P (lastManifest (C := C)).
Proof. unfold lastManifest. kept. Qed.
Lemma kept_leaveMemberlist P : kept P (leaveMemberlist (C := C)).
Proof. unfold leaveMemberlist. kept. Qed.
Lemma kept_isFinished P : kept P (sh_isFinished (C := C)).
Proof. unfold sh_isFinished. kept. Qed.
Hint Resolve kept_lastManifest kept_leaveMemberlist kept_isFinished : kept.
Lemma kept_checkSuffrage h : kept (entered StateJoining) (checkSuffrage (C := C) h).
Proof. unfold checkSuffrage. kept. Qed.
Lemma kept_jh_enter c : kept (entered StateJoining) (jh_enter (C := C) c).
Proof. pose proof kept_checkSuffrage. unfold jh_enter. kept. Qed.
Lemma kept_jh_handle vp : kept ctx_ok (jh_handleNewVoteproof (C := C) vp).
Proof.
  unfold jh_handleNewVoteproof. eapply (kept_try _ none); [kept|]. intros [e|m] Hr; [apply kept_ctx, broken_ok; by apply none_As|].
  unfold jh_checkStuckVoteproof, jh_newINITVoteproof, jh_newACCEPTVoteproof, jh_syncing. kept.
Qed.
Hint Resolve kept_jh_handle : kept.
Lemma entered_ok t {A} (m : M A) : kept (entered t) m -> kept ctx_ok m.
Proof. apply kept_mono. by intros c [_ Hc]. Qed.
Lemma kept_jh_newVoteproof vp : kept ctx_ok (jh_newVoteproof (C := C) vp).
Proof.
  unfold jh_newVoteproof, jh_syncing. apply kept_bind; [kept|]. intros a. destruct (negb a); [kept|].
  apply kept_bind; [kept|]. intros [_ []]; simpl; [|kept]. apply kept_bind; [kept|intros _].
  eapply kept_try; [apply kept_jh_handle|]. intros [e|u] Hr; [|kept]. simpl in Hr.
  destruct (errors_As e) as [c|] eqn:Ea; [|by apply kept_raise; intros c'; rewrite Ea].
  apply kept_bind; [apply kept_when, kept_bind; [apply (entered_ok StateJoining), kept_checkSuffrage|kept]|intros _].
  by apply kept_ctx, Hr.
Qed.
Lemma kept_jh_first P lvp m : kept P (jh_firstVoteproof (C := C) lvp m).
Proof.
  unfold jh_firstVoteproof. do 2 (apply kept_bind; [kept|intros ?]). destruct (_ || _); [kept|]. destruct (_ && _); [kept|].
  eapply kept_try; [apply kept_jh_handle|]. intros [e|u] Hr; [|kept]. simpl in Hr.
  destruct (errors_As e) as [c|]; [|kept]. by apply kept_go, Hr.
Qed.
Lemma kept_jh_entered P vp m : kept P (jh_entered (C := C) vp m).
Proof. unfold jh_entered. kept. Qed.

(** *** Syncing *)
Lemma kept_setAllow P (b : bool) : b = true -> kept P (modify (setAllowConsensus b) : M unit).
Proof. intros ->. apply kept_modify. intros s. by repeat split. Qed.
Lemma kept_sh_askHandover P : kept P (sh_askHandover (C := C)).
Proof.
  unfold sh_askHandover. apply kept_bind; [kept|]. intros [y|]; [|kept]. destruct (y_IsAsked y); [kept|].
  apply kept_bind; [apply kept_with_y; intros o b b' effs r; apply y_Ask_good|].
  intros [[e|[[] []]]|]; kept. by apply kept_setAllow.
Qed.
Hint Resolve kept_sh_askHandover : kept.
Lemma kept_sh_checkFinished vp : kept ctx_ok (sh_checkFinished (C := C) vp).
Proof.
  unfold sh_checkFinished, sh_checkFinishedMoveNext, sh_whenNotAllowedConsensus, sh_newStuckWait.
  unfold sh_checkAndJoinMemberlist. kept.
Qed.
Hint Resolve kept_sh_checkFinished : kept.
Lemma kept_sh_newVoteproof vp : kept ctx_ok (sh_newVoteproof (C := C) vp).
Proof. unfold sh_newVoteproof. kept. Qed.
Lemma kept_sh_finishing P : kept P (sh_finishing (C := C)).
Proof.
  unfold sh_finishing. do 2 (apply kept_bind; [kept|intros ?]). destruct a; [kept|]. destruct a0 as [[e|]|]; [|kept|].
  - apply kept_bind; [kept|]. intros _. apply kept_go, broken_ok, to_goerr_As.
  - apply kept_bind; [kept|]. intros lvps. eapply kept_try; [apply kept_sh_checkFinished|]. intros [e|u] Hr; [|kept].
    apply kept_or_switch, kept_raise, Hr.
Qed.
Lemma kept_sh_enter f c : kept (entered StateSyncing) (sh_enter (C := C) f c).
Proof. unfold sh_enter. kept. Qed.
Lemma kept_sh_stuck P vp : kept P (sh_stuck (C := C) vp).
Proof. unfold sh_stuck. kept. Qed.
Lemma kept_sh_stuckAgain P : kept P (sh_stuckAgain (C := C)).
Proof. unfold sh_stuckAgain, sh_newStuckWait. kept. Qed.
Lemma kept_sh_entered P f h : kept P (sh_entered (C := C) f h).
Proof. unfold sh_entered, sh_newStuckWait, sh_whenNotAllowedConsensus. kept. Qed.
Lemma kept_sh_exit P : kept P (sh_exit (C := C)).
Proof. unfold sh_exit. kept. Qed.

(** *** Handover, booting, broken *)
Lemma kept_hh_enter c : kept (entered StateHandover) (hh_enter (C := C) c).
Proof. unfold hh_enter. kept. Qed.
Lemma stop_y_keeps (s : States job (World C)) : keeps s (stop_y s).
Proof.
  repeat split; try tauto. unfold y_live, get_HandoverYBroker, stop_y, set_y; simpl.
  by destruct (st_handoverYBroker s).
Qed.
Lemma kept_hh_exit P : kept P (hh_exit (C := C)).
Proof. unfold hh_exit. kept; [apply kept_modify, stop_y_keeps|by apply kept_setAllow]. Qed.
Lemma kept_hh_exited P : kept P (hh_exited (C := C)).
Proof. unfold hh_exited. kept. apply kept_modify, cleanHandovers_moved. Qed.
Lemma kept_bh_enter : kept (entered StateBooting) (bh_enter (C := C)).
Proof. unfold bh_enter, compareManifestWithACCEPTVoteproof. kept. Qed.
Lemma kept_kh_enter c :
  kept (fun c' => exists g n er, c = baseErrorSwitchContext g n (Some er) /\ errors_As er = Some c') (kh_enter (C := C) broken_Exit c).
Proof.
  unfold kh_enter. destruct c as [| | | | |g n err]; try by kept. destruct err as [er|]; [|kept].
  destruct (_ || _); [|kept]. apply kept_raise. intros c Hc. eauto 6.
Qed.
Lemma kept_kh_entered P : kept P (kh_entered (C := C)).
Proof. unfold kh_entered. kept. Qed.

(** *** All of them *)
Hint Resolve kept_jh_first kept_jh_entered kept_sh_stuck kept_sh_stuckAgain kept_sh_entered kept_sh_finishing
  kept_hh_exited kept_kh_entered kept_run_process kept_handleACCEPT kept_whenNewBlockSaved kept_whenNewBlockConfirmed : kept.
Lemma kept_run_job P j : kept P (run_job xargs yargs (C := C) j).
Proof.
  assert (forall (f : Outside -> HandoverYBroker -> y_result unit),
    (forall o b b' effs r, f o b = (b', effs, r) -> y_good b b') ->
    kept P (_ ← with_y (C := C) f; mret tt)) as Hy.
  { intros f Hf. apply kept_bind; [by apply kept_with_y|kept]. }
  destruct j; simpl; try by kept.
  - kept. apply kept_or_switch. kept.
  - apply Hy. intros o b b' effs r. apply y_send_good.
  - apply Hy. intros o b b' effs r. apply y_send_good.
  - unfold sh_stopTimersLater. kept.
Qed.
Lemma run_jobs_keeps l o s : returns (run_jobs xargs yargs (C := C) l o s) (keeps s).
Proof.
  revert s. induction l as [|j l IH]; intros s; simpl; [apply keeps_refl|].
  eapply fine_bind; [apply (kept_run_job none)|]. intros [s1 r] [Hk _].
  eapply fine_mono; [apply IH|]. intros s2. by apply keeps_trans.
Qed.
Lemma node_enter_comes_from t f c :
  kept (comes_from t c) (node_enter (C := C) broken_Exit t f c).
Proof.
  assert (forall u, u <> StateBroken -> forall c', entered u c' -> comes_from u c c') as He.
  { intros u Hu c' [Hf Hc]. split; [done|]. by intros ->. }
  destruct t; simpl; try (eapply kept_mono; [by apply He|]); auto using kept_bh_enter, kept_jh_enter, kept_vh_enter, kept_sh_enter, kept_hh_enter; try by kept.
  eapply kept_mono; [|apply kept_kh_enter]. intros c' Hc. split; [done|by intros _].
Qed.
Lemma kept_node_exit P t : kept P (node_exit (C := C) t).
Proof. destruct t; simpl; auto using kept_sh_exit, kept_hh_exit, kept_vh_exit; kept. Qed.
Lemma kept_node_newVoteproof t finished vp : kept ctx_ok (node_newVoteproof (C := C) xargs t finished vp).
Proof.
  unfold node_newVoteproof. destruct t; auto using kept_vh_newVoteproof, kept_jh_newVoteproof, kept_sh_newVoteproof; kept.
Qed.
Lemma node_whenSet_keeps t allow (s : States job (World C)) : keeps s (node_whenSet t allow s).
Proof.
  unfold node_whenSet, vh_whenSetAllowConsensus. destruct t; try apply keeps_refl.
  all: repeat case_match; try apply keeps_refl; by apply keeps_spawn.
Qed.
Lemma node_new_keeps t (s : States job (World C)) : keeps s (node_new t s).
Proof. unfold node_new. destruct (bool_decide _); [by repeat split|apply keeps_refl]. Qed.

(** The handlers of a node are as the states want them. *)
#[export] Instance node_laws :
  @HandlersLaws Outside job (World C) (node_handlers xargs yargs broken_Exit).
Proof.
  split.
  - intros t e s. split; [done|]. apply node_new_keeps.
  - intros t c e s. eapply fine_mono; [apply (kept_node_exit none)|]. intros [s' r] [Hk Hr]. split; [done|].
    intros err ->. by apply none_As.
  - intros t f c e s. eapply fine_mono; [apply node_enter_comes_from|]. intros [s' r] [Hk Hr]. split; [done|].
    intros err c' ->. apply Hr.
  - intros t b vp e s. simpl. eapply fine_bind; [apply kept_node_newVoteproof|]. intros [s' r] [Hk Hr]. split; [done|].
    intros err c'. destruct r; [intros [= ->]; apply Hr|done].
  - intros t b s. apply node_whenSet_keeps.
  - intros l e s. apply run_jobs_keeps.
Qed.
End laws.
