(* ===== verification/NodeSafety.v ===== *)
(** * A node does not contradict itself

    What the handlers of [Node] keep ([World]) is changed by the handlers only,
    whatever happens to the states of the node.  The ballots a node broadcasts are
    the case: in a run of the states with their timers and the mimic ballots, a
    node never sends two different ballots for one stage point and kind.

    A job of a handler is one step here, so that nothing happens between the
    lookup of a ballot in the pool and the start of its timer. *)
From S2P Require Import Prelude Point Vote Slice Ballot Voteproof LastPoint Batch Block Handover States Broadcast Processors Handlers Node.

Open Scope Z_scope.

(** ** What holds after a call that returns *)
Definition leads {A} (r : res A) (P : A -> Prop) : Prop := match r with Ok a => P a | _ => True end.
Lemma leads_bind {A B} (m : res A) (f : A -> res B) P Q :
  leads m P -> (forall a, P a -> leads (f a) Q) -> leads (m ≫= f) Q.
Proof. destruct m; simpl; auto. Qed.
Lemma leads_mono {A} (r : res A) (P Q : A -> Prop) : leads r P -> (forall a, P a -> Q a) -> leads r Q.
Proof. destruct r; simpl; auto. Qed.

(** ** The states leave the world to the handlers *)
Class KeptWorld `{Handlers E J W} (I : W -> Prop) := {
  kw_new t e (s : States J W) : I (st_w s) -> I (st_w (h_new t e s).1);
  kw_enter t f c e (s : States J W) : I (st_w s) -> leads (h_enter t f c e s) (fun '(s', _) => I (st_w s'));
  kw_exit t c e (s : States J W) : I (st_w s) -> leads (h_exit t c e s) (fun '(s', _) => I (st_w s'));
  kw_newVoteproof t b vp e (s : States J W) : I (st_w s) -> leads (h_newVoteproof t b vp e s) (fun '(s', _) => I (st_w s'));
  kw_whenSet t b (s : States J W) : I (st_w s) -> I (st_w (h_whenSetAllowConsensus t b s));
  kw_run l e (s : States J W) : I (st_w s) -> leads (h_run l e s) (fun s' => I (st_w s'))
}.

Section states.
Context `{Crypto, BlockCrypto, HandoverData} {E J W : Type} `{!Handlers E J W}.
Implicit Types (s : States J W) (c : switchContext) (e : E).

Lemma x_effects_w id effs s : st_w (foldl (fun s eff => x_effect id eff s) s effs) = st_w s.
Proof.
  revert s. induction effs as [|eff effs IH]; intros s; [done|]. simpl. rewrite IH.
  destruct eff; try done. simpl. by destruct (st_cs s).
Qed.
Lemma y_effects_w effs s : st_w (foldl (fun s eff => y_effect eff s) s effs) = st_w s.
Proof.
  revert s. induction effs as [|eff effs IH]; intros s; [done|]. simpl. rewrite IH.
  destruct eff; try done; simpl; by destruct (st_cs s), vp.
Qed.
Lemma on_x_w {A} (f : HandoverXBroker -> x_result A) s : st_w (on_x f s).1 = st_w s.
Proof. unfold on_x. destruct (st_handoverXBroker s) as [b|]; [|done]. destruct (f b) as [[b' effs] r]. simpl. by rewrite x_effects_w. Qed.
Lemma on_y_w {A} (f : HandoverYBroker -> y_result A) s : st_w (on_y f s).1 = st_w s.
Proof. unfold on_y. destruct (st_handoverYBroker s) as [b|]; [|done]. destruct (f b) as [[b' effs] r]. simpl. by rewrite y_effects_w. Qed.
Lemma AskMoveState_w s c : st_w (AskMoveState s c).1 = st_w s.
Proof. unfold AskMoveState. by destruct (check s c). Qed.
Lemma checkOutOfHandoverX_w e s c : st_w (checkOutOfHandoverX e s c) = st_w s.
Proof.
  unfold checkOutOfHandoverX. destruct (get_HandoverXBroker s); [|done]. destruct (xb_isFinished _); [done|].
  destruct (_ || _); [done|]. apply on_x_w.
Qed.

Context (I : W -> Prop) `{!KeptWorld I}.
Abbreviation holds := (fun '(s', _) => I (st_w s')).

Lemma enterNext_w cdefer e s c cur : I (st_w s) -> leads (enterNext cdefer e s c cur) holds.
Proof.
  intros Hs. unfold enterNext. destruct (negb _); [done|]. pose proof (kw_new (next c) e s Hs) as Hn.
  destruct (h_new (next c) e s) as [s1 [er|]]; [done|]. destruct cur as [cur|]; [|done].
  eapply leads_bind; [by apply kw_enter|]. intros [s2 [er|l]] Hs2; [|done]. by destruct (isSwitchContextError er).
Qed.
Lemma doSwitch_w e s c : I (st_w s) -> leads (doSwitch e s c) holds.
Proof.
  intros Hs. unfold doSwitch. eapply (leads_bind _ _ holds).
  - unfold exitAndEnter. destruct (st_cs s) as [cur|]; [|by apply enterNext_w].
    eapply leads_bind; [by apply kw_exit|]. intros [s1 [er|l]] Hs1; [|by apply enterNext_w].
    destruct (bool_decide _); [by apply enterNext_w|]. by destruct (errors_Is _ _).
  - intros [s1 [er|[cd nd]]] Hs1; [|done]. destruct (errors_Is _ _); [done|]. by destruct (isSwitchContextError er).
Qed.
Lemma switchState_w e s c : I (st_w s) -> leads (switchState e s c) holds.
Proof. intros Hs. unfold switchState. destruct (check s c); [done|done|by apply doSwitch_w]. Qed.
Lemma switch_loop_w fuel n e s c r : I (st_w s) -> switch_loop fuel n e s c = Some r -> leads r holds.
Proof.
  revert n s c. induction fuel as [|fuel IH]; intros n s c Hs; simpl; [done|].
  destruct (3 <? n); [by apply IH|]. pose proof (switchState_w e s c Hs) as Hw.
  destruct (switchState e s c) as [[s1 [er|]]|m|]; simpl in Hw; [| |by intros [= <-]..].
  - destruct (errors_As er); [by apply IH|]. destruct (bool_decide _); [by intros [= <-]|by apply IH].
  - intros [= <-]. destruct (bool_decide _); [done|]. simpl. by rewrite checkOutOfHandoverX_w.
Qed.
Lemma ensureSwitchState_w e s c : I (st_w s) -> leads (ensureSwitchState e s c) holds.
Proof.
  intros Hs. unfold ensureSwitchState. destruct (switch_loop _ _ _ _ _) eqn:El; [by eapply switch_loop_w|done].
Qed.
Lemma states_newVoteproof_w e s finished vp : I (st_w s) -> leads (states_newVoteproof e s finished vp) holds.
Proof.
  intros Hs. unfold states_newVoteproof. destruct (st_cs s); [|done]. destruct (negb _); [done|].
  eapply leads_bind; [by apply kw_newVoteproof|]. intros [s1 [er|]] Hs1; [|done]. destruct (errors_Is _ _); [done|].
  destruct (errors_As er); [by apply ensureSwitchState_w|done].
Qed.
Lemma SetAllowConsensus_w s allow : I (st_w s) -> I (st_w (SetAllowConsensus s allow)).
Proof.
  intros Hs. unfold SetAllowConsensus. destruct (bool_decide _); [done|].
  set (s1 := match st_cs (setAllowConsensus allow s) with Some cur => _ | None => _ end).
  assert (I (st_w s1)) as Hw1.
  { unfold s1. destruct (st_cs _) as [cur|]; [|done]. destruct (to_consensus cur); [by apply kw_whenSet|done]. }
  clearbody s1. set (s2 := match get_HandoverXBroker s1 with Some _ => _ | None => _ end).
  assert (st_w s2 = st_w s1) as Hw2.
  { unfold s2. destruct (get_HandoverXBroker s1); [|done]. destruct allow; [done|]. apply on_x_w. }
  clearbody s2. destruct (get_HandoverYBroker s2); [|by rewrite Hw2]. destruct allow; [|by rewrite Hw2].
  simpl. by rewrite on_y_w, Hw2.
Qed.
Lemma run_go_w e g s : I (st_w s) -> leads (run_go e g s) holds.
Proof.
  intros Hs. destruct g as [panics c|c|finished vp|stop c|l]; simpl.
  - pose proof (AskMoveState_w s c) as Ha. destruct (AskMoveState s c) as [s1 [er|]]; simpl in Ha; [destruct panics|]; simpl; by rewrite ?Ha.
  - by apply ensureSwitchState_w.
  - by apply states_newVoteproof_w.
  - set (s1 := match stop, st_handoverXBroker s with Some id, Some b => _ | _, _ => _ end).
    assert (st_w s1 = st_w s) as Hw1.
    { unfold s1. destruct stop; [|done]. destruct (st_handoverXBroker s); [|done]. by destruct (bool_decide _). }
    destruct c as [c|]; simpl; [|by rewrite Hw1].
    pose proof (AskMoveState_w (cleanHandovers s1) c) as Ha.
    destruct (AskMoveState (cleanHandovers s1) c) as [s2 [er|]]; simpl in *; [done|]. by rewrite Ha, Hw1.
  - eapply leads_bind; [by apply kw_run|done].
Qed.
Lemma x_called_w {A} (f : HandoverXBroker -> res (x_result A)) s : I (st_w s) -> leads (x_called f s) (fun s' => I (st_w s')).
Proof.
  intros Hs. unfold x_called. destruct (get_HandoverXBroker s) as [b|]; [|done]. destruct (f b); [|done..]. simpl. by rewrite on_x_w.
Qed.
Lemma y_called_w {A} (f : HandoverYBroker -> res (y_result A)) s : I (st_w s) -> leads (y_called f s) (fun s' => I (st_w s')).
Proof.
  intros Hs. unfold y_called. destruct (get_HandoverYBroker s) as [b|]; [|done]. destruct (f b); [|done..]. simpl. by rewrite on_y_w.
Qed.
Lemma goes_on_w (r : res (States J W)) : leads r (fun s' => I (st_w s')) -> leads (goes_on r) holds.
Proof. by destruct r. Qed.

Lemma states_step_w xargs yargs e ev s : I (st_w s) -> leads (states_step xargs yargs e ev s) holds.
Proof.
  intros Hs. destruct ev; simpl.
  - destruct (st_go s !! i); [by apply run_go_w|done].
  - destruct (negb _); [done|by apply states_newVoteproof_w].
  - by apply states_newVoteproof_w.
  - by apply SetAllowConsensus_w.
  - eapply (leads_bind _ _ holds); [|by intros [s' r]]. unfold Hold. destruct (st_cs s); [by apply switchState_w|done].
  - unfold st_NewHandoverXBroker. destruct (st_handoverXBroker s); [done|]. destruct (negb _); [done|].
    destruct (get_HandoverYBroker s); [done|]. by destruct made.
  - unfold st_NewHandoverYBroker. destruct (st_handoverYBroker s); [done|]. destruct (st_allowedConsensus s); [done|].
    destruct (get_HandoverXBroker s); [done|]. by destruct made.
  - by rewrite on_x_w.
  - by rewrite on_y_w.
  - apply goes_on_w. by apply x_called_w.
  - apply goes_on_w. by apply x_called_w.
  - apply goes_on_w. by apply x_called_w.
  - apply goes_on_w. by apply y_called_w.
  - by destruct (st_handoverYBroker s).
Qed.
Lemma start_w e s : I (st_w s) -> leads (start e s) holds.
Proof.
  intros Hs. unfold start. destruct (negb _); [done|]. pose proof (kw_new StateStopped e s Hs) as Hn.
  destruct (h_new StateStopped e s) as [s1 [er|]]; [done|].
  eapply leads_bind; [by apply kw_enter|]. intros [s2 [er|l]] Hs2; [done|]. by apply ensureSwitchState_w.
Qed.
Lemma finish_start_w e s serr : I (st_w s) -> leads (finish_start e s serr) (fun s' => I (st_w s')).
Proof.
  intros Hs. unfold finish_start. destruct (st_cs s); [|done].
  eapply leads_bind; [by apply switchState_w|]. by intros [s1 r].
Qed.
End states.

(** ** The pool, the timers and what was sent *)
Section ballots.
Context `{Crypto, LocalNode}.
Definition own (bl : Ballot) : Prop := sf_node (bl_signFact bl) = node_address local.
(** No other ballot is in the pool where [bl] belongs. *)
Definition settled (p : pool) (bl : Ballot) : Prop := forall bl', pool_find (pool_key bl) p = Some bl' -> bl' = bl.
Record coherent (p : pool) (t : timers) (l : list Ballot) : Prop := {
  co_own : Forall own p;
  co_ids : NoDup t.*1;
  co_timers ti bl : (ti, bl) ∈ t -> timerID bl = Some ti /\ own bl /\ settled p bl;
  co_sent bl : bl ∈ l -> pool_find (pool_key bl) p = Some bl
}.

Lemma pool_find_own p k bl : Forall own p -> pool_find k p = Some bl -> own bl /\ pool_key bl = k.
Proof.
  intros Hp Hf. apply pool_find_Some in Hf as [Hin Hk]. rewrite Forall_forall in Hp. auto.
Qed.
Lemma settled_pooled p k bl : Forall own p -> pool_find k p = Some bl -> settled p bl.
Proof. intros Hp Hf bl'. destruct (pool_find_own p k bl Hp Hf) as [_ ->]. rewrite Hf. by intros [= ->]. Qed.
Lemma settled_none p bl : pool_find (pool_key bl) p = None -> settled p bl.
Proof. by intros Hn bl' Hf; rewrite Hn in Hf. Qed.
Lemma timerID_key b1 b2 : pool_key b1 = pool_key b2 -> timerID b1 = timerID b2.
Proof. unfold pool_key. intros [E1 E2]%pair_equal_spec. unfold timerID. by rewrite E1, E2. Qed.
Lemma timer_unique p t l ti1 ti2 b1 b2 :
  coherent p t l -> (ti1, b1) ∈ t -> (ti2, b2) ∈ t -> pool_key b1 = pool_key b2 -> b1 = b2.
Proof.
  intros Hc S1 S2 Hk. destruct (co_timers _ _ _ Hc _ _ S1) as [T1 _]. destruct (co_timers _ _ _ Hc _ _ S2) as [T2 _].
  rewrite (timerID_key _ _ Hk), T2 in T1. injection T1 as <-. clear T2 Hk.
  pose proof (co_ids _ _ _ Hc) as Hn. clear Hc. induction t as [|[ti b] t IH]; [by apply not_elem_of_nil in S1|].
  simpl in Hn. apply NoDup_cons in Hn as [Hni Hn]. apply elem_of_cons in S1, S2.
  assert (forall b', (ti, b') ∉ t) as Hno. { intros b' Hb. apply Hni. apply list_elem_of_fmap. by exists (ti, b'). }
  destruct S1 as [E1|S1], S2 as [E2|S2].
  - congruence.
  - injection E1 as -> ->. by apply Hno in S2.
  - injection E2 as -> ->. by apply Hno in S1.
  - auto.
Qed.

Lemma coherent_stop p t l : coherent p t l -> coherent p (StopTimers t) l.
Proof. intros [Co Ci Ct Cs]. split; [done|constructor| |done]. intros ti bl Hin. by apply not_elem_of_nil in Hin. Qed.
Lemma coherent_add p t l bl made : coherent p t l -> own bl -> settled p bl -> coherent p (bbt_add bl made t).1 l.
Proof.
  intros [Co Ci Ct Cs] Hown Hset. unfold bbt_add, addTimer. destruct (timerID bl) as [ti|] eqn:Et; [|done].
  destruct (bool_decide (ti ∈ t.*1)) eqn:Eb; [done|]. apply bool_decide_eq_false in Eb. destruct made; try done. simpl.
  split; [done| | |done].
  - apply NoDup_fmap_filter. simpl. by apply NoDup_cons.
  - intros ti' bl' Hin. apply list_elem_of_filter in Hin as [_ Hin]. apply elem_of_cons in Hin as [E|Hin]; [|by apply Ct].
    by injection E as -> ->.
Qed.
Lemma bb_set_find p bl :
  own bl -> settled p bl -> pool_find (pool_key bl) (bb_set bl p) = Some bl /\
  forall k b, pool_find k p = Some b -> pool_find k (bb_set bl p) = Some b.
Proof.
  intros Hown Hset. unfold bb_set. rewrite bool_decide_eq_true_2 by done. unfold pool_SetBallot.
  destruct (pool_find (pool_key bl) p) as [b|] eqn:Ef; simpl.
  - rewrite Ef. rewrite (Hset b Ef) in *. auto.
  - unfold pool_find in *. rewrite filter_cons_True by done. split; [done|]. intros k b Hb.
    rewrite filter_cons. destruct (decide (pool_key bl = k)) as [<-|]; [|done]. by rewrite Ef in Hb.
Qed.
Lemma coherent_send p t l bl :
  coherent p t l -> own bl -> settled p bl -> (forall ti b, (ti, b) ∈ t -> pool_key b = pool_key bl -> b = bl) ->
  coherent (bb_set bl p) t (bl :: l).
Proof.
  intros [Co Ci Ct Cs] Hown Hset Ht. destruct (bb_set_find p bl Hown Hset) as [Hf Hm]. split; [|done| |].
  - unfold bb_set. rewrite bool_decide_eq_true_2 by done. unfold pool_SetBallot.
    destruct (pool_find _ p); simpl; [done|by constructor].
  - intros ti b Hin. destruct (Ct _ _ Hin) as (Hti & Hb & Hs). split_and?; [done..|]. intros b' Hf'.
    destruct (decide (pool_key b = pool_key bl)) as [Ek|Ek].
    + rewrite Ek, Hf in Hf'. injection Hf' as <-. symmetry. by eapply Ht.
    + apply Hs. unfold bb_set in Hf'. rewrite bool_decide_eq_true_2 in Hf' by done. unfold pool_SetBallot in Hf'.
      destruct (pool_find (pool_key bl) p); simpl in Hf'; [done|]. unfold pool_find in *.
      by rewrite filter_cons_False in Hf' by auto.
  - intros b [->|Hin]%elem_of_cons; [done|]. by apply Hm, Cs.
Qed.
End ballots.

(** ** The handlers keep what the node broadcasts coherent *)
Section world.
Context `{Crypto, PointBytes, LocalNode, BlockCrypto, HandoverData, ProposalOperations} `{!LRUCache C}.
Abbreviation M := (M (C := C)).

(** The ballots the node sent, the newest first. *)
Definition sent_of (o : output) : option Ballot := match o with OSend bl => Some bl | _ => None end.
Definition sent (w : World C) : list Ballot := omap sent_of (w_out w).
Definition coherent_world (w : World C) : Prop := coherent (w_pool w) (w_timers w) (sent w).

(** [m] leaves the world as it is, and its value is as [Q] says. *)
Definition yields (w : World C) {A} (Q : A -> Prop) (m : M A) : Prop :=
  forall o s, st_w s = w -> leads (m o s) (fun '(s', r) => st_w s' = w /\ forall a, r = inr a -> Q a).
Definition any {A} (_ : A) : Prop := True.

Lemma yields_mono w {A} (P Q : A -> Prop) (m : M A) : yields w P m -> (forall a, P a -> Q a) -> yields w Q m.
Proof. intros Hm HQ o s Hs. eapply leads_mono; [by apply Hm|]. intros [s' r] [Hw Hr]. split; [done|]. eauto. Qed.
Lemma yields_any w {A} (Q : A -> Prop) (m : M A) : yields w Q m -> yields w any m.
Proof. intros Hm. by eapply yields_mono. Qed.
Lemma yields_ret w {A} (Q : A -> Prop) (a : A) : Q a -> yields w Q (mret a : M A).
Proof. intros HQ o s Hs. split; [done|]. by intros a' [= <-]. Qed.
Lemma yields_bind w {A B} (P : A -> Prop) (Q : B -> Prop) (m : M A) (f : A -> M B) :
  yields w P m -> (forall a, P a -> yields w Q (f a)) -> yields w Q (m ≫= f).
Proof.
  intros Hm Hf o s Hs. unfold mbind, M_bind. eapply leads_bind; [by apply Hm|]. intros [s1 [e|a]] [Hw Ha]; [done|].
  by apply Hf; [apply Ha|].
Qed.
Lemma yields_try w {A B} (P : A -> Prop) (Q : B -> Prop) (m : M A) (f : goerr + A -> M B) :
  yields w P m -> (forall r, (forall a, r = inr a -> P a) -> yields w Q (f r)) -> yields w Q (attempt m ≫= f).
Proof.
  intros Hm Hf o s Hs. unfold mbind, M_bind, attempt. specialize (Hm o s Hs). unfold mbind, res_bind.
  destruct (m o s) as [[s1 r]|e|]; [|done..]. destruct Hm as [Hw Hr]. by apply Hf.
Qed.
Lemma yields_raise w {A} (Q : A -> Prop) e : yields w Q (raise e : M A).
Proof. by intros o s Hs. Qed.
Lemma yields_wrapped w {A} (Q : A -> Prop) (m : M A) : yields w Q m -> yields w Q (wrapped m).
Proof.
  intros Hm. unfold wrapped. eapply yields_try; [exact Hm|]. intros [e|a] Ha; [apply yields_raise|].
  by apply yields_ret, Ha.
Qed.
Lemma yields_lift w {A} (Q : A -> Prop) (r : res A) : (forall a, r = Ok a -> Q a) -> yields w Q (lift r : M A).
Proof. intros HQ o s Hs. destruct r; simpl; [|done..]. split; [done|]. intros a' [= <-]. auto. Qed.
Lemma yields_ask w {A} (f : Outside -> A) : yields w any (ask f : M A).
Proof. by intros o s Hs. Qed.
Lemma yields_call w {A} (f : Outside -> out A) : yields w any (call_out f : M A).
Proof. by intros o s Hs. Qed.
Lemma yields_get w {A} (f : States job (World C) -> A) : yields w any (get f : M A).
Proof. by intros o s Hs. Qed.
Lemma yields_get_w w {A} (f : World C -> A) : yields w (fun a => a = f w) (get_w f : M A).
Proof. intros o s Hs. split; [done|]. intros a [= <-]. by rewrite Hs. Qed.
Lemma yields_modify w (f : States job (World C) -> States job (World C)) :
  (forall s, st_w (f s) = st_w s) -> yields w any (modify f).
Proof. intros Hf o s Hs. split; [|done]. by rewrite Hf. Qed.
Lemma yields_spawn w j : yields w any (spawn j : M unit).
Proof. by apply yields_modify. Qed.
Lemma yields_go w c : yields w any (go_switchState c : M unit).
Proof. by apply yields_modify. Qed.
Lemma yields_when w b (m : M unit) : yields w any m -> yields w any (when b m).
Proof. intros Hm. destruct b; [done|by apply yields_ret]. Qed.
Lemma yields_with_y w {A} (f : Outside -> HandoverYBroker -> y_result A) : yields w any (with_y (C := C) f).
Proof.
  intros o s Hs. unfold with_y. destruct (get_HandoverYBroker s); [|done]. pose proof (on_y_w (fun _ => f o h) s) as Hw.
  destruct (on_y _ s). split; [by rewrite <- Hs|done].
Qed.
Lemma yields_with_x w {A} (f : Outside -> HandoverXBroker -> res (x_result A)) : yields w any (with_x (C := C) f).
Proof.
  intros o s Hs. unfold with_x. destruct (get_HandoverXBroker s); [|done]. destruct (f o h) as [r| |]; [|done..]. simpl.
  pose proof (on_x_w (fun _ => r) s) as Hw. destruct (on_x _ s). split; [by rewrite <- Hs|done].
Qed.

(** *** The ballots that are made *)
Definition startable (w : World C) (bl : Ballot) : Prop := own bl /\ settled (w_pool w) bl.
Context `{!LocalNodeLaws}.
Lemma yields_pooled w point stage isc k :
  yields w (fun r => pool_find (NewStagePoint point stage, isc) (w_pool w) = r) (pooledBallot (C := C) point stage isc k).
Proof.
  unfold pooledBallot. eapply yields_bind; [apply yields_get_w|]. intros p ->.
  eapply (yields_bind _ (fun r => pool_find (NewStagePoint point stage, isc) (w_pool w) = r)).
  - apply yields_lift. unfold pool_Ballot. destruct (StagePoint_IsValid _); [|done..]. by intros r [= <-].
  - intros [bl|] Hbl; [|by apply yields_ret]. destruct (bool_decide _); [by apply yields_ret|by apply yields_lift].
Qed.
Lemma startable_pooled w k bl : coherent_world w -> pool_find k (w_pool w) = Some bl -> startable w bl.
Proof.
  intros Hc Hf. split; [by eapply pool_find_own, Hf; apply Hc|]. eapply settled_pooled; [apply Hc|done].
Qed.
Lemma yields_signed w k f (Q : BallotSignFact -> Prop) :
  (forall sf, sf_fact sf = f -> sf_node sf = node_address local -> Q sf) -> yields w Q (lift (signed k f) : M _).
Proof.
  intros HQ. apply yields_lift. intros sf Hs. pose proof (signed_ok k f) as Ho. rewrite Hs in Ho. apply HQ; tauto.
Qed.
End world.

Create HintDb yields.
#[export] Hint Resolve yields_raise yields_ask yields_call yields_get yields_spawn yields_go yields_with_y yields_with_x : yields.
#[export] Hint Extern 3 (yields _ any (get_w _)) => eapply yields_any, yields_get_w : yields.
#[export] Hint Extern 3 (yields _ any (mret _)) => by apply yields_ret : yields.
#[export] Hint Extern 3 (yields _ any (lift _)) => by apply yields_lift : yields.
#[export] Hint Extern 3 (yields _ any (pooledBallot _ _ _ _)) => eapply yields_any, yields_pooled : yields.
Ltac yields1 :=
  match goal with
  | |- yields _ any (attempt _ ≫= _) => apply (yields_try _ any); [|intros ? _]
  | |- yields _ any (mbind _ _) => apply (yields_bind _ any); [|intros ? _]
  | |- yields _ any (wrapped _) => apply yields_wrapped
  | |- yields _ any (when _ _) => apply yields_when
  | |- yields _ _ (raise_ctx _) => apply yields_raise
  | |- yields _ _ (moves_to_syncing _ _) => apply yields_raise
  | |- yields _ any (match ?x with _ => _ end) => destruct x
  | |- yields _ any (let '_ := ?x in _) => destruct x
  | |- yields _ _ _ => solve [eauto 2 with yields nocore]
  end.
Ltac yields := intros; repeat yields1.

Section making.
Context `{Crypto, PointBytes, LocalNode, BlockCrypto, HandoverData, ProposalOperations} `{!LRUCache C, !LocalNodeLaws}.
Abbreviation M := (M (C := C)).
Lemma yields_findExpels w h suf : yields (C := C) w any (findExpels h suf).
Proof. unfold findExpels. yields. Qed.
(** A new ballot where the pool has none. *)
Lemma startable_new w k vp sf expels :
  coherent_world (C := C) w -> pool_find k (w_pool w) = None -> sf_node sf = node_address local ->
  k = (Fact_Point (sf_fact sf), IsSuffrageConfirmBallotFact (Some (sf_fact sf))) ->
  startable w (NewINITBallot vp sf expels) /\ startable w (NewACCEPTBallot vp sf expels).
Proof. intros Hc Hn Hl ->. split; (split; [exact Hl|by apply settled_none]). Qed.
Lemma newINITBallotFactFunc_key w point prev pr expelfacts :
  yields (C := C) w (fun f => (Fact_Point f, IsSuffrageConfirmBallotFact (Some f)) = (NewStagePoint point StageINIT, false))
    (newINITBallotFactFunc point prev pr expelfacts).
Proof.
  unfold newINITBallotFactFunc. eapply yields_bind; [apply yields_ask|]. intros b _.
  eapply (yields_bind _ any); [yields|]. intros e _. eapply yields_bind; [apply yields_ask|]. intros r _.
  apply yields_ret. by destruct e.
Qed.
Lemma makeINITBallot_startable w point prev vp suf :
  coherent_world w -> yields w (startable w) (makeINITBallot (C := C) point prev vp suf).
Proof.
  intros Hc. unfold makeINITBallot. eapply yields_bind; [apply yields_wrapped, yields_pooled|]. intros [bl|] Hf.
  - apply yields_ret. by eapply startable_pooled.
  - eapply (yields_bind _ any); [yields|]. intros pr _. eapply (yields_bind _ any); [apply yields_findExpels|].
    intros [expels expelfacts] _. eapply yields_bind; [apply yields_wrapped, newINITBallotFactFunc_key|]. intros f Hk.
    eapply yields_bind; [apply yields_wrapped, (yields_signed _ _ _ (fun sf => sf_fact sf = f /\ sf_node sf = node_address local)); auto|].
    intros sf [<- Hl]. apply yields_ret. by eapply startable_new.
Qed.
Lemma makeACCEPTBallot_startable w ivp newBlock fact :
  coherent_world w ->
  (forall f, fact = Some f -> (Fact_Point f, IsSuffrageConfirmBallotFact (Some f)) = (NewStagePoint (sp_point (vp_point ivp)) StageACCEPT, false)) ->
  yields w (startable w) (makeACCEPTBallot (C := C) ivp newBlock fact).
Proof.
  intros Hc Hfact. unfold makeACCEPTBallot. eapply yields_bind; [apply yields_pooled|]. intros [bl|] Hf.
  - apply yields_ret. by eapply startable_pooled.
  - eapply (yields_bind _ (fun '(_, f) => (Fact_Point f, IsSuffrageConfirmBallotFact (Some f)) = (NewStagePoint (sp_point (vp_point ivp)) StageACCEPT, false))).
    + destruct fact as [f|]; [apply yields_ret; auto|]. eapply (yields_bind _ any); [yields|].
      intros [[q proposal]|] _; [by apply yields_ret|by apply yields_lift].
    + intros [expels f] Hk.
      eapply yields_bind; [apply (yields_signed _ _ _ (fun sf => sf_fact sf = f /\ sf_node sf = node_address local)); auto|].
      intros sf [<- Hl]. apply yields_ret. by eapply startable_new.
Qed.
Lemma makeSuffrageConfirm_startable w t vp :
  coherent_world w -> yields w (startable w) (makeSuffrageConfirmBallot (C := C) t vp).
Proof.
  intros Hc. unfold makeSuffrageConfirmBallot. eapply yields_bind; [apply yields_pooled|]. intros [bl|] Hf.
  - apply yields_ret. by eapply startable_pooled.
  - destruct (vp_majority vp) as [[]|]; try by apply yields_lift.
    eapply yields_try;
      [apply (yields_signed _ _ _ (fun sf => sf_fact sf = NewSuffrageConfirmBallotFact (sp_point (vp_point vp)) previousBlock proposal
          (bf_expelfacts b) /\ sf_node sf = node_address local)); auto|].
    intros [e|sf] Hs.
    + eapply (yields_bind _ any); [yields|]. intros _ _. apply yields_raise.
    + destruct (Hs sf eq_refl) as [Hfs Hl]. apply yields_ret. eapply startable_new; [done|exact Hf|done|by rewrite Hfs].
Qed.
End making.

(** *** The calls keep the world coherent *)
Section safe.
Context `{Crypto, PointBytes, LocalNode, BlockCrypto, HandoverData, ProposalOperations} `{!LRUCache C, !LocalNodeLaws}.
Variables (xargs : HandoverXBrokerArgs) (yargs : HandoverYBrokerArgs) (broken_Exit : bool).
Abbreviation M := (M (C := C)).
Definition safe {A} (m : M A) : Prop :=
  forall o s, coherent_world (st_w s) -> leads (m o s) (fun '(s', _) => coherent_world (st_w s')).

Lemma safe_yields {A} (m : M A) : (forall w, yields w any m) -> safe m.
Proof.
  intros Hm o s Hs. eapply leads_mono; [by apply (Hm (st_w s))|]. intros [s' r] [-> _]. done.
Qed.
Lemma safe_bind {A B} (m : M A) (f : A -> M B) : safe m -> (forall a, safe (f a)) -> safe (m ≫= f).
Proof.
  intros Hm Hf o s Hs. unfold mbind, M_bind. eapply leads_bind; [by apply Hm|]. intros [s1 [e|a]] Hs1; [done|by apply Hf].
Qed.
Lemma safe_try {A B} (m : M A) (f : goerr + A -> M B) : safe m -> (forall r, safe (f r)) -> safe (attempt m ≫= f).
Proof.
  intros Hm Hf o s Hs. unfold mbind, M_bind, attempt. specialize (Hm o s Hs). unfold mbind, res_bind.
  destruct (m o s) as [[s1 r]|e|]; [by apply Hf|done..].
Qed.
Lemma safe_wrapped {A} (m : M A) : safe m -> safe (wrapped m).
Proof. intros Hm. unfold wrapped. apply safe_try; [done|]. by intros [e|a] o s Hs. Qed.
Lemma safe_when b (m : M unit) : safe m -> safe (when b m).
Proof. intros Hm. destruct b; [done|]. by intros o s Hs. Qed.
(** After [m], which makes something of the world as it is. *)
Lemma safe_with {A B} (Q : World C -> A -> Prop) (m : M A) (f : A -> M B) :
  (forall w, coherent_world w -> yields w (Q w) m) ->
  (forall o s a, coherent_world (st_w s) -> Q (st_w s) a -> leads (f a o s) (fun '(s', _) => coherent_world (st_w s'))) ->
  safe (m ≫= f).
Proof.
  intros Hm Hf o s Hs. unfold mbind, M_bind. eapply leads_bind; [by apply (Hm (st_w s))|]. intros [s1 [e|a]] [Hw Ha].
  - simpl. by rewrite Hw.
  - apply Hf; rewrite Hw; auto.
Qed.
Lemma safe_try_with {A B} (Q : World C -> A -> Prop) (m : M A) (f : goerr + A -> M B) :
  (forall w, coherent_world w -> yields w (Q w) m) ->
  (forall o s r, coherent_world (st_w s) -> (forall a, r = inr a -> Q (st_w s) a) ->
    leads (f r o s) (fun '(s', _) => coherent_world (st_w s'))) ->
  safe (attempt m ≫= f).
Proof.
  intros Hm Hf o s Hs. unfold mbind, M_bind, attempt. specialize (Hm _ Hs o s eq_refl). unfold mbind, res_bind.
  destruct (m o s) as [[s1 r]|e|]; [|done..]. destruct Hm as [Hw Hr]. apply Hf; rewrite Hw; auto.
Qed.
Lemma safe_on_w (f : World C -> World C) : (forall w, coherent_world w -> coherent_world (f w)) -> safe (on_w f).
Proof. intros Hf o s Hs. by apply Hf. Qed.
Lemma safe_emit x : sent_of x = None -> safe (emit x).
Proof. intros Hx. apply safe_on_w. intros w Hw. unfold coherent_world, sent, add_out. simpl. by rewrite Hx. Qed.
Lemma safe_modify (f : States job (World C) -> States job (World C)) : (forall s, st_w (f s) = st_w s) -> safe (modify f).
Proof. intros Hf. apply safe_yields. intros w. by apply yields_modify. Qed.

Lemma safe_stopTimers : safe (stopTimers (C := C)).
Proof.
  unfold stopTimers. apply (safe_with (fun w t => t = w_timers w)); [intros w _; apply yields_get_w|].
  intros o s t Hs ->. by apply coherent_stop.
Qed.
Lemma startTimer_safe bl o s :
  coherent_world (st_w s) -> startable (st_w s) bl -> leads (startTimer (C := C) bl o s) (fun '(s', _) => coherent_world (st_w s')).
Proof.
  intros Hs [Hown Hset]. pose proof (coherent_add _ _ _ _ (o_newTimer o) Hs Hown Hset) as Hc.
  unfold startTimer, mbind, M_bind, res_bind, ask, get_w, get. simpl.
  destruct (bbt_add bl (o_newTimer o) (w_timers (st_w s))) as [t r]. by destruct r.
Qed.
(** What is spawned or asked first does not matter. *)
Lemma after_yields {A B} (m : M A) (f : A -> M B) (bl : Ballot) o s :
  (forall w, yields w any m) -> coherent_world (st_w s) -> startable (st_w s) bl ->
  (forall o s a, coherent_world (st_w s) -> startable (st_w s) bl -> leads (f a o s) (fun '(s', _) => coherent_world (st_w s'))) ->
  leads ((m ≫= f) o s) (fun '(s', _) => coherent_world (st_w s')).
Proof.
  intros Hm Hs Hb Hf. unfold mbind, M_bind. eapply leads_bind; [by apply (Hm (st_w s))|]. intros [s1 [e|a]] [Hw _].
  - simpl. by rewrite Hw.
  - apply Hf; by rewrite Hw.
Qed.
End safe.

Create HintDb safe.
#[export] Hint Resolve safe_stopTimers : safe.
#[export] Hint Extern 1 (safe (emit _)) => by apply safe_emit : safe.
#[export] Hint Extern 1 (safe (on_w _)) => by apply safe_on_w : safe.
#[export] Hint Extern 1 (safe (modify _)) => by apply safe_modify : safe.
#[export] Hint Extern 2 (safe (mret _)) => by apply safe_yields; intros ?; apply yields_ret : safe.
#[export] Hint Extern 2 (safe (lift _)) => by apply safe_yields; intros ?; apply yields_lift : safe.
#[export] Hint Extern 2 (safe (raise _)) => by apply safe_yields; intros ?; apply yields_raise : safe.
#[export] Hint Extern 2 (safe (ask _)) => by apply safe_yields; intros ?; apply yields_ask : safe.
#[export] Hint Extern 2 (safe (call_out _)) => by apply safe_yields; intros ?; apply yields_call : safe.
#[export] Hint Extern 2 (safe (get _)) => by apply safe_yields; intros ?; apply yields_get : safe.
#[export] Hint Extern 2 (safe (get_w _)) => by apply safe_yields; intros ?; eapply yields_any, yields_get_w : safe.
#[export] Hint Extern 2 (safe (spawn _)) => by apply safe_yields; intros ?; apply yields_spawn : safe.
#[export] Hint Extern 2 (safe (go_switchState _)) => by apply safe_yields; intros ?; apply yields_go : safe.
#[export] Hint Extern 2 (safe (with_x _)) => by apply safe_yields; intros ?; apply yields_with_x : safe.
#[export] Hint Extern 2 (safe (with_y _)) => by apply safe_yields; intros ?; apply yields_with_y : safe.
Ltac safe1 :=
  match goal with
  | |- safe (attempt _ ≫= _) => apply safe_try; [|intros ?]
  | |- safe (mbind _ _) => apply safe_bind; [|intros ?]
  | |- safe (wrapped _) => apply safe_wrapped
  | |- safe (when _ _) => apply safe_when
  | |- safe (raise_ctx _) => apply safe_yields; intros ?; apply yields_raise
  | |- safe (moves_to_syncing _ _) => apply safe_yields; intros ?; apply yields_raise
  | |- safe (match ?x with _ => _ end) => destruct x
  | |- safe (let '_ := ?x in _) => destruct x
  | |- safe _ => solve [eauto 2 with safe nocore]
  end.
Ltac safe := intros; repeat safe1.

Section handlers.
Context `{Crypto, PointBytes, LocalNode, BlockCrypto, HandoverData, ProposalOperations} `{!LRUCache C, !LocalNodeLaws}.
Variables (xargs : HandoverXBrokerArgs) (yargs : HandoverYBrokerArgs) (broken_Exit : bool).
Abbreviation M := (M (C := C)).
Hint Unfold lastVoteproofs allowedConsensus lastManifest leaveMemberlist sh_isFinished cap : safe.

(** Making and starting. *)
Lemma safe_prepareINITBallot f vp :
  (forall w, coherent_world w -> yields w (startable w) f) -> safe (prepareINITBallot (C := C) f vp).
Proof.
  intros Hf. unfold prepareINITBallot. apply (safe_try_with startable); [done|]. intros o s [e|bl] Hs Hr.
  - destruct (negb _); [|done]. by destruct (yields_go (st_w s) (newBrokenSwitchContext StateConsensus e) o s eq_refl).
  - apply (after_yields _ _ bl); [by intros; apply yields_spawn|done|by apply Hr|].
    intros o' s' _ Hs' Hb. by apply startTimer_safe.
Qed.
Lemma safe_nextBlockBallot avp suf : safe (defaultPrepareNextBlockBallot (C := C) avp suf).
Proof.
  apply safe_prepareINITBallot. intros w Hw. unfold makeNextBlockBallot. eapply (yields_bind _ any); [yields|]. intros [e|] _; [yields|].
  eapply (yields_bind _ any); [yields|]. intros [[q nb]|] _; [|by apply yields_lift].
  by apply yields_wrapped, makeINITBallot_startable.
Qed.
Lemma safe_nextRoundBallot vp prev suf : safe (defaultPrepareNextRoundBallot (C := C) vp prev suf).
Proof. apply safe_prepareINITBallot. intros w Hw. by apply yields_wrapped, makeINITBallot_startable. Qed.
Definition accept_key (ivp : Voteproof) (fact : option BallotFact) : Prop :=
  forall f, fact = Some f ->
  (Fact_Point f, IsSuffrageConfirmBallotFact (Some f)) = (NewStagePoint (sp_point (vp_point ivp)) StageACCEPT, false).
Lemma safe_prepareACCEPT t ivp nb fact : accept_key ivp fact -> safe (prepareACCEPTBallot (C := C) t ivp nb fact).
Proof.
  intros Hk. unfold prepareACCEPTBallot. destruct (bool_decide _); [safe|]. unfold defaultPrepareACCEPTBallot.
  apply (safe_with startable); [intros w Hw; by apply yields_wrapped, makeACCEPTBallot_startable|]. intros o s bl Hs Hb.
  apply (after_yields _ _ bl); [by intros; apply yields_spawn|done|done|]. intros o' s' _ Hs' Hb'.
  unfold wrapped. pose proof (startTimer_safe bl o' s' Hs' Hb') as Ht. unfold mbind, M_bind, attempt, mbind, res_bind.
  destruct (startTimer bl o' s') as [[s1 [e|u]]| |]; done.
Qed.
Lemma safe_prepareSuffrageConfirm t vp : safe (defaultPrepareSuffrageConfirmBallot (C := C) t vp).
Proof.
  unfold defaultPrepareSuffrageConfirmBallot. destruct (negb _); [safe|].
  apply (safe_try_with startable); [intros w Hw; by apply makeSuffrageConfirm_startable|]. intros o s [e|bl] Hs Hr; [done|].
  apply (after_yields _ _ bl); [by intros; apply yields_spawn|done|by apply Hr|]. intros o' s' _ Hs' Hb'.
  pose proof (startTimer_safe bl o' s' Hs' Hb') as Ht. unfold mbind, M_bind, attempt, mbind, res_bind.
  destruct (startTimer bl o' s') as [[s1 [e|u]]| |]; done.
Qed.
Hint Resolve safe_nextBlockBallot safe_nextRoundBallot safe_prepareSuffrageConfirm : safe.

Lemma safe_lastVoteproofs : safe (lastVoteproofs (C := C)).
Proof. unfold lastVoteproofs. safe. Qed.
Lemma safe_voteproofs pt : safe (voteproofs (C := C) pt).
Proof. unfold voteproofs. safe. Qed.
Lemma safe_setNewVoteproof vp : safe (setNewVoteproof (C := C) vp).
Proof. unfold setNewVoteproof, setLastVoteproof, lastVoteproofs. safe. Qed.
Lemma safe_allowed : safe (allowedConsensus (C := C)).
Proof. unfold allowedConsensus. safe. Qed.
Lemma safe_sendBallot bl : safe (sendBallotToHandoverY (C := C) xargs bl).
Proof. unfold sendBallotToHandoverY. safe. Qed.
Lemma safe_vote bl : safe (vote (C := C) bl).
Proof. unfold vote. safe. Qed.
Hint Resolve safe_lastVoteproofs safe_voteproofs safe_setNewVoteproof safe_allowed safe_sendBallot safe_vote : safe.
Lemma safe_run_vote b bl vp : safe (run_vote (C := C) b bl vp).
Proof. unfold run_vote. safe. Qed.
Lemma safe_localIsIn h : safe (localIsInConsensusNodes (C := C) h).
Proof. unfold localIsInConsensusNodes. safe. Qed.
Hint Resolve safe_run_vote safe_localIsIn : safe.
Lemma safe_suffrageOrSwitch t h : safe (suffrageOrSwitch (C := C) t h).
Proof. unfold suffrageOrSwitch. safe. Qed.
Hint Resolve safe_suffrageOrSwitch : safe.
Lemma safe_nextRound t vp prev : safe (nextRound (C := C) t vp prev).
Proof. unfold nextRound. safe. Qed.
Lemma safe_nextBlock t avp : safe (nextBlock (C := C) t avp).
Proof. unfold nextBlock. safe. Qed.
Lemma safe_proposal_of r f : safe (proposal_of (C := C) r f).
Proof. unfold proposal_of. safe. Qed.
Lemma safe_cancelProcessors : safe (cancelProcessors (C := C)).
Proof. unfold cancelProcessors. safe. Qed.
Lemma safe_or_switch t (m : M unit) : safe m -> safe (or_switch t m).
Proof. intros Hm. unfold or_switch. safe; done. Qed.
Hint Resolve safe_nextRound safe_nextBlock safe_proposal_of safe_cancelProcessors safe_or_switch : safe.
Lemma safe_saveBlock t avp : safe (saveBlock (C := C) t avp).
Proof. unfold saveBlock. safe. Qed.
Lemma safe_whenNewBlockSaved t bm avp : safe (whenNewBlockSaved (C := C) t bm avp).
Proof. unfold whenNewBlockSaved. safe. Qed.
Lemma safe_whenNewBlockConfirmed avp : safe (whenNewBlockConfirmed (C := C) avp).
Proof. unfold whenNewBlockConfirmed. safe. Qed.
Lemma safe_wrongACCEPT t ivp : safe (wrongACCEPTBallot (C := C) t ivp).
Proof. unfold wrongACCEPTBallot. safe. apply safe_prepareACCEPT. by intros f [= <-]. Qed.
Hint Resolve safe_saveBlock safe_whenNewBlockSaved safe_whenNewBlockConfirmed safe_wrongACCEPT : safe.
Lemma safe_handleACCEPT t m avp : safe (handleACCEPTVoteproofAfterProcessingProposal (C := C) t m avp).
Proof. unfold handleACCEPTVoteproofAfterProcessingProposal. safe. Qed.
Lemma safe_run_process t ivp r : safe (run_process (C := C) t ivp r).
Proof. unfold run_process. safe; apply safe_prepareACCEPT; [by intros f [= <-]|done]. Qed.
Lemma safe_processProposal t ivp : safe (processProposal (C := C) t ivp).
Proof. unfold processProposal, processProposalInternal. safe. Qed.
Hint Resolve safe_handleACCEPT safe_run_process safe_processProposal : safe.

(** Following voteproofs. *)
Lemma safe_newConsensus f vp : safe (newConsensusSwitchContext (C := C) f vp).
Proof. unfold newConsensusSwitchContext. safe. Qed.
Lemma safe_check_in_state t vp : safe (check_in_state (C := C) t vp).
Proof. unfold check_in_state, checkInState. safe. Qed.
Lemma safe_follows ivp lavp : safe (follows_accept (C := C) ivp lavp).
Proof. unfold follows_accept. safe. Qed.
Hint Resolve safe_newConsensus safe_check_in_state safe_follows : safe.
Lemma safe_handoverIsReady ivp lvps : safe (handoverIsReadyConsensusWithVoteproof (C := C) ivp lvps).
Proof. unfold handoverIsReadyConsensusWithVoteproof. safe. Qed.
Hint Resolve safe_handoverIsReady : safe.
Lemma safe_whenNewVoteproof t finished vp lvps : safe (whenNewVoteproof (C := C) xargs t finished vp lvps).
Proof. unfold whenNewVoteproof, handover_whenNewVoteproof, consensus_whenNewVoteproof. safe. Qed.
Lemma safe_checkSuffrageVoting t ivp : safe (checkSuffrageVoting (C := C) t ivp).
Proof. unfold checkSuffrageVoting. safe. Qed.
Lemma safe_go_nextRound t vp lvps : safe (go_nextRound (C := C) t vp lvps).
Proof. unfold go_nextRound. safe. Qed.
Lemma safe_cap lvps : safe (cap (C := C) lvps).
Proof. unfold cap. safe. Qed.
Hint Resolve safe_whenNewVoteproof safe_checkSuffrageVoting safe_go_nextRound safe_cap : safe.
Lemma safe_checkStuck t vp lvps : safe (checkStuckVoteproof (C := C) t vp lvps).
Proof. unfold checkStuckVoteproof. safe. Qed.
Lemma safe_newINIT t ivp lvps : safe (newINITVoteproof (C := C) t ivp lvps).
Proof.
  unfold newINITVoteproof, newINITVoteproofWithLastINITVoteproof, newINITVoteproofWithLastACCEPTVoteproof, confirm_and_process. safe.
Qed.
Lemma safe_newACCEPT t avp lvps : safe (newACCEPTVoteproof (C := C) t avp lvps).
Proof.
  unfold newACCEPTVoteproof, newACCEPTVoteproofWithLastINITVoteproof, newACCEPTVoteproofWithLastACCEPTVoteproof. safe.
Qed.
Hint Resolve safe_checkStuck safe_newINIT safe_newACCEPT : safe.
Lemma safe_newVoteproofWithLVPS t finished vp lvps : safe (newVoteproofWithLVPS (C := C) xargs t finished vp lvps).
Proof. unfold newVoteproofWithLVPS. safe. Qed.
Hint Resolve safe_newVoteproofWithLVPS : safe.
Lemma safe_handleNewVoteproof t finished vp : safe (vh_handleNewVoteproof (C := C) xargs t finished vp).
Proof. unfold vh_handleNewVoteproof. safe. Qed.
Hint Resolve safe_handleNewVoteproof : safe.
Lemma safe_run_entered n : safe (run_entered (C := C) xargs n).
Proof. unfold run_entered, enterWithNewVoteproof. safe; apply safe_or_switch; safe. Qed.
Hint Resolve safe_run_entered : safe.
Lemma safe_vplock t : safe (vplock (C := C) xargs t).
Proof. unfold vplock. safe. Qed.
Hint Resolve safe_vplock : safe.
Lemma safe_vh_newVoteproof t finished vp : safe (vh_newVoteproof (C := C) xargs t finished vp).
Proof. unfold vh_newVoteproof. safe. Qed.
Lemma safe_vh_enter t c : safe (vh_enter (C := C) t c).
Proof. unfold vh_enter. safe. Qed.
Lemma safe_vh_exit : safe (vh_exit (C := C)).
Proof. unfold vh_exit. safe. Qed.
Hint Resolve safe_vh_newVoteproof safe_vh_enter safe_vh_exit : safe.

(** Joining, syncing, handover, booting, broken. *)
Lemma safe_lastManifest : safe (lastManifest (C := C)).
Proof. unfold lastManifest. safe. Qed.
Lemma safe_leaveMemberlist : safe (leaveMemberlist (C := C)).
Proof. unfold leaveMemberlist. safe. Qed.
Lemma safe_isFinished : safe (sh_isFinished (C := C)).
Proof. unfold sh_isFinished. safe. Qed.
Hint Resolve safe_lastManifest safe_leaveMemberlist safe_isFinished : safe.
Lemma safe_checkSuffrage h : safe (checkSuffrage (C := C) h).
Proof. unfold checkSuffrage. safe. Qed.
Hint Resolve safe_checkSuffrage : safe.
Lemma safe_jh_enter c : safe (jh_enter (C := C) c).
Proof. unfold jh_enter. safe. Qed.
Lemma safe_jh_handle vp : safe (jh_handleNewVoteproof (C := C) vp).
Proof.
  unfold jh_handleNewVoteproof, jh_checkStuckVoteproof, jh_newINITVoteproof, jh_newACCEPTVoteproof, jh_syncing. safe.
Qed.
Hint Resolve safe_jh_enter safe_jh_handle : safe.
Lemma safe_jh_newVoteproof vp : safe (jh_newVoteproof (C := C) vp).
Proof. unfold jh_newVoteproof, jh_syncing. safe. Qed.
Lemma safe_jh_first lvp m : safe (jh_firstVoteproof (C := C) lvp m).
Proof. unfold jh_firstVoteproof. safe. Qed.
Lemma safe_jh_entered vp m : safe (jh_entered (C := C) vp m).
Proof. unfold jh_entered. safe. Qed.
Lemma safe_sh_askHandover : safe (sh_askHandover (C := C)).
Proof. unfold sh_askHandover. safe. Qed.
Hint Resolve safe_jh_newVoteproof safe_jh_first safe_jh_entered safe_sh_askHandover : safe.
Lemma safe_sh_checkFinished vp : safe (sh_checkFinished (C := C) vp).
Proof.
  unfold sh_checkFinished, sh_checkFinishedMoveNext, sh_whenNotAllowedConsensus, sh_newStuckWait, sh_checkAndJoinMemberlist. safe.
Qed.
Hint Resolve safe_sh_checkFinished : safe.
Lemma safe_sh_newVoteproof vp : safe (sh_newVoteproof (C := C) vp).
Proof. unfold sh_newVoteproof. safe. Qed.
Lemma safe_sh_finishing : safe (sh_finishing (C := C)).
Proof. unfold sh_finishing. safe. Qed.
Lemma safe_sh_enter f c : safe (sh_enter (C := C) f c).
Proof. unfold sh_enter. safe. Qed.
Lemma safe_sh_stuck vp : safe (sh_stuck (C := C) vp).
Proof. unfold sh_stuck. safe. Qed.
Lemma safe_sh_stuckAgain : safe (sh_stuckAgain (C := C)).
Proof. unfold sh_stuckAgain, sh_newStuckWait. safe. Qed.
Lemma safe_sh_entered f h : safe (sh_entered (C := C) f h).
Proof. unfold sh_entered, sh_newStuckWait, sh_whenNotAllowedConsensus. safe. Qed.
Lemma safe_sh_exit : safe (sh_exit (C := C)).
Proof. unfold sh_exit. safe. Qed.
Lemma safe_hh_enter c : safe (hh_enter (C := C) c).
Proof. unfold hh_enter. safe. Qed.
Lemma safe_hh_exit : safe (hh_exit (C := C)).
Proof. unfold hh_exit. safe. Qed.
Lemma safe_hh_exited : safe (hh_exited (C := C)).
Proof. unfold hh_exited. safe. Qed.
Lemma safe_bh_enter : safe (bh_enter (C := C)).
Proof. unfold bh_enter, compareManifestWithACCEPTVoteproof. safe. Qed.
Lemma safe_kh_enter c : safe (kh_enter (C := C) broken_Exit c).
Proof. unfold kh_enter. safe. Qed.
Lemma safe_kh_entered : safe (kh_entered (C := C)).
Proof. unfold kh_entered. safe. Qed.
Hint Resolve safe_sh_newVoteproof safe_sh_finishing safe_sh_enter safe_sh_stuck safe_sh_stuckAgain safe_sh_entered
  safe_sh_exit safe_hh_enter safe_hh_exit safe_hh_exited safe_bh_enter safe_kh_enter safe_kh_entered : safe.

Lemma safe_run_job j : safe (run_job xargs yargs (C := C) j).
Proof. destruct j; simpl; unfold sh_stopTimersLater; safe; apply safe_or_switch; safe. Qed.
Lemma run_jobs_safe l o s : coherent_world (st_w s) -> leads (run_jobs xargs yargs (C := C) l o s) (fun s' => coherent_world (st_w s')).
Proof.
  revert s. induction l as [|j l IH]; intros s Hs; simpl; [done|].
  eapply leads_bind; [by apply safe_run_job|]. intros [s1 r] Hs1. by apply IH.
Qed.
#[export] Instance node_kept : KeptWorld (H := node_handlers xargs yargs broken_Exit) (coherent_world (C := C)).
Proof.
  split.
  - intros t e s Hs. simpl. unfold node_new. by destruct (bool_decide _).
  - intros t f c e s Hs. simpl. assert (safe (node_enter (C := C) broken_Exit t f c)) as Hm by (destruct t; simpl; safe).
    by apply Hm.
  - intros t c e s Hs. simpl. assert (safe (node_exit (C := C) t)) as Hm by (destruct t; simpl; safe). by apply Hm.
  - intros t b vp e s Hs. simpl.
    assert (safe (node_newVoteproof (C := C) xargs t b vp)) as Hm by (unfold node_newVoteproof; destruct t; safe).
    eapply leads_bind; [by apply Hm|]. by intros [s1 r].
  - intros t b s Hs. simpl. unfold node_whenSet, vh_whenSetAllowConsensus. by repeat case_match.
  - intros l e s Hs. by apply run_jobs_safe.
Qed.
End handlers.

(** ** Runs of a node with its timers *)
Section runs.
Context `{Crypto, PointBytes, LocalNode, BlockCrypto, HandoverData, ProposalOperations} `{!LRUCache C, !LocalNodeLaws}.
Variables (xargs : HandoverXBrokerArgs) (yargs : HandoverYBrokerArgs) (broken_Exit : bool).
Abbreviation handlers := (node_handlers (C := C) xargs yargs broken_Exit).

Definition mimicked (p : pool) (l : list Ballot) (s : States job (World C)) : States job (World C) :=
  set_w (foldl (fun w bl => add_out (OSend bl) w) (set_ballot_pool p (st_w s)) l) s.

(** Whatever happens to the states, a timer that is on broadcasts its ballot, and
    a syncing node signs the ballot of another node after it.  A node starts
    without timers; its pool has ballots of its own only.  What is signed after
    another node has no timer of the node at its key: [mimic_race_timer] is what
    happens without. *)
Inductive node_run : States job (World C) -> Prop :=
  | nr_new allowed w :
      w_timers w = [] -> w_out w = [] -> pool_local (w_pool w) -> node_run (NewStates allowed w)
  | nr_start e s s' r : node_run s -> start (Handlers0 := handlers) e s = Ok (s', r) -> node_run s'
  | nr_step e ev s s' r : node_run s -> states_step (Handlers0 := handlers) xargs yargs e ev s = Ok (s', r) -> node_run s'
  | nr_end e s s' serr : node_run s -> finish_start (Handlers0 := handlers) e s serr = Ok s' -> node_run s'
  | nr_fire ti bl o s s' r :
      node_run s -> (ti, bl) ∈ w_timers (st_w s) -> broadcastBallot bl o s = Ok (s', r) -> node_run s'
  | nr_mimic c s p l :
      node_run s -> Ballot_IsValid (mc_ballot c) = Ok tt ->
      (forall ti bl, (ti, bl) ∈ w_timers (st_w s) -> pool_key bl <> pool_key (mc_ballot c)) ->
      mimic_one c (w_pool (st_w s)) = Ok (p, l) -> node_run (mimicked p l s).

Lemma fire_coherent ti bl o (s s' : States job (World C)) r :
  coherent_world (st_w s) -> (ti, bl) ∈ w_timers (st_w s) -> broadcastBallot bl o s = Ok (s', r) -> coherent_world (st_w s').
Proof.
  intros Hs Hin. unfold broadcastBallot, mbind, M_bind, res_bind, get_w, get, spawn, modify. simpl. intros [= <- _].
  destruct (co_timers _ _ _ Hs _ _ Hin) as (_ & Hown & Hset).
  apply (coherent_send _ _ _ bl Hs Hown Hset). intros ti' b Hb Hk. by eapply timer_unique.
Qed.
Lemma node_run_coherent s : node_run s -> coherent_world (st_w s).
Proof.
  induction 1 as [allowed w Ht Ho Hp|e s s' r _ Hs He|e ev s s' r _ Hs He|e s s' serr _ Hs He
                 |ti bl o s s' r _ Hs Hin He|c s p l _ Hs Hv Hno Hm].
  - unfold coherent_world, sent. simpl. rewrite Ht, Ho. split; [done|constructor| |].
    + intros ti bl Hin. by apply not_elem_of_nil in Hin.
    + intros bl Hin. by apply not_elem_of_nil in Hin.
  - pose proof (start_w (Handlers0 := handlers) coherent_world e s Hs) as Hw. by rewrite He in Hw.
  - pose proof (states_step_w (Handlers0 := handlers) coherent_world xargs yargs e ev s Hs) as Hw. by rewrite He in Hw.
  - pose proof (finish_start_w (Handlers0 := handlers) coherent_world e s serr Hs) as Hw. by rewrite He in Hw.
  - by eapply fire_coherent.
  - destruct (mimic_one_spec c (w_pool (st_w s)) Hv (co_own _ _ _ Hs)) as [E|(newbl & E & Hl & Hk & Hnew)];
      rewrite E in Hm; injection Hm as <- <-; [done|]. apply pool_find_None in Hnew.
    pose proof (coherent_send _ _ _ newbl Hs Hl (settled_none _ _ Hnew)) as Hc.
    unfold bb_set, pool_SetBallot in Hc. rewrite bool_decide_eq_true_2, Hnew in Hc by done. apply Hc.
    intros ti b Hb Hkb. exfalso. apply (Hno ti b Hb). congruence.
Qed.

End runs.

(** ** A node that is alone boots, joins, and broadcasts a ballot twice *)
#[local] Existing Instance demo_crypto.
#[local] Existing Instance demo_block_crypto.
#[local] Existing Instance demo_cache.
Definition demo_node_suffrage : Suffrage :=
  match NewSuffrage [{| node_address := "n0"; node_publickey := "k0" |}] with Ok suf => suf | _ => demo_suffrage end.
Definition demo_node_outside : Outside := {|
  o_ctx := None; o_random := "r"; o_NodeInConsensusNodes := fun _ => inr (Some demo_node_suffrage, true);
  o_LastManifest := inr (Some (bm_manifest (demo_map 33))); o_GetManifest := fun _ => inr (Some (bm_manifest (demo_map 33)));
  o_ProposalSelect := fun _ _ => inr {| pr_hash := "pr"; pr_operations := [] |}; o_IsEmptyProposalNoBlock := false;
  o_IsEmptyProposal := fun _ => inr false; o_SuffrageVotingFind := fun _ _ => inr []; o_Vote := fun _ => inr true;
  o_newTimer := Ok tt; o_processing := demo_processing; o_written := inr (demo_map 34); o_LastVoteproof := None;
  o_sent := true; o_sends := fun _ => SendOk; o_GetProposal := fun h => Some h; o_Ask := Ok ("id", true);
  o_NewSyncer := fun _ => inr true; o_IsFinished := (33, true); o_syncerCancel := inr tt; o_syncerDone := None;
  o_JoinMemberlist := inr tt; o_LeaveMemberlist := inr tt |}.
Definition demo_cache_type : Type := list string * gmap string LastVoteproofs.
Definition demo_world : World demo_cache_type := {|
  w_lvps := match (Handler_Set demo_handler (demo_init 33) ≫= fun '(_, h) => Handler_Set h (demo_accept 33)) with
            | Ok (_, h) => h | _ => demo_handler end;
  w_pps := NewProposalProcessors; w_pool := []; w_timers := []; w_finishedWithVoteproof := false; w_entered := 0;
  w_pending := []; w_out := [] |}.
Abbreviation demo_node_handlers := (node_handlers (C := demo_cache_type) demo_xargs demo_yargs false).
Abbreviation demo_node_run := (node_run (C := demo_cache_type) demo_xargs demo_yargs false).
Definition demo_fire (s : States job (World demo_cache_type)) : res (States job (World demo_cache_type)) :=
  match w_timers (st_w s) with
  | (_, bl) :: _ => broadcastBallot bl demo_node_outside s ≫= fun '(s, _) => Ok s
  | [] => Err "no timer"
  end.
(** The first goroutine runs. *)
Definition demo_go (s : States job (World demo_cache_type)) : res (States job (World demo_cache_type)) :=
  states_step (Handlers0 := demo_node_handlers) demo_xargs demo_yargs demo_node_outside (EvGo 0) s ≫= fun '(s, _) => Ok s.
Definition demo_steps (l : list bool) : res (States job (World demo_cache_type)) :=
  start (Handlers0 := demo_node_handlers) demo_node_outside (NewStates true demo_world) ≫= fun '(s, _) =>
  fold_res (fun (fire : bool) s => if fire then demo_fire s else demo_go s) l s.
Lemma demo_steps_run l s : demo_steps l = Ok s -> demo_node_run s.
Proof.
  unfold demo_steps. intros ([s1 r] & Hst & Hl)%bind_ok.
  assert (demo_node_run s1) as Hr1. { eapply nr_start; [apply (nr_new _ _ _ true demo_world); [done..|constructor]|exact Hst]. }
  clear Hst. revert s1 Hl Hr1. induction l as [|fire l IH]; intros s1; simpl; [by intros [= <-]|].
  intros (s2 & Hs & Hl)%bind_ok Hr1. apply (IH s2 Hl). destruct fire.
  - unfold demo_fire in Hs. destruct (w_timers (st_w s1)) as [|[ti bl] t] eqn:Et; [done|].
    apply bind_ok in Hs as ([s3 r3] & Hb & [= <-]). eapply nr_fire; [exact Hr1|rewrite Et; left|exact Hb].
  - unfold demo_go in Hs. apply bind_ok in Hs as ([s3 r3] & Hb & [= <-]). eapply nr_step; [exact Hr1|exact Hb].
Qed.
Definition demo_broadcast : States job (World demo_cache_type) :=
  match demo_steps [false; false; false; true; false; true] with Ok s => s | _ => NewStates true demo_world end.


(** With a timer of the node at the key that has not fired: the timer broadcasts
    its ballot also when the pool has got another one since. *)
Lemma mimic_race_timer :
  let b1 := demo_ballot "f1" "n0" in
  let b2 := demo_ballot "f2" "n0" in
  let '(t, r) := bbt_add b1 (Ok tt) [] in
  r = Ok tt /\ mimic_one (demo_call "f2" "n1") [] = Ok ([b2], [b2]) /\
  (exists ti, t = [(ti, b1)]) /\ Broadcast b1 [b2] = ([b2], [b1]) /\ pool_key b1 = pool_key b2 /\ b1 <> b2.
Proof. vm_compute. split_and!; try done. by eexists. Qed.
