(* ===== verification/Leveldb.v ===== *)
(** * The storage over LevelDB

    [storage/leveldb/db.go] and [storage/leveldb/prefix.go]: the one LevelDB of a
    node, and the parts of it that live under a prefix of the keys.

    LevelDB itself is the class [LevelDB]: an ordered map of byte strings that is
    written in batches and iterated over a snapshot.  Failures of the disk are left
    out. *)
From S2P Require Import Prelude Bytes.

Open Scope Z_scope.

(** ** Byte strings in order *)
Fixpoint bytes_ltb (a b : bytes) : bool :=
  match a, b with
  | [], [] => false
  | [], _ :: _ => true
  | _ :: _, [] => false
  | x :: a, y :: b => (x <? y) || ((x =? y) && bytes_ltb a b)
  end.
Definition bytes_lt (a b : bytes) : Prop := bytes_ltb a b = true.

(** ** LevelDB *)

(** A range of keys; an absent bound is no bound ([leveldbutil.Range]). *)
Record Range := { r_Start : option bytes; r_Limit : option bytes }.
Definition in_range (r : Range) (k : bytes) : Prop :=
  match r_Start r with Some s => bytes_ltb k s = false | None => True end /\
  match r_Limit r with Some l => bytes_lt k l | None => True end.

(** A batch, the oldest first: a put or a delete. *)
Abbreviation batch := (list (bytes * option bytes)).
Definition batch_get (k : bytes) (b : batch) : option (option bytes) :=
  foldl (fun r '(k', v) => if bool_decide (k' = k) then Some v else r) None b.

Class LevelDB (D : Type) := {
  ldb_Get : D -> bytes -> option bytes;
  ldb_Write : D -> batch -> D;
  ldb_entries : Range -> D -> list (bytes * bytes);
  BytesPrefix : bytes -> Range
}.
(** What the documentation of goleveldb says. *)
Class LevelDBLaws (D : Type) `{LevelDB D} : Prop := {
  ldb_Get_bytes d k v : ldb_Get d k = Some v -> is_bytes k;
  ldb_Get_Write d b k : is_bytes k -> ldb_Get (ldb_Write d b) k = default (ldb_Get d k) (batch_get k b);
  ldb_entries_sorted r d : StronglySorted bytes_lt (ldb_entries r d).*1;
  ldb_entries_elem r d k v : (k, v) ∈ ldb_entries r d <-> ldb_Get d k = Some v /\ in_range r k;
  BytesPrefix_start p : r_Start (BytesPrefix p) = Some p;
  BytesPrefix_limit p k : is_bytes p -> is_bytes k ->
    (match r_Limit (BytesPrefix p) with Some l => bytes_lt k l | None => True end <-> bytes_lt k p \/ p `prefix_of` k)
}.

(** ** The storage ([db.go]) *)
Definition ErrClosed : string := "storage closed".
(** A part of the storage: its prefix, which is nil after [Close] ([prefix.go]). *)
Abbreviation PrefixStorage := (option bytes).
Section storage.
Context `{LevelDB D}.

Definition Storage_Get (k : bytes) (d : D) : option bytes := ldb_Get d k.
Definition Storage_Exists (k : bytes) (d : D) : bool := bool_decide (is_Some (ldb_Get d k)).
Definition Storage_Put (k v : bytes) (d : D) : D := ldb_Write d [(k, Some v)].
Definition Storage_Delete (k : bytes) (d : D) : D := ldb_Write d [(k, None)].
Definition Storage_Batch (b : batch) (d : D) : D := ldb_Write d b.

(** [Iter]: the callback changes what it captures, and says whether to go on. *)
Fixpoint iter {M : Type -> Type} `{MRet M, MBind M} {A} (callback : bytes -> bytes -> A -> M (A * bool)%type)
    (l : list (bytes * bytes)) (a : A) : M A :=
  match l with
  | [] => mret a
  | (k, v) :: l => callback k v a ≫= fun '(a, keep) => if keep : bool then iter callback l a else mret a
  end.
Definition Storage_Iter {A} (r : Range) (callback : bytes -> bytes -> A -> res (A * bool)) (ascend : bool) (d : D)
    (a : A) : res A :=
  let l := ldb_entries r d in iter callback (if ascend then l else reverse l) a.

(** [BatchRemove]: the keys of a range, [limit] in a batch; the key at which a
    batch is full is where the next one begins.  Each turn but the last removes
    [limit] keys. *)
Definition batch_remove_step (limit : nat) (k _ : bytes) (a : batch * option bytes) : res ((batch * option bytes) * bool) :=
  if (length a.1 =? limit)%nat then Ok ((a.1, Some k), false) else Ok ((a.1 ++ [(k, None)], a.2), true).
Fixpoint BatchRemove (fuel : nat) (start : option bytes) (r : Range) (limit : nat) (removed : nat) (d : D) : res (nat * D) :=
  match fuel with
  | O => Err "out of fuel"
  | S fuel =>
      let r := {| r_Start := start; r_Limit := r_Limit r |} in
      Storage_Iter r (batch_remove_step limit) true d ([], None) ≫= fun '(b, next) =>
      if (length b =? 0)%nat then Ok (removed, d)
      else
        let d := Storage_Batch b d in
        match next with
        | None => Ok ((removed + length b)%nat, d)
        | Some k => BatchRemove fuel (Some k) r limit (removed + length b)%nat d
        end
  end.

(** ** Batches that are written when they are full ([BatchFunc])

    [None] is a batch that was canceled. *)
Definition batchAdd (batchsize : nat) (op : bytes * option bytes) (b : option batch) (d : D) : res (option batch * D) :=
  match b with
  | None => Err "context canceled"
  | Some b =>
      let b := b ++ [op] in
      if (length b <? batchsize)%nat then Ok (Some b, d) else Ok (Some [], Storage_Batch b d)
  end.
Definition batchDone (b : option batch) (d : D) : res (option batch * D) :=
  match b with
  | None => Err "context canceled"
  | Some [] => Ok (None, d)
  | Some b => Ok (None, Storage_Batch b d)
  end.

(** ** Under a prefix ([prefix.go]) *)
Definition NewPrefixKey (prefix : bytes) (a : list bytes) : bytes := ConcatBytesSlice (prefix :: a).

Definition ps_key (st : PrefixStorage) (b : bytes) : option bytes :=
  match st with
  | None => None
  | Some p => if (length b <? 1)%nat then None else Some (p ++ b)
  end.
Definition ps_keyed {A} (st : PrefixStorage) (b : bytes) (f : bytes -> A) : res A :=
  match ps_key st b with None => Err ErrClosed | Some k => Ok (f k) end.
Definition ps_Get (st : PrefixStorage) (key : bytes) (d : D) : res (option bytes) := ps_keyed st key (fun k => Storage_Get k d).
Definition ps_Exists (st : PrefixStorage) (key : bytes) (d : D) : res bool := ps_keyed st key (fun k => Storage_Exists k d).
Definition ps_Put (st : PrefixStorage) (key v : bytes) (d : D) : res D := ps_keyed st key (fun k => Storage_Put k v d).
Definition ps_Delete (st : PrefixStorage) (key : bytes) (d : D) : res D := ps_keyed st key (fun k => Storage_Delete k d).
Definition ps_Close (st : PrefixStorage) : PrefixStorage := None.
(** A key of the batch of a prefix storage. *)
Definition psb_op (st : PrefixStorage) (op : bytes * option bytes) : bytes * option bytes := (default [] st ++ op.1, op.2).
Definition ps_Batch (st : PrefixStorage) (b : batch) (d : D) : res D :=
  match st with None => Err ErrClosed | Some _ => Ok (Storage_Batch b d) end.

Definition origkey (st : PrefixStorage) (b : bytes) : res bytes :=
  let prefixlen := length (default [] st) in
  if (length b <? 1)%nat then Ok []
  else if (length b <? prefixlen)%nat then Err "get original key; wrong size key"
  else Ok (drop prefixlen b).
(** A bound of the range is a key under the prefix, too. *)
Definition ps_bound (st : PrefixStorage) (given dflt : option bytes) : res (option bytes) :=
  match given with None => Ok dflt | Some b => ps_keyed st b Some end.
Definition ps_range (st : PrefixStorage) (r : Range) : res Range :=
  let nr := BytesPrefix (default [] st) in
  ps_bound st (r_Start r) (r_Start nr) ≫= fun s =>
  ps_bound st (r_Limit r) (r_Limit nr) ≫= fun l => Ok {| r_Start := s; r_Limit := l |}.
Definition ps_Iter {A} (st : PrefixStorage) (r : Range) (callback : bytes -> bytes -> A -> res (A * bool)) (ascend : bool)
    (d : D) (a : A) : res A :=
  ps_range st r ≫= fun nr =>
  Storage_Iter nr (fun k v a => origkey st k ≫= fun k => callback k v a) ascend d a.
Definition whole : Range := {| r_Start := None; r_Limit := None |}.

(** [RemoveByPrefix]: the iterator does not see what is flushed meanwhile. *)
Definition batchLimit : Z := 10000.
Definition remove_step (k _ : bytes) (a : batch * D) : res ((batch * D) * bool) :=
  let b := a.1 ++ [(k, None)] in
  if batchLimit <=? Z.of_nat (length b) then Ok (([], Storage_Batch b a.2), true) else Ok ((b, a.2), true).
Definition RemoveByPrefix (prefix : bytes) (d : D) : res D :=
  Storage_Iter (BytesPrefix prefix) remove_step true d ([], d) ≫= fun '(b, d) =>
  Ok (if (length b =? 0)%nat then d else Storage_Batch b d).
Definition ps_Remove (st : PrefixStorage) (d : D) : res D := RemoveByPrefix (default [] st) d.
End storage.

(** ** The order of byte strings *)
Lemma bytes_lt_cons x y a b : bytes_lt (x :: a) (y :: b) <-> x < y \/ x = y /\ bytes_lt a b.
Proof. unfold bytes_lt. simpl. rewrite orb_true_iff, andb_true_iff, Z.ltb_lt, Z.eqb_eq. done. Qed.
Lemma bytes_lt_nil a : ~ bytes_lt a [].
Proof. by destruct a. Qed.
Lemma bytes_nil_lt a : bytes_lt [] a <-> a <> [].
Proof. by destruct a. Qed.

#[export] Instance bytes_lt_irrefl : Irreflexive bytes_lt.
Proof.
  intros a. change (~ bytes_lt a a). induction a as [|x a IH]; [done|]. rewrite bytes_lt_cons. intros [?|[_ ?]]; [lia|done].
Qed.
#[export] Instance bytes_lt_trans : Transitive bytes_lt.
Proof.
  intros a b. revert a. induction b as [|y b IH]; intros [|x a] [|z c]; try done.
  rewrite !bytes_lt_cons. intros [?|[-> ?]] [?|[-> ?]]; [left; lia|by left|by left|right; eauto].
Qed.
Lemma bytes_lt_total a b : bytes_lt a b \/ a = b \/ bytes_lt b a.
Proof.
  revert b. induction a as [|x a IH]; intros [|y b]; [by right; left|by left|by right; right|].
  rewrite !bytes_lt_cons. destruct (Z.lt_trichotomy x y) as [?|[->|?]]; [by left; left| |by right; right; left].
  destruct (IH b) as [?|[->|?]]; [by left; right|by right; left|by right; right; right].
Qed.
Lemma bytes_ltb_false a b : bytes_ltb a b = false <-> b = a \/ bytes_lt b a.
Proof.
  split.
  - intros Hf. destruct (bytes_lt_total a b) as [Hl|[->|?]]; [|by left|by right]. by rewrite Hl in Hf.
  - intros Hb. destruct (bytes_ltb a b) eqn:E; [|done]. change (bytes_lt a b) in E. destruct Hb as [->|Hb].
    + by destruct (irreflexivity bytes_lt a).
    + exfalso. apply (irreflexivity bytes_lt a). by transitivity b.
Qed.
Lemma bytes_ltb_prefix p k : p `prefix_of` k -> bytes_ltb k p = false.
Proof.
  intros [r ->]. apply bytes_ltb_false. induction p as [|x p IH]; [destruct r; [by left|by right]|].
  simpl. destruct IH as [IH|IH]; [left; by rewrite <- IH|right; apply bytes_lt_cons; by right].
Qed.
Lemma bytes_ltb_app p a b : bytes_ltb (p ++ a) (p ++ b) = bytes_ltb a b.
Proof. induction p as [|x p IH]; [done|]. simpl. by rewrite Z.ltb_irrefl, Z.eqb_refl, IH. Qed.
Lemma bytes_between p a b k : bytes_ltb k (p ++ a) = false -> bytes_lt k (p ++ b) -> p `prefix_of` k.
Proof.
  revert k. induction p as [|x p IH]; intros k; [intros; apply prefix_nil|].
  destruct k as [|y k]; [done|]. simpl app. rewrite bytes_lt_cons. simpl. rewrite orb_false_iff, Z.ltb_ge.
  intros [Hx Hk] [?|[-> Hl]]; [lia|]. rewrite Z.eqb_refl in Hk. by apply prefix_cons, IH.
Qed.

(** Two lists in order with the same elements are the same. *)
Lemma sorted_entries_unique (l1 l2 : list (bytes * bytes)) :
  StronglySorted bytes_lt l1.*1 -> StronglySorted bytes_lt l2.*1 -> (forall e, e ∈ l1 <-> e ∈ l2) -> l1 = l2.
Proof.
  revert l2. induction l1 as [|[k v] l1 IH]; intros [|[k' v'] l2] S1 S2 Hl; [done|..].
  - exfalso. by apply (not_elem_of_nil (k', v')), Hl, list_elem_of_here.
  - exfalso. by apply (not_elem_of_nil (k, v)), Hl, list_elem_of_here.
  - simpl in S1, S2. inversion S1 as [|? ? S1' F1]. inversion S2 as [|? ? S2' F2]. subst.
    rewrite Forall_fmap, Forall_forall in F1, F2. simpl in F1, F2.
    assert ((k, v) = (k', v')) as E.
    { pose proof (proj1 (Hl (k, v)) (list_elem_of_here _ _)) as [E|H1]%elem_of_cons; [done|].
      pose proof (proj2 (Hl (k', v')) (list_elem_of_here _ _)) as [E|H2]%elem_of_cons; [done|].
      apply F2 in H1. apply F1 in H2. simpl in *. exfalso. apply (irreflexivity bytes_lt k). by transitivity k'. }
    injection E as <- <-. f_equal. apply IH; [done..|]. intros [k2 v2]. split; intros He.
    + pose proof (F1 _ He) as Hlt. apply (list_elem_of_further _ (k, v)), Hl, elem_of_cons in He as [[= -> ->]|He]; [|done].
      by destruct (irreflexivity bytes_lt k).
    + pose proof (F2 _ He) as Hlt. apply (list_elem_of_further _ (k, v)), Hl, elem_of_cons in He as [[= -> ->]|He]; [|done].
      by destruct (irreflexivity bytes_lt k).
Qed.

(** ** Iteration *)
Lemma iter_fold {A} (f : A -> bytes * bytes -> A) l a :
  iter (fun k v a => Ok (f a (k, v), true)) l a = Ok (foldl f a l).
Proof. revert a. induction l as [|[k v] l IH]; intros a; [done|]. simpl. apply IH. Qed.
Lemma iter_ext {A} (f g : bytes -> bytes -> A -> res (A * bool)) l a :
  (forall k v a, (k, v) ∈ l -> f k v a = g k v a) -> iter f l a = iter g l a.
Proof.
  revert a. induction l as [|[k v] l IH]; intros a Hfg; [done|]. simpl. rewrite Hfg by apply list_elem_of_here.
  destruct (g k v a) as [[a' [|]]| |]; [|done..]. apply IH. intros. apply Hfg. by apply list_elem_of_further.
Qed.
Lemma iter_map {A} (f : bytes -> bytes -> A -> res (A * bool)) (g : bytes -> bytes) l a :
  iter (fun k v a => f (g k) v a) l a = iter f ((fun kv => (g kv.1, kv.2)) <$> l) a.
Proof.
  revert a. induction l as [|[k v] l IH]; intros a; [done|]. simpl.
  destruct (f (g k) v a) as [[a' [|]]| |]; [|done..]. apply IH.
Qed.

(** ** Batches *)
Lemma batch_get_nil k : batch_get k [] = None.
Proof. done. Qed.
Lemma batch_get_snoc k b k' v : batch_get k (b ++ [(k', v)]) = if decide (k' = k) then Some v else batch_get k b.
Proof.
  unfold batch_get. rewrite foldl_snoc. case_bool_decide; by rewrite ?decide_True, ?decide_False by done.
Qed.
Lemma batch_get_app k b b' : batch_get k (b ++ b') = match batch_get k b' with Some o => Some o | None => batch_get k b end.
Proof.
  revert b. induction b' as [|[k' v'] b' IH] using rev_ind; intros b; [by rewrite app_nil_r|].
  rewrite app_assoc, !batch_get_snoc, IH. by destruct (decide (k' = k)).
Qed.
Lemma batch_get_None k b : batch_get k b = None <-> k ∉ b.*1.
Proof.
  induction b as [|[k' v] b IH] using rev_ind.
  - split; [intros _; apply not_elem_of_nil|done].
  - rewrite batch_get_snoc, fmap_app. simpl. rewrite not_elem_of_app, list_elem_of_singleton.
    destruct (decide (k' = k)) as [->|Hn]; [naive_solver|]. rewrite IH. split; [intros; split; [done|congruence]|by intros []].
Qed.
(** Deletes only. *)
Definition deletes (ks : list bytes) : batch := (fun k => (k, None)) <$> ks.
Lemma batch_get_deletes k ks : batch_get k (deletes ks) = if decide (k ∈ ks) then Some None else None.
Proof.
  induction ks as [|k' ks IH] using rev_ind.
  - by rewrite decide_False by apply not_elem_of_nil.
  - unfold deletes in *. rewrite fmap_app. simpl. rewrite batch_get_snoc, IH.
    destruct (decide (k' = k)) as [->|]; [rewrite decide_True; [done|set_solver]|].
    destruct (decide (k ∈ ks)); [rewrite decide_True; [done|set_solver]|rewrite decide_False; [done|set_solver]].
Qed.

Section laws.
Context {D : Type} `{LevelDBLaws D}.

(** What a batch would leave. *)
Definition after (b : batch) (d : D) (k : bytes) : option bytes := default (ldb_Get d k) (batch_get k b).
Lemma ldb_Get_not_bytes (d : D) k : ~ is_bytes k -> ldb_Get d k = None.
Proof. intros Hk. destruct (ldb_Get d k) eqn:E; [by apply ldb_Get_bytes in E|done]. Qed.
Lemma Get_Storage_Batch b (d : D) k : is_bytes k -> ldb_Get (Storage_Batch b d) k = after b d k.
Proof. apply ldb_Get_Write. Qed.
Lemma Get_deletes ks (d : D) k : ldb_Get (Storage_Batch (deletes ks) d) k = if decide (k ∈ ks) then None else ldb_Get d k.
Proof.
  destruct (decide (is_bytes k)) as [Hk|Hk].
  - rewrite Get_Storage_Batch by done. unfold after. rewrite batch_get_deletes. by destruct (decide (k ∈ ks)).
  - rewrite !ldb_Get_not_bytes by done. by destruct (decide (k ∈ ks)).
Qed.

Definition in_rangeb (r : Range) (k : bytes) : bool :=
  match r_Start r with Some s => negb (bytes_ltb k s) | None => true end &&
  match r_Limit r with Some l => bytes_ltb k l | None => true end.
Lemma in_rangeb_spec r k : in_rangeb r k = true <-> in_range r k.
Proof.
  unfold in_rangeb, in_range, bytes_lt. rewrite andb_true_iff.
  destruct (r_Start r); destruct (r_Limit r); rewrite ?negb_true_iff; naive_solver.
Qed.
#[export] Instance in_range_dec r k : Decision (in_range r k).
Proof. destruct (in_rangeb r k) eqn:E; [left; by apply in_rangeb_spec|right; rewrite <- in_rangeb_spec; by rewrite E]. Defined.

Lemma in_BytesPrefix p k : is_bytes p -> is_bytes k -> in_range (BytesPrefix p) k <-> p `prefix_of` k.
Proof.
  intros Hp Hk. unfold in_range. rewrite BytesPrefix_start, (BytesPrefix_limit p k Hp Hk). split.
  - intros [Hs [Hl|?]]; [|done]. by rewrite Hl in Hs.
  - intros Hpk. split; [by apply bytes_ltb_prefix|by right].
Qed.

Lemma entries_keys r (d : D) k : k ∈ (ldb_entries r d).*1 <-> is_Some (ldb_Get d k) /\ in_range r k.
Proof.
  rewrite list_elem_of_fmap. split.
  - intros ([k' v] & -> & [Hv Hr]%ldb_entries_elem). by split; [exists v|].
  - intros [[v Hv] Hr]. exists (k, v). split; [done|]. by apply ldb_entries_elem.
Qed.

(** [RemoveByPrefix] *)
Lemma remove_step_spec k0 v0 b (d : D) : exists b1 d1, remove_step k0 v0 (b, d) = Ok ((b1, d1), true) /\
  forall k, is_bytes k -> after b1 d1 k = if decide (k = k0) then None else after b d k.
Proof.
  assert (forall k, after (b ++ [(k0, None)]) d k = if decide (k = k0) then None else after b d k) as Hs.
  { intros k. unfold after. rewrite batch_get_snoc. destruct (decide (k0 = k)) as [->|].
    - by rewrite decide_True by done.
    - by rewrite decide_False by congruence. }
  unfold remove_step. simpl fst. simpl snd. destruct (Z.leb _ _); eexists _, _; (split; [done|]); intros k Hk.
  - rewrite <- Hs. unfold after at 1. simpl. by apply Get_Storage_Batch.
  - apply Hs.
Qed.
Lemma remove_steps l b (d : D) : exists b' d',
  iter remove_step l (b, d) = Ok (b', d') /\
  forall k, is_bytes k -> after b' d' k = if decide (k ∈ l.*1) then None else after b d k.
Proof.
  revert b d. induction l as [|[k0 v0] l IH]; intros b d.
  { exists b, d. split; [done|]. intros k. by rewrite decide_False by apply not_elem_of_nil. }
  cbn [iter]. destruct (remove_step_spec k0 v0 b d) as (b1 & d1 & -> & H1'). run.
  destruct (IH b1 d1) as (b' & d' & -> & Hb'). exists b', d'. split; [done|].
  intros k Hk. rewrite Hb', H1' by done.
  destruct (decide (k ∈ l.*1)), (decide (k = k0)), (decide (k ∈ ((k0, v0) :: l).*1)); set_solver.
Qed.

Lemma RemoveByPrefix_spec p (d : D) : is_bytes p -> exists d', RemoveByPrefix p d = Ok d' /\
  forall k, ldb_Get d' k = if decide (p `prefix_of` k) then None else ldb_Get d k.
Proof.
  intros Hp. unfold RemoveByPrefix, Storage_Iter.
  destruct (remove_steps (ldb_entries (BytesPrefix p) d) [] d) as (b & d1 & -> & Ha). run.
  exists (if (length b =? 0)%nat then d1 else Storage_Batch b d1). split; [done|]. intros k.
  destruct (decide (is_bytes k)) as [Hk|Hk].
  2:{ rewrite !ldb_Get_not_bytes by done. by destruct (decide _). }
  trans (after b d1 k).
  { destruct b as [|x b]; simpl length; [done|]. by apply Get_Storage_Batch. }
  rewrite Ha by done. unfold after. simpl.
  destruct (decide (k ∈ (ldb_entries (BytesPrefix p) d).*1)) as [He|He].
  - apply entries_keys in He as [_ Hr%in_BytesPrefix]; [|done..]. by rewrite decide_True.
  - destruct (decide (p `prefix_of` k)) as [Hpk|]; [|done]. destruct (ldb_Get d k) eqn:E; [|done].
    destruct He. apply entries_keys. split; [by rewrite E|]. by apply in_BytesPrefix.
Qed.

(** [BatchRemove] *)
Lemma batch_remove_iter limit l b : (length b <= limit)%nat ->
  iter (batch_remove_step limit) l (b, None) =
    Ok (b ++ deletes (take (limit - length b) l.*1), head (drop (limit - length b) l.*1)).
Proof.
  revert b. induction l as [|[k v] l IH]; intros b Hb; cbn [iter].
  { simpl. by rewrite take_nil, drop_nil, app_nil_r. }
  change (batch_remove_step limit k v (b, None)) with
    (if (length b =? limit)%nat then Ok ((b, Some k), false) else Ok ((b ++ [(k, None)], @None bytes), true)).
  destruct (Nat.eqb_spec (length b) limit) as [E|Hn]; run.
  - replace (limit - length b)%nat with 0%nat by lia. simpl. by rewrite app_nil_r.
  - change (iter (batch_remove_step limit) l (b ++ [(k, None)], None) =
      Ok (b ++ deletes (take (limit - length b) (k :: l.*1)), head (drop (limit - length b) (k :: l.*1)))).
    rewrite IH by (rewrite length_app; simpl; lia). rewrite length_app. simpl length.
    replace (limit - length b)%nat with (S (limit - (length b + 1))) by lia. simpl. by rewrite <- app_assoc.
Qed.

Lemma sorted_split (l1 l2 : list bytes) k : StronglySorted bytes_lt (l1 ++ k :: l2) ->
  (forall x, x ∈ l1 -> bytes_lt x k) /\ (forall x, x ∈ k :: l2 -> bytes_ltb x k = false).
Proof.
  induction l1 as [|y l1 IH]; simpl; intros S.
  - split; [intros x Hx; by apply elem_of_nil in Hx|]. inversion S as [|? ? _ F]. subst.
    rewrite Forall_forall in F. intros x [->|Hx]%elem_of_cons; apply bytes_ltb_false; [by left|right; by apply F].
  - inversion S as [|? ? S' F]. subst. destruct (IH S') as [H1 H2]. split; [|done].
    rewrite Forall_forall in F. intros x [->|Hx]%elem_of_cons; [|by apply H1].
    apply F, elem_of_app. right. apply list_elem_of_here.
Qed.

Lemma head_drop_keys n (l : list (bytes * bytes)) k : head (drop n l.*1) = Some k ->
  exists l1 v l2, l = l1 ++ (k, v) :: l2 /\ length l1 = n.
Proof.
  revert l. induction n as [|n IH]; intros [|[k' v'] l]; [done| |done|]; simpl.
  - intros [= ->]. by exists [], v', l.
  - intros (l1 & v & l2 & -> & <-)%IH. by exists ((k', v') :: l1), v, l2.
Qed.

(** What is left once the keys before [k] are gone. *)
Lemma rest_entries start lim k v l1 l2 (d d1 : D) :
  ldb_entries {| r_Start := start; r_Limit := lim |} d = l1 ++ (k, v) :: l2 ->
  (forall x, ldb_Get d1 x = if decide (x ∈ l1.*1) then None else ldb_Get d x) ->
  ldb_entries {| r_Start := Some k; r_Limit := lim |} d1 = (k, v) :: l2.
Proof.
  intros El Hd1. pose proof (ldb_entries_sorted {| r_Start := start; r_Limit := lim |} d) as S.
  rewrite El, fmap_app in S. simpl in S. destruct (sorted_split _ _ _ S) as [Hlt Hge].
  apply sorted_entries_unique; [apply ldb_entries_sorted|..].
  { clear Hlt Hge Hd1 El. induction l1 as [|y l1 IH]; [done|]. simpl in S. inversion S. auto. }
  intros [x w]. rewrite ldb_entries_elem, Hd1. unfold in_range. simpl.
  assert ((x, w) ∈ l1 ++ (k, v) :: l2 <-> ldb_Get d x = Some w /\ in_range {| r_Start := start; r_Limit := lim |} x) as HL
    by (by rewrite <- El, ldb_entries_elem).
  unfold in_range in HL. simpl in HL. split.
  - destruct (decide (x ∈ l1.*1)) as [|Hx]; [by intros [? _]|]. intros (Hg & Hk & Hl).
    assert ((x, w) ∈ l1 ++ (k, v) :: l2) as [Hin|Hin]%elem_of_app; [|destruct Hx; by apply (list_elem_of_fmap_2 fst) in Hin|done].
    apply HL. split; [done|]. split; [|done]. destruct start as [s|]; [|done].
    assert ((k, v) ∈ ldb_entries {| r_Start := Some s; r_Limit := lim |} d) as [_ [Hs _]]%ldb_entries_elem
      by (rewrite El; apply elem_of_app; right; apply list_elem_of_here).
    simpl in Hs. apply bytes_ltb_false in Hs, Hk. apply bytes_ltb_false.
    destruct Hs as [->|Hs], Hk as [->|Hk]; [by left|by right|by right|right; by transitivity k].
  - intros Hin. assert (x ∈ k :: l2.*1) as Hx by (by apply (list_elem_of_fmap_2 fst) in Hin).
    apply Hge in Hx. destruct (proj1 HL) as (Hg & Hs & Hl); [apply elem_of_app; by right|].
    rewrite decide_False; [done|]. intros Hx1%Hlt. by rewrite Hx1 in Hx.
Qed.

(** Every key of the range is removed, and counted; [fuel] is above their number. *)
Lemma BatchRemove_spec fuel start r limit removed (d : D) :
  let range := {| r_Start := start; r_Limit := r_Limit r |} in
  (0 < limit)%nat -> (length (ldb_entries range d) < fuel)%nat ->
  exists d', BatchRemove fuel start r limit removed d = Ok ((removed + length (ldb_entries range d))%nat, d') /\
    forall k, ldb_Get d' k = if decide (in_range range k) then None else ldb_Get d k.
Proof.
  intros range Hlimit. subst range. revert start r removed d.
  induction fuel as [|fuel IH]; intros start r removed d Hf; [lia|].
  cbn [BatchRemove]. unfold Storage_Iter. rewrite batch_remove_iter by (simpl; lia). run. simpl length. rewrite Nat.sub_0_r.
  set (range := {| r_Start := start; r_Limit := r_Limit r |}) in *. rewrite app_nil_l.
  assert (length (deletes (take limit (ldb_entries range d).*1)) = Nat.min limit (length (ldb_entries range d))) as El.
  { unfold deletes. by rewrite length_fmap, length_take, length_fmap. }
  rewrite El. set (d1 := Storage_Batch _ d).
  assert (forall k, ldb_Get d1 k = if decide (k ∈ take limit (ldb_entries range d).*1) then None else ldb_Get d k) as Hd1
    by (intros k; apply Get_deletes). clearbody d1.
  destruct (Nat.eqb_spec (Nat.min limit (length (ldb_entries range d))) 0) as [E0|E0].
  { assert (length (ldb_entries range d) = 0)%nat as En by lia. exists d. rewrite En, Nat.add_0_r. split; [done|].
    apply nil_length_inv in En. intros k. destruct (decide _) as [Hr|]; [|done].
    destruct (ldb_Get d k) eqn:Eg; [|done]. assert (k ∈ (ldb_entries range d).*1) as Hk by (apply entries_keys; by rewrite Eg).
    rewrite En in Hk. by apply elem_of_nil in Hk. }
  destruct (head (drop limit (ldb_entries range d).*1)) as [k0|] eqn:Eh.
  - destruct (head_drop_keys _ _ _ Eh) as (l1 & v & l2 & Er & Hl1). rename k0 into k.
    rewrite Er in Hd1, Hf |- *. rewrite fmap_app, take_app_length' in Hd1 by (by rewrite length_fmap).
    pose proof (rest_entries start (r_Limit r) k v l1 l2 d d1 Er Hd1) as Hrest.
    rewrite length_app in Hf |- *. simpl in Hf |- *.
    destruct (IH (Some k) range (removed + Nat.min limit (length l1 + S (length l2)))%nat d1)
      as (d' & Hb & Hd'); change (r_Limit range) with (r_Limit r) in *. { rewrite Hrest. simpl. lia. }
    rewrite Hrest in Hb. exists d'. split.
    { rewrite Hb. simpl. do 2 f_equal. lia. }
    intros x. rewrite Hd', Hd1. pose proof (ldb_entries_sorted range d) as S. rewrite Er, fmap_app in S.
    destruct (sorted_split _ _ _ S) as [Hlt _].
    destruct (decide (in_range {| r_Start := Some k; r_Limit := r_Limit r |} x)) as [Hin|Hin].
    + rewrite decide_True; [done|]. unfold range, in_range in *. simpl in *. destruct Hin as [Hs Hl]. split; [|done].
      destruct start as [s|]; [|done].
      assert ((k, v) ∈ ldb_entries {| r_Start := Some s; r_Limit := r_Limit r |} d) as [_ [Hk _]]%ldb_entries_elem
        by (rewrite Er; apply elem_of_app; right; apply list_elem_of_here).
      simpl in Hk. apply bytes_ltb_false in Hs, Hk. apply bytes_ltb_false.
      destruct Hs as [->|Hs], Hk as [->|Hk]; [by left|by right|by right|right; by transitivity k].
    + destruct (decide (x ∈ l1.*1)) as [Hx|Hx].
      * rewrite decide_True; [done|]. assert (x ∈ (ldb_entries range d).*1) as [_ ?]%entries_keys; [|done].
        rewrite Er, fmap_app. apply elem_of_app. by left.
      * destruct (decide (in_range range x)) as [Hr|]; [|done]. destruct (ldb_Get d x) eqn:Eg; [|done].
        assert (x ∈ (ldb_entries range d).*1) as Hk by (apply entries_keys; by rewrite Eg).
        rewrite Er, fmap_app in Hk. apply elem_of_app in Hk as [|Hk]; [done|]. destruct Hin.
        destruct (sorted_split _ _ _ S) as [_ Hge]. split; [by apply Hge|]. by destruct Hr.
  - exists d1. split.
    + do 2 f_equal. assert (length (ldb_entries range d) <= limit)%nat; [|lia].
      apply Nat.nlt_ge. intros Hlt. apply (f_equal (fun o => bool_decide (is_Some o))) in Eh.
      destruct (drop limit (ldb_entries range d).*1) as [|x l] eqn:Ed; [|done].
      apply (f_equal length) in Ed. rewrite length_drop, length_fmap in Ed. simpl in Ed. lia.
    + assert (take limit (ldb_entries range d).*1 = (ldb_entries range d).*1) as Et.
      { apply take_ge. apply Nat.nlt_ge. intros Hlt. destruct (drop limit (ldb_entries range d).*1) as [|x l] eqn:Ed; [|done].
        apply (f_equal length) in Ed. rewrite length_drop in Ed. simpl in Ed. lia. }
      intros k. rewrite Hd1, Et. destruct (decide (k ∈ _)) as [[_ Hr]%entries_keys|Hn]; [by rewrite decide_True|].
      destruct (decide (in_range range k)); [|done]. destruct (ldb_Get d k) eqn:Eg; [|done].
      destruct Hn. apply entries_keys. by rewrite Eg.
Qed.

(** *** Under a prefix *)
Definition range_given (r : Range) : Prop := r_Start r <> Some [] /\ r_Limit r <> Some [].

Lemma ps_range_ok p r : is_bytes p -> range_given r -> exists nr, ps_range (Some p) r = Ok nr /\
  forall k, is_bytes k -> in_range nr k <-> exists k', k = p ++ k' /\ in_range r k'.
Proof.
  intros Hp [Hs Hl].
  assert (forall b dflt, b <> Some [] ->
    ps_bound (Some p) b dflt = Ok (match b with None => dflt | Some b => Some (p ++ b) end)) as Hb.
  { intros [[|x b]|] dflt Hb; [done|done|done]. }
  unfold ps_range. rewrite !Hb by done. run. eexists. split; [done|]. intros k Hk. simpl default.
  rewrite BytesPrefix_start. unfold in_range at 1. simpl. split.
  - intros [H1 H2]. assert (p `prefix_of` k) as [k' ->].
    { destruct (r_Limit r) as [l|].
      - destruct (r_Start r) as [s|]; [by apply (bytes_between p s l)|].
        apply (bytes_between p [] l); [by rewrite app_nil_r|done].
      - apply BytesPrefix_limit in H2 as [H2|]; [|done..|done]. exfalso.
        assert (bytes_ltb k p = false) as Hf; [|by rewrite H2 in Hf].
        destruct (r_Start r) as [s|]; [|done]. apply bytes_ltb_false. right.
        assert (bytes_ltb (p ++ s) p = false) as [Ep|?]%bytes_ltb_false by (by apply bytes_ltb_prefix, prefix_app_r); exfalso.
        + rewrite <- Ep, H2 in H1. done.
        + assert (bytes_lt k (p ++ s)) as Hk' by (by transitivity p). by rewrite Hk' in H1. }
    exists k'. split; [done|]. unfold in_range. destruct (r_Start r); destruct (r_Limit r);
      unfold bytes_lt in *; rewrite ?bytes_ltb_app in H1; rewrite ?bytes_ltb_app in H2; done.
  - intros (k' & -> & H1 & H2). split.
    + destruct (r_Start r); [by rewrite bytes_ltb_app|]. by apply bytes_ltb_prefix, prefix_app_r.
    + destruct (r_Limit r); [unfold bytes_lt; by rewrite bytes_ltb_app|].
      apply BytesPrefix_limit; [done..|]. right. by apply prefix_app_r.
Qed.

(** The entries of a range under a prefix, without it. *)
Definition ps_list (p : bytes) (r : Range) (d : D) : list (bytes * bytes) :=
  match ps_range (Some p) r with
  | Ok nr => (fun kv => (drop (length p) kv.1, kv.2)) <$> ldb_entries nr d
  | _ => []
  end.

Lemma ps_list_elem p r (d : D) k v : is_bytes p -> range_given r ->
  (k, v) ∈ ps_list p r d <-> ldb_Get d (p ++ k) = Some v /\ in_range r k.
Proof.
  intros Hp Hr. destruct (ps_range_ok p r Hp Hr) as (nr & En & Hn). unfold ps_list. rewrite En, list_elem_of_fmap. split.
  - intros ([k' v'] & [= -> ->] & [Hg Hin]%ldb_entries_elem). simpl in *.
    apply Hn in Hin as (k & -> & Hin); [|by eapply ldb_Get_bytes]. by rewrite drop_app_length.
  - intros [Hg Hin]. exists (p ++ k, v). simpl. rewrite drop_app_length. split; [done|].
    apply ldb_entries_elem. split; [done|]. apply Hn; [by eapply ldb_Get_bytes|]. by exists k.
Qed.
Lemma drop_sorted p ks : (forall k, k ∈ ks -> p `prefix_of` k) -> StronglySorted bytes_lt ks ->
  StronglySorted bytes_lt (drop (length p) <$> ks).
Proof.
  intros Hpre S. induction S as [|k ks S IH F]; [constructor|]. rewrite fmap_cons.
  constructor; [apply IH; intros; apply Hpre; by apply list_elem_of_further|].
  rewrite Forall_fmap. rewrite Forall_forall in F |- *. intros k2 H2. specialize (F k2 H2). simpl.
  destruct (Hpre k) as [k' ->]; [apply list_elem_of_here|]. destruct (Hpre k2) as [k2' ->]; [by apply list_elem_of_further|].
  unfold bytes_lt in *. by rewrite !drop_app_length, bytes_ltb_app in *.
Qed.
Lemma ps_list_sorted p r (d : D) : is_bytes p -> range_given r -> StronglySorted bytes_lt (ps_list p r d).*1.
Proof.
  intros Hp Hr. destruct (ps_range_ok p r Hp Hr) as (nr & En & Hn). unfold ps_list. rewrite En.
  assert (forall k, k ∈ (ldb_entries nr d).*1 -> p `prefix_of` k) as Hpre.
  { intros k [[v Hg] Hin]%entries_keys. apply Hn in Hin as (k' & -> & _); [by apply prefix_app_r|by eapply ldb_Get_bytes]. }
  replace (((fun kv : bytes * bytes => (drop (length p) kv.1, kv.2)) <$> ldb_entries nr d).*1)
    with (drop (length p) <$> (ldb_entries nr d).*1) by (by rewrite <- !list_fmap_compose).
  apply drop_sorted; [done|]. apply ldb_entries_sorted.
Qed.
(** Prefix storages with the same entries are listed alike. *)
Lemma ps_list_ext p p' r (d d' : D) : is_bytes p -> is_bytes p' -> range_given r ->
  (forall k, in_range r k -> ldb_Get d (p ++ k) = ldb_Get d' (p' ++ k)) -> ps_list p r d = ps_list p' r d'.
Proof.
  intros Hp Hp' Hr Hg. apply sorted_entries_unique; [by apply ps_list_sorted..|].
  intros [k v]. rewrite !ps_list_elem by done. split; intros [Hv Hin]; (split; [|done]).
  - by rewrite <- Hg.
  - by rewrite Hg.
Qed.

Lemma ps_Iter_list {A} p r (f : bytes -> bytes -> A -> res (A * bool)) asc (d : D) a : is_bytes p -> range_given r ->
  ps_Iter (Some p) r f asc d a = iter f (if asc : bool then ps_list p r d else reverse (ps_list p r d)) a.
Proof.
  intros Hp Hr. destruct (ps_range_ok p r Hp Hr) as (nr & En & Hn). unfold ps_Iter, ps_list. rewrite En. run.
  unfold Storage_Iter.
  assert (forall l, (forall kv, kv ∈ l -> kv ∈ ldb_entries nr d) ->
    iter (fun k v a => origkey (Some p) k ≫= fun k => f k v a) l a =
    iter f ((fun kv => (drop (length p) kv.1, kv.2)) <$> l) a) as Hl.
  { intros l Hl. rewrite <- (iter_map f (fun k => drop (length p) k)). apply iter_ext. intros k v a' Hin%Hl.
    apply ldb_entries_elem in Hin as [Hg Hin]. apply Hn in Hin as (k' & -> & _); [|by eapply ldb_Get_bytes].
    unfold origkey. simpl default. rewrite drop_app_length.
    destruct (Nat.ltb_spec (length (p ++ k')) 1) as [Hlen|_].
    - rewrite length_app in Hlen. destruct k' as [|x k']; [done|]. simpl in Hlen. lia.
    - rewrite length_app. destruct (Nat.ltb_spec (length p + length k') (length p)); [lia|done]. }
  destruct asc; rewrite Hl; [done|done| |].
  - by rewrite fmap_reverse.
  - intros kv Hkv. by rewrite reverse_Permutation in Hkv.
Qed.

Lemma prefix_given p : is_bytes p -> p <> [] -> range_given (BytesPrefix (D := D) p).
Proof.
  intros Hp Hne. split.
  - rewrite BytesPrefix_start. congruence.
  - intros Hl. pose proof (BytesPrefix_limit (D := D) p p Hp Hp) as Hb. rewrite Hl in Hb.
    apply (bytes_lt_nil p). apply Hb. right. done.
Qed.

(** [BatchRemove] ends, whatever the size of a batch: it removes exactly the keys
    of the range, gives back how many there were, and leaves every other key. *)
Theorem BatchRemove_removes start r limit (d : D) : (0 < limit)%nat ->
  let range := {| r_Start := start; r_Limit := r_Limit r |} in
  exists fuel d', BatchRemove fuel start r limit 0 d = Ok (length (ldb_entries range d), d') /\
    (forall k, in_range range k -> ldb_Get d' k = None) /\ (forall k, ~ in_range range k -> ldb_Get d' k = ldb_Get d k).
Proof.
  intros Hl range. destruct (BatchRemove_spec (S (length (ldb_entries range d))) start r limit 0 d Hl) as (d' & E1 & Hd); [apply Nat.lt_succ_diag_r|].
  exists (S (length (ldb_entries range d))), d'. split; [exact E1|]. fold range in Hd. split; intros k Hk; rewrite Hd.
  - by rewrite decide_True.
  - by rewrite decide_False.
Qed.
Lemma whole_given : range_given whole.
Proof. done. Qed.
Lemma in_whole k : in_range whole k.
Proof. done. Qed.
End laws.

(** ** A concrete LevelDB: a map of byte strings *)
Module MapDB.
Abbreviation D := (gmap bytes bytes).

Fixpoint prefix_limit (p : bytes) : option bytes :=
  match p with
  | [] => None
  | c :: p => match prefix_limit p with
              | Some l => Some (c :: l)
              | None => if c <? 255 then Some [c + 1] else None
              end
  end.
Definition get (d : D) (k : bytes) : option bytes := if decide (is_bytes k) then d !! k else None.
Definition bytes_le (a b : bytes) : Prop := bytes_ltb b a = false.
#[export] Instance bytes_le_dec : RelDecision bytes_le.
Proof. intros a b. unfold bytes_le. apply _. Defined.
Definition entries (r : Range) (d : D) : list (bytes * bytes) :=
  omap (fun k => (fun v => (k, v)) <$> get d k)
    (merge_sort bytes_le (filter (fun k => in_rangeb r k = true) (map_to_list d).*1)).

#[export] Instance leveldb : LevelDB D := {|
  ldb_Get := get;
  ldb_Write d b := foldl (fun d op => match op.2 with Some v => <[op.1 := v]> d | None => delete op.1 d end) d b;
  ldb_entries := entries;
  BytesPrefix p := {| r_Start := Some p; r_Limit := prefix_limit p |}
|}.

Lemma bytes_le_lt a b : bytes_le a b <-> a = b \/ bytes_lt a b.
Proof. apply bytes_ltb_false. Qed.
#[export] Instance bytes_le_total : TotalOrder bytes_le.
Proof.
  split; [split; [split|]|].
  - intros a. apply bytes_le_lt. by left.
  - intros a b c. rewrite !bytes_le_lt. intros [->|?] [->|?]; [by left|by right|by right|right; by transitivity b].
  - intros a b. rewrite !bytes_le_lt. intros [->|H1] [E|H2]; [done..|].
    destruct (irreflexivity bytes_lt a). by transitivity b.
  - intros a b. unfold strict. rewrite !bytes_le_lt.
    assert (forall x y, bytes_lt x y -> (x = y \/ bytes_lt x y) /\ ~ (y = x \/ bytes_lt y x)) as Hl.
    { intros x y Hxy. split; [by right|]. intros [->|?]; destruct (irreflexivity bytes_lt x); [done|by transitivity y]. }
    destruct (bytes_lt_total a b) as [?|[->|?]]; auto.
Qed.

Lemma sorted_lt (l : list bytes) : StronglySorted bytes_le l -> NoDup l -> StronglySorted bytes_lt l.
Proof.
  induction 1 as [|x l S IH F]; [constructor|]. intros [Hx Hl]%NoDup_cons. constructor; [auto|].
  rewrite Forall_forall in F |- *. intros y Hy. specialize (F y Hy). apply bytes_le_lt in F as [->|]; done.
Qed.
Lemma keyed_sublist (d : D) (l : list bytes) : sublist (omap (fun k => (fun v => (k, v)) <$> get d k) l).*1 l.
Proof.
  induction l as [|k l IH]; [constructor|]. simpl. destruct (get d k); simpl; by constructor.
Qed.
Lemma sublist_sorted (l1 l2 : list bytes) : sublist l1 l2 -> StronglySorted bytes_lt l2 -> StronglySorted bytes_lt l1.
Proof.
  induction 1 as [|x l1 l2 Hs IH|x l1 l2 Hs IH]; [done|..]; inversion 1 as [|? ? S F]; subst; [|auto].
  constructor; [auto|]. rewrite Forall_forall in F |- *. intros y Hy. apply F. by eapply elem_of_sublist.
Qed.

Lemma prefix_limit_spec p k : is_bytes p -> is_bytes k ->
  match prefix_limit p with Some l => bytes_lt k l | None => True end <-> bytes_lt k p \/ p `prefix_of` k.
Proof.
  revert k. induction p as [|c p IH]; intros k Hp Hk.
  { simpl. split; [intros _; right; apply prefix_nil|done]. }
  apply Forall_cons in Hp as [Hc Hp]. simpl prefix_limit. destruct k as [|x k].
  { split; [intros _; by left|]. intros _. destruct (prefix_limit p); [done|]. by destruct (c <? 255). }
  apply Forall_cons in Hk as [Hx Hk]. specialize (IH k Hp Hk).
  assert (c :: p `prefix_of` x :: k <-> c = x /\ p `prefix_of` k) as ->.
  { split; [|intros [-> ?]; by apply prefix_cons]. intros Hpre.
    pose proof (prefix_cons_inv_1 _ _ _ _ Hpre). pose proof (prefix_cons_inv_2 _ _ _ _ Hpre). done. }
  rewrite bytes_lt_cons. destruct (prefix_limit p) as [l|].
  - rewrite bytes_lt_cons, IH. naive_solver.
  - destruct (Z.ltb_spec c 255).
    + rewrite bytes_lt_cons. destruct IH as [IH _]. specialize (IH I). pose proof (bytes_lt_nil k).
      split; [|intros [?|[-> ?]]; left; lia].
      intros [?|[_ ?]]; [|done]. destruct (decide (x = c)) as [->|]; [|left; left; lia]. naive_solver.
    + split; [intros _|done]. destruct IH as [IH _]. specialize (IH I).
      destruct (decide (x = c)) as [->|]; [|left; left; lia]. naive_solver.
Qed.

#[export] Instance leveldb_laws : LevelDBLaws D.
Proof.
  split.
  - intros d k v. simpl. unfold get. by destruct (decide (is_bytes k)).
  - intros d b k Hk. simpl. unfold get. rewrite !decide_True by done. revert d.
    induction b as [|[k' o] b IH] using rev_ind; intros d; [done|].
    rewrite foldl_snoc, batch_get_snoc. simpl. destruct o as [v|].
    + destruct (decide (k' = k)) as [->|]; [by rewrite lookup_insert_eq|]. by rewrite lookup_insert_ne.
    + destruct (decide (k' = k)) as [->|]; [by rewrite lookup_delete_eq|]. by rewrite lookup_delete_ne.
  - intros r d. simpl. unfold entries. eapply sublist_sorted; [apply keyed_sublist|].
    apply sorted_lt; [apply StronglySorted_merge_sort; apply _|].
    rewrite merge_sort_Permutation. apply NoDup_filter, NoDup_fst_map_to_list.
  - intros r d k v. simpl. unfold entries. rewrite list_elem_of_omap. split.
    + intros (k' & Hk & Hg). rewrite merge_sort_Permutation, list_elem_of_filter in Hk. destruct Hk as [Hr Hk].
      destruct (get d k') eqn:Eg; [|done]. injection Hg as <- <-. split; [done|]. by apply in_rangeb_spec.
    + intros [Hg Hr]. exists k. rewrite Hg. split; [|done]. rewrite merge_sort_Permutation, list_elem_of_filter.
      split; [by apply in_rangeb_spec|]. unfold get in Hg. destruct (decide (is_bytes k)); [|done].
      apply list_elem_of_fmap. exists (k, v). split; [done|]. by apply elem_of_map_to_list.
  - done.
  - intros p k Hp Hk. simpl. by apply prefix_limit_spec.
Qed.
End MapDB.

Section witness.
Import MapDB.
Definition demo_disk : MapDB.D := list_to_map [([1], [7]); ([2], [8]); ([2; 0], [9])].
Lemma BatchRemove_removes_witness : exists fuel d', BatchRemove fuel (Some [2]) whole 1 0 demo_disk = Ok (2%nat, d').
Proof.
  destruct (BatchRemove_removes (Some [2]) whole 1 demo_disk (Nat.lt_succ_diag_r 0)) as (fuel & d' & E1 & _).
  exists fuel, d'. exact E1.
Defined.
End witness.
