(* ===== verification/Frame.v ===== *)
(** * Frames of the databases ([isaac/database/frame.go])

    A value of the databases is stored as a frame: the hint of the encoder, more
    headers, and the marshaled value ([Bytes]).  The encoders are reached through
    [Encoders] and [Codec]: [FindByString] finds an encoder by its hint, [Decode]
    may give a nil value. *)
From S2P Require Import Prelude Bytes Ballot Block.
From Stdlib Require Import Ascii.

Open Scope Z_scope.

(** ** Strings as bytes *)
Definition str_bytes (s : string) : bytes := (fun a => Z.of_N (N_of_ascii a)) <$> String.list_ascii_of_string s.
Definition bytes_str (b : bytes) : string :=
  String.string_of_list_ascii ((fun x => ascii_of_N (Z.to_N x)) <$> b).

(** ** Encoders *)
Class Encoders (E : Type) := {
  Enc_Hint : E -> bytes;
  FindByString : bytes -> res (option E)
}.
Class Codec (E T : Type) := {
  Marshal : E -> T -> res bytes;
  Decode : E -> bytes -> res (option T)
}.
(** An encoder is found by its own hint, and reads what it wrote. *)
Class EncodersLaws (E : Type) `{Encoders E} : Prop := {
  FindByString_Hint e : FindByString (Enc_Hint e) = Ok (Some e);
  Enc_Hint_short e : blen (Enc_Hint e) <= maxLengthedBytes
}.
Class CodecLaws (E T : Type) `{Codec E T} : Prop := {
  Decode_Marshal e (v : T) b : Marshal e v = Ok b -> Decode e b = Ok (Some v)
}.

(** ** A buffer as a reader ([bytes.Buffer]) *)
#[export] Instance Buffer_Reader : Reader bytes := fun n r =>
  match r with
  | [] => ([], if (n =? 0)%nat then None else Some EOF, [])
  | _ => (take n r, None, drop n r)
  end.
#[export] Instance Buffer_ReaderLaws : ReaderLaws bytes (fun r => r) (fun r => length r).
Proof.
  constructor; intros n r bs e r' Hn; unfold Read, Buffer_Reader; destruct r as [|x r]; intros [= <- <- <-].
  - by split; [simpl; lia|].
  - rewrite length_take, take_drop. split; [lia|done].
  - right. destruct (Nat.eqb_spec n 0); [lia|done].
  - by left.
  - split; [done|]. destruct (Nat.eqb_spec n 0); [lia|done].
  - rewrite length_drop. simpl. split; intros; lia.
Qed.

(** [io.ReadAll]: until the end of the file. *)
Fixpoint ReadAll {R} `{Reader R} (fuel : nat) (acc : bytes) (r : R) : option (bytes * option string) :=
  match fuel with
  | O => None
  | S fuel =>
      let '(bs, e, r) := Read 512 r in
      let acc := acc ++ bs in
      match e with
      | None => ReadAll fuel acc r
      | Some _ => Some (acc, if is_eof e then None else e)
      end
  end.
Definition fr_Body {R} `{Reader R} (fuel : nat) (f : BytesFrameReader R) : option (bytes * option string) :=
  exhaustHeader fuel f ≫= fun '(e, f) =>
  if negb (bool_decide (e = None)) then Some ([], e) else ReadAll fuel [] (fr_r f).

(** Enough for every loop over [b]. *)
Definition frame_fuel (b : bytes) : nat := S (S (length b)).
Definition no_fuel {A} (o : option A) : res A := match o with Some a => Ok a | None => Err "out of fuel" end.
Definition or_error (e : option string) : err := match e with None => Ok tt | Some e => Err e end.

(** ** Frames *)
Definition written_to {A} (r : err * A) : res A := r.1 ≫= fun _ => Ok r.2.

Definition writeFrame (headers : list bytes) (b : bytes) : res bytes :=
  let '(_, fw) := NewBytesFrameWriter ([] : bytes) in
  written_to (fw_Header fw headers) ≫= fun fw =>
  written_to (Write b (fw_w fw)).

(** The hint of the encoder is the first header, if there is one. *)
Definition ReadFrame (b : bytes) : res (bytes * list bytes * bytes) :=
  NewBytesFrameReader b ≫= fun fr =>
  no_fuel (fr_Header (frame_fuel b) fr) ≫= fun '(hs, e, fr) =>
  or_error e ≫= fun _ =>
  let '(enchint, headers) := match hs with [] => ([], []) | h :: hs => (h, hs) end in
  no_fuel (fr_Body (frame_fuel b) fr) ≫= fun '(body, e) =>
  or_error e ≫= fun _ => Ok (enchint, headers, body).

Definition ReadOneHeaderFrame (b : bytes) : res (bytes * bytes * bytes) :=
  ReadFrame b ≫= fun '(enchint, headers, body) =>
  match headers with [] => Err "empty header" | h :: _ => Ok (enchint, h, body) end.

Definition EncodeNoHeaders (b : bytes) : res bytes :=
  let '(_, fw) := NewBytesFrameWriter ([] : bytes) in written_to (Write b (fw_w fw)).
Definition ReadNoHeadersFrame (b : bytes) : res bytes :=
  NewBytesFrameReader b ≫= fun fr =>
  no_fuel (fr_Body (frame_fuel b) (set_reader fr (fr_r fr))) ≫= fun '(body, e) =>
  or_error e ≫= fun _ => Ok body.

Section encoded.
Context {E : Type} `{Encoders E}.
Context {T : Type} `{!Codec E T}.

(** What was marshaled, and the frame. *)
Definition EncodeFrame (enc : E) (headers : list bytes) (v : T) : res (bytes * bytes) :=
  Marshal enc v ≫= fun marshaled =>
  writeFrame (Enc_Hint enc :: headers) marshaled ≫= fun b => Ok (marshaled, b).
Definition EncodeOneHeaderFrame (enc : E) (header : bytes) (v : T) : res (bytes * bytes) := EncodeFrame enc [header] v.
Definition EncodeNoHeadersFrame (enc : E) (v : T) : res bytes := Marshal enc v ≫= EncodeNoHeaders.

Definition DecodeFrame (enchint b : bytes) : res (option T) :=
  FindByString enchint ≫= fun (found : option E) =>
  match found with None => Err "encoder not found" | Some enc => Decode enc b end.
Definition ReadDecodeFrame (b : bytes) : res (option T) :=
  ReadFrame b ≫= fun '(enchint, _, body) => DecodeFrame enchint body.
Definition ReadDecodeOneHeaderFrame (b : bytes) : res (bytes * option T) :=
  ReadOneHeaderFrame b ≫= fun '(enchint, header, body) =>
  DecodeFrame enchint body ≫= fun v => Ok (header, v).
End encoded.

(** ** Frames of expels *)
Section expels.
Context {E : Type} `{Encoders E} `{!Codec E SuffrageExpelOperation} `{BlockCrypto}.

Definition EncodeFrameSuffrageExpelOperation (enc : E) (op : SuffrageExpelOperation) : res bytes :=
  Marshal enc op ≫= fun b =>
  let fact := xo_fact op in
  writeFrame [Enc_Hint enc; [0; 1]; str_bytes (address_bytes (xf_node fact));
              Int64ToBytes (xf_start fact); Int64ToBytes (xf_end fact)] b.
End expels.

Record FrameHeaderSuffrageExpelOperation := { fx_node : bytes; fx_start : Z; fx_end : Z }.
Definition readFrameHeaderSuffrageExpelOperation (headers : list bytes) : res FrameHeaderSuffrageExpelOperation :=
  match headers with
  | _ :: node :: s :: e :: _ =>
      if (length node <? 1)%nat then Err "wrong format; empty node"
      else
        BytesToInt64 s ≫= fun s => BytesToInt64 e ≫= fun e =>
        Ok {| fx_node := node; fx_start := s; fx_end := e |}
  | _ => Err "missing header"
  end.
Definition ReadFrameHeaderSuffrageExpelOperation (b : bytes) : res (bytes * FrameHeaderSuffrageExpelOperation * bytes) :=
  ReadFrame b ≫= fun '(enchint, headers, body) =>
  readFrameHeaderSuffrageExpelOperation headers ≫= fun r => Ok (enchint, r, body).

(** ** Lemmas *)
Lemma str_bytes_bytes s : is_bytes (str_bytes s).
Proof.
  apply Forall_fmap, Forall_true. intros a. simpl. pose proof (N_ascii_bounded a). lia.
Qed.
Lemma str_bytes_str s : bytes_str (str_bytes s) = s.
Proof.
  unfold bytes_str, str_bytes. rewrite <- list_fmap_compose.
  transitivity (String.string_of_list_ascii (String.list_ascii_of_string s)).
  - f_equal. rewrite <- (list_fmap_id (String.list_ascii_of_string s)) at 2.
    apply list_fmap_ext. intros _ a _. simpl. by rewrite N2Z.id, ascii_N_embedding.
  - apply String.string_of_list_ascii_of_string.
Qed.
#[export] Instance str_bytes_inj : Inj (=) (=) str_bytes.
Proof. intros a b E. by rewrite <- (str_bytes_str a), <- (str_bytes_str b), E. Qed.

Lemma ReadAll_buffer fuel acc (r : bytes) : (length r < fuel)%nat -> ReadAll fuel acc r = Some (acc ++ r, None).
Proof.
  revert acc r. induction fuel as [|fuel IH]; intros acc r Hf; [lia|]. cbn [ReadAll].
  unfold Read, Buffer_Reader. destruct r as [|x r].
  { by rewrite app_nil_r. }
  rewrite IH; [by rewrite <- app_assoc, take_drop|]. rewrite length_drop. simpl in *. lia.
Qed.

Definition frame_of (headers : list bytes) (b : bytes) : bytes := bytesFrameVersion ++ lengthed_slice headers ++ b.
Definition short (h : bytes) : Prop := blen h <= maxLengthedBytes.

Lemma writeFrame_ok headers b : writeFrame headers b = Ok (frame_of headers b).
Proof.
  unfold writeFrame, NewBytesFrameWriter, fw_Header, Write, Buffer_Writer. cbn [headerWritten fw_w andthen].
  match goal with |- context [write_all ?w headers] =>
    pose proof (write_all_buffer w headers) as Hw; destruct (write_all w headers) as [e w'] eqn:Ew end.
  simpl in Hw. subst e.
  apply write_all_ok in Ew. unfold written_to. run. simpl fst. simpl snd. run. cbn [fw_w].
  rewrite Ew. unfold frame_of, lengthed_slice. by rewrite !app_nil_l, <- !app_assoc.
Qed.

Lemma NewBytesFrameReader_buffer b :
  NewBytesFrameReader (bytesFrameVersion ++ b) = Ok {| fr_r := b; version := bytesFrameVersion; headerRead := false |}.
Proof. reflexivity. Qed.

Lemma ReadFrame_of h headers b :
  Z.of_nat (length (h :: headers)) <= maxLengthBytes -> Forall short (h :: headers) ->
  ReadFrame (frame_of (h :: headers) b) = Ok (h, headers, b).
Proof.
  intros Hl Hs. set (hs := h :: headers) in *. unfold ReadFrame.
  set (fuel := frame_fuel (frame_of hs b)). assert (S (length (frame_of hs b)) < fuel)%nat as Hf by (unfold fuel, frame_fuel; lia).
  unfold frame_of in *. clearbody fuel.
  rewrite NewBytesFrameReader_buffer. run.
  unfold fr_Header. cbn [headerRead fr_r].
  destruct (ReadLengthedSlice_ok fuel (lengthed_slice hs ++ b) hs b) as (n & r & -> & Hr & _);
    [rewrite length_app in Hf; lia|exact Hs|exact Hl|done|].
  cbn [mbind option_bind no_fuel or_error]. run. cbn [or_error]. run.
  unfold fr_Body, exhaustHeader. simpl headerRead. cbv iota. cbn [mbind option_bind].
  rewrite bool_decide_eq_true_2 by done. cbn [negb]. simpl fr_r. rewrite ReadAll_buffer, Hr; [done|].
  rewrite Hr. rewrite !length_app in Hf. lia.
Qed.

Section laws.
Context {E : Type} `{EncodersLaws E}.
Context {T : Type} `{!Codec E T, !CodecLaws E T}.

Lemma DecodeFrame_Marshal enc (v : T) b : Marshal enc v = Ok b -> DecodeFrame (Enc_Hint enc) b = Ok (Some v).
Proof. intros Hb. unfold DecodeFrame. rewrite FindByString_Hint. run. by apply Decode_Marshal. Qed.

Lemma ReadOneHeaderFrame_Encode enc header (v : T) m b :
  short header -> EncodeOneHeaderFrame enc header v = Ok (m, b) ->
  Marshal enc v = Ok m /\ ReadOneHeaderFrame b = Ok (Enc_Hint enc, header, m).
Proof.
  unfold EncodeOneHeaderFrame, EncodeFrame. intros Hh (m' & Hm & (b' & Hb & [= <- <-])%bind_ok)%bind_ok.
  rewrite writeFrame_ok in Hb. injection Hb as <-. split; [done|]. unfold ReadOneHeaderFrame.
  rewrite ReadFrame_of; [done|done|]. apply Forall_cons. split; [apply Enc_Hint_short|]. by apply Forall_singleton.
Qed.

(** What is stored is what is read: a value encoded into a frame of up to
    32766 headers is decoded from it, with the headers and the hint of the encoder
    beside it, whatever the encoder of the node is by then. *)
Theorem frame_value_roundtrip enc headers (v : T) m b :
  Z.of_nat (length headers) < maxLengthBytes -> Forall short headers ->
  EncodeFrame enc headers v = Ok (m, b) ->
  ReadDecodeFrame b = Ok (Some v) /\ ReadFrame b = Ok (Enc_Hint enc, headers, m) /\ Marshal enc v = Ok m.
Proof.
  intros Hl Hh. unfold EncodeFrame. intros (m' & Hm & (b' & Hb & [= <- <-])%bind_ok)%bind_ok.
  rewrite writeFrame_ok in Hb. injection Hb as <-. unfold ReadDecodeFrame.
  rewrite ReadFrame_of; [|simpl length; lia|apply Forall_cons; split; [apply Enc_Hint_short|done]].
  split; [by apply DecodeFrame_Marshal|done].
Qed.
End laws.

Lemma wrap_s_wrap_u i : i64 i -> wrap_s 64 (wrap_u 64 i) = i.
Proof. unfold i64, wrap_s, wrap_u. intros Hi. rewrite Zplus_mod_idemp_l, Z.mod_small; lia. Qed.
Lemma BytesToInt64_Int64ToBytes i : i64 i -> BytesToInt64 (Int64ToBytes i) = Ok i.
Proof.
  intros Hi. unfold BytesToInt64, Int64ToBytes. rewrite Uint64ToBytes_length.
  change (8 <? 8)%nat with false. cbv iota. rewrite take_ge by done.
  rewrite from_be_Uint64ToBytes by apply wrap_u_u64. by rewrite wrap_s_wrap_u.
Qed.

(** The headers of an expel are read without decoding it. *)
Lemma expel_frame_roundtrip `{EncodersLaws E} `{!Codec E SuffrageExpelOperation} `{BlockCrypto} enc op b :
  i64 (xf_start (xo_fact op)) -> i64 (xf_end (xo_fact op)) ->
  let node := str_bytes (address_bytes (xf_node (xo_fact op))) in short node -> node <> [] ->
  EncodeFrameSuffrageExpelOperation enc op = Ok b ->
  exists m, Marshal enc op = Ok m /\
    ReadFrameHeaderSuffrageExpelOperation b =
      Ok (Enc_Hint enc, {| fx_node := node; fx_start := xf_start (xo_fact op); fx_end := xf_end (xo_fact op) |}, m).
Proof.
  intros Hs He node Hn Hne. unfold EncodeFrameSuffrageExpelOperation. intros (m & Hm & Hb)%bind_ok.
  rewrite writeFrame_ok in Hb. injection Hb as <-. exists m. split; [done|].
  assert (forall i, short (Int64ToBytes i)) as Hi by (intros i; vm_compute; discriminate).
  unfold ReadFrameHeaderSuffrageExpelOperation. rewrite ReadFrame_of; [run|done|].
  2:{ repeat (apply Forall_cons; split); try apply Hi; try done; try apply Enc_Hint_short; vm_compute; discriminate. }
  unfold readFrameHeaderSuffrageExpelOperation. fold node.
  destruct (Nat.ltb_spec (length node) 1) as [Hl|_]; [destruct node; simpl in Hl; [done|lia]|].
  by rewrite !BytesToInt64_Int64ToBytes.
Qed.

(** ** A concrete encoder: one hint, bytes as they are *)
Module Demo.
#[export] Instance encoders : Encoders unit := {|
  Enc_Hint _ := str_bytes "json-encoder-v0.0.1";
  FindByString h := Ok (if bool_decide (h = str_bytes "json-encoder-v0.0.1") then Some tt else None)
|}.
#[export] Instance encoders_laws : EncodersLaws unit.
Proof. split; [by intros []|intros []; vm_compute; discriminate]. Qed.
#[export] Instance codec : Codec unit bytes := {| Marshal _ v := Ok v; Decode _ b := Ok (Some b) |}.
#[export] Instance codec_laws : CodecLaws unit bytes.
Proof. split. by intros [] v b [= ->]. Qed.
End Demo.

Section witness.
Import Demo.
Lemma frame_value_roundtrip_witness :
  exists b, EncodeFrame tt [str_bytes "meta"; []] ([1; 2; 3] : bytes) = Ok ([1; 2; 3], b) /\
    ReadDecodeFrame (E := unit) b = Ok (Some ([1; 2; 3] : bytes)).
Proof.
  eexists. split; [vm_compute; reflexivity|].
  eapply (frame_value_roundtrip tt [str_bytes "meta"; []] ([1; 2; 3] : bytes) [1; 2; 3]).
  - vm_compute. reflexivity.
  - apply (bool_decide_unpack _). vm_compute. exact I.
  - vm_compute. reflexivity.
Defined.
End witness.
