(* ===== verification/Tempdb.v ===== *)
(** * Block writes and temporary databases

    [isaac/database/leveldb.go], [block_write.go], [temp_leveldb.go].

    A block is written under a prefix of its own, the label, the height and a
    ULID; once it is merged it is a temporary database, which the center reads
    until its data are in the permanent one ([Center]).  The last block map, the
    suffrage proof, the network policy and the operations of the states are kept
    in memory beside the disk; states may be cached.

    A cache is shared by whatever holds it: [World] keeps the caches of states
    under a number.  An operation is a function of the world ([DB]); one that fails
    leaves the block write as it was, and the code cancels it then.  The storage
    is closed, or not, as the prefix is [None] or not. *)
From S2P Require Import Prelude FixedTree Point Vote Slice Ballot Voteproof LockedMap Batch Block State SuffrageState SuffrageProof Bytes Frame Leveldb.

Open Scope Z_scope.

(** ** Caches ([util/cache.go]), over those of another package *)
Class GCache (C : Type -> Type) := {
  gc_New : forall V, C V;
  gc_Get : forall {V}, string -> C V -> option V * C V;
  gc_Set : forall {V}, string -> V -> C V -> C V;
  gc_Remove : forall {V}, string -> C V -> C V;
  gc_Purge : forall {V}, C V -> C V;
  gc_Keys : forall {V}, C V -> list string
}.
Definition cached `{GCache C} {V} (c : C V) (k : string) : option V := (gc_Get k c).1.
(** What is in a cache was set last; anything may be gone. *)
Class GCacheLaws (C : Type -> Type) `{GCache C} : Prop := {
  cached_New V k : cached (gc_New V) k = None;
  cached_Get {V} (c : C V) k k' v : cached (gc_Get k c).2 k' = Some v -> cached c k' = Some v;
  cached_Set {V} (c : C V) k v k' v' : cached (gc_Set k v c) k' = Some v' ->
    k' = k /\ v' = v \/ k' <> k /\ cached c k' = Some v';
  cached_Remove {V} (c : C V) k k' v : cached (gc_Remove k c) k' = Some v -> k' <> k /\ cached c k' = Some v;
  cached_Purge {V} (c : C V) k : cached (gc_Purge c) k = None
}.
(** [Traverse]: the keys, and the value of each. *)
Fixpoint gc_traverse `{GCache C} {V S} (f : string -> V -> S -> S * bool) (keys : list string) (c : C V) (s : S) : S * C V :=
  match keys with
  | [] => (s, c)
  | k :: keys =>
      let '(v, c) := gc_Get k c in
      match v with
      | None => gc_traverse f keys c s
      | Some v => let '(s, keep) := f k v s in if keep : bool then gc_traverse f keys c s else (s, c)
      end
  end.
Definition gc_Traverse `{GCache C} {V S} (f : string -> V -> S -> S * bool) (c : C V) (s : S) : S * C V :=
  gc_traverse f (gc_Keys c) c s.

(** ** Keys ([leveldb.go]) *)
Abbreviation KeyPrefix := bytes.
Definition leveldbLabelBlockWrite : KeyPrefix := [1; 1].
Definition leveldbLabelPermanent : KeyPrefix := [1; 2].
Definition leveldbKeyPrefixState : KeyPrefix := [2; 1].
Definition leveldbKeyPrefixInStateOperation : KeyPrefix := [2; 2].
Definition leveldbKeyPrefixKnownOperation : KeyPrefix := [2; 3].
Definition leveldbKeyPrefixBlockMap : KeyPrefix := [2; 6].
Definition leveldbKeySuffrageProof : KeyPrefix := [2; 13].
Definition leveldbKeySuffrageProofByBlockHeight : KeyPrefix := [2; 14].
Definition leveldbKeyTempMerged : KeyPrefix := [2; 16].

Definition Height_Bytes (h : Z) : bytes := Int64ToBytes h.
Definition leveldbStateKey (key : string) : bytes := NewPrefixKey leveldbKeyPrefixState [str_bytes key].
Definition stateKeyFromKey (b : bytes) : res string :=
  if (length b <? 3)%nat then Err "too short" else Ok (bytes_str (drop 2 b)).
Definition leveldbBlockMapKey (height : Z) : bytes := NewPrefixKey leveldbKeyPrefixBlockMap [Height_Bytes height].
Definition leveldbSuffrageProofKey (suffrageheight : Z) : bytes := NewPrefixKey leveldbKeySuffrageProof [Height_Bytes suffrageheight].
Definition leveldbSuffrageProofByBlockHeightKey (height : Z) : bytes :=
  NewPrefixKey leveldbKeySuffrageProofByBlockHeight [Height_Bytes height].
Definition leveldbTempMergedKey (height : Z) : bytes := NewPrefixKey leveldbKeyTempMerged [Height_Bytes height].

(** The prefix of a block write; [ulid] is that of [util.ULID]. *)
Definition ULIDLen : nat := 26.
Definition prefixStoragePrefixByHeightLength : nat := 10 + ULIDLen.
Definition newPrefixStoragePrefixByHeight (label : KeyPrefix) (height : Z) (ulid : bytes) : bytes :=
  NewPrefixKey label [Height_Bytes height; ulid].
Definition emptyPrefixStoragePrefixByHeight (label : KeyPrefix) (height : Z) : bytes :=
  NewPrefixKey label [Height_Bytes height; replicate ULIDLen 0].
Definition prefixStoragePrefixFromKey (b : bytes) : res bytes :=
  if (length b <? prefixStoragePrefixByHeightLength)%nat then Err "wrong key of prefix storage prefix"
  else Ok (take prefixStoragePrefixByHeightLength b).

Definition SuffrageStateKey : string := "suffrage".
Definition NetworkPolicyStateKey : string := "network_policy".
(** [st.Value().(base.NetworkPolicyStateValue).Policy()]. *)
Class Policies (P : Type) := policy_of : state_value -> option P.

Section keys.
Context `{Crypto}.
Definition Hash_Bytes (h : Hash) : bytes := str_bytes (hash_bytes h).
Definition leveldbInStateOperationKey (h : Hash) : bytes := NewPrefixKey leveldbKeyPrefixInStateOperation [Hash_Bytes h].
Definition leveldbKnownOperationKey (h : Hash) : bytes := NewPrefixKey leveldbKeyPrefixKnownOperation [Hash_Bytes h].
End keys.

(** ** The world of the databases *)
Section world.
Context {D : Type} {C : Type -> Type}.

Record World := {
  w_disk : D;
  w_stcaches : gmap nat (C (option St * bool));
  w_pstcache : option (C St);      (* those of the permanent database *)
  w_popcache : option (C bool)
}.
Definition set_disk (d : D) (w : World) : World :=
  {| w_disk := d; w_stcaches := w_stcaches w; w_pstcache := w_pstcache w; w_popcache := w_popcache w |}.
Definition set_stcache (id : nat) (c : C (option St * bool)) (w : World) : World :=
  {| w_disk := w_disk w; w_stcaches := <[id := c]> (w_stcaches w); w_pstcache := w_pstcache w; w_popcache := w_popcache w |}.
Definition set_pstcache (c : option (C St)) (w : World) : World :=
  {| w_disk := w_disk w; w_stcaches := w_stcaches w; w_pstcache := c; w_popcache := w_popcache w |}.
Definition set_popcache (c : option (C bool)) (w : World) : World :=
  {| w_disk := w_disk w; w_stcaches := w_stcaches w; w_pstcache := w_pstcache w; w_popcache := c |}.

Definition DB (A : Type) : Type := World -> res A * World.
#[export] Instance db_ret : MRet DB := fun A a w => (Ok a, w).
#[export] Instance db_bind : MBind DB := fun A B f m w =>
  match m w with
  | (Ok a, w) => f a w
  | (Err e, w) => (Err e, w)
  | (Panic, w) => (Panic, w)
  end.
Definition lift {A} (r : res A) : DB A := fun w => (r, w).
Definition fail {A} (e : string) : DB A := lift (Err e).
Definition from_disk {A} (f : D -> res A) : DB A := fun w => (f (w_disk w), w).
Definition to_disk {A} (f : D -> res (A * D)) : DB A := fun w =>
  match f (w_disk w) with
  | Ok (a, d) => (Ok a, set_disk d w)
  | Err e => (Err e, w)
  | Panic => (Panic, w)
  end.
Definition on_disk (f : D -> res D) : DB unit := to_disk (fun d => f d ≫= fun d => Ok (tt, d)).
Fixpoint foldM {A S} (f : A -> S -> DB S) (l : list A) (s : S) : DB S :=
  match l with [] => mret s | a :: l => f a s ≫= foldM f l end.

(** A cache that is not nil. *)
Definition stcache_Get `{GCache C} (key : string) (id : nat) : DB (option (option St * bool)) := fun w =>
  match w_stcaches w !! id with
  | None => (Panic, w)
  | Some c => let '(v, c) := gc_Get key c in (Ok v, set_stcache id c w)
  end.
Definition stcache_do `{GCache C} (f : C (option St * bool) -> C (option St * bool)) (id : nat) : DB unit := fun w =>
  match w_stcaches w !! id with None => (Panic, w) | Some c => (Ok tt, set_stcache id (f c) w) end.
End world.
Arguments World : clear implicits.
Arguments DB : clear implicits.

(** ** What block writes and temporary databases hold *)
(** A cache of states: its number, and whether [Purge] does anything. *)
Abbreviation cache_ref := (nat * bool)%type.
Section records.
Context {E P : Type}.

(** The locked values of a block write; none is the nil pointers after [clean]. *)
Record Lasts := {
  l_mp : option (BlockMap * bytes * bytes);           (* the map, its meta and its body *)
  l_sufst : option St;
  l_policy : option St;
  l_proof : option (SuffrageProof * bytes * bytes)
}.
Record BlockWrite := {
  bw_pst : PrefixStorage;
  bw_enc : E;
  bw_height : Z;
  bw_last : option Lasts;
  bw_laststates : option (gmap string Z);
  bw_stcache : option cache_ref;
  bw_opcache : option (gmap string bool);
  bw_batch : option batch
}.
Record TempLeveldb := {
  t_pst : PrefixStorage;
  t_enc : E;
  t_mp : option (BlockMap * bytes * bytes);
  t_sufst : option St;
  t_policy : option P;
  t_proof : option (SuffrageProof * bytes * bytes);
  t_stcache : option cache_ref;
  t_opcache : option (option (gmap string bool))
}.
End records.
Arguments BlockWrite : clear implicits.
Arguments TempLeveldb : clear implicits.

#[export] Instance Z_zero : Zero Z := 0.
#[export] Instance bool_zero : Zero bool := false.

Section databases.
Context `{Crypto} {D : Type} `{LevelDB D} {C : Type -> Type} `{GCache C} {E : Type} `{Encoders E}.
Context `{!Codec E St, !Codec E BlockMap, !Codec E SuffrageProof} {P : Type} `{Policies P}.
Abbreviation db := (DB D C).
Abbreviation bwrite := (BlockWrite E).
Abbreviation temp := (TempLeveldb E P).

Definition EncodeFrameState (enc : E) (st : St) : res bytes :=
  match s_h st with
  | None => Panic
  | Some h => EncodeOneHeaderFrame enc (Hash_Bytes h) st ≫= fun '(_, b) => Ok b
  end.

(** *** [baseLeveldb] *)
Definition existsInStateOperation (pst : PrefixStorage) (h : Hash) (d : D) : res bool := ps_Exists pst (leveldbInStateOperationKey h) d.
Definition existsKnownOperation (pst : PrefixStorage) (h : Hash) (d : D) : res bool := ps_Exists pst (leveldbKnownOperationKey h) d.

(** The map, the hint of its encoder, the meta and the body. *)
Definition base_loadLastBlockMap (pst : PrefixStorage) (d : D) : res (option BlockMap * bytes * bytes * bytes) :=
  ps_Iter pst (BytesPrefix leveldbKeyPrefixBlockMap)
    (fun _ b _ =>
      ReadOneHeaderFrame b ≫= fun '(enchint, meta, body) =>
      DecodeFrame (E := E) enchint body ≫= fun m => Ok ((m, enchint, meta, body), false))
    false d (None, [], [], []).

Definition IsNetworkPolicyState (st : option St) : res (option P) :=
  match st with None => Panic | Some st => Ok (s_v st ≫= policy_of) end.
Definition base_loadNetworkPolicy (pst : PrefixStorage) (d : D) : res (option St * option P * bool) :=
  ps_Get pst (leveldbStateKey NetworkPolicyStateKey) d ≫= fun found =>
  match found with
  | None | Some [] => Ok (None, None, false)
  | Some b =>
      ReadDecodeFrame (E := E) b ≫= fun st =>
      IsNetworkPolicyState st ≫= fun policy =>
      match policy with None => Err "not NetworkPolicy state" | Some p => Ok (st, Some p, true) end
  end.
Definition IsSuffrageNodesState (st : option St) : bool := is_ok (LoadSuffrageNodesStateValue st).

(** *** Block writes ([block_write.go]) *)
Definition no_lasts : Lasts := {| l_mp := None; l_sufst := None; l_policy := None; l_proof := None |}.
Definition NewLeveldbBlockWrite (height : Z) (enc : E) (ulid : bytes) : bwrite :=
  {| bw_pst := Some (newPrefixStoragePrefixByHeight leveldbLabelBlockWrite height ulid); bw_enc := enc;
     bw_height := height; bw_last := Some no_lasts; bw_laststates := NewSingleLockedMap; bw_stcache := None;
     bw_opcache := NewSingleLockedMap; bw_batch := Some [] |}.
Definition bw_batchsize : nat := 128.

Definition set_last (l : option Lasts) (w : bwrite) : bwrite :=
  {| bw_pst := bw_pst w; bw_enc := bw_enc w; bw_height := bw_height w; bw_last := l; bw_laststates := bw_laststates w;
     bw_stcache := bw_stcache w; bw_opcache := bw_opcache w; bw_batch := bw_batch w |}.
Definition set_laststates (m : option (gmap string Z)) (w : bwrite) : bwrite :=
  {| bw_pst := bw_pst w; bw_enc := bw_enc w; bw_height := bw_height w; bw_last := bw_last w; bw_laststates := m;
     bw_stcache := bw_stcache w; bw_opcache := bw_opcache w; bw_batch := bw_batch w |}.
Definition SetStateCache (c : cache_ref) (w : bwrite) : bwrite :=
  {| bw_pst := bw_pst w; bw_enc := bw_enc w; bw_height := bw_height w; bw_last := bw_last w; bw_laststates := bw_laststates w;
     bw_stcache := Some c; bw_opcache := bw_opcache w; bw_batch := bw_batch w |}.
Definition set_opcache (m : option (gmap string bool)) (w : bwrite) : bwrite :=
  {| bw_pst := bw_pst w; bw_enc := bw_enc w; bw_height := bw_height w; bw_last := bw_last w; bw_laststates := bw_laststates w;
     bw_stcache := bw_stcache w; bw_opcache := m; bw_batch := bw_batch w |}.
Definition set_batch (b : option batch) (w : bwrite) : bwrite :=
  {| bw_pst := bw_pst w; bw_enc := bw_enc w; bw_height := bw_height w; bw_last := bw_last w; bw_laststates := bw_laststates w;
     bw_stcache := bw_stcache w; bw_opcache := bw_opcache w; bw_batch := b |}.

(** The locked values, which panic once they are nil. *)
Definition with_lasts (f : Lasts -> db Lasts) (w : bwrite) : db bwrite :=
  match bw_last w with
  | None => lift Panic
  | Some l => f l ≫= fun l => mret (set_last (Some l) w)
  end.

Definition bw_batchAdd (key b : bytes) (w : bwrite) : db bwrite :=
  to_disk (batchAdd bw_batchsize (psb_op (bw_pst w) (key, Some b)) (bw_batch w)) ≫= fun b => mret (set_batch b w).
Definition bw_batchDone (w : bwrite) : db bwrite :=
  to_disk (batchDone (bw_batch w)) ≫= fun b => mret (set_batch b w).

(** Only the newest state of a key is kept. *)
Definition isLastStates (st : St) (w : bwrite) : bool * bwrite :=
  let '(r, m) := s_Set (s_k st) (fun i found => if found && (s_height st <=? i) then Err "old" else Ok (s_height st))
                   (bw_laststates w) in
  (is_ok r, set_laststates m w).
Definition updateLockedStates (st : St) (locked : option St) : option St :=
  match locked with
  | Some i => if s_height st <=? s_height i then Some i else Some st
  | None => Some st
  end.
Definition is_policy_state (st : St) : bool := bool_decide (is_Some (s_v st ≫= policy_of (P := P))).
Definition update_lasts (st : St) (l : Lasts) : Lasts :=
  if IsSuffrageNodesState (Some st) && bool_decide (s_k st = SuffrageStateKey) then
    {| l_mp := l_mp l; l_sufst := updateLockedStates st (l_sufst l); l_policy := l_policy l; l_proof := l_proof l |}
  else if is_policy_state st && bool_decide (s_k st = NetworkPolicyStateKey) then
    {| l_mp := l_mp l; l_sufst := l_sufst l; l_policy := updateLockedStates st (l_policy l); l_proof := l_proof l |}
  else l.
Definition needs_lasts (st : St) : bool :=
  IsSuffrageNodesState (Some st) && bool_decide (s_k st = SuffrageStateKey) ||
  is_policy_state st && bool_decide (s_k st = NetworkPolicyStateKey).

Definition setOperation (op : option Hash) (w : bwrite) : db bwrite :=
  match op with
  | None => lift Panic
  | Some op =>
      bw_batchAdd (leveldbInStateOperationKey op) (str_bytes op) w ≫= fun w =>
      mret (set_opcache (s_SetValue op true (bw_opcache w)).2 w)
  end.
Definition setState (st : St) (w : bwrite) : db bwrite :=
  let '(islast, w) := isLastStates st w in
  if negb islast then mret w
  else
    lift (EncodeFrameState (bw_enc w) st) ≫= fun b =>
    (if needs_lasts st then with_lasts (fun l => mret (update_lasts st l)) w else mret w) ≫= fun w =>
    bw_batchAdd (leveldbStateKey (s_k st)) b w ≫= fun w =>
    match bw_stcache w with
    | None => mret tt
    | Some (id, _) => stcache_do (gc_Set (s_k st) (Some st, true)) id
    end ≫= fun _ =>
    foldM setOperation (s_ops st) w.

(** Several states are set by workers, in the order of [sched]. *)
Definition SetStates (sched : list St -> list St) (sts : list St) (w : bwrite) : db bwrite :=
  match sts with
  | [] => mret w
  | [st] => setState st w
  | _ => foldM setState (sched sts) w
  end.
Definition SetOperations (ops : list (option Hash)) (w : bwrite) : db bwrite :=
  foldM (fun op w => match op with
                     | None => fail "empty operation hash"
                     | Some op => bw_batchAdd (leveldbKnownOperationKey op) (Hash_Bytes op) w
                     end) ops w.

Definition SetBlockMap (m : BlockMap) (w : bwrite) : db bwrite :=
  if negb (bm_height m =? bw_height w) then fail "wrong height of BlockMap"
  else
    with_lasts (fun l =>
      let old := match l_mp l with Some (i, _, _) => bm_height m <=? bm_height i | None => false end in
      if old then mret l
      else
        match bm_hash m with
        | None => lift Panic
        | Some h =>
            let meta := Hash_Bytes h in
            lift (EncodeOneHeaderFrame (bw_enc w) meta m) ≫= fun '(marshaled, b) =>
            on_disk (ps_Put (bw_pst w) (leveldbBlockMapKey (bm_height m)) b) ≫= fun _ =>
            mret {| l_mp := Some (m, meta, marshaled); l_sufst := l_sufst l; l_policy := l_policy l; l_proof := l_proof l |}
        end) w.
Definition SetSuffrageProof (proof : SuffrageProof) (w : bwrite) : db bwrite :=
  with_lasts (fun l =>
    let old := match l_proof l with Some (i, _, _) => SuffrageHeight proof <=? SuffrageHeight i | None => false end in
    if old then mret l
    else
      let manifest := bm_manifest (sp_m proof) in
      let meta := match mf_suffrage manifest with Some h => Hash_Bytes h | None => [] end in
      lift (EncodeOneHeaderFrame (bw_enc w) meta proof) ≫= fun '(marshaled, b) =>
      on_disk (ps_Put (bw_pst w) (leveldbSuffrageProofKey (SuffrageHeight proof)) b) ≫= fun _ =>
      on_disk (ps_Put (bw_pst w) (leveldbSuffrageProofByBlockHeightKey (mf_height manifest)) b) ≫= fun _ =>
      mret {| l_mp := l_mp l; l_sufst := l_sufst l; l_policy := l_policy l; l_proof := Some (proof, meta, marshaled) |}) w.

Definition bw_Write (w : bwrite) : db bwrite := bw_batchDone (set_laststates (s_Close (bw_laststates w)) w).
Definition bw_clean (w : bwrite) : bwrite := set_batch None (set_laststates (s_Close (bw_laststates w)) (set_last None w)).
Definition bw_Close (w : bwrite) : bwrite := match bw_last w with None => w | Some _ => bw_clean w end.

(** What [Purge] of a cache does. *)
Definition purge (c : option cache_ref) : db unit :=
  match c with
  | Some (id, true) => stcache_do gc_Purge id
  | _ => mret tt
  end.
Definition bw_Cancel (w : bwrite) : db bwrite :=
  match bw_last w with
  | None => mret w
  | Some _ =>
      let w := bw_clean w in
      purge (bw_stcache w) ≫= fun _ => mret (set_opcache (s_Close (bw_opcache w)) w)
  end.

Definition newTempLeveldbFromBlockWriteStorage (w : bwrite) (l : Lasts) : res temp :=
  match l_mp l with
  | None => Err "empty blockmap"
  | Some mp => Ok
      {| t_pst := bw_pst w; t_enc := bw_enc w; t_mp := Some mp; t_sufst := l_sufst l;
         t_policy := l_policy l ≫= fun st => s_v st ≫= policy_of; t_proof := l_proof l; t_stcache := bw_stcache w;
         t_opcache := if 0 <? s_Len (bw_opcache w) then Some (bw_opcache w) else None |}
  end.
(** The temporary database, and the block write, which is closed once there is one. *)
Definition TempDatabase (w : bwrite) : db temp * bwrite :=
  match bw_last w with
  | None => (lift Panic, w)
  | Some l =>
      let t := newTempLeveldbFromBlockWriteStorage w l in
      (lift t, if is_ok t then bw_Close w else w)
  end.

(** *** Temporary databases ([temp_leveldb.go]) *)
Definition t_Height (t : temp) : Z := match t_mp t with Some (m, _, _) => bm_height m | None => NilHeight end.
(** [db.sufst.Value().(base.SuffrageNodesStateValue).Height()]. *)
Definition t_SuffrageHeight (t : temp) : res Z :=
  match t_sufst t with
  | None => Ok NilHeight
  | Some st => match LoadSuffrageNodesStateValue (Some st) with Ok v => Ok (ss_height v) | _ => Panic end
  end.
Definition t_LastBlockMap (t : temp) : res BlockMap :=
  match t_mp t with Some (m, _, _) => Ok m | None => Err "blockmap not found" end.
Definition t_BlockMapBytes (t : temp) : bytes * bytes * bytes :=
  match t_mp t with Some (_, meta, body) => (Enc_Hint (t_enc t), meta, body) | None => (Enc_Hint (t_enc t), [], []) end.
Definition t_SuffrageProof (t : temp) : option SuffrageProof := (fun p => p.1.1) <$> t_proof t.
Definition t_LastSuffrageProofBytes (t : temp) : option (bytes * bytes * bytes) :=
  (fun p => (Enc_Hint (t_enc t), p.1.2, p.2)) <$> t_proof t.

(** Whether it is in the cache, the state, whether it was found. *)
Definition t_stateFromCache (key : string) (t : temp) : db (bool * option St * bool) :=
  match t_stcache t with
  | None => mret (false, None, false)
  | Some (id, _) =>
      stcache_Get key id ≫= fun i =>
      match i with
      | None => mret (false, None, false)
      | Some (_, false) => mret (true, None, false)
      | Some (Some st, true) => mret (true, Some st, true)
      | Some (None, true) => lift Panic
      end
  end.
Definition t_setStateCache (key : string) (st : option St) (found : bool) (t : temp) : db unit :=
  match t_stcache t with None => mret tt | Some (id, _) => stcache_do (gc_Set key (st, found)) id end.

Definition t_state (key : string) (t : temp) (d : D) : res (option St * bool) :=
  ps_Get (t_pst t) (leveldbStateKey key) d ≫= fun b =>
  match b with
  | None => Ok (None, false)
  | Some b => ReadDecodeFrame (E := E) b ≫= fun st => Ok (st, true)
  end.
Definition t_State (key : string) (t : temp) : db (option St * bool) :=
  t_stateFromCache key t ≫= fun '(incache, st, found) =>
  if incache : bool then mret (st, found)
  else
    from_disk (t_state key t) ≫= fun '(st, found) =>
    t_setStateCache key st found t ≫= fun _ => mret (st, found).
(** The bytes of a frame: the hint, the first header, the body. *)
Definition read_found (b : option bytes) : res (option (bytes * bytes * bytes)) :=
  match b with None => Ok None | Some b => ReadOneHeaderFrame b ≫= fun f => Ok (Some f) end.
Definition t_StateBytes (key : string) (t : temp) (d : D) : res (option (bytes * bytes * bytes)) :=
  ps_Get (t_pst t) (leveldbStateKey key) d ≫= read_found.

(** Only the cache is asked. *)
Definition t_ExistsInStateOperation (h : Hash) (t : temp) : bool :=
  match t_opcache t with None => false | Some m => (s_Value h m).1 end.
Definition t_ExistsKnownOperation (h : Hash) (t : temp) (d : D) : res bool := existsKnownOperation (t_pst t) h d.
Definition isMerged (t : temp) (d : D) : res bool := ps_Exists (t_pst t) (leveldbTempMergedKey (t_Height t)) d.

Definition t_cleaned (pst : PrefixStorage) (t : temp) : temp :=
  {| t_pst := pst; t_enc := t_enc t; t_mp := None; t_sufst := None; t_policy := None; t_proof := None;
     t_stcache := t_stcache t; t_opcache := s_Close <$> t_opcache t |}.
Definition t_clean (pst : PrefixStorage) (t : temp) : db temp := purge (t_stcache t) ≫= fun _ => mret (t_cleaned pst t).
Definition t_Close (t : temp) : db temp := t_clean (ps_Close (t_pst t)) t.
Definition t_Remove (t : temp) : db temp :=
  match t_mp t with
  | None => mret t
  | Some _ =>
      match t_pst t with
      | None => fail ErrClosed
      | Some _ => on_disk (ps_Remove (t_pst t)) ≫= fun _ => t_clean (t_pst t) t
      end
  end.

(** [Merge]: the mark, then the data of other writers of the height are looked for
    under the prefix of this one. *)
Definition useless_step (own : bytes) (key _ : bytes) (a : bytes * list bytes) : res ((bytes * list bytes) * bool) :=
  let '(lastprefix, useless) := a in
  match prefixStoragePrefixFromKey key with
  | Ok k =>
      if bool_decide (k = own) || bool_decide (k = lastprefix) then Ok (a, true) else Ok ((k, useless ++ [k]), true)
  | _ => Ok (a, true)
  end.
Definition t_Merge (t : temp) : db unit :=
  on_disk (ps_Put (t_pst t) (leveldbTempMergedKey (t_Height t)) []) ≫= fun _ =>
  let r := {| r_Start := Some (emptyPrefixStoragePrefixByHeight leveldbLabelBlockWrite (t_Height t));
              r_Limit := Some (emptyPrefixStoragePrefixByHeight leveldbLabelBlockWrite (wrap_s 64 (t_Height t + 1))) |} in
  from_disk (fun d => ps_Iter (t_pst t) r (useless_step (default [] (t_pst t))) false d ([], [])) ≫= fun '(_, useless) =>
  foldM (fun p _ => on_disk (RemoveByPrefix p)) useless tt.

(** *** Loading from the disk *)
Definition loadLastBlockMap (t : temp) : db temp :=
  from_disk (base_loadLastBlockMap (t_pst t)) ≫= fun '(m, enchint, meta, body) =>
  match m with
  | None => fail "last BlockMap not found"
  | Some m =>
      lift (FindByString enchint) ≫= fun (enc : option E) =>
      match enc with
      | None => fail "encoder not found"
      | Some enc => mret {| t_pst := t_pst t; t_enc := enc; t_mp := Some (m, meta, body); t_sufst := t_sufst t;
                            t_policy := t_policy t; t_proof := t_proof t; t_stcache := t_stcache t; t_opcache := t_opcache t |}
      end
  end.
Definition loadSuffrageState (t : temp) : db temp :=
  t_State SuffrageStateKey t ≫= fun '(st, found) =>
  if negb found then t_setStateCache SuffrageStateKey None false t ≫= fun _ => mret t
  else match st with
  | Some s =>
      if negb (IsSuffrageNodesState st) then fail "not suffrage state"
      else
        t_setStateCache (s_k s) st true t ≫= fun _ =>
        mret {| t_pst := t_pst t; t_enc := t_enc t; t_mp := t_mp t; t_sufst := st; t_policy := t_policy t;
                t_proof := t_proof t; t_stcache := t_stcache t; t_opcache := t_opcache t |}
  | None => fail "not suffrage state"
  end.
(** The proof, its meta and its body. *)
Definition load_proof (pst : PrefixStorage) (d : D) : res (option (SuffrageProof * bytes * bytes)) :=
  ps_Iter pst (BytesPrefix leveldbKeySuffrageProof)
    (fun _ b _ =>
      ReadOneHeaderFrame b ≫= fun '(enchint, meta, body) =>
      DecodeFrame (E := E) enchint body ≫= fun (proof : option SuffrageProof) => Ok ((fun p => (p, meta, body)) <$> proof, false))
    false d None.
Definition loadSuffrageProof (t : temp) : db temp :=
  from_disk (load_proof (t_pst t)) ≫= fun proof =>
  mret {| t_pst := t_pst t; t_enc := t_enc t; t_mp := t_mp t; t_sufst := t_sufst t; t_policy := t_policy t;
          t_proof := proof; t_stcache := t_stcache t; t_opcache := t_opcache t |}.
Definition loadNetworkPolicy (t : temp) : db temp :=
  from_disk (base_loadNetworkPolicy (t_pst t)) ≫= fun '(st, policy, found) =>
  if negb found then t_setStateCache NetworkPolicyStateKey None false t ≫= fun _ => mret t
  else
    match st with None => mret tt | Some s => t_setStateCache (s_k s) st true t end ≫= fun _ =>
    mret {| t_pst := t_pst t; t_enc := t_enc t; t_mp := t_mp t; t_sufst := t_sufst t; t_policy := policy;
            t_proof := t_proof t; t_stcache := t_stcache t; t_opcache := t_opcache t |}.
Definition loadInStateOperations (t : temp) : db temp :=
  from_disk (fun d =>
    ps_Iter (t_pst t) (BytesPrefix leveldbKeyPrefixInStateOperation)
      (fun _ b m => Ok ((s_SetValue (bytes_str b) true m).2, true)) false d (default None (t_opcache t))) ≫= fun m =>
  mret {| t_pst := t_pst t; t_enc := t_enc t; t_mp := t_mp t; t_sufst := t_sufst t; t_policy := t_policy t;
          t_proof := t_proof t; t_stcache := t_stcache t; t_opcache := if s_Len m <? 1 then None else Some m |}.

Definition NewTempLeveldbFromPrefix (prefix : bytes) (enc : E) : db temp :=
  loadLastBlockMap {| t_pst := Some prefix; t_enc := enc; t_mp := None; t_sufst := None; t_policy := None;
                      t_proof := None; t_stcache := None; t_opcache := Some NewSingleLockedMap |} ≫= fun t =>
  loadSuffrageState t ≫= fun t =>
  loadSuffrageProof t ≫= fun t =>
  loadNetworkPolicy t ≫= loadInStateOperations.

(** The keys of the states ([iterStateKeys]). *)
Definition iterStateKeys {A} (f : string -> A -> A) (t : temp) (d : D) (a : A) : res A :=
  ps_Iter (t_pst t) (BytesPrefix leveldbKeyPrefixState)
    (fun key _ a => stateKeyFromKey key ≫= fun k => Ok (f k a, true)) true d a.
End databases.
