(* ===== verification/Center.v ===== *)
(** * The permanent database and the center

    [isaac/database/perm_base.go], [perm_leveldb.go], [center.go].

    The permanent database has the blocks that are merged, under one prefix; the
    center has the temporary databases of the newest blocks before it, the newest
    first.  A read asks the temporary databases and then the permanent one; every
    two seconds the oldest temporary database but the last is merged, and the data
    of those merged before are removed once three newer ones wait.

    What is under locks, and a read from its beginning to its end, is one step.
    The workers of a read ([dig]) run in the order of [order], and once one says so
    those of [skip] do not run any more.  [run] is what the workers of a merge do
    with the batches: which are written, and whether it is all of them; a merge
    that is canceled, or dies, leaves some. *)
From S2P Require Import Prelude FixedTree Point Vote Slice Ballot Voteproof LockedMap Batch Block State SuffrageState SuffrageProof Bytes Frame Leveldb Tempdb.

Open Scope Z_scope.

Section records.
Context {E P : Type}.
(** Its caches are in the world. *)
Record LeveldbPermanent := {
  p_pst : PrefixStorage;
  p_enc : E;
  p_batchlimit : nat;
  p_lenc : option bytes;
  p_mp : option (BlockMap * bytes * bytes);
  p_policy : option P;
  p_proof : option (SuffrageProof * bytes * bytes)
}.
Record CenterDB := {
  c_perm : LeveldbPermanent;
  c_temps : list (TempLeveldb E P);
  c_removed : list (TempLeveldb E P)
}.
End records.
Arguments LeveldbPermanent : clear implicits.
Arguments CenterDB : clear implicits.

Section center.
Context `{Crypto} {D : Type} `{LevelDB D} {C : Type -> Type} `{GCache C} {E : Type} `{Encoders E}.
Context `{!Codec E St, !Codec E BlockMap, !Codec E SuffrageProof} {P : Type} `{Policies P}.
Abbreviation db := (DB D C).
Abbreviation temp := (TempLeveldb E P).
Abbreviation perm := (LeveldbPermanent E P).
Abbreviation center := (CenterDB E P).

(** ** The caches of the permanent database ([perm_base.go]) *)
Definition p_stateFromCache (key : string) : db (option St) := fun w =>
  match w_pstcache w with
  | None => (Ok None, w)
  | Some c => let '(st, c) := gc_Get key c in (Ok st, set_pstcache (Some c) w)
  end.
(** A newer state stays. *)
Definition p_setStateToCache (st : option St) : db unit := fun w =>
  match w_pstcache w with
  | None => (Ok tt, w)
  | Some c =>
      match st with
      | None => (Panic, w)
      | Some st =>
          let '(prev, c) := gc_Get (s_k st) c in
          let keep := match prev with Some prev => s_height st <=? s_height prev | None => false end in
          (Ok tt, set_pstcache (Some (if keep then c else gc_Set (s_k st) st c)) w)
      end
  end.
Definition p_removeStateFromCache (key : string) : db unit := fun w =>
  (Ok tt, set_pstcache ((fun c : C St => gc_Remove key c) <$> w_pstcache w) w).
Definition p_operationFromCache (h : Hash) : db bool := fun w =>
  match w_popcache w with
  | None => (Ok false, w)
  | Some c => let '(found, c) := gc_Get h c in (Ok (default false found), set_popcache (Some c) w)
  end.
Definition p_setOperationToCache (h : Hash) : db unit := fun w =>
  (Ok tt, set_popcache ((fun c : C bool => gc_Set h true c) <$> w_popcache w) w).

Definition collect_states (_ : string) (i : option St * bool) (l : list (option St)) : list (option St) * bool :=
  (if i.2 then l ++ [i.1] else l, true).
Definition mergeTempCaches (t : temp) : db unit :=
  match t_stcache t with
  | None => mret tt
  | Some (id, _) => fun w =>
      match w_stcaches w !! id with
      | None => (Panic, w)
      | Some c =>
          let '(sts, c) := gc_Traverse collect_states c [] in
          foldM (fun st _ => match st with None => lift Panic | Some _ => p_setStateToCache st end) sts tt (set_stcache id c w)
      end
  end ≫= fun _ =>
  match t_opcache t with
  | None => mret tt
  | Some m => foldM (fun '(h, found) _ => if found : bool then p_setOperationToCache h else mret tt)
                (map_to_list (s_Map m)) tt
  end.

(** [updateLast]: nothing, unless the map is newer. *)
Definition updateLast (t : temp) (p : perm) : perm :=
  match t_mp t with
  | None => p
  | Some (m, meta, body) =>
      if match p_mp p with Some (old, _, _) => bm_height m <=? bm_height old | None => false end then p
      else
        {| p_pst := p_pst p; p_enc := p_enc p; p_batchlimit := p_batchlimit p; p_lenc := Some (Enc_Hint (t_enc t));
           p_mp := Some (m, meta, body);
           p_policy := match t_policy t with Some x => Some x | None => p_policy p end;
           p_proof := match t_proof t with Some x => Some x | None => p_proof p end |}
  end.

(** ** The permanent database ([perm_leveldb.go]) *)
Definition p_LastBlockMap (p : perm) : option BlockMap := (fun m => m.1.1) <$> p_mp p.
Definition p_LastBlockMapBytes (p : perm) : option (bytes * bytes * bytes) :=
  p_lenc p ≫= fun enchint => (fun m => (enchint, m.1.2, m.2)) <$> p_mp p.
Definition p_LastSuffrageProof (p : perm) : option SuffrageProof := (fun m => m.1.1) <$> p_proof p.
Definition p_LastSuffrageProofBytes (p : perm) : option (bytes * bytes * bytes) :=
  p_lenc p ≫= fun enchint => (fun m => (enchint, m.1.2, m.2)) <$> p_proof p.

(** The body is not kept. *)
Definition loadLastSuffrageProof (pst : PrefixStorage) (d : D) : res (option (SuffrageProof * bytes * bytes)) :=
  ps_Iter pst (BytesPrefix leveldbKeySuffrageProof)
    (fun _ b _ =>
      ReadDecodeOneHeaderFrame (E := E) b ≫= fun (v : bytes * option SuffrageProof) =>
      Ok ((fun p => (p, v.1, [])) <$> v.2, false))
    false d None.
Definition NewLeveldbPermanent (enc : E) (stcachesize : Z) : db perm :=
  (fun w => (Ok tt, if 0 <? stcachesize then set_popcache (Some (gc_New bool)) (set_pstcache (Some (gc_New St)) w)
                    else set_popcache None (set_pstcache None w))) ≫= fun _ =>
  let pst := Some (NewPrefixKey leveldbLabelPermanent []) in
  from_disk (base_loadLastBlockMap (E := E) pst) ≫= fun '(m, enchint, meta, body) =>
  from_disk (loadLastSuffrageProof pst) ≫= fun proof =>
  from_disk (base_loadNetworkPolicy (E := E) pst) ≫= fun '(st, policy, found) =>
  (if found : bool then p_setStateToCache st else mret tt) ≫= fun _ =>
  mret {| p_pst := pst; p_enc := enc; p_batchlimit := 333; p_lenc := (fun _ => enchint) <$> m;
          p_mp := (fun m => (m, meta, body)) <$> m; p_policy := policy; p_proof := proof |}.

Definition compareWithLastSuffrageProof (suffrageHeight : Z) (p : perm) : res (option SuffrageProof) :=
  match p_LastSuffrageProof p with
  | None => Ok None
  | Some proof =>
      LoadSuffrageNodesStateValue (Some (sp_st proof)) ≫= fun stv =>
      Ok (if suffrageHeight =? ss_height stv then Some proof else None)
  end.
Definition p_SuffrageProof (suffrageHeight : Z) (p : perm) (d : D) : res (option SuffrageProof * bool) :=
  compareWithLastSuffrageProof suffrageHeight p ≫= fun last =>
  match last with
  | Some proof => Ok (Some proof, true)
  | None =>
      ps_Get (p_pst p) (leveldbSuffrageProofKey suffrageHeight) d ≫= fun b =>
      match b with None => Ok (None, false) | Some b => ReadDecodeFrame (E := E) b ≫= fun v => Ok (v, true) end
  end.
Definition p_SuffrageProofBytes (suffrageHeight : Z) (p : perm) (d : D) : res (option (bytes * bytes * bytes)) :=
  compareWithLastSuffrageProof suffrageHeight p ≫= fun last =>
  match last with
  | Some _ => Ok (p_LastSuffrageProofBytes p)
  | None => ps_Get (p_pst p) (leveldbSuffrageProofKey suffrageHeight) d ≫= read_found
  end.
(** The newest frame of a proof at most at the height. *)
Definition proof_frame_at (height : Z) (p : perm) (d : D) : res (option bytes) :=
  let r := {| r_Start := r_Start (BytesPrefix leveldbKeySuffrageProofByBlockHeight);
              r_Limit := Some (leveldbSuffrageProofByBlockHeightKey (wrap_s 64 (height + 1))) |} in
  ps_Iter (p_pst p) r (fun _ b _ => Ok (Some b, false)) false d None.
Definition p_SuffrageProofByBlockHeight (height : Z) (p : perm) (d : D) : res (option SuffrageProof * bool) :=
  match p_LastBlockMap p with
  | None => Ok (None, false)
  | Some m =>
      if bm_height m <? height then Ok (None, false)
      else
        match p_LastSuffrageProof p with
        | None => Ok (None, false)
        | Some i =>
            if s_height (sp_st i) <=? height then Ok (Some i, true)
            else
              proof_frame_at height p d ≫= fun b =>
              match b with None => Ok (None, false) | Some b => ReadDecodeFrame (E := E) b ≫= fun v => Ok (v, true) end
        end
  end.

Definition p_State (key : string) (p : perm) : db (option St * bool) :=
  p_stateFromCache key ≫= fun i =>
  match i with
  | Some st => mret (Some st, true)
  | None =>
      from_disk (ps_Get (p_pst p) (leveldbStateKey key)) ≫= fun b =>
      match b with
      | None => mret (None, false)
      | Some b =>
          lift (ReadDecodeFrame (E := E) b) ≫= fun st =>
          p_setStateToCache st ≫= fun _ => mret (st, true)
      end
  end.
Definition p_StateBytes (key : string) (p : perm) (d : D) : res (option (bytes * bytes * bytes)) :=
  ps_Get (p_pst p) (leveldbStateKey key) d ≫= read_found.
Definition p_ExistsInStateOperation (h : Hash) (p : perm) : db bool :=
  p_operationFromCache h ≫= fun incache =>
  if incache : bool then mret true
  else
    from_disk (existsInStateOperation (p_pst p) h) ≫= fun found =>
    (if found : bool then p_setOperationToCache h else mret tt) ≫= fun _ => mret found.
Definition p_ExistsKnownOperation (h : Hash) (p : perm) (d : D) : res bool := existsKnownOperation (p_pst p) h d.

Definition p_BlockMap (height : Z) (p : perm) (d : D) : res (option BlockMap * bool) :=
  match p_LastBlockMap p with
  | None => Ok (None, false)
  | Some m =>
      if bm_height m =? height then Ok (Some m, true)
      else
        ps_Get (p_pst p) (leveldbBlockMapKey height) d ≫= fun b =>
        match b with None => Ok (None, false) | Some b => ReadDecodeFrame (E := E) b ≫= fun v => Ok (v, true) end
  end.
Definition p_BlockMapBytes (height : Z) (p : perm) (d : D) : res (option (bytes * bytes * bytes)) :=
  match p_LastBlockMap p with
  | None => Ok None
  | Some m =>
      if bm_height m =? height then Ok (p_LastBlockMapBytes p)
      else ps_Get (p_pst p) (leveldbBlockMapKey height) d ≫= read_found
  end.

(** *** Merging a temporary database *)
Variable run : list batch -> list batch * bool.

(** The batches given to the workers, and the one being filled. *)
Definition merge_step (batchlimit : nat) (pst : PrefixStorage) (k v : bytes) (a : list batch * batch) : res ((list batch * batch) * bool) :=
  let '(jobs, b) := if (length a.2 =? batchlimit)%nat then (a.1 ++ [a.2], []) else a in
  Ok ((jobs, b ++ [psb_op pst (k, Some v)]), true).
Definition merge_batches (p : perm) (t : temp) (d : D) : res (list batch) :=
  ps_Iter (t_pst t) whole (merge_step (p_batchlimit p) (p_pst p)) false d ([], []) ≫= fun '(jobs, b) =>
  Ok (if (0 <? length b)%nat then jobs ++ [b] else jobs).
Definition write_batches (bs : list batch) : db unit := fun w => (Ok tt, set_disk (foldl (fun d b => Storage_Batch b d) (w_disk w) bs) w).

Definition mergeTempDatabaseFromLeveldb (t : temp) (p : perm) : db perm :=
  match t_mp t, p_pst p, t_pst t with
  | None, _, _ => fail "blockmap not found in LeveldbTempDatabase"
  | _, None, _ | _, _, None => fail ErrClosed
  | Some _, Some _, Some _ =>
      from_disk (merge_batches p t) ≫= fun jobs =>
      let '(written, done) := run jobs in
      write_batches written ≫= fun _ =>
      if negb done then fail "context canceled"
      else
        let p := updateLast t p in
        mergeTempCaches t ≫= fun _ =>
        from_disk (fun d => iterStateKeys (fun k l => l ++ [k]) t d []) ≫= fun keys =>
        foldM (fun k _ => p_removeStateFromCache k) keys tt ≫= fun _ => mret p
  end.

(** [Clean] leaves the caches. *)
Definition p_Clean (fuel : nat) (p : perm) : db perm :=
  match p_pst p with
  | None => fail ErrClosed
  | Some prefix =>
      on_disk (fun d =>
        let r := BytesPrefix prefix in
        BatchRemove fuel (r_Start r) r 333 0 d ≫= fun '(_, d) => Ok d) ≫= fun _ =>
      mret {| p_pst := p_pst p; p_enc := p_enc p; p_batchlimit := p_batchlimit p; p_lenc := p_lenc p; p_mp := None;
              p_policy := None; p_proof := None |}
  end.

(** ** The center ([center.go]) *)
Definition set_temps (temps : list temp) (c : center) : center :=
  {| c_perm := c_perm c; c_temps := temps; c_removed := c_removed c |}.

(** *** Reads *)
Variable order : nat -> list nat.
Variable skip : nat -> bool.

Fixpoint dig_loop {S} (f : temp -> S -> db (bool * S)) (temps : list temp) (todo : list nat) (canceled : bool) (s : S) : db S :=
  match todo with
  | [] => mret s
  | i :: todo =>
      match temps !! i with
      | None => dig_loop f temps todo canceled s
      | Some p =>
          if canceled && skip i then dig_loop f temps todo canceled s
          else f p s ≫= fun '(keep, s) => dig_loop f temps todo (canceled || negb keep) s
      end
  end.
Definition dig {S} (f : temp -> S -> db (bool * S)) (c : center) (s : S) : db S :=
  dig_loop f (c_temps c) (order (length (c_temps c))) false s.

(** The error of a call, in hand. *)
Definition try_db {A} (m : db A) : db (res A) := fun w =>
  match m w with
  | (Panic, w) => (Panic, w)
  | (r, w) => (Ok r, w)
  end.

(** The height of what was found, and what. *)
Definition state_step {X} (f : temp -> db (option X)) (p : temp) (s : Z * option X) : db (bool * (Z * option X)) :=
  let '(old, l) := s in
  if t_Height p <=? old then mret (true, (old, l))
  else
    try_db (f p) ≫= fun r =>
    match r with
    | Ok (Some x) => mret (true, (t_Height p, Some x))
    | Ok None => mret (true, (old, l))
    | Err e => if bool_decide (e = ErrClosed) then mret (true, (NilHeight, l)) else fail e
    | Panic => lift Panic
    end.
Definition c_state {X} (f : temp -> db (option X)) (c : center) : db (option X) :=
  dig (state_step f) c (NilHeight, None) ≫= fun '(_, l) => mret l.

Definition c_State (key : string) (c : center) : db (option St * bool) :=
  c_state (fun p => t_State key p ≫= fun '(st, found) => mret (if found : bool then Some st else None)) c ≫= fun l =>
  match l with
  | Some (Some st) => mret (Some st, true)
  | _ => p_State key (c_perm c)
  end.
Definition c_StateBytes (key : string) (c : center) : db (option (bytes * bytes * bytes)) :=
  c_state (fun p => from_disk (t_StateBytes key p)) c ≫= fun l =>
  match l with
  | Some x => mret (Some x)
  | None => from_disk (p_StateBytes key (c_perm c))
  end.
Definition exists_step (f : temp -> db bool) (p : temp) (l : bool) : db (bool * bool) :=
  f p ≫= fun found => mret (if found : bool then (false, true) else (true, l)).
Definition c_ExistsInStateOperation (h : Hash) (c : center) : db bool :=
  dig (exists_step (fun p => mret (t_ExistsInStateOperation h p))) c false ≫= fun l =>
  if l : bool then mret true else p_ExistsInStateOperation h (c_perm c).
Definition c_ExistsKnownOperation (h : Hash) (c : center) : db bool :=
  dig (exists_step (fun p => from_disk (t_ExistsKnownOperation h p))) c false ≫= fun l =>
  if l : bool then mret true else from_disk (p_ExistsKnownOperation h (c_perm c)).

Definition findTemp (height : Z) (c : center) : option temp :=
  match c_temps c with
  | [] => None
  | t0 :: _ =>
      let found := wrap_s 64 (t_Height t0 - height) in
      if (0 <=? found) && (found <? Z.of_nat (length (c_temps c))) then c_temps c !! Z.to_nat found else None
  end.
Definition c_BlockMap (height : Z) (c : center) : db (option BlockMap * bool) :=
  let permanent := from_disk (p_BlockMap height (c_perm c)) in
  match c_temps c with
  | [] => permanent
  | t0 :: _ =>
      if t_Height t0 <? height then mret (None, false)
      else match findTemp height c with
      | Some t => lift (t_LastBlockMap t) ≫= fun m => mret (Some m, true)
      | None => permanent
      end
  end.
Definition c_BlockMapBytes (height : Z) (c : center) : db (option (bytes * bytes * bytes)) :=
  let permanent := from_disk (p_BlockMapBytes height (c_perm c)) in
  match c_temps c with
  | [] => permanent
  | t0 :: _ =>
      if t_Height t0 <? height then mret None
      else match findTemp height c with
      | Some t => mret (Some (t_BlockMapBytes t))
      | None => permanent
      end
  end.
Definition c_LastBlockMap (c : center) : res (option BlockMap) :=
  match c_temps c with
  | t0 :: _ => t_LastBlockMap t0 ≫= fun m => Ok (Some m)
  | [] => Ok (p_LastBlockMap (c_perm c))
  end.
Definition c_LastBlockMapBytes (c : center) : option (bytes * bytes * bytes) :=
  match c_temps c with t0 :: _ => Some (t_BlockMapBytes t0) | [] => p_LastBlockMapBytes (c_perm c) end.

Fixpoint first_of {X} (f : temp -> option X) (temps : list temp) : option X :=
  match temps with
  | [] => None
  | t :: temps => match f t with Some x => Some x | None => first_of f temps end
  end.
Definition c_LastSuffrageProof (c : center) : option SuffrageProof :=
  match first_of t_SuffrageProof (c_temps c) with Some p => Some p | None => p_LastSuffrageProof (c_perm c) end.
Definition c_LastNetworkPolicy (c : center) : option P :=
  match first_of t_policy (c_temps c) with Some p => Some p | None => p_policy (c_perm c) end.

(** With the height of the database that has it. *)
Fixpoint last_proof_bytes (temps : list temp) (p : perm) : res (option (bytes * bytes * bytes * Z)) :=
  match temps with
  | [] =>
      Ok match p_LastBlockMap p, p_LastSuffrageProofBytes p with
         | Some m, Some b => Some (b, bm_height m)
         | _, _ => None
         end
  | t :: temps =>
      t_LastBlockMap t ≫= fun m =>
      match t_LastSuffrageProofBytes t with
      | Some b => Ok (Some (b, bm_height m))
      | None => last_proof_bytes temps p
      end
  end.
Definition c_LastSuffrageProofBytes (c : center) : res (option (bytes * bytes * bytes * Z)) :=
  last_proof_bytes (c_temps c) (c_perm c).

Fixpoint suffrageProofInTemps (suffrageHeight : Z) (temps : list temp) : res (option (temp * SuffrageProof)) :=
  match temps with
  | [] => Ok None
  | t :: temps =>
      t_SuffrageHeight t ≫= fun sh =>
      if (sh =? NilHeight) || (suffrageHeight <? sh) then suffrageProofInTemps suffrageHeight temps
      else match t_SuffrageProof t with
      | Some p => Ok (Some (t, p))
      | None => suffrageProofInTemps suffrageHeight temps
      end
  end.
Definition c_SuffrageProof (suffrageHeight : Z) (c : center) : db (option SuffrageProof * bool) :=
  lift (suffrageProofInTemps suffrageHeight (c_temps c)) ≫= fun found =>
  match found with
  | Some (_, p) => mret (Some p, true)
  | None => from_disk (p_SuffrageProof suffrageHeight (c_perm c))
  end.
Definition c_SuffrageProofBytes (suffrageHeight : Z) (c : center) : db (option (bytes * bytes * bytes)) :=
  lift (suffrageProofInTemps suffrageHeight (c_temps c)) ≫= fun found =>
  match found ≫= fun f => t_LastSuffrageProofBytes f.1 with
  | Some b => mret (Some b)
  | None => from_disk (p_SuffrageProofBytes suffrageHeight (c_perm c))
  end.
(** Once there are temporary databases the permanent one is asked for the height
    before them. *)
Definition c_SuffrageProofByBlockHeight (height : Z) (c : center) : db (option SuffrageProof * bool) :=
  let permanent h := from_disk (p_SuffrageProofByBlockHeight h (c_perm c)) in
  if height <? GenesisHeight then fail "wrong height; < 0"
  else
    match c_temps c, last (c_temps c) with
    | t0 :: _, Some tl =>
        if t_Height t0 <? height then mret (None, false)
        else
          let intemps := match findTemp height c with
                         | None => None
                         | Some th => match t_SuffrageProof th with
                                      | Some p => Some p
                                      | None => first_of (fun t => if height <? t_Height t then None else t_SuffrageProof t) (c_temps c)
                                      end
                         end in
          match intemps with
          | Some p => mret (Some p, true)
          | None => permanent (wrap_s 64 (t_Height tl - 1))
          end
    | _, _ => permanent height
    end.

(** *** Merging and removing *)
(** A height is above [NilHeight] once there is a block. *)
Definition preheight (c : center) : Z :=
  match c_temps c with
  | t0 :: _ => t_Height t0
  | [] => match p_LastBlockMap (c_perm c) with Some m => bm_height m | None => NilHeight end
  end.
(** Whatever comes of it, the block write is left as [TempDatabase] leaves it. *)
Definition MergeBlockWriteDatabase (bw : BlockWrite E) (c : center) : db center :=
  (TempDatabase bw).1 ≫= fun t =>
  if (NilHeight <? preheight c) && negb (t_Height t =? wrap_s 64 (preheight c + 1)) then
    fail "new TempDatabase has wrong height; temp = prev + 1"
  else t_Merge t ≫= fun _ => mret (set_temps (t :: c_temps c) c).

(** The temporary database is found by its height. *)
Definition removeTemp (t : temp) (c : center) : db center :=
  match c_temps c with
  | [] => mret c
  | t0 :: _ =>
      let found := wrap_s 64 (t_Height t0 - t_Height t) in
      if (found <? 0) || (Z.of_nat (length (c_temps c)) <=? found) then fail "TempDatabase not found"
      else mret {| c_perm := c_perm c; c_temps := delete (Z.to_nat found) (c_temps c); c_removed := c_removed c ++ [t] |}
  end.
(** Whether one was merged; the last one stays. *)
Definition mergeToPermanent (c : center) : db (center * bool) :=
  match last (c_temps c) with
  | Some t =>
      if (length (c_temps c) <? 2)%nat then mret (c, false)
      else
        mergeTempDatabaseFromLeveldb t (c_perm c) ≫= fun p =>
        removeTemp t {| c_perm := p; c_temps := c_temps c; c_removed := c_removed c |} ≫= fun c =>
        mret (c, true)
  | None => mret (c, false)
  end.
Fixpoint merge_all (fuel : nat) (c : center) : db center :=
  match fuel with
  | O => fail "out of fuel"
  | S fuel => mergeToPermanent c ≫= fun '(c, merged) => if merged : bool then merge_all fuel c else mret c
  end.
(** Every turn but the last takes a temporary database. *)
Definition MergeAllPermanent (c : center) : db center := merge_all (S (length (c_temps c))) c.

Fixpoint remove_temps (temps : list temp) : db unit :=
  match temps with [] => mret tt | t :: temps => t_Remove t ≫= fun _ => remove_temps temps end.
(** The first [limit] of those that wait are given up before they are removed. *)
Definition cleanRemoved (limit : nat) (c : center) : db unit * center :=
  let n := (length (c_removed c) - limit)%nat in
  if (length (c_removed c) <=? limit)%nat then (mret tt, c)
  else (remove_temps (take n (c_removed c)),
        {| c_perm := c_perm c; c_temps := c_temps c; c_removed := drop n (c_removed c) |}).
(** One tick of [start]; an error is logged. *)
Definition tick (c : center) : World D C -> center * World D C := fun w =>
  let '(c, w) := match mergeToPermanent c w with (Ok (c, _), w) => (c, w) | (_, w) => (c, w) end in
  let '(m, c) := cleanRemoved 3 c in (c, (m w).2).

Definition RemoveBlocks (height : Z) (c : center) : db (center * bool) :=
  match c_temps c with
  | [] => mret (c, false)
  | t0 :: _ =>
      if t_Height t0 <? height then mret (c, false)
      else
        match list_find (fun t => t_Height t = height) (c_temps c) with
        | None => mret (c, false)
        | Some (index, _) =>
            remove_temps (take (S index) (c_temps c)) ≫= fun _ =>
            mret (set_temps (drop (S index) (c_temps c)) c, true)
        end
  end.

(** *** Loading from the disk *)

(** [removeHigherHeights], of every writer. *)
Definition removeHigherHeights (fuel : nat) (height : Z) : db unit :=
  on_disk (fun d =>
    let r := {| r_Start := Some (emptyPrefixStoragePrefixByHeight leveldbLabelBlockWrite height);
                r_Limit := r_Limit (BytesPrefix leveldbLabelBlockWrite) |} in
    BatchRemove fuel (r_Start r) r 333 0 d ≫= fun '(_, d) => Ok d).

Record loading := { ld_last : bytes; ld_found : option temp; ld_delBuf : list bytes }.
Definition delBufCap : nat := 128.
Definition flushDeletes (s : loading) : db loading :=
  foldM (fun p _ => on_disk (RemoveByPrefix p)) (ld_delBuf s) tt ≫= fun _ =>
  mret {| ld_last := ld_last s; ld_found := ld_found s; ld_delBuf := [] |}.
Definition load_step (enc : E) (k _ : bytes) (s : loading) : db (loading * bool) :=
  match prefixStoragePrefixFromKey k with
  | Ok prefix =>
      if bool_decide (prefix = ld_last s) then mret (s, true)
      else
        let drop_it := {| ld_last := prefix; ld_found := ld_found s; ld_delBuf := ld_delBuf s ++ [prefix] |} in
        match ld_found s with
        | Some _ =>
            if (delBufCap <=? length (ld_delBuf drop_it))%nat then flushDeletes drop_it ≫= fun s => mret (s, false)
            else mret (drop_it, true)
        | None =>
            try_db (NewTempLeveldbFromPrefix prefix enc) ≫= fun t =>
            match t with
            | Ok t =>
                try_db (from_disk (isMerged t)) ≫= fun merged =>
                match merged with
                | Ok true => mret ({| ld_last := prefix; ld_found := Some t; ld_delBuf := ld_delBuf s |}, true)
                | _ => mret (drop_it, true)
                end
            | _ => mret (drop_it, true)
            end
        end
  | _ => mret (s, true)
  end.
(** The iterator is over the data at the beginning. *)
Definition loadTemp (h : Z) (enc : E) : db (option temp) :=
  let r := {| r_Start := Some (emptyPrefixStoragePrefixByHeight leveldbLabelBlockWrite h);
              r_Limit := Some (emptyPrefixStoragePrefixByHeight leveldbLabelBlockWrite (wrap_s 64 (h + 1))) |} in
  from_disk (fun d => Ok (ldb_entries r d)) ≫= fun entries =>
  iter (load_step enc) (reverse entries) {| ld_last := []; ld_found := None; ld_delBuf := [] |} ≫= fun s =>
  flushDeletes s ≫= fun s => mret (ld_found s).

(** The heights one after the other; [fuel] is above the number of those that are there. *)
Fixpoint load_heights (fuel : nat) (last : Z) (enc : E) (temps : list temp) : db (list temp) :=
  match fuel with
  | O => fail "out of fuel"
  | S fuel =>
      loadTemp (wrap_s 64 (last + 1)) enc ≫= fun t =>
      match t with
      | None => mret temps
      | Some t => load_heights fuel (t_Height t) enc (temps ++ [t])
      end
  end.
Definition higher (a b : temp) : Prop := t_Height b <= t_Height a.
#[export] Instance higher_dec : RelDecision higher.
Proof. intros a b. unfold higher. apply _. Defined.
Definition loadTemps (fuel : nat) (minHeight : Z) (enc : E) : db (list temp) :=
  load_heights fuel (if GenesisHeight <=? minHeight then minHeight else NilHeight) enc [] ≫= fun temps =>
  match last temps with
  | None => mret temps
  | Some t => removeHigherHeights fuel (wrap_s 64 (t_Height t + 1)) ≫= fun _ => mret (merge_sort higher temps)
  end.
Definition NewCenter (fuel : nat) (p : perm) (enc : E) : db center :=
  let last := match p_LastBlockMap p with Some m => bm_height m | None => NilHeight end in
  loadTemps fuel last enc ≫= fun temps => mret {| c_perm := p; c_temps := temps; c_removed := [] |}.
End center.
