(* ===== verification/Stored.v ===== *)
(** * What the databases store

    The blocks as the reads of the databases should see them ([ABlock]), and how
    the entries under a prefix show them ([shows]): every key that the block write
    uses is a [dkey], and the bytes of different ones differ.  Then what a block
    write leaves on the disk and in memory shows the block ([write_block_shows]). *)
From S2P Require Import Prelude FixedTree Point Vote Slice Ballot Voteproof LockedMap Batch Block State SuffrageState SuffrageProof Bytes Frame Leveldb Tempdb.

Open Scope Z_scope.

(** ** Heights in order *)
Lemma Int64ToBytes_inj a b : i64 a -> i64 b -> Int64ToBytes a = Int64ToBytes b -> a = b.
Proof.
  intros Ha Hb Eq. pose proof (BytesToInt64_Int64ToBytes a Ha) as Ea. rewrite Eq, BytesToInt64_Int64ToBytes in Ea by done.
  by injection Ea.
Qed.
Lemma Int64ToBytes_length a : length (Int64ToBytes a) = 8%nat.
Proof. done. Qed.
Lemma Int64ToBytes_bytes a : is_bytes (Int64ToBytes a).
Proof. apply Uint64ToBytes_bytes. Qed.

(** The number a string of bytes is, in base 256. *)
Fixpoint be (b : bytes) : Z := match b with [] => 0 | x :: b => x * 256 ^ Z.of_nat (length b) + be b end.
Lemma be_range b : is_bytes b -> 0 <= be b < 256 ^ Z.of_nat (length b).
Proof.
  induction b as [|x b IH]; [simpl; lia|]. intros [Hx Hb]%Forall_cons. specialize (IH Hb). cbn [be length].
  rewrite Nat2Z.inj_succ, Z.pow_succ_r by lia. nia.
Qed.
Lemma be_lt a b : is_bytes a -> is_bytes b -> length a = length b -> bytes_lt a b <-> be a < be b.
Proof.
  revert b. induction a as [|x a IH]; intros [|y b] Ha Hb Hl; try done.
  apply Forall_cons in Ha as [Hx Ha]. apply Forall_cons in Hb as [Hy Hb]. injection Hl as Hl.
  rewrite bytes_lt_cons, (IH b Ha Hb Hl). cbn [be]. rewrite Hl.
  pose proof (be_range a Ha) as Ra. pose proof (be_range b Hb) as Rb. rewrite Hl in Ra.
  assert (0 < 256 ^ Z.of_nat (length b)) by lia. split; [|intros; destruct (Z.lt_trichotomy x y) as [|[->|]]; [by left|right; lia|nia]].
  intros [?|[-> ?]]; nia.
Qed.
Lemma be_Uint64ToBytes i : u64 i -> be (Uint64ToBytes i) = i.
Proof.
  intros Hi. pose proof (from_be_Uint64ToBytes i Hi) as Ef. unfold Uint64ToBytes in *. cbn [fmap list_fmap] in *.
  rewrite from_be_8 in Ef by apply Uint64ToBytes_bytes. cbn [be length]. simpl Z.of_nat.
  change (256 ^ 0) with 1. lia.
Qed.
Lemma height_bytes_lt a b : 0 <= a < 2 ^ 63 -> 0 <= b < 2 ^ 63 -> bytes_lt (Int64ToBytes a) (Int64ToBytes b) <-> a < b.
Proof.
  intros Ha Hb. rewrite be_lt by (done || apply Int64ToBytes_bytes). unfold Int64ToBytes.
  by rewrite !wrap_u_small, !be_Uint64ToBytes by (unfold u64; lia).
Qed.

(** ** The keys *)
Inductive dkey := KState (key : string) | KInState (h : Hash) | KKnown (h : Hash) | KMap (height : Z)
  | KProof (height : Z) | KProofAt (height : Z) | KMerged (height : Z).
#[export] Instance dkey_eq_dec : EqDecision dkey.
Proof. solve_decision. Defined.

(** Different hashes have different bytes. *)
Class HashLaws `{Crypto} : Prop := hash_bytes_inj : forall a b, hash_bytes a = hash_bytes b -> a = b.

Section keys.
Context `{Crypto}.
Definition kbytes (k : dkey) : bytes :=
  match k with
  | KState key => leveldbStateKey key
  | KInState h => leveldbInStateOperationKey h
  | KKnown h => leveldbKnownOperationKey h
  | KMap height => leveldbBlockMapKey height
  | KProof height => leveldbSuffrageProofKey height
  | KProofAt height => leveldbSuffrageProofByBlockHeightKey height
  | KMerged height => leveldbTempMergedKey height
  end.
Definition valid (k : dkey) : Prop :=
  match k with KMap h | KProof h | KProofAt h | KMerged h => i64 h | _ => True end.

Lemma NewPrefixKey_1 p x : NewPrefixKey p [x] = p ++ x.
Proof. unfold NewPrefixKey, ConcatBytesSlice. simpl. by rewrite app_nil_r. Qed.
Lemma NewPrefixKey_2 p x y : NewPrefixKey p [x; y] = p ++ x ++ y.
Proof. unfold NewPrefixKey, ConcatBytesSlice. simpl. by rewrite app_nil_r. Qed.

Lemma kbytes_bytes k : is_bytes (kbytes k).
Proof.
  destruct k; simpl; unfold leveldbStateKey, leveldbInStateOperationKey, leveldbKnownOperationKey, leveldbBlockMapKey,
    leveldbSuffrageProofKey, leveldbSuffrageProofByBlockHeightKey, leveldbTempMergedKey; rewrite NewPrefixKey_1;
    (apply Forall_app; split; [apply (bool_decide_unpack _); vm_compute; exact I|
      apply str_bytes_bytes || apply Int64ToBytes_bytes]).
Qed.
Lemma kbytes_cons k : exists x l, kbytes k = 2 :: x :: l.
Proof. destruct k; by eexists _, _. Qed.
Lemma kbytes_inj `{!HashLaws} a b : valid a -> valid b -> kbytes a = kbytes b -> a = b.
Proof.
  destruct a, b; simpl; intros Ha Hb; unfold leveldbStateKey, leveldbInStateOperationKey, leveldbKnownOperationKey,
    leveldbBlockMapKey, leveldbSuffrageProofKey, leveldbSuffrageProofByBlockHeightKey, leveldbTempMergedKey, Hash_Bytes, Height_Bytes;
    rewrite !NewPrefixKey_1; intros Eq; try discriminate Eq; apply app_inv_head in Eq.
  - by apply (inj str_bytes) in Eq as ->.
  - apply (inj str_bytes), hash_bytes_inj in Eq. by subst.
  - apply (inj str_bytes), hash_bytes_inj in Eq. by subst.
  - apply Int64ToBytes_inj in Eq; [by subst|done..].
  - apply Int64ToBytes_inj in Eq; [by subst|done..].
  - apply Int64ToBytes_inj in Eq; [by subst|done..].
  - apply Int64ToBytes_inj in Eq; [by subst|done..].
Qed.
End keys.

(** ** Blocks and what shows them *)
Record ABlock := {
  ab_map : BlockMap;
  ab_states : gmap string St;
  ab_known : list Hash;
  ab_proof : option SuffrageProof
}.
Definition ab_height (b : ABlock) : Z := bm_height (ab_map b).
Definition ab_instate (b : ABlock) (h : Hash) : Prop := exists k st, ab_states b !! k = Some st /\ Some h ∈ s_ops st.

(** The answers to the reads. *)
Record parts := {
  pt_state : string -> option St;
  pt_instate : Hash -> Prop;
  pt_known : Hash -> Prop;
  pt_map : Z -> option BlockMap;
  pt_proof : Z -> option SuffrageProof;
  pt_proof_at : Z -> option SuffrageProof
}.
Definition no_parts : parts :=
  {| pt_state _ := None; pt_instate _ := False; pt_known _ := False; pt_map _ := None; pt_proof _ := None; pt_proof_at _ := None |}.
Definition block_parts (b : ABlock) : parts := {|
  pt_state k := ab_states b !! k;
  pt_instate := ab_instate b;
  pt_known h := h ∈ ab_known b;
  pt_map h := if h =? ab_height b then Some (ab_map b) else None;
  pt_proof h := ab_proof b ≫= fun p => if h =? SuffrageHeight p then Some p else None;
  pt_proof_at h := if h =? ab_height b then ab_proof b else None
|}.
Definition or_else {A} (a b : option A) : option A := match a with Some x => Some x | None => b end.
(** The newer before the older. *)
Definition over (a b : parts) : parts := {|
  pt_state k := or_else (pt_state a k) (pt_state b k);
  pt_instate h := pt_instate a h \/ pt_instate b h;
  pt_known h := pt_known a h \/ pt_known b h;
  pt_map h := or_else (pt_map a h) (pt_map b h);
  pt_proof h := or_else (pt_proof a h) (pt_proof b h);
  pt_proof_at h := or_else (pt_proof_at a h) (pt_proof_at b h)
|}.
Definition chain_parts (l : list ABlock) : parts := foldr (fun b pt => over (block_parts b) pt) no_parts l.

Lemma or_else_assoc {A} (a b c : option A) : or_else (or_else a b) c = or_else a (or_else b c).
Proof. by destruct a. Qed.

Section shows.
Context `{Crypto} {E : Type} `{Encoders E}.
Context `{!Codec E St, !Codec E BlockMap, !Codec E SuffrageProof}.

Definition state_meta (st : St) : bytes := match s_h st with Some h => Hash_Bytes h | None => [] end.
Definition map_meta (m : BlockMap) : bytes := match bm_hash m with Some h => Hash_Bytes h | None => [] end.
Definition proof_meta (p : SuffrageProof) : bytes :=
  match mf_suffrage (bm_manifest (sp_m p)) with Some h => Hash_Bytes h | None => [] end.

(** The frame of a value, or nothing. *)
Definition framed {T} `{!Codec E T} (meta : T -> bytes) (o : option bytes) (x : option T) : Prop :=
  match x with
  | None => o = None
  | Some v => exists (enc : E) m b, o = Some b /\ short (meta v) /\ EncodeOneHeaderFrame enc (meta v) v = Ok (m, b)
  end.
Definition hash_shown (o : option bytes) (h : Hash) (shown : Prop) : Prop :=
  match o with Some b => b = str_bytes h /\ shown | None => ~ shown end.

(** A height of a block. *)
Definition height_ok (h : Z) : Prop := 0 <= h < 2 ^ 63 - 1.
Definition dkey_ok (k : dkey) : Prop :=
  match k with KMap h | KProof h | KProofAt h | KMerged h => height_ok h | _ => True end.

Record shows (v : dkey -> option bytes) (pt : parts) : Prop := {
  sh_state k : framed state_meta (v (KState k)) (pt_state pt k);
  sh_instate h : hash_shown (v (KInState h)) h (pt_instate pt h);
  sh_known h : is_Some (v (KKnown h)) <-> pt_known pt h;
  sh_map h : height_ok h -> framed map_meta (v (KMap h)) (pt_map pt h);
  sh_proof h : height_ok h -> framed proof_meta (v (KProof h)) (pt_proof pt h);
  sh_proof_at h : height_ok h -> framed proof_meta (v (KProofAt h)) (pt_proof_at pt h)
}.

(** A view over another shows the newer parts over the older ones. *)
Lemma shows_over v1 v2 pt1 pt2 : shows v1 pt1 -> shows v2 pt2 ->
  shows (fun k => or_else (v1 k) (v2 k)) (over pt1 pt2).
Proof.
  assert (forall T (cdc : Codec E T) (meta : T -> bytes) o1 o2 x1 x2, framed meta o1 x1 -> framed meta o2 x2 ->
    framed meta (or_else o1 o2) (or_else x1 x2)) as Hf.
  { intros T ? meta o1 o2 [x1|] x2; simpl; [|by intros ->]. intros (enc & m & b & -> & ? & ?) _. by exists enc, m, b. }
  intros S1 S2. split; simpl; intros.
  - apply Hf; by apply sh_state.
  - pose proof (sh_instate _ _ S1 h) as H1'. pose proof (sh_instate _ _ S2 h) as H2'. unfold hash_shown in *.
    destruct (v1 (KInState h)), (v2 (KInState h)); simpl; naive_solver.
  - rewrite <- (sh_known _ _ S1), <- (sh_known _ _ S2). destruct (v1 (KKnown h)), (v2 (KKnown h)); simpl; rewrite <- ?not_eq_None_Some; naive_solver.
  - apply Hf; by apply sh_map.
  - apply Hf; by apply sh_proof.
  - apply Hf; by apply sh_proof_at.
Qed.
Lemma shows_ext v v' pt : (forall k, dkey_ok k -> v k = v' k) -> shows v pt -> shows v' pt.
Proof.
  intros Hv [S1 S2 S3 S4 S5 S6].
  split; intros; rewrite <- Hv by done; auto.
Qed.
Lemma shows_none : shows (fun _ => None) no_parts.
Proof. split; simpl; intros; try done. by intros []. Qed.

(** Reading what is framed. *)
Section read.
Context `{!EncodersLaws E} {T : Type} `{!Codec E T, !CodecLaws E T}.
Lemma framed_value (meta : T -> bytes) o v : framed meta o (Some v) ->
  exists b, o = Some b /\ ReadDecodeFrame (E := E) b = Ok (Some v).
Proof.
  intros (enc & m & b & -> & Hs & He). exists b. split; [done|].
  apply ReadOneHeaderFrame_Encode in He as [Hm Hr]; [|done]. unfold ReadDecodeFrame. unfold ReadOneHeaderFrame in Hr.
  apply bind_ok in Hr as ([[enchint hs] body] & -> & Hr). run. destruct hs; [done|]. injection Hr as -> -> ->.
  by apply DecodeFrame_Marshal.
Qed.
Lemma framed_bytes (meta : T -> bytes) o v : framed meta o (Some v) ->
  exists b (enc : E) m, o = Some b /\ Marshal enc v = Ok m /\ ReadOneHeaderFrame b = Ok (Enc_Hint enc, meta v, m).
Proof.
  intros (enc & m & b & -> & Hs & He). exists b, enc, m. split; [done|].
  by apply ReadOneHeaderFrame_Encode in He.
Qed.
End read.
End shows.

(** ** Entries under a prefix *)

(** The last value put under a key. *)
Definition put_of (k : dkey) (puts : list (dkey * bytes)) : option bytes :=
  foldl (fun o kv => if decide (kv.1 = k) then Some kv.2 else o) None puts.
Lemma put_of_snoc k puts k' v : put_of k (puts ++ [(k', v)]) = if decide (k' = k) then Some v else put_of k puts.
Proof. unfold put_of. by rewrite foldl_snoc. Qed.
Lemma put_of_in k puts v : put_of k puts = Some v -> (k, v) ∈ puts.
Proof.
  induction puts as [|[k' v'] puts IH] using rev_ind; [done|]. rewrite put_of_snoc, elem_of_app, list_elem_of_singleton.
  destruct (decide (k' = k)) as [->|]; [intros [= ->]; by right|]. intros ?%IH. by left.
Qed.
Lemma put_of_None k puts : put_of k puts = None <-> k ∉ puts.*1.
Proof.
  induction puts as [|[k' v'] puts IH] using rev_ind; [split; [intros _; apply not_elem_of_nil|done]|].
  rewrite put_of_snoc, fmap_app. simpl. rewrite not_elem_of_app, list_elem_of_singleton.
  destruct (decide (k' = k)) as [->|Hn]; [naive_solver|]. rewrite IH. split; [intros; split; [done|congruence]|by intros []].
Qed.
Lemma put_of_unique k puts v : (k, v) ∈ puts -> (forall v', (k, v') ∈ puts -> v' = v) -> put_of k puts = Some v.
Proof.
  intros Hin Hu. destruct (put_of k puts) as [v'|] eqn:E.
  - apply put_of_in, Hu in E. by subst.
  - apply put_of_None in E. by apply (list_elem_of_fmap_2 fst) in Hin.
Qed.

Section prefixes.
Context `{Crypto} `{!HashLaws} {D : Type} `{LevelDBLaws D}.

Definition view (p : bytes) (d : D) (k : dkey) : option bytes := ldb_Get d (p ++ kbytes k).
Definition only (p : bytes) (d : D) : Prop := forall x, is_Some (ldb_Get d (p ++ x)) -> exists k, dkey_ok k /\ x = kbytes k.
Definition raw (p : bytes) (puts : list (dkey * bytes)) : batch := (fun kv => (p ++ kbytes kv.1, Some kv.2)) <$> puts.

Lemma dkey_ok_valid k : dkey_ok k -> valid k.
Proof. destruct k; simpl; unfold height_ok, i64; lia || done. Qed.
Lemma ps_keyed_ok {A} p k (f : bytes -> A) : ps_keyed (Some p) (kbytes k) f = Ok (f (p ++ kbytes k)).
Proof. unfold ps_keyed, ps_key. by destruct (kbytes_cons k) as (x & l & ->). Qed.
Lemma ps_Get_view p k (d : D) : ps_Get (Some p) (kbytes k) d = Ok (view p d k).
Proof. unfold ps_Get. by rewrite ps_keyed_ok. Qed.
Lemma ps_Exists_view p k (d : D) : ps_Exists (Some p) (kbytes k) d = Ok (bool_decide (is_Some (view p d k))).
Proof. unfold ps_Exists. by rewrite ps_keyed_ok. Qed.

Lemma raw_snoc p puts k v : raw p (puts ++ [(k, v)]) = raw p puts ++ [(p ++ kbytes k, Some v)].
Proof. unfold raw. by rewrite fmap_app. Qed.
Lemma batch_get_raw p puts k : Forall (fun kv => dkey_ok kv.1) puts -> dkey_ok k ->
  batch_get (p ++ kbytes k) (raw p puts) = Some <$> put_of k puts.
Proof.
  intros Hp Hk. induction puts as [|[k' v] puts IH] using rev_ind; [done|].
  apply Forall_app in Hp as [Hp Hk']. rewrite Forall_singleton in Hk'. simpl in Hk'.
  rewrite raw_snoc, batch_get_snoc, put_of_snoc, IH by done.
  destruct (decide (k' = k)) as [->|Hn]; [by rewrite decide_True|]. rewrite decide_False; [done|].
  intros Eq%app_inv_head. apply kbytes_inj in Eq; [done|by apply dkey_ok_valid..].
Qed.
Lemma after_raw p puts (d : D) k : Forall (fun kv => dkey_ok kv.1) puts -> dkey_ok k ->
  after (raw p puts) d (p ++ kbytes k) = or_else (put_of k puts) (view p d k).
Proof. intros Hp Hk. unfold after. rewrite batch_get_raw by done. by destruct (put_of k puts). Qed.
Lemma after_raw_out p puts (d : D) x : ~ p `prefix_of` x -> after (raw p puts) d x = ldb_Get d x.
Proof.
  intros Hx. unfold after. destruct (batch_get x (raw p puts)) eqn:Eb; [|done]. exfalso. apply Hx.
  assert (x ∈ (raw p puts).*1) as Hin. { apply dec_stable. intros Hn%batch_get_None. congruence. }
  unfold raw in Hin. rewrite <- list_fmap_compose in Hin. apply list_elem_of_fmap in Hin as (kv & -> & _).
  by apply prefix_app_r.
Qed.
End prefixes.

(** ** What a block write leaves *)
Inductive job := JState (st : St) | JOperation (op : Hash).

Section write.
Context `{Crypto} `{!HashLaws} {D : Type} `{LevelDBLaws D} {C : Type -> Type} `{GCacheLaws C} {E : Type} `{Encoders E}.
Context `{!Codec E St, !Codec E BlockMap, !Codec E SuffrageProof} {P : Type} `{Policies P}.
Abbreviation db := (DB D C).
Abbreviation world := (World D C).

(** The writer ([isaac/block/writer.go]): workers set the operations and the
    states as they come; the rest is written, then come the map and the proof. *)
Definition do_job (j : job) (w : BlockWrite E) : db (BlockWrite E) :=
  match j with
  | JState st => SetStates (fun l => l) [st] w
  | JOperation op => SetOperations [Some op] w
  end.
Definition write_block (jobs : list job) (m : BlockMap) (proof : option SuffrageProof) (w : BlockWrite E) : db (BlockWrite E) :=
  foldM do_job jobs w ≫= fun w =>
  bw_Write w ≫= fun w =>
  SetBlockMap m w ≫= fun w =>
  match proof with None => mret w | Some p => SetSuffrageProof p w end.

(** What a job puts. *)
Definition state_frame (enc : E) (st : St) : bytes := match EncodeFrameState enc st with Ok b => b | _ => [] end.
Definition operation_puts (ops : list (option Hash)) : list (dkey * bytes) :=
  (fun h => (KInState h, str_bytes h)) <$> omap (fun h => h) ops.
Definition job_puts (enc : E) (j : job) : list (dkey * bytes) :=
  match j with
  | JState st => (KState (s_k st), state_frame enc st) :: operation_puts (s_ops st)
  | JOperation op => [(KKnown op, Hash_Bytes op)]
  end.
Definition job_state (j : job) : option St := match j with JState st => Some st | _ => None end.
Definition job_known (j : job) : option Hash := match j with JOperation op => Some op | _ => None end.
Definition job_states (jobs : list job) : list St := omap job_state jobs.

(** A state that can be stored. *)
Record state_ok (enc : E) (st : St) : Prop := {
  so_hash : is_Some (s_h st);
  so_short : short (state_meta st);
  so_encoded : is_Some (match Marshal enc st with Ok b => Some b | _ => None end);
  so_ops : Forall is_Some (s_ops st);
  so_suffrage : s_k st = SuffrageStateKey -> IsSuffrageNodesState (Some st) = true;
  so_policy : s_k st = NetworkPolicyStateKey -> is_policy_state (P := P) st = true
}.

Definition states_map (done : list job) : gmap string St := foldl (fun m st => <[s_k st := st]> m) ∅ (job_states done).
Definition jobs_puts (enc : E) (done : list job) : list (dkey * bytes) := mjoin (job_puts enc <$> done).
Definition in_ops (h : Hash) (done : list job) : Prop := exists st, st ∈ job_states done /\ Some h ∈ s_ops st.

Lemma job_states_snoc done j : job_states (done ++ [j]) = job_states done ++ match job_state j with Some st => [st] | None => [] end.
Proof. unfold job_states. rewrite omap_app. simpl. by destruct (job_state j). Qed.
Lemma states_map_state done st : states_map (done ++ [JState st]) = <[s_k st := st]> (states_map done).
Proof. unfold states_map. rewrite job_states_snoc. cbn [job_state]. by rewrite foldl_snoc. Qed.
Lemma states_map_operation done op : states_map (done ++ [JOperation op]) = states_map done.
Proof. unfold states_map. rewrite job_states_snoc. cbn [job_state]. by rewrite app_nil_r. Qed.
Lemma jobs_puts_snoc enc done j : jobs_puts enc (done ++ [j]) = jobs_puts enc done ++ job_puts enc j.
Proof. unfold jobs_puts. rewrite fmap_app, join_app. simpl. by rewrite app_nil_r. Qed.

Lemma state_frame_ok enc st : state_ok enc st ->
  EncodeFrameState enc st = Ok (state_frame enc st) /\
  exists m, EncodeOneHeaderFrame enc (state_meta st) st = Ok (m, state_frame enc st).
Proof.
  intros [[h Hh] _ [m Hm] _ _ _]. unfold state_frame, EncodeFrameState, state_meta, EncodeOneHeaderFrame, EncodeFrame. rewrite Hh.
  destruct (Marshal enc st) as [m'| |]; [|done..]. run. rewrite writeFrame_ok. run. split; [done|]. by eexists.
Qed.

(** The state of a block write after some jobs. *)
Record writing (p : bytes) (w0 : world) (bw0 : BlockWrite E) (done : list job) (w : world) (bw : BlockWrite E) : Prop := {
  wr_pst : bw_pst bw = Some p;
  wr_enc : bw_enc bw = bw_enc bw0;
  wr_height : bw_height bw = bw_height bw0;
  wr_stcache : bw_stcache bw = bw_stcache bw0;
  wr_batch : exists b, bw_batch bw = Some b /\ forall x, is_bytes x ->
    after b (w_disk w) x = after (raw p (jobs_puts (bw_enc bw0) done)) (w_disk w0) x;
  wr_last : bw_last bw = Some {| l_mp := None; l_sufst := states_map done !! SuffrageStateKey;
                                 l_policy := states_map done !! NetworkPolicyStateKey; l_proof := None |};
  wr_laststates : exists m, bw_laststates bw = Some m /\ forall k, is_Some (m !! k) <-> is_Some (states_map done !! k);
  wr_opcache : exists m, bw_opcache bw = Some m /\ forall h v, m !! h = Some v <-> v = true /\ in_ops h done;
  wr_cache : match bw_stcache bw with
             | None => True
             | Some (id, _) => exists c, w_stcaches w !! id = Some c /\
                 forall k i, cached c k = Some i -> exists st, i = (Some st, true) /\ states_map done !! k = Some st
             end;
  wr_caches : forall id, fst <$> bw_stcache bw0 <> Some id -> w_stcaches w !! id = w_stcaches w0 !! id;
  wr_pstcache : w_pstcache w = w_pstcache w0;
  wr_popcache : w_popcache w = w_popcache w0
}.

Lemma db_bind_Ok {A B} (m : db A) (f : A -> db B) w a w1 : m w = (Ok a, w1) -> (m ≫= f) w = f a w1.
Proof. unfold mbind, db_bind. by intros ->. Qed.

Lemma bw_batchAdd_ok p key v (bw : BlockWrite E) b (w : world) :
  bw_pst bw = Some p -> bw_batch bw = Some b ->
  exists b' d', bw_batchAdd key v bw w = (Ok (set_batch (Some b') bw), set_disk d' w) /\
    forall x, is_bytes x -> after b' d' x = if decide (x = p ++ key) then Some v else after b (w_disk w) x.
Proof.
  intros Hp Hb. unfold bw_batchAdd, to_disk. rewrite Hb, Hp. unfold batchAdd, psb_op. simpl default. simpl fst. simpl snd.
  assert (forall x, after (b ++ [(p ++ key, Some v)]) (w_disk w) x = if decide (x = p ++ key) then Some v else after b (w_disk w) x) as Ha.
  { intros x. unfold after. rewrite batch_get_snoc. destruct (decide (p ++ key = x)) as [->|].
    - by rewrite decide_True.
    - by rewrite decide_False by congruence. }
  destruct (_ <? _)%nat.
  - exists (b ++ [(p ++ key, Some v)]), (w_disk w). split; [done|]. intros x _. apply Ha.
  - exists [], (Storage_Batch (b ++ [(p ++ key, Some v)]) (w_disk w)). split; [done|]. intros x Hx.
    rewrite <- Ha. unfold after at 1. simpl. by apply Get_Storage_Batch.
Qed.

(** Putting one more. *)
Lemma after_put p puts k v b d b' d' (w0 : world) :
  (forall x, is_bytes x -> after b d x = after (raw p puts) (w_disk w0) x) ->
  (forall x, is_bytes x -> after b' d' x = if decide (x = p ++ kbytes k) then Some v else after b d x) ->
  forall x, is_bytes x -> after b' d' x = after (raw p (puts ++ [(k, v)])) (w_disk w0) x.
Proof.
  intros H1' H2' x Hx. rewrite H2' by done. unfold after. rewrite raw_snoc, batch_get_snoc.
  destruct (decide (p ++ kbytes k = x)) as [->|]; [by rewrite decide_True|]. rewrite decide_False by congruence. by apply H1'.
Qed.

Lemma setOperations_ok p puts ops (w0 w : world) (bw : BlockWrite E) b m :
  bw_pst bw = Some p -> bw_batch bw = Some b -> bw_opcache bw = Some m -> Forall is_Some ops ->
  (forall x, is_bytes x -> after b (w_disk w) x = after (raw p puts) (w_disk w0) x) ->
  exists b' d' m', foldM setOperation ops bw w = (Ok (set_opcache (Some m') (set_batch (Some b') bw)), set_disk d' w) /\
    (forall x, is_bytes x -> after b' d' x = after (raw p (puts ++ operation_puts ops)) (w_disk w0) x) /\
    (forall h v, m' !! h = Some v <-> m !! h = Some v /\ Some h ∉ ops \/ v = true /\ Some h ∈ ops).
Proof.
  revert puts bw w b m. induction ops as [|op ops IH]; intros puts bw w b m Hp Hb Hm Ho Ha.
  { exists b, (w_disk w), m. split_and!.
    - simpl. destruct bw, w; simpl in *; by subst.
    - intros x Hx. rewrite Ha by done. unfold operation_puts. simpl. by rewrite app_nil_r.
    - intros h v. split; [intros; left; split; [done|apply not_elem_of_nil]|].
      intros [[? _]|[_ Hn%elem_of_nil]]; done. }
  apply Forall_cons in Ho as [[h ->] Ho]. cbn [foldM setOperation].
  destruct (bw_batchAdd_ok p (kbytes (KInState h)) (str_bytes h) bw b w Hp Hb) as (b1 & d1 & E1 & H1').
  rewrite (db_bind_Ok _ _ w (set_opcache (Some (<[h := true]> m)) (set_batch (Some b1) bw)) (set_disk d1 w)).
  2:{ rewrite (db_bind_Ok _ _ _ _ _ E1). simpl. by rewrite Hm. }
  destruct (IH (puts ++ [(KInState h, str_bytes h)]) (set_opcache (Some (<[h := true]> m)) (set_batch (Some b1) bw))
              (set_disk d1 w) b1 (<[h := true]> m)) as (b' & d' & m' & E2 & H2' & H3'); [done|done|done|done| |].
  { simpl. by apply (after_put p puts _ _ b (w_disk w)). }
  exists b', d', m'. split_and!.
  - rewrite E2. done.
  - intros x Hx. rewrite H2' by done. unfold operation_puts. simpl. by rewrite <- app_assoc.
  - intros h' v. rewrite H3', lookup_insert_Some, elem_of_cons.
    assert (true = v <-> v = true) as -> by done. assert (Some h' = Some h <-> h = h') as Hs by (split; congruence).
    destruct (decide (Some h' ∈ ops)), (decide (h = h')); tauto.
Qed.

Definition lasts_of (m : gmap string St) : Lasts :=
  {| l_mp := None; l_sufst := m !! SuffrageStateKey; l_policy := m !! NetworkPolicyStateKey; l_proof := None |}.

Lemma set_lasts_ok enc st m (bw : BlockWrite E) (w : world) :
  state_ok enc st -> m !! s_k st = None -> bw_last bw = Some (lasts_of m) ->
  (if needs_lasts st then with_lasts (fun l => mret (update_lasts st l)) bw else mret bw) w =
    (Ok (set_last (Some (lasts_of (<[s_k st := st]> m))) bw), w).
Proof.
  intros Hst Hm Hl. unfold needs_lasts, update_lasts, with_lasts, lasts_of. rewrite Hl.
  destruct (decide (s_k st = SuffrageStateKey)) as [Hk|Hk].
  { rewrite (so_suffrage _ _ Hst Hk), (bool_decide_eq_true_2 (s_k st = SuffrageStateKey)) by done. cbn [andb orb].
    unfold mret, db_ret, mbind, db_bind. simpl. rewrite Hk in *. rewrite Hm. simpl.
    by rewrite lookup_insert_eq, lookup_insert_ne by done. }
  rewrite (bool_decide_eq_false_2 (s_k st = SuffrageStateKey)) by done. rewrite andb_false_r. cbn [orb].
  destruct (decide (s_k st = NetworkPolicyStateKey)) as [Hk'|Hk'].
  { rewrite (so_policy _ _ Hst Hk'), (bool_decide_eq_true_2 (s_k st = NetworkPolicyStateKey)) by done. cbn [andb].
    unfold mret, db_ret, mbind, db_bind. simpl. rewrite Hk' in *. rewrite Hm. simpl.
    by rewrite lookup_insert_eq, lookup_insert_ne by done. }
  rewrite (bool_decide_eq_false_2 (s_k st = NetworkPolicyStateKey)) by done. rewrite andb_false_r.
  unfold mret, db_ret. rewrite !lookup_insert_ne by done. destruct bw; simpl in *; by subst.
Qed.

Lemma isLastStates_new st (bw : BlockWrite E) m : bw_laststates bw = Some m -> m !! s_k st = None ->
  isLastStates st bw = (true, set_laststates (Some (<[s_k st := s_height st]> m)) bw).
Proof. intros Hl Hm. unfold isLastStates, s_Set, at_key. rewrite Hl. simpl. by rewrite Hm. Qed.

Lemma in_ops_state h done st : in_ops h (done ++ [JState st]) <-> in_ops h done \/ Some h ∈ s_ops st.
Proof.
  unfold in_ops. rewrite job_states_snoc. cbn [job_state]. split.
  - intros (st' & [?|Hs%list_elem_of_singleton]%elem_of_app & ?); [left; eauto|subst; by right].
  - intros [(st' & ? & ?)|?]; [exists st'|exists st]; rewrite elem_of_app, list_elem_of_singleton; auto.
Qed.

Lemma do_state_ok p w0 bw0 done w bw st : writing p w0 bw0 done w bw ->
  state_ok (bw_enc bw0) st -> states_map done !! s_k st = None ->
  exists w' bw', do_job (JState st) bw w = (Ok bw', w') /\ writing p w0 bw0 (done ++ [JState st]) w' bw'.
Proof.
  intros W Hst Hnew. destruct W as [Wp We Wh Ws (b & Wb & Wd) Wl (m & Wm & Wk) (o & Wo & Wi) Wc Wcs Wps Wpo].
  assert (m !! s_k st = None) as Hm.
  { apply eq_None_not_Some. rewrite Wk. rewrite Hnew. by intros []. }
  cbn [do_job SetStates]. unfold setState. rewrite (isLastStates_new st bw m Wm Hm). cbn [negb].
  set (bw1 := set_laststates (Some (<[s_k st:=s_height st]> m)) bw).
  destruct (state_frame_ok _ _ Hst) as [Hf _].
  rewrite (db_bind_Ok _ _ w (state_frame (bw_enc bw0) st) w) by (unfold lift; simpl; by rewrite We, Hf).
  assert (bw_last bw1 = Some (lasts_of (states_map done))) as Hl1 by exact Wl.
  rewrite (db_bind_Ok _ _ _ _ _ (set_lasts_ok _ st _ bw1 w Hst Hnew Hl1)).
  set (bw2 := set_last _ bw1).
  destruct (bw_batchAdd_ok p (kbytes (KState (s_k st))) (state_frame (bw_enc bw0) st) bw2 b w) as (b1 & d1 & E1 & H1'); [done..|].
  rewrite (db_bind_Ok _ _ _ _ _ E1). set (bw3 := set_batch (Some b1) bw2).
  assert (exists w2, (match bw_stcache bw3 with None => mret tt | Some (id, _) => stcache_do (gc_Set (s_k st) (Some st, true)) id end
      : db unit) (set_disk d1 w) = (Ok tt, w2) /\ w_disk w2 = d1 /\ w_pstcache w2 = w_pstcache w /\ w_popcache w2 = w_popcache w /\
      (forall id, fst <$> bw_stcache bw0 <> Some id -> w_stcaches w2 !! id = w_stcaches w !! id) /\
      match bw_stcache bw with
      | None => True
      | Some (id, _) => exists c, w_stcaches w2 !! id = Some c /\
          forall k i, cached c k = Some i -> exists st', i = (Some st', true) /\ states_map (done ++ [JState st]) !! k = Some st'
      end) as (w2 & E2 & Hd2 & Hps2 & Hpo2 & Hcs2 & Hc2).
  { change (bw_stcache bw3) with (bw_stcache bw). destruct (bw_stcache bw) as [[id pf]|] eqn:Eid.
    - destruct Wc as (c & Hc & Hci). unfold stcache_do. simpl. rewrite Hc.
      eexists. split; [done|]. simpl. split_and!; try done.
      + intros id' Hid. rewrite <- Ws in Hid. simpl in Hid. rewrite lookup_insert_ne; [done|congruence].
      + exists (gc_Set (s_k st) (Some st, true) c). split; [apply lookup_insert_eq|]. intros k i Hk.
        rewrite states_map_state. apply cached_Set in Hk as [[-> ->]|[Hne Hk]].
        * exists st. by rewrite lookup_insert_eq.
        * apply Hci in Hk as (st' & -> & ?). exists st'. by rewrite lookup_insert_ne.
    - exists (set_disk d1 w). by split_and!. }
  rewrite (db_bind_Ok _ _ _ _ _ E2).
  destruct (setOperations_ok p (jobs_puts (bw_enc bw0) done ++ [(KState (s_k st), state_frame (bw_enc bw0) st)]) (s_ops st)
      w0 w2 bw3 b1 o) as (b' & d' & o' & E3 & H3' & Ho'); [done|done|done|by destruct Hst| |].
  { rewrite Hd2. by apply (after_put p _ _ _ b (w_disk w)). }
  exists (set_disk d' w2), (set_opcache (Some o') (set_batch (Some b') bw3)). split; [exact E3|].
  split; simpl; try done.
  - exists b'. split; [done|]. intros x Hx. rewrite H3' by done. by rewrite jobs_puts_snoc, <- app_assoc.
  - by rewrite states_map_state.
  - eexists. split; [done|]. intros k. rewrite states_map_state. destruct (decide (s_k st = k)) as [->|Hne].
    + rewrite !lookup_insert_eq. split; by eexists.
    + by rewrite !lookup_insert_ne.
  - exists o'. split; [done|]. intros h v. rewrite Ho', Wi, in_ops_state.
    destruct (decide (Some h ∈ s_ops st)); tauto.
  - intros id Hid. rewrite Hcs2 by done. by apply Wcs.
  - by rewrite Hps2.
  - by rewrite Hpo2.
Qed.

Lemma do_operation_ok p w0 bw0 done w bw op : writing p w0 bw0 done w bw ->
  exists w' bw', do_job (JOperation op) bw w = (Ok bw', w') /\ writing p w0 bw0 (done ++ [JOperation op]) w' bw'.
Proof.
  intros W. destruct W as [Wp We Wh Ws (b & Wb & Wd) Wl (m & Wm & Wk) (o & Wo & Wi) Wc Wcs Wps Wpo].
  cbn [do_job]. unfold SetOperations. cbn [foldM].
  destruct (bw_batchAdd_ok p (kbytes (KKnown op)) (Hash_Bytes op) bw b w) as (b1 & d1 & E1 & H1'); [done..|].
  rewrite (db_bind_Ok _ _ _ _ _ E1). exists (set_disk d1 w), (set_batch (Some b1) bw). split; [done|].
  split; simpl; rewrite ?states_map_operation; try done.
  - exists b1. split; [done|]. intros x Hx. rewrite jobs_puts_snoc. by apply (after_put p _ _ _ b (w_disk w)).
  - by exists m.
  - exists o. split; [done|]. intros h v. rewrite Wi. unfold in_ops. rewrite job_states_snoc. cbn [job_state].
    by rewrite app_nil_r.
Qed.

Lemma states_map_lookup jobs k st : NoDup (s_k <$> job_states jobs) ->
  states_map jobs !! k = Some st <-> st ∈ job_states jobs /\ s_k st = k.
Proof.
  unfold states_map. induction (job_states jobs) as [|st' l IH] using rev_ind; intros Hnd.
  { simpl. rewrite lookup_empty. split; [done|]. intros [Hn _]. by apply elem_of_nil in Hn. }
  rewrite fmap_app in Hnd. apply NoDup_app in Hnd as (Hnd & Hn & _). rewrite foldl_snoc, lookup_insert_Some, (IH Hnd), elem_of_app, list_elem_of_singleton.
  split.
  - intros [[? ->]|(? & ? & ?)]; auto.
  - intros [[Hin| ->] <-]; [right|by left]. split; [|done]. intros Heq.
    apply (Hn (s_k st)); [by apply list_elem_of_fmap_2|]. rewrite <- Heq. apply list_elem_of_here.
Qed.
Lemma states_map_None jobs k : k ∉ s_k <$> job_states jobs -> states_map jobs !! k = None.
Proof.
  unfold states_map. induction (job_states jobs) as [|st' l IH] using rev_ind; intros Hn; [done|].
  rewrite fmap_app, not_elem_of_app in Hn. destruct Hn as [Hn Hn']. rewrite foldl_snoc, lookup_insert_ne; [auto|].
  intros <-. apply Hn'. apply list_elem_of_here.
Qed.

Lemma do_jobs_ok p w0 bw0 jobs done w bw : writing p w0 bw0 done w bw ->
  NoDup (s_k <$> job_states (done ++ jobs)) -> Forall (state_ok (bw_enc bw0)) (job_states jobs) ->
  exists w' bw', foldM do_job jobs bw w = (Ok bw', w') /\ writing p w0 bw0 (done ++ jobs) w' bw'.
Proof.
  revert done w bw. induction jobs as [|j jobs IH]; intros done w bw W Hnd Hok.
  { exists w, bw. by rewrite app_nil_r. }
  assert (exists w1 bw1, do_job j bw w = (Ok bw1, w1) /\ writing p w0 bw0 (done ++ [j]) w1 bw1) as (w1 & bw1 & E1 & W1).
  { destruct j as [st|op]; [|by apply do_operation_ok]. apply do_state_ok; [done| |].
    - unfold job_states in Hok. simpl in Hok. by apply Forall_cons in Hok as [? _].
    - apply states_map_None. unfold job_states in *. rewrite omap_app, fmap_app in Hnd. apply NoDup_app in Hnd as (_ & Hn & _).
      intros Hin%Hn. apply Hin. simpl. apply list_elem_of_here. }
  cbn [foldM]. rewrite (db_bind_Ok _ _ _ _ _ E1). replace (done ++ j :: jobs) with ((done ++ [j]) ++ jobs) in * by (by rewrite <- app_assoc).
  apply IH; [done|done|]. unfold job_states in *. simpl in Hok. destruct j; [by apply Forall_cons in Hok as []|done].
Qed.

(** ** The block that was written *)
Definition block_of (jobs : list job) (m : BlockMap) (proof : option SuffrageProof) : ABlock :=
  {| ab_map := m; ab_states := states_map jobs; ab_known := omap job_known jobs; ab_proof := proof |}.
Definition marshaled {T} `{!Codec E T} (enc : E) (v : T) : Prop := is_ok (Marshal enc v) = true.
Record block_ok (enc : E) (jobs : list job) (m : BlockMap) (proof : option SuffrageProof) : Prop := {
  bo_nodup : NoDup (s_k <$> job_states jobs);
  bo_states : Forall (state_ok enc) (job_states jobs);
  bo_height : height_ok (bm_height m);
  bo_hash : is_Some (bm_hash m);
  bo_short : short (map_meta m);
  bo_map : marshaled enc m;
  bo_proof p : proof = Some p ->
    short (proof_meta p) /\ marshaled enc p /\ mf_height (bm_manifest (sp_m p)) = bm_height m /\ height_ok (SuffrageHeight p)
}.

(** What a temporary database says of the block. *)
Record temp_shows (t : TempLeveldb E P) (b : ABlock) (p : bytes) (w : world) : Prop := {
  ts_pst : t_pst t = Some p;
  ts_bytes : is_bytes p;
  ts_view : shows (E := E) (view p (w_disk w)) (block_parts b);
  ts_only : only p (w_disk w);
  ts_mp : exists body, t_mp t = Some (ab_map b, map_meta (ab_map b), body) /\ Marshal (t_enc t) (ab_map b) = Ok body;
  ts_sufst : t_sufst t = ab_states b !! SuffrageStateKey;
  ts_policy : t_policy t = ab_states b !! NetworkPolicyStateKey ≫= fun st => s_v st ≫= policy_of;
  ts_proof : t_SuffrageProof t = ab_proof b;
  ts_opcache h : t_ExistsInStateOperation h t = true <-> ab_instate b h;
  ts_cache : match t_stcache t with
             | None => True
             | Some (id, _) => exists c, w_stcaches w !! id = Some c /\
                 forall k i, cached c k = Some i -> i = (ab_states b !! k, bool_decide (is_Some (ab_states b !! k)))
             end
}.

Definition EncodeOne_frame {T} `{!Codec E T} (enc : E) (meta : bytes) (v : T) : bytes :=
  match EncodeOneHeaderFrame enc meta v with Ok (_, b) => b | _ => [] end.
Lemma EncodeOne_ok {T} `{!Codec E T} (enc : E) meta (v : T) : marshaled enc v ->
  exists m, Marshal enc v = Ok m /\ EncodeOneHeaderFrame enc meta v = Ok (m, EncodeOne_frame enc meta v).
Proof.
  unfold marshaled, EncodeOne_frame, EncodeOneHeaderFrame, EncodeFrame. intros Hm. destruct (Marshal enc v) as [m| |]; [|done..].
  run. rewrite writeFrame_ok. run. by exists m.
Qed.

Definition proof_puts (enc : E) (proof : option SuffrageProof) : list (dkey * bytes) :=
  match proof with
  | None => []
  | Some p => let b := EncodeOne_frame enc (proof_meta p) p in
              [(KProof (SuffrageHeight p), b); (KProofAt (mf_height (bm_manifest (sp_m p))), b)]
  end.
Definition block_puts (enc : E) (jobs : list job) (m : BlockMap) (proof : option SuffrageProof) : list (dkey * bytes) :=
  jobs_puts enc jobs ++ [(KMap (bm_height m), EncodeOne_frame enc (map_meta m) m)] ++ proof_puts enc proof.

(** A put that goes to the disk at once. *)
Lemma ps_Put_ok p k v puts (w0 w : world) :
  (forall x, is_bytes x -> ldb_Get (w_disk w) x = after (raw p puts) (w_disk w0) x) ->
  exists d', on_disk (ps_Put (Some p) (kbytes k) v) w = (Ok tt, set_disk d' w) /\
    forall x, is_bytes x -> ldb_Get d' x = after (raw p (puts ++ [(k, v)])) (w_disk w0) x.
Proof.
  intros Hd. unfold on_disk, to_disk, ps_Put. rewrite ps_keyed_ok. run. eexists. split; [done|].
  intros x Hx. unfold Storage_Put. rewrite ldb_Get_Write by done. unfold after. rewrite raw_snoc, batch_get_snoc.
  change [(p ++ kbytes k, Some v)] with ([] ++ [(p ++ kbytes k, Some v)]). rewrite batch_get_snoc.
  destruct (decide _); [done|]. simpl. by apply Hd.
Qed.

Definition put_means (enc : E) (jobs : list job) (m : BlockMap) (proof : option SuffrageProof) (k : dkey) (v : bytes) : Prop :=
  match k with
  | KState key => exists st, st ∈ job_states jobs /\ s_k st = key /\ v = state_frame enc st
  | KInState h => in_ops h jobs /\ v = str_bytes h
  | KKnown h => h ∈ omap job_known jobs /\ v = Hash_Bytes h
  | KMap h => h = bm_height m /\ v = EncodeOne_frame enc (map_meta m) m
  | KProof h => exists p, proof = Some p /\ h = SuffrageHeight p /\ v = EncodeOne_frame enc (proof_meta p) p
  | KProofAt h => exists p, proof = Some p /\ h = mf_height (bm_manifest (sp_m p)) /\ v = EncodeOne_frame enc (proof_meta p) p
  | KMerged _ => False
  end.
Lemma in_operation_puts ops k v : (k, v) ∈ operation_puts ops <-> exists h, Some h ∈ ops /\ k = KInState h /\ v = str_bytes h.
Proof.
  unfold operation_puts. rewrite list_elem_of_fmap. split.
  - intros (h & [= -> ->] & Hh). apply list_elem_of_omap in Hh as (o & Ho & ->). eauto.
  - intros (h & Hh & -> & ->). exists h. split; [done|]. apply list_elem_of_omap. eauto.
Qed.
Lemma in_jobs_puts enc jobs k v : (k, v) ∈ jobs_puts enc jobs <-> exists j, j ∈ jobs /\ (k, v) ∈ job_puts enc j.
Proof.
  unfold jobs_puts. rewrite list_elem_of_join. split.
  - intros (l & Hin & Hl). apply list_elem_of_fmap in Hl as (j & -> & Hj). eauto.
  - intros (j & Hj & Hin). exists (job_puts enc j). split; [done|]. by apply list_elem_of_fmap_2.
Qed.
Lemma in_job_states st jobs : st ∈ job_states jobs <-> JState st ∈ jobs.
Proof.
  unfold job_states. rewrite list_elem_of_omap. split.
  - intros ([st'|] & Hj & Hs); [|done]. injection Hs as ->. done.
  - intros Hj. by exists (JState st).
Qed.
Lemma in_known h (jobs : list job) : h ∈ omap job_known jobs <-> JOperation h ∈ jobs.
Proof.
  rewrite list_elem_of_omap. split.
  - intros ([st'|] & Hj & Hs); [done|]. injection Hs as ->. done.
  - intros Hj. by exists (JOperation h).
Qed.
Lemma in_block_puts enc jobs m proof k v : (k, v) ∈ block_puts enc jobs m proof <-> put_means enc jobs m proof k v.
Proof.
  unfold block_puts. rewrite !elem_of_app, list_elem_of_singleton, in_jobs_puts. unfold put_means, in_ops.
  assert ((k, v) ∈ proof_puts enc proof <-> exists p, proof = Some p /\
    (k = KProof (SuffrageHeight p) \/ k = KProofAt (mf_height (bm_manifest (sp_m p)))) /\ v = EncodeOne_frame enc (proof_meta p) p) as ->.
  { unfold proof_puts. destruct proof as [p|].
    - rewrite !elem_of_cons, elem_of_nil. naive_solver.
    - rewrite elem_of_nil. naive_solver. }
  split.
  - intros [([st|op] & Hj & Hin)|[[= -> ->]|(p & -> & [->| ->] & ->)]]; [| |by split|by exists p|by exists p].
    + simpl in Hin. apply elem_of_cons in Hin as [[= -> ->]|(h & Hh & -> & ->)%in_operation_puts].
      * exists st. by rewrite in_job_states.
      * split; [|done]. exists st. by rewrite in_job_states.
    + simpl in Hin. apply list_elem_of_singleton in Hin as [= -> ->]. by rewrite in_known.
  - destruct k.
    + intros (st & Hst & <- & ->). left. exists (JState st). rewrite <- in_job_states. split; [done|]. apply list_elem_of_here.
    + intros [(st & Hst & Hh) ->]. left. exists (JState st). rewrite <- in_job_states. split; [done|].
      apply elem_of_cons. right. apply in_operation_puts. by exists h.
    + intros [Hh ->]. left. exists (JOperation h). rewrite <- in_known. split; [done|]. apply list_elem_of_here.
    + intros [-> ->]. right. by left.
    + intros (p & -> & -> & ->). right. right. exists p. auto.
    + intros (p & -> & -> & ->). right. right. exists p. auto.
    + done.
Qed.
Lemma put_of_means enc jobs m proof k v : NoDup (s_k <$> job_states jobs) ->
  put_of k (block_puts enc jobs m proof) = Some v <-> put_means enc jobs m proof k v.
Proof.
  intros Hnd. split; [by intros ?%put_of_in%in_block_puts|]. intros Hv. apply put_of_unique; [by apply in_block_puts|].
  intros v' Hv'%in_block_puts. destruct k; simpl in *; try naive_solver.
  destruct Hv as (st & Hst & Hk & ->), Hv' as (st' & Hst' & Hk' & ->).
  f_equal. pose proof (states_map_lookup jobs key st Hnd) as L1. pose proof (states_map_lookup jobs key st' Hnd) as L2.
  destruct L1 as [_ L1], L2 as [_ L2]. rewrite L1 in L2 by done. injection (L2 (conj Hst' Hk')). done.
Qed.
Lemma block_puts_ok enc jobs m proof : block_ok enc jobs m proof -> Forall (fun kv => dkey_ok kv.1) (block_puts enc jobs m proof).
Proof.
  intros B. apply Forall_forall. intros [k v] Hin%in_block_puts. destruct k; simpl in *; try done.
  - destruct Hin as [-> _]. by destruct B.
  - destruct Hin as (p & -> & -> & _). by destruct (bo_proof _ _ _ _ B p eq_refl) as (_ & _ & _ & ?).
  - destruct Hin as (p & -> & -> & _). destruct (bo_proof _ _ _ _ B p eq_refl) as (_ & _ & -> & _). by destruct B.
Qed.

Lemma option_eq_of {A} (o : option A) (Q : A -> Prop) : (forall v, o = Some v <-> Q v) -> (forall v, ~ Q v) -> o = None.
Proof. intros Ho Hn. destruct o as [v|]; [|done]. destruct (Hn v). by apply Ho. Qed.

Lemma puts_show enc jobs m proof : block_ok enc jobs m proof ->
  shows (E := E) (fun k => put_of k (block_puts enc jobs m proof)) (block_parts (block_of jobs m proof)).
Proof.
  intros B. pose proof (fun k v => put_of_means enc jobs m proof k v (bo_nodup _ _ _ _ B)) as Hput.
  split; simpl; intros.
  - destruct (states_map jobs !! k) as [st|] eqn:Est; simpl.
    + apply states_map_lookup in Est as [Hst Hk]; [|apply B].
      assert (state_ok enc st) as Hok by (pose proof (bo_states _ _ _ _ B) as F; rewrite Forall_forall in F; auto).
      destruct (state_frame_ok _ _ Hok) as [_ [b Hb]]. exists enc, b, (state_frame enc st).
      split; [apply Hput; simpl; eauto|]. split; [apply Hok|done].
    + eapply option_eq_of; [apply Hput|]. simpl. intros v (st & Hst & Hk & _).
      assert (states_map jobs !! k = Some st) as E1 by (apply states_map_lookup; [apply B|done]). by rewrite E1 in Est.
  - unfold hash_shown. assert (ab_instate (block_of jobs m proof) h <-> in_ops h jobs) as Hio.
    { unfold ab_instate, in_ops. simpl. split.
      - intros (k & st & Hk & Hh). apply states_map_lookup in Hk as [? _]; [eauto|apply B].
      - intros (st & Hst & Hh). exists (s_k st), st. split; [|done]. apply states_map_lookup; [apply B|done]. }
    destruct (put_of (KInState h) _) as [v|] eqn:Ep.
    + apply Hput in Ep as [? ?]. split; [done|by apply Hio].
    + intros Hin%Hio. assert (put_of (KInState h) (block_puts enc jobs m proof) = Some (str_bytes h)) as E1 by (by apply Hput).
      by rewrite E1 in Ep.
  - split.
    + intros [v Hv%Hput]. by destruct Hv.
    + intros Hh. exists (Hash_Bytes h). by apply Hput.
  - unfold ab_height. simpl. destruct (Z.eqb_spec h (bm_height m)) as [->|Hne].
    + destruct (EncodeOne_ok enc (map_meta m) m (bo_map _ _ _ _ B)) as (mm & _ & Hm).
      exists enc, mm, (EncodeOne_frame enc (map_meta m) m). split; [by apply Hput|]. split; [apply B|done].
    + eapply option_eq_of; [apply Hput|]. simpl. by intros v [? _].
  - destruct proof as [p|]; simpl.
    + destruct (bo_proof _ _ _ _ B p eq_refl) as (Hs & Hm & _ & _). destruct (Z.eqb_spec h (SuffrageHeight p)) as [->|Hne].
      * destruct (EncodeOne_ok enc (proof_meta p) p Hm) as (mm & _ & Hmm). exists enc, mm, (EncodeOne_frame enc (proof_meta p) p).
        split; [apply Hput; simpl; eauto|done].
      * eapply option_eq_of; [apply Hput|]. simpl. intros v (p' & [= <-] & ? & _). done.
    + eapply option_eq_of; [apply Hput|]. simpl. by intros v (p' & ? & _).
  - unfold ab_height. simpl. destruct proof as [p|]; simpl.
    + destruct (bo_proof _ _ _ _ B p eq_refl) as (Hs & Hm & He & _). destruct (Z.eqb_spec h (bm_height m)) as [->|Hne].
      * destruct (EncodeOne_ok enc (proof_meta p) p Hm) as (mm & _ & Hmm). exists enc, mm, (EncodeOne_frame enc (proof_meta p) p).
        split; [apply Hput; simpl; eauto|done].
      * eapply option_eq_of; [apply Hput|]. simpl. intros v (p' & [= <-] & ? & _). congruence.
    + assert (put_of (KProofAt h) (block_puts enc jobs m None) = None) as ->.
      { eapply option_eq_of; [apply Hput|]. simpl. by intros v (p' & ? & _). }
      by destruct (h =? bm_height m).
Qed.

Lemma bw_Write_ok (bw : BlockWrite E) b (w : world) : bw_batch bw = Some b ->
  exists d', bw_Write bw w = (Ok (set_batch None (set_laststates None bw)), set_disk d' w) /\
    forall x, is_bytes x -> ldb_Get d' x = after b (w_disk w) x.
Proof.
  intros Hb. unfold bw_Write, bw_batchDone, to_disk. simpl. rewrite Hb. unfold batchDone. destruct b as [|op b].
  - exists (w_disk w). split; [done|]. intros x Hx. done.
  - exists (Storage_Batch (op :: b) (w_disk w)). split; [done|]. intros x Hx. by apply Get_Storage_Batch.
Qed.

Lemma SetBlockMap_ok p m puts (w0 w : world) (bw : BlockWrite E) l :
  bw_pst bw = Some p -> bw_height bw = bm_height m -> bw_last bw = Some l -> l_mp l = None ->
  is_Some (bm_hash m) -> marshaled (bw_enc bw) m ->
  (forall x, is_bytes x -> ldb_Get (w_disk w) x = after (raw p puts) (w_disk w0) x) ->
  exists d' mm, Marshal (bw_enc bw) m = Ok mm /\
    SetBlockMap m bw w = (Ok (set_last (Some {| l_mp := Some (m, map_meta m, mm); l_sufst := l_sufst l;
      l_policy := l_policy l; l_proof := l_proof l |}) bw), set_disk d' w) /\
    forall x, is_bytes x -> ldb_Get d' x =
      after (raw p (puts ++ [(KMap (bm_height m), EncodeOne_frame (bw_enc bw) (map_meta m) m)])) (w_disk w0) x.
Proof.
  intros Hp Hh Hl Hmp [h Hm] Hms Hd. destruct (EncodeOne_ok (bw_enc bw) (map_meta m) m Hms) as (mm & Hmm & He).
  destruct (ps_Put_ok p (KMap (bm_height m)) (EncodeOne_frame (bw_enc bw) (map_meta m) m) puts w0 w Hd) as (d' & Ep & Hd').
  exists d', mm. split; [done|]. split; [|done]. unfold SetBlockMap. rewrite Hh, Z.eqb_refl. cbn [negb].
  unfold with_lasts. rewrite Hl, Hmp, Hm. unfold map_meta in *. rewrite Hm in *.
  unfold lift. rewrite He. unfold mbind, db_bind. cbn beta iota. simpl kbytes in Ep. rewrite Hp, Ep. done.
Qed.

Lemma SetSuffrageProof_ok p proof puts (w0 w : world) (bw : BlockWrite E) l :
  bw_pst bw = Some p -> bw_last bw = Some l -> l_proof l = None -> marshaled (bw_enc bw) proof ->
  (forall x, is_bytes x -> ldb_Get (w_disk w) x = after (raw p puts) (w_disk w0) x) ->
  exists d' mm, SetSuffrageProof proof bw w = (Ok (set_last (Some {| l_mp := l_mp l; l_sufst := l_sufst l;
      l_policy := l_policy l; l_proof := Some (proof, proof_meta proof, mm) |}) bw), set_disk d' w) /\
    forall x, is_bytes x -> ldb_Get d' x = after (raw p (puts ++ proof_puts (bw_enc bw) (Some proof))) (w_disk w0) x.
Proof.
  intros Hp Hl Hpr Hms Hd. destruct (EncodeOne_ok (bw_enc bw) (proof_meta proof) proof Hms) as (mm & Hmm & He).
  set (b := EncodeOne_frame (bw_enc bw) (proof_meta proof) proof) in *.
  destruct (ps_Put_ok p (KProof (SuffrageHeight proof)) b puts w0 w Hd) as (d1 & Ep1 & Hd1).
  destruct (ps_Put_ok p (KProofAt (mf_height (bm_manifest (sp_m proof)))) b _ w0 (set_disk d1 w) Hd1) as (d' & Ep2 & Hd').
  exists d', mm. split.
  - unfold SetSuffrageProof, with_lasts. rewrite Hl, Hpr. fold (proof_meta proof). unfold lift. rewrite He.
    unfold mbind, db_bind. cbn beta iota. simpl kbytes in Ep1, Ep2. rewrite Hp, Ep1, Ep2. done.
  - intros x Hx. rewrite Hd' by done. by rewrite <- app_assoc.
Qed.

(** A block write as it is made, with a cache of its own if with one, under a prefix
    nothing is stored under. *)
Record started (p : bytes) (bw : BlockWrite E) (w : world) : Prop := {
  st_pst : bw_pst bw = Some p;
  st_bytes : is_bytes p;
  st_last : bw_last bw = Some no_lasts;
  st_laststates : bw_laststates bw = Some ∅;
  st_opcache : bw_opcache bw = Some ∅;
  st_batch : bw_batch bw = Some [];
  st_fresh x : ldb_Get (w_disk w) (p ++ x) = None;
  st_cache id pf : bw_stcache bw = Some (id, pf) -> exists c, w_stcaches w !! id = Some c /\ forall k, cached c k = None
}.
(** Nothing but what is under the prefix and in the cache changed. *)
Record elsewhere (p : bytes) (cache : option nat) (w w' : world) : Prop := {
  ew_disk x : ~ p `prefix_of` x -> ldb_Get (w_disk w') x = ldb_Get (w_disk w) x;
  ew_caches id : cache <> Some id -> w_stcaches w' !! id = w_stcaches w !! id;
  ew_pstcache : w_pstcache w' = w_pstcache w;
  ew_popcache : w_popcache w' = w_popcache w
}.

Lemma writing_started p bw (w : world) : started p bw w -> writing p w bw [] w bw.
Proof.
  intros S. split; try done; try apply S.
  - exists []. split; [apply S|]. done.
  - exists ∅. split; [apply S|]. intros k. change (states_map []) with (∅ : gmap string St). rewrite !lookup_empty.
    split; by intros [].
  - exists ∅. split; [apply S|]. intros h v. rewrite lookup_empty. split; [done|]. intros [_ (st & Hst & _)].
    change (st ∈ ([] : list St)) in Hst. by apply elem_of_nil in Hst.
  - destruct (bw_stcache bw) as [[id pf]|] eqn:E1; [|done]. destruct (st_cache _ _ _ S _ _ E1) as (c & Hc & Hn).
    exists c. split; [done|]. intros k i. by rewrite Hn.
Qed.

(** The puts of a block write, and all it keeps in memory. *)
Lemma written_shows p (bw0 bw : BlockWrite E) (w0 w : world) jobs m proof mm pm :
  started p bw0 w0 -> block_ok (bw_enc bw0) jobs m proof ->
  bw_pst bw = Some p -> bw_enc bw = bw_enc bw0 -> bw_stcache bw = bw_stcache bw0 ->
  bw_last bw = Some {| l_mp := Some (m, map_meta m, mm); l_sufst := states_map jobs !! SuffrageStateKey;
                       l_policy := states_map jobs !! NetworkPolicyStateKey;
                       l_proof := (fun p => (p, proof_meta p, pm)) <$> proof |} ->
  Marshal (bw_enc bw0) m = Ok mm ->
  (exists o, bw_opcache bw = Some o /\ forall h v, o !! h = Some v <-> v = true /\ in_ops h jobs) ->
  match bw_stcache bw with
  | None => True
  | Some (id, _) => exists c, w_stcaches w !! id = Some c /\
      forall k i, cached c k = Some i -> exists st, i = (Some st, true) /\ states_map jobs !! k = Some st
  end ->
  (forall x, is_bytes x -> ldb_Get (w_disk w) x = after (raw p (block_puts (bw_enc bw0) jobs m proof)) (w_disk w0) x) ->
  exists t, (TempDatabase (P := P) bw).1 w = (Ok t, w) /\ t_stcache t = bw_stcache bw0 /\
    temp_shows t (block_of jobs m proof) p w.
Proof.
  intros S B Hp He Hs Hl Hmm (o & Ho & Hoi) Hc Hd. pose proof (block_puts_ok _ _ _ _ B) as Hok.
  assert (forall k, dkey_ok k -> view p (w_disk w) k = put_of k (block_puts (bw_enc bw0) jobs m proof)) as Hview.
  { intros k Hk. unfold view. rewrite Hd by (apply Forall_app; split; [apply S|apply kbytes_bytes]).
    rewrite after_raw by done. unfold view. rewrite (st_fresh _ _ _ S). by destruct (put_of k _). }
  eexists. split; [unfold TempDatabase; rewrite Hl; unfold lift; simpl; reflexivity|]. split; [done|]. split; simpl.
  - done.
  - apply S.
  - eapply shows_ext; [|by apply (puts_show (bw_enc bw0))]. intros k Hk. by rewrite Hview.
  - intros x [v Hv]. assert (is_bytes (p ++ x)) as Hb by (by eapply ldb_Get_bytes). rewrite Hd in Hv by done.
    unfold after in Hv. destruct (batch_get (p ++ x) (raw p (block_puts (bw_enc bw0) jobs m proof))) as [o'|] eqn:Eb.
    + assert (p ++ x ∈ (raw p (block_puts (bw_enc bw0) jobs m proof)).*1) as Hin.
      { apply dec_stable. intros Hn%batch_get_None. congruence. }
      unfold raw in Hin. rewrite <- list_fmap_compose in Hin. apply list_elem_of_fmap in Hin as (kv & Hx%app_inv_head & Hkv).
      exists kv.1. split; [|done]. rewrite Forall_forall in Hok. by apply Hok.
    + simpl in Hv. by rewrite (st_fresh _ _ _ S) in Hv.
  - exists mm. split; [done|]. by rewrite He.
  - done.
  - done.
  - unfold t_SuffrageProof. simpl. by destruct proof.
  - intros h. assert (ab_instate (block_of jobs m proof) h <-> in_ops h jobs) as ->.
    { unfold ab_instate, in_ops. simpl. split.
      - intros (k & st & Hk & Hh). apply states_map_lookup in Hk as [? _]; [eauto|apply B].
      - intros (st & Hst & Hh). exists (s_k st), st. split; [|done]. apply states_map_lookup; [apply B|done]. }
    unfold t_ExistsInStateOperation. simpl. rewrite Ho. unfold s_Len.
    destruct (Z.ltb_spec 0 (Z.of_nat (size o))) as [Hlt|Hle].
    + unfold s_Value, at_key. simpl. destruct (o !! h) as [v|] eqn:Eh; simpl.
      * apply Hoi in Eh as [-> ?]. done.
      * split; [done|]. intros Hin. assert (o !! h = Some true) as E1 by (by apply Hoi). by rewrite E1 in Eh.
    + split; [done|]. intros Hin. assert (o !! h = Some true) as E1 by (by apply Hoi).
      assert (o = ∅) as -> by (apply map_size_empty_inv; lia). by rewrite lookup_empty in E1.
  - destruct (bw_stcache bw) as [[id pf]|]; [|done]. destruct Hc as (c & Hc & Hci). exists c. split; [done|].
    intros k i (st & -> & Hst)%Hci. by rewrite Hst.
Qed.

Lemma write_block_ok p (bw0 : BlockWrite E) (w0 : world) jobs m proof :
  started p bw0 w0 -> bw_height bw0 = bm_height m -> block_ok (bw_enc bw0) jobs m proof ->
  exists bw w t, write_block jobs m proof bw0 w0 = (Ok bw, w) /\ (TempDatabase (P := P) bw).1 w = (Ok t, w) /\
    t_stcache t = bw_stcache bw0 /\ temp_shows t (block_of jobs m proof) p w /\
    elsewhere p (fst <$> bw_stcache bw0) w0 w.
Proof.
  intros S Hh B.
  destruct (do_jobs_ok p w0 bw0 jobs [] w0 bw0) as (w1 & bw1 & E1 & W); [by apply writing_started|apply B|apply B|].
  simpl in W. destruct W as [Wp We Wh Ws (b & Wb & Wd) Wl _ Wo Wc Wcs Wps Wpo].
  destruct (bw_Write_ok bw1 b w1 Wb) as (d2 & E2 & Hd2).
  set (bw2 := set_batch None (set_laststates None bw1)) in *. set (w2 := set_disk d2 w1) in *.
  assert (forall x, is_bytes x -> ldb_Get (w_disk w2) x = after (raw p (jobs_puts (bw_enc bw0) jobs)) (w_disk w0) x) as Hw2.
  { intros x Hx. simpl. rewrite Hd2 by done. by apply Wd. }
  assert (bw_enc bw2 = bw_enc bw0) as He2 by exact We.
  destruct (SetBlockMap_ok p m (jobs_puts (bw_enc bw0) jobs) w0 w2 bw2 (lasts_of (states_map jobs))) as (d3 & mm & Hmm & E3 & Hd3);
    [exact Wp|simpl; congruence|exact Wl|done|apply B|rewrite He2; apply B|done|].
  rewrite He2 in Hmm, Hd3.
  set (l3 := {| l_mp := Some (m, map_meta m, mm); l_sufst := l_sufst (lasts_of (states_map jobs));
                l_policy := l_policy (lasts_of (states_map jobs)); l_proof := l_proof (lasts_of (states_map jobs)) |}) in *.
  set (bw3 := set_last (Some l3) bw2) in *. set (w3 := set_disk d3 w2) in *.
  assert (exists bw w pm, match proof with None => mret bw3 | Some p => SetSuffrageProof p bw3 end w3 = (Ok bw, w) /\
    w = set_disk (w_disk w) w3 /\ bw_last bw = Some {| l_mp := Some (m, map_meta m, mm);
      l_sufst := states_map jobs !! SuffrageStateKey; l_policy := states_map jobs !! NetworkPolicyStateKey;
      l_proof := (fun p => (p, proof_meta p, pm)) <$> proof |} /\ bw = set_last (bw_last bw) bw3 /\
    forall x, is_bytes x -> ldb_Get (w_disk w) x = after (raw p (block_puts (bw_enc bw0) jobs m proof)) (w_disk w0) x)
    as (bw & w & pm & E4 & Hw4 & Hl4 & Hbw4 & Hd4).
  { destruct proof as [pr|].
    - destruct (bo_proof _ _ _ _ B pr eq_refl) as (Hsh & Hms & _ & _).
      destruct (SetSuffrageProof_ok p pr (jobs_puts (bw_enc bw0) jobs ++
        [(KMap (bm_height m), EncodeOne_frame (bw_enc bw0) (map_meta m) m)]) w0 w3 bw3 l3) as (d4 & pm & E4 & Hd4);
        [exact Wp|done|done|by rewrite <- He2 in Hms|exact Hd3|].
      eexists _, _, pm. split; [exact E4|]. split; [done|]. split; [done|]. split; [done|]. simpl. intros x Hx.
      rewrite Hd4 by done. unfold block_puts. change (bw_enc bw3) with (bw_enc bw2). by rewrite He2, <- app_assoc.
    - eexists bw3, w3, []. split; [done|]. split; [done|]. split; [done|]. split; [done|]. simpl. intros x Hx.
      rewrite Hd3 by done. done. }
  destruct (written_shows p bw0 bw w0 w jobs m proof mm pm) as (t & Et & Hts & Hshow); try done.
  - rewrite Hbw4. exact Wp.
  - rewrite Hbw4. exact We.
  - rewrite Hbw4. exact Ws.
  - rewrite Hbw4. exact Wo.
  - rewrite Hbw4, Hw4. exact Wc.
  - exists bw, w, t. split.
    { unfold write_block. rewrite (db_bind_Ok _ _ _ _ _ E1), (db_bind_Ok _ _ _ _ _ E2), (db_bind_Ok _ _ _ _ _ E3). exact E4. }
    split; [done|]. split; [done|]. split; [done|]. split.
    + intros x Hx. destruct (decide (is_bytes x)) as [Hb|Hb]; [|by rewrite !ldb_Get_not_bytes].
      rewrite Hd4 by done. by apply after_raw_out.
    + intros id Hid. rewrite Hw4. simpl. by apply Wcs.
    + rewrite Hw4. exact Wps.
    + rewrite Hw4. exact Wpo.
Qed.
End write.
