(* ===== verification/CenterLaws.v ===== *)
(** * What a center and its databases say

    The specification of the databases is a list of blocks, the newest first
    ([chain_parts]).  [center_inv] relates a center and its world to such a list,
    those of the temporary databases before those of the permanent one; what a merge
    that stopped has left may be there, too.  The reads answer what the list says,
    and keep [center_inv], whatever they put into the caches. *)
From S2P Require Import Prelude FixedTree Point Vote Slice Ballot Voteproof LockedMap Batch Block State SuffrageState SuffrageProof Bytes Frame Leveldb Tempdb Center Stored.

Open Scope Z_scope.

(** ** The chain *)
Record block_wf (b : ABlock) : Prop := {
  bw_height_ok : height_ok (ab_height b);
  bw_keys k st : ab_states b !! k = Some st -> s_k st = k;
  bw_proof : match ab_proof b with
             | Some p => exists v, ab_states b !! SuffrageStateKey = Some (sp_st p) /\ s_height (sp_st p) = ab_height b /\
                 LoadSuffrageNodesStateValue (Some (sp_st p)) = Ok v /\ height_ok (ss_height v)
             | None => ab_states b !! SuffrageStateKey = None
             end;
  bw_named k st : ab_states b !! k = Some st -> k <> EmptyString
}.
(** The first that has it. *)
Definition first_some {A B} (g : A -> option B) (l : list A) : option B := foldr (fun b r => or_else (g b) r) None l.
(** The last proof. *)
Definition chain_last_proof (l : list ABlock) : option SuffrageProof := first_some ab_proof l.
(** Heights go down by one, and so do those of the suffrages. *)
Inductive chain_ok : list ABlock -> Prop :=
  | chain_nil : chain_ok []
  | chain_cons b l : block_wf b ->
      match l with [] => True | b' :: _ => ab_height b = ab_height b' + 1 end ->
      match ab_proof b, chain_last_proof l with Some p, Some p' => SuffrageHeight p = SuffrageHeight p' + 1 | _, _ => True end ->
      chain_ok l -> chain_ok (b :: l).

Lemma first_some_app {A B} (g : A -> option B) l1 l2 : first_some g (l1 ++ l2) = or_else (first_some g l1) (first_some g l2).
Proof. induction l1 as [|a l1 IH]; [done|]. simpl. by rewrite IH, or_else_assoc. Qed.
Lemma first_some_None {A B} (g : A -> option B) l : first_some g l = None <-> forall a, a ∈ l -> g a = None.
Proof.
  induction l as [|a l IH]; simpl.
  - split; [intros _ a Ha; by apply elem_of_nil in Ha|done].
  - split.
    + intros Hn a' Ha. destruct (g a) eqn:Eg; [done|]. apply elem_of_cons in Ha as [->|Ha]; [done|]. by apply IH.
    + intros Hn. rewrite Hn by apply list_elem_of_here. apply IH. intros. apply Hn. by apply list_elem_of_further.
Qed.
Lemma first_some_Some {A B} (g : A -> option B) l x : first_some g l = Some x -> exists a, a ∈ l /\ g a = Some x.
Proof.
  induction l as [|a l IH]; simpl; [done|]. destruct (g a) eqn:Eg.
  - intros [= ->]. exists a. split; [apply list_elem_of_here|done].
  - intros (a' & Ha & Hx)%IH. exists a'. split; [by apply list_elem_of_further|done].
Qed.
Lemma chain_parts_state l k : pt_state (chain_parts l) k = first_some (fun b => ab_states b !! k) l.
Proof. induction l as [|b l IH]; [done|]. simpl. by rewrite <- IH. Qed.
Lemma chain_parts_map l h : pt_map (chain_parts l) h = first_some (fun b => if h =? ab_height b then Some (ab_map b) else None) l.
Proof. induction l as [|b l IH]; [done|]. simpl. by rewrite <- IH. Qed.
Lemma chain_parts_proof l h : pt_proof (chain_parts l) h =
  first_some (fun b => ab_proof b ≫= fun p => if h =? SuffrageHeight p then Some p else None) l.
Proof. induction l as [|b l IH]; [done|]. simpl. by rewrite <- IH. Qed.
Lemma chain_parts_proof_at l h : pt_proof_at (chain_parts l) h =
  first_some (fun b => if h =? ab_height b then ab_proof b else None) l.
Proof. induction l as [|b l IH]; [done|]. simpl. by rewrite <- IH. Qed.
Lemma chain_parts_instate l h : pt_instate (chain_parts l) h <-> exists b, b ∈ l /\ ab_instate b h.
Proof.
  induction l as [|b l IH]; simpl.
  - split; [done|]. intros (b & Hb & _). by apply elem_of_nil in Hb.
  - rewrite IH. split.
    + intros [?|(b' & ? & ?)]; [exists b|exists b']; rewrite elem_of_cons; auto.
    + intros (b' & [->|?]%elem_of_cons & ?); [by left|right; eauto].
Qed.
Lemma chain_parts_known l h : pt_known (chain_parts l) h <-> exists b, b ∈ l /\ h ∈ ab_known b.
Proof.
  induction l as [|b l IH]; simpl.
  - split; [done|]. intros (b & Hb & _). by apply elem_of_nil in Hb.
  - rewrite IH. split.
    + intros [?|(b' & ? & ?)]; [exists b|exists b']; rewrite elem_of_cons; auto.
    + intros (b' & [->|?]%elem_of_cons & ?); [by left|right; eauto].
Qed.
(** The last policy. *)
Definition block_policy `{Policies P} (b : ABlock) : option P := ab_states b !! NetworkPolicyStateKey ≫= fun st => s_v st ≫= policy_of.
Definition chain_policy `{Policies P} (l : list ABlock) : option P := first_some block_policy l.
(** The proof in force at a height: the newest up to it. *)
Definition chain_proof_at (l : list ABlock) (h : Z) : option SuffrageProof :=
  first_some (fun b => if h <? ab_height b then None else ab_proof b) l.

Lemma chain_ok_app l1 l2 : chain_ok (l1 ++ l2) -> chain_ok l2.
Proof. induction l1 as [|b l1 IH]; [done|]. inversion 1; auto. Qed.
Lemma chain_ok_wf l b : chain_ok l -> b ∈ l -> block_wf b.
Proof. induction 1 as [|b' l Hwf _ _ _ IH]; intros Hb; [by apply elem_of_nil in Hb|]. apply elem_of_cons in Hb as [->|]; auto. Qed.
(** The states of a chain are under their own keys. *)
Definition keyed (l : list ABlock) : Prop := forall b k st, b ∈ l -> ab_states b !! k = Some st -> s_k st = k.
Lemma chain_ok_keyed l : chain_ok l -> keyed l.
Proof. intros Hc b k st Hb. apply bw_keys. by eapply chain_ok_wf. Qed.
(** Heights go down by one. *)
Lemma chain_ok_height l i b0 b : chain_ok l -> head l = Some b0 -> l !! i = Some b -> ab_height b = ab_height b0 - Z.of_nat i.
Proof.
  intros Hc. revert i b0. induction Hc as [|b' l Hwf Hh _ Hc IH]; intros i b0; [done|]. intros [= <-].
  destruct i as [|i]; [intros [= ->]; lia|]. simpl. intros Hi. destruct l as [|b1 l]; [done|].
  rewrite (IH i b1 eq_refl Hi). lia.
Qed.
Lemma chain_ok_at l b b' : chain_ok l -> b ∈ l -> b' ∈ l -> ab_height b = ab_height b' -> b = b'.
Proof.
  intros Hc (i & Hi)%list_elem_of_lookup (j & Hj)%list_elem_of_lookup Hh. destruct l as [|b0 l]; [done|].
  rewrite (chain_ok_height _ i b0 b Hc eq_refl Hi), (chain_ok_height _ j b0 b' Hc eq_refl Hj) in Hh.
  assert (i = j) as -> by lia. congruence.
Qed.

Section laws.
Context `{Crypto} `{!HashLaws} {D : Type} `{LevelDBLaws D} {C : Type -> Type} `{GCacheLaws C} {E : Type} `{EncodersLaws E}.
Context `{!Codec E St, !Codec E BlockMap, !Codec E SuffrageProof}.
Context `{!CodecLaws E St, !CodecLaws E BlockMap, !CodecLaws E SuffrageProof} {P : Type} `{Policies P}.
Abbreviation db := (DB D C).
Abbreviation world := (World D C).
Abbreviation temp := (TempLeveldb E P).
Abbreviation perm := (LeveldbPermanent E P).
Abbreviation center := (CenterDB E P).
Abbreviation shown := (shows (E := E)).

(** ** What holds of a center *)
Definition perm_prefix : bytes := [1; 2].
Record temp_prefix (p : bytes) : Prop := {
  tp_bytes : is_bytes p;
  tp_length : length p = prefixStoragePrefixByHeightLength;
  tp_label : leveldbLabelBlockWrite `prefix_of` p
}.
(** The permanent database; [oldest] is the prefix of the oldest temporary one,
    whose entries a merge that stopped may have left there. *)
Record perm_shows (p : perm) (l : list ABlock) (oldest : option bytes) (w : world) : Prop := {
  pm_pst : p_pst p = Some perm_prefix;
  pm_view : exists v0, shown v0 (chain_parts l) /\ forall k, dkey_ok k ->
    view perm_prefix (w_disk w) k = v0 k \/
    exists q, oldest = Some q /\ is_Some (view q (w_disk w) k) /\ view perm_prefix (w_disk w) k = view q (w_disk w) k;
  pm_only : only perm_prefix (w_disk w);
  pm_mp : (fun m => m.1.1) <$> p_mp p = ab_map <$> head l;
  pm_proof : p_LastSuffrageProof p = chain_last_proof l;
  pm_policy : p_policy p = chain_policy l;
  pm_stcache c k st : w_pstcache w = Some c -> cached c k = Some st -> pt_state (chain_parts l) k = Some st;
  pm_popcache c h x : w_popcache w = Some c -> cached c h = Some x -> pt_instate (chain_parts l) h
}.
Definition cache_id (t : temp) : option nat := fst <$> t_stcache t.
Record center_inv (c : center) (lt lp : list ABlock) (ps rs : list bytes) (w : world) : Prop := {
  ci_temps : Forall3 (fun t b p => temp_shows t b p w) (c_temps c) lt ps;
  ci_removed : Forall2 (fun t r => t_pst t = Some r) (c_removed c) rs;
  ci_prefixes : Forall temp_prefix (ps ++ rs);
  ci_distinct : NoDup (ps ++ rs);
  ci_caches : NoDup (omap cache_id (c_temps c ++ c_removed c));
  ci_removed_caches : Forall (fun t => forall id, cache_id t = Some id -> is_Some (w_stcaches w !! id)) (c_removed c);
  ci_perm : perm_shows (c_perm c) lp (last ps) w;
  ci_chain : chain_ok (lt ++ lp)
}.

Lemma perm_prefix_bytes : is_bytes perm_prefix.
Proof. apply (bool_decide_unpack _). vm_compute. exact I. Qed.
(** Prefixes that are apart. *)
Lemma temp_apart p q x : temp_prefix p -> temp_prefix q -> p <> q -> ~ p `prefix_of` q ++ x.
Proof.
  intros Hp Hq Hne [y Hy]. apply Hne. apply (f_equal (take prefixStoragePrefixByHeightLength)) in Hy.
  rewrite <- (tp_length _ Hq) in Hy at 1. rewrite <- (tp_length _ Hp) in Hy. by rewrite !take_app_length in Hy.
Qed.
Lemma perm_apart p x : temp_prefix p -> ~ p `prefix_of` perm_prefix ++ x.
Proof. intros Hp [y Hy]. destruct (tp_label _ Hp) as [r ->]. discriminate Hy. Qed.
Lemma temp_perm_apart p x : temp_prefix p -> ~ perm_prefix `prefix_of` p ++ x.
Proof. intros Hp [y Hy]. destruct (tp_label _ Hp) as [r ->]. discriminate Hy. Qed.

(** *** Changes that a database does not see *)
Lemma view_ext (w w' : world) p : (forall x, ldb_Get (w_disk w') (p ++ x) = ldb_Get (w_disk w) (p ++ x)) ->
  forall k, view p (w_disk w') k = view p (w_disk w) k.
Proof. intros Hw k. apply Hw. Qed.
Lemma temp_shows_ext t b p (w w' : world) : temp_shows t b p w ->
  (forall x, ldb_Get (w_disk w') (p ++ x) = ldb_Get (w_disk w) (p ++ x)) ->
  (forall id, cache_id t = Some id -> w_stcaches w' !! id = w_stcaches w !! id) -> temp_shows t b p w'.
Proof.
  intros T Hd Hc. destruct T as [T1 T2 T3 T4 T5 T6 T7 T8 T9 T10]. split; try done.
  - eapply shows_ext; [|exact T3]. intros k _. unfold view. by rewrite Hd.
  - intros x. rewrite Hd. apply T4.
  - unfold cache_id in Hc. destruct (t_stcache t) as [[id pf]|]; [|done]. rewrite (Hc id eq_refl). done.
Qed.
Lemma perm_shows_ext p l oldest (w w' : world) : perm_shows p l oldest w ->
  (forall x, ldb_Get (w_disk w') (perm_prefix ++ x) = ldb_Get (w_disk w) (perm_prefix ++ x)) ->
  (forall q x, oldest = Some q -> ldb_Get (w_disk w') (q ++ x) = ldb_Get (w_disk w) (q ++ x)) ->
  w_pstcache w' = w_pstcache w -> w_popcache w' = w_popcache w -> perm_shows p l oldest w'.
Proof.
  intros [P1 (v0 & P2 & P2') P3 P4 P5 P6 P7 P8] Hd Ho Hs Hp. split; try done.
  - exists v0. split; [done|]. intros k Hk. unfold view. rewrite Hd. destruct (P2' k Hk) as [?|(q & Hq & ? & ?)]; [by left|].
    right. exists q. unfold view in *. by rewrite (Ho q).
  - intros x. rewrite Hd. apply P3.
  - intros c k st. rewrite Hs. apply P7.
  - intros c h x. rewrite Hp. apply P8.
Qed.
(** Only what is in the caches changed, and they still tell the truth. *)
Lemma center_inv_caches c lt lp ps rs (w w' : world) : center_inv c lt lp ps rs w ->
  w_disk w' = w_disk w ->
  Forall3 (fun t b p => temp_shows t b p w') (c_temps c) lt ps ->
  (forall id, is_Some (w_stcaches w !! id) -> is_Some (w_stcaches w' !! id)) ->
  perm_shows (c_perm c) lp (last ps) w' -> center_inv c lt lp ps rs w'.
Proof.
  intros I Hd Ht Hid Hp. destruct I as [I1 I2 I3 I4 I5 I6 I7 I8]. split; try done.
  eapply Forall_impl; [exact I6|]. intros t Hi id Ht'. apply Hid. by eapply Hi.
Qed.

(** *** Reads of a temporary database *)
Record touched (id : option nat) (w w' : world) : Prop := {
  to_disk_same : w_disk w' = w_disk w;
  to_others id' : id <> Some id' -> w_stcaches w' !! id' = w_stcaches w !! id';
  to_there id' : is_Some (w_stcaches w !! id') -> is_Some (w_stcaches w' !! id');
  to_pstcache : w_pstcache w' = w_pstcache w;
  to_popcache : w_popcache w' = w_popcache w
}.
Lemma touched_refl id w : touched id w w.
Proof. by split. Qed.
Lemma touched_trans id w1 w2 w3 : touched id w1 w2 -> touched id w2 w3 -> touched id w1 w3.
Proof. intros [A1 A2 A3 A4 A5] [B1 B2 B3 B4 B5]. split; [congruence|intros; by rewrite B2, A2|auto|congruence|congruence]. Qed.
Lemma touched_set id c c' w : w_stcaches w !! id = Some c -> touched (Some id) w (set_stcache id c' w).
Proof.
  intros Hc. split; try done; simpl.
  - intros id' Hne. by rewrite lookup_insert_ne by congruence.
  - intros id' Hi. destruct (decide (id = id')) as [->|]; [rewrite lookup_insert_eq; by eexists|by rewrite lookup_insert_ne].
Qed.
Definition found_in (b : ABlock) (key : string) : option St * bool := (ab_states b !! key, bool_decide (is_Some (ab_states b !! key))).

Lemma t_state_ok t b p w key : temp_shows t b p w -> t_state key t (w_disk w) = Ok (found_in b key).
Proof.
  intros T. unfold t_state. rewrite (ts_pst _ _ _ _ T). change (leveldbStateKey key) with (kbytes (KState key)).
  rewrite ps_Get_view. run. pose proof (sh_state _ _ (ts_view _ _ _ _ T) key) as F. simpl pt_state in F. unfold found_in.
  destruct (ab_states b !! key) as [st|].
  - destruct (framed_value _ _ _ F) as (bs & -> & ->). done.
  - by rewrite F.
Qed.
Lemma temp_cache_update t b p w id pf c' : temp_shows t b p w -> t_stcache t = Some (id, pf) ->
  (forall k i, cached c' k = Some i -> i = found_in b k) -> temp_shows t b p (set_stcache id c' w).
Proof.
  intros [T1 T2 T3 T4 T5 T6 T7 T8 T9 T10] Hid Hc. split; try done. rewrite Hid. exists c'.
  split; [apply lookup_insert_eq|done].
Qed.
Lemma t_setStateCache_ok t b p w key : temp_shows t b p w ->
  exists w', t_setStateCache key (found_in b key).1 (found_in b key).2 t w = (Ok tt, w') /\
    temp_shows t b p w' /\ touched (cache_id t) w w'.
Proof.
  intros T. unfold t_setStateCache, cache_id. pose proof (ts_cache _ _ _ _ T) as Hc.
  destruct (t_stcache t) as [[id pf]|] eqn:Eid; [|exists w; split_and!; [done|done|apply touched_refl]].
  destruct Hc as (c & Hc & Hi). unfold stcache_do. rewrite Hc. eexists. split; [done|]. split.
  - eapply temp_cache_update; [done..|]. intros k i [[-> ->]|[? ?%Hi]]%cached_Set; done.
  - by eapply touched_set.
Qed.
Lemma t_stateFromCache_ok t b p w key : temp_shows t b p w ->
  exists r w', t_stateFromCache key t w = (Ok r, w') /\ temp_shows t b p w' /\ touched (cache_id t) w w' /\
    (r = (false, None, false) \/ r = (true, (found_in b key).1, (found_in b key).2)).
Proof.
  intros T. unfold t_stateFromCache, cache_id. pose proof (ts_cache _ _ _ _ T) as Hc.
  destruct (t_stcache t) as [[id pf]|] eqn:Eid.
  2:{ exists (false, None, false), w. split_and!; [done|done|apply touched_refl|by left]. }
  destruct Hc as (c & Hc & Hi). unfold stcache_Get, mbind, db_bind. rewrite Hc.
  destruct (gc_Get key c) as [v c'] eqn:Eg.
  assert (temp_shows t b p (set_stcache id c' w)) as T'.
  { eapply temp_cache_update; [done..|]. intros k i Hk. apply Hi. apply (cached_Get c key). by rewrite Eg. }
  assert (touched (Some id) w (set_stcache id c' w)) as Ht by (by eapply touched_set).
  destruct v as [i|].
  - assert (i = found_in b key) as -> by (apply Hi; unfold cached; by rewrite Eg). unfold found_in.
    destruct (ab_states b !! key) as [st|]; simpl; eexists _, _; (split; [done|]); split_and!; [done|done|by right|done|done|by right].
  - eexists _, _. split; [done|]. split_and!; [done|done|by left].
Qed.
Lemma t_State_ok t b p w key : temp_shows t b p w ->
  exists w', t_State key t w = (Ok (found_in b key), w') /\ temp_shows t b p w' /\ touched (cache_id t) w w'.
Proof.
  intros T. destruct (t_stateFromCache_ok t b p w key T) as (r & w1 & E1 & T1 & Ht1 & Hr).
  unfold t_State. rewrite (db_bind_Ok _ _ _ _ _ E1). destruct Hr as [->| ->].
  2:{ exists w1. split; [by destruct (found_in b key)|done]. }
  rewrite (db_bind_Ok (from_disk (t_state key t)) _ w1 (found_in b key) w1) by (unfold from_disk; by rewrite (t_state_ok t b p w1)).
  destruct (t_setStateCache_ok t b p w1 key T1) as (w2 & E2 & T2 & Ht2). unfold found_in at 1. cbn beta iota.
  simpl in E2. rewrite (db_bind_Ok _ _ _ _ _ E2). exists w2. split; [done|]. split; [done|]. by eapply touched_trans.
Qed.
Lemma t_StateBytes_ok t b p w key : temp_shows t b p w ->
  match ab_states b !! key with
  | Some st => exists (enc : E) m, Marshal enc st = Ok m /\
      t_StateBytes key t (w_disk w) = Ok (Some (Enc_Hint enc, state_meta st, m))
  | None => t_StateBytes key t (w_disk w) = Ok None
  end.
Proof.
  intros T. unfold t_StateBytes. rewrite (ts_pst _ _ _ _ T). change (leveldbStateKey key) with (kbytes (KState key)).
  rewrite ps_Get_view. run. pose proof (sh_state _ _ (ts_view _ _ _ _ T) key) as F. simpl pt_state in F.
  destruct (ab_states b !! key) as [st|].
  - destruct (framed_bytes _ _ _ F) as (bs & enc & m & -> & Hm & Hr). exists enc, m. split; [done|].
    unfold read_found. by rewrite Hr.
  - by rewrite F.
Qed.
Lemma t_ExistsKnownOperation_ok t b p w h : temp_shows t b p w ->
  t_ExistsKnownOperation h t (w_disk w) = Ok (bool_decide (h ∈ ab_known b)).
Proof.
  intros T. unfold t_ExistsKnownOperation, existsKnownOperation. rewrite (ts_pst _ _ _ _ T).
  change (leveldbKnownOperationKey h) with (kbytes (KKnown h)). rewrite ps_Exists_view. f_equal.
  apply bool_decide_ext. apply (sh_known _ _ (ts_view _ _ _ _ T)).
Qed.
Lemma t_Height_ok t b p w : temp_shows t b p w -> t_Height t = ab_height b.
Proof. intros T. unfold t_Height. by destruct (ts_mp _ _ _ _ T) as (body & -> & _). Qed.

(** *** Reads of the temporary databases of a center *)
Lemma NoDup_omap_ne {A B} (f : A -> option B) l i j a b x : NoDup (omap f l) ->
  l !! i = Some a -> l !! j = Some b -> i <> j -> f a = Some x -> f b <> Some x.
Proof.
  revert i j. induction l as [|a' l IH]; intros i j Hnd Hi Hj Hne Ha Hb; [done|]. simpl in Hnd.
  assert (forall a0 y k, f a0 = Some y -> l !! k = Some a0 -> y ∈ omap f l) as Hin.
  { intros a0 y k Hy Hk. apply list_elem_of_omap. exists a0. split; [by eapply list_elem_of_lookup_2|done]. }
  destruct i as [|i], j as [|j]; simpl in Hi, Hj; try done.
  - injection Hi as ->. rewrite Ha in Hnd. apply NoDup_cons in Hnd as [Hnd _]. exact (Hnd (Hin b x j Hb Hj)).
  - injection Hj as ->. rewrite Hb in Hnd. apply NoDup_cons in Hnd as [Hnd _]. exact (Hnd (Hin a x i Ha Hi)).
  - assert (NoDup (omap f l)) as Hl by (destruct (f a'); [by apply NoDup_cons in Hnd as []|done]).
    apply (IH i j Hl Hi Hj); [congruence|done|done].
Qed.
Lemma Forall3_change {A1 A2 A3} (Q R : A1 -> A2 -> A3 -> Prop) l k m : Forall3 Q l k m ->
  (forall i x y z, l !! i = Some x -> k !! i = Some y -> m !! i = Some z -> Q x y z -> R x y z) -> Forall3 R l k m.
Proof.
  induction 1 as [|x y z l k m Hq _ IH]; intros Hc; [constructor|]. constructor.
  - by apply (Hc 0%nat).
  - apply IH. intros i. apply (Hc (S i)).
Qed.
Lemma center_inv_touched c lt lp ps rs w w' i t b p : center_inv c lt lp ps rs w ->
  c_temps c !! i = Some t -> lt !! i = Some b -> ps !! i = Some p ->
  touched (cache_id t) w w' -> temp_shows t b p w' -> center_inv c lt lp ps rs w'.
Proof.
  intros I Ht Hb Hp Hto T. eapply center_inv_caches; [exact I|apply Hto| |apply Hto|].
  - eapply Forall3_change; [exact (ci_temps _ _ _ _ _ _ I)|]. intros j t' b' p' Hj1 Hj2 Hj3 T'.
    destruct (decide (i = j)) as [->|Hne]; [by simplify_eq|].
    eapply temp_shows_ext; [exact T'| |].
    + intros x. by rewrite (to_disk_same _ _ _ Hto).
    + intros id Hid. apply (to_others _ _ _ Hto). intros Heq.
      apply (NoDup_omap_ne cache_id (c_temps c ++ c_removed c) i j t t' id); try done; [by apply ci_caches in I|..];
        by apply lookup_app_l_Some.
  - eapply perm_shows_ext; [by apply I|..]; intros; try apply Hto; by rewrite (to_disk_same _ _ _ Hto).
Qed.
Lemma center_temp c lt lp ps rs w i t : center_inv c lt lp ps rs w -> c_temps c !! i = Some t ->
  exists b p, lt !! i = Some b /\ ps !! i = Some p /\ temp_shows t b p w.
Proof.
  intros I Ht. destruct (Forall3_lookup_l _ _ _ _ _ _ (ci_temps _ _ _ _ _ _ I) Ht) as (b & p & ? & ? & ?). eauto.
Qed.
Lemma center_length c lt lp ps rs w : center_inv c lt lp ps rs w -> length lt = length (c_temps c).
Proof. intros I. symmetry. eapply Forall3_length_lm. apply I. Qed.

(** *** The workers of a read *)
Section workers.
Variable order : nat -> list nat.
Hypothesis order_all : forall n, order n ≡ₚ seq 0 n.
Variable skip : nat -> bool.

(** What the workers that ran found: the newest answer. *)
Definition found_newest {X} (h0 : Z) (gs : list (option X)) (done : list nat) (s : Z * option X) : Prop :=
  s = (NilHeight, None) /\ (forall i, i ∈ done -> gs !! i = Some None) \/
  exists k x, k ∈ done /\ gs !! k = Some (Some x) /\ s = (h0 - Z.of_nat k, Some x) /\
    forall i, i ∈ done -> (i < k)%nat -> gs !! i = Some None.

Lemma found_newest_step {X} h0 (gs : list (option X)) done i g s : found_newest h0 gs done s -> gs !! i = Some g ->
  NilHeight < h0 - Z.of_nat i ->
  found_newest h0 gs (done ++ [i])
    (if h0 - Z.of_nat i <=? s.1 then s else match g with Some x => (h0 - Z.of_nat i, Some x) | None => s end).
Proof.
  intros Hs Hg Hh. destruct Hs as [[-> Hn]|(k & x & Hk & Hgk & -> & Hn)]; simpl fst.
  - destruct (Z.leb_spec (h0 - Z.of_nat i) NilHeight); [lia|]. destruct g as [x|].
    + right. exists i, x. rewrite elem_of_app, list_elem_of_singleton. split_and!; [by right|done|done|].
      intros j [Hj|Hj%list_elem_of_singleton]%elem_of_app Hlt; [auto|subst; lia].
    + left. split; [done|]. intros j [Hj|Hj%list_elem_of_singleton]%elem_of_app; [auto|by subst].
  - destruct (Z.leb_spec (h0 - Z.of_nat i) (h0 - Z.of_nat k)).
    + right. exists k, x. rewrite elem_of_app. split_and!; [by left|done|done|].
      intros j [Hj|Hj%list_elem_of_singleton]%elem_of_app Hlt; [auto|subst; lia].
    + destruct g as [y|].
      * right. exists i, y. rewrite elem_of_app, list_elem_of_singleton. split_and!; [by right|done|done|].
        intros j [Hj|Hj%list_elem_of_singleton]%elem_of_app Hlt; [apply Hn; [done|lia]|subst; lia].
      * right. exists k, x. rewrite elem_of_app. split_and!; [by left|done|done|].
        intros j [Hj|Hj%list_elem_of_singleton]%elem_of_app Hlt; [auto|by subst].
Qed.
Lemma found_newest_all {X} h0 (gs : list (option X)) done s : found_newest h0 gs done s -> done ≡ₚ seq 0 (length gs) ->
  s.2 = first_some (fun x => x) gs.
Proof.
  intros Hs Hd. assert (forall i, (i < length gs)%nat -> i ∈ done) as Hall.
  { intros i Hi. rewrite Hd. apply elem_of_seq. lia. } clear Hd.
  destruct Hs as [[-> Hn]|(k & x & Hk & Hgk & -> & Hn)]; simpl snd; symmetry.
  - apply first_some_None. intros a (i & Hi)%list_elem_of_lookup. pose proof (lookup_lt_Some _ _ _ Hi) as Hlt.
    specialize (Hn i (Hall i Hlt)). rewrite Hi in Hn. by injection Hn.
  - rewrite <- (take_drop_middle _ _ _ Hgk), first_some_app. simpl.
    assert (first_some (fun x => x) (take k gs) = None) as ->; [|done].
    apply first_some_None. intros a (i & Hi)%list_elem_of_lookup. apply lookup_take_Some in Hi as [Hi Hlt].
    pose proof (lookup_lt_Some _ _ _ Hi) as Hl. specialize (Hn i (Hall i Hl) Hlt). rewrite Hi in Hn. by injection Hn.
Qed.

Lemma c_state_ok {X} (f : temp -> db (option X)) (gs : list (option X)) c lt lp ps rs w :
  center_inv c lt lp ps rs w -> length gs = length (c_temps c) ->
  (forall i t g w, center_inv c lt lp ps rs w -> c_temps c !! i = Some t -> gs !! i = Some g ->
    exists w', f t w = (Ok g, w') /\ center_inv c lt lp ps rs w') ->
  exists w', c_state order skip f c w = (Ok (first_some (fun x => x) gs), w') /\ center_inv c lt lp ps rs w'.
Proof.
  intros I Hl Hf. unfold c_state, dig.
  assert (forall todo done s w, center_inv c lt lp ps rs w -> (forall i, i ∈ todo -> (i < length gs)%nat) ->
    found_newest (default 0 (ab_height <$> head lt)) gs done s ->
    exists s' w', dig_loop skip (state_step f) (c_temps c) todo false s w = (Ok s', w') /\ center_inv c lt lp ps rs w' /\
      found_newest (default 0 (ab_height <$> head lt)) gs (done ++ todo) s') as Hloop.
  { induction todo as [|i todo IH]; intros done s w1 I1 Hi Hs.
    { exists s, w1. by rewrite app_nil_r. }
    assert (i < length gs)%nat as Hlt by (apply Hi, list_elem_of_here).
    destruct (lookup_lt_is_Some_2 gs i Hlt) as [g Hg]. destruct (lookup_lt_is_Some_2 (c_temps c) i) as [t Ht]; [lia|].
    destruct (center_temp _ _ _ _ _ _ _ _ I1 Ht) as (b & p & Hb & Hp & T).
    assert (t_Height t = default 0 (ab_height <$> head lt) - Z.of_nat i) as Hh.
    { rewrite (t_Height_ok _ _ _ _ T). destruct lt as [|b0 lt0]; [done|]. simpl.
      apply (chain_ok_height (b0 :: lt0 ++ lp)); [apply I|done|]. by apply (lookup_app_l_Some (b0 :: lt0)). }
    assert (NilHeight < default 0 (ab_height <$> head lt) - Z.of_nat i) as Hnil.
    { rewrite <- Hh, (t_Height_ok _ _ _ _ T). assert (block_wf b) as Hwf.
      { eapply chain_ok_wf; [apply I|]. apply elem_of_app. left. by eapply list_elem_of_lookup_2. }
      pose proof (bw_height_ok _ Hwf) as Hok. unfold height_ok, NilHeight in *. lia. }
    pose proof (found_newest_step _ _ _ _ _ _ Hs Hg Hnil) as Hs'.
    assert (exists w2, state_step f t s w1 = (Ok (true, if default 0 (ab_height <$> head lt) - Z.of_nat i <=? s.1 then s
      else match g with Some x => (default 0 (ab_height <$> head lt) - Z.of_nat i, Some x) | None => s end), w2) /\
      center_inv c lt lp ps rs w2) as (w2 & E2 & I2).
    { unfold state_step. destruct s as [old l]. rewrite Hh. simpl fst. destruct (_ <=? old); [by exists w1|].
      destruct (Hf i t g w1 I1 Ht Hg) as (w2 & E2 & I2). exists w2. split; [|done].
      rewrite (db_bind_Ok (try_db (f t)) _ w1 (Ok g) w2) by (unfold try_db; by rewrite E2). by destruct g. }
    destruct (IH (done ++ [i]) _ w2 I2 ltac:(intros j Hj; apply Hi; by apply list_elem_of_further) Hs') as (s' & w' & E' & I' & Hs'').
    exists s', w'. split; [|by rewrite <- app_assoc in Hs''].
    cbn [dig_loop]. rewrite Ht. cbn [andb]. rewrite (db_bind_Ok _ _ _ _ _ E2). exact E'. }
  destruct (Hloop (order (length (c_temps c))) [] (NilHeight, None) w I) as (s' & w' & E' & I' & Hs').
  - intros i Hi. rewrite order_all in Hi. apply elem_of_seq in Hi. lia.
  - left. split; [done|]. intros i Hi. by apply elem_of_nil in Hi.
  - exists w'. split; [|done]. rewrite (db_bind_Ok _ _ _ _ _ E'). destruct s' as [old l].
    assert (l = first_some (fun x => x) gs) as ->; [|done].
    apply (found_newest_all _ _ _ _ Hs'). by rewrite app_nil_l, order_all, Hl.
Qed.

Lemma c_exists_ok (f : temp -> db bool) (gs : list bool) c lt lp ps rs w :
  center_inv c lt lp ps rs w -> length gs = length (c_temps c) ->
  (forall i t g w, center_inv c lt lp ps rs w -> c_temps c !! i = Some t -> gs !! i = Some g ->
    exists w', f t w = (Ok g, w') /\ center_inv c lt lp ps rs w') ->
  exists r w', dig order skip (exists_step f) c false w = (Ok r, w') /\ center_inv c lt lp ps rs w' /\ (r = true <-> true ∈ gs).
Proof.
  intros I Hl Hf. unfold dig.
  assert (forall todo l w, center_inv c lt lp ps rs w -> (forall i, i ∈ todo -> (i < length gs)%nat) -> (l = true -> true ∈ gs) ->
    exists r w', dig_loop skip (exists_step f) (c_temps c) todo l l w = (Ok r, w') /\ center_inv c lt lp ps rs w' /\
      (r = true -> true ∈ gs) /\ (r = false -> l = false /\ forall i, i ∈ todo -> gs !! i = Some false)) as Hloop.
  { induction todo as [|i todo IH]; intros l w1 I1 Hi Hs.
    { exists l, w1. split_and!; try done. intros ->. split; [done|]. intros i Hn. by apply elem_of_nil in Hn. }
    assert (i < length gs)%nat as Hlt by (apply Hi, list_elem_of_here).
    destruct (lookup_lt_is_Some_2 gs i Hlt) as [g Hg]. destruct (lookup_lt_is_Some_2 (c_temps c) i) as [t Ht]; [lia|].
    assert (forall j, j ∈ todo -> (j < length gs)%nat) as Hi' by (intros j Hj; apply Hi; by apply list_elem_of_further).
    cbn [dig_loop]. rewrite Ht. destruct (l && skip i) eqn:Els.
    { apply andb_true_iff in Els as [-> _]. destruct (IH true w1 I1 Hi' Hs) as (r & w' & -> & I' & H1' & H2').
      exists r, w'. split_and!; try done. intros Hr. by destruct (H2' Hr). }
    destruct (Hf i t g w1 I1 Ht Hg) as (w2 & E2 & I2). 
    assert (exists_step f t l w1 = (Ok (if g then (false, true) else (true, l)), w2)) as E3
      by (unfold exists_step; by rewrite (db_bind_Ok _ _ _ _ _ E2)).
    rewrite (db_bind_Ok _ _ _ _ _ E3).
    assert (g = true -> true ∈ gs) as Hgs by (intros ->; by eapply list_elem_of_lookup_2).
    destruct g; cbn beta iota; cbn [negb].
    - rewrite orb_true_r. destruct (IH true w2 I2 Hi' Hgs) as (r & w' & -> & I' & H1' & H2').
      exists r, w'. split_and!; try done. intros Hr. by destruct (H2' Hr).
    - rewrite orb_false_r. destruct (IH l w2 I2 Hi' Hs) as (r & w' & -> & I' & H1' & H2').
      exists r, w'. split_and!; try done. intros Hr. destruct (H2' Hr) as [-> Hn]. split; [done|].
      intros j [->|Hj]%elem_of_cons; auto. }
  destruct (Hloop (order (length (c_temps c))) false w I) as (r & w' & E' & I' & H1' & H2').
  - intros i Hi. rewrite order_all in Hi. apply elem_of_seq in Hi. lia.
  - done.
  - exists r, w'. split; [done|]. split; [done|]. split; [done|]. intros (i & Hi)%list_elem_of_lookup.
    destruct r; [done|]. destruct (H2' eq_refl) as [_ Hn]. rewrite (Hn i) in Hi; [done|].
    rewrite order_all. apply elem_of_seq. apply lookup_lt_Some in Hi. lia.
Qed.

(** *** Reads of the permanent database *)
Definition absent (q : option bytes) (w : world) (k : dkey) : Prop := forall q', q = Some q' -> view q' (w_disk w) k = None.
Lemma perm_view p l oldest w k : perm_shows p l oldest w -> absent oldest w k -> dkey_ok k ->
  exists v0, shown v0 (chain_parts l) /\ view perm_prefix (w_disk w) k = v0 k.
Proof.
  intros [_ (v0 & S & Hv) _ _ _ _ _ _] Ha Hk. exists v0. split; [done|].
  destruct (Hv k Hk) as [?|(q & Hq & [x Hx] & _)]; [done|]. specialize (Ha q Hq). congruence.
Qed.
Definition perm_inv_caches p l oldest w w' : Prop :=
  w_disk w' = w_disk w /\ w_stcaches w' = w_stcaches w /\ perm_shows p l oldest w'.
Lemma center_inv_perm c lt lp ps rs w w' : center_inv c lt lp ps rs w ->
  perm_inv_caches (c_perm c) lp (last ps) w w' -> center_inv c lt lp ps rs w'.
Proof.
  intros I (Hd & Hs & Hp). eapply center_inv_caches; [exact I|done| |by rewrite Hs|done].
  eapply Forall3_impl; [exact (ci_temps _ _ _ _ _ _ I)|]. intros t b p T.
  eapply temp_shows_ext; [exact T|by rewrite Hd|by rewrite Hs].
Qed.

Lemma perm_stcache p l oldest w c' : perm_shows p l oldest w ->
  (forall k st, cached c' k = Some st -> pt_state (chain_parts l) k = Some st) ->
  perm_inv_caches p l oldest w (set_pstcache (Some c') w).
Proof.
  intros Hp Hc. split; [done|]. split; [done|]. destruct Hp as [P1 P2 P3 P4 P5 P6 P7 P8]. split; try done.
  intros c k st [= <-]. apply Hc.
Qed.
Lemma perm_popcache p l oldest w c' : perm_shows p l oldest w ->
  (forall h x, cached c' h = Some x -> pt_instate (chain_parts l) h) ->
  perm_inv_caches p l oldest w (set_popcache (Some c') w).
Proof.
  intros Hp Hc. split; [done|]. split; [done|]. destruct Hp as [P1 P2 P3 P4 P5 P6 P7 P8]. split; try done.
  intros c h x [= <-]. apply Hc.
Qed.
Lemma perm_inv_trans p l oldest w1 w2 w3 : perm_inv_caches p l oldest w1 w2 -> perm_inv_caches p l oldest w2 w3 ->
  perm_inv_caches p l oldest w1 w3.
Proof. intros (? & ? & ?) (? & ? & ?). split; [congruence|]. split; [congruence|done]. Qed.
Lemma perm_inv_refl p l oldest w : perm_shows p l oldest w -> perm_inv_caches p l oldest w w.
Proof. done. Qed.

Lemma p_stateFromCache_ok p l oldest w key : perm_shows p l oldest w ->
  exists r w', p_stateFromCache key w = (Ok r, w') /\ perm_inv_caches p l oldest w w' /\
    (forall st, r = Some st -> pt_state (chain_parts l) key = Some st).
Proof.
  intros Hp. unfold p_stateFromCache. destruct (w_pstcache w) as [c|] eqn:Ec.
  2:{ exists None, w. by split_and!. }
  destruct (gc_Get key c) as [r c'] eqn:Eg. exists r, (set_pstcache (Some c') w). split; [done|]. split.
  - apply perm_stcache; [done|]. intros k st Hk. eapply pm_stcache; [exact Hp|exact Ec|].
    apply (cached_Get c key). by rewrite Eg.
  - intros st ->. eapply pm_stcache; [exact Hp|exact Ec|]. unfold cached. by rewrite Eg.
Qed.
Lemma p_setStateToCache_ok p l oldest w st : perm_shows p l oldest w -> pt_state (chain_parts l) (s_k st) = Some st ->
  exists w', p_setStateToCache (Some st) w = (Ok tt, w') /\ perm_inv_caches p l oldest w w'.
Proof.
  intros Hp Hst. unfold p_setStateToCache. destruct (w_pstcache w) as [c|] eqn:Ec; [|by exists w].
  destruct (gc_Get (s_k st) c) as [prev c'] eqn:Eg.
  assert (forall k st', cached c' k = Some st' -> pt_state (chain_parts l) k = Some st') as Hc'.
  { intros k st' Hk. eapply pm_stcache; [exact Hp|exact Ec|]. apply (cached_Get c (s_k st)). by rewrite Eg. }
  eexists. split; [done|]. apply perm_stcache; [done|]. intros k st' Hk.
  destruct (match prev with Some prev => s_height st <=? s_height prev | None => false end); [by apply Hc'|].
  apply cached_Set in Hk as [[-> ->]|[_ ?%Hc']]; done.
Qed.
Lemma p_State_ok p l oldest w key : perm_shows p l oldest w -> keyed l -> absent oldest w (KState key) ->
  let st := pt_state (chain_parts l) key in
  exists w', p_State key p w = (Ok (st, bool_decide (is_Some st)), w') /\ perm_inv_caches p l oldest w w'.
Proof.
  intros Hp Hkey Ha. cbv zeta. unfold p_State.
  destruct (p_stateFromCache_ok p l oldest w key Hp) as (r & w1 & E1 & I1 & Hr). rewrite (db_bind_Ok _ _ _ _ _ E1).
  destruct r as [st'|].
  { exists w1. rewrite (Hr st' eq_refl). by split. }
  pose proof I1 as (Hd1 & Hs1 & Hp1). rewrite (pm_pst _ _ _ _ Hp).
  assert (absent oldest w1 (KState key)) as Ha1 by (intros q Hq; rewrite Hd1; by apply Ha).
  destruct (perm_view _ _ _ _ (KState key) Hp1 Ha1 I) as (v0 & S & Hv).
  pose proof (sh_state _ _ S key) as F. rewrite <- Hv in F.
  unfold from_disk, mbind, db_bind. change (leveldbStateKey key) with (kbytes (KState key)). rewrite ps_Get_view.
  destruct (pt_state (chain_parts l) key) as [st|] eqn:Est.
  - destruct (framed_value _ _ _ F) as (bs & -> & Hb). unfold lift. rewrite Hb.
    assert (s_k st = key) as Hk.
    { rewrite chain_parts_state in Est. apply first_some_Some in Est as (b & Hb' & Hbk). by eapply Hkey. }
    destruct (p_setStateToCache_ok p l oldest w1 st Hp1) as (w2 & E2 & I2); [by rewrite Hk|].
    rewrite E2. exists w2. split; [done|]. by eapply perm_inv_trans.
  - rewrite F. exists w1. by split.
Qed.

Lemma p_operationFromCache_ok p l oldest w h : perm_shows p l oldest w ->
  exists r w', p_operationFromCache h w = (Ok r, w') /\ perm_inv_caches p l oldest w w' /\ (r = true -> pt_instate (chain_parts l) h).
Proof.
  intros Hp. unfold p_operationFromCache. destruct (w_popcache w) as [c|] eqn:Ec.
  2:{ exists false, w. by split_and!. }
  destruct (gc_Get h c) as [r c'] eqn:Eg. exists (default false r), (set_popcache (Some c') w). split; [done|]. split.
  - apply perm_popcache; [done|]. intros k x Hk. eapply pm_popcache; [exact Hp|exact Ec|].
    apply (cached_Get c h). by rewrite Eg.
  - destruct r as [x|]; [|done]. intros _. eapply pm_popcache; [exact Hp|exact Ec|]. unfold cached. by rewrite Eg.
Qed.
Lemma p_setOperationToCache_ok p l oldest w h : perm_shows p l oldest w -> pt_instate (chain_parts l) h ->
  exists w', p_setOperationToCache h w = (Ok tt, w') /\ perm_inv_caches p l oldest w w'.
Proof.
  intros Hp Hh. unfold p_setOperationToCache. eexists. split; [done|]. destruct (w_popcache w) as [c|] eqn:Ec.
  - apply perm_popcache; [done|]. intros k x [[-> _]|[_ Hk]]%cached_Set; [done|]. by eapply pm_popcache.
  - simpl. split; [done|]. split; [done|]. destruct Hp as [P1 P2 P3 P4 P5 P6 P7 P8]. by split.
Qed.
Lemma p_ExistsInStateOperation_ok p l oldest w h : perm_shows p l oldest w -> absent oldest w (KInState h) ->
  exists r w', p_ExistsInStateOperation h p w = (Ok r, w') /\ perm_inv_caches p l oldest w w' /\
    (r = true <-> pt_instate (chain_parts l) h).
Proof.
  intros Hp Ha. unfold p_ExistsInStateOperation.
  destruct (p_operationFromCache_ok p l oldest w h Hp) as (r & w1 & E1 & I1 & Hr). rewrite (db_bind_Ok _ _ _ _ _ E1).
  destruct r. { exists true, w1. split; [done|]. split; [done|]. by split; [intros _; apply Hr|]. }
  pose proof I1 as (Hd1 & Hs1 & Hp1).
  assert (absent oldest w1 (KInState h)) as Ha1 by (intros q Hq; rewrite Hd1; by apply Ha).
  destruct (perm_view _ _ _ _ (KInState h) Hp1 Ha1 I) as (v0 & S & Hv).
  pose proof (sh_instate _ _ S h) as F. rewrite <- Hv in F.
  unfold existsInStateOperation. rewrite (pm_pst _ _ _ _ Hp). unfold from_disk at 1, mbind at 1, db_bind at 1.
  change (leveldbInStateOperationKey h) with (kbytes (KInState h)). rewrite ps_Exists_view.
  unfold hash_shown in F. destruct (view perm_prefix (w_disk w1) (KInState h)) as [x|].
  - rewrite bool_decide_eq_true_2 by by eexists. destruct F as [_ F].
    destruct (p_setOperationToCache_ok p l oldest w1 h Hp1 F) as (w2 & E2 & I2). rewrite (db_bind_Ok _ _ _ _ _ E2).
    exists true, w2. split; [done|]. split; [by eapply perm_inv_trans|done].
  - rewrite bool_decide_eq_false_2 by by intros []. exists false, w1. split; [done|]. by split.
Qed.
Lemma p_ExistsKnownOperation_ok p l oldest w h : perm_shows p l oldest w -> absent oldest w (KKnown h) ->
  exists r, p_ExistsKnownOperation h p (w_disk w) = Ok r /\ (r = true <-> pt_known (chain_parts l) h).
Proof.
  intros Hp Ha. destruct (perm_view _ _ _ _ (KKnown h) Hp Ha I) as (v0 & S & Hv).
  unfold p_ExistsKnownOperation, existsKnownOperation. rewrite (pm_pst _ _ _ _ Hp).
  change (leveldbKnownOperationKey h) with (kbytes (KKnown h)). rewrite ps_Exists_view. eexists. split; [done|].
  rewrite bool_decide_eq_true, Hv. apply (sh_known _ _ S).
Qed.

(** A height that is none of a block is nowhere. *)
Lemma only_height p d (f : Z -> dkey) h : only p d -> (forall h, valid (f h) <-> i64 h) ->
  (forall h, dkey_ok (f h) <-> height_ok h) -> i64 h -> ~ height_ok h -> view p d (f h) = None.
Proof.
  intros Ho Hv Hk Hi Hn. destruct (view p d (f h)) eqn:Ev; [|done]. destruct (Ho (kbytes (f h))) as (k & Hok & Eq).
  { unfold view in Ev. rewrite Ev. by eexists. }
  apply kbytes_inj in Eq; [|by apply Hv|by apply dkey_ok_valid]. subst. by apply Hk in Hok.
Qed.
Lemma p_BlockMap_ok p l oldest w h : perm_shows p l oldest w -> chain_ok l -> i64 h -> absent oldest w (KMap h) ->
  let m := pt_map (chain_parts l) h in
  p_BlockMap h p (w_disk w) = Ok (m, bool_decide (is_Some m)).
Proof.
  intros Hp Hc Hi Ha m. subst m. unfold p_BlockMap, p_LastBlockMap. rewrite (pm_mp _ _ _ _ Hp).
  destruct l as [|b l]; [reflexivity|]. simpl fmap. cbv iota beta. fold (ab_height b).
  destruct (Z.eqb_spec (ab_height b) h) as [<-|Hne].
  { assert (pt_map (chain_parts (b :: l)) (ab_height b) = Some (ab_map b)) as ->; [|reflexivity].
    simpl. by rewrite Z.eqb_refl. }
  rewrite (pm_pst _ _ _ _ Hp). change (leveldbBlockMapKey h) with (kbytes (KMap h)). rewrite ps_Get_view. run.
  destruct (decide (0 <= h < 2 ^ 63 - 1)) as [Hok|Hn].
  - destruct (perm_view _ _ _ _ (KMap h) Hp Ha Hok) as (v0 & S & Hv). pose proof (sh_map _ _ S h Hok) as F. rewrite <- Hv in F.
    destruct (pt_map (chain_parts (b :: l)) h) as [m|].
    + destruct (framed_value _ _ _ F) as (bs & -> & ->). done.
    + by rewrite F.
  - rewrite (only_height perm_prefix (w_disk w) KMap h); [|apply Hp|done|done|done|done].
    assert (pt_map (chain_parts (b :: l)) h = None) as ->; [|done]. rewrite chain_parts_map. apply first_some_None.
    intros b' Hb'. pose proof (bw_height_ok _ (chain_ok_wf _ _ Hc Hb')) as Hok.
    destruct (Z.eqb_spec h (ab_height b')) as [->|]; done.
Qed.

(** *** Reads of a center *)
Lemma last_at {A} (l : list A) x : last l = Some x -> exists i, l !! i = Some x /\ length l = S i.
Proof.
  rewrite last_lookup. intros Hl. exists (Nat.pred (length l)). split; [done|].
  destruct l; [done|]. simpl. done.
Qed.
Lemma center_absent c lt lp ps rs w k : center_inv c lt lp ps rs w ->
  (forall t b p, temp_shows t b p w -> b ∈ lt -> view p (w_disk w) k = None) -> absent (last ps) w k.
Proof.
  intros I Hk q (i & Hi & _)%last_at.
  destruct (Forall3_lookup_r _ _ _ _ _ _ (ci_temps _ _ _ _ _ _ I) Hi) as (t & b & _ & Hb & T).
  apply (Hk t b q T). by eapply list_elem_of_lookup_2.
Qed.

Lemma first_some_fmap {A B} (g : A -> option B) l :
  first_some (fun x => x) ((fun a => Some <$> g a) <$> l) = Some <$> first_some g l.
Proof.
  induction l as [|a l IH]; [done|]. rewrite fmap_cons.
  change (or_else (Some <$> g a) (first_some (fun x => x) ((fun a => Some <$> g a) <$> l)) = Some <$> or_else (g a) (first_some g l)).
  rewrite IH. by destruct (g a).
Qed.
Lemma c_State_ok c lt lp ps rs w key : center_inv c lt lp ps rs w ->
  let st := pt_state (chain_parts (lt ++ lp)) key in
  exists w', c_State order skip key c w = (Ok (st, bool_decide (is_Some st)), w') /\ center_inv c lt lp ps rs w'.
Proof.
  intros I. cbv zeta. rewrite chain_parts_state, first_some_app.
  destruct (c_state_ok (fun p => t_State key p ≫= fun '(st, found) => mret (if found : bool then Some st else None))
    ((fun b => Some <$> ab_states b !! key) <$> lt) c lt lp ps rs w I) as (w1 & E1 & I1).
  { by rewrite length_fmap, (center_length _ _ _ _ _ _ I). }
  { intros i t g w1 I1 Ht Hg. destruct (center_temp _ _ _ _ _ _ _ _ I1 Ht) as (b & p & Hb & Hp & T).
    rewrite list_lookup_fmap, Hb in Hg. injection Hg as <-.
    destruct (t_State_ok t b p w1 key T) as (w2 & E2 & T2 & Ht2). exists w2.
    rewrite (db_bind_Ok _ _ _ _ _ E2). split; [|by eapply center_inv_touched].
    unfold found_in. by destruct (ab_states b !! key). }
  unfold c_State. rewrite (db_bind_Ok _ _ _ _ _ E1). clear E1. rewrite first_some_fmap.
  destruct (first_some (fun b => ab_states b !! key) lt) as [st|] eqn:Est; simpl; [by exists w1|].
  rewrite <- chain_parts_state.
  destruct (p_State_ok (c_perm c) lp (last ps) w1 key) as (w2 & E2 & I2).
  - apply I1.
  - eapply chain_ok_keyed, chain_ok_app. apply I.
  - eapply center_absent; [exact I1|]. intros t b p T Hb. pose proof (sh_state _ _ (ts_view _ _ _ _ T) key) as F.
    simpl in F. by rewrite (proj1 (first_some_None _ _) Est b Hb) in F.
  - exists w2. split; [done|]. by eapply center_inv_perm.
Qed.

Lemma elem_in_bools {A} (Q : A -> Prop) `{!forall a, Decision (Q a)} (l : list A) :
  true ∈ ((fun a => bool_decide (Q a)) <$> l) <-> exists a, a ∈ l /\ Q a.
Proof.
  rewrite list_elem_of_fmap. split.
  - intros (a & Ha & ?). exists a. split; [done|]. symmetry in Ha. by apply bool_decide_eq_true in Ha.
  - intros (a & Hin & Ha). exists a. split; [by rewrite bool_decide_eq_true_2|done].
Qed.
Lemma c_ExistsInStateOperation_ok c lt lp ps rs w h : center_inv c lt lp ps rs w ->
  exists r w', c_ExistsInStateOperation order skip h c w = (Ok r, w') /\ center_inv c lt lp ps rs w' /\
    (r = true <-> pt_instate (chain_parts (lt ++ lp)) h).
Proof.
  intros I.
  destruct (c_exists_ok (fun p => mret (t_ExistsInStateOperation h p)) (t_ExistsInStateOperation h <$> c_temps c) c lt lp ps rs w I)
    as (r & w1 & E1 & I1 & Hr).
  { by rewrite length_fmap. }
  { intros i t g w1 I1 Ht Hg. rewrite list_lookup_fmap, Ht in Hg. injection Hg as <-. by exists w1. }
  assert (r = true <-> exists b, b ∈ lt /\ ab_instate b h) as Hr'.
  { rewrite Hr, list_elem_of_fmap. split.
    - intros (t & Ht & (i & Hi)%list_elem_of_lookup). destruct (center_temp _ _ _ _ _ _ _ _ I1 Hi) as (b & p & Hb & _ & T).
      exists b. split; [by eapply list_elem_of_lookup_2|]. by apply (ts_opcache _ _ _ _ T).
    - intros (b & (i & Hi)%list_elem_of_lookup & Hb).
      destruct (Forall3_lookup_m _ _ _ _ _ _ (ci_temps _ _ _ _ _ _ I1) Hi) as (t & p & Ht & _ & T).
      exists t. split; [symmetry; by apply (ts_opcache _ _ _ _ T)|by eapply list_elem_of_lookup_2]. }
  unfold c_ExistsInStateOperation. rewrite (db_bind_Ok _ _ _ _ _ E1).
  assert (pt_instate (chain_parts (lt ++ lp)) h <-> r = true \/ pt_instate (chain_parts lp) h) as Hpt.
  { rewrite !chain_parts_instate, Hr'. split.
    - intros (b & [?|?]%elem_of_app & ?); eauto.
    - intros [(b & ? & ?)|(b & ? & ?)]; exists b; rewrite elem_of_app; auto. }
  destruct r; [exists true, w1; rewrite Hpt; tauto|].
  destruct (p_ExistsInStateOperation_ok (c_perm c) lp (last ps) w1 h) as (r2 & w2 & E2 & I2 & Hr2).
  - apply I1.
  - eapply center_absent; [exact I1|]. intros t b p T Hb. pose proof (sh_instate _ _ (ts_view _ _ _ _ T) h) as F.
    unfold hash_shown in F. destruct (view p (w_disk w1) (KInState h)); [|done]. destruct F as [_ F].
    assert (false = true) by (apply Hr'; by exists b). done.
  - exists r2, w2. split; [done|]. split; [by eapply center_inv_perm|]. rewrite Hpt, Hr2. naive_solver.
Qed.
Lemma c_ExistsKnownOperation_ok c lt lp ps rs w h : center_inv c lt lp ps rs w ->
  exists r w', c_ExistsKnownOperation order skip h c w = (Ok r, w') /\ center_inv c lt lp ps rs w' /\
    (r = true <-> pt_known (chain_parts (lt ++ lp)) h).
Proof.
  intros I.
  destruct (c_exists_ok (fun p => from_disk (t_ExistsKnownOperation h p)) ((fun b => bool_decide (h ∈ ab_known b)) <$> lt) c lt lp ps rs w I)
    as (r & w1 & E1 & I1 & Hr).
  { by rewrite length_fmap, (center_length _ _ _ _ _ _ I). }
  { intros i t g w1 I1 Ht Hg. destruct (center_temp _ _ _ _ _ _ _ _ I1 Ht) as (b & p & Hb & Hp & T).
    rewrite list_lookup_fmap, Hb in Hg. injection Hg as <-. exists w1. split; [|done].
    unfold from_disk. by rewrite (t_ExistsKnownOperation_ok _ _ _ _ _ T). }
  rewrite elem_in_bools in Hr. unfold c_ExistsKnownOperation. rewrite (db_bind_Ok _ _ _ _ _ E1).
  assert (pt_known (chain_parts (lt ++ lp)) h <-> r = true \/ pt_known (chain_parts lp) h) as Hpt.
  { rewrite !chain_parts_known, Hr. split.
    - intros (b & [?|?]%elem_of_app & ?); eauto.
    - intros [(b & ? & ?)|(b & ? & ?)]; exists b; rewrite elem_of_app; auto. }
  destruct r; [exists true, w1; rewrite Hpt; tauto|].
  destruct (p_ExistsKnownOperation_ok (c_perm c) lp (last ps) w1 h) as (r2 & E2 & Hr2).
  - apply I1.
  - eapply center_absent; [exact I1|]. intros t b p T Hb. apply eq_None_not_Some.
    rewrite (sh_known _ _ (ts_view _ _ _ _ T)). simpl. intros Hin. assert (false = true) by (apply Hr; by exists b). done.
  - exists r2, w1. unfold from_disk. rewrite E2. split; [done|]. split; [done|]. rewrite Hpt, Hr2. naive_solver.
Qed.

Lemma wrap_s_shift x : exists k, x = wrap_s 64 x + k * 2 ^ 64.
Proof.
  unfold wrap_s. exists ((x + 2 ^ (64 - 1)) / 2 ^ 64). pose proof (Z.div_mod (x + 2 ^ (64 - 1)) (2 ^ 64)). lia.
Qed.
(** A temporary database is found by its height, and only by that. *)
Lemma findTemp_ok c lt lp ps rs w height : center_inv c lt lp ps rs w -> i64 height ->
  match findTemp height c with
  | Some t => exists i b p, c_temps c !! i = Some t /\ lt !! i = Some b /\ ps !! i = Some p /\ ab_height b = height /\ temp_shows t b p w
  | None => forall b, b ∈ lt -> ab_height b <> height
  end.
Proof.
  intros I Hi. pose proof (center_length _ _ _ _ _ _ I) as Hl. unfold findTemp.
  destruct (c_temps c) as [|t0 ts] eqn:Ets.
  { destruct lt; [|done]. intros b Hb. by apply elem_of_nil in Hb. }
  rewrite <- Ets in *. destruct (center_temp _ _ _ _ _ _ 0%nat t0 I) as (b0 & p0 & Hb0 & _ & T0); [by rewrite Ets|].
  rewrite (t_Height_ok _ _ _ _ T0).
  assert (forall i b, lt !! i = Some b -> ab_height b = ab_height b0 - Z.of_nat i /\ height_ok (ab_height b)) as Hh.
  { intros i b Hb. split.
    - eapply (chain_ok_height (lt ++ lp)); [apply I| |by apply lookup_app_l_Some]. destruct lt; [done|]. by injection Hb0 as ->.
    - eapply chain_ok_wf; [apply I|]. apply elem_of_app. left. by eapply list_elem_of_lookup_2. }
  destruct (Hh 0%nat b0 Hb0) as [_ Hok0].
  destruct (wrap_s_shift (ab_height b0 - height)) as [k Hk]. set (f := wrap_s 64 (ab_height b0 - height)) in *.
  destruct (Z.leb_spec 0 f) as [H1'|H1']; destruct (Z.ltb_spec f (Z.of_nat (length (c_temps c)))) as [H2'|H2']; cbn [andb].
  - destruct (c_temps c !! Z.to_nat f) as [t|] eqn:Et.
    + destruct (center_temp _ _ _ _ _ _ _ _ I Et) as (b & p & Hb & Hp & T). exists (Z.to_nat f), b, p.
      destruct (Hh _ _ Hb) as [Hhb Hokb]. split_and!; try done. unfold height_ok, i64 in *. lia.
    + apply lookup_ge_None in Et. lia.
  - intros b (i & Hb)%list_elem_of_lookup Heq. destruct (Hh _ _ Hb) as [Hhb Hokb]. apply lookup_lt_Some in Hb.
    unfold height_ok, i64, f in *. rewrite wrap_s_small in H2' by (done || (subst height; simpl; lia)). lia.
  - intros b (i & Hb)%list_elem_of_lookup Heq. destruct (Hh _ _ Hb) as [Hhb Hokb]. apply lookup_lt_Some in Hb.
    unfold height_ok, i64, f in *. rewrite wrap_s_small in H1' by (done || (subst height; simpl; lia)). lia.
  - intros b (i & Hb)%list_elem_of_lookup Heq. destruct (Hh _ _ Hb) as [Hhb Hokb]. apply lookup_lt_Some in Hb.
    unfold height_ok, i64, f in *. rewrite wrap_s_small in H1' by (done || (subst height; simpl; lia)). lia.
Qed.
Lemma center_head c lt lp ps rs w t0 ts : center_inv c lt lp ps rs w -> c_temps c = t0 :: ts ->
  exists b0 lt', lt = b0 :: lt' /\ t_Height t0 = ab_height b0 /\ (forall b, b ∈ lt ++ lp -> ab_height b <= ab_height b0).
Proof.
  intros I Ets. pose proof (ci_temps _ _ _ _ _ _ I) as F. rewrite Ets in F.
  apply Forall3_cons_inv_l in F as (b0 & lt' & p0 & ps' & -> & _ & T0 & _). exists b0, lt'. split; [done|].
  split; [by eapply t_Height_ok|]. intros b (i & Hb)%list_elem_of_lookup.
  rewrite (chain_ok_height _ i b0 b (ci_chain _ _ _ _ _ _ I) eq_refl Hb). lia.
Qed.
Lemma chain_map_of l b : chain_ok l -> b ∈ l -> pt_map (chain_parts l) (ab_height b) = Some (ab_map b).
Proof.
  intros Hc Hb. rewrite chain_parts_map.
  destruct (first_some _ l) as [m|] eqn:Em.
  - apply first_some_Some in Em as (b' & Hb' & Hm). destruct (Z.eqb_spec (ab_height b) (ab_height b')) as [Heq|]; [|done].
    by rewrite (chain_ok_at l b b' Hc Hb Hb' Heq).
  - apply first_some_None with (a := b) in Em; [|done]. by rewrite Z.eqb_refl in Em.
Qed.
Lemma chain_map_none l h : (forall b, b ∈ l -> ab_height b <> h) -> pt_map (chain_parts l) h = None.
Proof.
  intros Hn. rewrite chain_parts_map. apply first_some_None. intros b Hb. destruct (Z.eqb_spec h (ab_height b)) as [->|]; [|done].
  by destruct (Hn b Hb).
Qed.

Lemma c_BlockMap_ok c lt lp ps rs w height : center_inv c lt lp ps rs w -> i64 height ->
  let m := pt_map (chain_parts (lt ++ lp)) height in
  c_BlockMap height c w = (Ok (m, bool_decide (is_Some m)), w).
Proof.
  intros I Hi. cbv zeta. pose proof (ci_chain _ _ _ _ _ _ I) as Hc.
  assert ((forall b, b ∈ lt -> ab_height b <> height) ->
    from_disk (p_BlockMap height (c_perm c)) w = (Ok (pt_map (chain_parts (lt ++ lp)) height,
      bool_decide (is_Some (pt_map (chain_parts (lt ++ lp)) height))), w)) as Hperm.
  { intros Hn. unfold from_disk.
    assert (pt_map (chain_parts (lt ++ lp)) height = pt_map (chain_parts lp) height) as ->.
    { rewrite !chain_parts_map, first_some_app, <- chain_parts_map. by rewrite (chain_map_none lt height Hn). }
    rewrite (p_BlockMap_ok _ _ _ _ height (ci_perm _ _ _ _ _ _ I) (chain_ok_app _ _ Hc) Hi); [done|].
    eapply center_absent; [exact I|]. intros t b p T Hb. destruct (decide (height_ok height)) as [Hok|Hno].
    - pose proof (sh_map _ _ (ts_view _ _ _ _ T) height Hok) as F. simpl in F.
      destruct (Z.eqb_spec height (ab_height b)) as [Heq|]; [by destruct (Hn b Hb)|done].
    - apply only_height; [apply T|done|done|done|done]. }
  unfold c_BlockMap. pose proof (findTemp_ok _ _ _ _ _ _ height I Hi) as Hf.
  destruct (c_temps c) as [|t0 ts] eqn:Ets.
  { apply Hperm. pose proof (center_length _ _ _ _ _ _ I) as Hl. rewrite Ets in Hl. destruct lt; [|done].
    intros b Hb. by apply elem_of_nil in Hb. }
  destruct (center_head _ _ _ _ _ _ _ _ I Ets) as (b0 & lt' & -> & Hh0 & Hmax). rewrite Hh0.
  destruct (Z.ltb_spec (ab_height b0) height) as [Hlt|Hge].
  { rewrite chain_map_none; [done|]. intros b Hb Heq. specialize (Hmax b Hb). lia. }
  destruct (findTemp height c) as [t|]; [|by apply Hperm].
  destruct Hf as (i & b & p & _ & Hb & _ & <- & T). destruct (ts_mp _ _ _ _ T) as (body & Hmp & _).
  unfold t_LastBlockMap. rewrite Hmp. rewrite chain_map_of; [reflexivity|done|].
  apply elem_of_app. left. by eapply list_elem_of_lookup_2.
Qed.
Lemma c_LastBlockMap_ok c lt lp ps rs w : center_inv c lt lp ps rs w -> c_LastBlockMap c = Ok (ab_map <$> head (lt ++ lp)).
Proof.
  intros I. unfold c_LastBlockMap. destruct (c_temps c) as [|t0 ts] eqn:Ets.
  - pose proof (center_length _ _ _ _ _ _ I) as Hl. rewrite Ets in Hl. destruct lt; [|done].
    unfold p_LastBlockMap. by rewrite (pm_mp _ _ _ _ (ci_perm _ _ _ _ _ _ I)).
  - pose proof (ci_temps _ _ _ _ _ _ I) as F. rewrite Ets in F.
    apply Forall3_cons_inv_l in F as (b0 & lt' & p0 & ps' & -> & _ & T0 & _).
    destruct (ts_mp _ _ _ _ T0) as (body & Hmp & _). unfold t_LastBlockMap. by rewrite Hmp.
Qed.
Lemma first_of_ok {X} (f : temp -> option X) (g : ABlock -> option X) c lt lp ps rs w : center_inv c lt lp ps rs w ->
  (forall t b p, temp_shows t b p w -> f t = g b) -> first_of f (c_temps c) = first_some g lt.
Proof.
  intros I Hfg. pose proof (ci_temps _ _ _ _ _ _ I) as F. clear I.
  induction F as [|t b p ts lt' ps' T F IH]; [done|]. simpl. by rewrite (Hfg t b p T), IH.
Qed.
Lemma c_LastSuffrageProof_ok c lt lp ps rs w : center_inv c lt lp ps rs w -> c_LastSuffrageProof c = chain_last_proof (lt ++ lp).
Proof.
  intros I. unfold c_LastSuffrageProof, chain_last_proof. rewrite first_some_app.
  rewrite (first_of_ok _ ab_proof c lt lp ps rs w I); [|intros t b p T; apply T].
  by rewrite (pm_proof _ _ _ _ (ci_perm _ _ _ _ _ _ I)).
Qed.
Lemma c_LastNetworkPolicy_ok c lt lp ps rs w : center_inv c lt lp ps rs w -> c_LastNetworkPolicy c = chain_policy (P := P) (lt ++ lp).
Proof.
  intros I. unfold c_LastNetworkPolicy, chain_policy. rewrite first_some_app.
  rewrite (first_of_ok _ block_policy c lt lp ps rs w I); [|intros t b p T; apply T].
  by rewrite (pm_policy _ _ _ _ (ci_perm _ _ _ _ _ _ I)).
Qed.

(** *** Suffrage proofs *)
Lemma wf_proof b p : block_wf b -> ab_proof b = Some p ->
  s_height (sp_st p) = ab_height b /\ LoadSuffrageNodesStateValue (Some (sp_st p)) = Ok
    {| ss_height := SuffrageHeight p; ss_nodes := match LoadSuffrageNodesStateValue (Some (sp_st p)) with Ok v => ss_nodes v | _ => [] end |} /\
  height_ok (SuffrageHeight p).
Proof.
  intros [_ _ Hwf _] Hp. rewrite Hp in Hwf. destruct Hwf as (v & _ & Hh & Hv & Hok).
  unfold SuffrageHeight. rewrite Hv. split; [done|]. split; [by destruct v|done].
Qed.
(** No proof of the chain is above the last. *)
Lemma chain_proof_le l b p plast : chain_ok l -> b ∈ l -> ab_proof b = Some p -> chain_last_proof l = Some plast ->
  SuffrageHeight p <= SuffrageHeight plast.
Proof.
  intros Hc. revert plast. induction Hc as [|b' l Hwf _ Hs Hc IH]; intros plast Hb Hp Hl; [by apply elem_of_nil in Hb|].
  unfold chain_last_proof in Hl. simpl in Hl. apply elem_of_cons in Hb as [->|Hb].
  - rewrite Hp in Hl. injection Hl as ->. lia.
  - destruct (chain_last_proof l) as [p'|] eqn:El.
    + specialize (IH p' Hb Hp eq_refl). destruct (ab_proof b') as [pb|]; simpl in Hl; [injection Hl as <-; lia|].
      unfold chain_last_proof in El. congruence.
    + exfalso. unfold chain_last_proof in El. by rewrite (proj1 (first_some_None _ _) El b Hb) in Hp.
Qed.
(** The newest proof at most at a height there is, is the one at that height. *)
Lemma chain_proof_newest l sh : chain_ok l ->
  (forall p, chain_last_proof l = Some p -> sh <= SuffrageHeight p) ->
  first_some (fun b => ab_proof b ≫= fun p => if sh <? SuffrageHeight p then None else Some p) l = pt_proof (chain_parts l) sh.
Proof.
  intros Hc. rewrite chain_parts_proof. induction Hc as [|b l Hwf _ Hs Hc IH]; intros Hsh; [done|].
  simpl. unfold chain_last_proof in Hsh. simpl in Hsh. destruct (ab_proof b) as [p|]; simpl in *; [|by apply IH].
  specialize (Hsh p eq_refl). destruct (Z.ltb_spec sh (SuffrageHeight p)) as [Hlt|Hge].
  - destruct (Z.eqb_spec sh (SuffrageHeight p)); [lia|]. simpl. apply IH. intros p' Hp'.
    change (chain_last_proof l = Some p') in Hp'. rewrite Hp' in Hs. lia.
  - destruct (Z.eqb_spec sh (SuffrageHeight p)); [done|lia].
Qed.

Lemma suffrageProofInTemps_ok c lt lp ps rs w sh : center_inv c lt lp ps rs w -> 0 <= sh ->
  exists r, suffrageProofInTemps sh (c_temps c) = Ok r /\
    snd <$> r = first_some (fun b => ab_proof b ≫= fun p => if sh <? SuffrageHeight p then None else Some p) lt.
Proof.
  intros I Hsh. pose proof (ci_temps _ _ _ _ _ _ I) as F.
  assert (forall b, b ∈ lt -> block_wf b) as Hwf.
  { intros b Hb. eapply chain_ok_wf; [apply I|]. apply elem_of_app. by left. } clear I.
  induction F as [|t b p ts lt' ps' T F IH]; [by exists None|].
  destruct IH as (r & Hr & Hs); [intros; apply Hwf; by apply list_elem_of_further|].
  specialize (Hwf b (list_elem_of_here _ _)). cbn [suffrageProofInTemps]. unfold t_SuffrageHeight.
  rewrite (ts_sufst _ _ _ _ T), (ts_proof _ _ _ _ T). pose proof (bw_proof _ Hwf) as Hp.
  destruct (ab_proof b) as [pr|] eqn:Epr.
  - destruct Hp as (v & -> & Hh & Hv & Hok). rewrite Hv. run.
    assert (SuffrageHeight pr = ss_height v) as Ev by (unfold SuffrageHeight; by rewrite Hv).
    destruct (Z.eqb_spec (ss_height v) NilHeight) as [Hn|_]; [unfold height_ok, NilHeight in *; lia|]. cbn [orb].
    simpl. rewrite Epr. simpl. rewrite Ev. destruct (sh <? ss_height v); [by exists r|].
    exists (Some (t, pr)). done.
  - rewrite Hp. run. rewrite Z.eqb_refl. cbn [orb]. exists r. split; [done|]. simpl. by rewrite Epr.
Qed.

Lemma p_SuffrageProof_ok p l oldest w sh : perm_shows p l oldest w -> chain_ok l -> height_ok sh -> absent oldest w (KProof sh) ->
  let r := pt_proof (chain_parts l) sh in
  p_SuffrageProof sh p (w_disk w) = Ok (r, bool_decide (is_Some r)).
Proof.
  intros Hp Hc Hok Ha. cbv zeta. unfold p_SuffrageProof, compareWithLastSuffrageProof. rewrite (pm_proof _ _ _ _ Hp).
  assert (ps_Get (p_pst p) (leveldbSuffrageProofKey sh) (w_disk w) ≫= (fun b =>
      match b with None => Ok (None, false) | Some b => ReadDecodeFrame (E := E) b ≫= fun v => Ok (v, true) end) =
    Ok (pt_proof (chain_parts l) sh, bool_decide (is_Some (pt_proof (chain_parts l) sh)))) as Hget.
  { rewrite (pm_pst _ _ _ _ Hp). change (leveldbSuffrageProofKey sh) with (kbytes (KProof sh)). rewrite ps_Get_view. run.
    destruct (perm_view _ _ _ _ (KProof sh) Hp Ha Hok) as (v0 & S & Hv). pose proof (sh_proof _ _ S sh Hok) as F. rewrite <- Hv in F.
    destruct (pt_proof (chain_parts l) sh) as [pr|].
    - destruct (framed_value _ _ _ F) as (bs & -> & ->). done.
    - by rewrite F. }
  destruct (chain_last_proof l) as [pl|] eqn:El; [|exact Hget].
  pose proof El as (b & Hb & Hpb)%first_some_Some.
  destruct (wf_proof b pl (chain_ok_wf _ _ Hc Hb) Hpb) as (_ & Hv & _). rewrite Hv. run. simpl ss_height.
  destruct (Z.eqb_spec sh (SuffrageHeight pl)) as [Heq|]; [|exact Hget].
  rewrite <- (chain_proof_newest l sh Hc). 2:{ intros p'. rewrite El. intros [= <-]. lia. }
  assert (first_some (fun b => ab_proof b ≫= fun p => if sh <? SuffrageHeight p then None else Some p) l = Some pl) as ->; [|done].
  clear -El Heq. unfold chain_last_proof in El. induction l as [|b l IH]; [done|]. simpl in *.
  destruct (ab_proof b) as [pb|]; simpl in *; [|by apply IH]. injection El as ->.
  by destruct (Z.ltb_spec sh (SuffrageHeight pl)); [lia|].
Qed.

(** Up to the last suffrage; above it the last proof of the temporary databases is
    answered ([suffrage_proof_above]). *)
Lemma c_SuffrageProof_ok c lt lp ps rs w sh : center_inv c lt lp ps rs w -> height_ok sh ->
  (forall pl, chain_last_proof (lt ++ lp) = Some pl -> sh <= SuffrageHeight pl) ->
  let p := pt_proof (chain_parts (lt ++ lp)) sh in
  c_SuffrageProof sh c w = (Ok (p, bool_decide (is_Some p)), w).
Proof.
  intros I Hok Hle. cbv zeta. pose proof (ci_chain _ _ _ _ _ _ I) as Hc.
  destruct (suffrageProofInTemps_ok c lt lp ps rs w sh I) as (r & Er & Hr); [unfold height_ok in Hok; lia|].
  unfold c_SuffrageProof, lift. rewrite Er. unfold mbind, db_bind.
  pose proof (chain_proof_newest (lt ++ lp) sh Hc Hle) as Hn. rewrite first_some_app, <- Hr in Hn.
  destruct r as [[t p]|]; simpl in Hn; [by rewrite <- Hn|].
  assert (forall b p, b ∈ lt -> ab_proof b = Some p -> sh < SuffrageHeight p) as Hlt.
  { intros b p Hb Hp. simpl in Hr. symmetry in Hr. pose proof (proj1 (first_some_None _ _) Hr b Hb) as Hx. cbv beta in Hx.
    rewrite Hp in Hx. simpl in Hx. by destruct (Z.ltb_spec sh (SuffrageHeight p)). }
  assert (pt_proof (chain_parts (lt ++ lp)) sh = pt_proof (chain_parts lp) sh) as ->.
  { rewrite !chain_parts_proof, first_some_app. rewrite (proj2 (first_some_None _ lt)); [done|]. intros b Hb.
    destruct (ab_proof b) as [p|] eqn:Ep; [|done]. simpl. specialize (Hlt b p Hb Ep).
    by destruct (Z.eqb_spec sh (SuffrageHeight p)); [lia|]. }
  unfold from_disk. rewrite (p_SuffrageProof_ok _ _ _ _ sh (ci_perm _ _ _ _ _ _ I) (chain_ok_app _ _ Hc) Hok); [done|].
  eapply center_absent; [exact I|]. intros t b q T Hb. pose proof (sh_proof _ _ (ts_view _ _ _ _ T) sh Hok) as F.
  simpl in F. destruct (ab_proof b) as [p|] eqn:Ep; [|done]. simpl in F. specialize (Hlt b p Hb Ep).
  by destruct (Z.eqb_spec sh (SuffrageHeight p)); [lia|].
Qed.
(** A suffrage that is not there yet is answered with the last one. *)
Lemma c_SuffrageProof_above c lt lp ps rs w sh p : center_inv c lt lp ps rs w -> chain_last_proof lt = Some p ->
  SuffrageHeight p < sh -> 0 <= sh -> c_SuffrageProof sh c w = (Ok (Some p, true), w).
Proof.
  intros I Hp Hlt Hsh. destruct (suffrageProofInTemps_ok c lt lp ps rs w sh I Hsh) as (r & Er & Hr).
  unfold c_SuffrageProof, lift. rewrite Er. unfold mbind, db_bind.
  assert (first_some (fun b => ab_proof b ≫= fun p => if sh <? SuffrageHeight p then None else Some p) lt = Some p) as Hs.
  { clear -Hp Hlt. unfold chain_last_proof in Hp. induction lt as [|b l IH]; [done|]. simpl in *.
    destruct (ab_proof b) as [pb|]; simpl in *; [|by apply IH]. injection Hp as ->.
    by destruct (Z.ltb_spec sh (SuffrageHeight p)); [lia|]. }
  rewrite Hs in Hr. destruct r as [[t p']|]; simpl in Hr; [|done]. by injection Hr as ->.
Qed.

(** *** The suffrage proof at a block *)
Lemma iter_first (l : list (bytes * bytes)) (a : option bytes) :
  iter (fun _ b _ => Ok (Some b, false)) l a = Ok (match l with [] => a | (_, v) :: _ => Some v end).
Proof. by destruct l as [|[k v] l]. Qed.
Lemma sorted_last_max (l l2 : list (bytes * bytes)) k v k' v' : StronglySorted bytes_lt l.*1 -> reverse l = (k, v) :: l2 ->
  (k', v') ∈ l -> bytes_lt k' k \/ k' = k.
Proof.
  intros S Hr Hin. assert (l = reverse l2 ++ [(k, v)]) as Hl by (rewrite <- (reverse_involutive l), Hr; by rewrite reverse_cons).
  rewrite Hl, fmap_app in S. simpl in S. destruct (sorted_split _ _ _ S) as [Hlt _].
  rewrite Hl in Hin. apply elem_of_app in Hin as [Hin|Heq%list_elem_of_singleton]; [left|right; by injection Heq].
  apply Hlt. by apply (list_elem_of_fmap_2 fst) in Hin.
Qed.
Definition proof_range (height : Z) : Range :=
  {| r_Start := r_Start (BytesPrefix (D := D) leveldbKeySuffrageProofByBlockHeight);
     r_Limit := Some (leveldbSuffrageProofByBlockHeightKey (height + 1)) |}.
Lemma proof_range_given height : range_given (proof_range height).
Proof. split; [unfold proof_range; simpl; by rewrite BytesPrefix_start|done]. Qed.
Lemma in_proof_range height k : height_ok height -> dkey_ok k ->
  in_range (proof_range height) (kbytes k) <-> exists h, k = KProofAt h /\ h <= height.
Proof.
  intros Hh Hk. assert (is_bytes leveldbKeySuffrageProofByBlockHeight) as Hb by (apply (bool_decide_unpack _); vm_compute; exact I).
  assert (forall h, height_ok h -> kbytes (KProofAt h) = leveldbKeySuffrageProofByBlockHeight ++ Int64ToBytes h) as Hkb.
  { intros h _. apply NewPrefixKey_1. }
  unfold in_range, proof_range. cbn [r_Start r_Limit]. rewrite BytesPrefix_start.
  assert (leveldbSuffrageProofByBlockHeightKey (height + 1) = leveldbKeySuffrageProofByBlockHeight ++ Int64ToBytes (height + 1)) as ->
    by apply NewPrefixKey_1.
  assert (forall h, height_ok h -> bytes_lt (leveldbKeySuffrageProofByBlockHeight ++ Int64ToBytes h)
    (leveldbKeySuffrageProofByBlockHeight ++ Int64ToBytes (height + 1)) <-> h <= height) as Hlt.
  { intros h Ho. unfold bytes_lt. rewrite bytes_ltb_app. change (bytes_lt (Int64ToBytes h) (Int64ToBytes (height + 1)) <-> h <= height).
    unfold height_ok in *. rewrite height_bytes_lt by lia. lia. }
  split.
  - intros [Hs Hl]. rewrite <- (app_nil_r leveldbKeySuffrageProofByBlockHeight) in Hs at 1.
    pose proof (bytes_between _ _ _ _ Hs Hl) as [x Hx]. destruct k; try discriminate Hx. exists height0. split; [done|].
    rewrite Hkb in Hl by done. by apply Hlt.
  - intros (h & -> & Hle). rewrite Hkb by done. split; [apply bytes_ltb_prefix; by eexists|]. by apply Hlt.
Qed.
Definition proof_at_answer (l : list ABlock) (height : Z) : option SuffrageProof :=
  match head l with
  | Some b => if ab_height b <? height then None else chain_proof_at l height
  | None => None
  end.
Lemma chain_proof_at_last l p height : chain_last_proof l = Some p -> (forall b, b ∈ l -> ab_proof b = Some p -> ab_height b <= height) ->
  chain_proof_at l height = Some p.
Proof.
  unfold chain_last_proof, chain_proof_at. intros Hl Hh. induction l as [|b l IH]; [done|]. simpl in *.
  destruct (ab_proof b) as [pb|] eqn:Epb.
  - simpl in Hl. injection Hl as ->. destruct (Z.ltb_spec height (ab_height b)); [|done].
    specialize (Hh b (list_elem_of_here _ _) Epb). lia.
  - destruct (height <? ab_height b); simpl; apply IH; try done; intros; apply Hh; try done; by apply list_elem_of_further.
Qed.
(** The newest proof up to a height is at a block, and the last of those. *)
Lemma chain_proof_at_Some l height b p : chain_ok l -> b ∈ l -> ab_proof b = Some p -> ab_height b <= height ->
  (forall b' p', b' ∈ l -> ab_proof b' = Some p' -> ab_height b' <= height -> ab_height b' <= ab_height b) ->
  chain_proof_at l height = Some p.
Proof.
  intros Hc Hb Hp Hh Hmax. unfold chain_proof_at. pose proof Hc as Hc0. revert Hb Hmax.
  induction Hc as [|b1 l Hwf Hprev _ Hc IH]; intros Hb Hmax; [by apply elem_of_nil in Hb|].
  assert (b <> b1 -> b ∈ l) as Hin by (intros Hne; by apply elem_of_cons in Hb as [->|]).
  assert (b ∈ l -> first_some (fun b => if height <? ab_height b then None else ab_proof b) l = Some p) as IH'.
  { intros Hbl. apply (IH Hc Hbl). intros. eapply Hmax; [by apply list_elem_of_further|done..]. }
  assert (b ∈ l -> ab_height b < ab_height b1) as Hlt.
  { intros (i & Hi)%list_elem_of_lookup. rewrite (chain_ok_height (b1 :: l) (S i) b1 b Hc0 eq_refl Hi). lia. }
  simpl. destruct (Z.ltb_spec height (ab_height b1)); simpl.
  - apply IH', Hin. intros ->. lia.
  - destruct (ab_proof b1) as [p1|] eqn:Ep1; simpl.
    + apply elem_of_cons in Hb as [->|Hb]; [congruence|]. specialize (Hlt Hb).
      specialize (Hmax b1 p1 (list_elem_of_here _ _) Ep1). lia.
    + apply IH', Hin. intros ->. congruence.
Qed.

Lemma p_SuffrageProofByBlockHeight_ok p l oldest w height : perm_shows p l oldest w -> chain_ok l -> height_ok height ->
  (forall h, height_ok h -> h <= height -> absent oldest w (KProofAt h)) ->
  let r := proof_at_answer l height in
  p_SuffrageProofByBlockHeight height p (w_disk w) = Ok (r, bool_decide (is_Some r)).
Proof.
  intros Hp Hc Hok Ha. cbv zeta. unfold p_SuffrageProofByBlockHeight, p_LastBlockMap, proof_at_answer.
  rewrite (pm_mp _ _ _ _ Hp), (pm_proof _ _ _ _ Hp). destruct l as [|b0 l]; [done|]. simpl fmap. cbv iota beta. fold (ab_height b0).
  change (head (b0 :: l)) with (Some b0). cbv iota beta. destruct (Z.ltb_spec (ab_height b0) height) as [|Hle]; [done|].
  destruct (chain_last_proof (b0 :: l)) as [pl|] eqn:El.
  2:{ assert (chain_proof_at (b0 :: l) height = None) as ->; [|done]. apply first_some_None. intros b Hb.
      unfold chain_last_proof in El. rewrite (proj1 (first_some_None _ _) El b Hb). by destruct (_ <? _). }
  pose proof El as (bl & Hbl & Hpl)%first_some_Some.
  destruct (wf_proof bl pl (chain_ok_wf _ _ Hc Hbl) Hpl) as (Hsh & _ & _). rewrite Hsh.
  destruct (Z.leb_spec (ab_height bl) height) as [Hlast|Hlast].
  { rewrite (chain_proof_at_last _ _ height El); [done|]. intros b Hb Hpb.
    destruct (wf_proof b pl (chain_ok_wf _ _ Hc Hb) Hpb) as (Hsb & _ & _). lia. }
  assert (wrap_s 64 (height + 1) = height + 1) as Hw by (apply wrap_s_small; unfold height_ok in Hok; lia).
  unfold proof_frame_at. rewrite Hw. fold (proof_range height). rewrite (pm_pst _ _ _ _ Hp).
  pose proof (proof_range_given height) as Hrg. pose proof perm_prefix_bytes as Hpb.
  rewrite ps_Iter_list by done. cbv iota. rewrite iter_first. run.
  set (es := ps_list perm_prefix (proof_range height) (w_disk w)).
  assert (forall h v, height_ok h -> (kbytes (KProofAt h), v) ∈ es <-> view perm_prefix (w_disk w) (KProofAt h) = Some v /\ h <= height) as Hes.
  { intros h v Ho. unfold es. rewrite ps_list_elem by done. unfold view. rewrite in_proof_range by done. split.
    - intros [Hg (h' & [= <-] & Hl)]. done.
    - intros [Hg Hl]. split; [done|]. by exists h. }
  assert (forall h, height_ok h -> h <= height -> framed proof_meta (view perm_prefix (w_disk w) (KProofAt h))
    (pt_proof_at (chain_parts (b0 :: l)) h)) as Hfr.
  { intros h Ho Hlh. destruct (perm_view _ _ _ _ (KProofAt h) Hp (Ha h Ho Hlh) Ho) as (v0 & S & Hv). rewrite Hv. by apply sh_proof_at. }
  assert (forall b pb, b ∈ b0 :: l -> ab_proof b = Some pb -> pt_proof_at (chain_parts (b0 :: l)) (ab_height b) = Some pb) as Hat.
  { intros b pb Hb Hpb'. rewrite chain_parts_proof_at. destruct (first_some _ _) as [x|] eqn:Ex.
    - apply first_some_Some in Ex as (b' & Hb' & Hx). destruct (Z.eqb_spec (ab_height b) (ab_height b')) as [Heq|]; [|done].
      rewrite <- (chain_ok_at _ _ _ Hc Hb Hb' Heq) in Hx. congruence.
    - pose proof (proj1 (first_some_None _ _) Ex b Hb) as Hx. cbv beta in Hx. rewrite Z.eqb_refl in Hx. congruence. }
  destruct (reverse es) as [|[k v] l2] eqn:Er.
  - assert (chain_proof_at (b0 :: l) height = None) as ->; [|done]. apply first_some_None. intros b Hb.
    destruct (Z.ltb_spec height (ab_height b)) as [|Hlb]; [done|]. destruct (ab_proof b) as [pb|] eqn:Epb; [|done]. exfalso.
    pose proof (bw_height_ok _ (chain_ok_wf _ _ Hc Hb)) as Ho. pose proof (Hfr _ Ho Hlb) as F. rewrite (Hat b pb Hb Epb) in F.
    destruct F as (enc & m & v & Hv & _). apply (f_equal reverse) in Er. rewrite reverse_involutive in Er.
    assert ((kbytes (KProofAt (ab_height b)), v) ∈ es) as Hin by (by apply Hes). rewrite Er in Hin. by apply elem_of_nil in Hin.
  - assert ((k, v) ∈ es) as Hin by (rewrite <- (reverse_involutive es), Er; apply elem_of_reverse, list_elem_of_here).
    pose proof Hin as Hin'. unfold es in Hin'. apply ps_list_elem in Hin' as [Hg Hr]; [|done|done].
    destruct (pm_only _ _ _ _ Hp k) as (dk & Hdk & ->); [by eexists|].
    apply in_proof_range in Hr as (h & -> & Hlh); [|done|done]. simpl in Hdk.
    pose proof (Hfr h Hdk Hlh) as F. unfold view in F at 1. rewrite Hg in F.
    destruct (pt_proof_at (chain_parts (b0 :: l)) h) as [ph|] eqn:Eph; [|done].
    destruct (framed_value _ _ _ F) as (bs & [= <-] & Hrd). rewrite Hrd. run.
    assert (chain_proof_at (b0 :: l) height = Some ph) as ->; [|done].
    rewrite chain_parts_proof_at in Eph. apply first_some_Some in Eph as (b & Hb & Hx).
    destruct (Z.eqb_spec h (ab_height b)) as [->|]; [|done].
    apply (chain_proof_at_Some _ height b ph Hc Hb Hx Hlh). intros b' p' Hb' Hp' Hlb'.
    pose proof (bw_height_ok _ (chain_ok_wf _ _ Hc Hb')) as Ho'. pose proof (Hfr _ Ho' Hlb') as F'. rewrite (Hat b' p' Hb' Hp') in F'.
    destruct F' as (enc & m & v' & Hv' & _). assert ((kbytes (KProofAt (ab_height b')), v') ∈ es) as Hin2 by (by apply Hes).
    destruct (sorted_last_max es l2 (kbytes (KProofAt (ab_height b))) v (kbytes (KProofAt (ab_height b'))) v') as [Hlt|Heq]; [by apply ps_list_sorted|exact Er|exact Hin2|..].
    + simpl in Hlt. unfold leveldbSuffrageProofByBlockHeightKey in Hlt. rewrite !NewPrefixKey_1 in Hlt.
      unfold bytes_lt in Hlt. rewrite bytes_ltb_app in Hlt. apply height_bytes_lt in Hlt; unfold height_ok in *; lia.
    + apply kbytes_inj in Heq; [|by apply dkey_ok_valid..]. injection Heq as ->. lia.
Qed.

Lemma chain_proof_at_all l h : (forall b, b ∈ l -> ab_height b <= h) -> chain_proof_at l h = chain_last_proof l.
Proof.
  unfold chain_proof_at, chain_last_proof. intros Hl. induction l as [|b l IH]; [done|]. simpl.
  rewrite IH by (intros; apply Hl; by apply list_elem_of_further).
  by destruct (Z.ltb_spec h (ab_height b)) as [Hlt|_]; [specialize (Hl b (list_elem_of_here _ _)); lia|].
Qed.
Lemma center_last c lt lp ps rs w t0 ts : center_inv c lt lp ps rs w -> c_temps c = t0 :: ts ->
  exists tl bl, last (t0 :: ts) = Some tl /\ last lt = Some bl /\ t_Height tl = ab_height bl /\ height_ok (ab_height bl) /\
    (forall b, b ∈ lt -> ab_height bl <= ab_height b) /\ (forall b, b ∈ lp -> ab_height b <= ab_height bl - 1) /\
    (forall b, head lp = Some b -> ab_height b = ab_height bl - 1).
Proof.
  intros I Ets. destruct (center_head _ _ _ _ _ _ _ _ I Ets) as (b0 & lt0 & Elt & Hh0 & _).
  pose proof (ci_chain _ _ _ _ _ _ I) as Hc. pose proof (center_length _ _ _ _ _ _ I) as Hl. rewrite Ets in Hl.
  destruct (last (t0 :: ts)) as [tl|] eqn:Etl; [|by apply last_None in Etl].
  destruct (last_at _ _ Etl) as (i & Hi & Hlen). rewrite <- Ets in Hi.
  destruct (center_temp _ _ _ _ _ _ i tl I Hi) as (bl & p & Hb & _ & T). rewrite <- Hl in Hlen.
  assert (forall j b, (lt ++ lp) !! j = Some b -> ab_height b = ab_height b0 - Z.of_nat j) as Hh.
  { intros j b Hj. apply (chain_ok_height (lt ++ lp)); [done|by rewrite Elt|done]. }
  pose proof (Hh i bl (lookup_app_l_Some _ _ _ _ Hb)) as Hbl.
  exists tl, bl. split; [done|]. split; [rewrite last_lookup, Hlen; exact Hb|]. split; [by eapply t_Height_ok|].
  split; [apply bw_height_ok; eapply chain_ok_wf; [exact Hc|]; apply elem_of_app; left; by eapply list_elem_of_lookup_2|].
  split_and!.
  - intros b (j & Hj)%list_elem_of_lookup. pose proof (lookup_lt_Some _ _ _ Hj).
    rewrite (Hh j b (lookup_app_l_Some _ _ _ _ Hj)). lia.
  - intros b (j & Hj)%list_elem_of_lookup. rewrite (Hh (length lt + j)%nat b) by (rewrite lookup_app_r by lia;
      by replace (length lt + j - length lt)%nat with j by lia). lia.
  - intros b Hb'. rewrite (Hh (length lt + 0)%nat b) by (rewrite lookup_app_r by lia;
      replace (length lt + 0 - length lt)%nat with 0%nat by lia; by destruct lp). lia.
Qed.
(** The permanent database is asked for the block before the temporary ones. *)
Lemma permanent_proof c lt lp ps rs w bl : center_inv c lt lp ps rs w -> height_ok (ab_height bl) ->
  (forall b, b ∈ lt -> ab_height bl <= ab_height b) -> (forall b, b ∈ lp -> ab_height b <= ab_height bl - 1) ->
  (forall b, head lp = Some b -> ab_height b = ab_height bl - 1) ->
  let r := chain_last_proof lp in
  p_SuffrageProofByBlockHeight (wrap_s 64 (ab_height bl - 1)) (c_perm c) (w_disk w) = Ok (r, bool_decide (is_Some r)).
Proof.
  intros I Hok Hlt Hlp Hhd. cbv zeta. pose proof (ci_perm _ _ _ _ _ _ I) as Hp. rewrite wrap_s_small by (unfold height_ok in Hok; lia).
  destruct lp as [|b0 lp].
  { unfold p_SuffrageProofByBlockHeight, p_LastBlockMap. by rewrite (pm_mp _ _ _ _ Hp). }
  pose proof (chain_ok_app _ _ (ci_chain _ _ _ _ _ _ I)) as Hc.
  pose proof (bw_height_ok _ (chain_ok_wf _ _ Hc (list_elem_of_here _ _))) as Ho0. pose proof (Hhd b0 eq_refl) as Hh0.
  rewrite (p_SuffrageProofByBlockHeight_ok _ (b0 :: lp) (last ps) w); [|done|done|by rewrite <- Hh0|].
  - unfold proof_at_answer. change (head (b0 :: lp)) with (Some b0). cbv iota beta.
    destruct (Z.ltb_spec (ab_height b0) (ab_height bl - 1)); [lia|]. by rewrite chain_proof_at_all.
  - intros h Ho Hle. eapply center_absent; [exact I|]. intros t b p T Hb. specialize (Hlt b Hb).
    pose proof (sh_proof_at _ _ (ts_view _ _ _ _ T) h Ho) as F. simpl in F. by destruct (Z.eqb_spec h (ab_height b)); [lia|].
Qed.
Lemma c_SuffrageProofByBlockHeight_ok c lt lp ps rs w height : center_inv c lt lp ps rs w -> height_ok height ->
  (forall b, last lt = Some b -> ab_height b <= height) ->
  let r := proof_at_answer (lt ++ lp) height in
  c_SuffrageProofByBlockHeight height c w = (Ok (r, bool_decide (is_Some r)), w).
Proof.
  intros I Hok Hold. cbv zeta. unfold c_SuffrageProofByBlockHeight.
  destruct (Z.ltb_spec height GenesisHeight) as [Hlt|_]; [unfold height_ok, GenesisHeight in *; lia|].
  pose proof (ci_chain _ _ _ _ _ _ I) as Hc. pose proof (ci_perm _ _ _ _ _ _ I) as Hp.
  destruct (c_temps c) as [|t0 ts] eqn:Ets.
  { pose proof (center_length _ _ _ _ _ _ I) as Hl. rewrite Ets in Hl. destruct lt; [|done].
    pose proof (ci_temps _ _ _ _ _ _ I) as F. rewrite Ets in F. inversion F. subst. unfold from_disk.
    rewrite (p_SuffrageProofByBlockHeight_ok _ _ _ _ height Hp Hc Hok); [done|]. by intros h _ _ q Hq. }
  destruct (center_last _ _ _ _ _ _ _ _ I Ets) as (tl & bl & -> & Hbl & Hhl & Hokl & Hge & Hlp & Hhd).
  destruct (center_head _ _ _ _ _ _ _ _ I Ets) as (b0 & lt0 & Elt & Hh0 & Hmax). rewrite Hh0, Hhl.
  unfold proof_at_answer. assert (head (lt ++ lp) = Some b0) as -> by (by rewrite Elt).
  destruct (Z.ltb_spec (ab_height b0) height) as [|Hle]; [done|]. specialize (Hold bl Hbl).
  pose proof (findTemp_ok _ _ _ _ _ _ height I ltac:(unfold height_ok, i64 in *; lia)) as Hf.
  assert (chain_last_proof lp = chain_proof_at lp height) as Elp.
  { symmetry. apply chain_proof_at_all. intros b Hb. specialize (Hlp b Hb). lia. }
  destruct (findTemp height c) as [th|].
  - destruct Hf as (i & b & p & Hi & Hb & _ & Hhb & T). rewrite (ts_proof _ _ _ _ T).
    destruct (ab_proof b) as [pb|] eqn:Epb.
    + assert (chain_proof_at (lt ++ lp) height = Some pb) as ->; [|done].
      apply (chain_proof_at_Some _ height b pb Hc); [apply elem_of_app; left; by eapply list_elem_of_lookup_2|done|lia|].
      intros. lia.
    + rewrite <- Ets. rewrite (first_of_ok _ (fun b => if height <? ab_height b then None else ab_proof b) c lt lp ps rs w I).
      2:{ intros t b' q T'. rewrite (t_Height_ok _ _ _ _ T'), (ts_proof _ _ _ _ T'). done. }
      unfold chain_proof_at. rewrite first_some_app. fold (chain_proof_at lt height) (chain_proof_at lp height). rewrite <- Elp.
      destruct (chain_proof_at lt height); [done|]. unfold from_disk.
      by rewrite (permanent_proof c lt lp ps rs w bl I Hokl Hge Hlp Hhd).
  - exfalso. destruct (last_at _ _ Hbl) as (n & Hn & Hlen).
    pose proof (chain_ok_height (lt ++ lp) n b0 bl Hc ltac:(by rewrite Elt) (lookup_app_l_Some _ _ _ _ Hn)) as Hhn.
    destruct (lookup_lt_is_Some_2 lt (Z.to_nat (ab_height b0 - height))) as [b Hb]; [lia|].
    apply (Hf b); [by eapply list_elem_of_lookup_2|].
    rewrite (chain_ok_height (lt ++ lp) _ b0 b Hc ltac:(by rewrite Elt) (lookup_app_l_Some _ _ _ _ Hb)). lia.
Qed.
(** Below the temporary databases the answer is the last proof of the permanent one,
    whatever the height. *)
Lemma c_SuffrageProofByBlockHeight_below c lt lp ps rs w height bl : center_inv c lt lp ps rs w -> 0 <= height ->
  last lt = Some bl -> height < ab_height bl ->
  let r := chain_last_proof lp in c_SuffrageProofByBlockHeight height c w = (Ok (r, bool_decide (is_Some r)), w).
Proof.
  intros I Hh Hl Hlt. cbv zeta. unfold c_SuffrageProofByBlockHeight.
  destruct (Z.ltb_spec height GenesisHeight) as [|_]; [unfold GenesisHeight in *; lia|].
  destruct (c_temps c) as [|t0 ts] eqn:Ets.
  { pose proof (center_length _ _ _ _ _ _ I) as Hlen. rewrite Ets in Hlen. by destruct lt. }
  destruct (center_last _ _ _ _ _ _ _ _ I Ets) as (tl & bl' & -> & Hbl & Hhl & Hokl & Hge & Hlp & Hhd).
  rewrite Hl in Hbl. injection Hbl as <-.
  destruct (center_head _ _ _ _ _ _ _ _ I Ets) as (b0 & lt0 & Elt & Hh0 & _). rewrite Hh0, Hhl.
  assert (ab_height bl <= ab_height b0) by (apply Hge; rewrite Elt; apply list_elem_of_here).
  destruct (Z.ltb_spec (ab_height b0) height) as [|_]; [lia|].
  pose proof (findTemp_ok _ _ _ _ _ _ height I ltac:(unfold height_ok, i64 in *; lia)) as Hf.
  destruct (findTemp height c) as [th|].
  - destruct Hf as (i & b & p & _ & Hb & _ & <- & _). specialize (Hge b (list_elem_of_lookup_2 _ _ _ Hb)). lia.
  - unfold from_disk. by rewrite (permanent_proof c lt lp ps rs w bl I Hokl Hge Hlp Hhd).
Qed.
End workers.
End laws.
