(* ===== verification/CenterHistory.v ===== *)
(** * The databases answer like the chain of blocks

    Saving a block, merging, also when a merge stops half-way, and removing keep
    [center_inv] ([CenterLaws]); so after any history of a center its reads answer
    like the list of the blocks that were saved, which is the contract of
    [isaac/database/center.go]. *)
From S2P Require Import Prelude FixedTree Point Vote Slice Ballot Voteproof LockedMap Batch Block State SuffrageState SuffrageProof Bytes Frame Leveldb Tempdb Center Stored CenterLaws.

Open Scope Z_scope.

Section laws.
Context `{Crypto} `{!HashLaws} {D : Type} `{LevelDBLaws D} {C : Type -> Type} `{GCacheLaws C} {E : Type} `{EncodersLaws E}.
Context `{!Codec E St, !Codec E BlockMap, !Codec E SuffrageProof}.
Context `{!CodecLaws E St, !CodecLaws E BlockMap, !CodecLaws E SuffrageProof} {P : Type} `{Policies P}.
Abbreviation db := (DB D C).
Abbreviation world := (World D C).
Abbreviation temp := (TempLeveldb E P).
Abbreviation perm := (LeveldbPermanent E P).
Abbreviation center := (CenterDB E P).
Abbreviation shown := (shows (E := E)).

(** *** Saving a block *)
Lemma elem_of_omap_id id (l : list temp) : id ∈ omap cache_id l <-> exists t, t ∈ l /\ cache_id t = Some id.
Proof. apply list_elem_of_omap. Qed.
Lemma center_inv_elsewhere c lt lp ps rs w w' p cache : center_inv c lt lp ps rs w ->
  temp_prefix p -> p ∉ ps ++ rs -> (forall id, cache = Some id -> id ∉ omap cache_id (c_temps c ++ c_removed c)) ->
  elsewhere p cache w w' -> center_inv c lt lp ps rs w'.
Proof.
  intros I Hp Hn Hid [W1 W2 W3 W4]. pose proof I as [I1 I2 I3 I4 I5 I6 I7 I8].
  assert (forall q x, q ∈ ps ++ rs -> ldb_Get (w_disk w') (q ++ x) = ldb_Get (w_disk w) (q ++ x)) as Hd.
  { intros q x Hq. apply W1. rewrite Forall_forall in I3. apply temp_apart; [done|by apply I3|]. intros ->. done. }
  assert (forall t id, t ∈ c_temps c ++ c_removed c -> cache_id t = Some id -> w_stcaches w' !! id = w_stcaches w !! id) as Hc.
  { intros t id Ht Hi. apply W2. intros ->. apply (Hid id eq_refl). apply elem_of_omap_id. by exists t. }
  split; try done.
  - eapply Forall3_change; [exact I1|]. intros i t b q Ht _ Hq T. eapply temp_shows_ext; [exact T|..].
    + intros x. apply Hd, elem_of_app. left. by eapply list_elem_of_lookup_2.
    + intros id. apply Hc, elem_of_app. left. by eapply list_elem_of_lookup_2.
  - rewrite Forall_forall in I6 |- *. intros t Ht id Hi. rewrite (Hc t); [by eapply I6|by apply elem_of_app; right|done].
  - eapply perm_shows_ext; [exact I7|..]; [| |done|done].
    + intros x. by apply W1, perm_apart.
    + intros q x (i & Hi & _)%last_at. apply Hd, elem_of_app. left. by eapply list_elem_of_lookup_2.
Qed.

Lemma t_Merge_ok t b p w : temp_shows t b p w -> temp_prefix p -> height_ok (ab_height b) ->
  exists w', t_Merge t w = (Ok tt, w') /\ temp_shows t b p w' /\ elsewhere p None w w'.
Proof.
  intros T Hp Hh. pose proof T as [T1 T2 T3 T4 T5 T6 T7 T8 T9 T10].
  destruct (ps_Put_ok p (KMerged (ab_height b)) [] [] w w) as (d' & Ep & Hd); [done|].
  assert (forall k, dkey_ok k -> view p d' k = or_else (put_of k [(KMerged (ab_height b), [])]) (view p (w_disk w) k)) as Hv.
  { intros k Hk. unfold view. rewrite Hd by (apply Forall_app; split; [apply T2|apply kbytes_bytes]).
    apply after_raw; [|done]. by apply Forall_singleton. }
  exists (set_disk d' w). split.
  - unfold t_Merge. rewrite T1, (t_Height_ok _ _ _ _ T). simpl kbytes in Ep. rewrite (db_bind_Ok _ _ _ _ _ Ep).
    unfold from_disk, mbind, db_bind. cbv beta. rewrite ps_Iter_list by done. set (r := {| r_Start := _; r_Limit := _ |}).
    assert (ps_list p r (w_disk (set_disk d' w)) = []) as ->; [|reflexivity].
    destruct (ps_list p r _) as [|[k v] l] eqn:El; [done|]. exfalso.
    assert ((k, v) ∈ ps_list p r (w_disk (set_disk d' w))) as Hin by (rewrite El; apply list_elem_of_here).
    apply ps_list_elem in Hin as [Hg [_ Hr]]; [|done|done]. simpl in Hg.
    assert (exists x y, k = 2 :: x :: y) as (x & y & ->).
    { assert (is_bytes (p ++ k)) as Hb by (by eapply ldb_Get_bytes). rewrite Hd in Hg by done. unfold after in Hg.
      simpl in Hg. unfold batch_get in Hg. simpl in Hg. case_bool_decide as He.
      - apply app_inv_head in He as <-. apply (kbytes_cons (KMerged _)).
      - simpl in Hg. destruct (T4 k) as (k' & _ & ->); [by eexists|]. apply kbytes_cons. }
    by vm_compute in Hr.
  - split.
    + split; try done.
      * destruct T3 as [S1 S2 S3 S4 S5 S6]. split; intros; simpl w_disk; rewrite Hv; simpl; auto.
      * intros x [v Hx]. simpl in Hx. assert (is_bytes (p ++ x)) as Hb by (by eapply ldb_Get_bytes).
        rewrite Hd in Hx by done. unfold after in Hx. simpl in Hx. unfold batch_get in Hx. simpl in Hx. case_bool_decide as He.
        -- apply app_inv_head in He as <-. by exists (KMerged (ab_height b)).
        -- simpl in Hx. apply T4. by eexists.
    + split; try done. intros x Hx. destruct (decide (is_bytes x)) as [Hb|Hb]; [|by rewrite !ldb_Get_not_bytes].
      simpl. rewrite Hd by done. by apply after_raw_out.
Qed.

Lemma perm_shows_oldest p l q w : perm_shows p l None w -> perm_shows p l q w.
Proof.
  intros [P1 (v0 & P2 & P2') P3 P4 P5 P6 P7 P8]. split; try done. exists v0. split; [done|].
  intros k Hk. destruct (P2' k Hk) as [?|(q' & ? & _)]; [by left|done].
Qed.
(** A block write of its own: no database has its prefix or its cache. *)
Record apart (p : bytes) (cache : option cache_ref) (c : center) : Prop := {
  ap_prefix t : t ∈ c_temps c ++ c_removed c -> t_pst t <> Some p;
  ap_cache t id pf : t ∈ c_temps c ++ c_removed c -> cache = Some (id, pf) -> cache_id t <> Some id
}.
Lemma center_prefixes c lt lp ps rs w : center_inv c lt lp ps rs w ->
  Forall2 (fun t p => t_pst t = Some p) (c_temps c ++ c_removed c) (ps ++ rs).
Proof.
  intros I. apply Forall2_app; [|apply I].
  pose proof (ci_temps _ _ _ _ _ _ I) as F. clear I. induction F as [|t b p ts bs ps' T F IH]; [constructor|].
  constructor; [apply T|done].
Qed.
Lemma apart_prefix p cache c lt lp ps rs w : center_inv c lt lp ps rs w -> apart p cache c -> p ∉ ps ++ rs.
Proof.
  intros I Ha (i & Hi)%list_elem_of_lookup. destruct (Forall2_lookup_r _ _ _ _ _ (center_prefixes _ _ _ _ _ _ I) Hi) as (t & Ht & Hp).
  eapply ap_prefix; [exact Ha|by eapply list_elem_of_lookup_2|done].
Qed.
Lemma apart_cache p cache c id : apart p cache c -> fst <$> cache = Some id -> id ∉ omap cache_id (c_temps c ++ c_removed c).
Proof.
  intros Ha Hc (t & Ht & Hid)%elem_of_omap_id. destruct cache as [[id' pf]|]; [|done]. injection Hc as ->.
  by eapply ap_cache.
Qed.
Lemma center_preheight c lt lp ps rs w : center_inv c lt lp ps rs w ->
  preheight c = match lt ++ lp with b :: _ => ab_height b | [] => NilHeight end.
Proof.
  intros I. unfold preheight. destruct (c_temps c) as [|t0 ts] eqn:Ets.
  - pose proof (center_length _ _ _ _ _ _ I) as Hl. rewrite Ets in Hl. destruct lt; [|done]. simpl.
    unfold p_LastBlockMap. rewrite (pm_mp _ _ _ _ (ci_perm _ _ _ _ _ _ I)). by destruct lp.
  - destruct (center_head _ _ _ _ _ _ _ _ I Ets) as (b0 & lt' & -> & Hh & _). done.
Qed.

Lemma save_ok c lt lp ps rs w p (bw0 : BlockWrite E) jobs m proof : center_inv c lt lp ps rs w ->
  started p bw0 w -> temp_prefix p -> apart p (bw_stcache bw0) c -> bw_height bw0 = bm_height m ->
  block_ok (bw_enc bw0) jobs m proof -> chain_ok (block_of jobs m proof :: lt ++ lp) ->
  exists bw w1 c' w2, write_block jobs m proof bw0 w = (Ok bw, w1) /\ MergeBlockWriteDatabase bw c w1 = (Ok c', w2) /\
    center_inv c' (block_of jobs m proof :: lt) lp (p :: ps) rs w2.
Proof.
  intros I S Hp Ha Hh B Hc.
  destruct (write_block_ok p bw0 w jobs m proof S Hh B) as (bw & w1 & t & E1 & Et & Hts & T & Hel).
  pose proof (apart_prefix _ _ _ _ _ _ _ _ I Ha) as Hn.
  assert (center_inv c lt lp ps rs w1) as I1.
  { eapply center_inv_elsewhere; [exact I|exact Hp|exact Hn| |exact Hel]. intros id Hid. by eapply apart_cache. }
  destruct (t_Merge_ok t _ p w1 T Hp (bo_height _ _ _ _ B)) as (w2 & E2 & T2 & Hel2).
  assert (center_inv c lt lp ps rs w2) as I2 by (by apply (center_inv_elsewhere c lt lp ps rs w1 w2 p None)).
  exists bw, w1, (set_temps (t :: c_temps c) c), w2. split; [done|]. split.
  - unfold MergeBlockWriteDatabase. rewrite (db_bind_Ok _ _ _ _ _ Et).
    rewrite (center_preheight _ _ _ _ _ _ I), (t_Height_ok _ _ _ _ T).
    assert ((NilHeight <? match lt ++ lp with b :: _ => ab_height b | [] => NilHeight end) &&
      negb (ab_height (block_of jobs m proof) =? wrap_s 64 (match lt ++ lp with b :: _ => ab_height b | [] => NilHeight end + 1)) = false) as ->.
    { inversion Hc as [|? ? Hwf Hprev _ Hc']. subst. destruct (lt ++ lp) as [|b' l]; [done|].
      pose proof (bw_height_ok _ Hwf) as Hok. rewrite Hprev in *. unfold height_ok in Hok.
      inversion Hc' as [|? ? Hwf' _ _ _]. pose proof (bw_height_ok _ Hwf') as Hok'. unfold height_ok in Hok'.
      rewrite wrap_s_small by lia. by rewrite Z.eqb_refl, andb_false_r. }
    by rewrite (db_bind_Ok _ _ _ _ _ E2).
  - destruct I2 as [I3 I4 I5 I6 I7 I8 I9 I10]. split; simpl.
    + by constructor.
    + done.
    + by constructor.
    + by constructor.
    + unfold cache_id at 1. rewrite Hts. destruct (bw_stcache bw0) as [[id pf]|] eqn:Ec; simpl; [|done].
      constructor; [|done]. by eapply apart_cache.
    + done.
    + destruct ps as [|q ps]; [|exact I9]. by apply perm_shows_oldest.
    + done.
Qed.

(** A block, as those that wrote the block before it make the next one; its height is
    not asked for, [MergeBlockWriteDatabase] looks at it. *)
Definition follows (b : ABlock) (l : list ABlock) : Prop :=
  block_wf b /\
  match ab_proof b, chain_last_proof l with Some p, Some p' => SuffrageHeight p = SuffrageHeight p' + 1 | _, _ => True end.
Lemma merged_next c lt lp ps rs w p (bw0 : BlockWrite E) jobs m proof bw w1 c' w2 : center_inv c lt lp ps rs w ->
  started p bw0 w -> bw_height bw0 = bm_height m -> block_ok (bw_enc bw0) jobs m proof -> follows (block_of jobs m proof) (lt ++ lp) ->
  write_block jobs m proof bw0 w = (Ok bw, w1) -> MergeBlockWriteDatabase bw c w1 = (Ok c', w2) ->
  chain_ok (block_of jobs m proof :: lt ++ lp).
Proof.
  intros I S Hh B [Hwf Hsuf] E1 E2. constructor; [done| |done|apply I].
  destruct (write_block_ok p bw0 w jobs m proof S Hh B) as (bw' & w1' & t & E1' & Et & _ & T & _).
  rewrite E1 in E1'. injection E1' as <- <-. unfold MergeBlockWriteDatabase in E2. rewrite (db_bind_Ok _ _ _ _ _ Et) in E2.
  rewrite (center_preheight _ _ _ _ _ _ I), (t_Height_ok _ _ _ _ T) in E2. destruct (lt ++ lp) as [|b l] eqn:El; [done|].
  assert (block_wf b) as Hb by (eapply chain_ok_wf; [apply I|]; rewrite El; apply list_elem_of_here).
  pose proof (bw_height_ok _ Hb) as Hok. unfold height_ok in Hok. rewrite wrap_s_small in E2 by lia.
  rewrite (proj2 (Z.ltb_lt NilHeight _)) in E2 by (unfold NilHeight; lia). cbn [andb] in E2.
  by destruct (Z.eqb_spec (ab_height (block_of jobs m proof)) (ab_height b + 1)).
Qed.

(** *** Merging *)
Definition writes (bs : list batch) (d : D) : D := foldl (fun d b => Storage_Batch b d) d bs.
Lemma writes_get bs (d : D) x : is_bytes x -> ldb_Get (writes bs d) x = after (mjoin bs) d x.
Proof.
  intros Hx. revert d. induction bs as [|b bs IH]; intros d; [done|].
  change (writes (b :: bs) d) with (writes bs (Storage_Batch b d)). rewrite IH. unfold after. rewrite Get_Storage_Batch by done.
  change (mjoin (b :: bs)) with (b ++ mjoin bs). rewrite batch_get_app. unfold after. by destruct (batch_get x (mjoin bs)).
Qed.
Definition moved (kv : bytes * bytes) : bytes * option bytes := (perm_prefix ++ kv.1, Some kv.2).
Lemma merge_steps limit l jobs b : exists jobs' b',
  iter (merge_step limit (Some perm_prefix)) l (jobs, b) = Ok (jobs', b') /\ mjoin jobs' ++ b' = mjoin jobs ++ b ++ (moved <$> l).
Proof.
  revert jobs b. induction l as [|[k v] l IH]; intros jobs b.
  { exists jobs, b. split; [done|]. by rewrite app_nil_r. }
  cbn [iter]. assert (merge_step limit (Some perm_prefix) k v (jobs, b) =
    Ok (if (length b =? limit)%nat then (jobs ++ [b], [] ++ [moved (k, v)]) else (jobs, b ++ [moved (k, v)]), true)) as ->.
  { unfold merge_step. simpl. by destruct (length b =? limit)%nat. }
  run. destruct (length b =? limit)%nat.
  - destruct (IH (jobs ++ [b]) ([] ++ [moved (k, v)])) as (j & b' & E1 & E2). exists j, b'. split; [exact E1|].
    rewrite E2, join_app. simpl. by rewrite app_nil_r, <- app_assoc.
  - destruct (IH jobs (b ++ [moved (k, v)])) as (j & b' & E1 & E2). exists j, b'. split; [exact E1|].
    rewrite E2. by rewrite <- app_assoc.
Qed.
Lemma merge_batches_ok (p : perm) t q (d : D) : p_pst p = Some perm_prefix -> t_pst t = Some q -> is_bytes q ->
  exists jobs, merge_batches p t d = Ok jobs /\ mjoin jobs = moved <$> reverse (ps_list q whole d).
Proof.
  intros Hp Ht Hq. unfold merge_batches. rewrite Hp, Ht, ps_Iter_list by (done || apply whole_given).
  destruct (merge_steps (p_batchlimit p) (reverse (ps_list q whole d)) [] []) as (jobs & b & E1 & E2). rewrite E1. run.
  simpl in E2. eexists. split; [done|]. destruct b as [|op b]; [by rewrite app_nil_r in E2|].
  simpl. rewrite join_app. simpl. by rewrite app_nil_r, E2.
Qed.

(** Workers write some of the batches; when all is well, all of them. *)
Definition run_ok (run : list batch -> list batch * bool) : Prop :=
  forall jobs, (run jobs).1 ⊆ jobs /\ ((run jobs).2 = true -> jobs ⊆ (run jobs).1).
Lemma batch_get_in x o (b : batch) : batch_get x b = Some o -> (x, o) ∈ b.
Proof.
  induction b as [|[k v] b IH] using rev_ind; [done|]. rewrite batch_get_snoc, elem_of_app, list_elem_of_singleton.
  destruct (decide (k = x)) as [->|]; [intros [= ->]; by right|]. intros ?%IH. by left.
Qed.
Lemma elem_of_mjoin {A} (x : A) (ls : list (list A)) : x ∈ mjoin ls <-> exists l, x ∈ l /\ l ∈ ls.
Proof. apply list_elem_of_join. Qed.
Lemma merge_written run jobs q (d : D) : run_ok run -> is_bytes q -> mjoin jobs = moved <$> reverse (ps_list q whole d) ->
  let d' := writes (run jobs).1 d in
  (forall k, ldb_Get d' (perm_prefix ++ k) = ldb_Get d (perm_prefix ++ k) \/
     is_Some (ldb_Get d (q ++ k)) /\ ldb_Get d' (perm_prefix ++ k) = ldb_Get d (q ++ k)) /\
  (forall x, ~ perm_prefix `prefix_of` x -> ldb_Get d' x = ldb_Get d x) /\
  ((run jobs).2 = true -> forall k, ldb_Get d' (perm_prefix ++ k) = or_else (ldb_Get d (q ++ k)) (ldb_Get d (perm_prefix ++ k))).
Proof.
  intros Hrun Hq Hj d'. destruct (Hrun jobs) as [Hsub Hall].
  assert (forall x o, (x, o) ∈ mjoin (run jobs).1 -> exists k v, x = perm_prefix ++ k /\ o = Some v /\ ldb_Get d (q ++ k) = Some v) as Hops.
  { intros x o (b & Hx & Hb)%elem_of_mjoin. apply Hsub in Hb. assert ((x, o) ∈ mjoin jobs) as Hin by (apply elem_of_mjoin; eauto).
    rewrite Hj in Hin. apply list_elem_of_fmap in Hin as ([k v] & [= -> ->] & Hin). rewrite elem_of_reverse in Hin.
    apply ps_list_elem in Hin as [Hg _]; [|done|apply whole_given]. by exists k, v. }
  assert (forall x, ldb_Get d' x = after (mjoin (run jobs).1) d x) as Hd'.
  { intros x. destruct (decide (is_bytes x)) as [Hx|Hx]; [by apply writes_get|]. rewrite (ldb_Get_not_bytes d') by done.
    unfold after. rewrite ldb_Get_not_bytes by done. destruct (batch_get x (mjoin (run jobs).1)) as [o|] eqn:Eb; [|done].
    apply batch_get_in, Hops in Eb as (k & v & -> & _ & Hg). destruct Hx. apply ldb_Get_bytes in Hg.
    apply Forall_app in Hg as [_ Hk]. apply Forall_app. split; [apply perm_prefix_bytes|done]. }
  split_and!.
  - intros k. rewrite Hd'. unfold after. destruct (batch_get (perm_prefix ++ k) (mjoin (run jobs).1)) as [o|] eqn:Eb; [|by left].
    right. apply batch_get_in, Hops in Eb as (k' & v & <-%app_inv_head & -> & Hg). rewrite Hg. split; [by eexists|done].
  - intros x Hx. rewrite Hd'. unfold after. destruct (batch_get x (mjoin (run jobs).1)) as [o|] eqn:Eb; [|done].
    apply batch_get_in, Hops in Eb as (k & v & -> & _). destruct Hx. by apply prefix_app_r.
  - intros Hdone k. specialize (Hall Hdone). rewrite Hd'. unfold after.
    destruct (batch_get (perm_prefix ++ k) (mjoin (run jobs).1)) as [o|] eqn:Eb.
    + apply batch_get_in, Hops in Eb as (k' & v & <-%app_inv_head & -> & Hg). by rewrite Hg.
    + destruct (ldb_Get d (q ++ k)) as [v|] eqn:Eq; [|done]. exfalso. apply batch_get_None in Eb. apply Eb.
      apply list_elem_of_fmap. exists (moved (k, v)). split; [done|].
      assert (moved (k, v) ∈ mjoin jobs) as Hin.
      { rewrite Hj. apply list_elem_of_fmap. exists (k, v). split; [done|]. rewrite elem_of_reverse.
        apply ps_list_elem; [done|apply whole_given|]. split; [done|apply in_whole]. }
      apply elem_of_mjoin in Hin as (b & ? & ?). apply elem_of_mjoin. exists b. split; [done|by apply Hall].
Qed.

(** **** The caches *)
(** While block [b] is merged over [l], the caches of the permanent database may
    have states of both. *)
Record merging (b : ABlock) (l : list ABlock) (t : temp) (q : bytes) (w0 w : world) : Prop := {
  mg_temp : temp_shows t b q w;
  mg_disk : w_disk w = w_disk w0;
  mg_others id : cache_id t <> Some id -> w_stcaches w !! id = w_stcaches w0 !! id;
  mg_pstcache c k st : w_pstcache w = Some c -> cached c k = Some st ->
    pt_state (chain_parts l) k = Some st \/ ab_states b !! k = Some st;
  mg_popcache c h x : w_popcache w = Some c -> cached c h = Some x -> pt_instate (chain_parts l) h \/ ab_instate b h
}.
Lemma merging_pstcache b l t q w0 w c : merging b l t q w0 w ->
  (forall k st, cached c k = Some st -> pt_state (chain_parts l) k = Some st \/ ab_states b !! k = Some st) ->
  merging b l t q w0 (set_pstcache (Some c) w).
Proof.
  intros [M1 M2 M3 M4 M5] Hc. split; try done; [|by intros c' k st [= <-]; apply Hc].
  eapply temp_shows_ext; [exact M1|done|done].
Qed.
Lemma collect_cached b (keys : list string) (c : C (option St * bool)) l :
  (forall k i, cached c k = Some i -> i = found_in b k) ->
  exists l' c', gc_traverse collect_states keys c l = (l', c') /\
    (forall k i, cached c' k = Some i -> i = found_in b k) /\
    forall o, o ∈ l' -> o ∈ l \/ exists k st, o = Some st /\ ab_states b !! k = Some st.
Proof.
  revert c l. induction keys as [|k keys IH]; intros c l Hc; [exists l, c; split_and!; auto|].
  simpl. destruct (gc_Get k c) as [v c'] eqn:Eg.
  assert (forall k i, cached c' k = Some i -> i = found_in b k) as Hc'.
  { intros k' i Hk. apply Hc, (cached_Get c k). by rewrite Eg. }
  destruct v as [i|]; [|by apply IH].
  assert (i = found_in b k) as -> by (apply Hc; unfold cached; by rewrite Eg).
  unfold collect_states, found_in. simpl.
  destruct (ab_states b !! k) as [st|] eqn:Est; simpl; [|by apply IH].
  destruct (IH c' (l ++ [Some st]) Hc') as (l' & c2 & E1 & Hc2 & Hl). exists l', c2. split; [done|]. split; [done|].
  intros o [Ho|?]%Hl; [|by right]. apply elem_of_app in Ho as [?|Ho%list_elem_of_singleton]; [by left|subst o].
  right. by exists k, st.
Qed.
Lemma merge_states_ok b l t q w0 sts w : merging b l t q w0 w ->
  (forall k st, ab_states b !! k = Some st -> s_k st = k) ->
  (forall o, o ∈ sts -> exists k st, o = Some st /\ ab_states b !! k = Some st) ->
  exists w', foldM (fun st _ => match st with None => lift Panic | Some _ => p_setStateToCache st end) sts tt w = (Ok tt, w') /\
    merging b l t q w0 w'.
Proof.
  intros M Hk. revert w M. induction sts as [|o sts IH]; intros w M Ho; [by exists w|].
  destruct (Ho o (list_elem_of_here _ _)) as (k & st & -> & Hst). cbn [foldM].
  assert (exists w1, p_setStateToCache (Some st) w = (Ok tt, w1) /\ merging b l t q w0 w1) as (w1 & E1 & M1).
  { unfold p_setStateToCache. destruct (w_pstcache w) as [c|] eqn:Ec; [|by exists w].
    destruct (gc_Get (s_k st) c) as [prev c'] eqn:Eg.
    assert (forall k st', cached c' k = Some st' -> pt_state (chain_parts l) k = Some st' \/ ab_states b !! k = Some st') as Hc'.
    { intros k' st' Hk'. eapply mg_pstcache; [exact M|exact Ec|]. apply (cached_Get c (s_k st)). by rewrite Eg. }
    eexists. split; [done|]. apply merging_pstcache; [done|]. intros k' st' Hk'.
    destruct (match prev with Some prev => s_height st <=? s_height prev | None => false end); [by apply Hc'|].
    apply cached_Set in Hk' as [[-> ->]|[_ ?%Hc']]; [|done]. right. by rewrite (Hk _ _ Hst). }
  rewrite (db_bind_Ok _ _ _ _ _ E1). apply IH; [done|]. intros o' Ho'. apply Ho. by apply list_elem_of_further.
Qed.
Lemma merge_operations_ok b l t q w0 (ops : list (string * bool)) w : merging b l t q w0 w ->
  (forall h, (h, true) ∈ ops -> ab_instate b h) ->
  exists w', foldM (fun '(h, found) _ => if found : bool then p_setOperationToCache h else mret tt) ops tt w = (Ok tt, w') /\
    merging b l t q w0 w'.
Proof.
  revert w. induction ops as [|[h found] ops IH]; intros w M Hh; [by exists w|]. cbn [foldM].
  assert (exists w1, (if found then p_setOperationToCache h else mret tt) w = (Ok tt, w1) /\ merging b l t q w0 w1) as (w1 & E1 & M1).
  { destruct found; [|by exists w]. eexists. split; [done|]. destruct M as [M1 M2 M3 M4 M5]. split; try done.
    - eapply temp_shows_ext; [exact M1|done|done].
    - intros c k x. simpl. destruct (w_popcache w) as [c0|] eqn:Ec; [|done]. intros [= <-] [[-> _]|[_ Hk]]%cached_Set.
      + right. apply Hh, list_elem_of_here.
      + by eapply M5. }
  rewrite (db_bind_Ok _ _ _ _ _ E1). apply IH; [done|]. intros. apply Hh. by apply list_elem_of_further.
Qed.
Lemma mergeTempCaches_ok b l t q w0 w : merging b l t q w0 w -> (forall k st, ab_states b !! k = Some st -> s_k st = k) ->
  exists w', mergeTempCaches t w = (Ok tt, w') /\ merging b l t q w0 w'.
Proof.
  intros M Hk. unfold mergeTempCaches.
  match goal with |- exists w', (?m ≫= _) w = _ /\ _ =>
    assert (exists w1, m w = (Ok tt, w1) /\ merging b l t q w0 w1) as (w1 & E1 & M1) end.
  { pose proof (mg_temp _ _ _ _ _ _ M) as T. pose proof (ts_cache _ _ _ _ T) as Hc.
    destruct (t_stcache t) as [[id pf]|] eqn:Eid; [|by exists w]. destruct Hc as (c & Hc & Hi). rewrite Hc. unfold gc_Traverse.
    destruct (collect_cached b (gc_Keys c) c [] Hi) as (sts & c' & E1 & Hc' & Hs). rewrite E1.
    apply (merge_states_ok b l t q w0); [|done|].
    - destruct M as [M1 M2 M3 M4 M5]. split; try done.
      + by eapply temp_cache_update.
      + intros id' Hid. simpl. rewrite lookup_insert_ne; [by apply M3|]. unfold cache_id in Hid. rewrite Eid in Hid. simpl in Hid. congruence.
    - intros o [Ho|?]%Hs; [by apply elem_of_nil in Ho|done]. }
  rewrite (db_bind_Ok _ _ _ _ _ E1). pose proof (mg_temp _ _ _ _ _ _ M1) as T.
  destruct (t_opcache t) as [m|] eqn:Em; [|by exists w1]. apply merge_operations_ok; [done|].
  intros h Hh. apply elem_of_map_to_list in Hh. apply (ts_opcache _ _ _ _ T). unfold t_ExistsInStateOperation. rewrite Em.
  destruct m as [m|]; simpl in Hh; [|by rewrite lookup_empty in Hh]. unfold s_Value, at_key. simpl. by rewrite Hh.
Qed.
Lemma removeStates_ok b l t q w0 keys w : merging b l t q w0 w ->
  exists w', foldM (fun k _ => p_removeStateFromCache k) keys tt w = (Ok tt, w') /\ merging b l t q w0 w' /\
    forall c k st, w_pstcache w' = Some c -> cached c k = Some st ->
      k ∉ keys /\ exists c0, w_pstcache w = Some c0 /\ cached c0 k = Some st.
Proof.
  revert w. induction keys as [|key keys IH]; intros w M.
  { exists w. split; [done|]. split; [done|]. intros c k st Hc Hk. split; [apply not_elem_of_nil|eauto]. }
  cbn [foldM]. set (w1 := set_pstcache ((fun c : C St => gc_Remove key c) <$> w_pstcache w) w).
  assert (forall c k st, w_pstcache w1 = Some c -> cached c k = Some st ->
    k <> key /\ exists c0, w_pstcache w = Some c0 /\ cached c0 k = Some st) as Hw1.
  { intros c k st. unfold w1. simpl. destruct (w_pstcache w) as [c0|]; [|done]. intros [= <-] [? ?]%cached_Remove. eauto. }
  assert (merging b l t q w0 w1) as M1.
  { destruct M as [M1 M2 M3 M4 M5]. split; try done; [by eapply temp_shows_ext; [exact M1|..]|].
    intros c k st Hc Hk. destruct (Hw1 _ _ _ Hc Hk) as (_ & c0 & Hc0 & Hk0). by eapply M4. }
  destruct (IH w1 M1) as (w2 & E2 & M2 & H2'). exists w2.
  change (p_removeStateFromCache key) with (fun w : world => (Ok tt, set_pstcache ((fun c : C St => gc_Remove key c) <$> w_pstcache w) w)).
  split; [exact E2|]. split; [done|]. intros c k st Hc Hk. destruct (H2' _ _ _ Hc Hk) as (Hn & c1 & Hc1 & Hk1).
  destruct (Hw1 _ _ _ Hc1 Hk1) as [Hne ?]. split; [|done]. apply not_elem_of_cons. done.
Qed.

Lemma stateKeyFromKey_ok key : key <> EmptyString -> stateKeyFromKey (kbytes (KState key)) = Ok key.
Proof.
  intros Hk. unfold stateKeyFromKey. simpl kbytes. unfold leveldbStateKey. rewrite NewPrefixKey_1.
  assert ((length (leveldbKeyPrefixState ++ str_bytes key) <? 3)%nat = false) as ->.
  { apply Nat.ltb_ge. rewrite length_app. simpl. destruct key; [done|]. simpl. lia. }
  change (drop 2 (leveldbKeyPrefixState ++ str_bytes key)) with (str_bytes key). by rewrite str_bytes_str.
Qed.
Lemma state_keys_iter (l : list (bytes * bytes)) acc :
  (forall k v, (k, v) ∈ l -> exists key, k = kbytes (KState key) /\ key <> EmptyString) ->
  exists keys, iter (fun key _ a => stateKeyFromKey key ≫= fun k => Ok (a ++ [k], true)) l acc = Ok keys /\
    (forall x, x ∈ acc -> x ∈ keys) /\ forall key v, (kbytes (KState key), v) ∈ l -> key ∈ keys.
Proof.
  revert acc. induction l as [|[k v] l IH]; intros acc Hl.
  { exists acc. split_and!; [done|done|]. intros key v Hin. by apply elem_of_nil in Hin. }
  destruct (Hl k v (list_elem_of_here _ _)) as (key & -> & Hne). cbn [iter]. rewrite stateKeyFromKey_ok by done. run.
  destruct (IH (acc ++ [key])) as (keys & -> & Ha & Hk); [intros; eapply Hl; by apply list_elem_of_further|].
  exists keys. split; [done|]. split.
  - intros x Hx. apply Ha, elem_of_app. by left.
  - intros key' v' [Heq|Hin]%elem_of_cons; [|by eapply Hk]. apply (f_equal fst) in Heq. cbn [fst] in Heq.
    apply kbytes_inj in Heq; [|exact I..]. injection Heq as ->. apply Ha, elem_of_app. right. by apply list_elem_of_singleton.
Qed.
Lemma iterStateKeys_ok t b q w : temp_shows t b q w -> (forall k st, ab_states b !! k = Some st -> k <> EmptyString) ->
  exists keys, iterStateKeys (fun k l => l ++ [k]) t (w_disk w) [] = Ok keys /\
    forall k, is_Some (ab_states b !! k) -> k ∈ keys.
Proof.
  intros T Hnm. assert (is_bytes leveldbKeyPrefixState) as Hb by (apply (bool_decide_unpack _); vm_compute; exact I).
  unfold iterStateKeys. rewrite (ts_pst _ _ _ _ T), ps_Iter_list; [|apply T|by apply prefix_given]. cbv iota.
  destruct (state_keys_iter (ps_list q (BytesPrefix (D := D) leveldbKeyPrefixState) (w_disk w)) []) as (keys & -> & _ & Hk).
  - intros k v Hin. apply ps_list_elem in Hin as [Hg Hr]; [|apply T|by apply prefix_given].
    destruct (ts_only _ _ _ _ T k) as (dk & _ & ->); [by eexists|].
    apply in_BytesPrefix in Hr; [|done|apply kbytes_bytes]. destruct Hr as [r Hr].
    destruct dk; try discriminate Hr. exists key. split; [done|].
    pose proof (sh_state _ _ (ts_view _ _ _ _ T) key) as F. simpl in F. unfold view in F. rewrite Hg in F.
    destruct (ab_states b !! key) as [st|] eqn:Est; [by eapply Hnm|done].
  - exists keys. split; [done|]. intros k [st Hst]. pose proof (sh_state _ _ (ts_view _ _ _ _ T) k) as F. simpl in F.
    rewrite Hst in F. destruct F as (enc & m & v & Hg & _). apply (Hk k v). apply ps_list_elem; [apply T|by apply prefix_given|].
    split; [exact Hg|]. apply in_BytesPrefix; [done|apply kbytes_bytes|]. simpl. unfold leveldbStateKey. rewrite NewPrefixKey_1. by eexists.
Qed.

(** **** The end of a merge *)
Lemma perm_merged p b l t q w w' : perm_shows p l (Some q) w -> temp_shows t b q w -> merging b l t q w' w' ->
  chain_ok (b :: l) ->
  (forall k, ldb_Get (w_disk w') (perm_prefix ++ k) = or_else (ldb_Get (w_disk w) (q ++ k)) (ldb_Get (w_disk w) (perm_prefix ++ k))) ->
  (forall c k st, w_pstcache w' = Some c -> cached c k = Some st -> ab_states b !! k = None) ->
  perm_shows (updateLast t p) (b :: l) None w'.
Proof.
  intros [P1 (v0 & P2 & P2') P3 P4 P5 P6 P7 P8] T M Hc Hd Hn. inversion Hc as [|? ? Hwf Hprev _ _]. subst.
  destruct (ts_mp _ _ _ _ T) as (body & Hmp & _).
  assert (updateLast t p = {| p_pst := p_pst p; p_enc := p_enc p; p_batchlimit := p_batchlimit p; p_lenc := Some (Enc_Hint (t_enc t));
           p_mp := Some (ab_map b, map_meta (ab_map b), body);
           p_policy := match t_policy t with Some x => Some x | None => p_policy p end;
           p_proof := match t_proof t with Some x => Some x | None => p_proof p end |}) as ->.
  { unfold updateLast. rewrite Hmp. destruct (p_mp p) as [[[old meta] ob]|]; [|done]. destruct l as [|b' l]; [done|].
    injection P4 as ->. fold (ab_height b) (ab_height b'). destruct (Z.leb_spec (ab_height b) (ab_height b')); [lia|done]. }
  split; simpl p_pst; simpl p_mp; simpl p_policy.
  - done.
  - exists (fun k => or_else (view q (w_disk w) k) (v0 k)). split; [apply shows_over; [apply T|exact P2]|].
    intros k Hk. left. unfold view in *. rewrite Hd. destruct (P2' k Hk) as [->|(q' & [= <-] & [v Hv] & Heq)]; [done|].
    by rewrite Heq, Hv.
  - intros x [v Hx]. rewrite Hd in Hx. destruct (ldb_Get (w_disk w) (q ++ x)) eqn:Eq; [apply (ts_only _ _ _ _ T); by eexists|].
    apply P3. by eexists.
  - done.
  - unfold p_LastSuffrageProof, chain_last_proof in *. simpl. rewrite <- P5, <- (ts_proof _ _ _ _ T). unfold t_SuffrageProof.
    by destruct (t_proof t).
  - unfold chain_policy in *. simpl. rewrite <- P6. unfold block_policy. rewrite (ts_policy _ _ _ _ T).
    by destruct (ab_states b !! NetworkPolicyStateKey ≫= fun st => s_v st ≫= policy_of).
  - intros c k st Hck Hk. simpl. pose proof (Hn c k st Hck Hk) as Hnk. rewrite Hnk. simpl.
    destruct (mg_pstcache _ _ _ _ _ _ M c k st Hck Hk) as [?|?]; [done|congruence].
  - intros c h x Hc' Hk. simpl. destruct (mg_popcache _ _ _ _ _ _ M c h x Hc' Hk); auto.
Qed.

Section merges.
Variable run : list batch -> list batch * bool.
Hypothesis run_all : run_ok run.

Lemma snoc_last {A} (l : list A) a : last (l ++ [a]) = Some a.
Proof. by rewrite last_snoc. Qed.
Lemma Forall3_snoc_inv {A1 A2 A3} (Q : A1 -> A2 -> A3 -> Prop) l x k m : Forall3 Q (l ++ [x]) k m ->
  exists k' y m' z, k = k' ++ [y] /\ m = m' ++ [z] /\ Forall3 Q l k' m' /\ Q x y z.
Proof.
  intros (k1 & k2 & m1 & m2 & -> & -> & F1 & F2)%Forall3_app_inv_l.
  apply Forall3_cons_inv_l in F2 as (y & k3 & z & m3 & -> & -> & Hq & F3).
  inversion F3. subst. by exists k1, y, m1, z.
Qed.
Lemma merge_ok c lt lp ps rs w ts t : center_inv c lt lp ps rs w -> c_temps c = ts ++ [t] ->
  (exists w', mergeTempDatabaseFromLeveldb run t (c_perm c) w = (Err "context canceled", w') /\
     (exists jobs, (run jobs).2 = false) /\ center_inv c lt lp ps rs w') \/
  exists p' w' lt' b ps' q, mergeTempDatabaseFromLeveldb run t (c_perm c) w = (Ok p', w') /\ lt = lt' ++ [b] /\ ps = ps' ++ [q] /\
    center_inv {| c_perm := p'; c_temps := ts; c_removed := c_removed c ++ [t] |} lt' (b :: lp) ps' (rs ++ [q]) w'.
Proof.
  intros I Ets. pose proof I as [I1 I2 I3 I4 I5 I6 I7 I8]. rewrite Ets in I1.
  apply Forall3_snoc_inv in I1 as (lt' & b & ps' & q & -> & -> & F & T). rewrite snoc_last in I7.
  assert (is_bytes q) as Hq by apply T.
  destruct (merge_batches_ok (c_perm c) t q (w_disk w) (pm_pst _ _ _ _ I7) (ts_pst _ _ _ _ T) Hq) as (jobs & Ej & Hj).
  destruct (merge_written run jobs q (w_disk w) run_all Hq Hj) as (Hd1 & Hd2 & Hd3).
  set (w1 := set_disk (writes (run jobs).1 (w_disk w)) w) in *.
  assert (forall p, temp_prefix p -> forall x, ldb_Get (w_disk w1) (p ++ x) = ldb_Get (w_disk w) (p ++ x)) as Hsame.
  { intros p Hp x. apply Hd2. by apply temp_perm_apart. }
  assert (forall p, p ∈ (ps' ++ [q]) ++ rs -> temp_prefix p) as Hpre by (by rewrite <- Forall_forall).
  assert (forall t' b' p, p ∈ ps' ++ [q] -> temp_shows t' b' p w -> temp_shows t' b' p w1) as Hshow.
  { intros t' b' p Hp T'. eapply temp_shows_ext; [exact T'| |done]. apply Hsame, Hpre, elem_of_app. by left. }
  assert (q ∈ ps' ++ [q]) as Hqin by (apply elem_of_app; right; by apply list_elem_of_singleton).
  assert (forall x, ldb_Get (w_disk w1) (q ++ x) = ldb_Get (w_disk w) (q ++ x)) as Hsq.
  { apply Hsame, Hpre, elem_of_app. by left. }
  unfold mergeTempDatabaseFromLeveldb. destruct (ts_mp _ _ _ _ T) as (body & Hmp & _).
  rewrite Hmp, (pm_pst _ _ _ _ I7), (ts_pst _ _ _ _ T).
  rewrite (db_bind_Ok (from_disk (merge_batches (c_perm c) t)) _ w jobs w) by (unfold from_disk; by rewrite Ej).
  destruct (run jobs) as [written done] eqn:Er. simpl fst in *. simpl snd in *.
  rewrite (db_bind_Ok (write_batches written) _ w tt w1) by done.
  change (writes written (w_disk w)) with (w_disk w1) in Hd1, Hd3.
  destruct done; cbn [negb]; [right|left].
  2:{ exists w1. split; [done|]. split; [exists jobs; by rewrite Er|]. split; try done.
    - rewrite Ets. apply Forall3_app; [|constructor; [by apply Hshow|constructor]].
      eapply Forall3_change; [exact F|]. intros i t' b' p _ _ Hp. apply Hshow. apply elem_of_app. left. by eapply list_elem_of_lookup_2.
    - rewrite snoc_last. destruct I7 as [P1 (v0 & P2 & P2') P3 P4 P5 P6 P7 P8]. split; try done.
      + exists v0. split; [done|]. intros k Hk. unfold view. destruct (Hd1 (kbytes k)) as [Hs|[Hs Heq]].
        * rewrite Hs. destruct (P2' k Hk) as [?|(q' & [= <-] & Hv & Heq)]; [by left|]. right. exists q. unfold view in *.
          by rewrite Hsq.
        * right. exists q. by rewrite Hsq.
      + intros x [v Hx]. destruct (Hd1 x) as [Hs|[Hs Heq]]; [apply P3; rewrite <- Hs; by eexists|by apply (ts_only _ _ _ _ T)]. }
  assert (chain_ok (b :: lp)) as Hc by (rewrite <- app_assoc in I8; by apply chain_ok_app in I8).
  assert (block_wf b) as Hwf by (apply (chain_ok_wf _ _ Hc), list_elem_of_here).
  assert (merging b lp t q w1 w1) as M1.
  { split; try done; [by apply Hshow|..].
    - intros c0 k st Hc0 Hk. left. by eapply (pm_stcache _ _ _ _ I7).
    - intros c0 h x Hc0 Hk. left. by eapply (pm_popcache _ _ _ _ I7). }
  destruct (mergeTempCaches_ok b lp t q w1 w1 M1 (bw_keys _ Hwf)) as (w2 & E2 & M2).
  destruct (iterStateKeys_ok t b q w2 (mg_temp _ _ _ _ _ _ M2) (bw_named _ Hwf)) as (keys & Ek & Hkeys).
  destruct (removeStates_ok b lp t q w1 keys w2 M2) as (w3 & E3 & M3 & Hgone).
  exists (updateLast t (c_perm c)), w3, lt', b, ps', q. split; [|split; [done|]; split; [done|]].
  { rewrite (db_bind_Ok _ _ _ _ _ E2).
    rewrite (db_bind_Ok (from_disk (fun d => iterStateKeys (fun k l => l ++ [k]) t d [])) _ w2 keys w2) by (unfold from_disk; by rewrite Ek).
    by rewrite (db_bind_Ok _ _ _ _ _ E3). }
  destruct M3 as [M3t M3d M3o M3p M3q].
  assert (NoDup (omap cache_id (ts ++ [t] ++ c_removed c))) as Hnd by (by rewrite Ets, <- app_assoc in I5).
  assert (forall t' id, t' ∈ ts ++ c_removed c -> cache_id t' = Some id -> cache_id t <> Some id) as Hother.
  { intros t' id Ht' Hid Hid'. rewrite omap_app, omap_app in Hnd. simpl in Hnd. rewrite Hid' in Hnd.
    assert (omap cache_id ts ++ ([id] ++ omap cache_id (c_removed c)) ≡ₚ id :: omap cache_id ts ++ omap cache_id (c_removed c)) as Hperm
      by (simpl; by rewrite Permutation_middle).
    simpl in Hperm. rewrite Hperm in Hnd. apply NoDup_cons in Hnd as [Hnd _]. apply Hnd. rewrite <- omap_app. by apply elem_of_omap_id; exists t'. }
  split; simpl.
  - eapply Forall3_change; [exact F|]. intros i t' b' p Ht' _ Hp T'.
    eapply temp_shows_ext; [apply (Hshow _ _ p); [apply elem_of_app; left; by eapply list_elem_of_lookup_2|exact T']|..].
    + intros x. by rewrite M3d.
    + intros id Hid. apply M3o. eapply Hother; [|exact Hid]. apply elem_of_app. left. by eapply list_elem_of_lookup_2.
  - apply Forall2_app; [done|]. constructor; [apply T|constructor].
  - assert (ps' ++ rs ++ [q] ≡ₚ (ps' ++ [q]) ++ rs) as -> by (by rewrite <- app_assoc, (Permutation_app_comm rs)). done.
  - assert (ps' ++ rs ++ [q] ≡ₚ (ps' ++ [q]) ++ rs) as -> by (by rewrite <- app_assoc, (Permutation_app_comm rs)). done.
  - assert (ts ++ c_removed c ++ [t] ≡ₚ ts ++ [t] ++ c_removed c) as -> by (by rewrite (Permutation_app_comm (c_removed c))). done.
  - apply Forall_app. split.
    + rewrite Forall_forall in I6 |- *. intros t' Ht' id Hid. rewrite M3o; [by eapply I6|].
      eapply Hother; [|exact Hid]. apply elem_of_app. by right.
    + apply Forall_singleton. intros id Hid. pose proof (ts_cache _ _ _ _ M3t) as Hcache. unfold cache_id in Hid.
      destruct (t_stcache t) as [[id' pf]|]; [|done]. injection Hid as ->. destruct Hcache as (c0 & -> & _). by eexists.
  - apply perm_shows_oldest. eapply perm_merged; [exact I7|exact T| |exact Hc| |].
    + split; try done.
    + intros k. rewrite M3d. by apply Hd3.
    + intros c0 k st Hc0 Hk. destruct (Hgone _ _ _ Hc0 Hk) as [Hnk _]. apply eq_None_not_Some. intros Hs. by apply Hnk, Hkeys.
  - by rewrite <- app_assoc in I8.
Qed.

(** *** Removing *)
Lemma t_Remove_ok (t : temp) r w : t_pst t = Some r -> is_bytes r ->
  (forall id, cache_id t = Some id -> is_Some (w_stcaches w !! id)) ->
  exists t' w', t_Remove t w = (Ok t', w') /\ elsewhere r (cache_id t) w w'.
Proof.
  intros Hr Hb Hid. unfold t_Remove. destruct (t_mp t) as [mp|]; [|by exists t, w].
  rewrite Hr. destruct (RemoveByPrefix_spec r (w_disk w) Hb) as (d' & Ed & Hd).
  rewrite (db_bind_Ok (on_disk (ps_Remove (Some r))) _ w tt (set_disk d' w)).
  2:{ unfold on_disk, to_disk, ps_Remove. simpl. by rewrite Ed. }
  unfold t_clean, purge, cache_id in *. destruct (t_stcache t) as [[id [|]]|]; simpl in *.
  - destruct (Hid id eq_refl) as [c Hc]. unfold mbind, db_bind, stcache_do. simpl. rewrite Hc. eexists _, _. split; [done|]. split; try done.
    + intros x Hx. simpl. by rewrite Hd, decide_False.
    + intros id' Hne. simpl. by rewrite lookup_insert_ne by congruence.
  - eexists _, _. split; [done|]. split; try done. intros x Hx. simpl. by rewrite Hd, decide_False.
  - eexists _, _. split; [done|]. split; try done. intros x Hx. simpl. by rewrite Hd, decide_False.
Qed.
Definition set_removed (ts : list temp) (c : center) : center := {| c_perm := c_perm c; c_temps := c_temps c; c_removed := ts |}.
Lemma remove_removed_ok c lt lp ps rs w l rest : center_inv c lt lp ps rs w -> c_removed c = l ++ rest ->
  exists w' rs', remove_temps l w = (Ok tt, w') /\ center_inv (set_removed rest c) lt lp ps rs' w'.
Proof.
  revert c rs w. induction l as [|t l IH]; intros c rs w I Hrem.
  { exists w, rs. split; [done|]. simpl in Hrem. destruct c. simpl in Hrem. by subst. }
  pose proof I as [I1 I2 I3 I4 I5 I6 I7 I8]. rewrite Hrem in I2, I5, I6.
  inversion I2 as [|? r ? rs' Hr I2']. subst. apply Forall_cons in I6 as [I6 I6'].
  assert (temp_prefix r) as Hp by (rewrite Forall_forall in I3; apply I3; rewrite elem_of_app, elem_of_cons; auto).
  destruct (t_Remove_ok t r w Hr (tp_bytes _ Hp) I6) as (t' & w1 & E1 & Hel).
  rewrite <- Permutation_middle in I4. apply NoDup_cons in I4 as [I4 I4'].
  assert (NoDup (omap cache_id (c_temps c ++ l ++ rest)) /\
    forall id, cache_id t = Some id -> id ∉ omap cache_id (c_temps c ++ l ++ rest)) as [I5' Hid].
  { simpl in I5. rewrite <- Permutation_middle in I5. simpl in I5. destruct (cache_id t) as [id|]; [|by split].
    apply NoDup_cons in I5 as [Hn I5]. split; [done|]. by intros ? [= <-]. }
  assert (center_inv (set_removed (l ++ rest) c) lt lp ps rs' w) as I'.
  { split; try done; simpl. apply Forall_app in I3 as [I3a I3b]. apply Forall_app. split; [done|]. by apply Forall_cons in I3b as []. }
  assert (center_inv (set_removed (l ++ rest) c) lt lp ps rs' w1) as I1'.
  { by eapply (center_inv_elsewhere _ _ _ _ _ w w1 r (cache_id t)). }
  destruct (IH _ _ _ I1' eq_refl) as (w2 & rs2 & E2 & I2''). exists w2, rs2. split; [|exact I2''].
  cbn [remove_temps]. by rewrite (db_bind_Ok _ _ _ _ _ E1).
Qed.
(** The newest ones are removed, the oldest stays. *)
Lemma remove_newest_ok c lt lp ps rs w l rest : center_inv c lt lp ps rs w -> c_temps c = l ++ rest -> rest <> [] ->
  exists w' ps', remove_temps l w = (Ok tt, w') /\ center_inv (set_temps rest c) (drop (length l) lt) lp ps' rs w'.
Proof.
  intros I Htmp Hne. revert c lt ps w I Htmp. induction l as [|t l IH]; intros c lt ps w I Htmp.
  { exists w, ps. split; [done|]. simpl in Htmp. destruct c. simpl in Htmp. by subst. }
  pose proof I as [I1 I2 I3 I4 I5 I6 I7 I8]. rewrite Htmp in I1, I5.
  apply Forall3_cons_inv_l in I1 as (b & lt' & p & ps' & -> & -> & T & I1).
  simpl app in I3, I4, I5. apply Forall_cons in I3 as [Hp I3]. apply NoDup_cons in I4 as [I4 I4'].
  destruct (t_Remove_ok t p w (ts_pst _ _ _ _ T) (tp_bytes _ Hp)) as (t' & w1 & E1 & Hel).
  { intros id Hid. pose proof (ts_cache _ _ _ _ T) as Hc. unfold cache_id in Hid. destruct (t_stcache t) as [[id' pf]|]; [|done].
    injection Hid as ->. destruct Hc as (c0 & -> & _). by eexists. }
  assert (NoDup (omap cache_id ((l ++ rest) ++ c_removed c)) /\
    forall id, cache_id t = Some id -> id ∉ omap cache_id ((l ++ rest) ++ c_removed c)) as [I5' Hid].
  { simpl in I5. destruct (cache_id t) as [id|]; [|by split].
    apply NoDup_cons in I5 as [Hn I5]. split; [done|]. by intros ? [= <-]. }
  assert (center_inv (set_temps (l ++ rest) c) lt' lp ps' rs w) as I'.
  { split; try done; simpl; [|by inversion I8]. assert (last (p :: ps') = last ps') as <-; [|done].
    destruct ps' as [|p' ps']; [|done]. apply Forall3_length_lr in I1. rewrite length_app in I1. destruct rest; [done|]. simpl in I1. lia. }
  assert (center_inv (set_temps (l ++ rest) c) lt' lp ps' rs w1) as I1'.
  { by eapply (center_inv_elsewhere _ _ _ _ _ w w1 p (cache_id t)). }
  destruct (IH _ _ _ _ I1' eq_refl) as (w2 & ps2 & E2 & I2'). exists w2, ps2. split; [|exact I2'].
  cbn [remove_temps]. by rewrite (db_bind_Ok _ _ _ _ _ E1).
Qed.
(** The blocks below a height. *)
Definition chain_below (h : Z) (l : list ABlock) : list ABlock := filter (fun b => ab_height b < h) l.
Lemma chain_below_drop l b0 n h : chain_ok l -> head l = Some b0 -> 
  ab_height b0 - Z.of_nat n < h -> (n = 0%nat \/ h <= ab_height b0 - Z.of_nat n + 1) ->
  chain_below h l = drop n l.
Proof.
  intros Hc H0' Hh Hh'.
  assert (forall l1 l2, (forall b, b ∈ l1 -> h <= ab_height b) -> (forall b, b ∈ l2 -> ab_height b < h) -> chain_below h (l1 ++ l2) = l2) as Hf.
  { unfold chain_below. intros l1 l2 Hl1 Hl2. rewrite filter_app. induction l1 as [|b l1 IH].
    - simpl. induction l2 as [|b l2 IH]; [done|]. rewrite filter_cons_True by (apply Hl2, list_elem_of_here).
      rewrite IH; [done|]. intros. apply Hl2. by apply list_elem_of_further.
    - rewrite filter_cons_False; [apply IH; intros; apply Hl1; by apply list_elem_of_further|].
      specialize (Hl1 b (list_elem_of_here _ _)). lia. }
  rewrite <- (take_drop n l) at 1. apply Hf.
  - intros b (i & Hi)%list_elem_of_lookup. apply lookup_take_Some in Hi as [Hi Hlt]. rewrite (chain_ok_height _ i b0 b Hc H0' Hi). lia.
  - intros b (i & Hi)%list_elem_of_lookup. rewrite lookup_drop in Hi. rewrite (chain_ok_height _ _ b0 b Hc H0' Hi). lia.
Qed.
(** What is above the oldest of the temporary databases can be removed. *)
Lemma RemoveBlocks_ok c lt lp ps rs w height : center_inv c lt lp ps rs w ->
  (forall b, last lt = Some b -> ab_height b < height) ->
  exists c' r w' lt' ps', RemoveBlocks height c w = (Ok (c', r), w') /\ center_inv c' lt' lp ps' rs w' /\
    (lt <> [] -> lt' ++ lp = chain_below height (lt ++ lp)) /\ (lt = [] -> lt' = []) /\
    (r = true <-> exists b, b ∈ lt /\ height <= ab_height b).
Proof.
  intros I Hold. unfold RemoveBlocks. pose proof (ci_chain _ _ _ _ _ _ I) as Hc. destruct (c_temps c) as [|t0 ts] eqn:Ets.
  { exists c, false, w, lt, ps. pose proof (center_length _ _ _ _ _ _ I) as Hl. rewrite Ets in Hl. destruct lt; [|done].
    split; [done|]. split; [done|]. split; [done|]. split; [done|]. split; [done|]. intros (b & Hb & _). by apply elem_of_nil in Hb. }
  destruct (center_head _ _ _ _ _ _ _ _ I Ets) as (b0 & lt' & -> & Hh0 & Hmax). rewrite Hh0.
  destruct (Z.ltb_spec (ab_height b0) height) as [Hlt|Hge].
  { exists c, false, w, (b0 :: lt'), ps. split; [done|]. split; [done|]. split; [|split; [done|]].
    - intros _. symmetry. apply (chain_below_drop ((b0 :: lt') ++ lp) b0 0 height Hc eq_refl); [lia|by left].
    - split; [done|]. intros (b & Hb & Hle). specialize (Hmax b (proj2 (elem_of_app _ _ _) (or_introl Hb))). lia. }
  set (i := Z.to_nat (ab_height b0 - height)). pose proof (center_length _ _ _ _ _ _ I) as Hl. rewrite Ets in Hl.
  assert (forall j t, (t0 :: ts) !! j = Some t -> t_Height t = ab_height b0 - Z.of_nat j) as Hth.
  { intros j t Hj. destruct (center_temp _ _ _ _ _ _ j t I) as (b & p & Hb & _ & T); [by rewrite Ets|].
    rewrite (t_Height_ok _ _ _ _ T). apply (chain_ok_height ((b0 :: lt') ++ lp)); [done|done|by apply lookup_app_l_Some]. }
  assert (S i < length (t0 :: ts))%nat as Hi.
  { rewrite <- Hl. destruct (last (b0 :: lt')) as [bl|] eqn:Ebl; [|by apply last_None in Ebl]. specialize (Hold bl eq_refl).
    apply last_at in Ebl as (j & Hj & ->).
    rewrite (chain_ok_height ((b0 :: lt') ++ lp) j b0 bl Hc eq_refl) in Hold by by apply lookup_app_l_Some. lia. }
  destruct (lookup_lt_is_Some_2 (t0 :: ts) i) as [t Ht]; [lia|].
  assert (list_find (fun t => t_Height t = height) (t0 :: ts) = Some (i, t)) as ->.
  { apply list_find_Some. split; [done|]. split; [rewrite (Hth i t Ht); lia|]. intros j t' Hj Hlt. rewrite (Hth j t' Hj). lia. }
  destruct (remove_newest_ok c (b0 :: lt') lp ps rs w (take (S i) (t0 :: ts)) (drop (S i) (t0 :: ts)) I) as (w' & ps' & E1 & I1).
  { by rewrite take_drop. }
  { intros Hn. apply (f_equal length) in Hn. rewrite length_drop in Hn. simpl in Hn, Hi. lia. }
  exists (set_temps (drop (S i) (t0 :: ts)) c), true, w', (drop (S i) (b0 :: lt')), ps'. split.
  { by rewrite (db_bind_Ok _ _ _ _ _ E1). }
  rewrite length_take, Nat.min_l in I1 by lia. split; [exact I1|]. split; [|split; [done|]].
  - intros _. rewrite (chain_below_drop ((b0 :: lt') ++ lp) b0 (S i) height Hc eq_refl); [|lia|right; lia].
    symmetry. apply drop_app_le. lia.
  - split; [intros _|done]. exists b0. split; [apply list_elem_of_here|lia].
Qed.

(** *** Turns of the center *)
Lemma mergeToPermanent_ok c lt lp ps rs w : center_inv c lt lp ps rs w ->
  (exists w', mergeToPermanent run c w = (Err "context canceled", w') /\ (exists jobs, (run jobs).2 = false) /\
     center_inv c lt lp ps rs w') \/
  ((length lt < 2)%nat /\ mergeToPermanent run c w = (Ok (c, false), w)) \/
  exists c' w' lt' b ps' q, mergeToPermanent run c w = (Ok (c', true), w') /\ lt = lt' ++ [b] /\ ps = ps' ++ [q] /\
    (take 1 (c_temps c') = take 1 (c_temps c) /\ center_inv c' lt' (b :: lp) ps' (rs ++ [q]) w').
Proof.
  intros I. pose proof (center_length _ _ _ _ _ _ I) as Hl. unfold mergeToPermanent.
  destruct (last (c_temps c)) as [t|] eqn:Et.
  2:{ right. left. apply last_None in Et. rewrite Et in Hl. simpl in Hl. split; [lia|done]. }
  destruct (Nat.ltb_spec (length (c_temps c)) 2) as [Hlt|Hge]; [right; left; split; [lia|done]|].
  apply last_Some in Et as [ts Ets].
  destruct (merge_ok c lt lp ps rs w ts t I Ets) as [(w' & E1 & Hr & I')|(p' & w' & lt' & b & ps' & q & E1 & -> & -> & I')].
  { left. exists w'. split; [|done]. unfold mbind, db_bind. by rewrite E1. }
  right. right. exists {| c_perm := p'; c_temps := ts; c_removed := c_removed c ++ [t] |}, w', lt', b, ps', q.
  split.
  2:{ split; [done|]. split; [done|]. split; [|done]. simpl. rewrite Ets in Hge |- *. destruct ts; [simpl in Hge; lia|done]. }
  rewrite (db_bind_Ok _ _ _ _ _ E1). unfold removeTemp. cbn [c_temps c_perm c_removed]. rewrite Ets.
  destruct ts as [|t0 ts]; [rewrite Ets in Hge; simpl in Hge; lia|]. cbn [app].
  assert (c_temps c = t0 :: ts ++ [t]) as Ets' by done.
  destruct (center_head _ _ _ _ _ _ _ _ I Ets') as (b0 & lt0 & Hlt0 & Hh0 & _).
  assert (t_Height t = ab_height b0 - Z.of_nat (length (t0 :: ts))) as Hh.
  { destruct (center_temp _ _ _ _ _ _ (length (t0 :: ts)) t I) as (b' & p & Hb & _ & T).
    { rewrite Ets. rewrite lookup_app_r by done. by rewrite Nat.sub_diag. }
    rewrite (t_Height_ok _ _ _ _ T). apply (chain_ok_height ((lt' ++ [b]) ++ lp)); [apply I|by rewrite Hlt0|by apply lookup_app_l_Some]. }
  assert (bool_decide (0 <= ab_height b0 < 2 ^ 63) && bool_decide (0 <= t_Height t) = true) as Hr.
  { destruct (center_temp _ _ _ _ _ _ (length (t0 :: ts)) t I) as (b' & p & Hb & _ & T).
    { rewrite Ets. rewrite lookup_app_r by done. by rewrite Nat.sub_diag. }
    assert (height_ok (ab_height b') /\ height_ok (ab_height b0)) as [Ho1 Ho2].
    { split; apply bw_height_ok; (eapply chain_ok_wf; [apply I|]); apply elem_of_app; left;
        [by eapply list_elem_of_lookup_2|rewrite Hlt0; apply list_elem_of_here]. }
    rewrite (t_Height_ok _ _ _ _ T). unfold height_ok in *. rewrite !bool_decide_eq_true_2 by lia. done. }
  apply andb_true_iff in Hr as [Hr1%bool_decide_eq_true Hr2%bool_decide_eq_true].
  rewrite Hh0, Hh. replace (ab_height b0 - (ab_height b0 - Z.of_nat (length (t0 :: ts)))) with (Z.of_nat (length (t0 :: ts))) by lia.
  rewrite wrap_s_small by lia.
  destruct (Z.ltb_spec (Z.of_nat (length (t0 :: ts))) 0); [lia|]. cbn [orb].
  destruct (Z.leb_spec (Z.of_nat (length (t0 :: ts ++ [t]))) (Z.of_nat (length (t0 :: ts)))) as [Hle|_].
  { simpl in Hle. rewrite length_app in Hle. simpl in Hle. lia. }
  rewrite Nat2Z.id. change (t0 :: ts ++ [t]) with ((t0 :: ts) ++ [t]). rewrite delete_middle, app_nil_r. done.
Qed.
Lemma tick_ok c lt lp ps rs w : center_inv c lt lp ps rs w ->
  exists c' w' lt' lp' ps' rs', tick run c w = (c', w') /\ lt' ++ lp' = lt ++ lp /\ center_inv c' lt' lp' ps' rs' w'.
Proof.
  intros I.
  assert (exists c1 w1 lt1 lp1 ps1 rs1, match mergeToPermanent run c w with (Ok (c, _), w) => (c, w) | (_, w) => (c, w) end = (c1, w1) /\
    lt1 ++ lp1 = lt ++ lp /\ center_inv c1 lt1 lp1 ps1 rs1 w1) as (c1 & w1 & lt1 & lp1 & ps1 & rs1 & E1 & <- & I1).
  { destruct (mergeToPermanent_ok c lt lp ps rs w I) as
      [(w' & -> & _ & I')|[(_ & ->)|(c' & w' & lt' & b & ps' & q & -> & -> & -> & _ & I')]].
    - by exists c, w', lt, lp, ps, rs.
    - by exists c, w, lt, lp, ps, rs.
    - exists c', w', lt', (b :: lp), ps', (rs ++ [q]). split; [done|]. split; [|done]. by rewrite <- app_assoc. }
  unfold tick. rewrite E1. unfold cleanRemoved. destruct (length (c_removed c1) <=? 3)%nat.
  { by exists c1, w1, lt1, lp1, ps1, rs1. }
  set (n := (length (c_removed c1) - 3)%nat).
  destruct (remove_removed_ok c1 lt1 lp1 ps1 rs1 w1 (take n (c_removed c1)) (drop n (c_removed c1)) I1) as (w2 & rs2 & E2 & I2).
  { by rewrite take_drop. }
  exists (set_removed (drop n (c_removed c1)) c1), w2, lt1, lp1, ps1, rs2. rewrite E2. by split.
Qed.
(** When the workers write all, the loop ends with the newest block alone. *)
Lemma merge_all_ok fuel c lt lp ps rs w : center_inv c lt lp ps rs w -> (forall jobs, (run jobs).2 = true) -> (length lt < fuel)%nat ->
  exists c' w' lt' lp' ps' rs', merge_all run fuel c w = (Ok c', w') /\ lt' ++ lp' = lt ++ lp /\ c_temps c' = take 1 (c_temps c) /\
    center_inv c' lt' lp' ps' rs' w'.
Proof.
  intros I Hrun. revert c lt lp ps rs w I. induction fuel as [|fuel IH]; intros c lt lp ps rs w I Hf; [lia|].
  cbn [merge_all].
  destruct (mergeToPermanent_ok c lt lp ps rs w I) as
    [(w' & E1 & (jobs & Hj) & I')|[(Hlt & E1)|(c' & w' & lt' & b & ps' & q & E1 & -> & -> & Ht & I')]].
  - by rewrite Hrun in Hj.
  - rewrite (db_bind_Ok _ _ _ _ _ E1). exists c, w, lt, lp, ps, rs. split_and!; [done|done| |done].
    pose proof (center_length _ _ _ _ _ _ I). by rewrite take_ge by lia.
  - rewrite (db_bind_Ok _ _ _ _ _ E1). rewrite length_app in Hf. simpl in Hf.
    destruct (IH c' lt' (b :: lp) ps' (rs ++ [q]) w' I') as (c2 & w2 & lt2 & lp2 & ps2 & rs2 & E2 & Hl2 & Hlen & I2); [lia|].
    exists c2, w2, lt2, lp2, ps2, rs2. split; [done|]. split; [by rewrite Hl2, <- app_assoc|]. split; [by rewrite Hlen, Ht|done].
Qed.
End merges.

(** ** From an empty disk *)
Definition nothing (d : D) : Prop := forall k, ldb_Get d k = None.
Lemma nothing_entries r (d : D) : nothing d -> ldb_entries r d = [].
Proof.
  intros Hn. destruct (ldb_entries r d) as [|[k v] l] eqn:El; [done|]. exfalso.
  assert ((k, v) ∈ ldb_entries r d) as [Hg _]%ldb_entries_elem by (rewrite El; apply list_elem_of_here). by rewrite Hn in Hg.
Qed.
Lemma nothing_Iter {A} p r (f : bytes -> bytes -> A -> res (A * bool)) asc (d : D) a : nothing d -> is_bytes p -> range_given r ->
  ps_Iter (Some p) r f asc d a = Ok a.
Proof.
  intros Hn Hp Hr. rewrite ps_Iter_list by done. assert (ps_list p r d = []) as ->; [|by destruct asc].
  unfold ps_list. destruct (ps_range (Some p) r); [|done..]. by rewrite nothing_entries.
Qed.
Lemma NewCenter_ok fuel (enc : E) n w : nothing (w_disk w) ->
  exists p w' c, NewLeveldbPermanent enc n w = (Ok p, w') /\ NewCenter (S fuel) p enc w' = (Ok c, w') /\
    center_inv c [] [] [] [] w'.
Proof.
  intros Hn. assert (NewPrefixKey leveldbLabelPermanent [] = perm_prefix) as Hpp by done.
  set (w' := if 0 <? n then set_popcache (Some (gc_New bool)) (set_pstcache (Some (gc_New St)) w)
             else set_popcache None (set_pstcache None w)).
  assert (w_disk w' = w_disk w) as Hd by (unfold w'; by destruct (0 <? n)).
  assert (nothing (w_disk w')) as Hn' by (by rewrite Hd).
  set (p := {| p_pst := Some perm_prefix; p_enc := enc; p_batchlimit := 333; p_lenc := None; p_mp := None;
               p_policy := None; p_proof := None |} : perm).
  assert (forall pre, is_bytes pre -> pre <> [] -> range_given (BytesPrefix (D := D) pre)) as Hrg by apply prefix_given.
  exists p, w', {| c_perm := p; c_temps := []; c_removed := [] |}. split_and!.
  - unfold NewLeveldbPermanent. rewrite Hpp.
    rewrite (db_bind_Ok (fun w => (Ok tt, _)) _ w tt w') by done.
    rewrite (db_bind_Ok (from_disk (base_loadLastBlockMap (E := E) (Some perm_prefix))) _ w' (None, [], [], []) w').
    2:{ unfold from_disk, base_loadLastBlockMap. rewrite nothing_Iter; [done|done|apply perm_prefix_bytes|].
        apply Hrg; [apply (bool_decide_unpack _); vm_compute; exact I|done]. }
    rewrite (db_bind_Ok (from_disk (loadLastSuffrageProof (Some perm_prefix))) _ w' None w').
    2:{ unfold from_disk, loadLastSuffrageProof. rewrite nothing_Iter; [done|done|apply perm_prefix_bytes|].
        apply Hrg; [apply (bool_decide_unpack _); vm_compute; exact I|done]. }
    rewrite (db_bind_Ok (from_disk (base_loadNetworkPolicy (E := E) (Some perm_prefix))) _ w' (None, None, false) w').
    2:{ unfold from_disk, base_loadNetworkPolicy. change (leveldbStateKey NetworkPolicyStateKey) with (kbytes (KState NetworkPolicyStateKey)).
        rewrite ps_Get_view. unfold view. by rewrite Hn'. }
    done.
  - unfold NewCenter, loadTemps. cbn [load_heights].
    assert (forall h, loadTemp (P := P) h enc w' = (Ok None, w')) as Hl.
    { intros h. unfold loadTemp, mbind, db_bind, from_disk. by rewrite nothing_entries. }
    unfold mbind at 1, db_bind at 1. unfold mbind at 1, db_bind at 1. unfold mbind at 1, db_bind at 1. by rewrite Hl.
  - split; [constructor|constructor|constructor|constructor|constructor|constructor| |constructor]. split; try done.
    + exists (fun _ => None). split; [apply shows_none|]. intros k _. left. unfold view. by rewrite Hn'.
    + intros x [v Hx]. by rewrite Hn' in Hx.
    + intros c k st Hc Hk. unfold w' in Hc. destruct (0 <? n); simpl in Hc; [|done]. injection Hc as <-. by rewrite cached_New in Hk.
    + intros c h x Hc Hk. unfold w' in Hc. destruct (0 <? n); simpl in Hc; [|done]. injection Hc as <-. by rewrite cached_New in Hk.
Qed.

(** ** Histories of a center, beside the chain it stands for *)
Definition order_ok (order : nat -> list nat) : Prop := forall n, order n ≡ₚ seq 0 n.
Inductive history : center -> list ABlock -> world -> Prop :=
  | history_start fuel (enc : E) n w p w1 c w2 : nothing (w_disk w) ->
      NewLeveldbPermanent enc n w = (Ok p, w1) -> NewCenter (S fuel) p enc w1 = (Ok c, w2) -> history c [] w2
  | history_save c l w p (bw0 : BlockWrite E) jobs m proof bw w1 c' w2 : history c l w ->
      started p bw0 w -> temp_prefix p -> apart p (bw_stcache bw0) c -> bw_height bw0 = bm_height m ->
      block_ok (P := P) (bw_enc bw0) jobs m proof -> follows (block_of jobs m proof) l ->
      write_block (P := P) jobs m proof bw0 w = (Ok bw, w1) -> MergeBlockWriteDatabase bw c w1 = (Ok c', w2) ->
      history c' (block_of jobs m proof :: l) w2
  | history_tick run c l w c' w' : history c l w -> run_ok run -> tick run c w = (c', w') -> history c' l w'
  | history_merge_all run c l w c' w' : history c l w -> run_ok run -> (forall jobs, (run jobs).2 = true) ->
      MergeAllPermanent run c w = (Ok c', w') -> history c' l w'
  | history_remove height c l w c' r w' : history c l w -> (forall t, last (c_temps c) = Some t -> t_Height t < height) ->
      RemoveBlocks height c w = (Ok (c', r), w') -> history c' (if r : bool then chain_below height l else l) w'
  | history_state order skip key c l w r w' : history c l w -> order_ok order -> c_State order skip key c w = (Ok r, w') -> history c l w'
  | history_operation order skip h c l w r w' : history c l w -> order_ok order ->
      c_ExistsInStateOperation order skip h c w = (Ok r, w') -> history c l w'.

Lemma history_inv c l w : history c l w -> exists lt lp ps rs, l = lt ++ lp /\ center_inv c lt lp ps rs w.
Proof.
  induction 1 as [fuel enc n w p w1 c w2 Hn Ep Ec
    |c l w p bw0 jobs m proof bw w1 c' w2 _ (lt & lp & ps & rs & -> & I) S Hp Ha Hh B Hc E1 E2
    |run c l w c' w' _ (lt & lp & ps & rs & -> & I) Hrun Et
    |run c l w c' w' _ (lt & lp & ps & rs & -> & I) Hrun Hall Em
    |height c l w c' r w' _ (lt & lp & ps & rs & -> & I) Hlast Er
    |order skip key c l w r w' _ (lt & lp & ps & rs & -> & I) Ho Es
    |order skip h c l w r w' _ (lt & lp & ps & rs & -> & I) Ho Es].
  - destruct (NewCenter_ok fuel enc n w Hn) as (p' & w' & c0 & Ep' & Ec' & I). rewrite Ep in Ep'. injection Ep' as <- <-.
    rewrite Ec in Ec'. injection Ec' as <- <-. by exists [], [], [], [].
  - pose proof (merged_next _ _ _ _ _ _ _ _ _ _ _ _ _ _ _ I S Hh B Hc E1 E2) as Hch.
    destruct (save_ok c lt lp ps rs w p bw0 jobs m proof I S Hp Ha Hh B Hch) as (bw' & w1' & c2 & w2' & E1' & E2' & I').
    rewrite E1 in E1'. injection E1' as <- <-. rewrite E2 in E2'. injection E2' as <- <-.
    by exists (block_of jobs m proof :: lt), lp, (p :: ps), rs.
  - destruct (tick_ok run Hrun c lt lp ps rs w I) as (c1 & w1 & lt1 & lp1 & ps1 & rs1 & Et' & Hl & I1).
    rewrite Et in Et'. injection Et' as <- <-. exists lt1, lp1, ps1, rs1. by rewrite Hl.
  - destruct (merge_all_ok run Hrun (S (length (c_temps c))) c lt lp ps rs w I Hall) as (c1 & w1 & lt1 & lp1 & ps1 & rs1 & Em' & Hl & _ & I1).
    { rewrite (center_length _ _ _ _ _ _ I). lia. }
    unfold MergeAllPermanent in Em. rewrite Em in Em'. injection Em' as <- <-. exists lt1, lp1, ps1, rs1. by rewrite Hl.
  - destruct (RemoveBlocks_ok c lt lp ps rs w height I) as (c1 & r1 & w1 & lt1 & ps1 & Er' & I1 & Hne & Hnil & Hr).
    { intros b Hb. destruct (last_at _ _ Hb) as (i & Hi & Hl).
      destruct (Forall3_lookup_m _ _ _ _ _ _ (ci_temps _ _ _ _ _ _ I) Hi) as (t & p & Ht & _ & T).
      rewrite <- (t_Height_ok _ _ _ _ T). apply Hlast. rewrite last_lookup, <- (center_length _ _ _ _ _ _ I), Hl. exact Ht. }
    rewrite Er in Er'. injection Er' as <- <- <-. exists lt1, lp, ps1, rs. split; [|done].
    destruct lt as [|b lt]; [rewrite (Hnil eq_refl)|].
    + destruct r; [|done]. destruct (proj1 Hr eq_refl) as (b & Hb & _). by apply elem_of_nil in Hb.
    + rewrite (Hne ltac:(done)). destruct r; [done|]. unfold chain_below.
      assert (forall l : list ABlock, (forall b, b ∈ l -> ab_height b < height) -> filter (fun b => ab_height b < height) l = l) as Hf.
      { clear. induction l as [|b l IH]; intros Hl; [done|]. rewrite filter_cons_True by (apply Hl, list_elem_of_here).
        rewrite IH; [done|]. intros. apply Hl. by apply list_elem_of_further. }
      symmetry. apply Hf. intros b' Hb'. destruct (c_temps c) as [|t0 ts] eqn:Ets.
      { pose proof (center_length _ _ _ _ _ _ I) as Hl. by rewrite Ets in Hl. }
      destruct (center_head _ _ _ _ _ _ _ _ I Ets) as (b0 & lt0 & Hlt0 & _ & Hmax). specialize (Hmax b' Hb').
      destruct (decide (ab_height b0 < height)); [lia|]. exfalso. assert (false = true); [|done]. apply Hr. exists b0.
      rewrite Hlt0. split; [apply list_elem_of_here|lia].
  - destruct (c_State_ok order Ho skip c lt lp ps rs w key I) as (w1 & Es' & I1). rewrite Es in Es'. injection Es' as _ <-.
    by exists lt, lp, ps, rs.
  - destruct (c_ExistsInStateOperation_ok order Ho skip c lt lp ps rs w h I) as (r1 & w1 & Es' & I1 & _).
    rewrite Es in Es'. injection Es' as _ <-. by exists lt, lp, ps, rs.
Qed.

(** C9: the reads of a center answer like the chain of the blocks it was given, after
    any history that starts on an empty disk, in which each block write has a prefix and
    a cache of its own, a removal leaves the oldest temporary database, and each call is
    one step. In between blocks are saved, merged into the permanent database at once,
    in part or not at all, cleaned up, removed, and states are read through the caches.
    A state is the newest of its key, an operation is found if a block has it, a block
    map is the one at the height, and the last block map, suffrage proof and network
    policy are the newest ones; in whatever order the workers ask the databases, and
    whichever of them stop early. The block writes of a sync share a cache and a removal
    can take all temporary databases; such histories are not among these. *)
Theorem center_answers order skip c l w : order_ok order -> history c l w ->
  (forall key, let st := first_some (fun b => ab_states b !! key) l in
     exists w', c_State order skip key c w = (Ok (st, bool_decide (is_Some st)), w')) /\
  (forall h, exists r w', c_ExistsInStateOperation order skip h c w = (Ok r, w') /\ (r = true <-> exists b, b ∈ l /\ ab_instate b h)) /\
  (forall h, exists r w', c_ExistsKnownOperation order skip h c w = (Ok r, w') /\ (r = true <-> exists b, b ∈ l /\ h ∈ ab_known b)) /\
  (forall height, i64 height -> exists r, c_BlockMap height c w = (Ok (r, bool_decide (is_Some r)), w) /\
     forall m, r = Some m <-> exists b, b ∈ l /\ ab_height b = height /\ ab_map b = m) /\
  c_LastBlockMap c = Ok (ab_map <$> head l) /\
  c_LastSuffrageProof c = first_some ab_proof l /\
  c_LastNetworkPolicy c = first_some (block_policy (P := P)) l.
Proof.
  intros Ho (lt & lp & ps & rs & -> & I)%history_inv. pose proof (ci_chain _ _ _ _ _ _ I) as Hc.
  split; [|split; [|split; [|split; [|split; [|split]]]]].
  - intros key. destruct (c_State_ok order Ho skip c lt lp ps rs w key I) as (w' & E1 & _).
    exists w'. by rewrite <- chain_parts_state.
  - intros h. destruct (c_ExistsInStateOperation_ok order Ho skip c lt lp ps rs w h I) as (r & w' & E1 & _ & Hr).
    exists r, w'. split; [done|]. by rewrite Hr, chain_parts_instate.
  - intros h. destruct (c_ExistsKnownOperation_ok order Ho skip c lt lp ps rs w h I) as (r & w' & E1 & _ & Hr).
    exists r, w'. split; [done|]. by rewrite Hr, chain_parts_known.
  - intros height Hi. exists (pt_map (chain_parts (lt ++ lp)) height). split; [by apply (c_BlockMap_ok c lt lp ps rs)|].
    intros m. split.
    + rewrite chain_parts_map. intros (b & Hb & Hm)%first_some_Some. destruct (Z.eqb_spec height (ab_height b)); [|done].
      exists b. by injection Hm as <-.
    + intros (b & Hb & <- & <-). by apply chain_map_of.
  - by apply (c_LastBlockMap_ok c lt lp ps rs w).
  - by apply (c_LastSuffrageProof_ok c lt lp ps rs w).
  - by apply (c_LastNetworkPolicy_ok c lt lp ps rs w).
Qed.

(** In the same histories, the suffrage proofs: up to the last suffrage, the proof
    of a suffrage height is that of the block that has it; and at a block not before
    the temporary databases, and not after the last block, the proof in force is the
    newest up to it. *)
Theorem center_suffrage_proofs c l w : history c l w ->
  (forall sh, height_ok sh -> (forall pl, first_some ab_proof l = Some pl -> sh <= SuffrageHeight pl) ->
     exists r, c_SuffrageProof sh c w = (Ok (r, bool_decide (is_Some r)), w) /\
       (forall p, r = Some p -> SuffrageHeight p = sh /\ exists b, b ∈ l /\ ab_proof b = Some p) /\
       (r = None -> forall b p, b ∈ l -> ab_proof b = Some p -> SuffrageHeight p <> sh)) /\
  (forall height, height_ok height -> (forall t, last (c_temps c) = Some t -> t_Height t <= height) ->
     let r := match head l with
              | Some b => if ab_height b <? height then None
                          else first_some (fun b => if height <? ab_height b then None else ab_proof b) l
              | None => None
              end in
     c_SuffrageProofByBlockHeight height c w = (Ok (r, bool_decide (is_Some r)), w)).
Proof.
  intros (lt & lp & ps & rs & -> & I)%history_inv. split.
  - intros sh Hok Hle. exists (pt_proof (chain_parts (lt ++ lp)) sh).
    split; [by apply (c_SuffrageProof_ok c lt lp ps rs w sh I)|]. rewrite chain_parts_proof. split.
    + intros p (b & Hb & Hp)%first_some_Some. destruct (ab_proof b) as [pb|] eqn:Eb; [|done]. simpl in Hp.
      destruct (Z.eqb_spec sh (SuffrageHeight pb)) as [->|]; [|done]. injection Hp as <-. split; [done|]. by exists b.
    + intros Hn b p Hb Hp <-. pose proof (proj1 (first_some_None _ _) Hn b Hb) as Hx. cbv beta in Hx. rewrite Hp in Hx. simpl in Hx.
      by rewrite Z.eqb_refl in Hx.
  - intros height Hok Hold. apply (c_SuffrageProofByBlockHeight_ok c lt lp ps rs w height I Hok).
    intros b Hb. destruct (last_at _ _ Hb) as (i & Hi & Hl).
    destruct (Forall3_lookup_m _ _ _ _ _ _ (ci_temps _ _ _ _ _ _ I) Hi) as (t & p & Ht & _ & T).
    rewrite <- (t_Height_ok _ _ _ _ T). apply Hold. rewrite last_lookup, <- (center_length _ _ _ _ _ _ I), Hl. exact Ht.
Qed.

(** C19: Saving a block succeeds: the next block, written under a prefix of its own by
    workers that set states and operations in any order, is in the databases after
    that, as the newest of the chain. *)
Theorem center_saves c l w p (bw0 : BlockWrite E) jobs m proof : history c l w ->
  started p bw0 w -> temp_prefix p -> apart p (bw_stcache bw0) c -> bw_height bw0 = bm_height m ->
  block_ok (P := P) (bw_enc bw0) jobs m proof -> chain_ok (block_of jobs m proof :: l) ->
  exists bw w1 c' w2, write_block (P := P) jobs m proof bw0 w = (Ok bw, w1) /\ MergeBlockWriteDatabase bw c w1 = (Ok c', w2) /\
    history c' (block_of jobs m proof :: l) w2.
Proof.
  intros Hh S Hp Ha Hbh B Hc. pose proof Hh as (lt & lp & ps & rs & -> & I)%history_inv.
  destruct (save_ok c lt lp ps rs w p bw0 jobs m proof I S Hp Ha Hbh B Hc) as (bw & w1 & c' & w2 & E1 & E2 & _).
  exists bw, w1, c', w2. split; [done|]. split; [done|]. eapply history_save; try done. by inversion Hc.
Qed.

(** C37: Merging all ends: when the workers write what they are given, every temporary
    database but the newest goes into the permanent one.  The newest stays as it was, the
    last block of the permanent database is the one before it, and the states are those
    of the chain, as before. *)
Theorem MergeAllPermanent_ends run c l w : history c l w -> run_ok run -> (forall jobs, (run jobs).2 = true) ->
  exists c' w', MergeAllPermanent run c w = (Ok c', w') /\ c_temps c' = take 1 (c_temps c) /\
    p_LastBlockMap (c_perm c') = ab_map <$> head (drop (length (c_temps c')) l) /\
    forall order skip key, order_ok order -> let st := first_some (fun b => ab_states b !! key) l in
      exists w'', c_State order skip key c' w' = (Ok (st, bool_decide (is_Some st)), w'').
Proof.
  intros Hh Hrun Hall. pose proof Hh as (lt & lp & ps & rs & -> & I)%history_inv.
  destruct (merge_all_ok run Hrun (S (length (c_temps c))) c lt lp ps rs w I Hall) as (c' & w' & lt' & lp' & ps' & rs' & E1 & El & Ht & I').
  { rewrite (center_length _ _ _ _ _ _ I). lia. }
  exists c', w'. split; [done|]. split; [done|]. rewrite <- El. split.
  - unfold p_LastBlockMap. rewrite (pm_mp _ _ _ _ (ci_perm _ _ _ _ _ _ I')). by rewrite <- (center_length _ _ _ _ _ _ I'), drop_app_length.
  - intros order skip key Ho. cbv zeta. destruct (c_State_ok order Ho skip c' lt' lp' ps' rs' w' key I') as (w'' & E2 & _).
    exists w''. by rewrite <- chain_parts_state.
Qed.

(** C38: In every such history the center is well formed: the temporary databases are
    those of the newest blocks of the chain, the newest first, one for each height
    without a gap, which the history does not ask for, the center does; a prefix is that
    of one database only, also of those that wait to be cleaned, and not that of the
    permanent one. *)
Theorem center_well_formed c l w : history c l w ->
  (length (c_temps c) <= length l)%nat /\
  (forall i t, c_temps c !! i = Some t -> exists b, l !! i = Some b /\ t_Height t = ab_height b /\ t_LastBlockMap t = Ok (ab_map b)) /\
  (forall i j t t', c_temps c !! i = Some t -> c_temps c !! j = Some t' -> t_Height t + Z.of_nat i = t_Height t' + Z.of_nat j) /\
  (forall t, t ∈ c_temps c ++ c_removed c -> exists p, t_pst t = Some p /\ temp_prefix p /\ p_pst (c_perm c) <> Some p) /\
  NoDup (t_pst <$> (c_temps c ++ c_removed c)).
Proof.
  intros (lt & lp & ps & rs & -> & I)%history_inv. pose proof (center_length _ _ _ _ _ _ I) as Hl.
  assert (forall i t, c_temps c !! i = Some t -> exists b, (lt ++ lp) !! i = Some b /\ t_Height t = ab_height b /\ t_LastBlockMap t = Ok (ab_map b)) as Ht.
  { intros i t Hi. destruct (center_temp _ _ _ _ _ _ i t I Hi) as (b & p & Hb & _ & T). exists b.
    split; [by apply lookup_app_l_Some|]. split; [by eapply t_Height_ok|]. unfold t_LastBlockMap.
    by destruct (ts_mp _ _ _ _ T) as (body & -> & _). }
  pose proof (center_prefixes _ _ _ _ _ _ I) as F.
  split; [rewrite length_app; lia|]. split; [done|]. split; [|split].
  - intros i j t t' (b & Hb & -> & _)%Ht (b' & Hb' & -> & _)%Ht.
    destruct (lt ++ lp) as [|b0 l] eqn:El; [done|]. pose proof (ci_chain _ _ _ _ _ _ I) as Hc. rewrite El in Hc.
    rewrite (chain_ok_height _ i b0 b Hc eq_refl Hb), (chain_ok_height _ j b0 b' Hc eq_refl Hb'). lia.
  - intros t (i & Hi)%list_elem_of_lookup. destruct (Forall2_lookup_l _ _ _ _ _ F Hi) as (p & Hp & Htp). exists p. split; [done|].
    pose proof (ci_prefixes _ _ _ _ _ _ I) as Fp. rewrite Forall_forall in Fp.
    assert (temp_prefix p) as Hpp by (apply Fp; by eapply list_elem_of_lookup_2). split; [done|].
    rewrite (pm_pst _ _ _ _ (ci_perm _ _ _ _ _ _ I)). intros [= <-]. by pose proof (tp_length _ Hpp).
  - assert (t_pst <$> (c_temps c ++ c_removed c) = Some <$> (ps ++ rs)) as ->.
    { clear -F. induction F as [|t p ts ps' Hp F IH]; [done|]. rewrite !fmap_cons, Hp, IH. done. }
    apply NoDup_fmap_2; [apply _|]. apply I.
Qed.

(** C39: A block that is not the next one is refused, and nothing is changed: neither
    the center nor what is stored; so is a block write without its block map.  A block
    write that has its map is closed all the same. *)
Theorem center_refuses c l w (bw : BlockWrite E) (la : @Lasts) b : history c l w -> head l = Some b -> bw_last bw = Some la ->
  match l_mp la with Some (m, _, _) => bm_height m <> ab_height b + 1 | None => True end ->
  (exists e, MergeBlockWriteDatabase (P := P) bw c w = (Err e, w)) /\
  (TempDatabase (D := D) (C := C) (P := P) bw).2 = (if bool_decide (is_Some (l_mp la)) then bw_Close bw else bw).
Proof.
  intros (lt & lp & ps & rs & -> & I)%history_inv Hb Hla Hm. unfold MergeBlockWriteDatabase, TempDatabase. rewrite Hla.
  unfold newTempLeveldbFromBlockWriteStorage. destruct (l_mp la) as [[[m meta] body]|]; [|split; [by eexists|done]]. split; [|done].
  unfold lift, mbind, db_bind, t_Height. cbn [t_mp fst]. rewrite (center_preheight _ _ _ _ _ _ I).
  destruct (lt ++ lp) as [|b' l] eqn:El; [done|]. injection Hb as ->.
  assert (block_wf b) as Hwf by (eapply chain_ok_wf; [apply I|]; rewrite El; apply list_elem_of_here).
  pose proof (bw_height_ok _ Hwf) as Hok. unfold height_ok in Hok. rewrite wrap_s_small by lia.
  destruct (Z.ltb_spec NilHeight (ab_height b)); [|unfold NilHeight in *; lia].
  destruct (Z.eqb_spec (bm_height m) (ab_height b + 1)); [done|]. by eexists.
Qed.

(** Before the temporary databases, every height gets the last proof of the permanent
    database, also the heights of blocks that are before that proof. *)
Theorem proof_before_temps c lt lp ps rs w height bl b p : center_inv c lt lp ps rs w -> last lt = Some bl ->
  b ∈ lp -> ab_proof b = Some p -> chain_last_proof lp = Some p -> 0 <= height < ab_height b ->
  c_SuffrageProofByBlockHeight height c w = (Ok (Some p, true), w) /\ s_height (sp_st p) = ab_height b.
Proof.
  intros I Hl Hb Hp Hlast Hh. pose proof (ci_chain _ _ _ _ _ _ I) as Hc.
  assert (block_wf b) as Hwf by (eapply chain_ok_wf; [exact Hc|]; apply elem_of_app; by right).
  destruct (wf_proof b p Hwf Hp) as (Hs & _ & _). split; [|done].
  destruct (c_temps c) as [|t0 ts] eqn:Ets.
  { pose proof (center_length _ _ _ _ _ _ I) as Hlen. rewrite Ets in Hlen. by destruct lt. }
  destruct (center_last _ _ _ _ _ _ _ _ I Ets) as (tl & bl' & _ & Hbl & _ & _ & _ & Hlp & _). rewrite Hl in Hbl. injection Hbl as <-.
  rewrite (c_SuffrageProofByBlockHeight_below c lt lp ps rs w height bl I); [by rewrite Hlast|lia|done|]. specialize (Hlp b Hb). lia.
Qed.
End laws.

(** ** A concrete center *)
Module CenterDemo.
#[export] Existing Instance demo_crypto.
#[export] Instance hash_laws : HashLaws.
Proof. by intros a b. Qed.

(** A cache that keeps all. *)
#[export] Instance cache : GCache (gmap string) := {|
  gc_New V := ∅;
  gc_Get V k c := (c !! k, c);
  gc_Set V k v c := <[k := v]> c;
  gc_Remove V k c := delete k c;
  gc_Purge V c := ∅;
  gc_Keys V c := (map_to_list c).*1
|}.
#[export] Instance cache_laws : GCacheLaws (gmap string).
Proof.
  split; unfold cached; simpl; intros.
  - apply lookup_empty.
  - done.
  - destruct (decide (k' = k)) as [->|].
    + left. rewrite lookup_insert_eq in H. by injection H as <-.
    + right. by rewrite lookup_insert_ne in H.
  - destruct (decide (k' = k)) as [->|]; [by rewrite lookup_delete_eq in H|]. by rewrite lookup_delete_ne in H.
  - apply lookup_empty.
Qed.

(** A codec of a few values. *)
Definition codec_of {T} `{EqDecision T} (vs : list T) : Codec unit T := {|
  Marshal _ v := match list_find (fun x => x = v) vs with Some (i, _) => Ok [Z.of_nat i] | None => Err "unknown" end;
  Decode _ b := match b with [i] => Ok (vs !! Z.to_nat i) | _ => Err "unknown" end
|}.
Lemma codec_of_laws {T} `{EqDecision T} (vs : list T) : @CodecLaws unit T (codec_of vs).
Proof.
  split. intros e v b. simpl. destruct (list_find (fun x => x = v) vs) as [[i x]|] eqn:Ef; [|done]. intros [= <-].
  apply list_find_Some in Ef as (Hi & -> & _). by rewrite Nat2Z.id, Hi.
Qed.
#[export] Instance SuffrageProof_codec : Codec unit SuffrageProof := {| Marshal _ _ := Err "unknown"; Decode _ _ := Err "unknown" |}.
#[export] Instance SuffrageProof_codec_laws : CodecLaws unit SuffrageProof.
Proof. by split. Qed.
#[export] Instance state_value_eq_dec : EqDecision state_value.
Proof. unfold EqDecision, Decision. repeat decide equality. Defined.
#[export] Instance St_eq_dec : EqDecision St.
Proof. solve_decision. Defined.
#[export] Instance BlockMap_eq_dec : EqDecision BlockMap.
Proof.
  assert (EqDecision Manifest) by solve_decision. assert (EqDecision BaseNodeSign) by solve_decision. solve_decision.
Defined.
#[export] Instance policies : Policies unit := fun _ => None.

Definition st0 : St := {| s_h := Some "h0"; s_previous := None; s_height := 33; s_k := "a"; s_v := Some (StOther "x"); s_ops := [Some "op"] |}.
#[export] Instance St_codec : Codec unit St := codec_of [st0].
#[export] Instance St_codec_laws : CodecLaws unit St := codec_of_laws [st0].
#[export] Instance BlockMap_codec : Codec unit BlockMap := codec_of [demo_unsigned 33; demo_unsigned 34].
#[export] Instance BlockMap_codec_laws : CodecLaws unit BlockMap := codec_of_laws [demo_unsigned 33; demo_unsigned 34].
End CenterDemo.

Section demo.
Import CenterDemo Frame.Demo MapDB.
Definition demo_ulid : bytes := replicate ULIDLen 65.
Definition demo_prefix : bytes := newPrefixStoragePrefixByHeight leveldbLabelBlockWrite 33 demo_ulid.
Definition demo_write : BlockWrite unit := SetStateCache (0%nat, true) (NewLeveldbBlockWrite 33 tt demo_ulid).
Definition demo_jobs : list job := [JState st0; JOperation "op1"].
Definition demo_block : ABlock := block_of demo_jobs (demo_unsigned 33) None.
Definition demo_world : World MapDB.D (gmap string) :=
  {| w_disk := ∅; w_stcaches := {[0%nat := ∅]}; w_pstcache := None; w_popcache := None |}.
Definition demo_center : CenterDB unit unit := {|
  c_perm := {| p_pst := Some perm_prefix; p_enc := tt; p_batchlimit := 333; p_lenc := None; p_mp := None; p_policy := None; p_proof := None |};
  c_temps := []; c_removed := [] |}.
Definition demo_started : World MapDB.D (gmap string) := set_popcache (Some ∅) (set_pstcache (Some ∅) demo_world).

Lemma demo_nothing : nothing (∅ : MapDB.D).
Proof. intros k. simpl. unfold get. destruct (decide (is_bytes k)); [apply lookup_empty|done]. Qed.
Lemma demo_history_start : history demo_center [] demo_started.
Proof.
  apply (history_start 0 tt 9 demo_world (c_perm demo_center) demo_started demo_center demo_started); [apply demo_nothing|reflexivity|reflexivity].
Qed.
Lemma demo_write_started : started demo_prefix demo_write demo_started.
Proof.
  split; try reflexivity.
  - apply (bool_decide_unpack _). vm_compute. exact I.
  - intros x. apply demo_nothing.
  - intros id pf [= <- <-]. exists ∅. split; [reflexivity|]. intros k. apply lookup_empty.
Qed.
Lemma demo_temp_prefix : temp_prefix demo_prefix.
Proof. split; [apply (bool_decide_unpack _); vm_compute; exact I|reflexivity|by eexists]. Qed.
Lemma demo_apart : apart demo_prefix (bw_stcache demo_write) demo_center.
Proof. split; intros t; intros; by apply elem_of_nil in H || by apply elem_of_nil in H1. Qed.
Lemma demo_block_ok : block_ok (P := unit) tt demo_jobs (demo_unsigned 33) None.
Proof.
  split; try done.
  - apply (bool_decide_unpack _). vm_compute. exact I.
  - apply Forall_singleton. split; try (by eexists); try done. by apply Forall_singleton; eexists.
Qed.
Lemma demo_chain : chain_ok [demo_block].
Proof.
  constructor; [|done|done|constructor]. split; try done.
  - intros k st Hk. change (ab_states demo_block) with ({["a" := st0]} : gmap string St) in Hk.
    apply lookup_singleton_Some in Hk as [<- <-]. done.
  - intros k st Hk. change (ab_states demo_block) with ({["a" := st0]} : gmap string St) in Hk.
    by apply lookup_singleton_Some in Hk as [<- <-].
Qed.
Lemma demo_follows : follows demo_block [].
Proof. pose proof demo_chain as Hc. by inversion Hc. Qed.
Lemma demo_saved : exists c w, history c [demo_block] w.
Proof.
  destruct (history_inv _ _ _ demo_history_start) as (lt & lp & ps & rs & Hl & I0).
  symmetry in Hl. apply app_nil in Hl as [-> ->].
  destruct (save_ok demo_center [] [] ps rs demo_started demo_prefix demo_write demo_jobs (demo_unsigned 33) None I0 demo_write_started
    demo_temp_prefix demo_apart eq_refl demo_block_ok demo_chain) as (bw & w1 & c' & w2 & E1 & E2 & _).
  exists c', w2. exact (history_save demo_center [] demo_started demo_prefix demo_write demo_jobs (demo_unsigned 33) None bw w1 c' w2
    demo_history_start demo_write_started demo_temp_prefix demo_apart eq_refl demo_block_ok demo_follows E1 E2).
Qed.
Definition demo_order (n : nat) : list nat := reverse (seq 0 n).
Lemma demo_order_ok : order_ok demo_order.
Proof. intros n. apply reverse_Permutation. Qed.

Lemma center_answers_witness : exists c w w', history c [demo_block] w /\
  c_State demo_order (fun _ => true) "a" c w = (Ok (Some st0, true), w') /\ c_LastBlockMap c = Ok (Some (demo_unsigned 33)).
Proof.
  destruct demo_saved as (c & w & Hh).
  destruct (center_answers demo_order (fun _ => true) c [demo_block] w demo_order_ok Hh) as (Hs & _ & _ & _ & Hm & _).
  destruct (Hs "a"%string) as (w' & E1). exists c, w, w'. split; [exact Hh|]. split; [exact E1|exact Hm].
Defined.
Lemma center_suffrage_proofs_witness : exists c w, history c [demo_block] w /\ c_SuffrageProof 3 c w = (Ok (None, false), w).
Proof.
  destruct demo_saved as (c & w & Hh). exists c, w. split; [exact Hh|].
  destruct (proj1 (center_suffrage_proofs c [demo_block] w Hh) 3 ltac:(split; reflexivity || discriminate) ltac:(discriminate)) as (r & E1 & Hr & _).
  destruct r as [p|]; [|exact E1]. exfalso. destruct (proj2 (Hr p eq_refl)) as (b & Hb & Hp).
  apply list_elem_of_singleton in Hb as ->. discriminate Hp.
Defined.
Lemma center_saves_witness : exists bw w1 c' w2,
  write_block (P := unit) demo_jobs (demo_unsigned 33) None demo_write demo_started = (Ok bw, w1) /\
  MergeBlockWriteDatabase bw demo_center w1 = (Ok c', w2) /\ history c' [demo_block] w2.
Proof.
  exact (center_saves demo_center [] demo_started demo_prefix demo_write demo_jobs (demo_unsigned 33) None demo_history_start
    demo_write_started demo_temp_prefix demo_apart eq_refl demo_block_ok demo_chain).
Defined.
(** A second block, of two operations. *)
Definition demo_run1 : res (BlockWrite unit) * World MapDB.D (gmap string) :=
  write_block (P := unit) demo_jobs (demo_unsigned 33) None demo_write demo_started.
Definition demo_bw1 : BlockWrite unit := match demo_run1.1 with Ok b => b | _ => demo_write end.
Definition demo_merge1 : res (CenterDB unit unit) * World MapDB.D (gmap string) := MergeBlockWriteDatabase demo_bw1 demo_center demo_run1.2.
Definition demo_center1 : CenterDB unit unit := match demo_merge1.1 with Ok c => c | _ => demo_center end.
Lemma demo_history1 : history demo_center1 [demo_block] demo_merge1.2.
Proof.
  destruct (center_saves demo_center [] demo_started demo_prefix demo_write demo_jobs (demo_unsigned 33) None demo_history_start
    demo_write_started demo_temp_prefix demo_apart eq_refl demo_block_ok demo_chain) as (bw & w1 & c' & w2 & E1 & E2 & Hh).
  change (demo_run1 = (Ok bw, w1)) in E1. assert (demo_bw1 = bw) as Eb by (unfold demo_bw1; by rewrite E1).
  assert (demo_merge1 = (Ok c', w2)) as Em by (unfold demo_merge1; rewrite Eb, E1; exact E2).
  assert (demo_center1 = c') as -> by (unfold demo_center1; by rewrite Em). by rewrite Em.
Qed.
Definition demo_prefix2 : bytes := newPrefixStoragePrefixByHeight leveldbLabelBlockWrite 34 demo_ulid.
Definition demo_write2 : BlockWrite unit := NewLeveldbBlockWrite 34 tt demo_ulid.
Definition demo_jobs2 : list job := [JOperation "op2"; JOperation "op3"].
Definition demo_block2 : ABlock := block_of demo_jobs2 (demo_unsigned 34) None.
Definition demo_run2 : res (BlockWrite unit) * World MapDB.D (gmap string) :=
  write_block (P := unit) demo_jobs2 (demo_unsigned 34) None demo_write2 demo_merge1.2.
Definition demo_bw2 : BlockWrite unit := match demo_run2.1 with Ok b => b | _ => demo_write end.
Definition demo_merge2 : res (CenterDB unit unit) * World MapDB.D (gmap string) := MergeBlockWriteDatabase demo_bw2 demo_center1 demo_run2.2.
Definition demo_center2 : CenterDB unit unit := match demo_merge2.1 with Ok c => c | _ => demo_center end.
Lemma fresh_prefix (d : MapDB.D) p x : Forall (fun k => ~ p `prefix_of` k) (map_to_list d).*1 -> ldb_Get d (p ++ x) = None.
Proof.
  intros Hall. simpl. unfold get. destruct (decide _); [|done]. destruct (d !! (p ++ x)) as [v|] eqn:E; [|done]. exfalso.
  rewrite Forall_forall in Hall. apply (Hall (p ++ x)); [|by apply prefix_app_r].
  apply list_elem_of_fmap. exists (p ++ x, v). split; [done|]. by apply elem_of_map_to_list.
Qed.
Lemma demo_started2 : started demo_prefix2 demo_write2 demo_merge1.2.
Proof.
  split; try reflexivity; [| |done].
  - apply (bool_decide_unpack _). vm_compute. exact I.
  - intros x. apply fresh_prefix. apply (bool_decide_unpack _). vm_compute. exact I.
Qed.
Lemma demo_temp_prefix2 : temp_prefix demo_prefix2.
Proof. split; [apply (bool_decide_unpack _); vm_compute; exact I|reflexivity|by eexists]. Qed.
Lemma demo_apart2 : apart demo_prefix2 (bw_stcache demo_write2) demo_center1.
Proof.
  split; [|done]. assert (Forall (fun p => p <> Some demo_prefix2) (t_pst <$> (c_temps demo_center1 ++ c_removed demo_center1))) as Hf.
  { apply (bool_decide_unpack _). vm_compute. exact I. }
  intros t Ht. rewrite Forall_forall in Hf. apply Hf. apply list_elem_of_fmap. by exists t.
Qed.
Lemma demo_block_ok2 : block_ok (P := unit) tt demo_jobs2 (demo_unsigned 34) None.
Proof. split; try done. apply (bool_decide_unpack _). vm_compute. exact I. Qed.
Lemma demo_chain2 : chain_ok [demo_block2; demo_block].
Proof.
  constructor; [|done|done|apply demo_chain].
  split; try done; intros k st Hk; change (ab_states demo_block2) with (∅ : gmap string St) in Hk; by rewrite lookup_empty in Hk.
Qed.
Lemma demo_history2 : history demo_center2 [demo_block2; demo_block] demo_merge2.2.
Proof.
  destruct (center_saves demo_center1 [demo_block] demo_merge1.2 demo_prefix2 demo_write2 demo_jobs2 (demo_unsigned 34) None demo_history1
    demo_started2 demo_temp_prefix2 demo_apart2 eq_refl demo_block_ok2 demo_chain2) as (bw & w1 & c' & w2 & E1 & E2 & Hh).
  change (demo_run2 = (Ok bw, w1)) in E1. assert (demo_bw2 = bw) as Eb by (unfold demo_bw2; by rewrite E1).
  assert (demo_merge2 = (Ok c', w2)) as Em by (unfold demo_merge2; rewrite Eb, E1; exact E2).
  assert (demo_center2 = c') as -> by (unfold demo_center2; by rewrite Em). by rewrite Em.
Qed.

(** Two temporary databases, of which the older is merged. *)
Lemma MergeAllPermanent_ends_witness : exists c' w', length (c_temps demo_center2) = 2%nat /\
  MergeAllPermanent (fun jobs => (jobs, true)) demo_center2 demo_merge2.2 = (Ok c', w') /\ c_temps c' = take 1 (c_temps demo_center2) /\
  p_LastBlockMap (c_perm c') = Some (demo_unsigned 33).
Proof.
  destruct (MergeAllPermanent_ends (fun jobs => (jobs, true)) demo_center2 [demo_block2; demo_block] demo_merge2.2 demo_history2 ltac:(by intros jobs) ltac:(done))
    as (c' & w' & E1 & Ht & Hp & _).
  exists c', w'. split; [vm_compute; reflexivity|]. split; [exact E1|]. split; [exact Ht|].
  rewrite Hp, Ht. vm_compute. reflexivity.
Defined.
Lemma center_well_formed_witness : exists c w, history c [demo_block] w /\ (length (c_temps c) <= 1)%nat.
Proof.
  destruct demo_saved as (c & w & Hh). exists c, w. split; [exact Hh|]. exact (proj1 (center_well_formed c [demo_block] w Hh)).
Defined.
(** The same block again. *)
Lemma center_refuses_witness : exists c w e, history c [demo_block] w /\
  MergeBlockWriteDatabase (P := unit)
    (set_last (Some {| l_mp := Some (demo_unsigned 33, [], []); l_sufst := None; l_policy := None; l_proof := None |}) demo_write) c w = (Err e, w).
Proof.
  destruct demo_saved as (c & w & Hh).
  destruct (center_refuses c [demo_block] w
    (set_last (Some {| l_mp := Some (demo_unsigned 33, [], []); l_sufst := None; l_policy := None; l_proof := None |}) demo_write)
    _ demo_block Hh eq_refl eq_refl ltac:(discriminate)) as [(e & He) _].
  exists c, w, e. split; [exact Hh|exact He].
Defined.
End demo.
