(* ===== verification/Effects.v ===== *)
(** * Effects with an outcome ([util/worker.go], [util/retry.go])

    A computation over a world of type [W] ends with a result, an error or a panic,
    and with a world in every case: what was done before a failure stays done.  The
    file holds the monad, triples over it (one condition for success, one for
    failure), and the workers of the program as loops of it: the jobs of a worker run
    in an order that the argument [sched] picks. *)
From S2P Require Import Prelude Batch.

Open Scope Z_scope.

Definition IO (W A : Type) : Type := W -> res A * W.
#[export] Instance io_ret {W} : MRet (IO W) := fun A a w => (Ok a, w).
#[export] Instance io_bind {W} : MBind (IO W) := fun A B f m w =>
  match m w with
  | (Ok a, w) => f a w
  | (Err e, w) => (Err e, w)
  | (Panic, w) => (Panic, w)
  end.

Section io.
Context {W : Type}.
Implicit Types (w : W).

Definition io_lift {A} (r : res A) : IO W A := fun w => (r, w).
Definition io_err {A} (e : string) : IO W A := io_lift (Err e).
Definition io_panic {A} : IO W A := io_lift Panic.
Definition gets {A} (f : W -> A) : IO W A := fun w => (Ok (f w), w).
Definition modify (f : W -> W) : IO W unit := fun w => (Ok tt, f w).
(** [m], and on an error [c] before the error is returned. *)
Definition on_error {A} (m : IO W A) (c : IO W unit) : IO W A := fun w =>
  match m w with
  | (Err e, w) => match c w with (Panic, w) => (Panic, w) | (_, w) => (Err e, w) end
  | r => r
  end.
(** The error is a value. *)
Definition io_try {A} (m : IO W A) : IO W (res A) := fun w =>
  match m w with
  | (Panic, w) => (Panic, w)
  | (r, w) => (Ok r, w)
  end.

(** *** Triples *)
Definition triple {A} (P : W -> Prop) (m : IO W A) (Q : A -> W -> Prop) (R : W -> Prop) : Prop :=
  forall w, P w -> match m w with (Ok a, w) => Q a w | (_, w) => R w end.
(** A computation that keeps a predicate, whatever its outcome. *)
Definition keeps {A} (P : W -> Prop) (m : IO W A) : Prop := triple P m (fun _ => P) P.

Lemma triple_ret {A} (P : W -> Prop) (a : A) Q R : (forall w, P w -> Q a w) -> triple P (mret a) Q R.
Proof. intros H w Hw. by apply H. Qed.
Lemma triple_lift {A} (P : W -> Prop) (r : res A) (Q : A -> W -> Prop) (R : W -> Prop) :
  (forall w, P w -> match r with Ok a => Q a w | _ => R w end) -> triple P (io_lift r) Q R.
Proof. intros H w Hw. specialize (H w Hw). unfold io_lift. by destruct r. Qed.
Lemma triple_bind {A B} P (m : IO W A) (f : A -> IO W B) Q Q' R :
  triple P m Q R -> (forall a, triple (Q a) (f a) Q' R) -> triple P (m ≫= f) Q' R.
Proof.
  intros Hm Hf w Hw. specialize (Hm w Hw). unfold mbind, io_bind. destruct (m w) as [[a|e|] w']; [|done..]. by apply Hf.
Qed.
Lemma triple_weaken {A} (P P' : W -> Prop) (m : IO W A) (Q Q' : A -> W -> Prop) (R R' : W -> Prop) :
  triple P m Q R -> (forall w, P' w -> P w) -> (forall a w, Q a w -> Q' a w) -> (forall w, R w -> R' w) ->
  triple P' m Q' R'.
Proof. intros Hm HP HQ HR w Hw. specialize (Hm w (HP w Hw)). destruct (m w) as [[a|e|] w']; auto. Qed.
Lemma triple_on_error {A} P (m : IO W A) c Q (R : W -> Prop) :
  triple P m Q R -> keeps R c -> triple P (on_error m c) Q R.
Proof.
  intros Hm Hc w Hw. specialize (Hm w Hw). unfold on_error. destruct (m w) as [[a|e|] w']; [done| |done].
  specialize (Hc w' Hm). by destruct (c w') as [[]?].
Qed.
Lemma triple_modify P (f : W -> W) (Q : unit -> W -> Prop) R : (forall w, P w -> Q tt (f w)) -> triple P (modify f) Q R.
Proof. intros H w Hw. by apply H. Qed.
Lemma triple_gets {A} P (f : W -> A) (Q : A -> W -> Prop) R : (forall w, P w -> Q (f w) w) -> triple P (gets f) Q R.
Proof. intros H w Hw. by apply H. Qed.
Lemma triple_err {A} (P : W -> Prop) e (Q : A -> W -> Prop) (R : W -> Prop) : (forall w, P w -> R w) -> triple P (io_err e) Q R.
Proof. intros H w Hw. by apply H. Qed.
Lemma triple_panic {A} (P : W -> Prop) (Q : A -> W -> Prop) (R : W -> Prop) : (forall w, P w -> R w) -> triple P io_panic Q R.
Proof. intros H w Hw. by apply H. Qed.
(** A pure fact of the precondition. *)
Lemma triple_pure {A} (F : Prop) P (m : IO W A) Q R :
  (F -> triple P m Q R) -> triple (fun w => F /\ P w) m Q R.
Proof. intros H w [HF Hw]. by apply H. Qed.

Lemma keeps_ret {A} P (a : A) : keeps P (mret a).
Proof. by apply triple_ret. Qed.
Lemma keeps_lift {A} P (r : res A) : keeps P (io_lift r).
Proof. apply triple_lift. by destruct r. Qed.
Lemma keeps_bind {A B} P (m : IO W A) (f : A -> IO W B) : keeps P m -> (forall a, keeps P (f a)) -> keeps P (m ≫= f).
Proof. intros Hm Hf. eapply triple_bind; [exact Hm|exact Hf]. Qed.
Lemma keeps_on_error {A} P (m : IO W A) c : keeps P m -> keeps P c -> keeps P (on_error m c).
Proof. intros. by apply triple_on_error. Qed.

(** *** Workers *)
(** The jobs one after the other; a job that fails is the last one. *)
Fixpoint run_jobs {J} (f : J -> IO W unit) (l : list J) : IO W unit :=
  match l with
  | [] => mret tt
  | n :: l => f n ≫= fun _ => run_jobs f l
  end.

Lemma run_jobs_triple {J} (f : J -> IO W unit) (I : list J -> W -> Prop) R (l : list J) :
  (forall done n, n ∈ l -> triple (I done) (f n) (fun _ => I (done ++ [n])) R) ->
  triple (I []) (run_jobs f l) (fun _ => I l) R.
Proof.
  intros Hf. assert (forall rest done, done ++ rest = l -> triple (I done) (run_jobs f rest) (fun _ => I l) R) as H.
  { induction rest as [|n rest IH]; intros done Hl.
    - rewrite app_nil_r in Hl. subst done. by apply triple_ret.
    - simpl. eapply (triple_bind _ _ _ (fun _ => I (done ++ [n]))); [apply Hf; rewrite <- Hl; set_solver|]. intros []. apply IH. by rewrite <- app_assoc. }
  by apply (H l []).
Qed.
Lemma jobs_keep {J} (f : J -> IO W unit) P l : (forall n, n ∈ l -> keeps P (f n)) -> keeps P (run_jobs f l).
Proof. intros Hf. apply (run_jobs_triple f (fun _ => P) P l). intros _ n Hn. by apply Hf. Qed.

Section workers.
Variable sched : forall {J}, list J -> list J.

Definition RunWorkerIO {J} (workersize : Z) (jobs : list J) (f : J -> IO W unit) : IO W unit :=
  if workersize <? 1 then io_err "semSize under 1" else run_jobs f (sched jobs).

Definition batch_stepIO (workersize : Z) (pref : Z -> IO W unit) (f : Z -> Z -> IO W unit) (b : Z * Z) : IO W unit :=
  let '(i, e) := b in
  pref (e - 1) ≫= fun _ => RunWorkerIO workersize (seqZ i (e - i)) (fun n => f n (e - 1)).
(** [BatchWork], with the batches of [Batch]. *)
Definition BatchWorkIO (size limit : Z) (pref : Z -> IO W unit) (f : Z -> Z -> IO W unit) : IO W unit :=
  if size <? 1 then io_err "do nothing; wrong size"
  else if size <=? limit then batch_stepIO size pref f (0, size)
  else if limit <? 1 then
    pref (if limit =? 0 then 2 ^ 64 - 1 else size - 1) ≫= fun _ => RunWorkerIO limit [] (fun n => f n 0)
  else run_jobs (batch_stepIO limit pref f) (batches (Z.to_nat size) 0 size limit).

Hypothesis sched_perm : forall J (l : list J), sched l ≡ₚ l.

Lemma RunWorkerIO_triple {J} ws (jobs : list J) f (I : list J -> W -> Prop) R :
  1 <= ws -> (forall done n, n ∈ jobs -> triple (I done) (f n) (fun _ => I (done ++ [n])) R) ->
  (forall l w, l ≡ₚ jobs -> I l w -> I jobs w) ->
  triple (I []) (RunWorkerIO ws jobs f) (fun _ => I jobs) R.
Proof.
  intros Hws Hf Hp. unfold RunWorkerIO. rewrite (proj2 (Z.ltb_ge _ _)) by lia.
  eapply triple_weaken; [apply (run_jobs_triple f I R)| |intros [] w; apply Hp, sched_perm|done]; [|done].
  intros done n Hn. apply Hf. by rewrite (sched_perm J jobs) in Hn.
Qed.

(** The batches one after the other, from [P 0] to [P size]. *)
Lemma batchesIO_triple step (P : Z -> W -> Prop) R size limit fuel i :
  1 <= limit -> 0 <= i < size -> i mod limit = 0 -> size - i <= Z.of_nat fuel ->
  (forall i e, batch_of size limit i e -> triple (P i) (step (i, e)) (fun _ => P e) R) ->
  triple (P i) (run_jobs step (batches fuel i size limit)) (fun _ => P size) R.
Proof.
  intros Hl Hi Hm Hf Hs. revert i Hi Hm Hf. induction fuel as [|fuel IH]; intros i Hi Hm Hf; [lia|]. cbn [batches run_jobs].
  eapply (triple_bind _ _ _ (fun _ => P (Z.min (i + limit) size))); [apply Hs; unfold batch_of; lia|]. intros [].
  destruct (Z.eqb_spec (Z.min (i + limit) size) size) as [E|E]; [rewrite E; by apply triple_ret|].
  rewrite Z.min_l by lia. apply IH; [lia| |lia]. rewrite <- (Z.mul_1_l limit) at 1. by rewrite Z.mod_add by lia.
Qed.

Lemma BatchWorkIO_triple size limit pref f (P : Z -> W -> Prop) R :
  1 <= size -> 1 <= limit ->
  (forall ws i e, 1 <= ws -> batch_of size limit i e -> triple (P i) (batch_stepIO ws pref f (i, e)) (fun _ => P e) R) ->
  triple (P 0) (BatchWorkIO size limit pref f) (fun _ => P size) R.
Proof.
  intros Hsize Hl Hs. unfold BatchWorkIO. rewrite (proj2 (Z.ltb_ge _ _)) by lia.
  destruct (Z.leb_spec size limit).
  - apply Hs; [lia|]. unfold batch_of. rewrite Z.mod_0_l by lia. lia.
  - rewrite (proj2 (Z.ltb_ge _ _)) by lia. apply batchesIO_triple; try lia; [by rewrite Z.mod_0_l by lia|].
    intros i e. by apply Hs.
Qed.
End workers.
End io.
