(* ===== verification/LocalFS.v ===== *)
(** * The files of a block

    [isaac/block/localfs_writer.go], [isaac/block/localfs_importer.go],
    [isaac/block/reader.go], and what of [isaac/readers.go] reads the lines of a file.

    A block is a directory with a file for each item.  A file is a list of lines, a
    header first; the text of a line, JSON, is not looked at ([line]), nor is its
    compression.  The writer of a block makes the files in a directory of its own,
    which becomes the directory of the height when the block is saved; a second file,
    beside that directory, lists the items ([st_items]). *)
From S2P Require Import Prelude FixedTree Point Vote Slice Ballot Voteproof Batch Block State SuffrageState SuffrageProof.

Open Scope Z_scope.

(** ** Lines and files *)
(** A proposal, by what a block needs of it ([base.ProposalSignFact]). *)
Record BlockProposal := { bp_height : Z; bp_fact : Hash; bp_proposedAt : option Z }.

(** The receipts of operations come from other packages. *)
Class Receipts := { OperationReceipt : Type; receipt_IsValid : OperationReceipt -> err }.
Record OperationReceiptRecord `{Receipts} := { rr_operation : Hash; rr_facthash : Hash; rr_receipt : option OperationReceipt }.
Definition NewOperationReceiptRecord `{Receipts} (operation facthash : Hash) (receipt : option OperationReceipt)
    : OperationReceiptRecord := {| rr_operation := operation; rr_facthash := facthash; rr_receipt := receipt |}.
Definition OperationReceiptRecord_IsValid `{Crypto, Receipts} (r : OperationReceiptRecord) : err :=
  check_all [Hash_IsValid (rr_operation r); Hash_IsValid (rr_facthash r)] ≫= fun _ =>
  match rr_receipt r with Some rc => receipt_IsValid rc | None => Ok tt end.

(** An operation is its hash and the hash of its fact, as in [Block]. *)
Inductive line `{Receipts} :=
  | LHeader (count : Z)                       (* a line that begins with "# " *)
  | LProposal (pr : BlockProposal)
  | LOperation (op : Hash * Hash)
  | LReceipt (r : OperationReceiptRecord)
  | LNode (index : Z) (n : FixedTree.Node)
  | LState (st : St)
  | LVoteproof (vp : Voteproof)
  | LMap (m : BlockMap)
  | LBad (e : string).                        (* it does not decode *)
Abbreviation file := (list line).

(** What the encoder makes of a value, the checksum of a file, and what the buffer of a
    reader has taken of a file when nothing is read after the header. *)
Class ItemCodec `{Receipts} := { Marshal_line : line -> err; file_checksum : file -> string; read_ahead : file -> file }.

Section files.
Context `{Crypto, BlockCrypto, TreeHash, Receipts, !ItemCodec}.

(** ** Reading ([isaac/block/reader.go], [isaac/readers.go]) *)
Definition is_header (l : line) : bool := match l with LHeader _ => true | _ => false end.
(** [ReadBlockItemFileHeader]: the lines before the first header are dropped. *)
Fixpoint LoadBlockItemFileHeader (f : file) : res (Z * file) :=
  match f with
  | [] => Err "EOF"
  | LHeader count :: f => Ok (count, f)
  | _ :: f => LoadBlockItemFileHeader f
  end.
(** [BlockItemDecodeLineItems]: the header lines are skipped; the values before one
    that does not decode are handed on. *)
Fixpoint decode_lines (f : file) : list line * err :=
  match f with
  | [] => ([], Ok tt)
  | LBad e :: _ => ([], Err e)
  | l :: f => if is_header l then decode_lines f else let '(ls, r) := decode_lines f in (l :: ls, r)
  end.

(** [BlockItemDecodeLineItemsWithWorker]: [callback] runs in the order of the
    workers; the number of lines is returned. *)
Definition DecodeLineItemsWithWorker {S} (sched : list (nat * line) -> list (nat * line)) (f : file) (num : Z)
    (callback : nat -> line -> S -> res S) (s : S) : res (Z * S) :=
  if num <? 1 then Err "semSize under 1"
  else
    let '(ls, r) := decode_lines f in
    r ≫= fun _ =>
    fold_res (fun '(i, v) => callback i v) (sched (imap pair ls)) s ≫= fun s =>
    Ok (Z.of_nat (length ls), s).

Section reader.
Variable sched : list (nat * line) -> list (nat * line).
Variable maxWorkerSize : Z.

Definition worker_size (count : Z) : Z := if count <? maxWorkerSize then count else maxWorkerSize.
(** [item] gets the count of the header, the number of the line, and the value. *)
Definition decodeCountItems {S} (f : file) (item : Z -> nat -> line -> S -> res S) (s : S) : res (Z * S) :=
  LoadBlockItemFileHeader f ≫= fun '(count, f) =>
  if count <? 1 then Ok (0, s)
  else DecodeLineItemsWithWorker sched f (worker_size count) (item count) s.

(** An array as long as the header says, made by the first line; a line after the end
    of it panics. *)
Definition put_item {A} (total : Z) (index : nat) (a : A) (l : option (list (option A))) : res (option (list (option A))) :=
  let l := match l with Some l => l | None => replicate (Z.to_nat total) None end in
  if (index <? length l)%nat then Ok (Some (<[index := Some a]> l)) else Panic.
(** The array up to the number of lines. *)
Definition up_to {A} (n : Z) (l : option (list (option A))) : list (option A) := take (Z.to_nat n) (default [] l).

(** [BlockItemReadersDecodeItems] of operations, of states and of receipts. *)
Definition read_items {A} (as_value : line -> option A) (f : file) : res (list (option A)) :=
  decodeCountItems f (fun total i v l =>
    match as_value v with Some a => put_item total i a l | None => Err "unexpected type" end) None ≫= fun '(n, l) =>
  Ok (up_to n l).
Definition as_operation (l : line) : option (Hash * Hash) := match l with LOperation op => Some op | _ => None end.
Definition as_state (l : line) : option St := match l with LState st => Some st | _ => None end.
Definition as_receipt (l : line) : option OperationReceiptRecord := match l with LReceipt r => Some r | _ => None end.

(** [decodeTree]: a node comes with its index. *)
Definition decodeTree (f : file) : res (list FixedTree.Node) :=
  LoadBlockItemFileHeader f ≫= fun '(count, f) =>
  if count <? 1 then Ok []
  else
    DecodeLineItemsWithWorker sched f (worker_size count) (fun _ v nodes =>
      match v with LNode i n => Tree_Set nodes i n | _ => Err "unexpected type" end)
      (replicate (Z.to_nat count) None) ≫= fun '(_, nodes) =>
    Ok nodes.

Definition decodeVoteproofs (f : file) : res (Voteproof * Voteproof) :=
  LoadBlockItemFileHeader f ≫= fun '(_, f) =>
  DecodeLineItemsWithWorker sched f 2 (fun _ v vps =>
    match v with
    | LVoteproof vp => Ok (if is_init_type vp then (Some vp, vps.2) else (vps.1, Some vp))
    | _ => Err "not voteproof"
    end) (None, None) ≫= fun '(_, vps) =>
  match vps with (Some ivp, Some avp) => Ok (ivp, avp) | _ => Err "missing" end.

(** [decodeOneItem]: the first value after the header. *)
Definition decodeOneItem (f : file) : res line :=
  LoadBlockItemFileHeader f ≫= fun '(_, f) =>
  match f with [] => Err "EOF" | LBad e :: _ => Err e | l :: _ => Ok l end.
End reader.

(** ** A block ([isaac/block/validator.go]) *)
(** An item that is nil is looked into later. *)
Fixpoint all_set {A} (l : list (option A)) : res (list A) :=
  match l with [] => Ok [] | None :: _ => Panic | Some a :: l => all_set l ≫= fun r => Ok (a :: r) end.
(** What the block map does not have stays empty. *)
Definition load_item {A} (bm : BlockMap) (d : gmap BlockItemType file) (t : BlockItemType) (empty : A) (f : file -> res A) : res A :=
  if has_item bm t then match d !! t with Some x => f x | None => Err "block item" end else Ok empty.
Definition loadable : list BlockItemType :=
  [ BlockItemProposal; BlockItemOperationsTree; BlockItemStatesTree; BlockItemVoteproofs; BlockItemOperations;
    BlockItemOperationReceipts; BlockItemStates ].
Definition state_entry (st : St) : Hash * Z := (default "" (s_h st), s_height st).
Definition receipt_entry (r : OperationReceiptRecord) : Receipt := {| rc_operation := rr_operation r; rc_fact := rr_facthash r |}.
(** [LoadBlockItemsFromReader] and [LoadOperationReceiptsFromReader], with workers in
    the order of [sched]. *)
Definition LoadBlockItemsFromReader (sched : list (nat * line) -> list (nat * line)) (maxWorkerSize : Z) (bm : BlockMap)
    (d : gmap BlockItemType file) : res BlockItems :=
  guard_err (negb (forallb (fun i => bool_decide (bi_t i ∈ loadable)) (BlockMap_Items bm))) "unknown item" ≫= fun _ =>
  load_item bm d BlockItemProposal None (fun f => decodeOneItem f ≫= fun l =>
    match l with LProposal pr => Ok (Some (bp_height pr, bp_fact pr)) | _ => Err "unexpected type" end) ≫= fun pr =>
  load_item bm d BlockItemOperationsTree [] (decodeTree sched maxWorkerSize) ≫= fun opstree =>
  load_item bm d BlockItemStatesTree [] (decodeTree sched maxWorkerSize) ≫= fun ststree =>
  load_item bm d BlockItemVoteproofs (None, None) (fun f => decodeVoteproofs sched f ≫= fun vps : Voteproof * Voteproof => Ok (Some vps.1, Some vps.2)) ≫= fun vps =>
  load_item bm d BlockItemOperations [] (fun f => read_items sched maxWorkerSize as_operation f ≫= all_set) ≫= fun ops =>
  load_item bm d BlockItemStates [] (fun f => read_items sched maxWorkerSize as_state f ≫= all_set) ≫= fun sts : list St =>
  load_item bm d BlockItemOperationReceipts None (fun f => read_items sched maxWorkerSize as_receipt f ≫= fun l : list (option OperationReceiptRecord) => all_set l ≫= fun rs => Ok (Some rs)) ≫= fun receipts : option (list OperationReceiptRecord) =>
  Ok {| it_proposal := pr; it_ops := ops; it_sts := state_entry <$> sts; it_opstree := opstree; it_ststree := ststree;
        it_vps := vps; it_receipts := (fun rs : list OperationReceiptRecord => receipt_entry <$> rs) <$> receipts |}.

(** ** The blocks of a node *)
Record Storage := {
  st_heights : gmap Z (gmap BlockItemType file);
  st_items : gmap Z (gset BlockItemType)
}.
Definition set_height (h : Z) (d : option (gmap BlockItemType file)) (s : Storage) : Storage :=
  {| st_heights := partial_alter (fun _ => d) h (st_heights s); st_items := st_items s |}.
Definition set_items (h : Z) (i : option (gset BlockItemType)) (s : Storage) : Storage :=
  {| st_heights := st_heights s; st_items := partial_alter (fun _ => i) h (st_items s) |}.

(** [RemoveBlockFromLocalFS]: the list of the items first. *)
Definition RemoveBlockFromLocalFS (h : Z) (s : Storage) : res Storage :=
  match st_items s !! h with
  | None => Err "files.json"
  | Some _ => Ok (set_height h None (set_items h None s))
  end.

(** ** Writing ([isaac/block/localfs_writer.go]) *)
Record LocalFSWriter := {
  lw_vps : option Voteproof * option Voteproof;
  lw_local : option (Address * Privatekey);
  lw_opsf : option file;                     (* the files that are open *)
  lw_stsf : option file;
  lw_temp : gmap BlockItemType file;         (* those in the temporary directory that are complete *)
  lw_bfiles : gset BlockItemType;
  lw_m : BlockMap;
  lw_lenops : Z;
  lw_height : Z;
  lw_saved : bool
}.
Implicit Types (w : LocalFSWriter).

(** [NewBlockMap]: nothing is in it. *)
Definition no_sign : BaseNodeSign := {| bs_node := ""; bs_signer := ""; bs_signature := ""; bs_signedAt := None |}.
Definition no_manifest : Manifest :=
  {| mf_hash := None; mf_height := 0; mf_previous := None; mf_proposal := None; mf_operationsTree := None;
     mf_statesTree := None; mf_suffrage := None; mf_proposedAt := None |}.
Definition NewBlockMap : BlockMap := {| bm_manifest := no_manifest; bm_items := ∅; bm_sign := no_sign |}.

Definition NewLocalFSWriter (height : Z) (local : Address * Privatekey) : LocalFSWriter :=
  {| lw_vps := (None, None); lw_local := Some local; lw_opsf := Some []; lw_stsf := Some []; lw_temp := ∅;
     lw_bfiles := ∅; lw_m := NewBlockMap; lw_lenops := 0; lw_height := height; lw_saved := false |}.

Definition set_vps (vps : option Voteproof * option Voteproof) w : LocalFSWriter :=
  {| lw_vps := vps; lw_local := lw_local w; lw_opsf := lw_opsf w; lw_stsf := lw_stsf w; lw_temp := lw_temp w;
     lw_bfiles := lw_bfiles w; lw_m := lw_m w; lw_lenops := lw_lenops w; lw_height := lw_height w; lw_saved := lw_saved w |}.
Definition set_opsf (f : option file) (lenops : Z) w : LocalFSWriter :=
  {| lw_vps := lw_vps w; lw_local := lw_local w; lw_opsf := f; lw_stsf := lw_stsf w; lw_temp := lw_temp w;
     lw_bfiles := lw_bfiles w; lw_m := lw_m w; lw_lenops := lenops; lw_height := lw_height w; lw_saved := lw_saved w |}.
Definition set_stsf (f : option file) w : LocalFSWriter :=
  {| lw_vps := lw_vps w; lw_local := lw_local w; lw_opsf := lw_opsf w; lw_stsf := f; lw_temp := lw_temp w;
     lw_bfiles := lw_bfiles w; lw_m := lw_m w; lw_lenops := lw_lenops w; lw_height := lw_height w; lw_saved := lw_saved w |}.
Definition set_map (m : BlockMap) w : LocalFSWriter :=
  {| lw_vps := lw_vps w; lw_local := lw_local w; lw_opsf := lw_opsf w; lw_stsf := lw_stsf w; lw_temp := lw_temp w;
     lw_bfiles := lw_bfiles w; lw_m := m; lw_lenops := lw_lenops w; lw_height := lw_height w; lw_saved := lw_saved w |}.
(** A complete file, and its line in the list of the items. *)
Definition add_file (t : BlockItemType) (f : file) w : LocalFSWriter :=
  {| lw_vps := lw_vps w; lw_local := lw_local w; lw_opsf := lw_opsf w; lw_stsf := lw_stsf w; lw_temp := <[t := f]> (lw_temp w);
     lw_bfiles := {[ t ]} ∪ lw_bfiles w; lw_m := lw_m w; lw_lenops := lw_lenops w; lw_height := lw_height w; lw_saved := lw_saved w |}.

(** The file of an item goes into the block map. *)
Definition map_item (t : BlockItemType) (f : file) w : res LocalFSWriter :=
  SetItem {| bi_t := t; bi_checksum := file_checksum f |} (lw_m w) ≫= fun m => Ok (set_map m w).

(** [writeItem]: a header without a count, and the value. *)
Definition writeItem (t : BlockItemType) (v : line) w : res LocalFSWriter :=
  Marshal_line v ≫= fun _ =>
  let f := [LHeader 0; v] in
  let w := add_file t f w in
  if bool_decide (t = BlockItemMap) then Ok w else map_item t f w.

Definition SetProposal (pr : BlockProposal) w : res LocalFSWriter := writeItem BlockItemProposal (LProposal pr) w.

(** The header once, then the line. *)
Definition append_line (total : Z) (v : line) (f : file) : res file :=
  let f := match f with [] => [LHeader total] | _ => f end in
  Marshal_line v ≫= fun _ => Ok (f ++ [v]).
Definition SetOperation (total : Z) (op : Hash * Hash) w : res LocalFSWriter :=
  match lw_opsf w with
  | None => Panic
  | Some f => append_line total (LOperation op) f ≫= fun f => Ok (set_opsf (Some f) (lw_lenops w + 1) w)
  end.
Definition SetState (total : Z) (st : St) w : res LocalFSWriter :=
  match lw_stsf w with
  | None => Panic
  | Some f => append_line total (LState st) f ≫= fun f => Ok (set_stsf (Some f) w)
  end.

Fixpoint receipt_lines (receipts : list OperationReceiptRecord) : res file :=
  match receipts with
  | [] => Ok []
  | r :: rs =>
      OperationReceiptRecord_IsValid r ≫= fun _ => Marshal_line (LReceipt r) ≫= fun _ =>
      receipt_lines rs ≫= fun f => Ok (LReceipt r :: f)
  end.
Definition SetOperationReceipts (receipts : list OperationReceiptRecord) w : res LocalFSWriter :=
  if (length receipts <? 1)%nat then Ok w
  else
    receipt_lines receipts ≫= fun ls =>
    let f := LHeader (Z.of_nat (length receipts)) :: ls in
    map_item BlockItemOperationReceipts f w ≫= fun w => Ok (add_file BlockItemOperationReceipts f w).

(** [setTree]: [newjob] runs with the workers that write the nodes, which come in
    their order. *)
Definition node_line (index : nat) (n : FixedTree.Node) : line := LNode (Z.of_nat index) n.
Definition setTree (treetype : BlockItemType) (tr : list FixedTree.Node)
    (newjob : LocalFSWriter -> res LocalFSWriter) w : res LocalFSWriter :=
  newjob w ≫= fun w =>
  Traverse 0 tr (fun i n => Marshal_line (node_line i (Some n))) ≫= fun _ =>
  let f := LHeader (Z.of_nat (length tr)) :: imap node_line tr in
  map_item treetype f w ≫= fun w => Ok (add_file treetype f w).
Definition SetOperationsTree (tr : list FixedTree.Node) w : res LocalFSWriter :=
  setTree BlockItemOperationsTree tr (fun w =>
    if 0 <? lw_lenops w then map_item BlockItemOperations (default [] (lw_opsf w)) w else Ok w) w.
Definition SetStatesTree (tr : list FixedTree.Node) w : res LocalFSWriter :=
  setTree BlockItemStatesTree tr (fun w => map_item BlockItemStates (default [] (lw_stsf w)) w) w.

Definition SetManifest (m : Manifest) w : LocalFSWriter :=
  set_map {| bm_manifest := m; bm_items := bm_items (lw_m w); bm_sign := bm_sign (lw_m w) |} w.

(** Only when both are there, and once. *)
Definition saveVoteproofs w : res LocalFSWriter :=
  match lw_vps w with
  | (Some ivp, Some avp) =>
      if has_item (lw_m w) BlockItemVoteproofs then Ok w
      else
        Marshal_line (LVoteproof ivp) ≫= fun _ => Marshal_line (LVoteproof avp) ≫= fun _ =>
        let f := [LHeader 0; LVoteproof ivp; LVoteproof avp] in
        map_item BlockItemVoteproofs f w ≫= fun w => Ok (add_file BlockItemVoteproofs f w)
  | _ => Ok w
  end.
Definition SetINITVoteproof (vp : Voteproof) w : res LocalFSWriter := saveVoteproofs (set_vps (Some vp, (lw_vps w).2) w).
Definition SetACCEPTVoteproof (vp : Voteproof) w : res LocalFSWriter := saveVoteproofs (set_vps ((lw_vps w).1, Some vp) w).

(** The file of the operations, or of the states, is kept when the block map has it. *)
Definition keep_file (t : BlockItemType) (f : option file) w : LocalFSWriter :=
  match f with
  | Some f => if has_item (lw_m w) t then add_file t f w else w
  | None => w
  end.
Definition saveMap (networkID : string) (now : Z) w : res LocalFSWriter :=
  match lw_local w with
  | None => Panic
  | Some (node, priv) =>
      BlockMap_Sign node priv networkID now (lw_m w) ≫= fun m =>
      writeItem BlockItemMap (LMap m) (set_map m w)
  end.
Definition lw_close w : LocalFSWriter :=
  {| lw_vps := (None, None); lw_local := None; lw_opsf := None; lw_stsf := None; lw_temp := ∅; lw_bfiles := lw_bfiles w;
     lw_m := NewBlockMap; lw_lenops := 0; lw_height := lw_height w; lw_saved := lw_saved w |}.
Definition set_saved w : LocalFSWriter :=
  {| lw_vps := lw_vps w; lw_local := lw_local w; lw_opsf := lw_opsf w; lw_stsf := lw_stsf w; lw_temp := lw_temp w;
     lw_bfiles := lw_bfiles w; lw_m := lw_m w; lw_lenops := lw_lenops w; lw_height := lw_height w; lw_saved := true |}.

(** The temporary directory becomes that of the height. *)
Definition lw_save (networkID : string) (now : Z) w (s : Storage) : res (BlockMap * LocalFSWriter * Storage) :=
  let w := keep_file BlockItemStates (lw_stsf w) (keep_file BlockItemOperations (lw_opsf w) w) in
  guard_err (negb (has_item (lw_m w) BlockItemVoteproofs)) "empty voteproofs" ≫= fun _ =>
  saveMap networkID now w ≫= fun w =>
  let s := set_items (lw_height w) (Some (lw_bfiles w)) (set_height (lw_height w) (Some (lw_temp w)) s) in
  Ok (lw_m w, set_saved (lw_close w), s).
Definition lw_Save (networkID : string) (now : Z) w (s : Storage) : res (BlockMap * LocalFSWriter * Storage) :=
  if lw_saved w then Ok (lw_m w, w, s)
  else match st_heights s !! lw_height w with
  | Some _ => Err "height directory already exists"
  | None => lw_save networkID now w s
  end.
Definition lw_Cancel w : LocalFSWriter := lw_close w.

(** ** Importing ([isaac/block/localfs_importer.go]) *)
Record LocalFSImporter := {
  li_temp : option (gmap BlockItemType file);        (* gone when it is saved or cancelled *)
  li_bfiles : gset BlockItemType;
  li_height : Z
}.
Definition NewLocalFSImporter : LocalFSImporter := {| li_temp := Some ∅; li_bfiles := ∅; li_height := 0 |}.
Definition li_put (t : BlockItemType) (f : file) (height : Z) (l : LocalFSImporter) : res LocalFSImporter :=
  match li_temp l with
  | None => Err "no such file or directory"
  | Some d => Ok {| li_temp := Some (<[t := f]> d); li_bfiles := {[ t ]} ∪ li_bfiles l; li_height := height |}
  end.
Definition li_WriteMap (m : BlockMap) (l : LocalFSImporter) : res LocalFSImporter :=
  Marshal_line (LMap m) ≫= fun _ => li_put BlockItemMap [LHeader 0; LMap m] (bm_height m) l.
(** [WriteItem], and what the reader of the item writes through it. *)
Definition li_WriteItem (t : BlockItemType) (f : file) (l : LocalFSImporter) : res LocalFSImporter :=
  BlockItemType_IsValid t ≫= fun _ => li_put t f (li_height l) l.
(** A directory of the height that is there is replaced. *)
Definition li_Save (l : LocalFSImporter) (s : Storage) : res LocalFSImporter * Storage :=
  let s := set_height (li_height l) None s in
  match li_temp l with
  | None => (Err "no such file or directory", s)
  | Some d =>
      (Ok {| li_temp := None; li_bfiles := li_bfiles l; li_height := li_height l |},
       set_items (li_height l) (Some (li_bfiles l)) (set_height (li_height l) (Some d) s))
  end.
(** The list of the items stays. *)
Definition li_Cancel (l : LocalFSImporter) (s : Storage) : LocalFSImporter * Storage :=
  ({| li_temp := None; li_bfiles := li_bfiles l; li_height := li_height l |}, set_height (li_height l) None s).
End files.

(** ** Reading back what was written *)
Section roundtrip.
Context `{Crypto, BlockCrypto, TreeHash, Receipts}.
Variable sched : list (nat * line) -> list (nat * line).
Variable maxWorkerSize : Z.
Hypothesis sched_perm : forall l, sched l ≡ₚ l.
Hypothesis workers : 1 <= maxWorkerSize.

Definition plain (l : line) : Prop := match l with LHeader _ | LBad _ => False | _ => True end.
Lemma decode_plain ls : Forall plain ls -> decode_lines ls = (ls, Ok tt).
Proof. induction 1 as [|l ls Hl _ IH]; [done|]. simpl. rewrite IH. by destruct l. Qed.

(** The jobs of the workers, in their order, over an invariant of the lines that are
    done. *)
Lemma worker_lines {S} (f : file) num (callback : nat -> line -> S -> res S) (I : list (nat * line) -> S -> Prop) s :
  1 <= num -> Forall plain f ->
  (forall done i l s, f !! i = Some l -> (forall v, (i, v) ∉ done) -> I done s -> exists s', callback i l s = Ok s' /\ I (done ++ [(i, l)]) s') ->
  (forall l l' s, l ≡ₚ l' -> I l s -> I l' s) -> I [] s ->
  exists s', DecodeLineItemsWithWorker sched f num callback s = Ok (Z.of_nat (length f), s') /\ I (imap pair f) s'.
Proof.
  intros Hn Hp Hstep Hperm H0'. unfold DecodeLineItemsWithWorker. rewrite (proj2 (Z.ltb_ge _ _)), decode_plain by done.
  cbn [mbind res_bind].
  assert (forall i l, (i, l) ∈ sched (imap pair f) -> f !! i = Some l) as Hin.
  { intros i l. rewrite (sched_perm (imap pair f)), elem_of_lookup_imap. by intros (j & x & [= <- <-] & ?). }
  assert (NoDup (sched (imap pair f))) as Hnd.
  { rewrite (sched_perm (imap pair f)). apply NoDup_alt. intros i j [x y] Hi Hj. rewrite !list_lookup_imap in Hi, Hj.
    destruct (f !! i); [|done]. destruct (f !! j); [|done]. simpl in *. congruence. }
  enough (exists s', fold_res (fun '(i, v) => callback i v) (sched (imap pair f)) s = Ok s' /\ I (imap pair f) s') as (s' & -> & HI)
    by (by exists s').
  assert (forall rest done s, done ++ rest = sched (imap pair f) -> I done s ->
    exists s', fold_res (fun '(i, v) => callback i v) rest s = Ok s' /\ I (sched (imap pair f)) s') as Hall.
  { induction rest as [|[i l] rest IH]; intros done s1 Hd HI; [rewrite app_nil_r in Hd; subst; by eexists|].
    destruct (Hstep done i l s1) as (s2 & E & HI2); [apply Hin; rewrite <- Hd; set_solver| |done|].
    - intros v Hv. assert ((i, v) = (i, l)) as [= ->].
      { assert (f !! i = Some v) as E1 by (apply Hin; rewrite <- Hd; set_solver).
        assert (f !! i = Some l) as E2 by (apply Hin; rewrite <- Hd; set_solver). congruence. }
      rewrite <- Hd in Hnd. apply NoDup_app in Hnd as (_ & Hd' & _). apply (Hd' _ Hv). set_solver.
    - cbn [fold_res]. rewrite E. cbn [mbind res_bind]. apply (IH (done ++ [(i, l)])); [by rewrite <- app_assoc|done]. }
  destruct (Hall (sched (imap pair f)) [] s eq_refl H0') as (s' & E & HI). exists s'. split; [done|].
  eapply Hperm; [apply sched_perm|done].
Qed.

Lemma worker_size_pos n : 1 <= n -> 1 <= worker_size maxWorkerSize n.
Proof. intros Hn. unfold worker_size. destruct (Z.ltb_spec n maxWorkerSize); lia. Qed.

(** A file of items, with a header that counts at least as many as there are. *)
Lemma read_written {A} (as_value : line -> option A) (mk : A -> line) (l : list A) n :
  (forall a, as_value (mk a) = Some a /\ plain (mk a)) -> l <> [] -> Z.of_nat (length l) <= n ->
  read_items sched maxWorkerSize as_value (LHeader n :: (mk <$> l)) = Ok (Some <$> l).
Proof.
  intros Hmk Hne Hn. assert (1 <= n) as Hn1 by (destruct l; [done|]; simpl in Hn; lia).
  unfold read_items, decodeCountItems. simpl. rewrite (proj2 (Z.ltb_ge _ _)) by lia.
  set (I := fun (done : list (nat * line)) (arr : option (list (option A))) =>
    (arr = None -> done = []) /\ (forall x, arr = Some x -> length x = Z.to_nat n /\
      forall i v a, (i, v) ∈ done -> as_value v = Some a -> x !! i = Some (Some a))).
  destruct (worker_lines (mk <$> l) (worker_size maxWorkerSize n) (fun i v arr =>
      match as_value v with Some a => put_item n i a arr | None => Err "unexpected type" end) I None) as (arr & E & HI).
  - by apply worker_size_pos.
  - apply Forall_fmap, Forall_forall. intros a _. apply Hmk.
  - intros done i v arr Hi Hnd [HI1 HI2]. rewrite list_lookup_fmap in Hi. destruct (l !! i) as [a|] eqn:Ea; [|done]. injection Hi as <-.
    destruct (Hmk a) as [Ha _]. rewrite Ha. unfold put_item.
    assert (exists x, match arr with Some l => l | None => replicate (Z.to_nat n) None end = x /\ length x = Z.to_nat n /\
      forall i v a, (i, v) ∈ done -> as_value v = Some a -> x !! i = Some (Some a)) as (x & -> & Hx & Hxd).
    { destruct arr as [x|]; [exists x; split; [done|]; by apply HI2|]. eexists. split; [done|].
      rewrite length_replicate. split; [done|]. rewrite HI1 by done. by intros ? ? ? ?%elem_of_nil. }
    apply lookup_lt_Some in Ea as Hlt. destruct (Nat.ltb_spec i (length x)); [|lia]. eexists. split; [done|]. split; [done|].
    intros y [= <-]. split; [by rewrite length_insert|]. intros j v b [Hin|Hin%list_elem_of_singleton]%elem_of_app Hb.
    + rewrite list_lookup_insert_ne; [by eapply Hxd|]. intros ->. by destruct (Hnd v).
    + injection Hin as -> ->. rewrite Ha in Hb. injection Hb as <-. by rewrite list_lookup_insert_eq.
  - intros l1 l2 arr Hp [HI1 HI2]. split.
    + intros Ha. rewrite (HI1 Ha) in Hp. by apply Permutation_nil_l in Hp.
    + intros x Hx. destruct (HI2 x Hx) as [Hl Hd]. split; [done|]. intros i v a. rewrite <- Hp. apply Hd.
  - by split.
  - rewrite E. cbn [mbind res_bind]. rewrite length_fmap. destruct HI as [HI1 HI2]. destruct arr as [x|].
    2: { specialize (HI1 eq_refl). by destruct l. }
    destruct (HI2 x eq_refl) as [Hl Hd]. unfold up_to. simpl. rewrite Nat2Z.id. f_equal. apply list_eq. intros i.
    rewrite list_lookup_fmap. destruct (l !! i) as [a|] eqn:Ea.
    + apply lookup_lt_Some in Ea as Hlt. rewrite lookup_take_lt by done. apply (Hd i (mk a) a); [|apply Hmk].
      apply elem_of_lookup_imap. exists i, (mk a). by rewrite list_lookup_fmap, Ea.
    + apply lookup_ge_None in Ea. rewrite lookup_ge_None_2; [done|]. rewrite length_take. lia.
Qed.

(** A tree. *)
Lemma read_tree tr : tr <> [] -> (forall i, (i < length tr)%nat -> exists n, tr !! i = Some (Some n)) ->
  decodeTree sched maxWorkerSize (LHeader (Z.of_nat (length tr)) :: imap node_line tr) = Ok tr.
Proof.
  intros Hne Hsome. unfold decodeTree. simpl. assert (0 < length tr)%nat as Hpos by (destruct tr; [done|]; simpl; lia).
  rewrite (proj2 (Z.ltb_ge _ _)) by lia. rewrite Nat2Z.id.
  set (I := fun (done : list (nat * line)) (x : list FixedTree.Node) =>
    length x = length tr /\ forall i v, (i, v) ∈ done -> x !! i = tr !! i).
  destruct (worker_lines (imap node_line tr) (worker_size maxWorkerSize (Z.of_nat (length tr))) (fun _ v nodes =>
      match v with LNode i n => Tree_Set nodes i n | _ => Err "unexpected type" end) I (replicate (length tr) None)) as (x & E & Hl & Hd).
  - apply worker_size_pos. lia.
  - apply Forall_lookup. intros i v. rewrite list_lookup_imap. destruct (tr !! i); [|done]. by intros [= <-].
  - intros done i v x Hi Hnd [Hl Hd]. rewrite list_lookup_imap in Hi. destruct (tr !! i) as [o|] eqn:Eo; [|done]. injection Hi as <-. simpl.
    apply lookup_lt_Some in Eo as Hlt. unfold Tree_Set, len. rewrite (proj2 (Z.leb_gt _ _)) by lia. rewrite Nat2Z.id.
    eexists. split; [done|]. split; [by rewrite length_insert|]. intros j v [Hin|Hin%list_elem_of_singleton]%elem_of_app.
    + rewrite list_lookup_insert_ne; [by eapply Hd|]. intros ->. by destruct (Hnd v).
    + simplify_eq. by rewrite list_lookup_insert_eq by lia.
  - intros l1 l2 y Hp [Hl Hd]. split; [done|]. intros i v. rewrite <- Hp. apply Hd.
  - split; [by rewrite length_replicate|]. by intros ? ? ?%elem_of_nil.
  - rewrite E. cbn [mbind res_bind]. f_equal. apply list_eq. intros i. destruct (decide (i < length tr)%nat) as [Hlt|Hge].
    + destruct (Hsome i Hlt) as (n & Hn). apply (Hd i (node_line i (Some n))). apply elem_of_lookup_imap. exists i, (node_line i (Some n)).
      by rewrite list_lookup_imap, Hn.
    + rewrite !lookup_ge_None_2; [done|lia..].
Qed.

(** The voteproofs. *)
Lemma read_voteproofs ivp avp : is_init_type ivp = true -> is_init_type avp = false ->
  decodeVoteproofs sched [LHeader 0; LVoteproof ivp; LVoteproof avp] = Ok (ivp, avp).
Proof.
  intros Hi Ha. unfold decodeVoteproofs. simpl.
  set (I := fun (done : list (nat * line)) (x : option Voteproof * option Voteproof) =>
    (forall i, (i, LVoteproof ivp) ∈ done -> x.1 = Some ivp) /\ (forall i, (i, LVoteproof avp) ∈ done -> x.2 = Some avp)).
  destruct (worker_lines [LVoteproof ivp; LVoteproof avp] 2 (fun _ v vps =>
    match v with
    | LVoteproof vp => Ok (if is_init_type vp then (Some vp, vps.2) else (vps.1, Some vp))
    | _ => Err "not voteproof"
    end) I (None, None)) as (x & E & H1' & H2').
  - done.
  - by repeat constructor.
  - intros done i v x Hv _ [HI1 HI2]. assert (v = LVoteproof ivp \/ v = LVoteproof avp) as [-> | ->].
    { destruct i as [|[|i]]; simpl in Hv; [injection Hv as <-; by left|injection Hv as <-; by right|done]. }
    + rewrite Hi. eexists. split; [done|]. split; simpl; [done|]. intros j [Hj|Hj%list_elem_of_singleton]%elem_of_app; [by eapply HI2|].
      injection Hj as _ Hj. by rewrite Hj, Hi in Ha.
    + rewrite Ha. eexists. split; [done|]. split; simpl; [|done]. intros j [Hj|Hj%list_elem_of_singleton]%elem_of_app; [by eapply HI1|].
      injection Hj as _ Hj. by rewrite <- Hj, Hi in Ha.
  - intros l1 l2 y Hp [HI1 HI2]. split; intros i; rewrite <- Hp; [apply HI1|apply HI2].
  - split; by intros ? ?%elem_of_nil.
  - rewrite E. cbn [mbind res_bind]. destruct x as [a b]. simpl in H1', H2'.
    rewrite (H1' 0%nat) by (apply list_elem_of_here). rewrite (H2' 1%nat); [done|]. apply list_elem_of_further, list_elem_of_here.
Qed.

End roundtrip.
