(* ===== verification/Writer.v ===== *)
(** * Writing a block

    [isaac/block/writer.go], and what [isaac/proposal_processor.go] does with the
    operations of a proposal.

    Workers process the operations of a proposal and hand the results to the writer,
    which keeps the tree of the operations and merges the states; what goes into the
    files and the database is left to a second worker, whose jobs ([save_job]) run in
    any order and are waited for when the block is saved.  The database is an
    interface ([BlockWriteDatabase]); [Tempdb] has one. *)
From S2P Require Import Prelude FixedTree Point Vote Slice Ballot Voteproof Batch Block State SuffrageState SuffrageProof Tempdb Effects LocalFS.

Open Scope Z_scope.

(** The database a block is written to ([isaac.BlockWriteDatabase]). *)
Class BlockWriteDatabase (B : Type) := {
  db_SetOperations : list Hash -> IO B unit;
  db_SetStates : list St -> IO B unit;
  db_SetBlockMap : BlockMap -> IO B unit;
  db_SetSuffrageProof : SuffrageProof -> IO B unit;
  db_SuffrageState : B -> option St;
  db_Write : IO B unit;
  db_Cancel : IO B unit
}.

Inductive save_job :=
  | JobOperations (op : Hash)
  | JobOperation (op : Hash * Hash)
  | JobState (total : Z) (st : St)
  | JobManifest
  | JobINIT (vp : Voteproof)
  | JobACCEPT (vp : Voteproof)
  | JobProposal.

(** What became of an operation of the proposal before it is processed, and what the
    processing gives ([getOperation], [doPreProcessOperation], [opp.Process]). *)
Inductive prepared `{Receipts} :=
  | PIgnored                                                  (* not found, or suspended *)
  | PReasoned (oph fact : Hash)                               (* [ReasonProcessedOperation] *)
  | PRefused (op : Hash * Hash)                               (* the pre-processing gives a reason *)
  | PProcessed (op : Hash * Hash) (stvs : list (merge_value state_value)) (reason : bool)
      (receipt : option OperationReceipt)
  | PFailed (e : string).                                     (* an error of the pre-processing *)

Record Writer `{Receipts} := {
  wr_proposal : option BlockProposal;                         (* none when it is closed *)
  wr_manifest : option Manifest;
  wr_opstree : list FixedTree.Node;
  wr_opstreeg : option (list FixedTree.Node);
  wr_merger : DefaultStatesMerger state_value;
  wr_ststree : list FixedTree.Node;
  wr_receipts : option (list (option OperationReceiptRecord));
  wr_receiptSet : list bool;
  wr_hasReceipts : bool;
  wr_jobs : option (list save_job);                           (* none before the worker is made *)
  wr_worker_closed : bool
}.

Section writer.
Context `{Crypto, BlockCrypto, TreeHash, !StateValue state_value, Receipts, !ItemCodec} {B : Type} `{BlockWriteDatabase B}.
Variable getStateFunc : string -> res (option St).
Implicit Types (w : Writer).

Definition NewWriter (pr : BlockProposal) : Writer :=
  {| wr_proposal := Some pr; wr_manifest := None; wr_opstree := []; wr_opstreeg := None;
     wr_merger := {| sm_height := bp_height pr; sm_stvmmap := ∅ |}; wr_ststree := []; wr_receipts := None;
     wr_receiptSet := []; wr_hasReceipts := false; wr_jobs := None; wr_worker_closed := false |}.

Definition set_opstree (g : option (list FixedTree.Node)) (tr : list FixedTree.Node) w : Writer :=
  {| wr_proposal := wr_proposal w; wr_manifest := wr_manifest w; wr_opstree := tr; wr_opstreeg := g;
     wr_merger := wr_merger w; wr_ststree := wr_ststree w; wr_receipts := wr_receipts w; wr_receiptSet := wr_receiptSet w;
     wr_hasReceipts := wr_hasReceipts w; wr_jobs := wr_jobs w; wr_worker_closed := wr_worker_closed w |}.
Definition set_merger (sm : DefaultStatesMerger state_value) w : Writer :=
  {| wr_proposal := wr_proposal w; wr_manifest := wr_manifest w; wr_opstree := wr_opstree w; wr_opstreeg := wr_opstreeg w;
     wr_merger := sm; wr_ststree := wr_ststree w; wr_receipts := wr_receipts w; wr_receiptSet := wr_receiptSet w;
     wr_hasReceipts := wr_hasReceipts w; wr_jobs := wr_jobs w; wr_worker_closed := wr_worker_closed w |}.
Definition set_ststree (tr : list FixedTree.Node) w : Writer :=
  {| wr_proposal := wr_proposal w; wr_manifest := wr_manifest w; wr_opstree := wr_opstree w; wr_opstreeg := wr_opstreeg w;
     wr_merger := wr_merger w; wr_ststree := tr; wr_receipts := wr_receipts w; wr_receiptSet := wr_receiptSet w;
     wr_hasReceipts := wr_hasReceipts w; wr_jobs := wr_jobs w; wr_worker_closed := wr_worker_closed w |}.
Definition set_receipts (rs : option (list (option OperationReceiptRecord))) (set : list bool) (has : bool) w : Writer :=
  {| wr_proposal := wr_proposal w; wr_manifest := wr_manifest w; wr_opstree := wr_opstree w; wr_opstreeg := wr_opstreeg w;
     wr_merger := wr_merger w; wr_ststree := wr_ststree w; wr_receipts := rs; wr_receiptSet := set; wr_hasReceipts := has;
     wr_jobs := wr_jobs w; wr_worker_closed := wr_worker_closed w |}.
Definition set_wmanifest (m : Manifest) w : Writer :=
  {| wr_proposal := wr_proposal w; wr_manifest := Some m; wr_opstree := wr_opstree w; wr_opstreeg := wr_opstreeg w;
     wr_merger := wr_merger w; wr_ststree := wr_ststree w; wr_receipts := wr_receipts w; wr_receiptSet := wr_receiptSet w;
     wr_hasReceipts := wr_hasReceipts w; wr_jobs := wr_jobs w; wr_worker_closed := wr_worker_closed w |}.
Definition set_jobs (jobs : option (list save_job)) (closed : bool) w : Writer :=
  {| wr_proposal := wr_proposal w; wr_manifest := wr_manifest w; wr_opstree := wr_opstree w; wr_opstreeg := wr_opstreeg w;
     wr_merger := wr_merger w; wr_ststree := wr_ststree w; wr_receipts := wr_receipts w; wr_receiptSet := wr_receiptSet w;
     wr_hasReceipts := wr_hasReceipts w; wr_jobs := jobs; wr_worker_closed := closed |}.

(** [w.saveWorker(true).NewJob]. *)
Definition NewJob (j : save_job) w : res Writer :=
  if wr_worker_closed w then Err "job worker is closed" else Ok (set_jobs (Some (default [] (wr_jobs w) ++ [j])) false w).

(** *** While the operations are processed *)
(** Nothing happens for no operations. *)
Definition SetOperationsSize (n : nat) w : Writer :=
  match FixedTree.NewWriter n with
  | Ok g => set_receipts (Some (replicate n None)) (replicate n false) false (set_opstree (Some g) (wr_opstree w) w)
  | _ => w
  end.

Definition operation_node (facthash : Hash) (instate : bool) : BaseNode :=
  NewBaseNode (if instate then facthash else (facthash +:+ "-"))%string.
Definition SetProcessResult (index : nat) (op : option Hash) (facthash : Hash) (instate : bool) w : res Writer :=
  match op with Some op => NewJob (JobOperations op) w | None => Ok w end ≫= fun w =>
  match wr_opstreeg w with
  | None => Panic
  | Some g => Add g (Z.of_nat index) (operation_node facthash instate) ≫= fun g => Ok (set_opstree (Some g) (wr_opstree w) w)
  end.

Definition SetOperationReceipt (index : nat) (op facthash : Hash) (receipt : option OperationReceipt) w : res Writer :=
  match wr_receipts w with
  | None => Ok w
  | Some rs =>
      if (length rs <=? index)%nat then Err "receipt index out of range"
      else
        match receipt with Some r => receipt_IsValid r | None => Ok tt end ≫= fun _ =>
        Ok (set_receipts (Some (<[index := Some (NewOperationReceiptRecord op facthash receipt)]> rs))
              (<[index := true]> (wr_receiptSet w)) (wr_hasReceipts w || bool_decide (is_Some receipt)) w)
  end.

Definition SetStates (states : list (merge_value state_value)) (operation : Hash * Hash) w : res Writer :=
  match wr_proposal w with
  | None => Err "not yet written"
  | Some _ =>
      State.SetStates getStateFunc states operation.2 (wr_merger w) ≫= fun sm =>
      NewJob (JobOperation operation) (set_merger sm w)
  end.

(** A worker of [processOperation]. *)
Definition processOperation (index : nat) (p : prepared) w : res Writer :=
  match p with
  | PIgnored => Ok w
  | PFailed e => Err e
  | PReasoned oph fact => SetProcessResult index (Some oph) fact false w
  | PRefused op => SetStates [] op w ≫= fun w => SetProcessResult index (Some op.1) op.2 false w
  | PProcessed op stvs reason receipt =>
      let instate := (1 <=? length stvs)%nat in
      (if instate then guard_err reason "not empty state must have empty reason"
       else guard_err (negb reason) "empty state must have reason") ≫= fun _ =>
      SetStates stvs op w ≫= fun w =>
      SetProcessResult index (Some op.1) op.2 instate w ≫= fun w =>
      SetOperationReceipt index op.1 op.2 receipt w
  end.
Definition is_failed (p : prepared) : bool := match p with PFailed _ => true | _ => false end.
Definition is_ignored (p : prepared) : bool := match p with PIgnored => true | _ => false end.
Definition active (ps : list prepared) : list (nat * prepared) := filter (fun ip => is_ignored ip.2 = false) (imap pair ps).

(** [processOperations]: the operations are prepared in their order; those that are
    ignored have no worker. *)
Definition processOperations (sched : list (nat * prepared) -> list (nat * prepared)) (maxWorkerSize : Z)
    (EmptyProposalNoBlock : bool) (ps : list prepared) w : res Writer :=
  let w := SetOperationsSize (length ps) w in
  if Z.min (Z.of_nat (length ps)) maxWorkerSize <? 1 then Err "semSize under 1"
  else if existsb is_failed ps then Err "pre process operation"
  else
    fold_res (fun '(i, p) => processOperation i p) (sched (active ps)) w ≫= fun w =>
    if (length (active ps) <? 1)%nat && EmptyProposalNoBlock then Err "empty operations" else Ok w.

(** *** The manifest *)
Definition state_node (st : St) : BaseNode := NewBaseNode (default "" (s_h st)).
Fixpoint add_states (sts : list (nat * St)) (g : list FixedTree.Node) : res (list FixedTree.Node) :=
  match sts with
  | [] => Ok g
  | (i, st) :: sts => Add g (Z.of_nat i) (state_node st) ≫= add_states sts
  end.
Fixpoint NewJobs (js : list save_job) w : res Writer :=
  match js with [] => Ok w | j :: js => NewJob j w ≫= NewJobs js end.
(** The states are closed by workers, in an order of theirs. *)
Definition closeStateValues (sched : list (nat * St) -> list (nat * St)) w : res (list (nat * St) * Writer) :=
  if (size (sm_stvmmap (wr_merger w)) <? 1)%nat then Ok ([], w)
  else
    let '(total, sts) := CloseStates (wr_merger w) in
    FixedTree.NewWriter total ≫= fun g =>
    add_states (sched sts) g ≫= fun g =>
    NewJobs ((fun ist : nat * St => JobState (Z.of_nat total) ist.2) <$> sched sts) w ≫= fun w =>
    Writer_Tree g ≫= fun tr => Ok (sts, set_ststree tr w).
Definition tree_root (tr : list FixedTree.Node) : res (option Hash) :=
  if (0 <? length tr)%nat then Tree_Root tr else Ok None.
Definition closed_suffrage (sts : list (nat * St)) : option St :=
  snd <$> last (filter (fun ist => s_k ist.2 = SuffrageStateKey) sts).

Definition Writer_Manifest (sched : list (nat * St) -> list (nat * St)) (previous : option Manifest) w : res (Manifest * Writer) :=
  match wr_proposal w with
  | None => Err "not yet written"
  | Some pr =>
      let above := GenesisHeight <? bp_height pr in
      if above && negb (bool_decide (is_Some previous)) then Err "not yet written"
      else
        match wr_opstreeg w with
        | None => Ok w
        | Some g => Writer_Tree g ≫= fun tr => Ok (set_opstree (Some tr) tr w)
        end ≫= fun w =>
        tree_root (wr_opstree w) ≫= fun opsroot =>
        closeStateValues sched w ≫= fun '(sts, w) =>
        tree_root (wr_ststree w) ≫= fun stsroot =>
        let prev := if above then previous else None in
        let suffrage := match closed_suffrage sts with Some st => s_h st | None => prev ≫= mf_suffrage end in
        match wr_manifest w with
        | Some m => Ok (m, w)
        | None =>
            let m := NewManifest (bp_height pr) (prev ≫= mf_hash) (Some (bp_fact pr)) opsroot stsroot suffrage (bp_proposedAt pr) in
            NewJob JobManifest (set_wmanifest m w) ≫= fun w => Ok (m, w)
        end
  end.

Definition Writer_SetINITVoteproof (vp : Voteproof) w : res Writer := NewJob (JobINIT vp) w.
Definition Writer_SetACCEPTVoteproof (vp : Voteproof) w : res Writer := NewJob (JobACCEPT vp) w.

(** [process]: the writer processes the operations of the proposal, if there are any,
    and makes the manifest; without any there may be no block. *)
Definition process_proposal (sched : list (nat * prepared) -> list (nat * prepared)) (schedst : list (nat * St) -> list (nat * St))
    (maxWorkerSize : Z) (EmptyProposalNoBlock : bool) (ps : list prepared) (previous : option Manifest) (pr : BlockProposal)
    : res (Manifest * Writer) :=
  (if (length ps <? 1)%nat then if EmptyProposalNoBlock then Err "empty operations" else Ok (NewWriter pr)
   else processOperations sched maxWorkerSize EmptyProposalNoBlock ps (NewWriter pr)) ≫= fun w =>
  Writer_Manifest schedst previous w.

(** *** Saving *)
Record World := { ww : Writer; ww_fs : LocalFSWriter; ww_st : Storage; ww_db : B }.
Definition on_writer (f : Writer -> res Writer) : IO World unit := fun x =>
  match f (ww x) with
  | Ok w => (Ok tt, {| ww := w; ww_fs := ww_fs x; ww_st := ww_st x; ww_db := ww_db x |})
  | Err e => (Err e, x) | Panic => (Panic, x)
  end.
Definition on_fs (f : LocalFSWriter -> res LocalFSWriter) : IO World unit := fun x =>
  match f (ww_fs x) with
  | Ok fs => (Ok tt, {| ww := ww x; ww_fs := fs; ww_st := ww_st x; ww_db := ww_db x |})
  | Err e => (Err e, x) | Panic => (Panic, x)
  end.
Definition on_db {A} (m : IO B A) : IO World A := fun x =>
  let '(r, db) := m (ww_db x) in (r, {| ww := ww x; ww_fs := ww_fs x; ww_st := ww_st x; ww_db := db |}).

Definition do_save_job (j : save_job) : IO World unit :=
  match j with
  | JobOperations op => on_db (db_SetOperations [op])
  | JobOperation op =>
      gets (fun x => wr_opstreeg (ww x)) ≫= fun g =>
      match g with
      | None => io_panic
      | Some g => on_fs (SetOperation (Z.of_nat (length g)) op)
      end
  | JobState total st => on_fs (SetState total st) ≫= fun _ => on_db (db_SetStates [st])
  | JobManifest =>
      gets (fun x => wr_manifest (ww x)) ≫= fun m =>
      on_fs (fun fs => Ok (SetManifest (default no_manifest m) fs))
  | JobINIT vp => on_fs (SetINITVoteproof vp)
  | JobACCEPT vp => on_fs (SetACCEPTVoteproof vp)
  | JobProposal =>
      gets (fun x => wr_proposal (ww x)) ≫= fun pr =>
      match pr with None => io_panic | Some pr => on_fs (SetProposal pr) end
  end.

Definition when (b : bool) (m : IO World unit) : IO World unit := if b then m else mret tt.

Section save.
Variable sched : list save_job -> list save_job.
Variables (networkID : string) (now : Z) (mergeDatabase : IO B unit).

(** The operations of a receipt are all there, or it is an error. *)
Definition save_receipts : IO World unit :=
  gets ww ≫= fun w =>
  when (wr_hasReceipts w) (
    if forallb id (wr_receiptSet w) then
      on_fs (SetOperationReceipts (omap id (default [] (wr_receipts w))))
    else io_err "receipt not set").
Definition waitSaveWorker : IO World unit :=
  gets ww ≫= fun w =>
  match wr_jobs w with
  | None => mret tt
  | Some _ =>
      on_writer (NewJob JobProposal) ≫= fun _ =>
      gets (fun x => default [] (wr_jobs (ww x))) ≫= fun jobs =>
      on_writer (fun w => Ok (set_jobs (Some jobs) true w)) ≫= fun _ =>
      run_jobs do_save_job (sched jobs) ≫= fun _ =>
      on_db db_Write ≫= fun _ =>
      when (0 <? length (wr_opstree w))%nat (on_fs (SetOperationsTree (wr_opstree w))) ≫= fun _ =>
      save_receipts ≫= fun _ =>
      when (0 <? length (wr_ststree w))%nat (on_fs (SetStatesTree (wr_ststree w)))
  end.

Definition fs_Save : IO World BlockMap := fun x =>
  match lw_Save networkID now (ww_fs x) (ww_st x) with
  | Ok (m, fs, st) => (Ok m, {| ww := ww x; ww_fs := fs; ww_st := st; ww_db := ww_db x |})
  | Err e => (Err e, x) | Panic => (Panic, x)
  end.
(** [db.SuffrageState] is the suffrage state among those that were set. *)
Definition save_suffrage_proof (m : BlockMap) : IO World unit :=
  gets (fun x => db_SuffrageState (ww_db x)) ≫= fun st =>
  match st with
  | None => mret tt
  | Some st =>
      gets (fun x => wr_ststree (ww x)) ≫= fun tr =>
      io_lift (ExtractProofMaterial tr (default "" (s_h st))) ≫= fun proof =>
      on_db (db_SetSuffrageProof {| sp_m := m; sp_st := st; sp_proof := proof |})
  end.
Definition wr_close w : Writer :=
  {| wr_proposal := None; wr_manifest := None; wr_opstree := wr_opstree w; wr_opstreeg := None;
     wr_merger := {| sm_height := sm_height (wr_merger w); sm_stvmmap := ∅ |}; wr_ststree := []; wr_receipts := None;
     wr_receiptSet := []; wr_hasReceipts := false; wr_jobs := wr_jobs w; wr_worker_closed := wr_worker_closed w |}.
Definition Writer_Save : IO World BlockMap :=
  waitSaveWorker ≫= fun _ =>
  fs_Save ≫= fun m =>
  on_db (db_SetBlockMap m) ≫= fun _ =>
  save_suffrage_proof m ≫= fun _ =>
  on_db mergeDatabase ≫= fun _ =>
  on_writer (fun w => Ok (wr_close w)) ≫= fun _ =>
  mret m.
(** [save] of the processor: the voteproofs, then the block. *)
Definition save_proposal (ivp avp : Voteproof) : IO World BlockMap :=
  on_writer (Writer_SetINITVoteproof ivp) ≫= fun _ =>
  on_writer (Writer_SetACCEPTVoteproof avp) ≫= fun _ =>
  Writer_Save.
Definition Writer_Cancel : IO World unit :=
  on_writer (fun w => Ok (set_jobs (wr_jobs w) true w)) ≫= fun _ =>
  on_fs (fun fs => Ok (lw_Cancel fs)) ≫= fun _ =>
  on_db db_Cancel ≫= fun _ =>
  on_writer (fun w => Ok (wr_close w)).
End save.
End writer.
