(* ===== verification/WriterLaws.v ===== *)
(** * What a writer writes is valid

    The proofs about [Writer]: whatever the order in which the workers process the
    operations of a proposal, close the states and write the files, the files of the
    block agree with its manifest as the validation of blocks ([Block]) asks. *)
From S2P Require Import Prelude FixedTree Point Vote Slice Ballot Voteproof Batch Block State SuffrageState SuffrageProof Tempdb Effects LocalFS Writer.

Open Scope Z_scope.

(** ** Trees that workers fill *)
(** The slots from [k] on hold the nodes of [l], which are sorted by their index. *)
Record slots (k : nat) (nodes : list FixedTree.Node) (l : list (nat * BaseNode)) : Prop := {
  sl_sorted : StronglySorted lt l.*1;
  sl_range i b : (i, b) ∈ l -> (k <= i < k + length nodes)%nat;
  sl_some i b : nodes !! i = Some (Some b) -> ((k + i)%nat, b) ∈ l;
  sl_none i b : nodes !! i = Some None -> ((k + i)%nat, b) ∉ l
}.

Lemma slots_shrink k nodes l : slots k nodes l -> shrinkNodes nodes = Some <$> l.*2.
Proof.
  revert k l. induction nodes as [|o nodes IH]; intros k l S.
  - destruct l as [|[i b] l]; [done|]. destruct (sl_range _ _ _ S i b); [set_solver|]. simpl in *. lia.
  - assert (forall b, o = Some b <-> (k, b) ∈ l) as Ho.
    { intros b. split; [intros ->; rewrite <- (Nat.add_0_r k); by apply (sl_some _ _ _ S 0)|]. intros Hb.
      destruct o as [b'|].
      - assert ((k, b') ∈ l) as Hb' by (rewrite <- (Nat.add_0_r k); by apply (sl_some _ _ _ S 0)). f_equal.
        assert (NoDup l.*1) as Hnd.
        { pose proof (sl_sorted _ _ _ S) as Hs. clear -Hs. induction Hs as [|a l' Hs' IH Hf]; constructor; [|done].
          intros Hin. rewrite Forall_forall in Hf. specialize (Hf _ Hin). lia. }
        clear -Hnd Hb Hb'. induction l as [|[j x] l IH]; [by apply elem_of_nil in Hb|]. inversion Hnd as [|? ? Hn Hnd']. subst.
        apply elem_of_cons in Hb as [E1|Hb]; apply elem_of_cons in Hb' as [E2|Hb']; [congruence| | |by apply IH].
        + simplify_eq. exfalso. apply Hn. apply list_elem_of_fmap. by exists (j, b').
        + simplify_eq. exfalso. apply Hn. apply list_elem_of_fmap. by exists (j, b).
      - exfalso. apply (sl_none _ _ _ S 0 b); [done|]. by rewrite Nat.add_0_r. }
    pose proof (sl_sorted _ _ _ S) as Hsort.
    destruct o as [b|]; simpl.
    + destruct l as [|[i b'] l]; [by destruct (proj1 (elem_of_nil _) (proj1 (Ho b) eq_refl))|].
      assert (i = k /\ b' = b) as [-> ->].
      { inversion Hsort as [|? ? _ Hf]. subst. rewrite Forall_forall in Hf.
        pose proof (proj1 (Ho b) eq_refl) as [Heq|Hin]%elem_of_cons; [by simplify_eq|].
        destruct (sl_range _ _ _ S i b'); [set_solver|]. specialize (Hf k). exfalso.
        enough (i < k)%nat by lia. apply Hf, list_elem_of_fmap. by exists (k, b). }
      simpl. f_equal. apply (IH (Datatypes.S k)). inversion Hsort as [|? ? Hs Hf]. subst. rewrite Forall_forall in Hf. split; [done| | |].
      * intros i b' Hin. destruct (sl_range _ _ _ S i b'); [set_solver|]. simpl in *.
        specialize (Hf i). enough (k < i)%nat by lia. apply Hf, list_elem_of_fmap. by exists (i, b').
      * intros i b' Hi. destruct (proj1 (elem_of_cons _ _ _) (sl_some _ _ _ S (Datatypes.S i) b' Hi)) as [[= Hk _]|Hin]; [lia|].
        by replace (Datatypes.S k + i)%nat with (k + Datatypes.S i)%nat by lia.
      * intros i b' Hi Hin. apply (sl_none _ _ _ S (Datatypes.S i) b' Hi).
        replace (k + Datatypes.S i)%nat with (Datatypes.S k + i)%nat by lia. set_solver.
    + apply (IH (Datatypes.S k)). split; [done| | |].
      * intros i b Hin. destruct (sl_range _ _ _ S i b Hin). simpl in *. destruct (decide (i = k)) as [->|]; [|lia].
        by pose proof (proj2 (Ho b) Hin).
      * intros i b Hi. replace (Datatypes.S k + i)%nat with (k + Datatypes.S i)%nat by lia. by apply (sl_some _ _ _ S).
      * intros i b Hi. replace (Datatypes.S k + i)%nat with (k + Datatypes.S i)%nat by lia. by apply (sl_none _ _ _ S).
Qed.

(** The slots while they are filled, in any order. *)
Definition filling (n : nat) (nodes : list FixedTree.Node) (done : list (nat * BaseNode)) : Prop :=
  length nodes = n /\
  (forall i b, (i, b) ∈ done -> nodes !! i = Some (Some b)) /\
  (forall i, (i < n)%nat -> (forall b, (i, b) ∉ done) -> nodes !! i = Some None).

Lemma filling_start n : filling n (replicate n None) [].
Proof.
  split; [by rewrite length_replicate|]. split; [by intros i b ?%elem_of_nil|]. intros i Hi _. by apply lookup_replicate_2.
Qed.
Lemma filling_perm n nodes l l' : l ≡ₚ l' -> filling n nodes l -> filling n nodes l'.
Proof.
  intros Hp (Hl & Hs & Hn). split; [done|]. split; [intros i b; rewrite <- Hp; apply Hs|].
  intros i Hi Hb. apply Hn; [done|]. intros b. rewrite Hp. apply Hb.
Qed.
Lemma filling_add n nodes done i k nodes' : filling n nodes done -> (forall b, (i, b) ∉ done) ->
  Add nodes (Z.of_nat i) (NewBaseNode k) = Ok nodes' -> filling n nodes' (done ++ [(i, NewBaseNode k)]).
Proof.
  intros (Hl & Hs & Hn) Hi. unfold Add. destruct (Z.leb_spec (len nodes) (Z.of_nat i)) as [|Hlt]; [done|].
  rewrite Nat2Z.id. intros [= <-]. unfold len in Hlt. split; [by rewrite length_insert|]. split.
  - intros j b [Hin|Hin%list_elem_of_singleton]%elem_of_app.
    + rewrite list_lookup_insert_ne; [by apply Hs|]. intros ->. by destruct (Hi b).
    + simplify_eq. by rewrite list_lookup_insert_eq by lia.
  - intros j Hj Hb. rewrite list_lookup_insert_ne; [apply Hn; [done|]|].
    + intros b Hin. apply (Hb b). set_solver.
    + intros ->. apply (Hb (NewBaseNode k)). set_solver.
Qed.
Lemma filling_slots n nodes l : filling n nodes l -> StronglySorted lt l.*1 -> (forall i b, (i, b) ∈ l -> (i < n)%nat) ->
  slots 0 nodes l.
Proof.
  intros (Hl & Hs & Hn) Hsort Hr. split; [done| | |].
  - intros i b Hin. split; [lia|]. specialize (Hr i b Hin). lia.
  - intros i b Hi. simpl. apply dec_stable. intros Hnot.
    destruct (decide (Exists (fun jb => jb.1 = i) l)) as [([j b'] & Hin & Hj)%Exists_exists|Hno].
    + simpl in Hj. subst j. pose proof (Hs _ _ Hin) as E1. rewrite E1 in Hi. by injection Hi as ->.
    + rewrite Hn in Hi; [done| |].
      * rewrite <- Hl. by eapply lookup_lt_Some.
      * intros b' Hin. apply Hno, Exists_exists. by exists (i, b').
  - intros i b Hi Hin. simpl in Hin. by rewrite (Hs _ _ Hin) in Hi.
Qed.
Lemma filling_pending n nodes l : filling n nodes l -> (forall i b, (i, b) ∈ l -> exists k, b = NewBaseNode k /\ k <> "") ->
  Forall pending nodes.
Proof.
  intros (Hl & Hs & Hn) Hk. apply Forall_lookup. intros i o Hi. destruct o as [b|]; [|done].
  destruct (decide (Exists (fun jb => jb.1 = i) l)) as [([j b'] & Hin & Hj)%Exists_exists|Hno].
  - simpl in Hj. subst j. rewrite (Hs _ _ Hin) in Hi. injection Hi as ->. by destruct (Hk _ _ Hin) as (k & -> & ?).
  - rewrite Hn in Hi; [done| |].
    + rewrite <- Hl. by eapply lookup_lt_Some.
    + intros b' Hin. apply Hno, Exists_exists. by exists (i, b').
Qed.

(** The tree of a filled writer. *)
Record tree_of `{TreeHash} (tr : list FixedTree.Node) (l : list (nat * BaseNode)) : Prop := {
  to_valid : Tree_IsValid (Ok tt) tr = Ok tt;
  to_keys : node_keys tr = (fun ib => Some (n_key ib.2)) <$> l;
  to_root : exists r, Tree_Root tr = Ok (Some r)
}.
Lemma tree_of_length `{TreeHash} tr l : tree_of tr l -> length tr = length l.
Proof. intros T. pose proof (f_equal length (to_keys _ _ T)) as Hl. unfold node_keys in Hl. by rewrite !length_fmap in Hl. Qed.
Lemma tree_of_lookup `{TreeHash} tr l i : tree_of tr l -> (i < length tr)%nat ->
  exists n j b, tr !! i = Some (Some n) /\ l !! i = Some (j, b) /\ n_key n = n_key b.
Proof.
  intros T Hi. pose proof (f_equal (fun x => x !! i) (to_keys _ _ T)) as Hk. unfold node_keys in Hk. rewrite !list_lookup_fmap in Hk.
  destruct (lookup_lt_is_Some_2 tr i Hi) as [o Ho]. rewrite Ho in Hk. simpl in Hk.
  destruct (l !! i) as [[j b]|]; [|done]. destruct o as [n|]; [|done]. injection Hk as Hk. by exists n, j, b.
Qed.

Lemma filled_tree `{TreeHashLaws} n nodes l : (forall s, hash_IsValid (sha256 s) = Ok tt) -> Z.of_nat n <= max_size ->
  filling n nodes l -> StronglySorted lt l.*1 -> (forall i b, (i, b) ∈ l -> (i < n)%nat /\ exists k, b = NewBaseNode k /\ k <> "") ->
  l <> [] -> exists tr, Writer_Tree nodes = Ok tr /\ tree_of tr l.
Proof.
  intros Hv Hn F Hs Hr Hne. pose proof (slots_shrink _ _ _ (filling_slots _ _ _ F Hs (fun i b Hin => proj1 (Hr i b Hin)))) as Hsh.
  destruct (Writer_Tree_ok nodes) as (tr & E1 & Ht & Hh & Hk).
  - done.
  - unfold len. by rewrite (proj1 F).
  - eapply filling_pending; [exact F|]. intros i b Hin. apply (Hr i b Hin).
  - rewrite Hsh. by destruct l.
  - exists tr. split; [done|]. split; [done| |].
    + rewrite Hk, Hsh. unfold node_keys. rewrite <- !list_fmap_compose. done.
    + destruct tr as [|o tr].
      { rewrite Hsh in Hk. unfold node_keys in Hk. destruct l; [done|]. done. }
      destruct (Hh 0%nat) as (b & h & Hb & He & _ & Hnh & _); [simpl; lia|]. simpl in Hb. injection Hb as ->.
      exists h. simpl. unfold Node_Hash. by rewrite He, Hnh.
Qed.
(** Without any node there is no tree. *)
Lemma empty_tree `{TreeHash} n : Writer_Tree (replicate n None) = Err "empty nodes".
Proof.
  assert (shrinkNodes (replicate n None) = []) as Hs by (induction n; done).
  unfold Writer_Tree, Write. rewrite Hs. done.
Qed.

(** ** The operations *)
Section processing.
Context `{Crypto, BlockCrypto, TreeHash, !StateValue state_value, Receipts}.
Variable getStateFunc : string -> res (option St).
Implicit Types (w : Writer) (p : prepared) (done : list (nat * prepared)).

(** The node of an operation, and the operation that goes into the file. *)
Definition node_of p : BaseNode :=
  match p with
  | PReasoned _ fact => operation_node fact false
  | PRefused op => operation_node op.2 false
  | PProcessed op stvs _ _ => operation_node op.2 (1 <=? length stvs)%nat
  | _ => EmptyBaseNode
  end.
Definition op_of p : option (Hash * Hash) :=
  match p with PRefused op | PProcessed op _ _ _ => Some op | _ => None end.
Definition has_receipt (ip : nat * prepared) : Prop :=
  match ip.2 with PProcessed _ _ _ (Some _) => True | _ => False end.
Definition node_at_slot (ip : nat * prepared) : nat * BaseNode := (ip.1, node_of ip.2).
Definition job_op (j : save_job) : option (Hash * Hash) := match j with JobOperation op => Some op | _ => None end.
Definition job_st (j : save_job) : option St := match j with JobState _ st => Some st | _ => None end.
Definition operation_job (j : save_job) : Prop := match j with JobOperations _ | JobOperation _ => True | _ => False end.

(** The writer while workers process the operations. *)
Record processing (pr : BlockProposal) (n : nat) done w : Prop := {
  ps_proposal : wr_proposal w = Some pr;
  ps_manifest : wr_manifest w = None;
  ps_trees : wr_opstree w = [] /\ wr_ststree w = [];
  ps_open : wr_worker_closed w = false;
  ps_slots : exists g, wr_opstreeg w = Some g /\ filling n g (node_at_slot <$> done);
  ps_jobs : Forall operation_job (default [] (wr_jobs w));
  ps_ops : omap job_op (default [] (wr_jobs w)) ≡ₚ omap (fun ip => op_of ip.2) done;
  ps_merger : sm_height (wr_merger w) = bp_height pr /\
    forall k mg, sm_stvmmap (wr_merger w) !! k = Some mg -> mg_height mg = bp_height pr;
  ps_receipts : wr_hasReceipts w = true -> Exists has_receipt done
}.

Lemma processing_perm pr n l l' w : l ≡ₚ l' -> processing pr n l w -> processing pr n l' w.
Proof.
  intros Hp [? ? ? ? (g & Hg & F) ? Ho ? Hrc]. split; try done.
  - exists g. split; [done|]. eapply filling_perm; [|exact F]. by rewrite Hp.
  - by rewrite Ho, Hp.
  - intros Hh%Hrc. by rewrite <- Hp.
Qed.

Lemma merger_heights stvs op sm sm' h :
  State.SetStates getStateFunc stvs op sm = Ok sm' -> sm_height sm = h -> (forall k mg, sm_stvmmap sm !! k = Some mg -> mg_height mg = h) ->
  sm_height sm' = h /\ forall k mg, sm_stvmmap sm' !! k = Some mg -> mg_height mg = h.
Proof.
  unfold State.SetStates. revert sm. induction stvs as [|stv stvs IH]; intros sm Hr Hh Hm; simpl in Hr; [by injection Hr as <-|].
  apply bind_ok in Hr as (sm1 & Hs & Hr). unfold setState in Hs. apply bind_ok in Hs as (mg0 & Hmg & [= <-]).
  assert (mg_height mg0 = h) as Hmg0.
  { destruct (sm_stvmmap sm !! mv_key stv) as [i|] eqn:Ei; [injection Hmg as <-; by eapply Hm|].
    by apply bind_ok in Hmg as (st & _ & [= <-]). }
  apply (IH _ Hr); [done|]. simpl. intros k mg [[_ <-]|[_ Hk]]%lookup_insert_Some; [|by eapply Hm].
  unfold Merger_Merge, addOperation. by destruct (bool_decide _).
Qed.

Lemma NewJob_ok j w w' : NewJob j w = Ok w' -> wr_worker_closed w = false /\ w' = set_jobs (Some (default [] (wr_jobs w) ++ [j])) false w.
Proof. unfold NewJob. destruct (wr_worker_closed w); [done|]. by intros [= <-]. Qed.

(** An operation handed to the merger and to the files. *)
Lemma SetStates_ok pr n done w w' stvs op : processing pr n done w -> SetStates getStateFunc stvs op w = Ok w' ->
  exists sm, w' = set_jobs (Some (default [] (wr_jobs w) ++ [JobOperation op])) false (set_merger sm w) /\
    sm_height sm = bp_height pr /\ forall k mg, sm_stvmmap sm !! k = Some mg -> mg_height mg = bp_height pr.
Proof.
  intros P. unfold SetStates. rewrite (ps_proposal _ _ _ _ P). intros (sm & Hs & Hj)%bind_ok.
  apply NewJob_ok in Hj as [_ ->]. exists sm. split; [done|].
  eapply merger_heights; [exact Hs|apply (ps_merger _ _ _ _ P)..].
Qed.
Lemma SetProcessResult_ok w w' index oph fact instate g : wr_opstreeg w = Some g ->
  SetProcessResult index (Some oph) fact instate w = Ok w' ->
  exists g', Add g (Z.of_nat index) (operation_node fact instate) = Ok g' /\
    w' = set_opstree (Some g') (wr_opstree w) (set_jobs (Some (default [] (wr_jobs w) ++ [JobOperations oph])) false w).
Proof.
  intros Hg. unfold SetProcessResult. intros (w1 & [_ ->]%NewJob_ok & Hr)%bind_ok.
  change (wr_opstreeg (set_jobs (Some (default [] (wr_jobs w) ++ [JobOperations oph])) false w)) with (wr_opstreeg w) in Hr.
  rewrite Hg in Hr. apply bind_ok in Hr as (g' & Ha & [= <-]). by exists g'.
Qed.
Lemma SetOperationReceipt_ok w w' index op fact receipt : SetOperationReceipt index op fact receipt w = Ok w' ->
  exists rs set has, w' = set_receipts rs set has w /\ (has = true -> wr_hasReceipts w = true \/ is_Some receipt).
Proof.
  unfold SetOperationReceipt. destruct (wr_receipts w) as [rs|] eqn:E.
  - destruct (_ <=? _)%nat; [done|]. intros (_ & [= <-])%bind_err_ok. eexists _, _, _. split; [done|].
    intros [?|?%bool_decide_eq_true]%orb_true_iff; [by left|by right].
  - intros [= <-]. exists (wr_receipts w), (wr_receiptSet w), (wr_hasReceipts w). split; [by destruct w|by left].
Qed.

Lemma processing_step pr n done i p w w' : processing pr n done w -> (forall p', (i, p') ∉ done) -> is_ignored p = false ->
  processOperation getStateFunc i p w = Ok w' -> processing pr n (done ++ [(i, p)]) w'.
Proof.
  intros P Hi Hp Hr. destruct (ps_slots _ _ _ _ P) as (g & Hg & F).
  assert (forall k g', Add g (Z.of_nat i) (NewBaseNode k) = Ok g' -> node_of p = NewBaseNode k ->
    filling n g' (node_at_slot <$> done ++ [(i, p)])) as Hfill.
  { intros k g' Ha Hn. rewrite fmap_app. unfold node_at_slot at 2. simpl. rewrite Hn. eapply filling_add; [done| |done].
    intros b ([j p'] & [= -> _] & Hin)%list_elem_of_fmap. by destruct (Hi p'). }
  destruct P as [P1 P2 P3 P4 _ P5 P6 P7 P8].
  destruct p as [|oph fact|op|op stvs reason receipt|e]; [done| | | |done].
  - simpl in Hr. destruct (fun Hx => SetProcessResult_ok _ _ _ _ _ _ g Hx Hr) as (g' & Ha & Hw'); [exact Hg|]. subst w'. split; try done.
    + exists g'. split; [done|]. by eapply Hfill.
    + simpl. apply Forall_app. by split; [|constructor].
    + simpl. rewrite !omap_app. simpl. by rewrite P6, !app_nil_r.
    + intros Hrcp%P8. by apply Exists_app; left.
  - simpl in Hr. apply bind_ok in Hr as (w1 & Hs & Hr).
    apply (SetStates_ok pr n done) in Hs as (sm & -> & Hh & Hm); [|split; try done; by exists g].
    destruct (fun Hx => SetProcessResult_ok _ _ _ _ _ _ g Hx Hr) as (g' & Ha & Hw'); [exact Hg|]. subst w'. split; try done.
    + exists g'. split; [done|]. by eapply Hfill.
    + simpl. rewrite !Forall_app. repeat split; try done; by constructor.
    + simpl. rewrite !omap_app. simpl. by rewrite P6, app_nil_r.
    + intros Hrcp%P8. by apply Exists_app; left.
  - simpl in Hr. apply bind_err_ok in Hr as [_ Hr]. apply bind_ok in Hr as (w1 & Hs & Hr). apply bind_ok in Hr as (w2 & Hr & Hrc).
    apply (SetStates_ok pr n done) in Hs as (sm & -> & Hh & Hm); [|split; try done; by exists g].
    destruct (fun Hx => SetProcessResult_ok _ _ _ _ _ _ g Hx Hr) as (g' & Ha & Hw'); [exact Hg|]. subst w2.
    apply SetOperationReceipt_ok in Hrc as (rs & set & has & Hw' & Hhas). subst w'. split; try done.
    + exists g'. split; [done|]. by eapply Hfill.
    + simpl. rewrite !Forall_app. repeat split; try done; by constructor.
    + simpl. rewrite !omap_app. simpl. by rewrite P6, app_nil_r.
    + intros [Hrcp%P8|[rc ->]]%Hhas; apply Exists_app; [by left|right; by constructor].
Qed.

Lemma active_sorted ps : StronglySorted lt (active ps).*1.
Proof.
  unfold active. assert (forall k, StronglySorted lt (filter (fun ip => is_ignored ip.2 = false) (imap (fun i p => ((k + i)%nat, p)) ps)).*1
    /\ Forall (fun i => k <= i)%nat (filter (fun ip => is_ignored ip.2 = false) (imap (fun i p => ((k + i)%nat, p)) ps)).*1) as Hk.
  { induction ps as [|p ps IH]; intros k; [split; constructor|]. simpl. destruct (IH (S k)) as [Hs Hf].
    assert (imap ((fun i p => ((k + i)%nat, p)) ∘ S) ps = imap (fun i p => ((S k + i)%nat, p)) ps) as ->.
    { apply imap_ext. intros. simpl. f_equal. lia. }
    assert (Forall (fun i => k <= i)%nat (filter (fun ip => is_ignored ip.2 = false) (imap (fun i p => ((S k + i)%nat, p)) ps)).*1) as Hf'.
    { eapply Forall_impl; [exact Hf|]. simpl. lia. }
    rewrite filter_cons. destruct (decide _); [|by split]. simpl. rewrite Nat.add_0_r. split; [|by constructor].
    constructor; [done|]. eapply Forall_impl; [exact Hf|]. simpl. lia. }
  destruct (Hk 0%nat) as [Hs _]. exact Hs.
Qed.
Lemma active_in i p ps : (i, p) ∈ active ps <-> ps !! i = Some p /\ is_ignored p = false.
Proof.
  unfold active. rewrite list_elem_of_filter, elem_of_lookup_imap. simpl. split.
  - intros [Hp (j & q & [= <- <-] & Hj)]. done.
  - intros [Hi Hp]. split; [done|]. by exists i, p.
Qed.

Lemma processed pr sched maxWorkerSize noblock ps w : (forall l, sched l ≡ₚ l) ->
  processOperations getStateFunc sched maxWorkerSize noblock ps (NewWriter pr) = Ok w ->
  processing pr (length ps) (active ps) w.
Proof.
  intros Hsched Hr. unfold processOperations in Hr. destruct (_ <? 1) eqn:E1; [done|]. destruct (existsb _ _); [done|].
  apply bind_ok in Hr as (w1 & Hr & Hw). destruct (_ && _); [done|]. injection Hw as ->.
  assert (processing pr (length ps) [] (SetOperationsSize (length ps) (NewWriter pr))) as P0.
  { unfold SetOperationsSize. destruct ps as [|p ps]; [apply Z.ltb_ge in E1; simpl in E1; lia|]. split; try done.
    eexists. split; [done|]. apply filling_start. }
  eapply processing_perm; [apply (Hsched (active ps))|].
  assert (NoDup (sched (active ps)).*1) as Hnd.
  { rewrite Hsched. pose proof (active_sorted ps) as Hs. clear -Hs. induction Hs as [|a l Hs IH Hf]; constructor; [|done].
    intros Hin. rewrite Forall_forall in Hf. specialize (Hf _ Hin). lia. }
  assert (forall ip, ip ∈ sched (active ps) -> is_ignored ip.2 = false) as Hact.
  { intros [i p] Hin. rewrite Hsched in Hin. by apply active_in in Hin as [_ ?]. }
  revert Hnd Hact Hr. generalize (sched (active ps)) as l. intros l Hnd Hact Hr.
  enough (forall rest done w0, done ++ rest = l -> processing pr (length ps) done w0 ->
    fold_res (fun '(i, p) => processOperation getStateFunc i p) rest w0 = Ok w -> processing pr (length ps) l w) as H5
    by (by eapply (H5 l [])).
  induction rest as [|[i p] rest IH]; intros done w0 Hl P Hf; simpl in Hf.
  - injection Hf as <-. by rewrite app_nil_r in Hl; subst.
  - apply bind_ok in Hf as (w2 & Hp & Hf). eapply (IH (done ++ [(i, p)])); [by rewrite <- app_assoc| |exact Hf].
    eapply processing_step; [done| | |done].
    + intros p' Hin. rewrite <- Hl, fmap_app in Hnd. simpl in Hnd. apply NoDup_app in Hnd as (_ & Hd & _).
      apply (Hd i); [apply list_elem_of_fmap; by exists (i, p')|]. set_solver.
    + apply (Hact (i, p)). rewrite <- Hl. set_solver.
Qed.
End processing.

(** ** The manifest *)
Lemma indexed_sorted {A A'} (f : nat * A -> option (nat * A')) (l : list A) :
  (forall i a j b, f (i, a) = Some (j, b) -> j = i) ->
  StronglySorted lt (omap f (imap pair l)).*1 /\ forall j b, (j, b) ∈ omap f (imap pair l) -> (j < length l)%nat.
Proof.
  intros Hf. split.
  - assert (forall k, StronglySorted lt (omap f (imap (fun i a => ((k + i)%nat, a)) l)).*1
      /\ Forall (fun i => k <= i)%nat (omap f (imap (fun i a => ((k + i)%nat, a)) l)).*1) as Hk.
    { induction l as [|a l IH]; intros k; [split; constructor|]. simpl. destruct (IH (S k)) as [Hs Hb].
      assert (imap ((fun i p => ((k + i)%nat, p)) ∘ S) l = imap (fun i p => ((S k + i)%nat, p)) l) as ->.
      { apply imap_ext. intros. simpl. f_equal. lia. }
      destruct (f ((k + 0)%nat, a)) as [[j b]|] eqn:Ef; simpl.
      - apply Hf in Ef as ->. rewrite Nat.add_0_r. split; constructor; try done; (eapply Forall_impl; [exact Hb|]; simpl; lia).
      - split; [done|]. eapply Forall_impl; [exact Hb|]. simpl. lia. }
    exact (proj1 (Hk 0%nat)).
  - intros j b ([i a] & Hin & Hfa)%list_elem_of_omap. apply Hf in Hfa as ->. apply elem_of_lookup_imap in Hin as (i' & a' & [= -> ->] & Hi).
    by eapply lookup_lt_Some.
Qed.
Lemma sorted_NoDup (l : list nat) : StronglySorted lt l -> NoDup l.
Proof.
  induction 1 as [|a l Hs IH Hf]; constructor; [|done]. intros Hin. rewrite Forall_forall in Hf. specialize (Hf _ Hin). lia.
Qed.

Definition tree_for `{TreeHash} (tr : list FixedTree.Node) (l : list (nat * BaseNode)) : Prop :=
  match l with [] => tr = [] | _ => tree_of tr l end.
Definition state_at_slot (ist : nat * St) : nat * BaseNode := (ist.1, state_node ist.2).

Section manifest.
Context `{Crypto, BlockCrypto, TreeHashLaws, !StateValue state_value, Receipts}.
Hypothesis hashes_valid : forall s, hash_IsValid (sha256 s) = Ok tt.
Hypothesis hashes_filled : forall s, new_sha256 s <> ""%string.
Implicit Types (w : Writer).

(** A state as it is closed. *)
Definition closed_at (h : Z) (st : St) : Prop := (exists x, s_h st = Some x /\ x <> ""%string) /\ s_height st = h.

Lemma CloseStates_ok (sm : DefaultStatesMerger state_value) h total sts :
  (forall k mg, sm_stvmmap sm !! k = Some mg -> mg_height mg = h) -> CloseStates sm = (total, sts) ->
  StronglySorted lt sts.*1 /\ (forall i st, (i, st) ∈ sts -> (i < total)%nat) /\ Forall (closed_at h) sts.*2.
Proof.
  intros Hm. unfold CloseStates. intros [= <- <-].
  destruct (indexed_sorted (fun '(i, k) => pair i <$> (sm_stvmmap sm !! k ≫= CloseValue)) (sortStateKeys sm)) as [Hs Hr].
  { intros i a j b Hf. destruct (sm_stvmmap sm !! a ≫= CloseValue); simpl in Hf; by simplify_eq. }
  split; [exact Hs|]. split; [exact Hr|]. apply Forall_fmap, Forall_forall. intros [i st] ([j k] & _ & Hf)%list_elem_of_omap. simpl.
  destruct (sm_stvmmap sm !! k) as [mg|] eqn:Ek; [|done]. simpl in Hf. unfold CloseValue in Hf.
  destruct (mg_value mg); [|done]. destruct (mg_ops mg); [done|]. simpl in Hf. injection Hf as <- <-.
  split; [|by eapply Hm]. eexists. split; [done|]. apply hashes_filled.
Qed.

Lemma add_states_ok n l : forall g g' done, filling n g done -> NoDup (done.*1 ++ l.*1) -> add_states l g = Ok g' ->
  filling n g' (done ++ (state_at_slot <$> l)).
Proof.
  induction l as [|[i st] l IH]; intros g g' done F Hnd Hr; simpl in Hr.
  - injection Hr as <-. by rewrite app_nil_r.
  - apply bind_ok in Hr as (g1 & Ha & Hr). simpl. rewrite cons_middle, app_assoc. apply (IH g1).
    + eapply filling_add; [done| |done]. intros b Hb. apply NoDup_app in Hnd as (_ & Hd & _). apply (Hd i); [|simpl; set_solver].
      apply list_elem_of_fmap. by exists (i, b).
    + rewrite fmap_app, <- app_assoc. exact Hnd.
    + done.
Qed.

Lemma NewJobs_ok js w w' : NewJobs js w = Ok w' -> js = [] /\ w' = w \/
  wr_worker_closed w = false /\ w' = set_jobs (Some (default [] (wr_jobs w) ++ js)) false w.
Proof.
  revert w. induction js as [|j js IH]; intros w Hr; simpl in Hr; [left; by injection Hr as <-|]. right.
  apply bind_ok in Hr as (w1 & [Hc ->]%NewJob_ok & Hr). split; [done|].
  apply IH in Hr as [[-> ->]|[_ ->]]; [done|]. unfold set_jobs. simpl. by rewrite <- app_assoc.
Qed.

(** A job for a state, of those that are closed. *)
Definition state_job (total : Z) (ist : nat * St) : save_job := JobState total ist.2.

(** The states of a writer, closed. *)
Lemma closeStateValues_ok schedst w sts w' h : (forall l, schedst l ≡ₚ l) -> Z.of_nat (size (sm_stvmmap (wr_merger w))) <= max_size ->
  (forall k mg, sm_stvmmap (wr_merger w) !! k = Some mg -> mg_height mg = h) -> wr_ststree w = [] ->
  closeStateValues schedst w = Ok (sts, w') ->
  exists total jobs tr, Forall (closed_at h) sts.*2 /\ (length sts <= total)%nat /\ jobs ≡ₚ sts /\ tree_for tr (state_at_slot <$> sts) /\
    (w' = w \/ wr_worker_closed w = false /\
     w' = set_ststree tr (set_jobs (Some (default [] (wr_jobs w) ++ (state_job (Z.of_nat total) <$> jobs))) false w)) /\
    wr_ststree w' = tr /\ (w' = w -> sts = []) /\ sts = (CloseStates (wr_merger w)).2.
Proof.
  intros Hsched Hsize Hm Ht. unfold closeStateValues. destruct (_ <? 1)%nat eqn:E0.
  { intros [= <- <-]. exists 0%nat, [], []. split; [constructor|]. split_and!; try done; [by left|].
    unfold CloseStates, sortStateKeys. apply Nat.ltb_lt in E0. assert (sm_stvmmap (wr_merger w) = ∅) as -> by (apply map_size_empty_inv; lia).
    by rewrite map_to_list_empty. }
  destruct (CloseStates (wr_merger w)) as [total sts0] eqn:Ec.
  destruct (CloseStates_ok _ h _ _ Hm Ec) as (Hs & Hr & Hf).
  assert (total = size (sm_stvmmap (wr_merger w))) as Htot.
  { unfold CloseStates in Ec. injection Ec as <- _. unfold sortStateKeys. rewrite merge_sort_Permutation, length_fmap.
    by rewrite length_map_to_list. }
  intros (g0 & Hg0 & (g & Hg & (w1 & Hj & (tr & Htr & [= -> <-])%bind_ok)%bind_ok)%bind_ok)%bind_ok.
  unfold FixedTree.NewWriter in Hg0. destruct (total <? 1)%nat; [done|]. injection Hg0 as <-.
  pose proof (sorted_NoDup _ Hs) as Hnd.
  apply (add_states_ok total _ _ _ []) in Hg; [|apply filling_start|simpl; by rewrite (Hsched sts)]. simpl in Hg.
  eapply filling_perm in Hg; [|by rewrite (Hsched sts)].
  assert (length sts <= total)%nat as Hle.
  { assert (sts.*1 ⊆+ seq 0 total) as Hsub.
    { apply NoDup_submseteq; [done|]. intros i ([j st] & -> & Hin)%list_elem_of_fmap. apply elem_of_seq. specialize (Hr _ _ Hin). simpl. lia. }
    apply submseteq_length in Hsub. by rewrite length_fmap, length_seq in Hsub. }
  exists total, (schedst sts), tr. split; [done|]. split; [done|]. split; [apply Hsched|].
  assert (sts <> [] /\ tree_of tr (state_at_slot <$> sts)) as [Hne T].
  { destruct (decide (sts = [])) as [->|Hne].
    - exfalso. assert (g = replicate total None) as ->.
      { destruct Hg as (Hl & _ & Hn). apply list_eq. intros i. destruct (decide (i < total)%nat).
        - rewrite Hn, lookup_replicate_2 by (done || (intros ? ?%elem_of_nil; done)). done.
        - rewrite !lookup_ge_None_2; [done|rewrite length_replicate; lia|lia]. }
      by rewrite empty_tree in Htr.
    - split; [done|]. destruct (filled_tree total g (state_at_slot <$> sts)) as (tr' & E1 & T); try done; [lia| | | |].
      + by rewrite <- list_fmap_compose.
      + intros i b ([j st] & [= -> ->] & Hin)%list_elem_of_fmap. split; [by eapply Hr|]. eexists. split; [done|].
        rewrite Forall_fmap, Forall_forall in Hf. destruct (Hf _ Hin) as ((x & Hx & Hne') & _). simpl in Hx. by rewrite Hx.
      + intros Hn%fmap_nil_inv. done.
      + rewrite E1 in Htr. by injection Htr as <-. }
  split; [unfold tree_for; by destruct sts|]. apply NewJobs_ok in Hj as [[Hj ->]|[Hc ->]].
  - apply fmap_nil_inv in Hj. pose proof (Hsched sts) as Hp. rewrite Hj in Hp. by apply Permutation_nil_l in Hp.
  - split; [right; split; [done|]; done|]. split; [done|]. split; [|done]. intros Hw. exfalso.
    apply (f_equal (fun w => length (wr_ststree w))) in Hw. simpl in Hw. rewrite Ht in Hw. simpl in Hw.
    pose proof (tree_of_length _ _ T) as Hl. rewrite length_fmap in Hl. destruct sts; [done|]. simpl in Hl. lia.
Qed.
End manifest.

(** What is ready to be saved: the trees, the manifest that names them, and the jobs. *)
Definition tree_hash (tr : list FixedTree.Node) (h : option Hash) : Prop :=
  match tr with [] => h = None | _ => exists r, Tree_Root tr = Ok (Some r) /\ h = Some r end.
Definition manifest_job (total : Z) (j : save_job) : Prop :=
  match j with JobState t _ => t = total | JobOperations _ | JobOperation _ | JobManifest => True | _ => False end.
Record manifested `{Crypto, BlockCrypto, TreeHash, !StateValue state_value, Receipts} (pr : BlockProposal) (lops : list (nat * BaseNode)) (lsts : list (nat * St))
    (ops : list (Hash * Hash)) (m : Manifest) (w : Writer) : Prop := {
  md_proposal : wr_proposal w = Some pr;
  md_manifest : wr_manifest w = Some m;
  md_open : wr_worker_closed w = false;
  md_opstree : tree_for (wr_opstree w) lops;
  md_opstreeg : lops <> [] -> wr_opstreeg w = Some (wr_opstree w);
  md_ststree : tree_for (wr_ststree w) (state_at_slot <$> lsts);
  md_sts : Forall (closed_at (bp_height pr)) lsts.*2;
  md_closed : lsts = (CloseStates (wr_merger w)).2;
  md_height : mf_height m = bp_height pr /\ mf_proposal m = Some (bp_fact pr);
  md_roots : tree_hash (wr_opstree w) (mf_operationsTree m) /\ tree_hash (wr_ststree w) (mf_statesTree m);
  md_jobs : exists total jobs, wr_jobs w = Some jobs /\ (length lsts <= total)%nat /\ Forall (manifest_job (Z.of_nat total)) jobs /\
    omap job_op jobs ≡ₚ ops /\ omap job_st jobs ≡ₚ lsts.*2 /\ JobManifest ∈ jobs
}.

Section make_manifest.
Context `{Crypto, BlockCrypto, TreeHashLaws, !StateValue state_value, Receipts}.
Variable getStateFunc : string -> res (option St).
Hypothesis hashes_valid : forall s, hash_IsValid (sha256 s) = Ok tt.
Hypothesis hashes_filled : forall s, new_sha256 s <> ""%string.
Variables (sched : list (nat * prepared) -> list (nat * prepared)) (schedst : list (nat * St) -> list (nat * St)).
Hypothesis sched_perm : forall l, sched l ≡ₚ l.
Hypothesis schedst_perm : forall l, schedst l ≡ₚ l.

Lemma tree_root_hash tr l r : tree_for tr l -> tree_root tr = Ok r -> tree_hash tr r.
Proof.
  unfold tree_for, tree_root, tree_hash. destruct l as [|x l]; [intros ->; simpl; by intros [= <-]|]. intros T.
  destruct (to_root _ _ T) as (r0 & Hr). destruct tr as [|o tr]; [done|]. simpl (0 <? length (o :: tr))%nat. rewrite Hr.
  intros [= <-]. by exists r0.
Qed.

(** The operations in the order of their slots. *)
Definition op_slots (ps : list prepared) : list (nat * BaseNode) := node_at_slot <$> active ps.
Definition written_ops (ps : list prepared) : list (Hash * Hash) := omap (fun ip => op_of ip.2) (active ps).
Definition keyed (ps : list prepared) : Prop := forall i p, (i, p) ∈ active ps -> exists k, node_of p = NewBaseNode k /\ k <> "".

Lemma op_slots_sorted ps : StronglySorted lt (op_slots ps).*1.
Proof. unfold op_slots, node_at_slot. rewrite <- list_fmap_compose. apply active_sorted. Qed.

(** The tree of the operations. *)
Lemma opstree_ok pr ps w g tr : keyed ps -> Z.of_nat (length ps) <= max_size -> processing pr (length ps) (active ps) w ->
  wr_opstreeg w = Some g -> Writer_Tree g = Ok tr -> tree_for tr (op_slots ps) /\ op_slots ps <> [].
Proof.
  intros Hk Hn P Hg Ht. destruct (ps_slots _ _ _ _ P) as (g' & Hg' & F). rewrite Hg in Hg'. injection Hg' as <-.
  fold (op_slots ps) in F.
  destruct (decide (op_slots ps = [])) as [E0|Hne].
  - exfalso. assert (g = replicate (length ps) None) as ->.
    { destruct F as (Hl & _ & Hnone). apply list_eq. intros i. destruct (decide (i < length ps)%nat).
      - rewrite Hnone, lookup_replicate_2; [done|done|done|]. intros b. rewrite E0. by intros ?%elem_of_nil.
      - rewrite !lookup_ge_None_2; [done|rewrite length_replicate; lia|lia]. }
    by rewrite empty_tree in Ht.
  - split; [|done]. destruct (filled_tree (length ps) g (op_slots ps)) as (tr' & E1 & T); try done; [apply op_slots_sorted| |].
    + intros i b ([j p] & [= -> ->] & Hin)%list_elem_of_fmap. split; [|by eapply Hk].
      apply active_in in Hin as [Hi _]. by eapply lookup_lt_Some.
    + rewrite E1 in Ht. injection Ht as <-. unfold tree_for. by destruct (op_slots ps).
Qed.

Lemma Writer_Manifest_keeps previous w m w' : Writer_Manifest schedst previous w = Ok (m, w') ->
  wr_merger w' = wr_merger w /\ wr_hasReceipts w' = wr_hasReceipts w.
Proof.
  unfold Writer_Manifest. destruct (wr_proposal w) as [pr|]; [|done]. destruct (_ && _); [done|]. intros (w1 & Hopt & Hr)%bind_ok.
  assert (wr_merger w1 = wr_merger w /\ wr_hasReceipts w1 = wr_hasReceipts w) as [<- <-].
  { destruct (wr_opstreeg w); [|by injection Hopt as <-]. by apply bind_ok in Hopt as (? & _ & [= <-]). }
  apply bind_ok in Hr as (? & _ & ([sts w2] & Hc & (? & _ & Hr)%bind_ok)%bind_ok).
  assert (wr_merger w2 = wr_merger w1 /\ wr_hasReceipts w2 = wr_hasReceipts w1) as [<- <-].
  { unfold closeStateValues in Hc. destruct (_ <? 1)%nat; [by injection Hc as _ <-|]. destruct (CloseStates _) as [total sts0].
    apply bind_ok in Hc as (? & _ & (? & _ & (w3 & Hj & (? & _ & [= _ <-])%bind_ok)%bind_ok)%bind_ok).
    by apply NewJobs_ok in Hj as [[_ ->]|[_ ->]]. }
  destruct (wr_manifest w2); [by injection Hr as _ <-|]. by apply bind_ok in Hr as (w4 & [_ ->]%NewJob_ok & [= _ <-]).
Qed.
Lemma Writer_Manifest_ok pr ps previous w m w' : keyed ps -> Z.of_nat (length ps) <= max_size ->
  (ps = [] /\ w = NewWriter pr \/ processing pr (length ps) (active ps) w) ->
  Z.of_nat (size (sm_stvmmap (wr_merger w))) <= max_size ->
  Writer_Manifest schedst previous w = Ok (m, w') ->
  exists sts, manifested pr (op_slots ps) sts (written_ops ps) m w'.
Proof.
  intros Hk Hn Hw Hsize.
  assert (wr_proposal w = Some pr /\ wr_manifest w = None /\ wr_opstree w = [] /\ wr_ststree w = [] /\ wr_worker_closed w = false /\
    Forall operation_job (default [] (wr_jobs w)) /\ omap job_op (default [] (wr_jobs w)) ≡ₚ written_ops ps /\
    (forall k mg, sm_stvmmap (wr_merger w) !! k = Some mg -> mg_height mg = bp_height pr) /\
    (wr_opstreeg w = None -> op_slots ps = [])) as (W1 & W2 & W3 & W4 & W5 & W6 & W7 & W8 & W9).
  { destruct Hw as [[-> ->]|P]; [by repeat split; try done; constructor|].
    destruct P as [P1 P2 [P3 P4] P5 (g & Hg & _) P6 P7 [_ P8] _]. repeat split; try done. by rewrite Hg. }
  unfold Writer_Manifest. rewrite W1. destruct (_ && _); [done|]. intros (w1 & Hopt & Hr)%bind_ok.
  assert (exists g tr, w1 = set_opstree g tr w /\ tree_for tr (op_slots ps) /\ (op_slots ps <> [] -> g = Some tr)) as (g & tr & -> & T1 & Hg1).
  { destruct (wr_opstreeg w) as [g|] eqn:Eg.
    - apply bind_ok in Hopt as (tr & Htr & [= <-]). exists (Some tr), tr. split; [done|]. split; [|done].
      destruct Hw as [[-> ->]|P]; [done|]. by eapply opstree_ok.
    - injection Hopt as <-. exists None, []. rewrite (W9 eq_refl). split; [by destruct w; simpl in *; subst|]. by split. }
  clear Hopt. simpl in Hr. set (w2 := set_opstree g tr w) in *.
  apply bind_ok in Hr as (opsroot & Hr1 & Hr). apply bind_ok in Hr as ([sts w3] & Hc & Hr). apply bind_ok in Hr as (stsroot & Hr2 & Hr).
  destruct (closeStateValues_ok hashes_valid hashes_filled schedst w2 sts w3 (bp_height pr)) as
    (total & jobs & str & Hf & Hle & Hjobs & T2 & Hw3 & Hst & Hnil & Hcl); try done.
  assert (wr_proposal w3 = Some pr /\ wr_manifest w3 = None /\ wr_worker_closed w3 = false /\ wr_opstree w3 = tr /\ wr_opstreeg w3 = g /\
    default [] (wr_jobs w3) = default [] (wr_jobs w) ++ (state_job (Z.of_nat total) <$> jobs) /\ wr_merger w3 = wr_merger w)
    as (X1 & X2 & X3 & X4 & X5 & X6 & X7).
  { destruct Hw3 as [->|[_ ->]]; [|done]. repeat split; try done. rewrite (Hnil eq_refl) in Hjobs.
    apply Permutation_nil_r in Hjobs as ->. simpl. by rewrite app_nil_r. }
  rewrite X2 in Hr. apply bind_ok in Hr as (w4 & [_ ->]%NewJob_ok & Hr). injection Hr as <- <-. simpl. rewrite X6.
  exists sts. split; simpl; try done.
  - rewrite X4. exact T1.
  - intros Hne. rewrite X5, X4. by apply Hg1.
  - rewrite Hst. exact T2.
  - rewrite X7. exact Hcl.
  - rewrite X4, Hst. split; [by eapply tree_root_hash|]. eapply tree_root_hash; [exact T2|]. by rewrite Hst in Hr2.
  - exists total, ((default [] (wr_jobs w) ++ (state_job (Z.of_nat total) <$> jobs)) ++ [JobManifest]).
    split; [done|]. split; [done|]. split; [|split; [|split]].
    + rewrite !Forall_app. split; [split|].
      * eapply Forall_impl; [exact W6|]. by intros [].
      * apply Forall_fmap, Forall_forall. by intros [? ?] _.
      * by constructor.
    + rewrite !omap_app, W7. simpl.
      assert (omap job_op (state_job (Z.of_nat total) <$> jobs) = []) as -> by (clear; induction jobs; done). by rewrite !app_nil_r.
    + rewrite !omap_app. change (omap job_st [JobManifest]) with (@nil St). rewrite app_nil_r.
      assert (omap job_st (default [] (wr_jobs w)) = []) as ->.
      { clear -W6. induction W6 as [|j l Hj _ IH]; [done|]. simpl. by destruct j. }
      assert (omap job_st (state_job (Z.of_nat total) <$> jobs) = jobs.*2) as ->; [|by rewrite Hjobs].
      clear. induction jobs as [|[i st] jobs IH]; [done|]. exact (f_equal (cons st) IH).
    + set_solver.
Qed.
End make_manifest.

(** ** The files *)
Section saving.
Context `{Crypto, BlockCrypto, TreeHash, Receipts, !ItemCodec}.
Implicit Types (fs : LocalFSWriter).

Definition item_of (t : BlockItemType) (f : file) : BlockMapItem := {| bi_t := t; bi_checksum := file_checksum f |}.
Definition lines_file (total : Z) (ls : file) : file := match ls with [] => [] | _ => LHeader total :: ls end.
Definition ops_file (total : Z) (ops : list (Hash * Hash)) : file := lines_file total (LOperation <$> ops).
Definition sts_file (total : Z) (sts : list St) : file := lines_file total (LState <$> sts).
Definition tree_file (tr : list FixedTree.Node) : file := LHeader (Z.of_nat (length tr)) :: imap node_line tr.
Definition vps_file (ivp avp : Voteproof) : file := [LHeader 0; LVoteproof ivp; LVoteproof avp].

Lemma append_lines total v ls f : append_line total v (lines_file total ls) = Ok f -> f = lines_file total (ls ++ [v]).
Proof. unfold append_line. destruct ls; simpl; by intros (_ & [= <-])%bind_err_ok. Qed.
Lemma map_item_ok t f fs fs' : map_item t f fs = Ok fs' ->
  fs' = set_map {| bm_manifest := bm_manifest (lw_m fs); bm_items := <[t := item_of t f]> (bm_items (lw_m fs)); bm_sign := bm_sign (lw_m fs) |} fs.
Proof. unfold map_item, SetItem. intros (m & (_ & [= <-])%bind_err_ok & [= <-])%bind_ok. done. Qed.

(** The items that the jobs put. *)
Definition item_from (pr : BlockProposal) (done : list save_job) (t : BlockItemType) (f : file) : Prop :=
  t = BlockItemProposal /\ f = [LHeader 0; LProposal pr] \/
  t = BlockItemVoteproofs /\ exists ivp avp, JobINIT ivp ∈ done /\ JobACCEPT avp ∈ done /\ f = vps_file ivp avp.

(** The node that signs is there. *)
Definition signs fs : Prop := exists node priv, lw_local fs = Some (node, priv) /\ address_IsValid node = Ok tt.

(** The files while the jobs of the save worker run: [o] and [s] are written. *)
Record writing_files (pr : BlockProposal) (m : Manifest) (n total : Z) (o : list (Hash * Hash)) (s : list St)
    (done : list save_job) fs : Prop := {
  wf_ops : lw_opsf fs = Some (ops_file n o) /\ lw_lenops fs = Z.of_nat (length o);
  wf_sts : lw_stsf fs = Some (sts_file total s);
  wf_items t i : bm_items (lw_m fs) !! t = Some i -> exists f, lw_temp fs !! t = Some f /\ i = item_of t f /\ item_from pr done t f;
  wf_manifest : JobManifest ∈ done -> bm_manifest (lw_m fs) = m;
  wf_proposal : JobProposal ∈ done -> is_Some (bm_items (lw_m fs) !! BlockItemProposal);
  wf_vps : (forall vp, (lw_vps fs).1 = Some vp -> JobINIT vp ∈ done) /\ (forall vp, (lw_vps fs).2 = Some vp -> JobACCEPT vp ∈ done);
  wf_rest : lw_saved fs = false /\ lw_height fs = bp_height pr /\ signs fs
}.
Definition jobs_done pr m n total done fs : Prop :=
  exists o s, o ≡ₚ omap job_op done /\ s ≡ₚ omap job_st done /\ writing_files pr m n total o s done fs.

Lemma item_from_mono pr done done' t f : done ⊆ done' -> item_from pr done t f -> item_from pr done' t f.
Proof. intros Hs [?|(-> & ivp & avp & ? & ? & ?)]; [by left|]. right. split; [done|]. exists ivp, avp. split; [by apply Hs|]. split; [by apply Hs|done]. Qed.
(** More jobs, none of which is the manifest or the proposal. *)
Lemma writing_mono pr m n total o s done done' fs : writing_files pr m n total o s done fs -> done ⊆ done' ->
  (JobManifest ∈ done' -> JobManifest ∈ done) -> (JobProposal ∈ done' -> JobProposal ∈ done) ->
  writing_files pr m n total o s done' fs.
Proof.
  intros [Ho Hs Hi Hm Hp [Hv1 Hv2] Hr] Hsub Hmore1 Hmore2. split; try done; try (by intros ?; auto).
  - intros t i Ht. destruct (Hi t i Ht) as (f & Hf & -> & Hc). exists f. split; [done|]. split; [done|]. by eapply item_from_mono.
  - split; intros vp Hvp; apply Hsub; auto.
Qed.
Lemma jobs_done_start pr m n total local : address_IsValid local.1 = Ok tt ->
  jobs_done pr m n total [] (NewLocalFSWriter (bp_height pr) local).
Proof.
  intros Hl. exists [], []. split; [done|]. split; [done|]. split; try done; try (by intros ?%elem_of_nil).
  split; [done|]. split; [done|]. destruct local as [node priv]. by exists node, priv.
Qed.
Lemma jobs_done_perm pr m n total l l' fs : l ≡ₚ l' -> jobs_done pr m n total l fs -> jobs_done pr m n total l' fs.
Proof.
  intros Hp (o & s & Ho & Hs & W). exists o, s. split; [by rewrite Ho, Hp|]. split; [by rewrite Hs, Hp|].
  eapply writing_mono; [exact W|by intros j; rewrite Hp|by rewrite Hp..].
Qed.

Lemma saveVoteproofs_ok pr m n total o s done fs fs' : writing_files pr m n total o s done fs -> saveVoteproofs fs = Ok fs' ->
  writing_files pr m n total o s done fs'.
Proof.
  intros J. unfold saveVoteproofs. destruct (lw_vps fs) as [[ivp|] [avp|]] eqn:Ev; try by intros [= <-].
  destruct (has_item _ _); [by intros [= <-]|]. intros (_ & (_ & (fs1 & ->%map_item_ok & [= <-])%bind_ok)%bind_err_ok)%bind_err_ok.
  destruct J as [Ho Hs Hi Hm Hpr [Hv1 Hv2] Hr]. rewrite Ev in Hv1, Hv2. split; try done; simpl.
  - intros t i [[<- <-]|[Hne Ht]]%lookup_insert_Some.
    + eexists. rewrite lookup_insert_eq. split; [done|]. split; [done|]. right. split; [done|]. exists ivp, avp.
      split; [by apply Hv1|]. split; [by apply Hv2|done].
    + destruct (Hi t i Ht) as (f & Hf & Hc). exists f. by rewrite lookup_insert_ne by done.
  - intros Hj. rewrite lookup_insert_ne by done. by apply Hpr.
  - rewrite Ev. by split.
Qed.

(** What a job does to the files. *)
Definition fs_job (pr : BlockProposal) (m : Manifest) (n : Z) (j : save_job) fs : res LocalFSWriter :=
  match j with
  | JobOperations _ => Ok fs
  | JobOperation op => SetOperation n op fs
  | JobState total st => SetState total st fs
  | JobManifest => Ok (SetManifest m fs)
  | JobINIT vp => SetINITVoteproof vp fs
  | JobACCEPT vp => SetACCEPTVoteproof vp fs
  | JobProposal => SetProposal pr fs
  end.
Definition opt_list {A} (o : option A) : list A := match o with Some a => [a] | None => [] end.
Lemma fs_job_writing pr m n total o s done j fs fs' : writing_files pr m n total o s done fs ->
  match j with JobState t _ => t = total | _ => True end ->
  fs_job pr m n j fs = Ok fs' ->
  writing_files pr m n total (o ++ opt_list (job_op j)) (s ++ opt_list (job_st j)) (done ++ [j]) fs'.
Proof.
  intros J Hj Hr.
  assert (j <> JobManifest -> j <> JobProposal -> writing_files pr m n total o s (done ++ [j]) fs) as Hmore.
  { intros Hj1 Hj2. eapply writing_mono; [exact J|set_solver| |]; intros [?|?%list_elem_of_singleton]%elem_of_app; congruence || done. }
  assert (forall t i, bm_items (lw_m fs) !! t = Some i ->
    exists f, lw_temp fs !! t = Some f /\ i = item_of t f /\ item_from pr (done ++ [j]) t f) as Hitems.
  { intros t i Ht. destruct (wf_items _ _ _ _ _ _ _ _ J t i Ht) as (f & Hf & -> & Hc). exists f. split; [done|]. split; [done|].
    eapply item_from_mono; [|exact Hc]. set_solver. }
  assert (forall vp, (lw_vps fs).1 = Some vp -> JobINIT vp ∈ done ++ [j]) as Hv1.
  { intros vp Hvp%(proj1 (wf_vps _ _ _ _ _ _ _ _ J)). set_solver. }
  assert (forall vp, (lw_vps fs).2 = Some vp -> JobACCEPT vp ∈ done ++ [j]) as Hv2.
  { intros vp Hvp%(proj2 (wf_vps _ _ _ _ _ _ _ _ J)). set_solver. }
  destruct j as [op|op|t st| |vp|vp|]; simpl in Hr |- *; rewrite ?app_nil_r.
  - injection Hr as <-. by apply Hmore.
  - unfold SetOperation in Hr. destruct (Hmore ltac:(done) ltac:(done)) as [[Ho Hl] Hs Hi Hm Hpr Hv Hre]. rewrite Ho in Hr.
    apply bind_ok in Hr as (f & ->%append_lines & [= <-]). split; simpl; try done.
    rewrite length_app, Hl. unfold ops_file. rewrite fmap_app. split; [done|simpl; lia].
  - subst t. unfold SetState in Hr. destruct (Hmore ltac:(done) ltac:(done)) as [Ho Hs Hi Hm Hpr Hv Hre]. rewrite Hs in Hr.
    apply bind_ok in Hr as (f & ->%append_lines & [= <-]). split; simpl; try done. unfold sts_file. by rewrite fmap_app.
  - injection Hr as <-. destruct J as [Ho Hs _ _ Hpr _ Hre]. split; simpl; try done. intros Hin. apply Hpr. set_solver.
  - unfold SetINITVoteproof in Hr. eapply saveVoteproofs_ok; [|exact Hr].
    destruct (Hmore ltac:(done) ltac:(done)) as [Ho Hs Hi Hm Hpr Hv Hre]. split; try done. simpl. split; [intros ? [= <-]; set_solver|exact Hv2].
  - unfold SetACCEPTVoteproof in Hr. eapply saveVoteproofs_ok; [|exact Hr].
    destruct (Hmore ltac:(done) ltac:(done)) as [Ho Hs Hi Hm Hpr Hv Hre]. split; try done. simpl. split; [exact Hv1|intros ? [= <-]; set_solver].
  - unfold SetProposal, writeItem in Hr. apply bind_err_ok in Hr as [_ Hw]. rewrite bool_decide_false in Hw by done.
    apply map_item_ok in Hw as ->. destruct J as [Ho Hs _ Hm _ _ Hre]. split; simpl; try done.
    + intros t i [[<- <-]|[Hne Ht]]%lookup_insert_Some.
      * eexists. rewrite lookup_insert_eq. split; [done|]. split; [done|]. by left.
      * destruct (Hitems t i Ht) as (f & Hf & Hc). exists f. by rewrite lookup_insert_ne by done.
    + intros Hin. apply Hm. set_solver.
    + intros _. rewrite lookup_insert_eq. by eexists.
Qed.
Lemma fs_job_ok pr m n total done j fs fs' : jobs_done pr m n total done fs ->
  match j with JobState t _ => t = total | _ => True end ->
  fs_job pr m n j fs = Ok fs' -> jobs_done pr m n total (done ++ [j]) fs'.
Proof.
  intros (o & s & Ho & Hs & W) Hj Hr. exists (o ++ opt_list (job_op j)), (s ++ opt_list (job_st j)).
  split; [rewrite omap_app, Ho; simpl; by destruct (job_op j)|].
  split; [rewrite omap_app, Hs; simpl; by destruct (job_st j)|]. by eapply fs_job_writing.
Qed.

(** The files after the jobs; [a] and [b] tell which trees are written. *)
Record trees_done (pr : BlockProposal) (m : Manifest) (fo ff : file) (lenops : nat) (otr str : list FixedTree.Node)
    (vps : file -> Prop) (a b : bool) fs : Prop := {
  td_files : lw_opsf fs = Some fo /\ lw_stsf fs = Some ff /\ lw_lenops fs = Z.of_nat lenops;
  td_items t i : bm_items (lw_m fs) !! t = Some i -> exists f, i = item_of t f /\
    (if decide (t = BlockItemOperations) then f = fo else if decide (t = BlockItemStates) then f = ff else lw_temp fs !! t = Some f);
  td_ops : is_Some (bm_items (lw_m fs) !! BlockItemOperations) <-> a = true /\ (0 < lenops)%nat;
  td_opstree : is_Some (bm_items (lw_m fs) !! BlockItemOperationsTree) <-> a = true;
  td_opstree_file : a = true -> lw_temp fs !! BlockItemOperationsTree = Some (tree_file otr);
  td_sts : is_Some (bm_items (lw_m fs) !! BlockItemStates) <-> b = true;
  td_ststree : is_Some (bm_items (lw_m fs) !! BlockItemStatesTree) <-> b = true;
  td_ststree_file : b = true -> lw_temp fs !! BlockItemStatesTree = Some (tree_file str);
  td_proposal : is_Some (bm_items (lw_m fs) !! BlockItemProposal) /\ lw_temp fs !! BlockItemProposal = Some [LHeader 0; LProposal pr];
  td_vps f : is_Some (bm_items (lw_m fs) !! BlockItemVoteproofs) -> lw_temp fs !! BlockItemVoteproofs = Some f -> vps f;
  td_dom t : is_Some (bm_items (lw_m fs) !! t) -> t ∈ loadable /\ t <> BlockItemOperationReceipts;
  td_manifest : bm_manifest (lw_m fs) = m;
  td_rest : lw_saved fs = false /\ lw_height fs = bp_height pr /\ signs fs
}.
Definition written_vps (done : list save_job) (f : file) : Prop :=
  exists ivp avp, JobINIT ivp ∈ done /\ JobACCEPT avp ∈ done /\ f = vps_file ivp avp.

Lemma trees_start pr m n total o s done fs otr str : writing_files pr m n total o s done fs -> JobManifest ∈ done -> JobProposal ∈ done ->
  trees_done pr m (ops_file n o) (sts_file total s) (length o) otr str (written_vps done) false false fs.
Proof.
  intros [[Ho Hl] Hs Hi Hm Hp _ Hr] Hjm Hjp.
  assert (forall t, is_Some (bm_items (lw_m fs) !! t) -> t = BlockItemProposal \/ t = BlockItemVoteproofs) as Ht.
  { intros t [i Hti]. destruct (Hi t i Hti) as (_ & _ & _ & [[? _]|[? _]]); [by left|by right]. }
  split; try done; try (split; [intros [?|?]%Ht; done|by intros ?]); try (split; [intros [?|?]%Ht; done|by intros [? ?]]); try (by apply Hm).
  - intros t i Hti. destruct (Hi t i Hti) as (f & Hf & -> & Hc). exists f. split; [done|].
    destruct Hc as [[-> _]|[-> _]]; by rewrite !decide_False by done.
  - split; [by apply Hp|]. destruct (Hp Hjp) as [i Hip]. destruct (Hi _ _ Hip) as (f & Hf & _ & [[_ ->]|[? _]]); done.
  - intros f [i Hti] Hf. destruct (Hi _ _ Hti) as (f' & Hf' & _ & [[? _]|[_ Hc]]); [done|]. by simplify_eq.
  - intros t [->| ->]%Ht; (split; [vm_compute; set_solver|done]).
Qed.

Ltac items_lookup :=
  repeat first [ rewrite lookup_insert_eq | rewrite lookup_insert_ne by done ].

Lemma SetOperationsTree_ok pr m fo ff lenops otr str vps b fs fs1 :
  trees_done pr m fo ff lenops otr str vps false b fs -> SetOperationsTree otr fs = Ok fs1 ->
  trees_done pr m fo ff lenops otr str vps true b fs1.
Proof.
  intros [(Hfo & Hfs & Hlen) Hi Ho Hot Hotf Hs Hst Hstf Hp Hv Hnm Hm Hr]. unfold SetOperationsTree, setTree.
  intros (fs2 & H2' & (_ & (fs3 & ->%map_item_ok & [= <-])%bind_ok)%bind_err_ok)%bind_ok. rewrite Hlen, Hfo in H2'. simpl in H2'.
  assert (exists its, fs2 = set_map {| bm_manifest := bm_manifest (lw_m fs); bm_items := its; bm_sign := bm_sign (lw_m fs) |} fs /\
    its = (if (0 <? lenops)%nat then <[BlockItemOperations := item_of BlockItemOperations fo]> (bm_items (lw_m fs)) else bm_items (lw_m fs)))
    as (its & -> & Hits).
  { destruct (Z.ltb_spec 0 (Z.of_nat lenops)); destruct (Nat.ltb_spec 0 lenops); try lia.
    - apply map_item_ok in H2' as ->. by eexists.
    - injection H2' as <-. eexists. split; [|done]. by destruct fs as [? ? ? ? ? ? []]. }
  simpl. assert (forall t, t <> BlockItemOperations -> its !! t = bm_items (lw_m fs) !! t) as Hother.
  { intros t Ht. rewrite Hits. destruct (_ <? _)%nat; [by rewrite lookup_insert_ne|done]. }
  split; simpl; items_lookup; rewrite ?Hother by done; try done.
  - intros t i [[<- <-]|[Hne Ht]]%lookup_insert_Some; [eexists; split; [done|]; rewrite !decide_False by done; by items_lookup|].
    destruct (decide (t = BlockItemOperations)) as [->|Hno].
    + rewrite Hits in Ht. destruct (Nat.ltb_spec 0 lenops) as [Hlt|Hge].
      * rewrite lookup_insert_eq in Ht. injection Ht as <-. by exists fo.
      * destruct (proj1 Ho) as [? _]; [by eexists|done].
    + rewrite Hother in Ht by done. destruct (Hi t i Ht) as (f & -> & Hf). exists f. split; [done|]. rewrite decide_False in Hf by done.
      destruct (decide _); [done|]. by rewrite lookup_insert_ne.
  - rewrite Hits. destruct (Nat.ltb_spec 0 lenops) as [Hlt|Hge]; [rewrite lookup_insert_eq; split; [done|by eexists]|].
    rewrite Ho. split; [by intros [? ?]|lia].
  - intros t [i [[<- _]|[_ Ht]]%lookup_insert_Some]; [split; [vm_compute; set_solver|done]|].
    destruct (decide (t = BlockItemOperations)) as [->|]; [split; [vm_compute; set_solver|done]|].
    rewrite Hother in Ht by done. apply Hnm. by eexists.
Qed.
Lemma SetStatesTree_ok pr m fo ff lenops otr str vps a fs fs1 :
  trees_done pr m fo ff lenops otr str vps a false fs -> SetStatesTree str fs = Ok fs1 ->
  trees_done pr m fo ff lenops otr str vps a true fs1.
Proof.
  intros [(Hfo & Hfs & Hlen) Hi Ho Hot Hotf Hs Hst Hstf Hp Hv Hnm Hm Hr]. unfold SetStatesTree, setTree.
  intros (fs2 & H2' & (_ & (fs3 & ->%map_item_ok & [= <-])%bind_ok)%bind_err_ok)%bind_ok. rewrite Hfs in H2'.
  apply map_item_ok in H2' as ->. split; simpl; items_lookup; try done.
  - intros t i [[<- <-]|[Hne Ht]]%lookup_insert_Some; [eexists; split; [done|]; rewrite !decide_False by done; by items_lookup|].
    apply lookup_insert_Some in Ht as [[<- <-]|[Hne' Ht]]; [by exists ff|].
    destruct (Hi t i Ht) as (f & -> & Hf). exists f. split; [done|]. destruct (decide (t = BlockItemOperations)); [done|].
    rewrite decide_False in Hf |- * by done. by rewrite lookup_insert_ne.
  - intros t [i [[<- _]|[_ [[<- _]|[_ Ht]]%lookup_insert_Some]]%lookup_insert_Some]; try (split; [vm_compute; set_solver|done]).
    apply Hnm. by eexists.
Qed.

(** The files of a saved block. *)
Record block_saved (pr : BlockProposal) (m : Manifest) (fo ff : file) (lenops : nat) (otr str : list FixedTree.Node)
    (vps : file -> Prop) (a b : bool) (bm : BlockMap) (d : gmap BlockItemType file) : Prop := {
  sv_manifest : bm_manifest bm = m;
  sv_items t i : bm_items bm !! t = Some i -> exists f, d !! t = Some f /\ i = item_of t f;
  sv_ops : is_Some (bm_items bm !! BlockItemOperations) <-> a = true /\ (0 < lenops)%nat;
  sv_ops_file : a = true -> (0 < lenops)%nat -> d !! BlockItemOperations = Some fo;
  sv_opstree : is_Some (bm_items bm !! BlockItemOperationsTree) <-> a = true;
  sv_opstree_file : a = true -> d !! BlockItemOperationsTree = Some (tree_file otr);
  sv_sts : is_Some (bm_items bm !! BlockItemStates) <-> b = true;
  sv_sts_file : b = true -> d !! BlockItemStates = Some ff;
  sv_ststree : is_Some (bm_items bm !! BlockItemStatesTree) <-> b = true;
  sv_ststree_file : b = true -> d !! BlockItemStatesTree = Some (tree_file str);
  sv_proposal : is_Some (bm_items bm !! BlockItemProposal) /\ d !! BlockItemProposal = Some [LHeader 0; LProposal pr];
  sv_vps : is_Some (bm_items bm !! BlockItemVoteproofs) /\ exists f, d !! BlockItemVoteproofs = Some f /\ vps f;
  sv_map : d !! BlockItemMap = Some [LHeader 0; LMap bm];
  sv_dom t : is_Some (bm_items bm !! t) -> t ∈ loadable /\ t <> BlockItemOperationReceipts
}.
Lemma has_item_Some (m : BlockMap) t : has_item m t = true <-> is_Some (bm_items m !! t).
Proof. unfold has_item. apply bool_decide_eq_true. Qed.

Lemma lw_Save_ok pr m fo ff lenops otr str vps a b networkID now fs st bm fs1 st1 :
  trees_done pr m fo ff lenops otr str vps a b fs -> lw_Save networkID now fs st = Ok (bm, fs1, st1) ->
  exists d, st_heights st1 !! bp_height pr = Some d /\ block_saved pr m fo ff lenops otr str vps a b bm d /\
    exists node priv m0, address_IsValid node = Ok tt /\ BlockMap_Sign node priv networkID now m0 = Ok bm.
Proof.
  intros [(Hfo & Hfs & Hlen) Hi Ho Hot Hotf Hs Hst Hstf Hp Hv Hnm Hm (Hsv & Hh & node & priv & Hloc & Hnode)]. unfold lw_Save. rewrite Hsv.
  destruct (st_heights st !! lw_height fs); [done|]. unfold lw_save. rewrite Hfo, Hfs.
  set (temp := (if has_item (lw_m fs) BlockItemStates then <[BlockItemStates := ff]> else id)
    ((if has_item (lw_m fs) BlockItemOperations then <[BlockItemOperations := fo]> else id) (lw_temp fs))).
  assert (exists w, keep_file BlockItemStates (Some ff) (keep_file BlockItemOperations (Some fo) fs) = w /\ lw_m w = lw_m fs /\
    lw_temp w = temp /\ lw_local w = lw_local fs /\ lw_height w = lw_height fs) as (w & -> & Hwm & Hwt & Hwl & Hwh).
  { eexists. split; [done|]. unfold keep_file, temp. destruct (has_item (lw_m fs) BlockItemOperations) eqn:E1; simpl;
      destruct (has_item (lw_m fs) BlockItemStates) eqn:E2; done. }
  intros (Hg & (w1 & Hmap & [= <- <- <-])%bind_ok)%bind_err_ok. rewrite Hwm in Hg.
  apply guard_err_ok, negb_false_iff, has_item_Some in Hg.
  unfold saveMap in Hmap. rewrite Hwl, Hloc in Hmap. apply bind_ok in Hmap as (bm & Hsign & Hmap).
  unfold writeItem in Hmap. apply bind_err_ok in Hmap as [_ Hmap]. rewrite bool_decide_true in Hmap by done. injection Hmap as <-. simpl.
  rewrite Hwh, Hh. unfold set_items. simpl. rewrite lookup_partial_alter_eq. eexists. split; [done|].
  split; [|by exists node, priv, (lw_m w)].
  assert (bm_manifest bm = m /\ bm_items bm = bm_items (lw_m fs)) as [Hbm Hbi].
  { rewrite Hwm in Hsign. unfold BlockMap_Sign in Hsign. apply bind_ok in Hsign as (si & _ & [= <-]). done. }
  assert (forall t, t <> BlockItemOperations -> t <> BlockItemStates -> t <> BlockItemMap ->
    <[BlockItemMap := [LHeader 0; LMap bm]]> temp !! t = lw_temp fs !! t) as Hother.
  { intros t H1' H2' H3'. rewrite lookup_insert_ne by done. unfold temp.
    destruct (has_item _ BlockItemStates), (has_item _ BlockItemOperations); simpl; by rewrite ?lookup_insert_ne by done. }
  assert (is_Some (bm_items (lw_m fs) !! BlockItemStates) -> temp !! BlockItemStates = Some ff) as Hsf.
  { intros Hx%has_item_Some. unfold temp. rewrite Hx. by rewrite lookup_insert_eq. }
  assert (is_Some (bm_items (lw_m fs) !! BlockItemOperations) -> temp !! BlockItemOperations = Some fo) as Hof.
  { intros Hx%has_item_Some. unfold temp. rewrite Hx. destruct (has_item _ BlockItemStates); simpl;
      rewrite ?lookup_insert_ne by done; by rewrite lookup_insert_eq. }
  split; rewrite ?Hbi, ?Hwt, ?Hother by done; try done.
  - intros t i Ht. destruct (Hi t i Ht) as (f & -> & Hf). exists f. split; [|done].
    destruct (decide (t = BlockItemMap)) as [->|Hnot].
    { destruct (Hnm BlockItemMap) as [Hin _]; [by eexists|]. vm_compute in Hin. set_solver. }
    destruct (decide (t = BlockItemOperations)) as [->|]; [rewrite lookup_insert_ne by done; subst; apply Hof; by eexists|].
    destruct (decide (t = BlockItemStates)) as [->|]; [rewrite lookup_insert_ne by done; subst; apply Hsf; by eexists|].
    by rewrite Hother.
  - intros Ha Hl. rewrite lookup_insert_ne by done. by apply Hof, Ho.
  - intros Hb. rewrite lookup_insert_ne by done. by apply Hsf, Hs.
  - split; [done|]. destruct Hg as [i Ht]. destruct (Hi _ _ Ht) as (f & -> & Hf). rewrite !decide_False in Hf by done.
    exists f. split; [done|]. apply Hv; [by eexists|done].
  - by rewrite lookup_insert_eq.
Qed.
End saving.
