(* ===== verification/WriterValid.v ===== *)
(** * A saved block is valid

    The end of the proofs about [Writer]: the block that is saved is read back from its
    files, and the validation of blocks ([IsValidBlockFromLocalFS] in [Block]) accepts
    it, whatever the order in which the workers wrote it. *)
From stdpp Require Import pretty.
From S2P Require Import Prelude FixedTree Point Vote Slice Ballot Voteproof Batch Block State SuffrageState SuffrageProof Tempdb Effects LocalFS Writer WriterLaws.

Open Scope Z_scope.

(** ** Operations with nothing wrong about them *)
(** The hash of a fact, as the keys of the tree of operations need it: not empty, no
    dash at its end, and what [parse_hash] gives back. *)
Definition good_fact `{BlockCrypto} (h : Hash) : Prop := h <> ""%string /\ cut_dash h = (h, true) /\ parse_hash h = h.
(** Operations that are processed or refused, without receipts. *)
Definition plain_prepared `{BlockCrypto, Receipts} (p : prepared) : Prop :=
  match p with
  | PIgnored => True
  | PRefused op => good_fact op.2
  | PProcessed op _ _ None => good_fact op.2
  | _ => False
  end.

Lemma cut_dash_app s : cut_dash (s +:+ "-") = (s, false).
Proof.
  induction s as [|c s IH]; [done|]. change (cut_dash (String c (s +:+ "-")) = (String c s, false)).
  assert (forall y, y <> ""%string -> cut_dash (String c y) = let '(k, b) := cut_dash y in (String c k, b)) as Hc.
  { intros y Hy. destruct y as [|d y]; [done|]. destruct c as [b0 b1 b2 b3 b4 b5 b6 b7].
    by destruct b0, b1, b2, b3, b4, b5, b6, b7. }
  rewrite Hc, IH; [done|]. by destruct s.
Qed.

(** ** Jobs that share nothing *)
Lemma fold_unit {A} (f : A -> unit -> res unit) l : (forall x, x ∈ l -> f x tt = Ok tt) -> fold_res f l tt = Ok tt.
Proof.
  induction l as [|x l IH]; intros Hf; [done|]. simpl. rewrite Hf by set_solver. cbn [mbind res_bind]. apply IH. set_solver.
Qed.
Lemma for_all_jobs_ok {A} (sched : list Z -> list Z) (l : list A) f : (forall l, sched l ≡ₚ l) -> l <> [] ->
  Forall (fun x => f x = Ok tt) l -> for_all_jobs sched l f = Ok tt.
Proof.
  intros Hp Hne Hf. set (n := Z.of_nat (length l)).
  assert (1 <= n) as Hn by (unfold n; destruct l; [done|]; simpl; lia).
  assert (forall ws i e, 1 <= ws -> 0 <= i -> e <= n -> batch_step sched ws (fun _ s => Ok s)
    (fun i _ s => match l !! Z.to_nat i with Some x => f x ≫= fun _ => Ok s | None => Panic end) (i, e) tt = Ok tt) as Hb.
  { intros ws i e Hws Hi He. unfold batch_step, RunJobWorker. cbn [mbind res_bind]. rewrite (proj2 (Z.ltb_ge _ _)) by lia.
    apply fold_unit. intros j Hj. rewrite Hp, elem_of_seqZ in Hj. destruct (lookup_lt_is_Some_2 l (Z.to_nat j)) as [x Hx]; [lia|].
    rewrite Hx. rewrite Forall_lookup in Hf. by rewrite (Hf _ _ Hx). }
  unfold for_all_jobs, BatchWork. fold n. rewrite (proj2 (Z.ltb_ge _ _)) by lia. destruct (Z.leb_spec n 333).
  - apply Hb; lia.
  - simpl (333 <? 1). cbn iota. apply fold_unit. intros [i e] Hin. apply batches_bounds in Hin; [|lia..]. simpl in Hin. apply Hb; lia.
Qed.

(** ** Inverting the effects of a save *)
Lemma io_bind_ok {W A A'} (m : IO W A) (f : A -> IO W A') x b x' : (m ≫= f) x = (Ok b, x') ->
  exists a y, m x = (Ok a, y) /\ f a y = (Ok b, x').
Proof. unfold mbind, io_bind. destruct (m x) as [[a|e|] y]; [|done..]. intros Hf. by exists a, y. Qed.

Section effects.
Context `{Crypto, BlockCrypto, TreeHash, !StateValue state_value, Receipts, !ItemCodec} {B : Type} `{BlockWriteDatabase B}.
Implicit Types (x y : World (B := B)).

Definition with_ww w x : World (B := B) := {| ww := w; ww_fs := ww_fs x; ww_st := ww_st x; ww_db := ww_db x |}.
Lemma on_writer_ok f x u y : on_writer f x = (Ok u, y) -> exists w, f (ww x) = Ok w /\ y = with_ww w x.
Proof. unfold on_writer. destruct (f (ww x)) as [w|e|]; [|done..]. intros [= _ <-]. by exists w. Qed.
Lemma on_fs_ok f x u y : on_fs f x = (Ok u, y) -> exists fs, f (ww_fs x) = Ok fs /\ ww_fs y = fs /\ ww y = ww x /\ ww_st y = ww_st x.
Proof. unfold on_fs. destruct (f (ww_fs x)) as [fs|e|]; [|done..]. intros [= _ <-]. by exists fs. Qed.
Lemma on_db_ok {A} (m : IO B A) x a y : on_db m x = (Ok a, y) -> ww y = ww x /\ ww_fs y = ww_fs x /\ ww_st y = ww_st x.
Proof. unfold on_db. destruct (m (ww_db x)) as [r db]. intros [= _ <-]. done. Qed.

(** A job of the save worker, by what it does to the files. *)
Lemma do_save_job_ok pr m n total done j x u y : wr_proposal (ww x) = Some pr -> wr_manifest (ww x) = Some m ->
  (forall op, j = JobOperation op -> exists g, wr_opstreeg (ww x) = Some g /\ Z.of_nat (length g) = n) ->
  match j with JobState t _ => t = total | _ => True end ->
  jobs_done pr m n total done (ww_fs x) -> do_save_job j x = (Ok u, y) ->
  ww y = ww x /\ ww_st y = ww_st x /\ jobs_done pr m n total (done ++ [j]) (ww_fs y).
Proof.
  intros Hpr Hm Hg Ht J Hr.
  enough (ww y = ww x /\ ww_st y = ww_st x /\ fs_job pr m n j (ww_fs x) = Ok (ww_fs y)) as (? & ? & ?).
  { split; [done|]. split; [done|]. by eapply fs_job_ok. }
  destruct j as [op|op|t st| |vp|vp|]; cbn [do_save_job fs_job] in Hr |- *.
  - apply on_db_ok in Hr as (-> & -> & ->). done.
  - apply io_bind_ok in Hr as (g & z & [= <- <-] & Hr). destruct (Hg op eq_refl) as (g & Hg' & <-). rewrite Hg' in Hr.
    apply on_fs_ok in Hr as (fs & ? & <- & -> & ->). done.
  - apply io_bind_ok in Hr as (g & z & (fs & ? & <- & Hw & Hst)%on_fs_ok & (-> & -> & ->)%on_db_ok). by rewrite Hw, Hst.
  - apply io_bind_ok in Hr as (g & z & [= <- <-] & Hr). rewrite Hm in Hr. apply on_fs_ok in Hr as (fs & ? & <- & -> & ->). done.
  - apply on_fs_ok in Hr as (fs & ? & <- & -> & ->). done.
  - apply on_fs_ok in Hr as (fs & ? & <- & -> & ->). done.
  - apply io_bind_ok in Hr as (g & z & [= <- <-] & Hr). rewrite Hpr in Hr. apply on_fs_ok in Hr as (fs & ? & <- & -> & ->). done.
Qed.
Lemma run_save_jobs pr m n total l x u y : wr_proposal (ww x) = Some pr -> wr_manifest (ww x) = Some m ->
  (forall op, JobOperation op ∈ l -> exists g, wr_opstreeg (ww x) = Some g /\ Z.of_nat (length g) = n) ->
  Forall (fun j => match j with JobState t _ => t = total | _ => True end) l ->
  jobs_done pr m n total [] (ww_fs x) -> run_jobs do_save_job l x = (Ok u, y) ->
  ww y = ww x /\ ww_st y = ww_st x /\ jobs_done pr m n total l (ww_fs y).
Proof.
  intros Hpr Hm Hg Ht J Hr. rewrite Forall_forall in Ht.
  enough (triple (fun z => ww z = ww x /\ ww_st z = ww_st x /\ jobs_done pr m n total [] (ww_fs z)) (run_jobs do_save_job l)
    (fun _ z => ww z = ww x /\ ww_st z = ww_st x /\ jobs_done pr m n total l (ww_fs z)) (fun _ => True)) as Hall.
  { specialize (Hall x). rewrite Hr in Hall. by apply Hall. }
  apply (run_jobs_triple do_save_job (fun done z => ww z = ww x /\ ww_st z = ww_st x /\ jobs_done pr m n total done (ww_fs z))).
  intros done j Hj z (Hz & Hst & Jz). destruct (do_save_job j z) as [[u'|e|] z'] eqn:Ez; [|done..].
  edestruct (do_save_job_ok pr m n total done j z) as (E1 & E2 & J'); [by rewrite Hz..| |by apply Ht|done|done|].
  - intros op ->. rewrite Hz. by eapply Hg.
  - by rewrite E1, E2.
Qed.
End effects.

Section save.
Context `{Crypto, BlockCrypto, TreeHash, !StateValue state_value, Receipts, !ItemCodec} {B : Type} `{BlockWriteDatabase B}.
Variable schedj : list save_job -> list save_job.
Hypothesis schedj_perm : forall l, schedj l ≡ₚ l.
Implicit Types (x y : World (B := B)).

(** When there is a tree, it is written. *)
Lemma write_tree_ok (Q : bool -> LocalFSWriter -> Prop) (tr : list FixedTree.Node) (f : LocalFSWriter -> res LocalFSWriter) x u y :
  (forall fs fs1, f fs = Ok fs1 -> Q false fs -> Q true fs1) -> Q false (ww_fs x) ->
  when (0 <? length tr)%nat (on_fs f) x = (Ok u, y) ->
  Q (0 <? length tr)%nat (ww_fs y) /\ ww y = ww x /\ ww_st y = ww_st x.
Proof.
  intros Hf HQ. unfold when. destruct (0 <? length tr)%nat.
  - intros (fs & Hr & <- & -> & ->)%on_fs_ok. split; [|done]. by eapply Hf.
  - by intros [= _ <-].
Qed.

Lemma save_suffrage_proof_st m x u y : save_suffrage_proof m x = (Ok u, y) -> ww_st y = ww_st x.
Proof.
  unfold save_suffrage_proof. intros (st & z & [= <- <-] & Hr)%io_bind_ok.
  destruct (db_SuffrageState (ww_db x)) as [st|]; [|by injection Hr as _ <-].
  apply io_bind_ok in Hr as (tr & z & [= <- <-] & Hr). apply io_bind_ok in Hr as (proof & z & Hl & Hr).
  injection Hl as _ <-. by apply on_db_ok in Hr as (_ & _ & ->).
Qed.

Lemma save_proposal_ok pr lops lsts ops m networkID now mergedb ivp avp x bm y local :
  manifested pr lops lsts ops m (ww x) -> (ops <> [] -> lops <> []) -> wr_hasReceipts (ww x) = false ->
  ww_fs x = NewLocalFSWriter (bp_height pr) local -> address_IsValid local.1 = Ok tt ->
  save_proposal schedj networkID now mergedb ivp avp x = (Ok bm, y) ->
  exists total o s d, o ≡ₚ ops /\ s ≡ₚ lsts.*2 /\ (length lsts <= total)%nat /\ st_heights (ww_st y) !! bp_height pr = Some d /\
    block_saved pr m (ops_file (Z.of_nat (length (wr_opstree (ww x)))) o) (sts_file (Z.of_nat total) s) (length o)
      (wr_opstree (ww x)) (wr_ststree (ww x)) (fun f => f = vps_file ivp avp)
      (0 <? length (wr_opstree (ww x)))%nat (0 <? length (wr_ststree (ww x)))%nat bm d /\
    exists node priv m0, address_IsValid node = Ok tt /\ BlockMap_Sign node priv networkID now m0 = Ok bm.
Proof.
  intros M Hops Hrc Hfs Hloc. destruct (md_jobs _ _ _ _ _ _ M) as (total & jobs & Hj & Hle & Hmj & Ho & Hs & Hin).
  unfold save_proposal, Writer_Save, waitSaveWorker.
  intros (u1 & x1 & (w1 & [Hc ->]%NewJob_ok & ->)%on_writer_ok & Hr)%io_bind_ok.
  apply io_bind_ok in Hr as (u2 & x2 & (w2 & [_ ->]%NewJob_ok & ->)%on_writer_ok & Hr).
  apply io_bind_ok in Hr as (u3 & x3 & Hw & Hr). apply io_bind_ok in Hw as (w4 & x4 & [= <- <-] & Hw). simpl in Hw.
  apply io_bind_ok in Hw as (u5 & x5 & (w5 & [_ ->]%NewJob_ok & ->)%on_writer_ok & Hw).
  apply io_bind_ok in Hw as (js & x6 & [= <- <-] & Hw). simpl in Hw. rewrite Hj in Hw. simpl in Hw.
  apply io_bind_ok in Hw as (u7 & x7 & (w7 & [= <-] & ->)%on_writer_ok & Hw). apply io_bind_ok in Hw as (u8 & x8 & Hrun & Hw).
  set (all := ((jobs ++ [JobINIT ivp]) ++ [JobACCEPT avp]) ++ [JobProposal]) in *.
  apply (run_save_jobs pr m (Z.of_nat (length (wr_opstree (ww x)))) (Z.of_nat total)) in Hrun as (E1 & E2 & J).
  2: { apply (md_proposal _ _ _ _ _ _ M). }
  2: { apply (md_manifest _ _ _ _ _ _ M). }
  2: { intros op Hop. rewrite schedj_perm in Hop. exists (wr_opstree (ww x)). split; [|done]. apply (md_opstreeg _ _ _ _ _ _ M), Hops.
       intros Hn. assert (op ∈ omap job_op jobs) as Hop'; [|rewrite Ho, Hn in Hop'; by apply elem_of_nil in Hop'].
       apply list_elem_of_omap. exists (JobOperation op). split; [|done].
       unfold all in Hop. rewrite !elem_of_app, !list_elem_of_singleton in Hop. by destruct Hop as [[[?|?]|?]|?]. }
  2: { rewrite schedj_perm. unfold all. rewrite !Forall_app. repeat split; try by constructor.
       eapply Forall_impl; [exact Hmj|]. by intros []. }
  2: { simpl. rewrite Hfs. by apply jobs_done_start. }
  apply (jobs_done_perm _ _ _ _ _ _ _ (schedj_perm all)) in J as (o & s & Hoo & Hss & W).
  assert (omap job_op all = omap job_op jobs /\ omap job_st all = omap job_st jobs) as [Eo Es].
  { unfold all. rewrite !omap_app. simpl. by rewrite !app_nil_r. }
  rewrite Eo, Ho in Hoo. rewrite Es, Hs in Hss.
  eapply (trees_start pr m _ _ o s all _ (wr_opstree (ww x)) (wr_ststree (ww x))) in W; [|unfold all; set_solver|unfold all; set_solver].
  apply io_bind_ok in Hw as (u9 & x9 & (Ew9 & Ef9 & Es9)%on_db_ok & Hw). rewrite <- Ef9 in W. rewrite E1 in Ew9. rewrite E2 in Es9.
  apply io_bind_ok in Hw as (u10 & x10 & Ht & Hw). simpl in Ht.
  set (T := trees_done pr m (ops_file (Z.of_nat (length (wr_opstree (ww x)))) o) (sts_file (Z.of_nat total) s) (length o)
    (wr_opstree (ww x)) (wr_ststree (ww x)) (written_vps all)) in W.
  destruct (write_tree_ok (fun a => T a false) (wr_opstree (ww x)) _ _ _ _ (fun _ _ E0 T0 => SetOperationsTree_ok _ _ _ _ _ _ _ _ _ _ _ T0 E0) W Ht)
    as (W1 & Ew10 & Es10).
  apply io_bind_ok in Hw as (u11 & x11 & Hre & Hw). unfold save_receipts in Hre.
  apply io_bind_ok in Hre as (w11 & z & [= <- <-] & Hre). rewrite Ew10, Ew9 in Hre. simpl in Hre. rewrite Hrc in Hre. injection Hre as _ <-.
  destruct (write_tree_ok (T (0 <? length (wr_opstree (ww x)))%nat) (wr_ststree (ww x)) _ _ _ _
    (fun _ _ E0 T0 => SetStatesTree_ok _ _ _ _ _ _ _ _ _ _ _ T0 E0) W1 Hw) as (W2 & Ew12 & Es12).
  apply io_bind_ok in Hr as (bm' & x13 & Hsave & Hr). unfold fs_Save in Hsave.
  destruct (lw_Save networkID now (ww_fs x3) (ww_st x3)) as [[[bm1 fs1] st1]|e|] eqn:Esave; [|done..]. injection Hsave as <- <-.
  eapply lw_Save_ok in Esave as (d & Hd & Sv & Hsign); [|exact W2].
  apply io_bind_ok in Hr as (u14 & x14 & (_ & _ & Es14)%on_db_ok & Hr). simpl in Es14.
  apply io_bind_ok in Hr as (u15 & x15 & Es15%save_suffrage_proof_st & Hr).
  apply io_bind_ok in Hr as (u16 & x16 & (_ & _ & Es16)%on_db_ok & Hr).
  apply io_bind_ok in Hr as (u17 & x17 & (w17 & _ & ->)%on_writer_ok & Hr). injection Hr as <- <-. simpl.
  exists total, o, s, d. rewrite Es16, Es15, Es14. split; [done|]. split; [done|]. split; [done|]. split; [done|]. split; [|exact Hsign].
  destruct Sv as [S1 S2 S3 S4 S5 S6 S7 S8 S9 S10 S11 [S12 (f & Hf & Hv)] S13 S14]. split; try done. split; [done|]. exists f. split; [done|].
  destruct Hv as (ivp' & avp' & Hi & Ha & ->). unfold all in Hi, Ha. rewrite !elem_of_app, !list_elem_of_singleton in Hi, Ha.
  rewrite Forall_forall in Hmj.
  assert (ivp' = ivp) as -> by (destruct Hi as [[[?%Hmj|[=]]|?]|?]; done).
  assert (avp' = avp) as -> by (destruct Ha as [[[?%Hmj|?]|[=]]|?]; done). done.
Qed.
End save.

(** ** What is read back *)
Section read.
Context `{Crypto, BlockCrypto, TreeHashLaws, Receipts, !ItemCodec}.
Lemma all_set_Some {A} (l : list A) : all_set (Some <$> l) = Ok l.
Proof. induction l as [|a l IH]; [done|].
  change (all_set (Some <$> a :: l)) with (all_set (Some <$> l) ≫= fun r => Ok (a :: r)). by rewrite IH.
Qed.
Lemma tree_of_some tr l : tree_of tr l -> forall i, (i < length tr)%nat -> exists n, tr !! i = Some (Some n).
Proof. intros T i Hi. destruct (tree_of_lookup _ _ _ T Hi) as (n & j & b & Hn & _). by exists n. Qed.
Lemma tree_for_length tr l : tree_for tr l -> length tr = length l.
Proof. destruct l; [by intros ->|]. apply tree_of_length. Qed.
Variables (schedl : list (nat * line) -> list (nat * line)) (maxWorkerSize : Z).
Hypothesis schedl_perm : forall l, schedl l ≡ₚ l.
Hypothesis workers : 1 <= maxWorkerSize.

(** A file of lines that was written. *)
Lemma read_lines_file {A} (as_value : line -> option A) (mk : A -> line) (l : list A) n :
  (forall a, as_value (mk a) = Some a /\ plain (mk a)) -> l <> [] -> Z.of_nat (length l) <= n ->
  (read_items schedl maxWorkerSize as_value (lines_file n (mk <$> l)) ≫= all_set) = Ok l.
Proof.
  intros Hmk Hne Hn. destruct l as [|a l]; [done|].
  change (lines_file n (mk <$> a :: l)) with (LHeader n :: (mk <$> a :: l)).
  rewrite (read_written schedl maxWorkerSize schedl_perm workers as_value mk) by done. apply all_set_Some.
Qed.
Lemma read_tree_file tr l : tree_for tr l -> tr <> [] -> decodeTree schedl maxWorkerSize (tree_file tr) = Ok tr.
Proof.
  intros T Hne. apply (read_tree schedl maxWorkerSize schedl_perm workers); [done|]. destruct l; [done|]. by eapply tree_of_some.
Qed.

Definition items_of (pr : BlockProposal) (o : list (Hash * Hash)) (s : list St) (otr str : list FixedTree.Node) (ivp avp : Voteproof) : BlockItems :=
  {| it_proposal := Some (bp_height pr, bp_fact pr); it_ops := o; it_sts := state_entry <$> s; it_opstree := otr; it_ststree := str;
     it_vps := (Some ivp, Some avp); it_receipts := None |}.

(** An item that is in the block map exactly when [b], and then reads as [a]. *)
Lemma load_item_if {A} bm d t (empty a : A) (f : file -> res A) (b : bool) :
  (is_Some (bm_items bm !! t) <-> b = true) -> (b = true -> exists x, d !! t = Some x /\ f x = Ok a) -> (b = false -> a = empty) ->
  load_item bm d t empty f = Ok a.
Proof.
  intros Hi Hf He. unfold load_item. destruct (has_item bm t) eqn:E.
  - apply has_item_Some, Hi in E. destruct (Hf E) as (x & -> & ->). done.
  - destruct b; [|by rewrite He]. apply not_true_iff_false in E. destruct E. by apply has_item_Some, Hi.
Qed.

Lemma LoadBlockItems_saved pr m lops lsts n total o s otr str ivp avp bm d :
  is_init_type ivp = true -> is_init_type avp = false ->
  tree_for otr lops -> tree_for str (state_at_slot <$> lsts) -> s ≡ₚ lsts.*2 ->
  (length lsts <= total)%nat -> (length o <= length otr)%nat -> n = Z.of_nat (length otr) ->
  block_saved pr m (ops_file n o) (sts_file (Z.of_nat total) s) (length o) otr str (fun f => f = vps_file ivp avp)
    (0 <? length otr)%nat (0 <? length str)%nat bm d ->
  LoadBlockItemsFromReader schedl maxWorkerSize bm d = Ok (items_of pr o s otr str ivp avp).
Proof.
  intros Hi Ha To Ts Hs Htot Ho -> Sv. unfold LoadBlockItemsFromReader.
  assert (forallb (fun i => bool_decide (bi_t i ∈ loadable)) (BlockMap_Items bm) = true) as ->.
  { apply forallb_forall. intros i Hin%list_elem_of_In. apply bool_decide_eq_true.
    unfold BlockMap_Items in Hin. apply list_elem_of_fmap in Hin as ([t i'] & -> & Hin). apply elem_of_map_to_list in Hin. simpl.
    destruct (sv_items _ _ _ _ _ _ _ _ _ _ _ _ Sv _ _ Hin) as (f & _ & ->). apply (sv_dom _ _ _ _ _ _ _ _ _ _ _ _ Sv). by eexists. }
  cbn [negb guard_err mbind res_bind].
  assert (length str = length s) as Hls by (by rewrite (tree_for_length _ _ Ts), Hs, !length_fmap).
  assert (forall tr : list FixedTree.Node, (0 <? length tr)%nat = true -> tr <> []) as Hne by (by intros []).
  assert (forall A (l : list A), (0 <? length l)%nat = false -> l = []) as Hnil by (by intros A []).
  rewrite (load_item_if bm d BlockItemProposal _ (Some (bp_height pr, bp_fact pr)) _ true); cycle 1.
  { split; [done|]. intros _. apply (sv_proposal _ _ _ _ _ _ _ _ _ _ _ _ Sv). }
  { intros _. eexists. split; [apply (sv_proposal _ _ _ _ _ _ _ _ _ _ _ _ Sv)|done]. }
  { done. }
  cbn [mbind res_bind]. rewrite (load_item_if bm d BlockItemOperationsTree _ otr _ (0 <? length otr)%nat); cycle 1.
  { apply (sv_opstree _ _ _ _ _ _ _ _ _ _ _ _ Sv). }
  { intros E. eexists. split; [by apply (sv_opstree_file _ _ _ _ _ _ _ _ _ _ _ _ Sv)|]. eapply read_tree_file; [done|by apply Hne]. }
  { apply Hnil. }
  cbn [mbind res_bind]. rewrite (load_item_if bm d BlockItemStatesTree _ str _ (0 <? length str)%nat); cycle 1.
  { apply (sv_ststree _ _ _ _ _ _ _ _ _ _ _ _ Sv). }
  { intros E. eexists. split; [by apply (sv_ststree_file _ _ _ _ _ _ _ _ _ _ _ _ Sv)|]. eapply read_tree_file; [done|by apply Hne]. }
  { apply Hnil. }
  cbn [mbind res_bind]. rewrite (load_item_if bm d BlockItemVoteproofs _ (Some ivp, Some avp) _ true); cycle 1.
  { split; [done|]. intros _. apply (sv_vps _ _ _ _ _ _ _ _ _ _ _ _ Sv). }
  { intros _. destruct (sv_vps _ _ _ _ _ _ _ _ _ _ _ _ Sv) as [_ (f & Hf & ->)]. eexists. split; [exact Hf|].
    unfold vps_file. by rewrite (read_voteproofs schedl maxWorkerSize schedl_perm workers ivp avp Hi Ha). }
  { done. }
  cbn [mbind res_bind]. rewrite (load_item_if bm d BlockItemOperations _ o _ (0 <? length o)%nat); cycle 1.
  { rewrite (sv_ops _ _ _ _ _ _ _ _ _ _ _ _ Sv), !Nat.ltb_lt. lia. }
  { rewrite Nat.ltb_lt. intros E. eexists. split; [apply (sv_ops_file _ _ _ _ _ _ _ _ _ _ _ _ Sv); [apply Nat.ltb_lt; lia|done]|].
    apply read_lines_file; [by intros a|intros ->; simpl in E; lia|lia]. }
  { apply Hnil. }
  cbn [mbind res_bind]. rewrite (load_item_if bm d BlockItemStates _ s _ (0 <? length str)%nat); cycle 1.
  { apply (sv_sts _ _ _ _ _ _ _ _ _ _ _ _ Sv). }
  { intros E. eexists. split; [by apply (sv_sts_file _ _ _ _ _ _ _ _ _ _ _ _ Sv)|].
    apply read_lines_file; [by intros a| |]; rewrite ?Hs; [|rewrite length_fmap; lia]. intros ->. rewrite Hls in E. done. }
  { rewrite Hls. apply Hnil. }
  cbn [mbind res_bind]. rewrite (load_item_if bm d BlockItemOperationReceipts _ None _ false); [done| |done..].
  split; [|done]. intros Hr. by destruct (sv_dom _ _ _ _ _ _ _ _ _ _ _ _ Sv _ Hr) as [_ []].
Qed.
End read.

(** ** The block against its manifest *)
Section validity.
Context `{Crypto, BlockCrypto, TreeHashLaws, !StateValue state_value, Receipts}.
Lemma omap_length_all {A A'} (f : A -> option A') l : (forall x, x ∈ l -> is_Some (f x)) -> length (omap f l) = length l.
Proof.
  induction l as [|x l IH]; intros Hf; [done|]. simpl. destruct (Hf x) as [y ->]; [set_solver|].
  simpl. apply (f_equal S), IH. set_solver.
Qed.
Lemma plain_active ps i p : Forall plain_prepared ps -> (i, p) ∈ active ps ->
  exists op k, op_of p = Some op /\ good_fact op.2 /\ node_of p = NewBaseNode k /\ k <> ""%string /\ (ParseTreeNodeOperationKey k).1 = op.2.
Proof.
  intros Hp [Hi Ha]%active_in. rewrite Forall_lookup in Hp. specialize (Hp _ _ Hi).
  destruct p as [|oph fact|op|op stvs reason [rc|]|e]; try done; exists op; simpl in Hp; destruct Hp as (Hne & Hc & Hpa).
  - exists (op.2 +:+ "-")%string. split_and!; try done; [by destruct op.2|]. unfold ParseTreeNodeOperationKey. by rewrite cut_dash_app.
  - exists (if (1 <=? length stvs)%nat then op.2 else (op.2 +:+ "-"))%string. split_and!; try done.
    + destruct (_ <=? _)%nat; [done|by destruct op.2].
    + unfold ParseTreeNodeOperationKey. destruct (_ <=? _)%nat; [by rewrite Hc|by rewrite cut_dash_app].
Qed.
Lemma plain_keyed ps : Forall plain_prepared ps -> keyed ps.
Proof. intros Hp i p Hin. destruct (plain_active _ _ _ Hp Hin) as (op & k & _ & _ & Hk & Hne & _). by exists k. Qed.
Lemma plain_written ps : Forall plain_prepared ps -> length (written_ops ps) = length (op_slots ps).
Proof.
  intros Hp. unfold written_ops, op_slots. rewrite length_fmap. apply omap_length_all. intros [i p] Hin.
  destruct (plain_active _ _ _ Hp Hin) as (op & k & Ho & _). by exists op.
Qed.
Lemma plain_receipts ps : Forall plain_prepared ps -> ~ Exists has_receipt (active ps).
Proof.
  intros Hp ([i p] & Hin & Hr)%Exists_exists. apply active_in in Hin as [Hi _]. rewrite Forall_lookup in Hp. specialize (Hp _ _ Hi).
  unfold has_receipt in Hr. by destruct p as [| | |? ? ? []|].
Qed.

(** Both trees are checked in the same way. *)
Lemma tree_root_valid tr l h : tree_for tr l -> l <> [] -> tree_hash tr h ->
  Tree_IsValid (Ok tt) tr = Ok tt /\ (Root_Equal tr h ≫= fun eq => guard_err (negb eq) "hash does not match") = Ok tt.
Proof.
  intros T Hne Hh. destruct l; [done|]. simpl in T. split; [apply (to_valid _ _ T)|]. unfold tree_hash in Hh.
  pose proof (tree_of_length _ _ T) as Hl. destruct tr as [|o tr]; [done|]. destruct Hh as (r & Hr & ->).
  unfold Root_Equal. rewrite Hr. cbn [mbind res_bind Hash_eq]. by rewrite bool_decide_true.
Qed.
Lemma tree_for_traverse tr l f : tree_for tr l ->
  (forall i b n, (i, b) ∈ l -> n_key n = n_key b -> f n = Ok tt) -> Traverse 0 tr (fun _ n => f n) = Ok tt.
Proof.
  intros T Hf. destruct l as [|x l]; [simpl in T; by subst|]. apply Traverse_ok. intros i Hi.
  destruct (tree_of_lookup _ _ _ T Hi) as (n & j & b & Hn & Hl & Hk). exists n. split; [done|].
  eapply Hf; [|exact Hk]. by eapply list_elem_of_lookup_2.
Qed.

Variable schedv : list Z -> list Z.
Hypothesis schedv_perm : forall l, schedv l ≡ₚ l.

Lemma operations_valid ps tr o m f : Forall plain_prepared ps -> NoDup (written_ops ps).*2 -> o ≡ₚ written_ops ps ->
  tree_for tr (op_slots ps) -> tree_hash tr (mf_operationsTree m) -> Forall (fun op => f op = Ok tt) o ->
  IsValidOperationsOfBlock schedv tr o m f = Ok tt.
Proof.
  intros Hp Hnd Ho T Hh Hf. pose proof (tree_for_length _ _ T) as Hl. rewrite <- (plain_written _ Hp), <- Ho in Hl.
  unfold IsValidOperationsOfBlock, IsValidOperationsTreeWithManifest. rewrite length_fmap, Hl, Nat.eqb_refl. cbn [negb].
  destruct (decide (op_slots ps = [])) as [E|Hne].
  { rewrite E in T. simpl in T. subst tr. by destruct o. }
  assert (o <> []) as Hone.
  { intros ->. pose proof (tree_for_length _ _ T). destruct (op_slots ps); [done|]. simpl in *. lia. }
  destruct (tree_root_valid _ _ _ T Hne Hh) as [-> Hroot]. cbn [mbind res_bind].
  rewrite (proj2 (Nat.ltb_ge (length o) 1)) by (destruct o; [done|]; simpl; lia).
  assert (IsDuplicatedSlice o.*2 (fun h => (true, h)) = false) as ->.
  { apply (IsDuplicatedSlice_false id). by rewrite list_fmap_id, Ho. }
  rewrite (tree_for_traverse _ _ (fun n => guard_err (negb (bool_decide ((ParseTreeNodeOperationKey (n_key n)).1 ∈ o.*2)))
    "operation in tree not found in operations") T).
  - cbn [mbind res_bind]. rewrite Hroot. cbn [mbind res_bind]. rewrite (proj2 (Nat.ltb_lt 0 (length o))) by (destruct o; [done|]; simpl; lia).
    by apply for_all_jobs_ok.
  - intros i b n ([j p] & [= -> ->] & Hin)%list_elem_of_fmap Hk. destruct (plain_active _ _ _ Hp Hin) as (op & k & Hop & _ & Hn & _ & Hpk).
    rewrite Hk, Hn. simpl n_key. rewrite Hpk, bool_decide_true; [done|]. rewrite Ho. apply list_elem_of_fmap. exists op. split; [done|].
    apply list_elem_of_omap. by exists (j, p).
Qed.

Lemma states_valid h lsts tr s m f : NoDup (default "" ∘ s_h <$> lsts.*2) -> Forall (closed_at h) lsts.*2 -> s ≡ₚ lsts.*2 ->
  mf_height m = h -> tree_for tr (state_at_slot <$> lsts) -> tree_hash tr (mf_statesTree m) ->
  Forall (fun st => f (state_entry st) = Ok tt) s -> IsValidStatesOfBlock schedv tr (state_entry <$> s) m f = Ok tt.
Proof.
  intros Hnd Hc Hs Hm T Hh Hf. pose proof (tree_for_length _ _ T) as Hl. rewrite length_fmap in Hl.
  assert (length tr = length s) as Hls by (by rewrite Hs, length_fmap).
  unfold IsValidStatesOfBlock, IsValidStatesTreeWithManifest. rewrite length_fmap, Hls, Nat.eqb_refl. cbn [negb].
  destruct (decide (lsts = [])) as [->|Hne].
  { simpl in T. subst tr. by destruct s. }
  assert (s <> []) as Hsne by (intros E; rewrite E in Hls; apply Hne, nil_length_inv; by rewrite <- Hl).
  destruct (tree_root_valid _ _ (mf_statesTree m) T) as [-> Hroot]; [by destruct lsts|done|]. cbn [mbind res_bind].
  rewrite (proj2 (Nat.ltb_ge (length s) 1)) by (destruct s; [done|]; simpl; lia).
  assert (IsDuplicatedSlice (state_entry <$> s) (fun st => (true, st.1)) = false) as ->.
  { apply (IsDuplicatedSlice_false fst). rewrite <- list_fmap_compose. by rewrite Hs. }
  rewrite (tree_for_traverse _ _ (fun n => match list_find (fun st => st.1 = n_key n) (state_entry <$> s) with
      | None => Err "state in tree not found in states"
      | Some (_, st) => guard_err (negb (st.2 =? mf_height m)) "height does not match"
      end) T).
  - cbn [mbind res_bind]. rewrite Hroot. cbn [mbind res_bind]. rewrite (proj2 (Nat.ltb_lt 0 (length s))) by (destruct s; [done|]; simpl; lia).
    apply for_all_jobs_ok; [done|by destruct s|]. by apply Forall_fmap.
  - intros i b n ([j st] & [= -> ->] & Hin)%list_elem_of_fmap Hk. rewrite Hk. simpl n_key.
    destruct (list_find _ _) as [[k st']|] eqn:Ef.
    + apply list_find_Some in Ef as (Hst & _ & _). rewrite list_lookup_fmap in Hst. destruct (s !! k) as [st0|] eqn:E0; [|done].
      injection Hst as <-. simpl. rewrite Forall_forall in Hc. destruct (Hc st0) as [_ Hh0].
      { rewrite <- Hs. by eapply list_elem_of_lookup_2. }
      rewrite Hh0, Hm, Z.eqb_refl. done.
    + exfalso. apply list_find_None in Ef. rewrite Forall_forall in Ef. apply (Ef (state_entry st)); [|done].
      apply list_elem_of_fmap. exists st. split; [done|]. rewrite Hs. apply list_elem_of_fmap. by exists (j, st).
Qed.
End validity.

(** ** From the proposal to the valid block *)
Section written.
Context `{Crypto, BlockCryptoLaws, TreeHashLaws, !StateValue state_value, Receipts, !ItemCodec} {B : Type} `{BlockWriteDatabase B}.
Variable getStateFunc : string -> res (option St).
Hypothesis hashes_valid : forall s, hash_IsValid (sha256 s) = Ok tt.
Hypothesis hashes_filled : forall s, new_sha256 s <> ""%string.
Hypothesis checksum_filled : forall f, file_checksum f <> ""%string.
Variables (sched : list (nat * prepared) -> list (nat * prepared)) (schedst : list (nat * St) -> list (nat * St))
  (schedj : list save_job -> list save_job) (schedl : list (nat * line) -> list (nat * line)) (schedv : list Z -> list Z).
Hypothesis sched_perm : forall l, sched l ≡ₚ l.
Hypothesis schedst_perm : forall l, schedst l ≡ₚ l.
Hypothesis schedj_perm : forall l, schedj l ≡ₚ l.
Hypothesis schedl_perm : forall l, schedl l ≡ₚ l.
Hypothesis schedv_perm : forall l, schedv l ≡ₚ l.

(** The map of the files is a valid one. *)
Lemma saved_map_valid pr m fo ff n otr str vps networkID now node priv bm0 bm d :
  block_saved pr m fo ff n otr str vps (0 <? length otr)%nat (0 <? length str)%nat bm d ->
  tree_hash otr (mf_operationsTree m) -> tree_hash str (mf_statesTree m) -> Manifest_IsValid m = Ok tt ->
  address_IsValid node = Ok tt -> BlockMap_Sign node priv networkID now bm0 = Ok bm ->
  BlockMap_IsValid networkID bm = Ok tt.
Proof.
  intros Sv Ho Hs Hm Hn Hb.
  assert (bm_manifest bm = bm_manifest bm0 /\ bm_items bm = bm_items bm0) as [E1 E2].
  { unfold BlockMap_Sign in Hb. by apply bind_ok in Hb as (si & _ & [= <-]). }
  assert (forall tr h t, tree_hash tr h -> (is_Some (bm_items bm !! t) <-> (0 <? length tr)%nat = true) ->
    bool_decide (is_Some h) && negb (has_item bm0 t) = false) as Htree.
  { intros tr h t Hh Ht. destruct tr as [|o tr]; [simpl in Hh; by subst|]. apply andb_false_intro2, negb_false_iff, has_item_Some.
    rewrite <- E2. by apply Ht. }
  eapply BlockMap_Sign_valid; [exact Hb|exact Hn|by rewrite <- E1, (sv_manifest _ _ _ _ _ _ _ _ _ _ _ _ Sv)| |].
  - unfold checkItems. rewrite (proj2 (has_item_Some bm0 BlockItemProposal)), (proj2 (has_item_Some bm0 BlockItemVoteproofs)).
    2: { rewrite <- E2. apply (sv_vps _ _ _ _ _ _ _ _ _ _ _ _ Sv). }
    2: { rewrite <- E2. apply (sv_proposal _ _ _ _ _ _ _ _ _ _ _ _ Sv). }
    rewrite <- E1, (sv_manifest _ _ _ _ _ _ _ _ _ _ _ _ Sv).
    rewrite (Htree otr _ _ Ho (sv_opstree _ _ _ _ _ _ _ _ _ _ _ _ Sv)). by rewrite (Htree str _ _ Hs (sv_ststree _ _ _ _ _ _ _ _ _ _ _ _ Sv)).
  - apply Forall_forall. intros i Hin. unfold BlockMap_Items in Hin. rewrite <- E2 in Hin.
    apply list_elem_of_fmap in Hin as ([t i'] & -> & Hin). apply elem_of_map_to_list in Hin. simpl.
    destruct (sv_items _ _ _ _ _ _ _ _ _ _ _ _ Sv _ _ Hin) as (f & _ & ->). unfold BlockMapItem_IsValid, item_of. simpl.
    destruct (sv_dom _ _ _ _ _ _ _ _ _ _ _ _ Sv t) as [Hdom _]; [by eexists|].
    assert (BlockItemType_IsValid t = Ok tt) as ->.
    { unfold BlockItemType_IsValid. rewrite bool_decide_true; [done|]. unfold loadable in Hdom. unfold block_item_types. clear -Hdom. set_solver. }
    cbn [mbind res_bind]. destruct (file_checksum f) eqn:E; [by destruct (checksum_filled f)|done].
Qed.

Lemma process_manifested maxw noblock ps previous pr m w : Forall plain_prepared ps -> Z.of_nat (length ps) <= max_size ->
  Z.of_nat (size (sm_stvmmap (wr_merger w))) <= max_size ->
  process_proposal getStateFunc sched schedst maxw noblock ps previous pr = Ok (m, w) ->
  exists sts, manifested pr (op_slots ps) sts (written_ops ps) m w /\ wr_hasReceipts w = false.
Proof.
  intros Hp Hn Hsize Hr. unfold process_proposal in Hr. apply bind_ok in Hr as (w0 & Hw & Hr).
  destruct (Writer_Manifest_keeps _ _ _ _ _ Hr) as [Em Er]. rewrite Em in Hsize.
  assert (ps = [] /\ w0 = NewWriter pr \/ processing pr (length ps) (active ps) w0) as Hw0.
  { destruct (Nat.ltb_spec (length ps) 1).
    - left. destruct noblock; [done|]. injection Hw as <-. by destruct ps; [|simpl in *; lia].
    - right. by eapply processed. }
  destruct (Writer_Manifest_ok hashes_valid hashes_filled sched schedst sched_perm schedst_perm pr ps previous w0 m w) as (sts & M); try done; [by apply plain_keyed|].
  exists sts. split; [done|]. rewrite Er. destruct Hw0 as [[-> ->]|P]; [done|].
  destruct (wr_hasReceipts w0) eqn:E; [|done]. exfalso. by eapply plain_receipts, (ps_receipts _ _ _ _ P).
Qed.

(** C4: the block that a node saves from a proposal is read back from its files and is
    valid, and holds the operations and the states that were processed, whatever the
    order of the workers that process, close, write and read: when no operation is
    refused with a reason or has a receipt, the hashes of the operations and of the
    states are distinct, those of facts are not empty, have no dash and come back from
    their text, their counts fit, and the manifest, the voteproofs, the operations and
    the states are valid one by one. Blocks with reasons or receipts can fail their
    validation ([reasoned_operation_invalid], [receipts_out_of_order],
    [receipt_beside_refused]). *)
Theorem saved_block_valid maxw noblock ps previous pr m local networkID now mergedb ivp avp (x : World (B := B)) bm y
    readers validateOperationf validateStatef :
  Forall plain_prepared ps -> NoDup (written_ops ps).*2 ->
  NoDup (default "" ∘ s_h <$> (CloseStates (wr_merger (ww x))).2.*2) ->
  Z.of_nat (length ps) <= max_size -> Z.of_nat (size (sm_stvmmap (wr_merger (ww x)))) <= max_size ->
  process_proposal getStateFunc sched schedst maxw noblock ps previous pr = Ok (m, ww x) ->
  Manifest_IsValid m = Ok tt -> isValidVoteproofsFromLocalFS (Some ivp, Some avp) m = Ok tt ->
  Forall (fun op => validateOperationf op = Ok tt) (written_ops ps) ->
  Forall (fun st => validateStatef (state_entry st) = Ok tt) (CloseStates (wr_merger (ww x))).2.*2 ->
  ww_fs x = NewLocalFSWriter (bp_height pr) local -> address_IsValid local.1 = Ok tt -> 1 <= readers ->
  save_proposal schedj networkID now mergedb ivp avp x = (Ok bm, y) ->
  exists d items, st_heights (ww_st y) !! bp_height pr = Some d /\
    LoadBlockItemsFromReader schedl readers bm d = Ok items /\
    IsValidBlockFromLocalFS schedv networkID bm items (fun _ => Ok tt) (Ok tt) validateOperationf validateStatef = Ok tt /\
    bm_manifest bm = m /\ it_ops items ≡ₚ written_ops ps /\
    it_sts items ≡ₚ state_entry <$> (CloseStates (wr_merger (ww x))).2.*2 /\
    forall t i, bm_items bm !! t = Some i -> exists f, d !! t = Some f /\ bi_checksum i = file_checksum f.
Proof.
  intros Hp Hnd Hnds Hn Hsize Hr Hm Hvp Hvo Hvs Hfs Hloc Hre Hsave.
  destruct (process_manifested _ _ _ _ _ _ _ Hp Hn Hsize Hr) as (sts & M & Hrc).
  rewrite <- (md_closed _ _ _ _ _ _ M) in Hnds, Hvs |- *.
  destruct (md_height _ _ _ _ _ _ M) as [Hmh Hmp]. destruct (md_roots _ _ _ _ _ _ M) as [Hro Hrs].
  pose proof (plain_written _ Hp) as Hlen. pose proof (tree_for_length _ _ (md_opstree _ _ _ _ _ _ M)) as Hlo.
  assert (written_ops ps <> [] -> op_slots ps <> []) as Hne by (intros Hw E; rewrite E in Hlen; by apply Hw, nil_length_inv).
  destruct (save_proposal_ok schedj schedj_perm pr _ _ _ m networkID now mergedb ivp avp x bm y local M Hne Hrc Hfs Hloc Hsave)
    as (total & o & s & d & Ho & Hs & Htot & Hd & Sv & node & priv & bm0 & Hnode & Hsign).
  assert (is_init_type ivp = true /\ is_init_type avp = false) as [Hi Ha].
  { unfold isValidVoteproofsFromLocalFS, IsValidVoteproofsWithManifest in Hvp. apply bind_err_ok in Hvp as [_ [_ Hvp]%bind_err_ok].
    apply bind_err_ok in Hvp as [Hi%guard_err_ok%negb_false_iff [Ha%guard_err_ok _]%bind_err_ok]. done. }
  exists d, (items_of pr o s (wr_opstree (ww x)) (wr_ststree (ww x)) ivp avp). split; [done|]. split.
  { eapply LoadBlockItems_saved; try done; [apply (md_opstree _ _ _ _ _ _ M)|apply (md_ststree _ _ _ _ _ _ M)|].
    rewrite Ho, Hlen, Hlo. done. }
  split.
  { unfold IsValidBlockFromLocalFS. rewrite (saved_map_valid _ _ _ _ _ _ _ _ _ _ _ _ _ _ _ Sv Hro Hrs Hm Hnode Hsign).
    cbn [mbind res_bind it_receipts it_proposal it_opstree it_ststree it_ops it_sts it_vps items_of].
    rewrite (sv_manifest _ _ _ _ _ _ _ _ _ _ _ _ Sv). unfold IsValidProposalWithManifest.
    rewrite Hmh, Hmp, Z.eqb_refl, bool_decide_true by done. cbn [negb guard_err mbind res_bind].
    rewrite (operations_valid schedv schedv_perm ps); [|done|done|done|apply (md_opstree _ _ _ _ _ _ M)|done|by rewrite Ho].
    cbn [mbind res_bind]. rewrite (states_valid schedv schedv_perm (bp_height pr) sts); try done;
      [apply (md_sts _ _ _ _ _ _ M)|apply (md_ststree _ _ _ _ _ _ M)|by rewrite Hs]. }
  split; [apply (sv_manifest _ _ _ _ _ _ _ _ _ _ _ _ Sv)|]. split; [done|]. split; [simpl; by rewrite Hs|].
  intros t i Ht. destruct (sv_items _ _ _ _ _ _ _ _ _ _ _ _ Sv _ _ Ht) as (f & Hf & ->). by exists f.
Qed.
End written.

(** ** Concrete data *)
#[local] Existing Instance demo_crypto.
#[local] Existing Instance demo_hash.
#[local] Existing Instance demo_hash_laws.
(** Hashes that are never empty. *)
#[local] Instance filled_crypto : BlockCrypto := {|
  Privatekey := string; priv_Publickey := fun k => k; priv_Sign := fun k b => Ok (k +:+ "/" +:+ b);
  key_Verify := fun k b s => guard_err (negb (bool_decide (s = k +:+ "/" +:+ b))) "wrong signature";
  key_IsValid := fun _ => Ok tt; signature_IsValid := fun _ => Ok tt; address_bytes := fun a => a;
  height_bytes := fun h => pretty h; time_bytes := fun t => match t with Some t => pretty t | None => "" end;
  new_sha256 := fun s => "h" +:+ s; parse_hash := fun s => s
|}.
#[local] Instance filled_crypto_laws : BlockCryptoLaws.
Proof. split; [|done]. intros priv b sig. simpl. intros [= <-]. by rewrite bool_decide_true. Qed.
#[local] Instance no_receipts : Receipts := {| OperationReceipt := unit; receipt_IsValid := fun _ => Ok tt |}.
#[local] Instance demo_item_codec : ItemCodec := {| Marshal_line := fun _ => Ok tt; file_checksum := fun f => "c" +:+ pretty (length f); read_ahead := fun f => f |}.
#[local] Instance no_database : BlockWriteDatabase unit :=
  {| db_SetOperations := fun _ => mret tt; db_SetStates := fun _ => mret tt; db_SetBlockMap := fun _ => mret tt;
     db_SetSuffrageProof := fun _ => mret tt; db_SuffrageState := fun _ => None; db_Write := mret tt; db_Cancel := mret tt |}.

Definition demo_prepared : list prepared :=
  [ PProcessed ("op0", "f0") [{| mv_key := "a"; mv_value := StOther "1" |}; {| mv_key := "b"; mv_value := StOther "2" |}] false None;
    PIgnored; PRefused ("op2", "f2") ].
Definition demo_proposal : BlockProposal := {| bp_height := 33; bp_fact := "pr"; bp_proposedAt := Some 7 |}.
Definition demo_processed : res (Manifest * Writer) :=
  process_proposal (fun _ => Ok None) (@rev _) (@rev _) 10 true demo_prepared (Some (demo_manifest 32)) demo_proposal.
Definition demo_written_manifest : Manifest := match demo_processed with Ok (m, _) => m | _ => no_manifest end.
Definition demo_world : World (B := unit) :=
  {| ww := match demo_processed with Ok (_, w) => w | _ => NewWriter demo_proposal end;
     ww_fs := NewLocalFSWriter 33 ("n0", "k0"); ww_st := {| st_heights := ∅; st_items := ∅ |}; ww_db := tt |}.
Definition demo_written_init : Voteproof :=
  demo_vp KINIT INITBallotSignFact (demo_init_fact 0 "f") (Some (demo_init_fact 0 "f")) DefaultThreshold ["n0"; "n1"; "n2"] [].
Definition demo_written_accept : Voteproof :=
  let f := ACCEPTBallotFact (demo_base "f" (NewStagePoint (RawPoint 33 0) StageACCEPT) []) "pr" "nb" in
  demo_vp KACCEPT ACCEPTBallotSignFact f (Some f) DefaultThreshold ["n0"; "n1"; "n2"] [].
Definition demo_saved : res BlockMap * World (B := unit) :=
  save_proposal (@rev _) "net" 9 (mret tt) demo_written_init demo_written_accept demo_world.
Definition demo_saved_map : BlockMap := match demo_saved.1 with Ok m => m | _ => NewBlockMap end.

Lemma saved_block_valid_witness :
  demo_saved.1 = Ok demo_saved_map /\
  exists d items, st_heights (ww_st demo_saved.2) !! 33 = Some d /\
    LoadBlockItemsFromReader (@rev _) 3 demo_saved_map d = Ok items /\
    IsValidBlockFromLocalFS (@rev Z) "net" demo_saved_map items (fun _ => Ok tt) (Ok tt) (fun _ => Ok tt) (fun _ => Ok tt) = Ok tt /\
    it_ops items ≡ₚ [("op0", "f0"); ("op2", "f2")] /\ length (it_sts items) = 2%nat.
Proof.
  split; [vm_compute; reflexivity|].
  destruct (saved_block_valid (fun _ => Ok None) ltac:(done) ltac:(done) ltac:(done) (@rev _) (@rev _) (@rev _) (@rev _) (@rev _)
    (fun l => symmetry (Permutation_rev l)) (fun l => symmetry (Permutation_rev l)) (fun l => symmetry (Permutation_rev l))
    (fun l => symmetry (Permutation_rev l)) (fun l => symmetry (Permutation_rev l)) 10 true demo_prepared (Some (demo_manifest 32))
    demo_proposal demo_written_manifest ("n0", "k0") "net" 9 (mret tt) demo_written_init demo_written_accept demo_world demo_saved_map
    demo_saved.2 3 (fun _ => Ok tt) (fun _ => Ok tt)) as (d & items & Hd & Hl & Hv & _ & Ho & Hs & _).
  - repeat constructor; done.
  - vm_compute. repeat constructor; set_solver.
  - vm_compute. repeat constructor; set_solver.
  - vm_compute. discriminate.
  - vm_compute. discriminate.
  - vm_compute. reflexivity.
  - vm_compute. reflexivity.
  - vm_compute. reflexivity.
  - repeat constructor.
  - vm_compute. repeat constructor.
  - reflexivity.
  - reflexivity.
  - lia.
  - vm_compute. reflexivity.
  - exists d, items. split; [exact Hd|]. split; [exact Hl|]. split; [exact Hv|]. split; [exact Ho|].
    rewrite Hs. vm_compute. reflexivity.
Defined.

(** ** What goes wrong *)
(** A proposal all of whose operations are ignored has no manifest, also when a block
    of an empty proposal is wanted. *)
Lemma ignored_operations_fail `{Crypto, BlockCrypto, TreeHash, !StateValue state_value, Receipts} getStateFunc
    (sched : list (nat * prepared) -> list (nat * prepared)) schedst maxw ps previous pr :
  (forall l, sched l ≡ₚ l) -> ps <> [] -> Forall (fun p => is_ignored p = true) ps -> Z.of_nat (length ps) <= max_size -> 1 <= maxw ->
  process_proposal getStateFunc sched schedst maxw false ps (Some previous) pr = Err "empty nodes".
Proof.
  intros Hsched Hne Hp Hn Hw. unfold process_proposal. rewrite (proj2 (Nat.ltb_ge _ _)) by (destruct ps; [done|]; simpl; lia).
  unfold processOperations. rewrite (proj2 (Z.ltb_ge _ _)) by (destruct ps; [done|]; simpl; lia).
  assert (existsb is_failed ps = false) as ->.
  { clear -Hp. induction Hp as [|p ps Hi _ IH]; [done|]. simpl. rewrite IH. by destruct p. }
  assert (active ps = []) as Ha.
  { destruct (active ps) as [|[i p] l] eqn:E; [done|]. assert ((i, p) ∈ active ps) as Hin by (rewrite E; set_solver).
    apply active_in in Hin as [Hi Hf]. rewrite Forall_lookup in Hp. by rewrite (Hp _ _ Hi) in Hf. }
  assert (sched (active ps) = []) as -> by (apply Permutation_nil_r; by rewrite Hsched, Ha). rewrite Ha. cbn [fold_res mbind res_bind length].
  unfold SetOperationsSize, FixedTree.NewWriter. destruct (length ps <? 1)%nat eqn:E1; [apply Nat.ltb_lt in E1; by destruct ps; [|simpl in E1; lia]|].
  unfold Writer_Manifest. simpl. rewrite andb_false_r. by rewrite empty_tree.
Qed.

(** A writer of files that is saved again gives an empty map, and no error. *)
Lemma second_save `{Crypto, BlockCrypto, TreeHash, Receipts, !ItemCodec} networkID now fs st bm fs1 st1 :
  lw_saved fs = false -> lw_Save networkID now fs st = Ok (bm, fs1, st1) -> lw_Save networkID now fs1 st1 = Ok (NewBlockMap, fs1, st1).
Proof.
  intros Hs. unfold lw_Save at 1. rewrite Hs. destruct (st_heights st !! _); [done|].
  unfold lw_save. intros (_ & (w & _ & [= _ <- _])%bind_ok)%bind_err_ok. done.
Qed.
(** An import that is canceled after it was saved leaves the list of the items of a
    height that has no files. *)
Lemma canceled_import_list `{Receipts} (l : LocalFSImporter) s :
  let s' := (li_Cancel l s).2 in st_items s' = st_items s /\ st_heights s' !! li_height l = None.
Proof. split; [done|]. simpl. by rewrite lookup_partial_alter_eq. Qed.

(** One more operation beside those of [demo_prepared]; what becomes of the block. *)
Definition demo_saved_with (p : prepared) : res BlockMap * World (B := unit) :=
  match process_proposal (fun _ => Ok None) (@rev _) (@rev _) 10 true (p :: demo_prepared) (Some (demo_manifest 32)) demo_proposal with
  | Ok (_, w) => save_proposal (@rev _) "net" 9 (mret tt) demo_written_init demo_written_accept
      {| ww := w; ww_fs := NewLocalFSWriter 33 ("n0", "k0"); ww_st := {| st_heights := ∅; st_items := ∅ |}; ww_db := tt |}
  | Err e => (Err e, demo_world) | Panic => (Panic, demo_world)
  end.
Definition demo_validated (x : res BlockMap * World (B := unit)) : err :=
  match x with
  | (Ok bm, x) =>
      match st_heights (ww_st x) !! 33 with
      | None => Err "not found"
      | Some d =>
          LoadBlockItemsFromReader (@rev _) 3 bm d ≫= fun items =>
          IsValidBlockFromLocalFS (@rev Z) "net" bm items (fun _ => Ok tt) (Ok tt) (fun _ => Ok tt) (fun _ => Ok tt)
      end
  | (Err e, _) => Err e | (Panic, _) => Panic
  end.
(** An operation that is refused before it is processed has a node in the tree and no
    line in the file: the block that was saved is not valid. *)
Lemma reasoned_operation_invalid : demo_validated (demo_saved_with (PReasoned "op9" "f9")) = Err "number does not match".
Proof. vm_compute. reflexivity. Qed.
(** With a receipt for one operation, every other one has to have one; those that are
    ignored or refused never do. *)
Lemma receipt_beside_refused : demo_validated (demo_saved_with (PProcessed ("op9", "f9") [] true (Some tt))) = Err "receipt not set".
Proof. vm_compute. reflexivity. Qed.
(** Receipts are in the order of the proposal, operations in that of the workers, and
    the validation compares them one by one. *)
Lemma receipts_out_of_order :
  match process_proposal (fun _ => Ok None) (@rev _) (@rev _) 10 true
          [ PProcessed ("op0", "f0") [] true (Some tt); PProcessed ("op1", "f1") [] true (Some tt) ] (Some (demo_manifest 32)) demo_proposal with
  | Ok (_, w) => demo_validated (save_proposal (fun l => l) "net" 9 (mret tt) demo_written_init demo_written_accept
      {| ww := w; ww_fs := NewLocalFSWriter 33 ("n0", "k0"); ww_st := {| st_heights := ∅; st_items := ∅ |}; ww_db := tt |})
  | _ => Ok tt
  end = Err "receipt operation hash does not match".
Proof. vm_compute. reflexivity. Qed.
