(* ===== verification/Importer.v ===== *)
(** * Importing blocks

    [isaac/block/importer.go] and [isaac/block/import_block.go].

    A [BlockImporter] takes the items of one block, checks them against the block map
    and keeps them in its files ([LocalFS]) and in the database of the block; it is
    saved when all of them are there.  [ImportBlocks] imports a range of heights in
    batches, with workers, and hands the saved blocks of a batch to the database in
    their order; it knows the importers through an interface ([BlockImporters]). *)
From S2P Require Import Prelude FixedTree Point Vote Slice Ballot Voteproof Batch Block State SuffrageState SuffrageProof Tempdb Effects LocalFS Writer.

Open Scope Z_scope.

(** ** The importer of a block ([isaac/block/importer.go]) *)
Record BlockImporter `{Receipts} (B : Type) := {
  im_m : BlockMap;
  im_bwdb : B;
  im_sufst : option St;
  im_localfs : LocalFSImporter;
  im_finisheds : gmap BlockItemType bool;
  im_statestree : list FixedTree.Node
}.
Arguments im_m {_ B} _.
Arguments im_bwdb {_ B} _.
Arguments im_sufst {_ B} _.
Arguments im_localfs {_ B} _.
Arguments im_finisheds {_ B} _.
Arguments im_statestree {_ B} _.
Arguments Build_BlockImporter {_ B} _ _ _ _ _ _.
(** An importer, and the files of the node. *)
Record Importing `{Receipts} (B : Type) := { ig_im : BlockImporter B; ig_st : Storage }.
Arguments ig_im {_ B} _.
Arguments ig_st {_ B} _.
Arguments Build_Importing {_ B} _ _.

Section importer.
Context `{Crypto, BlockCrypto, TreeHash, !StateValue state_value, Receipts, !ItemCodec} {B : Type} `{BlockWriteDatabase B}.
Variable sched : list (nat * line) -> list (nat * line).
Variable maxWorkerSize : Z.
(** The checks of an operation, and those of an operation of the genesis block. *)
Variables (op_IsValid : Hash * Hash -> err) (genesis_op_IsValid : string -> Hash * Hash -> err).
Abbreviation IM := (IO (Importing B)).
Implicit Types (im : BlockImporter B) (g : Importing B).

Definition set_im (f : BlockImporter B -> BlockImporter B) : IM unit :=
  modify (fun g => {| ig_im := f (ig_im g); ig_st := ig_st g |}).
Definition set_localfs (l : LocalFSImporter) im : BlockImporter B :=
  {| im_m := im_m im; im_bwdb := im_bwdb im; im_sufst := im_sufst im; im_localfs := l; im_finisheds := im_finisheds im;
     im_statestree := im_statestree im |}.
Definition set_bwdb (b : B) im : BlockImporter B :=
  {| im_m := im_m im; im_bwdb := b; im_sufst := im_sufst im; im_localfs := im_localfs im; im_finisheds := im_finisheds im;
     im_statestree := im_statestree im |}.
Definition set_sufst (st : option St) im : BlockImporter B :=
  {| im_m := im_m im; im_bwdb := im_bwdb im; im_sufst := st; im_localfs := im_localfs im; im_finisheds := im_finisheds im;
     im_statestree := im_statestree im |}.
Definition set_statestree (tr : list FixedTree.Node) im : BlockImporter B :=
  {| im_m := im_m im; im_bwdb := im_bwdb im; im_sufst := im_sufst im; im_localfs := im_localfs im; im_finisheds := im_finisheds im;
     im_statestree := tr |}.
Definition set_finisheds (m : BlockMap) (fs : gmap BlockItemType bool) im : BlockImporter B :=
  {| im_m := m; im_bwdb := im_bwdb im; im_sufst := im_sufst im; im_localfs := im_localfs im; im_finisheds := fs;
     im_statestree := im_statestree im |}.

Definition on_localfs (f : LocalFSImporter -> res LocalFSImporter) : IM unit :=
  gets (fun g => im_localfs (ig_im g)) ≫= fun l => io_lift (f l) ≫= fun l => set_im (set_localfs l).
Definition on_bwdb {A} (m : IO B A) : IM A := fun g =>
  let '(r, b) := m (im_bwdb (ig_im g)) in (r, {| ig_im := set_bwdb b (ig_im g); ig_st := ig_st g |}).

Definition not_finished (m : BlockMap) (fs : gmap BlockItemType bool) : gmap BlockItemType bool :=
  foldr (fun item => <[bi_t item := false]>) fs (BlockMap_Items m).
Definition im_WriteMap (m : BlockMap) : IM unit :=
  set_im (fun im => set_finisheds m (not_finished m (im_finisheds im)) im) ≫= fun _ =>
  on_localfs (li_WriteMap m) ≫= fun _ =>
  on_bwdb (db_SetBlockMap m).
Definition new_importer (m : BlockMap) (b : B) : BlockImporter B :=
  {| im_m := m; im_bwdb := b; im_sufst := None; im_localfs := NewLocalFSImporter; im_finisheds := ∅; im_statestree := [] |}.
Definition NewBlockImporter (m : BlockMap) (b : B) (st : Storage) : res unit * Importing B :=
  im_WriteMap m {| ig_im := new_importer m b; ig_st := st |}.

(** *** Items *)
(** The check of each operation, by the workers that read them. *)
Definition importOperations (f : file) : IM unit :=
  gets (fun g => im_m (ig_im g)) ≫= fun m =>
  let validate := if bm_height m =? GenesisHeight then genesis_op_IsValid (bs_signer (bm_sign m)) else op_IsValid in
  io_lift (decodeCountItems sched maxWorkerSize f (fun total i v l =>
    match as_operation v with Some op => validate op ≫= fun _ => put_item total i op l | None => Err "unexpected type" end) None) ≫= fun '(n, l) =>
  io_lift (all_set (up_to n l)) ≫= fun ops =>
  on_bwdb (db_SetOperations ops.*1).
(** What the workers keep of the states when one of them fails is lost here. *)
Definition importStates (f : file) : IM unit :=
  gets (fun g => im_sufst (ig_im g)) ≫= fun sufst =>
  io_lift (decodeCountItems sched maxWorkerSize f (fun total i v (s : option St * option (list (option St))) =>
    match as_state v with
    | Some st =>
        BaseState_IsValid st ≫= fun _ =>
        put_item total i st s.2 ≫= fun l => Ok (if IsSuffrageNodesState (Some st) then Some st else s.1, l)
    | None => Err "unexpected type"
    end) (sufst, None)) ≫= fun '(n, (sufst, l)) =>
  io_lift (all_set (up_to n l)) ≫= fun sts =>
  set_im (set_sufst sufst) ≫= fun _ =>
  on_bwdb (db_SetStates sts).
Definition importStatesTree (f : file) : IM unit :=
  io_lift (decodeTree sched maxWorkerSize f) ≫= fun tr => set_im (set_statestree tr).
Definition importVoteproofs (f : file) : IM unit :=
  gets (fun g => im_m (ig_im g)) ≫= fun m =>
  io_lift (decodeVoteproofs sched f ≫= fun vps : Voteproof * Voteproof =>
    Voteproof_IsValid vps.1 ≫= fun _ => Voteproof_IsValid vps.2 ≫= fun _ =>
    IsValidVoteproofsWithManifest (Some vps.1, Some vps.2) (bm_manifest m)).
Definition import_value (t : BlockItemType) (f : file) : IM unit :=
  if bool_decide (t = BlockItemStatesTree) then importStatesTree f
  else if bool_decide (t = BlockItemStates) then importStates f
  else if bool_decide (t = BlockItemOperations) then importOperations f
  else if bool_decide (t = BlockItemVoteproofs) then importVoteproofs f
  else mret tt.
(** The readers of operations, of states and of their tree stop after a header that
    counts none. *)
Definition counts_none (f : file) : bool := match LoadBlockItemFileHeader f with Ok (count, _) => count <? 1 | _ => false end.
Definition item_read (t : BlockItemType) (f : file) : file :=
  if bool_decide (t ∈ [BlockItemOperations; BlockItemStates; BlockItemStatesTree]) && counts_none f then read_ahead f else f.
(** What is read goes into the file too.  An item that the block map does not have is
    not looked at. *)
Definition importItem (t : BlockItemType) (f : file) : IM unit :=
  gets (fun g => bm_items (im_m (ig_im g)) !! t) ≫= fun item =>
  match item with
  | None => mret tt
  | Some item =>
      on_localfs (li_WriteItem t (item_read t f)) ≫= fun _ =>
      import_value t f ≫= fun _ =>
      io_lift (guard_err (negb (bool_decide (file_checksum (item_read t f) = bi_checksum item))) "checksum does not match")
  end.
Definition im_WriteItem (t : BlockItemType) (f : file) : IM unit :=
  importItem t f ≫= fun _ =>
  set_im (fun im => set_finisheds (im_m im) (<[t := true]> (im_finisheds im)) im).

(** *** The end of an import *)
Definition isfinished im : bool :=
  forallb (fun item => bool_decide (im_finisheds im !! bi_t item = Some true)) (BlockMap_Items (im_m im)).
Definition on_storage (f : LocalFSImporter -> Storage -> res LocalFSImporter * Storage) : IM unit := fun g =>
  match f (im_localfs (ig_im g)) (ig_st g) with
  | (Ok l, st) => (Ok tt, {| ig_im := set_localfs l (ig_im g); ig_st := st |})
  | (Err e, st) => (Err e, {| ig_im := ig_im g; ig_st := st |})
  | (Panic, st) => (Panic, {| ig_im := ig_im g; ig_st := st |})
  end.
Definition save_proof : IM unit :=
  gets ig_im ≫= fun im =>
  match im_sufst im with
  | None => mret tt
  | Some st =>
      io_lift (ExtractProofMaterial (im_statestree im) (default "" (s_h st))) ≫= fun proof =>
      on_bwdb (db_SetSuffrageProof {| sp_m := im_m im; sp_st := st; sp_proof := proof |})
  end.
Definition im_Save : IM unit :=
  gets ig_im ≫= fun im =>
  if negb (isfinished im) then io_err "not yet finished"
  else
    save_proof ≫= fun _ =>
    on_bwdb db_Write ≫= fun _ =>
    on_storage li_Save.
Definition im_CancelImport : IM unit :=
  on_bwdb db_Cancel ≫= fun _ =>
  on_storage (fun l st => let '(l, st) := li_Cancel l st in (Ok l, st)) ≫= fun _ =>
  set_im (fun im => set_finisheds (im_m im) ∅ im).
End importer.

(** ** A range of blocks ([isaac/block/import_block.go]) *)
(** [isaac.BlockImporter], over a world in which the importers live.  [imp_merge] is
    what [Save] leaves for later. *)
Class BlockImporters (W I : Type) `{Receipts} := {
  imp_New : BlockMap -> IO W I;
  imp_WriteItem : I -> BlockItemType -> file -> IO W unit;
  imp_Save : I -> IO W unit;
  imp_merge : I -> IO W unit;
  imp_Cancel : I -> IO W unit
}.

Section import.
Context {W I : Type} `{BlockImporters W I}.
Variable sched : forall {J}, list J -> list J.
Variables (blockMapf : Z -> IO W (option BlockMap)) (blockItemf : Z -> BlockItemType -> IO W (option file)).
Variables (setLastVoteproofsFunc : option (IO W unit)) (mergeBlockWriterDatabasesf : option (IO W unit)).
Abbreviation ims := (list (option I)).

(** A worker for each item. *)
Definition import_item (height : Z) (im : I) (item : BlockMapItem) : IO W unit :=
  blockItemf height (bi_t item) ≫= fun f =>
  match f with
  | None => io_err "blockItem not found"
  | Some f => imp_WriteItem im (bi_t item) f
  end.
Definition importBlock (height : Z) (m : BlockMap) (im : I) : IO W unit :=
  if (length (BlockMap_Items m) <? 1)%nat then mret tt
  else run_jobs (import_item height im) (sched (BlockMap_Items m)).

(** The method of an importer that is nil. *)
Definition with_im {A} (im : option I) (f : I -> IO W A) : IO W A :=
  match im with Some im => f im | None => io_panic end.
Definition nth_im (l : ims) (i : Z) : option I := mjoin (l !! Z.to_nat i).
Definition cancelImporters (l : ims) : IO W unit :=
  match l with
  | [] => mret tt
  | [im] => with_im im imp_Cancel
  | _ => RunWorkerIO (@sched) (Z.of_nat (length l)) (seqZ 0 (Z.of_nat (length l))) (fun i => with_im (nth_im l i) imp_Cancel)
  end.
Definition or_cancel (l : ims) (m : IO W unit) : IO W unit := on_error m (cancelImporters l).
Definition saveImporters (l : ims) : IO W unit :=
  match l with
  | [] => io_err "empty BlockImporters"
  | [im] =>
      or_cancel l (with_im im imp_Save) ≫= fun _ =>
      or_cancel l (with_im im imp_merge)
  | _ =>
      or_cancel l (RunWorkerIO (@sched) (Z.of_nat (length l)) (seqZ 0 (Z.of_nat (length l))) (fun i => with_im (nth_im l i) imp_Save)) ≫= fun _ =>
      run_jobs (fun im => or_cancel l (with_im im imp_merge)) l
  end ≫= fun _ =>
  match mergeBlockWriterDatabasesf with
  | Some merge => or_cancel l merge
  | None => mret tt
  end.

(** The importers of a batch are a variable of the loop. *)
Definition in_loop {A} (m : IO W A) : IO (W * option ims) A := fun '(w, l) => let '(r, w) := m w in (r, (w, l)).
Definition new_ims (last batchlimit : Z) : res ims :=
  if batchlimit =? 0 then Panic
  else
    let r := wrap_u 64 (last + 1) mod wrap_u 64 batchlimit in
    Ok (replicate (Z.to_nat (if r =? 0 then batchlimit else r)) None).
Definition import_pref (batchlimit : Z) (last : Z) : IO (W * option ims) unit :=
  gets snd ≫= fun l =>
  match l with Some l => in_loop (saveImporters l) | None => mret tt end ≫= fun _ =>
  io_lift (new_ims last batchlimit) ≫= fun l =>
  modify (fun x => (x.1, Some l)).
Definition put_im (i : nat) (im : I) : IO (W * option ims) unit := fun '(w, l) =>
  match l with
  | Some l => if (i <? length l)%nat then (Ok tt, (w, Some (<[i := Some im]> l))) else (Panic, (w, Some l))
  | None => (Panic, (w, None))
  end.
Definition import_job (from batchlimit : Z) (i _ : Z) : IO (W * option ims) unit :=
  let height := wrap_s 64 (from + i) in
  in_loop (blockMapf height) ≫= fun m =>
  match m with
  | None => io_err "BlockMap not found"
  | Some m =>
      in_loop (imp_New m) ≫= fun im =>
      in_loop (importBlock height m im) ≫= fun _ =>
      put_im (Z.to_nat (Z.rem (wrap_s 64 (height - from)) batchlimit)) im
  end.
Definition import_loop (from to batchlimit : Z) : IO (W * option ims) unit :=
  BatchWorkIO (@sched) (wrap_s 64 (to - from + 1)) batchlimit (import_pref batchlimit) (import_job from batchlimit) ≫= fun _ =>
  gets snd ≫= fun l =>
  let l := default [] l in
  (if Z.of_nat (length l) <? batchlimit then in_loop (saveImporters l) else mret tt) ≫= fun _ =>
  match setLastVoteproofsFunc with Some f => in_loop f | None => mret tt end.
Definition ImportBlocks (from to batchlimit : Z) : IO W unit := fun w =>
  let '(r, (w, _)) := import_loop from to batchlimit (w, None) in (r, w).
End import.

(** ** The importers of a node *)
(** The database makes the databases of the blocks and takes them when they are
    written ([NewBlockWriteDatabase], [MergeBlockWriteDatabase]); [iw_merged] tells which
    blocks it took. *)
Record ImportWorld `{Receipts} (B C : Type) := {
  iw_ims : list (BlockImporter B);
  iw_st : Storage;
  iw_db : C;
  iw_merged : list BlockMap
}.
Arguments iw_ims {_ B C} _.
Arguments iw_st {_ B C} _.
Arguments iw_db {_ B C} _.
Arguments iw_merged {_ B C} _.
Arguments Build_ImportWorld {_ B C} _ _ _ _.

Section node_importers.
Context `{Crypto, BlockCrypto, TreeHash, !StateValue state_value, Receipts, !ItemCodec} {B C : Type} `{BlockWriteDatabase B}.
Variables (sched : list (nat * line) -> list (nat * line)) (maxWorkerSize : Z).
Variables (op_IsValid : Hash * Hash -> err) (genesis_op_IsValid : string -> Hash * Hash -> err).
Variables (newdb : Z -> IO C B) (mergedb : B -> IO C unit).
Abbreviation IW := (ImportWorld B C).

Definition set_db (c : C) (w : IW) : IW :=
  {| iw_ims := iw_ims w; iw_st := iw_st w; iw_db := c; iw_merged := iw_merged w |}.
Definition on_importer {A} (m : IO (Importing B) A) (i : nat) : IO IW A := fun w =>
  match iw_ims w !! i with
  | None => (Panic, w)
  | Some im =>
      let '(r, g) := m {| ig_im := im; ig_st := iw_st w |} in
      (r, {| iw_ims := <[i := ig_im g]> (iw_ims w); iw_st := ig_st g; iw_db := iw_db w; iw_merged := iw_merged w |})
  end.
(** [newBlockImporter] of a node ([launch/p_states.go]). *)
Definition newBlockImporter (m : BlockMap) : IO IW nat := fun w =>
  match newdb (bm_height m) (iw_db w) with
  | (Ok b, c) =>
      match NewBlockImporter m b (iw_st w) with
      | (Ok _, g) => (Ok (length (iw_ims w)),
                      {| iw_ims := iw_ims w ++ [ig_im g]; iw_st := ig_st g; iw_db := c; iw_merged := iw_merged w |})
      | (Err e, _) => (Err e, set_db c w)
      | (Panic, _) => (Panic, set_db c w)
      end
  | (Err e, c) => (Err e, set_db c w)
  | (Panic, c) => (Panic, set_db c w)
  end.
Definition merge_importer (i : nat) : IO IW unit := fun w =>
  match iw_ims w !! i with
  | None => (Panic, w)
  | Some im =>
      match mergedb (im_bwdb im) (iw_db w) with
      | (Ok _, c) => (Ok tt, {| iw_ims := iw_ims w; iw_st := iw_st w; iw_db := c; iw_merged := iw_merged w ++ [im_m im] |})
      | (r, c) => (r, set_db c w)
      end
  end.
Definition node_importers : BlockImporters IW nat := {|
  imp_New := newBlockImporter;
  imp_WriteItem := fun i t f => on_importer (im_WriteItem sched maxWorkerSize op_IsValid genesis_op_IsValid t f) i;
  imp_Save := on_importer im_Save;
  imp_merge := merge_importer;
  imp_Cancel := on_importer im_CancelImport
|}.
End node_importers.
