(* ===== verification/ImporterLaws.v ===== *)
(** * What an import gives

    The proofs about [Importer]: the blocks of a range reach the database in their
    order and without a gap, and how many of them do; the files of an importer that
    was saved are those that the block map names. *)
From S2P Require Import Prelude FixedTree Point Vote Slice Ballot Voteproof Batch Block State SuffrageState SuffrageProof Tempdb Effects LocalFS Writer Importer.

Open Scope Z_scope.

(** ** The range of blocks *)
(** What [ImportBlocks] knows of its importers: only [imp_merge] changes what the
    database has, by the block of its importer or not at all. *)
Class BlockImportersLaws (W I : Type) `{BlockImporters W I} (merged : W -> list BlockMap) (made : I -> W -> option BlockMap) (stable : W -> Prop) : Prop := {
  quiet (w w' : W) : Prop :=
    merged w' = merged w /\ (stable w -> stable w') /\ forall im h, made im w = Some h -> made im w' = Some h;
  imp_New_ok m w : quiet w (imp_New m w).2 /\ forall im, (imp_New m w).1 = Ok im -> made im (imp_New m w).2 = Some m;
  imp_WriteItem_ok im t f w : quiet w (imp_WriteItem im t f w).2;
  imp_Save_ok im w : quiet w (imp_Save im w).2;
  imp_Cancel_ok im w : quiet w (imp_Cancel im w).2;
  imp_merge_ok im h w : made im w = Some h ->
    (forall im' h', made im' w = Some h' -> made im' (imp_merge im w).2 = Some h') /\ (stable w -> stable (imp_merge im w).2) /\
    merged (imp_merge im w).2 = merged w ++ match (imp_merge im w).1 with Ok _ => [h] | _ => [] end
}.

(** A computation that does not touch what is merged, as a triple. *)
Lemma keeps_of {W A} (m : IO W A) (P : W -> Prop) : (forall w, P w -> P (m w).2) -> keeps P m.
Proof. intros Hm w Hw. specialize (Hm w Hw). by destruct (m w) as [[]?]. Qed.

Section import.
Context {W I : Type} `{BlockImporters W I} (merged : W -> list BlockMap) (made : I -> W -> option BlockMap) (stable : W -> Prop) `{!BlockImportersLaws W I merged made stable}.
Variable sched : forall {J}, list J -> list J.
Hypothesis sched_perm : forall J (l : list J), sched l ≡ₚ l.
Variables (blockMapf : Z -> IO W (option BlockMap)) (blockItemf : Z -> BlockItemType -> IO W (option file)).
Variables (setLast mergedb : option (IO W unit)).
(** The maps come from the pool of the syncer, which has [F]; everything else leaves
    the importers alone. *)
Variable F : Z -> BlockMap.
Hypothesis blockMapf_ok : forall h w, quiet w (blockMapf h w).2 /\ (stable w -> forall m, (blockMapf h w).1 = Ok (Some m) -> m = F h).
Hypothesis blockItemf_ok : forall h t w, quiet w (blockItemf h t w).2.
Hypothesis setLast_ok : forall f w, setLast = Some f -> quiet w (f w).2.
Hypothesis mergedb_ok : forall f w, mergedb = Some f -> quiet w (f w).2.

(** These blocks are merged, and these importers are there for these blocks. *)
Definition at_heights (ms : list BlockMap) (l : list (option I)) (hs : list BlockMap) (w : W) : Prop :=
  merged w = ms /\ stable w /\ Forall2 (fun im h => exists i, im = Some i /\ made i w = Some h) l hs.
Lemma at_heights_quiet ms l hs w w' : quiet w w' -> at_heights ms l hs w -> at_heights ms l hs w'.
Proof.
  intros (Hm & Hs & Hk) (Hw & Hst & Hl). split; [by rewrite Hm|]. split; [auto|]. eapply Forall2_impl; [exact Hl|]. intros im h (i & -> & Hi). exists i. auto.
Qed.
Lemma at_keeps {A} (m : IO W A) ms l hs : (forall w, quiet w (m w).2) -> keeps (at_heights ms l hs) m.
Proof. intros Hm. apply keeps_of. intros w. by apply at_heights_quiet. Qed.

Lemma with_im_keeps {A} (f : I -> IO W A) im ms l hs : (forall i w, quiet w (f i w).2) -> keeps (at_heights ms l hs) (with_im im f).
Proof. intros Hf. destruct im as [i|]; simpl; [by apply at_keeps|]. by apply triple_panic. Qed.
Lemma RunWorkerIO_keeps {J} (P : W -> Prop) ws (jobs : list J) f : (forall j, keeps P (f j)) -> keeps P (RunWorkerIO (@sched) ws jobs f).
Proof. intros Hf. unfold RunWorkerIO. destruct (_ <? 1); [by apply triple_err|]. apply jobs_keep. intros. apply Hf. Qed.
Lemma cancelImporters_keeps l' ms l hs : keeps (at_heights ms l hs) (cancelImporters (@sched) l').
Proof.
  unfold cancelImporters. destruct l' as [|im [|im' l']]; [apply keeps_ret|apply with_im_keeps, imp_Cancel_ok|].
  apply RunWorkerIO_keeps. intros. apply with_im_keeps, imp_Cancel_ok.
Qed.
Lemma or_cancel_keeps l' m ms l hs : keeps (at_heights ms l hs) m -> keeps (at_heights ms l hs) (or_cancel (@sched) l' m).
Proof. intros Hm. apply keeps_on_error; [done|apply cancelImporters_keeps]. Qed.

(** The deferred merges, of importers that are [l2] after [l1]. *)
Definition merged_up_to (ms hs : list BlockMap) (w : W) : Prop := stable w /\ exists k, merged w = ms ++ take k hs.
Lemma merged_up_to_at ms l hs w : at_heights ms l hs w -> merged_up_to ms hs w.
Proof. intros (Hm & Hst & _). split; [done|]. exists 0%nat. by rewrite take_0, app_nil_r. Qed.
Lemma merged_up_to_keeps {A} (m : IO W A) ms hs : (forall w, quiet w (m w).2) -> keeps (merged_up_to ms hs) m.
Proof.
  intros Hm. apply keeps_of. intros w (Hst & k & Hk). destruct (Hm w) as (E & Hs & _). split; [auto|]. exists k. by rewrite E.
Qed.
Lemma cancel_up_to l ms hs : keeps (merged_up_to ms hs) (cancelImporters (@sched) l).
Proof.
  assert (forall im, keeps (merged_up_to ms hs) (with_im im imp_Cancel)) as Hc.
  { intros [i|]; simpl; [apply merged_up_to_keeps, imp_Cancel_ok|by apply triple_panic]. }
  unfold cancelImporters. destruct l as [|im [|im' l]]; [apply keeps_ret|apply Hc|].
  apply RunWorkerIO_keeps. intros. apply Hc.
Qed.
Lemma merge_one l' im h ms l hs all : all = h :: hs ->
  triple (at_heights ms (im :: l) all) (or_cancel (@sched) l' (with_im im imp_merge)) (fun _ => at_heights (ms ++ [h]) l hs) (merged_up_to ms all).
Proof.
  intros ->. apply triple_on_error; [|apply cancel_up_to]. intros w (Hm & Hst & Hl). inversion Hl as [|? ? ? ? (i & -> & Hi) Hl']. subst.
  simpl. destruct (imp_merge_ok i h w Hi) as (Hk & Hs & Hmg). destruct (imp_merge i w) as [[[]|e|] w']; simpl in *.
  - split; [done|]. split; [auto|]. eapply Forall2_impl; [exact Hl'|]. intros im' h' (i' & -> & Hi'). exists i'. auto.
  - split; [auto|]. exists 0%nat. by rewrite Hmg, !app_nil_r.
  - split; [auto|]. exists 0%nat. by rewrite Hmg, !app_nil_r.
Qed.
Lemma merge_all l' l ms hs :
  triple (at_heights ms l hs) (run_jobs (fun im => or_cancel (@sched) l' (with_im im imp_merge)) l)
    (fun _ => at_heights (ms ++ hs) [] []) (merged_up_to ms hs).
Proof.
  revert ms hs. induction l as [|im l IH]; intros ms hs.
  - intros w (Hm & Hst & Hl). inversion Hl. subst. simpl. rewrite app_nil_r. by repeat split.
  - intros w Hw. pose proof Hw as (_ & _ & Hl). inversion Hl as [|? h ? hs' _ Hl']. subst.
    revert w Hw Hl Hl'. intros w Hw _ _. revert w Hw. change (triple (at_heights ms (im :: l) (h :: hs'))
      (run_jobs (fun im => or_cancel (@sched) l' (with_im im imp_merge)) (im :: l)) (fun _ => at_heights (ms ++ h :: hs') [] []) (merged_up_to ms (h :: hs'))).
    cbn [run_jobs]. eapply (triple_bind _ _ _ (fun _ => at_heights (ms ++ [h]) l hs')); [by apply merge_one|]. intros [].
    eapply triple_weaken; [apply IH|done| |].
    + intros [] w. by rewrite <- app_assoc.
    + intros w (Hst & k & Hk). split; [done|]. exists (S k). simpl. by rewrite Hk, <- app_assoc.
Qed.
(** A batch of importers, saved: all its blocks are merged, or the first of them. *)
Lemma saveImporters_ok l ms hs :
  triple (at_heights ms l hs) (saveImporters (@sched) mergedb l) (fun _ => at_heights (ms ++ hs) [] []) (merged_up_to ms hs).
Proof.
  unfold saveImporters. eapply (triple_bind _ _ _ (fun _ => at_heights (ms ++ hs) [] [])).
  - destruct l as [|im [|im' l]].
    + apply triple_err. apply merged_up_to_at.
    + eapply (triple_bind _ _ _ (fun _ => at_heights ms [im] hs)).
      { eapply triple_weaken; [apply or_cancel_keeps, with_im_keeps, imp_Save_ok|done|done|apply merged_up_to_at]. }
      intros []. pose proof (merge_all [im] [im] ms hs) as Hall. cbn [run_jobs] in Hall.
      intros w Hw. specialize (Hall w Hw). unfold mbind, io_bind in Hall. by destruct (or_cancel _ _ _ w) as [[[]|e|] w'].
    + eapply (triple_bind _ _ _ (fun _ => at_heights ms (im :: im' :: l) hs)).
      { eapply triple_weaken; [apply or_cancel_keeps, RunWorkerIO_keeps; intros; apply with_im_keeps, imp_Save_ok|done|done|apply merged_up_to_at]. }
      intros []. apply merge_all.
  - intros []. assert (forall w, at_heights (ms ++ hs) [] [] w -> merged_up_to ms hs w) as Hfull.
    { intros w (Hm & Hst & _). split; [done|]. exists (length hs). by rewrite firstn_all. }
    destruct mergedb as [f|] eqn:E; [|by apply triple_ret].
    eapply triple_weaken; [apply or_cancel_keeps, at_keeps; intros w; by apply mergedb_ok|done|done|apply Hfull].
Qed.
End import.

Section range.
Context {W I : Type} `{BlockImporters W I} (merged : W -> list BlockMap) (made : I -> W -> option BlockMap) (stable : W -> Prop) `{!BlockImportersLaws W I merged made stable}.
Variable sched : forall {J}, list J -> list J.
Hypothesis sched_perm : forall J (l : list J), sched l ≡ₚ l.
Variables (blockMapf : Z -> IO W (option BlockMap)) (blockItemf : Z -> BlockItemType -> IO W (option file)).
Variables (setLast mergedb : option (IO W unit)).
(** What the maps of the heights are. *)
Variable F : Z -> BlockMap.
Hypothesis blockMapf_ok : forall h w, quiet w (blockMapf h w).2 /\ (stable w -> forall m, (blockMapf h w).1 = Ok (Some m) -> m = F h).
Hypothesis blockItemf_ok : forall h t w, quiet w (blockItemf h t w).2.
Hypothesis setLast_ok : forall f w, setLast = Some f -> quiet w (f w).2.
Hypothesis mergedb_ok : forall f w, mergedb = Some f -> quiet w (f w).2.
Variables (from size limit : Z) (ms : list BlockMap).
Hypothesis bounds : 0 <= from /\ 1 <= size /\ from + size < 2 ^ 63 /\ 1 <= limit < 2 ^ 63.

(** The blocks of [n] heights. *)
Definition blocks (i n : Z) : list BlockMap := F <$> seqZ i n.
Lemma blocks_app i n k : 0 <= n -> 0 <= k -> blocks i (n + k) = blocks i n ++ blocks (i + n) k.
Proof. intros. unfold blocks. by rewrite seqZ_app, fmap_app by lia. Qed.
Lemma length_blocks i n : length (blocks i n) = Z.to_nat n.
Proof. unfold blocks. by rewrite length_fmap, length_seqZ. Qed.
(** The batch before [e] begins here. *)
Definition batch_start (e : Z) : Z := if e =? 0 then 0 else (e - 1) / limit * limit.
Lemma batch_start_of i e : batch_of size limit i e -> batch_start e = i.
Proof.
  intros (Hi & He & Hm & Hmin). unfold batch_start. rewrite (proj2 (Z.eqb_neq _ _)) by lia.
  apply Z.mod_divide in Hm as [q ->]; [|lia]. f_equal. symmetry. apply (Z.div_unique _ _ _ (e - 1 - q * limit)); lia.
Qed.
Lemma batch_start_bounds e : 0 <= e -> 0 <= batch_start e <= e.
Proof.
  intros He. unfold batch_start. destruct (Z.eqb_spec e 0); [lia|]. pose proof (Z.mul_div_le (e - 1) limit). 
  pose proof (Z.div_pos (e - 1) limit). nia.
Qed.

(** Between the batches: what is merged, and the importers of the last batch. *)
Definition loop_at (e : Z) (x : W * option (list (option I))) : Prop :=
  if e =? 0 then x.2 = None /\ merged x.1 = ms /\ stable x.1
  else exists l, x.2 = Some l /\
    at_heights merged made stable (ms ++ blocks from (batch_start e)) l (blocks (from + batch_start e) (e - batch_start e)) x.1.
Definition prefix_merged (w : W) : Prop := stable w /\ exists k, 0 <= k <= size /\ merged w = ms ++ blocks from k.
Lemma take_seqZ k i n : 0 <= n -> exists j, 0 <= j <= n /\ take k (seqZ i n) = seqZ i j.
Proof.
  intros Hn. exists (Z.min (Z.of_nat k) n). split; [lia|]. apply list_eq. intros p. destruct (decide (p < k)%nat) as [Hp|Hp].
  - rewrite lookup_take_lt by done. destruct (decide (Z.of_nat p < n)).
    + rewrite !lookup_seqZ_lt by lia. done.
    + rewrite !lookup_seqZ_ge by lia. done.
  - rewrite lookup_take_ge, lookup_seqZ_ge by lia. done.
Qed.
Lemma prefix_of_up_to k n w : 0 <= k -> 0 <= n -> k + n <= size ->
  merged_up_to merged stable (ms ++ blocks from k) (blocks (from + k) n) w -> prefix_merged w.
Proof.
  intros Hk Hn Hs (Hst & j & Hw). split; [done|]. destruct (take_seqZ j (from + k) n Hn) as (i & Hi & Et).
  unfold blocks in Hw. rewrite firstn_map, Et in Hw.
  exists (k + i). split; [lia|]. rewrite Hw, <- app_assoc. f_equal. by rewrite blocks_app by lia.
Qed.

(** The importers of the batch from [i] to [e] while the workers make them. *)
Definition making (i e : Z) (done : list Z) (x : W * option (list (option I))) : Prop :=
  exists l, x.2 = Some l /\ length l = Z.to_nat (e - i) /\ (merged x.1 = ms ++ blocks from i /\ stable x.1) /\
    forall n, n ∈ done -> i <= n /\ exists im, l !! Z.to_nat (n - i) = Some (Some im) /\ made im x.1 = Some (F (from + n)).
Lemma making_keeps {A} (m : IO W A) i e done : (forall w, quiet w (m w).2) -> keeps (making i e done) (in_loop m).
Proof.
  intros Hm. apply keeps_of. intros [w l'] (l & Hl & Hlen & Hw & Hd). unfold in_loop. specialize (Hm w).
  destruct (m w) as [r w'] eqn:E. destruct Hm as (Hq & Hs & Hk), Hw as [Hw Hst]. exists l. simpl in *. split; [done|]. split; [done|].
  split; [split; [by rewrite Hq|auto]|].
  intros n Hn. destruct (Hd n Hn) as (Hin & im & Hi & Hmd). split; [done|]. exists im. auto.
Qed.
Lemma making_prefix i e done x : 0 <= i <= size -> making i e done x -> prefix_merged x.1.
Proof. intros Hi (l & _ & _ & [Hw Hst] & _). split; [done|]. exists i. by split. Qed.

Lemma importBlock_quiet h m im w : quiet w (importBlock (@sched) blockItemf h m im w).2.
Proof.
  assert (forall P : W -> Prop, (forall w w', quiet w w' -> P w -> P w') -> keeps P (importBlock (@sched) blockItemf h m im)) as Hk.
  { intros P HP. unfold importBlock. destruct (_ <? 1)%nat; [apply keeps_ret|]. apply jobs_keep. intros item _.
    unfold import_item. apply keeps_bind; [apply keeps_of; intros w' Hw'; by eapply HP, Hw'|].
    intros [f|]; [|by apply triple_err]. apply keeps_of. intros w' Hw'. eapply HP, Hw'. apply imp_WriteItem_ok. }
  specialize (Hk (quiet w)). assert (forall w1 w2, quiet w1 w2 -> quiet w w1 -> quiet w w2) as Htrans.
  { intros w1 w2 (E1 & S1 & K1) (E2 & S2 & K2). split; [by rewrite E1|]. split; auto. }
  specialize (Hk Htrans w). assert (quiet w w) as Hr by (split; [done|split; auto]). specialize (Hk Hr). by destruct (importBlock _ _ _ _ _ w) as [[]?].
Qed.

Lemma import_job_ok i e done n last : batch_of size limit i e -> i <= n < e ->
  triple (making i e done) (import_job (@sched) blockMapf blockItemf from limit n last) (fun _ => making i e (done ++ [n]))
    (fun x => prefix_merged x.1).
Proof.
  intros Hb Hn. pose proof Hb as (Hi & He & Hm & Hmin). unfold import_job.
  assert (wrap_s 64 (from + n) = from + n) as -> by (apply wrap_s_small; change (64 - 1) with 63; lia).
  replace (from + n - from) with n by lia. assert (wrap_s 64 n = n) as -> by (apply wrap_s_small; change (64 - 1) with 63; lia).
  assert (forall x, making i e done x -> prefix_merged x.1) as Hpre by (intros x; apply making_prefix; lia).
  assert (Z.rem n limit = n - i) as ->.
  { rewrite Z.rem_mod_nonneg by lia. apply Z.mod_divide in Hm as [q ->]; [|lia]. symmetry. apply (Z.mod_unique _ _ q); lia. }
  eapply (triple_bind _ _ _ (fun m x => making i e done x /\ forall m', m = Some m' -> m' = F (from + n))).
  { intros [w l] Hw. pose proof (making_keeps (blockMapf (from + n)) i e done (fun w => proj1 (blockMapf_ok (from + n) w)) (w, l) Hw) as Hk.
    pose proof (proj2 (blockMapf_ok (from + n) w)) as Hh. unfold in_loop in *. destruct (blockMapf (from + n) w) as [[m|er|] w'];
      [|by apply (Hpre _ Hk)..]. split; [done|]. intros m' ->. destruct Hw as (? & _ & _ & [_ Hst] & _). by apply Hh. }
  intros [m|]; [|apply triple_err; intros x [Hx _]; by apply Hpre].
  refine (triple_weaken _ _ _ _ _ _ _ (triple_pure (m = F (from + n)) (making i e done) _ _ _ _) _ (fun _ _ x => x) (fun _ x => x)).
  2: { intros x [Hx Hh]. split; [by apply Hh|done]. }
  intros Hmh.
  eapply (triple_bind _ _ _ (fun im x => making i e done x /\ made im x.1 = Some (F (from + n)))).
  { intros [w l] Hw. pose proof (making_keeps (imp_New m) i e done (fun w => proj1 (imp_New_ok m w)) (w, l) Hw) as Hk.
    pose proof (proj2 (imp_New_ok m w)) as Hh. unfold in_loop in *. destruct (imp_New m w) as [[im|er|] w']; [|by apply (Hpre _ Hk)..].
    split; [done|]. rewrite <- Hmh. by apply Hh. }
  intros im. eapply (triple_bind _ _ _ (fun _ x => making i e done x /\ made im x.1 = Some (F (from + n)))).
  { intros [w l] [Hw Him]. pose proof (importBlock_quiet (from + n) m im) as Hq.
    pose proof (making_keeps _ i e done Hq (w, l) Hw) as Hk. destruct (Hq w) as (_ & _ & Hmk). unfold in_loop in *.
    destruct (importBlock _ _ _ _ _ w) as [[[]|er|] w']; [|by apply (Hpre _ Hk)..]. split; [done|]. by apply Hmk. }
  intros [] [w l'] [(l & Hl & Hlen & Hw & Hd) Him]. simpl in Hl. subst l'. unfold put_im.
  destruct (Nat.ltb_spec (Z.to_nat (n - i)) (length l)); [|lia]. eexists. split; [done|]. split; [by rewrite length_insert|]. split; [done|].
  intros j [Hj|Hj%list_elem_of_singleton]%elem_of_app.
  - destruct (Hd j Hj) as (Hij & im' & Hi' & Hm'). split; [done|]. destruct (decide (j = n)) as [->|Hne].
    + exists im. rewrite list_lookup_insert_eq by lia. done.
    + exists im'. rewrite list_lookup_insert_ne by lia. done.
  - subst j. split; [lia|]. exists im. rewrite list_lookup_insert_eq by lia. done.
Qed.

Lemma import_pref_ok i e : batch_of size limit i e ->
  triple (loop_at i) (import_pref (@sched) mergedb limit (e - 1)) (fun _ => making i e []) (fun x => prefix_merged x.1).
Proof.
  intros Hb. pose proof Hb as (Hi & He & Hm & Hmin). unfold import_pref.
  eapply (triple_bind _ _ _ (fun l x => l = x.2 /\ loop_at i x)); [by apply triple_gets|]. intros l.
  eapply (triple_bind _ _ _ (fun _ x => merged x.1 = ms ++ blocks from i /\ stable x.1)).
  - intros [w l'] [-> Hl]. unfold loop_at in Hl. cbn [fst snd] in Hl |- *. destruct (Z.eqb_spec i 0) as [->|Hne].
    + destruct Hl as (-> & Hw & Hst). simpl in *. by rewrite app_nil_r.
    + destruct Hl as (l & -> & Hl). unfold in_loop.
      pose proof (saveImporters_ok merged made stable (@sched) mergedb mergedb_ok l _ _ w Hl) as Hs. pose proof (batch_start_bounds i ltac:(lia)).
      destruct (saveImporters _ _ l w) as [[[]|er|] w'].
      * destruct Hs as (Hs & Hst & _). simpl. split; [|done]. rewrite Hs, <- app_assoc, <- blocks_app by lia. do 2 f_equal. lia.
      * simpl. eapply prefix_of_up_to; [..|exact Hs]; lia.
      * simpl. eapply prefix_of_up_to; [..|exact Hs]; lia.
  - intros []. unfold new_ims. rewrite (proj2 (Z.eqb_neq limit 0)) by lia.
    eapply (triple_bind _ _ _ (fun l x => length l = Z.to_nat (e - i) /\ (merged x.1 = ms ++ blocks from i /\ stable x.1))).
    + apply triple_lift. intros x Hx. split; [|done]. rewrite length_replicate. f_equal. rewrite !wrap_u_small by lia.
      replace (e - 1 + 1) with e by lia. destruct (batch_mod i e size limit) as [[-> ->]|[-> Hne]]; try lia; try done.
      by rewrite (proj2 (Z.eqb_neq _ _)) by lia.
    + intros l'. apply triple_modify. intros [w l''] [Hl Hw]. exists l'. split; [done|]. split; [done|]. split; [done|].
      by intros n ?%elem_of_nil.
Qed.

Lemma import_batch ws i e : 1 <= ws -> batch_of size limit i e ->
  triple (loop_at i) (batch_stepIO (@sched) ws (import_pref (@sched) mergedb limit) (import_job (@sched) blockMapf blockItemf from limit) (i, e))
    (fun _ => loop_at e) (fun x => prefix_merged x.1).
Proof.
  intros Hws Hb. pose proof Hb as (Hi & He & Hm & Hmin). unfold batch_stepIO.
  eapply (triple_bind _ _ _ (fun _ => making i e [])); [by apply import_pref_ok|]. intros [].
  refine (triple_weaken _ _ _ _ _ _ _ (RunWorkerIO_triple (@sched) sched_perm ws (seqZ i (e - i)) _ (making i e) _ Hws _ _) (fun _ x => x) _ (fun _ x => x)).
  - intros done n Hn%elem_of_seqZ. apply import_job_ok; [done|lia].
  - intros l x Hp (l' & Hl & Hlen & Hw & Hd). exists l'. split; [done|]. split; [done|]. split; [done|]. intros n Hn. apply Hd. by rewrite Hp.
  - intros [] x (l & Hl & Hlen & Hw & Hd). unfold loop_at. rewrite (proj2 (Z.eqb_neq e 0)) by lia. rewrite (batch_start_of _ _ Hb).
    exists l. split; [done|]. split; [apply Hw|]. split; [apply Hw|]. apply Forall2_same_length_lookup. split; [by rewrite length_blocks, Hlen|].
    intros k im h Hk Hh. assert (k < Z.to_nat (e - i))%nat as Hlt by (rewrite <- Hlen; by eapply lookup_lt_Some).
    unfold blocks in Hh. rewrite list_lookup_fmap, lookup_seqZ_lt in Hh by lia. injection Hh as <-.
    destruct (Hd (i + Z.of_nat k)) as (_ & im' & Hi' & Hm'); [apply elem_of_seqZ; lia|].
    replace (Z.to_nat (i + Z.of_nat k - i)) with k in Hi' by lia. rewrite Hk in Hi'. injection Hi' as ->. exists im'. split; [done|].
    rewrite Hm'. do 2 f_equal. lia.
Qed.

(** How many blocks a whole import merges: the last batch is left when it is full. *)
Definition merged_count : Z := if size mod limit =? 0 then size - limit else size.
Lemma merged_count_bounds : 0 <= merged_count <= size.
Proof. unfold merged_count. pose proof (Z.mod_small size limit). destruct (Z.eqb_spec (size mod limit) 0); lia. Qed.
Lemma last_ims_length : Z.of_nat (Z.to_nat (size - batch_start size)) = if size mod limit =? 0 then limit else size mod limit.
Proof.
  pose proof (batch_start_bounds size ltac:(lia)) as Hbs. rewrite Z2Nat.id by lia. unfold batch_start. rewrite (proj2 (Z.eqb_neq _ _)) by lia.
  pose proof (Z.div_mod size limit). pose proof (Z.mod_pos_bound size limit). destruct (Z.eqb_spec (size mod limit) 0) as [E|E].
  - rewrite <- (Z.div_unique (size - 1) limit (size / limit - 1) (limit - 1)); nia.
  - rewrite <- (Z.div_unique (size - 1) limit (size / limit) (size mod limit - 1)); nia.
Qed.
Lemma last_batch l :
  triple (fun x => x.2 = l /\ loop_at size x)
    (if Z.of_nat (length (default [] l)) <? limit then in_loop (saveImporters (@sched) mergedb (default [] l)) else mret tt)
    (fun _ x => merged x.1 = ms ++ blocks from merged_count /\ stable x.1) (fun x => prefix_merged x.1).
Proof.
  intros [w0 l0] [<- Hl]. unfold loop_at in Hl. rewrite (proj2 (Z.eqb_neq size 0)) in Hl by lia. destruct Hl as (ims & -> & Hl). simpl in Hl |- *.
  pose proof (Forall2_length _ _ _ (proj2 (proj2 Hl))) as Hlen. rewrite length_blocks in Hlen.
  pose proof last_ims_length as Hims. rewrite <- Hlen in Hims. pose proof (batch_start_bounds size ltac:(lia)) as Hbs.
  pose proof (Z.mod_pos_bound size limit). unfold merged_count. destruct (Z.ltb_spec (Z.of_nat (length ims)) limit) as [Hlt|Hge].
  - unfold in_loop. pose proof (saveImporters_ok merged made stable (@sched) mergedb mergedb_ok ims _ _ w0 Hl) as Hs.
    destruct (saveImporters _ _ ims w0) as [[[]|er|] w1]; simpl.
    + destruct Hs as (Hs & Hst & _). split; [|done]. rewrite Hs, <- app_assoc, <- blocks_app by lia. do 2 f_equal.
      destruct (Z.eqb_spec (size mod limit) 0); lia.
    + eapply prefix_of_up_to; [..|exact Hs]; lia.
    + eapply prefix_of_up_to; [..|exact Hs]; lia.
  - destruct Hl as (Hw & Hst & _). simpl. rewrite Hw. split; [|done]. do 2 f_equal. destruct (Z.eqb_spec (size mod limit) 0); lia.
Qed.
Lemma import_loop_merges :
  triple (loop_at 0) (import_loop (@sched) blockMapf blockItemf setLast mergedb from (from + size - 1) limit)
    (fun _ x => merged x.1 = ms ++ blocks from merged_count /\ stable x.1) (fun x => prefix_merged x.1).
Proof.
  unfold import_loop. replace (from + size - 1 - from + 1) with size by lia. rewrite wrap_s_small by (change (64 - 1) with 63; lia).
  eapply (triple_bind _ _ _ (fun _ => loop_at size)).
  { apply (BatchWorkIO_triple (@sched)); [lia|lia|]. intros ws i e. apply import_batch. }
  intros []. eapply (triple_bind _ _ _ (fun l x => x.2 = l /\ loop_at size x)); [by apply triple_gets|]. intros l.
  eapply (triple_bind _ _ _ (fun _ x => merged x.1 = ms ++ blocks from merged_count /\ stable x.1)); [apply last_batch|]. intros [].
  pose proof merged_count_bounds as Hn. destruct setLast as [f|] eqn:Ef; [|by apply triple_ret].
  intros [w1 l1] [Hw Hst]. simpl in Hw, Hst. unfold in_loop.
  destruct (setLast_ok f w1 eq_refl) as (Hq & Hs & _). destruct (f w1) as [[[]|er|] w2]; simpl in *; [by rewrite Hq; auto|..];
    (split; [by auto|exists merged_count; by rewrite Hq]).
Qed.
Lemma ImportBlocks_prefix w : merged w = ms -> stable w ->
  match ImportBlocks (@sched) blockMapf blockItemf setLast mergedb from (from + size - 1) limit w with
  | (Ok _, w') => merged w' = ms ++ blocks from merged_count /\ stable w'
  | (_, w') => prefix_merged w'
  end.
Proof.
  intros Hms Hst. pose proof (import_loop_merges (w, None) (conj eq_refl (conj Hms Hst))) as Ht. unfold ImportBlocks.
  by destruct (import_loop _ _ _ _ _ _ _ _ (w, None)) as [[[]|er|] [w0 l0]].
Qed.

(** C7: an import merges the blocks of its range in their order and without a gap,
    whatever fails; one that succeeds has merged all of them, but for the last batch
    when it is a full one. *)
Theorem ImportBlocks_merges to w r w' : to = from + size - 1 -> merged w = ms -> stable w ->
  ImportBlocks (@sched) blockMapf blockItemf setLast mergedb from to limit w = (r, w') ->
  exists k, 0 <= k <= size /\ merged w' = ms ++ (F <$> seqZ from k) /\
    (r = Ok tt -> k = if size mod limit =? 0 then size - limit else size).
Proof.
  intros -> Hms Hst Hi. pose proof (ImportBlocks_prefix w Hms Hst) as Hp. rewrite Hi in Hp.
  destruct r as [[]|er|]; [|destruct Hp as (_ & k & ? & ?); by exists k..].
  exists merged_count. split; [apply merged_count_bounds|]. split; [apply Hp|done].
Qed.
End range.

(** ** The importer of a block *)
Section block_importer.
Context `{Crypto, BlockCrypto, TreeHash, !StateValue state_value, Receipts, !ItemCodec} {B : Type} `{BlockWriteDatabase B}.
Variables (sched : list (nat * line) -> list (nat * line)) (maxWorkerSize : Z).
Variables (op_IsValid : Hash * Hash -> err) (genesis_op_IsValid : string -> Hash * Hash -> err).
Implicit Types (g : Importing B).
Abbreviation WriteItem := (im_WriteItem sched maxWorkerSize op_IsValid genesis_op_IsValid).

(** A block map with the keys of its items, and without an item for itself. *)
Definition map_keyed (m : BlockMap) : Prop := (forall t i, bm_items m !! t = Some i -> bi_t i = t) /\ bm_items m !! BlockItemMap = None.

(** The importer of [m] after the items [ts]. *)
Record imported (m : BlockMap) (ts : list (BlockItemType * file)) g : Prop := {
  ip_m : im_m (ig_im g) = m;
  ip_finisheds t : im_finisheds (ig_im g) !! t = Some true -> t ∈ ts.*1;
  ip_files : exists d, li_temp (im_localfs (ig_im g)) = Some d /\ d !! BlockItemMap = Some [LHeader 0; LMap m] /\
    (forall t f i, (t, f) ∈ ts -> bm_items m !! t = Some i -> d !! t = Some f /\ file_checksum f = bi_checksum i) /\
    (forall t f, d !! t = Some f -> t = BlockItemMap \/ is_Some (bm_items m !! t));
  ip_height : li_height (im_localfs (ig_im g)) = bm_height m
}.

(** What only touches the database, the states and the tree. *)
Definition same_files g g' : Prop :=
  im_m (ig_im g') = im_m (ig_im g) /\ im_finisheds (ig_im g') = im_finisheds (ig_im g) /\
  im_localfs (ig_im g') = im_localfs (ig_im g) /\ ig_st g' = ig_st g.
Lemma same_files_refl g : same_files g g.
Proof. done. Qed.
Lemma same_files_trans g g' g'' : same_files g g' -> same_files g' g'' -> same_files g g''.
Proof. intros (A1 & A2 & A3 & A4) (B1 & B2 & B3 & B4). split_and!; congruence. Qed.
Definition leaves_files {A} (m : IO (Importing B) A) : Prop := forall g, same_files g (m g).2.
Lemma leaves_bind {A A'} (m : IO (Importing B) A) (f : A -> IO (Importing B) A') :
  leaves_files m -> (forall a, leaves_files (f a)) -> leaves_files (m ≫= f).
Proof.
  intros Hm Hf g. unfold mbind, io_bind. specialize (Hm g). destruct (m g) as [[a|e|] g']; [|done..].
  eapply same_files_trans; [exact Hm|apply Hf].
Qed.
Lemma leaves_lift {A} (r : res A) : leaves_files (io_lift r).
Proof. intros g. apply same_files_refl. Qed.
Lemma leaves_gets {A} (f : Importing B -> A) : leaves_files (gets f).
Proof. intros g. apply same_files_refl. Qed.
Lemma leaves_ret {A} (a : A) : leaves_files (mret a).
Proof. intros g. apply same_files_refl. Qed.
Lemma leaves_bwdb {A} (m : IO B A) : leaves_files (on_bwdb m).
Proof. intros g. unfold on_bwdb. by destruct (m _) as [r b]. Qed.
Hint Resolve leaves_bind leaves_lift leaves_gets leaves_ret leaves_bwdb : core.

Lemma import_value_leaves t f : leaves_files (import_value sched maxWorkerSize op_IsValid genesis_op_IsValid t f).
Proof.
  unfold import_value, importStatesTree, importStates, importOperations, importVoteproofs.
  repeat case_bool_decide; auto.
  - apply leaves_bind; [auto|]. by intros tr g.
  - apply leaves_bind; [auto|]. intros sufst. apply leaves_bind; [auto|]. intros [n [st l]]. apply leaves_bind; [auto|].
    intros sts. apply leaves_bind; [by intros g|]. auto.
  - apply leaves_bind; [auto|]. intros m. apply leaves_bind; [auto|]. intros [n l]. auto.
Qed.

Lemma im_bind_ok {W A A'} (m : IO W A) (f : A -> IO W A') x b x' : (m ≫= f) x = (Ok b, x') ->
  exists a y, m x = (Ok a, y) /\ f a y = (Ok b, x').
Proof. unfold mbind, io_bind. destruct (m x) as [[a|e|] y]; [|done..]. intros Hf. by exists a, y. Qed.
Lemma on_localfs_ok f g u g' : on_localfs f g = (Ok u, g') ->
  exists l, f (im_localfs (ig_im g)) = Ok l /\ g' = {| ig_im := set_localfs l (ig_im g); ig_st := ig_st g |}.
Proof.
  unfold on_localfs. intros (l & y & [= <- <-] & (l' & z & Hl & [= _ <-])%im_bind_ok)%im_bind_ok.
  unfold io_lift in Hl. injection Hl as Hl <-. by exists l'.
Qed.

Lemma WriteItem_imported m ts t f g g' : imported m ts g -> t ∉ ts.*1 -> bm_items m !! BlockItemMap = None ->
  WriteItem t f g = (Ok tt, g') -> imported m (ts ++ [(t, item_read t f)]) g' /\ ig_st g' = ig_st g.
Proof.
  intros [Hm Hfin (d & Hd & Hmap & Hts & Hdom) Hh] Ht Hnm. unfold im_WriteItem, importItem.
  intros (u & g1 & (item & g2 & [= <- <-] & Hi)%im_bind_ok & [= <-])%im_bind_ok. rewrite Hm in Hi.
  assert (forall fin, fin = <[t := true]> (im_finisheds (ig_im g)) -> forall t', fin !! t' = Some true -> t' ∈ (ts ++ [(t, item_read t f)]).*1) as Hf'.
  { intros fin -> t' [[<- _]|[_ Hx]]%lookup_insert_Some; rewrite fmap_app; [set_solver|]. apply Hfin in Hx. set_solver. }
  destruct (bm_items m !! t) as [item|] eqn:Ei.
  - apply im_bind_ok in Hi as (u1 & g3 & (l & Hl & ->)%on_localfs_ok & Hi). apply im_bind_ok in Hi as (u2 & g4 & Hv & Hi).
    pose proof (import_value_leaves t f {| ig_im := set_localfs l (ig_im g); ig_st := ig_st g |}) as Hsame. rewrite Hv in Hsame.
    destruct Hsame as (E1 & E2 & E3 & E4). simpl in E1, E2, E3, E4. unfold io_lift in Hi. injection Hi as Hc <-. destruct u.
    apply guard_err_ok, negb_false_iff, bool_decide_eq_true in Hc.
    unfold li_WriteItem in Hl. apply bind_err_ok in Hl as [_ Hl]. unfold li_put in Hl. rewrite Hd in Hl. injection Hl as <-.
    simpl. split; [|done]. split; simpl; [by rewrite E1|apply Hf'; by rewrite E2| |by rewrite E3].
    exists (<[t := item_read t f]> d). rewrite E3. split; [done|]. split; [|split].
    + rewrite lookup_insert_ne; [done|]. intros ->. by rewrite Hnm in Ei.
    + intros t' f' i [Hin|Hin%list_elem_of_singleton]%elem_of_app Hi'.
      * destruct (Hts t' f' i Hin Hi') as [? ?]. rewrite lookup_insert_ne; [done|]. intros ->. apply Ht, list_elem_of_fmap. by exists (t', f').
      * simplify_eq. by rewrite lookup_insert_eq.
    + intros t' f' [[<- _]|[_ Hx]]%lookup_insert_Some; [right; by rewrite Ei|by eapply Hdom].
  - injection Hi as _ <-. simpl. split; [|done]. split; simpl; [done|by apply Hf'| |done]. exists d. split; [done|]. split; [done|]. split; [|done].
    intros t' f' i [Hin|Hin%list_elem_of_singleton]%elem_of_app Hi'; [by eapply Hts|]. simplify_eq.
Qed.

Lemma NewBlockImporter_imported m b st u g : NewBlockImporter m b st = (Ok u, g) -> imported m [] g /\ ig_st g = st.
Proof.
  unfold NewBlockImporter, im_WriteMap. intros (u1 & g1 & [= _ <-] & Hr)%im_bind_ok.
  apply im_bind_ok in Hr as (u2 & g2 & (l & Hl & ->)%on_localfs_ok & Hr). simpl in Hl.
  unfold li_WriteMap in Hl. apply bind_err_ok in Hl as [_ [= <-]].
  pose proof (leaves_bwdb (db_SetBlockMap m)) as Hsame.
  match type of Hr with on_bwdb _ ?x = _ => specialize (Hsame x) end. rewrite Hr in Hsame. destruct Hsame as (E1 & E2 & E3 & E4).
  simpl in E1, E2, E3, E4. split; [|done]. split; [done| |rewrite E3; eexists; split; [done|]|by rewrite E3].
  - intros t. rewrite E2. unfold not_finished. induction (BlockMap_Items m) as [|item l IH]; [done|]. simpl.
    intros [[_ ?]|[_ Hx]]%lookup_insert_Some; [done|]. by apply IH.
  - split; [by rewrite lookup_insert_eq|]. split; [by intros ? ? ? ?%elem_of_nil|].
    intros t f [[<- _]|[_ Hx]]%lookup_insert_Some; [by left|done].
Qed.

(** The items one after the other, as they come. *)
Definition write_items (ts : list (BlockItemType * file)) : IO (Importing B) unit := run_jobs (fun tf => WriteItem tf.1 tf.2) ts.

(** What the importer keeps of the items that come. *)
Definition items_read (ts : list (BlockItemType * file)) : list (BlockItemType * file) := (fun tf => (tf.1, item_read tf.1 tf.2)) <$> ts.
Lemma items_read_types ts : (items_read ts).*1 = ts.*1.
Proof. unfold items_read. by rewrite <- list_fmap_compose. Qed.

(** C8: an import is saved only when every item of the block map came, and then the
    files of the block are those that came, each with the checksum of the map.  A file is
    kept as far as it was read: to its end, but for operations, states and their tree
    whose header counts none. *)
Theorem imported_block_checked m b st ts g g1 g2 : map_keyed m -> NoDup ts.*1 ->
  NewBlockImporter m b st = (Ok tt, g) -> write_items ts g = (Ok tt, g1) -> im_Save g1 = (Ok tt, g2) ->
  exists d, st_heights (ig_st g2) !! bm_height m = Some d /\ d !! BlockItemMap = Some [LHeader 0; LMap m] /\
    (forall t i, bm_items m !! t = Some i -> exists f f', (t, f) ∈ ts /\ d !! t = Some f' /\ file_checksum f' = bi_checksum i /\
       (f' = f \/ counts_none f = true /\ f' = read_ahead f)) /\
    (forall t f, d !! t = Some f -> t = BlockItemMap \/ is_Some (bm_items m !! t)) /\
    forall h, h <> bm_height m -> st_heights (ig_st g2) !! h = st_heights st !! h.
Proof.
  intros [Hkey Hnm] Hnd [Hi Hst]%NewBlockImporter_imported Hw Hs.
  assert (imported m (items_read ts) g1 /\ ig_st g1 = st) as [[Hm Hfin (d & Hd & Hmap & Hts & Hdom) Hh] Hst1].
  { enough (triple (fun g => imported m [] g /\ ig_st g = st) (write_items ts) (fun _ g => imported m (items_read ts) g /\ ig_st g = st) (fun _ => True)) as Ht.
    { specialize (Ht g (conj Hi Hst)). by rewrite Hw in Ht. }
    assert (forall rest done, done ++ rest = ts ->
      triple (fun g => imported m (items_read done) g /\ ig_st g = st) (write_items rest) (fun _ g => imported m (items_read ts) g /\ ig_st g = st) (fun _ => True)) as Hall.
    { induction rest as [|[t f] rest IH]; intros done Hl; [rewrite app_nil_r in Hl; subst; by apply triple_ret|]. unfold write_items. cbn [run_jobs].
      eapply (triple_bind _ _ _ (fun _ g => imported m (items_read (done ++ [(t, f)])) g /\ ig_st g = st)).
      - intros g3 [Hi3 Hst3]. cbn [fst snd]. destruct (WriteItem t f g3) as [[[]|e|] g4] eqn:E; [|done..].
        edestruct (WriteItem_imported m (items_read done) t f g3 g4) as [? ->]; [done| |done|done|unfold items_read; by rewrite fmap_app].
        rewrite items_read_types. rewrite <- Hl, fmap_app in Hnd. apply NoDup_app in Hnd as (_ & Hnd & _). intros Hin. apply (Hnd _ Hin). simpl. set_solver.
      - intros []. apply IH. by rewrite <- app_assoc. }
    by apply (Hall ts []). }
  unfold im_Save in Hs. apply im_bind_ok in Hs as (im & g3 & [= <- <-] & Hs). destruct (isfinished (ig_im g1)) eqn:Ef; [|done]. simpl in Hs.
  apply im_bind_ok in Hs as (u1 & g3 & Hp & Hs). apply im_bind_ok in Hs as (u2 & g4 & Hwr & Hs).
  assert (same_files g1 g4) as (E1 & E2 & E3 & E4).
  { eapply same_files_trans; [|pose proof (leaves_bwdb db_Write g3) as Hx; by rewrite Hwr in Hx].
    assert (leaves_files save_proof) as Hsp; [|specialize (Hsp g1); by rewrite Hp in Hsp].
    unfold save_proof. apply leaves_bind; [auto|]. intros im. destruct (im_sufst im); [|auto]. apply leaves_bind; auto. }
  unfold on_storage, li_Save in Hs. rewrite E3, Hd in Hs. injection Hs as <-. simpl. rewrite Hh, E4, Hst1.
  exists d. unfold set_height. simpl. rewrite lookup_partial_alter_eq. split; [done|]. split; [done|]. split; [|split; [done|]].
  - intros t i Hti. assert (t ∈ ts.*1) as ([t' f] & -> & Hin)%list_elem_of_fmap.
    { rewrite <- items_read_types. apply Hfin. unfold isfinished in Ef. rewrite forallb_forall in Ef. rewrite Hm in Ef.
      assert (i ∈ BlockMap_Items m) as Hx.
      { unfold BlockMap_Items. apply list_elem_of_fmap. exists (t, i). split; [done|]. by apply elem_of_map_to_list. }
      apply list_elem_of_In in Hx. specialize (Ef _ Hx). apply bool_decide_eq_true in Ef. by rewrite (Hkey t i Hti) in Ef. }
    simpl. exists f, (item_read t' f). split; [done|].
    destruct (Hts t' (item_read t' f) i) as [Hd' Hc']; [apply list_elem_of_fmap; by exists (t', f)|done|]. split; [done|]. split; [done|].
    unfold item_read. destruct (_ && counts_none f) eqn:Ec; [right|by left]. by apply andb_true_iff in Ec as [_ ->].
  - intros h Hne. by rewrite !lookup_partial_alter_ne by done.
Qed.
End block_importer.

(** ** The importers of a node are importers *)
Section node_importers.
Context `{Crypto, BlockCrypto, TreeHash, !StateValue state_value, Receipts, !ItemCodec} {B C : Type} `{BlockWriteDatabase B}.
Variables (sched : list (nat * line) -> list (nat * line)) (maxWorkerSize : Z).
Variables (op_IsValid : Hash * Hash -> err) (genesis_op_IsValid : string -> Hash * Hash -> err).
Variables (newdb : Z -> IO C B) (mergedb : B -> IO C unit).
#[local] Instance the_importers : BlockImporters (ImportWorld B C) nat :=
  node_importers sched maxWorkerSize op_IsValid genesis_op_IsValid newdb mergedb.

Definition made_at (i : nat) (w : ImportWorld B C) : option BlockMap := im_m <$> iw_ims w !! i.

Abbreviation map_is m := (fun g : Importing B => im_m (ig_im g) = m).
Lemma leaves_map {A} (x : IO (Importing B) A) m : leaves_files x -> keeps (map_is m) x.
Proof. intros Hx. apply keeps_of. intros g Hg. destruct (Hx g) as [-> _]. exact Hg. Qed.
Lemma set_im_map f m : (forall im : BlockImporter B, im_m (f im) = im_m im) -> keeps (map_is m) (set_im f).
Proof. intros Hf g Hg. simpl. by rewrite Hf. Qed.
Lemma on_localfs_map f m : keeps (map_is m) (on_localfs f).
Proof.
  unfold on_localfs. apply keeps_bind; [apply keeps_of; by intros|]. intros l. apply keeps_bind; [apply keeps_lift|]. intros l'. by apply set_im_map.
Qed.
Lemma on_storage_map f m : keeps (map_is m) (on_storage f).
Proof. intros g Hg. unfold on_storage. by destruct (f _ _) as [[l|e|] st]. Qed.
Lemma WriteItem_map t f m : keeps (map_is m) (im_WriteItem sched maxWorkerSize op_IsValid genesis_op_IsValid t f).
Proof.
  unfold im_WriteItem, importItem. apply keeps_bind; [|intros []; by apply set_im_map]. apply keeps_bind; [apply keeps_of; by intros|].
  intros [item|]; [|apply keeps_ret]. apply keeps_bind; [apply on_localfs_map|]. intros []. apply keeps_bind; [apply leaves_map, import_value_leaves|].
  intros []. apply keeps_lift.
Qed.
Lemma Save_map m : keeps (map_is m) im_Save.
Proof.
  unfold im_Save, save_proof. apply keeps_bind; [apply keeps_of; by intros|]. intros im. destruct (negb _); [by apply triple_err|].
  apply keeps_bind; [apply keeps_bind; [apply keeps_of; by intros|]; intros im'|].
  - destruct (im_sufst im'); [|apply keeps_ret]. apply keeps_bind; [apply keeps_lift|]. intros proof. apply leaves_map, leaves_bwdb.
  - intros []. apply keeps_bind; [apply leaves_map, leaves_bwdb|]. intros []. apply on_storage_map.
Qed.
Lemma Cancel_map m : keeps (map_is m) im_CancelImport.
Proof.
  unfold im_CancelImport. apply keeps_bind; [apply leaves_map, leaves_bwdb|]. intros []. apply keeps_bind; [apply on_storage_map|].
  intros []. by apply set_im_map.
Qed.

(** What the database keeps. *)
Variable db_stable : C -> Prop.
Hypothesis newdb_stable : forall h c, db_stable c -> db_stable (newdb h c).2.
Hypothesis mergedb_stable : forall b c, db_stable c -> db_stable (mergedb b c).2.
Definition db_stable_in (w : ImportWorld B C) : Prop := db_stable (iw_db w).
Definition node_quiet (w w' : ImportWorld B C) : Prop :=
  iw_merged w' = iw_merged w /\ (db_stable_in w -> db_stable_in w') /\ forall i h, made_at i w = Some h -> made_at i w' = Some h.
Lemma on_importer_quiet {A} (m : IO (Importing B) A) i w : (forall bm, keeps (map_is bm) m) -> node_quiet w (on_importer m i w).2.
Proof.
  intros Hm. unfold on_importer. destruct (iw_ims w !! i) as [im|] eqn:Ei; [|done].
  specialize (Hm (im_m im) {| ig_im := im; ig_st := iw_st w |} eq_refl). destruct (m _) as [r g]. split; [done|]. split; [done|]. intros j h Hj.
  unfold made_at in *. simpl. destruct (decide (j = i)) as [->|Hne]; [|by rewrite list_lookup_insert_ne].
  rewrite list_lookup_insert_eq by (by eapply lookup_lt_Some). rewrite Ei in Hj. simpl in Hj |- *. rewrite <- Hj. by destruct r; rewrite Hm.
Qed.

#[export] Instance node_importers_laws : BlockImportersLaws (ImportWorld B C) nat iw_merged made_at db_stable_in.
Proof.
  split.
  - intros m w. unfold imp_New, the_importers, node_importers, newBlockImporter, db_stable_in.
    pose proof (newdb_stable (bm_height m) (iw_db w)) as Hn. destruct (newdb _ _) as [[b|e|] c]; [|by repeat split..].
    destruct (NewBlockImporter m b (iw_st w)) as [[u|e|] g] eqn:E; [|by repeat split..]. split; [split; [done|split; [done|]]|].
    + intros i h Hi. unfold made_at in *. simpl. rewrite lookup_app_l; [done|]. apply lookup_lt_is_Some. by destruct (iw_ims w !! i).
    + intros i [= <-]. unfold made_at. simpl. rewrite list_lookup_middle by done. simpl.
      apply NewBlockImporter_imported in E as [Hi _]. by rewrite (ip_m _ _ _ Hi).
  - intros. apply on_importer_quiet. intros. apply WriteItem_map.
  - intros. apply on_importer_quiet. intros. apply Save_map.
  - intros. apply on_importer_quiet. intros. apply Cancel_map.
  - intros i h w Hi. unfold imp_merge, the_importers, node_importers, merge_importer, db_stable_in. unfold made_at in Hi.
    destruct (iw_ims w !! i) as [im|]; [|done]. injection Hi as <-. pose proof (mergedb_stable (im_bwdb im) (iw_db w)) as Hs.
    destruct (mergedb _ _) as [[u|e|] c]; simpl; by rewrite ?app_nil_r.
Qed.
End node_importers.

(** ** Concrete data *)
#[local] Existing Instance demo_crypto.
#[local] Existing Instance demo_hash.
#[local] Existing Instance demo_block_crypto.
#[local] Instance without_receipts : Receipts := {| OperationReceipt := unit; receipt_IsValid := fun _ => Ok tt |}.
#[local] Instance import_codec : ItemCodec := {| Marshal_line := fun _ => Ok tt; file_checksum := fun f => match f with [_] => "c0" | _ => "c1" end; read_ahead := fun f => f |}.
#[local] Instance import_database : BlockWriteDatabase unit :=
  {| db_SetOperations := fun _ => mret tt; db_SetStates := fun _ => mret tt; db_SetBlockMap := fun _ => mret tt;
     db_SetSuffrageProof := fun _ => mret tt; db_SuffrageState := fun _ => None; db_Write := mret tt; db_Cancel := mret tt |}.
Definition import_init (h : Z) : Voteproof :=
  let f := INITBallotFact (demo_base "f" (NewStagePoint (RawPoint h 0) StageINIT) []) "prev" "pr" in
  demo_vp KINIT INITBallotSignFact f (Some f) DefaultThreshold ["n0"; "n1"; "n2"] [].
Definition import_accept (h : Z) : Voteproof :=
  let f := ACCEPTBallotFact (demo_base "f" (NewStagePoint (RawPoint h 0) StageACCEPT) []) "pr" "nb" in
  demo_vp KACCEPT ACCEPTBallotSignFact f (Some f) DefaultThreshold ["n0"; "n1"; "n2"] [].
Definition import_files (h : Z) (t : BlockItemType) : file :=
  if bool_decide (t = BlockItemProposal) then [LProposal {| bp_height := h; bp_fact := "pr"; bp_proposedAt := None |}]
  else [LHeader 0; LVoteproof (import_init h); LVoteproof (import_accept h)].
Definition import_demo (to : Z) : res unit * ImportWorld unit unit :=
  @ImportBlocks _ nat _ (node_importers (@rev _) 3 (fun _ => Ok tt) (fun _ _ => Ok tt) (fun _ => mret tt) (fun _ => mret tt)) (fun _ l => rev l)
    (fun h => mret (Some (demo_map h))) (fun h t => mret (Some (import_files h t))) None None 1 to 3
    {| iw_ims := []; iw_st := {| st_heights := ∅; st_items := ∅ |}; iw_db := tt; iw_merged := [] |}.

(** Seven blocks, of which the last is not lost; of nine, the last three are. *)
Lemma ImportBlocks_merges_witness :
  ((import_demo 7).1 = Ok tt /\ iw_merged (import_demo 7).2 = demo_map <$> [1; 2; 3; 4; 5; 6; 7]) /\
  (import_demo 9).1 = Ok tt /\ iw_merged (import_demo 9).2 = demo_map <$> [1; 2; 3; 4; 5; 6].
Proof.
  assert (forall n, 1 <= n < 100 -> forall r w, import_demo n = (r, w) ->
    exists k, 0 <= k <= n /\ iw_merged w = demo_map <$> seqZ 1 k /\ (r = Ok tt -> k = if n mod 3 =? 0 then n - 3 else n)) as Hall.
  { intros n Hn r w Hr.
    refine (@ImportBlocks_merges _ nat _ _ iw_merged made_at (db_stable_in (fun _ => True)) (node_importers_laws _ _ _ _ _ _ _ (fun _ _ _ => I) (fun _ _ _ => I)) (fun _ l => rev l) (fun _ l => symmetry (Permutation_rev l))
      (fun h => mret (Some (demo_map h))) (fun h t => mret (Some (import_files h t))) None None demo_map _ _ _ _ 1 n 3 [] _ n _ r w _ _ I Hr).
    - intros h x. split; [by split|]. by intros _ m [= <-].
    - by intros h t x.
    - by intros f x.
    - by intros f x.
    - lia.
    - lia.
    - done. }
  split.
  - destruct (import_demo 7) as [r w] eqn:E. assert (r = Ok tt) as -> by (apply (f_equal fst) in E; vm_compute in E; by rewrite <- E).
    split; [done|]. destruct (Hall 7 ltac:(lia) _ _ E) as (k & _ & Hw & Hk). simpl. rewrite Hw, (Hk eq_refl). reflexivity.
  - destruct (import_demo 9) as [r w] eqn:E. assert (r = Ok tt) as -> by (apply (f_equal fst) in E; vm_compute in E; by rewrite <- E).
    split; [done|]. destruct (Hall 9 ltac:(lia) _ _ E) as (k & _ & Hw & Hk). simpl. rewrite Hw, (Hk eq_refl). reflexivity.
Defined.

Definition one_import : Importing unit := (NewBlockImporter (demo_map 3) tt {| st_heights := ∅; st_items := ∅ |}).2.
Definition one_items : list (BlockItemType * file) :=
  [ (BlockItemVoteproofs, import_files 3 BlockItemVoteproofs); (BlockItemProposal, import_files 3 BlockItemProposal) ].
Definition one_written : Importing unit := (write_items (@rev _) 3 (fun _ => Ok tt) (fun _ _ => Ok tt) one_items one_import).2.
Definition one_saved : Importing unit := (im_Save one_written).2.
Lemma imported_block_checked_witness :
  exists d, st_heights (ig_st one_saved) !! 3 = Some d /\
    (forall t i, bm_items (demo_map 3) !! t = Some i -> exists f, d !! t = Some f /\ file_checksum f = bi_checksum i).
Proof.
  destruct (imported_block_checked (@rev _) 3 (fun _ => Ok tt) (fun _ _ => Ok tt) (demo_map 3) tt {| st_heights := ∅; st_items := ∅ |} one_items
    one_import one_written one_saved) as (d & Hd & _ & Hi & _).
  - split; [|vm_compute; reflexivity]. intros t i Hi. assert (bm_items (demo_map 3) = demo_items) as E by (vm_compute; reflexivity).
    rewrite E in Hi. unfold demo_items in Hi. apply lookup_insert_Some in Hi as [[<- <-]|[_ Hi]]; [done|].
    by apply lookup_singleton_Some in Hi as [<- <-].
  - vm_compute. repeat constructor; set_solver.
  - vm_compute. reflexivity.
  - vm_compute. reflexivity.
  - vm_compute. reflexivity.
  - exists d. split; [exact Hd|]. intros t i Ht. destruct (Hi t i Ht) as (f & f' & _ & Hf & Hc & _). exists f'. by split.
Defined.
