(* ===== verification/Syncer.v ===== *)
(** * Syncing blocks ([isaac/states/syncer.go])

    A syncer is told of heights; it brings the node to the highest of them: it checks
    its last block with the others, gets the block maps from there on in batches,
    checks that they make a chain ([BatchIsValidMaps]) and keeps them in a pool, and
    imports the blocks ([Importer.ImportBlocks] in a node).  The world [W] is that of
    the import; the maps of other nodes, the removal of a block and the import are
    parameters of the syncer, as they are of the source. *)
From S2P Require Import Prelude Point Vote Slice Ballot Voteproof LockedMap Batch Block Effects.

Open Scope Z_scope.

(** ** The pool of block maps ([isaac/database/temp_sync_mem.go]) *)
Class TempSyncPool (W : Type) := {
  pool_BlockMap : Z -> IO W (option BlockMap);
  pool_SetBlockMap : BlockMap -> IO W unit;
  pool_Cancel : IO W unit
}.
(** [MemTempSyncPool]; a closed one has no map. *)
Definition MemTempSyncPool : Type := option (gmap Z BlockMap).
Definition NewMemTempSyncPool : MemTempSyncPool := Some ∅.
Definition mem_BlockMap (h : Z) : IO MemTempSyncPool (option BlockMap) := gets (fun p : MemTempSyncPool => p ≫= fun m => m !! h).
Definition mem_SetBlockMap (m : BlockMap) : IO MemTempSyncPool unit := modify (fmap <[bm_height m := m]>).
Definition mem_Close : IO MemTempSyncPool unit := modify (fun _ => None).
(** A world with a pool in it. *)
Definition in_pool {W A} (m : IO MemTempSyncPool A) : IO (MemTempSyncPool * W) A := fun '(p, w) => let '(r, p) := m p in (r, (p, w)).
Definition mem_pool {W} : TempSyncPool (MemTempSyncPool * W) :=
  {| pool_BlockMap := fun h => in_pool (mem_BlockMap h); pool_SetBlockMap := fun m => in_pool (mem_SetBlockMap m); pool_Cancel := in_pool mem_Close |}.

(** ** Block maps in batches ([base/block.go]), with what the jobs do *)
Section maps.
Context `{Crypto} {X : Type}.
Variable sched : forall {J}, list J -> list J.
Variables (blockMapf : Z -> IO X BlockMap) (callback : BlockMap -> IO X unit).

Definition in_maps {A} (m : IO X A) : IO (batch_maps * X) A := fun '(s, x) => let '(r, x) := m x in (r, (s, x)).
(** Under [validateLock]. *)
Definition check_map (lastheight : Z) (m : BlockMap) : IO (batch_maps * X) unit := fun '(s, x) =>
  match IsValidMaps m (ch_slots s) (ch_lastprev s) with
  | Ok maps => (Ok tt, (Build_chain_state maps (ch_lastprev s) (if bm_height m =? lastheight then Some m else ch_newprev s), x))
  | Err e => (Err e, (s, x))
  | Panic => (Panic, (s, x))
  end.
Definition map_jobIO (prevheight : Z) (i last : Z) : IO (batch_maps * X) unit :=
  let height := wrap_s 64 (prevheight + i + 1) in
  let lastheight := wrap_s 64 (prevheight + last + 1) in
  in_maps (blockMapf height) ≫= fun m =>
  check_map lastheight m ≫= fun _ =>
  in_maps (callback m).
Definition next_batchIO (batchlimit last : Z) : IO (batch_maps * X) unit := fun '(s, x) =>
  match next_batch last batchlimit s with
  | Ok s => (Ok tt, (s, x))
  | Err e => (Err e, (s, x))
  | Panic => (Panic, (s, x))
  end.
Definition BatchIsValidMapsIO (prev : option BlockMap) (to batchlimit : Z) : IO X unit := fun x =>
  let prevheight := match prev with Some p => bm_height p | None => NilHeight end in
  let '(r, (_, x)) :=
    BatchWorkIO (@sched) (wrap_s 64 (to - prevheight)) batchlimit (next_batchIO batchlimit) (map_jobIO prevheight)
      (Build_chain_state [] None prev, x) in
  (r, x).
End maps.

(** ** Trying again ([util/retry.go]) *)
(** [f] tells whether to go on.  The context is done after [fuel] attempts. *)
Fixpoint retry {W} (fuel : nat) (i limit : Z) (lerr : option string) (f : IO W (bool * option string)) : IO W unit :=
  match fuel with
  | O => io_err "context canceled"
  | S fuel =>
      if i =? limit then io_err (match lerr with Some e => "stop retrying; over limit: " +:+ e | None => "stop retrying; over limit" end)
      else
        f ≫= fun '(keep, e) =>
        if keep : bool then retry fuel (wrap_s 64 (i + 1)) limit (match e with Some _ => e | None => lerr end) f
        else match e with Some e => io_err e | None => mret tt end
  end.
Definition RetryIO {W} (fuel : nat) (f : IO W (bool * option string)) (limit : Z) : IO W unit := retry fuel 0 limit None f.

(** ** The syncer *)
(** [checkedprevs] is a cache of another package. *)
Class CheckedPrevs (C : Type) := { cp_Exists : Z -> C -> bool; cp_Set : Z -> C -> C }.

(** [sy_startsyncch] has the heights on their way through the channel, each of a
    goroutine of its own; [sy_finishedch] those that were sent as finished. *)
Record Syncer (C : Type) := {
  sy_prevvalue : option BlockMap;
  sy_topvalue : Z;
  sy_isdonevalue : bool;
  sy_checkedprevs : C;
  sy_startsyncch : list Z;
  sy_finishedch : list Z;
  sy_doneerr : option string;
  sy_donech : nat;
  sy_lastheight : Z
}.
Arguments sy_prevvalue {C} _.
Arguments sy_topvalue {C} _.
Arguments sy_isdonevalue {C} _.
Arguments sy_checkedprevs {C} _.
Arguments sy_startsyncch {C} _.
Arguments sy_finishedch {C} _.
Arguments sy_doneerr {C} _.
Arguments sy_donech {C} _.
Arguments sy_lastheight {C} _.
Arguments Build_Syncer {C} _ _ _ _ _ _ _ _ _.

Section syncer.
Context `{Crypto} {C : Type} `{CheckedPrevs C}.
Implicit Types (s : Syncer C).

Definition height_of (m : option BlockMap) : Z := match m with Some m => bm_height m | None => NilHeight end.
Definition NewSyncer (prev : option BlockMap) (cache : C) : Syncer C :=
  {| sy_prevvalue := prev; sy_topvalue := height_of prev; sy_isdonevalue := false; sy_checkedprevs := cache; sy_startsyncch := [];
     sy_finishedch := []; sy_doneerr := None; sy_donech := 0; sy_lastheight := NilHeight |}.
Definition set_prev (m : option BlockMap) s : Syncer C :=
  {| sy_prevvalue := m; sy_topvalue := sy_topvalue s; sy_isdonevalue := sy_isdonevalue s; sy_checkedprevs := sy_checkedprevs s;
     sy_startsyncch := sy_startsyncch s; sy_finishedch := sy_finishedch s; sy_doneerr := sy_doneerr s; sy_donech := sy_donech s;
     sy_lastheight := sy_lastheight s |}.
Definition set_top (top : Z) (ch : list Z) s : Syncer C :=
  {| sy_prevvalue := sy_prevvalue s; sy_topvalue := top; sy_isdonevalue := sy_isdonevalue s; sy_checkedprevs := sy_checkedprevs s;
     sy_startsyncch := ch; sy_finishedch := sy_finishedch s; sy_doneerr := sy_doneerr s; sy_donech := sy_donech s;
     sy_lastheight := sy_lastheight s |}.
Definition set_done s : Syncer C :=
  {| sy_prevvalue := sy_prevvalue s; sy_topvalue := sy_topvalue s; sy_isdonevalue := true; sy_checkedprevs := sy_checkedprevs s;
     sy_startsyncch := sy_startsyncch s; sy_finishedch := sy_finishedch s; sy_doneerr := sy_doneerr s; sy_donech := sy_donech s;
     sy_lastheight := sy_lastheight s |}.
Definition set_checkedprevs (c : C) s : Syncer C :=
  {| sy_prevvalue := sy_prevvalue s; sy_topvalue := sy_topvalue s; sy_isdonevalue := sy_isdonevalue s; sy_checkedprevs := c;
     sy_startsyncch := sy_startsyncch s; sy_finishedch := sy_finishedch s; sy_doneerr := sy_doneerr s; sy_donech := sy_donech s;
     sy_lastheight := sy_lastheight s |}.
Definition set_finished (ch : list Z) s : Syncer C :=
  {| sy_prevvalue := sy_prevvalue s; sy_topvalue := sy_topvalue s; sy_isdonevalue := sy_isdonevalue s; sy_checkedprevs := sy_checkedprevs s;
     sy_startsyncch := sy_startsyncch s; sy_finishedch := ch; sy_doneerr := sy_doneerr s; sy_donech := sy_donech s;
     sy_lastheight := sy_lastheight s |}.
Definition set_doneerr (e : string) s : Syncer C :=
  {| sy_prevvalue := sy_prevvalue s; sy_topvalue := sy_topvalue s; sy_isdonevalue := sy_isdonevalue s; sy_checkedprevs := sy_checkedprevs s;
     sy_startsyncch := sy_startsyncch s; sy_finishedch := sy_finishedch s; sy_doneerr := Some e; sy_donech := S (sy_donech s);
     sy_lastheight := sy_lastheight s |}.
Definition set_lastheight (h : Z) s : Syncer C :=
  {| sy_prevvalue := sy_prevvalue s; sy_topvalue := sy_topvalue s; sy_isdonevalue := sy_isdonevalue s; sy_checkedprevs := sy_checkedprevs s;
     sy_startsyncch := sy_startsyncch s; sy_finishedch := sy_finishedch s; sy_doneerr := sy_doneerr s; sy_donech := sy_donech s;
     sy_lastheight := h |}.

Definition prevheight s : Z := height_of (sy_prevvalue s).
Definition Add (height : Z) s : Syncer C * bool :=
  if sy_isdonevalue s then (s, false)
  else if height <=? sy_topvalue s then (s, false)
  else (set_top height (sy_startsyncch s ++ [height]) s, true).
Definition IsFinished s : Z * bool := (sy_topvalue s, sy_topvalue s =? prevheight s).

(** *** Synchronizing *)
Context {W : Type} `{TempSyncPool W}.
Variable sched : forall {J}, list J -> list J.
Variable BatchLimit : Z.
(** What the other nodes answer, [RemovePrevBlockFunc], [NewImportBlocksFunc]. *)
Variables (BlockMapFunc : Z -> IO W (option BlockMap)) (RemovePrevBlockFunc : Z -> IO W bool).
Variable NewImportBlocksFunc : Z -> Z -> Z -> (Z -> IO W (option BlockMap)) -> IO W unit.
(** The attempts before the context of the syncer is done. *)
Variable attempts : nat.

Definition fetchMap (height : Z) : IO W BlockMap :=
  BlockMapFunc height ≫= fun m => match m with Some m => mret m | None => io_err "not found" end.
Definition checkPrevMap (prev : BlockMap) : IO W BlockMap :=
  fetchMap (bm_height prev) ≫= fun m =>
  if bool_decide (bm_hash prev = bm_hash m) then mret prev
  else
    RemovePrevBlockFunc (bm_height prev) ≫= fun removed =>
    if negb removed then io_err "previous manifest does not match with remotes" else mret m.

(** [last] is a variable of [prepareMaps]. *)
Definition in_last {A} (m : IO W A) : IO (W * option BlockMap) A := fun '(w, l) => let '(r, w) := m w in (r, (w, l)).
Definition keep_map (to : Z) (m : BlockMap) : IO (W * option BlockMap) unit :=
  in_last (pool_SetBlockMap m) ≫= fun _ =>
  if bm_height m =? to then modify (fun x => (x.1, Some m)) else mret tt.
Definition prepareMaps (prev : option BlockMap) (to : Z) : IO W (option BlockMap) := fun w =>
  match BatchIsValidMapsIO (@sched) (fun h => in_last (fetchMap h)) (keep_map to) prev to BatchLimit (w, None) with
  | (Ok _, (w, last)) => (Ok last, w)
  | (Err e, (w, _)) => (Err e, w)
  | (Panic, (w, _)) => (Panic, w)
  end.
(** An error of the import is kept for later. *)
Definition import_again (from to : Z) : IO W (bool * option string) :=
  io_try (NewImportBlocksFunc from to BatchLimit pool_BlockMap) ≫= fun r =>
  mret (match r with Err e => (true, Some e) | _ => (false, None) end).
Definition syncBlocks (prev : option BlockMap) (to : Z) : IO W unit :=
  let from := match prev with Some p => wrap_s 64 (bm_height p + 1) | None => GenesisHeight end in
  RetryIO attempts (import_again from to) (-1).
Definition doSync (prev : option BlockMap) (to : Z) : IO W (option BlockMap) :=
  prepareMaps prev to ≫= fun newprev =>
  syncBlocks prev to ≫= fun _ =>
  mret newprev.

(** *** With the state of the syncer *)
Abbreviation SY := (IO (Syncer C * W)).
Definition on_world {A} (m : IO W A) : SY A := fun '(s, w) => let '(r, w) := m w in (r, (s, w)).
Definition on_syncer (f : Syncer C -> Syncer C) : SY unit := modify (fun x => (f x.1, x.2)).

(** What is under the lock of [prevvalue]. *)
Definition check_prev : SY (option BlockMap) :=
  gets fst ≫= fun s =>
  match sy_prevvalue s with
  | None => mret None
  | Some i =>
      if cp_Exists (bm_height i) (sy_checkedprevs s) then mret (Some i)
      else
        on_world (checkPrevMap i) ≫= fun newprev =>
        on_syncer (fun s => set_prev (Some newprev) (set_checkedprevs (cp_Set (bm_height i) (sy_checkedprevs s)) s)) ≫= fun _ =>
        mret (Some newprev)
  end.
(** [sync] up to the new previous map: what comes in between is that of [Add]. *)
Definition sync_blocks (to : Z) : SY (option (option BlockMap)) :=
  check_prev ≫= fun prev =>
  if match prev with Some p => to <=? bm_height p | None => false end then mret None
  else on_world (doSync prev to) ≫= fun newprev => mret (Some newprev).
Definition sync_end (newprev : option BlockMap) : SY unit :=
  on_syncer (set_prev newprev) ≫= fun _ =>
  match newprev with
  | None => io_panic
  | Some m =>
      on_syncer (fun s =>
        let top := sy_topvalue s in
        if bm_height m =? top then set_finished (sy_finishedch s ++ [top]) s
        else if bm_height m <? top then set_top top (sy_startsyncch s ++ [top]) s
        else s)
  end.
Definition sync (to : Z) : SY unit :=
  sync_blocks to ≫= fun newprev => match newprev with None => mret tt | Some m => sync_end m end.

(** [donewitherror]: after an error nothing is done, and that is no error. *)
Definition donewitherror (f : SY unit) : SY unit :=
  gets (fun x => sy_doneerr x.1) ≫= fun i =>
  match i with
  | Some _ => mret tt
  | None =>
      io_try f ≫= fun r =>
      match r with Err e => on_syncer (set_doneerr e) ≫= fun _ => io_err e | _ => mret tt end
  end.
(** A height that [start] takes from the channel. *)
Definition start_height (height : Z) : SY unit :=
  gets fst ≫= fun s =>
  if height <=? sy_lastheight s then mret tt
  else
    on_syncer (set_lastheight height) ≫= fun _ =>
    donewitherror (sync height).

(** [updateLastBlockMap], at a tick; [LastBlockMapFunc] asks the other nodes. *)
Variable LastBlockMapFunc : option Hash -> IO W (option BlockMap).
Definition updateLastBlockMap (last : option Hash) : SY (option Hash) :=
  io_try (on_world (LastBlockMapFunc last)) ≫= fun r =>
  match r with
  | Ok (Some m) => on_syncer (fun s => (Add (bm_height m) s).1) ≫= fun _ => mret (bm_hash m)
  | _ => mret last
  end.
(** [Cancel], once the daemon is stopped. *)
Definition Cancel : SY unit :=
  on_syncer set_done ≫= fun _ =>
  io_try (on_world pool_Cancel) ≫= fun _ => mret tt.

(** *** Steps
    What the daemon does with a height is in two parts, [sync_blocks] and [sync_end];
    others may add heights before, between and after them.  A height may come out of
    the channel before an older one.  [sy_run] is what [sync_blocks] left. *)
Record SyncState := { sy_s : Syncer C; sy_w : W; sy_run : option (option BlockMap) }.
Definition received (l : list Z) s : Syncer C := set_top (sy_topvalue s) l s.
Definition running s : bool := negb (sy_isdonevalue s) && bool_decide (sy_doneerr s = None).
Inductive sync_step : SyncState -> SyncState -> Prop :=
  | step_add h s w r : h < 2 ^ 63 - 1 -> sync_step (Build_SyncState s w r) (Build_SyncState (Add h s).1 w r)
  | step_old h l1 l2 s w : running s = true -> sy_startsyncch s = l1 ++ h :: l2 -> h <= sy_lastheight s ->
      sync_step (Build_SyncState s w None) (Build_SyncState (received (l1 ++ l2) s) w None)
  | step_sync h l1 l2 s w newprev s' w' : running s = true -> sy_startsyncch s = l1 ++ h :: l2 -> sy_lastheight s < h ->
      sync_blocks h (set_lastheight h (received (l1 ++ l2) s), w) = (Ok newprev, (s', w')) ->
      sync_step (Build_SyncState s w None) (Build_SyncState s' w' newprev)
  | step_fail h l1 l2 s w e s' w' : running s = true -> sy_startsyncch s = l1 ++ h :: l2 -> sy_lastheight s < h ->
      sync_blocks h (set_lastheight h (received (l1 ++ l2) s), w) = (Err e, (s', w')) ->
      sync_step (Build_SyncState s w None) (Build_SyncState (set_doneerr e s') w' None)
  | step_end newprev s w s' w' : sync_end newprev (s, w) = (Ok tt, (s', w')) ->
      sync_step (Build_SyncState s w (Some newprev)) (Build_SyncState s' w' None)
  | step_cancel s w s' w' : Cancel (s, w) = (Ok tt, (s', w')) ->
      sync_step (Build_SyncState s w None) (Build_SyncState s' w' None).

(** A height that the daemon takes, all at once. *)
Lemma start_height_steps h l1 l2 s w r s' w' : running s = true -> sy_startsyncch s = l1 ++ h :: l2 ->
  start_height h (received (l1 ++ l2) s, w) = (r, (s', w')) -> r <> Panic ->
  rtc sync_step (Build_SyncState s w None) (Build_SyncState s' w' None).
Proof.
  intros Hrun Hch Hs Hr. unfold start_height, mbind, io_bind, gets in Hs. simpl in Hs.
  destruct (Z.leb_spec h (sy_lastheight s)) as [Hle|Hlt].
  { injection Hs as <- <- <-. apply rtc_once. by eapply step_old. }
  unfold running in Hrun. apply andb_true_iff in Hrun as [Hdone Herr]. apply bool_decide_eq_true in Herr.
  unfold donewitherror, mbind, io_bind, gets, io_try in Hs. simpl in Hs. rewrite Herr in Hs.
  assert (running s = true) as Hrun by (unfold running; by rewrite Hdone, (bool_decide_eq_true_2 _ Herr)).
  destruct (sync h _) as [rs [s1 w1]] eqn:E. unfold sync, mbind, io_bind in E.
  destruct (sync_blocks h _) as [[[np|]|e|] [s2 w2]] eqn:Eb.
  - eapply rtc_l; [by eapply step_sync|]. destruct (sync_end np (s2, w2)) as [re [s3 w3]] eqn:Ee. injection E as <- <- <-.
    destruct re as [[]|e|]; [|exfalso|].
    + injection Hs as <- <- <-. apply rtc_once. by apply step_end.
    + unfold sync_end, mbind, io_bind in Ee. simpl in Ee. by destruct np.
    + by injection Hs as <-.
  - injection E as <- <- <-. injection Hs as <- <- <-. apply rtc_once. by eapply step_sync.
  - injection E as <- <- <-. injection Hs as <- <- <-. apply rtc_once. by eapply step_fail.
  - injection E as <- <- <-. by injection Hs as <-.
Qed.
End syncer.
