(* ===== verification/SyncerLaws.v ===== *)
(** * What a sync gives

    The proofs about [Syncer]: the maps of a sync make a chain from the last block of
    the node to the height it was asked for, the blocks that reach the database are
    those of the chain, and a height that was added is not forgotten. *)
From S2P Require Import Prelude Point Vote Slice Ballot Voteproof LockedMap Batch Block SuffrageProof Tempdb Effects LocalFS Writer Importer ImporterLaws Syncer.

Open Scope Z_scope.

(** ** Chains of block maps *)
Section chain.
Context `{Crypto}.

Fixpoint chain (prev : option BlockMap) (ms : list BlockMap) : Prop :=
  match ms with
  | [] => True
  | m :: ms => match prev with Some p => follows m p | None => True end /\ chain (Some m) ms
  end.
Definition chain_end (prev : option BlockMap) (ms : list BlockMap) : option BlockMap :=
  match last ms with Some m => Some m | None => prev end.

Lemma chain_end_cons prev m ms : chain_end prev (m :: ms) = chain_end (Some m) ms.
Proof. unfold chain_end. rewrite last_cons. by destruct (last ms). Qed.
Lemma chain_app prev ms1 ms2 : chain prev (ms1 ++ ms2) <-> chain prev ms1 /\ chain (chain_end prev ms1) ms2.
Proof.
  revert prev. induction ms1 as [|m ms1 IH]; intros prev; [simpl; tauto|]. simpl. rewrite IH, chain_end_cons. tauto.
Qed.
Lemma chain_end_app prev ms1 ms2 : chain_end prev (ms1 ++ ms2) = chain_end (chain_end prev ms1) ms2.
Proof. unfold chain_end. rewrite last_app. by destruct (last ms2), (last ms1). Qed.
Lemma chain_of_links prev ms :
  (forall m, ms !! 0%nat = Some m -> first_map prev m = Ok tt) ->
  (forall k a b, ms !! k = Some a -> ms !! S k = Some b -> link_maps a b = Ok tt) -> chain prev ms.
Proof.
  revert prev. induction ms as [|m ms IH]; intros prev Hf Hl; [done|]. split.
  - specialize (Hf m eq_refl). destruct prev as [p|]; [|done]. by apply IsValidManifests_ok.
  - apply IH.
    + intros m' Hm. by apply (Hl 0%nat m m').
    + intros k a b Ha Hb. by apply (Hl (S k)).
Qed.

(** *** The slots of a batch *)
Record slots_ok (pv : option BlockMap) (h0 : Z) (done : list nat) (sl : list (option BlockMap)) : Prop := {
  so_height k m : sl !! k = Some (Some m) -> bm_height m = h0 + Z.of_nat k;
  so_done k : k ∈ done -> exists m, sl !! k = Some (Some m);
  so_first m : sl !! 0%nat = Some (Some m) -> first_map pv m = Ok tt;
  so_link k a b : sl !! k = Some (Some a) -> sl !! S k = Some (Some b) -> link_maps a b = Ok tt
}.
Lemma slots_ok_new pv h0 n : slots_ok pv h0 [] (replicate n None).
Proof. by split; [intros k m Hk|intros k Hk%elem_of_nil|intros m Hk|intros k a b Hk]; try apply lookup_replicate in Hk as [? _]. Qed.
Lemma slots_ok_put pv h0 done sl i m sl1 : slots_ok pv h0 done sl -> (i < length sl)%nat -> bm_height m = h0 + Z.of_nat i ->
  put_slot (first_map pv) link_maps sl i m = Ok sl1 -> sl1 = <[i := Some m]> sl /\ slots_ok pv h0 (done ++ [i]) sl1.
Proof.
  intros [Hh Hd Hf Hl] Hi Hm. unfold put_slot. intros (Hleft & (Hright & [= <-])%bind_err_ok)%bind_err_ok. split; [done|].
  assert (forall j o, <[i := Some m]> sl !! j = Some o -> (j = i /\ o = Some m) \/ (j <> i /\ sl !! j = Some o)) as Hins.
  { intros j o [(<- & <- & _)|[? Ho]]%list_lookup_insert_Some; [by left|by right]. }
  split.
  - intros k m' [[-> [= ->]]|[_ Hk]]%Hins; [done|by apply Hh].
  - intros k Hk. destruct (decide (k = i)) as [->|Hne]; [exists m; by rewrite list_lookup_insert_eq|].
    rewrite list_lookup_insert_ne by done. apply Hd. set_solver.
  - intros m' [[<- [= ->]]|[_ Hk]]%Hins; [exact Hleft|by apply Hf].
  - intros k a b [[-> [= ->]]|[Hne Ha]]%Hins Hb.
    + unfold check_right in Hright. by rewrite Hb in Hright.
    + apply Hins in Hb as [[<- [= ->]]|[_ Hb]]; [|by eapply Hl].
      unfold check_left in Hleft. rewrite list_lookup_insert_ne in Hleft by done. by rewrite Ha in Hleft.
Qed.
Lemma slots_ok_full pv h0 done sl : slots_ok pv h0 done sl -> (forall k, (k < length sl)%nat -> k ∈ done) ->
  exists ms, sl = Some <$> ms /\ chain pv ms /\ forall k m, ms !! k = Some m -> bm_height m = h0 + Z.of_nat k.
Proof.
  intros [Hh Hd Hf Hl] Hall. destruct (list_fmap_inj_exists sl) as [ms ->].
  { intros i o Ho. destruct (Hd i) as [m Hm]; [apply Hall; by eapply lookup_lt_Some|]. exists m. congruence. }
  assert (forall k m, ms !! k = Some m -> (Some <$> ms) !! k = Some (Some m)) as Hk by (intros k m Hm; by rewrite list_lookup_fmap, Hm).
  exists ms. split; [done|]. split; [|by auto]. apply chain_of_links; [by auto|]. intros k a b Ha Hb. by apply (Hl k); auto.
Qed.
End chain.

(** ** Block maps in batches *)
Section batched.
Context `{Crypto} {X : Type}.
Variable sched : forall {J}, list J -> list J.
Hypothesis sched_perm : forall J (l : list J), sched l ≡ₚ l.
Variables (blockMapf : Z -> IO X BlockMap) (callback : BlockMap -> IO X unit).
(** What is kept, what is left after an error, and the maps that [callback] keeps. *)
Variables (R Q : X -> Prop) (has : X -> Z -> option BlockMap).
Hypothesis R_Q : forall x, R x -> Q x.
Hypothesis blockMapf_ok : forall h x, R x ->
  match blockMapf h x with (Ok m, x') => R x' /\ (forall h', has x' h' = has x h') /\ bm_height m = h | (_, x') => Q x' end.
Hypothesis callback_ok : forall m x, R x ->
  match callback m x with
  | (Ok _, x') => R x' /\ forall h, has x' h = if decide (h = bm_height m) then Some m else has x h
  | (_, x') => Q x'
  end.
Variables (prev : option BlockMap) (size limit : Z).
Abbreviation ph := (height_of prev).
Hypothesis bounds : -1 <= ph /\ (forall p, prev = Some p -> 0 <= bm_height p) /\ ph + size < 2 ^ 63 - 1 /\ 1 <= size /\ 1 <= limit < 2 ^ 63.

(** The maps of the heights after [ph]. *)
Definition maps_at (x : X) (ms : list BlockMap) : Prop :=
  forall k m, ms !! k = Some m -> bm_height m = ph + 1 + Z.of_nat k /\ has x (bm_height m) = Some m.
Definition chained (x : X) (i : Z) (ms : list BlockMap) : Prop := length ms = Z.to_nat i /\ chain prev ms /\ maps_at x ms.
Definition at_batch (i : Z) (y : batch_maps * X) : Prop :=
  R y.2 /\ exists ms, chained y.2 i ms /\ ch_newprev y.1 = chain_end prev ms.
Definition in_batch (i e : Z) (done : list Z) (y : batch_maps * X) : Prop :=
  R y.2 /\ exists ms, chained y.2 i ms /\ ch_lastprev y.1 = chain_end prev ms /\ length (ch_slots y.1) = Z.to_nat (e - i) /\
    slots_ok (chain_end prev ms) (ph + 1 + i) ((fun n => Z.to_nat (n - i)) <$> done) (ch_slots y.1) /\
    (forall k m, ch_slots y.1 !! k = Some (Some m) -> has y.2 (bm_height m) = Some m) /\
    ch_newprev y.1 = match ch_slots y.1 !! Z.to_nat (e - i - 1) with Some (Some m) => Some m | _ => chain_end prev ms end.

Lemma before_end x i ms : 0 <= i -> chained x i ms -> before (chain_end prev ms) (ph + 1 + i).
Proof.
  intros Hi (Hlen & _ & Hms). unfold chain_end. destruct (last ms) as [m|] eqn:E.
  - rewrite last_lookup in E. pose proof (lookup_lt_Some _ _ _ E). apply Hms in E as [E _]. simpl. lia.
  - apply last_None in E as ->. simpl in Hlen. assert (i = 0) as -> by lia. destruct bounds as (Hp & Hpos & _).
    destruct prev as [p|]; simpl; [split; [by apply Hpos|lia]|]. unfold NilHeight. lia.
Qed.

Lemma next_batch_ok i e : batch_of size limit i e ->
  triple (at_batch i) (next_batchIO limit (e - 1)) (fun _ => in_batch i e []) (fun y => Q y.2).
Proof.
  intros Hb [s x] [HR (ms & Hc & Hn)]. simpl in *. unfold next_batchIO.
  rewrite (next_batch_slots size limit i e s) by (done || lia). split; [done|]. exists ms. simpl. rewrite length_replicate, Hn.
  split; [done|]. split; [done|]. split; [done|]. split; [apply slots_ok_new|]. split.
  - intros k m Hk. by apply lookup_replicate in Hk as [? _].
  - destruct (replicate _ _ !! _) as [[m|]|] eqn:E; [|done..]. by apply lookup_replicate in E as [? _].
Qed.

(** A map that is checked, put into its slot. *)
Lemma check_map_ok i e done n last (m : BlockMap) s x s1 : batch_of size limit i e -> i <= n < e -> last = ph + (e - 1) + 1 ->
  bm_height m = ph + n + 1 -> in_batch i e done (s, x) -> check_map last m (s, x) = (Ok tt, (s1, x)) ->
  exists ms, chained x i ms /\ ch_lastprev s1 = chain_end prev ms /\ length (ch_slots s1) = Z.to_nat (e - i) /\
    slots_ok (chain_end prev ms) (ph + 1 + i) ((fun n => Z.to_nat (n - i)) <$> (done ++ [n])) (ch_slots s1) /\
    (forall k m', ch_slots s1 !! k = Some (Some m') -> m' = m \/ k <> Z.to_nat (n - i) /\ has x (bm_height m') = Some m') /\
    ch_newprev s1 = match ch_slots s1 !! Z.to_nat (e - i - 1) with Some (Some m) => Some m | _ => chain_end prev ms end.
Proof.
  intros (Hi & He & _) Hn -> Hm [HR (ms & Hc & Hlast & Hlen & Hsl & Hhas & Hnew)] Hk. simpl in *. exists ms. unfold check_map in Hk.
  rewrite (IsValidMaps_put (ch_lastprev s) (ph + 1 + i) (Z.to_nat (n - i)) m) in Hk; try lia.
  2: { rewrite Hlast. apply (before_end x); [lia|done]. }
  destruct (put_slot _ _ _ _ _) as [sl|er|] eqn:Ep; [|done..]. injection Hk as <-. simpl. rewrite Hlast in Ep.
  destruct (slots_ok_put _ _ _ _ (Z.to_nat (n - i)) m sl Hsl ltac:(lia) ltac:(lia) Ep) as [-> Hsl']. rewrite length_insert, fmap_app.
  split; [done|]. split; [done|]. split; [done|]. split; [done|]. split.
  - intros k m' [(_ & [= ->] & _)|[? Hk]]%list_lookup_insert_Some; [by left|right; split; [by apply not_eq_sym|by eapply Hhas]].
  - rewrite Hnew. destruct (Z.eqb_spec (bm_height m) (ph + (e - 1) + 1)) as [E|E].
    + replace (Z.to_nat (n - i)) with (Z.to_nat (e - i - 1)) by lia. by rewrite list_lookup_insert_eq by lia.
    + by rewrite list_lookup_insert_ne by lia.
Qed.

(** No other map has the height of one of the chain. *)
Lemma chained_keep x x' i ms (m : BlockMap) : chained x i ms ->
  (forall h, has x' h = if decide (h = bm_height m) then Some m else has x h) -> ph + i < bm_height m -> chained x' i ms.
Proof.
  intros (Hlen & Hc & Hms) Hx Hm. split; [done|]. split; [done|]. intros k m' Hk. pose proof (lookup_lt_Some _ _ _ Hk).
  destruct (Hms k m' Hk) as [Hh Hhas]. split; [done|]. rewrite Hx, decide_False by lia. done.
Qed.
Lemma chained_ext x x' i ms : chained x i ms -> (forall h, has x' h = has x h) -> chained x' i ms.
Proof. intros (Hlen & Hc & Hms) Hx. split; [done|]. split; [done|]. intros k m Hk. rewrite Hx. by apply Hms. Qed.

Lemma map_jobIO_ok i e done n : batch_of size limit i e -> i <= n < e ->
  triple (in_batch i e done) (map_jobIO blockMapf callback ph n (e - 1)) (fun _ => in_batch i e (done ++ [n])) (fun y => Q y.2).
Proof.
  intros Hb Hn [s x] Hin. pose proof Hb as (Hi & He & _). unfold map_jobIO.
  rewrite (wrap_s_small 64 (ph + n + 1)) by (change (64 - 1) with 63; lia).
  rewrite (wrap_s_small 64 (ph + (e - 1) + 1)) by (change (64 - 1) with 63; lia).
  unfold mbind, io_bind, in_maps at 1. pose proof (blockMapf_ok (ph + n + 1) x (proj1 Hin)) as Hg.
  destruct (blockMapf (ph + n + 1) x) as [[m|er|] x1]; [|done..]. destruct Hg as (HR & Hsame & Hm).
  assert (in_batch i e done (s, x1)) as Hin1.
  { destruct Hin as [_ (ms & Hc & H2 & H3 & H4 & H5 & H6)]. split; [done|]. exists ms. simpl in *. split; [by eapply chained_ext|].
    split_and!; try done. intros k m' Hk. rewrite Hsame. by eapply H5. }
  destruct (check_map (ph + (e - 1) + 1) m (s, x1)) as [r y] eqn:Ec. assert (y.2 = x1) as Hy.
  { unfold check_map in Ec. destruct (IsValidMaps _ _ _); by injection Ec as _ <-. }
  destruct y as [s1 x']. simpl in Hy. subst x'. destruct r as [[]|er|]; [|by apply R_Q..].
  destruct (check_map_ok _ _ _ _ _ _ _ _ _ Hb Hn eq_refl Hm Hin1 Ec) as (ms & Hc & Hlast & Hlen & Hsl & Hhas & Hnew).
  unfold in_maps. pose proof (callback_ok m x1 HR) as Hcb. destruct (callback m x1) as [[[]|er|] x2]; [|done..].
  destruct Hcb as [HR2 Hx2]. split; [done|]. exists ms. simpl. split; [eapply chained_keep; [done..|lia]|]. split_and!; try done.
  intros k m' Hk. rewrite Hx2. destruct (Hhas k m' Hk) as [->|[Hk' Hm']]; [by rewrite decide_True|].
  pose proof (so_height _ _ _ _ Hsl k m' Hk). by rewrite decide_False by lia.
Qed.

Lemma in_batch_perm i e l l' y : l ≡ₚ l' -> in_batch i e l y -> in_batch i e l' y.
Proof.
  intros Hp [HR (ms & Hc & H2 & H3 & [S1 S2 S3 S4] & H5 & H6)]. split; [done|]. exists ms. split_and!; try done.
  split; try done. intros k Hk. apply S2. by rewrite Hp.
Qed.
Lemma batch_done i e y : batch_of size limit i e -> in_batch i e (seqZ i (e - i)) y -> at_batch e y.
Proof.
  intros (Hi & He & _) [HR (ms & Hc & Hl & Hlen & Hsl & Hhas & Hnew)]. split; [done|].
  destruct (slots_ok_full _ _ _ _ Hsl) as (ms2 & E & Hc2 & Hh2).
  { intros k Hk. apply list_elem_of_fmap. exists (i + Z.of_nat k). split; [lia|]. apply elem_of_seqZ. lia. }
  rewrite E in Hlen, Hhas, Hnew. rewrite length_fmap in Hlen. destruct Hc as (Hlen1 & Hc1 & Hms).
  exists (ms ++ ms2). split; [split; [rewrite length_app; lia|]; split; [by apply chain_app|]|].
  - intros k m [Hk|[Hk Hm]]%lookup_app_Some; [by apply Hms|]. split.
    + rewrite (Hh2 _ _ Hm). lia.
    + apply (Hhas (k - length ms)%nat). by rewrite list_lookup_fmap, Hm.
  - rewrite Hnew, chain_end_app. rewrite list_lookup_fmap. unfold chain_end. rewrite (last_lookup ms2).
    replace (Z.to_nat (e - i - 1)) with (pred (length ms2)) by lia. by destruct (ms2 !! pred (length ms2)).
Qed.
Lemma BatchIsValidMapsIO_ok to : to = ph + size ->
  triple R (BatchIsValidMapsIO (@sched) blockMapf callback prev to limit) (fun _ x => R x /\ exists ms, chained x size ms) Q.
Proof.
  intros -> x HR. unfold BatchIsValidMapsIO. change (match prev with Some p => bm_height p | None => NilHeight end) with ph.
  replace (ph + size - ph) with size by lia. rewrite wrap_s_small by (change (64 - 1) with 63; lia).
  assert (triple (at_batch 0) (BatchWorkIO (@sched) size limit (next_batchIO limit) (map_jobIO blockMapf callback ph))
    (fun _ => at_batch size) (fun y => Q y.2)) as Ht.
  { apply (BatchWorkIO_triple (@sched)); [lia|lia|]. intros ws i e Hws Hb. unfold batch_stepIO.
    eapply (triple_bind _ _ _ (fun _ => in_batch i e [])); [by apply next_batch_ok|]. intros [].
    refine (triple_weaken _ _ _ _ _ _ _
      (RunWorkerIO_triple (@sched) sched_perm ws (seqZ i (e - i)) _ (in_batch i e) (fun y => Q y.2) Hws _ _) (fun _ x => x) _ (fun _ x => x)).
    - intros done n Hn%elem_of_seqZ. apply map_jobIO_ok; [done|lia].
    - intros l y Hp. by apply in_batch_perm.
    - intros [] y. by apply batch_done. }
  specialize (Ht (Build_chain_state [] None prev, x)). destruct (BatchWorkIO _ _ _ _ _ _) as [[[]|er|] [s' x']]; simpl in Ht.
  all: assert (at_batch 0 (Build_chain_state [] None prev, x)) as H0 by (split; [done|by exists []]).
  - destruct (Ht H0) as [HR' (ms & Hc & _)]. split; [done|]. by exists ms.
  - by apply Ht.
  - by apply Ht.
Qed.
End batched.

(** ** A sync, with the import of blocks *)
Definition consecutive (ms : list BlockMap) : Prop :=
  forall k a b, ms !! k = Some a -> ms !! S k = Some b -> bm_height b = bm_height a + 1.

(** [ready] is what the database keeps; it refuses a block that is not the next
    ([Center.MergeBlockWriteDatabase]), so that what is merged has no gap. *)
Section sync.
Context `{Crypto} {W I : Type} `{BlockImporters W I, TempSyncPool W} (merged : W -> list BlockMap) (made : I -> W -> option BlockMap).
Variables (ready : W -> Prop) (pool_has : W -> Z -> option BlockMap).
Definition pool_at (F : Z -> option BlockMap) (w : W) : Prop := ready w /\ forall h, pool_has w h = F h.
Hypothesis importers : forall F, BlockImportersLaws W I merged made (pool_at F).
Hypothesis ready_ordered : forall w, ready w -> consecutive (merged w).
Variable sched : forall {J}, list J -> list J.
Hypothesis sched_perm : forall J (l : list J), sched l ≡ₚ l.
Variables (BlockMapFunc : Z -> IO W (option BlockMap)) (blockItemf : Z -> BlockItemType -> IO W (option file)).
Variables (setLast mergedb : option (IO W unit)).
Variables (limit : Z) (attempts : nat).

(** Nothing but the importers changes what is merged. *)
Definition still (w w' : W) : Prop := forall F, @quiet _ _ _ _ _ _ _ (importers F) w w'.
Hypothesis pool_get : forall h w, still w (pool_BlockMap h w).2 /\ forall m, (pool_BlockMap h w).1 = Ok (Some m) -> pool_has w h = Some m.
Hypothesis pool_set : forall m w, ready w -> ready (pool_SetBlockMap m w).2 /\ merged (pool_SetBlockMap m w).2 = merged w /\
  ((pool_SetBlockMap m w).1 = Ok tt -> forall h, pool_has (pool_SetBlockMap m w).2 h = if decide (h = bm_height m) then Some m else pool_has w h).
(** A map comes for the height that was asked for. *)
Hypothesis BlockMapFunc_ok : forall h w, still w (BlockMapFunc h w).2 /\ forall m, (BlockMapFunc h w).1 = Ok (Some m) -> bm_height m = h.
Hypothesis blockItemf_ok : forall h t w, still w (blockItemf h t w).2.
Hypothesis setLast_ok : forall f w, setLast = Some f -> still w (f w).2.
Hypothesis mergedb_ok : forall f w, mergedb = Some f -> still w (f w).2.

Definition import_blocks (from to limit : Z) (mapf : Z -> IO W (option BlockMap)) : IO W unit :=
  ImportBlocks (@sched) mapf blockItemf setLast mergedb from to limit.

Lemma still_pool w w' : still w w' -> ready w -> ready w' /\ merged w' = merged w /\ forall h, pool_has w' h = pool_has w h.
Proof.
  intros Hs Hr. destruct (Hs (pool_has w)) as (Hm & Hst & _). destruct (Hst (conj Hr (fun _ => eq_refl))) as [Hr' Hp]. done.
Qed.

(** *** The maps *)
Section prepare.
Variables (prev : option BlockMap) (size : Z) (ms : list BlockMap).
Abbreviation ph := (height_of prev).
Abbreviation to := (ph + size).
Hypothesis prepare_bounds : -1 <= ph /\ (forall p, prev = Some p -> 0 <= bm_height p) /\ ph + size < 2 ^ 63 - 1 /\ 1 <= size /\ 1 <= limit < 2 ^ 63.

Definition untouched (x : W * option BlockMap) : Prop := ready x.1 /\ merged x.1 = ms.
Definition prep (x : W * option BlockMap) : Prop := untouched x /\ forall m, x.2 = Some m -> pool_has x.1 to = Some m.
Definition prep_has (x : W * option BlockMap) (h : Z) : option BlockMap := if h =? to then x.2 else pool_has x.1 h.

Lemma prep_fetch h x : prep x ->
  match in_last (fetchMap BlockMapFunc h) x with
  | (Ok m, x') => prep x' /\ (forall h', prep_has x' h' = prep_has x h') /\ bm_height m = h
  | (_, x') => untouched x'
  end.
Proof.
  destruct x as [w l]. intros [[Hr Hm] Hl]. simpl in *. unfold in_last, fetchMap, mbind, io_bind.
  destruct (BlockMapFunc_ok h w) as [Hs Hh]. destruct (still_pool _ _ Hs Hr) as (Hr' & Hm' & Hp).
  destruct (BlockMapFunc h w) as [[[m|]|er|] w']; simpl in *; try (split; [done|]; simpl; congruence).
  split; [split; [split; [done|]; simpl; congruence|]; intros m' E; simpl; rewrite Hp; by apply Hl|]. split; [|by apply Hh].
  intros h'. unfold prep_has. simpl. by rewrite Hp.
Qed.
Lemma prep_keep m x : prep x ->
  match keep_map to m x with
  | (Ok _, x') => prep x' /\ forall h, prep_has x' h = if decide (h = bm_height m) then Some m else prep_has x h
  | (_, x') => untouched x'
  end.
Proof.
  destruct x as [w l]. intros [[Hr Hm] Hl]. simpl in *. unfold keep_map, in_last, mbind, io_bind.
  destruct (pool_set m w Hr) as (Hr' & Hm' & Hp). destruct (pool_SetBlockMap m w) as [[[]|er|] w'] eqn:E; simpl in *; try (split; simpl; congruence).
  specialize (Hp eq_refl). destruct (Z.eqb_spec (bm_height m) to) as [Eh|Eh]; simpl.
  - split; [split; [split; simpl; congruence|]|].
    + intros m' [= <-]. simpl. rewrite Hp. by rewrite decide_True.
    + intros h. unfold prep_has. simpl. rewrite Hp, Eh. destruct (Z.eqb_spec h to); by case_decide.
  - split; [split; [split; simpl; congruence|]|].
    + intros m' El. simpl in *. rewrite Hp, decide_False by done. by apply Hl.
    + intros h. unfold prep_has. simpl. rewrite Hp. destruct (Z.eqb_spec h to); [|done]. by rewrite decide_False by lia.
Qed.

(** The maps of the range in the pool, the last of them the new previous map. *)
Lemma prepareMaps_ok : triple (fun w => ready w /\ merged w = ms) (prepareMaps (@sched) limit BlockMapFunc prev to)
  (fun newprev w => (ready w /\ merged w = ms) /\ exists maps, length maps = Z.to_nat size /\ chain prev maps /\ newprev = last maps /\
     forall k m, maps !! k = Some m -> bm_height m = ph + 1 + Z.of_nat k /\ pool_has w (bm_height m) = Some m)
  (fun w => ready w /\ merged w = ms).
Proof.
  intros w [Hr Hm]. unfold prepareMaps. assert (prep (w, None)) as H0w by (by split; [split|intros m]).
  pose proof (BatchIsValidMapsIO_ok (@sched) sched_perm _ _ prep untouched prep_has (fun _ Hp => proj1 Hp) prep_fetch prep_keep prev size limit
    prepare_bounds to eq_refl (w, None)) as Ht.
  destruct (BatchIsValidMapsIO _ _ _ _ _ _ _) as [[[]|er|] [w' l]]; [|by apply Ht..].
  destruct Ht as [[[Hr' Hm'] Hl] (maps & Hlen & Hc & Hms)]; [done|]. split; [done|]. exists maps.
  assert (forall k m, maps !! k = Some m -> bm_height m = to -> l = Some m) as Hlast.
  { intros k m Hk Hh. destruct (Hms k m Hk) as [_ E]. unfold prep_has in E. by rewrite (proj2 (Z.eqb_eq _ _) Hh) in E. }
  split; [done|]. split; [done|]. split.
  - destruct (maps !! pred (length maps)) as [m|] eqn:E; [|apply lookup_ge_None in E; lia].
    rewrite last_lookup, E. apply (Hlast _ _ E). destruct (Hms _ _ E) as [-> _]. lia.
  - intros k m Hk. destruct (Hms k m Hk) as [Hh E]. split; [done|]. unfold prep_has in E.
    destruct (Z.eqb_spec (bm_height m) to) as [Eh|]; [|done]. rewrite Eh. apply Hl. by eapply Hlast.
Qed.
End prepare.

(** *** The attempts to import *)
Section attempts.
Variables (from size : Z) (F : Z -> option BlockMap) (G : Z -> BlockMap) (ms : list BlockMap).
Hypothesis G_F : forall h m, F h = Some m -> m = G h.
Hypothesis G_height : forall k, 0 <= k < size -> bm_height (G (from + k)) = from + k.
Hypothesis import_bounds : 0 <= from /\ 1 <= size /\ from + size < 2 ^ 63 /\ 1 <= limit < 2 ^ 63 /\ size <> limit.

Lemma merged_count_pos : 0 < merged_count size limit.
Proof.
  unfold merged_count. destruct (Z.eqb_spec (size mod limit) 0) as [E|E]; [|lia]. apply Z.mod_divide in E as [q Eq]; [|lia].
  assert (q <> 1) by (intros ->; lia). assert (0 < q) by nia. nia.
Qed.
(** A range that begins again does not follow what is merged. *)
Lemma no_overlap j k : 0 <= j <= size -> 0 <= k <= size -> consecutive ((ms ++ blocks G from j) ++ blocks G from k) -> j = 0 \/ k = 0.
Proof.
  intros Hj Hk Hc. destruct (decide (j = 0)) as [|Hj0]; [by left|]. destruct (decide (k = 0)) as [|Hk0]; [by right|]. exfalso.
  assert (forall n i, 0 <= i < n -> blocks G from n !! Z.to_nat i = Some (G (from + i))) as Hat.
  { intros n i Hi. unfold blocks. rewrite list_lookup_fmap, lookup_seqZ_lt by lia. simpl. do 2 f_equal. lia. }
  enough (bm_height (G (from + 0)) = bm_height (G (from + (j - 1))) + 1) by (rewrite !G_height in *; lia).
  apply (Hc (length ms + Z.to_nat (j - 1))%nat); rewrite <- app_assoc, lookup_app_r by lia.
  - replace (length ms + Z.to_nat (j - 1) - length ms)%nat with (Z.to_nat (j - 1)) by lia.
    rewrite lookup_app_l by (rewrite length_blocks; lia). apply Hat. lia.
  - rewrite lookup_app_r by (rewrite length_blocks; lia). rewrite length_blocks.
    replace (S (length ms + Z.to_nat (j - 1)) - length ms - Z.to_nat j)%nat with (Z.to_nat 0) by lia. apply Hat. lia.
Qed.

(** The first [j] blocks of the range are merged. *)
Definition merged_to (j : Z) (w : W) : Prop := pool_at F w /\ 0 <= j <= size /\ merged w = ms ++ blocks G from j.
Lemma import_once j : triple (merged_to j) (import_blocks from (from + size - 1) limit pool_BlockMap)
  (fun _ w => j = 0 /\ merged_to (merged_count size limit) w) (fun w => exists j', j <= j' /\ merged_to j' w).
Proof.
  intros w (Hp & Hj & Hm). pose proof (merged_count_bounds from size limit ltac:(lia)) as Hcb. pose proof merged_count_pos as Hcp.
  pose proof (@ImportBlocks_prefix W I _ _ merged made (pool_at F) (importers F) (@sched) sched_perm pool_BlockMap blockItemf setLast mergedb G) as Hi.
  specialize (Hi ltac:(intros h w1; split; [apply pool_get|intros [Hr Hp1] m Hb; apply G_F; rewrite <- Hp1; by apply pool_get])).
  specialize (Hi (fun h t w => blockItemf_ok h t w F) (fun f w E => setLast_ok f w E F) (fun f w E => mergedb_ok f w E F) from size limit
    (ms ++ blocks G from j) ltac:(lia) w Hm Hp). unfold import_blocks.
  assert (forall k w', 0 <= k <= size -> pool_at F w' -> merged w' = (ms ++ blocks G from j) ++ blocks G from k ->
    (j = 0 /\ merged_to k w') \/ (k = 0 /\ merged_to j w')) as Hcase.
  { intros k w' Hk Hp' E. pose proof (ready_ordered w' (proj1 Hp')) as Hc. rewrite E in Hc.
    destruct (no_overlap j k Hj Hk Hc) as [-> | ->]; [left|right]; (split; [done|]); (split; [done|]); (split; [done|]); rewrite E; by rewrite app_nil_r. }
  destruct (ImportBlocks _ _ _ _ _ _ _ _ w) as [[[]|er|] w'].
  - destruct Hi as [Hm' Hp']. destruct (Hcase _ w' Hcb Hp' Hm') as [?|[? _]]; [done|lia].
  - destruct Hi as (Hp' & k & Hk & Hm'). destruct (Hcase k w' Hk Hp' Hm') as [[-> ?]|[_ ?]]; [by exists k; split; [lia|]|by exists j].
  - destruct Hi as (Hp' & k & Hk & Hm'). destruct (Hcase k w' Hk Hp' Hm') as [[-> ?]|[_ ?]]; [by exists k; split; [lia|]|by exists j].
Qed.

(** An attempt, and then the others: they succeed only when nothing of the range is
    merged yet. *)
Lemma import_again_ok j : triple (merged_to j) (import_again limit import_blocks from (from + size - 1))
  (fun r w => if r.1 : bool then exists j', j <= j' /\ merged_to j' w else r.2 = None /\ j = 0 /\ merged_to (merged_count size limit) w)
  (fun w => exists j', j <= j' /\ merged_to j' w).
Proof.
  intros w Hw. pose proof (import_once j w Hw) as Hi. unfold import_again, mbind, io_bind, io_try.
  by destruct (import_blocks _ _ _ _ w) as [[[]|er|] w'].
Qed.
Lemma retry_ok fuel i lerr j : 0 <= j -> triple (merged_to j) (retry fuel i (-1) lerr (import_again limit import_blocks from (from + size - 1)))
  (fun _ w => j = 0 /\ merged_to (merged_count size limit) w) (fun w => exists j', j <= j' /\ merged_to j' w).
Proof.
  revert i lerr j. induction fuel as [|fuel IH]; intros i lerr j Hj0; [apply triple_err; by exists j|]. cbn [retry].
  destruct (i =? -1); [apply triple_err; by exists j|].
  eapply triple_bind; [apply import_again_ok|]. intros [[] e]; simpl; [|by intros w (-> & Hw)].
  intros w (j' & Hj & Hw). pose proof (IH (wrap_s 64 (i + 1)) (match e with Some _ => e | None => lerr end) j' ltac:(lia) w Hw) as Ht.
  destruct (retry _ _ _ _ _ w) as [[u|er|] w1].
  - destruct Ht as [-> Ht]. split; [lia|done].
  - destruct Ht as (j2 & ? & Ht). exists j2. split; [lia|done].
  - destruct Ht as (j2 & ? & Ht). exists j2. split; [lia|done].
Qed.
(** After a failure in the middle of a range the sync does not come to an end: it
    begins again with the blocks that are merged. *)
Lemma retry_stuck fuel i lerr j w : 0 < j -> merged_to j w ->
  (retry fuel i (-1) lerr (import_again limit import_blocks from (from + size - 1)) w).1 <> Ok tt.
Proof.
  intros Hj Hw. pose proof (retry_ok fuel i lerr j ltac:(lia) w Hw) as Ht.
  destruct (retry _ _ _ _ _ w) as [[[]|er|] w']; [|done..]. destruct Ht as [? _]. lia.
Qed.
End attempts.

(** C6: when every map that is fetched is of the height that was asked for, which the
    code does not check, a sync that succeeds has fetched a chain of block maps, each of
    which names the one before it, from the last block of the node to the height asked
    for, and gives its last map back. The blocks that it brings to the database are
    those of this chain in order, but when the size is a multiple of the batch the last
    batch is missing. The size is not that of one batch. *)
Theorem doSync_chain prev size w newprev w' :
  -1 <= height_of prev -> (forall p, prev = Some p -> 0 <= bm_height p) -> height_of prev + size < 2 ^ 63 - 1 ->
  1 <= size -> 1 <= limit < 2 ^ 63 -> size <> limit -> ready w ->
  doSync (@sched) limit BlockMapFunc import_blocks attempts prev (height_of prev + size) w = (Ok newprev, w') ->
  exists maps, length maps = Z.to_nat size /\ chain prev maps /\ newprev = last maps /\
    (forall k m, maps !! k = Some m -> bm_height m = height_of prev + 1 + Z.of_nat k) /\
    merged w' = merged w ++ take (Z.to_nat (if size mod limit =? 0 then size - limit else size)) maps.
Proof.
  intros Hph Hpos Hmax Hsize Hlim Hne Hr. unfold doSync, mbind, io_bind.
  pose proof (prepareMaps_ok prev size (merged w) ltac:(done) w (conj Hr eq_refl)) as Hp.
  destruct (prepareMaps _ _ _ _ _ w) as [[np|er|] w1]; [|done..]. destruct Hp as ([Hr1 Hm1] & maps & Hlen & Hc & Hlast & Hms).
  set (from := height_of prev + 1). set (m0 := default (demo_unsigned 0) (maps !! 0%nat)).
  set (G := fun h => default m0 (pool_has w1 h)).
  assert (forall k, 0 <= k < size -> exists m, maps !! Z.to_nat k = Some m /\ G (from + k) = m /\ bm_height m = from + k) as HG.
  { intros k Hk. destruct (lookup_lt_is_Some_2 maps (Z.to_nat k) ltac:(lia)) as [m Hm]. exists m. split; [done|].
    destruct (Hms _ _ Hm) as [Hh Hpm]. rewrite Hh in Hpm. unfold G, from. rewrite Hh.
    replace (height_of prev + 1 + k) with (height_of prev + 1 + Z.of_nat (Z.to_nat k)) by lia. rewrite Hpm. split; [done|lia]. }
  unfold syncBlocks. assert (match prev with Some p => wrap_s 64 (bm_height p + 1) | None => GenesisHeight end = from) as ->.
  { unfold from, height_of. destruct prev as [p|]; [|done]. specialize (Hpos p eq_refl). simpl in *.
    by rewrite wrap_s_small by (change (64 - 1) with 63; lia). }
  replace (height_of prev + size) with (from + size - 1) by (unfold from; lia). unfold RetryIO.
  pose proof (retry_ok from size (pool_has w1) G (merged w) ltac:(by intros h m Hm; unfold G; rewrite Hm)
    ltac:(by intros k Hk; destruct (HG k Hk) as (m & _ & -> & ?)) ltac:(unfold from; lia) attempts 0 None 0 ltac:(lia) w1) as Ht.
  destruct (retry _ _ _ _ _ w1) as [[u|er|] w2]; [|done..]. intros [= -> ->]. exists maps. split_and!; try done.
  - intros k m Hk. by destruct (Hms k m Hk).
  - destruct Ht as (_ & _ & _ & ->); [split; [by split|]; split; [lia|by rewrite app_nil_r]|]. f_equal. fold (merged_count size limit).
    pose proof (merged_count_bounds from size limit ltac:(unfold from; lia)). apply list_eq. intros k. unfold blocks.
    rewrite list_lookup_fmap. destruct (decide (k < Z.to_nat (merged_count size limit))%nat) as [Hk|Hk].
    + rewrite lookup_take_lt, lookup_seqZ_lt by lia. destruct (HG (Z.of_nat k) ltac:(lia)) as (m & Hm & <- & _).
      by rewrite Nat2Z.id in Hm.
    + rewrite lookup_take_ge, lookup_seqZ_ge by lia. done.
Qed.

(** *** The daemon *)
Section daemon.
Context {C : Type} `{CheckedPrevs C}.
Variable RemovePrevBlockFunc : Z -> IO W bool.
Hypothesis remove_ready : forall h w, ready w -> ready (RemovePrevBlockFunc h w).2.
Hypothesis limit_bounds : 1 <= limit < 2 ^ 63.
Abbreviation step := (sync_step (C := C) (@sched) limit BlockMapFunc RemovePrevBlockFunc import_blocks attempts).
Implicit Types (s : Syncer C).

Lemma import_ready from size w : 0 <= from -> 1 <= size -> from + size < 2 ^ 63 -> ready w ->
  ready (import_blocks from (from + size - 1) limit pool_BlockMap w).2.
Proof.
  intros Hf Hs Hm Hr. set (G := fun h => default (demo_unsigned 0) (pool_has w h)).
  pose proof (@ImportBlocks_prefix W I _ _ merged made (pool_at (pool_has w)) (importers _) (@sched) sched_perm pool_BlockMap blockItemf setLast mergedb G) as Hi.
  specialize (Hi ltac:(intros h w1; split; [apply pool_get|intros [_ Hp1] m Hb%(proj2 (pool_get h w1)); unfold G; by rewrite <- Hp1, Hb])).
  specialize (Hi (fun h t w => blockItemf_ok h t w _) (fun f w E => setLast_ok f w E _) (fun f w E => mergedb_ok f w E _) from size limit
    (merged w) ltac:(lia) w eq_refl ltac:(by split)). unfold import_blocks.
  destruct (ImportBlocks _ _ _ _ _ _ _ _ w) as [[[]|er|] w']; apply Hi.
Qed.
Lemma retry_ready from size fuel i lerr : 0 <= from -> 1 <= size -> from + size < 2 ^ 63 ->
  keeps ready (retry fuel i (-1) lerr (import_again limit import_blocks from (from + size - 1))).
Proof.
  intros Hf Hs Hm. revert i lerr. induction fuel as [|fuel IH]; intros i lerr; [by apply triple_err|]. cbn [retry].
  destruct (i =? -1); [by apply triple_err|]. apply keeps_bind.
  - intros w Hw. pose proof (import_ready from size w Hf Hs Hm Hw). unfold import_again, mbind, io_bind, io_try.
    by destruct (import_blocks _ _ _ _ w) as [[[]|er|] w'].
  - intros [[] e]; [apply IH|]. destruct e; [by apply triple_err|by apply triple_ret].
Qed.
Lemma doSync_ready prev to : (forall p, prev = Some p -> 0 <= bm_height p) -> height_of prev < to < 2 ^ 63 - 1 ->
  triple ready (doSync (@sched) limit BlockMapFunc import_blocks attempts prev to)
    (fun newprev w => ready w /\ exists m, newprev = Some m /\ bm_height m = to) ready.
Proof.
  intros Hpos Hto w Hr. assert (-1 <= height_of prev) as Hph.
  { destruct prev as [p|]; simpl; [specialize (Hpos p eq_refl); lia|unfold NilHeight; lia]. }
  pose proof (prepareMaps_ok prev (to - height_of prev) (merged w) ltac:(split_and!; [done|done|lia..]) w (conj Hr eq_refl)) as Hp.
  replace (height_of prev + (to - height_of prev)) with to in Hp by lia. unfold doSync, mbind, io_bind.
  destruct (prepareMaps _ _ _ _ _ w) as [[np|er|] w1]; [|apply Hp..]. destruct Hp as ([Hr1 _] & maps & Hlen & _ & Hlast & Hms).
  pose proof (retry_ready (height_of prev + 1) (to - height_of prev) attempts 0 None ltac:(lia) ltac:(lia) ltac:(lia) w1 Hr1) as Ht.
  replace (height_of prev + 1 + (to - height_of prev) - 1) with to in Ht by lia. unfold syncBlocks, RetryIO.
  assert (match prev with Some p => wrap_s 64 (bm_height p + 1) | None => GenesisHeight end = height_of prev + 1) as ->.
  { destruct prev as [p|]; [|done]. simpl in *. by rewrite wrap_s_small by (change (64 - 1) with 63; lia). }
  destruct (retry _ _ _ _ _ w1) as [[u|er|] w2]; [|done..]. split; [done|].
  destruct (maps !! pred (length maps)) as [m|] eqn:E; [|apply lookup_ge_None in E; lia].
  exists m. rewrite Hlast, last_lookup, E. split; [done|]. destruct (Hms _ _ E) as [-> _]. lia.
Qed.

(** What [sync_blocks] leaves alone. *)
Definition same_rest s s' : Prop :=
  sy_topvalue s' = sy_topvalue s /\ sy_isdonevalue s' = sy_isdonevalue s /\ sy_startsyncch s' = sy_startsyncch s /\
  sy_finishedch s' = sy_finishedch s /\ sy_doneerr s' = sy_doneerr s /\ sy_lastheight s' = sy_lastheight s.
Definition prev_ok s : Prop := forall p, sy_prevvalue s = Some p -> 0 <= bm_height p.
Definition rest_kept s (x : Syncer C * W) : Prop := ready x.2 /\ prev_ok x.1 /\ same_rest s x.1 /\ prevheight x.1 = prevheight s.

Lemma checkPrevMap_ready prev : triple ready (checkPrevMap BlockMapFunc RemovePrevBlockFunc prev)
  (fun m w => ready w /\ bm_height m = bm_height prev) ready.
Proof.
  intros w Hr. unfold checkPrevMap, fetchMap, mbind, io_bind. destruct (BlockMapFunc_ok (bm_height prev) w) as [Hs Hh].
  destruct (still_pool _ _ Hs Hr) as [Hr' _]. destruct (BlockMapFunc (bm_height prev) w) as [[[m|]|er|] w1]; simpl in *; try done.
  case_bool_decide; [by split|]. pose proof (remove_ready (bm_height prev) w1 Hr') as Hr2.
  destruct (RemovePrevBlockFunc (bm_height prev) w1) as [[b|er|] w2]; simpl in *; [|done..]. destruct b; simpl; [|done]. split; [done|]. by apply Hh.
Qed.
Lemma check_prev_ok s : triple (fun x => x.1 = s /\ ready x.2 /\ prev_ok s) (check_prev BlockMapFunc RemovePrevBlockFunc)
  (fun prev x => rest_kept s x /\ prev = sy_prevvalue x.1) (rest_kept s).
Proof.
  intros [s1 w] (E & Hr & Hp). simpl in E. subst s1. unfold check_prev, mbind, io_bind, gets. simpl. destruct (sy_prevvalue s) as [p|] eqn:Ep.
  - destruct (cp_Exists _ _); [by repeat split|]. unfold on_world, io_bind. pose proof (checkPrevMap_ready p w Hr) as Hc.
    destruct (checkPrevMap _ _ p w) as [[m|er|] w1]; simpl; [|by repeat split..]. destruct Hc as [Hr1 Hm].
    split; [|done]. split; [done|]. split; [|split; [done|unfold prevheight; by rewrite Ep]]. intros q [= <-]. rewrite Hm. by apply Hp.
  - by repeat split.
Qed.
Lemma sync_blocks_ok h s : 0 <= h < 2 ^ 63 - 1 -> triple (fun x => x.1 = s /\ ready x.2 /\ prev_ok s)
  (sync_blocks (@sched) limit BlockMapFunc RemovePrevBlockFunc import_blocks attempts h)
  (fun np x => rest_kept s x /\
    match np with None => h <= prevheight s | Some m => prevheight s < h /\ exists m', m = Some m' /\ bm_height m' = h end) (rest_kept s).
Proof.
  intros Hh. unfold sync_blocks. eapply triple_bind; [apply check_prev_ok|]. intros prev [s1 w] [(Hr & Hp & Hrest & Hph) ->]. simpl in *.
  destruct (sy_prevvalue s1) as [p|] eqn:Ep.
  - destruct (Z.leb_spec h (bm_height p)) as [Hle|Hlt].
    + split; [done|]. rewrite <- Hph. unfold prevheight. by rewrite Ep.
    + pose proof (doSync_ready (Some p) h ltac:(intros ? [= <-]; by apply Hp) ltac:(simpl; lia) w Hr) as Hd. unfold on_world, mbind, io_bind.
      destruct (doSync _ _ _ _ _ _ _ w) as [[np|er|] w1]; [|done..]. split; [by split; [apply Hd|]|]. split; [|apply Hd].
      rewrite <- Hph. unfold prevheight. by rewrite Ep.
  - pose proof (doSync_ready None h ltac:(done) ltac:(simpl; unfold NilHeight; lia) w Hr) as Hd. unfold on_world, mbind, io_bind.
    destruct (doSync _ _ _ _ _ _ _ w) as [[np|er|] w1]; [|done..]. split; [by split; [apply Hd|]|]. split; [|apply Hd].
    rewrite <- Hph. unfold prevheight. rewrite Ep. simpl. unfold NilHeight. lia.
Qed.

(** *** The invariant *)
Definition idle_ok s : Prop := prevheight s = sy_topvalue s \/ (sy_lastheight s < sy_topvalue s /\ sy_topvalue s ∈ sy_startsyncch s).
Record sync_inv (x : SyncState) : Prop := {
  sv_heights : prevheight (sy_s x) <= sy_topvalue (sy_s x) < 2 ^ 63 - 1 /\ -1 <= sy_lastheight (sy_s x) <= sy_topvalue (sy_s x);
  sv_ch h : h ∈ sy_startsyncch (sy_s x) -> h <= sy_topvalue (sy_s x);
  sv_prev : prev_ok (sy_s x);
  sv_finished h : h ∈ sy_finishedch (sy_s x) -> h <= prevheight (sy_s x);
  sv_run : match sy_run x with
    | None => running (sy_s x) = true -> ready (sy_w x) /\ idle_ok (sy_s x)
    | Some np => ready (sy_w x) /\ exists m, np = Some m /\ bm_height m = sy_lastheight (sy_s x) /\ prevheight (sy_s x) <= bm_height m /\
        0 <= bm_height m /\ (bm_height m = sy_topvalue (sy_s x) \/ sy_topvalue (sy_s x) ∈ sy_startsyncch (sy_s x))
    end
}.

Lemma add_inv h s w r : h < 2 ^ 63 - 1 -> sync_inv (Build_SyncState s w r) -> sync_inv (Build_SyncState (Add h s).1 w r).
Proof.
  intros Hmax Hinv. unfold Add. destruct (sy_isdonevalue s) eqn:Ed; [done|]. destruct (Z.leb_spec h (sy_topvalue s)) as [|Hlt]; [done|].
  destruct Hinv as [Hh Hch Hp Hf Hr]. simpl in *. split; simpl; try done.
  - unfold prevheight in *. simpl. lia.
  - intros h' [Hin%Hch|Hin%list_elem_of_singleton]%elem_of_app; lia.
  - destruct r as [np|].
    + destruct Hr as (Hrd & m & -> & Hm & Hle & H0m & _). split; [done|]. exists m. split_and!; try done. right. set_solver.
    + intros [Hrd Hrun]%Hr. split; [done|]. right. simpl. split; [lia|set_solver].
Qed.
Lemma old_inv h l1 l2 s w : sy_startsyncch s = l1 ++ h :: l2 -> h <= sy_lastheight s ->
  sync_inv (Build_SyncState s w None) -> sync_inv (Build_SyncState (received (l1 ++ l2) s) w None).
Proof.
  intros Ech Hle [Hh Hch Hp Hf Hr]. simpl in *. split; simpl; try done.
  - intros h' Hin. apply Hch. rewrite Ech. set_solver.
  - intros [Hrd Hrun]%Hr. split; [done|]. destruct Hrun as [Hrun|[Hlt Hin]]; [by left|]. right. simpl. split; [done|].
    rewrite Ech in Hin. assert (sy_topvalue s <> h) by lia. set_solver.
Qed.
Lemma sync_ok_inv h l1 l2 s w newprev s' w' : running s = true -> sy_startsyncch s = l1 ++ h :: l2 -> sy_lastheight s < h ->
  sync_blocks (@sched) limit BlockMapFunc RemovePrevBlockFunc import_blocks attempts h (set_lastheight h (received (l1 ++ l2) s), w) = (Ok newprev, (s', w')) ->
  sync_inv (Build_SyncState s w None) -> sync_inv (Build_SyncState s' w' newprev).
Proof.
  intros Hrun Ech Hlt Hs [Hh Hch Hp Hf Hr]. simpl in *. destruct (Hr Hrun) as [Hrd Hidle].
  assert (h <= sy_topvalue s) as Hht by (apply Hch; rewrite Ech; set_solver).
  pose proof (sync_blocks_ok h (set_lastheight h (received (l1 ++ l2) s)) ltac:(lia) (_, w) (conj eq_refl (conj Hrd Hp))) as Hok.
  rewrite Hs in Hok. destruct Hok as [(Hrd' & Hp' & (T1 & T2 & T3 & T4 & T5 & T6) & Hph) Hnew]. simpl in *.
  unfold prevheight at 2 in Hph. simpl in Hph. fold (prevheight s) in Hph. split; simpl; try done.
  - rewrite T1, T6, Hph. lia.
  - intros h' Hin. rewrite T1. apply Hch. rewrite T3 in Hin. rewrite Ech. set_solver.
  - intros h' Hin. rewrite Hph. apply Hf. by rewrite T4 in Hin.
  - destruct newprev as [np|].
    + destruct Hnew as (Hlt' & m & -> & Hm). split; [done|]. exists m. rewrite T1, T3, T6, Hph, Hm. split_and!; [done|done|unfold prevheight in *; simpl in *; lia|lia|].
      destruct Hidle as [Htop|[_ Hin]]; [unfold prevheight in *; simpl in *; lia|]. rewrite Ech in Hin.
      destruct (decide (h = sy_topvalue s)); [by left|right; set_solver].
    + intros _. split; [done|]. unfold idle_ok. rewrite T1, T3, T6, Hph. destruct Hidle as [Htop|[_ Hin]]; [by left|]. unfold prevheight at 1 in Hnew. simpl in Hnew. fold (prevheight s) in Hnew.
      rewrite Ech in Hin. destruct (decide (h = sy_topvalue s)) as [->|Hne]; [left; lia|right; split; [lia|set_solver]].
Qed.
Lemma sync_fail_inv h l1 l2 s w e s' w' : running s = true -> sy_startsyncch s = l1 ++ h :: l2 -> sy_lastheight s < h ->
  sync_blocks (@sched) limit BlockMapFunc RemovePrevBlockFunc import_blocks attempts h (set_lastheight h (received (l1 ++ l2) s), w) = (Err e, (s', w')) ->
  sync_inv (Build_SyncState s w None) -> sync_inv (Build_SyncState (set_doneerr e s') w' None).
Proof.
  intros Hrun Ech Hlt Hs [Hh Hch Hp Hf Hr]. simpl in *. destruct (Hr Hrun) as [Hrd _].
  assert (h <= sy_topvalue s) as Hht by (apply Hch; rewrite Ech; set_solver).
  pose proof (sync_blocks_ok h (set_lastheight h (received (l1 ++ l2) s)) ltac:(lia) (_, w) (conj eq_refl (conj Hrd Hp))) as Hok.
  rewrite Hs in Hok. destruct Hok as (Hrd' & Hp' & (T1 & T2 & T3 & T4 & T5 & T6) & Hph). simpl in *.
  assert (prevheight s' = prevheight s) as Hph' by exact Hph. split; simpl; try done.
  - unfold prevheight in *. simpl in *. lia.
  - intros h' Hin. rewrite T1. apply Hch. rewrite T3 in Hin. rewrite Ech. set_solver.
  - intros h' Hin. change (h' <= prevheight s'). rewrite Hph'. apply Hf. by rewrite T4 in Hin.
  - unfold running. simpl. by rewrite andb_false_r.
Qed.
Lemma end_inv np s w s' w' : sync_end np (s, w) = (Ok tt, (s', w')) ->
  sync_inv (Build_SyncState s w (Some np)) -> sync_inv (Build_SyncState s' w' None).
Proof.
  intros He [Hh Hch Hp Hf Hr]. simpl in *. unfold sync_end, mbind, io_bind in He. simpl in He.
  destruct Hr as (Hrd & m & -> & Hm & Hle & H0m & Htop). unfold on_syncer, modify in He. simpl in He. injection He as <- <-.
  assert (forall p, Some m = Some p -> 0 <= bm_height p) as Hp' by (by intros p [= <-]).
  destruct (Z.eqb_spec (bm_height m) (sy_topvalue s)) as [E|E].
  - split; simpl; try done; unfold prevheight in *; simpl.
    + lia.
    + intros h [Hin%Hf| ->%list_elem_of_singleton]%elem_of_app; lia.
    + intros _. split; [done|]. left. unfold prevheight. simpl. done.
  - destruct (Z.ltb_spec (bm_height m) (sy_topvalue s)) as [Hlt|]; [|lia]. split; simpl; try done; unfold prevheight in *; simpl.
    + lia.
    + intros h [Hin%Hch|Hin%list_elem_of_singleton]%elem_of_app; lia.
    + intros h Hin%Hf. lia.
    + intros _. split; [done|]. right. simpl. split; [lia|set_solver].
Qed.
Lemma cancel_inv s w s' w' : Cancel (s, w) = (Ok tt, (s', w')) -> sync_inv (Build_SyncState s w None) -> sync_inv (Build_SyncState s' w' None).
Proof.
  intros Hc [Hh Hch Hp Hf Hr]. unfold Cancel, mbind, io_bind in Hc. simpl in *. unfold io_try, on_world in Hc. simpl in Hc.
  assert (s' = set_done s) as -> by (destruct (pool_Cancel w) as [[[]|er|] w1]; [by injection Hc as <- _..|done]). by split.
Qed.
Lemma step_inv x y : step x y -> sync_inv x -> sync_inv y.
Proof.
  destruct 1; eauto using add_inv, old_inv, sync_ok_inv, sync_fail_inv, end_inv, cancel_inv.
Qed.

(** C10: when every map that is fetched is of the height that was asked for, which the
    code does not check, a height that was added to a syncer is not forgotten: for a
    daemon that waits the last map of the syncer is that of the highest height added, or
    that height is still to come and will be taken. What was sent as finished is not
    above the last map of the syncer. This is the record of the syncer, not the
    database, where the last batch may be missing ([doSync_chain]). *)
Theorem syncer_not_forgets prev cache w0 x : (forall p, prev = Some p -> 0 <= bm_height p < 2 ^ 63 - 1) -> ready w0 ->
  rtc step (Build_SyncState (NewSyncer prev cache) w0 None) x ->
  (forall h, h ∈ sy_finishedch (sy_s x) -> h <= prevheight (sy_s x)) /\
  (sy_run x = None -> running (sy_s x) = true ->
     IsFinished (sy_s x) = (sy_topvalue (sy_s x), true) \/
     (sy_lastheight (sy_s x) < sy_topvalue (sy_s x) /\ sy_topvalue (sy_s x) ∈ sy_startsyncch (sy_s x))).
Proof.
  intros Hprev Hrd Hx. assert (sync_inv (Build_SyncState (NewSyncer prev cache) w0 None)) as Hinv.
  { split; simpl; unfold prevheight, NilHeight; simpl; try (by intros ? ?%elem_of_nil).
    - destruct prev as [p|]; simpl; [pose proof (Hprev p eq_refl)|unfold NilHeight]; lia.
    - intros p E. simpl in E. by apply Hprev.
    - intros _. split; [done|]. by left. }
  assert (sync_inv x) as [_ _ _ Hf Hr] by (induction Hx; eauto using step_inv).
  split; [exact Hf|]. intros E Hrun. rewrite E in Hr. destruct (Hr Hrun) as [_ [Htop|Hin]]; [left|by right].
  unfold IsFinished. by rewrite Htop, Z.eqb_refl.
Qed.
End daemon.
End sync.

(** ** Concrete data *)
#[local] Existing Instance demo_crypto.
#[local] Existing Instance demo_block_crypto.
#[local] Instance no_receipts : Receipts := {| OperationReceipt := unit; receipt_IsValid := fun _ => Ok tt |}.
(** A pool, the importers and the blocks that the database took: only the next one. *)
Abbreviation demo_world := (MemTempSyncPool * (list BlockMap * list BlockMap))%type.
Definition demo_merge (i : nat) : IO demo_world unit := fun w =>
  let '(p, (ims, ms)) := w in
  match ims !! i with
  | None => (Panic, w)
  | Some m =>
      if match last ms with None => true | Some l => bm_height m =? bm_height l + 1 end then (Ok tt, (p, (ims, ms ++ [m])))
      else (Err "wrong height", w)
  end.
#[local] Instance demo_importers : BlockImporters demo_world nat := {|
  imp_New := fun m w => (Ok (length w.2.1), (w.1, (w.2.1 ++ [m], w.2.2)));
  imp_WriteItem := fun _ _ _ => mret tt; imp_Save := fun _ => mret tt; imp_merge := demo_merge; imp_Cancel := fun _ => mret tt |}.
#[local] Existing Instance mem_pool.
#[local] Instance demo_checkedprevs : CheckedPrevs (list Z) := {| cp_Exists := fun h l => bool_decide (h ∈ l); cp_Set := cons |}.
Definition demo_has (w : demo_world) (h : Z) : option BlockMap := w.1 ≫= fun m => m !! h.
Definition demo_ready (w : demo_world) : Prop := is_Some w.1 /\ consecutive w.2.2.

Lemma consecutive_snoc ms m : consecutive ms -> match last ms with None => true | Some l => bm_height m =? bm_height l + 1 end = true ->
  consecutive (ms ++ [m]).
Proof.
  intros Hc Hl k a b Ha [Hb|[Hk Hb]]%lookup_app_Some.
  - rewrite lookup_app_l in Ha by (apply lookup_lt_Some in Hb; lia). by eapply Hc.
  - apply list_lookup_singleton_Some in Hb as [Hk' <-]. rewrite lookup_app_l in Ha by lia.
    rewrite last_lookup in Hl. replace (pred (length ms)) with k in Hl by lia. rewrite Ha in Hl. lia.
Qed.
#[local] Instance demo_importers_laws F : BlockImportersLaws demo_world nat (fun w => w.2.2) (fun i w => w.2.1 !! i) (pool_at demo_ready demo_has F).
Proof.
  split; try (by intros; split_and!).
  - intros m w. simpl. split; [split; [done|split; [done|]]|].
    + intros i m' Hi. by apply lookup_app_l_Some.
    + intros i [= <-]. by rewrite list_lookup_middle.
  - intros i m [p [ims ms]] Hi. simpl in *. rewrite Hi.
    destruct (match last ms with None => true | Some l => bm_height m =? bm_height l + 1 end) eqn:E; simpl; [|by rewrite app_nil_r].
    split; [done|]. split; [|done]. intros [[Hp Hc] HF]. split; [|done]. split; [done|]. by apply consecutive_snoc.
Qed.

Abbreviation demo_sync := (doSync (fun _ l => rev l) 3 (fun h => mret (Some (demo_map h)))
  (import_blocks (fun _ l => rev l) (fun _ _ => mret (Some [])) None None) 1 (Some (demo_map 0))).
Definition demo_before : demo_world := (NewMemTempSyncPool, ([], [demo_map 0])).
Lemma demo_laws (h : Z) (w : demo_world) :
  (still (fun w => w.2.2) (fun i w => w.2.1 !! i) demo_ready demo_has demo_importers_laws w (pool_BlockMap h w).2 /\
     forall m, (pool_BlockMap h w).1 = Ok (Some m) -> demo_has w h = Some m) /\
  forall m, demo_ready w -> demo_ready (pool_SetBlockMap m w).2 /\ (pool_SetBlockMap m w).2.2.2 = w.2.2 /\
    ((pool_SetBlockMap m w).1 = Ok tt -> forall h, demo_has (pool_SetBlockMap m w).2 h = if decide (h = bm_height m) then Some m else demo_has w h).
Proof.
  destruct w as [p [ims ms]]. split; [split; [by intros F; split; [|split]|]|].
  - intros m. simpl. unfold demo_has. simpl. by intros [= ->].
  - intros m [[pm Hp] Hc]. simpl in *. subst p. split; [split; [by eexists|done]|]. split; [done|]. intros _ h'. unfold demo_has. simpl.
    case_decide as E; [subst; by rewrite lookup_insert_eq|by rewrite lookup_insert_ne by congruence].
Qed.

Lemma demo_fetch_ok h (w : demo_world) :
  still (fun w => w.2.2) (fun i w => w.2.1 !! i) demo_ready demo_has demo_importers_laws w
    ((mret (Some (demo_map h)) : IO demo_world (option BlockMap)) w).2 /\
  forall m, ((mret (Some (demo_map h)) : IO demo_world (option BlockMap)) w).1 = Ok (Some m) -> bm_height m = h.
Proof. split; [by intros F; split; [|split]|]. by intros m [= <-]. Qed.
Lemma demo_item_ok (h : Z) (t : BlockItemType) (w : demo_world) :
  still (fun w => w.2.2) (fun i w => w.2.1 !! i) demo_ready demo_has demo_importers_laws w ((mret (Some []) : IO demo_world (option file)) w).2.
Proof. by intros F; split; [|split]. Qed.

Lemma doSync_chain_witness :
  exists w, demo_sync (height_of (Some (demo_map 0)) + 7) demo_before = (Ok (Some (demo_map 7)), w) /\
    exists maps, chain (Some (demo_map 0)) maps /\ w.2.2 = [demo_map 0] ++ take 7 maps /\ w.2.2 = demo_map <$> [0; 1; 2; 3; 4; 5; 6; 7].
Proof.
  destruct (demo_sync (height_of (Some (demo_map 0)) + 7) demo_before) as [r w] eqn:E. exists w.
  assert (r = Ok (Some (demo_map 7))) as -> by (apply (f_equal fst) in E; vm_compute in E; by rewrite <- E). split; [done|].
  pose proof (doSync_chain (fun w : demo_world => w.2.2) (fun i w => w.2.1 !! i) demo_ready demo_has demo_importers_laws (fun w Hw => proj2 Hw)
    (fun _ l => rev l) (fun _ l => symmetry (Permutation_rev l)) (fun h => mret (Some (demo_map h))) (fun _ _ => mret (Some [])) None None 3 1
    (fun h w => proj1 (demo_laws h w)) (fun m w => proj2 (demo_laws 0 w) m) demo_fetch_ok demo_item_ok
    ltac:(by intros) ltac:(by intros) (Some (demo_map 0)) 7 demo_before (Some (demo_map 7)) w) as Hd.
  destruct Hd as (maps & _ & Hc & _ & _ & Hm); [clear; vm_compute; done|clear; intros p [= <-]; vm_compute; done|clear; vm_compute; done|clear; lia..| |exact E|].
  - clear. split; [by eexists|]. intros k a b Ha Hb. by destruct k as [|[|k]].
  - exists maps. split; [exact Hc|]. split; [exact Hm|]. clear - E. apply (f_equal snd) in E. cbn [snd] in E. rewrite <- E. vm_compute. reflexivity.
Defined.

(** Heights 4 and 7 are added, and 7 comes out first; 9 is added meanwhile. *)
Definition demo_added : Syncer (list Z) := (Add 7 (Add 4 (NewSyncer (Some (demo_map 0)) [])).1).1.
Abbreviation demo_start := (sync_blocks (fun _ l => rev l) 3 (fun h => mret (Some (demo_map h))) (fun _ => mret false)
  (import_blocks (fun _ l => rev l) (fun _ _ => mret (Some [])) None None) 1).
Definition demo_synced := demo_start 7 (set_lastheight 7 (received ([4] ++ []) demo_added), demo_before).
Definition demo_more : Syncer (list Z) := (Add 9 demo_synced.2.1).1.
Definition demo_ended := sync_end (Some (demo_map 7)) (demo_more, demo_synced.2.2).

Lemma syncer_not_forgets_witness :
  IsFinished demo_ended.2.1 = (9, false) /\ sy_startsyncch demo_ended.2.1 = [4; 9; 9] /\
  sy_lastheight demo_ended.2.1 < sy_topvalue demo_ended.2.1.
Proof.
  assert (IsFinished demo_ended.2.1 = (9, false)) as Hfin by (vm_compute; reflexivity).
  assert (running demo_ended.2.1 = true) as Hrun by (vm_compute; reflexivity).
  pose proof (syncer_not_forgets (fun w : demo_world => w.2.2) (fun i w => w.2.1 !! i) demo_ready demo_has demo_importers_laws (fun w Hw => proj2 Hw)
    (fun _ l => rev l) (fun _ l => symmetry (Permutation_rev l)) (fun h => mret (Some (demo_map h))) (fun _ _ => mret (Some [])) None None 3 1
    (fun h w => proj1 (demo_laws h w)) (fun m w => proj2 (demo_laws 0 w) m) demo_fetch_ok demo_item_ok
    ltac:(by intros) ltac:(by intros) (fun _ => mret false) (fun _ _ Hr => Hr) ltac:(lia) (Some (demo_map 0)) [] demo_before
    (Build_SyncState demo_ended.2.1 demo_ended.2.2 None)) as Hd.
  destruct Hd as [_ Hd].
  - clear. intros p [= <-]. vm_compute. done.
  - clear. split; [by eexists|]. intros k a b Ha Hb. by destruct k as [|[|k]].
  - clear. eapply rtc_l; [by apply (step_add _ _ _ _ _ _ 4)|]. eapply rtc_l; [by apply (step_add _ _ _ _ _ _ 7)|].
    eapply rtc_l; [apply (step_sync _ _ _ _ _ _ 7 [4] [] _ _ (Some (Some (demo_map 7))) demo_synced.2.1 demo_synced.2.2); [vm_compute; done..|]|].
    + vm_cast_no_check (eq_refl demo_synced).
    + eapply rtc_l; [by apply (step_add _ _ _ _ _ _ 9)|]. apply rtc_once, step_end. vm_cast_no_check (eq_refl demo_ended).
  - cbn [sy_s sy_run] in Hd. destruct (Hd eq_refl Hrun) as [Hf|[Hlt _]]; [exfalso; rewrite Hfin in Hf; apply (f_equal snd) in Hf; cbn [snd] in Hf; discriminate Hf|].
    split; [exact Hfin|]. split; [vm_compute; reflexivity|exact Hlt].
Defined.
