(* ===== verification/Proposals.v ===== *)
(** * Proposals and proposers ([isaac/proposal.go], [base/proposal.go], [isaac/proposer_selector.go])

    A proposal is a fact with the operations of a block, signed by its proposer.  The
    proposer of a point is found by each node for itself, from the nodes of the suffrage
    and the block before: [BlockBasedProposerSelector]. *)
From S2P Require Import Prelude Point Vote Slice Ballot Voteproof Block State Bytes Frame Leveldb Tempdb.

Open Scope Z_scope.

Definition Round_Bytes (r : Z) : bytes := Uint64ToBytes r.
Definition Point_Bytes (p : Point) : bytes := Height_Bytes (p_h p) ++ str_bytes "-" ++ Round_Bytes (p_r p).

(** ** Facts *)
(** The operations with their facts. *)
Record ProposalFact := {
  pf_hash : Hash;
  pf_token : string;
  pf_point : Point;
  pf_proposer : option Address;
  pf_operations : list (option Hash * option Hash);
  pf_previousBlock : option Hash;
  pf_proposedAt : option Z
}.
(** A signature without a node ([base/sign.go]). *)
Record BaseSign := { sg_signer : option Publickey; sg_signature : string; sg_signedAt : option Z }.
Record ProposalSignFact := { psf_fact : option ProposalFact; psf_sign : BaseSign }.
Definition ProposalFactHint : string := "proposal-fact-v0.0.1".

Section proposal.
Context `{Crypto, BlockCrypto}.

Definition op_bytes (hs : option Hash * option Hash) : list (option string) := [hash_bytes <$> hs.1; hash_bytes <$> hs.2].
Definition pf_generateHash (fact : ProposalFact) : Hash :=
  new_sha256 (ConcatByters
    ([ Some (pf_token fact); Some (bytes_str (Point_Bytes (pf_point fact))); address_bytes <$> pf_proposer fact;
       hash_bytes <$> pf_previousBlock fact; Some (time_bytes (pf_proposedAt fact)) ] ++
     mjoin (op_bytes <$> pf_operations fact))).
Definition NewProposalFact (now : Z) (point : Point) (proposer : option Address) (previousBlock : option Hash)
    (operations : list (option Hash * option Hash)) : ProposalFact :=
  let fact h := {| pf_hash := h; pf_token := ConcatByters [Some ProposalFactHint; Some (bytes_str (Point_Bytes point))];
                   pf_point := point; pf_proposer := proposer; pf_operations := operations;
                   pf_previousBlock := previousBlock; pf_proposedAt := Some now |} in
  fact (pf_generateHash (fact "")).

Definition IsValidProposalFact (fact : ProposalFact) : err :=
  BaseFact_IsValid (pf_hash fact) (pf_token fact) ≫= fun _ =>
  check_all [ Point_IsValid (pf_point fact);
              match pf_proposer fact with None => Err "nil found" | Some a => address_IsValid a end;
              guard_err (bool_decide (pf_proposedAt fact = None)) "zero proposed at time" ] ≫= fun _ =>
  (if p_h (pf_point fact) =? GenesisHeight then
     guard_err (bool_decide (is_Some (pf_previousBlock fact))) "previous block should be nil for genesis proposal"
   else match pf_previousBlock fact with None => Err "nil previous block" | Some h => Hash_IsValid h end) ≫= fun _ =>
  guard_err (IsDuplicatedSlice (pf_operations fact) (fun hs => (true, default "" hs.1))) "duplicated operation found" ≫= fun _ =>
  guard_err (IsDuplicatedSlice (pf_operations fact) (fun hs => (true, default "" hs.2))) "duplicated operation fact found" ≫= fun _ =>
  check_all ((fun hs : option Hash * option Hash => check_all [opt_IsValid false hs.1; opt_IsValid false hs.2]) <$> pf_operations fact).
Definition ProposalFact_IsValid (fact : ProposalFact) : err :=
  BaseFact_IsValid (pf_hash fact) (pf_token fact) ≫= fun _ =>
  IsValidProposalFact fact ≫= fun _ =>
  guard_err (negb (bool_decide (pf_hash fact = pf_generateHash fact))) "wrong hash".

(** *** Signed *)
Definition NewProposalSignFact (fact : ProposalFact) : ProposalSignFact :=
  {| psf_fact := Some fact; psf_sign := {| sg_signer := None; sg_signature := ""; sg_signedAt := None |} |}.
Definition ProposalSignFact_Sign (now : Z) (priv : Privatekey) (networkID : string) (sf : ProposalSignFact) : res ProposalSignFact :=
  match psf_fact sf with
  | None => Err "make BaseSign; empty fact"
  | Some fact =>
      NewBaseSignFromBytes priv networkID (hash_bytes (pf_hash fact)) now ≫= fun '(pub, sig, at_) =>
      Ok {| psf_fact := psf_fact sf; psf_sign := {| sg_signer := Some pub; sg_signature := sig; sg_signedAt := at_ |} |}
  end.
Definition sign_valid (si : BaseSign) : err :=
  check_all [ match sg_signer si with None => Err "nil found" | Some pub => key_IsValid pub end; signature_IsValid (sg_signature si);
              guard_err (bool_decide (sg_signedAt si = None)) "empty signedAt" ].
Definition sign_verifies (networkID b : string) (si : BaseSign) : err :=
  match sg_signer si with
  | None => Panic
  | Some pub => key_Verify pub (Block.ConcatBytesSlice [networkID; b; time_bytes (sg_signedAt si)]) (sg_signature si)
  end.
Definition ProposalSignFact_IsValid (networkID : string) (sf : ProposalSignFact) : err :=
  match psf_fact sf with
  | None => Err "nil found"
  | Some fact =>
      check_all [ProposalFact_IsValid fact; sign_valid (psf_sign sf)] ≫= fun _ =>
      sign_verifies networkID (hash_bytes (pf_hash fact)) (psf_sign sf)
  end.
Definition psf_Point (sf : ProposalSignFact) : Point := from_option pf_point ZeroPoint (psf_fact sf).

(** What another node answers for a proposal ([isaac/proposal_selector.go]); the
    previous block is not compared. *)
Definition isExpectedValidProposal (point : Point) (proposer : Node) (pr : ProposalSignFact) (networkID : string) : bool :=
  if negb (is_ok (ProposalSignFact_IsValid networkID pr)) then false
  else if negb (Point_Equal (psf_Point pr) point) then false
  else if negb (bool_decide (Some (node_address proposer) = (psf_fact pr ≫= pf_proposer))) then false
  else bool_decide (Some (node_publickey proposer) = sg_signer (psf_sign pr)).

(** ** Proposers *)
Definition add_byte (sum b : Z) : Z := wrap_u 64 (sum + b).
Definition BlockBased_Select (point : Point) (nodes : list Node) (previousBlock : option Hash) : res Node :=
  match nodes with
  | [] => Err "empty suffrage nodes"
  | [n] => Ok n
  | _ =>
      match previousBlock with
      | None => Err "empty previous block"
      | Some h =>
          let sum := foldl add_byte 0 (Hash_Bytes h) in
          let sum := wrap_u 64 (sum + wrap_u 64 (wrap_u 64 (p_h point) + wrap_u 64 (p_r point))) in
          match nodes !! Z.to_nat (wrap_s 64 (sum mod Z.of_nat (length nodes))) with Some n => Ok n | None => Panic end
      end
  end.

(** The nodes of the suffrage of the height before, sorted by their addresses. *)
Definition node_le (a b : Node) : Prop := String.le (node_address a) (node_address b).
#[export] Instance node_le_dec : RelDecision node_le.
Proof. intros a b. unfold node_le. apply _. Defined.
Definition getNodes (height : Z) (f : Z -> res (option (list Node))) : res (option (list Node)) :=
  f (Height_SafePrev height) ≫= fun nodes =>
  match nodes with
  | None => Ok None
  | Some [] => Err "empty suffrage nodes"
  | Some [n] => Ok (Some [n])
  | Some nodes => Ok (Some (merge_sort node_le nodes))
  end.
End proposal.

(** ** What the nodes agree on *)
#[export] Instance node_le_trans : Transitive node_le.
Proof. intros a b c Ha Hb. unfold node_le in *. by transitivity (node_address b). Qed.
#[export] Instance node_le_total : Total node_le.
Proof. intros a b. apply (total String.le). Qed.

Lemma node_sort_unique (l1 l2 : list Node) : NoDup (node_address <$> l1) -> l1 ≡ₚ l2 -> merge_sort node_le l1 = merge_sort node_le l2.
Proof.
  intros Hnd Hp. apply (Sorted_unique_strong node_le); [|by apply Sorted_merge_sort; apply _..|by rewrite !merge_sort_Permutation].
  intros x y Hx Hy Hxy Hyx. rewrite merge_sort_Permutation in Hx. rewrite merge_sort_Permutation, <- Hp in Hy.
  assert (node_address x = node_address y) as Ea by (by apply (anti_symm String.le)).
  apply list_elem_of_lookup in Hx as [i Hi], Hy as [j Hj].
  assert (i = j) as ->; [|congruence]. apply (NoDup_lookup (node_address <$> l1) i j (node_address x)); [done|..]; rewrite list_lookup_fmap.
  - by rewrite Hi.
  - by rewrite Hj, Ea.
Qed.

Section agree.
Context `{Crypto}.
Implicit Types (h : Hash).

Lemma add_byte_sum (b : bytes) s : is_bytes b -> 0 <= s -> s + 256 * Z.of_nat (length b) < 2 ^ 64 ->
  s <= foldl add_byte s b <= s + 256 * Z.of_nat (length b).
Proof.
  revert s. induction b as [|x b IH]; intros s Hb Hs Hl; simpl in *; [lia|]. apply Forall_cons in Hb as [Hx Hb]. cbv beta in Hx.
  assert (add_byte s x = s + x) as -> by (unfold add_byte; apply wrap_u_small; lia). specialize (IH (s + x) Hb ltac:(lia) ltac:(lia)). lia.
Qed.
Definition hash_sum h : Z := foldl add_byte 0 (Hash_Bytes h).
Lemma hash_sum_bound h : Hash_IsValid h = Ok tt -> 0 <= hash_sum h <= 25600.
Proof.
  unfold Hash_IsValid. case_match; [done|]. rewrite guard_err_ok. intros Hl%Nat.ltb_ge. unfold hash_sum.
  assert (length (Hash_Bytes h) <= 100)%nat as Hb.
  { unfold Hash_Bytes, str_bytes. rewrite length_fmap. etransitivity; [|exact Hl]. clear. by induction (hash_bytes h) as [|a s IH]; simpl; [|apply le_n_S]. }
  pose proof (add_byte_sum (Hash_Bytes h) 0 (str_bytes_bytes _)) as Hs. lia.
Qed.
(** The turn of a round. *)
Lemma BlockBased_Select_turn point nodes h : (2 <= length nodes)%nat -> Z.of_nat (length nodes) < 2 ^ 62 -> Hash_IsValid h = Ok tt ->
  0 <= p_h point < 2 ^ 63 -> 0 <= p_r point < 2 ^ 62 ->
  exists n, BlockBased_Select point nodes (Some h) = Ok n /\ nodes !! Z.to_nat ((hash_sum h + p_h point + p_r point) mod Z.of_nat (length nodes)) = Some n.
Proof.
  intros Hl Hmax Hh Hp Hr. pose proof (hash_sum_bound h Hh). unfold BlockBased_Select. fold (hash_sum h).
  destruct nodes as [|n1 [|n2 nodes]]; [simpl in Hl; lia..|]. set (l := n1 :: n2 :: nodes) in *. cbv zeta.
  rewrite (wrap_u_small 64 (p_h point)), (wrap_u_small 64 (p_r point)), (wrap_u_small 64 (p_h point + p_r point)), (wrap_u_small 64 (hash_sum h + _)) by lia.
  rewrite Z.add_assoc. set (t := (hash_sum h + p_h point + p_r point) mod Z.of_nat (length l)).
  assert (0 <= t < Z.of_nat (length l)) as Ht by (apply Z.mod_pos_bound; lia). rewrite wrap_s_small by lia.
  destruct (lookup_lt_is_Some_2 l (Z.to_nat t)) as [n En]; [lia|]. rewrite En. by exists n.
Qed.

(** C11: two nodes that know the same nodes of a suffrage, in whatever order, find the
    same proposer for a point and a previous block, and it is one of them; the choice
    ends without a panic for all hashes, heights and rounds. *)
Theorem proposer_agreed (f f' : Z -> res (option (list Node))) nodes nodes' point h :
  f (Height_SafePrev (p_h point)) = Ok (Some nodes) -> f' (Height_SafePrev (p_h point)) = Ok (Some nodes') ->
  nodes' ≡ₚ nodes -> NoDup (node_address <$> nodes) -> nodes <> [] -> Z.of_nat (length nodes) < 2 ^ 63 ->
  exists sorted n, getNodes (p_h point) f = Ok (Some sorted) /\ getNodes (p_h point) f' = Ok (Some sorted) /\
    BlockBased_Select point sorted (Some h) = Ok n /\ n ∈ nodes.
Proof.
  intros Ef Ef' Hp Hnd Hne Hmax. unfold getNodes. rewrite Ef, Ef'. cbn [mbind res_bind].
  pose proof (Permutation_length Hp) as Hlen. destruct nodes as [|n1 [|n2 nodes]]; [done|..].
  - apply Permutation_singleton_r in Hp as ->. exists [n1], n1. repeat split. apply list_elem_of_here.
  - destruct nodes' as [|n1' [|n2' nodes']]; [done..|]. rewrite (node_sort_unique _ _ Hnd (symmetry Hp)).
    set (l := n1' :: n2' :: nodes') in *. assert (length (merge_sort node_le l) = length l) as Hs by (by rewrite merge_sort_Permutation).
    exists (merge_sort node_le l). destruct (merge_sort node_le l) as [|m1 [|m2 ms]] eqn:Em; [done..|]. unfold BlockBased_Select. cbv zeta.
    set (t := wrap_u 64 _ mod _). assert (0 <= t < Z.of_nat (length (m1 :: m2 :: ms))) as Ht by (apply Z.mod_pos_bound; simpl; lia).
    rewrite wrap_s_small by (rewrite Hs, Hlen in Ht; lia). destruct (lookup_lt_is_Some_2 (m1 :: m2 :: ms) (Z.to_nat t)) as [n En]; [lia|]. rewrite En.
    exists n. repeat split. apply list_elem_of_lookup_2 in En. by rewrite <- Em, merge_sort_Permutation, Hp in En.
Qed.

(** C12: rounds go through the nodes: within as many rounds as there are nodes each of
    them is the proposer once, so one that does not answer holds a height up for one
    round. *)
Theorem proposers_in_turn point nodes h n : (2 <= length nodes)%nat -> Z.of_nat (length nodes) < 2 ^ 61 -> NoDup nodes -> Hash_IsValid h = Ok tt ->
  0 <= p_h point < 2 ^ 63 -> 0 <= p_r point < 2 ^ 61 -> n ∈ nodes ->
  exists i, 0 <= i < Z.of_nat (length nodes) /\
    forall j, 0 <= j < Z.of_nat (length nodes) ->
      BlockBased_Select (RawPoint (p_h point) (p_r point + j)) nodes (Some h) = Ok n <-> j = i.
Proof.
  intros Hl Hmax Hnd Hh Hp Hr [k Hk]%list_elem_of_lookup. pose proof (lookup_lt_Some _ _ _ Hk) as Hkl.
  set (N := Z.of_nat (length nodes)) in *. set (s := hash_sum h + p_h point + p_r point). exists ((Z.of_nat k - s) mod N).
  assert (0 < N) by lia. split; [by apply Z.mod_pos_bound|]. intros j Hj.
  destruct (BlockBased_Select_turn (RawPoint (p_h point) (p_r point + j)) nodes h Hl ltac:(lia) Hh Hp ltac:(simpl; lia)) as (n' & -> & Hn').
  simpl in Hn'. rewrite Z.add_assoc in Hn'. fold s N in Hn'.
  assert (0 <= (s + j) mod N < N) as Ht by (by apply Z.mod_pos_bound). split.
  - intros [= ->]. assert (Z.to_nat ((s + j) mod N) = k) as Ek by (by eapply NoDup_lookup).
    assert (Z.of_nat k = (s + j) mod N) as -> by lia. rewrite Zminus_mod_idemp_l. replace (s + j - s) with j by lia. symmetry. by apply Z.mod_small.
  - intros ->. rewrite Zplus_mod_idemp_r in Hn'. replace (s + (Z.of_nat k - s)) with (Z.of_nat k) in Hn' by lia.
    rewrite Z.mod_small, Nat2Z.id in Hn' by lia. congruence.
Qed.
End agree.

(** ** Examples *)
Section demo.
#[local] Existing Instance demo_crypto.
Definition suffrage_nodes : list Node :=
  [ {| node_address := "n2"; node_publickey := "k2" |}; {| node_address := "n0"; node_publickey := "k0" |}; {| node_address := "n1"; node_publickey := "k1" |} ].
Example demo_proposer : BlockBased_Select (RawPoint 33 0) (merge_sort node_le suffrage_nodes) (Some "h") = Ok {| node_address := "n2"; node_publickey := "k2" |}.
Proof. vm_compute. reflexivity. Qed.
Lemma proposer_agreed_witness : exists sorted n, getNodes 33 (fun _ => Ok (Some suffrage_nodes)) = Ok (Some sorted) /\
  getNodes 33 (fun _ => Ok (Some (reverse suffrage_nodes))) = Ok (Some sorted) /\
  BlockBased_Select (RawPoint 33 0) sorted (Some "h") = Ok n /\ n ∈ suffrage_nodes.
Proof.
  apply (proposer_agreed (fun _ => Ok (Some suffrage_nodes)) (fun _ => Ok (Some (reverse suffrage_nodes))) suffrage_nodes (reverse suffrage_nodes) (RawPoint 33 0) "h");
    [done|done|apply reverse_Permutation|apply (bool_decide_unpack _); vm_compute; exact I|done|vm_compute; reflexivity].
Defined.
Lemma proposers_in_turn_witness : exists i, 0 <= i < 3 /\
  forall j, 0 <= j < 3 -> BlockBased_Select (RawPoint 33 (7 + j)) suffrage_nodes (Some "h") = Ok {| node_address := "n1"; node_publickey := "k1" |} <-> j = i.
Proof.
  apply (proposers_in_turn (RawPoint 33 7) suffrage_nodes "h" {| node_address := "n1"; node_publickey := "k1" |});
    [simpl; lia|vm_compute; reflexivity|apply (bool_decide_unpack _); vm_compute; exact I|reflexivity|simpl; lia|simpl; lia|].
  apply list_elem_of_further, list_elem_of_further, list_elem_of_here.
Defined.
End demo.
