(* ===== verification/Pool.v ===== *)
(** * The pool ([isaac/database/pool.go], [isaac/database/frame.go])

    What a node keeps for the next blocks: proposals, operations, expels, ballots and
    empty heights, in the database of the node under a prefix of their own
    ([Leveldb]), as frames ([Frame]).  An operation that comes has three entries: the
    operation by its hash, a record of it under the time at which it came, and the
    key of that record; [OperationHashes] reads the records in their order and takes
    what it gives away, and what the filter refuses, out of them. *)
From S2P Require Import Prelude Point Vote Slice Ballot Voteproof LockedMap Batch Block State Bytes Frame Leveldb Tempdb Proposals Effects.

Open Scope Z_scope.

(** ** Keys ([leveldb.go]) *)
Definition leveldbLabelPool : KeyPrefix := [1; 3].
Definition leveldbLabelSyncPool : KeyPrefix := [1; 4].
Definition leveldbKeyPrefixProposal : KeyPrefix := [2; 4].
Definition leveldbKeyPrefixProposalByPoint : KeyPrefix := [2; 5].
Definition leveldbKeyPrefixNewOperation : KeyPrefix := [2; 7].
Definition leveldbKeyPrefixNewOperationOrdered : KeyPrefix := [2; 8].
Definition leveldbKeyPrefixNewOperationOrderedKeys : KeyPrefix := [2; 9].
Definition leveldbKeyPrefixRemovedNewOperation : KeyPrefix := [2; 10].
Definition leveldbKeyTempSyncMap : KeyPrefix := [2; 12].
Definition leveldbKeySuffrageExpelOperation : KeyPrefix := [2; 15].
Definition leveldbKeyPrefixBallot : KeyPrefix := [2; 17].
Definition leveldbKeyPrefixEmptyHeight : KeyPrefix := [2; 18].

Definition heightFromKey (b : bytes) (prefix : KeyPrefix) : res Z :=
  if (length b <? length prefix + 8)%nat then Err "too short" else BytesToInt64 (take 8 (drop (length prefix) b)).
(** The offset of a record; the slice is out of range for a key without a time. *)
Definition offsetFromLeveldbOperationOrderedKey (b : bytes) : res bytes :=
  let l := length leveldbKeyPrefixNewOperationOrdered in
  if (length b <=? l)%nat then Err "not enough"
  else if (length b <? l + 8)%nat then Panic
  else Ok (take 8 (drop l b)).
(** A hash from its bytes ([valuehash.NewBytes]), and a hint that is parsed and checked
    ([hint.ParseHint], [Hint.IsValid]). *)
Class HashBytes := hash_of : bytes -> Hash.
Class Hints := ParseHint : bytes -> res bytes.

(** ** What is kept *)
(** What the pool reads of an operation; the fact of one has a hint when it is a
    [Hinter]. *)
Record PoolOperation := { po_hash : Hash; po_fact : Hash; po_hint : option bytes }.

Section keys.
Context `{Crypto, BlockCrypto}.
Definition leveldbProposalKey (h : Hash) : bytes := NewPrefixKey leveldbKeyPrefixProposal [Hash_Bytes h].
Definition leveldbProposalPointKey (point : Point) (proposer : option Address) (previousBlock : option Hash) : bytes :=
  NewPrefixKey leveldbKeyPrefixProposalByPoint
    [Point_Bytes point; str_bytes "-"; from_option (fun a => str_bytes (address_bytes a)) [] proposer; from_option Hash_Bytes [] previousBlock].
(** [now] is the time in nanoseconds. *)
Definition leveldbNewOperationOrderedKey (now : Z) (h : Hash) : bytes :=
  NewPrefixKey leveldbKeyPrefixNewOperationOrdered [Int64ToBytes now; Hash_Bytes h].
Definition leveldbNewOperationKeysKey (h : Hash) : bytes := NewPrefixKey leveldbKeyPrefixNewOperationOrderedKeys [Hash_Bytes h].
Definition leveldbNewOperationKey (h : Hash) : bytes := NewPrefixKey leveldbKeyPrefixNewOperation [Hash_Bytes h].
Definition leveldbRemovedNewOperationPrefixWithHeight (height : Z) : bytes :=
  NewPrefixKey leveldbKeyPrefixRemovedNewOperation [Height_Bytes height].
Definition leveldbRemovedNewOperationKey (height : Z) (h : Hash) : bytes :=
  ConcatBytesSlice [leveldbRemovedNewOperationPrefixWithHeight height; Hash_Bytes h].
Definition leveldbTempSyncMapKey (height : Z) : bytes := NewPrefixKey leveldbKeyTempSyncMap [Height_Bytes height].
Definition leveldbSuffrageExpelOperation (fact : SuffrageExpelFact) : bytes :=
  NewPrefixKey leveldbKeySuffrageExpelOperation [Height_Bytes (xf_end fact); Hash_Bytes (expel_hash fact)].
Definition leveldbBallotKey (point : StagePoint) (isSuffrageConfirm : bool) : bytes :=
  NewPrefixKey leveldbKeyPrefixBallot [Point_Bytes (sp_point point) ++ str_bytes (sp_stage point); str_bytes (if isSuffrageConfirm then "+" else "-")].
Definition leveldbEmptyHeight (height : Z) : bytes := NewPrefixKey leveldbKeyPrefixEmptyHeight [Height_Bytes height].
End keys.

(** ** The record of an operation ([frame.go]) *)
Record FrameHeaderPoolOperation := { fo_version : Z * Z; fo_addedAt : Z; fo_ht : bytes; fo_ophash : Hash; fo_facthash : Hash }.

Section frames.
Context `{Crypto, HashBytes, Hints}.
Definition WriteFrameHeaderOperation (now : Z) (op : PoolOperation) : res bytes :=
  let '(_, fw) := NewBytesFrameWriter ([] : bytes) in
  written_to (fw_Header fw [[0; 1]; Int64ToBytes now; default [] (po_hint op); Hash_Bytes (po_hash op); Hash_Bytes (po_fact op)]) ≫= fun fw =>
  Ok (fw_w fw).
Definition ReadFrameHeaderOperation (b : bytes) : res FrameHeaderPoolOperation :=
  NewBytesFrameReader b ≫= fun fr =>
  no_fuel (fr_Header (frame_fuel b) fr) ≫= fun '(hs, e, _) =>
  or_error e ≫= fun _ =>
  match hs with
  | [v; t; ht; oph; facth] =>
      match v with
      | v0 :: v1 :: _ =>
          BytesToInt64 t ≫= fun t =>
          ParseHint ht ≫= fun ht =>
          Ok {| fo_version := (v0, v1); fo_addedAt := t; fo_ht := ht; fo_ophash := hash_of oph; fo_facthash := hash_of facth |}
      | _ => Panic
      end
  | _ => Err "wrong size operation header"
  end.
End frames.

(** ** The pool *)
(** A closed pool has no storage. *)
Record TempPool (E : Type) (C : Type -> Type) := {
  tp_pst : PrefixStorage;
  tp_enc : E;
  tp_lastvoteproofs : option (Voteproof * Voteproof);
  tp_opcache : option (C PoolOperation);
  tp_cleanRemovedNewOperationsDeep : nat;
  tp_cleanRemovedProposalDeep : nat;
  tp_cleanRemovedBallotDeep : nat
}.
Arguments tp_pst {E C} _.
Arguments tp_enc {E C} _.
Arguments tp_lastvoteproofs {E C} _.
Arguments tp_opcache {E C} _.
Arguments tp_cleanRemovedNewOperationsDeep {E C} _.
Arguments tp_cleanRemovedProposalDeep {E C} _.
Arguments tp_cleanRemovedBallotDeep {E C} _.
Arguments Build_TempPool {E C} _ _ _ _ _ _ _.

Section pool.
Context `{Crypto, BlockCrypto, HashBytes, Hints} {D E : Type} {C : Type -> Type} `{LevelDB D, Encoders E, GCache C}.
Context `{!Codec E PoolOperation, !Codec E ProposalSignFact, !Codec E SuffrageExpelOperation, !Codec E Ballot}.
Abbreviation pool := (TempPool E C).
(** The pool and the disk. *)
Record PoolWorld := { pw_pool : pool; pw_disk : D }.
Abbreviation PO := (IO PoolWorld).

Definition newTempPool (enc : E) (opcachesize : Z) : pool :=
  {| tp_pst := Some leveldbLabelPool; tp_enc := enc; tp_lastvoteproofs := None;
     tp_opcache := if 0 <? opcachesize then Some (gc_New PoolOperation) else None;
     tp_cleanRemovedNewOperationsDeep := 3; tp_cleanRemovedProposalDeep := 3; tp_cleanRemovedBallotDeep := 3 |}.
Definition set_pool (f : pool -> pool) : PO unit := modify (fun w => {| pw_pool := f (pw_pool w); pw_disk := pw_disk w |}).
Definition set_opcache (c : option (C PoolOperation)) (db : pool) : pool :=
  {| tp_pst := tp_pst db; tp_enc := tp_enc db; tp_lastvoteproofs := tp_lastvoteproofs db; tp_opcache := c;
     tp_cleanRemovedNewOperationsDeep := tp_cleanRemovedNewOperationsDeep db; tp_cleanRemovedProposalDeep := tp_cleanRemovedProposalDeep db;
     tp_cleanRemovedBallotDeep := tp_cleanRemovedBallotDeep db |}.
Definition set_lastvoteproofs (vps : option (Voteproof * Voteproof)) (db : pool) : pool :=
  {| tp_pst := tp_pst db; tp_enc := tp_enc db; tp_lastvoteproofs := vps; tp_opcache := tp_opcache db;
     tp_cleanRemovedNewOperationsDeep := tp_cleanRemovedNewOperationsDeep db; tp_cleanRemovedProposalDeep := tp_cleanRemovedProposalDeep db;
     tp_cleanRemovedBallotDeep := tp_cleanRemovedBallotDeep db |}.
Definition pool_Close : PO unit :=
  set_pool (fun db => {| tp_pst := None; tp_enc := tp_enc db; tp_lastvoteproofs := tp_lastvoteproofs db; tp_opcache := tp_opcache db;
    tp_cleanRemovedNewOperationsDeep := tp_cleanRemovedNewOperationsDeep db; tp_cleanRemovedProposalDeep := tp_cleanRemovedProposalDeep db;
    tp_cleanRemovedBallotDeep := tp_cleanRemovedBallotDeep db |}).

(** [st], and what is done with the storage. *)
Definition pool_st : PO PrefixStorage :=
  gets (fun w => tp_pst (pw_pool w)) ≫= fun st => match st with None => io_err ErrClosed | Some _ => mret st end.
Definition on_read {A} (f : D -> res A) : PO A := gets (fun w => f (pw_disk w)) ≫= io_lift.
Definition on_write (f : D -> res D) : PO unit := on_read f ≫= fun d => modify (fun w => {| pw_pool := pw_pool w; pw_disk := d |}).
Definition pool_Get (key : bytes) : PO (option bytes) := pool_st ≫= fun st => on_read (ps_Get st key).
Definition pool_Exists (key : bytes) : PO bool := pool_st ≫= fun st => on_read (ps_Exists st key).
(** A batch of the storage; its keys get the prefix when they are put. *)
Definition pool_Batch (b : batch) : PO unit := pool_st ≫= fun st => on_write (ps_Batch st (psb_op st <$> b)).
Definition pool_Iter {A} (r : Range) (f : bytes -> bytes -> A -> res (A * bool)) (ascend : bool) (a : A) : PO A :=
  pool_st ≫= fun st => on_read (fun d => ps_Iter st r f ascend d a).

(** *** Proposals *)
Definition Proposal (h : Hash) : PO (option ProposalSignFact) :=
  pool_Get (leveldbProposalKey h) ≫= fun b =>
  match b with
  | None | Some [] => mret None
  | Some b => io_lift (ReadDecodeFrame b)
  end.
Definition ProposalBytes (h : Hash) : PO (option (bytes * bytes)) :=
  pool_Get (leveldbProposalKey h) ≫= fun b =>
  match b with
  | None => mret None
  | Some b => io_lift (ReadFrame b) ≫= fun '(enchint, _, rb) => mret (Some (enchint, rb))
  end.
Definition ProposalByPoint (point : Point) (proposer : option Address) (previousBlock : option Hash) : PO (option ProposalSignFact) :=
  pool_Get (leveldbProposalPointKey point proposer previousBlock) ≫= fun b =>
  match b with None => mret None | Some b => Proposal (hash_of b) end.
Definition SetProposal (pr : ProposalSignFact) : PO bool :=
  pool_st ≫= fun _ =>
  match psf_fact pr with
  | None => io_panic
  | Some fact =>
      pool_Exists (leveldbProposalKey (pf_hash fact)) ≫= fun found =>
      if found : bool then mret false
      else
        gets (fun w => tp_enc (pw_pool w)) ≫= fun enc =>
        io_lift (EncodeFrame enc [] pr) ≫= fun '(_, prb) =>
        pool_Batch [(leveldbProposalKey (pf_hash fact), Some prb);
                    (leveldbProposalPointKey (pf_point fact) (pf_proposer fact) (pf_previousBlock fact), Some (Hash_Bytes (pf_hash fact)))] ≫= fun _ =>
        mret true
  end.

(** *** Operations *)
Definition opFromCache (h : Hash) : PO (option PoolOperation) := fun w =>
  match tp_opcache (pw_pool w) with
  | None => (Ok None, w)
  | Some c => let '(op, c) := gc_Get h c in (Ok op, {| pw_pool := set_opcache (Some c) (pw_pool w); pw_disk := pw_disk w |})
  end.
Definition setOpCache (op : PoolOperation) : PO unit :=
  set_pool (fun db => set_opcache ((fun c : C PoolOperation => gc_Set (po_hash op) op c) <$> tp_opcache db) db).
Definition Operation (h : Hash) : PO (option PoolOperation) :=
  opFromCache h ≫= fun op =>
  match op with
  | Some op => mret (Some op)
  | None =>
      pool_Get (leveldbNewOperationKey h) ≫= fun b =>
      match b with
      | None | Some [] => mret None
      | Some b =>
          io_lift (ReadDecodeFrame b) ≫= fun op =>
          match op with None => io_panic | Some op => setOpCache op ≫= fun _ => mret (Some op) end
      end
  end.
Definition OperationBytes (h : Hash) : PO (option (bytes * bytes)) :=
  pool_Get (leveldbNewOperationKey h) ≫= fun b =>
  match b with
  | None => mret None
  | Some b => io_lift (ReadFrame b) ≫= fun '(enchint, _, rb) => mret (Some (enchint, rb))
  end.
(** [now] when the key is made, [now'] when the record is. *)
Definition SetOperation (now now' : Z) (op : PoolOperation) : PO bool :=
  let oph := po_hash op in
  let key := leveldbNewOperationKey oph in
  let orderedkey := leveldbNewOperationOrderedKey now oph in
  pool_Exists key ≫= fun found =>
  if found : bool then mret false
  else
    gets (fun w => tp_enc (pw_pool w)) ≫= fun enc =>
    io_lift (EncodeFrame enc [] op) ≫= fun '(_, opb) =>
    io_lift (WriteFrameHeaderOperation now' op) ≫= fun oprb =>
    pool_Batch [(key, Some opb); (orderedkey, Some oprb); (leveldbNewOperationKeysKey oph, Some orderedkey)] ≫= fun _ =>
    setOpCache op ≫= fun _ => mret true.

(** What [OperationHashes] captures: the slices, up to their indices, and the facts. *)
Record OpScan := { os_ops : list (Hash * Hash); os_removeOrdered : list bytes; os_removeOps : list Hash; os_facts : list Hash }.
Definition full {A} (limit : Z) (l : list A) : bool := limit <=? Z.of_nat (length l).
Definition scan_operation (limit : Z) (filter : FrameHeaderPoolOperation -> res bool) (k b : bytes) (s : OpScan) : res (OpScan * bool) :=
  match ReadFrameHeaderOperation b with
  | Panic => Panic
  | Err _ =>
      if full limit (os_removeOrdered s) then Panic
      else Ok ({| os_ops := os_ops s; os_removeOrdered := os_removeOrdered s ++ [k]; os_removeOps := os_removeOps s; os_facts := os_facts s |}, true)
  | Ok meta =>
      filter meta ≫= fun ok =>
      if negb ok then
        if full limit (os_removeOps s) then Panic
        else
          let s := {| os_ops := os_ops s; os_removeOrdered := os_removeOrdered s; os_removeOps := os_removeOps s ++ [fo_ophash meta]; os_facts := os_facts s |} in
          Ok (s, negb (full limit (os_removeOps s)))
      else if bool_decide (fo_facthash meta ∈ os_facts s) then Ok (s, true)
      else if full limit (os_ops s) || full limit (os_removeOps s) then Panic
      else
        let s := {| os_ops := os_ops s ++ [(fo_ophash meta, fo_facthash meta)]; os_removeOrdered := os_removeOrdered s;
                    os_removeOps := os_removeOps s ++ [fo_ophash meta]; os_facts := fo_facthash meta :: os_facts s |} in
        Ok (s, negb (full limit (os_removeOps s) || full limit (os_ops s)))
  end.
Definition removeNewOperationOrdereds (keys : list bytes) : PO unit :=
  if (length keys <? 1)%nat then mret tt else pool_Batch ((fun k => (k, None)) <$> keys).

Variable sched : forall {J}, list J -> list J.
(** A worker for each hash; they hand their part of the batch to one that collects. *)
Definition remove_operation (height : Z) (h : Hash) : IO (PoolWorld * batch) unit := fun '(w, b) =>
  match pool_Get (leveldbNewOperationKeysKey h) w with
  | (Ok None, w) => (Ok tt, (w, b))
  | (Ok (Some orderedkey), w) =>
      (Ok tt, (w, b ++ [(leveldbNewOperationKeysKey h, None); (orderedkey, None); (leveldbRemovedNewOperationKey height h, Some (Hash_Bytes h))]))
  | (Err e, w) => (Err e, (w, b))
  | (Panic, w) => (Panic, (w, b))
  end.
Definition setRemoveNewOperations (height : Z) (operationhashes : list Hash) : PO unit := fun w =>
  if (length operationhashes <? 1)%nat then (Ok tt, w)
  else
    match (pool_st ≫= fun _ : PrefixStorage => mret tt) w with
    | (Ok _, w) =>
        match run_jobs (remove_operation height) (sched operationhashes) (w, []) with
        | (Ok _, (w, b)) => if (length b <? 1)%nat then (Ok tt, w) else pool_Batch b w
        | (Err e, (w, _)) => (Err e, w)
        | (Panic, (w, _)) => (Panic, w)
        end
    | r => r
    end.
Definition OperationHashes (height limit : Z) (filter : option (FrameHeaderPoolOperation -> res bool)) : PO (list (Hash * Hash)) :=
  pool_Iter (BytesPrefix leveldbKeyPrefixNewOperationOrdered) (scan_operation limit (default (fun _ => Ok true) filter)) true
    {| os_ops := []; os_removeOrdered := []; os_removeOps := []; os_facts := [] |} ≫= fun s =>
  removeNewOperationOrdereds (os_removeOrdered s) ≫= fun _ =>
  setRemoveNewOperations height (os_removeOps s) ≫= fun _ =>
  mret (os_ops s).
Definition offsetRangeLeveldbOperationOrderedKey (offset : option bytes) : Range :=
  let r := BytesPrefix leveldbKeyPrefixNewOperationOrdered in
  match offset with
  | None => r
  | Some offset =>
      let start := default [] (r_Limit (BytesPrefix (NewPrefixKey leveldbKeyPrefixNewOperationOrdered [offset]))) in
      let limit := default [] (r_Limit r) in
      (* [copy] into a slice of the length of [start] *)
      {| r_Start := Some start; r_Limit := Some (take (length start) limit ++ replicate (length start - length limit) 0) |}
  end.

(** The callback may use the pool; the iterator does not see what is written meanwhile. *)
Definition pool_IterM {A} (r : Range) (f : bytes -> bytes -> A -> PO (A * bool)) (ascend : bool) (a : A) : PO A :=
  pool_st ≫= fun st =>
  on_read (fun d => ps_range st r ≫= fun nr => Ok (let l := ldb_entries nr d in if ascend then l else reverse l)) ≫= fun l =>
  iter (fun k v a => io_lift (origkey st k) ≫= fun k => f k v a) l a.
Definition TraverseOperationsBytes {A} (offset : option bytes) (f : bytes -> FrameHeaderPoolOperation -> bytes -> bytes -> A -> PO (A * bool)) (a : A) : PO A :=
  pool_IterM (offsetRangeLeveldbOperationOrderedKey offset) (fun key b a =>
    io_lift (ReadFrameHeaderOperation b) ≫= fun meta =>
    OperationBytes (fo_ophash meta) ≫= fun op =>
    match op with
    | None => io_err "operation not found by ordered key"
    | Some (enchint, body) => io_lift (offsetFromLeveldbOperationOrderedKey key) ≫= fun off => f enchint meta body off a
    end) true a.

(** *** Expels *)
Definition expel_of (height : Z) (node : Address) (b : bytes) (found : option (bytes * bytes)) : res (option (bytes * bytes) * bool) :=
  ReadFrameHeaderSuffrageExpelOperation b ≫= fun '(ht, r, opb) =>
  if negb (bool_decide (str_bytes (address_bytes node) = fx_node r)) then Ok (found, true)
  else if (fx_end r <? height) || (height <? fx_start r) then Ok (found, false)
  else Ok (Some (ht, opb), false).
Definition pool_SuffrageExpelOperation (height : Z) (node : Address) : PO (option SuffrageExpelOperation) :=
  pool_Iter (BytesPrefix leveldbKeySuffrageExpelOperation) (fun _ => expel_of height node) false None ≫= fun found =>
  match found with
  | None => mret None
  | Some (enchint, opb) => io_lift (DecodeFrame enchint opb)
  end.
Definition SetSuffrageExpelOperation (op : SuffrageExpelOperation) : PO unit :=
  gets (fun w => tp_enc (pw_pool w)) ≫= fun enc =>
  io_lift (EncodeFrameSuffrageExpelOperation enc op) ≫= fun opb =>
  pool_st ≫= fun st => on_write (ps_Put st (leveldbSuffrageExpelOperation (xo_fact op)) opb).
Definition TraverseSuffrageExpelOperations {A} (height : Z) (callback : option SuffrageExpelOperation -> A -> PO (A * bool)) (a : A) : PO A :=
  pool_IterM (BytesPrefix leveldbKeySuffrageExpelOperation) (fun _ b a =>
    io_lift (ReadFrameHeaderSuffrageExpelOperation b) ≫= fun '(enchint, r, opb) =>
    if (fx_end r <? height) || (height <? fx_start r) then mret (a, false)
    else io_lift (DecodeFrame enchint opb) ≫= fun op => callback op a) false a.
Definition RemoveSuffrageExpelOperationsByFact (facts : list SuffrageExpelFact) : PO unit :=
  pool_Batch ((fun fact => (leveldbSuffrageExpelOperation fact, None)) <$> facts).
Definition expired_expel (height : Z) (key b : bytes) (batch : batch) : res (Leveldb.batch * bool) :=
  ReadFrameHeaderSuffrageExpelOperation b ≫= fun '(_, r, _) =>
  Ok (if height <? fx_end r then batch else batch ++ [(key, None)], true).
Definition RemoveSuffrageExpelOperationsByHeight (height : Z) : PO unit :=
  pool_Iter (BytesPrefix leveldbKeySuffrageExpelOperation) (expired_expel height) false [] ≫= pool_Batch.

(** *** Last voteproofs *)
Definition LastVoteproofs : PO (option (Voteproof * Voteproof)) := gets (fun w => tp_lastvoteproofs (pw_pool w)).
Definition SetLastVoteproofs (ivp avp : option Voteproof) : PO unit :=
  match ivp, avp with
  | Some ivp, Some avp =>
      if negb (Point_Equal (sp_point (vp_point ivp)) (sp_point (vp_point avp))) then io_err "voteproofs should have same point"
      else set_pool (fun db =>
        match tp_lastvoteproofs db with
        | Some (old, _) => if StagePoint_Compare (vp_point ivp) (vp_point old) <? 1 then db else set_lastvoteproofs (Some (ivp, avp)) db
        | None => set_lastvoteproofs (Some (ivp, avp)) db
        end)
  | _, _ => set_pool (set_lastvoteproofs None)
  end.

(** *** Ballots *)
Definition pool_Ballot (point : Point) (stage : Stage) (isSuffrageConfirm : bool) : PO (option Ballot) :=
  let spoint := NewStagePoint point stage in
  io_lift (StagePoint_IsValid spoint) ≫= fun _ =>
  pool_Get (leveldbBallotKey spoint isSuffrageConfirm) ≫= fun b =>
  match b with
  | None | Some [] => mret None
  | Some b => io_lift (ReadDecodeFrame b)
  end.
Definition SetBallot (bl : Ballot) : PO bool :=
  let key := leveldbBallotKey (bl_point bl) (IsSuffrageConfirmBallotFact (Some (sf_fact (bl_signFact bl)))) in
  pool_Exists key ≫= fun found =>
  if found : bool then mret false
  else
    gets (fun w => tp_enc (pw_pool w)) ≫= fun enc =>
    io_lift (EncodeFrame enc [] bl) ≫= fun '(_, blb) =>
    pool_st ≫= fun st => on_write (ps_Put st key blb) ≫= fun _ => mret true.

(** *** Empty heights *)
Definition EmptyHeights {A} (f : Z -> A -> PO A) (a : A) : PO A :=
  pool_IterM (BytesPrefix leveldbKeyPrefixEmptyHeight) (fun key _ a =>
    io_lift (heightFromKey key leveldbKeyPrefixEmptyHeight) ≫= fun height => f height a ≫= fun a => mret (a, true)) true a.
Definition AddEmptyHeight (height : Z) : PO bool :=
  let key := leveldbEmptyHeight height in
  pool_Exists key ≫= fun found =>
  if found : bool then mret false else pool_st ≫= fun st => on_write (ps_Put st key []) ≫= fun _ => mret true.
Definition RemoveEmptyHeight (height : Z) : PO bool :=
  let key := leveldbEmptyHeight height in
  pool_Exists key ≫= fun found =>
  if negb found then mret false else pool_st ≫= fun st => on_write (ps_Delete st key) ≫= fun _ => mret true.

(** *** Cleaning *)
(** The key of the highest height comes first. *)
Definition top_removed (key _ : bytes) (top : Z) : res (Z * bool) :=
  match heightFromKey key leveldbKeyPrefixRemovedNewOperation with
  | Ok i => Ok (if top <? i then i else top, false)
  | Err _ => Ok (top, true)
  | Panic => Panic
  end.
(** One entry a turn: the callback does not go on. *)
Definition removed_step (key b : bytes) (s : batch * bytes * nat) : res (batch * bytes * nat * bool) :=
  let '(batch, start, removed) := s in
  if (333 <=? length batch)%nat then Ok ((batch, key, removed), false)
  else Ok ((batch ++ [(key, None); (leveldbNewOperationKey (hash_of b), None)], start, S removed), false).
(** An error of the iterator or of the batch ends the loop. *)
Fixpoint clean_removed (fuel : nat) (limit start : bytes) (removed : nat) : PO nat := fun w =>
  match fuel with
  | O => (Err "out of fuel", w)
  | S fuel =>
      match pool_Iter {| r_Start := Some start; r_Limit := Some limit |} removed_step true ([], start, removed) w with
      | (Ok (batch, start, removed), w) =>
          if (length batch <? 1)%nat then (Ok removed, w)
          else
            match pool_Batch batch w with
            | (Ok _, w) => clean_removed fuel limit start removed w
            | (Err _, w) => (Ok removed, w)
            | (Panic, w) => (Panic, w)
            end
      | (Err _, w) => (Ok removed, w)
      | (Panic, w) => (Panic, w)
      end
  end.
Definition cleanRemovedNewOperations (fuel : nat) : PO nat :=
  pool_st ≫= fun _ =>
  io_try (pool_Iter (BytesPrefix leveldbKeyPrefixRemovedNewOperation) top_removed false NilHeight) ≫= fun r =>
  let top := match r with Ok top => top | _ => NilHeight end in
  if wrap_s 64 (top - 3) <? GenesisHeight then mret 0%nat
  else
    gets (fun w => tp_cleanRemovedNewOperationsDeep (pw_pool w)) ≫= fun deep =>
    let height := Nat.iter (deep - 1) Height_SafePrev top in
    clean_removed fuel (leveldbRemovedNewOperationPrefixWithHeight height) leveldbKeyPrefixRemovedNewOperation 0.

Definition recLimit : nat := 10000.
Definition byteLimit : Z := 4 * 2 ^ 20.
(** The batch, what is removed, and the counts of the batch. *)
Record Cleaning := { cl_batch : batch; cl_removed : nat; cl_recCnt : nat; cl_byteCnt : Z }.
Definition clean_step (prefix : KeyPrefix) (cutoff : Z) (keyf : option (bytes -> bytes -> batch)) (k v : bytes) (s : Cleaning) : PO (Cleaning * bool) :=
  io_lift (heightFromKey k prefix) ≫= fun h =>
  if cutoff <? h then mret (s, true)
  else
    let batch := cl_batch s ++ (k, None) :: match keyf with Some f => f k v | None => [] end in
    let recCnt := S (cl_recCnt s) in
    let byteCnt := cl_byteCnt s + Z.of_nat (length k + length v) in
    if (recLimit <=? recCnt)%nat || (byteLimit <=? byteCnt) then
      pool_Batch batch ≫= fun _ =>
      mret ({| cl_batch := []; cl_removed := cl_removed s + recCnt; cl_recCnt := 0; cl_byteCnt := 0 |}, true)
    else mret ({| cl_batch := batch; cl_removed := cl_removed s; cl_recCnt := recCnt; cl_byteCnt := byteCnt |}, true).
(** [None]: there is nothing to remove. *)
Fixpoint clean_cutoff (deep : nat) (cutoff : Z) : option Z :=
  match deep with
  | O => Some cutoff
  | S deep => let cutoff := Height_SafePrev cutoff in if cutoff <? GenesisHeight then None else clean_cutoff deep cutoff
  end.
Definition cleanByHeight (prefix : KeyPrefix) (deep : nat) (keyf : option (bytes -> bytes -> batch)) : PO nat :=
  pool_st ≫= fun _ =>
  pool_Iter (BytesPrefix prefix) (fun k _ _ => heightFromKey k prefix ≫= fun h => Ok (h, false)) false 0 ≫= fun top =>
  if top =? NilHeight then mret 0%nat
  else
    match clean_cutoff deep top with
    | None => mret 0%nat
    | Some cutoff =>
        pool_IterM (BytesPrefix prefix) (clean_step prefix cutoff keyf) true {| cl_batch := []; cl_removed := 0; cl_recCnt := 0; cl_byteCnt := 0 |} ≫= fun s =>
        if (0 <? cl_recCnt s)%nat then pool_Batch (cl_batch s) ≫= fun _ => mret (cl_removed s + cl_recCnt s)%nat
        else mret (cl_removed s)
    end.
Definition cleanProposals : PO nat :=
  gets (fun w => tp_cleanRemovedProposalDeep (pw_pool w)) ≫= fun deep =>
  cleanByHeight leveldbKeyPrefixProposalByPoint deep (Some (fun _ b => [(leveldbProposalKey (hash_of b), None)])).
Definition cleanBallots : PO nat :=
  gets (fun w => tp_cleanRemovedBallotDeep (pw_pool w)) ≫= fun deep => cleanByHeight leveldbKeyPrefixBallot deep None.
(** A tick of [startClean]. *)
Definition startClean (fuel : nat) : PO unit :=
  pool_st ≫= fun _ =>
  io_try (cleanRemovedNewOperations fuel) ≫= fun _ =>
  io_try cleanProposals ≫= fun _ =>
  io_try cleanBallots ≫= fun _ => mret tt.
End pool.
