(* ===== verification/PoolLaws.v ===== *)
(** * What the pool promises

    The proofs about [Pool]: an operation that was put into the pool is given away in
    the order in which it came, and not twice. *)
From S2P Require Import Prelude Point Vote Slice Ballot Voteproof LockedMap Batch Block State Bytes Frame Leveldb Tempdb Stored Proposals Effects CenterHistory Pool.

Open Scope Z_scope.

(** A hash comes back from its bytes; base58 is of another package. *)
Class HashBytesLaws `{Crypto, HashBytes} : Prop := hash_of_Bytes : forall h, hash_of (Hash_Bytes h) = h.

(** ** Frames of records *)
Section frames.
Context `{Crypto, HashBytes, Hints, !HashBytesLaws}.

Definition record_of (now : Z) (op : PoolOperation) : bytes :=
  frame_of [[0; 1]; Int64ToBytes now; default [] (po_hint op); Hash_Bytes (po_hash op); Hash_Bytes (po_fact op)] [].
Lemma WriteFrameHeaderOperation_ok now op : WriteFrameHeaderOperation now op = Ok (record_of now op).
Proof.
  unfold WriteFrameHeaderOperation, record_of.
  pose proof (writeFrame_ok [[0; 1]; Int64ToBytes now; default [] (po_hint op); Hash_Bytes (po_hash op); Hash_Bytes (po_fact op)] []) as Hw.
  unfold writeFrame in Hw. destruct (NewBytesFrameWriter []) as [e fw]. destruct (written_to (fw_Header fw _)) as [fw'|er|]; [|done..].
  cbn [mbind res_bind] in *. unfold Write, Buffer_Writer, written_to in Hw. simpl in Hw. rewrite app_nil_r in Hw. exact Hw.
Qed.

(** An operation whose record can be read, and what is read. *)
Record op_ok (op : PoolOperation) : Prop := {
  ok_hash : short (Hash_Bytes (po_hash op));
  ok_fact : short (Hash_Bytes (po_fact op));
  ok_hint : exists ht, po_hint op = Some ht /\ short ht /\ ParseHint ht = Ok ht
}.
Definition meta_of (now : Z) (op : PoolOperation) : FrameHeaderPoolOperation :=
  {| fo_version := (0, 1); fo_addedAt := now; fo_ht := default [] (po_hint op); fo_ophash := po_hash op; fo_facthash := po_fact op |}.
Lemma ReadFrameHeaderOperation_record now op : op_ok op -> i64 now -> ReadFrameHeaderOperation (record_of now op) = Ok (meta_of now op).
Proof.
  intros [Hh Hf (ht & Eht & Hs & Hp)] Hnow. unfold ReadFrameHeaderOperation, record_of, meta_of. rewrite Eht. simpl default.
  set (hs := [[0; 1]; Int64ToBytes now; ht; Hash_Bytes (po_hash op); Hash_Bytes (po_fact op)]).
  set (fuel := frame_fuel (frame_of hs [])). assert (S (length (frame_of hs [])) < fuel)%nat as Hfuel by (unfold fuel, frame_fuel; lia).
  unfold frame_of in *. clearbody fuel. rewrite NewBytesFrameReader_buffer. cbn [mbind res_bind].
  unfold fr_Header. cbn [headerRead fr_r].
  destruct (ReadLengthedSlice_ok fuel (lengthed_slice hs ++ []) hs []) as (n & r & -> & Hr & _);
    [rewrite length_app in Hfuel; lia| |by vm_compute|done|].
  { unfold hs. repeat constructor; try done; unfold short, blen; simpl; unfold maxLengthedBytes; lia. }
  cbn [mbind option_bind no_fuel or_error res_bind]. unfold hs. cbv iota beta. rewrite BytesToInt64_Int64ToBytes by done. cbn [mbind res_bind].
  by rewrite Hp, !hash_of_Bytes.
Qed.
End frames.

(** ** The storage of the pool *)
Section storage.
Context {D E : Type} {C : Type -> Type} `{LevelDBLaws D}.
Abbreviation world := (PoolWorld (D := D) (E := E) (C := C)).
Implicit Types (w : world).

Definition open w : Prop := tp_pst (pw_pool w) = Some leveldbLabelPool.
Definition pget w (k : bytes) : option bytes := ldb_Get (pw_disk w) (leveldbLabelPool ++ k).
Definition with_disk (d : D) w : world := {| pw_pool := pw_pool w; pw_disk := d |}.
Lemma pool_bytes : is_bytes leveldbLabelPool.
Proof. by repeat constructor. Qed.
#[local] Hint Resolve pool_bytes : core.

Lemma ps_keyed_given {A} p k (f : bytes -> A) : k <> [] -> ps_keyed (Some p) k f = Ok (f (p ++ k)).
Proof. by destruct k. Qed.
Lemma pool_Get_ok k w : open w -> k <> [] -> pool_Get k w = (Ok (pget w k), w).
Proof.
  intros Ho Hk. unfold pool_Get, pool_st, on_read, mbind, io_bind, gets. rewrite Ho. simpl. unfold io_lift, ps_Get. by rewrite ps_keyed_given.
Qed.
Lemma pool_Exists_ok k w : open w -> k <> [] -> pool_Exists k w = (Ok (bool_decide (is_Some (pget w k))), w).
Proof.
  intros Ho Hk. unfold pool_Exists, pool_st, on_read, mbind, io_bind, gets. rewrite Ho. simpl. unfold io_lift, ps_Exists. by rewrite ps_keyed_given.
Qed.
Lemma pool_Iter_ok {A} p (f : bytes -> bytes -> A -> res (A * bool)) asc a w : open w -> is_bytes p -> p <> [] ->
  pool_Iter (BytesPrefix p) f asc a w =
    (iter f (if asc : bool then ps_list leveldbLabelPool (BytesPrefix p) (pw_disk w) else reverse (ps_list leveldbLabelPool (BytesPrefix p) (pw_disk w))) a, w).
Proof.
  intros Ho Hp Hne. unfold pool_Iter, pool_st, on_read, mbind, io_bind, gets. rewrite Ho. simpl. unfold io_lift.
  by rewrite ps_Iter_list by (done || by apply prefix_given).
Qed.
Lemma batch_get_psb k b : batch_get (leveldbLabelPool ++ k) (psb_op (Some leveldbLabelPool) <$> b) = batch_get k b.
Proof.
  induction b as [|[k' v] b IH] using rev_ind; [done|]. rewrite fmap_app. cbn [fmap list_fmap]. unfold psb_op at 2. simpl default. simpl fst. simpl snd.
  rewrite !batch_get_snoc, IH. destruct (decide (k' = k)) as [->|Hne]; [by rewrite decide_True|].
  rewrite decide_False; [done|]. by intros Eq%app_inv_head.
Qed.
Lemma pool_Batch_ok b w : open w -> exists d, pool_Batch b w = (Ok tt, with_disk d w) /\
  forall k, is_bytes k -> pget (with_disk d w) k = default (pget w k) (batch_get k b).
Proof.
  intros Ho. exists (Storage_Batch (psb_op (Some leveldbLabelPool) <$> b) (pw_disk w)). split.
  - unfold pool_Batch, pool_st, on_write, on_read, mbind, io_bind, gets. rewrite Ho. done.
  - intros k Hk. unfold pget at 1. cbn [pw_disk with_disk]. rewrite Get_Storage_Batch.
    + unfold after. by rewrite batch_get_psb.
    + apply Forall_app. split; [apply pool_bytes|done].
Qed.

(** The records, in the order in which they came. *)
Definition records w : list (bytes * bytes) := ps_list leveldbLabelPool (BytesPrefix leveldbKeyPrefixNewOperationOrdered) (pw_disk w).
Lemma records_elem w k b : (k, b) ∈ records w <-> pget w k = Some b /\ leveldbKeyPrefixNewOperationOrdered `prefix_of` k.
Proof.
  unfold records. rewrite ps_list_elem by (done || by apply prefix_given; repeat constructor). unfold pget.
  split; intros [Hg Hr]; (split; [done|]).
  - apply in_BytesPrefix in Hr; [done|by repeat constructor|]. apply ldb_Get_bytes in Hg. apply Forall_app in Hg. tauto.
  - apply in_BytesPrefix; [by repeat constructor| |done]. apply ldb_Get_bytes in Hg. apply Forall_app in Hg. tauto.
Qed.
Lemma records_sorted w : StronglySorted bytes_lt (records w).*1.
Proof. apply ps_list_sorted; [done|]. by apply prefix_given; repeat constructor. Qed.
End storage.

(** ** What is taken of the records *)
Lemma filter_in_ext {A} (P Q : A -> Prop) `{!forall x, Decision (P x), !forall x, Decision (Q x)} (l : list A) :
  (forall x, x ∈ l -> P x <-> Q x) -> filter P l = filter Q l.
Proof.
  induction l as [|x l IH]; intros Hl; [done|]. rewrite !filter_cons, IH by (intros y Hy; apply Hl; by apply list_elem_of_further).
  specialize (Hl x (list_elem_of_here _ _)). by repeat case_decide; naive_solver.
Qed.
#[export] Instance FrameHeaderPoolOperation_eq_dec : EqDecision FrameHeaderPoolOperation.
Proof. solve_decision. Defined.

Section scan.
Context `{Crypto, HashBytes, Hints}.
Abbreviation meta := FrameHeaderPoolOperation.
Variable accept : meta -> bool.

(** Up to [n] are taken out: those that are given, one for each fact, and those that
    the filter refuses. *)
Fixpoint take_ops (n : nat) (facts : list Hash) (ms : list meta) : list meta * list meta :=
  match n, ms with
  | O, _ | _, [] => ([], [])
  | S n', m :: ms =>
      if negb (accept m) then let '(o, r) := take_ops n' facts ms in (o, m :: r)
      else if bool_decide (fo_facthash m ∈ facts) then take_ops n facts ms
      else let '(o, r) := take_ops n' (fo_facthash m :: facts) ms in (m :: o, m :: r)
  end.
Lemma take_ops_0 facts ms : take_ops 0 facts ms = ([], []).
Proof. by destruct ms. Qed.

Lemma scan_operation_read limit k b s m : ReadFrameHeaderOperation b = Ok m ->
  scan_operation limit (fun m => Ok (accept m)) k b s =
    if negb (accept m) then
      if full limit (os_removeOps s) then Panic
      else
        let s := {| os_ops := os_ops s; os_removeOrdered := os_removeOrdered s; os_removeOps := os_removeOps s ++ [fo_ophash m]; os_facts := os_facts s |} in
        Ok (s, negb (full limit (os_removeOps s)))
    else if bool_decide (fo_facthash m ∈ os_facts s) then Ok (s, true)
    else if full limit (os_ops s) || full limit (os_removeOps s) then Panic
    else
      let s := {| os_ops := os_ops s ++ [(fo_ophash m, fo_facthash m)]; os_removeOrdered := os_removeOrdered s;
                  os_removeOps := os_removeOps s ++ [fo_ophash m]; os_facts := fo_facthash m :: os_facts s |} in
      Ok (s, negb (full limit (os_removeOps s) || full limit (os_ops s))).
Proof. intros E. unfold scan_operation. by rewrite E. Qed.
Definition pair_of (m : meta) : Hash * Hash := (fo_ophash m, fo_facthash m).
Lemma scan_take (l : list (bytes * bytes)) ms n limit s :
  Forall2 (fun kb m => ReadFrameHeaderOperation kb.2 = Ok m) l ms ->
  (length (os_ops s) <= length (os_removeOps s))%nat -> Z.of_nat (length (os_removeOps s) + S n) = limit ->
  let '(o, r) := take_ops (S n) (os_facts s) ms in
  exists facts, iter (scan_operation limit (fun m => Ok (accept m))) l s =
    Ok {| os_ops := os_ops s ++ (pair_of <$> o); os_removeOrdered := os_removeOrdered s; os_removeOps := os_removeOps s ++ (fo_ophash <$> r); os_facts := facts |}.
Proof.
  intros Hl. revert n s. induction Hl as [|[k b] m l ms Hr Hl IH]; intros n s Hle Hlim.
  { exists (os_facts s). simpl. rewrite !app_nil_r. by destruct s. }
  cbn [take_ops iter]. rewrite (scan_operation_read _ _ _ _ _ Hr).
  assert (full limit (os_removeOps s) = false) as Hf1 by (apply Z.leb_gt; lia). assert (full limit (os_ops s) = false) as Hf2 by (apply Z.leb_gt; lia).
  destruct (accept m) eqn:Ef; cbn [negb].
  - case_bool_decide as Hin.
    + cbn [mbind res_bind]. specialize (IH n s Hle Hlim). cbn [take_ops] in IH. exact IH.
    + rewrite Hf1, Hf2. cbn [orb mbind res_bind]. cbv zeta.
      set (s' := {| os_ops := os_ops s ++ [(fo_ophash m, fo_facthash m)]; os_removeOrdered := os_removeOrdered s;
        os_removeOps := os_removeOps s ++ [fo_ophash m]; os_facts := fo_facthash m :: os_facts s |}).
      destruct n as [|n].
      * rewrite take_ops_0. exists (os_facts s'). simpl os_removeOps. simpl os_ops. unfold full at 1. rewrite length_app. simpl length.
        rewrite (proj2 (Z.leb_le _ _)) by lia. done.
      * assert (negb (full limit (os_removeOps s') || full limit (os_ops s')) = true) as ->.
        { unfold full. simpl. rewrite !length_app. simpl. rewrite !(proj2 (Z.leb_gt _ _)) by lia. done. }
        specialize (IH n s' ltac:(simpl; rewrite !length_app; simpl; lia) ltac:(simpl; rewrite !length_app; simpl; lia)).
        change (os_facts s') with (fo_facthash m :: os_facts s) in IH. destruct (take_ops (S n) (fo_facthash m :: os_facts s) ms) as [o r].
        destruct IH as [facts ->]. exists facts. simpl. by rewrite <- !app_assoc.
  - rewrite Hf1. cbn [mbind res_bind]. cbv zeta.
    set (s' := {| os_ops := os_ops s; os_removeOrdered := os_removeOrdered s; os_removeOps := os_removeOps s ++ [fo_ophash m]; os_facts := os_facts s |}).
    destruct n as [|n].
    + rewrite take_ops_0. exists (os_facts s'). simpl os_removeOps. unfold full at 1. rewrite length_app. simpl length.
      rewrite (proj2 (Z.leb_le _ _)) by lia. simpl. by rewrite app_nil_r.
    + assert (negb (full limit (os_removeOps s')) = true) as ->.
      { unfold full. simpl. rewrite !length_app. simpl. by rewrite (proj2 (Z.leb_gt _ _)) by lia. }
      specialize (IH n s' ltac:(simpl; rewrite !length_app; simpl; lia) ltac:(simpl; rewrite !length_app; simpl; lia)).
      change (os_facts s') with (os_facts s) in IH. destruct (take_ops (S n) (os_facts s) ms) as [o r].
      destruct IH as [facts ->]. exists facts. simpl. by rewrite <- !app_assoc.
Qed.

(** A prefix of the records is looked at; in it, what is not given away and not
    refused has the fact of one that is given. *)
Record taken (n : nat) (facts : list Hash) (ms o r pre post : list meta) : Prop := {
  tk_ms : ms = pre ++ post;
  tk_o : o `sublist_of` pre;
  tk_r : r = filter (fun m => accept m = false \/ m ∈ o) pre;
  tk_facts : NoDup (fo_facthash <$> o) /\ forall m, m ∈ o -> fo_facthash m ∉ facts;
  tk_filter : forall m, m ∈ o -> accept m = true;
  tk_rest m : m ∈ pre -> accept m = true -> fo_facthash m ∈ facts \/ fo_facthash m ∈ fo_facthash <$> o;
  tk_length : (length r <= n)%nat /\ (post = [] \/ length r = n)
}.
Lemma taken_in n facts ms o r pre post m : taken n facts ms o r pre post -> m ∈ o -> m ∈ pre.
Proof. intros T Hm. eapply elem_of_submseteq; [exact Hm|]. apply sublist_submseteq, T. Qed.

(** What is taken out is given or refused. *)
Lemma taken_count n facts ms o r pre post : NoDup ms -> taken n facts ms o r pre post ->
  length r = (length o + length (filter (fun m => accept m = false) pre))%nat.
Proof.
  intros Hnd T. rewrite (tk_ms _ _ _ _ _ _ _ T) in Hnd. apply NoDup_app in Hnd as [Hnd _]. rewrite <- length_app. apply Permutation_length, NoDup_Permutation.
  - rewrite (tk_r _ _ _ _ _ _ _ T). by apply NoDup_filter.
  - apply NoDup_app. split; [by eapply sublist_NoDup, T|]. split; [|by apply NoDup_filter].
    intros m Hm [Hf _]%list_elem_of_filter. by rewrite (tk_filter _ _ _ _ _ _ _ T m Hm) in Hf.
  - intros m. rewrite (tk_r _ _ _ _ _ _ _ T), elem_of_app, !list_elem_of_filter. split; [naive_solver|].
    intros [Hm|?]; [|naive_solver]. split; [by right|by eapply taken_in].
Qed.

Lemma take_ops_taken n facts ms : NoDup ms ->
  let '(o, r) := take_ops n facts ms in exists pre post, taken n facts ms o r pre post.
Proof.
  revert n facts. induction ms as [|m ms IH]; intros n facts Hnd.
  { destruct n; exists [], []; split; simpl; try done; try (by split; [lia|left]); try (by split; [constructor|intros ? ?%elem_of_nil]);
      by intros ? ?%elem_of_nil. }
  destruct n as [|n].
  { exists [], (m :: ms). split; simpl; try done; [by split; [constructor|intros ? ?%elem_of_nil]|by intros ? ?%elem_of_nil..|by split; [|right]]. }
  apply NoDup_cons in Hnd as [Hm Hnd]. cbn [take_ops]. destruct (accept m) eqn:Ea; cbn [negb]; [case_bool_decide as Hin|].
  - specialize (IH (S n) facts Hnd). destruct (take_ops (S n) facts ms) as [o r]. destruct IH as (pre & post & T).
    exists (m :: pre), post. split; try apply T; simpl.
    + by rewrite (tk_ms _ _ _ _ _ _ _ T).
    + apply sublist_cons, T.
    + rewrite filter_cons, decide_False; [apply T|]. intros [Hf|Ho]; [congruence|]. apply Hm.
      rewrite (tk_ms _ _ _ _ _ _ _ T). apply elem_of_app. left. by eapply taken_in.
    + intros x [->|Hx]%elem_of_cons Hax; [by left|]. by eapply tk_rest.
  - specialize (IH n (fo_facthash m :: facts) Hnd). destruct (take_ops n (fo_facthash m :: facts) ms) as [o r].
    destruct IH as (pre & post & T). exists (m :: pre), post. split; simpl.
    + by rewrite (tk_ms _ _ _ _ _ _ _ T).
    + apply sublist_skip, T.
    + rewrite filter_cons, decide_True by (right; apply list_elem_of_here). f_equal. rewrite (tk_r _ _ _ _ _ _ _ T).
      apply filter_in_ext. intros x Hx. rewrite elem_of_cons. split; [tauto|]. intros [|[->|]]; [by left| |by right].
      destruct Hm. rewrite (tk_ms _ _ _ _ _ _ _ T). apply elem_of_app. by left.
    + destruct (tk_facts _ _ _ _ _ _ _ T) as [Hf Hn]. split.
      * apply NoDup_cons. split; [|done]. intros (x & Hx & Hxo)%list_elem_of_fmap. apply (Hn x Hxo). rewrite <- Hx. apply list_elem_of_here.
      * intros x [->|Hx]%elem_of_cons; [done|]. intros Hxf. apply (Hn x Hx). by apply list_elem_of_further.
    + intros x [->|Hx]%elem_of_cons; [done|]. by eapply tk_filter.
    + intros x [->|Hx]%elem_of_cons Hax; [right; apply list_elem_of_here|].
      destruct (tk_rest _ _ _ _ _ _ _ T x Hx Hax) as [[->|?]%elem_of_cons|?]; [right; apply list_elem_of_here|by left|right; by apply list_elem_of_further].
    + destruct (tk_length _ _ _ _ _ _ _ T) as [Hl Hp]. split; [lia|]. destruct Hp; [by left|right; congruence].
  - specialize (IH n facts Hnd). destruct (take_ops n facts ms) as [o r]. destruct IH as (pre & post & T). exists (m :: pre), post. split; simpl.
    + by rewrite (tk_ms _ _ _ _ _ _ _ T).
    + apply sublist_cons, T.
    + rewrite filter_cons, decide_True by (by left). f_equal. apply T.
    + apply T.
    + apply T.
    + intros x [->|Hx]%elem_of_cons Hax; [congruence|]. by eapply tk_rest.
    + destruct (tk_length _ _ _ _ _ _ _ T) as [Hl Hp]. split; [lia|]. destruct Hp; [by left|right; congruence].
Qed.
End scan.

(** ** The three entries of an operation *)
(** All the writes of a key in a batch are the same. *)
Lemma batch_get_all k x (b : batch) : (forall v, (k, v) ∈ b -> v = x) -> batch_get k b = if decide (k ∈ b.*1) then Some x else None.
Proof.
  induction b as [|[k' v] b IH] using rev_ind; intros Hx; [done|]. rewrite batch_get_snoc, fmap_app. simpl.
  destruct (decide (k' = k)) as [->|Hne].
  - rewrite decide_True by set_solver. f_equal. apply Hx. set_solver.
  - rewrite IH by (intros w Hw; apply Hx; set_solver). apply decide_ext. set_solver.
Qed.
Lemma batch_get_elem k x (b : batch) : batch_get k b = Some x -> (k, x) ∈ b.
Proof.
  induction b as [|[k' v] b IH] using rev_ind; [done|]. rewrite batch_get_snoc, elem_of_app, list_elem_of_singleton.
  case_decide as Hk; [intros [= <-]; right; by rewrite Hk|intros Hb; left; by apply IH].
Qed.

Lemma fst_sublist (l l' : list (bytes * bytes)) : l `sublist_of` l' -> l.*1 `sublist_of` l'.*1.
Proof. induction 1; simpl; by constructor. Qed.

Lemma hashes_sublist (l l' : list FrameHeaderPoolOperation) : l `sublist_of` l' -> (fo_ophash <$> l) `sublist_of` (fo_ophash <$> l').
Proof. induction 1; simpl; by constructor. Qed.

Section pool.
Context `{Crypto, HashBytes, Hints, !HashBytesLaws} {D E : Type} {C : Type -> Type} `{LevelDBLaws D, Encoders E, GCache C, !Codec E PoolOperation}.
Abbreviation world := (PoolWorld (D := D) (E := E) (C := C)).
Implicit Types (w : world) (h : Hash).

Lemma Hash_Bytes_inj h h' : Hash_Bytes h = Hash_Bytes h' -> h = h'.
Proof. intros E'. by rewrite <- (hash_of_Bytes h), E', hash_of_Bytes. Qed.
Lemma body_key h : leveldbNewOperationKey h = leveldbKeyPrefixNewOperation ++ Hash_Bytes h.
Proof. apply NewPrefixKey_1. Qed.
Lemma keys_key h : leveldbNewOperationKeysKey h = leveldbKeyPrefixNewOperationOrderedKeys ++ Hash_Bytes h.
Proof. apply NewPrefixKey_1. Qed.
Lemma ordered_key now h : leveldbNewOperationOrderedKey now h = leveldbKeyPrefixNewOperationOrdered ++ Int64ToBytes now ++ Hash_Bytes h.
Proof. apply NewPrefixKey_2. Qed.
Lemma removed_key height h : leveldbRemovedNewOperationKey height h = leveldbKeyPrefixRemovedNewOperation ++ Int64ToBytes height ++ Hash_Bytes h.
Proof.
  unfold leveldbRemovedNewOperationKey, leveldbRemovedNewOperationPrefixWithHeight. rewrite NewPrefixKey_1.
  unfold ConcatBytesSlice. simpl. by rewrite app_nil_r.
Qed.
Lemma time_app_inj a a' (b b' : bytes) : Int64ToBytes a ++ b = Int64ToBytes a' ++ b' -> b = b'.
Proof. intros [_ ?]%app_inj_1; [done|]. by rewrite !Int64ToBytes_length. Qed.
Lemma keys_key_inj h h' : leveldbNewOperationKeysKey h = leveldbNewOperationKeysKey h' <-> h = h'.
Proof. split; [|by intros ->]. rewrite !keys_key. by intros ?%app_inv_head%Hash_Bytes_inj. Qed.
Lemma body_key_inj h h' : leveldbNewOperationKey h = leveldbNewOperationKey h' <-> h = h'.
Proof. split; [|by intros ->]. rewrite !body_key. by intros ?%app_inv_head%Hash_Bytes_inj. Qed.
Lemma ordered_key_inj now now' h h' : leveldbNewOperationOrderedKey now h = leveldbNewOperationOrderedKey now' h' -> h = h'.
Proof. rewrite !ordered_key. by intros ?%app_inv_head%time_app_inj%Hash_Bytes_inj. Qed.
Lemma removed_key_inj height height' h h' : leveldbRemovedNewOperationKey height h = leveldbRemovedNewOperationKey height' h' -> h = h'.
Proof. rewrite !removed_key. by intros ?%app_inv_head%time_app_inj%Hash_Bytes_inj. Qed.

(** What an operation that is taken out leaves in the batch. *)
Definition removal_of (height : Z) w h : batch :=
  match pget w (leveldbNewOperationKeysKey h) with
  | Some k => [(leveldbNewOperationKeysKey h, None); (k, None); (leveldbRemovedNewOperationKey height h, Some (Hash_Bytes h))]
  | None => []
  end.
Lemma removal_elem height w hs k v : (k, v) ∈ hs ≫= removal_of height w <->
  exists h ok, h ∈ hs /\ pget w (leveldbNewOperationKeysKey h) = Some ok /\
    (k = leveldbNewOperationKeysKey h /\ v = None \/ k = ok /\ v = None \/
     k = leveldbRemovedNewOperationKey height h /\ v = Some (Hash_Bytes h)).
Proof.
  rewrite list_elem_of_bind. unfold removal_of. split.
  - intros (h & Hk & Hh). destruct (pget w (leveldbNewOperationKeysKey h)) as [ok|] eqn:Eo; [|by apply elem_of_nil in Hk].
    exists h, ok. rewrite !elem_of_cons, elem_of_nil in Hk. naive_solver.
  - intros (h & ok & Hh & Eo & Hk). exists h. split; [|done]. rewrite Eo, !elem_of_cons. naive_solver.
Qed.
Lemma remove_operation_ok height h w b : open w -> remove_operation height h (w, b) = (Ok tt, (w, b ++ removal_of height w h)).
Proof.
  intros Ho. unfold remove_operation, removal_of. rewrite pool_Get_ok by (done || rewrite keys_key; done).
  destruct (pget w (leveldbNewOperationKeysKey h)); [done|]. by rewrite app_nil_r.
Qed.
Lemma remove_operations_ok height hs w b : open w -> run_jobs (remove_operation height) hs (w, b) = (Ok tt, (w, b ++ (hs ≫= removal_of height w))).
Proof.
  intros Ho. revert b. induction hs as [|h hs IH]; intros b; [by rewrite app_nil_r|].
  cbn [run_jobs]. unfold mbind at 1, io_bind. rewrite remove_operation_ok by done. by rewrite IH, <- app_assoc.
Qed.
Lemma with_disk_same w : with_disk (pw_disk w) w = w.
Proof. by destruct w. Qed.

Variable sched : forall {J}, list J -> list J.
Hypothesis sched_perm : forall J (l : list J), (sched l ≡ₚ l).
Lemma setRemoveNewOperations_ok height hs w : open w -> exists d, setRemoveNewOperations (@sched) height hs w = (Ok tt, with_disk d w) /\
  forall k, is_bytes k -> pget (with_disk d w) k = default (pget w k) (batch_get k (sched hs ≫= removal_of height w)).
Proof.
  intros Ho. unfold setRemoveNewOperations. destruct (Nat.ltb_spec (length hs) 1) as [Hl|Hl].
  { exists (pw_disk w). rewrite with_disk_same. split; [done|]. intros k _. destruct hs; [|simpl in Hl; lia].
    pose proof (sched_perm _ (@nil Hash)) as Hn. by apply Permutation_nil_r in Hn as ->. }
  assert ((pool_st ≫= fun _ : PrefixStorage => mret tt) w = (Ok tt, w)) as ->.
  { unfold pool_st, mbind, io_bind, gets. by rewrite Ho. }
  rewrite remove_operations_ok by done. simpl app. destruct (Nat.ltb_spec (length (sched hs ≫= removal_of height w)) 1) as [Hb|Hb].
  - exists (pw_disk w). rewrite with_disk_same. split; [done|]. intros k _. destruct (sched hs ≫= removal_of height w); [done|simpl in Hb; lia].
  - by apply pool_Batch_ok.
Qed.

(** *** The operations that wait *)
Definition meta_at (kb : bytes * bytes) : option FrameHeaderPoolOperation := match ReadFrameHeaderOperation kb.2 with Ok m => Some m | _ => None end.
Definition metas w : list FrameHeaderPoolOperation := omap meta_at (records w).
Definition waits w h : Prop := h ∈ fo_ophash <$> metas w.
Lemma metas_elem w m : m ∈ metas w <-> exists k b, (k, b) ∈ records w /\ ReadFrameHeaderOperation b = Ok m.
Proof.
  unfold metas. rewrite list_elem_of_omap. unfold meta_at. split.
  - intros ([k b] & Hr & Em). simpl in Em. exists k, b. split; [done|]. by destruct (ReadFrameHeaderOperation b); simplify_eq.
  - intros (k & b & Hr & Em). exists (k, b). simpl. by rewrite Em.
Qed.

(** The operations that were set, and those that were given away. *)
Record pool_inv w (set given : list Hash) : Prop := {
  pi_open : open w;
  pi_set h : h ∈ set <-> is_Some (pget w (leveldbNewOperationKey h));
  pi_record k b : (k, b) ∈ records w -> exists m now, ReadFrameHeaderOperation b = Ok m /\ fo_ophash m ∈ set /\
    k = leveldbNewOperationOrderedKey now (fo_ophash m) /\ pget w (leveldbNewOperationKeysKey (fo_ophash m)) = Some k;
  pi_given h : h ∈ given -> h ∈ set /\ pget w (leveldbNewOperationKeysKey h) = None;
  pi_account h : h ∈ set -> waits w h \/ exists height, is_Some (pget w (leveldbRemovedNewOperationKey height h))
}.

Lemma readable w set given : pool_inv w set given -> Forall2 (fun kb m => ReadFrameHeaderOperation kb.2 = Ok m) (records w) (metas w).
Proof.
  intros I. unfold metas. assert (forall kb, kb ∈ records w -> exists m, ReadFrameHeaderOperation kb.2 = Ok m) as Hr.
  { intros [k b] Hk. destruct (pi_record _ _ _ I k b Hk) as (m & _ & Em & _). by exists m. }
  induction (records w) as [|kb l IH]; [constructor|]. destruct (Hr kb (list_elem_of_here _ _)) as [m Em].
  simpl. unfold meta_at at 1. rewrite Em. constructor; [done|]. apply IH. intros x Hx. apply Hr. by apply list_elem_of_further.
Qed.
Lemma meta_record w set given m : pool_inv w set given -> m ∈ metas w -> exists k b, (k, b) ∈ records w /\
  ReadFrameHeaderOperation b = Ok m /\ fo_ophash m ∈ set /\ pget w (leveldbNewOperationKeysKey (fo_ophash m)) = Some k.
Proof.
  intros I (k & b & Hk & Em)%metas_elem. exists k, b. destruct (pi_record _ _ _ I k b Hk) as (m' & now & Em' & Hs & _ & Hp).
  rewrite Em in Em'. by injection Em' as <-.
Qed.
(** Each of them has one record. *)
Lemma metas_unique w set given : pool_inv w set given -> NoDup (fo_ophash <$> metas w).
Proof.
  intros I. pose proof (fun k b => pi_record _ _ _ I k b) as Hr.
  assert (NoDup (records w).*1) as Hnd.
  { pose proof (records_sorted w) as S. induction S as [|k ks S IH F]; constructor; [|done]. intros Hk.
    rewrite Forall_forall in F. by destruct (irreflexivity bytes_lt k (F k Hk)). }
  unfold metas. induction (records w) as [|[k b] l IH]; [constructor|]. apply NoDup_cons in Hnd as [Hk Hnd].
  destruct (Hr k b (list_elem_of_here _ _)) as (m & now & Em & _ & _ & Hp). simpl. unfold meta_at at 1. simpl. rewrite Em. simpl.
  constructor; [|apply IH; [|done]; intros; apply Hr; by apply list_elem_of_further].
  intros (m' & Eh & ([k' b'] & Hl & Em')%list_elem_of_omap)%list_elem_of_fmap. unfold meta_at in Em'. simpl in Em'.
  destruct (Hr k' b' (list_elem_of_further _ _ _ Hl)) as (m2 & _ & E2 & _ & _ & Hp2). rewrite E2 in Em'. injection Em' as ->.
  rewrite <- Eh, Hp in Hp2. injection Hp2 as <-. apply Hk. simpl. apply list_elem_of_fmap. by exists (k, b').
Qed.
Lemma given_not_waits w set given h : pool_inv w set given -> h ∈ given -> ~ waits w h.
Proof.
  intros I Hg (m & -> & Hm)%list_elem_of_fmap. destruct (meta_record _ _ _ _ I Hm) as (k & b & _ & _ & _ & Hp).
  destruct (pi_given _ _ _ I _ Hg) as [_ Hn]. congruence.
Qed.

Lemma hash_bytes_bytes h : is_bytes (Hash_Bytes h).
Proof. apply str_bytes_bytes. Qed.
Lemma body_bytes h : is_bytes (leveldbNewOperationKey h).
Proof. rewrite body_key. apply Forall_app. split; [by repeat constructor|apply hash_bytes_bytes]. Qed.
Lemma keys_bytes h : is_bytes (leveldbNewOperationKeysKey h).
Proof. rewrite keys_key. apply Forall_app. split; [by repeat constructor|apply hash_bytes_bytes]. Qed.
Lemma removed_bytes height h : is_bytes (leveldbRemovedNewOperationKey height h).
Proof. rewrite removed_key. repeat apply Forall_app_2; [by repeat constructor|apply Uint64ToBytes_bytes|apply hash_bytes_bytes]. Qed.
Lemma ordered_bytes now h : is_bytes (leveldbNewOperationOrderedKey now h).
Proof. rewrite ordered_key. repeat apply Forall_app_2; [by repeat constructor|apply Uint64ToBytes_bytes|apply hash_bytes_bytes]. Qed.
Lemma ordered_prefix now h : leveldbKeyPrefixNewOperationOrdered `prefix_of` leveldbNewOperationOrderedKey now h.
Proof. rewrite ordered_key. by eexists. Qed.
(** Keys of different kinds are different. *)
Lemma keys_apart h h' height : leveldbNewOperationKey h <> leveldbNewOperationKeysKey h' /\
  leveldbNewOperationKey h <> leveldbRemovedNewOperationKey height h' /\ leveldbNewOperationKeysKey h <> leveldbRemovedNewOperationKey height h'.
Proof. rewrite !body_key, !keys_key, !removed_key. by repeat split. Qed.
Lemma ordered_apart h height k : leveldbKeyPrefixNewOperationOrdered `prefix_of` k ->
  leveldbNewOperationKey h <> k /\ leveldbNewOperationKeysKey h <> k /\ leveldbRemovedNewOperationKey height h <> k.
Proof. intros [x ->]. rewrite !body_key, !keys_key, !removed_key. by repeat split. Qed.

Lemma pool_inv_cache w set given c : pool_inv w set given ->
  pool_inv {| pw_pool := set_opcache c (pw_pool w); pw_disk := pw_disk w |} set given.
Proof. intros I. destruct w as [pl d]. split; apply I. Qed.

(** An operation that is new to the pool, put there. *)
Section put.
Variables (w w' : world) (set given : list Hash) (now now' : Z) (op : PoolOperation) (opb : bytes).
Abbreviation ord := (leveldbNewOperationOrderedKey now (po_hash op)).
Hypothesis I : pool_inv w set given.
Hypotheses (Hop : op_ok op) (Hnow : i64 now') (Hnew : po_hash op ∉ set) (Hopen : open w').
Hypothesis Hput : forall k, is_bytes k -> pget w' k = default (pget w k)
  (batch_get k [(leveldbNewOperationKey (po_hash op), Some opb); (ord, Some (record_of now' op)); (leveldbNewOperationKeysKey (po_hash op), Some ord)]).

Lemma put_get k : is_bytes k -> pget w' k =
  if decide (k = leveldbNewOperationKeysKey (po_hash op)) then Some ord
  else if decide (k = ord) then Some (record_of now' op)
  else if decide (k = leveldbNewOperationKey (po_hash op)) then Some opb else pget w k.
Proof. intros Hk. rewrite Hput by done. unfold batch_get. simpl. by repeat (case_bool_decide || case_decide); simplify_eq. Qed.
Lemma put_other k : is_bytes k -> k <> leveldbNewOperationKeysKey (po_hash op) -> k <> ord -> k <> leveldbNewOperationKey (po_hash op) ->
  pget w' k = pget w k.
Proof. intros. by rewrite put_get, !decide_False. Qed.
Lemma put_body h : is_Some (pget w' (leveldbNewOperationKey h)) <-> h = po_hash op \/ is_Some (pget w (leveldbNewOperationKey h)).
Proof.
  rewrite put_get by apply body_bytes. rewrite (decide_False (P := _ = leveldbNewOperationKeysKey _)) by apply (keys_apart _ _ 0).
  rewrite (decide_False (P := _ = ord)) by (apply (ordered_apart _ 0), ordered_prefix). rewrite (decide_ext _ _ _ _ (body_key_inj _ _)).
  case_decide; naive_solver.
Qed.
Lemma put_keys h : pget w' (leveldbNewOperationKeysKey h) = if decide (h = po_hash op) then Some ord else pget w (leveldbNewOperationKeysKey h).
Proof.
  rewrite put_get by apply keys_bytes. rewrite (decide_ext _ _ _ _ (keys_key_inj _ _)). case_decide; [done|].
  rewrite decide_False by (apply (ordered_apart _ 0), ordered_prefix). rewrite decide_False; [done|]. intros E'. symmetry in E'. by apply (keys_apart _ _ 0) in E'.
Qed.
Lemma put_removed height h : pget w' (leveldbRemovedNewOperationKey height h) = pget w (leveldbRemovedNewOperationKey height h).
Proof.
  apply put_other; [apply removed_bytes| | |]; intros E'; symmetry in E'; [by apply (keys_apart _ _ _) in E'| |by apply (keys_apart _ _ _) in E'].
  symmetry in E'. revert E'. apply (ordered_apart _ height), ordered_prefix.
Qed.
Lemma put_records k b : (k, b) ∈ records w' <-> k = ord /\ b = record_of now' op \/ (k, b) ∈ records w.
Proof.
  assert ((k, b) ∈ records w -> k <> ord) as Hold.
  { intros Hk ->. destruct (pi_record _ _ _ I _ _ Hk) as (m & n & _ & Hs & Eo & _). apply ordered_key_inj in Eo. by rewrite <- Eo in Hs. }
  assert (is_bytes k -> leveldbKeyPrefixNewOperationOrdered `prefix_of` k ->
    pget w' k = if decide (k = ord) then Some (record_of now' op) else pget w k) as Hg.
  { intros Hk Hp. rewrite put_get by done. destruct (ordered_apart (po_hash op) 0 k Hp) as (? & ? & _).
    rewrite (decide_False (P := _ = leveldbNewOperationKeysKey _)), (decide_False (P := _ = leveldbNewOperationKey _)) by done. done. }
  assert (forall (w : world) k b, pget w k = Some b -> is_bytes k) as Hb.
  { intros w0 k0 b0 Hk. apply ldb_Get_bytes in Hk. apply Forall_app in Hk. tauto. }
  split.
  - intros Hk. pose proof Hk as [Hv Hp]%records_elem. rewrite Hg in Hv by eauto. case_decide; [left; naive_solver|]. right. by apply records_elem.
  - intros [[-> ->]|Hk]; apply records_elem.
    + split; [|apply ordered_prefix]. rewrite Hg by (apply ordered_bytes || apply ordered_prefix). by rewrite decide_True.
    + pose proof (Hold Hk) as Hne. apply records_elem in Hk as [Hv Hp]. split; [|done]. rewrite Hg by eauto. by rewrite decide_False.
Qed.
Lemma put_inv : pool_inv w' (po_hash op :: set) given.
Proof.
  split; [done|..].
  - intros h. rewrite put_body, elem_of_cons, (pi_set _ _ _ I h). done.
  - intros k b [[-> ->]|Hk]%put_records.
    + exists (meta_of now' op), now. rewrite ReadFrameHeaderOperation_record by done. simpl. rewrite put_keys, decide_True by done.
      repeat split; try done. apply list_elem_of_here.
    + destruct (pi_record _ _ _ I _ _ Hk) as (m & n & Em & Hs & Ek & Hp). exists m, n. rewrite put_keys, decide_False by (intros E'; by rewrite E' in Hs).
      repeat split; try done. by apply list_elem_of_further.
  - intros h Hh. destruct (pi_given _ _ _ I h Hh) as [Hs Hp]. rewrite put_keys, decide_False by (by intros ->).
    split; [by apply list_elem_of_further|done].
  - intros h [->|Hh]%elem_of_cons.
    + left. apply list_elem_of_fmap. exists (meta_of now' op). split; [done|]. apply metas_elem. exists ord, (record_of now' op).
      split; [apply put_records; by left|by apply ReadFrameHeaderOperation_record].
    + destruct (pi_account _ _ _ I h Hh) as [(m & -> & (k & b & Hk & Em)%metas_elem)%list_elem_of_fmap|(height & Hr)].
      * left. apply list_elem_of_fmap. exists m. split; [done|]. apply metas_elem. exists k, b. split; [apply put_records; by right|done].
      * right. exists height. by rewrite put_removed.
Qed.
End put.

Lemma SetOperation_inv now now' op w set given : pool_inv w set given -> op_ok op -> i64 now' ->
  match SetOperation now now' op w with
  | (Ok true, w') => po_hash op ∉ set /\ pool_inv w' (po_hash op :: set) given
  | (_, w') => pool_inv w' set given
  end.
Proof.
  intros I Hop Hnow. unfold SetOperation. cbv zeta. unfold mbind at 1, io_bind at 1.
  rewrite pool_Exists_ok by (apply I || (by rewrite body_key)). case_bool_decide as Hs; [done|]. rewrite <- (pi_set _ _ _ I) in Hs.
  unfold mbind, io_bind, gets, io_lift. destruct (EncodeFrame _ _ op) as [[mb opb]|e|]; [|done..]. rewrite WriteFrameHeaderOperation_ok.
  destruct (pool_Batch_ok [(leveldbNewOperationKey (po_hash op), Some opb); (leveldbNewOperationOrderedKey now (po_hash op), Some (record_of now' op));
    (leveldbNewOperationKeysKey (po_hash op), Some (leveldbNewOperationOrderedKey now (po_hash op)))] w (pi_open _ _ _ I)) as (d & -> & Hd).
  split; [done|]. apply pool_inv_cache. by eapply put_inv; [exact I|..|exact Hd]; try apply I.
Qed.

Lemma records_fun w k b b' : (k, b) ∈ records w -> (k, b') ∈ records w -> b = b'.
Proof. intros [Hb _]%records_elem [Hb' _]%records_elem. congruence. Qed.
Lemma waits_record w set given h : pool_inv w set given -> waits w h -> exists k b m, (k, b) ∈ records w /\
  ReadFrameHeaderOperation b = Ok m /\ fo_ophash m = h /\ pget w (leveldbNewOperationKeysKey h) = Some k.
Proof. intros I (m & -> & Hm)%list_elem_of_fmap. destruct (meta_record _ _ _ _ I Hm) as (k & b & Hk & Em & _ & Hp). by exists k, b, m. Qed.
(** The key of a record is that of one operation. *)
Lemma key_hash w set given k b m h : pool_inv w set given -> (k, b) ∈ records w -> ReadFrameHeaderOperation b = Ok m ->
  waits w h -> pget w (leveldbNewOperationKeysKey h) = Some k -> h = fo_ophash m.
Proof.
  intros I Hk Em Hw Hp. destruct (waits_record _ _ _ _ I Hw) as (k' & b' & m' & Hk' & Em' & <- & Hp'). rewrite Hp in Hp'. injection Hp' as <-.
  rewrite (records_fun _ _ _ _ Hk Hk') in Em. by rewrite Em in Em'; injection Em' as <-.
Qed.
Lemma meta_hash w set given m m' : pool_inv w set given -> m ∈ metas w -> m' ∈ metas w -> fo_ophash m = fo_ophash m' -> m = m'.
Proof.
  intros I Hm Hm' Eh. destruct (meta_record _ _ _ _ I Hm) as (k & b & Hk & Em & _ & Hp). destruct (meta_record _ _ _ _ I Hm') as (k' & b' & Hk' & Em' & _ & Hp').
  rewrite Eh, Hp' in Hp. injection Hp as <-. rewrite (records_fun _ _ _ _ Hk Hk') in Em. congruence.
Qed.
Lemma meta_cons kb (l : list (bytes * bytes)) : omap meta_at (kb :: l) = match meta_at kb with Some m => m :: omap meta_at l | None => omap meta_at l end.
Proof. done. Qed.
Lemma omap_meta_filter (P : bytes * bytes -> Prop) (Q : FrameHeaderPoolOperation -> Prop) `{!forall x, Decision (P x), !forall x, Decision (Q x)} (l : list (bytes * bytes)) :
  (forall kb, kb ∈ l -> exists m, meta_at kb = Some m /\ (P kb <-> Q m)) -> omap meta_at (filter P l) = filter Q (omap meta_at l).
Proof.
  induction l as [|kb l IH]; intros Hl; [done|]. destruct (Hl kb (list_elem_of_here _ _)) as (m & Em & Hpq).
  specialize (IH (fun x Hx => Hl x (list_elem_of_further _ _ _ Hx))). rewrite !meta_cons, Em, !filter_cons.
  repeat case_decide; try tauto. by rewrite meta_cons, Em, IH.
Qed.

(** Operations that wait are taken out. *)
Section take_out.
Variables (w w' : world) (set given hs l : list Hash) (height : Z).
Hypothesis I : pool_inv w set given.
Hypotheses (Hopen : open w') (Hl : (l ≡ₚ hs)) (Hwait : forall h, h ∈ hs -> waits w h).
Hypothesis Hput : forall k, is_bytes k -> pget w' k = default (pget w k) (batch_get k (l ≫= removal_of height w)).

Lemma out_elem k v : (k, v) ∈ l ≫= removal_of height w -> exists h ok, h ∈ hs /\ leveldbKeyPrefixNewOperationOrdered `prefix_of` ok /\
  pget w (leveldbNewOperationKeysKey h) = Some ok /\
  (k = leveldbNewOperationKeysKey h /\ v = None \/ k = ok /\ v = None \/ k = leveldbRemovedNewOperationKey height h /\ v = Some (Hash_Bytes h)).
Proof.
  intros (h & ok & Hh & Eo & Hk)%removal_elem. rewrite Hl in Hh. exists h, ok. repeat split; try done.
  destruct (waits_record _ _ _ _ I (Hwait h Hh)) as (k' & b & m & Hr & _ & _ & Hp). rewrite Eo in Hp. injection Hp as <-.
  apply records_elem in Hr. tauto.
Qed.
Lemma out_same k : is_bytes k -> (forall v, (k, v) ∉ l ≫= removal_of height w) -> pget w' k = pget w k.
Proof.
  intros Hk Hn. rewrite Hput by done. rewrite (proj2 (batch_get_None _ _)); [done|]. intros ([k' v] & -> & Hv)%list_elem_of_fmap. by apply (Hn v).
Qed.
Lemma out_all k x : is_bytes k -> (forall v, (k, v) ∈ l ≫= removal_of height w -> v = x) -> (k, x) ∈ l ≫= removal_of height w -> pget w' k = x.
Proof.
  intros Hk Hx Hin. rewrite Hput, (batch_get_all _ x) by done. rewrite decide_True; [done|]. apply list_elem_of_fmap. by exists (k, x).
Qed.
Lemma out_body h : pget w' (leveldbNewOperationKey h) = pget w (leveldbNewOperationKey h).
Proof.
  apply out_same; [apply body_bytes|]. intros v (h' & ok & _ & Hp & _ & [[Ek _]|[[Ek _]|[Ek _]]])%out_elem; revert Ek;
    [by apply (keys_apart _ _ 0)|by apply (ordered_apart _ 0)|by apply keys_apart].
Qed.
Lemma out_keys h : pget w' (leveldbNewOperationKeysKey h) = if decide (h ∈ hs) then None else pget w (leveldbNewOperationKeysKey h).
Proof.
  case_decide as Hh.
  - apply out_all; [apply keys_bytes| |].
    + intros v (h' & ok & _ & _ & _ & [[_ ?]|[[_ ?]|[Ek _]]])%out_elem; [done..|]. by apply (keys_apart h h') in Ek.
    + apply removal_elem. destruct (waits_record _ _ _ _ I (Hwait h Hh)) as (k & b & m & _ & _ & _ & Hp). exists h, k. rewrite Hl. naive_solver.
  - apply out_same; [apply keys_bytes|]. intros v (h' & ok & Hh' & Hp & _ & [[Ek _]|[[Ek _]|[Ek _]]])%out_elem.
    + apply keys_key_inj in Ek as ->. done.
    + revert Ek. by apply (ordered_apart _ 0).
    + by apply (keys_apart h h') in Ek.
Qed.
Lemma out_removed h : h ∈ hs -> is_Some (pget w' (leveldbRemovedNewOperationKey height h)).
Proof.
  intros Hh. exists (Hash_Bytes h). apply out_all; [apply removed_bytes| |].
  - intros v (h' & ok & _ & Hp & _ & [[Ek _]|[[Ek _]|[Ek ->]]])%out_elem.
    + symmetry in Ek. by apply (keys_apart _ _ _) in Ek.
    + exfalso. revert Ek. by apply (ordered_apart _ height).
    + by apply removed_key_inj in Ek as ->.
  - apply removal_elem. destruct (waits_record _ _ _ _ I (Hwait h Hh)) as (k & b & m & _ & _ & _ & Hp). exists h, k. rewrite Hl. naive_solver.
Qed.
Lemma out_removed_kept height' h : is_Some (pget w (leveldbRemovedNewOperationKey height' h)) -> is_Some (pget w' (leveldbRemovedNewOperationKey height' h)).
Proof.
  intros Hs. rewrite Hput by apply removed_bytes. destruct (batch_get _ _) as [o|] eqn:Eb; [|done]. simpl. destruct o as [v|]; [done|]. exfalso.
  assert ((leveldbRemovedNewOperationKey height' h, None) ∈ l ≫= removal_of height w) as Hin by (by apply batch_get_elem).
  destruct (out_elem _ _ Hin) as (h' & ok & _ & Hp & _ & [[Ek _]|[[Ek _]|[_ ?]]]); [| |done].
  - symmetry in Ek. by apply (keys_apart _ _ _) in Ek.
  - revert Ek. by apply (ordered_apart _ height').
Qed.
Lemma out_record k : is_bytes k -> leveldbKeyPrefixNewOperationOrdered `prefix_of` k ->
  pget w' k = None /\ (exists h, h ∈ hs /\ pget w (leveldbNewOperationKeysKey h) = Some k) \/
  pget w' k = pget w k /\ (forall h, h ∈ hs -> pget w (leveldbNewOperationKeysKey h) <> Some k).
Proof.
  intros Hk Hp. assert (forall v, (k, v) ∈ l ≫= removal_of height w ->
    v = None /\ exists h, h ∈ hs /\ pget w (leveldbNewOperationKeysKey h) = Some k) as Hv.
  { intros v (h & ok & Hh & _ & Eo & [[-> _]|[[-> ->]|[-> _]]])%out_elem.
    - by apply (ordered_apart h 0) in Hp as (_ & ? & _).
    - split; [done|]. by exists h.
    - by apply (ordered_apart h height) in Hp as (_ & _ & ?). }
  destruct (decide ((k, None) ∈ l ≫= removal_of height w)) as [Hin|Hin].
  - left. split; [|by apply (Hv None)]. apply out_all; [done| |done]. intros v Hx. by apply Hv.
  - right. split; [apply out_same; [done|]; intros v Hx; destruct (Hv v Hx) as [-> _]; done|]. intros h Hh Eo. apply Hin.
    apply removal_elem. exists h, k. rewrite Hl. naive_solver.
Qed.
Lemma out_records k b : (k, b) ∈ records w' <-> (k, b) ∈ records w /\ forall h, h ∈ hs -> pget w (leveldbNewOperationKeysKey h) <> Some k.
Proof.
  assert (forall (w : world), pget w k = Some b -> is_bytes k) as Hb.
  { intros w0 Hk. apply ldb_Get_bytes in Hk. apply Forall_app in Hk. tauto. }
  rewrite !records_elem. split.
  - intros [Hg Hp]. destruct (out_record k (Hb _ Hg) Hp) as [[? _]|[Es Hn]]; [congruence|]. rewrite <- Es. tauto.
  - intros [[Hg Hp] Hn]. destruct (out_record k (Hb _ Hg) Hp) as [[_ (h & Hh & Eo)]|[Es _]]; [by apply Hn in Eo|]. by rewrite Es.
Qed.
Lemma out_records_filter : records w' = filter (fun kb => from_option fo_ophash "" (meta_at kb) ∉ hs) (records w).
Proof.
  apply sorted_entries_unique; [apply records_sorted| |].
  - eapply MapDB.sublist_sorted; [|apply (records_sorted w)]. apply fst_sublist, sublist_filter.
  - intros [k b]. rewrite out_records, list_elem_of_filter. split.
    + intros [Hr Hn]. split; [|done]. destruct (pi_record _ _ _ I _ _ Hr) as (m & now & Em & _ & _ & Hp). unfold meta_at. simpl. rewrite Em. simpl.
      intros Hh. by apply (Hn _ Hh).
    + intros [Hn Hr]. split; [done|]. intros h Hh Eo. destruct (pi_record _ _ _ I _ _ Hr) as (m & now & Em & _ & _ & Hp).
      unfold meta_at in Hn. simpl in Hn. rewrite Em in Hn. apply Hn. simpl. by rewrite <- (key_hash _ _ _ _ _ _ _ I Hr Em (Hwait h Hh) Eo).
Qed.
Lemma out_metas : metas w' = filter (fun m => fo_ophash m ∉ hs) (metas w).
Proof.
  unfold metas. rewrite out_records_filter. apply omap_meta_filter. intros [k b] Hr.
  destruct (pi_record _ _ _ I _ _ Hr) as (m & _ & Em & _). exists m. unfold meta_at. simpl. by rewrite Em.
Qed.
Lemma out_inv ops : (forall h, h ∈ ops -> h ∈ hs) -> pool_inv w' set (given ++ ops).
Proof.
  intros Hops. split; [done|..].
  - intros h. by rewrite out_body, (pi_set _ _ _ I).
  - intros k b [Hr Hn]%out_records. destruct (pi_record _ _ _ I _ _ Hr) as (m & now & Em & Hs & Ek & Hp). exists m, now.
    rewrite out_keys, decide_False by (intros Hh; by apply (Hn _ Hh)). done.
  - intros h [Hh|Hh]%elem_of_app.
    + destruct (pi_given _ _ _ I _ Hh) as [Hs Hp]. split; [done|]. rewrite out_keys. by case_decide.
    + apply Hops in Hh. split; [|by rewrite out_keys, decide_True]. destruct (waits_record _ _ _ _ I (Hwait h Hh)) as (k & b & m & Hr & Em & <- & _).
      destruct (pi_record _ _ _ I _ _ Hr) as (m' & _ & Em' & Hs & _). rewrite Em in Em'. by injection Em' as ->.
  - intros h Hs. destruct (decide (h ∈ hs)) as [Hh|Hh]; [right; exists height; by apply out_removed|].
    destruct (pi_account _ _ _ I h Hs) as [(m & -> & Hm)%list_elem_of_fmap|(height' & Hr)].
    + left. apply list_elem_of_fmap. exists m. split; [done|]. rewrite out_metas. by apply list_elem_of_filter.
    + right. exists height'. by apply out_removed_kept.
Qed.
End take_out.

(** *** A choice of operations *)
(** The keys that a choice of operations does not touch. *)
Definition other_key (k : bytes) : Prop :=
  ~ leveldbKeyPrefixNewOperationOrdered `prefix_of` k /\ ~ leveldbKeyPrefixNewOperationOrderedKeys `prefix_of` k /\
  ~ leveldbKeyPrefixRemovedNewOperation `prefix_of` k.
Lemma pget_not_bytes w k : ~ is_bytes k -> pget w k = None.
Proof. intros Hk. apply ldb_Get_not_bytes. intros Hb. apply Forall_app in Hb. tauto. Qed.
Lemma out_other w w' set given hs l height k : pool_inv w set given -> l ≡ₚ hs -> (forall h, h ∈ hs -> waits w h) ->
  (forall k, is_bytes k -> pget w' k = default (pget w k) (batch_get k (l ≫= removal_of height w))) -> other_key k -> pget w' k = pget w k.
Proof.
  intros I Hl Hw Hput (Ho & Hk1 & Hr). destruct (decide (is_bytes k)) as [Hk|Hk]; [|by rewrite !pget_not_bytes].
  apply (out_same w w' l height Hput); [done|]. intros v (h & ok & _ & Hp & _ & [[-> _]|[[-> _]|[-> _]]])%(out_elem w set given hs l height I Hl Hw).
  - apply Hk1. rewrite keys_key. by eexists.
  - by apply Ho.
  - apply Hr. rewrite removed_key. by eexists.
Qed.
Lemma OperationHashes_takes accept height limit w set given : pool_inv w set given -> 1 <= limit ->
  exists o r pre post w', OperationHashes (@sched) height limit (Some (fun m => Ok (accept m))) w = (Ok (pair_of <$> o), w') /\
    taken accept (Z.to_nat limit) [] (metas w) o r pre post /\ metas w' = filter (fun m => m ∉ r) (metas w) /\
    pool_inv w' set (given ++ (fo_ophash <$> o)) /\ forall k, other_key k -> pget w' k = pget w k.
Proof.
  intros I Hlim. pose proof (metas_unique _ _ _ I) as Hnd. apply NoDup_fmap_1 in Hnd.
  pose proof (take_ops_taken accept (Z.to_nat limit) [] (metas w) Hnd) as T. destruct (Z.to_nat limit) as [|n] eqn:En; [lia|].
  pose proof (scan_take accept (records w) (metas w) n limit {| os_ops := []; os_removeOrdered := []; os_removeOps := []; os_facts := [] |}
    (readable _ _ _ I) (Nat.le_refl _) ltac:(simpl; lia)) as Hscan. simpl os_facts in Hscan.
  destruct (take_ops accept (S n) [] (metas w)) as [o r]. destruct T as (pre & post & T), Hscan as [facts Hscan].
  assert (forall m, m ∈ r -> m ∈ metas w) as Hr.
  { intros m Hm. rewrite (tk_r _ _ _ _ _ _ _ _ T) in Hm. apply list_elem_of_filter in Hm as [_ Hm].
    rewrite (tk_ms _ _ _ _ _ _ _ _ T). apply elem_of_app. by left. }
  assert (forall m, m ∈ o -> m ∈ r) as Ho.
  { intros m Hm. rewrite (tk_r _ _ _ _ _ _ _ _ T). apply list_elem_of_filter. split; [by right|]. by eapply taken_in. }
  destruct (setRemoveNewOperations_ok height (fo_ophash <$> r) w (pi_open _ _ _ I)) as (d & Hset & Hd).
  assert (forall h, h ∈ fo_ophash <$> r -> waits w h) as Hwait.
  { intros h (m & -> & Hm)%list_elem_of_fmap. apply list_elem_of_fmap. exists m. auto. }
  exists o, r, pre, post, (with_disk d w). split; [|split; [exact T|split; [|split]]].
  - unfold OperationHashes. unfold mbind at 1, io_bind at 1. rewrite pool_Iter_ok by (apply I || by repeat constructor).
    fold (records w). simpl default. rewrite Hscan. simpl os_removeOrdered. simpl os_removeOps. simpl os_ops.
    unfold mbind, io_bind. unfold removeNewOperationOrdereds. simpl. by rewrite Hset.
  - rewrite (out_metas w (with_disk d w) set given (fo_ophash <$> r) (sched (fo_ophash <$> r)) height I (sched_perm _ _) Hwait Hd).
    apply filter_in_ext. intros m Hm. split; intros Hn; contradict Hn; [by apply list_elem_of_fmap; exists m|].
    apply list_elem_of_fmap in Hn as (m' & Eh & Hm'). rewrite (meta_hash _ _ _ _ _ I Hm (Hr _ Hm') Eh). done.
  - apply (out_inv w (with_disk d w) set given (fo_ophash <$> r) (sched (fo_ophash <$> r)) height I); [apply I|apply sched_perm|exact Hwait|exact Hd|].
    intros h (m & -> & Hm)%list_elem_of_fmap. apply list_elem_of_fmap. exists m. auto.
  - intros k. apply (out_other w (with_disk d w) set given (fo_ophash <$> r) (sched (fo_ophash <$> r)) height k I (sched_perm _ _) Hwait Hd).
Qed.

(** *** Runs of a pool *)
(** The pool of a new node; operations are put into it, and proposals are made of
    them. *)
Inductive pool_run : world -> list Hash -> list Hash -> Prop :=
| run_new w : open w -> (forall k, pget w k = None) -> pool_run w [] []
| run_set now now' op w set given w' r : pool_run w set given -> op_ok op -> i64 now' -> SetOperation now now' op w = (r, w') ->
    pool_run w' (match r with Ok true => po_hash op :: set | _ => set end) given
| run_take height limit accept w set given ops w' : pool_run w set given -> 1 <= limit ->
    OperationHashes (@sched) height limit (Some (fun m => Ok (accept m))) w = (Ok ops, w') -> pool_run w' set (given ++ ops.*1).

Lemma pool_run_inv w set given : pool_run w set given -> pool_inv w set given /\ NoDup set /\ NoDup given.
Proof.
  induction 1 as [w Ho Hn|now now' op w set given w' r _ [I [Hs Hg]] Hop Hnow Er|height limit accept w set given ops w' _ [I [Hs Hg]] Hl Er].
  - split; [|split; constructor]. split; [done|..].
    + intros h. rewrite Hn. split; [by intros ?%elem_of_nil|by intros [? ?]].
    + intros k b [Hk _]%records_elem. by rewrite Hn in Hk.
    + by intros h ?%elem_of_nil.
    + by intros h ?%elem_of_nil.
  - pose proof (SetOperation_inv now now' op w set given I Hop Hnow) as Hset. rewrite Er in Hset.
    destruct r as [[]|e|]; [|done..]. destruct Hset as [Hnew I']. split; [done|]. split; [by constructor|done].
  - destruct (OperationHashes_takes accept height limit w set given I Hl) as (o & r & pre & post & w1 & Et & T & _ & I' & _).
    rewrite Er in Et. injection Et as -> ->. assert ((pair_of <$> o).*1 = fo_ophash <$> o) as -> by (by rewrite <- list_fmap_compose).
    split; [done|]. split; [done|]. apply NoDup_app. split; [done|]. split.
    + intros h Hh (m & -> & Hm)%list_elem_of_fmap. apply (given_not_waits _ _ _ _ I Hh). apply list_elem_of_fmap. exists m. split; [done|].
      rewrite (tk_ms _ _ _ _ _ _ _ _ T). apply elem_of_app. left. by eapply taken_in.
    + pose proof (metas_unique _ _ _ I) as Hu. rewrite (tk_ms _ _ _ _ _ _ _ _ T), fmap_app in Hu. apply NoDup_app in Hu as [Hu _].
      eapply sublist_NoDup; [exact Hu|apply hashes_sublist, T].
Qed.

(** What [OperationHashes] gives it does not give again: an operation that was given
    does not wait any more. *)
Theorem given_once w set given : pool_run w set given -> NoDup given /\ forall h, h ∈ given -> h ∈ set /\ ~ waits w h.
Proof.
  intros (I & _ & Hg)%pool_run_inv. split; [done|]. intros h Hh. split; [by apply (pi_given _ _ _ I)|by eapply given_not_waits].
Qed.

(** C13: along any calls of [SetOperation] and [OperationHashes] on a new pool, with any
    filters, limits from 1 on and any order of the workers, the entries of the operations
    agree: an operation is put once, and found exactly when it was put; each record can be
    read, is of an operation that was put, and is the one that the key of this operation
    names, so no operation has two; and each operation that was put has its record still
    or an entry that says at which height it was taken out.  The cleaning of operations
    that were taken out is not among the calls. *)
Theorem entries_agree w set given : pool_run w set given ->
  NoDup set /\ (forall h, h ∈ set <-> is_Some (pget w (leveldbNewOperationKey h))) /\
  (forall k b, (k, b) ∈ records w -> exists m, ReadFrameHeaderOperation b = Ok m /\ fo_ophash m ∈ set /\
    pget w (leveldbNewOperationKeysKey (fo_ophash m)) = Some k) /\
  NoDup (fo_ophash <$> metas w) /\
  (forall h, h ∈ set -> waits w h \/ exists height, is_Some (pget w (leveldbRemovedNewOperationKey height h))).
Proof.
  intros (I & Hs & _)%pool_run_inv. split; [done|]. split; [apply I|]. split; [|split; [by eapply metas_unique|apply I]].
  intros k b Hk. destruct (pi_record _ _ _ I k b Hk) as (m & _ & Em & Hm & _ & Ek). by exists m.
Qed.

(** C14: in any state of the pool that such calls lead to, [OperationHashes] with a limit
    from 1 on and a filter that does not fail gives operations that wait, in the order in which they came, at most [limit] of them, with
    different facts and all accepted by the filter; and when fewer than [limit] are given
    or refused, no operation that waits and is accepted has a fact that is not given.
    The bodies of all operations stay. *)
Theorem OperationHashes_selects w set given accept height limit : pool_run w set given -> 1 <= limit ->
  exists o w', OperationHashes (@sched) height limit (Some (fun m => Ok (accept m))) w = (Ok (pair_of <$> o), w') /\
    o `sublist_of` metas w /\ Z.of_nat (length o) <= limit /\ NoDup (fo_facthash <$> o) /\ (forall m, m ∈ o -> accept m = true) /\
    (Z.of_nat (length o + length (filter (fun m => accept m = false) (metas w))) < limit ->
      forall m, m ∈ metas w -> accept m = true -> fo_facthash m ∈ fo_facthash <$> o) /\
    (forall h, h ∈ set -> is_Some (pget w' (leveldbNewOperationKey h))).
Proof.
  intros (I & _ & _)%pool_run_inv Hl.
  destruct (OperationHashes_takes accept height limit w set given I Hl) as (o & r & pre & post & w' & Et & T & Em & I' & _).
  pose proof (metas_unique _ _ _ I) as Hnd. apply NoDup_fmap_1 in Hnd.
  exists o, w'. split; [done|]. pose proof (tk_length _ _ _ _ _ _ _ _ T) as [Hr Hp]. pose proof (taken_count _ _ _ _ _ _ _ _ Hnd T) as Hc.
  split; [rewrite (tk_ms _ _ _ _ _ _ _ _ T); by apply sublist_inserts_r, T|]. split; [lia|]. split; [apply T|]. split; [apply T|].
  split; [|intros h; apply (pi_set _ _ _ I')]. intros Hlt m Hm Ha. rewrite (tk_ms _ _ _ _ _ _ _ _ T), filter_app, length_app in Hlt.
  assert (post = []) as -> by (destruct Hp; [done|lia]).
  rewrite (tk_ms _ _ _ _ _ _ _ _ T), app_nil_r in Hm. by destruct (tk_rest _ _ _ _ _ _ _ _ T m Hm Ha) as [?%elem_of_nil|?].
Qed.
End pool.

(** ** Examples *)
Section demo.
Import CenterHistory.CenterDemo Frame.Demo MapDB.
#[local] Instance demo_hash_bytes : HashBytes := bytes_str.
#[local] Instance demo_hash_laws : HashBytesLaws.
Proof. intros h. apply str_bytes_str. Qed.
#[local] Instance demo_hints : Hints := fun b => if decide (b = []) then Err "empty hint" else Ok b.
#[local] Instance demo_op_codec : Codec unit PoolOperation := {| Marshal _ op := Ok (str_bytes (po_hash op)); Decode _ _ := Ok None |}.
Abbreviation world := (PoolWorld (D := MapDB.D) (E := unit) (C := gmap string)).
Definition demo_pool : world := {| pw_pool := newTempPool tt 33; pw_disk := ∅ |}.
Definition demo_op (h f : string) : PoolOperation := {| po_hash := h; po_fact := f; po_hint := Some (str_bytes "op-v0.0.1") |}.
Definition demo_set (now : Z) (op : PoolOperation) (w : world) : res bool * world := SetOperation now now op w.
Definition demo_sched {J} (l : list J) : list J := reverse l.
(** A second operation with the fact of the first, and one that the filter refuses. *)
Definition demo_full : world :=
  (demo_set 14 (demo_op "d" "fd") (demo_set 13 (demo_op "c" "fc") (demo_set 12 (demo_op "b" "fa") (demo_set 11 (demo_op "a" "fa") demo_pool).2).2).2).2.
Definition demo_accept (m : FrameHeaderPoolOperation) : bool := negb (bool_decide (fo_ophash m = "c")).
Definition demo_take (limit : Z) (w : world) : res (list (Hash * Hash)) * world :=
  OperationHashes (@demo_sched) 33 limit (Some (fun m => Ok (demo_accept m))) w.

Example demo_first : (demo_take 2 demo_full).1 = Ok [("a", "fa")].
Proof. vm_compute. reflexivity. Qed.
Example demo_third : (demo_take 4 demo_full).1 = Ok [("a", "fa"); ("d", "fd")].
Proof. vm_compute. reflexivity. Qed.
Example demo_second : (demo_take 2 (demo_take 2 demo_full).2).1 = Ok [("b", "fa"); ("d", "fd")].
Proof. vm_compute. reflexivity. Qed.
Lemma demo_op_ok h f : short (str_bytes h) -> short (str_bytes f) -> op_ok (demo_op h f).
Proof. intros Hh Hf. split; [done..|]. exists (str_bytes "op-v0.0.1"). split; [done|]. split; [vm_compute; discriminate|reflexivity]. Qed.
Lemma demo_full_run : pool_run (@demo_sched) demo_full ["d"; "c"; "b"; "a"] [].
Proof.
  assert (forall now h f w set (w' : world), pool_run (@demo_sched) w set [] -> short (str_bytes h) -> short (str_bytes f) -> i64 now ->
    (demo_set now (demo_op h f) w).1 = Ok true -> pool_run (@demo_sched) (demo_set now (demo_op h f) w).2 (h :: set) []) as Hs.
  { intros now h f w set w' Hw Hh Hf Hnow Er. apply (run_set (@demo_sched) now now (demo_op h f) w set [] _ (Ok true)); [done|by apply demo_op_ok|done|].
    rewrite (surjective_pairing (SetOperation now now (demo_op h f) w)). f_equal. exact Er. }
  unfold demo_full. repeat (apply Hs; [exact demo_pool| |vm_compute; discriminate|vm_compute; discriminate|by vm_compute|vm_compute; reflexivity]).
  apply run_new; [done|]. intros k. apply demo_nothing.
Qed.
Lemma demo_sched_perm J (l : list J) : demo_sched l ≡ₚ l.
Proof. apply reverse_Permutation. Qed.

Definition demo_taken : world := (demo_take 2 (demo_take 2 demo_full).2).2.
Lemma demo_taken_run : pool_run (@demo_sched) demo_taken ["d"; "c"; "b"; "a"] ["a"; "b"; "d"].
Proof.
  apply (run_take (@demo_sched) 33 2 demo_accept (demo_take 2 demo_full).2 _ ["a"] [("b", "fa"); ("d", "fd")]); [|done|].
  - apply (run_take (@demo_sched) 33 2 demo_accept demo_full _ [] [("a", "fa")]); [apply demo_full_run|done|].
    rewrite <- demo_first. apply surjective_pairing.
  - rewrite <- demo_second. apply surjective_pairing.
Qed.
(** Asked again, the pool gives nothing of what it gave before. *)
Example demo_again : (demo_take 4 demo_taken).1 = Ok [].
Proof. vm_compute. reflexivity. Qed.

Lemma entries_agree_witness : (forall h, h ∈ ["d"; "c"; "b"; "a"] <-> is_Some (pget demo_taken (leveldbNewOperationKey h))) /\
  (forall h, h ∈ ["d"; "c"; "b"; "a"] -> waits demo_taken h \/ exists height, is_Some (pget demo_taken (leveldbRemovedNewOperationKey height h))).
Proof. destruct (entries_agree (@demo_sched) demo_sched_perm _ _ _ demo_taken_run) as (_ & H1 & _ & _ & H2). split; [exact H1|exact H2]. Defined.
Lemma OperationHashes_selects_witness : exists o w', demo_take 4 demo_full = (Ok (pair_of <$> o), w') /\ o `sublist_of` metas demo_full /\
  forall m, m ∈ metas demo_full -> demo_accept m = true -> fo_facthash m ∈ fo_facthash <$> o.
Proof.
  destruct (OperationHashes_selects (@demo_sched) demo_sched_perm demo_full ["d"; "c"; "b"; "a"] [] demo_accept 33 4 demo_full_run ltac:(done))
    as (o & w' & Et & Hs & _ & _ & _ & Hall & _). exists o, w'. split; [exact Et|]. split; [exact Hs|]. apply Hall.
  assert (Ok (pair_of <$> o) = Ok [("a", "fa"); ("d", "fd")]) as [= Eo] by (rewrite <- demo_third; exact (eq_sym (f_equal fst Et))).
  replace (length o) with 2%nat by (rewrite <- (length_fmap pair_of), Eo; done).
  replace (length (filter _ _)) with 1%nat by (vm_compute; reflexivity). done.
Defined.
End demo.
