(* ===== verification/CleanLaws.v ===== *)
(** * What the cleaning of the pool removes

    The proofs about [cleanByHeight] of [Pool]: however its batches are cut, it removes
    the entries of a prefix up to a height, with what is written next to them, and
    leaves everything else. *)
From S2P Require Import Prelude Point Vote Slice Ballot Voteproof LockedMap Batch Block State Bytes Frame Leveldb Tempdb Stored Proposals Effects CenterHistory Pool PoolLaws.

Open Scope Z_scope.

Section clean.
Context {D E : Type} {C : Type -> Type} `{LevelDBLaws D}.
Abbreviation world := (PoolWorld (D := D) (E := E) (C := C)).
Implicit Types (w : world) (k : bytes) (b : batch).
#[local] Hint Resolve pool_bytes : core.

(** The callback of [pool_IterM] sees the entries under the prefix of the pool. *)
Lemma iter_origkey {A} p (f : bytes -> bytes -> A -> IO world (A * bool)) (l : list (bytes * bytes)) a w :
  (forall kv, kv ∈ l -> exists k', kv.1 = p ++ k' /\ k' <> []) ->
  iter (fun k v a => io_lift (origkey (Some p) k) ≫= fun k => f k v a) l a w = iter f ((fun kv => (drop (length p) kv.1, kv.2)) <$> l) a w.
Proof.
  revert a w. induction l as [|[k v] l IH]; intros a w Hl; [done|]. destruct (Hl (k, v) (list_elem_of_here _ _)) as (k' & Ek & Hne). simpl in Ek. subst k.
  cbn [iter fmap list_fmap]. unfold mbind, io_bind, io_lift. simpl fst. rewrite drop_app_length.
  assert (origkey (Some p) (p ++ k') = Ok k') as ->.
  { unfold origkey. simpl default. rewrite length_app, drop_app_length. destruct k' as [|x k']; [done|]. simpl length.
    destruct (Nat.ltb_spec (length p + S (length k')) 1); [lia|]. destruct (Nat.ltb_spec (length p + S (length k')) (length p)); [lia|done]. }
  cbv beta iota. simpl snd. destruct (f k' v a w) as [[[a' []]|e|] w']; [|done..]. apply IH. intros kv Hkv. apply Hl. by apply list_elem_of_further.
Qed.
Lemma pool_IterM_ok {A} p (f : bytes -> bytes -> A -> IO world (A * bool)) a w : open w -> is_bytes p -> p <> [] ->
  pool_IterM (BytesPrefix p) f true a w = iter f (ps_list leveldbLabelPool (BytesPrefix p) (pw_disk w)) a w.
Proof.
  intros Ho Hp Hne. pose proof (prefix_given (D := D) p Hp Hne) as Hg.
  destruct (ps_range_ok (D := D) leveldbLabelPool _ pool_bytes Hg) as (nr & En & Hn).
  assert (pool_IterM (BytesPrefix p) f true a w =
    iter (fun k v a => io_lift (origkey (Some leveldbLabelPool) k) ≫= fun k => f k v a) (ldb_entries nr (pw_disk w)) a w) as ->.
  { unfold pool_IterM, pool_st, on_read, mbind, io_bind, gets. rewrite Ho. cbv beta iota zeta delta [io_lift mret io_ret]. rewrite En. done. }
  unfold ps_list. rewrite En.
  apply iter_origkey. intros [k v] [Hk Hin]%ldb_entries_elem. apply Hn in Hin as (k' & -> & Hin); [|by eapply ldb_Get_bytes]. exists k'. split; [done|].
  intros ->. apply in_BytesPrefix in Hin; [|done|by constructor]. by apply prefix_nil_inv in Hin.
Qed.

(** What a batch of deletions leaves. *)
Definition left_of b w k : option bytes := if decide (k ∈ b.*1) then None else pget w k.
Definition deletes b : Prop := forall k v, (k, v) ∈ b -> v = None.
Lemma deletes_app b b' : deletes b -> deletes b' -> deletes (b ++ b').
Proof. intros Hb Hb' k v [?|?]%elem_of_app; [by eapply Hb|by eapply Hb']. Qed.
Lemma deletes_nil : deletes [].
Proof. by intros k v ?%elem_of_nil. Qed.
Lemma left_of_nil w k : left_of [] w k = pget w k.
Proof. unfold left_of. rewrite decide_False; [done|]. by intros ?%elem_of_nil. Qed.
Lemma left_of_app b b' w w' k : pget w' k = left_of b w k -> left_of b' w' k = left_of (b ++ b') w k.
Proof. unfold left_of. intros ->. rewrite fmap_app. repeat case_decide; try done; set_solver. Qed.
Lemma pool_Batch_deletes b w : open w -> deletes b -> exists d, pool_Batch b w = (Ok tt, with_disk d w) /\
  forall k, is_bytes k -> pget (with_disk d w) k = left_of b w k.
Proof.
  intros Ho Hb. destruct (pool_Batch_ok b w Ho) as (d & Eb & Hd). exists d. split; [done|]. intros k Hk.
  rewrite Hd, (batch_get_all k None) by (done || by intros v ?%Hb). unfold left_of. by case_decide.
Qed.

Variables (prefix : KeyPrefix) (keyf : option (bytes -> bytes -> batch)).
Hypotheses (prefix_bytes : is_bytes prefix) (prefix_ne : prefix <> []).
Definition next_to k v : batch := match keyf with Some f => f k v | None => [] end.
Hypothesis keyf_deletes : forall k v, deletes (next_to k v).
Abbreviation entries w := (ps_list leveldbLabelPool (BytesPrefix prefix) (pw_disk w)).

Lemma entries_elem w k v : (k, v) ∈ entries w <-> pget w k = Some v /\ prefix `prefix_of` k.
Proof.
  assert (forall v, pget w k = Some v -> is_bytes k) as Hk by (intros v' Hg; apply ldb_Get_bytes in Hg; apply Forall_app in Hg; tauto).
  rewrite ps_list_elem by (done || by apply prefix_given). fold (pget w k). split; intros [Hg Hr]; (split; [done|]).
  - by apply in_BytesPrefix in Hr; [|done|eapply Hk].
  - by apply in_BytesPrefix; [done|eapply Hk|].
Qed.

(** The deletions of the entries up to a height. *)
Definition removed_of (cutoff : Z) (l : list (bytes * bytes)) : batch := l ≫= fun kv =>
  match heightFromKey kv.1 prefix with Ok h => if cutoff <? h then [] else (kv.1, None) :: next_to kv.1 kv.2 | _ => [] end.
Lemma removed_elem cutoff l k : k ∈ (removed_of cutoff l).*1 <->
  exists k0 v0 h, (k0, v0) ∈ l /\ heightFromKey k0 prefix = Ok h /\ h <= cutoff /\ (k = k0 \/ k ∈ (next_to k0 v0).*1).
Proof.
  unfold removed_of. rewrite list_elem_of_fmap. split.
  - intros ([k' v'] & -> & ([k0 v0] & Hin & Hl)%list_elem_of_bind). simpl in *. exists k0, v0.
    destruct (heightFromKey k0 prefix) as [h|e|]; [|by apply elem_of_nil in Hin..]. destruct (Z.ltb_spec cutoff h); [by apply elem_of_nil in Hin|].
    exists h. repeat split; try done. apply elem_of_cons in Hin as [[= -> ->]|Hin]; [by left|]. right. apply list_elem_of_fmap. by exists (k', v').
  - intros (k0 & v0 & h & Hl & Eh & Hle & Hk).
    assert (exists v, (k, v) ∈ (k0, None) :: next_to k0 v0) as [v Hv].
    { destruct Hk as [->|([k' v] & -> & Hv)%list_elem_of_fmap]; [exists None; apply list_elem_of_here|]. exists v. by apply list_elem_of_further. }
    exists (k, v). split; [done|]. apply list_elem_of_bind. exists (k0, v0). split; [|done]. simpl. rewrite Eh.
    destruct (Z.ltb_spec cutoff h); [lia|done].
Qed.
Definition clean_inv (s : Cleaning) : Prop := deletes (cl_batch s) /\ (cl_recCnt s = 0%nat -> cl_batch s = []).
Lemma clean_loop cutoff l s w : open w -> clean_inv s -> (forall kv, kv ∈ l -> exists h, heightFromKey kv.1 prefix = Ok h) ->
  exists s' d, iter (clean_step prefix cutoff keyf) l s w = (Ok s', with_disk d w) /\ clean_inv s' /\
    forall k, is_bytes k -> left_of (cl_batch s') (with_disk d w) k = left_of (cl_batch s ++ removed_of cutoff l) w k.
Proof.
  revert s w. induction l as [|[k v] l IH]; intros s w Ho Hs Hl.
  { exists s, (pw_disk w). rewrite with_disk_same. repeat split; try apply Hs. intros k _. unfold removed_of. simpl. by rewrite app_nil_r. }
  destruct (Hl (k, v) (list_elem_of_here _ _)) as [h Eh]. simpl in Eh.
  assert (forall kv, kv ∈ l -> exists h, heightFromKey kv.1 prefix = Ok h) as Hl' by (intros kv Hkv; apply Hl; by apply list_elem_of_further).
  cbn [iter]. unfold mbind at 1, io_bind at 1, clean_step at 1. unfold mbind at 1, io_bind at 1, io_lift. rewrite Eh.
  unfold removed_of. cbn [mbind list_bind]. simpl fst. simpl snd. rewrite Eh. change (mbind _ l) with (removed_of cutoff l). destruct (Z.ltb_spec cutoff h) as [Hc|Hc].
  { cbn [mret io_ret]. by apply IH. }
  change (match keyf with Some f => f k v | None => [] end) with (next_to k v). rewrite app_assoc. set (batch := cl_batch s ++ (k, None) :: next_to k v).
  assert (deletes batch) as Hb.
  { apply deletes_app; [apply Hs|]. intros k' v' [[= -> ->]|Hin]%elem_of_cons; [done|]. by apply keyf_deletes in Hin. }
  destruct (_ || _).
  - unfold mbind at 1, io_bind at 1. destruct (pool_Batch_deletes batch w Ho Hb) as (d & -> & Hd). cbn [mret io_ret].
    destruct (IH {| cl_batch := []; cl_removed := cl_removed s + S (cl_recCnt s); cl_recCnt := 0; cl_byteCnt := 0 |} (with_disk d w)) as (s' & d' & -> & Hs' & Hd');
      [done|by split; [apply deletes_nil|]|done|]. exists s', d'. split; [done|]. split; [done|]. intros k' Hk'.
    change (with_disk d' (with_disk d w)) with (with_disk d' w) in Hd'. rewrite Hd' by done. simpl. apply left_of_app. by apply Hd.
  - cbn [mret io_ret]. by apply IH.
Qed.

(** *** How far down it cleans *)
Lemma clean_cutoff_le deep top c h : clean_cutoff deep top = Some c -> i64 top -> h <= c -> h <= GenesisHeight \/ h + Z.of_nat deep <= top.
Proof.
  revert top. induction deep as [|deep IH]; intros top; cbn [clean_cutoff]; [intros [= ->]; right; lia|].
  intros Ec Ht Hh. destruct (_ <? _); [done|]. unfold Height_SafePrev in Ec. destruct (Z.leb_spec top GenesisHeight) as [Hle|Hle].
  - destruct (IH _ Ec) as [?|?]; [by vm_compute|done|by left|left; lia].
  - unfold i64, GenesisHeight in *. rewrite wrap_s_small in Ec by (change (64 - 1) with 63; lia). destruct (IH _ Ec) as [?|?]; [lia|done|by left|right; lia].
Qed.
(** A height that is old beside the entries of the prefix. *)
Definition old_height (deep : nat) w (h : Z) : Prop :=
  exists k v top, (k, v) ∈ entries w /\ heightFromKey k prefix = Ok top /\ (h <= GenesisHeight \/ h + Z.of_nat deep <= top).

(** It succeeds and removes the entries up to some height with what is next to them,
    and no height that is not old. *)
Theorem cleanByHeight_removes deep w : open w ->
  (forall kv, kv ∈ entries w -> exists h, heightFromKey kv.1 prefix = Ok h /\ i64 h) ->
  exists n d cutoff, cleanByHeight prefix deep keyf w = (Ok n, with_disk d w) /\
    (forall k v h, (k, v) ∈ entries w -> heightFromKey k prefix = Ok h -> h <= cutoff -> old_height deep w h) /\
    forall k, is_bytes k -> pget (with_disk d w) k = left_of (removed_of cutoff (entries w)) w k.
Proof.
  intros Ho Hh.
  assert (forall n, (forall k v h, (k, v) ∈ entries w -> heightFromKey k prefix = Ok h -> - 2 ^ 63 <= h) -> exists n' d cutoff, ((Ok n : res nat), w) = (Ok n', with_disk d w) /\
    (forall k v h, (k, v) ∈ entries w -> heightFromKey k prefix = Ok h -> h <= cutoff -> old_height deep w h) /\
    forall k, is_bytes k -> pget (with_disk d w) k = left_of (removed_of cutoff (entries w)) w k) as Hnone.
  { intros n Hlow. exists n, (pw_disk w), (- 2 ^ 63 - 1). rewrite with_disk_same. split; [done|]. split.
    - intros k v h Hk Eh Hle. specialize (Hlow k v h Hk Eh). lia.
    - intros k Hk. unfold left_of. rewrite decide_False; [done|]. intros (k0 & v0 & h & Hk0 & Eh & Hle & _)%removed_elem. specialize (Hlow _ _ _ Hk0 Eh). lia. }
  assert (forall k v h, (k, v) ∈ entries w -> heightFromKey k prefix = Ok h -> - 2 ^ 63 <= h) as Hlow.
  { intros k v h Hk Eh. destruct (Hh _ Hk) as (h' & Eh' & Hi). simpl in Eh'. rewrite Eh in Eh'. injection Eh' as <-. unfold i64 in Hi. lia. }
  unfold cleanByHeight, mbind at 1 2, io_bind at 1 2. unfold pool_st, mbind at 1, io_bind at 1, gets at 1. rewrite Ho. cbn [mret io_ret].
  rewrite pool_Iter_ok by done. set (L := entries w) in *.
  assert (exists top, iter (fun k (_ : bytes) (_ : Z) => heightFromKey k prefix ≫= fun h => Ok (h, false)) (reverse L) 0 = Ok top /\ i64 top /\
    (L = [] \/ exists k v, (k, v) ∈ L /\ heightFromKey k prefix = Ok top)) as (top & -> & Htop & Hin).
  { destruct (reverse L) as [|[k v] l] eqn:EL; [exists 0; repeat split; try done; left; by apply (inj reverse)|].
    assert ((k, v) ∈ L) as Hk by (rewrite <- elem_of_reverse, EL; apply list_elem_of_here). destruct (Hh _ Hk) as (h & Eh & Hi). simpl in Eh.
    exists h. cbn [iter]. rewrite Eh. repeat split; try apply Hi. right. by exists k, v. }
  destruct (_ =? _); [by apply Hnone|]. destruct (clean_cutoff deep top) as [c|] eqn:Ec; [|by apply Hnone].
  unfold mbind at 1, io_bind at 1. rewrite pool_IterM_ok by done. fold L.
  destruct (clean_loop c L {| cl_batch := []; cl_removed := 0; cl_recCnt := 0; cl_byteCnt := 0 |} w Ho) as (s & d & -> & [Hdel Hcnt] & Hd);
    [by split; [apply deletes_nil|]|intros kv Hkv; destruct (Hh kv Hkv) as (h & ? & _); by exists h|].
  assert (forall k v h, (k, v) ∈ L -> heightFromKey k prefix = Ok h -> h <= c -> old_height deep w h) as Hold.
  { intros k v h Hk Eh Hle. destruct Hin as [HL|(kt & vt & Hkt & Et)]; [rewrite HL in Hk; by apply elem_of_nil in Hk|].
    exists kt, vt, top. split; [done|]. split; [done|]. by eapply clean_cutoff_le. }
  destruct (Nat.ltb_spec 0 (cl_recCnt s)) as [Hc|Hc].
  - unfold mbind at 1, io_bind at 1. destruct (pool_Batch_deletes (cl_batch s) (with_disk d w) Ho Hdel) as (d' & -> & Hd'). cbn [mret io_ret].
    exists (cl_removed s + cl_recCnt s)%nat, d', c. split; [done|]. split; [done|]. intros k Hk. change (with_disk d' (with_disk d w)) with (with_disk d' w) in Hd'.
    rewrite Hd' by done. by apply Hd.
  - exists (cl_removed s), d, c. split; [done|]. split; [done|]. intros k Hk. specialize (Hd k Hk). rewrite Hcnt in Hd by lia. by rewrite left_of_nil in Hd.
Qed.
End clean.
