(* ===== verification/Maker.v ===== *)
(** * Making and selecting proposals ([isaac/proposal_maker.go], [isaac/proposal_selector.go], [launch/p_proposal_maker.go])

    The maker signs one proposal of the local node for a point and a previous block, with
    the operations of the pool; the selector asks the proposer of the point for its
    proposal, then the other nodes, and makes one itself when nobody answers.  A request
    to a node and the clock are arguments: a [Tick] for each turn of the tickers. *)
From S2P Require Import Prelude Point Vote Slice Ballot Voteproof LockedMap Batch Block State Bytes Frame Leveldb Tempdb Proposals Effects Pool.

Open Scope Z_scope.

Definition errFailedToRequestProposalToNode : string := "request proposal to node".
Definition errCanceled : string := "context canceled".
Definition errDeadlineExceeded : string := "context deadline exceeded".
Definition is_context_error (e : string) : bool := bool_decide (e = errCanceled) || bool_decide (e = errDeadlineExceeded).

(** What a call of the maker finds: the last block, and the time when the fact is made
    and when it is signed. *)
Record Making := { mk_lastBlockMap : res (option Manifest); mk_now : Z; mk_signedAt : Z }.
(** A turn: what the maker finds, and the answer of the node that is asked, if it comes
    in time. *)
Record Tick := { tk_making : Making; tk_answer : option (res (option ProposalSignFact)) }.

Section maker.
Context `{Crypto, BlockCrypto, HashBytes, Hints} {D E : Type} {C : Type -> Type} `{LevelDB D, Encoders E, GCache C}.
Context `{!Codec E ProposalSignFact}.
Abbreviation PO := (IO (PoolWorld (D := D) (E := E) (C := C))).

(** ** The operations of a proposal ([launch/p_proposal_maker.go]) *)
Section operations.
Variable sched : forall {J}, list J -> list J.
Variables (ExistsKnownOperation ExistsInStateOperation : Hash -> res bool).
Variables (IsSupported : bytes -> bool) (expire : bytes -> Z).

Definition operation_filter (now : Z) (meta : FrameHeaderPoolOperation) : res bool :=
  if negb (IsSupported (fo_ht meta)) then Err "Not supported operation"
  else
    ExistsKnownOperation (fo_ophash meta) ≫= fun found =>
    if found : bool then Ok false
    else
      ExistsInStateOperation (fo_facthash meta) ≫= fun found =>
      if found : bool then Ok false
      else
        ExistsInStateOperation (fo_facthash meta) ≫= fun found =>
        if found : bool then Ok false
        else Ok (negb (fo_addedAt meta + expire (fo_ht meta) <? now)).
(** [policy] is [MaxOperationsInProposal] of the last network policy. *)
Definition proposalMaker_operations (policy : option Z) (now height : Z) : PO (list (Hash * Hash)) :=
  match policy with
  | None => mret []
  | Some n => if n <? 1 then mret [] else OperationHashes (@sched) height n (Some (operation_filter now))
  end.
End operations.

(** ** The maker *)
Variables (local : Node) (priv : Privatekey) (networkID : string).
Variable getOperations : Z -> PO (list (Hash * Hash)).

Definition makeProposal (a : Making) (point : Point) (previousBlock : option Hash) (ops : list (Hash * Hash)) : PO ProposalSignFact :=
  let fact := NewProposalFact (mk_now a) point (Some (node_address local)) previousBlock ((fun hs : Hash * Hash => (Some hs.1, Some hs.2)) <$> ops) in
  io_lift (ProposalSignFact_Sign (mk_signedAt a) priv networkID (NewProposalSignFact fact)) ≫= fun signfact =>
  SetProposal signfact ≫= fun _ => mret signfact.
Definition preferEmpty (a : Making) (point : Point) (previousBlock : option Hash) : PO ProposalSignFact :=
  ProposalByPoint point (Some (node_address local)) previousBlock ≫= fun pr =>
  match pr with Some pr => mret pr | None => makeProposal a point previousBlock [] end.
Definition makeNew (a : Making) (point : Point) (previousBlock : option Hash) : PO ProposalSignFact :=
  ProposalByPoint point (Some (node_address local)) previousBlock ≫= fun pr =>
  match pr with
  | Some pr => mret pr
  | None => getOperations (p_h point) ≫= fun ops => makeProposal a point previousBlock ops
  end.
Definition PreferEmpty (a : Making) (point : Point) (previousBlock : option Hash) : PO ProposalSignFact :=
  io_lift (mk_lastBlockMap a) ≫= fun m =>
  match m with
  | Some m => if p_h point <? wrap_s 64 (mf_height m - 1) then io_err "too old; ignored" else preferEmpty a point previousBlock
  | None => preferEmpty a point previousBlock
  end.
Definition Make (a : Making) (point : Point) (previousBlock : option Hash) : PO ProposalSignFact :=
  io_lift (mk_lastBlockMap a) ≫= fun m =>
  match m with
  | None => makeNew a point previousBlock
  | Some m =>
      if p_h point <? wrap_s 64 (mf_height m - 1) then io_err "too old; ignored"
      else if wrap_s 64 (mf_height m + 1) <? p_h point then preferEmpty a point previousBlock
      else if p_h point =? wrap_s 64 (mf_height m + 1) then
        io_lift (Hash_eq previousBlock (mf_hash m)) ≫= fun same =>
        if same : bool then makeNew a point previousBlock else preferEmpty a point previousBlock
      else makeNew a point previousBlock
  end.

(** ** The selector *)
Variable ProposerSelectFunc : Point -> list Node -> option Hash -> res Node.

Definition findProposalFromProposer (t : Tick) (point : Point) (proposer : Node) (previousBlock : option Hash) : PO ProposalSignFact :=
  if bool_decide (node_address proposer = node_address local) then Make (tk_making t) point previousBlock
  else
    match tk_answer t with
    | Some (Ok (Some pr)) => SetProposal pr ≫= fun _ => mret pr
    | Some Panic => io_panic
    | None | Some (Ok None) | Some (Err _) => io_err errFailedToRequestProposalToNode
    end.
Definition findProposal (t : Tick) (point : Point) (proposer : Node) (previousBlock : option Hash) : PO ProposalSignFact :=
  ProposalByPoint point (Some (node_address proposer)) previousBlock ≫= fun pr =>
  match pr with Some pr => mret pr | None => findProposalFromProposer t point proposer previousBlock end.
(** The context is done after the ticks. *)
Fixpoint proposalFromNode (ticks : list Tick) (ctxerr : string) (point : Point) (proposer : Node) (previousBlock : option Hash) : PO ProposalSignFact :=
  match ticks with
  | [] => io_err ctxerr
  | t :: ticks =>
      io_try (findProposal t point proposer previousBlock) ≫= fun r =>
      match r with
      | Err e =>
          if is_context_error e || bool_decide (e = errFailedToRequestProposalToNode)
          then proposalFromNode ticks ctxerr point proposer previousBlock else io_err e
      | r => io_lift r
      end
  end.
Definition filterDeadNodes (n : list Node) (b : list Address) : list Node :=
  Filter2Slices n b (fun x y => bool_decide (node_address x = y)).
Fixpoint proposalFromOthers (ticks : list Tick) (ctxerr : string) (point : Point) (filtered : list Node) (previousBlock : option Hash) : PO ProposalSignFact :=
  if (length filtered <? 1)%nat then io_err "empty nodes"
  else
    match ticks with
    | [] => io_err ctxerr
    | t :: ticks =>
        io_lift (ProposerSelectFunc point filtered previousBlock) ≫= fun proposer =>
        io_try (findProposal t point proposer previousBlock) ≫= fun r =>
        match r with
        | Err e =>
            if bool_decide (e = errFailedToRequestProposalToNode) then
              let filtered := filterDeadNodes filtered [node_address proposer] in
              if (length filtered <? 1)%nat then io_err e else proposalFromOthers ticks ctxerr point filtered previousBlock
            else io_err e
        | r => io_lift r
        end
    end.

(** The turns of a selection, and how each of its two contexts ends. *)
Record Selecting := {
  sl_nodes : Z -> res (option (list Node));
  sl_first : list Tick; sl_first_err : string;
  sl_others : list Tick; sl_others_err : string;
  sl_making : Making
}.
(** The proposal, or the proposer that failed and the error. *)
Definition selectFromProposer (s : Selecting) (point : Point) (nodes : list Node) (previousBlock : option Hash)
    : PO (res ProposalSignFact * option Address) :=
  match ProposerSelectFunc point nodes previousBlock with
  | Panic => io_panic
  | Err e => mret (Err e, None)
  | Ok proposer =>
      io_try (proposalFromNode (sl_first s) (sl_first_err s) point proposer previousBlock) ≫= fun r =>
      mret (r, Some (node_address proposer))
  end.
Definition gives_up (e : string) : bool := bool_decide (e = errFailedToRequestProposalToNode) || is_context_error e.
Definition selectInternal (s : Selecting) (point : Point) (previousBlock : option Hash) : PO ProposalSignFact :=
  io_lift (getNodes (p_h point) (sl_nodes s)) ≫= fun nodes =>
  match nodes with
  | None | Some [] => io_err "nodes not found for height"
  | Some [n] => proposalFromNode (sl_first s) (sl_first_err s) point n previousBlock
  | Some nodes =>
      selectFromProposer s point nodes previousBlock ≫= fun '(r, failed) =>
      match r with
      | Err e =>
          if gives_up e then
            let nodes := match failed with Some a => filterDeadNodes nodes [a] | None => nodes end in
            if (length nodes <? 1)%nat then io_err errFailedToRequestProposalToNode
            else proposalFromOthers (sl_others s) (sl_others_err s) point nodes previousBlock
          else io_err e
      | r => io_lift r
      end
  end.
Definition Select (s : Selecting) (point : Point) (previousBlock : option Hash) : PO ProposalSignFact :=
  io_try (selectInternal s point previousBlock) ≫= fun r =>
  match r with
  | Err e =>
      if gives_up e then
        Make (sl_making s) point previousBlock ≫= fun pr =>
        SetProposal pr ≫= fun _ => mret pr
      else io_err e
  | r => io_lift r
  end.

(** *** Asking many nodes at once *)
(** What each of them answers, in the order in which the workers end; the first that is
    as expected is taken, and none when there is none. *)
Fixpoint ConcurrentRequestProposal (point : Point) (proposer : Node) (answers : list (res (option ProposalSignFact))) : res (option ProposalSignFact) :=
  match answers with
  | [] => Ok None
  | Ok (Some pr) :: answers =>
      if isExpectedValidProposal point proposer pr networkID then Ok (Some pr) else ConcurrentRequestProposal point proposer answers
  | Panic :: _ => Panic
  | _ :: answers => ConcurrentRequestProposal point proposer answers
  end.

(** ** Proposals of other nodes *)
(** Another node asks for a proposal ([isaac/network/quicstream_handlers.go]); [x] is
    what the node gives that hands over to this one. *)
Definition getOrCreateProposal (x : res (option ProposalSignFact)) (a : Making) (point : Point) (proposer : Address) (previousBlock : option Hash)
    : PO (option ProposalSignFact) :=
  ProposalByPoint point (Some proposer) previousBlock ≫= fun pr =>
  match pr with
  | Some pr => mret (Some pr)
  | None =>
      if negb (bool_decide (proposer = node_address local)) then mret None
      else
        io_lift x ≫= fun x =>
        match x with
        | Some pr => SetProposal pr ≫= fun _ => mret (Some pr)
        | None => Make a point previousBlock ≫= fun pr => mret (Some pr)
        end
  end.
(** The answers of the members for a proposal of a fact, in the order in which the
    workers end ([launch/p_proposal.go]); one that is not valid ends the search. *)
Fixpoint first_proposal (point : Point) (facthash : Hash) (answers : list (res (option ProposalSignFact))) : res (option ProposalSignFact) :=
  match answers with
  | [] => Ok None
  | Panic :: _ => Panic
  | Ok (Some pr) :: answers =>
      ProposalSignFact_IsValid networkID pr ≫= fun _ =>
      if negb (Point_Equal point (psf_Point pr)) then first_proposal point facthash answers
      else if negb (bool_decide (Some facthash = pf_hash <$> psf_fact pr)) then first_proposal point facthash answers
      else Ok (Some pr)
  | _ :: answers => first_proposal point facthash answers
  end.
Definition getProposal (answers : list (res (option ProposalSignFact))) (point : Point) (facthash : Hash) : PO ProposalSignFact :=
  Proposal facthash ≫= fun pr =>
  match pr with
  | Some pr => mret pr
  | None =>
      if (length answers <? 1)%nat then io_err "empty remote"
      else
        io_lift (first_proposal point facthash answers) ≫= fun pr =>
        match pr with
        | None => io_err "ProposalSignFact not found"
        | Some pr => io_try (SetProposal pr) ≫= fun _ => mret pr
        end
  end.
End maker.
