(* ===== verification/MakerLaws.v ===== *)
(** * One proposal of a node for a point

    The proofs about [Maker]: whatever operations come in, whatever other nodes send and
    however often it is asked, a node makes one proposal for a point and a previous
    block. *)
From S2P Require Import Prelude Point Vote Slice Ballot Voteproof LockedMap Batch Block State Bytes Frame Leveldb Tempdb Stored Proposals Effects CenterHistory Pool PoolLaws CleanLaws Maker.

Open Scope Z_scope.

(** ** Proposals of the pool *)
Section stored.
Context `{Crypto, BlockCrypto, HashBytes, Hints, !HashBytesLaws} {D E : Type} {C : Type -> Type} `{LevelDBLaws D, EncodersLaws E, GCache C}.
Context `{!Codec E PoolOperation, !Codec E ProposalSignFact, !CodecLaws E ProposalSignFact}.
Abbreviation world := (PoolWorld (D := D) (E := E) (C := C)).
Implicit Types (w : world) (h : Hash) (sf pr : ProposalSignFact) (f : ProposalFact).

Definition point_key f : bytes := leveldbProposalPointKey (pf_point f) (pf_proposer f) (pf_previousBlock f).
Definition len32 h : Prop := length (Hash_Bytes h) = 32%nat.
(** Keys of proposals. *)
Definition proposal_key (k : bytes) : Prop := leveldbKeyPrefixProposal `prefix_of` k \/ leveldbKeyPrefixProposalByPoint `prefix_of` k.

Lemma pkey h : leveldbProposalKey h = leveldbKeyPrefixProposal ++ Hash_Bytes h.
Proof. apply NewPrefixKey_1. Qed.
Lemma pkey_inj h h' : leveldbProposalKey h = leveldbProposalKey h' <-> h = h'.
Proof. split; [|by intros ->]. rewrite !pkey. by intros ?%app_inv_head%Hash_Bytes_inj. Qed.
Lemma point_key_app p a pb : leveldbProposalPointKey p a pb = leveldbKeyPrefixProposalByPoint ++
  ((Point_Bytes p ++ str_bytes "-" ++ from_option (fun a => str_bytes (address_bytes a)) [] a) ++ from_option Hash_Bytes [] pb).
Proof. unfold leveldbProposalPointKey, NewPrefixKey, ConcatBytesSlice. rewrite <- !app_assoc. simpl. by rewrite app_nil_r. Qed.
Lemma keys_differ h p a pb : leveldbProposalKey h <> leveldbProposalPointKey p a pb.
Proof. by rewrite pkey, point_key_app. Qed.
Lemma proposal_key_hash h : proposal_key (leveldbProposalKey h).
Proof. rewrite pkey. left. by eexists. Qed.
Lemma proposal_key_point p a pb : proposal_key (leveldbProposalPointKey p a pb).
Proof. rewrite point_key_app. right. by eexists. Qed.
Lemma pkey_bytes h : is_bytes (leveldbProposalKey h).
Proof. rewrite pkey. apply Forall_app. split; [by repeat constructor|apply hash_bytes_bytes]. Qed.
Lemma point_key_bytes p a pb : is_bytes (leveldbProposalPointKey p a pb).
Proof.
  rewrite point_key_app. unfold Point_Bytes. repeat apply Forall_app_2; try apply Uint64ToBytes_bytes; try apply str_bytes_bytes; [by repeat constructor|..];
    [destruct a|destruct pb]; simpl; apply str_bytes_bytes || constructor.
Qed.
(** Points have keys of their own for each proposer. *)
Lemma point_key_proposer p a pb p' a' pb' : len32 pb -> len32 pb' ->
  leveldbProposalPointKey p a (Some pb) = leveldbProposalPointKey p' a' (Some pb') ->
  from_option (fun a => str_bytes (address_bytes a)) [] a = from_option (fun a => str_bytes (address_bytes a)) [] a'.
Proof.
  intros Hl Hl'. rewrite !point_key_app. simpl from_option. intros Eq%app_inv_head. apply app_inj_2 in Eq as [Eq _]; [|by rewrite Hl, Hl'].
  assert (forall p : Point, length (Point_Bytes p) = 17%nat) as Hp.
  { intros q. unfold Point_Bytes, Round_Bytes, Height_Bytes. by rewrite !length_app, Int64ToBytes_length, Uint64ToBytes_length. }
  apply app_inj_1 in Eq as [_ Eq]; [|by rewrite !Hp]. by apply app_inv_head in Eq.
Qed.

Lemma batch_get_two k k1 k2 v1 v2 :
  batch_get k [(k1, v1); (k2, v2)] = if bool_decide (k2 = k) then Some v2 else if bool_decide (k1 = k) then Some v1 else None.
Proof. done. Qed.
#[local] Opaque leveldbProposalKey leveldbProposalPointKey.

(** What [ProposalByPoint] finds under a key. *)
Definition by_point w (k : bytes) : res (option ProposalSignFact) :=
  match pget w k with
  | None => Ok None
  | Some hb => match pget w (leveldbProposalKey (hash_of hb)) with None | Some [] => Ok None | Some b => ReadDecodeFrame (E := E) b end
  end.
Lemma ProposalByPoint_ok p a pb w : open w -> ProposalByPoint p a pb w = (by_point w (leveldbProposalPointKey p a pb), w).
Proof.
  intros Ho. unfold ProposalByPoint, by_point, mbind at 1, io_bind at 1. rewrite pool_Get_ok by (done || (by rewrite point_key_app)).
  destruct (pget w _) as [hb|]; [|done]. unfold Proposal, mbind, io_bind. rewrite pool_Get_ok by (done || (by rewrite pkey)).
  by destruct (pget w _) as [[|x b]|].
Qed.
Lemma by_point_ext w w' k : (forall k, proposal_key k -> pget w' k = pget w k) -> proposal_key k -> by_point w' k = by_point w k.
Proof.
  intros He Hk. unfold by_point. rewrite (He k Hk). destruct (pget w k) as [hb|]; [|done].
  by rewrite (He _ (proposal_key_hash _)).
Qed.
Lemma EncodeFrame_read enc sf m b : EncodeFrame enc [] sf = Ok (m, b) -> ReadDecodeFrame b = Ok (Some sf) /\ b <> [].
Proof.
  unfold EncodeFrame. intros (m' & Hm & (b' & Hb & [= <- <-])%bind_ok)%bind_ok. rewrite writeFrame_ok in Hb. injection Hb as <-.
  split; [|done]. unfold ReadDecodeFrame. rewrite ReadFrame_of; [by apply DecodeFrame_Marshal|done|apply Forall_singleton, Enc_Hint_short].
Qed.

Lemma pool_st_ok w : open w -> pool_st w = (Ok (Some leveldbLabelPool), w).
Proof. intros Ho. unfold pool_st, mbind, io_bind, gets. by rewrite Ho. Qed.
(** The two entries of a proposal are written, and nothing else. *)
Record has_put w w' f (b : bytes) : Prop := {
  hp_point : pget w' (point_key f) = Some (Hash_Bytes (pf_hash f));
  hp_body : pget w' (leveldbProposalKey (pf_hash f)) = Some b;
  hp_rest k : k <> point_key f -> k <> leveldbProposalKey (pf_hash f) -> pget w' k = pget w k
}.
(** The ways in which [SetProposal] ends. *)
Inductive put_proposal w sf f : res bool * world -> Prop :=
| put_found : is_Some (pget w (leveldbProposalKey (pf_hash f))) -> put_proposal w sf f (Ok false, w)
| put_failed r : (forall b, r <> Ok b) -> put_proposal w sf f (r, w)
| put_done b d : pget w (leveldbProposalKey (pf_hash f)) = None -> b <> [] -> ReadDecodeFrame (E := E) b = Ok (Some sf) ->
    has_put w (with_disk d w) f b -> put_proposal w sf f (Ok true, with_disk d w).
Lemma SetProposal_spec sf f w : open w -> psf_fact sf = Some f -> put_proposal w sf f (SetProposal sf w).
Proof.
  intros Ho Ef. unfold SetProposal, mbind, io_bind. rewrite (pool_st_ok w Ho), Ef, pool_Exists_ok by (done || (by rewrite pkey)).
  case_bool_decide as Hs; [by constructor|].
  unfold gets, io_lift. destruct (EncodeFrame _ [] sf) as [[m b]|e|] eqn:Ee; [|by constructor..].
  destruct (pool_Batch_ok [(leveldbProposalKey (pf_hash f), Some b); (point_key f, Some (Hash_Bytes (pf_hash f)))] w Ho) as (d & Eb & Hd).
  unfold point_key in Eb at 1. rewrite Eb. destruct (EncodeFrame_read _ _ _ _ Ee) as [Hr Hb].
  apply (put_done _ _ _ b d); [by apply eq_None_not_Some|done|done|].
  setoid_rewrite batch_get_two in Hd. split.
  - rewrite Hd by apply point_key_bytes. by rewrite (bool_decide_eq_true_2 (point_key f = point_key f)).
  - rewrite Hd by apply pkey_bytes. rewrite (bool_decide_eq_false_2 (point_key f = _)); [|intros Eq; symmetry in Eq; by apply keys_differ in Eq].
    by rewrite (bool_decide_eq_true_2 (leveldbProposalKey (pf_hash f) = leveldbProposalKey (pf_hash f))).
  - intros k Hk1 Hk2. destruct (decide (is_bytes k)) as [Hk|Hk]; [|by rewrite !pget_not_bytes]. rewrite Hd by done.
    by rewrite (bool_decide_eq_false_2 (point_key f = k)), (bool_decide_eq_false_2 (leveldbProposalKey (pf_hash f) = k)).
Qed.

(** ** The proposals of the local node *)
Variables (local : Node) (known : ProposalFact -> Prop).
Abbreviation addr := (node_address local).
(** Facts of different points, proposers or previous blocks have different hashes. *)
Hypothesis no_collision : forall f f', known f -> known f' -> pf_hash f = pf_hash f' ->
  pf_point f = pf_point f' /\ pf_proposer f = pf_proposer f' /\ pf_previousBlock f = pf_previousBlock f'.
Hypothesis address_inj : forall a a', address_bytes a = address_bytes a' -> a = a'.
(** Heights are [int64]. *)
Hypothesis known_height : forall f, known f -> i64 (p_h (pf_point f)).
Definition asked (p : Point) h : Prop := i64 (p_h p) /\ len32 h.

Abbreviation made := (list (Point * Hash * ProposalSignFact)).
Abbreviation key_of p h := (leveldbProposalPointKey p (Some addr) (Some h)).
(** What is stored is what is found, and what was made is stored. *)
Record prop_inv w (l : made) : Prop := {
  pv_stored h b : pget w (leveldbProposalKey h) = Some b -> b <> [] /\ exists sf f, ReadDecodeFrame (E := E) b = Ok (Some sf) /\ psf_fact sf = Some f /\
    pf_hash f = h /\ known f /\ (exists pb, pf_previousBlock f = Some pb /\ len32 pb) /\
    (pf_proposer f = Some addr -> pget w (point_key f) = Some (Hash_Bytes h));
  pv_points k hb : pget w k = Some hb -> leveldbKeyPrefixProposalByPoint `prefix_of` k ->
    exists f, known f /\ k = point_key f /\ hash_of hb = pf_hash f /\ exists pb, pf_previousBlock f = Some pb /\ len32 pb;
  pv_made p h pr : (p, h, pr) ∈ l -> asked p h /\ by_point w (key_of p h) = Ok (Some pr)
}.
Lemma prop_inv_ext w w' l : (forall k, proposal_key k -> pget w' k = pget w k) -> prop_inv w l -> prop_inv w' l.
Proof.
  intros He I. split.
  - intros h b Hb. rewrite (He _ (proposal_key_hash h)) in Hb.
    destruct (pv_stored _ _ I h b Hb) as (Hne & sf & f & Hr & Hf & Hh & Hk & Hp & Hl). split; [done|]. exists sf, f. repeat split; try done.
    intros Ha. unfold point_key. rewrite (He _ (proposal_key_point _ _ _)). by apply Hl.
  - intros k hb Hk Hp. rewrite He in Hk by by right. by apply (pv_points _ _ I).
  - intros p h pr Hpr. destruct (pv_made _ _ I p h pr Hpr) as [Hl Hb]. split; [done|].
    by rewrite (by_point_ext w w' _ He (proposal_key_point _ _ _)).
Qed.
(** A stored proposal of the local node is the one of its point. *)
Lemma stored_by_point w l h b sf f : prop_inv w l -> pget w (leveldbProposalKey h) = Some b -> ReadDecodeFrame (E := E) b = Ok (Some sf) ->
  psf_fact sf = Some f -> pf_proposer f = Some addr -> by_point w (point_key f) = Ok (Some sf).
Proof.
  intros I Hb Hr Hf Ha. destruct (pv_stored _ _ I h b Hb) as (Hne & sf' & f' & Hr' & Hf' & Hh & _ & _ & Hl). rewrite Hr in Hr'. injection Hr' as <-.
  rewrite Hf in Hf'. injection Hf' as <-. unfold by_point. rewrite (Hl Ha), hash_of_Bytes, Hb.
  by destruct b.
Qed.


(** A proposal that is put: nothing else of the proposals changes. *)
Lemma put_prop_inv w w' l sf f b : prop_inv w l -> b <> [] -> psf_fact sf = Some f -> known f -> (exists pb, pf_previousBlock f = Some pb /\ len32 pb) ->
  ReadDecodeFrame (E := E) b = Ok (Some sf) -> pget w (leveldbProposalKey (pf_hash f)) = None -> has_put w w' f b ->
  (forall p h, len32 h -> by_point w (key_of p h) <> Ok None -> key_of p h <> point_key f) -> prop_inv w' l.
Proof.
  intros I Hne Hf Hk Hpb Hr Hn Hd Hkey.
  assert (forall h, h <> pf_hash f -> pget w' (leveldbProposalKey h) = pget w (leveldbProposalKey h)) as Hb.
  { intros h Hh. apply (hp_rest _ _ _ _ Hd); [apply keys_differ|]. by rewrite pkey_inj. }
  assert (forall p h, len32 h -> by_point w (key_of p h) <> Ok None -> pget w' (key_of p h) = pget w (key_of p h)) as Hp.
  { intros p h Hl Hby. apply (hp_rest _ _ _ _ Hd); [by apply Hkey|]. intros Eq. symmetry in Eq. by apply keys_differ in Eq. }
  split.
  - intros h b' Hb'. destruct (decide (h = pf_hash f)) as [->|Eh].
    + rewrite (hp_body _ _ _ _ Hd) in Hb'. injection Hb' as <-. split; [done|]. exists sf, f. repeat split; try done. intros _. apply Hd.
    + rewrite (Hb h Eh) in Hb'. destruct (pv_stored _ _ I h b' Hb') as (Hne' & sf' & f' & Hr' & Hf' & Hh & Hk' & (pb & Epb & Hl) & Hloc). split; [done|].
      exists sf', f'. repeat split; try done; [by exists pb|]. intros Ha. pose proof (stored_by_point _ _ _ _ _ _ I Hb' Hr' Hf' Ha) as Hby.
      specialize (Hloc Ha). unfold point_key in *. rewrite Ha, Epb in *. rewrite Hp; [done|done|]. by rewrite Hby.
  - intros k hb Hk' Hpre. destruct (decide (k = point_key f)) as [->|Ek].
    { rewrite (hp_point _ _ _ _ Hd) in Hk'. injection Hk' as <-. exists f. by rewrite hash_of_Bytes. }
    apply (pv_points _ _ I); [|done]. rewrite <- Hk'. symmetry. apply (hp_rest _ _ _ _ Hd); [done|]. intros ->. rewrite pkey in Hpre. by destruct Hpre.
  - intros p h pr Hpr. destruct (pv_made _ _ I p h pr Hpr) as [Hl Hby]. split; [done|]. rewrite <- Hby. unfold by_point.
    rewrite Hp by (apply Hl || (by rewrite Hby)). unfold by_point in Hby. destruct (pget w (key_of p h)) as [hb|]; [|done].
    destruct (decide (hash_of hb = pf_hash f)) as [Eh|Eh]; [by rewrite Eh, Hn in Hby|]. by rewrite (Hb _ Eh).
Qed.
(** A proposal of another node comes in. *)
Lemma other_put w l sf f a pb r w' : prop_inv w l -> open w -> psf_fact sf = Some f -> known f -> pf_proposer f = Some a -> a <> addr ->
  pf_previousBlock f = Some pb -> len32 pb -> SetProposal sf w = (r, w') -> prop_inv w' l.
Proof.
  intros I Ho Hf Hk Ha Hne Hpb Hlen Es. pose proof (SetProposal_spec sf f w Ho Hf) as Hp. rewrite Es in Hp.
  inversion Hp as [Hs|r' Hr|b d Hn Hb Hr Hd]; subst; [done..|].
  apply (put_prop_inv w (with_disk d w) l sf f b); try done; [by exists pb|].
  intros p h Hh _ Eq. unfold point_key in Eq. rewrite Hpb, Ha in Eq. apply point_key_proposer in Eq; [|done..].
  simpl in Eq. apply (inj str_bytes), address_inj in Eq. by subst.
Qed.
(** A proposal of the local node is put when there is none for its point. *)
Lemma local_put w l sf f p h b w' : prop_inv w l -> open w -> psf_fact sf = Some f -> known f -> pf_proposer f = Some addr ->
  pf_point f = p -> pf_previousBlock f = Some h -> len32 h -> by_point w (key_of p h) = Ok None -> SetProposal sf w = (Ok b, w') ->
  prop_inv w' ((p, h, sf) :: l).
Proof.
  intros I Ho Hf Hk Ha <- Hpb Hlen Hby Es. pose proof (SetProposal_spec sf f w Ho Hf) as Hp. rewrite Es in Hp.
  assert (point_key f = key_of (pf_point f) h) as Ek by (unfold point_key; by rewrite Ha, Hpb).
  inversion Hp as [[b' Hs]|r' Hr|b' d Hn Hb Hr Hd]; subst.
  - destruct (pv_stored _ _ I _ _ Hs) as (_ & sf' & f' & Hr' & Hf' & Hh & Hk' & _ & _).
    destruct (no_collision f' f Hk' Hk Hh) as (E1 & E2 & E3). rewrite Ha in E2.
    pose proof (stored_by_point _ _ _ _ _ _ I Hs Hr' Hf' E2) as Hby'. unfold point_key in Hby'. by rewrite E1, E2, E3, Hpb, Hby in Hby'.
  - by destruct (Hr b).
  - assert (prop_inv (with_disk d w) l) as I'.
    { apply (put_prop_inv w (with_disk d w) l sf f b'); try done; [by exists h|]. intros p' h' Hh' Hne Eq. by rewrite Eq, Ek in Hne. }
    split; [apply I'..|]. intros p' h' pr [[= -> -> ->]|Hpr]%elem_of_cons; [|by apply (pv_made _ _ I')]. split; [by split; [apply known_height|]|].
    unfold by_point. rewrite <- Ek, (hp_point _ _ _ _ Hd), hash_of_Bytes, (hp_body _ _ _ _ Hd). by destruct b'.
Qed.

(** *** The rest of the pool *)
Lemma SetProposal_rest w sf r w' : open w -> SetProposal sf w = (r, w') -> open w' /\ forall k, ~ proposal_key k -> pget w' k = pget w k.
Proof.
  intros Ho Es. destruct (psf_fact sf) as [f|] eqn:Ef.
  - pose proof (SetProposal_spec sf f w Ho Ef) as Hp. rewrite Es in Hp. inversion Hp as [Hs|r' Hr|b d Hn Hb Hr Hd]; subst; [done..|].
    split; [done|]. intros k Hk. apply (hp_rest _ _ _ _ Hd); intros ->; apply Hk; [apply proposal_key_point|apply proposal_key_hash].
  - unfold SetProposal, mbind, io_bind in Es. rewrite (pool_st_ok w Ho), Ef in Es. by injection Es as <- <-.
Qed.
Lemma pool_inv_ext w w' set given : pool_inv w set given -> open w' -> (forall k, ~ proposal_key k -> pget w' k = pget w k) -> pool_inv w' set given.
Proof.
  intros I Ho He.
  assert (forall h, ~ proposal_key (leveldbNewOperationKey h)) as Hb by (intros h; rewrite body_key; by intros [[x Hx]|[x Hx]]).
  assert (forall h, ~ proposal_key (leveldbNewOperationKeysKey h)) as Hk by (intros h; rewrite keys_key; by intros [[x Hx]|[x Hx]]).
  assert (forall height h, ~ proposal_key (leveldbRemovedNewOperationKey height h)) as Hr by (intros ? h; rewrite removed_key; by intros [[x Hx]|[x Hx]]).
  assert (records w' = records w) as Er.
  { apply ps_list_ext; [apply pool_bytes|apply pool_bytes|by apply prefix_given; repeat constructor|]. intros k Hin.
    destruct (decide (is_bytes k)) as [Hkb|Hkb]; [|].
    2: { change (pget w' k = pget w k). by rewrite !pget_not_bytes. }
    apply in_BytesPrefix in Hin; [|by repeat constructor|done]. apply He. destruct Hin as [x ->]. by intros [[y Hy]|[y Hy]]. }
  split; [done|..].
  - intros h. rewrite (He _ (Hb h)). apply (pi_set _ _ _ I).
  - intros k b. rewrite Er. intros Hkb. destruct (pi_record _ _ _ I k b Hkb) as (m & now & Em & Hs & Ek & Hp). exists m, now. by rewrite (He _ (Hk _)).
  - intros h Hh. rewrite (He _ (Hk h)). by apply (pi_given _ _ _ I).
  - intros h Hh. unfold waits, metas. rewrite Er. destruct (pi_account _ _ _ I h Hh) as [?|[height ?]]; [by left|right]. exists height. by rewrite (He _ (Hr height h)).
Qed.
Lemma other_proposal_key k : proposal_key k -> other_key k.
Proof. intros [[x ->]|[x ->]]; repeat split; by intros [y Hy]. Qed.

(** *** The operations of a proposal *)
Variable sched : forall {J}, list J -> list J.
Hypothesis sched_perm : forall J (l : list J), (sched l ≡ₚ l).
Definition accepts (flt : FrameHeaderPoolOperation -> res bool) (m : FrameHeaderPoolOperation) : bool := match flt m with Ok true => true | _ => false end.
Lemma scan_step_accepts limit flt k b s r : scan_operation limit flt k b s = Ok r -> scan_operation limit (fun m => Ok (accepts flt m)) k b s = Ok r.
Proof.
  unfold scan_operation, accepts. destruct (ReadFrameHeaderOperation b) as [m|e|]; [|done..].
  by destruct (flt m) as [[]|e|].
Qed.
Lemma scan_accepts limit flt l s s' : iter (scan_operation limit flt) l s = Ok s' -> iter (scan_operation limit (fun m => Ok (accepts flt m))) l s = Ok s'.
Proof.
  revert s. induction l as [|[k b] l IH]; intros s; [done|]. cbn [iter]. intros ([s1 keep] & Hs & Hk)%bind_ok.
  rewrite (scan_step_accepts _ _ _ _ _ _ Hs). destruct keep; [by apply IH|done].
Qed.
Lemma OperationHashes_keeps height limit flt w set given r w' : pool_inv w set given -> 1 <= limit ->
  OperationHashes (@sched) height limit (Some flt) w = (r, w') ->
  (exists given', pool_inv w' set given') /\ forall k, proposal_key k -> pget w' k = pget w k.
Proof.
  intros I Hl Er. set (s0 := {| os_ops := []; os_removeOrdered := []; os_removeOps := []; os_facts := [] |}).
  assert (forall flt, pool_Iter (BytesPrefix leveldbKeyPrefixNewOperationOrdered) (scan_operation limit flt) true s0 w =
    (iter (scan_operation limit flt) (records w) s0, w)) as Hit.
  { intros f. by rewrite pool_Iter_ok by (done || apply I || (by repeat constructor)). }
  destruct (iter (scan_operation limit flt) (records w) s0) as [s'|e|] eqn:Ei.
  - assert (OperationHashes (@sched) height limit (Some flt) w = OperationHashes (@sched) height limit (Some (fun m => Ok (accepts flt m))) w) as Eq.
    { unfold OperationHashes. unfold mbind at 1 4, io_bind at 1 4. simpl default. fold s0. by rewrite !Hit, Ei, (scan_accepts _ _ _ _ _ Ei). }
    rewrite Eq in Er. destruct (OperationHashes_takes (@sched) sched_perm (accepts flt) height limit w set given I Hl) as (o & r' & pre & post & w1 & Et & _ & _ & I' & Ho).
    rewrite Er in Et. injection Et as -> ->. split; [by eexists|]. intros k Hk. by apply Ho, other_proposal_key.
  - unfold OperationHashes in Er. unfold mbind at 1, io_bind at 1 in Er. simpl default in Er. fold s0 in Er. rewrite Hit, Ei in Er. injection Er as <- <-. split; [by eexists|done].
  - unfold OperationHashes in Er. unfold mbind at 1, io_bind at 1 in Er. simpl default in Er. fold s0 in Er. rewrite Hit, Ei in Er. injection Er as <- <-. split; [by eexists|done].
Qed.

(** *** The maker *)
Variables (priv : Privatekey) (networkID : string).
Definition good w (l : made) : Prop := (exists set given, pool_inv w set given) /\ prop_inv w l.
Lemma good_open w l : good w l -> open w.
Proof. intros [(set & given & I) _]. apply I. Qed.
Definition grow (p : Point) h (r : res ProposalSignFact) (l : made) : made := match r with Ok pr => (p, h, pr) :: l | _ => l end.
Definition result_known (r : res ProposalSignFact) : Prop := forall pr f, r = Ok pr -> psf_fact pr = Some f -> known f.
(** A call that gives the proposal of the local node. *)
Definition makes (p : Point) h (m : IO world ProposalSignFact) w : Prop :=
  forall l r w', good w l -> asked p h -> m w = (r, w') -> result_known r -> good w' (grow p h r l).

Lemma found_makes w p h pr l : good w l -> asked p h -> by_point w (key_of p h) = Ok (Some pr) -> good w ((p, h, pr) :: l).
Proof.
  intros [Ip I] Hh Hb. split; [done|]. split; [apply I..|]. intros p' h' pr' [[= -> -> ->]|Hpr]%elem_of_cons; [done|]. by apply (pv_made _ _ I).
Qed.
Lemma makeProposal_makes a p h ops w : by_point w (key_of p h) = Ok None ->
  makes p h (makeProposal local priv networkID a p (Some h) ops) w.
Proof.
  intros Hby l r w' [(set & given & Ip) I] Hh Em Hkn. pose proof (pi_open _ _ _ Ip) as Ho.
  unfold makeProposal, mbind, io_bind, io_lift in Em. set (fact := NewProposalFact _ _ _ _ _) in Em.
  destruct (ProposalSignFact_Sign _ _ _ _) as [sf|e|] eqn:Es; [|by injection Em as <- <-; split; [by exists set, given|]..].
  assert (psf_fact sf = Some fact) as Ef.
  { unfold ProposalSignFact_Sign in Es. simpl in Es. apply bind_ok in Es as ([[pub sig] at_] & _ & [= <-]). done. }
  destruct (SetProposal sf w) as [rs ws] eqn:Ep. destruct (SetProposal_rest w sf rs ws Ho Ep) as [Hows He].
  assert (exists set given, pool_inv ws set given) as Ips by (exists set, given; by eapply pool_inv_ext).
  destruct rs as [b|e|]; injection Em as <- <-; (split; [done|]).
  - apply (local_put w l sf fact p h b ws); try done; [by apply (Hkn sf)|apply Hh].
  - pose proof (SetProposal_spec sf fact w Ho Ef) as Hp. rewrite Ep in Hp. by inversion Hp; subst.
  - pose proof (SetProposal_spec sf fact w Ho Ef) as Hp. rewrite Ep in Hp. by inversion Hp; subst.
Qed.
Lemma preferEmpty_makes a p h w : makes p h (preferEmpty local priv networkID a p (Some h)) w.
Proof.
  intros l r w' Hg Hh Em Hkn. unfold preferEmpty, mbind, io_bind in Em. rewrite (ProposalByPoint_ok _ _ _ _ (good_open _ _ Hg)) in Em.
  destruct (by_point w (key_of p h)) as [[pr|]|e|] eqn:Hby.
  - injection Em as <- <-. by apply found_makes.
  - by eapply makeProposal_makes.
  - by injection Em as <- <-.
  - by injection Em as <- <-.
Qed.
Variables (ExistsKnownOperation ExistsInStateOperation : Hash -> res bool) (IsSupported : bytes -> bool) (expire : bytes -> Z).
Definition operations (policy : option Z) (now height : Z) : IO world (list (Hash * Hash)) :=
  proposalMaker_operations (@sched) ExistsKnownOperation ExistsInStateOperation IsSupported expire policy now height.
Lemma operations_keep policy now height w l r w' : good w l -> operations policy now height w = (r, w') ->
  good w' l /\ forall k, proposal_key k -> pget w' k = pget w k.
Proof.
  intros [(set & given & Ip) I] Eo. unfold operations, proposalMaker_operations in Eo. destruct policy as [n|].
  - destruct (Z.ltb_spec n 1) as [|Hn].
    + injection Eo as <- <-. split; [split; [by exists set, given|done]|done].
    + destruct (OperationHashes_keeps _ _ _ _ _ _ _ _ Ip Hn Eo) as [[given' Ip'] He]. split; [|done].
      split; [by exists set, given'|]. by eapply prop_inv_ext.
  - injection Eo as <- <-. split; [split; [by exists set, given|done]|done].
Qed.
Lemma makeNew_makes policy now a p h w : makes p h (makeNew local priv networkID (operations policy now) a p (Some h)) w.
Proof.
  intros l r w' Hg Hh Em Hkn. unfold makeNew, mbind, io_bind in Em. rewrite (ProposalByPoint_ok _ _ _ _ (good_open _ _ Hg)) in Em.
  destruct (by_point w (key_of p h)) as [[pr|]|e|] eqn:Hby.
  - injection Em as <- <-. by apply found_makes.
  - destruct (operations policy now (p_h p) w) as [ro wo] eqn:Eo. destruct (operations_keep _ _ _ _ _ _ _ Hg Eo) as [Hgo He].
    destruct ro as [ops|e|]; [|by injection Em as <- <-..]. eapply makeProposal_makes; [|exact Hgo|done|exact Em|done].
    by rewrite (by_point_ext w wo _ He (proposal_key_point _ _ _)).
  - by injection Em as <- <-.
  - by injection Em as <- <-.
Qed.
Lemma PreferEmpty_makes a p h w : makes p h (PreferEmpty local priv networkID a p (Some h)) w.
Proof.
  intros l r w' Hg Hh Em Hkn. unfold PreferEmpty, mbind, io_bind, io_lift in Em.
  destruct (mk_lastBlockMap a) as [[m|]|e|]; [|by eapply preferEmpty_makes|by injection Em as <- <-..].
  destruct (_ <? _); [by injection Em as <- <-|by eapply preferEmpty_makes].
Qed.
Lemma Make_makes policy now a p h w : makes p h (Make local priv networkID (operations policy now) a p (Some h)) w.
Proof.
  intros l r w' Hg Hh Em Hkn. unfold Make, mbind, io_bind, io_lift in Em.
  destruct (mk_lastBlockMap a) as [[m|]|e|]; [|by eapply makeNew_makes|by injection Em as <- <-..].
  destruct (_ <? _); [by injection Em as <- <-|]. destruct (_ <? _); [by eapply preferEmpty_makes|]. destruct (_ =? _); [|by eapply makeNew_makes].
  destruct (Hash_eq (Some h) (mf_hash m)) as [[]|e|]; [by eapply makeNew_makes|by eapply preferEmpty_makes|by injection Em as <- <-..].
Qed.

(** *** Cleaning *)
(** A height that the cleaning may remove: the pool has a proposal of three heights
    above ([cleanRemovedProposalDeep]), or it is the first one. *)
Definition old w (height : Z) : Prop := old_height leveldbKeyPrefixProposalByPoint (tp_cleanRemovedProposalDeep (pw_pool w)) w height.
Abbreviation body_of := (Some (fun (_ b : bytes) => [(leveldbProposalKey (hash_of b), @None bytes)])).
Lemma height_of_point p a pb : i64 (p_h p) -> heightFromKey (leveldbProposalPointKey p a pb) leveldbKeyPrefixProposalByPoint = Ok (p_h p).
Proof.
  intros Hi. rewrite point_key_app. unfold Point_Bytes, Height_Bytes. rewrite <- !app_assoc. unfold heightFromKey.
  rewrite !length_app, Int64ToBytes_length. rewrite (proj2 (Nat.ltb_ge _ _)) by lia.
  rewrite drop_app_length, take_app_le, take_ge by (rewrite Int64ToBytes_length; lia). by apply BytesToInt64_Int64ToBytes.
Qed.
Lemma by_points_height w l k v : prop_inv w l -> (k, v) ∈ ps_list leveldbLabelPool (BytesPrefix leveldbKeyPrefixProposalByPoint) (pw_disk w) ->
  exists f, known f /\ k = point_key f /\ hash_of v = pf_hash f /\ heightFromKey k leveldbKeyPrefixProposalByPoint = Ok (p_h (pf_point f)).
Proof.
  intros I [Hk Hp]%entries_elem; [|by repeat constructor|done]. destruct (pv_points _ _ I k v Hk Hp) as (f & Hf & -> & Eh & _). exists f.
  repeat split; try done. apply height_of_point. by apply known_height.
Qed.
Lemma key_height p h f : i64 (p_h p) -> known f -> key_of p h = point_key f -> p_h (pf_point f) = p_h p.
Proof. intros Hi Hf Ek. pose proof (height_of_point p (Some addr) (Some h) Hi) as E1. rewrite Ek in E1; unfold point_key in E1; rewrite height_of_point in E1 by (by apply known_height). by injection E1. Qed.
(** Points of old heights are removed, with the bodies of their proposals. *)
Record cleaned w w' (gone : ProposalFact -> Prop) : Prop := {
  cn_gone f : gone f -> known f /\ old w (p_h (pf_point f)) /\ exists hb, pget w (point_key f) = Some hb /\ hash_of hb = pf_hash f;
  cn_body f : gone f -> pget w' (leveldbProposalKey (pf_hash f)) = None;
  cn_same k : pget w' k = pget w k \/ pget w' k = None /\ exists f, gone f /\ (k = point_key f \/ k = leveldbProposalKey (pf_hash f))
}.
Lemma cleanProposals_removes w l : prop_inv w l -> open w -> exists n d gone, cleanProposals w = (Ok n, with_disk d w) /\ cleaned w (with_disk d w) gone.
Proof.
  intros I Ho. set (pre := leveldbKeyPrefixProposalByPoint).
  assert (is_bytes pre) as Hpb by by repeat constructor. assert (pre <> []) as Hpn by done.
  assert (forall k v, deletes (next_to body_of k v)) as Hdel by (intros k v k' v' Hin; by apply list_elem_of_singleton in Hin as [= -> ->]).
  destruct (cleanByHeight_removes pre body_of Hpb Hpn Hdel (tp_cleanRemovedProposalDeep (pw_pool w)) w Ho) as (n & d & c & Ec & Hold & Hd).
  { intros [k v] Hk. destruct (by_points_height _ _ _ _ I Hk) as (f & Hf & _ & _ & Eh). exists (p_h (pf_point f)). split; [done|by apply known_height]. }
  set (L := ps_list leveldbLabelPool (BytesPrefix pre) (pw_disk w)) in *. set (R := removed_of pre body_of c L) in *.
  set (gone := fun f => exists v, (point_key f, v) ∈ L /\ known f /\ hash_of v = pf_hash f /\ p_h (pf_point f) <= c).
  assert (forall k, pget (with_disk d w) k = left_of R w k) as Hd'.
  { intros k. destruct (decide (is_bytes k)) as [Hk|Hk]; [by apply Hd|]. unfold left_of. rewrite !pget_not_bytes by done. by case_decide. }
  assert (forall k, k ∈ R.*1 <-> exists f, gone f /\ (k = point_key f \/ k = leveldbProposalKey (pf_hash f))) as HR.
  { intros k. unfold R. rewrite removed_elem. split.
    - intros (k0 & v0 & h & Hl & Eh & Hle & Hk). destruct (by_points_height _ _ _ _ I Hl) as (f & Hf & -> & Ef & Eh'). fold pre in Eh'. rewrite Eh in Eh'.
      injection Eh' as ->. exists f. split; [by exists v0|]. destruct Hk as [->|Hk]; [by left|]. right. apply list_elem_of_singleton in Hk. by rewrite Hk, Ef.
    - intros (f & (v0 & Hl & Hf & Ef & Hle) & Hk). exists (point_key f), v0, (p_h (pf_point f)). split; [done|].
      split; [apply height_of_point; by apply known_height|]. split; [done|]. destruct Hk as [->| ->]; [by left|]. right. rewrite <- Ef. by apply list_elem_of_singleton. }
  exists n, d, gone. split; [exact Ec|]. split.
  - intros f (v & Hl & Hf & Ef & Hle). split; [done|]. split; [eapply Hold; [exact Hl|by apply height_of_point, known_height|done]|].
    apply entries_elem in Hl as [Hl _]; [|done..]. by exists v.
  - intros f Hg. rewrite Hd'. unfold left_of. rewrite decide_True; [done|]. apply HR. exists f. by auto.
  - intros k. rewrite Hd'. unfold left_of. case_decide as Hk; [right; split; [done|by apply HR]|by left].
Qed.
Lemma cleaned_made w w' l gone p h pr : prop_inv w l -> cleaned w w' gone -> (p, h, pr) ∈ l -> ~ old w (p_h p) -> by_point w' (key_of p h) = Ok (Some pr).
Proof.
  intros I Hc Hpr Hn. destruct (pv_made _ _ I p h pr Hpr) as [[Hi Hl] Hby].
  assert (forall f, gone f -> p_h (pf_point f) <> p_h p) as Hne by (intros f Hg Eh; rewrite <- Eh in Hn; apply Hn; by destruct (cn_gone _ _ _ Hc f Hg) as (_ & ? & _)).
  unfold by_point in Hby |- *. destruct (pget w (key_of p h)) as [hb|] eqn:Ehb; [|done].
  destruct (pv_points _ _ I _ _ Ehb ltac:(rewrite point_key_app; by eexists)) as (f & Hf & Ek & Ef & _). pose proof (key_height p h f Hi Hf Ek) as Eh.
  assert (pget w' (key_of p h) = Some hb) as ->.
  { rewrite <- Ehb. destruct (cn_same _ _ _ Hc (key_of p h)) as [->|(_ & g & Hg & [Eg|Eg])]; [done| |symmetry in Eg; by apply keys_differ in Eg].
    destruct (Hne g Hg). apply (key_height p h g Hi); [by apply (cn_gone _ _ _ Hc g Hg)|done]. }
  destruct (cn_same _ _ _ Hc (leveldbProposalKey (hash_of hb))) as [->|(_ & g & Hg & [Eg|Eg%pkey_inj])]; [done|by apply keys_differ in Eg|].
  destruct (Hne g Hg). rewrite <- Eh. rewrite Ef in Eg. destruct (no_collision f g Hf ltac:(by apply (cn_gone _ _ _ Hc g Hg)) Eg) as [-> _]. done.
Qed.
Lemma cleaned_good w l l' r w' : good w l -> cleanProposals w = (r, w') ->
  (forall p h pr, (p, h, pr) ∈ l' -> (p, h, pr) ∈ l /\ ~ old w (p_h p)) -> good w' l'.
Proof.
  intros Hg Em Hl. pose proof (good_open _ _ Hg) as Ho. destruct Hg as [(set & given & Ip) I].
  destruct (cleanProposals_removes w l I Ho) as (n & d & gone & Ec & Hc). rewrite Em in Ec. injection Ec as -> ->.
  assert (forall k x, pget (with_disk d w) k = Some x -> pget w k = Some x) as Hsome by (intros k x Hk; destruct (cn_same _ _ _ Hc k) as [<-|[E' _]]; congruence).
  split; [exists set, given; eapply pool_inv_ext; [exact Ip|done|]|split].
  - intros k Hk. destruct (cn_same _ _ _ Hc k) as [?|(_ & f & _ & [->| ->])]; [done|..]; destruct Hk; [apply proposal_key_point|apply proposal_key_hash].
  - intros h b Hb. destruct (pv_stored _ _ I h b (Hsome _ _ Hb)) as (Hne & sf & f & Hr & Hf & Hh & Hk & Hpb & Hloc). split; [done|]. exists sf, f. repeat split; try done.
    intros Ha. specialize (Hloc Ha). destruct (cn_same _ _ _ Hc (point_key f)) as [->|(_ & g & Hg & [Eg|Eg])]; [done| |symmetry in Eg; by apply keys_differ in Eg].
    destruct (cn_gone _ _ _ Hc g Hg) as (_ & _ & hb & Ehb & Eg'). rewrite <- Eg, Hloc in Ehb. injection Ehb as <-. rewrite hash_of_Bytes in Eg'.
    pose proof (cn_body _ _ _ Hc g Hg) as Hn. by rewrite <- Eg', Hb in Hn.
  - intros k hb Hk. apply (pv_points _ _ I). by apply Hsome.
  - intros p h pr Hpr. destruct (Hl p h pr Hpr) as [Hin Hn]. split; [by apply (pv_made _ _ I p h pr)|]. by eapply cleaned_made.
Qed.

(** ** Runs *)
(** From a new pool on: operations come in, proposals of other nodes, and the local
    node is asked for proposals of its own; what it gave is written down.  When the
    pool is cleaned, what it gave for an old height does not count any more. *)
Inductive maker_run : world -> made -> Prop :=
| mr_new w : open w -> (forall k, pget w k = None) -> maker_run w []
| mr_operation now now' op w l r w' : maker_run w l -> op_ok op -> i64 now' -> SetOperation now now' op w = (r, w') -> maker_run w' l
| mr_proposal sf f a pb w l r w' : maker_run w l -> psf_fact sf = Some f -> known f -> pf_proposer f = Some a -> a <> addr ->
    pf_previousBlock f = Some pb -> len32 pb -> SetProposal sf w = (r, w') -> maker_run w' l
| mr_make policy now a p h w l r w' : maker_run w l -> asked p h -> Make local priv networkID (operations policy now) a p (Some h) w = (r, w') ->
    result_known r -> maker_run w' (grow p h r l)
| mr_clean w l l' r w' : maker_run w l -> cleanProposals w = (r, w') ->
    (forall p h pr, (p, h, pr) ∈ l' -> (p, h, pr) ∈ l /\ ~ old w (p_h p)) -> maker_run w' l'
| mr_empty a p h w l r w' : maker_run w l -> asked p h -> PreferEmpty local priv networkID a p (Some h) w = (r, w') ->
    result_known r -> maker_run w' (grow p h r l).
Lemma SetOperation_other now now' op w r w' k : open w -> SetOperation now now' op w = (r, w') -> proposal_key k -> pget w' k = pget w k.
Proof.
  intros Ho Es Hk. unfold SetOperation, mbind, io_bind in Es. cbv zeta in Es. rewrite pool_Exists_ok in Es by (done || (by rewrite body_key)).
  case_bool_decide; [by injection Es as <- <-|]. unfold gets, io_lift in Es. destruct (EncodeFrame _ [] op) as [[mb opb]|e|]; [|by injection Es as <- <-..].
  rewrite WriteFrameHeaderOperation_ok in Es.
  destruct (pool_Batch_ok [(leveldbNewOperationKey (po_hash op), Some opb); (leveldbNewOperationOrderedKey now (po_hash op), Some (record_of now' op));
    (leveldbNewOperationKeysKey (po_hash op), Some (leveldbNewOperationOrderedKey now (po_hash op)))] w Ho) as (d & Eb & Hd).
  rewrite Eb in Es. injection Es as <- <-. change (pget (with_disk d w) k = pget w k). destruct (decide (is_bytes k)) as [Hkb|Hkb]; [|by rewrite !pget_not_bytes].
  rewrite Hd by done. rewrite (proj2 (batch_get_None _ _)); [done|]. simpl. rewrite !elem_of_cons, elem_of_nil, body_key, ordered_key, keys_key.
  by destruct Hk as [[x ->]|[x ->]]; intros [?|[?|[?|?]]].
Qed.
Lemma maker_run_good w l : maker_run w l -> good w l.
Proof.
  induction 1 as [w Ho Hn|now now' op w l r w' _ IH Hop Hnow Es|sf f a pb w l r w' _ IH Hf Hk Ha Hne Hpb Hl Es|policy now a p h w l r w' _ IH Hh Em Hk|w l l' r w' _ IH Em Hl|a p h w l r w' _ IH Hh Em Hk].
  - split; [exists [], []; apply (pool_run_inv (@sched) sched_perm); by constructor|]. split; [intros h b; by rewrite Hn|intros k hb; by rewrite Hn|by intros p h pr ?%elem_of_nil].
  - destruct IH as [(set & given & Ip) I]. pose proof (SetOperation_inv now now' op w set given Ip Hop Hnow) as Hs. rewrite Es in Hs.
    split; [destruct r as [[]|e|]; [destruct Hs as [_ Hs]|..]; by eexists _, _|]. eapply prop_inv_ext; [|exact I].
    intros k Hk. by apply (SetOperation_other now now' op w r w' k (pi_open _ _ _ Ip) Es).
  - pose proof (good_open _ _ IH) as Ho. destruct IH as [(set & given & Ip) I]. destruct (SetProposal_rest _ _ _ _ Ho Es) as [Ho' He].
    split; [exists set, given; by eapply pool_inv_ext|]. by eapply (other_put w l sf f a pb).
  - by eapply Make_makes.
  - by eapply cleaned_good.
  - by eapply PreferEmpty_makes.
Qed.

(** C5: along any calls of [Make] and [PreferEmpty], with operations, proposals of other
    nodes and cleanings of the proposals in between, a node gives one proposal for a
    point and a previous block, the same whenever it is asked, and the pool has it; but
    only until a cleaning finds its height old: three heights below some proposal of the
    pool, or the first height.  After that it may give another ([cleaned_another]).  The
    hashes of the facts that come up do not collide, those of blocks have 32 bytes, and
    the pool is not cleaned of operations meanwhile. *)
Theorem one_proposal w l p h pr pr' : maker_run w l -> (p, h, pr) ∈ l -> (p, h, pr') ∈ l ->
  pr = pr' /\ ProposalByPoint p (Some addr) (Some h) w = (Ok (Some pr), w).
Proof.
  intros Hr Hpr Hpr'. pose proof (maker_run_good _ _ Hr) as Hg. pose proof (good_open _ _ Hg) as Ho. destruct Hg as [_ I].
  destruct (pv_made _ _ I _ _ _ Hpr) as [_ Hb]. destruct (pv_made _ _ I _ _ _ Hpr') as [_ Hb']. rewrite Hb in Hb'. injection Hb' as ->.
  split; [done|]. by rewrite ProposalByPoint_ok, Hb.
Qed.
End stored.

(** ** Examples *)
Section demo.
Import CenterHistory.CenterDemo Frame.Demo MapDB.
#[local] Instance maker_hash_bytes : HashBytes := bytes_str.
#[local] Instance maker_hash_laws : HashBytesLaws.
Proof. intros h. apply str_bytes_str. Qed.
#[local] Instance maker_hints : Hints := fun b => if decide (b = []) then Err "empty hint" else Ok b.
#[local] Instance maker_op_codec : Codec unit PoolOperation := {| Marshal _ op := Ok (str_bytes (po_hash op)); Decode _ _ := Ok None |}.
#[local] Existing Instance demo_block_crypto.
#[local] Instance ProposalFact_eq_dec : EqDecision ProposalFact.
Proof. solve_decision. Defined.
#[local] Instance BaseSign_eq_dec : EqDecision BaseSign.
Proof. solve_decision. Defined.
#[local] Instance ProposalSignFact_eq_dec : EqDecision ProposalSignFact.
Proof. solve_decision. Defined.
Definition demo_hash : Hash := "0123456789abcdef0123456789abcdef".
Definition demo_local : Node := {| node_address := "n0"; node_publickey := "k0" |}.
Definition demo_point : Point := RawPoint 34 1.
Definition demo_signed_at (point : Point) (proposer priv : string) (ops : list (Hash * Hash)) : ProposalFact * ProposalSignFact :=
  let fact := NewProposalFact 21 point (Some proposer) (Some demo_hash) ((fun hs : Hash * Hash => (Some hs.1, Some hs.2)) <$> ops) in
  (fact, match ProposalSignFact_Sign 22 priv "net" (NewProposalSignFact fact) with Ok sf => sf | _ => NewProposalSignFact fact end).
Definition demo_signed := demo_signed_at demo_point.
Definition demo_ours : ProposalFact * ProposalSignFact := demo_signed "n0" "k0" [("a", "fa")].
Definition demo_theirs : ProposalFact * ProposalSignFact := demo_signed "n1" "k1" [].
Definition demo_far : ProposalFact * ProposalSignFact := demo_signed_at (RawPoint 50 0) "n0" "k0" [].
Definition demo_another : ProposalFact * ProposalSignFact := demo_signed "n0" "k0" [].
#[local] Instance maker_codec : Codec unit ProposalSignFact := codec_of [demo_ours.2; demo_theirs.2; demo_far.2; demo_another.2].
#[local] Instance maker_codec_laws : CodecLaws unit ProposalSignFact := codec_of_laws [demo_ours.2; demo_theirs.2; demo_far.2; demo_another.2].
Abbreviation mworld := (PoolWorld (D := MapDB.D) (E := unit) (C := gmap string)).
Definition demo_known (f : ProposalFact) : Prop := f = demo_ours.1 \/ f = demo_theirs.1.
Definition demo_empty : mworld := {| pw_pool := newTempPool tt 33; pw_disk := ∅ |}.
Definition demo_making : Making := {| mk_lastBlockMap := Ok None; mk_now := 21; mk_signedAt := 22 |}.
Definition demo_make_at (point : Point) (w : mworld) : res ProposalSignFact * mworld :=
  Make demo_local "k0" "net" (operations (@demo_sched) (fun _ => Ok false) (fun _ => Ok false) (fun _ => true) (fun _ => 100) (Some 9) 33) demo_making point (Some demo_hash) w.
Definition demo_make := demo_make_at demo_point.
Definition demo_w1 : mworld := (SetOperation 11 11 (demo_op "a" "fa") demo_empty).2.
Definition demo_w2 : mworld := (SetProposal demo_theirs.2 demo_w1).2.
Definition demo_w3 : mworld := (demo_make demo_w2).2.
Definition demo_w4 : mworld := (demo_make demo_w3).2.
Definition demo_w5 : mworld := (cleanProposals demo_w4).2.

(** The operation of the first call is not given again; its proposal is. *)
Example demo_made : (demo_make demo_w2).1 = Ok demo_ours.2 /\ (demo_make demo_w3).1 = Ok demo_ours.2.
Proof. vm_compute. done. Qed.
(** A proposal for a far height makes the cleaning remove the one of the current point,
    and the next call signs another. *)
Example cleaned_another :
  let far := demo_make_at (RawPoint 50 0) demo_w4 in let again := demo_make (cleanProposals far.2).2 in
  far.1 = Ok demo_far.2 /\ again.1 = Ok demo_another.2 /\ demo_another.2 <> demo_ours.2.
Proof. vm_compute. done. Qed.
Lemma demo_no_collision f f' : demo_known f -> demo_known f' -> pf_hash f = pf_hash f' ->
  pf_point f = pf_point f' /\ pf_proposer f = pf_proposer f' /\ pf_previousBlock f = pf_previousBlock f'.
Proof. intros [->| ->] [->| ->] Eq; try done; exfalso; revert Eq; vm_compute; discriminate. Qed.
Abbreviation demo_run := (maker_run demo_local demo_known (@demo_sched) "k0" "net" (fun _ => Ok false) (fun _ => Ok false) (fun _ => true) (fun _ => 100)).
(** The two proposals of the pool are of the height 34. *)
Lemma demo_recent : ~ old demo_w4 34.
Proof.
  intros (k & v & top & Hin & Et & Hle). assert (top = 34 /\ tp_cleanRemovedProposalDeep (pw_pool demo_w4) = 3%nat) as [-> E3]; [|rewrite E3 in Hle; unfold GenesisHeight in Hle; lia].
  split; [|reflexivity]. assert (heightFromKey k leveldbKeyPrefixProposalByPoint = Ok 34) as E'; [|congruence].
  apply list_elem_of_In in Hin. vm_compute in Hin. by repeat (destruct Hin as [[= <- <-]|Hin]; [reflexivity|]).
Qed.
Lemma demo_maker_run : demo_run demo_w5 [(demo_point, demo_hash, demo_ours.2); (demo_point, demo_hash, demo_ours.2)].
Proof.
  assert (demo_run demo_w2 []) as H2.
  { apply (mr_proposal _ _ _ _ _ _ _ _ _ demo_theirs.2 demo_theirs.1 "n1" demo_hash demo_w1 [] (SetProposal demo_theirs.2 demo_w1).1);
      [|reflexivity|by right|reflexivity|done|reflexivity|reflexivity|apply surjective_pairing].
    apply (mr_operation _ _ _ _ _ _ _ _ _ 11 11 (demo_op "a" "fa") demo_empty [] (SetOperation 11 11 (demo_op "a" "fa") demo_empty).1);
      [|apply demo_op_ok; vm_compute; discriminate|by vm_compute|apply surjective_pairing].
    apply mr_new; [done|]. intros k. apply demo_nothing. }
  assert (result_known demo_known (Ok demo_ours.2)) as Hk.
  { intros pr f [= <-] Hf. left. vm_compute in Hf |- *. congruence. }
  assert (asked demo_point demo_hash) as Ha by by vm_compute.
  apply (mr_clean _ _ _ _ _ _ _ _ _ demo_w4 [(demo_point, demo_hash, demo_ours.2); (demo_point, demo_hash, demo_ours.2)] _ (cleanProposals demo_w4).1);
    [|apply surjective_pairing|intros p h pr Hin; split; [done|]; apply list_elem_of_In in Hin as [[= <- <- <-]|[[= <- <- <-]|[]]]; apply demo_recent].
  apply (mr_make _ _ _ _ _ _ _ _ _ (Some 9) 33 demo_making demo_point demo_hash demo_w3 _ (Ok demo_ours.2)); [|exact Ha| |exact Hk].
  - apply (mr_make _ _ _ _ _ _ _ _ _ (Some 9) 33 demo_making demo_point demo_hash demo_w2 [] (Ok demo_ours.2)); [exact H2|exact Ha| |exact Hk].
    rewrite <- (proj1 demo_made). apply surjective_pairing.
  - rewrite <- (proj2 demo_made). apply surjective_pairing.
Qed.
Lemma demo_address_inj (a a' : Address) : address_bytes a = address_bytes a' -> a = a'.
Proof. done. Qed.
Lemma demo_known_height f : demo_known f -> i64 (p_h (pf_point f)).
Proof. intros [->| ->]; by vm_compute. Qed.
Lemma one_proposal_witness : demo_ours.2 = demo_ours.2 /\
  ProposalByPoint demo_point (Some "n0") (Some demo_hash) demo_w5 = (Ok (Some demo_ours.2), demo_w5).
Proof.
  apply (one_proposal demo_local demo_known demo_no_collision demo_address_inj demo_known_height (@demo_sched) demo_sched_perm "k0" "net"
    (fun _ => Ok false) (fun _ => Ok false) (fun _ => true) (fun _ => 100) _ _ _ _ _ _ demo_maker_run); apply list_elem_of_here.
Defined.
End demo.
