(* ===== verification/Ps.v ===== *)
(** * Processes of a node and their order ([util/ps/ps.go])

    What a node is made of is started by processes, each with those it requires and with
    hooks before and after it; they are run by name, what is required first, and closed
    in the reverse order.  A function is a computation over the context ([Effects]). *)
From S2P Require Import Prelude Slice Effects.

Open Scope Z_scope.

Definition Name : Type := string.
Definition NameINIT : Name := "init".
Definition ErrIgnoreLeft : string := "ignore left".

Section ps.
Context {W : Type}.
(** A function that is there; [nil] is [None]. *)
Abbreviation Func := (IO W unit).

(** ** Hooks *)
Record hooks := { hk_names : gmap Name Func; hk_l : list Name }.
Definition newHooks : hooks := {| hk_names := ∅; hk_l := [] |}.
Fixpoint run_hooks (names : gmap Name Func) (l : list Name) : IO W unit :=
  match l with
  | [] => mret tt
  | name :: l => match names !! name with None => io_panic | Some f => f ≫= fun _ => run_hooks names l end
  end.
Definition hooks_run (h : hooks) : IO W unit := run_hooks (hk_names h) (hk_l h).
Definition hooks_add (name : Name) (i : option Func) (h : hooks) : hooks * bool :=
  match i with
  | None => (h, false)
  | Some i =>
      if bool_decide (is_Some (hk_names h !! name)) then (h, false)
      else ({| hk_names := <[name := i]> (hk_names h); hk_l := hk_l h ++ [name] |}, true)
  end.
(** [j] where the loop ends: at the name, or at the last one. *)
Fixpoint index_of (x : Name) (l : list Name) : nat :=
  match l with
  | [] | [_] => 0
  | y :: l => if bool_decide (y = x) then 0 else S (index_of x l)
  end.
Definition hooks_insert (at_ : nat) (name : Name) (i : Func) (h : hooks) : hooks :=
  {| hk_names := <[name := i]> (hk_names h); hk_l := take at_ (hk_l h) ++ name :: drop at_ (hk_l h) |}.
Definition hooks_before (name : Name) (i : option Func) (before : Name) (h : hooks) : hooks * bool :=
  match i with
  | None => (h, false)
  | Some i =>
      if bool_decide (is_Some (hk_names h !! name)) then (h, false)
      else if bool_decide (hk_names h !! before = None) then (h, false)
      else (hooks_insert (index_of before (hk_l h)) name i h, true)
  end.
Definition hooks_after (name : Name) (i : option Func) (after : Name) (h : hooks) : hooks * bool :=
  match i with
  | None => (h, false)
  | Some i =>
      if bool_decide (is_Some (hk_names h !! name)) then (h, false)
      else if bool_decide (hk_names h !! after = None) then (h, false)
      else (hooks_insert (S (index_of after (hk_l h))) name i h, true)
  end.
Definition hooks_remove (name : Name) (h : hooks) : hooks * bool :=
  if bool_decide (hk_names h !! name = None) then (h, false)
  else ({| hk_names := delete name (hk_names h); hk_l := FilterSlice (hk_l h) (fun j => negb (bool_decide (name = j))) |}, true).

(** ** Processes *)
Record P := { p_run : option Func; p_closef : option Func; p_pre : hooks; p_post : hooks; p_requires : list Name }.
Definition NewP (run closef : option Func) (requires : list Name) : P :=
  {| p_run := run; p_closef := closef; p_pre := newHooks; p_post := newHooks; p_requires := requires |}.
Definition EmptyFunc : Func := mret tt.
Definition EmptyPINIT : P := NewP (Some EmptyFunc) (Some EmptyFunc) [].
Definition P_Verbose (name : Name) (p : P) : list Name :=
  ((fun n => n +:+ ":pre") <$> hk_l (p_pre p)) ++ [name +:+ ":run"] ++ ((fun n => n +:+ ":post") <$> hk_l (p_post p)).
Definition P_Run (p : P) : IO W unit :=
  hooks_run (p_pre p) ≫= fun _ =>
  (match p_run p with Some f => f | None => mret tt end) ≫= fun _ =>
  hooks_run (p_post p).
Definition P_Close (p : P) : IO W unit := match p_closef p with None => mret tt | Some f => f end.
Definition CopyHooks (b p : P) : P :=
  {| p_run := p_run p; p_closef := p_closef p; p_pre := p_pre b; p_post := p_post b; p_requires := p_requires p |}.
Definition on_pre {A} (f : hooks -> hooks * A) (p : P) : P * A :=
  let '(h, a) := f (p_pre p) in
  ({| p_run := p_run p; p_closef := p_closef p; p_pre := h; p_post := p_post p; p_requires := p_requires p |}, a).
Definition on_post {A} (f : hooks -> hooks * A) (p : P) : P * A :=
  let '(h, a) := f (p_post p) in
  ({| p_run := p_run p; p_closef := p_closef p; p_pre := p_pre p; p_post := h; p_requires := p_requires p |}, a).
Definition PreAdd (name : Name) (i : option Func) : P -> P * bool := on_pre (hooks_add name i).
Definition PreBefore (name : Name) (i : option Func) (before : Name) : P -> P * bool := on_pre (hooks_before name i before).
Definition PreAfter (name : Name) (i : option Func) (after : Name) : P -> P * bool := on_pre (hooks_after name i after).
Definition PreRemove (name : Name) : P -> P * bool := on_pre (hooks_remove name).
Definition PostAdd (name : Name) (i : option Func) : P -> P * bool := on_post (hooks_add name i).
Definition PostBefore (name : Name) (i : option Func) (before : Name) : P -> P * bool := on_post (hooks_before name i before).
Definition PostAfter (name : Name) (i : option Func) (after : Name) : P -> P * bool := on_post (hooks_after name i after).
Definition PostRemove (name : Name) : P -> P * bool := on_post (hooks_remove name).

(** ** All of them *)
Record PS := { ps_m : gmap Name P; ps_runs : list Name }.
Definition NewPS : PS := {| ps_m := {[NameINIT := EmptyPINIT]}; ps_runs := [] |}.
Definition set_m (m : gmap Name P) (ps : PS) : PS := {| ps_m := m; ps_runs := ps_runs ps |}.
(** [init] is put in front unless it is required at a later place. *)
Definition with_init (name : Name) (requires : list Name) : list Name :=
  if bool_decide (name = NameINIT) then requires
  else
    match list_find (fun i => i = NameINIT) requires with
    | Some (S _, _) => requires
    | _ => NameINIT :: requires
    end.
Definition ps_add (name : Name) (run close : option Func) (requires : list Name) (ps : PS) : PS * P * bool :=
  let p := NewP run close (with_init name requires) in
  (set_m (<[name := p]> (ps_m ps)) ps, p, bool_decide (ps_m ps !! name = None)).
Definition Add (name : Name) (run close : option Func) (requires : list Name) (ps : PS) : PS * bool :=
  let '(ps, _, added) := ps_add name run close requires ps in (ps, added).
Definition Replace (name : Name) (run close : option Func) (requires : list Name) (ps : PS) : PS * bool :=
  let exists_ := ps_m ps !! name in
  let '(ps, p, added) := ps_add name run close requires ps in
  (match exists_ with Some b => set_m (<[name := CopyHooks b p]> (ps_m ps)) ps | None => ps end, added).
Definition AddP (name : Name) (p : P) (ps : PS) : PS * bool :=
  (set_m (<[name := p]> (ps_m ps)) ps, bool_decide (ps_m ps !! name = None)).
Definition Remove (name : Name) (ps : PS) : PS * bool :=
  if bool_decide (ps_m ps !! name = None) then (ps, false) else (set_m (delete name (ps_m ps)) ps, true).

Definition names (ps : PS) : list Name := merge_sort String.le (map_to_list (ps_m ps)).*1.

(** *** Running *)
(** The context, and the names that were run. *)
Abbreviation Running := (W * list Name)%type.
Definition on_ctx {A} (m : IO W A) : IO Running A := fun '(w, runs) => let '(r, w) := m w in (r, (w, runs)).
Definition ran (name : Name) : IO Running unit := modify (fun '(w, runs) => (w, runs ++ [name])).
(** The name is added in any case. *)
Definition deferred (m : IO Running unit) (name : Name) : IO Running unit := fun s =>
  let '(r, (w, runs)) := m s in (r, (w, runs ++ [name])).
Fixpoint run_requires (run : Name -> P -> IO Running unit) (m : gmap Name P) (requires : list Name) : IO Running unit :=
  match requires with
  | [] => mret tt
  | rname :: requires =>
      match m !! rname with
      | None => io_err "required process not found"
      | Some rp => run rname rp ≫= fun _ => run_requires run m requires
      end
  end.
Fixpoint ps_run (fuel : nat) (m : gmap Name P) (name : Name) (p : P) : IO Running unit :=
  gets (fun s : Running => bool_decide (name ∈ s.2)) ≫= fun found =>
  if found : bool then mret tt
  else
    match fuel with
    | O => io_err "out of fuel"
    | S fuel =>
        deferred (run_requires (ps_run fuel m) m (p_requires p) ≫= fun _ => on_ctx (P_Run p)) name
    end.
Fixpoint run_names (fuel : nat) (m : gmap Name P) (l : list Name) : IO Running unit :=
  match l with
  | [] => mret tt
  | name :: l => match m !! name with None => ran name | Some p => ps_run fuel m name p end ≫= fun _ => run_names fuel m l
  end.
Definition ignore_left {A} (r : res unit * A) : res unit * A :=
  match r with (Err e, w) => if bool_decide (e = ErrIgnoreLeft) then (Ok tt, w) else (Err e, w) | r => r end.
(** The names that were run, and the context. *)
Definition PS_Run (fuel : nat) (ps : PS) (w : W) : res unit * W * PS :=
  let '(r, (w, runs)) := ignore_left (run_names fuel (ps_m ps) (names ps) (w, [])) in
  (r, w, {| ps_m := ps_m ps; ps_runs := runs |}).
Fixpoint close_names (m : gmap Name P) (l : list Name) : IO W unit :=
  match l with
  | [] => mret tt
  | name :: l => match m !! name with None => io_panic | Some p => P_Close p ≫= fun _ => close_names m l end
  end.
Definition PS_Close (ps : PS) : IO W unit := close_names (ps_m ps) (reverse (ps_runs ps)).
Definition CloseVerbose (ps : PS) : res (list Name) :=
  foldr (fun name l => l ≫= fun l =>
    match ps_m ps !! name with None => Panic | Some p => Ok (match p_closef p with None => l | Some _ => name :: l end) end) (Ok []) (reverse (ps_runs ps)).

(** *** What will be run *)
(** The names of processes one after the other; those that were called are kept. *)
Fixpoint verbose_names (f : Name -> gset Name -> res (list Name * gset Name)) (l : list Name) (called : gset Name) : res (list Name * gset Name) :=
  match l with
  | [] => Ok ([], called)
  | name :: l =>
      f name called ≫= fun '(ns, called) =>
      verbose_names f l called ≫= fun '(ns', called) => Ok (ns ++ ns', called)
  end.
Fixpoint verbose (fuel : nat) (m : gmap Name P) (name : Name) (called : gset Name) : res (list Name * gset Name) :=
  if bool_decide (name ∈ called) then Ok ([], called)
  else
    match fuel with
    | O => Err "out of fuel"
    | S fuel =>
        match m !! name with
        | None => Panic
        | Some p =>
            verbose_names (verbose fuel m) (p_requires p) called ≫= fun '(ns, called) =>
            Ok (ns ++ P_Verbose name p, {[name]} ∪ called)
        end
    end.
Definition Verbose (fuel : nat) (ps : PS) : res (list Name) :=
  verbose_names (verbose fuel (ps_m ps)) (names ps) ∅ ≫= fun '(ns, _) => Ok ns.

(** ** The names of hooks are those of the list *)
Definition hooks_wf (h : hooks) : Prop := NoDup (hk_l h) /\ forall n, n ∈ hk_l h <-> is_Some (hk_names h !! n).
Lemma hooks_insert_wf k name i h : hooks_wf h -> hk_names h !! name = None -> hooks_wf (hooks_insert k name i h).
Proof.
  intros [Hn Hl] Hnew. assert (take k (hk_l h) ++ name :: drop k (hk_l h) ≡ₚ name :: hk_l h) as Hp.
  { by rewrite <- Permutation_middle, take_drop. }
  unfold hooks_wf, hooks_insert. simpl. split.
  - rewrite Hp. constructor; [|done]. rewrite Hl, Hnew. by intros [? ?].
  - intros n. rewrite Hp, elem_of_cons, Hl. destruct (decide (n = name)) as [->|Hne]; [rewrite lookup_insert_eq; naive_solver|].
    rewrite lookup_insert_ne by done. naive_solver.
Qed.
Lemma hooks_wf_new : hooks_wf newHooks.
Proof. split; [constructor|]. intros n. simpl. rewrite lookup_empty. split; [by intros ?%elem_of_nil|by intros [? ?]]. Qed.
Lemma hooks_add_wf name i h : hooks_wf h -> hooks_wf (hooks_add name i h).1.
Proof.
  intros Hw. unfold hooks_add. destruct i as [i|]; [|done]. case_bool_decide as Hs; [done|]. apply eq_None_not_Some in Hs.
  pose proof (hooks_insert_wf (length (hk_l h)) name i h Hw Hs) as Hi. unfold hooks_insert in Hi.
  by rewrite take_ge, drop_ge in Hi.
Qed.
Lemma hooks_before_wf name i b h : hooks_wf h -> hooks_wf (hooks_before name i b h).1.
Proof.
  intros Hw. unfold hooks_before. destruct i as [i|]; [|done]. case_bool_decide as Hs; [done|]. case_bool_decide; [done|].
  by apply hooks_insert_wf, eq_None_not_Some.
Qed.
Lemma hooks_after_wf name i a h : hooks_wf h -> hooks_wf (hooks_after name i a h).1.
Proof.
  intros Hw. unfold hooks_after. destruct i as [i|]; [|done]. case_bool_decide as Hs; [done|]. case_bool_decide; [done|].
  by apply hooks_insert_wf, eq_None_not_Some.
Qed.
Lemma hooks_remove_wf name h : hooks_wf h -> hooks_wf (hooks_remove name h).1.
Proof.
  intros [Hn Hl]. unfold hooks_remove. case_bool_decide; [done|]. unfold hooks_wf. simpl. rewrite FilterSlice_filter. split; [by apply NoDup_filter|].
  intros n. rewrite list_elem_of_filter, Hl, lookup_delete_is_Some, negb_true_iff, bool_decide_eq_false. naive_solver.
Qed.
(** Hooks that are there are run: the list never asks for a name without a function. *)
Lemma run_hooks_there (names : gmap Name Func) l w : (forall n, n ∈ l -> is_Some (names !! n)) ->
  (forall n f w, names !! n = Some f -> (f w).1 <> Panic) -> (run_hooks names l w).1 <> Panic.
Proof.
  revert w. induction l as [|n l IH]; intros w Hl Hf; [done|]. simpl. destruct (Hl n (list_elem_of_here _ _)) as [f Ef]. rewrite Ef.
  specialize (Hf n f w Ef) as Hp. unfold mbind, io_bind. destruct (f w) as [[[]|e|] w1]; [|done|by destruct Hp].
  apply IH; [|done]. intros n' Hn'. apply Hl. by apply list_elem_of_further.
Qed.

(** ** The order in which processes are run *)
Implicit Types (m : gmap Name P) (l : list Name) (w : W).
Fixpoint visit_all (f : Name -> list Name -> res (list Name)) (rs l : list Name) : res (list Name) :=
  match rs with [] => Ok l | r :: rs => f r l ≫= visit_all f rs end.
(** What is required first, then the process itself. *)
Fixpoint visit (fuel : nat) m (name : Name) l : res (list Name) :=
  if bool_decide (name ∈ l) then Ok l
  else
    match fuel with
    | O => Err "out of fuel"
    | S fuel =>
        match m !! name with
        | None => Panic
        | Some p => visit_all (visit fuel m) (p_requires p) l ≫= fun l => Ok (l ++ [name])
        end
    end.
Definition order (fuel : nat) (ps : PS) : res (list Name) := visit_all (visit fuel (ps_m ps)) (names ps) [].
(** Processes that are run one after the other, and what is said of them. *)
Fixpoint exec m l : IO W unit :=
  match l with [] => mret tt | name :: l => (match m !! name with Some p => P_Run p | None => mret tt end) ≫= fun _ => exec m l end.
Definition shown m l : list Name := mjoin ((fun name => from_option (P_Verbose name) [] (m !! name)) <$> l).

Lemma exec_app m l l' w : exec m (l ++ l') w = (exec m l ≫= fun _ => exec m l') w.
Proof.
  revert w. induction l as [|name l IH]; intros w; [done|]. simpl. unfold mbind, io_bind.
  destruct ((match m !! name with Some p => P_Run p | None => mret tt end) w) as [[[]|e|] w1]; [|done..]. apply IH.
Qed.
Lemma shown_app m l l' : shown m (l ++ l') = shown m l ++ shown m l'.
Proof. unfold shown. by rewrite fmap_app, join_app. Qed.

(** *** Running and showing follow the order *)
Definition follows (r : res unit * Running) (e : res unit * W) l : Prop := r.1 = e.1 /\ r.2.1 = e.2 /\ (e.1 = Ok tt -> r.2.2 = l).
(** A visit of one name, or of several, that is made by [run]. *)
Definition runs_as m (run : IO Running unit) l l' : Prop :=
  exists d, l' = l ++ d /\ forall w, follows (run (w, l)) (exec m d w) l'.
Definition shows_as m (f : gset Name -> res (list Name * gset Name)) l l' : Prop :=
  exists d, l' = l ++ d /\ f (list_to_set l) = Ok (shown m d, list_to_set l').

Lemma runs_as_bind m (run1 run2 : IO Running unit) l l1 l2 : runs_as m run1 l l1 -> runs_as m run2 l1 l2 ->
  runs_as m (run1 ≫= fun _ => run2) l l2.
Proof.
  intros (d1 & -> & H1) (d2 & -> & H2). exists (d1 ++ d2). rewrite app_assoc. split; [done|]. intros w.
  rewrite exec_app. unfold mbind, io_bind. destruct (H1 w) as (E1 & E2 & E3).
  destruct (run1 (w, l)) as [r1 [w1 l1]], (exec m d1 w) as [[[]|e|] w1']; simpl in *; subst.
  - rewrite (E3 eq_refl). apply H2.
  - by repeat split.
  - by repeat split.
Qed.
Lemma shows_as_bind m f1 f2 l l1 l2 : shows_as m f1 l l1 -> shows_as m f2 l1 l2 ->
  shows_as m (fun called => f1 called ≫= fun '(ns, called) => f2 called ≫= fun '(ns', called) => Ok (ns ++ ns', called)) l l2.
Proof.
  intros (d1 & -> & E1) (d2 & -> & E2). exists (d1 ++ d2). rewrite app_assoc. split; [done|]. rewrite E1. cbn [mbind res_bind]. rewrite E2.
  cbn [mbind res_bind]. by rewrite shown_app.
Qed.
Lemma runs_as_none m l : runs_as m (mret tt) l l.
Proof. exists []. rewrite app_nil_r. split; [done|]. by intros w. Qed.
Lemma shows_as_none m l : shows_as m (fun called => Ok ([], called)) l l.
Proof. exists []. by rewrite app_nil_r. Qed.

Section visits.
Variable m : gmap Name P.
Hypothesis complete : forall name p r, m !! name = Some p -> r ∈ p_requires p -> is_Some (m !! r).

Lemma visit_runs fuel name l l' p : m !! name = Some p -> visit fuel m name l = Ok l' -> runs_as m (ps_run fuel m name p) l l'.
Proof.
  revert name l l' p. induction fuel as [|fuel IH]; intros name l l' p Hm Hv; simpl in Hv; case_bool_decide as Hin; [|done| |].
  1, 2: injection Hv as <-; destruct (runs_as_none m l) as (d & Hd & Hw); exists d; split; [done|]; intros w; specialize (Hw w);
    simpl; unfold mbind, io_bind, gets; simpl; by rewrite bool_decide_eq_true_2.
  rewrite Hm in Hv. apply bind_ok in Hv as (l1 & Hv & [= <-]).
  assert (forall rs l l1, (forall r, r ∈ rs -> is_Some (m !! r)) -> visit_all (visit fuel m) rs l = Ok l1 ->
    runs_as m (run_requires (ps_run fuel m) m rs) l l1) as Hall.
  { induction rs as [|r rs IHr]; intros l0 l2 Hrs Ha; simpl in *; [injection Ha as <-; apply runs_as_none|].
    apply bind_ok in Ha as (l3 & Hr & Ha). destruct (Hrs r (list_elem_of_here _ _)) as [rp Er]. rewrite Er.
    eapply runs_as_bind; [by apply IH|]. apply IHr; [|done]. intros r' Hr'. apply Hrs. by apply list_elem_of_further. }
  destruct (Hall (p_requires p) l l1 (fun r => complete name p r Hm) Hv) as (d & -> & Hd). exists (d ++ [name]). rewrite app_assoc. split; [done|].
  intros w. specialize (Hd w). destruct Hd as (E1 & E2 & E3). rewrite exec_app. simpl. rewrite Hm. unfold mbind, io_bind, gets, deferred. simpl.
  rewrite bool_decide_eq_false_2 by done. destruct (run_requires _ _ _ (w, l)) as [r1 [w1 l1]], (exec m d w) as [[[]|e|] w1']; simpl in *; subst; [|by repeat split..].
  rewrite (E3 eq_refl). destruct (P_Run p w1') as [[[]|e|] w2]; by repeat split.
Qed.
Lemma visit_shows fuel name l l' : visit fuel m name l = Ok l' -> shows_as m (verbose fuel m name) l l'.
Proof.
  revert name l l'. induction fuel as [|fuel IH]; intros name l l' Hv; simpl in Hv; case_bool_decide as Hin; [|done| |].
  1, 2: injection Hv as <-; destruct (shows_as_none m l) as (d & Hd & Hw); exists d; split; [done|]; rewrite <- Hw; simpl;
    by rewrite bool_decide_eq_true_2 by (by apply elem_of_list_to_set).
  destruct (m !! name) as [p|] eqn:Hm; [|done]. apply bind_ok in Hv as (l1 & Hv & [= <-]).
  assert (forall rs l l1, visit_all (visit fuel m) rs l = Ok l1 -> shows_as m (verbose_names (verbose fuel m) rs) l l1) as Hall.
  { induction rs as [|r rs IHr]; intros l0 l2 Ha; simpl in *; [injection Ha as <-; apply shows_as_none|].
    apply bind_ok in Ha as (l3 & Hr & Ha). eapply shows_as_bind; [by apply IH|by apply IHr]. }
  destruct (Hall (p_requires p) l l1 Hv) as (d & -> & Hd). exists (d ++ [name]). rewrite app_assoc. split; [done|].
  simpl. rewrite bool_decide_eq_false_2, Hm, Hd by (by rewrite elem_of_list_to_set). cbn [mbind res_bind]. do 2 f_equal.
  - rewrite shown_app. unfold shown at 3. simpl. by rewrite Hm, app_nil_r.
  - rewrite (list_to_set_app_L (l ++ d)). set_solver.
Qed.
Lemma names_runs fuel rs l l' : (forall r, r ∈ rs -> is_Some (m !! r)) -> visit_all (visit fuel m) rs l = Ok l' -> runs_as m (run_names fuel m rs) l l'.
Proof.
  revert l. induction rs as [|r rs IH]; intros l Hrs Hv; simpl in *; [injection Hv as <-; apply runs_as_none|].
  apply bind_ok in Hv as (l1 & Hr & Hv). destruct (Hrs r (list_elem_of_here _ _)) as [p Ep]. rewrite Ep.
  eapply runs_as_bind; [by apply visit_runs|]. apply IH; [|done]. intros r' Hr'. apply Hrs. by apply list_elem_of_further.
Qed.
Lemma names_show fuel rs l l' : visit_all (visit fuel m) rs l = Ok l' -> shows_as m (verbose_names (verbose fuel m) rs) l l'.
Proof.
  revert l. induction rs as [|r rs IH]; intros l Hv; simpl in *; [injection Hv as <-; apply shows_as_none|].
  apply bind_ok in Hv as (l1 & Hr & Hv). eapply shows_as_bind; [by apply visit_shows|by apply IH].
Qed.

(** *** The order is there, and has what is required first *)
Variable rank : Name -> nat.
Hypothesis acyclic : forall name p r, m !! name = Some p -> r ∈ p_requires p -> (rank r < rank name)%nat.
(** What is in the list is of [m], once, after what it requires. *)
Definition ordered l : Prop := NoDup l /\ (forall name, name ∈ l -> is_Some (m !! name)) /\
  forall l1 name l2 p r, l = l1 ++ name :: l2 -> m !! name = Some p -> r ∈ p_requires p -> r ∈ l1.
Lemma ordered_snoc l name p : ordered l -> m !! name = Some p -> name ∉ l -> (forall r, r ∈ p_requires p -> r ∈ l) -> ordered (l ++ [name]).
Proof.
  intros (Hn & Hd & Hr) Hm Hin Hp. split; [|split].
  - apply NoDup_app. split; [done|]. split; [intros x Hx ->%list_elem_of_singleton; done|apply NoDup_singleton].
  - intros x [Hx|Hx%list_elem_of_singleton]%elem_of_app; [by apply Hd|subst x; by exists p].
  - intros l1 x l2 q r Eq Hq Hrq. destruct l2 as [|y l2 _] using rev_ind.
    + apply app_inj_tail in Eq as [-> ->]. rewrite Hm in Hq. injection Hq as <-. by apply Hp.
    + rewrite app_comm_cons, app_assoc in Eq. apply app_inj_tail in Eq as [-> ->]. by eapply Hr.
Qed.
Lemma visit_ok fuel name l : (rank name < fuel)%nat -> is_Some (m !! name) -> ordered l ->
  exists l', visit fuel m name l = Ok l' /\ ordered l' /\ name ∈ l' /\ (forall x, x ∈ l -> x ∈ l') /\ forall x, x ∈ l' -> x ∈ l \/ (rank x <= rank name)%nat.
Proof.
  revert name l. induction fuel as [|fuel IH]; intros name l Hf [p Hm] Ho; [lia|]. simpl. case_bool_decide as Hin; [exists l; naive_solver|]. rewrite Hm.
  assert (forall rs l, (forall r, r ∈ rs -> is_Some (m !! r) /\ (rank r < rank name)%nat) -> ordered l ->
    exists l', visit_all (visit fuel m) rs l = Ok l' /\ ordered l' /\ (forall r, r ∈ rs -> r ∈ l') /\
      (forall x, x ∈ l -> x ∈ l') /\ forall x, x ∈ l' -> x ∈ l \/ (rank x < rank name)%nat) as Hall.
  { induction rs as [|r rs IHr]; intros l0 Hrs Ho0; simpl; [exists l0; set_solver|].
    destruct (Hrs r (list_elem_of_here _ _)) as [Hmr Hrk]. destruct (IH r l0 ltac:(lia) Hmr Ho0) as (l1 & -> & Ho1 & Hr1 & Hi1 & Hk1). cbn [mbind res_bind].
    destruct (IHr l1 (fun r' Hr' => Hrs r' (list_elem_of_further _ _ _ Hr')) Ho1) as (l2 & -> & Ho2 & Hr2 & Hi2 & Hk2).
    exists l2. split; [done|]. split; [done|]. split; [intros r' [->|?]%elem_of_cons; auto|]. split; [auto|].
    intros x Hx. destruct (Hk2 x Hx) as [Hx1|]; [|by right]. destruct (Hk1 x Hx1); [by left|right; lia]. }
  destruct (Hall (p_requires p) l) as (l' & -> & Ho' & Hr' & Hi' & Hk'); [|done|].
  { intros r Hr. split; [by eapply complete|by eapply acyclic]. }
  cbn [mbind res_bind]. exists (l' ++ [name]). split; [done|]. split.
  { apply (ordered_snoc l' name p); try done. intros Hn. destruct (Hk' name Hn); [done|lia]. }
  split; [set_solver|]. split; [set_solver|]. intros x [Hx|Hx%list_elem_of_singleton]%elem_of_app; [|subst x; by right].
  destruct (Hk' x Hx); [by left|right; lia].
Qed.
Lemma visit_all_ok fuel rs l : (forall r, r ∈ rs -> is_Some (m !! r) /\ (rank r < fuel)%nat) -> ordered l ->
  exists l', visit_all (visit fuel m) rs l = Ok l' /\ ordered l' /\ (forall r, r ∈ rs -> r ∈ l') /\ forall x, x ∈ l -> x ∈ l'.
Proof.
  revert l. induction rs as [|r rs IHr]; intros l Hrs Ho; simpl; [exists l; set_solver|].
  destruct (Hrs r (list_elem_of_here _ _)) as [Hmr Hrk]. destruct (visit_ok fuel r l Hrk Hmr Ho) as (l1 & -> & Ho1 & Hr1 & Hi1 & _). cbn [mbind res_bind].
  destruct (IHr l1 (fun r' Hr' => Hrs r' (list_elem_of_further _ _ _ Hr')) Ho1) as (l2 & -> & Ho2 & Hr2 & Hi2).
  exists l2. split; [done|]. split; [done|]. split; [intros r' [->|?]%elem_of_cons; auto|auto].
Qed.
End visits.

Lemma names_elem ps name : name ∈ names ps <-> is_Some (ps_m ps !! name).
Proof.
  unfold names. rewrite merge_sort_Permutation, list_elem_of_fmap. split.
  - intros ([n p] & -> & Hp). apply elem_of_map_to_list in Hp. by exists p.
  - intros [p Hp]. exists (name, p). split; [done|]. by apply elem_of_map_to_list.
Qed.

(** C21: when what is required is there and nothing requires itself, directly or around
    a circle, the processes have one order, which depends on their names and
    requirements only: each process once, after those it requires. [Run] ends, and runs
    them and their hooks in this order up to the first error, or to one that ignores the
    rest, which is no error; [Verbose] shows the same order, and after a [Run] without
    errors [Close] closes in the reverse order. On a circle [Run] does not end. *)
Theorem PS_Run_in_order fuel ps (rank : Name -> nat) :
  (forall name p r, ps_m ps !! name = Some p -> r ∈ p_requires p -> is_Some (ps_m ps !! r)) ->
  (forall name p r, ps_m ps !! name = Some p -> r ∈ p_requires p -> (rank r < rank name)%nat) ->
  (forall name, is_Some (ps_m ps !! name) -> (rank name < fuel)%nat) ->
  exists l, l ≡ₚ (map_to_list (ps_m ps)).*1 /\
    (forall l1 name l2 p r, l = l1 ++ name :: l2 -> ps_m ps !! name = Some p -> r ∈ p_requires p -> r ∈ l1) /\
    Verbose fuel ps = Ok (shown (ps_m ps) l) /\
    forall w, let '(r, w', ps') := PS_Run fuel ps w in
      (r, w') = ignore_left (exec (ps_m ps) l w) /\
      ((exec (ps_m ps) l w).1 = Ok tt -> PS_Close ps' = close_names (ps_m ps) (reverse l)).
Proof.
  intros Hc Ha Hf. assert (ordered (ps_m ps) []) as Ho.
  { split; [constructor|]. split; [by intros ? ?%elem_of_nil|]. intros l1 name l2 p r Eq. by apply app_cons_not_nil in Eq. }
  destruct (visit_all_ok (ps_m ps) Hc rank Ha fuel (names ps) [] (fun r Hr => conj (proj1 (names_elem ps r) Hr) (Hf r (proj1 (names_elem ps r) Hr))) Ho)
    as (l & Hv & (Hn & Hd & Hr) & Hall & _).
  exists l. split; [|split; [done|split]].
  - apply NoDup_Permutation; [done|apply NoDup_fst_map_to_list|]. intros x. split.
    + intros [p Hp]%Hd. apply list_elem_of_fmap. exists (x, p). split; [done|]. by apply elem_of_map_to_list.
    + intros ([n p] & -> & Hp)%list_elem_of_fmap. apply Hall, names_elem. exists p. by apply elem_of_map_to_list.
  - unfold Verbose. destruct (names_show (ps_m ps) Hc fuel (names ps) [] l Hv) as (d & -> & Hs). change (list_to_set []) with (∅ : gset Name) in Hs. by rewrite Hs.
  - intros w. destruct (names_runs (ps_m ps) Hc fuel (names ps) [] l (fun r => proj1 (names_elem ps r)) Hv) as (d & Ed & Hw). simpl in Ed. subst d.
    specialize (Hw w) as (E1 & E2 & E3). unfold PS_Run. destruct (run_names _ _ _ (w, [])) as [r1 [w1 l1]], (exec (ps_m ps) l w) as [r2 w2]. simpl in *. subst.
    destruct r2 as [[]|e|]; simpl; [by rewrite (E3 eq_refl)| |done]. by case_bool_decide.
Qed.
End ps.
Arguments hooks W : clear implicits.
Arguments P W : clear implicits.
Arguments PS W : clear implicits.

(** ** Examples *)
Section demo.
Abbreviation T := (list string).
Definition say (s : string) : IO T unit := modify (fun l => l ++ [s]).
Definition demo_add (name : Name) (requires : list Name) (ps : PS T) : PS T := (Add name (Some (say name)) (Some (say ("close " +:+ name))) requires ps).1.
Definition demo_ps : PS T := demo_add "a" ["c"; "b"] (demo_add "b" [] (demo_add "c" ["b"] NewPS)).
Definition demo_rank (name : Name) : nat :=
  if bool_decide (name = "a") then 3 else if bool_decide (name = "c") then 2 else if bool_decide (name = "b") then 1 else 0.
Example demo_ps_run : (PS_Run 9 demo_ps []).1 = (Ok tt, ["b"; "c"; "a"]).
Proof. vm_compute. reflexivity. Qed.
Example demo_ps_close : PS_Close (PS_Run 9 demo_ps []).2 [] = (Ok tt, ["close a"; "close c"; "close b"]).
Proof. vm_compute. reflexivity. Qed.
Lemma demo_ps_m name p : ps_m demo_ps !! name = Some p -> (name, p_requires p) ∈ [("a", ["init"; "c"; "b"]); ("b", ["init"]); ("c", ["init"; "b"]); ("init", [])].
Proof.
  intros Hp%elem_of_map_to_list.
  assert (Forall (fun np : Name * list Name => np ∈ [("a", ["init"; "c"; "b"]); ("b", ["init"]); ("c", ["init"; "b"]); ("init", [])])
    ((fun np : Name * P T => (np.1, p_requires np.2)) <$> map_to_list (ps_m demo_ps))) as Hall by (apply (bool_decide_unpack _); vm_compute; exact I).
  rewrite Forall_forall in Hall. apply Hall, list_elem_of_fmap. by exists (name, p).
Qed.
Lemma demo_requires name p r : ps_m demo_ps !! name = Some p -> r ∈ p_requires p ->
  (r = "c" \/ r = "b" \/ r = "init") /\ (demo_rank r < demo_rank name)%nat.
Proof.
  intros Hm%demo_ps_m Hr. rewrite !elem_of_cons, elem_of_nil in Hm.
  destruct Hm as [[= -> E]|[[= -> E]|[[= -> E]|[[= -> E]|[]]]]]; rewrite E in Hr; rewrite ?elem_of_cons, ?elem_of_nil in Hr; clear -Hr;
    repeat destruct Hr as [->|Hr]; try done; (split; [tauto|vm_compute; lia]).
Qed.
Lemma PS_Run_in_order_witness : exists l, l ≡ₚ (map_to_list (ps_m demo_ps)).*1 /\ Verbose 9 demo_ps = Ok (shown (ps_m demo_ps) l).
Proof.
  destruct (PS_Run_in_order 9 demo_ps demo_rank) as (l & Hp & _ & Hv & _); [| | |exists l; split; [exact Hp|exact Hv]].
  - intros name p r Hm Hr. destruct (demo_requires name p r Hm Hr) as [Hc _]. clear -Hc. repeat destruct Hc as [->|Hc]; subst; apply (bool_decide_unpack _); vm_compute; exact I.
  - intros name p r Hm Hr. apply (demo_requires name p r Hm Hr).
  - intros name _. unfold demo_rank. repeat case_bool_decide; lia.
Defined.
End demo.
