(* ===== verification/Hint.v ===== *)
(** * Versions, hints and what is compatible with them ([util/version.go], [util/hint])

    A value that goes over the wire names its type and version, its hint; a
    [CompatibleSet] finds what decodes or processes it: that of the same type and major
    version.  The parser of semantic versions is of another package. *)
From S2P Require Import Prelude Point Vote Slice Ballot Voteproof LockedMap Batch Block State Bytes Frame Leveldb Tempdb.
From Stdlib Require Import Ascii.

Open Scope Z_scope.

(** ** Versions *)
Record Version := { ver_s : string; ver_prerelease : string; ver_major : Z; ver_minor : Z; ver_patch : Z }.
Definition zero_version : Version := {| ver_s := ""; ver_prerelease := ""; ver_major := 0; ver_minor := 0; ver_patch := 0 |}.
(** [semver.NewVersion]: the string, the three numbers and the prerelease, without its
    dash; and [semver.IsValid] of the Go team. *)
Class Semver := {
  semver_NewVersion : string -> option (string * (Z * Z * Z) * string);
  stdsemver_IsValid : string -> bool
}.

Definition compareVersionMainPart (a b : Z) : Z := if a =? b then 0 else if a <? b then -1 else 1.
Definition is_char (n : N) (c : ascii) : bool := (N_of_ascii c =? n)%N.
(** The characters up to a dot, and the rest. *)
Fixpoint versionNextIdent (x : string) : string * string :=
  match x with
  | EmptyString => ("", "")
  | String c r => if is_char 46 c then ("", x) else let '(dx, rest) := versionNextIdent r in (String c dx, rest)
  end.
Definition is_digit (c : ascii) : bool := let n := N_of_ascii c in ((48 <=? n) && (n <=? 57))%N.
Fixpoint versionIsNum (v : string) : bool := match v with EmptyString => true | String c v => is_digit c && versionIsNum v end.
Definition skip (x : string) : string := match x with EmptyString => "" | String _ x => x end.
Fixpoint prerelease_loop (fuel : nat) (x y : string) : option Z :=
  if bool_decide (x = "") || bool_decide (y = "") then Some (if bool_decide (x = "") then -1 else 1)
  else
    match fuel with
    | O => None
    | S fuel =>
        let '(dx, x) := versionNextIdent (skip x) in
        let '(dy, y) := versionNextIdent (skip y) in
        if bool_decide (dx = dy) then prerelease_loop fuel x y
        else
          let ix := versionIsNum dx in
          let iy := versionIsNum dy in
          if xorb ix iy then Some (if ix then -1 else 1)
          else if ix && (String.length dx <? String.length dy)%nat then Some (-1)
          else if ix && (String.length dy <? String.length dx)%nat then Some 1
          else if ix then prerelease_loop fuel x y
          else if str_ltb dx dy then Some (-1) else Some 1
    end.
Definition compareVersionPrerelease (a b : string) : option Z :=
  if bool_decide (a = b) then Some 0
  else if bool_decide (a = "") then Some 1
  else if bool_decide (b = "") then Some (-1)
  else prerelease_loop (String.length a) a b.
Definition Version_Compare (v b : Version) : option Z :=
  let i := compareVersionMainPart (ver_major v) (ver_major b) in
  if negb (i =? 0) then Some i
  else
    let i := compareVersionMainPart (ver_minor v) (ver_minor b) in
    if negb (i =? 0) then Some i
    else
      let i := compareVersionMainPart (ver_patch v) (ver_patch b) in
      if negb (i =? 0) then Some i else compareVersionPrerelease (ver_prerelease v) (ver_prerelease b).
Definition Version_IsCompatible (v b : Version) : bool := ver_major v =? ver_major b.
Definition Version_IsEmpty (v : Version) : bool := (String.length (ver_s v) <? 1)%nat.

(** *** Trimming *)
Fixpoint trim_left (s : string) : string := match s with String c r => if is_space c then trim_left r else s | "" => "" end.
Fixpoint trim_right (f : ascii -> bool) (s : string) : string :=
  match s with
  | "" => ""
  | String c r => match trim_right f r with "" => if f c then "" else String c "" | r => String c r end
  end.
(** ASCII white space. *)
Definition TrimSpace (s : string) : string := trim_right is_space (trim_left s).

Section version.
Context `{Semver}.
Definition MinVersionLength : nat := 2.
Definition newVersion (v : string * (Z * Z * Z) * string) : Version :=
  let '(s, (major, minor, patch), prerelease) := v in
  {| ver_s := "v" +:+ s; ver_prerelease := prerelease; ver_major := major; ver_minor := minor; ver_patch := patch |}.
Definition EnsureParseVersion (s : string) : Version :=
  if negb (String.prefix "v" s) then zero_version else from_option newVersion zero_version (semver_NewVersion s).
Definition Version_IsValid (v : Version) : err :=
  let s := TrimSpace (ver_s v) in
  if (String.length s <? MinVersionLength)%nat then Err "empty version string"
  else if negb (String.prefix "v" s) then Err "invalid version string"
  else guard_err (negb (stdsemver_IsValid (ver_s v))) "invalid semver".
Definition ParseVersion (s : string) : res Version :=
  if negb (String.prefix "v" s) then Err "invalid version"
  else
    match semver_NewVersion s with
    | None => Err "version"
    | Some v => Version_IsValid (newVersion v) ≫= fun _ => Ok (newVersion v)
    end.
Definition MustNewVersion (s : string) : res Version := match ParseVersion s with Ok v => Ok v | _ => Panic end.

(** ** Hints ([util/hint/hint.go], [util/hint/type.go]) *)
Definition MinTypeLength : nat := 2.
Definition MaxTypeLength : nat := 100.
Definition MaxVersionLength : nat := 20.
Definition MinHintLength : nat := MinTypeLength + MinVersionLength + 1.
Definition alnum (c : ascii) : bool := let n := N_of_ascii c in ((97 <=? n) && (n <=? 122) || is_digit c)%N.
Definition allowed (c : ascii) : bool := alnum c || is_char 45 c || is_char 95 c || is_char 43 c.
Fixpoint rest_allowed (s : string) : bool :=
  match s with "" => false | String c "" => alnum c | String c r => allowed c && rest_allowed r end.
(** [reTypeAllowedChars]. *)
Definition type_chars (t : string) : bool := match t with "" => false | String c r => alnum c && rest_allowed r end.
Definition Type_IsValid (t : string) : err :=
  if (String.length t <? MinTypeLength)%nat then Err "too short Type"
  else if (MaxTypeLength <? String.length t)%nat then Err "too long Type"
  else guard_err (negb (type_chars t)) "invalid char found in Type".

Record Hint := { ht_t : string; ht_s : string; ht_b : string; ht_v : Version }.
Definition zero_hint : Hint := {| ht_t := ""; ht_s := ""; ht_b := ""; ht_v := zero_version |}.
Definition hintString (t : string) (v : Version) : string := t +:+ "-" +:+ ver_s v.
Definition NewHint (t : string) (v : Version) : Hint := {| ht_t := t; ht_s := hintString t v; ht_b := hintString t v; ht_v := v |}.
(** What is before the first match of [regVersion], and what is after its dash. *)
Fixpoint split_version (s : string) : option (string * string) :=
  match s with
  | "" => None
  | String c r =>
      match r with
      | String v (String d _) =>
          if is_char 45 c && is_char 118 v && is_digit d then Some ("", r)
          else match split_version r with Some (t, v) => Some (String c t, v) | None => None end
      | _ => None
      end
  end.
Definition EnsureParseHint (s : string) : Hint :=
  match split_version s with None => zero_hint | Some (t, v) => NewHint t (EnsureParseVersion v) end.
Definition parseHint (s : string) : res Hint :=
  if (String.length s <? MinHintLength)%nat then Err "too short hint"
  else
    let ns := TrimSpace (trim_right (fun c => is_char 0 c) s) in
    match split_version ns with None => Err "empty version" | Some _ => Ok (EnsureParseHint ns) end.
(** The parsed hints and errors are kept in a cache. *)
Definition ParseHint_cached `{GCache C} (s : string) (hintcache : C (res Hint)) : res Hint * C (res Hint) :=
  let '(i, hintcache) := gc_Get s hintcache in
  match i with
  | Some r => (r, hintcache)
  | None => let ht := parseHint s in (ht, gc_Set s ht hintcache)
  end.
Definition Hint_IsValid (ht : Hint) : err :=
  Type_IsValid (ht_t ht) ≫= fun _ =>
  Version_IsValid (ht_v ht) ≫= fun _ =>
  if (MaxVersionLength <? String.length (ver_s (ht_v ht)))%nat then Err "too long version"
  else guard_err ((String.length (ht_s ht) <? 1)%nat || (String.length (ht_b ht) <? 1)%nat) "empty string or bytes".
Definition Hint_Equal (ht b : Hint) : bool := bool_decide (ht_t ht = ht_t b) && bool_decide (Version_Compare (ht_v ht) (ht_v b) = Some 0).
Definition Hint_IsCompatible (ht target : Hint) : bool := bool_decide (ht_t ht = ht_t target) && Version_IsCompatible (ht_v ht) (ht_v target).
Definition Hint_IsEmpty (ht : Hint) : bool := (String.length (ht_t ht) <? 1)%nat || Version_IsEmpty (ht_v ht).
End version.

(** ** What is compatible ([util/hint/set.go]) *)
Section set.
Context `{Semver} {T : Type} {C : Type -> Type} `{GCache C}.

(** What the cache has: an error, that something is (not) there, or a hint with its
    value. *)
Inductive cached_value := CError (e : string) | CBool (found : bool) | CPair (ht : Hint) (v : T).
Record CompatibleSet := {
  cs_set : gmap string (gmap Z T);
  cs_hints : gmap string (gmap Z Hint);
  cs_typeheads : gmap string T;
  cs_typeheadhints : gmap string Hint;
  cs_cache : option (C cached_value)
}.
(** The cache keeps one entry, whatever [size] says. *)
Definition NewCompatibleSet (size : Z) : CompatibleSet :=
  {| cs_set := ∅; cs_hints := ∅; cs_typeheads := ∅; cs_typeheadhints := ∅; cs_cache := if 0 <? size then Some (gc_New cached_value) else None |}.
Definition set_cache (c : option (C cached_value)) (st : CompatibleSet) : CompatibleSet :=
  {| cs_set := cs_set st; cs_hints := cs_hints st; cs_typeheads := cs_typeheads st; cs_typeheadhints := cs_typeheadhints st; cs_cache := c |}.
Definition set_value (ht : Hint) (v : T) (st : CompatibleSet) : CompatibleSet :=
  let t := ht_t ht in
  let major := ver_major (ht_v ht) in
  {| cs_set := <[t := <[major := v]> (default ∅ (cs_set st !! t))]> (cs_set st);
     cs_hints := <[t := <[major := ht]> (default ∅ (cs_hints st !! t))]> (cs_hints st);
     cs_typeheads := cs_typeheads st; cs_typeheadhints := cs_typeheadhints st; cs_cache := cs_cache st |}.
Definition set_typehead (ht : Hint) (v : T) (st : CompatibleSet) : CompatibleSet :=
  {| cs_set := cs_set st; cs_hints := cs_hints st; cs_typeheads := <[ht_t ht := v]> (cs_typeheads st);
     cs_typeheadhints := <[ht_t ht := ht]> (cs_typeheadhints st); cs_cache := cs_cache st |}.

Definition cacheSet (s : string) (v : cached_value) (st : CompatibleSet) : CompatibleSet := set_cache (match cs_cache st with Some c => Some (gc_Set s v c) | None => None end) st.
(** [None]: not in the cache. *)
Definition cacheGet (s : string) (st : CompatibleSet) : option cached_value * CompatibleSet :=
  match cs_cache st with
  | None => (None, st)
  | Some c => let '(i, c) := gc_Get s c in (i, set_cache (Some c) st)
  end.

(** [Compare] of versions does not run out of characters ([prerelease_ends]). *)
Definition newer (ht eht : Hint) : bool := match Version_Compare (ht_v ht) (ht_v eht) with Some i => 0 <? i | None => false end.
Definition addWithHint (ht : Hint) (v : T) (st : CompatibleSet) : res CompatibleSet :=
  Hint_IsValid ht ≫= fun _ =>
  match cs_set st !! ht_t ht with
  | None => Ok (set_value ht v st)
  | Some _ =>
      match cs_hints st !! ht_t ht ≫= fun l => l !! ver_major (ht_v ht) with
      | None => Ok (set_value ht v st)
      | Some eht =>
          if Hint_Equal eht ht then Err "already added"
          else if negb (Version_IsCompatible (ht_v eht) (ht_v ht)) then Ok (set_value ht v st)
          else if newer ht eht then Ok (set_value ht v st)
          else Ok st
      end
  end.
Definition cs_add (ht : Hint) (v : T) (st : CompatibleSet) : res CompatibleSet :=
  addWithHint ht v st ≫= fun st =>
  let st := cacheSet (ht_s ht) (CPair ht v) st in
  Ok (match cs_typeheadhints st !! ht_t ht with
      | None => set_typehead ht v st
      | Some eht => if newer ht eht then set_typehead ht v st else st
      end).
Definition cs_find (ht : Hint) (st : CompatibleSet) : option T * CompatibleSet :=
  match cs_set st !! ht_t ht with
  | None => (None, cacheSet (ht_s ht) (CBool false) st)
  | Some vs =>
      match vs !! ver_major (ht_v ht) with
      | None => (None, cacheSet (ht_s ht) (CBool false) st)
      | Some v => (Some v, cacheSet (ht_s ht) (CPair ht v) st)
      end
  end.
(** A [true] that is in the cache has the zero values; nobody puts one there. *)
Variable zero : T.
Definition Find (ht : Hint) (st : CompatibleSet) : option T * CompatibleSet :=
  let '(i, st) := cacheGet (ht_s ht) st in
  match i with
  | None => cs_find ht st
  | Some (CError _) => (None, st)
  | Some (CBool found) => (if found then Some zero else None, st)
  | Some (CPair _ v) => (Some v, st)
  end.
Definition FindByString (s : string) (st : CompatibleSet) : res (Hint * option T) * CompatibleSet :=
  let '(i, st) := cacheGet s st in
  match i with
  | Some (CError e) => (Err e, st)
  | Some (CBool found) => (Ok (zero_hint, if found then Some zero else None), st)
  | Some (CPair ht v) => (Ok (ht, Some v), st)
  | None =>
      match parseHint s with
      | Ok h => let '(v, st) := cs_find h st in (Ok (h, v), st)
      | Err e => (Err e, cacheSet s (CError e) st)
      | Panic => (Panic, st)
      end
  end.
Definition cs_findBytType (t : string) (st : CompatibleSet) : option (Hint * T) * CompatibleSet :=
  match cs_typeheads st !! t with
  | None => (None, cacheSet t (CBool false) st)
  | Some v =>
      let ht := default zero_hint (cs_typeheadhints st !! t) in
      (Some (ht, v), cacheSet t (CPair ht v) st)
  end.
Definition FindBytType (t : string) (st : CompatibleSet) : option (Hint * T) * CompatibleSet :=
  let '(i, st) := cacheGet t st in
  match i with
  | None => cs_findBytType t st
  | Some (CError _) => (None, st)
  | Some (CBool found) => (if found then Some (zero_hint, zero) else None, st)
  | Some (CPair ht v) => (Some (ht, v), st)
  end.
Definition FindBytTypeString (s : string) (st : CompatibleSet) : res (option (Hint * T)) * CompatibleSet :=
  let '(i, st) := cacheGet s st in
  match i with
  | Some (CError e) => (Err e, st)
  | Some (CBool found) => (Ok (if found then Some (zero_hint, zero) else None), st)
  | Some (CPair ht v) => (Ok (Some (ht, v)), st)
  | None =>
      match Type_IsValid s with
      | Ok _ => let '(r, st) := cs_findBytType s st in (Ok r, st)
      | Err e => (Err e, cacheSet s (CError e) st)
      | Panic => (Panic, st)
      end
  end.
End set.
Arguments CompatibleSet T C : clear implicits.
Arguments cached_value T : clear implicits.

(** ** Comparing versions *)
Lemma next_ident_length x : (String.length (versionNextIdent x).2 <= String.length x)%nat.
Proof.
  induction x as [|c x IH]; [done|]. simpl. destruct (is_char 46 c); [done|]. destruct (versionNextIdent x) as [dx r]. simpl in *. lia.
Qed.
(** The loop ends: a character is dropped each time. *)
Lemma prerelease_ends fuel x y : (String.length x <= fuel)%nat -> is_Some (prerelease_loop fuel x y).
Proof.
  revert x y. induction fuel as [|fuel IH]; intros x y Hl; simpl; (case_bool_decide as Hx; [by eexists|]); (case_bool_decide as Hy; [by eexists|]); simpl.
  - by destruct x; simpl in Hl; [|lia].
  - destruct x as [|c x]; [done|]. simpl in Hl. destruct y as [|c' y]; [done|]. simpl skip.
    pose proof (next_ident_length x) as Hn. destruct (versionNextIdent x) as [dx x'], (versionNextIdent y) as [dy y']. simpl in Hn.
    repeat (case_match; try by eexists); apply IH; lia.
Qed.
Lemma Version_Compare_total v b : is_Some (Version_Compare v b).
Proof.
  unfold Version_Compare, compareVersionPrerelease. repeat (case_match; try by eexists). by apply prerelease_ends.
Qed.

(** Versions without a prerelease are compared by their numbers. *)
Definition plain (v : Version) : Prop := ver_prerelease v = "".
Definition ver_lt (v b : Version) : Prop :=
  ver_major v < ver_major b \/ ver_major v = ver_major b /\ (ver_minor v < ver_minor b \/ ver_minor v = ver_minor b /\ ver_patch v < ver_patch b).
Lemma Compare_plain v b : plain v -> plain b ->
  (Version_Compare v b = Some (-1) /\ ver_lt v b) \/ (Version_Compare v b = Some 1 /\ ver_lt b v) \/
  (Version_Compare v b = Some 0 /\ ver_major v = ver_major b /\ ver_minor v = ver_minor b /\ ver_patch v = ver_patch b).
Proof.
  intros Hv Hb. unfold Version_Compare, compareVersionPrerelease, compareVersionMainPart, ver_lt. rewrite Hv, Hb.
  rewrite (bool_decide_eq_true_2 ("" = "")) by done.
  destruct (Z.eqb_spec (ver_major v) (ver_major b)); [|destruct (Z.ltb_spec (ver_major v) (ver_major b)); simpl; [left|right; left]; (split; [done|lia])].
  destruct (Z.eqb_spec (ver_minor v) (ver_minor b)); [|destruct (Z.ltb_spec (ver_minor v) (ver_minor b)); simpl; [left|right; left]; (split; [done|lia])].
  destruct (Z.eqb_spec (ver_patch v) (ver_patch b)); [|destruct (Z.ltb_spec (ver_patch v) (ver_patch b)); simpl; [left|right; left]; (split; [done|lia])].
  right. right. by repeat split.
Qed.
(** A prerelease is compared without its first character, and numbers of one length not
    at all: of two different versions each is before the other. *)
Example prerelease_both_before : compareVersionPrerelease "alpha" "beta" = Some 1 /\ compareVersionPrerelease "a" "b" = Some (-1) /\
  compareVersionPrerelease "b" "a" = Some (-1) /\ compareVersionPrerelease "rc.1" "rc.2" = Some (-1) /\ compareVersionPrerelease "rc.2" "rc.1" = Some (-1).
Proof. by vm_compute. Qed.

(** ** What a set finds *)
Section newest.
Context `{Semver} {T : Type} {C : Type -> Type} `{GCache C}.
Abbreviation CS := (CompatibleSet T C).
Implicit Types (st : CS) (hs : list (Hint * T)).

Definition add_one st (hv : Hint * T) : CS := match cs_add hv.1 hv.2 st with Ok st' => st' | _ => st end.
Definition add_all hs : CS := foldl add_one (NewCompatibleSet 0) hs.

(** The value of a hint with the highest version among those that were added. *)
Definition newest (Q : Hint -> Prop) hs (h : Hint) (v : T) : Prop :=
  (h, v) ∈ hs /\ Hint_IsValid h = Ok tt /\ Q h /\
  forall h' v', (h', v') ∈ hs -> Hint_IsValid h' = Ok tt -> Q h' -> ~ ver_lt (ht_v h) (ht_v h').
Definition none (Q : Hint -> Prop) hs : Prop := forall h v, (h, v) ∈ hs -> Hint_IsValid h = Ok tt -> ~ Q h.
Definition the_newest (Q : Hint -> Prop) hs (o : option (Hint * T)) : Prop := match o with Some (h, v) => newest Q hs h v | None => none Q hs end.

Definition both {A B} (a : option A) (b : option B) : option (A * B) := match a, b with Some a, Some b => Some (a, b) | _, _ => None end.
Definition major_head st (t : string) (M : Z) : option (Hint * T) :=
  both (cs_hints st !! t ≫= fun l => l !! M) (cs_set st !! t ≫= fun l => l !! M).
Definition type_head st (t : string) : option (Hint * T) := both (cs_typeheadhints st !! t) (cs_typeheads st !! t).
Definition of_major (t : string) (M : Z) (h : Hint) : Prop := ht_t h = t /\ ver_major (ht_v h) = M.
Definition of_type (t : string) (h : Hint) : Prop := ht_t h = t.
Record set_inv hs st : Prop := {
  si_cache : cs_cache st = None;
  si_major t M : is_Some (cs_hints st !! t ≫= fun l => l !! M) <-> is_Some (cs_set st !! t ≫= fun l => l !! M);
  si_type t : is_Some (cs_typeheadhints st !! t) <-> is_Some (cs_typeheads st !! t);
  si_newest t M : the_newest (of_major t M) hs (major_head st t M);
  si_head t : the_newest (of_type t) hs (type_head st t)
}.

Lemma newest_snoc_other Q hs h v o : the_newest Q hs o -> ~ (Hint_IsValid h = Ok tt /\ Q h) -> the_newest Q (hs ++ [(h, v)]) o.
Proof.
  intros Ho Hn. destruct o as [[h0 v0]|]; simpl in *.
  - destruct Ho as (Hin & Hv & Hq & Hm). split; [set_solver|]. split; [done|]. split; [done|].
    intros h' v' [?|[= -> ->]%list_elem_of_singleton]%elem_of_app; [by eapply Hm|]. tauto.
  - intros h' v' [?|[= -> ->]%list_elem_of_singleton]%elem_of_app; [by eapply Ho|]. tauto.
Qed.
Lemma newest_snoc_kept (Q : Hint -> Prop) hs h v h0 v0 : newest Q hs h0 v0 -> ~ ver_lt (ht_v h0) (ht_v h) -> newest Q (hs ++ [(h, v)]) h0 v0.
Proof.
  intros (Hin & Hv & Hq & Hm) Hlt. split; [set_solver|]. split; [done|]. split; [done|].
  intros h' v' [?|[= -> ->]%list_elem_of_singleton]%elem_of_app; [by eapply Hm|done].
Qed.
Lemma newest_snoc_new (Q : Hint -> Prop) hs h v o : Hint_IsValid h = Ok tt -> Q h -> the_newest Q hs o ->
  (forall h0 v0, o = Some (h0, v0) -> ver_lt (ht_v h0) (ht_v h)) -> newest Q (hs ++ [(h, v)]) h v.
Proof.
  intros Hv Hq Ho Hlt. split; [set_solver|]. split; [done|]. split; [done|].
  intros h' v' [Hin|[= -> ->]%list_elem_of_singleton]%elem_of_app Hv' Hq'; [|unfold ver_lt; lia].
  destruct o as [[h0 v0]|]; [|by destruct (Ho h' v' Hin Hv' Hq')]. destruct Ho as (_ & _ & _ & Hm). specialize (Hm h' v' Hin Hv' Hq'). specialize (Hlt h0 v0 eq_refl).
  unfold ver_lt in *. lia.
Qed.
Lemma newer_plain h eh : plain (ht_v h) -> plain (ht_v eh) -> newer h eh = true <-> ver_lt (ht_v eh) (ht_v h).
Proof.
  intros Hp Hp'. unfold newer. destruct (Compare_plain _ _ Hp Hp') as [[-> ?]|[[-> ?]|[-> ?]]]; simpl; unfold ver_lt in *; split; try done; lia.
Qed.

Lemma major_head_set st h v t M : major_head (set_value h v st) t M =
  if decide (ht_t h = t /\ ver_major (ht_v h) = M) then Some (h, v) else major_head st t M.
Proof.
  unfold major_head, set_value. simpl. destruct (decide (ht_t h = t)) as [<-|Ht].
  - rewrite !lookup_insert_eq. simpl. destruct (decide (ver_major (ht_v h) = M)) as [<-|HM].
    + rewrite !lookup_insert_eq. by rewrite decide_True.
    + rewrite !lookup_insert_ne by done. rewrite decide_False by tauto. by destruct (cs_hints st !! ht_t h), (cs_set st !! ht_t h); simpl; rewrite ?lookup_empty.
  - rewrite !lookup_insert_ne by done. rewrite decide_False by tauto. done.
Qed.
Lemma major_head_None st t M hs : set_inv hs st -> cs_hints st !! t ≫= (fun l => l !! M) = None -> major_head st t M = None.
Proof. intros I E. unfold major_head. by rewrite E. Qed.
Lemma major_head_Some st t M hs h : set_inv hs st -> cs_hints st !! t ≫= (fun l => l !! M) = Some h -> exists v, major_head st t M = Some (h, v).
Proof.
  intros I E. unfold major_head. rewrite E. assert (is_Some (cs_set st !! t ≫= fun l => l !! M)) as [v Ev] by (apply (si_major _ _ I); by rewrite E).
  rewrite Ev. by exists v.
Qed.
(** What becomes of the value of a major version. *)
Lemma addWithHint_cases hs st h v : set_inv hs st -> Hint_IsValid h = Ok tt -> plain (ht_v h) ->
  (forall h' v', (h', v') ∈ hs -> plain (ht_v h')) -> let o := major_head st (ht_t h) (ver_major (ht_v h)) in
  (addWithHint h v st = Ok (set_value h v st) /\ forall h0 v0, o = Some (h0, v0) -> ver_lt (ht_v h0) (ht_v h)) \/
  (exists h0 v0, o = Some (h0, v0) /\ ~ ver_lt (ht_v h0) (ht_v h) /\
    (addWithHint h v st = Ok st \/ (exists e, addWithHint h v st = Err e) /\ forall b, ver_lt (ht_v b) (ht_v h) -> ver_lt (ht_v b) (ht_v h0))).
Proof.
  intros I Hv Hp Hpl o. unfold addWithHint. rewrite Hv. cbn [mbind res_bind].
  destruct (cs_hints st !! ht_t h ≫= fun l => l !! ver_major (ht_v h)) as [eh|] eqn:Eh.
  - destruct (major_head_Some _ _ _ _ _ I Eh) as [ev Eo]. fold o in Eo.
    assert (plain (ht_v eh)) as Hpe. { pose proof (si_newest _ _ I (ht_t h) (ver_major (ht_v h))) as Hn. fold o in Hn. rewrite Eo in Hn. by eapply Hpl, Hn. }
    destruct (cs_set st !! ht_t h) as [l|] eqn:Es; [|assert (is_Some (cs_set st !! ht_t h ≫= fun l => l !! ver_major (ht_v h))) as [? Hs] by (apply (si_major _ _ I); by rewrite Eh); by rewrite Es in Hs].
    unfold Hint_Equal. destruct (Compare_plain _ _ Hpe Hp) as [[Ec Hlt]|[[Ec Hlt]|[Ec Heq]]].
    + rewrite Ec. rewrite (bool_decide_eq_false_2 (Some (-1) = Some 0)), andb_false_r by done.
      destruct (negb _); [left; split; [done|]; intros h0 v0; rewrite Eo; by intros [= <- <-]|].
      rewrite (proj2 (newer_plain h eh Hp Hpe) Hlt). left. split; [done|]. intros h0 v0. rewrite Eo. by intros [= <- <-].
    + rewrite Ec. rewrite (bool_decide_eq_false_2 (Some 1 = Some 0)), andb_false_r by done.
      assert (Version_IsCompatible (ht_v eh) (ht_v h) = true) as ->.
      { pose proof (si_newest _ _ I (ht_t h) (ver_major (ht_v h))) as Hn. fold o in Hn. rewrite Eo in Hn. destruct Hn as (_ & _ & [_ HM] & _). unfold Version_IsCompatible. by apply Z.eqb_eq. }
      assert (newer h eh = false) as ->. { apply not_true_iff_false. rewrite newer_plain by done. unfold ver_lt in *. lia. }
      right. exists eh, ev. split; [done|]. split; [unfold ver_lt in *; lia|]. by left.
    + rewrite Ec. rewrite (bool_decide_eq_true_2 (Some 0 = Some 0)), andb_true_r by done.
      pose proof (si_newest _ _ I (ht_t h) (ver_major (ht_v h))) as Hn. fold o in Hn. rewrite Eo in Hn. destruct Hn as (_ & _ & [Ht HM] & _).
      rewrite bool_decide_eq_true_2 by done. right. exists eh, ev. split; [done|]. split; [unfold ver_lt; lia|]. right. split; [by eexists|].
      intros b. unfold ver_lt. lia.
  - left. split; [by destruct (cs_set st !! ht_t h)|]. intros h0 v0. unfold o. by rewrite (major_head_None _ _ _ _ I Eh).
Qed.

Lemma set_value_major hs st h v : set_inv hs st ->
  forall t M, is_Some (cs_hints (set_value h v st) !! t ≫= fun l => l !! M) <-> is_Some (cs_set (set_value h v st) !! t ≫= fun l => l !! M).
Proof.
  intros I t M. pose proof (si_major _ _ I t M) as Hm. unfold set_value. simpl. destruct (decide (ht_t h = t)) as [<-|Ht]; [|by rewrite !lookup_insert_ne].
  rewrite !lookup_insert_eq. simpl. destruct (decide (ver_major (ht_v h) = M)) as [<-|HM]; [by rewrite !lookup_insert_eq|].
  rewrite !lookup_insert_ne by done. by destruct (cs_hints st !! ht_t h), (cs_set st !! ht_t h); simpl in *; rewrite ?lookup_empty.
Qed.
Lemma cacheSet_none s x st : cs_cache st = None -> cacheSet s x st = st.
Proof. unfold cacheSet, set_cache. destruct st; simpl. by intros ->. Qed.
Lemma newest_kept_all (hs : list (Hint * T)) h v t M st : set_inv hs st -> Hint_IsValid h = Ok tt ->
  (forall h0 v0, major_head st (ht_t h) (ver_major (ht_v h)) = Some (h0, v0) -> ~ ver_lt (ht_v h0) (ht_v h)) ->
  is_Some (major_head st (ht_t h) (ver_major (ht_v h))) -> the_newest (of_major t M) (hs ++ [(h, v)]) (major_head st t M).
Proof.
  intros I Hv Hlt [[h0 v0] Eo]. pose proof (si_newest _ _ I t M) as Hn. destruct (decide (ht_t h = t /\ ver_major (ht_v h) = M)) as [[<- <-]|Hne].
  - rewrite Eo in Hn |- *. apply newest_snoc_kept; [done|]. by eapply Hlt.
  - apply newest_snoc_other; [done|]. intros [_ [? ?]]. tauto.
Qed.
(** The value of the type after the value of the major version is set. *)
Definition head_step (h : Hint) (v : T) st : CS :=
  match cs_typeheadhints st !! ht_t h with None => set_typehead h v st | Some eht => if newer h eht then set_typehead h v st else st end.
Lemma type_head_typehead st h v t : type_head (set_typehead h v st) t = if decide (ht_t h = t) then Some (h, v) else type_head st t.
Proof.
  unfold type_head, set_typehead. simpl. case_decide as Ht; [subst; by rewrite !lookup_insert_eq|by rewrite !lookup_insert_ne].
Qed.
Lemma head_step_newest hs st h v t : Hint_IsValid h = Ok tt -> plain (ht_v h) -> (forall h' v', (h', v') ∈ hs -> plain (ht_v h')) ->
  (forall t, is_Some (cs_typeheadhints st !! t) <-> is_Some (cs_typeheads st !! t)) -> (forall t, the_newest (of_type t) hs (type_head st t)) ->
  the_newest (of_type t) (hs ++ [(h, v)]) (type_head (head_step h v st) t).
Proof.
  intros Hv Hp Hpl Hs Hh. destruct (decide (ht_t h = t)) as [<-|Hne].
  - unfold head_step. pose proof (Hh (ht_t h)) as Hn. unfold type_head in Hn at 1. destruct (cs_typeheadhints st !! ht_t h) as [eh|] eqn:Ee.
    + assert (is_Some (cs_typeheads st !! ht_t h)) as [ev Ev] by (apply Hs; by rewrite Ee). rewrite Ev in Hn. simpl in Hn.
      assert (plain (ht_v eh)) as Hpe by (by eapply Hpl, Hn). pose proof (newer_plain h eh Hp Hpe) as Hnp. destruct (newer h eh).
      * rewrite type_head_typehead, decide_True by done. eapply (newest_snoc_new _ _ _ _ (Some (eh, ev))); [done|done|done|]. intros h0 v0 [= <- <-]. by apply Hnp.
      * unfold type_head. rewrite Ee, Ev. simpl. apply newest_snoc_kept; [done|]. intros Hlt. by apply Hnp in Hlt.
    + rewrite type_head_typehead, decide_True by done. by eapply (newest_snoc_new _ _ _ _ None).
  - assert (type_head (head_step h v st) t = type_head st t) as ->.
    { unfold head_step. repeat case_match; rewrite ?type_head_typehead, ?decide_False by done; done. }
    apply newest_snoc_other; [done|]. by intros [_ ?].
Qed.
Lemma head_step_rest h v st : cs_cache (head_step h v st) = cs_cache st /\ cs_set (head_step h v st) = cs_set st /\ cs_hints (head_step h v st) = cs_hints st.
Proof. unfold head_step. by repeat case_match. Qed.
Lemma head_step_type h v st : (forall t, is_Some (cs_typeheadhints st !! t) <-> is_Some (cs_typeheads st !! t)) ->
  forall t, is_Some (cs_typeheadhints (head_step h v st) !! t) <-> is_Some (cs_typeheads (head_step h v st) !! t).
Proof.
  intros Hs t. assert (is_Some (cs_typeheadhints (set_typehead h v st) !! t) <-> is_Some (cs_typeheads (set_typehead h v st) !! t)) as Hset.
  { unfold set_typehead. simpl. destruct (decide (ht_t h = t)) as [<-|]; [by rewrite !lookup_insert_eq|by rewrite !lookup_insert_ne]. }
  unfold head_step. repeat case_match; done.
Qed.

Lemma cs_add_inv hs st h v : (forall h' v', (h', v') ∈ hs ++ [(h, v)] -> plain (ht_v h')) -> set_inv hs st -> set_inv (hs ++ [(h, v)]) (add_one st (h, v)).
Proof.
  intros Hpl I. assert (plain (ht_v h)) as Hp by (apply (Hpl h v); set_solver).
  assert (forall h' v', (h', v') ∈ hs -> plain (ht_v h')) as Hpl' by (intros h' v' ?; apply (Hpl h' v'); set_solver).
  unfold add_one, cs_add. simpl. destruct (Hint_IsValid h) as [[]|e|] eqn:Hv.
  2, 3: unfold addWithHint; rewrite Hv; cbn [mbind res_bind]; split; try apply I; intros;
    (apply newest_snoc_other; [apply I|rewrite Hv; by intros [? _]]).
  destruct (addWithHint_cases hs st h v I Hv Hp Hpl') as [[-> Hlt]|(h0 & v0 & Eo & Hlt & [->|[[e ->] Hb]])]; cbn [mbind res_bind].
  - rewrite cacheSet_none by apply I. cbv zeta. fold (head_step h v (set_value h v st)).
    destruct (head_step_rest h v (set_value h v st)) as (Ec & Es & Eh). split.
    + rewrite Ec. apply I.
    + intros t M. rewrite Es, Eh. by apply (set_value_major hs).
    + apply head_step_type. apply I.
    + intros t M. unfold major_head. rewrite Es, Eh. fold (major_head (set_value h v st) t M). rewrite major_head_set. case_decide as Hd.
      * destruct Hd as [<- <-]. apply (newest_snoc_new _ _ _ _ (major_head st (ht_t h) (ver_major (ht_v h)))); [done|done|apply I|done].
      * apply newest_snoc_other; [apply I|]. intros [_ [? ?]]. tauto.
    + intros t. apply head_step_newest; [done..|apply I|apply I].
  - rewrite cacheSet_none by apply I. cbv zeta. fold (head_step h v st). destruct (head_step_rest h v st) as (Ec & Es & Eh). split.
    + rewrite Ec. apply I.
    + intros t M. rewrite Es, Eh. apply I.
    + apply head_step_type. apply I.
    + intros t M. unfold major_head. rewrite Es, Eh. fold (major_head st t M). apply newest_kept_all; [done|done| |by eexists].
      intros h1 v1. rewrite Eo. by intros [= <- <-].
    + intros t. apply head_step_newest; [done..|apply I|apply I].
  - split; [apply I..| |].
    + intros t M. apply newest_kept_all; [done|done| |by eexists]. intros h1 v1. rewrite Eo. by intros [= <- <-].
    + intros t. pose proof (si_head _ _ I t) as Hh. destruct (decide (ht_t h = t)) as [<-|Hne].
      * pose proof (si_newest _ _ I (ht_t h) (ver_major (ht_v h))) as Hn. rewrite Eo in Hn. destruct Hn as (Hin & Hv0 & [Ht0 _] & _).
        destruct (type_head st (ht_t h)) as [[hh vv]|]; [|by destruct (Hh h0 v0 Hin Hv0)].
        apply newest_snoc_kept; [done|]. intros Hl%Hb. by apply (proj2 (proj2 (proj2 Hh)) h0 v0 Hin Hv0 Ht0).
      * apply newest_snoc_other; [done|]. by intros [_ ?].
Qed.
Lemma add_all_inv hs : (forall h v, (h, v) ∈ hs -> plain (ht_v h)) -> set_inv hs (add_all hs).
Proof.
  induction hs as [|[h v] hs IH] using rev_ind; intros Hpl.
  - split; [done|..].
    + intros t M. simpl. rewrite !lookup_empty. simpl. by split; intros [? ?].
    + intros t. simpl. rewrite !lookup_empty. by split; intros [? ?].
    + intros t M. unfold major_head. simpl. rewrite !lookup_empty. by intros h v ?%elem_of_nil.
    + intros t. unfold type_head. simpl. rewrite !lookup_empty. by intros h v ?%elem_of_nil.
  - unfold add_all. rewrite foldl_snoc. apply cs_add_inv; [done|]. apply IH. intros h' v' Hin. apply (Hpl h' v'). set_solver.
Qed.

(** C40: when no version has a prerelease, a set without a cache, to which hints were
    added in whatever order, finds for a hint the value of the highest version of its
    type and major version, and for a type the value of the highest version of all,
    among those that are valid. Versions with prereleases are not in an order
    ([prerelease_both_before]). *)
Theorem Find_newest (zero : T) hs ht : (forall h v, (h, v) ∈ hs -> plain (ht_v h)) ->
  match (Find zero ht (add_all hs)).1 with
  | Some v => exists h, newest (of_major (ht_t ht) (ver_major (ht_v ht))) hs h v
  | None => none (of_major (ht_t ht) (ver_major (ht_v ht))) hs
  end /\
  the_newest (of_type (ht_t ht)) hs (FindBytType zero (ht_t ht) (add_all hs)).1.
Proof.
  intros Hpl. pose proof (add_all_inv hs Hpl) as I. set (st := add_all hs) in *. unfold Find, FindBytType, cacheGet. rewrite (si_cache _ _ I). split.
  - pose proof (si_newest _ _ I (ht_t ht) (ver_major (ht_v ht))) as Hn. pose proof (si_major _ _ I (ht_t ht) (ver_major (ht_v ht))) as Hm.
    unfold major_head in Hn. unfold cs_find. destruct (cs_set st !! ht_t ht) as [vs|]; simpl in *.
    + destruct (vs !! ver_major (ht_v ht)) as [v|]; simpl.
      * destruct (proj2 Hm ltac:(by eexists)) as [h Eh]. rewrite Eh in Hn. by exists h.
      * by destruct (cs_hints st !! ht_t ht ≫= _).
    + by destruct (cs_hints st !! ht_t ht ≫= _).
  - pose proof (si_head _ _ I (ht_t ht)) as Hn. pose proof (si_type _ _ I (ht_t ht)) as Hm. unfold type_head in Hn. unfold cs_findBytType.
    destruct (cs_typeheads st !! ht_t ht) as [v|]; simpl in *.
    + destruct (proj2 Hm ltac:(by eexists)) as [h Eh]. rewrite Eh in Hn |- *. done.
    + by destruct (cs_typeheadhints st !! ht_t ht).
Qed.
End newest.

(** ** An example *)
Section demo.
(** Versions of one digit each. *)
Definition digit (c : ascii) : option Z := if is_digit c then Some (Z.of_N (N_of_ascii c) - 48) else None.
Definition demo_NewVersion (s : string) : option (string * (Z * Z * Z) * string) :=
  match s with
  | String _ (String a (String _ (String b (String _ (String c ""))))) =>
      match digit a, digit b, digit c with Some x, Some y, Some z => Some (skip s, (x, y, z), "") | _, _, _ => None end
  | _ => None
  end.
#[local] Instance demo_semver : Semver := {| semver_NewVersion := demo_NewVersion; stdsemver_IsValid s := bool_decide (is_Some (demo_NewVersion s)) |}.
(** A cache of one entry. *)
#[local] Instance demo_cache : GCache (fun V => option (string * V)) := {|
  gc_New V := None;
  gc_Get V k c := (match c with Some (k', v) => if bool_decide (k = k') then Some v else None | None => None end, c);
  gc_Set V k v c := Some (k, v);
  gc_Remove V k c := match c with Some (k', v) => if bool_decide (k = k') then None else c | None => None end;
  gc_Purge V _ := None;
  gc_Keys V c := match c with Some (k, _) => [k] | None => [] end
|}.
Abbreviation demo_set := (CompatibleSet Z (fun V => option (string * V))).
Definition demo_hints : list (Hint * Z) := [(EnsureParseHint "abc-v1.2.0", 12); (EnsureParseHint "abc-v2.0.0", 20); (EnsureParseHint "abc-v1.1.3", 11); (EnsureParseHint "abc-v1.3.0", 13)].
Example demo_find : (Find 0 (EnsureParseHint "abc-v1.0.0") (add_all demo_hints : demo_set)).1 = Some 13 /\
  (Find 0 (EnsureParseHint "abc-v3.0.0") (add_all demo_hints : demo_set)).1 = None /\
  (snd <$> (FindBytType 0 "abc" (add_all demo_hints : demo_set)).1) = Some 20.
Proof. by vm_compute. Qed.
Lemma Find_newest_witness : exists h, newest (of_major "abc" 1) demo_hints h 13.
Proof.
  pose proof (proj1 (Find_newest (C := fun V => option (string * V)) 0 demo_hints (EnsureParseHint "abc-v1.0.0")
    ltac:(intros h v Hin; unfold demo_hints in Hin; rewrite !elem_of_cons, elem_of_nil in Hin; repeat destruct Hin as [[= -> _]|Hin]; done))) as Hf.
  exact Hf.
Defined.

(** With a cache, an older version that was added is found under its own hint until
    something else is in the one place of the cache; without one it is the newer. *)
Definition demo_cached : demo_set := NewCompatibleSet 9.
Definition demo_v1 : Hint := EnsureParseHint "abc-v1.0.0".
Definition demo_v2 : Hint := EnsureParseHint "abc-v1.2.0".
Definition after_add (h : Hint) (v : Z) (st : demo_set) : demo_set := match cs_add h v st with Ok st => st | _ => st end.
Example cached_find :
  (Find 0 demo_v1 (after_add demo_v1 10 (after_add demo_v2 12 demo_cached))).1 = Some 10 /\
  (Find 0 demo_v1 (after_add demo_v1 10 (after_add demo_v2 12 (NewCompatibleSet 0 : demo_set)))).1 = Some 12.
Proof. by vm_compute. Qed.
End demo.
